(* ===== verification/_CoqProject ===== *)
-Q . S2P
Prelude.v
TimeTypes.v
Msp.v
NetpodTypes.v
Retention.v
Ranges.v
SlideBuf.v
ByteBuf.v
Utf8.v
Items.v
Frame.v
FrameStream.v
Events.v
Merger.v
MergerProofs.v
RangeFilter.v
Bins.v
Floats.v
Rebin.v
RebinProofs.v
StreamRun.v
CacheReader.v
Timeweight.v
TimeweightProofs.v
ChannelEvents.v
TwStream.v
TwStreamProofs.v
GapFill.v
GapFillProofs.v
GapFillLayers.v
CaProto.v
CaStream.v
CaMessages.v
CaValues.v
CaStreamProofs.v
CaHeap.v
CaHeapProofs.v
CaHeapRouting.v
CaHeapLive.v
Conn.v
ConnProofs.v
Writers.v
WriterProofs.v
BinWriter.v
BinWriterProofs.v
Pipeline.v
Nom.v
ChannelConfig.v
ChannelConfigProofs.v
Api1.v
DataIndex.v
DataIndexProofs.v
DataFileProofs.v
EventFull.v
EventFullProofs.v
EventChunker.v
EventChunkerProofs.v
EventChunkerReads.v
HandlerFetch.v
Handler.v
HandlerFetchProofs.v
HandlerProofs.v
HandlerSafety.v
HandlerSession.v
HandlerRun.v
HandlerCalm.v
HandlerHang.v
HandlerFifo.v
EvStore.v
EvStoreProofs.v
LspSingleProofs.v
LspMulti.v
LspMultiProofs.v
LspMultiRun.v
LspMultiReads.v
LspMerge.v
LspMergeProofs.v
ReadAdapters.v
ClKsMerged.v
ClKsMergedProofs.v
