(* ===== verification/Prelude.v ===== *)
(** * Verification of daqbuf: ingest, data model, streams, merging and binning

    daqbuf stores time series of a control system and serves them as events or
    as bins. On the way in, events come as messages of the channel access protocol
    over a byte stream; a connection hands them to its channels; the writers of a
    series put events, the addresses of their partitions and bins into the queues of
    the stores. On the way out, a query becomes a range and a binning grid; the
    nodes read their events from the partitions of the stores and send them as
    frames over byte streams; the receiving node parses
    the frames, merges the event streams of all nodes, bins the events, and caches
    the bins under an address (partitioning, patch, place in the patch). This
    development follows both paths. Definitions carry the names of the code, with the name of
    the type as a prefix where methods of several types share one ([tw_ingest]
    is [BinnedEventsTimeweight::ingest]).

    ** Files

    - [Prelude] (this file): outcomes of calls and their notations, machine
      integers, bytes and their numbers, decimal printing and parsing, the
      functions of the standard library that the code uses on slices
      ([partition_point], [position]), the [codec] tactic and the hint databases.
    - [TimeTypes]: [DtNano], [DtMs], [TsNano], [TsMs] of
      [daqbuf-netpod/src/netpod.rs].
    - [Msp]: [PrebinnedPartitioning] of [daqbuf-series/src/msp.rs].
    - [NetpodTypes]: [SeriesKind], [ScalarType], [ByteOrder], [Shape], [AggKind]
      of [netpod.rs] with their encodings.
    - [Retention]: [ttl.rs], [channelstatus.rs], [histo.rs] of [daqbuf-netpod].
    - [Ranges]: [range/evrange.rs], and from [netpod.rs] the trait [Dim0Index],
      [BinnedRange], [BinnedRangeEnum], [PreBinnedPatchCoord].
    - [SlideBuf]: [daqbuf-streams/src/slidebuf.rs].
    - [Items]: [daqbuf-items-0/src/streamitem.rs].
    - [Frame]: [frame.rs], [framable.rs], [inmem.rs] of [daqbuf-items-2/src].
    - [FrameStream]: [daqbuf-streams/src/frames/inmem.rs].
    - [Events]: [binning/container_events.rs] of [daqbuf-items-2/src], and
      [daqbuf-items-0/src/merge.rs].
    - [Merger], [MergerProofs]: [daqbuf-items-2/src/merger.rs].
    - [RangeFilter]: [daqbuf-streams/src/rangefilter2.rs].
    - [Bins]: [binning/container_bins.rs] of [daqbuf-items-2/src].
    - [Floats]: IEEE arithmetic and [binning/aggregator.rs].
    - [Rebin], [RebinProofs]: [binning/timeweight/timeweight_bins.rs],
      [timeweight_bins_lazy.rs], [timeweight_bins_stream.rs] and the aggregators
      of [binning/container/bins.rs].
    - [Timeweight], [TimeweightProofs]:
      [binning/timeweight/timeweight_events.rs] of [daqbuf-items-2/src].
    - [ChannelEvents]: [channelevents.rs] of [daqbuf-items-2/src], the items of the
      streams, with containers of any type of value.
    - [TwStream], [TwStreamProofs]: [binning/timeweight/timeweight_events_dyn.rs],
      the stream of bins over [Timeweight], and the stream in front of it,
      [events/convertforbinning.rs] of [daqbuf-streams/src].
    - [Pipeline]: the merger and this stream together.
    - [StreamRun]: a stream is polled to its end.
    - [CacheReader]: [CacheUsage] of [daqbuf-netpod/src/query.rs], and
      [timebin/opts.rs], [timebin/grid.rs], [timebin/cached/reader.rs] of
      [daqbuf-streams/src], the reader of cached bins.
    - [GapFill]: [timebin/gapfill.rs], [timebin/fromevents.rs] and
      [timebin/fromlayers.rs], cached bins with their gaps filled from finer bins.
      [GapFillProofs] is about one layer, [GapFillLayers] about all of them.
    - [ByteBuf], [Utf8]: what the code uses of the crate slidebuf and of
      [String::from_utf8_lossy].
    - [CaProto], [CaStream]: [daqbuf-ca-proto/src/ca/proto.rs], the messages with
      their bytes, and the stream of messages over a socket. [CaMessages] and
      [CaValues] are about single messages, [CaStreamProofs] about the stream.
    - [CaHeap]: [ca/conn2/conn/channelheap.rs], [ca/conn2/caids.rs] and
      [asynbuf.rs] of [daqbuf-netfetch/src], the channels of one connection;
      [CaHeapProofs], [CaHeapRouting] and [CaHeapLive] are about it.
    - [HandlerFetch], [Handler]: the handler of a channel,
      [ca/conn2/conn/channelheap/channelhandler.rs] with [create.rs], [running.rs],
      [fetchmpx.rs], [fetchpolling.rs] and [fetchmonitoring.rs] below it, and
      [ca/conn2/locallog.rs]. [HandlerFetchProofs] and [HandlerProofs] make it fit
      for [CaHeap]; [HandlerSafety] and [HandlerCalm] are about panics,
      [HandlerSession] and [HandlerRun] about the protocol that it keeps,
      [HandlerFifo] about the values of a monitor, [HandlerHang] about what does
      not end.
    - [Conn]: a connection to a channel access server: [handshake.rs],
      [activeca.rs] and [connected.rs] of [ca/conn2/conn], [ca/conn2/protowrap.rs],
      and [ca/conn2/conn.rs], its owner with the task around it, over [CaStream]
      and [CaHeap]; [ConnProofs] is about it.
    - [Writers], [WriterProofs]: [msptool.rs], [fixgridwriter.rs], [writer.rs],
      [ratelimitwriter.rs], [rtwriter.rs] of [daqbuf-serieswriter/src], and the
      queues of [daqbuf-scywr/src] that they fill.
    - [BinWriter], [BinWriterProofs]: [binwriter.rs] of [daqbuf-serieswriter/src].
    - [EvStore]: the requests for stored events, the stream of partitions and the
      stream of the events of one: [events3/msplsp.rs], [mspfwd.rs], [mspbck.rs],
      [lspfwd.rs], [lsplst.rs], [ks/lsp_fwd_msp_single.rs] and [range.rs] of
      [daqbuf-scyllaconn/src]; [EvStoreProofs] says what a database with a store
      behind it answers, [LspSingleProofs] what the stream of a partition gives.
    - [LspMulti]: [events3/ks/lsp_fwd_msp_multi.rs], the events of all partitions;
      [LspMultiProofs], [LspMultiRun] and [LspMultiReads] are about it.
    - [LspMerge], [LspMergeProofs]: [events3/ks/lspmerge.rs], the merge of the
      keyspaces.
    - [ReadAdapters]: [withlenhisto.rs] and [dedup.rs] of [daqbuf-streams/src].
    - [ClKsMerged]: [events3/ks/clksmerge.rs] and [bck_events_lst.rs], the options
      of [worker.rs], and [daqbuf-nodenet/src/scylla.rs]: a read of a channel.
      [ClKsMergedProofs] is about it.
    - [Nom]: the parsers of the crate nom that the code combines.
    - [ChannelConfig], [ChannelConfigProofs]: [channelconfig.rs] of
      [daqbuf-parse/src], the configuration of a channel in the archive.
    - [Api1]: [api1_parse.rs] of [daqbuf-parse/src].
    - [DataIndex], [DataIndexProofs], [DataFileProofs]: [index.rs] of
      [daqbuf-disk/src], the searches in an index and in a data file.
    - [EventFull], [EventFullProofs]: [eventfull.rs] of [daqbuf-items-2/src].
    - [EventChunker], [EventChunkerProofs], [EventChunkerReads]: the buffer
      [needminbuffer.rs] of [daqbuf-streams/src] and the parser of data files,
      [eventchunker.rs] of [daqbuf-disk/src].

    ** How code becomes definitions

    An integer is a [Z]; addition, subtraction and multiplication of [u64] wrap
    around ([u64_add]), as in the release build that the README tells to make.
    Division by zero and failed assertions are the outcome [Panic], an error
    value is [Err]; [let?] is the question mark operator. A method with
    [&mut self] takes the state and returns the new one. Where a method changes
    its state and fails, both are returned ([SlideBuf], [FrameStream],
    [Merger], [CaStream], the queues of [BinWriter]); in [Timeweight] and [Rebin] a failure leaves no state because the
    caller drops the binner. Log output is left out, and texts inside error values.

    A stream polls its upstream. The upstream is here the list of what its polls
    return, "not ready" included, followed by its end; so a theorem about all
    such lists is about all interleavings of readiness. One poll of a stream
    is one call of [fs_poll_next], [mg_poll_next], [rf_poll_next], [tws_poll_next] or
    [bs_poll_next], and [fs_drain], [mg_drain] and so on poll
    until the end. The channel access stream is polled ([cp_poll_next]) while
    messages to send are pushed ([cp_run] takes any sequence of the two), and
    [heap_step] is what can happen to a heap of channels ([heap_poll_next] among
    it); the theorems are about all such sequences. Likewise [hd_run] takes a handler
    of a channel through any sequence of polls, messages, commands and answers,
    [cd_run] a connection and [cx_run] its owner through any of commands and polls.
    Time is an argument of what reads the clock; a timer is its deadline. In the
    read of stored events time is the number of polls of a stream so far, and a
    request is answered some polls later; [lm_run] takes the clock as an argument,
    so that it can also go on within a poll ([lm_loses]).

    ** Interfaces

    - [Dim0Index] with [Dim0Laws] (Ranges): an axis, which both [TsNano] and
      [PulseId] instantiate. The theorems on grids and patches need only the laws.
    - [FrameCodec] with [FrameCodecLaws] (Frame): the checksum of [crc32fast], the
      encoders of [postcard] and [serde_json], and what the [time] crate makes of the
      format description of a log item's time, which are external. The laws:
      a checksum is a [u32], the type of the data has an identifier of its own,
      decoding undoes encoding, and the format of a time holds it to the microsecond
      and no further. [toy_codec] satisfies them.
    - [MergeableTy] with [MergeableLaws] (Events): containers sorted by time that
      can be drained into each other. [ContainerEvents] and [ContainerBins]
      discharge the laws, and so do [EventFull] and, for containers of one type, [ChannelEvents]; the
      theorems on the merger and on the range filter use nothing else.
    - [MergeablePpLaws] (LspMergeProofs): one search more, which [LspMerge] uses.
    - [EventsDb] with [DbLaws] (EvStore, EvStoreProofs): what the database and the
      channels to it answer to the four statements for events, and when. The laws
      are what the statements say of a store of rows, each answered after at most
      [D] polls; [store_db] answers from a store and satisfies them.
    - [EventValueType] (Events): the size and the comparison of a value.
    - [AggregatorTimeWeight] with [AggregatorTimeWeightLaws] (Floats): the
      aggregator of a bin. The law is that both resets give the new aggregator;
      the aggregators of the code are instances. [AggBinValTw] and its laws (Rebin)
      are the same for averages of averages.
    - [NetBuf] with [NetBufLaws] (ByteBuf): the buffer of the crate slidebuf, a
      bounded queue of bytes; [SlideBuf], its copy in the repository, satisfies the
      laws. [CaEnv] (CaStream): the clock, the capacity of the
      result queue and the texts of two errors.
    - [ChannelHandlerOps] with [ChannelHandlerLaws] and [ChannelHandlerFinite]
      (CaHeap): the handler of one channel, a state machine that takes the messages
      for it and puts out requests. The laws bound its queue; the last one says that
      it has finitely much left to put out while nothing comes in. [Handler]
      instantiates it ([handler_ops], [handler_laws], [handler_finite]). [RngOps] (HandlerFetch): the
      random numbers; [HandlerEnv] (Handler): identifiers, configuration and the
      parameters of the heap.
    - [ChanHeapOps] with [ChanHeapLaws] (Conn): the channels of a connection, as the
      connection uses them; [channel_heap_ops] is [CaHeap] as one, and
      [channel_heap_laws] its laws. [ChanHeapRec] (ConnProofs): channels with a record
      of the messages that they got and put out, which [rec_ops] adds to any.
      [ConnEnv], [CaConnEnv] (Conn): the clock, the random numbers of the ticker, the
      result of connecting, and whether an answer can be sent.
    - [Nom] with [NomLaws] (Nom): the parsers of the crate nom; [nom_std] satisfies
      the laws. [SortUnstable] with its laws (ChannelConfig): a sort that need not
      keep the order of equal keys.
    - [MspSplit] and [EmittableType] (Writers): how events are assigned to
      partitions, and what is written for a value.

    ** What is shown

    - Time-weighted binning ([tw_bins_correct]): the bins of any sorted input,
      however it is cut into containers, tile the grid, and each has the count,
      the extremes, the last value and the weights that a direct reading of the
      events gives. The proof goes through a reference that takes the events bin
      by bin, and a small state of which the state of the binner is a function
      ([state_of]). [tw_output_panics]: a grid of 10001 bins ends in a panic.
    - The stream of bins ([tws_bins]) puts out the same bins in pieces, and on the
      output of the merger the bins of the merged events ([merged_bins]).
    - Merging ([mg_merges]): sorted output, no event invented, and an event lost
      only against one of the same timestamp; the merger ends. The proof is an
      invariant over the pending events of the inputs ([merge_inv]) and a step
      relation ([merge_step]) which every turn of the code refines.
      [mg_never_range_complete]: it never passes the range marker on.
    - Filtering ([rf_filters]): exactly the events of the range, and the last one
      before it when asked for; [rf_one_before_fails] is the case in which that
      fails although it should not.
    - Binning of bins ([bs_rebins], on the stream): one bin for each cell of the
      coarser grid that has events, with the sums and extremes of its input. The
      proof keeps a description of the state by the bins seen so far ([rb_inv]).
    - Cached bins: the reader asks for all bins of a range ([cdr_reads_range]);
      where the cache has none they come from finer bins, and these likewise. What
      comes out is without gap or overlap whatever comes in ([gf_contiguous]); it
      is the cached bins with the gaps filled ([gf_fills]), and through all layers
      it is every bin of the range with the number of its events ([fl_delivers],
      for a cache and an events provider that tell the truth; the bins from events
      are those of [TwStream]). The range marker never comes
      ([gf_never_range_complete]), a bin without events is lost where bins are made
      from finer ones, which is an error ([gf_quiet_channel_fails]), and a gap that
      stays open is an error again and again ([gf_gap_endless]).
    - Stored events: all events of the partitions of a range, in order
      ([lm_reads], by a measure of what is left to do and an invariant through the
      stream of each partition); the merge of the keyspaces ([lspmerge_merges]), and
      the whole read of a channel ([scylla_read_selects]): exactly the events asked
      for ([asked]), of equal times one, those in the range and on request the last
      before it. In these the time stands still within a poll. When it goes on there
      and the request for partitions is answered after the merge has put out an
      item, this item is lost, and only it ([lm_loses]).
    - Frames: [frame_item_round] (make, parse, decode), [parse_sound] (every
      outcome of the parser), [fs_reassembles] (any chunking of the bytes).
    - Buffers: [sb_refines_queue] is a refinement of a bounded store of bytes, for
      all sequences of the public methods; [sb_put_read_round] is about integers.

    - Containers: the cursor ([tk_take_up_to]), the searches ([ce_find_spec]),
      the removal of doubled timestamps ([ce_retain_unique_spec]), the collector
      of bins ([bc_collects]).
    - Grids: [bre_covering_range_covers], [br_covering_range_time_covers],
      [br_edges_grid], [pc_patches_tile]; addresses of pre-binned data:
      [pbp_msp_lsp_bin], [pbp_lsp_inc_next].
    - Channel access: what is delivered is exactly what a stateless cutting of the
      bytes gives ([ca_stream_reassembles]), and in any use, errors and end of
      the peer included, the first part of it ([ca_stream_prefix]); what is sent
      are the messages in order ([ca_output_fifo]). Messages and values survive
      their encoding ([ca_wire_round], [ca_wave_round]); [ca_decode_panics] lists
      the inputs that panic.
    - Channels of a connection: the maps stay inverse to each other
      ([heap_reach_wf]); messages are routed to the channel that asked
      ([subid_routes]) and none is lost or doubled on the way
      ([heap_dispatch_no_loss]) but the answer to a read request that finds the
      queue of its channel full ([heap_ioid_lost]); the loop over the handlers ends ([heap_handlers_settle]).
    - A connection: between the socket and its channels no message is lost, doubled
      or reordered, on the way in after the handshake ([conn_delivers], over the
      stateless cutting of the bytes; up to fifteen messages that wait behind the
      version of the server are dropped with the input of the handshake,
      [handshake_drops]) and on the way out ([conn_sends], with what the buffer and
      the two queues still hold), and commands
      are answered in order ([conn_answers]); one invariant through all layers
      carries the three ([cd_inv]). Two defects: full buffers end it
      ([conn_backpressure_ends]), and a command that waits behind another keeps the
      messages out ([command_blocks_messages]).
    - The handler of a channel: what it puts out is a session of a small protocol,
      whatever happens around it ([hd_run_session], a simulation through its five
      layers); the values of a monitor come out as they went in
      ([monitored_values_in_order]); once the channel runs there are no panics
      ([hd_run_calm]), and it does not keep the connection busy ([hd_settles]).
      Two defects: a polled channel cannot be removed ([polled_remove_hangs]), and
      a lost answer ends the polling ([lost_answer_ends_polling]).
    - Writers: each event in a queue can be found by its address
      ([rw_events_addressable]), the last value reaches the long term store
      ([rw_quiet_settles]); the binners form a chain ([bw_combs_chain]), and the
      bins are written under their addresses with their index entries
      ([bw_bins_written]). [msf_never_retires] is the defect of the channel status
      series.
    - Files of the archive: the configuration is read as it was written
      ([cfg_config_round]), the entry for a range is the one that overlaps it most
      ([matching_entry_best]), the binary searches find what a scan finds
      ([index_searches_scan], [position_scans]), and the reader of a data file
      gives its events, however the file is cut ([ec_reads_file]).
      [parse_entry_panics] lists the configurations that panic,
      [index_searches_total] shows which errors of the index never come.
    - API 1: [api1_frames_round].
    - Codes: every stored, transmitted or displayed form decodes to what it was
      made from ([ScalarType_codes_round], [Shape_codes_round],
      [pbp_codes_round], [AggKind_display_parse], [ChannelStatus_kind_round],
      [rt_durations_fit]).

    ** Fuel

    A loop that is not structural takes fuel, and a theorem states how much
    gives the result.

    - [ib_gt_loop], [ib_ge_loop], [tw_ingest_loop]: each turn takes an event, the
      number of events and one is enough (the definitions pass it).
    - [tw_cycle_loop]: 29999 turns, which is the code's own assertion on their
      number; beyond that the code panics, and so does the model.
    - [mg_poll_next]: the weight of what the inputs have left ([inputs_weight]: events, items
      and polls) and four; [mg_drain]: as many polls and one.
    - [fs_poll_next]: twice the number of polls of the upstream and three;
      [fs_drain]: the frames and those polls, and one.
    - [rf_poll_next]: the polls of the upstream and three; [rf_drain]: three times
      those polls and four. [tws_loop]: the items and events that are left, and two
      ([tws_weight]); [tws_drain]: the polls of the input and three. [bs_loop]: those polls and one, which [bs_poll_next]
      passes; [bs_drain]: two more than those polls.
    - [ca_msgs]: the number of bytes. [cp_read_loop]: what the socket will deliver
      ([rd_weight]) and one; [cp_parse_loop]: twice the bytes in the buffer and
      two; [cp_place_out], [cp_write_out]: the queued messages and the bytes;
      [cp_session]: the polls that are needed at most. [utf8_chars]: the bytes.
    - [heap_dispatch_loop]: the messages and one; [heap_poll_all_handler]: what the
      handlers have left and two; [heap_poll_loop]: 8000, the limit that the code
      has. [bw_tick_ingest_loop]: 20000, also a limit of the code.
    - [fm_poll_loop]: the messages and three; [fx_poll_loop]: the messages before
      both and five; [rn_poll_loop]: 4; [cr_poll_loop]: the messages and four;
      [hd_poll_loop]: commands, messages and ten ([fm_need], [fx_need], [rn_need],
      [hd_need] are what is needed).
    - [pw_flush], [ac_dispatch_loop], [ac_push_loop]: the messages of the buffer and
      one, passed by their callers. [ac_poll_next], [cd_poll_next], [cx_poll_next],
      [ct_poll]: turns of the loops of a poll, which the code does not limit; whether
      they end depends on the clock and the channels. [None] says that the fuel is
      not enough; the theorems on [cd_run] and [cx_run] hold for any fuel, and their
      witnesses run with one that is enough.
    - [find_ge_loop], [find_lst_loop], [position_loop]: the number of entries or
      events, since each turn halves what is left; the theorems count the reads.
    - [ec_parse_loop]: the bytes of the buffer, each turn takes an event;
      [ec_poll_loop]: 4, the turns at the end of the input; [ec_drain]: two polls
      for each poll of the input, and 24 for the log items and the end.
    - [stream_run]: the streams of [CacheReader] and [GapFill] are run to their
      end; the theorems say that from some fuel on the result is the same.
      [gf_stream]: one level for each bin length and one ([fl_delivers]).
    - [lm_poll_all_loop], [lm_check_loop], [lm_state_loop]: 200, 200 and 2000,
      [lpm_poll_all_loop], [lpm_check_loop]: 200 and 140000, the limits of the code;
      the theorems show that they are not met, for up to 199 keyspaces. [lm_run],
      [lpm_run], [wlh_run], [dd_run], [msp_bck_loop], [cl_ks_merged],
      [scylla_read]: from some fuel on the result is the same ([lm_meas] bounds it).
    - [br_edges], [br_edges_u64]: the number of edges and one. [u32_digits]: 10, the
      decimal digits of a [u32]. [histo_po]: 16, the limit that the loop has.

    ** Not modelled

    Serialisation derived by macros, type erasure ([dyn] wrappers), display
    code for logs, the system clock and date parsing. Of the repository, the
    parts listed as such in the manifest: sockets, database statements, HTTP
    handlers and process set-up; of [daqbuf-netfetch] the sockets, the search for
    servers, the sets of connections and the older connection [ca/conn.rs], which
    are tasks around channels and timers, and of the connection the reports of its
    state, its metrics and the JSON commands; of [daqbuf-scyllaconn] the text of the statements and the workers, the
    requests for bins, and the older modules for events. The casts of the values
    in the rows are left out. *)
From Stdlib Require Import ZArith Lia Ascii.
From stdpp Require Import base numbers option strings list sorting.

#[local] Open Scope Z_scope.

(** ** Outcomes

    A call of the program returns a value, returns an error value, or panics
    (failed [assert!], slice index out of range, [unwrap] of [None], division
    by zero). *)
Inductive outcome (E A : Type) : Type :=
  | Ok (a : A)
  | Err (e : E)
  | Panic.

Arguments Ok {E A} a.
Arguments Err {E A} e.
Arguments Panic {E A}.

Declare Scope rust_scope.
Delimit Scope rust_scope with rust.

(** The [?] operator, and the propagation of a panic. *)
Definition and_then {E A B : Type} (m : outcome E A) (k : A -> outcome E B) : outcome E B :=
  match m with
  | Ok a => k a
  | Err e => Err e
  | Panic => Panic
  end.

Notation "'let?' x ':=' m 'in' k" := (and_then m (fun x => k))
  (at level 10, x pattern, m at level 200, k at level 200) : rust_scope.

(** [map_err]. *)
Definition map_err {E F A : Type} (f : E -> F) (m : outcome E A) : outcome F A :=
  match m with
  | Ok a => Ok a
  | Err e => Err (f e)
  | Panic => Panic
  end.

(** [ok_or]. *)
Definition ok_or {E A : Type} (o : option A) (e : E) : outcome E A :=
  match o with Some a => Ok a | None => Err e end.

(** [unwrap]. *)
Definition unwrap {E A : Type} (o : option A) : outcome E A :=
  match o with Some a => Ok a | None => Panic end.

(** [assert!]. *)
Definition assert {E : Type} (b : bool) : outcome E unit :=
  if b then Ok tt else Panic.

Definition is_ok {E A : Type} (m : outcome E A) : Prop := exists a, m = Ok a.

Definition no_panic {E A : Type} (m : outcome E A) : Prop := m <> Panic.

Lemma and_then_ok_inv {E A B : Type} (m : outcome E A) (k : A -> outcome E B) (b : B) :
  and_then m k = Ok b -> exists a, m = Ok a /\ k a = Ok b.
Proof. destruct m; simpl; intros; try discriminate; eauto. Qed.

Lemma and_then_assoc {E A B C : Type} (m : outcome E A) (f : A -> outcome E B) (g : B -> outcome E C) :
  and_then (and_then m f) g = and_then m (fun a => and_then (f a) g).
Proof. by destruct m. Qed.

(** ** Machine integers

    An unsigned [w]-bit integer is a [Z] in [[0, 2^w)]; the release build wraps
    around. *)
Definition wrap (w : Z) (z : Z) : Z := z mod 2 ^ w.

Definition u64_add (a b : Z) : Z := wrap 64 (a + b).
Definition u64_sub (a b : Z) : Z := wrap 64 (a - b).
Definition u64_mul (a b : Z) : Z := wrap 64 (a * b).
Definition u32_add (a b : Z) : Z := wrap 32 (a + b).
Definition u32_sub (a b : Z) : Z := wrap 32 (a - b).
Definition u32_mul (a b : Z) : Z := wrap 32 (a * b).

(** Division and remainder panic on a zero divisor. *)
Definition u_div {E : Type} (a b : Z) : outcome E Z := if b =? 0 then Panic else Ok (a / b).
Definition u_rem {E : Type} (a b : Z) : outcome E Z := if b =? 0 then Panic else Ok (a mod b).

(** [saturating_sub] of unsigned integers, [saturating_add] at width [w]. *)
Definition u_saturating_sub (a b : Z) : Z := if b <=? a then a - b else 0.
Definition u_saturating_add (w a b : Z) : Z := if a + b <? 2 ^ w then a + b else 2 ^ w - 1.

(** [as iN]: two's complement reading of the low [w] bits. *)
Definition to_signed (w z : Z) : Z :=
  let m := z mod 2 ^ w in if m <? 2 ^ (w - 1) then m else m - 2 ^ w.

Definition in_u (w z : Z) : Prop := 0 <= z < 2 ^ w.
Definition in_i (w z : Z) : Prop := - 2 ^ (w - 1) <= z < 2 ^ (w - 1).

Abbreviation is_u8 := (in_u 8).
Abbreviation is_u16 := (in_u 16).
Abbreviation is_u32 := (in_u 32).
Abbreviation is_u64 := (in_u 64).

#[global] Instance in_u_dec w z : Decision (in_u w z).
Proof. unfold in_u. apply _. Defined.

Lemma wrap_small w z : in_u w z -> wrap w z = z.
Proof. unfold wrap, in_u. intros. by apply Z.mod_small. Qed.

Lemma wrap_bound w z : 0 <= w -> in_u w (wrap w z).
Proof. unfold wrap, in_u. intros. apply Z.mod_pos_bound. lia. Qed.

Lemma wrap_idemp w z : wrap w (wrap w z) = wrap w z.
Proof. unfold wrap. apply Zmod_mod. Qed.

Lemma u64_add_small a b : 0 <= a -> 0 <= b -> a + b < 2 ^ 64 -> u64_add a b = a + b.
Proof. intros. apply wrap_small. unfold in_u. lia. Qed.

Lemma u64_sub_small a b : 0 <= b <= a -> a < 2 ^ 64 -> u64_sub a b = a - b.
Proof. intros. apply wrap_small. unfold in_u. lia. Qed.

Lemma u64_mul_small a b : 0 <= a * b < 2 ^ 64 -> u64_mul a b = a * b.
Proof. intros. by apply wrap_small. Qed.

Lemma u64_add_bound a b : is_u64 (u64_add a b).
Proof. apply wrap_bound. lia. Qed.

Lemma u64_sub_bound a b : is_u64 (u64_sub a b).
Proof. apply wrap_bound. lia. Qed.

Lemma u64_mul_bound a b : is_u64 (u64_mul a b).
Proof. apply wrap_bound. lia. Qed.

Lemma u_saturating_sub_spec a b : u_saturating_sub a b = Z.max 0 (a - b).
Proof. unfold u_saturating_sub. destruct (Z.leb_spec b a); lia. Qed.

Lemma u_div_ok {E} a b : b <> 0 -> @u_div E a b = Ok (a / b).
Proof. intros. unfold u_div. by destruct (Z.eqb_spec b 0). Qed.

(** The bits of a signed value, read back. *)
Lemma to_signed_wrap w z : 0 < w -> in_u w z -> wrap w (to_signed w z) = z.
Proof.
  intros Hw Hz. unfold to_signed, wrap. rewrite (Z.mod_small z) by done.
  destruct (Z.ltb_spec z (2 ^ (w - 1))); [by apply Z.mod_small|].
  replace (z - 2 ^ w) with (z + (-1) * 2 ^ w) by lia. rewrite Z.mod_add by lia. by apply Z.mod_small.
Qed.

Lemma to_signed_of_wrap w v : 0 < w -> in_i w v -> to_signed w (wrap w v) = v.
Proof.
  unfold in_i, to_signed, wrap. intros Hw Hv. rewrite Z.mod_mod by lia.
  assert (H2 : 2 ^ w = 2 * 2 ^ (w - 1)) by (rewrite <- Z.pow_succ_r by lia; f_equal; lia).
  destruct (Z.ltb_spec v 0).
  - replace (v mod 2 ^ w) with (v + 2 ^ w).
    + destruct (Z.ltb_spec (v + 2 ^ w) (2 ^ (w - 1))); lia.
    + apply Z.mod_unique with (-1); lia.
  - rewrite Z.mod_small by lia. destruct (Z.ltb_spec v (2 ^ (w - 1))); lia.
Qed.

Create HintDb rust discriminated.
#[export] Hint Resolve wrap_bound u64_add_bound u64_sub_bound u64_mul_bound : rust.
Create Rewrite HintDb rustw.
#[export] Hint Rewrite @u64_add_small @u64_sub_small @u64_mul_small using (unfold in_u in *; lia) : rustw.

(** ** Bytes

    A byte is a [Z] in [[0, 256)]. [to_le_bytes]/[from_le_bytes] of the integer
    types, and their big-endian counterparts. *)
Fixpoint le_bytes (n : nat) (z : Z) : list Z :=
  match n with
  | O => []
  | S n => z mod 256 :: le_bytes n (z / 256)
  end.

Fixpoint of_le_bytes (l : list Z) : Z :=
  match l with
  | [] => 0
  | b :: l => b + 256 * of_le_bytes l
  end.

Definition be_bytes (n : nat) (z : Z) : list Z := rev (le_bytes n z).
Definition of_be_bytes (l : list Z) : Z := of_le_bytes (rev l).

Lemma le_bytes_length n z : length (le_bytes n z) = n.
Proof. revert z. induction n; simpl; intros; by f_equal. Qed.

Lemma be_bytes_length n z : length (be_bytes n z) = n.
Proof. unfold be_bytes. rewrite length_rev. apply le_bytes_length. Qed.

Lemma of_le_bytes_le_bytes n z : of_le_bytes (le_bytes n z) = z mod 2 ^ (8 * Z.of_nat n).
Proof.
  revert z. induction n as [|n IH]; intros z.
  - simpl. rewrite Z.mod_1_r. done.
  - cbn [le_bytes of_le_bytes]. rewrite IH.
    replace (2 ^ (8 * Z.of_nat (S n))) with (256 * 2 ^ (8 * Z.of_nat n)).
    + rewrite Z.rem_mul_r; lia.
    + replace (8 * Z.of_nat (S n)) with (8 + 8 * Z.of_nat n) by lia.
      rewrite Z.pow_add_r by lia. reflexivity.
Qed.

Lemma of_le_bytes_round n z : in_u (8 * Z.of_nat n) z -> of_le_bytes (le_bytes n z) = z.
Proof. intros. rewrite of_le_bytes_le_bytes. by apply Z.mod_small. Qed.

Lemma of_be_bytes_round n z : in_u (8 * Z.of_nat n) z -> of_be_bytes (be_bytes n z) = z.
Proof. intros. unfold of_be_bytes, be_bytes. rewrite rev_involutive. by apply of_le_bytes_round. Qed.

Lemma le_bytes_range n z : Forall is_u8 (le_bytes n z).
Proof.
  revert z. induction n; simpl; constructor; auto.
  unfold in_u. change (2 ^ 8) with 256. apply Z.mod_pos_bound. lia.
Qed.

Lemma be_bytes_range n z : Forall is_u8 (be_bytes n z).
Proof. unfold be_bytes. apply Forall_rev, le_bytes_range. Qed.

Lemma of_le_bytes_bound l : Forall is_u8 l -> in_u (8 * Z.of_nat (length l)) (of_le_bytes l).
Proof.
  unfold in_u. induction 1 as [|b l Hb _ IH]; [done|].
  cbn [of_le_bytes length].
  replace (8 * Z.of_nat (S (length l))) with (8 + 8 * Z.of_nat (length l)) by lia.
  rewrite Z.pow_add_r by lia. change (2 ^ 8) with 256 in *. lia.
Qed.

Lemma le_bytes_of_le_bytes l : Forall is_u8 l -> le_bytes (length l) (of_le_bytes l) = l.
Proof.
  induction 1 as [|b l Hb _ IH]; [done|]. cbn [of_le_bytes length le_bytes].
  unfold in_u in Hb. change (2 ^ 8) with 256 in Hb.
  f_equal.
  - rewrite Z.mul_comm, Z_mod_plus_full. apply Z.mod_small. lia.
  - rewrite Z.mul_comm, Z_div_plus_full by lia. rewrite Z.div_small by lia. apply IH.
Qed.

Lemma of_be_bytes_bound l : Forall is_u8 l -> in_u (8 * Z.of_nat (length l)) (of_be_bytes l).
Proof.
  intros H. unfold of_be_bytes. rewrite <- length_rev. apply of_le_bytes_bound.
  by apply Forall_rev.
Qed.

Lemma be_bytes_of_be_bytes l : Forall is_u8 l -> be_bytes (length l) (of_be_bytes l) = l.
Proof.
  intros H. unfold be_bytes, of_be_bytes. rewrite <- length_rev.
  rewrite le_bytes_of_le_bytes by (by apply Forall_rev). apply rev_involutive.
Qed.

(** ** Slices

    [&l[b..e]] and [l[i]] panic when out of range. *)
Definition slice {E A : Type} (l : list A) (b e : nat) : outcome E (list A) :=
  if bool_decide (b <= e <= length l)%nat then Ok (take (e - b) (drop b l)) else Panic.

Definition index {E A : Type} (l : list A) (i : nat) : outcome E A := unwrap (l !! i).

Lemma slice_ok {E A} (l : list A) b e :
  (b <= e <= length l)%nat -> @slice E A l b e = Ok (take (e - b) (drop b l)).
Proof. intros. unfold slice. by rewrite bool_decide_true. Qed.

Lemma slice_mid {E A} (l1 l2 l3 : list A) b e :
  b = length l1 -> e = (length l1 + length l2)%nat ->
  @slice E A (l1 ++ l2 ++ l3) b e = Ok l2.
Proof.
  intros -> ->. rewrite slice_ok by (rewrite !length_app; lia).
  rewrite drop_app_length. rewrite take_app_length' by lia. done.
Qed.

Lemma slice_prefix {E A} (l1 l2 : list A) e :
  e = length l1 -> @slice E A (l1 ++ l2) 0 e = Ok l1.
Proof. intros ->. apply (slice_mid [] l1 l2); [done|done]. Qed.

Lemma slice_ok_inv {E A} (l r : list A) b e :
  @slice E A l b e = Ok r -> (b <= e <= length l)%nat /\ r = take (e - b) (drop b l).
Proof. unfold slice. case_bool_decide; [intros [= <-]; auto | discriminate]. Qed.

Lemma take_take_drop_app {A} (l r : list A) n m :
  take n l ++ take m (drop n l) ++ r = take (n + m) l ++ r.
Proof. by rewrite app_assoc, take_take_drop. Qed.

(** ** Searching

    [partition_point] of a slice whose elements satisfying the predicate come
    first; [position] of the first element satisfying it. *)
Fixpoint partition_point {A : Type} (f : A -> bool) (l : list A) : nat :=
  match l with
  | [] => O
  | x :: l => if f x then S (partition_point f l) else O
  end.

Lemma partition_point_le {A} (f : A -> bool) l : (partition_point f l <= length l)%nat.
Proof. induction l as [|x l IH]; simpl; [lia|]. destruct (f x); lia. Qed.

Lemma partition_point_before {A} (f : A -> bool) l i x :
  (i < partition_point f l)%nat -> l !! i = Some x -> f x = true.
Proof.
  revert i. induction l as [|y l IH]; simpl; intros i Hi Hx; [lia|].
  destruct (f y) eqn:Hy; [|lia]. destruct i; simplify_eq/=; auto.
  eapply IH; [|done]. lia.
Qed.

Lemma partition_point_app {A} (f : A -> bool) l k :
  Forall (fun x => f x = true) l -> partition_point f (l ++ k) = (length l + partition_point f k)%nat.
Proof. induction 1 as [|x l Hx _ IH]; simpl; [done|]. by rewrite Hx, IH. Qed.

Lemma partition_point_at {A} (f : A -> bool) l x :
  l !! partition_point f l = Some x -> f x = false.
Proof.
  induction l as [|y l IH]; simpl; [done|]. destruct (f y) eqn:Hy; simpl; intros; simplify_eq; auto.
Qed.

Lemma partition_point_take {A} (f : A -> bool) l : Forall (fun x => f x = true) (take (partition_point f l) l).
Proof.
  induction l as [|y l IH]; simpl; [done|]. destruct (f y) eqn:Hy; simpl; auto.
Qed.

Fixpoint position {A : Type} (f : A -> bool) (l : list A) : option nat :=
  match l with
  | [] => None
  | x :: l => if f x then Some O else S <$> position f l
  end.

Lemma position_app {A} (f : A -> bool) l x k :
  Forall (fun y => f y = false) l -> f x = true -> position f (l ++ x :: k) = Some (length l).
Proof. intros Hl Hx. induction Hl as [|y l Hy _ IH]; simpl; [by rewrite Hx|]. by rewrite Hy, IH. Qed.

(** ** Decimal integers

    The [Display] form of a [u32] and [str::parse::<u32>]: an optional plus
    sign, at least one digit, and every step within 32 bits. *)
Definition digit_char (d : Z) : Ascii.ascii := Ascii.ascii_of_nat (48 + Z.to_nat d).

Definition digit_val (c : Ascii.ascii) : option Z :=
  let n := Ascii.nat_of_ascii c in
  if ((48 <=? n) && (n <=? 57))%nat then Some (Z.of_nat (n - 48)) else None.

(** Ten digits hold any 32-bit value. *)
Fixpoint u32_digits (fuel : nat) (n : Z) (acc : string) : string :=
  match fuel with
  | O => acc
  | S fuel =>
      let acc := String (digit_char (n mod 10)) acc in
      if n / 10 =? 0 then acc else u32_digits fuel (n / 10) acc
  end.

Definition u32_to_string (n : Z) : string := u32_digits 10 n EmptyString.

Fixpoint parse_u32_digits (acc : Z) (s : string) : option Z :=
  match s with
  | EmptyString => Some acc
  | String c s =>
      match digit_val c with
      | None => None
      | Some d =>
          if (acc * 10 <? 2 ^ 32) && (acc * 10 + d <? 2 ^ 32)
          then parse_u32_digits (acc * 10 + d) s
          else None
      end
  end.

Definition parse_u32 (s : string) : option Z :=
  match s with
  | EmptyString => None
  | String c rest =>
      if Ascii.eqb c "+"%char
      then match rest with EmptyString => None | _ => parse_u32_digits 0 rest end
      else parse_u32_digits 0 s
  end.

Lemma digit_val_char d : 0 <= d < 10 -> digit_val (digit_char d) = Some d /\ digit_char d <> "+"%char.
Proof.
  intros H. assert (Hd : d = 0 \/ d = 1 \/ d = 2 \/ d = 3 \/ d = 4 \/ d = 5 \/ d = 6 \/ d = 7 \/ d = 8 \/ d = 9) by lia.
  destruct Hd as [->|[->|[->|[->|[->|[->|[->|[->|[->| ->]]]]]]]]]; split; (reflexivity || discriminate).
Qed.

Lemma u32_digits_parse fuel n acc :
  in_u 32 n -> n < 10 ^ Z.of_nat fuel -> (0 < fuel)%nat ->
  parse_u32_digits 0 (u32_digits fuel n acc) = parse_u32_digits n acc /\
  exists d s, u32_digits fuel n acc = String (digit_char d) s /\ 0 <= d < 10.
Proof.
  unfold in_u. revert n acc. induction fuel as [|fuel IH]; intros n acc Hn Hf Hpos; [lia|].
  pose proof (Z.div_mod n 10 ltac:(lia)) as Hdm. pose proof (Z.mod_pos_bound n 10 ltac:(lia)) as Hm.
  destruct (digit_val_char (n mod 10) Hm) as [Hdv _].
  cbn [u32_digits]. destruct (Z.eqb_spec (n / 10) 0) as [Hz|Hnz].
  - split; [|eauto]. cbn [parse_u32_digits]. rewrite Hdv.
    replace (0 * 10 + n mod 10) with n by lia.
    rewrite (proj2 (Z.ltb_lt n _)) by lia. done.
  - assert (0 < n / 10) by (assert (0 <= n / 10) by (apply Z.div_pos; lia); lia).
    destruct fuel as [|fuel]; [simpl in Hf; lia|].
    destruct (IH (n / 10) (String (digit_char (n mod 10)) acc)) as [He Hex].
    + split; [lia|]. apply Z.div_lt_upper_bound; lia.
    + apply Z.div_lt_upper_bound; [lia|].
      replace (Z.of_nat (S (S fuel))) with (Z.succ (Z.of_nat (S fuel))) in Hf by lia.
      rewrite Z.pow_succ_r in Hf by lia. lia.
    + lia.
    + split; [|done]. rewrite He. cbn [parse_u32_digits]. rewrite Hdv.
      replace (n / 10 * 10 + n mod 10) with n by lia.
      rewrite !(proj2 (Z.ltb_lt _ _)) by lia. done.
Qed.

Lemma parse_u32_round n : in_u 32 n -> parse_u32 (u32_to_string n) = Some n.
Proof.
  intros Hn. unfold u32_to_string.
  destruct (u32_digits_parse 10 n EmptyString Hn) as [He (d & s & Hs & Hd)].
  { unfold in_u in Hn. simpl. lia. }
  { lia. }
  rewrite Hs in *. unfold parse_u32.
  destruct (Ascii.eqb_spec (digit_char d) "+"%char) as [Hc|_].
  - destruct (digit_val_char d Hd); done.
  - done.
Qed.

(** ** Grids *)

Lemma floor_grid x b : 0 < b -> x / b * b <= x < (x / b + 1) * b.
Proof. intros. pose proof (Z.div_mod x b). pose proof (Z.mod_pos_bound x b). nia. Qed.

Lemma ceil_grid x b : 0 < b -> ((x + b - 1) / b - 1) * b < x <= (x + b - 1) / b * b.
Proof. intros Hb. pose proof (floor_grid (x + b - 1) b Hb). nia. Qed.

Lemma ceil_floor_le x y b : 0 < b -> x <= y -> x / b <= (y + b - 1) / b.
Proof. intros. apply Z.div_le_mono; lia. Qed.

Lemma ceil_grid_spec x b q : 0 < b -> (q - 1) * b < x <= q * b -> (x + b - 1) / b = q.
Proof. intros Hb Hq. pose proof (ceil_grid x b Hb). nia. Qed.

Lemma floor_grid_spec x b q : 0 < b -> q * b <= x < (q + 1) * b -> x / b = q.
Proof. intros Hb Hq. pose proof (floor_grid x b Hb). nia. Qed.

(** ** Sorted timestamps *)

Lemma sorted_lookup (l : list Z) i j x y :
  StronglySorted Z.le l -> (i <= j)%nat -> l !! i = Some x -> l !! j = Some y -> x <= y.
Proof.
  intros Hs. revert i j. induction Hs as [|a l Hs IH Hall]; intros i j Hij Hi Hj; [done|].
  destruct i as [|i], j as [|j]; simplify_eq/=; try lia.
  - by apply (Forall_lookup_1 _ _ _ _ Hall Hj).
  - apply (IH i j); [lia|done|done].
Qed.

Lemma sorted_app_inv (l1 l2 : list Z) :
  StronglySorted Z.le (l1 ++ l2) ->
  StronglySorted Z.le l1 /\ StronglySorted Z.le l2 /\ (forall x y, x ∈ l1 -> y ∈ l2 -> x <= y).
Proof.
  induction l1 as [|a l1 IH]; simpl; intros Hs.
  - split; [constructor|]. split; [done|]. intros x y Hx. by apply not_elem_of_nil in Hx.
  - inversion Hs as [|? ? Hs' Hall]; subst. apply Forall_app in Hall as [H1 H2].
    destruct (IH Hs') as (Ha & Hb & Hc). split; [by constructor|]. split; [done|].
    intros x y Hx Hy. apply elem_of_cons in Hx as [->|Hx]; [|by apply Hc].
    rewrite Forall_forall in H2. by apply H2.
Qed.

Lemma sorted_app (l1 l2 : list Z) :
  StronglySorted Z.le l1 -> StronglySorted Z.le l2 -> (forall x y, x ∈ l1 -> y ∈ l2 -> x <= y) ->
  StronglySorted Z.le (l1 ++ l2).
Proof.
  intros H1 H2 H. induction H1 as [|a l1 Hs IH Hall]; simpl; [done|]. constructor.
  - apply IH. intros x y Hx. apply H. by right.
  - apply Forall_app. split; [done|]. apply Forall_forall. intros y. apply H. by left.
Qed.

(** On a sorted list the predicates [< ts] and [<= ts] are monotone: the
    partition point splits the list by the predicate. *)
Lemma partition_point_after (f : Z -> bool) (l : list Z) i x :
  StronglySorted Z.le l -> (forall x y, x <= y -> f y = true -> f x = true) ->
  (partition_point f l <= i)%nat -> l !! i = Some x -> f x = false.
Proof.
  intros Hs Hmono Hi Hx.
  destruct (l !! partition_point f l) as [y|] eqn:Hy.
  - pose proof (partition_point_at f l y Hy) as Hfy.
    pose proof (sorted_lookup l _ _ y x Hs Hi Hy Hx) as Hle.
    destruct (f x) eqn:Hfx; [|done]. by rewrite (Hmono y x Hle Hfx) in Hfy.
  - apply lookup_ge_None in Hy. apply lookup_lt_Some in Hx. lia.
Qed.

Lemma ltb_mono ts x y : x <= y -> (y <? ts) = true -> (x <? ts) = true.
Proof. rewrite !Z.ltb_lt. lia. Qed.

Lemma leb_mono ts x y : x <= y -> (y <=? ts) = true -> (x <=? ts) = true.
Proof. rewrite !Z.leb_le. lia. Qed.

Lemma sorted_snoc {A} (R : A -> A -> Prop) l x : StronglySorted R l -> Forall (fun y => R y x) l -> StronglySorted R (l ++ [x]).
Proof.
  intros Hs. induction Hs as [|a l Hs IH Ha]; intros Hf; [by repeat constructor|]. inversion Hf; subst.
  cbn [app]. constructor; [by apply IH|]. apply Forall_app. by split; [|constructor].
Qed.

(** ** Filters *)

Lemma filter_true {A} (P : A -> Prop) `{forall x, Decision (P x)} l : Forall P l -> filter P l = l.
Proof. induction 1 as [|x l Hx _ IH]; [done|]. by rewrite filter_cons, decide_True, IH. Qed.

Lemma filter_false {A} (P : A -> Prop) `{forall x, Decision (P x)} l : Forall (fun x => ~ P x) l -> filter P l = [].
Proof. induction 1 as [|x l Hx _ IH]; [done|]. by rewrite filter_cons, decide_False. Qed.

(** A sorted list is cut at its partition point. *)
Lemma partition_point_split {A} (l : list (Z * A)) x :
  StronglySorted Z.le l.*1 -> let k := partition_point (fun t => t <? x) l.*1 in
  filter (fun e => e.1 < x) l = take k l /\ filter (fun e => x <= e.1) l = drop k l.
Proof.
  induction l as [|e l IH]; intros Hs; [done|]. rewrite fmap_cons in *. inversion Hs as [|? ? Hs' Hall]; subst.
  rewrite Forall_fmap in Hall. cbn [partition_point]. rewrite !filter_cons. destruct (Z.ltb_spec e.1 x).
  - destruct (IH Hs') as [H1 H2]. rewrite decide_True, decide_False by lia. cbn [take drop]. by rewrite H1, H2.
  - rewrite decide_False, decide_True by lia. cbn [take drop].
    rewrite filter_false by (eapply Forall_impl; [exact Hall|]; simpl; lia).
    rewrite filter_true by (eapply Forall_impl; [exact Hall|]; simpl; lia). done.
Qed.
