(* ===== verification/TimeTypes.v ===== *)
(** * Time quantities

    The newtypes over [u64] of [daqbuf-netpod/src/netpod.rs] ([DtNano], [DtMs],
    [TsNano], [TsMs]): an integer of their unit, with wrapping arithmetic. *)
From Stdlib Require Import ZArith Lia.
From stdpp Require Import base numbers option strings list.
From S2P Require Import Prelude.

#[local] Open Scope Z_scope.
#[local] Open Scope rust_scope.

Abbreviation DtNano := Z (only parsing).
Abbreviation DtMs := Z (only parsing).
Abbreviation TsNano := Z (only parsing).
Abbreviation TsMs := Z (only parsing).

(** [timeunits] *)
Definition MU : Z := 1000.
Definition MS : Z := MU * 1000.
Definition SEC : Z := MS * 1000.
Definition MIN : Z := SEC * 60.
Definition HOUR : Z := MIN * 60.
Definition DAY : Z := HOUR * 24.

(** [impl DtNano] *)
Definition DtNano_from_ns (ns : Z) : DtNano := ns.
Definition DtNano_from_ms (ms : Z) : DtNano := u64_mul 1000000 ms.
Definition DtNano_from_sec (sec : Z) : DtNano := u64_mul 1000000000 sec.
Definition DtNano_ns (d : DtNano) : Z := d.
Definition DtNano_ms_u64 (d : DtNano) : Z := d / 1000000.
Definition DtNano_sec_u64 (d : DtNano) : Z := d / 1000000000.
Definition DtNano_to_i64 (d : DtNano) : Z := to_signed 64 d.
Definition DtNano_add (d rhs : DtNano) : DtNano := u64_add d rhs.
Definition DtNano_mul_u64 (d : DtNano) (x : Z) : DtNano := u64_mul d x.

(** [impl DtMs] *)
Definition DtMs_from_nano_u64 (x : Z) : DtMs := x / 1000000.
Definition DtMs_from_ms_u64 (x : Z) : DtMs := x.
Definition DtMs_ms (d : DtMs) : Z := d.
Definition DtMs_ns (d : DtMs) : Z := u64_mul 1000000 d.
Definition DtMs_dt_ns (d : DtMs) : DtNano := DtNano_from_ms d.
Definition DtMs_to_i64 (d : DtMs) : Z := to_signed 64 d.
Definition DtMs_mul (d : DtMs) (x : Z) : DtMs := u64_mul d x.

(** [impl TsMs] *)
Definition TsMs_from_ms_u64 (x : Z) : TsMs := x.
Definition TsMs_from_ns_u64 (x : Z) : TsMs := x / 1000000.
Definition TsMs_ms (t : TsMs) : Z := t.
Definition TsMs_ns_u64 (t : TsMs) : Z := u64_mul 1000000 t.
Definition TsMs_sec (t : TsMs) : Z := t / 1000.
Definition TsMs_to_i64 (t : TsMs) : Z := to_signed 64 t.
Definition TsMs_to_grid_02 {E} (t : TsMs) (grid : DtMs) : outcome E (TsMs * DtMs) :=
  let? q := u_div t grid in
  let msp := u64_mul q grid in
  Ok (msp, u64_sub t msp).
Definition TsMs_bump_epsilon (t : TsMs) : TsMs := u64_add t 1.
Definition TsMs_add_dt_ms (t : TsMs) (dt : DtMs) : TsMs := u64_add t dt.
Definition TsMs_sub (t rhs : TsMs) : DtMs := u_saturating_sub t rhs.

(** [impl TsNano] *)
Definition TsNano_from_ns (ns : Z) : TsNano := ns.
Definition TsNano_from_ms (ms : Z) : TsNano := u64_mul 1000000 ms.
Definition TsNano_ns (t : TsNano) : Z := t.
Definition TsNano_ms (t : TsNano) : Z := t / 1000000.
Definition TsNano_add_dt_nano (t : TsNano) (v : DtNano) : TsNano := u64_add t v.
Definition TsNano_sub (t : TsNano) (v : DtNano) : TsNano := u64_sub t v.
Definition TsNano_delta (t v : TsNano) : DtNano := u64_sub t v.
Definition TsNano_add_ns (t : TsNano) (v : Z) : TsNano := u64_add t v.
Definition TsNano_mul (t : TsNano) (v : Z) : TsNano := u64_mul t v.
Definition TsNano_div {E} (t : TsNano) (v : Z) : outcome E TsNano := u_div t v.
Definition TsNano_to_ts_ms (t : TsNano) : TsMs := TsMs_from_ms_u64 (TsNano_ms t).
Definition TsNano_to_dt_nano (t : TsNano) : DtNano := DtNano_from_ns t.
Definition TsNano_to_dt_ms (t : TsNano) : DtMs := DtMs_from_ms_u64 (TsNano_ms t).
Definition TsMs_ns (t : TsMs) : TsNano := TsNano_from_ms t.

(** The coarser grid never lies: the grid point and the rest add up again, the
    point is on the grid, and the rest is less than a grid step. *)
Lemma TsMs_to_grid_02_spec {E} t grid :
  is_u64 t -> 0 < grid ->
  exists msp lsp,
    @TsMs_to_grid_02 E t grid = Ok (msp, lsp) /\
    TsMs_add_dt_ms msp lsp = t /\ (grid | msp) /\ 0 <= lsp < grid.
Proof.
  unfold in_u. intros Ht Hg. unfold TsMs_to_grid_02, TsMs_add_dt_ms.
  rewrite u_div_ok by lia. cbn [and_then].
  pose proof (Z.div_mod t grid ltac:(lia)) as Hdm.
  pose proof (Z.mod_pos_bound t grid Hg) as Hm.
  assert (0 <= t / grid * grid <= t) by (split; [apply Z.mul_nonneg_nonneg; [apply Z.div_pos|]|]; lia).
  exists (t / grid * grid), (t mod grid).
  rewrite u64_mul_small by lia. rewrite u64_sub_small by lia.
  split; [f_equal; f_equal; lia|].
  rewrite u64_add_small by lia. split; [lia|]. split; [|lia].
  exists (t / grid). lia.
Qed.

(** Milliseconds survive the trip over nanoseconds while they fit. *)
Lemma TsMs_ns_ms_round t : 0 <= t -> t * 1000000 < 2 ^ 64 -> TsNano_to_ts_ms (TsMs_ns t) = t.
Proof.
  intros. unfold TsNano_to_ts_ms, TsMs_ns, TsMs_from_ms_u64, TsNano_ms, TsNano_from_ms.
  rewrite u64_mul_small by lia. rewrite Z.mul_comm. apply Z.div_mul. lia.
Qed.
