(* ===== verification/Msp.v ===== *)
(** * Partitioning of pre-binned data

    [daqbuf-series/src/msp.rs]: a [PrebinnedPartitioning] fixes the length of a
    bin and the number of bins of a patch; a bin is addressed by the number of
    its patch ([MspU32]) and its place in the patch ([LspU32]). *)
From Stdlib Require Import ZArith Lia.
From stdpp Require Import base numbers option strings list.
From S2P Require Import Prelude TimeTypes.

#[local] Open Scope Z_scope.
#[local] Open Scope rust_scope.

(** [MspU32], [LspU32], [BinlenU32]: a [u32] each; the database stores the
    same bits as [i32]. *)
Definition MspU32_to_db_i32 (x : Z) : Z := to_signed 32 x.
Definition MspU32_from_db_i32 (x : Z) : Z := wrap 32 x.
Definition LspU32_to_db_i32 (x : Z) : Z := to_signed 32 x.
Definition LspU32_from_db_i32 (x : Z) : Z := wrap 32 x.
Definition BinlenU32_to_db_i32 (x : Z) : Z := to_signed 32 x.
Definition BinlenU32_from_db_i32 (x : Z) : Z := wrap 32 x.

Inductive msp_error : Type :=
  | PrebinnedPartitioningInvalid
  | BadDv1 (dv1 : Z)
  | BadPbp (x : Z)
  | BadBinLen (binlen : Z).

Inductive PrebinnedPartitioning : Type := Sec1 | Sec10 | Min1 | Min10 | Hour1 | Day1.

#[export] Instance PrebinnedPartitioning_eq_dec : EqDecision PrebinnedPartitioning.
Proof. solve_decision. Defined.

Definition PrebinnedPartitioning_all : list PrebinnedPartitioning :=
  [Sec1; Sec10; Min1; Min10; Hour1; Day1].

Definition pbp_from_dv1_abs (dv1 : Z) : outcome msp_error PrebinnedPartitioning :=
  match dv1 with
  | 0x104 => Ok Sec1
  | 0xa04 => Ok Sec10
  | 0x105 => Ok Min1
  | 0xa05 => Ok Min10
  | 0x106 => Ok Hour1
  | 0x107 => Ok Day1
  | _ => Err (BadDv1 dv1)
  end.

Definition pbp_from_binlen (binlen : Z) : outcome msp_error PrebinnedPartitioning :=
  let ret :=
    if binlen =? 1000 * 1 then Some Sec1
    else if binlen =? 1000 * 10 then Some Sec10
    else if binlen =? 1000 * 60 * 1 then Some Min1
    else if binlen =? 1000 * 60 * 10 then Some Min10
    else if binlen =? 1000 * 60 * 60 * 1 then Some Hour1
    else if binlen =? 1000 * 60 * 60 * 24 then Some Day1
    else None in
  ok_or ret (BadBinLen binlen).

Definition pbp_bin_len (p : PrebinnedPartitioning) : Z :=
  match p with
  | Sec1 => 1000 * 1
  | Sec10 => 1000 * 10
  | Min1 => 1000 * 60 * 1
  | Min10 => 1000 * 60 * 10
  | Hour1 => 1000 * 60 * 60 * 1
  | Day1 => 1000 * 60 * 60 * 24
  end.

Definition pbp_bin_len_dv1_abs (p : PrebinnedPartitioning) : Z :=
  match p with
  | Sec1 => Z.lor 0x100 0x04
  | Sec10 => Z.lor 0xa00 0x04
  | Min1 => Z.lor 0x100 0x05
  | Min10 => Z.lor 0xa00 0x05
  | Hour1 => Z.lor 0x100 0x06
  | Day1 => Z.lor 0x100 0x07
  end.

Definition pbp_patch_len (p : PrebinnedPartitioning) : Z :=
  match p with
  | Sec1 => 1200
  | Sec10 => 720
  | Min1 => 720
  | Min10 => 1008
  | Hour1 => 960
  | Day1 => 800
  end.

Definition pbp_patch_dt (p : PrebinnedPartitioning) : Z :=
  DtMs_mul (pbp_bin_len p) (pbp_patch_len p).

(** The divisors are constants of the six variants, none is zero. *)
Definition pbp_msp_lsp (p : PrebinnedPartitioning) (val : Z) : Z * Z :=
  let div1ms := pbp_patch_dt p in
  let div2ms := pbp_bin_len p in
  let qu1 := val / div1ms in
  let re1 := val mod div1ms in
  let qu2 := re1 / div2ms in
  (wrap 32 qu1, wrap 32 qu2).

Definition pbp_uses_index_min10 (p : PrebinnedPartitioning) : bool :=
  match p with
  | Sec1 | Sec10 | Min1 => true
  | Min10 | Hour1 | Day1 => false
  end.

Definition pbp_db_ix (p : PrebinnedPartitioning) : Z :=
  match p with
  | Sec1 => 1
  | Sec10 => 2
  | Min1 => 3
  | Min10 => 4
  | Hour1 => 5
  | Day1 => 6
  end.

Definition pbp_from_db_ix (x : Z) : outcome msp_error PrebinnedPartitioning :=
  match x with
  | 1 => Ok Sec1
  | 2 => Ok Sec10
  | 3 => Ok Min1
  | 4 => Ok Min10
  | 5 => Ok Hour1
  | 6 => Ok Day1
  | _ => Err (BadPbp x)
  end.

Definition pbp_msp_lsp_to_ts (p : PrebinnedPartitioning) (msp lsp : Z) : Z :=
  let n := u64_add (u64_mul (pbp_patch_len p) msp) lsp in
  DtMs_mul (pbp_bin_len p) n.

Definition pbp_lsp_inc (p : PrebinnedPartitioning) (msp lsp : Z) : Z * Z :=
  let l2 := u32_add lsp 1 in
  if pbp_patch_len p <=? l2 then (u32_add msp 1, 0) else (msp, l2).

Definition pbp_from_str (s : string) : outcome msp_error PrebinnedPartitioning :=
  match s with
  | "Sec1" => Ok Sec1
  | "Sec10" => Ok Sec10
  | "Min1" => Ok Min1
  | "Min10" => Ok Min10
  | "Hour1" => Ok Hour1
  | "Day1" => Ok Day1
  | _ => Err PrebinnedPartitioningInvalid
  end%string.

Definition pbp_to_str (p : PrebinnedPartitioning) : string :=
  match p with
  | Sec1 => "Sec1"
  | Sec10 => "Sec10"
  | Min1 => "Min1"
  | Min10 => "Min10"
  | Hour1 => "Hour1"
  | Day1 => "Day1"
  end%string.

Definition pbp_try_from (value : Z) : outcome msp_error PrebinnedPartitioning :=
  if value =? 1000 then Ok Sec1
  else if value =? 1000 * 10 then Ok Sec10
  else if value =? 1000 * 60 then Ok Min1
  else if value =? 1000 * 60 * 10 then Ok Min10
  else if value =? 1000 * 60 * 60 then Ok Hour1
  else if value =? 1000 * 60 * 60 * 24 then Ok Day1
  else Err PrebinnedPartitioningInvalid.

(** ** Addresses *)

(** A valid address of a bin: a place inside a patch, and a begin that fits
    [u64] (only [Day1] can exceed it). *)
Definition pbp_addr_ok (p : PrebinnedPartitioning) (msp lsp : Z) : Prop :=
  is_u32 msp /\ 0 <= lsp < pbp_patch_len p /\
  pbp_bin_len p * (pbp_patch_len p * msp + lsp) < 2 ^ 64.

(** The times an address can hold: the patch number fits [u32]. *)
Definition pbp_ts_ok (p : PrebinnedPartitioning) (ts : Z) : Prop :=
  is_u64 ts /\ ts < 2 ^ 32 * (pbp_bin_len p * pbp_patch_len p).

Ltac pbp_cases p := destruct p; cbn [pbp_bin_len pbp_patch_len pbp_bin_len_dv1_abs pbp_db_ix] in *.

Lemma pbp_patch_dt_eq p : pbp_patch_dt p = pbp_bin_len p * pbp_patch_len p.
Proof. by destruct p. Qed.

Lemma pbp_bin_len_pos p : 0 < pbp_bin_len p.
Proof. by destruct p. Qed.

Lemma pbp_patch_len_bound p : 0 < pbp_patch_len p < 2 ^ 32.
Proof. by destruct p. Qed.

Lemma pbp_msp_lsp_to_ts_eq p msp lsp :
  pbp_addr_ok p msp lsp ->
  pbp_msp_lsp_to_ts p msp lsp = pbp_bin_len p * (pbp_patch_len p * msp + lsp) /\
  pbp_ts_ok p (pbp_msp_lsp_to_ts p msp lsp).
Proof.
  unfold pbp_addr_ok, pbp_ts_ok, in_u, pbp_msp_lsp_to_ts, DtMs_mul. intros (Hm & Hl & Hb).
  assert (Hf : u64_mul (pbp_patch_len p) msp = pbp_patch_len p * msp).
  { apply u64_mul_small. pbp_cases p; lia. }
  rewrite Hf. rewrite u64_add_small by (pbp_cases p; lia).
  rewrite u64_mul_small by (pbp_cases p; lia).
  split; [done|]. split; pbp_cases p; lia.
Qed.

(** The quotients of [pbp_msp_lsp], with no wrap-around. *)
Lemma pbp_msp_lsp_eq p ts :
  pbp_ts_ok p ts ->
  let '(msp, lsp) := pbp_msp_lsp p ts in
  pbp_addr_ok p msp lsp /\
  msp = ts / (pbp_bin_len p * pbp_patch_len p) /\
  lsp = ts / pbp_bin_len p mod pbp_patch_len p.
Proof.
  unfold pbp_ts_ok, pbp_msp_lsp, pbp_addr_ok, in_u. rewrite pbp_patch_dt_eq. intros H.
  assert (Hb := pbp_bin_len_pos p). assert (Hl := pbp_patch_len_bound p).
  set (b := pbp_bin_len p) in *. set (l := pbp_patch_len p) in *.
  assert (Hq : ts mod (b * l) / b = ts / b mod l).
  { rewrite Z.rem_mul_r, Z.mul_comm, Z.div_add, Z.div_small by first [lia | apply Z.mod_pos_bound; lia].
    lia. }
  rewrite Hq. assert (Hml := Z.mod_pos_bound (ts / b) l ltac:(lia)).
  assert (0 < b * l) by (apply Z.mul_pos_pos; lia).
  assert (0 <= ts / (b * l) < 2 ^ 32).
  { split; [apply Z.div_pos; lia | apply Z.div_lt_upper_bound; lia]. }
  rewrite !wrap_small by (unfold in_u; lia). repeat split; try lia.
  rewrite <- Z.div_div, <- Z.div_mod by lia. pose proof (Z.mul_div_le ts b). lia.
Qed.

Lemma pbp_lsp_of_addr p msp lsp :
  pbp_addr_ok p msp lsp -> pbp_msp_lsp p (pbp_msp_lsp_to_ts p msp lsp) = (msp, lsp).
Proof.
  intros H. destruct (pbp_msp_lsp_to_ts_eq p msp lsp H) as [He Hok].
  pose proof (pbp_msp_lsp_eq p _ Hok) as Hq. destruct (pbp_msp_lsp p _) as [m l].
  destruct Hq as (_ & -> & ->). rewrite He. destruct H as (Hm & Hl & _).
  assert (Hb := pbp_bin_len_pos p).
  assert (Hd : pbp_bin_len p * (pbp_patch_len p * msp + lsp) / pbp_bin_len p = pbp_patch_len p * msp + lsp).
  { rewrite Z.mul_comm. apply Z.div_mul. lia. }
  rewrite <- Z.div_div, Hd by lia. f_equal.
  - rewrite Z.mul_comm, Z.div_add_l, Z.div_small by lia. lia.
  - rewrite Z.add_comm, Z.mul_comm, Z.mod_add by lia. by apply Z.mod_small.
Qed.

(** Every time is addressed: the address names the bin the time lies in,
    and the bin's own begin is addressed by the same pair. *)
Theorem pbp_msp_lsp_bin p ts :
  pbp_ts_ok p ts ->
  let '(msp, lsp) := pbp_msp_lsp p ts in
  pbp_addr_ok p msp lsp /\
  pbp_msp_lsp_to_ts p msp lsp <= ts < pbp_msp_lsp_to_ts p msp lsp + pbp_bin_len p /\
  pbp_msp_lsp p (pbp_msp_lsp_to_ts p msp lsp) = (msp, lsp).
Proof.
  intros H. pose proof (pbp_msp_lsp_eq p ts H) as Hq.
  destruct (pbp_msp_lsp p ts) as [m l]. destruct Hq as (Ha & Hm & Hl).
  split; [done|]. split; [|by apply pbp_lsp_of_addr].
  destruct (pbp_msp_lsp_to_ts_eq p m l Ha) as [-> _].
  assert (Hb := pbp_bin_len_pos p). assert (Hpl := pbp_patch_len_bound p).
  assert (Hn : pbp_patch_len p * m + l = ts / pbp_bin_len p).
  { rewrite Hm, Hl, <- Z.div_div by lia. symmetry. apply Z.div_mod. lia. }
  rewrite Hn. pose proof (Z.div_mod ts (pbp_bin_len p) ltac:(lia)).
  pose proof (Z.mod_pos_bound ts (pbp_bin_len p) ltac:(lia)). lia.
Qed.

Lemma pbp_msp_lsp_bin_witness :
  pbp_msp_lsp Min10 1700000123456 = (2810, 853) /\
  pbp_msp_lsp_to_ts Min10 2810 853 <= 1700000123456 < pbp_msp_lsp_to_ts Min10 2810 853 + 600000.
Proof.
  split; [reflexivity|].
  refine (proj1 (proj2 (pbp_msp_lsp_bin Min10 1700000123456 _))).
  unfold pbp_ts_ok, in_u. simpl. lia.
Defined.

(** Advancing an address moves to the next bin: the new address is valid
    and begins where the old bin ends. *)
Theorem pbp_lsp_inc_next p msp lsp :
  pbp_addr_ok p msp lsp -> msp < 2 ^ 32 - 1 ->
  pbp_msp_lsp_to_ts p msp lsp + pbp_bin_len p < 2 ^ 64 ->
  let '(msp', lsp') := pbp_lsp_inc p msp lsp in
  pbp_addr_ok p msp' lsp' /\
  pbp_msp_lsp_to_ts p msp' lsp' = pbp_msp_lsp_to_ts p msp lsp + pbp_bin_len p.
Proof.
  intros Ha Hm Hend. rewrite (proj1 (pbp_msp_lsp_to_ts_eq _ _ _ Ha)) in *. pose proof Ha as (Hmb & Hlb & _). unfold in_u in Hmb.
  unfold pbp_lsp_inc, u32_add. pose proof (pbp_patch_len_bound p).
  rewrite !wrap_small by (unfold in_u; lia).
  destruct (Z.leb_spec (pbp_patch_len p) (lsp + 1)).
  - assert (Ha' : pbp_addr_ok p (msp + 1) 0).
    { unfold pbp_addr_ok, in_u. replace lsp with (pbp_patch_len p - 1) in Hend by lia. lia. }
    split; [done|]. rewrite (proj1 (pbp_msp_lsp_to_ts_eq _ _ _ Ha')).
    replace lsp with (pbp_patch_len p - 1) by lia. lia.
  - assert (Ha' : pbp_addr_ok p msp (lsp + 1)) by (unfold pbp_addr_ok, in_u; lia).
    split; [done|]. rewrite (proj1 (pbp_msp_lsp_to_ts_eq _ _ _ Ha')). lia.
Qed.

Lemma pbp_lsp_inc_next_witness :
  pbp_lsp_inc Sec1 7 1199 = (8, 0) /\ pbp_msp_lsp_to_ts Sec1 8 0 = pbp_msp_lsp_to_ts Sec1 7 1199 + 1000.
Proof.
  split; [reflexivity|].
  refine (proj2 (pbp_lsp_inc_next Sec1 7 1199 _ _ _)); [|lia|by vm_compute].
  unfold pbp_addr_ok, in_u. simpl. lia.
Defined.

(** ** Codes of the partitioning *)

(** A partitioning survives each of its codes: the absolute bin-length code,
    the bin length (through both conversions), the database index, the name;
    and each decoder accepts nothing else. *)
Theorem pbp_codes_round p :
  pbp_from_dv1_abs (pbp_bin_len_dv1_abs p) = Ok p /\
  pbp_from_binlen (pbp_bin_len p) = Ok p /\
  pbp_try_from (pbp_bin_len p) = Ok p /\
  pbp_from_db_ix (pbp_db_ix p) = Ok p /\
  pbp_from_str (pbp_to_str p) = Ok p /\
  (forall bl q, pbp_from_binlen bl = Ok q -> bl = pbp_bin_len q) /\
  (forall bl q, pbp_try_from bl = Ok q -> bl = pbp_bin_len q) /\
  (forall ix q, pbp_from_db_ix ix = Ok q -> ix = pbp_db_ix q) /\
  (forall s q, pbp_from_str s = Ok q -> s = pbp_to_str q).
Proof.
  repeat split; try by destruct p.
  - unfold pbp_from_binlen. intros bl q. repeat case_match; simpl; intros; simplify_eq; simpl; lia.
  - unfold pbp_try_from. intros bl q. repeat case_match; simpl; intros; simplify_eq; simpl; lia.
  - unfold pbp_from_db_ix. intros ix q. repeat case_match; intros; simplify_eq; done.
  - unfold pbp_from_str. intros s q. repeat case_match; intros; simplify_eq; done.
Qed.
