(* ===== verification/NetpodTypes.v ===== *)
(** * Names and codes of the data model

    [SeriesKind], [ScalarType], [ByteOrder], [Shape] and [AggKind] of
    [daqbuf-netpod/src/netpod.rs] with every string and number they are stored
    or transmitted as, and the decoders of those. *)
From Stdlib Require Import ZArith Lia Ascii.
From stdpp Require Import base numbers option strings list.
From S2P Require Import Prelude.

#[local] Open Scope Z_scope.
#[local] Open Scope rust_scope.

Inductive netpod_error : Type :=
  | UnknownSeriesKind (x : Z)
  | UnsupportedDtype (ix : Z)
  | BadScalarTypeVariant (s : string)
  | BadScalarTypeCaId (k : Z)
  | ScalarTypeNotInCa
  | BadScalarTypeIndex (k : Z)
  | CanNotUnderstandVariant (s : string)
  | InputBad
  | ShapeBad
  | BadShapeSeq
  | SerdeJson
  | ParseInt
  | AggKindError.

(** ** [SeriesKind] *)

Inductive SeriesKind : Type := ChannelStatusSeries | ChannelData | CaStatus.

#[export] Instance SeriesKind_eq_dec : EqDecision SeriesKind.
Proof. solve_decision. Defined.

Definition SeriesKind_to_db_i16 (k : SeriesKind) : Z :=
  match k with
  | ChannelStatusSeries => 1
  | ChannelData => 2
  | CaStatus => 3
  end.

Definition SeriesKind_from_db_i16 (x : Z) : outcome netpod_error SeriesKind :=
  match x with
  | 1 => Ok ChannelStatusSeries
  | 2 => Ok ChannelData
  | 3 => Ok CaStatus
  | _ => Err (UnknownSeriesKind x)
  end.

Definition SeriesKind_default : SeriesKind := ChannelData.

(** The query pairs of a URL: the first value of a key. *)
Definition url_pairs := list (string * string).

Fixpoint pairs_get (key : string) (l : url_pairs) : option string :=
  match l with
  | [] => None
  | (k, v) :: l => if decide (k = key) then Some v else pairs_get key l
  end.

Definition SeriesKind_from_pairs (pairs : url_pairs) : outcome netpod_error SeriesKind :=
  let ret :=
    match pairs_get "seriesKind" pairs with
    | Some x =>
        match x with
        | "channelStatus" => Some ChannelStatusSeries
        | "channelData" => Some ChannelData
        | "caStatus" => Some CaStatus
        | _ => None
        end%string
    | None => None
    end in
  Ok (default SeriesKind_default ret).

Definition SeriesKind_append_to_url (k : SeriesKind) (url : url_pairs) : url_pairs :=
  let s := match k with
           | ChannelStatusSeries => Some "channelStatus"
           | ChannelData => None
           | CaStatus => Some "caStatus"
           end%string in
  match s with
  | Some s => url ++ [("seriesKind"%string, s)]
  | None => url
  end.

(** ** [ScalarType] *)

Inductive ScalarType : Type :=
  | U8 | U16 | U32 | U64 | I8 | I16 | I32 | I64 | F32 | F64 | BOOL | STRING | Enum.

#[export] Instance ScalarType_eq_dec : EqDecision ScalarType.
Proof. solve_decision. Defined.

Definition ScalarType_serialize (t : ScalarType) : string :=
  match t with
  | U8 => "u8"
  | U16 => "u16"
  | U32 => "u32"
  | U64 => "u64"
  | I8 => "i8"
  | I16 => "i16"
  | I32 => "i32"
  | I64 => "i64"
  | F32 => "f32"
  | F64 => "f64"
  | BOOL => "bool"
  | STRING => "string"
  | Enum => "enum"
  end%string.

(** [to_lowercase]; no letter outside ASCII lowercases to one of the letters
    of a variant, so only the ASCII capitals matter here. *)
Definition ascii_lower (c : Ascii.ascii) : Ascii.ascii :=
  let n := Ascii.nat_of_ascii c in
  if ((65 <=? n) && (n <=? 90))%nat then Ascii.ascii_of_nat (n + 32) else c.

Fixpoint to_lowercase (s : string) : string :=
  match s with
  | EmptyString => EmptyString
  | String c s => String (ascii_lower c) (to_lowercase s)
  end.

Definition ScalarType_visit_str (value : string) : outcome netpod_error ScalarType :=
  let s := to_lowercase value in
  match s with
  | "u8" => Ok U8
  | "u16" => Ok U16
  | "u32" => Ok U32
  | "u64" => Ok U64
  | "i8" => Ok I8
  | "i16" => Ok I16
  | "i32" => Ok I32
  | "i64" => Ok I64
  | "f32" => Ok F32
  | "f64" => Ok F64
  | "bool" => Ok BOOL
  | "string" => Ok STRING
  | "enum" => Ok Enum
  | k => Err (CanNotUnderstandVariant k)
  end%string.

Definition ScalarType_from_dtype_index (ix : Z) : outcome netpod_error ScalarType :=
  match ix with
  | 0 => Ok BOOL
  | 1 => Ok BOOL
  | 3 => Ok U8
  | 5 => Ok U16
  | 8 => Ok U32
  | 10 => Ok U64
  | 2 => Ok I8
  | 4 => Ok I16
  | 7 => Ok I32
  | 9 => Ok I64
  | 11 => Ok F32
  | 12 => Ok F64
  | 13 => Ok STRING
  | 15 => Ok Enum
  | _ => Err (UnsupportedDtype ix)
  end.

Definition ScalarType_to_variant_str (t : ScalarType) : string :=
  match t with
  | U8 => "u8"
  | U16 => "u16"
  | U32 => "u32"
  | U64 => "u64"
  | I8 => "i8"
  | I16 => "i16"
  | I32 => "i32"
  | I64 => "i64"
  | F32 => "f32"
  | F64 => "f64"
  | BOOL => "bool"
  | STRING => "string"
  | Enum => "enum"
  end%string.

Definition ScalarType_from_variant_str (s : string) : outcome netpod_error ScalarType :=
  match s with
  | "u8" => Ok U8
  | "u16" => Ok U16
  | "u32" => Ok U32
  | "u64" => Ok U64
  | "i8" => Ok I8
  | "i16" => Ok I16
  | "i32" => Ok I32
  | "i64" => Ok I64
  | "f32" => Ok F32
  | "f64" => Ok F64
  | "bool" => Ok BOOL
  | "string" => Ok STRING
  | "enum" => Ok Enum
  | _ => Err (BadScalarTypeVariant s)
  end%string.

Definition ScalarType_to_bsread_str (t : ScalarType) : string :=
  match t with
  | U8 => "uint8"
  | U16 => "uint16"
  | U32 => "uint32"
  | U64 => "uint64"
  | I8 => "int8"
  | I16 => "int16"
  | I32 => "int32"
  | I64 => "int64"
  | F32 => "float32"
  | F64 => "float64"
  | BOOL => "bool"
  | STRING => "string"
  | Enum => "enum"
  end%string.

Definition ScalarType_from_bsread_str (s : string) : outcome netpod_error ScalarType :=
  match s with
  | "uint8" => Ok U8
  | "uint16" => Ok U16
  | "uint32" => Ok U32
  | "uint64" => Ok U64
  | "int8" => Ok I8
  | "int16" => Ok I16
  | "int32" => Ok I32
  | "int64" => Ok I64
  | "float" => Ok F32
  | "double" => Ok F64
  | "float32" => Ok F32
  | "float64" => Ok F64
  | "bool" => Ok BOOL
  | "string" => Ok STRING
  | "enum" => Ok Enum
  | _ => Err (BadScalarTypeVariant s)
  end%string.

Definition ScalarType_from_ca_id (k : Z) : outcome netpod_error ScalarType :=
  match k with
  | 0 => Ok STRING
  | 1 => Ok I16
  | 2 => Ok F32
  | 3 => Ok Enum
  | 4 => Ok I8
  | 5 => Ok I32
  | 6 => Ok F64
  | _ => Err (BadScalarTypeCaId k)
  end.

Definition ScalarType_to_ca_id (t : ScalarType) : outcome netpod_error Z :=
  match t with
  | I8 => Ok 4
  | I16 => Ok 1
  | I32 => Ok 5
  | F32 => Ok 2
  | F64 => Ok 6
  | STRING => Ok 0
  | Enum => Ok 3
  | _ => Err ScalarTypeNotInCa
  end.

Definition ScalarType_from_archeng_db_str (s : string) : outcome netpod_error ScalarType :=
  match s with
  | "I8" => Ok I8
  | "I16" => Ok I16
  | "I32" => Ok I32
  | "I64" => Ok I64
  | "F32" => Ok F32
  | "F64" => Ok F64
  | _ => Err (BadScalarTypeVariant s)
  end%string.

Definition ScalarType_from_scylla_i32 (k : Z) : outcome netpod_error ScalarType :=
  if (k <? 0) || (255 <? k) then Err (BadScalarTypeIndex k)
  else ScalarType_from_dtype_index (wrap 8 k).

Definition ScalarType_bytes (t : ScalarType) : Z :=
  match t with
  | U8 => 1
  | U16 => 2
  | U32 => 4
  | U64 => 8
  | I8 => 1
  | I16 => 2
  | I32 => 4
  | I64 => 8
  | F32 => 4
  | F64 => 8
  | BOOL => 1
  | STRING => 1
  | Enum => 2
  end.

Definition ScalarType_index (t : ScalarType) : Z :=
  match t with
  | U8 => 3
  | U16 => 5
  | U32 => 8
  | U64 => 10
  | I8 => 2
  | I16 => 4
  | I32 => 7
  | I64 => 9
  | F32 => 11
  | F64 => 12
  | BOOL => 0
  | STRING => 13
  | Enum => 15
  end.

Definition ScalarType_to_scylla_table_name_id (t : ScalarType) : string := ScalarType_to_variant_str t.

Definition ScalarType_to_scylla_i32 (t : ScalarType) : Z := ScalarType_index t.

(** ** [ByteOrder] *)

Inductive ByteOrder : Type := Little | Big.

#[export] Instance ByteOrder_eq_dec : EqDecision ByteOrder.
Proof. solve_decision. Defined.

Definition ByteOrder_from_dtype_flags (flags : Z) : ByteOrder :=
  if Z.land flags 0x20 =? 0 then Little else Big.

Definition ByteOrder_from_bsread_str (s : string) : outcome netpod_error ByteOrder :=
  match s with
  | "little" => Ok Little
  | "big" => Ok Big
  | _ => Err InputBad
  end%string.

Definition ByteOrder_is_le (b : ByteOrder) : bool := match b with Little => true | Big => false end.
Definition ByteOrder_is_be (b : ByteOrder) : bool := match b with Big => true | Little => false end.

(** ** [Shape]: the dimensions are [u32]. *)

Inductive Shape : Type :=
  | Scalar
  | Wave (n : Z)
  | Image (n m : Z).

#[export] Instance Shape_eq_dec : EqDecision Shape.
Proof. solve_decision. Defined.

Definition Shape_wf (s : Shape) : Prop :=
  match s with
  | Scalar => True
  | Wave n => is_u32 n
  | Image n m => is_u32 n /\ is_u32 m
  end.

Definition Shape_serialize (s : Shape) : list Z :=
  match s with
  | Scalar => []
  | Wave a => [a]
  | Image a b => [a; b]
  end.

Definition Shape_visit_seq (a : list Z) : outcome netpod_error Shape :=
  match a with
  | [] => Ok Scalar
  | [x] => Ok (Wave x)
  | [x; y] => Ok (Image x y)
  | _ => Err BadShapeSeq
  end.

Definition Shape_from_sf_databuffer_raw (v : option (list Z)) : outcome netpod_error Shape :=
  match v with
  | Some a =>
      match a with
      | [] => Ok Scalar
      | [x] => Ok (Wave x)
      | [x; y] => Ok (Image x y)
      | _ => Err InputBad
      end
  | None => Ok Scalar
  end.

Definition Shape_from_dims_str (from_json : string -> option (list Z)) (s : string) : outcome netpod_error Shape :=
  let? a := ok_or (from_json s) SerdeJson in
  match a with
  | [] => Ok Scalar
  | [x] => Ok (Wave x)
  | [x; y] => Ok (Image x y)
  | _ => Err ShapeBad
  end.

Definition Shape_from_scylla_shape_dims (v : list Z) : outcome netpod_error Shape :=
  match v with
  | [] => Ok Scalar
  | [x] => Ok (Wave (wrap 32 x))
  | [x; y] => Ok (Image (wrap 32 x) (wrap 32 y))
  | _ => Err ShapeBad
  end.

Definition Shape_from_ca_count (k : Z) : outcome netpod_error Shape :=
  if k =? 0 then Err InputBad
  else if k =? 1 then Ok Scalar
  else if k <=? 1024 * 3000 then Ok (Wave k)
  else Err InputBad.

Definition Shape_to_ca_count (s : Shape) : outcome netpod_error Z :=
  match s with
  | Scalar => Ok 1
  | Wave n => Ok n
  | _ => Err InputBad
  end.

Definition Shape_to_scylla_vec (s : Shape) : list Z :=
  match s with
  | Scalar => []
  | Wave n => [to_signed 32 n]
  | Image n m => [to_signed 32 n; to_signed 32 m]
  end.

Definition Shape_to_u32_vec (s : Shape) : list Z :=
  match s with
  | Scalar => []
  | Wave n => [n]
  | Image n m => [n; m]
  end.

Definition Shape_ele_count (s : Shape) : Z :=
  match s with
  | Scalar => 1
  | Wave n => n
  | Image n m => u64_mul n m
  end.

(** ** [AggKind] *)

Inductive AggKind : Type :=
  | EventBlobs
  | DimXBins1
  | DimXBinsN (n : Z)
  | Plain
  | TimeWeightedScalar
  | PulseIdDiff.

#[export] Instance AggKind_eq_dec : EqDecision AggKind.
Proof. solve_decision. Defined.

Definition AggKind_do_time_weighted (k : AggKind) : bool :=
  match k with
  | EventBlobs => false
  | TimeWeightedScalar => true
  | DimXBins1 => false
  | DimXBinsN _ => false
  | Plain => false
  | PulseIdDiff => false
  end.

Definition AggKind_need_expand (k : AggKind) : bool :=
  match k with
  | EventBlobs => false
  | TimeWeightedScalar => true
  | DimXBins1 => false
  | DimXBinsN _ => false
  | Plain => false
  | PulseIdDiff => false
  end.

(** [usize] has 64 bits. *)
Definition x_bin_count (shape : Shape) (agg_kind : AggKind) : Z :=
  match agg_kind with
  | EventBlobs => 0
  | TimeWeightedScalar => 0
  | DimXBins1 => 0
  | DimXBinsN n =>
      if n =? 0 then
        match shape with
        | Scalar => 0
        | Wave n => n
        | Image j k => u64_mul j k
        end
      else n
  | Plain =>
      match shape with
      | Scalar => 0
      | Wave n => n
      | Image j k => u64_mul j k
      end
  | PulseIdDiff => 0
  end.

Definition AggKind_fmt (k : AggKind) : string :=
  match k with
  | EventBlobs => "EventBlobs"
  | DimXBins1 => "DimXBins1"
  | DimXBinsN n => String.append "DimXBinsN" (u32_to_string n)
  | Plain => "Plain"
  | TimeWeightedScalar => "TimeWeightedScalar"
  | PulseIdDiff => "PulseIdDiff"
  end%string.

(** [s.starts_with(p)], and the rest after it. *)
Fixpoint strip_prefix (p s : string) : option string :=
  match p, s with
  | EmptyString, _ => Some s
  | String a p, String b s => if decide (a = b) then strip_prefix p s else None
  | String _ _, EmptyString => None
  end.

Definition AggKind_from_str (s : string) : outcome netpod_error AggKind :=
  let nmark := "DimXBinsN"%string in
  if bool_decide (s = "EventBlobs"%string) then Ok EventBlobs
  else if bool_decide (s = "DimXBins1"%string) then Ok DimXBins1
  else if bool_decide (s = "TimeWeightedScalar"%string) then Ok TimeWeightedScalar
  else match strip_prefix nmark s with
       | Some rest =>
           let? nbins := ok_or (parse_u32 rest) ParseInt in
           Ok (DimXBinsN nbins)
       | None =>
           if bool_decide (s = "PulseIdDiff"%string) then Ok PulseIdDiff
           else Err AggKindError
       end.

(** ** Round trips *)

Lemma to_lowercase_idem s : to_lowercase (to_lowercase s) = to_lowercase s.
Proof.
  induction s as [|c s IH]; simpl; [done|]. f_equal; [|done].
  destruct c as [[] [] [] [] [] [] [] []]; reflexivity.
Qed.

Lemma strip_prefix_append p s : strip_prefix p (String.append p s) = Some s.
Proof. induction p as [|c p IH]; simpl; [done|]. by rewrite decide_True. Qed.

Lemma strip_prefix_Some p s r : strip_prefix p s = Some r -> s = String.append p r.
Proof.
  revert s. induction p as [|c p IH]; simpl; intros s H; [by injection H|].
  destruct s as [|c' s]; [done|]. case_decide; simplify_eq. rewrite (IH s) by done; done.
Qed.

(** A [ScalarType] survives every encoding: the serialized form (in any
    capitalisation), the variant name, the bsread name, the database integer;
    the Channel Access number both ways, and the only types without one are
    the unsigned ones, [I64] and [BOOL]. *)
Theorem ScalarType_codes_round :
  (forall t s, to_lowercase s = ScalarType_serialize t -> ScalarType_visit_str s = Ok t) /\
  (forall s t, ScalarType_visit_str s = Ok t -> to_lowercase s = ScalarType_serialize t) /\
  (forall t, ScalarType_from_variant_str (ScalarType_to_variant_str t) = Ok t) /\
  (forall s t, ScalarType_from_variant_str s = Ok t -> s = ScalarType_to_variant_str t) /\
  (forall t, ScalarType_from_bsread_str (ScalarType_to_bsread_str t) = Ok t) /\
  (forall t, ScalarType_from_scylla_i32 (ScalarType_to_scylla_i32 t) = Ok t) /\
  (forall k t, ScalarType_from_ca_id k = Ok t <-> ScalarType_to_ca_id t = Ok k) /\
  (forall t, ScalarType_to_ca_id t = Err ScalarTypeNotInCa <-> t ∈ [U8; U16; U32; U64; I64; BOOL]).
Proof.
  repeat split.
  - intros t s. unfold ScalarType_visit_str. intros ->. by destruct t.
  - intros s t. unfold ScalarType_visit_str. generalize (to_lowercase s) as k. intros k.
    repeat case_match; intros; simplify_eq; done.
  - by intros [].
  - intros s t. unfold ScalarType_from_variant_str. repeat case_match; intros; simplify_eq; done.
  - by intros [].
  - by intros [].
  - unfold ScalarType_from_ca_id. repeat case_match; intros; simplify_eq; done.
  - destruct t; simpl; intros; simplify_eq; done.
  - destruct t; simpl; intros; try discriminate; repeat (try (by left); right).
  - rewrite !elem_of_cons, elem_of_nil. intros Ht. destruct_or! Ht; by subst.
Qed.

(** Every index byte decodes to a type that has it as its index, except [1],
    the second code of a boolean. *)
Lemma ScalarType_from_dtype_index_Ok ix t :
  ScalarType_from_dtype_index ix = Ok t -> ScalarType_index t = ix \/ (ix = 1 /\ t = BOOL).
Proof. unfold ScalarType_from_dtype_index. repeat case_match; intros; simplify_eq; auto. Qed.

Lemma SeriesKind_codes_round (k : SeriesKind) (rest : url_pairs) :
  SeriesKind_from_db_i16 (SeriesKind_to_db_i16 k) = Ok k /\
  (pairs_get "seriesKind" rest = None -> SeriesKind_from_pairs (SeriesKind_append_to_url k rest) = Ok k).
Proof.
  split; [by destruct k|]. intros Hr.
  assert (Hg : forall v, pairs_get "seriesKind" (rest ++ [("seriesKind"%string, v)]) = Some v).
  { intros v. revert Hr. induction rest as [|[a b] rest IH]; simpl; [done|].
    case_decide; [discriminate|apply IH]. }
  unfold SeriesKind_from_pairs, SeriesKind_append_to_url.
  destruct k; rewrite ?Hg; try done. by rewrite Hr.
Qed.

(** A [Shape] survives its encodings: the sequence of the serialized form,
    the [u32] vector, and the [i32] vector of the database although dimensions
    of [2^31] and more become negative there; the Channel Access count both ways
    for the shapes it can express. *)
Theorem Shape_codes_round (s : Shape) :
  Shape_wf s ->
  Shape_visit_seq (Shape_serialize s) = Ok s /\
  Shape_from_sf_databuffer_raw (Some (Shape_to_u32_vec s)) = Ok s /\
  Shape_from_scylla_shape_dims (Shape_to_scylla_vec s) = Ok s /\
  Forall (in_i 32) (Shape_to_scylla_vec s) /\
  (forall k, Shape_from_ca_count k = Ok s -> Shape_to_ca_count s = Ok k) /\
  (forall k, Shape_to_ca_count s = Ok k -> k <> 0 -> s <> Wave 1 -> k <= 1024 * 3000 ->
     Shape_from_ca_count k = Ok s).
Proof.
  intros Hwf.
  assert (Hs : forall z, is_u32 z -> in_i 32 (to_signed 32 z)).
  { intros z Hz. unfold to_signed, in_i, in_u in *. rewrite Z.mod_small by lia.
    destruct (Z.ltb_spec z (2 ^ (32 - 1))); simpl in *; lia. }
  split; [by destruct s|]. split; [by destruct s|]. split.
  { destruct s; simpl in *; rewrite ?to_signed_wrap by (lia || tauto); done. }
  split. { destruct s; simpl in *; repeat constructor; apply Hs; tauto. }
  split; unfold Shape_from_ca_count; intros k.
  - repeat case_match; intros; simplify_eq; simpl; f_equal; lia.
  - destruct s as [|n|]; simpl; intros [= <-] Hk H1 Hle; [done|].
    destruct (Z.eqb_spec n 0); [done|]. destruct (Z.eqb_spec n 1); [congruence|].
    by rewrite (proj2 (Z.leb_le _ _) Hle).
Qed.

Lemma Shape_codes_round_witness :
  Shape_from_scylla_shape_dims (Shape_to_scylla_vec (Image 3000000000 7)) = Ok (Image 3000000000 7).
Proof.
  refine (proj1 (proj2 (proj2 (Shape_codes_round (Image 3000000000 7) _)))).
  simpl. unfold in_u. lia.
Defined.

(** The [Display] form of an [AggKind] parses back to it, for every kind but
    [Plain], whose form the parser refuses; and a parsed kind is never [Plain]. *)
Theorem AggKind_display_parse (k : AggKind) :
  (forall n, k = DimXBinsN n -> is_u32 n) ->
  AggKind_from_str (AggKind_fmt k) = (if bool_decide (k = Plain) then Err AggKindError else Ok k) /\
  (forall s, AggKind_from_str s <> Ok Plain).
Proof.
  intros Hn. split.
  - destruct k as [| |n| | |]; try reflexivity.
    unfold AggKind_from_str, AggKind_fmt.
    assert (Hne : forall t, strip_prefix "DimXBinsN" t = None ->
              String.append "DimXBinsN" (u32_to_string n) <> t).
    { intros t Ht <-. by rewrite strip_prefix_append in Ht. }
    rewrite !bool_decide_false by (first [by apply Hne | done]).
    rewrite strip_prefix_append, parse_u32_round by by apply Hn.
    done.
  - intros s. unfold AggKind_from_str.
    repeat case_bool_decide; try done; case_match; try done; by destruct (parse_u32 _).
Qed.

Lemma AggKind_display_parse_witness : AggKind_from_str (AggKind_fmt (DimXBinsN 4294967295)) = Ok (DimXBinsN 4294967295).
Proof.
  refine (proj1 (AggKind_display_parse (DimXBinsN 4294967295) _)).
  intros n [= <-]. unfold in_u. lia.
Defined.
