(* ===== verification/Retention.v ===== *)
(** * Retention times, channel status and the latency histogram

    [RetentionTime] ([daqbuf-netpod/src/ttl.rs]), [ChannelStatus]
    ([channelstatus.rs]) and [HistoLog2] ([histo.rs]). A [Duration] is its
    number of nanoseconds; dividing one by an integer rounds down. *)
From Stdlib Require Import ZArith Lia.
From stdpp Require Import base numbers option strings list.
From S2P Require Import Prelude.

#[local] Open Scope Z_scope.
#[local] Open Scope rust_scope.

(** ** [RetentionTime] *)

Inductive RetentionTime : Type := Short | Medium | Long.

#[export] Instance RetentionTime_eq_dec : EqDecision RetentionTime.
Proof. solve_decision. Defined.

Inductive ttl_error : Type := TtlParse.

Definition Duration_from_secs (s : Z) : Z := s * 1000000000.

Definition rt_debug_tag (r : RetentionTime) : string :=
  match r with Short => "ST" | Medium => "MT" | Long => "LT" end%string.

Definition rt_table_prefix (r : RetentionTime) : string :=
  match r with Short => "st_" | Medium => "mt_" | Long => "lt_" end%string.

Definition rt_do_stcs (r : RetentionTime) : bool :=
  match r with Short => false | Medium => false | Long => true end.

Definition rt_ttl_ts_msp (r : RetentionTime) : Z :=
  let day := 60 * 60 * 24 in
  match r with
  | Short => Duration_from_secs (day * 7)
  | Medium => Duration_from_secs (day * 31 * 13)
  | Long => Duration_from_secs (day * 31 * 12 * 17)
  end.

Definition rt_ttl_events_d0 (r : RetentionTime) : Z :=
  let day := 60 * 60 * 24 in
  let margin_max := Duration_from_secs (day * 2) in
  let ttl := rt_ttl_ts_msp r in
  let margin := ttl / 10 in
  let margin := if margin_max <=? margin then margin_max else margin in
  ttl + margin.

Definition rt_ttl_events_d1 (r : RetentionTime) : Z := rt_ttl_events_d0 r.
Definition rt_ttl_binned (r : RetentionTime) : Z := rt_ttl_events_d0 r.
Definition rt_ttl_channel_status (r : RetentionTime) : Z := rt_ttl_events_d0 r.

Definition rt_msp_rollover_ivl (r : RetentionTime) : Z :=
  let day := 60 * 60 * 24 in
  match r with
  | Short => Duration_from_secs (day / 8)
  | Medium => Duration_from_secs (day * 4)
  | Long => Duration_from_secs (day * 30)
  end.

Definition rt_msp_rollover_ivl_on_read (r : RetentionTime) : Z := rt_ttl_ts_msp r / 19.

Definition rt_to_index_db_u16 (r : RetentionTime) : Z :=
  match r with Short => 2 | Medium => 4 | Long => 12 end.

Definition rt_to_index_db_i32 (r : RetentionTime) : Z := rt_to_index_db_u16 r.

Definition rt_from_index_db_u16 (x : Z) : outcome ttl_error RetentionTime :=
  match x with
  | 2 => Ok Short
  | 4 => Ok Medium
  | 12 => Ok Long
  | _ => Err TtlParse
  end.

Definition rt_from_str (x : string) : outcome ttl_error RetentionTime :=
  match x with
  | "short" => Ok Short
  | "medium" => Ok Medium
  | "long" => Ok Long
  | _ => Err TtlParse
  end%string.

Definition rt_fmt (r : RetentionTime) : string :=
  match r with Short => "short" | Medium => "medium" | Long => "long" end%string.

Definition rt_serialize (r : RetentionTime) : string :=
  match r with Short => "short" | Medium => "medium" | Long => "long" end%string.

Definition rt_visit_str (v : string) : outcome ttl_error RetentionTime :=
  match v with
  | "short" => Ok Short
  | "medium" => Ok Medium
  | "long" => Ok Long
  | _ => Err TtlParse
  end%string.

(** [impl FromStr] *)
Definition rt_FromStr (s : string) : outcome ttl_error RetentionTime :=
  match s with
  | "short" => Ok Short
  | "medium" => Ok Medium
  | "long" => Ok Long
  | _ => Err TtlParse
  end%string.

(** The retention times fit together: a reader that looks
    [msp_rollover_ivl_on_read] back covers the interval after which a writer
    starts a new [msp]; the events outlive their [msp] entry by at most two
    days; and each is strictly longer for a longer retention class. The class
    survives its database index and its name. *)
Theorem rt_durations_fit (r : RetentionTime) :
  0 < rt_msp_rollover_ivl r <= rt_msp_rollover_ivl_on_read r /\
  rt_msp_rollover_ivl_on_read r < rt_ttl_ts_msp r /\
  rt_ttl_ts_msp r < rt_ttl_events_d0 r <= rt_ttl_ts_msp r + Duration_from_secs (2 * 24 * 60 * 60) /\
  rt_ttl_events_d0 Short < rt_ttl_events_d0 Medium < rt_ttl_events_d0 Long /\
  rt_msp_rollover_ivl Short < rt_msp_rollover_ivl Medium < rt_msp_rollover_ivl Long /\
  rt_from_index_db_u16 (rt_to_index_db_u16 r) = Ok r /\
  rt_from_str (rt_fmt r) = Ok r /\ rt_FromStr (rt_fmt r) = Ok r /\ rt_visit_str (rt_serialize r) = Ok r.
Proof. destruct r; vm_compute; intuition congruence. Qed.

(** ** [ChannelStatus] *)

Inductive ChannelStatusClosedReason : Type :=
  | ShutdownCommand
  | ChannelRemove
  | ProtocolError
  | FrequencyQuota
  | BandwidthQuota
  | InternalError
  | IocTimeout
  | NoProtocol
  | ProtocolDone
  | ConnectFail
  | IoError.

Inductive ChannelStatus : Type :=
  | AssignedToAddress
  | Opened
  | Closed (r : ChannelStatusClosedReason)
  | Ping
  | Pong
  | PongTimeout
  | MonitoringSilenceReadStart
  | MonitoringSilenceReadTimeout
  | MonitoringSilenceReadUnchanged
  | MonitoringReadResultExpected
  | MonitoringReadResultUnexpected
  | MonitoringReadDiffTime
  | MonitoringReadDiffValue
  | HaveStatusId
  | HaveAddress
  | PollingReadTimeout.

Inductive ChannelStatusError : Type := UnknownStatus.

Definition ChannelStatus_to_kind (s : ChannelStatus) : Z :=
  match s with
  | AssignedToAddress => 24
  | Opened => 1
  | Closed x =>
      match x with
      | ShutdownCommand => 2
      | ChannelRemove => 3
      | ProtocolError => 4
      | FrequencyQuota => 5
      | BandwidthQuota => 6
      | InternalError => 7
      | IocTimeout => 8
      | NoProtocol => 9
      | ProtocolDone => 10
      | ConnectFail => 11
      | IoError => 12
      end
  | Pong => 25
  | MonitoringSilenceReadStart => 26
  | MonitoringSilenceReadTimeout => 27
  | MonitoringSilenceReadUnchanged => 28
  | HaveStatusId => 29
  | HaveAddress => 30
  | MonitoringReadResultExpected => 31
  | MonitoringReadResultUnexpected => 32
  | MonitoringReadDiffTime => 33
  | MonitoringReadDiffValue => 34
  | PollingReadTimeout => 35
  | Ping => 36
  | PongTimeout => 37
  end.

Definition ChannelStatus_from_kind (kind : Z) : outcome ChannelStatusError ChannelStatus :=
  match kind with
  | 1 => Ok Opened
  | 2 => Ok (Closed ShutdownCommand)
  | 3 => Ok (Closed ChannelRemove)
  | 4 => Ok (Closed ProtocolError)
  | 5 => Ok (Closed FrequencyQuota)
  | 6 => Ok (Closed BandwidthQuota)
  | 7 => Ok (Closed InternalError)
  | 8 => Ok (Closed IocTimeout)
  | 9 => Ok (Closed NoProtocol)
  | 10 => Ok (Closed ProtocolDone)
  | 11 => Ok (Closed ConnectFail)
  | 12 => Ok (Closed IoError)
  | 24 => Ok AssignedToAddress
  | 25 => Ok Pong
  | 26 => Ok MonitoringSilenceReadStart
  | 27 => Ok MonitoringSilenceReadTimeout
  | 28 => Ok MonitoringSilenceReadUnchanged
  | 29 => Ok HaveStatusId
  | 30 => Ok HaveAddress
  | 31 => Ok MonitoringReadResultExpected
  | 32 => Ok MonitoringReadResultUnexpected
  | 33 => Ok MonitoringReadDiffTime
  | 34 => Ok MonitoringReadDiffValue
  | 35 => Ok PollingReadTimeout
  | 36 => Ok Ping
  | 37 => Ok PongTimeout
  | _ => Err UnknownStatus
  end.

Definition ChannelStatus_to_u64 (s : ChannelStatus) : Z := ChannelStatus_to_kind s.

Definition ChannelStatus_to_user_variant_string (s : ChannelStatus) : string :=
  match s with
  | AssignedToAddress => "Located"
  | Opened => "Opened"
  | Closed _ => "Closed"
  | Ping => "Pingg"
  | Pong => "Pongg"
  | PongTimeout => "PongTimeout"
  | MonitoringSilenceReadStart => "MSRS"
  | MonitoringSilenceReadTimeout => "MSRT"
  | MonitoringSilenceReadUnchanged => "MSRU"
  | MonitoringReadResultExpected => "MRRE"
  | MonitoringReadResultUnexpected => "MRRU"
  | MonitoringReadDiffTime => "MRDT"
  | MonitoringReadDiffValue => "MRDV"
  | HaveStatusId => "HaveStatusId"
  | HaveAddress => "HaveAddress"
  | PollingReadTimeout => "PollingReadTimeout"
  end%string.

(** The stored kind of a channel status is unambiguous: it decodes to the
    status, and a kind decodes to a status only if it is the kind of it. *)
Theorem ChannelStatus_kind_round (s : ChannelStatus) (kind : Z) :
  ChannelStatus_from_kind kind = Ok s <-> kind = ChannelStatus_to_kind s.
Proof.
  split.
  - unfold ChannelStatus_from_kind. repeat case_match; intros; simplify_eq; done.
  - intros ->. destruct s as [| |r| | | | | | | | | | | | |]; try reflexivity. by destruct r.
Qed.

(** ** [HistoLog2] *)

Record HistoLog2 : Type := mkHisto { histo : list Z; histo_sub : Z }.

Definition HistoLog2_new (sub : Z) : HistoLog2 := mkHisto (replicate 16 0) sub.

(** The [while] loop: at most 15 turns, and one turn for each bit of [v]. *)
Fixpoint histo_po (fuel : nat) (v po : Z) : Z :=
  match fuel with
  | O => po
  | S fuel => if negb (v =? 0) && (po <? 15) then histo_po fuel (Z.shiftr v 1) (po + 1) else po
  end.

Definition HistoLog2_ingest {E} (h : HistoLog2) (v : Z) : outcome E HistoLog2 :=
  let po := histo_po 16 v 0 in
  let len := Z.of_nat (length (histo h)) in
  let po := if u64_add len (histo_sub h) <=? po then len - 1
            else if histo_sub h <? po then po - histo_sub h else 0 in
  let? n := index (histo h) (Z.to_nat po) in
  Ok (mkHisto (<[Z.to_nat po := u64_add n 1]> (histo h)) (histo_sub h)).

(** The class of a value: the number of its bits, at most 15. *)
Definition bit_class (v : Z) : Z := if v =? 0 then 0 else Z.min 15 (Z.log2 v + 1).

Lemma histo_po_spec fuel v po :
  0 <= v -> 0 <= po <= 15 -> 15 - po < Z.of_nat fuel ->
  histo_po fuel v po = Z.min 15 (po + if v =? 0 then 0 else Z.log2 v + 1).
Proof.
  revert v po. induction fuel as [|fuel IH]; intros v po Hv Hpo Hf; [lia|]. cbn [histo_po].
  destruct (Z.eqb_spec v 0) as [->|Hne]; simpl; [lia|].
  pose proof (Z.log2_nonneg v).
  destruct (Z.ltb_spec po 15); [|lia].
  rewrite IH by (try apply Z.shiftr_nonneg; lia).
  destruct (Z.eq_dec v 1) as [->|H1]; [simpl; lia|].
  rewrite Z.log2_shiftr by lia. rewrite Z.shiftr_div_pow2 by lia.
  destruct (Z.eqb_spec (v / 2 ^ 1) 0) as [Hz|_].
  { exfalso. change (2 ^ 1) with 2 in Hz. pose proof (Z.div_le_mono 2 v 2 ltac:(lia) ltac:(lia)).
    change (2 / 2) with 1 in *. lia. }
  assert (1 <= Z.log2 v) by (change 1 with (Z.log2 2); apply Z.log2_le_mono; lia). lia.
Qed.

(** Counting a value never indexes out of range: it raises by one exactly
    the slot of the value's bit class, shifted down by [sub] and kept inside
    the sixteen slots. *)
Theorem HistoLog2_ingest_slot {E} h v :
  length (histo h) = 16%nat -> 0 <= histo_sub h < 2 ^ 63 -> is_u32 v ->
  let slot := Z.to_nat (Z.max 0 (Z.min 15 (bit_class v - histo_sub h))) in
  exists n, histo h !! slot = Some n /\
    @HistoLog2_ingest E h v = Ok (mkHisto (<[slot := u64_add n 1]> (histo h)) (histo_sub h)).
Proof.
  intros Hl Hs Hv. unfold in_u in Hv. unfold HistoLog2_ingest. rewrite histo_po_spec by lia. rewrite Hl.
  rewrite u64_add_small by lia. cbn zeta.
  assert (Hc : Z.min 15 (0 + (if v =? 0 then 0 else Z.log2 v + 1)) = bit_class v).
  { unfold bit_class. destruct (v =? 0); lia. }
  rewrite Hc. assert (0 <= bit_class v <= 15).
  { unfold bit_class. destruct (v =? 0); [lia|]. pose proof (Z.log2_nonneg v). lia. }
  set (slot := Z.to_nat (Z.max 0 (Z.min 15 (bit_class v - histo_sub h)))).
  assert (Hsl : Z.to_nat (if Z.of_nat 16 + histo_sub h <=? bit_class v then Z.of_nat 16 - 1
            else if histo_sub h <? bit_class v then bit_class v - histo_sub h else 0) = slot).
  { unfold slot. destruct (Z.leb_spec (Z.of_nat 16 + histo_sub h) (bit_class v)); [lia|].
    destruct (Z.ltb_spec (histo_sub h) (bit_class v)); lia. }
  rewrite Hsl. destruct (lookup_lt_is_Some_2 (histo h) slot) as [n Hn]; [unfold slot; lia|].
  exists n. split; [done|]. unfold index. by rewrite Hn.
Qed.

Lemma HistoLog2_ingest_slot_witness :
  @HistoLog2_ingest unit (HistoLog2_new 3) 300 = Ok (mkHisto (<[6%nat := 1]> (replicate 16 0)) 3).
Proof.
  destruct (@HistoLog2_ingest_slot unit (HistoLog2_new 3) 300) as (n & Hn & He);
    [reflexivity | simpl; lia | unfold in_u; lia |].
  rewrite He. injection Hn as <-. reflexivity.
Defined.
