(* ===== verification/Ranges.v ===== *)
(** * Ranges and binning grids

    [NanoRange], [PulseRange], [SeriesRange] of
    [daqbuf-netpod/src/range/evrange.rs]; the [Dim0Index] trait with its two
    instances, [PreBinnedPatchCoord], [BinnedRange] and [BinnedRangeEnum] of
    [daqbuf-netpod/src/netpod.rs]. The grid theorems are proved against the
    interface [Dim0Laws], which both instances discharge. *)
From Stdlib Require Import ZArith Lia.
From stdpp Require Import base numbers option strings list.
From S2P Require Import Prelude TimeTypes.

#[local] Open Scope Z_scope.
#[local] Open Scope rust_scope.

(** ** Ranges *)

Record NanoRange : Type := mkNanoRange { nr_beg : Z; nr_end : Z }.
Record PulseRange : Type := mkPulseRange { pr_beg : Z; pr_end : Z }.

Inductive SeriesRange : Type :=
  | TimeRange (r : NanoRange)
  | PulseRange_ (r : PulseRange).

Inductive Dim0Kind : Type := Dim0Time | Dim0Pulse.

Inductive range_error : Type :=
  | NotTimerange
  | BinCountTooSmall
  | BinCountTooLarge
  | BinnedNoGridMatch
  | TimelikeBinWidthImpossibleForPulseRange.

Definition NanoRange_from_ms_u64 (beg en : Z) : NanoRange := mkNanoRange (u64_mul MS beg) (u64_mul MS en).
Definition NanoRange_from_ns_u64 (beg en : Z) : NanoRange := mkNanoRange beg en.
Definition NanoRange_delta (r : NanoRange) : Z := u64_sub (nr_end r) (nr_beg r).
Definition NanoRange_beg_ts (r : NanoRange) : Z := TsNano_from_ns (nr_beg r).
Definition NanoRange_end_ts (r : NanoRange) : Z := TsNano_from_ns (nr_end r).

Definition NanoRange_try_from (v : SeriesRange) : outcome range_error NanoRange :=
  match v with
  | TimeRange x => Ok x
  | PulseRange_ _ => Err NotTimerange
  end.

Definition SeriesRange_dim0kind (r : SeriesRange) : Dim0Kind :=
  match r with TimeRange _ => Dim0Time | PulseRange_ _ => Dim0Pulse end.
Definition SeriesRange_is_time (r : SeriesRange) : bool :=
  match r with TimeRange _ => true | PulseRange_ _ => false end.
Definition SeriesRange_is_pulse (r : SeriesRange) : bool :=
  match r with TimeRange _ => false | PulseRange_ _ => true end.
Definition SeriesRange_beg_u64 (r : SeriesRange) : Z :=
  match r with TimeRange x => nr_beg x | PulseRange_ x => pr_beg x end.
Definition SeriesRange_end_u64 (r : SeriesRange) : Z :=
  match r with TimeRange x => nr_end x | PulseRange_ x => pr_end x end.
Definition SeriesRange_delta_u64 (r : SeriesRange) : Z :=
  match r with
  | TimeRange x => u64_sub (nr_end x) (nr_beg x)
  | PulseRange_ x => u64_sub (pr_end x) (pr_beg x)
  end.
Definition SeriesRange_to_time (r : SeriesRange) : option NanoRange :=
  match r with TimeRange x => Some x | PulseRange_ _ => None end.

(** ** The index of a series *)

Record PulseId : Type := PulseId_from_id { pulse_id : Z }.

Record BinnedRange (T : Type) : Type := mkBinnedRange { bin_len : T; bin_off : Z; bin_cnt : Z }.
Arguments mkBinnedRange {T} _ _ _.
Arguments bin_len {T} _.
Arguments bin_off {T} _.
Arguments bin_cnt {T} _.

Inductive BinnedRangeEnum : Type :=
  | BinnedTime (r : BinnedRange TsNano)
  | BinnedPulse (r : BinnedRange PulseId).

Record PreBinnedPatchCoord (T : Type) : Type := mkPatchCoord {
  pc_bin_len : T;
  pc_bin_count : Z;
  pc_patch_offset : Z
}.
Arguments mkPatchCoord {T} _ _ _.
Arguments pc_bin_len {T} _.
Arguments pc_bin_count {T} _.
Arguments pc_patch_offset {T} _.

Record PreBinnedPatchRange (T : Type) : Type := mkPatchRange {
  ppr_first : PreBinnedPatchCoord T;
  ppr_patch_count : Z
}.
Arguments mkPatchRange {T} _ _.

Inductive PreBinnedPatchRangeEnum : Type :=
  | PatchRangeTime (r : PreBinnedPatchRange TsNano)
  | PatchRangePulse (r : PreBinnedPatchRange PulseId).

(** The trait; [PartialOrd] is the order of [as_u64]. [prebin_patch_len_for]
    is [todo!()] in both instances, it panics. *)
Class Dim0Index (T : Type) : Type := {
  d0_add : T -> T -> T;
  d0_sub : T -> T -> T;
  d0_sub_n : T -> Z -> T;
  d0_times : T -> Z -> T;
  d0_div_n : forall {E}, T -> Z -> outcome E T;
  d0_div_v : forall {E}, T -> T -> outcome E Z;
  d0_as_u64 : T -> Z;
  d0_series_range : T -> T -> SeriesRange;
  d0_prebin_bin_len_opts : list T;
  d0_prebin_patch_len_for : forall {E}, nat -> outcome E T;
  d0_to_pre_binned_patch_range_enum : T -> Z -> Z -> Z -> PreBinnedPatchRangeEnum;
  d0_binned_bin_len_opts : list T;
  d0_to_binned_range_enum : T -> Z -> Z -> BinnedRangeEnum
}.

Definition d0_leb {T} `{Dim0Index T} (a b : T) : bool := d0_as_u64 a <=? d0_as_u64 b.

Definition PREBIN_TIME_BIN_LEN_VAR0 : list Z := [MIN * 1; HOUR * 1; DAY].
Definition PREBIN_PULSE_BIN_LEN_VAR0 : list Z := [100; 10000; 1000000; 100000000].

Definition TIME_BIN_THRESHOLDS : list Z := [
  MS * 20; MS * 50; MS * 100; MS * 200; MS * 500;
  SEC; SEC * 2; SEC * 5; SEC * 10; SEC * 20;
  MIN; MIN * 2; MIN * 5; MIN * 10; MIN * 20;
  HOUR; HOUR * 2; HOUR * 4; HOUR * 12;
  DAY; DAY * 2; DAY * 4; DAY * 8; DAY * 16; DAY * 32; DAY * 64
].

Definition PULSE_BIN_THRESHOLDS : list Z := [
  10; 20; 40; 80; 100; 200; 400; 800; 1000; 2000; 4000; 8000; 10000; 20000; 40000; 80000; 100000;
  200000; 400000; 800000; 1000000; 2000000; 4000000; 8000000; 10000000
].

#[export] Instance Dim0Index_TsNano : Dim0Index TsNano := {|
  d0_add := fun a v => u64_add a v;
  d0_sub := fun a v => u64_sub a v;
  d0_sub_n := fun a v => u64_sub a v;
  d0_times := fun a x => u64_mul a x;
  d0_div_n := fun E a n => u_div a n;
  d0_div_v := fun E a v => u_div a v;
  d0_as_u64 := fun a => a;
  d0_series_range := fun a b => TimeRange (mkNanoRange a b);
  d0_prebin_bin_len_opts := PREBIN_TIME_BIN_LEN_VAR0;
  d0_prebin_patch_len_for := fun E i => Panic;
  d0_to_pre_binned_patch_range_enum := fun self bin_count patch_offset patch_count =>
    PatchRangeTime (mkPatchRange (mkPatchCoord self bin_count patch_offset) patch_count);
  d0_binned_bin_len_opts := TIME_BIN_THRESHOLDS;
  d0_to_binned_range_enum := fun self bin_off bin_cnt => BinnedTime (mkBinnedRange self bin_off bin_cnt)
|}.

#[export] Instance Dim0Index_PulseId : Dim0Index PulseId := {|
  d0_add := fun a v => PulseId_from_id (u64_add (pulse_id a) (pulse_id v));
  d0_sub := fun a v => PulseId_from_id (u64_sub (pulse_id a) (pulse_id v));
  d0_sub_n := fun a v => PulseId_from_id (u64_sub (pulse_id a) v);
  d0_times := fun a x => PulseId_from_id (u64_mul (pulse_id a) x);
  d0_div_n := fun E a n => let? q := u_div (pulse_id a) n in Ok (PulseId_from_id q);
  d0_div_v := fun E a v => u_div (pulse_id a) (pulse_id v);
  d0_as_u64 := fun a => pulse_id a;
  d0_series_range := fun a b => PulseRange_ (mkPulseRange (pulse_id a) (pulse_id b));
  d0_prebin_bin_len_opts := map PulseId_from_id PREBIN_PULSE_BIN_LEN_VAR0;
  d0_prebin_patch_len_for := fun E i => Panic;
  d0_to_pre_binned_patch_range_enum := fun self bin_count patch_offset patch_count =>
    PatchRangePulse (mkPatchRange (mkPatchCoord self bin_count patch_offset) patch_count);
  d0_binned_bin_len_opts := map PulseId_from_id PULSE_BIN_THRESHOLDS;
  d0_to_binned_range_enum := fun self bin_off bin_cnt => BinnedPulse (mkBinnedRange self bin_off bin_cnt)
|}.

(** ** [PreBinnedPatchCoord] and [PreBinnedPatchRangeEnum] *)
Section PatchCoord.
  Context {T : Type} `{Dim0Index T}.

Definition pc_patch_len (c : PreBinnedPatchCoord T) : T := d0_times (pc_bin_len c) (pc_bin_count c).

Definition pc_patch_beg (c : PreBinnedPatchCoord T) : T :=
  d0_times (d0_times (pc_bin_len c) (pc_bin_count c)) (pc_patch_offset c).

Definition pc_patch_end (c : PreBinnedPatchCoord T) : T :=
  d0_times (d0_times (pc_bin_len c) (pc_bin_count c)) (u64_add 1 (pc_patch_offset c)).

Definition pc_series_range (c : PreBinnedPatchCoord T) : SeriesRange :=
  d0_series_range (pc_patch_beg c) (pc_patch_end c).

(** The [for] loop over the bin count. *)
Fixpoint pc_edges_loop (c : PreBinnedPatchCoord T) (n : nat) (t : T) (ret : list T) : list T :=
  match n with
  | O => ret
  | S n =>
      let t := d0_add t (pc_bin_len c) in
      pc_edges_loop c n t (ret ++ [t])
  end.

Definition pc_edges (c : PreBinnedPatchCoord T) : list T :=
  let t := pc_patch_beg c in
  pc_edges_loop c (Z.to_nat (pc_bin_count c)) t [t].

Definition pc_next (c : PreBinnedPatchCoord T) : PreBinnedPatchCoord T :=
  mkPatchCoord (pc_bin_len c) (pc_bin_count c) (u64_add 1 (pc_patch_offset c)).

(** The reversed [for] loop over the numbered options. *)
Fixpoint ppr_search (a b max_bin_len : T) (opts : list (nat * T)) : outcome range_error PreBinnedPatchRangeEnum :=
  match opts with
  | [] => Err BinnedNoGridMatch
  | (i1, bl) :: opts =>
      if d0_leb bl max_bin_len then
        let? patch_len := d0_prebin_patch_len_for i1 in
        let? bin_count := d0_div_v patch_len bl in
        let? patch_off_1 := d0_div_v a patch_len in
        let? patch_off_2 := d0_div_v (d0_sub_n (d0_add b patch_len) 1) patch_len in
        let patch_count := u64_sub patch_off_2 patch_off_1 in
        Ok (d0_to_pre_binned_patch_range_enum bl bin_count patch_off_1 patch_count)
      else ppr_search a b max_bin_len opts
  end.

Definition ppr_covering_range_ty (a b : T) (min_bin_count : Z) : outcome range_error PreBinnedPatchRangeEnum :=
  let opts := d0_prebin_bin_len_opts in
  if min_bin_count <? 1 then Err BinCountTooSmall
  else if 20000 <? min_bin_count then Err BinCountTooLarge
  else
    let du := d0_sub b a in
    let? max_bin_len := d0_div_n du min_bin_count in
    ppr_search a b max_bin_len (rev (imap (fun i bl => (i, bl)) opts)).

End PatchCoord.

Definition ppr_covering_range (range : SeriesRange) (min_bin_count : Z) : outcome range_error PreBinnedPatchRangeEnum :=
  match range with
  | TimeRange k => ppr_covering_range_ty (T := Z) (nr_beg k) (nr_end k) min_bin_count
  | PulseRange_ k => ppr_covering_range_ty (PulseId_from_id (pr_beg k)) (PulseId_from_id (pr_end k)) min_bin_count
  end.

(** ** [BinnedRange] *)
Section BinnedRangeOps.
  Context {T : Type} `{Dim0Index T}.

Definition br_full_range (r : BinnedRange T) : NanoRange :=
  let beg := d0_as_u64 (d0_times (bin_len r) (bin_off r)) in
  let en := d0_as_u64 (d0_times (bin_len r) (u64_add (bin_off r) (bin_cnt r))) in
  mkNanoRange beg en.

(** The loops [while t <= end]: [None] when the fuel does not suffice. *)
Fixpoint br_edges_u64_loop (fuel : nat) (r : BinnedRange T) (t en : T) (ret : list Z) : option (list Z) :=
  match fuel with
  | O => None
  | S fuel =>
      if d0_leb t en then br_edges_u64_loop fuel r (d0_add t (bin_len r)) en (ret ++ [d0_as_u64 t])
      else Some ret
  end.

Definition br_edges_u64 (fuel : nat) (r : BinnedRange T) : option (list Z) :=
  let t := d0_times (bin_len r) (bin_off r) in
  let en := d0_times (bin_len r) (u64_add (bin_off r) (bin_cnt r)) in
  br_edges_u64_loop fuel r t en [].

Fixpoint br_edges_loop (fuel : nat) (r : BinnedRange T) (t en : T) (ret : list T) : option (list T) :=
  match fuel with
  | O => None
  | S fuel =>
      if d0_leb t en then br_edges_loop fuel r (d0_add t (bin_len r)) en (ret ++ [t])
      else Some ret
  end.

Definition br_edges (fuel : nat) (r : BinnedRange T) : option (list T) :=
  let t := d0_times (bin_len r) (bin_off r) in
  let en := d0_times (bin_len r) (u64_add (bin_off r) (bin_cnt r)) in
  br_edges_loop fuel r t en [].

(** [BinnedRangeEnum::covering_range_ty]: the longest option within the
    maximal bin length, by the reversed [for] loop. *)
Fixpoint bre_find (max_bin_len : T) (opts : list T) : option T :=
  match opts with
  | [] => None
  | bl :: opts => if d0_leb bl max_bin_len then Some bl else bre_find max_bin_len opts
  end.

Definition bre_covering_range_ty (a b : T) (min_bin_count : Z) : outcome range_error BinnedRangeEnum :=
  let opts := d0_binned_bin_len_opts in
  if min_bin_count <? 1 then Err BinCountTooSmall
  else
    let bin_count_max := 2 ^ 31 - 1 in
    if bin_count_max <? min_bin_count then Err BinCountTooLarge
    else
      let du := d0_sub b a in
      let? max_bin_len := d0_div_n du min_bin_count in
      let found_bin_len := bre_find max_bin_len (rev opts) in
      let bl := default max_bin_len found_bin_len in
      let? off_1 := d0_div_v a bl in
      let? off_2 := d0_div_v (d0_sub_n (d0_add b bl) 1) bl in
      let bin_cnt := u64_sub off_2 off_1 in
      Ok (d0_to_binned_range_enum bl off_1 bin_cnt).

End BinnedRangeOps.

Definition br_to_nano_range (r : BinnedRange TsNano) : NanoRange :=
  let beg := u64_mul (bin_len r) (bin_off r) in
  let en := u64_mul (bin_len r) (u64_add (bin_off r) (bin_cnt r)) in
  mkNanoRange beg en.

Definition br_from_nano_range {E} (range : NanoRange) (bl : DtMs) : outcome E (BinnedRange TsNano) :=
  let? off1 := u_div (nr_beg range) (DtMs_ns bl) in
  let? off2 := u_div (u64_add (u64_sub (DtMs_ns bl) 1) (nr_end range)) (DtMs_ns bl) in
  Ok (mkBinnedRange (TsNano_from_ns (DtMs_ns bl)) off1 (u64_sub off2 off1)).

Definition br_from_beg_to_inf {E} (beg : TsNano) (bl : DtMs) : outcome E (BinnedRange TsNano) :=
  let margin := 1000 * 1000 * 1000 * 60 * 60 * 24 * 40 in
  let? q := u_div (u64_sub (2 ^ 64 - 1) margin) (DtMs_ns bl) in
  let en := u64_mul q (DtMs_ns bl) in
  br_from_nano_range (NanoRange_from_ns_u64 (TsNano_ns beg) en) bl.

(** The choice of the bin length in [covering_range_time]. *)
Definition br_choose_bin_len (bin_len_req : DtMs) : outcome range_error DtMs :=
  let opts := TIME_BIN_THRESHOLDS in
  let? opts0 := index opts 0 in
  let? opts_last := unwrap (last opts) in
  let bin_len_req := if bin_len_req <? TsNano_ms opts0 then TsNano_ms opts0 else bin_len_req in
  let bin_len_req := if TsNano_ms opts_last <? bin_len_req then TsNano_ms opts_last else bin_len_req in
  let pv := TsNano_from_ns (DtMs_ns bin_len_req) in
  let pi := partition_point (fun x => x <? pv) opts in
  match pi with
  | O => Ok (TsNano_ms opts0)
  | S pi1 =>
      let? o1 := index opts pi1 in
      let v1 := TsNano_ms o1 in
      match opts !! pi with
      | Some v2 =>
          let v2 := TsNano_ms v2 in
          if (bin_len_req <=? v1) || (v2 <? bin_len_req) then Panic
          else
            let? f1 := u_div (u64_sub bin_len_req v1) bin_len_req in
            let? f2 := u_div (u64_sub v2 bin_len_req) bin_len_req in
            if f1 <? f2 then Ok v1 else Ok v2
      | None => Ok v1
      end
  end.

Definition br_covering_range_time (range : NanoRange) (bin_len_req : DtMs) : outcome range_error (BinnedRange TsNano) :=
  let? bl := br_choose_bin_len bin_len_req in
  let? bin_off := u_div (nr_beg range) (DtMs_ns bl) in
  let? off2 := u_div (u64_sub (u64_add (nr_end range) (DtMs_ns bl)) 1) (DtMs_ns bl) in
  let bin_cnt := u64_sub off2 bin_off in
  Ok (mkBinnedRange (TsNano_from_ns (DtMs_ns bl)) bin_off bin_cnt).

Definition br_nano_beg (r : BinnedRange TsNano) : TsNano := u64_mul (bin_len r) (bin_off r).
Definition br_nano_end (r : BinnedRange TsNano) : TsNano := u64_mul (bin_len r) (u64_add (bin_off r) (bin_cnt r)).
Definition br_one_before_bin (r : BinnedRange TsNano) : BinnedRange TsNano :=
  mkBinnedRange (bin_len r) (u64_sub (bin_off r) 1) (u64_add (bin_cnt r) 1).
Definition br_bin_len_dt_ms (r : BinnedRange TsNano) : DtMs := TsNano_to_dt_ms (bin_len r).
Definition br_bin_len_dt_ns (r : BinnedRange TsNano) : DtNano := TsNano_to_dt_nano (bin_len r).

(** ** [BinnedRangeEnum] *)

Definition bre_covering_range_time (range : SeriesRange) (bin_len_req : DtMs) : outcome range_error BinnedRangeEnum :=
  match range with
  | TimeRange k => let? r := br_covering_range_time k bin_len_req in Ok (BinnedTime r)
  | PulseRange_ _ => Err TimelikeBinWidthImpossibleForPulseRange
  end.

Definition bre_covering_range (range : SeriesRange) (min_bin_count : Z) : outcome range_error BinnedRangeEnum :=
  match range with
  | TimeRange k => bre_covering_range_ty (T := Z) (nr_beg k) (nr_end k) min_bin_count
  | PulseRange_ k => bre_covering_range_ty (PulseId_from_id (pr_beg k)) (PulseId_from_id (pr_end k)) min_bin_count
  end.

Definition bre_bin_count (r : BinnedRangeEnum) : Z :=
  match r with BinnedTime k => bin_cnt k | BinnedPulse k => bin_cnt k end.

Definition bre_range_at (r : BinnedRangeEnum) (i : Z) : option SeriesRange :=
  match r with
  | BinnedTime k =>
      if i <? bin_cnt k then
        let beg := u64_mul (bin_len k) (u64_add (bin_off k) i) in
        Some (TimeRange (mkNanoRange beg (u64_add beg (bin_len k))))
      else None
  | BinnedPulse k =>
      if i <? bin_cnt k then
        let beg := u64_mul (pulse_id (bin_len k)) (u64_add (bin_off k) i) in
        Some (PulseRange_ (mkPulseRange beg (u64_add beg (pulse_id (bin_len k)))))
      else None
  end.

Definition bre_dim0kind (r : BinnedRangeEnum) : Dim0Kind :=
  match r with BinnedTime _ => Dim0Time | BinnedPulse _ => Dim0Pulse end.

Definition bre_binned_range_time (r : BinnedRangeEnum) : option (BinnedRange TsNano) :=
  match r with BinnedTime x => Some x | BinnedPulse _ => None end.

Definition bre_from_custom (len : TsNano) (off cnt : Z) : BinnedRangeEnum :=
  BinnedTime (mkBinnedRange len off cnt).

(** ** The interface the grid theorems rely on *)

Class Dim0Laws (T : Type) `{Dim0Index T} : Prop := {
  d0_as_u64_inj (a b : T) : d0_as_u64 a = d0_as_u64 b -> a = b;
  d0_as_u64_add (a b : T) : d0_as_u64 (d0_add a b) = u64_add (d0_as_u64 a) (d0_as_u64 b);
  d0_as_u64_sub (a b : T) : d0_as_u64 (d0_sub a b) = u64_sub (d0_as_u64 a) (d0_as_u64 b);
  d0_as_u64_sub_n (a : T) n : d0_as_u64 (d0_sub_n a n) = u64_sub (d0_as_u64 a) n;
  d0_as_u64_times (a : T) x : d0_as_u64 (d0_times a x) = u64_mul (d0_as_u64 a) x;
  d0_div_n_ok E (a : T) n : n <> 0 -> exists q, @d0_div_n _ _ E a n = Ok q /\ d0_as_u64 q = d0_as_u64 a / n;
  d0_div_v_eq E (a v : T) : @d0_div_v _ _ E a v = u_div (d0_as_u64 a) (d0_as_u64 v);
  d0_opts_sorted :
    Forall (fun x => 0 < x < 2 ^ 63) (map d0_as_u64 d0_binned_bin_len_opts);
  d0_range_enum_view (l : T) off cnt :
    match d0_to_binned_range_enum l off cnt with
    | BinnedTime r => bin_len r = d0_as_u64 l /\ bin_off r = off /\ bin_cnt r = cnt
    | BinnedPulse r => pulse_id (bin_len r) = d0_as_u64 l /\ bin_off r = off /\ bin_cnt r = cnt
    end;
  d0_kind_agree (a b l : T) off cnt :
    match d0_to_binned_range_enum l off cnt, d0_series_range a b with
    | BinnedTime _, TimeRange _ | BinnedPulse _, PulseRange_ _ => True
    | _, _ => False
    end
}.

#[export] Instance Dim0Laws_TsNano : Dim0Laws TsNano.
Proof.
  split; try done.
  - intros E a n Hn. exists (a / n). split; [|done]. by apply u_div_ok.
  - repeat constructor.
Qed.

#[export] Instance Dim0Laws_PulseId : Dim0Laws PulseId.
Proof.
  split; try done.
  - intros [a] [b]; simpl; congruence.
  - intros E a n Hn. exists (PulseId_from_id (pulse_id a / n)). split; [|done].
    simpl. by rewrite u_div_ok.
  - repeat constructor.
Qed.

#[export] Hint Rewrite @d0_as_u64_add @d0_as_u64_sub @d0_as_u64_sub_n @d0_as_u64_times using typeclasses eauto : rustw.

(** ** The grid covers the range *)

(** [off] and [cnt] count whole bins of length [bl] that cover [[a, b)] and no
    bin more than needed on either side. *)
Definition covers (bl off cnt a b : Z) : Prop :=
  off * bl <= a < (off + 1) * bl /\ (off + cnt - 1) * bl < b <= (off + cnt) * bl.

Lemma covers_intro bl a b :
  0 < bl -> a <= b ->
  covers bl (a / bl) ((b + bl - 1) / bl - a / bl) a b.
Proof.
  intros Hb Hab. split; [by apply floor_grid|].
  replace (a / bl + ((b + bl - 1) / bl - a / bl)) with ((b + bl - 1) / bl) by lia. by apply ceil_grid.
Qed.

Lemma covers_cnt_nonneg bl off cnt a b : 0 < bl -> a <= b -> covers bl off cnt a b -> 0 <= cnt.
Proof. intros Hb Hab [H1 H2]. nia. Qed.

Lemma covers_cnt_ge bl off cnt a b m : 0 < bl -> covers bl off cnt a b -> bl * m <= b - a -> m <= cnt.
Proof.
  intros Hb [H1 H2] Hm. assert (bl * m <= bl * cnt) by lia. by apply (Z.mul_le_mono_pos_l _ _ bl).
Qed.

(** The grid offsets as the code computes them, without wrap-around. *)
Lemma grid_offsets bl a b :
  0 < bl -> 0 <= a <= b -> b + bl < 2 ^ 64 ->
  u64_sub (u64_add b bl) 1 / bl = (b + bl - 1) / bl /\
  u64_sub ((b + bl - 1) / bl) (a / bl) = (b + bl - 1) / bl - a / bl.
Proof.
  intros Hb Hab Ho. rewrite u64_add_small, u64_sub_small by lia. split; [done|].
  pose proof (ceil_floor_le a b bl Hb ltac:(lia)). pose proof (Z.div_pos a bl ltac:(lia) Hb).
  assert ((b + bl - 1) / bl <= b + bl - 1) by (apply Z.div_le_upper_bound; nia).
  apply u64_sub_small; lia.
Qed.

(** The thresholds in milliseconds. *)
Definition thresholds_ms : list Z := Eval vm_compute in map TsNano_ms TIME_BIN_THRESHOLDS.

Lemma thresholds_ms_eq : TIME_BIN_THRESHOLDS = map (fun x => 1000000 * x) thresholds_ms.
Proof. reflexivity. Qed.

Fixpoint adjacent (f : Z -> Z -> bool) (l : list Z) : bool :=
  match l with
  | a :: ((b :: _) as l') => f a b && adjacent f l'
  | _ => true
  end.

Lemma adjacent_lookup f l i a b :
  adjacent f l = true -> l !! i = Some a -> l !! S i = Some b -> f a b = true.
Proof.
  revert i. induction l as [|x [|y l] IH]; intros i Ha H1 H2; [done|by destruct i|].
  cbn [adjacent] in Ha. apply andb_prop in Ha as [Hxy Hr]. destruct i as [|i]; simplify_eq/=; [done|].
  by apply (IH i).
Qed.

Lemma partition_point_map {A B} (g : A -> B) f l :
  partition_point f (map g l) = partition_point (fun x => f (g x)) l.
Proof. induction l as [|x l IH]; simpl; [done|]. by rewrite IH. Qed.

Lemma partition_point_ext {A} (f g : A -> bool) l :
  (forall x, f x = g x) -> partition_point f l = partition_point g l.
Proof. intros Hfg. induction l as [|x l IH]; simpl; [done|]. by rewrite Hfg, IH. Qed.

(** The requested length, clamped to the table. *)
Definition clamp_req (req : Z) : Z := Z.min (Z.max req 20) 5529600000.

(** Where a clamped request falls into the table: at its first entry, or
    between two neighbours, which differ by a factor of at most three. *)
Lemma thresholds_split c :
  20 <= c <= 5529600000 ->
  let pi := partition_point (fun x => x <? c) thresholds_ms in
  (pi = O /\ c = 20) \/
  exists pi1 v1 v2, pi = S pi1 /\ thresholds_ms !! pi1 = Some v1 /\ thresholds_ms !! pi = Some v2 /\
    0 < v1 < c /\ c <= v2 <= 3 * v1 /\ v2 <= 5529600000.
Proof.
  intros Hc pi.
  pose proof (@partition_point_before _ (fun x => x <? c) thresholds_ms) as Hbefore.
  pose proof (@partition_point_at _ (fun x => x <? c) thresholds_ms) as Hat.
  pose proof (partition_point_le (fun x => x <? c) thresholds_ms) as Hle.
  fold pi in Hbefore, Hat, Hle.
  assert (Hlt : (pi < 26)%nat).
  { change (length thresholds_ms) with 26%nat in Hle. destruct (decide (pi = 26%nat)) as [He|]; [|lia].
    specialize (Hbefore 25%nat 5529600000 ltac:(lia) eq_refl). apply Z.ltb_lt in Hbefore. lia. }
  destruct (lookup_lt_is_Some_2 thresholds_ms pi Hlt) as [v2 Hv2].
  specialize (Hat v2 Hv2). apply Z.ltb_ge in Hat.
  destruct pi as [|pi1] eqn:Hpi.
  { left. simplify_eq/=. split; [done|]. lia. }
  destruct (lookup_lt_is_Some_2 thresholds_ms pi1 ltac:(simpl in *; lia)) as [v1 Hv1].
  specialize (Hbefore pi1 v1 ltac:(lia) Hv1). apply Z.ltb_lt in Hbefore.
  assert (Hratio := adjacent_lookup (fun a b => (0 <? a) && (b <=? 3 * a)) thresholds_ms pi1 v1 v2 eq_refl Hv1 Hv2).
  apply andb_prop in Hratio as [Hpos Hratio]. apply Z.ltb_lt in Hpos. apply Z.leb_le in Hratio.
  assert (Hbound : v2 <= 5529600000).
  { revert Hv2. apply (proj1 (Forall_lookup (fun x => x <= 5529600000) thresholds_ms)).
    by apply (bool_decide_unpack _). }
  right. exists pi1, v1, v2. repeat split; done || lia.
Qed.

Lemma br_choose_bin_len_spec req :
  0 <= req ->
  exists bl, br_choose_bin_len req = Ok bl /\ bl ∈ thresholds_ms /\
    bl < 2 * clamp_req req /\ 2 * clamp_req req <= 3 * bl.
Proof.
  intros Hreq. unfold br_choose_bin_len.
  change (index (E := range_error) TIME_BIN_THRESHOLDS 0) with (@Ok range_error Z 20000000).
  change (unwrap (E := range_error) (last TIME_BIN_THRESHOLDS)) with (@Ok range_error Z 5529600000000000).
  cbn [and_then]. change (TsNano_ms 20000000) with 20. change (TsNano_ms 5529600000000000) with 5529600000.
  replace (if 5529600000 <? (if req <? 20 then 20 else req) then 5529600000 else if req <? 20 then 20 else req)
    with (clamp_req req)
    by (unfold clamp_req; destruct (Z.ltb_spec req 20); case Z.ltb_spec; lia).
  assert (Hc : 20 <= clamp_req req <= 5529600000) by (unfold clamp_req; lia).
  set (c := clamp_req req) in *. cbn zeta.
  unfold TsNano_from_ns, DtMs_ns. rewrite u64_mul_small by lia.
  rewrite thresholds_ms_eq, partition_point_map.
  rewrite (partition_point_ext _ (fun x => x <? c))
    by (intros x; cbn beta; destruct (Z.ltb_spec (1000000 * x) (1000000 * c)), (Z.ltb_spec x c); lia || done).
  destruct (thresholds_split c Hc) as [[-> ->]|(pi1 & v1 & v2 & -> & Hv1 & Hv2 & H1 & H2 & H3)].
  { exists 20. split; [done|]. split; [by left|]. lia. }
  unfold index, unwrap. rewrite !list_lookup_fmap, Hv1, Hv2. cbn [fmap option_fmap option_map and_then].
  unfold TsNano_ms. rewrite !(Z.mul_comm 1000000), !Z.div_mul by lia.
  rewrite (proj2 (Z.leb_gt c v1)), (proj2 (Z.ltb_ge v2 c)) by lia. cbn [orb].
  rewrite !u64_sub_small, !u_div_ok by lia. cbn [and_then].
  rewrite (Z.div_small (c - v1)) by lia.
  destruct (Z.ltb_spec 0 ((v2 - c) / c)) as [Hf|Hf].
  - exists v1. split; [done|]. split; [by eapply list_elem_of_lookup_2|].
    assert (c <= v2 - c) by (destruct (Z.le_gt_cases c (v2 - c)); [done|rewrite Z.div_small in Hf; lia]). lia.
  - exists v2. split; [done|]. split; [by eapply list_elem_of_lookup_2|].
    assert (v2 - c < c); [|lia]. destruct (Z.le_gt_cases c (v2 - c)); [|lia].
    assert (1 <= (v2 - c) / c) by (apply Z.div_le_lower_bound; lia). lia.
Qed.

(** [covering_range_time] never panics: it returns a grid whose bins cover
    the range with no bin to spare on either side, and whose bin length is an
    entry of the table within a factor of two of the request (clamped to the
    table). *)
Theorem br_covering_range_time_covers range req :
  0 <= nr_beg range <= nr_end range -> nr_end range < 2 ^ 63 -> 0 <= req ->
  exists r ms, br_covering_range_time range req = Ok r /\
    ms ∈ thresholds_ms /\ bin_len r = 1000000 * ms /\
    ms < 2 * clamp_req req /\ 2 * clamp_req req <= 3 * ms /\
    covers (bin_len r) (bin_off r) (bin_cnt r) (nr_beg range) (nr_end range).
Proof.
  intros Hr He Hq. destruct (br_choose_bin_len_spec req Hq) as (bl & Hbl & Hin & H1 & H2).
  unfold br_covering_range_time. rewrite Hbl. cbn [and_then].
  assert (20 <= bl <= 5529600000).
  { clear -Hin. revert bl Hin. apply Forall_forall. by apply (bool_decide_unpack _). }
  unfold DtMs_ns. rewrite u64_mul_small by lia.
  rewrite !u_div_ok by lia. cbn [and_then].
  destruct (grid_offsets (1000000 * bl) (nr_beg range) (nr_end range)) as [-> ->]; [lia..|].
  eexists _, bl. split; [done|]. cbn [bin_len bin_off bin_cnt].
  do 4 (split; [done|]). apply covers_intro; lia.
Qed.

Lemma br_covering_range_time_covers_witness :
  exists r ms, br_covering_range_time (mkNanoRange 1700000000123000000 1700000100456000000) 5000 = Ok r /\
    ms ∈ thresholds_ms /\ bin_len r = 1000000 * ms /\ ms < 10000.
Proof.
  destruct (br_covering_range_time_covers (mkNanoRange 1700000000123000000 1700000100456000000) 5000)
    as (r & ms & Hok & Hin & Hl & Hm & _); [simpl; lia..|].
  exists r, ms. auto.
Defined.

(** The bins of a [BinnedRangeEnum] as numbers: length, first bin, count. *)
Definition bre_view (r : BinnedRangeEnum) : Z * Z * Z :=
  match r with
  | BinnedTime r => (bin_len r, bin_off r, bin_cnt r)
  | BinnedPulse r => (pulse_id (bin_len r), bin_off r, bin_cnt r)
  end.

Lemma bre_find_spec {T} `{Dim0Index T} m (opts : list T) bl :
  bre_find m opts = Some bl -> bl ∈ opts /\ d0_as_u64 bl <= d0_as_u64 m.
Proof.
  induction opts as [|o opts IH]; simpl; [done|]. unfold d0_leb.
  destruct (Z.leb_spec (d0_as_u64 o) (d0_as_u64 m)).
  - intros [= <-]. split; [by left|done].
  - intros Hf. destruct (IH Hf). split; [by right|done].
Qed.

(** The generic step: at least [m] bins of a positive length cover the range. *)
Lemma bre_covering_range_ty_covers {T} `{Dim0Laws T} (a b : T) m :
  0 <= d0_as_u64 a <= d0_as_u64 b -> d0_as_u64 b < 2 ^ 63 ->
  1 <= m < 2 ^ 31 -> m <= d0_as_u64 b - d0_as_u64 a ->
  exists r, bre_covering_range_ty a b m = Ok r /\
    bre_dim0kind r = SeriesRange_dim0kind (d0_series_range a b) /\
    let '(bl, off, cnt) := bre_view r in
    0 < bl /\ bl * m <= d0_as_u64 b - d0_as_u64 a /\ m <= cnt /\
    covers bl off cnt (d0_as_u64 a) (d0_as_u64 b).
Proof.
  intros Hab Hb Hm Hd. unfold bre_covering_range_ty.
  rewrite (proj2 (Z.ltb_ge m 1)), (proj2 (Z.ltb_ge (2 ^ 31 - 1) m)) by lia.
  destruct (d0_div_n_ok range_error (d0_sub b a) m) as (q & -> & Hq); [lia|]. cbn [and_then].
  rewrite d0_as_u64_sub, u64_sub_small in Hq by lia.
  set (A := d0_as_u64 a) in *. set (B := d0_as_u64 b) in *.
  assert (Hmq := floor_grid (B - A) m ltac:(lia)). rewrite <- Hq in Hmq.
  assert (Hbl : 0 < d0_as_u64 (default q (bre_find q (rev d0_binned_bin_len_opts))) <= d0_as_u64 q).
  { destruct (bre_find _ _) as [bl|] eqn:Hf; simpl; [|nia].
    apply bre_find_spec in Hf as [Hin Hle]. apply list_elem_of_In, in_rev, list_elem_of_In in Hin. split; [|done].
    pose proof d0_opts_sorted as Hs. rewrite Forall_map, Forall_forall in Hs. by apply Hs in Hin as [? _]. }
  set (bl := default _ _) in *. assert (d0_as_u64 bl * m <= B - A) by nia.
  rewrite !d0_div_v_eq. rewrite d0_as_u64_sub_n, d0_as_u64_add. fold A B.
  rewrite !u_div_ok by lia. cbn [and_then].
  destruct (grid_offsets (d0_as_u64 bl) A B) as [-> ->]; [nia..|].
  assert (Hc := covers_intro (d0_as_u64 bl) A B (proj1 Hbl) (proj2 Hab)).
  eexists. split; [done|].
  pose proof (d0_range_enum_view bl (A / d0_as_u64 bl) ((B + d0_as_u64 bl - 1) / d0_as_u64 bl - A / d0_as_u64 bl)) as Hv.
  pose proof (d0_kind_agree a b bl (A / d0_as_u64 bl) ((B + d0_as_u64 bl - 1) / d0_as_u64 bl - A / d0_as_u64 bl)) as Hk.
  destruct (d0_to_binned_range_enum _ _ _) as [r|r]; simpl; destruct Hv as (-> & -> & ->).
  all: split; [by destruct (d0_series_range a b)|].
  all: split; [lia|]; split; [nia|]; split; [|done].
  all: by apply (covers_cnt_ge _ _ _ _ _ m (proj1 Hbl) Hc).
Qed.

Lemma bre_covering_range_ty_short {T} `{Dim0Laws T} (a b : T) m :
  0 <= d0_as_u64 a <= d0_as_u64 b -> d0_as_u64 b < 2 ^ 63 ->
  1 <= m < 2 ^ 31 -> d0_as_u64 b - d0_as_u64 a < m ->
  bre_covering_range_ty a b m = Panic.
Proof.
  intros Hab Hb Hm Hd. unfold bre_covering_range_ty.
  rewrite (proj2 (Z.ltb_ge m 1)), (proj2 (Z.ltb_ge (2 ^ 31 - 1) m)) by lia.
  destruct (d0_div_n_ok range_error (d0_sub b a) m) as (q & -> & Hq); [lia|]. cbn [and_then].
  rewrite d0_as_u64_sub, u64_sub_small, Z.div_small in Hq by lia.
  destruct (bre_find q _) as [bl|] eqn:Hf; simpl.
  - apply bre_find_spec in Hf as [Hin Hle]. apply list_elem_of_In, in_rev, list_elem_of_In in Hin.
    pose proof d0_opts_sorted as Hs. rewrite Forall_map, Forall_forall in Hs. apply Hs in Hin. lia.
  - rewrite !d0_div_v_eq, Hq. done.
Qed.

Lemma bre_covering_range_ty_args {T} `{Dim0Index T} (a b : T) m :
  (m < 1 -> bre_covering_range_ty a b m = Err BinCountTooSmall) /\
  (2 ^ 31 <= m -> bre_covering_range_ty a b m = Err BinCountTooLarge).
Proof.
  unfold bre_covering_range_ty. split; intros.
  - by rewrite (proj2 (Z.ltb_lt m 1)) by lia.
  - by rewrite (proj2 (Z.ltb_ge m 1)), (proj2 (Z.ltb_lt (2 ^ 31 - 1) m)) by lia.
Qed.


(** [covering_range] keeps its promise, for time and for pulse ranges: at
    least the requested number of bins, covering the range, no bin to spare.
    The bin count is checked first; a range shorter than the requested number
    of units divides by a bin length of zero and panics. *)
Theorem bre_covering_range_covers range m :
  0 <= SeriesRange_beg_u64 range <= SeriesRange_end_u64 range -> SeriesRange_end_u64 range < 2 ^ 63 ->
  (m < 1 -> bre_covering_range range m = Err BinCountTooSmall) /\
  (2 ^ 31 <= m -> bre_covering_range range m = Err BinCountTooLarge) /\
  (1 <= m < 2 ^ 31 -> SeriesRange_delta_u64 range < m -> bre_covering_range range m = Panic) /\
  (1 <= m < 2 ^ 31 -> m <= SeriesRange_delta_u64 range ->
   exists r, bre_covering_range range m = Ok r /\ bre_dim0kind r = SeriesRange_dim0kind range /\
     let '(bl, off, cnt) := bre_view r in
     0 < bl /\ m <= cnt /\ covers bl off cnt (SeriesRange_beg_u64 range) (SeriesRange_end_u64 range)).
Proof.
  destruct range as [[a b]|[a b]]; simpl; intros Hab Hb; rewrite u64_sub_small by lia.
  - split; [apply bre_covering_range_ty_args|]. split; [apply bre_covering_range_ty_args|].
    split; [intros; by apply (bre_covering_range_ty_short (T := Z))|]. intros Hm Hd.
    destruct (bre_covering_range_ty_covers (T := Z) a b m) as (r & Hr & Hk & Hv); try done.
    exists r. split; [done|]. split; [done|]. destruct (bre_view r) as [[]].
    destruct Hv as (? & _ & ? & ?); auto.
  - split; [apply bre_covering_range_ty_args|]. split; [apply bre_covering_range_ty_args|].
    split; [intros; by apply (bre_covering_range_ty_short (T := PulseId))|]. intros Hm Hd.
    destruct (bre_covering_range_ty_covers (PulseId_from_id a) (PulseId_from_id b) m) as (r & Hr & Hk & Hv); try done.
    exists r. split; [done|]. split; [done|]. destruct (bre_view r) as [[]].
    destruct Hv as (? & _ & ? & ?); auto.
Qed.

Lemma bre_covering_range_covers_witness :
  bre_covering_range (PulseRange_ (mkPulseRange 1003 9991)) 90 = Ok (BinnedPulse (mkBinnedRange (PulseId_from_id 80) 12 113)) /\
  covers 80 12 113 1003 9991 /\
  bre_covering_range (PulseRange_ (mkPulseRange 1003 1010)) 90 = Panic.
Proof.
  split; [reflexivity|].
  destruct (bre_covering_range_covers (PulseRange_ (mkPulseRange 1003 9991)) 90) as (_ & _ & _ & H); [simpl; lia..|].
  destruct (bre_covering_range_covers (PulseRange_ (mkPulseRange 1003 1010)) 90) as (_ & _ & Hp & _); [simpl; lia..|].
  split; [|by apply Hp].
  destruct H as (r & Hr & _ & Hv); [lia|by vm_compute|].
  vm_compute in Hr. injection Hr as <-. apply Hv.
Defined.

(** ** Edges *)

(** The grid points [k, k+1, ..., k+n-1] of a grid of length [l]. *)
Definition grid_points (l k : Z) (n : nat) : list Z := map (fun i => l * (k + Z.of_nat i)) (seq 0 n).

Lemma grid_points_S l k n : grid_points l k (S n) = l * k :: grid_points l (k + 1) n.
Proof.
  unfold grid_points. cbn [seq map]. f_equal; [f_equal; lia|].
  rewrite <- seq_shift, map_map. apply map_ext. intros i. f_equal. lia.
Qed.

Section Edges.
  Context {T : Type} `{Dim0Laws T} (r : BinnedRange T).
Let l := d0_as_u64 (bin_len r).
  Context (Hl : 0 < l).

Lemma br_edges_loops k n t en fuel ret ret' :
  d0_as_u64 t = l * k -> 0 <= k -> d0_as_u64 en = l * (k + Z.of_nat n - 1) ->
  l * (k + Z.of_nat n) < 2 ^ 64 -> (n < fuel)%nat ->
  br_edges_u64_loop fuel r t en ret = Some (ret ++ grid_points l k n) /\
  exists es, br_edges_loop fuel r t en ret' = Some (ret' ++ es) /\ map d0_as_u64 es = grid_points l k n.
Proof.
  revert k t fuel ret ret'. induction n as [|n IH]; intros k t fuel ret ret' Ht Hk He Ho Hf.
  - destruct fuel as [|fuel]; [lia|]. simpl. unfold d0_leb.
    rewrite (proj2 (Z.leb_gt _ _)) by nia. rewrite app_nil_r. split; [done|]. exists []. by rewrite app_nil_r.
  - destruct fuel as [|fuel]; [lia|]. cbn [br_edges_u64_loop br_edges_loop]. unfold d0_leb.
    rewrite (proj2 (Z.leb_le _ _)) by nia. rewrite grid_points_S.
    assert (Ht' : d0_as_u64 (d0_add t (bin_len r)) = l * (k + 1)).
    { rewrite d0_as_u64_add, Ht. fold l. rewrite u64_add_small; nia. }
    destruct (IH (k + 1) _ fuel (ret ++ [d0_as_u64 t]) (ret' ++ [t]) Ht') as (-> & es & -> & Hes).
    { lia. } { rewrite He. f_equal. lia. } { replace (k + 1 + Z.of_nat n) with (k + Z.of_nat (S n)) by lia. done. } { lia. }
    rewrite <- !app_assoc. cbn [app]. rewrite Ht. split; [done|].
    exists (t :: es). split; [done|]. cbn [map]. by rewrite Ht, Hes.
Qed.

(** The edges of a grid are its [bin_cnt + 1] grid points in order, both as
    numbers and as indices: the loops end (with fuel for one turn per edge and
    a last test), provided the end of the bin after the last fits [u64]. *)
Theorem br_edges_grid fuel :
  0 <= bin_off r -> 0 <= bin_cnt r -> l * (bin_off r + bin_cnt r + 1) < 2 ^ 64 ->
  (Z.to_nat (bin_cnt r) + 1 < fuel)%nat ->
  br_edges_u64 fuel r = Some (grid_points l (bin_off r) (Z.to_nat (bin_cnt r + 1))) /\
  exists es, br_edges fuel r = Some es /\
    map d0_as_u64 es = grid_points l (bin_off r) (Z.to_nat (bin_cnt r + 1)).
Proof.
  intros Ho Hc Hov Hf. unfold br_edges_u64, br_edges.
  destruct (br_edges_loops (bin_off r) (Z.to_nat (bin_cnt r + 1)) (d0_times (bin_len r) (bin_off r))
    (d0_times (bin_len r) (u64_add (bin_off r) (bin_cnt r))) fuel [] []) as [H1 H2]; try done.
  - rewrite d0_as_u64_times. fold l. apply u64_mul_small. nia.
  - rewrite d0_as_u64_times. fold l. rewrite u64_add_small by nia. rewrite u64_mul_small by nia. f_equal. lia.
  - replace (bin_off r + Z.of_nat (Z.to_nat (bin_cnt r + 1))) with (bin_off r + bin_cnt r + 1) by lia. done.
  - lia.
Qed.

End Edges.

Lemma br_edges_grid_witness :
  br_edges_u64 10 (mkBinnedRange (T := Z) 5000000000 340000000 3) =
    Some [1700000000000000000; 1700000005000000000; 1700000010000000000; 1700000015000000000].
Proof.
  refine (proj1 (br_edges_grid (mkBinnedRange (T := Z) 5000000000 340000000 3) _ 10 _ _ _ _)); simpl; lia.
Defined.

Lemma grid_points_last l k n : last (grid_points l k (S n)) = Some (l * (k + Z.of_nat n)).
Proof. unfold grid_points. rewrite seq_S, map_app. cbn [map]. by rewrite last_snoc. Qed.

Lemma pc_edges_loop_grid {T} `{Dim0Laws T} (c : PreBinnedPatchCoord T) n t ret k :
  let l := d0_as_u64 (pc_bin_len c) in
  0 < l -> 0 <= k -> d0_as_u64 t = l * k -> l * (k + Z.of_nat n) < 2 ^ 64 ->
  exists es, pc_edges_loop c n t ret = ret ++ es /\ map d0_as_u64 es = grid_points l (k + 1) n.
Proof.
  intros l Hl. revert t ret k. induction n as [|n IH]; intros t ret k Hk Ht Ho.
  - exists []. by rewrite app_nil_r.
  - cbn [pc_edges_loop]. rewrite grid_points_S.
    assert (Ht' : d0_as_u64 (d0_add t (pc_bin_len c)) = l * (k + 1)).
    { rewrite d0_as_u64_add, Ht. fold l. rewrite u64_add_small; nia. }
    destruct (IH _ (ret ++ [d0_add t (pc_bin_len c)]) (k + 1) ltac:(lia) Ht') as (es & -> & Hes); [nia|].
    exists (d0_add t (pc_bin_len c) :: es). rewrite <- app_assoc. split; [done|]. cbn [map]. by rewrite Ht', Hes.
Qed.

(** Patches of pre-binned data tile the axis: a patch ends where the next
    begins (with any wrap-around of the products), spans [bin_count] bins, and
    its edges run from its begin to its end in steps of the bin length. *)
Theorem pc_patches_tile {T} `{Dim0Laws T} (c : PreBinnedPatchCoord T) :
  let l := d0_as_u64 (pc_bin_len c) in
  pc_patch_end c = pc_patch_beg (pc_next c) /\
  (0 < l -> 0 <= pc_bin_count c -> 0 <= pc_patch_offset c ->
   l * pc_bin_count c * (1 + pc_patch_offset c) < 2 ^ 64 ->
   d0_as_u64 (pc_patch_end c) = d0_as_u64 (pc_patch_beg c) + d0_as_u64 (pc_patch_len c) /\
   map d0_as_u64 (pc_edges c) =
     grid_points l (pc_bin_count c * pc_patch_offset c) (Z.to_nat (pc_bin_count c + 1)) /\
   last (pc_edges c) = Some (pc_patch_end c)).
Proof.
  intros l. split; [done|]. intros Hl Hn Hp Ho.
  assert (Hnn : 0 <= l * pc_bin_count c * pc_patch_offset c) by (apply Z.mul_nonneg_nonneg; nia).
  assert (Hlen : d0_as_u64 (d0_times (pc_bin_len c) (pc_bin_count c)) = l * pc_bin_count c).
  { rewrite d0_as_u64_times. fold l. apply u64_mul_small. nia. }
  assert (Hbeg : d0_as_u64 (pc_patch_beg c) = l * (pc_bin_count c * pc_patch_offset c)).
  { unfold pc_patch_beg. rewrite d0_as_u64_times, Hlen, u64_mul_small; nia. }
  assert (Hend : d0_as_u64 (pc_patch_end c) = l * (pc_bin_count c * pc_patch_offset c + pc_bin_count c)).
  { unfold pc_patch_end. rewrite d0_as_u64_times, Hlen. destruct (Z.eq_dec (pc_bin_count c) 0) as [->|].
    - unfold u64_mul. rewrite !Z.mul_0_r. reflexivity.
    - rewrite u64_add_small by nia. rewrite u64_mul_small; nia. }
  unfold pc_edges. destruct (pc_edges_loop_grid c (Z.to_nat (pc_bin_count c)) (pc_patch_beg c) [pc_patch_beg c]
    (pc_bin_count c * pc_patch_offset c)) as (es & -> & Hes); [done|nia|done|fold l; nia|].
  assert (Hm : map d0_as_u64 (pc_patch_beg c :: es) =
    grid_points l (pc_bin_count c * pc_patch_offset c) (Z.to_nat (pc_bin_count c + 1))).
  { replace (Z.to_nat (pc_bin_count c + 1)) with (S (Z.to_nat (pc_bin_count c))) by lia.
    rewrite grid_points_S. cbn [map]. fold l in Hes. by rewrite Hbeg, Hes. }
  split; [unfold pc_patch_len; rewrite Hend, Hbeg, Hlen; lia|]. split; [exact Hm|].
  replace (Z.to_nat (pc_bin_count c + 1)) with (S (Z.to_nat (pc_bin_count c))) in Hm by lia.
  apply (f_equal last) in Hm. rewrite grid_points_last, fmap_last in Hm. cbn [app] in *.
  destruct (last (pc_patch_beg c :: es)) as [x|]; simplify_eq/=. f_equal. apply d0_as_u64_inj.
  rewrite Hend, Hm. f_equal. lia.
Qed.

Lemma pc_patches_tile_witness :
  map pulse_id (pc_edges (mkPatchCoord (PulseId_from_id 100) 3 7)) = [2100; 2200; 2300; 2400] /\
  pulse_id (pc_patch_end (mkPatchCoord (PulseId_from_id 100) 3 7)) =
    pulse_id (pc_patch_beg (mkPatchCoord (PulseId_from_id 100) 3 7)) + 300.
Proof.
  destruct (pc_patches_tile (mkPatchCoord (PulseId_from_id 100) 3 7)) as [_ H].
  destruct H as (H1 & H2 & _); [simpl; lia..|]. split; [exact H2 | exact H1].
Defined.
