(* ===== verification/SlideBuf.v ===== *)
(** * The sliding byte buffer

    [SlideBuf] of [daqbuf-streams/src/slidebuf.rs]: a vector with a read and a
    write position; the unread bytes move to the front when the space behind
    them does not suffice. Every method is a state transformer, since it may
    move the bytes before it reports an error.

    Positions are [nat]: the vector lives in memory, and with a request so large
    that [rp + need_min] wraps around the outcome is the same [NotEnoughSpace].
    A floating point value is its bit pattern.

    The second half is the contract, in two steps. The readers and writers of
    the protocols see a bounded byte queue ([ByteQueue], [sb_step_refines]).
    All public methods together, with those that step back over bytes already
    read, that move the bytes or lend them out, and the bare advance of the
    write position, see a store ([ByteStore]) that also holds the bytes read
    which are still there and the bytes written ahead. *)
From Stdlib Require Import ZArith Lia.
From stdpp Require Import base numbers option strings list.
From S2P Require Import Prelude.

#[local] Open Scope Z_scope.
#[local] Open Scope rust_scope.

Inductive sb_error : Type :=
  | NotEnoughBytes
  | NotEnoughSpace (cap wcap need : nat)
  | TryFromSliceError.

Record SlideBuf : Type := mkSlideBuf { sb_buf : list Z; sb_wp : nat; sb_rp : nat }.

(** A method: the new state, and what it returns. *)
Definition SB (A : Type) : Type := SlideBuf -> SlideBuf * outcome sb_error A.

Definition sb_ret {A} (a : A) : SB A := fun s => (s, Ok a).
Definition sb_err {A} (e : sb_error) : SB A := fun s => (s, Err e).
Definition sb_panic {A} : SB A := fun s => (s, Panic).
Definition sb_get {A} (f : SlideBuf -> A) : SB A := fun s => (s, Ok (f s)).
Definition sb_modify (f : SlideBuf -> SlideBuf) : SB unit := fun s => (f s, Ok tt).
Definition sb_lift {A} (m : outcome sb_error A) : SB A := fun s => (s, m).
Definition sb_bind {A B} (m : SB A) (k : A -> SB B) : SB B := fun s =>
  match m s with
  | (s, Ok a) => k a s
  | (s, Err e) => (s, Err e)
  | (s, Panic) => (s, Panic)
  end.

Notation "'let!' x ':=' m 'in' k" := (sb_bind m (fun x => k))
  (at level 10, x pattern, m at level 200, k at level 200) : rust_scope.

(** ** Methods *)

Definition sb_new (cap : nat) : SlideBuf := mkSlideBuf (replicate cap 0) 0 0.
Definition sb_state (s : SlideBuf) : nat * nat := (sb_rp s, sb_wp s).
Definition sb_len (s : SlideBuf) : nat := sb_wp s - sb_rp s.
Definition sb_cap (s : SlideBuf) : nat := length (sb_buf s).
Definition sb_wcap (s : SlideBuf) : nat := length (sb_buf s) - sb_wp s.

Definition sb_data : SB (list Z) :=
  let! s := sb_get id in
  sb_lift (slice (sb_buf s) (sb_rp s) (sb_wp s)).

Definition sb_reset : SB unit := sb_modify (fun s => mkSlideBuf (sb_buf s) 0 0).

Definition sb_adv (x : nat) : SB unit :=
  let! s := sb_get id in
  if (sb_len s <? x)%nat then sb_err NotEnoughBytes
  else sb_modify (fun s => mkSlideBuf (sb_buf s) (sb_wp s) (sb_rp s + x)).

(** [copy_within(rp..wp, 0)] and the positions. *)
Definition sb_rewind : SB unit := fun s =>
  if bool_decide (sb_rp s <= sb_wp s <= length (sb_buf s))%nat then
    let n := (sb_wp s - sb_rp s)%nat in
    (mkSlideBuf (take n (drop (sb_rp s) (sb_buf s)) ++ drop n (sb_buf s)) n 0, Ok tt)
  else (s, Panic).

Definition sb_rewind_if_needed (need_min : nat) : SB unit :=
  let! s := sb_get id in
  if negb (sb_rp s =? 0)%nat && (sb_rp s =? sb_wp s)%nat
  then sb_modify (fun s => mkSlideBuf (sb_buf s) 0 0)
  else if (sb_cap s <? sb_rp s + need_min)%nat then sb_rewind
  else sb_ret tt.

Definition sb_wadv (x : nat) : SB unit :=
  let! s := sb_get id in
  let! _ := (if (sb_wcap s <? x)%nat then sb_rewind else sb_ret tt) in
  let! s := sb_get id in
  if (sb_wcap s <? x)%nat then sb_err (NotEnoughSpace (sb_cap s) (sb_wcap s) x)
  else sb_modify (fun s => mkSlideBuf (sb_buf s) (sb_wp s + x) (sb_rp s)).

Definition sb_set_rp (rp : nat) : SB unit :=
  let! s := sb_get id in
  if (sb_wp s <? rp)%nat then sb_err NotEnoughBytes
  else sb_modify (fun s => mkSlideBuf (sb_buf s) (sb_wp s) rp).

Definition sb_rewind_rp (n : nat) : SB unit :=
  let! s := sb_get id in
  if (sb_rp s <? n)%nat then sb_err NotEnoughBytes
  else sb_modify (fun s => mkSlideBuf (sb_buf s) (sb_wp s) (sb_rp s - n)).

Definition sb_read_bytes (n : nat) : SB (list Z) :=
  let! s := sb_get id in
  if (sb_len s <? n)%nat then sb_err NotEnoughBytes
  else
    let! val := sb_lift (slice (sb_buf s) (sb_rp s) (sb_rp s + n)) in
    let! _ := sb_modify (fun s => mkSlideBuf (sb_buf s) (sb_wp s) (sb_rp s + n)) in
    sb_ret val.

Definition sb_read_u8 : SB Z :=
  let! s := sb_get id in
  if (sb_len s <? 1)%nat then sb_err NotEnoughBytes
  else
    let! val := sb_lift (index (sb_buf s) (sb_rp s)) in
    let! _ := sb_modify (fun s => mkSlideBuf (sb_buf s) (sb_wp s) (sb_rp s + 1)) in
    sb_ret val.

(** The readers of wider integers share this body; [ts] is [size_of::<T>()] and
    the slice of that length always converts to an array. *)
Definition sb_read_be (ts : nat) (conv : Z -> Z) : SB Z :=
  let! s := sb_get id in
  if (sb_len s <? ts)%nat then sb_err NotEnoughBytes
  else
    let! a := sb_lift (slice (sb_buf s) (sb_rp s) (sb_rp s + ts)) in
    let val := conv (of_be_bytes a) in
    let! _ := sb_modify (fun s => mkSlideBuf (sb_buf s) (sb_wp s) (sb_rp s + ts)) in
    sb_ret val.

Definition sb_read_u16_be : SB Z := sb_read_be 2 id.
Definition sb_read_u32_be : SB Z := sb_read_be 4 id.
Definition sb_read_u64_be : SB Z := sb_read_be 8 id.
Definition sb_read_i32_be : SB Z := sb_read_be 4 (to_signed 32).
Definition sb_read_i64_be : SB Z := sb_read_be 8 (to_signed 64).
Definition sb_read_f32_be : SB Z := sb_read_be 4 id.
Definition sb_read_f64_be : SB Z := sb_read_be 8 id.

(** [self.buf[wp..wp + n].copy_from_slice(x)] and the advance. *)
Definition sb_store (x : list Z) : SB unit := fun s =>
  if bool_decide (sb_wp s + length x <= length (sb_buf s))%nat then
    (mkSlideBuf (take (sb_wp s) (sb_buf s) ++ x ++ drop (sb_wp s + length x) (sb_buf s))
                (sb_wp s + length x) (sb_rp s), Ok tt)
  else (s, Panic).

(** The common head of the writers: space for [need] bytes, moving if needed. *)
Definition sb_make_room (need : nat) : SB unit :=
  let! _ := sb_rewind_if_needed need in
  let! s := sb_get id in
  let! _ := (if (sb_wcap s <? need)%nat then sb_rewind else sb_ret tt) in
  let! s := sb_get id in
  if (sb_wcap s <? need)%nat then sb_err (NotEnoughSpace (sb_cap s) (sb_wcap s) need)
  else sb_ret tt.

Definition sb_put_slice (buf : list Z) : SB unit :=
  let! _ := sb_make_room (length buf) in
  sb_store buf.

Definition sb_put_u8 (v : Z) : SB unit := sb_put_slice (be_bytes 1 v).
Definition sb_put_u16_be (v : Z) : SB unit := sb_put_slice (be_bytes 2 v).
Definition sb_put_u32_be (v : Z) : SB unit := sb_put_slice (be_bytes 4 v).
Definition sb_put_u64_be (v : Z) : SB unit := sb_put_slice (be_bytes 8 v).
Definition sb_put_f32_be (v : Z) : SB unit := sb_put_slice (be_bytes 4 v).
Definition sb_put_f64_be (v : Z) : SB unit := sb_put_slice (be_bytes 8 v).

(** The writable area that [available_writable_area] lends out; the caller
    may overwrite a prefix of it in place. *)
Definition sb_available_writable_area (need_min : nat) : SB (list Z) :=
  let! _ := sb_make_room need_min in
  let! s := sb_get id in
  sb_lift (slice (sb_buf s) (sb_wp s) (length (sb_buf s))).

Definition sb_fill_area (x : list Z) : SB unit := fun s =>
  if bool_decide (sb_wp s + length x <= length (sb_buf s))%nat then
    (mkSlideBuf (take (sb_wp s) (sb_buf s) ++ x ++ drop (sb_wp s + length x) (sb_buf s))
                (sb_wp s) (sb_rp s), Ok tt)
  else (s, Panic).

(** [___write_buf___] lends out [n] bytes behind the write position and advances
    it; the caller overwrites them in place. *)
Definition sb_write_buf (n : nat) : SB (list Z) :=
  let! _ := sb_make_room n in
  let! s := sb_get id in
  let! ret := sb_lift (slice (sb_buf s) (sb_wp s) (sb_wp s + n)) in
  let! _ := sb_modify (fun s => mkSlideBuf (sb_buf s) (sb_wp s + n) (sb_rp s)) in
  sb_ret ret.

Definition sb_fill_back (n : nat) (x : list Z) : SB unit := fun s =>
  if bool_decide (length x <= n /\ n <= sb_wp s <= length (sb_buf s))%nat then
    (mkSlideBuf (take (sb_wp s - n) (sb_buf s) ++ x ++ drop (sb_wp s - n + length x) (sb_buf s))
                (sb_wp s) (sb_rp s), Ok tt)
  else (s, Panic).

(** [data_mut] lends out the unread bytes; the caller overwrites them in place. *)
Definition sb_data_mut : SB (list Z) :=
  let! s := sb_get id in
  sb_lift (slice (sb_buf s) (sb_rp s) (sb_wp s)).

Definition sb_fill_data (x : list Z) : SB unit := fun s =>
  if bool_decide (sb_rp s + length x <= sb_wp s <= length (sb_buf s))%nat then
    (mkSlideBuf (take (sb_rp s) (sb_buf s) ++ x ++ drop (sb_rp s + length x) (sb_buf s))
                (sb_wp s) (sb_rp s), Ok tt)
  else (s, Panic).

(** [check_invariants]. *)
Definition sb_check_invariants (s : SlideBuf) : bool :=
  negb (length (sb_buf s) <? sb_wp s)%nat && negb (sb_wp s <? sb_rp s)%nat.

(** ** The contract: a bounded queue of bytes *)

Record ByteQueue : Type := mkByteQueue { bq_cap : nat; bq_bytes : list Z }.

Inductive sb_op : Type :=
  | OpAdv (n : nat)
  | OpReadBytes (n : nat)
  | OpReadU8
  | OpReadBe (ts : nat)
  | OpPutSlice (x : list Z)
  | OpPutBe (ts : nat) (v : Z)
  | OpRecv (need : nat) (x : list Z)
  | OpReset
  | OpData.

Inductive sb_val : Type :=
  | VUnit
  | VBytes (x : list Z)
  | VInt (z : Z).

Definition sb_fmap {A} (f : A -> sb_val) (m : SB A) : SB sb_val := let! a := m in sb_ret (f a).

(** The code run for an operation. [OpRecv] is the use of the buffer by a
    socket reader: ask for space, store what arrived, advance. *)
Definition sb_run (op : sb_op) : SB sb_val :=
  match op with
  | OpAdv n => sb_fmap (fun _ => VUnit) (sb_adv n)
  | OpReadBytes n => sb_fmap VBytes (sb_read_bytes n)
  | OpReadU8 => sb_fmap VInt sb_read_u8
  | OpReadBe ts => sb_fmap VInt (sb_read_be ts id)
  | OpPutSlice x => sb_fmap (fun _ => VUnit) (sb_put_slice x)
  | OpPutBe ts v => sb_fmap (fun _ => VUnit) (sb_put_slice (be_bytes ts v))
  | OpRecv need x =>
      let! _ := sb_available_writable_area need in
      let! _ := sb_fill_area (take need x) in
      sb_fmap (fun _ => VUnit) (sb_wadv (length (take need x)))
  | OpReset => sb_fmap (fun _ => VUnit) sb_reset
  | OpData => sb_fmap VBytes sb_data
  end.

Definition bq_take (n : nat) (f : list Z -> sb_val) (q : ByteQueue) : ByteQueue * outcome sb_error sb_val :=
  if (length (bq_bytes q) <? n)%nat then (q, Err NotEnoughBytes)
  else (mkByteQueue (bq_cap q) (drop n (bq_bytes q)), Ok (f (take n (bq_bytes q)))).

Definition bq_put (need : nat) (x : list Z) (q : ByteQueue) : ByteQueue * outcome sb_error sb_val :=
  let free := (bq_cap q - length (bq_bytes q))%nat in
  if (free <? need)%nat then (q, Err (NotEnoughSpace (bq_cap q) free need))
  else (mkByteQueue (bq_cap q) (bq_bytes q ++ x), Ok VUnit).

Definition bq_run (op : sb_op) (q : ByteQueue) : ByteQueue * outcome sb_error sb_val :=
  match op with
  | OpAdv n => bq_take n (fun _ => VUnit) q
  | OpReadBytes n => bq_take n VBytes q
  | OpReadU8 => bq_take 1 (fun x => VInt (of_be_bytes x)) q
  | OpReadBe ts => bq_take ts (fun x => VInt (of_be_bytes x)) q
  | OpPutSlice x => bq_put (length x) x q
  | OpPutBe ts v => bq_put ts (be_bytes ts v) q
  | OpRecv need x => bq_put need (take need x) q
  | OpReset => (mkByteQueue (bq_cap q) [], Ok VUnit)
  | OpData => (q, Ok (VBytes (bq_bytes q)))
  end.

(** ** Refinement *)

Definition sb_wf (s : SlideBuf) : Prop := (sb_rp s <= sb_wp s <= length (sb_buf s))%nat.

(** The unread bytes. *)
Definition sb_abs (s : SlideBuf) : ByteQueue :=
  mkByteQueue (length (sb_buf s)) (take (sb_wp s - sb_rp s) (drop (sb_rp s) (sb_buf s))).

Lemma sb_abs_length s : sb_wf s -> length (bq_bytes (sb_abs s)) = sb_len s.
Proof. unfold sb_wf, sb_len. simpl. intros. rewrite length_take, length_drop. lia. Qed.

Lemma sb_rewind_spec s :
  sb_wf s -> exists s', sb_rewind s = (s', Ok tt) /\ sb_wf s' /\ sb_abs s' = sb_abs s /\
    sb_rp s' = O /\ length (sb_buf s') = length (sb_buf s).
Proof.
  unfold sb_wf, sb_rewind. intros H. rewrite bool_decide_true by done.
  set (n := (sb_wp s - sb_rp s)%nat).
  assert (Hn : length (take n (drop (sb_rp s) (sb_buf s))) = n) by (rewrite length_take, length_drop; lia).
  assert (Hlen : length (take n (drop (sb_rp s) (sb_buf s)) ++ drop n (sb_buf s)) = length (sb_buf s)).
  { rewrite length_app, Hn, length_drop. lia. }
  eexists. split; [done|]. unfold sb_abs. cbn [sb_buf sb_wp sb_rp].
  rewrite Hlen, Nat.sub_0_r, drop_0, take_app_length' by done.
  split; [lia|]. split; [done|]. split; done.
Qed.

(** After [sb_make_room], success or not, the queue is as before; it succeeds
    exactly when the free space suffices, and then the space is behind the
    write position. *)
Lemma sb_make_room_spec need s :
  sb_wf s ->
  exists s' r, sb_make_room need s = (s', r) /\ sb_wf s' /\ sb_abs s' = sb_abs s /\
    let free := (sb_cap s - sb_len s)%nat in
    if (free <? need)%nat then r = Err (NotEnoughSpace (sb_cap s) free need)
    else r = Ok tt /\ (sb_wp s' + need <= length (sb_buf s'))%nat.
Proof.
  intros Hwf. unfold sb_make_room.
  assert (Hfirst : exists s1, sb_rewind_if_needed need s = (s1, Ok tt) /\ sb_wf s1 /\ sb_abs s1 = sb_abs s).
  { unfold sb_rewind_if_needed, sb_bind, sb_get. cbn [id].
    destruct (negb (sb_rp s =? 0)%nat && (sb_rp s =? sb_wp s)%nat) eqn:Hb.
    - apply andb_prop in Hb as [_ Hb]. apply Nat.eqb_eq in Hb.
      eexists. split; [done|]. split; [unfold sb_wf; simpl; lia|].
      unfold sb_abs. simpl. by rewrite Hb, Nat.sub_diag.
    - destruct (sb_cap s <? sb_rp s + need)%nat; [|eauto].
      destruct (sb_rewind_spec s Hwf) as (s' & -> & ? & ? & _). eauto. }
  destruct Hfirst as (s1 & H1 & Hwf1 & Ha1). unfold sb_bind at 1. rewrite H1.
  assert (Hsecond : exists s2, (if (sb_wcap s1 <? need)%nat then sb_rewind else sb_ret tt) s1 = (s2, Ok tt) /\
    sb_wf s2 /\ sb_abs s2 = sb_abs s /\ (sb_wcap s2 < need -> sb_rp s2 = 0)%nat).
  { destruct (Nat.ltb_spec (sb_wcap s1) need).
    - destruct (sb_rewind_spec s1 Hwf1) as (s' & -> & ? & ? & ? & _). exists s'. rewrite <- Ha1. auto.
    - exists s1. split; [done|]. split; [done|]. split; [done|]. lia. }
  destruct Hsecond as (s2 & H2 & Hwf2 & Ha2 & Hrp).
  unfold sb_bind, sb_get. cbn [id]. rewrite H2.
  pose proof (f_equal bq_cap Ha2) as Hcap. simpl in Hcap.
  pose proof (f_equal (length ∘ bq_bytes) Ha2) as Hlen. cbn [compose] in Hlen.
  rewrite !sb_abs_length in Hlen by done.
  unfold sb_wf, sb_cap, sb_wcap, sb_len in *.
  destruct (Nat.ltb_spec (length (sb_buf s2) - sb_wp s2) need) as [Hlt|Hge].
  - specialize (Hrp Hlt). exists s2. eexists. split; [done|]. split; [done|]. split; [done|].
    rewrite (proj2 (Nat.ltb_lt _ _)) by lia. do 2 f_equal; lia.
  - exists s2. eexists. split; [done|]. split; [done|]. split; [done|].
    rewrite (proj2 (Nat.ltb_ge _ _)) by lia. split; [done|lia].
Qed.

(** Overwriting the bytes from the write position on appends them to the queue
    once the position advances. *)
Lemma sb_abs_store s x :
  sb_wf s -> (sb_wp s + length x <= length (sb_buf s))%nat ->
  let s' := mkSlideBuf (take (sb_wp s) (sb_buf s) ++ x ++ drop (sb_wp s + length x) (sb_buf s))
                       (sb_wp s + length x) (sb_rp s) in
  sb_wf s' /\ sb_abs s' = mkByteQueue (length (sb_buf s)) (bq_bytes (sb_abs s) ++ x) /\
  length (sb_buf s') = length (sb_buf s).
Proof.
  intros Hwf Hsp s'. unfold sb_wf in *.
  assert (Hlen : length (sb_buf s') = length (sb_buf s)).
  { subst s'. simpl. rewrite !length_app, length_take, length_drop. lia. }
  split; [rewrite Hlen; simpl; lia|]. split; [|done].
  unfold sb_abs. rewrite Hlen. f_equal. subst s'. cbn [sb_buf sb_wp sb_rp bq_bytes].
  rewrite drop_app_le by (rewrite length_take; lia).
  rewrite app_assoc, take_app_le by (rewrite length_app, length_drop, length_take; lia).
  rewrite skipn_firstn_comm. rewrite take_ge; [done|].
  rewrite length_app, length_take, length_drop. lia.
Qed.

(** What an operation on a well-formed buffer must do. *)
Definition sb_sim (op : sb_op) (s : SlideBuf) : Prop :=
  let '(s', r) := sb_run op s in
  let '(q', r') := bq_run op (sb_abs s) in
  r = r' /\ sb_abs s' = q' /\ sb_wf s'.

(** Taking [n] bytes: the slice read is the head of the queue. *)
Lemma sb_take_spec s n :
  sb_wf s -> (n <= sb_len s)%nat ->
  let s' := mkSlideBuf (sb_buf s) (sb_wp s) (sb_rp s + n) in
  slice (E := sb_error) (sb_buf s) (sb_rp s) (sb_rp s + n) = Ok (take n (bq_bytes (sb_abs s))) /\
  sb_abs s' = mkByteQueue (bq_cap (sb_abs s)) (drop n (bq_bytes (sb_abs s))) /\ sb_wf s'.
Proof.
  intros Hwf Hn s'. unfold sb_wf, sb_len in *. split; [|split].
  - rewrite slice_ok by lia. simpl. rewrite take_take. do 2 f_equal. lia.
  - subst s'. unfold sb_abs. simpl. f_equal. rewrite skipn_firstn_comm, drop_drop.
    by replace (sb_wp s - (sb_rp s + n))%nat with (sb_wp s - sb_rp s - n)%nat by lia.
  - simpl. lia.
Qed.

Lemma sb_sim_take s n (f : list Z -> sb_val) (m : SB sb_val) :
  sb_wf s ->
  (forall l, slice (E := sb_error) (sb_buf s) (sb_rp s) (sb_rp s + n) = Ok l -> (n <= sb_len s)%nat ->
     m s = (mkSlideBuf (sb_buf s) (sb_wp s) (sb_rp s + n), Ok (f l))) ->
  ((sb_len s < n)%nat -> m s = (s, Err NotEnoughBytes)) ->
  let '(s', r) := m s in
  let '(q', r') := bq_take n f (sb_abs s) in
  r = r' /\ sb_abs s' = q' /\ sb_wf s'.
Proof.
  intros Hwf Hok Herr. unfold bq_take. rewrite sb_abs_length by done.
  destruct (Nat.ltb_spec (sb_len s) n) as [Hlt|Hle].
  - by rewrite (Herr Hlt).
  - destruct (sb_take_spec s n Hwf Hle) as (Hslice & Habs & Hwf').
    rewrite (Hok _ Hslice Hle). done.
Qed.

Lemma sb_sim_put s need x (m : SB unit) :
  sb_wf s -> (length x <= need)%nat ->
  (forall s', sb_wf s' -> (sb_wp s' + need <= length (sb_buf s'))%nat ->
     m s' = (mkSlideBuf (take (sb_wp s') (sb_buf s') ++ x ++ drop (sb_wp s' + length x) (sb_buf s'))
                (sb_wp s' + length x) (sb_rp s'), Ok tt)) ->
  let '(s', r) := sb_fmap (fun _ => VUnit) (let! _ := sb_make_room need in m) s in
  let '(q', r') := bq_put need x (sb_abs s) in
  r = r' /\ sb_abs s' = q' /\ sb_wf s'.
Proof.
  intros Hwf Hx Hm. unfold sb_fmap, sb_bind, bq_put.
  destruct (sb_make_room_spec need s Hwf) as (s' & r & -> & Hwf' & Ha & Hr).
  rewrite sb_abs_length by done. change (bq_cap (sb_abs s)) with (sb_cap s).
  cbv zeta in Hr. destruct (Nat.ltb_spec (sb_cap s - sb_len s) need); [by subst r|].
  destruct Hr as [-> Hsp]. rewrite (Hm s' Hwf' Hsp). cbn [sb_ret].
  destruct (sb_abs_store s' x Hwf' ltac:(lia)) as (Hwf2 & Ha2 & _). split; [done|]. split; [|done].
  rewrite Ha2, Ha. f_equal. by apply (f_equal bq_cap) in Ha.
Qed.

Lemma sb_store_ok s x :
  (sb_wp s + length x <= length (sb_buf s))%nat ->
  sb_store x s = (mkSlideBuf (take (sb_wp s) (sb_buf s) ++ x ++ drop (sb_wp s + length x) (sb_buf s))
                (sb_wp s + length x) (sb_rp s), Ok tt).
Proof. intros. unfold sb_store. by rewrite bool_decide_true. Qed.

Lemma sb_refines_put s need x :
  sb_wf s -> length x = need ->
  let '(s', r) := sb_fmap (fun _ => VUnit) (sb_put_slice x) s in
  let '(q', r') := bq_put need x (sb_abs s) in
  r = r' /\ sb_abs s' = q' /\ sb_wf s'.
Proof.
  intros Hwf <-. apply sb_sim_put; [done|lia|]. intros s' _ Hsp. by apply sb_store_ok.
Qed.

Lemma sb_recv_store s need x :
  sb_wf s ->
  sb_run (OpRecv need x) s = sb_fmap (fun _ => VUnit) (let! _ := sb_make_room need in sb_store (take need x)) s.
Proof.
  intros Hwf. cbn [sb_run]. assert (Hl : (length (take need x) <= need)%nat) by (rewrite length_take; lia).
  generalize dependent (take need x). clear x. intros y Hl.
  unfold sb_fmap, sb_available_writable_area, sb_bind, sb_get, sb_lift. cbn [id].
  destruct (sb_make_room_spec need s Hwf) as (s' & r & -> & Hwf' & _ & Hr).
  cbv zeta in Hr. destruct (Nat.ltb_spec (sb_cap s - sb_len s) need); [by subst r|]. destruct Hr as [-> Hsp].
  rewrite slice_ok by (unfold sb_wf in *; lia). unfold sb_store, sb_fill_area.
  rewrite bool_decide_true by lia. unfold sb_wadv, sb_bind, sb_get, sb_wcap. cbn [id sb_buf sb_wp sb_rp].
  assert (Hlen : length (take (sb_wp s') (sb_buf s') ++ y ++ drop (sb_wp s' + length y) (sb_buf s')) = length (sb_buf s')).
  { rewrite !length_app, length_take, length_drop. lia. }
  rewrite Hlen, (proj2 (Nat.ltb_ge _ _)) by lia. unfold sb_ret, sb_modify. cbn [id sb_buf sb_wp sb_rp].
  by rewrite Hlen, (proj2 (Nat.ltb_ge _ _)) by lia.
Qed.

Lemma sb_refines_recv s need x :
  sb_wf s -> sb_sim (OpRecv need x) s.
Proof.
  intros Hwf. unfold sb_sim. rewrite sb_recv_store by done. cbn [bq_run].
  assert (Hl : (length (take need x) <= need)%nat) by (rewrite length_take; lia).
  apply sb_sim_put; [done|done|]. intros s' _ Hsp. apply sb_store_ok. lia.
Qed.

Lemma sb_step_refines op s : sb_wf s -> sb_sim op s.
Proof.
  intros Hwf. destruct op as [n|n| |ts|x|ts v|need x| |]; unfold sb_sim; cbn [sb_run bq_run].
  - apply sb_sim_take; [done| |]; intros; unfold sb_adv, sb_fmap, sb_bind, sb_get; cbn [id].
    + by rewrite (proj2 (Nat.ltb_ge _ _)).
    + by rewrite (proj2 (Nat.ltb_lt _ _)).
  - apply sb_sim_take; [done|intros l Hl ?|intros ?]; unfold sb_read_bytes, sb_fmap, sb_bind, sb_get; cbn [id].
    + rewrite (proj2 (Nat.ltb_ge _ _)) by done. unfold sb_lift. by rewrite Hl.
    + by rewrite (proj2 (Nat.ltb_lt _ _)).
  - apply sb_sim_take; [done|intros l Hl ?|intros ?]; unfold sb_read_u8, sb_fmap, sb_bind, sb_get; cbn [id].
    + rewrite (proj2 (Nat.ltb_ge _ _)) by done. unfold sb_lift, index.
      apply slice_ok_inv in Hl as [Hr ->].
      destruct (lookup_lt_is_Some_2 (sb_buf s) (sb_rp s)) as [b Hb]; [lia|]. rewrite Hb.
      replace (sb_rp s + 1 - sb_rp s)%nat with 1%nat by lia.
      rewrite (drop_S _ b) by done. cbn [take unwrap]. unfold sb_modify, sb_ret. do 4 f_equal.
      rewrite firstn_O. unfold of_be_bytes. simpl. lia.
    + by rewrite (proj2 (Nat.ltb_lt _ _)).
  - apply sb_sim_take; [done|intros l Hl ?|intros ?]; unfold sb_read_be, sb_fmap, sb_bind, sb_get; cbn [id].
    + rewrite (proj2 (Nat.ltb_ge _ _)) by done. unfold sb_lift. by rewrite Hl.
    + by rewrite (proj2 (Nat.ltb_lt _ _)).
  - by apply sb_refines_put.
  - apply sb_refines_put; [done|apply be_bytes_length].
  - by apply sb_refines_recv.
  - unfold sb_fmap, sb_bind, sb_reset, sb_modify, sb_ret. unfold sb_wf, sb_abs. simpl. split; [done|]. split; [done|lia].
  - unfold sb_fmap, sb_data, sb_bind, sb_get, sb_lift. cbn [id].
    rewrite slice_ok by (unfold sb_wf in *; lia). done.
Qed.

(** ** All public methods *)

(** What the buffer holds for its users: the bytes read that are still there, the
    unread bytes, and what was written ahead of the write position. *)
Record ByteStore : Type := mkByteStore { st_cap : nat; st_past : list Z; st_bytes : list Z; st_ahead : list Z }.

Definition st_queue (q : ByteStore) : ByteQueue := mkByteQueue (st_cap q) (st_bytes q).

(** The space behind the unread bytes. *)
Definition st_wcap (q : ByteStore) : nat := st_cap q - length (st_past q) - length (st_bytes q).

(** The calls that are not those of a queue. The caller of [CallArea],
    [CallWriteBuf] and [CallDataMut] overwrites the lent bytes with the start
    of [x]; bytes that it leaves as they are, and those that a bare [CallWadv]
    makes readable, hold what the memory held. *)
Inductive sb_call : Type :=
  | CallQueue (op : sb_op)
  | CallReadSigned (ts : nat)
  | CallSetRp (k : nat)
  | CallRewindRp (n : nat)
  | CallRewind
  | CallRewindIfNeeded (need : nat)
  | CallDataMut (x : list Z)
  | CallArea (need : nat) (x : list Z)
  | CallWadv (n : nat)
  | CallWriteBuf (n : nat) (x : list Z).

Definition sb_call_run (c : sb_call) : SB sb_val :=
  match c with
  | CallQueue op => sb_run op
  | CallReadSigned ts => sb_fmap VInt (sb_read_be ts (to_signed (8 * Z.of_nat ts)))
  | CallSetRp k => sb_fmap (fun _ => VUnit) (sb_set_rp k)
  | CallRewindRp n => sb_fmap (fun _ => VUnit) (sb_rewind_rp n)
  | CallRewind => sb_fmap (fun _ => VUnit) sb_rewind
  | CallRewindIfNeeded need => sb_fmap (fun _ => VUnit) (sb_rewind_if_needed need)
  | CallDataMut x =>
      let! lent := sb_data_mut in
      let! _ := sb_fill_data (take (length lent) x) in sb_ret (VBytes lent)
  | CallArea need x =>
      let! lent := sb_available_writable_area need in
      let! _ := sb_fill_area (take (length lent) x) in sb_ret (VInt (Z.of_nat (length lent)))
  | CallWadv n => sb_fmap (fun _ => VUnit) (sb_wadv n)
  | CallWriteBuf n x =>
      let! lent := sb_write_buf n in
      let! _ := sb_fill_back n (take (length lent) x) in sb_ret (VInt (Z.of_nat (length lent)))
  end.

(** The bytes read that are still there after space for [need] bytes was made. *)
Definition st_room (need : nat) (q : ByteStore) : list Z :=
  if (length (st_bytes q) =? 0)%nat || (st_wcap q <? need)%nat then [] else st_past q.

(** What taking [n] bytes leaves behind. *)
Definition st_taken (n : nat) (q : ByteStore) : list Z :=
  if (length (st_bytes q) <? n)%nat then st_past q else st_past q ++ take n (st_bytes q).

Definition st_op_past (op : sb_op) (q : ByteStore) : list Z :=
  match op with
  | OpAdv n | OpReadBytes n | OpReadBe n => st_taken n q
  | OpReadU8 => st_taken 1 q
  | OpPutSlice x => st_room (length x) q
  | OpPutBe ts _ => st_room ts q
  | OpRecv need _ => st_room need q
  | OpReset => []
  | OpData => st_past q
  end.

Definition st_op_ahead (op : sb_op) (q : ByteStore) : list Z :=
  match op with
  | OpAdv _ | OpReadBytes _ | OpReadBe _ | OpReadU8 | OpData => st_ahead q
  | _ => []
  end.

Definition st_no_space (need : nat) (q : ByteStore) : outcome sb_error sb_val :=
  Err (NotEnoughSpace (st_cap q) (st_cap q - length (st_bytes q)) need).

(** What a call returns and leaves in the store. *)
Definition st_step (c : sb_call) (q : ByteStore) (r : outcome sb_error sb_val) (q' : ByteStore) : Prop :=
  st_cap q' = st_cap q /\
  match c with
  | CallQueue op =>
      bq_run op (st_queue q) = (st_queue q', r) /\ st_past q' = st_op_past op q /\ st_ahead q' = st_op_ahead op q
  | CallReadSigned ts =>
      bq_take ts (fun x => VInt (to_signed (8 * Z.of_nat ts) (of_be_bytes x))) (st_queue q) = (st_queue q', r) /\
      st_past q' = st_taken ts q /\ st_ahead q' = st_ahead q
  | CallSetRp k =>
      let all := st_past q ++ st_bytes q in
      if (length all <? k)%nat then r = Err NotEnoughBytes /\ q' = q
      else r = Ok VUnit /\ st_past q' = take k all /\ st_bytes q' = drop k all /\ st_ahead q' = st_ahead q
  | CallRewindRp n =>
      let keep := (length (st_past q) - n)%nat in
      if (length (st_past q) <? n)%nat then r = Err NotEnoughBytes /\ q' = q
      else r = Ok VUnit /\ st_past q' = take keep (st_past q) /\
        st_bytes q' = drop keep (st_past q) ++ st_bytes q /\ st_ahead q' = st_ahead q
  | CallRewind => r = Ok VUnit /\ st_past q' = [] /\ st_bytes q' = st_bytes q /\ st_ahead q' = []
  | CallRewindIfNeeded need =>
      r = Ok VUnit /\ st_bytes q' = st_bytes q /\ st_ahead q' = [] /\
      st_past q' =
        if (length (st_bytes q) =? 0)%nat || (st_cap q <? length (st_past q) + need)%nat then [] else st_past q
  | CallDataMut x =>
      r = Ok (VBytes (st_bytes q)) /\ st_past q' = st_past q /\ st_ahead q' = st_ahead q /\
      st_bytes q' = take (length (st_bytes q)) x ++ drop (length x) (st_bytes q)
  | CallArea need x =>
      st_bytes q' = st_bytes q /\ st_past q' = st_room need q /\
      if (st_cap q - length (st_bytes q) <? need)%nat then r = st_no_space need q /\ st_ahead q' = []
      else r = Ok (VInt (Z.of_nat (st_wcap q'))) /\ st_ahead q' = take (st_wcap q') x
  | CallWadv n =>
      let stay := (n <=? st_wcap q)%nat in
      st_past q' = (if stay then st_past q else []) /\
      if (st_cap q - length (st_bytes q) <? n)%nat
      then r = st_no_space n q /\ st_bytes q' = st_bytes q /\ st_ahead q' = []
      else exists y,
        r = Ok VUnit /\ length y = n /\ st_bytes q' = st_bytes q ++ y /\
        st_ahead q' = (if stay then drop n (st_ahead q) else []) /\
        (stay = true -> take n (st_ahead q) `prefix_of` y)
  | CallWriteBuf n x =>
      st_past q' = st_room n q /\ st_ahead q' = [] /\
      if (st_cap q - length (st_bytes q) <? n)%nat then r = st_no_space n q /\ st_bytes q' = st_bytes q
      else exists y,
        r = Ok (VInt (Z.of_nat n)) /\ st_bytes q' = st_bytes q ++ y /\ length y = n /\ take n x `prefix_of` y
  end.

(** The buffer holds a store. *)
Definition sb_rep (s : SlideBuf) (q : ByteStore) : Prop :=
  sb_wf s /\ sb_abs s = st_queue q /\ take (sb_rp s) (sb_buf s) = st_past q /\
  st_ahead q `prefix_of` drop (sb_wp s) (sb_buf s).

Definition sb_holds (s : SlideBuf) (ahead : list Z) : ByteStore :=
  mkByteStore (length (sb_buf s)) (take (sb_rp s) (sb_buf s)) (bq_bytes (sb_abs s)) ahead.

Lemma sb_holds_rep s ahead : sb_wf s -> ahead `prefix_of` drop (sb_wp s) (sb_buf s) -> sb_rep s (sb_holds s ahead).
Proof. intros Hwf Ha. done. Qed.

Lemma sb_rep_holds s q : sb_rep s q -> q = sb_holds s (st_ahead q).
Proof. destruct q as [c p b a]. intros (_ & Ha & Hp & _). unfold sb_holds. rewrite Ha, Hp. cbn. by rewrite <- (f_equal bq_cap Ha : length (sb_buf s) = c). Qed.

Lemma sb_holds_numbers s ahead :
  sb_wf s -> let q := sb_holds s ahead in
  length (st_past q) = sb_rp s /\ length (st_bytes q) = sb_len s /\ st_cap q = sb_cap s /\ st_wcap q = sb_wcap s /\
  length (st_past q ++ st_bytes q) = sb_wp s.
Proof.
  intros Hwf q. assert (Hb : length (st_bytes q) = sb_len s) by (by apply sb_abs_length).
  assert (Hp : length (st_past q) = sb_rp s) by (cbn; rewrite length_take; unfold sb_wf in Hwf; lia).
  unfold st_wcap. rewrite length_app, Hb, Hp. unfold sb_wf, sb_len, sb_wcap, sb_cap in *. cbn. lia.
Qed.

(** A call on a buffer that holds a store does what the store says. *)
Definition sb_call_ok (c : sb_call) (s : SlideBuf) (q : ByteStore) : Prop :=
  let '(s', r) := sb_call_run c s in
  exists q', st_step c q r q' /\ sb_rep s' q' /\ no_panic r.

Lemma bq_run_no_panic op q : no_panic (snd (bq_run op q)).
Proof. destruct op; cbn; unfold bq_take, bq_put; by repeat case_match. Qed.

Lemma sb_rewind_if_needed_spec need s :
  sb_wf s -> exists s', sb_rewind_if_needed need s = (s', Ok tt) /\ sb_wf s' /\ sb_abs s' = sb_abs s /\
    if (sb_len s =? 0)%nat || (sb_cap s <? sb_rp s + need)%nat then sb_rp s' = O else s' = s.
Proof.
  intros Hwf. unfold sb_rewind_if_needed, sb_bind, sb_get. cbn [id].
  destruct (negb (sb_rp s =? 0)%nat && (sb_rp s =? sb_wp s)%nat) eqn:Hb.
  - apply andb_prop in Hb as [_ Hb]. apply Nat.eqb_eq in Hb. eexists. split; [done|].
    split; [unfold sb_wf; simpl; lia|]. split; [unfold sb_abs; simpl; by rewrite Hb, Nat.sub_diag|].
    unfold sb_len. by rewrite Hb, Nat.sub_diag.
  - destruct (sb_cap s <? sb_rp s + need)%nat eqn:Hc.
    + destruct (sb_rewind_spec s Hwf) as (s' & -> & ? & ? & ? & _). exists s'. by rewrite orb_true_r.
    + exists s. repeat (split; [done|]). rewrite orb_false_r. destruct (Nat.eqb_spec (sb_len s) 0) as [Hl|]; [|done].
      unfold sb_len, sb_wf in *. destruct (Nat.eqb_spec (sb_rp s) 0); [done|]. cbn [negb andb] in Hb.
      apply Nat.eqb_neq in Hb. lia.
Qed.

(** Space is made by moving the unread bytes to the front, or not at all. *)
Lemma sb_make_room_moves need s :
  sb_wf s -> let s' := fst (sb_make_room need s) in
  if (sb_len s =? 0)%nat || (sb_wcap s <? need)%nat then sb_rp s' = O else s' = s.
Proof.
  intros Hwf s'. destruct (sb_rewind_if_needed_spec need s Hwf) as (s1 & E1 & Hwf1 & Ha1 & Hs1).
  assert (Hs' : s' = if (sb_wcap s1 <? need)%nat then fst (sb_rewind s1) else s1).
  { unfold s', sb_make_room, sb_bind, sb_get. rewrite E1. cbn [id]. destruct (sb_wcap s1 <? need)%nat eqn:Hw1.
    - destruct (sb_rewind_spec s1 Hwf1) as (s2 & -> & _). by destruct (sb_wcap s2 <? need)%nat.
    - cbn [sb_ret]. by rewrite Hw1. }
  rewrite Hs'. clear s' Hs'. destruct (sb_wcap s1 <? need)%nat eqn:Hw1.
  - destruct (sb_rewind_spec s1 Hwf1) as (s2 & -> & _ & _ & Hr & _). cbn [fst].
    destruct ((sb_len s =? 0)%nat || (sb_wcap s <? need)%nat) eqn:Hc; [exact Hr|]. apply orb_false_iff in Hc as [Hc1 Hc2].
    rewrite Hc1 in Hs1. unfold sb_cap in Hs1.
    destruct (Nat.ltb_spec (length (sb_buf s)) (sb_rp s + need)); cbn [orb] in Hs1; [|by subst; congruence].
    apply Nat.ltb_ge in Hc2. unfold sb_wcap, sb_wf in *. lia.
  - destruct (sb_len s =? 0)%nat eqn:Hl; cbn [orb] in *; [done|].
    destruct (Nat.ltb_spec (sb_cap s) (sb_rp s + need)).
    + rewrite (proj2 (Nat.ltb_lt _ _)); [done|]. unfold sb_wcap, sb_cap, sb_wf in *. lia.
    + subst s1. by rewrite Hw1.
Qed.

(** What taking and putting do to the bytes before the read position. *)
Lemma sb_past_take s n : sb_wf s -> (n <= sb_len s)%nat ->
  take (sb_rp s + n) (sb_buf s) = take (sb_rp s) (sb_buf s) ++ take n (bq_bytes (sb_abs s)).
Proof.
  intros Hwf Hn. unfold sb_abs. cbn [bq_bytes]. rewrite take_take, Nat.min_l by (unfold sb_len in *; lia).
  by rewrite take_take_drop.
Qed.

Lemma sb_past_room need s ahead :
  sb_wf s -> let s' := fst (sb_make_room need s) in
  take (sb_rp s') (sb_buf s') = st_room need (sb_holds s ahead) /\
  (st_room need (sb_holds s ahead) <> [] -> s' = s).
Proof.
  intros Hwf s'. pose proof (sb_make_room_moves need s Hwf) as Hm. cbv zeta in Hm. fold s' in Hm.
  destruct (sb_holds_numbers s ahead Hwf) as (_ & Hb & _ & Hw & _). unfold st_room. rewrite Hb, Hw.
  destruct (_ || _); [by rewrite Hm|]. by rewrite Hm.
Qed.

(** Writing behind the read position does not change what is before it. *)
Lemma take_store (l x r : list Z) n k : (n <= k <= length l)%nat -> take n (take k l ++ x ++ r) = take n l.
Proof. intros. rewrite take_app_le, take_take by (rewrite length_take; lia). f_equal. lia. Qed.

Section Calls.
  Context (s : SlideBuf) (ahead : list Z) (Hwf : sb_wf s) (Hah : ahead `prefix_of` drop (sb_wp s) (sb_buf s)).

#[local] Abbreviation q0 := (sb_holds s ahead).

(** A call that moves only the read position. *)
Lemma sb_moved_rep rp :
  (rp <= sb_wp s)%nat ->
  sb_rep (mkSlideBuf (sb_buf s) (sb_wp s) rp)
    (mkByteStore (st_cap q0) (take rp (st_past q0 ++ st_bytes q0)) (drop rp (st_past q0 ++ st_bytes q0)) ahead).
Proof.
  intros Hr. unfold sb_wf in Hwf.
  assert (Hall : st_past q0 ++ st_bytes q0 = take (sb_wp s) (sb_buf s)).
  { cbn. rewrite take_take_drop. f_equal. lia. }
  rewrite Hall. split; [unfold sb_wf; cbn; lia|]. split; [|split; [|done]].
  - unfold sb_abs, st_queue. cbn. by rewrite skipn_firstn_comm.
  - cbn. rewrite take_take. f_equal. lia.
Qed.

Lemma sb_call_set_rp k : sb_call_ok (CallSetRp k) s q0.
Proof.
  unfold sb_call_ok, sb_call_run, sb_fmap, sb_set_rp, sb_bind, sb_get, sb_err, sb_modify, sb_ret. cbn [id].
  destruct (sb_holds_numbers s ahead Hwf) as (_ & _ & _ & _ & Hl). unfold st_step. cbv zeta.
  destruct (Nat.ltb_spec (sb_wp s) k) as [Hk|Hk]; eexists.
  - rewrite Hl, (proj2 (Nat.ltb_lt _ _)) by done. split; [by split|]. split; [by apply sb_holds_rep | done].
  - split; [|split; [apply (sb_moved_rep k Hk)|done]].
    rewrite Hl, (proj2 (Nat.ltb_ge _ _)) by done. done.
Qed.

Lemma sb_call_rewind_rp n : sb_call_ok (CallRewindRp n) s q0.
Proof.
  unfold sb_call_ok, sb_call_run, sb_fmap, sb_rewind_rp, sb_bind, sb_get, sb_err, sb_modify, sb_ret. cbn [id].
  destruct (sb_holds_numbers s ahead Hwf) as (Hp & _). unfold st_step. cbv zeta. rewrite Hp.
  destruct (Nat.ltb_spec (sb_rp s) n) as [Hk|Hk]; eexists.
  - split; [by split|]. split; [by apply sb_holds_rep | done].
  - split; [|split; [apply (sb_moved_rep (sb_rp s - n)); unfold sb_wf in Hwf; lia|done]].
    cbn [st_cap st_past st_bytes st_ahead]. do 2 (split; [done|]).
    change (take (sb_rp s) (sb_buf s)) with (st_past q0). change (bq_bytes (sb_abs s)) with (st_bytes q0).
    split; [by rewrite take_app_le by lia|]. split; [by rewrite drop_app_le by lia | done].
Qed.

(** Taking bytes, for the calls that do nothing else. *)
Lemma sb_taken_rep n :
  sb_rep (if (sb_len s <? n)%nat then s else mkSlideBuf (sb_buf s) (sb_wp s) (sb_rp s + n))
    (mkByteStore (st_cap q0) (st_taken n q0) (if (sb_len s <? n)%nat then st_bytes q0 else drop n (st_bytes q0)) ahead).
Proof.
  destruct (sb_holds_numbers s ahead Hwf) as (Hp & Hb & _). unfold st_taken. rewrite Hb.
  destruct (Nat.ltb_spec (sb_len s) n); [by apply sb_holds_rep|].
  pose proof (sb_moved_rep (sb_rp s + n)) as Hm.
  rewrite take_app_ge, drop_app_ge in Hm by lia. rewrite Hp, Nat.add_comm, Nat.add_sub, Nat.add_comm in Hm.
  apply Hm. unfold sb_len, sb_wf in *. lia.
Qed.

Lemma sb_call_read_signed ts : sb_call_ok (CallReadSigned ts) s q0.
Proof.
  pose proof (sb_taken_rep ts) as Hrep. unfold sb_call_ok, st_step, bq_take. cbv zeta.
  change (bq_bytes (st_queue q0)) with (bq_bytes (sb_abs s)). rewrite sb_abs_length by done.
  unfold sb_call_run, sb_fmap, sb_read_be, sb_bind, sb_get, sb_err, sb_lift, sb_modify, sb_ret. cbn [id].
  destruct (Nat.ltb_spec (sb_len s) ts) as [Hlt|Hle].
  - eexists. split; [|split; [exact Hrep | done]]. done.
  - destruct (sb_take_spec s ts Hwf Hle) as (-> & _ & _). eexists. split; [|split; [exact Hrep | done]]. done.
Qed.

Lemma sb_call_rewind : sb_call_ok CallRewind s q0.
Proof.
  unfold sb_call_ok, sb_call_run, sb_fmap, sb_bind.
  destruct (sb_rewind_spec s Hwf) as (s' & -> & Hwf' & Ha & Hr & Hl). cbn [sb_ret].
  exists (sb_holds s' []). split; [|split; [apply sb_holds_rep; [done|apply prefix_nil]|done]].
  unfold st_step, sb_holds. cbn [st_cap st_past st_bytes st_ahead]. by rewrite Hl, Hr, Ha.
Qed.

Lemma sb_call_rewind_if_needed need : sb_call_ok (CallRewindIfNeeded need) s q0.
Proof.
  unfold sb_call_ok, sb_call_run, sb_fmap, sb_bind.
  destruct (sb_rewind_if_needed_spec need s Hwf) as (s' & -> & Hwf' & Ha & Hs). cbn [sb_ret].
  exists (sb_holds s' []). split; [|split; [apply sb_holds_rep; [done|apply prefix_nil]|done]].
  destruct (sb_holds_numbers s ahead Hwf) as (Hp & Hb & Hc & _). unfold st_step. rewrite Hp, Hb, Hc.
  pose proof (f_equal bq_cap Ha) as Hcap. cbn in Hcap. unfold sb_holds. cbn [st_cap st_past st_bytes st_ahead]. rewrite Hcap, Ha.
  do 4 (split; [done|]). destruct ((sb_len s =? 0)%nat || (sb_cap s <? sb_rp s + need)%nat); [by rewrite Hs | by rewrite Hs].
Qed.

End Calls.

(** The unread bytes, read from the front. *)
Lemma sb_abs_bytes s : sb_wf s -> bq_bytes (sb_abs s) = drop (sb_rp s) (take (sb_wp s) (sb_buf s)).
Proof. intros Hwf. unfold sb_wf in Hwf. cbn. rewrite take_drop_commute. do 2 f_equal. lia. Qed.

(** Writing behind the unread bytes, and advancing over what is there. *)
Lemma sb_fill_rep s y :
  sb_wf s -> (sb_wp s + length y <= length (sb_buf s))%nat ->
  let s' := mkSlideBuf (take (sb_wp s) (sb_buf s) ++ y ++ drop (sb_wp s + length y) (sb_buf s)) (sb_wp s) (sb_rp s) in
  sb_rep s' (sb_holds s y) /\ length (sb_buf s') = length (sb_buf s) /\
  drop (sb_wp s) (sb_buf s') = y ++ drop (sb_wp s + length y) (sb_buf s).
Proof.
  intros Hwf Hy s'. pose proof Hwf as Hwf0. unfold sb_wf in Hwf.
  assert (Hl : length (sb_buf s') = length (sb_buf s)).
  { subst s'. cbn. rewrite !length_app, length_take, length_drop. lia. }
  assert (Hd : drop (sb_wp s) (sb_buf s') = y ++ drop (sb_wp s + length y) (sb_buf s)).
  { subst s'. cbn [sb_buf]. by rewrite drop_app_length' by (rewrite length_take; lia). }
  assert (Hwf' : sb_wf s') by (unfold sb_wf; rewrite Hl; done).
  split; [|done]. split; [done|]. split; [|split].
  - pose proof (sb_abs_bytes s' Hwf') as Hb. pose proof (sb_abs_bytes s Hwf0) as Hb0.
    unfold sb_holds, st_queue. cbn [st_cap st_bytes]. rewrite Hb0, <- Hl.
    assert (Ht : take (sb_wp s') (sb_buf s') = take (sb_wp s) (sb_buf s)) by (apply take_store; lia).
    rewrite Ht in Hb. by rewrite <- (Hb : _ = drop (sb_rp s) _).
  - subst s'. cbn [sb_buf sb_rp]. by rewrite take_store by lia.
  - change (sb_wp s') with (sb_wp s). rewrite Hd. by eexists.
Qed.

Lemma sb_advanced_rep s q n :
  sb_rep s q -> (n <= sb_wcap s)%nat ->
  sb_rep (mkSlideBuf (sb_buf s) (sb_wp s + n) (sb_rp s))
    (mkByteStore (st_cap q) (st_past q) (st_bytes q ++ take n (drop (sb_wp s) (sb_buf s))) (drop n (st_ahead q))).
Proof.
  intros (Hwf & Ha & Hp & k & Hk) Hn. pose proof Hwf as Hwf0. unfold sb_wf, sb_wcap in *.
  set (s' := mkSlideBuf _ _ _). assert (Hwf' : sb_wf s') by (unfold sb_wf, s'; cbn; lia).
  split; [done|]. split; [|split; [done|]].
  - unfold st_queue in *. pose proof (f_equal bq_cap Ha) as Hc. pose proof (f_equal bq_bytes Ha) as Hb.
    rewrite (sb_abs_bytes _ Hwf0) in Hb. cbn [bq_cap bq_bytes st_cap st_bytes] in *.
    pose proof (sb_abs_bytes s' Hwf') as Hb'. cbn [s' sb_buf sb_wp sb_rp] in Hb'.
    rewrite <- take_take_drop, drop_app_le in Hb' by (rewrite length_take; lia).
    rewrite Hb in Hb'. rewrite <- Hb', <- Hc. done.
  - cbn [s' sb_wp sb_buf st_ahead]. rewrite <- drop_drop, Hk. destruct (decide (n <= length (st_ahead q))%nat).
    + rewrite drop_app_le by done. by eexists.
    + rewrite drop_ge by lia. apply prefix_nil.
Qed.

Section WriteCalls.
  Context (s : SlideBuf) (ahead : list Z) (Hwf : sb_wf s) (Hah : ahead `prefix_of` drop (sb_wp s) (sb_buf s)).

#[local] Abbreviation q0 := (sb_holds s ahead).

Lemma sb_call_data_mut x : sb_call_ok (CallDataMut x) s q0.
Proof.
  unfold sb_call_ok, sb_call_run, sb_data_mut, sb_bind, sb_get, sb_lift, sb_ret. cbn [id].
  pose proof (sb_abs_length s Hwf) as Hlen. pose proof Hwf as Hw. unfold sb_wf, sb_len in Hlen, Hw.
  rewrite slice_ok by lia. change (take (sb_wp s - sb_rp s) (drop (sb_rp s) (sb_buf s))) with (st_bytes q0).
  change (bq_bytes (sb_abs s)) with (st_bytes q0) in Hlen.
  assert (Hx : drop (length (take (length (st_bytes q0)) x)) (st_bytes q0) = drop (length x) (st_bytes q0)).
  { rewrite length_take. destruct (decide (length x <= length (st_bytes q0))%nat); [by rewrite Nat.min_r by lia|].
    rewrite Nat.min_l, !drop_ge by lia. done. }
  assert (Hy : (length (take (length (st_bytes q0)) x) <= sb_wp s - sb_rp s)%nat) by (rewrite length_take; lia).
  unfold sb_fill_data, st_step. rewrite <- Hx. revert Hy. generalize (take (length (st_bytes q0)) x). clear Hx. intros y Hy.
  rewrite bool_decide_true by lia.
  set (s' := mkSlideBuf _ _ _).
  assert (Hl : length (sb_buf s') = length (sb_buf s)).
  { subst s'. cbn [sb_buf]. rewrite !length_app, length_take, length_drop. lia. }
  assert (Hb : bq_bytes (sb_abs s') = y ++ drop (length y) (st_bytes q0)).
  { cbn [s' sb_abs bq_bytes sb_buf sb_wp sb_rp]. rewrite drop_app_length' by (rewrite length_take; lia).
    rewrite take_app_ge by done. f_equal. cbn [sb_holds st_bytes sb_abs bq_bytes].
    by rewrite skipn_firstn_comm, drop_drop. }
  assert (Hwf' : sb_wf s') by (unfold sb_wf; rewrite Hl; done).
  exists (mkByteStore (length (sb_buf s)) (st_past q0) (y ++ drop (length y) (st_bytes q0)) ahead).
  split; [done|]. split; [|done]. split; [done|]. split; [|split].
  - unfold st_queue. cbn [st_cap st_bytes]. by rewrite <- Hb, <- Hl.
  - cbn [s' sb_buf sb_rp]. by rewrite take_store by lia.
  - cbn [s' sb_buf sb_wp st_ahead]. rewrite drop_app_ge, length_take by (rewrite length_take; lia).
    rewrite drop_app_ge by lia. rewrite drop_drop.
    replace (_ + _)%nat with (sb_wp s) by lia. done.
Qed.

Lemma sb_call_area need x : sb_call_ok (CallArea need x) s q0.
Proof.
  unfold sb_call_ok, sb_call_run, sb_available_writable_area, sb_bind, sb_get, sb_lift, sb_ret.
  destruct (sb_make_room_spec need s Hwf) as (s1 & r & E & Hwf1 & Ha1 & Hr).
  destruct (sb_past_room need s ahead Hwf) as [Hp _]. rewrite E in *. cbn [fst] in Hp. cbv zeta in Hr.
  pose proof (f_equal bq_cap Ha1 : length (sb_buf s1) = length (sb_buf s)) as Hc.
  destruct (sb_holds_numbers s ahead Hwf) as (_ & Hb & _).
  unfold st_step. rewrite Hb. change (st_cap q0) with (sb_cap s).
  destruct (Nat.ltb_spec (sb_cap s - sb_len s) need).
  - subst r. exists (sb_holds s1 []). split; [|split; [apply sb_holds_rep; [done|apply prefix_nil]|done]].
    unfold sb_holds at 1 2 3 5. cbn [st_cap st_past st_bytes st_ahead]. rewrite Hc, Ha1.
    unfold st_no_space. rewrite Hb. done.
  - destruct Hr as [-> Hsp]. cbn [id]. pose proof Hwf1 as Hw. unfold sb_wf in Hw. rewrite slice_ok by lia.
    assert (Hlent : length (take (length (sb_buf s1) - sb_wp s1) (drop (sb_wp s1) (sb_buf s1))) = sb_wcap s1).
    { unfold sb_wcap. rewrite length_take, length_drop. lia. }
    rewrite Hlent.
    assert (Hy : (sb_wp s1 + length (take (sb_wcap s1) x) <= length (sb_buf s1))%nat).
    { rewrite length_take. unfold sb_wcap. lia. }
    unfold sb_fill_area. rewrite bool_decide_true by done.
    destruct (sb_fill_rep s1 _ Hwf1 Hy) as [Hrep _]. eexists. split; [|split; [exact Hrep|done]].
    destruct (sb_holds_numbers s1 (take (sb_wcap s1) x) Hwf1) as (_ & _ & _ & Hw1 & _). rewrite Hw1.
    unfold sb_holds at 1 2 3 5. cbn [st_cap st_past st_bytes st_ahead]. rewrite Hc, Ha1. done.
Qed.

Lemma sb_call_wadv n : sb_call_ok (CallWadv n) s q0.
Proof.
  unfold sb_call_ok, sb_call_run, sb_fmap, sb_wadv, sb_bind, sb_get. cbn [id].
  destruct (sb_holds_numbers s ahead Hwf) as (Hp & Hb & Hc & Hw & _). unfold st_step. cbv zeta. rewrite Hb, Hw, Hc.
  assert (H1 : exists s1, (if (sb_wcap s <? n)%nat then sb_rewind else sb_ret tt) s = (s1, Ok tt) /\ sb_wf s1 /\
    sb_abs s1 = sb_abs s /\ take (sb_rp s1) (sb_buf s1) = (if (n <=? sb_wcap s)%nat then st_past q0 else []) /\
    (if (n <=? sb_wcap s)%nat then s1 = s else sb_rp s1 = 0%nat)).
  { rewrite Nat.ltb_antisym. destruct (n <=? sb_wcap s)%nat; cbn [negb]; [by exists s|].
    destruct (sb_rewind_spec s Hwf) as (s' & -> & ? & ? & Hr & _). exists s'. by rewrite Hr. }
  destruct H1 as (s1 & -> & Hwf1 & Ha1 & Hp1 & Hs1).
  pose proof (f_equal bq_cap Ha1 : length (sb_buf s1) = length (sb_buf s)) as Hc1.
  pose proof (f_equal (length ∘ bq_bytes) Ha1) as Hl. cbn [compose] in Hl. rewrite !sb_abs_length in Hl by done.
  set (ah := if (n <=? sb_wcap s)%nat then ahead else []).
  assert (Hrep : sb_rep s1 (sb_holds s1 ah)).
  { apply sb_holds_rep; [done|]. unfold ah. destruct (n <=? sb_wcap s)%nat; [by subst s1 | apply prefix_nil]. }
  destruct (Nat.ltb_spec (sb_wcap s1) n) as [Hlt|Hge].
  - assert (Hn : (n <=? sb_wcap s)%nat = false) by (destruct (Nat.leb_spec n (sb_wcap s)); [subst s1; lia | done]).
    unfold ah in *. rewrite Hn in *. exists (sb_holds s1 []). split; [|done].
    unfold sb_cap, sb_len, sb_wcap, sb_wf in *. rewrite (proj2 (Nat.ltb_lt _ _)) by lia. unfold sb_err.
    unfold sb_holds at 1 2 4 5. cbn [st_cap st_past st_bytes st_ahead]. rewrite Hc1, Ha1.
    split; [done|]. split; [done|]. split; [|done]. unfold st_no_space. rewrite Hb. do 2 f_equal. lia.
  - pose proof (sb_advanced_rep s1 _ n Hrep Hge) as Hrep2. eexists. split; [|split; [exact Hrep2|done]].
    cbn [st_cap st_past st_bytes st_ahead sb_holds]. rewrite Hc1, Ha1. split; [done|]. split; [done|].
    rewrite (proj2 (Nat.ltb_ge _ _)) by (unfold sb_cap, sb_len, sb_wcap, sb_wf in *; lia).
    exists (take n (drop (sb_wp s1) (sb_buf s1))). split; [done|]. split; [rewrite length_take, length_drop; unfold sb_wcap in Hge; lia|]. split; [done|].
    unfold ah. split; [by destruct (n <=? sb_wcap s)%nat; [|by rewrite drop_nil]|]. intros Hn. rewrite Hn in *. subst s1.
    destruct Hah as [k ->]. rewrite take_app. by eexists.
Qed.

Lemma sb_call_write_buf n x : sb_call_ok (CallWriteBuf n x) s q0.
Proof.
  unfold sb_call_ok, sb_call_run, sb_write_buf, sb_bind, sb_get, sb_lift, sb_modify, sb_ret.
  destruct (sb_make_room_spec n s Hwf) as (s1 & r & E & Hwf1 & Ha1 & Hr).
  destruct (sb_past_room n s ahead Hwf) as [Hp _]. rewrite E in *. cbn [fst] in Hp. cbv zeta in Hr.
  pose proof (f_equal bq_cap Ha1 : length (sb_buf s1) = length (sb_buf s)) as Hc.
  destruct (sb_holds_numbers s ahead Hwf) as (_ & Hb & _).
  unfold st_step. rewrite Hb. change (st_cap q0) with (sb_cap s).
  destruct (Nat.ltb_spec (sb_cap s - sb_len s) n).
  - subst r. exists (sb_holds s1 []). split; [|split; [apply sb_holds_rep; [done|apply prefix_nil]|done]].
    unfold sb_holds at 1 2 4 6. cbn [st_cap st_past st_bytes st_ahead]. rewrite Hc, Ha1.
    unfold st_no_space. rewrite Hb. done.
  - destruct Hr as [-> Hsp]. cbn [id]. pose proof Hwf1 as Hw. unfold sb_wf in Hw. rewrite slice_ok by lia.
    cbn [sb_buf sb_wp sb_rp].
    assert (Hlent : length (take (sb_wp s1 + n - sb_wp s1) (drop (sb_wp s1) (sb_buf s1))) = n).
    { rewrite length_take, length_drop. lia. }
    rewrite Hlent. unfold sb_fill_back. cbn [sb_buf sb_wp sb_rp]. rewrite Nat.add_sub.
    assert (Hy : (sb_wp s1 + length (take n x) <= length (sb_buf s1))%nat) by (rewrite length_take; lia).
    rewrite bool_decide_true by (rewrite length_take; lia).
    destruct (sb_fill_rep s1 _ Hwf1 Hy) as (Hrep & Hl & Hd).
    assert (Hn : (n <= sb_wcap (mkSlideBuf (take (sb_wp s1) (sb_buf s1) ++ take n x ++
      drop (sb_wp s1 + length (take n x)) (sb_buf s1)) (sb_wp s1) (sb_rp s1)))%nat).
    { unfold sb_wcap. rewrite Hl. cbn [sb_wp]. lia. }
    pose proof (sb_advanced_rep _ _ n Hrep Hn) as Hrep2. cbn [sb_wp sb_rp] in Hrep2. rewrite Hd in Hrep2.
    eexists. split; [|split; [exact Hrep2|done]].
    cbn [st_cap st_past st_bytes st_ahead sb_holds]. rewrite Hc, Ha1. split; [done|]. split; [done|].
    split; [apply drop_ge; rewrite length_take; lia|]. eexists. split; [done|]. split; [done|].
    split; [|rewrite take_app, (take_ge (take n x)) by (rewrite length_take; lia); by eexists].
    rewrite length_take, length_app, length_drop, length_take. lia.
Qed.

(** The calls of the queue. *)
Lemma sb_call_queue op q' :
  sb_rep (fst (sb_run op s)) q' -> st_past q' = st_op_past op q0 -> st_ahead q' = st_op_ahead op q0 ->
  sb_call_ok (CallQueue op) s q0.
Proof.
  intros Hrep Hp Hah'. pose proof (sb_step_refines op s Hwf) as Hs. unfold sb_sim in Hs.
  pose proof (bq_run_no_panic op (sb_abs s)) as Hn. unfold sb_call_ok. cbn [sb_call_run].
  destruct (sb_run op s) as [s' r]. unfold st_step. change (st_queue q0) with (sb_abs s).
  assert (Hcap : bq_cap (fst (bq_run op (sb_abs s))) = bq_cap (sb_abs s)).
  { destruct op; cbn; unfold bq_take, bq_put; by repeat case_match. }
  destruct (bq_run op (sb_abs s)) as [qq r']. destruct Hs as (-> & Hq & _). cbn [fst snd] in *.
  exists q'. destruct Hrep as (Hw' & Ha' & Hrest). split; [|done].
  rewrite <- Ha', Hq. split; [|done]. rewrite <- Hq, Ha' in Hcap. exact Hcap.
Qed.

Lemma sb_put_past need (m : SB unit) :
  (forall s', sb_wf s' -> (sb_wp s' + need <= length (sb_buf s'))%nat ->
     take (sb_rp (fst (m s'))) (sb_buf (fst (m s'))) = take (sb_rp s') (sb_buf s')) ->
  let s' := fst (sb_fmap (fun _ => VUnit) (let! _ := sb_make_room need in m) s) in
  take (sb_rp s') (sb_buf s') = st_room need q0.
Proof.
  intros Hm. unfold sb_fmap, sb_bind.
  destruct (sb_make_room_spec need s Hwf) as (s1 & r & E & Hwf1 & _ & Hr).
  destruct (sb_past_room need s ahead Hwf) as [Hp _]. rewrite E in *. cbn [fst] in Hp. cbv zeta in Hr.
  destruct (sb_cap s - sb_len s <? need)%nat; [by subst r|]. destruct Hr as [-> Hsp].
  specialize (Hm s1 Hwf1 Hsp). destruct (m s1) as [s2 []]; by cbn in *; rewrite Hm.
Qed.

Lemma sb_store_past x s' :
  sb_wf s' -> (sb_wp s' + length x <= length (sb_buf s'))%nat ->
  take (sb_rp (fst (sb_store x s'))) (sb_buf (fst (sb_store x s'))) = take (sb_rp s') (sb_buf s').
Proof. intros Hw Hl. rewrite sb_store_ok by done. cbn. unfold sb_wf in Hw. by rewrite take_store by lia. Qed.

Lemma sb_call_put op need :
  st_op_past op q0 = st_room need q0 -> st_op_ahead op q0 = [] ->
  (let s' := fst (sb_run op s) in take (sb_rp s') (sb_buf s') = st_room need q0) ->
  sb_call_ok (CallQueue op) s q0.
Proof.
  intros Hp Ha Hs. pose proof (sb_step_refines op s Hwf) as Hsim. unfold sb_sim in Hsim.
  apply (sb_call_queue op (sb_holds (fst (sb_run op s)) [])); [|by rewrite Hp | by rewrite Ha].
  destruct (sb_run op s) as [s' r], (bq_run op (sb_abs s)). destruct Hsim as (_ & _ & Hw').
  apply sb_holds_rep; [done|apply prefix_nil].
Qed.

Lemma sb_call_take op n :
  st_op_past op q0 = st_taken n q0 -> st_op_ahead op q0 = ahead ->
  fst (sb_run op s) = (if (sb_len s <? n)%nat then s else mkSlideBuf (sb_buf s) (sb_wp s) (sb_rp s + n)) ->
  sb_call_ok (CallQueue op) s q0.
Proof.
  intros Hp Ha Hs. pose proof (sb_taken_rep s ahead Hwf Hah n) as Hrep. rewrite <- Hs in Hrep.
  by apply (sb_call_queue op _ Hrep).
Qed.

Lemma sb_read_be_state n conv :
  fst (sb_fmap VInt (sb_read_be n conv) s) = if (sb_len s <? n)%nat then s else mkSlideBuf (sb_buf s) (sb_wp s) (sb_rp s + n).
Proof.
  unfold sb_fmap, sb_read_be, sb_bind, sb_get, sb_err, sb_lift, sb_modify, sb_ret. cbn [id].
  destruct (Nat.ltb_spec (sb_len s) n) as [|Hle]; [done|]. by destruct (sb_take_spec s n Hwf Hle) as (-> & _).
Qed.

Lemma sb_call_queue_ok op : sb_call_ok (CallQueue op) s q0.
Proof.
  destruct op as [n|n| |ts|x|ts v|need x| |].
  - apply (sb_call_take _ n); [done..|]. cbn [sb_run]. unfold sb_fmap, sb_adv, sb_bind, sb_get. cbn [id].
    by destruct (sb_len s <? n)%nat.
  - apply (sb_call_take _ n); [done..|]. cbn [sb_run].
    unfold sb_fmap, sb_read_bytes, sb_bind, sb_get, sb_err, sb_lift, sb_modify, sb_ret. cbn [id].
    destruct (Nat.ltb_spec (sb_len s) n) as [|Hle]; [done|]. by destruct (sb_take_spec s n Hwf Hle) as (-> & _).
  - apply (sb_call_take _ 1); [done..|]. cbn [sb_run].
    unfold sb_fmap, sb_read_u8, sb_bind, sb_get, sb_err, sb_lift, sb_modify, sb_ret, index. cbn [id].
    destruct (Nat.ltb_spec (sb_len s) 1) as [|Hle]; [done|].
    destruct (lookup_lt_is_Some_2 (sb_buf s) (sb_rp s)) as [b ->]; [unfold sb_wf, sb_len in *; lia|]. done.
  - apply (sb_call_take _ ts); [done..|]. apply sb_read_be_state.
  - apply (sb_call_put _ (length x)); [done..|]. apply sb_put_past. apply sb_store_past.
  - apply (sb_call_put _ ts); [done..|]. cbn [sb_run]. unfold sb_put_slice. rewrite be_bytes_length.
    apply sb_put_past. intros s' Hw Hl. apply sb_store_past; [done|]. by rewrite be_bytes_length.
  - apply (sb_call_put _ need); [done..|]. cbv zeta. rewrite sb_recv_store by done. apply sb_put_past.
    intros s' Hw Hl. apply sb_store_past; [done|]. rewrite length_take. lia.
  - apply (sb_call_queue _ (sb_holds (mkSlideBuf (sb_buf s) 0 0) [])); [|done..].
    apply sb_holds_rep; [unfold sb_wf; cbn; lia | apply prefix_nil].
  - apply (sb_call_queue _ q0); [|done..]. cbn [sb_run]. unfold sb_fmap, sb_data, sb_bind, sb_get, sb_lift. cbn [id].
    rewrite slice_ok by (unfold sb_wf in *; lia). by apply sb_holds_rep.
Qed.

Lemma sb_call_step c : sb_call_ok c s q0.
Proof.
  destruct c.
  - apply sb_call_queue_ok.
  - by apply sb_call_read_signed.
  - by apply sb_call_set_rp.
  - by apply sb_call_rewind_rp.
  - by apply sb_call_rewind.
  - by apply sb_call_rewind_if_needed.
  - by apply sb_call_data_mut.
  - by apply sb_call_area.
  - by apply sb_call_wadv.
  - by apply sb_call_write_buf.
Qed.

End WriteCalls.

Fixpoint sb_calls (cs : list sb_call) (s : SlideBuf) : SlideBuf * list (outcome sb_error sb_val) :=
  match cs with
  | [] => (s, [])
  | c :: cs =>
      let '(s, r) := sb_call_run c s in
      let '(s, rs) := sb_calls cs s in (s, r :: rs)
  end.

(** What a sequence of calls returns and leaves in the store. *)
Inductive st_steps : list sb_call -> ByteStore -> list (outcome sb_error sb_val) -> ByteStore -> Prop :=
  | st_steps_nil q : st_steps [] q [] q
  | st_steps_cons c cs q q1 r rs q2 : st_step c q r q1 -> st_steps cs q1 rs q2 -> st_steps (c :: cs) q (r :: rs) q2.


(** Bytes read are given back until the buffer moves the rest to the front. *)
Example sb_rewind_rp_example :
  snd (sb_calls [CallQueue (OpPutSlice [1; 2; 3; 4]); CallQueue (OpReadBytes 3); CallRewindRp 2; CallQueue (OpReadBytes 1);
    CallArea 1 [9; 8]; CallWadv 2; CallQueue OpData; CallQueue (OpPutSlice [7]); CallRewindRp 1] (sb_new 6)) =
    [Ok VUnit; Ok (VBytes [1; 2; 3]); Ok VUnit; Ok (VBytes [2]); Ok (VInt 2); Ok VUnit; Ok (VBytes [3; 4; 9; 8]);
     Ok VUnit; Err NotEnoughBytes].
Proof. vm_compute. reflexivity. Qed.

(** Reading a value back: the queue holds its bytes first. *)
Lemma sb_read_be_head s ts conv v rest :
  sb_wf s -> in_u (8 * Z.of_nat ts) v -> bq_bytes (sb_abs s) = be_bytes ts v ++ rest ->
  exists s', sb_read_be ts conv s = (s', Ok (conv v)) /\ sb_wf s' /\ bq_bytes (sb_abs s') = rest /\
    sb_rewind_rp ts s' = (s, Ok tt).
Proof.
  intros Hwf Hv Hq.
  assert (Hlen : (ts <= sb_len s)%nat) by (rewrite <- sb_abs_length, Hq, length_app, be_bytes_length by done; lia).
  destruct (sb_take_spec s ts Hwf Hlen) as (Hs & Ha & Hwf').
  unfold sb_read_be, sb_bind, sb_get. cbn [id]. rewrite (proj2 (Nat.ltb_ge _ _)) by done.
  unfold sb_lift. rewrite Hs, Hq, take_app_length' by (by rewrite be_bytes_length).
  eexists. split; [unfold sb_modify, sb_ret; by rewrite of_be_bytes_round|]. split; [done|]. split.
  - rewrite Ha. cbn [bq_bytes]. by rewrite Hq, drop_app_length' by (by rewrite be_bytes_length).
  - unfold sb_rewind_rp, sb_bind, sb_get. cbn [id sb_rp]. rewrite (proj2 (Nat.ltb_ge _ _)) by lia.
    unfold sb_modify. cbn [sb_buf sb_wp sb_rp]. rewrite Nat.add_sub. by destruct s.
Qed.

(** Integers survive the buffer at each width: a value put into an empty
    buffer with room for it is what the reader of that width returns, signed
    values in two's complement, and stepping back over it restores the state
    before the read. *)
Theorem sb_put_read_round s w ts v (Hts : w = 8 * Z.of_nat ts) :
  sb_wf s -> sb_len s = O -> (ts <= sb_cap s)%nat -> (0 < ts)%nat ->
  exists s1, sb_put_slice (be_bytes ts (wrap w v)) s = (s1, Ok tt) /\
    (in_u w v -> exists s2, sb_read_be ts id s1 = (s2, Ok v) /\ sb_len s2 = O /\ sb_rewind_rp ts s2 = (s1, Ok tt)) /\
    (in_i w v -> exists s2, sb_read_be ts (to_signed w) s1 = (s2, Ok v) /\ sb_len s2 = O /\ sb_rewind_rp ts s2 = (s1, Ok tt)).
Proof.
  intros Hwf Hl Hc Hpos. subst w.
  pose proof (sb_refines_put s ts (be_bytes ts (wrap (8 * Z.of_nat ts) v)) Hwf (be_bytes_length _ _)) as Hp.
  unfold sb_fmap, sb_bind, bq_put in Hp.
  rewrite sb_abs_length, Hl in Hp by done. change (bq_cap (sb_abs s)) with (sb_cap s) in Hp.
  rewrite (proj2 (Nat.ltb_ge _ _)) in Hp by lia.
  destruct (sb_put_slice _ s) as [s1 r]. destruct r as [[]| |]; cbn [sb_ret] in Hp; destruct Hp as (Hr & Ha & Hwf1); try done.
  assert (Hq : bq_bytes (sb_abs s1) = be_bytes ts (wrap (8 * Z.of_nat ts) v) ++ []).
  { rewrite Ha. cbn [bq_bytes]. rewrite app_nil_r. destruct (bq_bytes (sb_abs s)) eqn:He; [done|].
    apply (f_equal length) in He. rewrite sb_abs_length in He by done. cbn [length] in He. lia. }
  assert (Hw : in_u (8 * Z.of_nat ts) (wrap (8 * Z.of_nat ts) v)) by (apply wrap_bound; lia).
  exists s1. split; [done|].
  split; intros Hv;
    (edestruct (sb_read_be_head s1 ts) as (s2 & Hrd & Hwf2 & Hq2 & Hback); [done|exact Hw|exact Hq|]);
    exists s2; rewrite Hrd; (split; [|split; [by rewrite <- sb_abs_length, Hq2 | done]]); do 2 f_equal.
  - by apply wrap_small.
  - by apply to_signed_of_wrap; [lia|].
Qed.

Lemma sb_put_read_round_witness :
  exists s1 s2, sb_put_slice (be_bytes 4 (wrap 32 (-5))) (sb_new 6) = (s1, Ok tt) /\
    sb_read_i32_be s1 = (s2, Ok (-5)) /\ sb_rewind_rp 4 s2 = (s1, Ok tt).
Proof.
  destruct (sb_put_read_round (sb_new 6) 32 4 (-5)) as (s1 & Hp & _ & Hi);
    [reflexivity | unfold sb_wf; vm_compute; lia | reflexivity | vm_compute; lia | lia |].
  destruct Hi as (s2 & Hr & _ & Hb); [unfold in_i; lia|]. exists s1, s2. auto.
Defined.
