(* ===== verification/ByteBuf.v ===== *)
(** * The byte buffer of the protocol crates

    [daqbuf-ca-proto] and [daqbuf-ingest-bsread] use the crate [slidebuf], which
    is not part of the repository. [NetBuf] is what they use of it and
    [NetBufLaws] what they rely on: a queue of bytes with a capacity, filled
    through a writable area. The buffer of [daqbuf-streams], which has the same
    interface, satisfies the laws ([SlideBuf_laws]). *)
From Stdlib Require Import ZArith Lia.
From stdpp Require Import base numbers option strings list.
From S2P Require Import Prelude SlideBuf.

#[local] Open Scope Z_scope.
#[local] Open Scope rust_scope.

Class NetBuf : Type := {
  nb : Type;
  nb_error : Type;
  nb_new : nat -> nb;
  nb_data : nb -> list Z;
  nb_cap : nb -> nat;
  nb_adv : nat -> nb -> nb * outcome nb_error unit;
  nb_read_bytes : nat -> nb -> nb * outcome nb_error (list Z);
  nb_read_u16_be : nb -> nb * outcome nb_error Z;
  nb_read_u32_be : nb -> nb * outcome nb_error Z;
  nb_available_writable_area : nat -> nb -> nb * outcome nb_error (list Z);
  nb_fill_area : list Z -> nb -> nb;
  nb_wadv : nat -> nb -> nb * outcome nb_error unit
}.

(** A method that may fail: the buffer is changed in any case. *)
Definition nb_bind `{NetBuf} {A B} (m : nb -> nb * outcome nb_error A) (k : A -> nb -> nb * outcome nb_error B) (b : nb) :
    nb * outcome nb_error B :=
  match m b with
  | (b, Ok a) => k a b
  | (b, Err e) => (b, Err e)
  | (b, Panic) => (b, Panic)
  end.

Notation "'let*' x ':=' m 'in' k" := (nb_bind m (fun x => k))
  (at level 10, x pattern, m at level 200, k at level 200) : rust_scope.

Definition nb_len `{NetBuf} (b : nb) : nat := length (nb_data b).

(** An operation on the buffer succeeds with a value and leaves these bytes. *)
Definition nb_yields `{NetBuf} {A} (wf : nb -> Prop) (b : nb) (r : nb * outcome nb_error A) (a : A) (rest : list Z) : Prop :=
  exists b', r = (b', Ok a) /\ wf b' /\ nb_data b' = rest /\ nb_cap b' = nb_cap b.

Class NetBufLaws `{NetBuf} : Type := {
  nb_wf : nb -> Prop;
  nb_new_spec cap : nb_wf (nb_new cap) /\ nb_data (nb_new cap) = [] /\ nb_cap (nb_new cap) = cap;
  nb_adv_spec b n : nb_wf b -> (n <= nb_len b)%nat ->
    nb_yields nb_wf b (nb_adv n b) tt (drop n (nb_data b));
  nb_read_bytes_spec b n : nb_wf b -> (n <= nb_len b)%nat ->
    nb_yields nb_wf b (nb_read_bytes n b) (take n (nb_data b)) (drop n (nb_data b));
  nb_read_u16_spec b : nb_wf b -> (2 <= nb_len b)%nat ->
    nb_yields nb_wf b (nb_read_u16_be b) (of_be_bytes (take 2 (nb_data b))) (drop 2 (nb_data b));
  nb_read_u32_spec b : nb_wf b -> (4 <= nb_len b)%nat ->
    nb_yields nb_wf b (nb_read_u32_be b) (of_be_bytes (take 4 (nb_data b))) (drop 4 (nb_data b));
  nb_area_no_panic b need b' : nb_wf b -> nb_available_writable_area need b <> (b', Panic);
  nb_area_enough b need : nb_wf b -> (nb_len b + need <= nb_cap b)%nat ->
    exists b' area, nb_available_writable_area need b = (b', Ok area);
  nb_area_err b need b' e : nb_wf b -> nb_available_writable_area need b = (b', Err e) ->
    nb_wf b' /\ nb_data b' = nb_data b /\ nb_cap b' = nb_cap b;
  nb_area_spec b need b' area : nb_wf b -> nb_available_writable_area need b = (b', Ok area) ->
    nb_wf b' /\ nb_data b' = nb_data b /\ nb_cap b' = nb_cap b /\
    (need <= length area)%nat /\ (nb_len b + length area <= nb_cap b)%nat /\
    (forall x, (length x <= length area)%nat ->
      nb_yields nb_wf b (nb_wadv (length x) (nb_fill_area x b')) tt (nb_data b ++ x))
}.

(** ** The buffer of [daqbuf-streams] *)

#[export] Instance SlideBuf_netbuf : NetBuf := {|
  nb := SlideBuf;
  nb_error := sb_error;
  nb_new := sb_new;
  nb_data := fun b => bq_bytes (sb_abs b);
  nb_cap := sb_cap;
  nb_adv := sb_adv;
  nb_read_bytes := sb_read_bytes;
  nb_read_u16_be := sb_read_u16_be;
  nb_read_u32_be := sb_read_u32_be;
  nb_available_writable_area := sb_available_writable_area;
  nb_fill_area := fun x b => (sb_fill_area x b).1;
  nb_wadv := sb_wadv
|}.

Lemma sb_yields_take (op : sb_op) b n {A} (m : SB A) (f : A -> sb_val) (g : list Z -> sb_val) (a : A) :
  sb_wf b -> sb_run op = sb_fmap f m -> (forall q, bq_run op q = bq_take n g q) ->
  (n <= length (bq_bytes (sb_abs b)))%nat ->
  (forall a', f a' = g (take n (bq_bytes (sb_abs b))) -> a' = a) ->
  nb_yields sb_wf b (m b) a (drop n (bq_bytes (sb_abs b))).
Proof.
  intros Hwf Hm Hq Hn Ha. pose proof (sb_step_refines op b Hwf) as Hs. unfold sb_sim in Hs.
  rewrite Hm, Hq in Hs. unfold bq_take in Hs. rewrite (proj2 (Nat.ltb_ge _ _)) in Hs by done.
  unfold sb_fmap, sb_bind in Hs. destruct (m b) as [b' [a'|e|]]; try (by destruct Hs).
  destruct Hs as ([= Hf] & Habs & Hwf'). exists b'. rewrite (Ha a' Hf).
  split; [done|]. split; [done|]. cbn [nb_data nb_cap SlideBuf_netbuf]. rewrite Habs.
  split; [done|]. by apply (f_equal bq_cap) in Habs.
Qed.

Lemma sb_area_ok b need :
  sb_wf b ->
  let '(b', r) := sb_available_writable_area need b in
  sb_wf b' /\ sb_abs b' = sb_abs b /\
  (if (sb_cap b - sb_len b <? need)%nat then exists e, r = Err e
   else (sb_wp b' + need <= length (sb_buf b'))%nat /\ r = Ok (drop (sb_wp b') (sb_buf b'))).
Proof.
  intros Hwf. unfold sb_available_writable_area, sb_bind, sb_get, sb_lift. cbn [id].
  destruct (sb_make_room_spec need b Hwf) as (b' & r & -> & Hwf' & Ha & Hr). cbv zeta in Hr.
  destruct (sb_cap b - sb_len b <? need)%nat.
  - subst r. eauto.
  - destruct Hr as [-> Hsp]. rewrite slice_ok by (unfold sb_wf in *; lia). cbn [id].
    split; [done|]. split; [done|]. split; [done|]. f_equal. apply take_ge. rewrite length_drop. lia.
Qed.

Lemma sb_fill_wadv b x :
  sb_wf b -> (sb_wp b + length x <= length (sb_buf b))%nat ->
  exists b', sb_wadv (length x) (sb_fill_area x b).1 = (b', Ok tt) /\ sb_wf b' /\
    bq_bytes (sb_abs b') = bq_bytes (sb_abs b) ++ x /\ sb_cap b' = sb_cap b.
Proof.
  intros Hwf Hsp. destruct (sb_abs_store b x Hwf Hsp) as (Hwf' & Ha & Hl).
  unfold sb_fill_area. rewrite bool_decide_true by done. cbn [fst].
  unfold sb_wadv, sb_bind, sb_get, sb_wcap, sb_ret, sb_modify. cbn [id sb_buf sb_wp sb_rp] in *.
  rewrite Hl, (proj2 (Nat.ltb_ge _ _)) by lia. cbn [sb_buf sb_wp sb_rp].
  rewrite Hl, (proj2 (Nat.ltb_ge _ _)) by lia.
  eexists. split; [reflexivity|]. split; [exact Hwf'|]. split; [exact (f_equal bq_bytes Ha)|exact Hl].
Qed.

#[export] Instance SlideBuf_laws : NetBufLaws.
Proof.
  refine {| nb_wf := sb_wf : nb -> Prop |}.
  - intros cap. split; [unfold sb_wf; simpl; lia|]. split; [done|]. apply length_replicate.
  - intros b n Hwf Hn. by apply (sb_yields_take (OpAdv n) b n _ (fun _ => VUnit) (fun _ => VUnit)); intros; destruct_and?; try destruct a'.
  - intros b n Hwf Hn. apply (sb_yields_take (OpReadBytes n) b n _ VBytes VBytes); try done. by intros a' [= ->].
  - intros b Hwf Hn. apply (sb_yields_take (OpReadBe 2) b 2 _ VInt (fun x => VInt (of_be_bytes x))); try done. by intros a' [= ->].
  - intros b Hwf Hn. apply (sb_yields_take (OpReadBe 4) b 4 _ VInt (fun x => VInt (of_be_bytes x))); try done. by intros a' [= ->].
  - intros b need b' Hwf Hp. pose proof (sb_area_ok b need Hwf) as Ha. cbn [nb_available_writable_area SlideBuf_netbuf] in Hp.
    rewrite Hp in Ha. destruct Ha as (_ & _ & Ha). destruct (_ <? _)%nat; [by destruct Ha|]. by destruct Ha.
  - intros b need Hwf Hn. pose proof (sb_area_ok b need Hwf) as Ha. cbn [nb_available_writable_area SlideBuf_netbuf].
    unfold nb_len in Hn. cbn [nb_data nb_cap SlideBuf_netbuf] in Hn. rewrite sb_abs_length in Hn by done.
    rewrite (proj2 (Nat.ltb_ge _ _)) in Ha by lia.
    destruct (sb_available_writable_area need b) as [b' r]. destruct Ha as (_ & _ & _ & ->). eauto.
  - intros b need b' e Hwf Hp. pose proof (sb_area_ok b need Hwf) as Ha. cbn [nb_available_writable_area SlideBuf_netbuf] in Hp.
    rewrite Hp in Ha. destruct Ha as (Hwf' & Habs & _). split; [done|]. cbn [nb_data nb_cap SlideBuf_netbuf].
    rewrite Habs. split; [done|]. by apply (f_equal bq_cap) in Habs.
  - intros b need b' area Hwf Hp. pose proof (sb_area_ok b need Hwf) as Ha. cbn [nb_available_writable_area SlideBuf_netbuf] in Hp.
    rewrite Hp in Ha. destruct Ha as (Hwf' & Habs & Ha). unfold nb_len. cbn [nb_data nb_cap SlideBuf_netbuf].
    assert (Hcap : sb_cap b' = sb_cap b) by (by apply (f_equal bq_cap) in Habs).
    destruct (_ <? _)%nat; [by destruct Ha|]. destruct Ha as (Hsp & [= ->]).
    split; [done|]. split; [by rewrite Habs|]. split; [done|]. rewrite length_drop. split; [lia|].
    rewrite <- Habs, sb_abs_length by done. unfold sb_wf, sb_cap, sb_len in *. split; [lia|].
    intros x Hx. destruct (sb_fill_wadv b' x) as (b2 & Hw & Hwf2 & Hd & Hc); [done|lia|].
    exists b2. split; [done|]. split; [done|]. split; [done|]. cbn [nb_cap SlideBuf_netbuf]. rewrite Hc. exact Hcap.
Qed.

(** ** Sequences of reads *)
Section Reads.
  Context `{NetBufLaws}.

Lemma nb_bind_yields {A B} (m : nb -> nb * outcome nb_error A) (k : A -> nb -> nb * outcome nb_error B) b a c rest rest' :
  nb_yields nb_wf b (m b) a rest ->
  (forall b', nb_wf b' -> nb_data b' = rest -> nb_yields nb_wf b' (k a b') c rest') ->
  nb_yields nb_wf b (nb_bind m k b) c rest'.
Proof.
  intros (b' & Hm & Hwf & Hd & Hc) Hk. destruct (Hk b' Hwf Hd) as (b2 & Hk2 & Hwf2 & Hd2 & Hc2).
  exists b2. unfold nb_bind. rewrite Hm. split; [done|]. split; [done|]. split; [done|congruence].
Qed.

Lemma nb_ret_yields {A} b (a : A) : nb_wf b -> nb_yields nb_wf b (b, Ok a) a (nb_data b).
Proof. intros Hwf. by exists b. Qed.

End Reads.
