(* ===== verification/Utf8.v ===== *)
(** * Strings as bytes

    A [String] of the program is the list of its bytes. What the code uses of
    the standard library on bytes that come from outside: the check for UTF-8,
    [from_utf8_lossy], C strings, and the [Debug] form of a slice of bytes. *)
From Stdlib Require Import ZArith Lia Ascii String.
From stdpp Require Import base numbers option strings list.
From S2P Require Import Prelude.

#[local] Open Scope Z_scope.
#[local] Open Scope rust_scope.

Definition bytes_of_string (s : string) : list Z :=
  map (fun c => Z.of_N (N_of_ascii c)) (list_ascii_of_string s).

(** The test [lo <= b <= hi] on the byte at [i], a missing byte being 0. *)
Definition byte_in (l : list Z) (i : nat) (lo hi : Z) : bool :=
  let b := default 0 (l !! i) in (lo <=? b) && (b <=? hi).

(** The first character of non-empty bytes: whether it is well formed, and the
    number of bytes it takes; of a malformed one, the bytes up to the one that
    breaks it. *)
Definition utf8_step (l : list Z) : bool * nat :=
  let b := default 0 (l !! 0%nat) in
  let tail1 := byte_in l 2 128 191 in
  let tail2 := byte_in l 3 128 191 in
  let three (ok : bool) := if ok then (if tail1 then (true, 3%nat) else (false, 2%nat)) else (false, 1%nat) in
  let four (ok : bool) :=
    if ok then (if tail1 then (if tail2 then (true, 4%nat) else (false, 3%nat)) else (false, 2%nat)) else (false, 1%nat) in
  if b <? 128 then (true, 1%nat)
  else if (194 <=? b) && (b <=? 223) then (if byte_in l 1 128 191 then (true, 2%nat) else (false, 1%nat))
  else if b =? 224 then three (byte_in l 1 160 191)
  else if ((225 <=? b) && (b <=? 236)) || ((238 <=? b) && (b <=? 239)) then three (byte_in l 1 128 191)
  else if b =? 237 then three (byte_in l 1 128 159)
  else if b =? 240 then four (byte_in l 1 144 191)
  else if (241 <=? b) && (b <=? 243) then four (byte_in l 1 128 191)
  else if b =? 244 then four (byte_in l 1 128 143)
  else (false, 1%nat).

(** Every step takes a byte: the number of bytes is enough fuel. *)
Fixpoint utf8_chars (fuel : nat) (l : list Z) : list (bool * list Z) :=
  match fuel, l with
  | S fuel, _ :: _ => let '(ok, n) := utf8_step l in (ok, take n l) :: utf8_chars fuel (drop n l)
  | _, _ => []
  end.

(** [str::from_utf8] accepts. *)
Definition utf8_valid (l : list Z) : bool := forallb fst (utf8_chars (length l) l).

(** [String::from_utf8_lossy]: U+FFFD in the place of what is malformed. *)
Definition from_utf8_lossy (l : list Z) : list Z :=
  concat (map (fun c : bool * list Z => if c.1 then c.2 else [239; 191; 189]) (utf8_chars (length l) l)).

(** [CStr::from_bytes_until_nul] and [to_str]. *)
Definition until_nul (l : list Z) : option (list Z) :=
  match position (fun c => c =? 0) l with Some i => Some (take i l) | None => None end.

Definition cstr_to_str (l : list Z) : option (list Z) :=
  s ← until_nul l; if utf8_valid s then Some s else None.

(** The [Debug] form of a [&[u8]]. *)
Fixpoint join_bytes (sep : list Z) (l : list (list Z)) : list Z :=
  match l with
  | [] => []
  | [x] => x
  | x :: l => x ++ sep ++ join_bytes sep l
  end.

Definition debug_bytes (l : list Z) : list Z :=
  bytes_of_string "[" ++ join_bytes (bytes_of_string ", ") (map (fun b => bytes_of_string (u32_to_string b)) l) ++
  bytes_of_string "]".

Lemma utf8_step_pos l : (1 <= (utf8_step l).2)%nat.
Proof. unfold utf8_step. repeat case_match; simpl; lia. Qed.

Lemma utf8_chars_concat fuel l : (length l <= fuel)%nat -> concat (map snd (utf8_chars fuel l)) = l.
Proof.
  revert l. induction fuel as [|fuel IH]; intros l Hf; [destruct l; [done|cbn [length] in Hf; lia]|].
  destruct l as [|b l]; [done|]. cbn [utf8_chars]. pose proof (utf8_step_pos (b :: l)) as Hp.
  destruct (utf8_step (b :: l)) as [ok n]. cbn [map concat snd] in *. rewrite IH; [by rewrite take_drop|].
  rewrite length_drop. simpl in *. lia.
Qed.

(** Well formed bytes pass unchanged. *)
Lemma from_utf8_lossy_valid l : utf8_valid l = true -> from_utf8_lossy l = l.
Proof.
  unfold utf8_valid, from_utf8_lossy. intros Hv. rewrite <- (utf8_chars_concat (length l) l) at 3 by done.
  f_equal. apply map_ext_in. intros c Hc. rewrite forallb_forall in Hv. by rewrite (Hv c Hc).
Qed.

Lemma utf8_valid_ascii l : Forall (fun b => 0 <= b < 128) l -> utf8_valid l = true.
Proof.
  intros Hl. unfold utf8_valid. remember (length l) as fuel eqn:Hf. assert (Hle : (length l <= fuel)%nat) by lia.
  clear Hf. revert l Hl Hle. induction fuel as [|fuel IH]; intros l Hl Hle; [done|].
  destruct Hl as [|b l Hb Hl]; [done|]. cbn [utf8_chars]. unfold utf8_step.
  change (default 0 ((b :: l) !! 0%nat)) with b. rewrite (proj2 (Z.ltb_lt _ _)) by lia. cbn [forallb fst]. cbn [length] in Hle.
  apply IH; [done|]. change (drop 1 (b :: l)) with l. lia.
Qed.

(** C strings: the bytes before the first zero, the rest of the field zero. *)
Lemma until_nul_padded s n :
  Forall (fun b => b <> 0) s -> (0 < n)%nat -> until_nul (s ++ replicate n 0) = Some s.
Proof.
  intros Hs Hn. unfold until_nul. destruct n as [|n]; [lia|]. cbn [replicate].
  rewrite position_app; [by rewrite take_app_length| |done].
  eapply Forall_impl; [exact Hs|]. intros b. apply Z.eqb_neq.
Qed.
