(* ===== verification/Items.v ===== *)
(** * Items of the data streams

    [RangeCompletableItem], [StreamItem], [Sitemty] and [LogItem] of
    [daqbuf-items-0/src/streamitem.rs]. The log and statistics payloads and the
    error type are parameters of the items: the streams only pass them on. What
    a log item becomes on the wire is in [Frame]. *)
From Stdlib Require Import ZArith Lia.
From stdpp Require Import base numbers option strings list.
From S2P Require Import Prelude.

#[local] Open Scope Z_scope.

Definition TERM_FRAME_TYPE_ID : Z := 0xaa0001.
Definition ERROR_FRAME_TYPE_ID : Z := 0xaa0002.
Definition SITEMTY_NONSPEC_FRAME_TYPE_ID : Z := 0xaa0004.
Definition EVENT_QUERY_JSON_STRING_FRAME : Z := 0x10000.
Definition LOG_FRAME_TYPE_ID : Z := 0xc0000.
Definition STATS_FRAME_TYPE_ID : Z := 0xd0000.
Definition RANGE_COMPLETE_FRAME_TYPE_ID : Z := 0xe0000.

Inductive RangeCompletableItem (T : Type) : Type :=
  | RangeComplete
  | Data (x : T).
Arguments RangeComplete {T}.
Arguments Data {T} x.

Inductive StreamItem (L S T : Type) : Type :=
  | DataItem (x : T)
  | Log (l : L)
  | Stats (s : S).
Arguments DataItem {L S T} x.
Arguments Log {L S T} l.
Arguments Stats {L S T} s.

(** [RangeFilterStats] of [netpod.rs]; the other payloads are parameters. *)
Record RangeFilterStats : Type := mkRangeFilterStats {
  recv_empty : Z;
  items_no_prune_high : Z;
  items_all_prune_high : Z;
  items_part_prune_high : Z;
  items_prune_low : Z
}.

Definition RangeFilterStats_new : RangeFilterStats := mkRangeFilterStats 0 0 0 0 0.

Inductive StatsItem (R D : Type) : Type :=
  | StatsEventDataRead (x : R)
  | StatsRangeFilter (x : RangeFilterStats)
  | StatsDisk (x : D)
  | StatsWarnings
  | StatsBinning.
Arguments StatsEventDataRead {R D} x.
Arguments StatsRangeFilter {R D} x.
Arguments StatsDisk {R D} x.
Arguments StatsWarnings {R D}.
Arguments StatsBinning {R D}.

(** [log::Level]. *)
Inductive Level : Type :=
  | Level_ERROR
  | Level_WARN
  | Level_INFO
  | Level_DEBUG
  | Level_TRACE.

#[export] Instance Level_eq_dec : EqDecision Level.
Proof. solve_decision. Defined.

(** [LogItem]; the time is in nanoseconds of the Unix epoch. *)
Record LogItem : Type := mkLogItem {
  li_ts : Z;
  li_origin : string;
  li_level : Level;
  li_msg : string
}.

(** The makers of a [LogItem], with the time of [UtcDateTime::now]. *)
Definition LogItem_from_node (now : Z) (level : Level) (msg : string) : LogItem := mkLogItem now EmptyString level msg.
Definition LogItem_level_msg (now : Z) (level : Level) (msg : string) : LogItem := mkLogItem now EmptyString level msg.
Definition LogItem_origin_level_msg (now : Z) (origin : string) (level : Level) (msg : string) : LogItem :=
  mkLogItem now origin level msg.
Definition LogItem_info (now : Z) (msg : string) : LogItem := mkLogItem now EmptyString Level_INFO msg.
Definition LogItem_debug (now : Z) (msg : string) : LogItem := mkLogItem now EmptyString Level_DEBUG msg.

(** [levelserde::serialize] and [visit_str] of its visitor. *)
Definition Level_to_str (t : Level) : string :=
  match t with
  | Level_ERROR => "ERROR"
  | Level_WARN => "WARN"
  | Level_INFO => "INFO"
  | Level_DEBUG => "DEBUG"
  | Level_TRACE => "TRACE"
  end.

Definition Level_visit_str (val : string) : option Level :=
  if String.eqb val "ERROR" then Some Level_ERROR
  else if String.eqb val "WARN" then Some Level_WARN
  else if String.eqb val "INFO" then Some Level_INFO
  else if String.eqb val "DEBUG" then Some Level_DEBUG
  else if String.eqb val "TRACE" then Some Level_TRACE
  else None.

Lemma Level_visit_str_round t : Level_visit_str (Level_to_str t) = Some t.
Proof. by destruct t. Qed.

(** [StreamItem::into_data]. *)
Definition StreamItem_into_data {L S T} (i : StreamItem L S T) : T + StreamItem L S T :=
  match i with
  | DataItem x => inl x
  | Log l => inr (Log l)
  | Stats s => inr (Stats s)
  end.

(** [Result<StreamItem<RangeCompletableItem<T>>, err::Error>]. *)
Inductive Sitemty (L S E T : Type) : Type :=
  | SOk (i : StreamItem L S (RangeCompletableItem T))
  | SErr (e : E).
Arguments SOk {L S E T} i.
Arguments SErr {L S E T} e.

(** [Poll]. *)
Inductive Poll (A : Type) : Type :=
  | Ready (a : A)
  | Pending.
Arguments Ready {A} a.
Arguments Pending {A}.
