(* ===== verification/Frame.v ===== *)
(** * Frames on the wire

    Making frames ([daqbuf-items-2/src/frame.rs], [framable.rs]), parsing one
    from a byte slice ([inmem.rs]), and decoding the item in it. A frame is a
    head of five little-endian [u32] (magic, encoder, type, payload length,
    payload checksum), the payload, and the checksum of all that.

    The checksum ([crc32fast]) and the encoders ([postcard], [serde_json]) are
    external: they are the operations of the class [FrameCodec], with what the
    code relies on in [FrameCodecLaws]. *)
From Stdlib Require Import ZArith Lia DecimalString DecimalN String.
From stdpp Require Import base numbers option strings list.
From S2P Require Import Prelude Items.

#[local] Open Scope Z_scope.
#[local] Open Scope rust_scope.

Definition INMEM_FRAME_ENCID : Z := 0x12121212.
Definition INMEM_FRAME_HEAD : Z := 20.
Definition INMEM_FRAME_FOOT : Z := 4.
Definition INMEM_FRAME_MAGIC : Z := 0xc6c3b73d.

(** What [derive(Serialize)] gives the encoder of a [LogItem]: four strings. *)
Record LogRepr : Type := mkLogRepr { lr_ts : string; lr_origin : string; lr_level : string; lr_msg : string }.

(** External operations: payload types of the items, the encoders, the
    checksum, and what the [time] crate makes of the format description
    [[year]-[month]-[day]T[hour]:[minute]:[second].[subsecond digits:6]] (the
    time in nanoseconds of the Unix epoch). [None] is an error of the encoder.
    [fc_data] stands for what the container's serialization keeps: its cached
    size estimate is not part of it. *)
Class FrameCodec : Type := {
  fc_data : Type;
  fc_err : Type;
  fc_stats : Type;
  fc_type_id : fc_data -> Z;
  fc_static_type_id : Z;
  fc_crc : list Z -> Z;
  fc_postcard_item_to_vec : Sitemty LogItem fc_stats fc_err fc_data -> option (list Z);
  fc_postcard_item_from_slice : list Z -> option (Sitemty LogItem fc_stats fc_err fc_data);
  fc_json_err_to_vec : fc_err -> option (list Z);
  fc_json_err_from_slice : list Z -> option fc_err;
  fc_ts_format : Z -> string;
  fc_ts_parse : string -> option Z;
  fc_postcard_log_to_vec : LogRepr -> option (list Z);
  fc_postcard_log_from_slice : list Z -> option LogRepr;
  fc_postcard_stats_to_vec : fc_stats -> option (list Z);
  fc_postcard_stats_from_slice : list Z -> option fc_stats
}.

Inductive frame_error : Type :=
  | TooLongPayload (n : Z)
  | UnknownEncoder (encid : Z)
  | BufferMismatch (len buflen tyid : Z)
  | TyIdMismatch (expected found : Z)
  | EncodeError
  | DecodeError.

Inductive inmem_error : Type :=
  | LessThanHeader
  | TryFromSlice
  | BadMagic (magic : Z)
  | HugeFrame (len : Z)
  | BadCrc.

Inductive ParseResult (T : Type) : Type :=
  | NotEnoughData (n : Z)
  | Parsed (lentot : Z) (x : T).
Arguments NotEnoughData {T} n.
Arguments Parsed {T} lentot x.

Record InMemoryFrame : Type := mkFrame { fr_encid : Z; fr_tyid : Z; fr_len : Z; fr_buf : list Z }.

Section Frame.
  Context `{FrameCodec}.

Definition FItem : Type := Sitemty LogItem fc_stats fc_err fc_data.

(** ** Log items *)

(** [timestamp::serialize], [levelserde::serialize] and the derived form. *)
Definition LogItem_serialize (self : LogItem) : LogRepr :=
  mkLogRepr (fc_ts_format (li_ts self)) (li_origin self) (Level_to_str (li_level self)) (li_msg self).

Definition LogItem_deserialize (r : LogRepr) : option LogItem :=
  ts ← fc_ts_parse (lr_ts r);
  level ← Level_visit_str (lr_level r);
  Some (mkLogItem ts (lr_origin r) level (lr_msg r)).

(** ** Making frames *)

(** The part the makers have in common: head, payload, and the two checksums. *)
Definition put_frame (fty : Z) (enc : list Z) : list Z :=
  let payload_crc := fc_crc enc in
  let buf := le_bytes 4 INMEM_FRAME_MAGIC ++ le_bytes 4 INMEM_FRAME_ENCID ++ le_bytes 4 fty ++
    le_bytes 4 (wrap 32 (Z.of_nat (length enc))) ++ le_bytes 4 payload_crc ++ enc in
  let frame_crc := fc_crc buf in
  buf ++ le_bytes 4 frame_crc.

Definition make_frame_2 (item : FItem) (fty : Z) : outcome frame_error (list Z) :=
  let? enc := ok_or (fc_postcard_item_to_vec item) EncodeError in
  if 2 ^ 32 - 1 <? Z.of_nat (length enc) then Err (TooLongPayload (Z.of_nat (length enc)))
  else Ok (put_frame fty enc).

Definition make_error_frame (error : fc_err) : outcome frame_error (list Z) :=
  let? enc := ok_or (fc_json_err_to_vec error) EncodeError in
  Ok (put_frame ERROR_FRAME_TYPE_ID enc).

Definition make_log_frame (item : LogItem) : outcome frame_error (list Z) :=
  let? enc := ok_or (fc_postcard_log_to_vec (LogItem_serialize item)) EncodeError in
  Ok (put_frame LOG_FRAME_TYPE_ID enc).

Definition make_stats_frame (item : fc_stats) : outcome frame_error (list Z) :=
  let? enc := ok_or (fc_postcard_stats_to_vec item) EncodeError in
  Ok (put_frame STATS_FRAME_TYPE_ID enc).

Definition make_range_complete_frame : outcome frame_error (list Z) :=
  Ok (put_frame RANGE_COMPLETE_FRAME_TYPE_ID []).

Definition make_term_frame : outcome frame_error (list Z) :=
  Ok (put_frame TERM_FRAME_TYPE_ID []).

Definition make_frame_dyn (self : FItem) : outcome frame_error (list Z) :=
  match self with
  | SOk (DataItem (Data k)) => make_frame_2 self (fc_type_id k)
  | SOk (DataItem RangeComplete) => make_range_complete_frame
  | SOk (Log item) => make_log_frame item
  | SOk (Stats item) => make_stats_frame item
  | SErr e => make_error_frame e
  end.

(** [impl FrameType for Sitemty<T>]. *)
Definition sitemty_frame_type_id (self : FItem) : Z :=
  match self with
  | SOk item =>
      match item with
      | DataItem item =>
          match item with
          | RangeComplete => SITEMTY_NONSPEC_FRAME_TYPE_ID
          | Data item => fc_type_id item
          end
      | Log _ => SITEMTY_NONSPEC_FRAME_TYPE_ID
      | Stats _ => SITEMTY_NONSPEC_FRAME_TYPE_ID
      end
  | SErr _ => ERROR_FRAME_TYPE_ID
  end.

(** [impl FrameDecodable for Sitemty<T>]. *)
Definition sitemty_from_error (e : fc_err) : FItem := SErr e.
Definition sitemty_from_log (item : LogItem) : FItem := SOk (Log item).
Definition sitemty_from_stats (item : fc_stats) : FItem := SOk (Stats item).
Definition sitemty_from_range_complete : FItem := SOk (DataItem RangeComplete).

(** ** Parsing *)

(** [u32::from_le_bytes(buf[a..b].try_into()?)] of four bytes. *)
Definition get_u32_le (buf : list Z) (a : nat) : outcome inmem_error Z :=
  let? s := slice buf a (a + 4) in Ok (of_le_bytes s).

Definition InMemoryFrame_parse (buf : list Z) : outcome inmem_error (ParseResult InMemoryFrame) :=
  if Z.of_nat (length buf) <? INMEM_FRAME_HEAD then Err LessThanHeader
  else
    let? magic := get_u32_le buf 0 in
    let? encid := get_u32_le buf 4 in
    let? tyid := get_u32_le buf 8 in
    let? len := get_u32_le buf 12 in
    let? payload_crc_exp := get_u32_le buf 16 in
    if negb (magic =? INMEM_FRAME_MAGIC) then Err (BadMagic magic)
    else if 1024 * 1024 * 50 <? len then Err (HugeFrame len)
    else
      let lentot := INMEM_FRAME_HEAD + INMEM_FRAME_FOOT + len in
      if Z.of_nat (length buf) <? lentot then Ok (NotEnoughData lentot)
      else
        let p1 := Z.to_nat (INMEM_FRAME_HEAD + len) in
        let? framed := slice buf 0 p1 in
        let frame_crc := fc_crc framed in
        let? payload := slice buf (Z.to_nat INMEM_FRAME_HEAD) p1 in
        let payload_crc := fc_crc payload in
        let? frame_crc_ind := get_u32_le buf p1 in
        let payload_crc_match := payload_crc_exp =? payload_crc in
        let frame_crc_match := frame_crc_ind =? frame_crc in
        if negb frame_crc_match || negb payload_crc_match then Err BadCrc
        else Ok (Parsed lentot (mkFrame encid tyid len payload)).

(** ** Decoding *)

Definition decode_frame (frame : InMemoryFrame) : outcome frame_error FItem :=
  if negb (fr_encid frame =? INMEM_FRAME_ENCID) then Err (UnknownEncoder (fr_encid frame))
  else if negb (fr_len frame =? Z.of_nat (length (fr_buf frame))) then
    Err (BufferMismatch (fr_len frame) (Z.of_nat (length (fr_buf frame))) (fr_tyid frame))
  else if fr_tyid frame =? ERROR_FRAME_TYPE_ID then
    let? k := ok_or (fc_json_err_from_slice (fr_buf frame)) DecodeError in
    Ok (sitemty_from_error k)
  else if fr_tyid frame =? LOG_FRAME_TYPE_ID then
    let? k := ok_or (fc_postcard_log_from_slice (fr_buf frame) ≫= LogItem_deserialize) DecodeError in
    Ok (sitemty_from_log k)
  else if fr_tyid frame =? STATS_FRAME_TYPE_ID then
    let? k := ok_or (fc_postcard_stats_from_slice (fr_buf frame)) DecodeError in
    Ok (sitemty_from_stats k)
  else if fr_tyid frame =? RANGE_COMPLETE_FRAME_TYPE_ID then
    Ok sitemty_from_range_complete
  else
    let tyid := fc_static_type_id in
    if negb (fr_tyid frame =? tyid) then Err (TyIdMismatch tyid (fr_tyid frame))
    else ok_or (fc_postcard_item_from_slice (fr_buf frame)) DecodeError.

End Frame.

(** ** What the code relies on *)

(** The times the format holds in four digits of the year: 1970 to 9999. *)
Definition utc_ts (t : Z) : Prop := 0 <= t < 253402300800 * 10 ^ 9.

(** Six digits of a second: microseconds. *)
Definition ts_micros (t : Z) : Z := t - t mod 1000.

(** The encoders are lossless on what they are given, but the format of a time
    has no place for the digits below a microsecond. *)
Class FrameCodecLaws `{FrameCodec} : Prop := {
  fc_crc_u32 (l : list Z) : is_u32 (fc_crc l);
  fc_type_id_static (k : fc_data) : fc_type_id k = fc_static_type_id;
  fc_type_id_u32 : is_u32 fc_static_type_id;
  fc_type_id_own :
    fc_static_type_id <> ERROR_FRAME_TYPE_ID /\ fc_static_type_id <> LOG_FRAME_TYPE_ID /\
    fc_static_type_id <> STATS_FRAME_TYPE_ID /\ fc_static_type_id <> RANGE_COMPLETE_FRAME_TYPE_ID;
  fc_item_round k l :
    fc_postcard_item_to_vec (SOk (DataItem (Data k))) = Some l ->
    fc_postcard_item_from_slice l = Some (SOk (DataItem (Data k)));
  fc_ts_digits t : utc_ts t -> fc_ts_format t = fc_ts_format (ts_micros t);
  fc_ts_round t : utc_ts t -> t mod 1000 = 0 -> fc_ts_parse (fc_ts_format t) = Some t;
  fc_err_round i l : fc_json_err_to_vec i = Some l -> fc_json_err_from_slice l = Some i;
  fc_log_round i l : fc_postcard_log_to_vec i = Some l -> fc_postcard_log_from_slice l = Some i;
  fc_stats_round i l : fc_postcard_stats_to_vec i = Some l -> fc_postcard_stats_from_slice l = Some i
}.

Section FrameProofs.
  Context `{FrameCodecLaws}.

Lemma ts_micros_round t : utc_ts t -> fc_ts_parse (fc_ts_format t) = Some (ts_micros t).
Proof.
  intros Ht. rewrite (fc_ts_digits _ Ht). pose proof (Z.mod_pos_bound t 1000 ltac:(lia)) as Hm.
  pose proof (Z.div_mod t 1000 ltac:(lia)) as Hd. unfold utc_ts, ts_micros in *.
  assert (0 <= t / 1000) by (apply Z.div_pos; lia).
  apply fc_ts_round; [unfold utc_ts; lia|].
  replace (t - t mod 1000) with (t / 1000 * 1000) by lia. apply Z.mod_mul. lia.
Qed.

(** A log item as it arrives: its time without the digits below a microsecond. *)
Definition log_on_wire (l : LogItem) : LogItem :=
  mkLogItem (ts_micros (li_ts l)) (li_origin l) (li_level l) (li_msg l).

Definition item_on_wire (item : FItem) : FItem :=
  match item with
  | SOk (Log l) => SOk (Log (log_on_wire l))
  | _ => item
  end.

Definition item_ts_ok (item : FItem) : Prop :=
  match item with
  | SOk (Log l) => utc_ts (li_ts l)
  | _ => True
  end.

Lemma LogItem_round l : utc_ts (li_ts l) -> LogItem_deserialize (LogItem_serialize l) = Some (log_on_wire l).
Proof.
  intros Ht. unfold LogItem_deserialize, LogItem_serialize. cbn [lr_ts lr_level lr_origin lr_msg].
  rewrite ts_micros_round, Level_visit_str_round by done. done.
Qed.

(** What precedes the last checksum of a frame, with any encoder and checksum in
    its head. *)
Definition frame_fields (encid fty crc : Z) (enc : list Z) : list Z :=
  le_bytes 4 INMEM_FRAME_MAGIC ++ le_bytes 4 encid ++ le_bytes 4 fty ++
  le_bytes 4 (wrap 32 (Z.of_nat (length enc))) ++ le_bytes 4 crc ++ enc.

(** The head of a frame. *)
Definition frame_head (fty : Z) (enc : list Z) : list Z :=
  le_bytes 4 INMEM_FRAME_MAGIC ++ le_bytes 4 INMEM_FRAME_ENCID ++ le_bytes 4 fty ++
  le_bytes 4 (wrap 32 (Z.of_nat (length enc))) ++ le_bytes 4 (fc_crc enc).

Lemma put_frame_eq fty enc :
  put_frame fty enc = frame_head fty enc ++ enc ++ le_bytes 4 (fc_crc (frame_head fty enc ++ enc)).
Proof. unfold put_frame, frame_head. by rewrite <- !app_assoc. Qed.

Lemma frame_head_length fty enc : length (frame_head fty enc) = 20%nat.
Proof. reflexivity. Qed.

Lemma put_frame_length fty enc : Z.of_nat (length (put_frame fty enc)) = 24 + Z.of_nat (length enc).
Proof. rewrite put_frame_eq, !length_app, frame_head_length, le_bytes_length. lia. Qed.

Lemma get_u32_le_at l1 v l2 a :
  a = length l1 -> is_u32 v -> get_u32_le (l1 ++ le_bytes 4 v ++ l2) a = Ok v.
Proof.
  intros -> Hv. unfold get_u32_le. rewrite (slice_mid l1 (le_bytes 4 v) l2) by (rewrite ?le_bytes_length; done).
  cbn [and_then]. by rewrite of_le_bytes_round.
Qed.

(** The five fields of a buffer that starts with a frame's head. *)
Lemma frame_head_fields fty enc rest :
  is_u32 fty -> Z.of_nat (length enc) < 2 ^ 32 ->
  let buf := frame_head fty enc ++ rest in
  get_u32_le buf 0 = Ok INMEM_FRAME_MAGIC /\ get_u32_le buf 4 = Ok INMEM_FRAME_ENCID /\
  get_u32_le buf 8 = Ok fty /\ get_u32_le buf 12 = Ok (Z.of_nat (length enc)) /\
  get_u32_le buf 16 = Ok (fc_crc enc).
Proof.
  intros Hf Hl buf. subst buf. unfold frame_head. rewrite <- !app_assoc.
  rewrite wrap_small by (unfold in_u; lia).
  assert (Hm : is_u32 INMEM_FRAME_MAGIC) by done. assert (He : is_u32 INMEM_FRAME_ENCID) by done.
  assert (Hn : is_u32 (Z.of_nat (length enc))) by (unfold in_u; lia). assert (Hc := fc_crc_u32 enc).
  generalize INMEM_FRAME_MAGIC INMEM_FRAME_ENCID Hm He (Z.of_nat (length enc)) Hn (fc_crc enc) Hc.
  clear -Hf. intros m e Hm He n Hn c Hc.
  split; [by apply (get_u32_le_at [] m)|]. split; [by apply (get_u32_le_at _ e)|].
  split; [rewrite (app_assoc (le_bytes 4 m)); by apply (get_u32_le_at _ fty)|].
  split; [rewrite (app_assoc (le_bytes 4 m)), (app_assoc (_ ++ _)); by apply (get_u32_le_at _ n)|].
  rewrite (app_assoc (le_bytes 4 m)), (app_assoc (_ ++ _)), (app_assoc (_ ++ _)). by apply (get_u32_le_at _ c).
Qed.

(** Parsing the bytes of a frame with anything behind it gives the frame. *)
Lemma parse_put_frame fty enc rest :
  is_u32 fty -> Z.of_nat (length enc) <= 1024 * 1024 * 50 ->
  InMemoryFrame_parse (put_frame fty enc ++ rest) =
    Ok (Parsed (24 + Z.of_nat (length enc)) (mkFrame INMEM_FRAME_ENCID fty (Z.of_nat (length enc)) enc)).
Proof.
  intros Hf Hl. unfold InMemoryFrame_parse.
  rewrite length_app. pose proof (put_frame_length fty enc) as Hlen.
  rewrite (proj2 (Z.ltb_ge _ INMEM_FRAME_HEAD)) by (unfold INMEM_FRAME_HEAD; lia).
  rewrite put_frame_eq in *. rewrite <- !app_assoc in *.
  destruct (frame_head_fields fty enc (enc ++ le_bytes 4 (fc_crc (frame_head fty enc ++ enc)) ++ rest) Hf ltac:(lia))
    as (-> & -> & -> & -> & ->). cbn [and_then].
  rewrite Z.eqb_refl. cbn [negb]. rewrite (proj2 (Z.ltb_ge _ _)) by lia.
  unfold INMEM_FRAME_HEAD, INMEM_FRAME_FOOT.
  rewrite (proj2 (Z.ltb_ge _ _)) by lia.
  replace (Z.to_nat (20 + Z.of_nat (length enc))) with (20 + length enc)%nat by lia. change (Z.to_nat 20) with 20%nat.
  rewrite (app_assoc _ enc).
  rewrite (slice_prefix (frame_head fty enc ++ enc)) by (by rewrite length_app). cbn [and_then].
  rewrite <- (app_assoc _ enc). rewrite (slice_mid (frame_head fty enc) enc) by done. cbn [and_then].
  rewrite (app_assoc _ enc). rewrite get_u32_le_at by (apply fc_crc_u32 || by rewrite length_app). cbn [and_then].
  rewrite !Z.eqb_refl. done.
Qed.

(** A buffer that holds only a part of a frame, but the whole head, asks for
    exactly the bytes of the frame; one too small for the head is refused. *)
Lemma parse_put_frame_prefix fty enc buf rest :
  is_u32 fty -> Z.of_nat (length enc) <= 1024 * 1024 * 50 ->
  put_frame fty enc = buf ++ rest -> rest <> [] ->
  InMemoryFrame_parse buf =
    if (length buf <? 20)%nat then Err LessThanHeader else Ok (NotEnoughData (24 + Z.of_nat (length enc))).
Proof.
  intros Hf Hl Heq Hrest. unfold InMemoryFrame_parse.
  pose proof (put_frame_length fty enc) as Hlen. rewrite Heq, length_app in Hlen.
  assert (0 < length rest)%nat by (destruct rest; simpl; [done|lia]).
  unfold INMEM_FRAME_HEAD, INMEM_FRAME_FOOT.
  destruct (Nat.ltb_spec (length buf) 20); [by rewrite (proj2 (Z.ltb_lt _ _)) by lia|].
  rewrite (proj2 (Z.ltb_ge _ 20)) by lia.
  assert (Hb : exists t, buf = frame_head fty enc ++ t).
  { exists (drop 20 buf). rewrite put_frame_eq in Heq. apply (f_equal (take 20)) in Heq.
    rewrite take_app_length' in Heq by done. rewrite Heq, take_app_le by lia. by rewrite take_drop. }
  destruct Hb as [t ->].
  destruct (frame_head_fields fty enc t Hf ltac:(lia)) as (-> & -> & -> & -> & ->). cbn [and_then].
  rewrite Z.eqb_refl. cbn [negb]. rewrite (proj2 (Z.ltb_ge _ _)) by lia.
  by rewrite (proj2 (Z.ltb_lt _ _)) by lia.
Qed.

End FrameProofs.

Section FrameTheorems.
  Context `{FrameCodecLaws}.

Lemma make_frame_dyn_view item bytes :
  item_ts_ok item -> make_frame_dyn item = Ok bytes ->
  exists fty enc, bytes = put_frame fty enc /\ is_u32 fty /\
    (Z.of_nat (length enc) < 2 ^ 32 ->
     decode_frame (mkFrame INMEM_FRAME_ENCID fty (Z.of_nat (length enc)) enc) = Ok (item_on_wire item)).
Proof.
  intros Hts Hm. unfold decode_frame. cbn [fr_encid fr_tyid fr_len fr_buf].
  destruct item as [[[|k]|l|s]|e]; simpl in Hm.
  - injection Hm as <-. exists RANGE_COMPLETE_FRAME_TYPE_ID, []. done.
  - unfold make_frame_2 in Hm. destruct (fc_postcard_item_to_vec _) as [enc|] eqn:He; [|done]. simpl in Hm.
    destruct (2 ^ 32 - 1 <? _); [done|]. injection Hm as <-. exists (fc_type_id k), enc.
    rewrite fc_type_id_static. split; [done|]. split; [apply fc_type_id_u32|]. intros _.
    rewrite !Z.eqb_refl. cbn [negb].
    destruct fc_type_id_own as (H1 & H2 & H3 & H4).
    rewrite (proj2 (Z.eqb_neq _ _) H1), (proj2 (Z.eqb_neq _ _) H2), (proj2 (Z.eqb_neq _ _) H3), (proj2 (Z.eqb_neq _ _) H4).
    by rewrite (fc_item_round _ _ He).
  - unfold make_log_frame in Hm. destruct (fc_postcard_log_to_vec _) as [enc|] eqn:He; [|done].
    injection Hm as <-. eexists _, enc. split; [done|]. split; [done|]. intros _.
    rewrite !Z.eqb_refl. simpl. rewrite (fc_log_round _ _ He). cbn [mbind option_bind].
    by rewrite LogItem_round.
  - unfold make_stats_frame in Hm. destruct (fc_postcard_stats_to_vec s) as [enc|] eqn:He; [|done].
    injection Hm as <-. eexists _, enc. split; [done|]. split; [done|]. intros _.
    rewrite !Z.eqb_refl. simpl. by rewrite (fc_stats_round _ _ He).
  - unfold make_error_frame in Hm. destruct (fc_json_err_to_vec e) as [enc|] eqn:He; [|done].
    injection Hm as <-. eexists _, enc. split; [done|]. split; [done|]. intros _.
    rewrite !Z.eqb_refl. simpl. by rewrite (fc_err_round _ _ He).
Qed.

(** C18. An item of any kind (data, end of range, log, statistics, error) survives
    the wire: the frame made of it, with anything behind it, parses as one frame
    of exactly its bytes, and that frame decodes to the item; of the time of a
    log item (between 1970 and 9999) the digits below a microsecond are lost,
    and nothing else. A frame beyond the 50 MB limit is refused by the parser. *)
Theorem frame_item_round item bytes rest :
  item_ts_ok item -> make_frame_dyn item = Ok bytes ->
  (Z.of_nat (length bytes) <= 24 + 1024 * 1024 * 50 ->
   exists fr, InMemoryFrame_parse (bytes ++ rest) = Ok (Parsed (Z.of_nat (length bytes)) fr) /\
     decode_frame fr = Ok (item_on_wire item)) /\
  (24 + 1024 * 1024 * 50 < Z.of_nat (length bytes) < 24 + 2 ^ 32 ->
   InMemoryFrame_parse (bytes ++ rest) = Err (HugeFrame (Z.of_nat (length bytes) - 24))).
Proof.
  intros Hts Hm. destruct (make_frame_dyn_view item bytes Hts Hm) as (fty & enc & -> & Hf & Hd).
  rewrite put_frame_length. split; intros Hl.
  - eexists. split; [apply parse_put_frame; [done|lia]|]. apply Hd. lia.
  - unfold InMemoryFrame_parse. rewrite length_app. pose proof (put_frame_length fty enc) as Hlen.
    rewrite (proj2 (Z.ltb_ge _ INMEM_FRAME_HEAD)) by (unfold INMEM_FRAME_HEAD; lia).
    rewrite put_frame_eq, <- !app_assoc.
    destruct (frame_head_fields fty enc (enc ++ le_bytes 4 (fc_crc (frame_head fty enc ++ enc)) ++ rest) Hf ltac:(lia))
      as (-> & -> & -> & -> & ->). cbn [and_then].
    rewrite Z.eqb_refl. cbn [negb]. rewrite (proj2 (Z.ltb_lt _ _)) by lia. do 2 f_equal. lia.
Qed.

Lemma get_u32_le_inv buf a :
  Forall is_u8 buf -> (a + 4 <= length buf)%nat ->
  exists v, get_u32_le buf a = Ok v /\ le_bytes 4 v = take 4 (drop a buf) /\ is_u32 v.
Proof.
  intros Hb Ha. unfold get_u32_le. rewrite slice_ok by lia. cbn [and_then].
  replace (a + 4 - a)%nat with 4%nat by lia.
  assert (Hl : length (take 4 (drop a buf)) = 4%nat) by (rewrite length_take, length_drop; lia).
  assert (Hf : Forall is_u8 (take 4 (drop a buf))) by (by apply Forall_take, Forall_drop).
  eexists. split; [done|]. split; [rewrite <- Hl at 1; by apply le_bytes_of_le_bytes|].
  pose proof (of_le_bytes_bound _ Hf) as Hbd. by rewrite Hl in Hbd.
Qed.

(** What a call of the parser on a byte slice means: the bytes that make it give
    each of its results. *)
Definition parse_ok (buf : list Z) : Prop :=
  match InMemoryFrame_parse buf with
  | Ok (Parsed n fr) =>
      n = 24 + fr_len fr /\ fr_len fr = Z.of_nat (length (fr_buf fr)) /\ fr_len fr <= 1024 * 1024 * 50 /\
      is_u32 (fr_encid fr) /\ is_u32 (fr_tyid fr) /\
      take (Z.to_nat n) buf =
        frame_fields (fr_encid fr) (fr_tyid fr) (fc_crc (fr_buf fr)) (fr_buf fr) ++
        le_bytes 4 (fc_crc (frame_fields (fr_encid fr) (fr_tyid fr) (fc_crc (fr_buf fr)) (fr_buf fr))) /\
      (fr_encid fr = INMEM_FRAME_ENCID -> take (Z.to_nat n) buf = put_frame (fr_tyid fr) (fr_buf fr))
  | Ok (NotEnoughData n) =>
      take 4 buf = le_bytes 4 INMEM_FRAME_MAGIC /\ take 4 (drop 12 buf) = le_bytes 4 (n - 24) /\
      20 <= Z.of_nat (length buf) < n /\ 0 <= n - 24 <= 1024 * 1024 * 50
  | Err LessThanHeader => (length buf < 20)%nat
  | Err (BadMagic m) => (20 <= length buf)%nat /\ m <> INMEM_FRAME_MAGIC /\ take 4 buf = le_bytes 4 m /\ is_u32 m
  | Err (HugeFrame l) =>
      take 4 buf = le_bytes 4 INMEM_FRAME_MAGIC /\ take 4 (drop 12 buf) = le_bytes 4 l /\
      1024 * 1024 * 50 < l < 2 ^ 32
  | Err BadCrc =>
      exists encid tyid crc payload fcrc rest,
        buf = frame_fields encid tyid crc payload ++ le_bytes 4 fcrc ++ rest /\
        Z.of_nat (length payload) <= 1024 * 1024 * 50 /\ is_u32 crc /\ is_u32 fcrc /\
        (crc <> fc_crc payload \/ fcrc <> fc_crc (frame_fields encid tyid crc payload))
  | Err TryFromSlice | Panic => False
  end.

(** C22. The parser never panics and accepts nothing but frames: whatever the
    bytes, what it takes for a frame is, byte for byte, the magic number, the
    encoder, the type, the length of the payload, the payload's checksum, the
    payload and the checksum of all that (so the frame that is made of its type
    and payload when the encoder is the known one). It asks for more data only
    behind a complete head with the right magic number, for exactly the bytes
    the length in the head asks for, and it reports a wrong checksum only when
    one of the two is wrong, a wrong magic number or a frame beyond 50 MB only
    where the bytes have it, and a short head only for fewer than 20 bytes. *)
Theorem parse_sound buf : Forall is_u8 buf -> parse_ok buf.
Proof.
  intros Hb. unfold parse_ok, InMemoryFrame_parse, INMEM_FRAME_HEAD, INMEM_FRAME_FOOT.
  destruct (Z.ltb_spec (Z.of_nat (length buf)) 20); [lia|].
  destruct (get_u32_le_inv buf 0 Hb) as (magic & -> & Hmagic & Hm32); [lia|].
  destruct (get_u32_le_inv buf 4 Hb) as (encid & -> & Hencid & He32); [lia|].
  destruct (get_u32_le_inv buf 8 Hb) as (tyid & -> & Htyid & Ht32); [lia|].
  destruct (get_u32_le_inv buf 12 Hb) as (len & -> & Hlen & Hlen32); [lia|].
  destruct (get_u32_le_inv buf 16 Hb) as (crc & -> & Hcrc & Hc32); [lia|].
  cbn [and_then]. rewrite drop_0 in Hmagic.
  destruct (Z.eqb_spec magic INMEM_FRAME_MAGIC) as [->|]; cbn [negb]; [|split; [lia|]; done].
  destruct (Z.ltb_spec (1024 * 1024 * 50) len); [unfold in_u in Hlen32; split; [done|]; split; [done|lia]|].
  unfold in_u in Hlen32.
  destruct (Z.ltb_spec (Z.of_nat (length buf)) (20 + 4 + len)).
  { replace (20 + 4 + len - 24) with len by lia. split; [done|]. split; [done|lia]. }
  rewrite !slice_ok by lia. cbn [and_then].
  destruct (get_u32_le_inv buf (Z.to_nat (20 + len)) Hb) as (fcrc & -> & Hfcrc & Hf32); [lia|]. cbn [and_then].
  rewrite drop_0, Nat.sub_0_r. change (Z.to_nat 20) with 20%nat.
  set (payload := take (Z.to_nat (20 + len) - 20) (drop 20 buf)).
  assert (Hpl : Z.of_nat (length payload) = len) by (unfold payload; rewrite length_take, length_drop; lia).
  assert (Hhead : take (Z.to_nat (20 + len)) buf = frame_fields encid tyid crc payload).
  { unfold frame_fields. rewrite Hpl, wrap_small by done. rewrite Hmagic, Hencid, Htyid, Hlen, Hcrc. unfold payload.
    rewrite !take_take_drop_app, take_take_drop. f_equal. lia. }
  assert (Hall : take (Z.to_nat (20 + 4 + len)) buf = frame_fields encid tyid crc payload ++ le_bytes 4 fcrc).
  { rewrite <- Hhead, Hfcrc, take_take_drop. f_equal. lia. }
  rewrite Hhead. destruct (Z.eqb_spec fcrc (fc_crc (frame_fields encid tyid crc payload))) as [->|Hne]; cbn [negb orb].
  - destruct (Z.eqb_spec crc (fc_crc payload)) as [->|Hne]; cbn [negb fr_len fr_buf fr_encid fr_tyid].
    + replace (24 + len) with (20 + 4 + len) by lia.
      repeat (split; [lia || done|]). intros ->. rewrite Hall, put_frame_eq. unfold frame_head, frame_fields.
      by rewrite <- !app_assoc.
    + eexists encid, tyid, crc, payload, _, _. split; [|split; [lia|]; split; [done|]; split; [done|by left]].
      rewrite app_assoc, <- Hall. symmetry. apply take_drop.
  - eexists encid, tyid, crc, payload, fcrc, _. split; [|split; [lia|]; split; [done|]; split; [done|by right]].
    rewrite app_assoc, <- Hall. symmetry. apply take_drop.
Qed.

End FrameTheorems.

(** ** An instance of the external operations

    A sum for a checksum, payloads that are their own encoding, strings with
    their length in front, and times as a decimal count of microseconds: the
    laws are satisfiable. *)
Definition toy_str (s : string) : option (list Z) :=
  let b := map (fun c => Z.of_nat (Ascii.nat_of_ascii c)) (list_ascii_of_string s) in
  if (length b <? 256)%nat then Some (Z.of_nat (length b) :: b) else None.

Definition toy_unstr (l : list Z) : option (string * list Z) :=
  match l with
  | [] => None
  | n :: l =>
      Some (string_of_list_ascii (map (fun z => Ascii.ascii_of_nat (Z.to_nat z)) (take (Z.to_nat n) l)), drop (Z.to_nat n) l)
  end.

Lemma toy_unstr_str s l rest : toy_str s = Some l -> toy_unstr (l ++ rest) = Some (s, rest).
Proof.
  unfold toy_str. case_match; [|done]. intros [= <-]. cbn [app toy_unstr]. rewrite Nat2Z.id.
  rewrite take_app_length, drop_app_length, map_map. do 3 f_equal.
  rewrite <- (string_of_list_ascii_of_string s) at 2. f_equal. rewrite <- (map_id (list_ascii_of_string s)) at 2.
  apply map_ext. intros c. by rewrite Nat2Z.id, Ascii.ascii_nat_embedding.
Qed.

Definition toy_log_to_vec (r : LogRepr) : option (list Z) :=
  a ← toy_str (lr_ts r); b ← toy_str (lr_origin r); c ← toy_str (lr_level r); d ← toy_str (lr_msg r);
  Some (a ++ b ++ c ++ d).

Definition toy_log_from_slice (l : list Z) : option LogRepr :=
  '(a, l) ← toy_unstr l; '(b, l) ← toy_unstr l; '(c, l) ← toy_unstr l; '(d, _) ← toy_unstr l;
  Some (mkLogRepr a b c d).

Lemma toy_log_round r l : toy_log_to_vec r = Some l -> toy_log_from_slice l = Some r.
Proof.
  destruct r as [a b c d]. unfold toy_log_to_vec, toy_log_from_slice. cbn [lr_ts lr_origin lr_level lr_msg].
  intros (? & Ha & (? & Hb & (? & Hc & (? & Hd & [= <-])%bind_Some)%bind_Some)%bind_Some)%bind_Some.
  rewrite (toy_unstr_str _ _ _ Ha). cbn [mbind option_bind]. rewrite (toy_unstr_str _ _ _ Hb). cbn [mbind option_bind].
  rewrite (toy_unstr_str _ _ _ Hc). cbn [mbind option_bind].
  pose proof (toy_unstr_str _ _ [] Hd) as E. rewrite app_nil_r in E. by rewrite E.
Qed.

Definition toy_ts_format (t : Z) : string := NilEmpty.string_of_uint (N.to_uint (Z.to_N (t / 1000))).

Definition toy_ts_parse (s : string) : option Z :=
  d ← NilEmpty.uint_of_string s; Some (Z.of_N (N.of_uint d) * 1000).

Lemma toy_ts_digits t : toy_ts_format t = toy_ts_format (ts_micros t).
Proof.
  unfold toy_ts_format, ts_micros. do 3 f_equal.
  pose proof (Z.div_mod t 1000 ltac:(lia)). replace (t - t mod 1000) with (t / 1000 * 1000) by lia.
  by rewrite Z.div_mul by lia.
Qed.

Lemma toy_ts_round t : utc_ts t -> t mod 1000 = 0 -> toy_ts_parse (toy_ts_format t) = Some t.
Proof.
  intros Ht Hm. unfold toy_ts_parse, toy_ts_format. rewrite NilEmpty.usu. cbn [mbind option_bind].
  rewrite Unsigned.of_to. unfold utc_ts in Ht. pose proof (Z.div_mod t 1000 ltac:(lia)).
  assert (0 <= t / 1000) by (apply Z.div_pos; lia). f_equal. lia.
Qed.

#[local] Instance toy_codec : FrameCodec := {|
  fc_data := list Z;
  fc_err := list Z;
  fc_stats := list Z;
  fc_type_id := fun _ => 0xc80000;
  fc_static_type_id := 0xc80000;
  fc_crc := fun l => wrap 32 (foldr Z.add 7 l);
  fc_postcard_item_to_vec := fun i => match i with SOk (DataItem (Data k)) => Some k | _ => None end;
  fc_postcard_item_from_slice := fun l => Some (SOk (DataItem (Data l)));
  fc_json_err_to_vec := Some;
  fc_json_err_from_slice := Some;
  fc_ts_format := toy_ts_format;
  fc_ts_parse := toy_ts_parse;
  fc_postcard_log_to_vec := toy_log_to_vec;
  fc_postcard_log_from_slice := toy_log_from_slice;
  fc_postcard_stats_to_vec := Some;
  fc_postcard_stats_from_slice := Some
|}.

#[local] Instance toy_codec_laws : FrameCodecLaws.
Proof.
  split; simpl; try done.
  - intros l. by apply wrap_bound.
  - by intros k l [= <-].
  - intros t _. apply toy_ts_digits.
  - apply toy_ts_round.
  - apply toy_log_round.
Qed.

(** A log item of 00:00:07.123456789 on the second day arrives at .123456. *)
Abbreviation log_example := (mkLogItem (86407 * 10 ^ 9 + 123456789) "node7" Level_WARN "slow read").

Lemma frame_item_round_witness :
  exists bytes fr, make_frame_dyn (H := toy_codec) (SOk (Log log_example)) = Ok bytes /\
    InMemoryFrame_parse (bytes ++ [9; 9]) = Ok (Parsed (Z.of_nat (length bytes)) fr) /\
    decode_frame fr = Ok (SOk (Log (mkLogItem (86407 * 10 ^ 9 + 123456000) "node7" Level_WARN "slow read"))).
Proof.
  destruct (make_frame_dyn (H := toy_codec) (SOk (Log log_example))) as [bytes| |] eqn:Hm;
    [|discriminate|discriminate].
  assert (Hts : utc_ts (86407 * 10 ^ 9 + 123456789)) by (split; vm_compute; [discriminate | reflexivity]).
  destruct (frame_item_round (H := toy_codec) (SOk (Log log_example)) bytes [9; 9] Hts Hm) as [Hr _].
  injection Hm as <-. destruct Hr as (fr & Hp & Hd); [vm_compute; discriminate|].
  eexists _, fr. split; [reflexivity|]. split; [exact Hp | exact Hd].
Defined.

Lemma parse_sound_witness : parse_ok (H := toy_codec) (put_frame (H := toy_codec) 0xc0000 [1; 2; 3] ++ [77]).
Proof. apply (parse_sound (H := toy_codec)). by apply (bool_decide_unpack _). Defined.
