(* ===== verification/FrameStream.v ===== *)
(** * Frames out of a byte stream

    [InMemoryFrameStream] of [daqbuf-streams/src/frames/inmem.rs]: chunks of
    bytes go into a [SlideBuf], frames come out. The upstream is the list of
    what its polls return, followed by the end of the stream. *)
From Stdlib Require Import ZArith Lia.
From stdpp Require Import base numbers option strings list.
From S2P Require Import Prelude Items SlideBuf Frame.

#[local] Open Scope Z_scope.
#[local] Open Scope rust_scope.

Inductive inp_event : Type :=
  | EvBytes (x : list Z)
  | EvErr
  | EvPending.

Inductive fs_error : Type :=
  | FsInput
  | FsSlidebuf (e : sb_error)
  | FsLessThanNeedMin
  | FsEnoughInputNothingParsed
  | FsInMemParse (e : inmem_error).

Record FrameStream : Type := mkFrameStream {
  fs_inp : list inp_event;
  fs_buf : SlideBuf;
  fs_need_min : Z;
  fs_done : bool;
  fs_complete : bool;
  fs_inp_bytes_consumed : Z
}.

Definition FsItem : Type := Sitemty unit unit fs_error InMemoryFrame.

(** What a poll of the stream ends in: a panic, the loop still running when
    the fuel is used up, or a result. *)
Inductive fs_out : Type :=
  | FsPanic
  | FsOutOfFuel
  | FsPoll (p : Poll (option FsItem)).

Definition set_done (s : FrameStream) : FrameStream :=
  mkFrameStream (fs_inp s) (fs_buf s) (fs_need_min s) true (fs_complete s) (fs_inp_bytes_consumed s).

Section FrameStream.
  Context `{FrameCodec}.

Definition fs_new (inp : list inp_event) (bufcap : nat) : FrameStream :=
  mkFrameStream inp (sb_new bufcap) INMEM_FRAME_HEAD false false 0.

(** Ask for space, copy the chunk there, advance. *)
Definition fs_recv (x : list Z) : SB unit :=
  let! _ := sb_available_writable_area (length x) in
  let! _ := sb_fill_area x in
  sb_wadv (length x).

Definition fs_poll_upstream (s : FrameStream) : FrameStream * Poll (outcome fs_error nat) :=
  let upd inp buf := mkFrameStream inp buf (fs_need_min s) (fs_done s) (fs_complete s) (fs_inp_bytes_consumed s) in
  match fs_inp s with
  | EvBytes x :: inp =>
      let '(buf, r) := fs_recv x (fs_buf s) in
      (upd inp buf, Ready (let? _ := map_err FsSlidebuf r in Ok (length x)))
  | EvErr :: inp => (upd inp (fs_buf s), Ready (Err FsInput))
  | [] => (s, Ready (Ok 0%nat))
  | EvPending :: inp => (upd inp (fs_buf s), Pending)
  end.

Definition fs_parse (s : FrameStream) : FrameStream * outcome fs_error (option InMemoryFrame) :=
  match snd (sb_data (fs_buf s)) with
  | Ok buf =>
      if Z.of_nat (length buf) <? fs_need_min s then (s, Err FsLessThanNeedMin)
      else
        match InMemoryFrame_parse buf with
        | Ok (NotEnoughData n) =>
            (mkFrameStream (fs_inp s) (fs_buf s) n (fs_done s) (fs_complete s) (fs_inp_bytes_consumed s), Ok None)
        | Ok (Parsed lentot val) =>
            let '(b, r) := sb_adv (Z.to_nat lentot) (fs_buf s) in
            match r with
            | Ok _ =>
                (mkFrameStream (fs_inp s) b INMEM_FRAME_HEAD (fs_done s) (fs_complete s)
                   (u64_add (fs_inp_bytes_consumed s) lentot), Ok (Some val))
            | Err e =>
                (mkFrameStream (fs_inp s) b (fs_need_min s) (fs_done s) (fs_complete s) (fs_inp_bytes_consumed s),
                 Err (FsSlidebuf e))
            | Panic => (s, Panic)
            end
        | Err e => (s, Err (FsInMemParse e))
        | Panic => (s, Panic)
        end
  | _ => (s, Panic)
  end.

(** [poll_next]: the loop, with fuel for its turns. *)
Fixpoint fs_poll_next (fuel : nat) (s : FrameStream) : FrameStream * fs_out :=
  match fuel with
  | O => (s, FsOutOfFuel)
  | S fuel =>
      if fs_complete s then (s, FsPanic)
      else if fs_done s then
        (mkFrameStream (fs_inp s) (fs_buf s) (fs_need_min s) (fs_done s) true (fs_inp_bytes_consumed s),
         FsPoll (Ready None))
      else if fs_need_min s <=? Z.of_nat (sb_len (fs_buf s)) then
        match fs_parse s with
        | (s, Ok None) =>
            if fs_need_min s <=? Z.of_nat (sb_len (fs_buf s)) then
              (set_done s, FsPoll (Ready (Some (SErr FsEnoughInputNothingParsed))))
            else fs_poll_next fuel s
        | (s, Ok (Some item)) =>
            if fr_tyid item =? TERM_FRAME_TYPE_ID then fs_poll_next fuel (set_done s)
            else (s, FsPoll (Ready (Some (SOk (DataItem (Data item))))))
        | (s, Err e) => (set_done s, FsPoll (Ready (Some (SErr e))))
        | (s, Panic) => (s, FsPanic)
        end
      else
        match fs_poll_upstream s with
        | (s, Ready (Ok n1)) =>
            if (n1 =? 0)%nat then fs_poll_next fuel (set_done s) else fs_poll_next fuel s
        | (s, Ready (Err e)) => (set_done s, FsPoll (Ready (Some (SErr e))))
        | (s, Ready Panic) => (s, FsPanic)
        | (s, Pending) => (s, FsPoll Pending)
        end
  end.

(** A consumer that polls until the end of the stream and collects the items;
    [None] when a poll panics or the fuel does not suffice. *)
Fixpoint fs_drain (polls fuel : nat) (s : FrameStream) : option (list FsItem) :=
  match polls with
  | O => None
  | S polls =>
      match fs_poll_next fuel s with
      | (s, FsPoll (Ready (Some item))) => items ← fs_drain polls fuel s; Some (item :: items)
      | (s, FsPoll (Ready None)) => Some []
      | (s, FsPoll Pending) => fs_drain polls fuel s
      | (_, FsPanic) | (_, FsOutOfFuel) => None
      end
  end.

End FrameStream.

(** ** Reassembly *)
Section Reassembly.
  Context `{FrameCodecLaws}.

(** A frame by its type and payload; the ones that pass through the stream. *)
Definition frame_spec : Type := Z * list Z.

Definition wire (g : frame_spec) : list Z := put_frame g.1 g.2.

Definition wires (l : list frame_spec) : list Z := concat (map wire l).

Definition frame_ok (g : frame_spec) : Prop :=
  is_u32 g.1 /\ g.1 <> TERM_FRAME_TYPE_ID /\ Z.of_nat (length g.2) <= 1024 * 1024 * 50.

Definition frame_item (g : frame_spec) : FsItem :=
  SOk (DataItem (Data (mkFrame INMEM_FRAME_ENCID g.1 (Z.of_nat (length g.2)) g.2))).

Definition ev_bytes (e : inp_event) : list Z := match e with EvBytes x => x | _ => [] end.

(** The bytes that a sequence of upstream polls delivers. *)
Definition inp_bytes (inp : list inp_event) : list Z := concat (map ev_bytes inp).

(** Chunks are non-empty and small enough that one fits behind the part of a
    frame still incomplete. *)
Definition ev_ok (cap : nat) (frames : list frame_spec) (e : inp_event) : Prop :=
  match e with
  | EvBytes x => x <> [] /\ Forall (fun g => (length (wire g) + length x <= cap + 1)%nat) frames
  | EvErr => False
  | EvPending => True
  end.

(** The stream has yet to deliver the [frames] and then, of a last frame [g],
    only the bytes [part]. *)
Record fs_inv (cap : nat) (frames : list frame_spec) (g : frame_spec) (part : list Z) (s : FrameStream) : Prop := {
  inv_wf : sb_wf (fs_buf s);
  inv_cap : sb_cap (fs_buf s) = cap;
  inv_running : fs_done s = false /\ fs_complete s = false;
  inv_frames : Forall frame_ok (frames ++ [g]);
  inv_part : exists rest, wire g = part ++ rest /\ rest <> [];
  inv_bytes : bq_bytes (sb_abs (fs_buf s)) ++ inp_bytes (fs_inp s) = wires frames ++ part;
  inv_inp : Forall (ev_ok cap (frames ++ [g])) (fs_inp s);
  inv_need : fs_need_min s = 20 \/ fs_need_min s = Z.of_nat (length (wire (hd g frames)))
}.

Lemma wire_length g : Z.of_nat (length (wire g)) = 24 + Z.of_nat (length g.2).
Proof. apply put_frame_length. Qed.

(** The stream is at a point where the first frame is not complete yet. *)
Lemma fs_inv_prefix cap frames g part s :
  fs_inv cap frames g part s -> (length (bq_bytes (sb_abs (fs_buf s))) < length (wire (hd g frames)))%nat ->
  exists rest, wire (hd g frames) = bq_bytes (sb_abs (fs_buf s)) ++ rest /\ rest <> [].
Proof.
  intros Hinv Hlt. set (q := bq_bytes (sb_abs (fs_buf s))) in *. pose proof (inv_bytes _ _ _ _ _ Hinv) as Hb. fold q in Hb.
  assert (Hp : exists r', wires frames ++ part = take (length q) (wire (hd g frames)) ++ r' /\
      length (take (length q) (wire (hd g frames))) = length q).
  { destruct frames as [|f frames].
    - destruct (inv_part _ _ _ _ _ Hinv) as (rest & Hw & _). cbn [hd wires map concat app] in *.
      assert (length q <= length part)%nat by (apply (f_equal length) in Hb; rewrite length_app in Hb; lia).
      exists (drop (length q) part). rewrite Hw, take_app_le by lia. rewrite take_drop. split; [done|].
      rewrite length_take. lia.
    - cbn [hd] in *. exists (drop (length q) (wire f) ++ wires frames ++ part).
      rewrite app_assoc, take_drop. unfold wires at 1. cbn [map concat]. rewrite <- app_assoc. split; [done|].
      rewrite length_take. lia. }
  destruct Hp as (r' & Hp & Hl). rewrite Hp in Hb. apply app_inj_1 in Hb as [Hq _]; [|done].
  exists (drop (length q) (wire (hd g frames))). rewrite Hq at 1. rewrite take_drop. split; [done|].
  intros Hd. apply (f_equal length) in Hd. rewrite length_drop in Hd. cbn [length] in Hd. lia.
Qed.

(** The stream holds the whole first frame. *)
Lemma fs_inv_whole cap frames g part s :
  fs_inv cap frames g part s -> (length (wire (hd g frames)) <= length (bq_bytes (sb_abs (fs_buf s))))%nat ->
  exists f frames' q', frames = f :: frames' /\ bq_bytes (sb_abs (fs_buf s)) = wire f ++ q' /\
    q' ++ inp_bytes (fs_inp s) = wires frames' ++ part.
Proof.
  intros Hinv Hle. set (q := bq_bytes (sb_abs (fs_buf s))) in *. pose proof (inv_bytes _ _ _ _ _ Hinv) as Hb. fold q in Hb.
  destruct frames as [|f frames]; cbn [hd] in *.
  - exfalso. cbn [wires map concat app] in *. destruct (inv_part _ _ _ _ _ Hinv) as (rest & Hw & Hr). apply (f_equal length) in Hb, Hw.
    rewrite length_app in Hb, Hw. destruct rest; [done|]. cbn [length] in Hw. lia.
  - exists f, frames. unfold wires in Hb. cbn [map concat] in Hb. rewrite <- app_assoc in Hb.
    assert (Hq : take (length (wire f)) q = wire f).
    { apply (f_equal (take (length (wire f)))) in Hb. rewrite take_app_length, take_app_le in Hb by done. done. }
    exists (drop (length (wire f)) q). split; [done|].
    split; [rewrite <- Hq at 1; by rewrite take_drop|].
    rewrite <- (take_drop (length (wire f)) q), Hq, <- app_assoc in Hb. by apply app_inv_head in Hb.
Qed.

Lemma fs_recv_spec x b :
  sb_wf b -> (length (bq_bytes (sb_abs b)) + length x <= sb_cap b)%nat ->
  exists b', fs_recv x b = (b', Ok tt) /\ sb_wf b' /\ sb_cap b' = sb_cap b /\
    bq_bytes (sb_abs b') = bq_bytes (sb_abs b) ++ x.
Proof.
  intros Hwf Hsp. pose proof (sb_step_refines (OpRecv (length x) x) b Hwf) as Hs.
  unfold sb_sim in Hs. cbn [sb_run bq_run] in Hs. rewrite firstn_all in Hs.
  unfold bq_put in Hs. change (bq_cap (sb_abs b)) with (sb_cap b) in Hs.
  rewrite (proj2 (Nat.ltb_ge _ _)) in Hs by lia.
  unfold fs_recv, sb_bind in *. destruct (sb_available_writable_area _ b) as [b1 [a| |]]; try (by destruct Hs).
  destruct (sb_fill_area x b1) as [b2 [[]| |]]; try (by destruct Hs).
  unfold sb_fmap, sb_bind in Hs. destruct (sb_wadv (length x) b2) as [b3 [[]| |]]; try (by destruct Hs).
  destruct Hs as (_ & Ha & Hw). exists b3. split; [done|]. split; [done|].
  split; [by apply (f_equal bq_cap) in Ha | by rewrite Ha].
Qed.

Lemma sb_adv_spec b n :
  sb_wf b -> (n <= length (bq_bytes (sb_abs b)))%nat ->
  exists b', sb_adv n b = (b', Ok tt) /\ sb_wf b' /\ sb_cap b' = sb_cap b /\
    bq_bytes (sb_abs b') = drop n (bq_bytes (sb_abs b)).
Proof.
  intros Hwf Hn. rewrite sb_abs_length in Hn by done.
  destruct (sb_take_spec b n Hwf Hn) as (_ & Ha & Hwf').
  unfold sb_adv, sb_bind, sb_get. cbn [id]. rewrite (proj2 (Nat.ltb_ge _ _)) by done.
  eexists. split; [done|]. split; [done|]. split; [done|]. by rewrite Ha.
Qed.

Lemma sb_data_spec b : sb_wf b -> snd (sb_data b) = Ok (bq_bytes (sb_abs b)).
Proof.
  intros Hwf. unfold sb_data, sb_bind, sb_get, sb_lift. cbn [id snd]. by rewrite slice_ok by (unfold sb_wf in *; lia).
Qed.

(** One turn of the loop that parses: the whole first frame comes out. *)
Lemma fs_parse_whole cap f frames g part s q' :
  fs_inv cap (f :: frames) g part s -> fs_need_min s <= Z.of_nat (sb_len (fs_buf s)) ->
  bq_bytes (sb_abs (fs_buf s)) = wire f ++ q' -> q' ++ inp_bytes (fs_inp s) = wires frames ++ part ->
  exists s', fs_parse s = (s', Ok (Some (mkFrame INMEM_FRAME_ENCID f.1 (Z.of_nat (length f.2)) f.2))) /\
    fs_inv cap frames g part s' /\ fs_inp s' = fs_inp s.
Proof.
  intros Hinv Hn Hq Hrest. destruct Hinv as [Hwf Hcap Hrun Hfr Hpart Hb Hinp Hneed].
  unfold fs_parse. rewrite sb_data_spec by done. rewrite sb_abs_length by done.
  rewrite (proj2 (Z.ltb_ge _ _)) by lia. rewrite Hq.
  inversion Hfr as [|? ? (Hty & _ & Hlen) Hfr']; subst.
  unfold wire at 1. rewrite parse_put_frame by done.
  destruct (sb_adv_spec (fs_buf s) (Z.to_nat (24 + Z.of_nat (length f.2))) Hwf) as (b' & -> & Hwf' & Hcap' & Hd).
  { rewrite Hq, length_app. pose proof (wire_length f). lia. }
  eexists. split; [done|]. split; [|done].
  split; cbn [fs_buf fs_inp fs_need_min fs_done fs_complete]; try done.
  - rewrite Hd, Hq, drop_app_length' by (pose proof (wire_length f); lia). done.
  - eapply Forall_impl; [exact Hinp|]. intros e. destruct e as [x| |]; simpl; [|done..].
    intros [Hx Hc]. split; [done|]. by inversion Hc.
  - by left.
Qed.

(** One turn that parses an incomplete frame: it learns the length needed. *)
Lemma fs_parse_part cap frames g part s :
  fs_inv cap frames g part s -> fs_need_min s <= Z.of_nat (sb_len (fs_buf s)) ->
  (sb_len (fs_buf s) < length (wire (hd g frames)))%nat ->
  exists s', fs_parse s = (s', Ok None) /\ fs_inv cap frames g part s' /\ fs_inp s' = fs_inp s /\
    fs_buf s' = fs_buf s /\ fs_need_min s' = Z.of_nat (length (wire (hd g frames))).
Proof.
  intros Hinv Hn Hlt. destruct (fs_inv_prefix cap frames g part s Hinv) as (rest & Hw & Hr).
  { rewrite sb_abs_length; [done|apply Hinv]. }
  destruct Hinv as [Hwf Hcap Hrun Hfr Hpart Hb Hinp Hneed].
  assert (Hok : frame_ok (hd g frames)) by (destruct frames; by inversion Hfr).
  destruct Hok as (Hty & _ & Hlen).
  unfold fs_parse. rewrite sb_data_spec by done. rewrite sb_abs_length by done.
  rewrite (proj2 (Z.ltb_ge _ _)) by lia.
  rewrite (parse_put_frame_prefix _ _ _ _ Hty Hlen Hw Hr). rewrite sb_abs_length by done.
  pose proof (wire_length (hd g frames)).
  rewrite (proj2 (Nat.ltb_ge _ _)) by lia.
  eexists. split; [done|]. split; [|split; [done|split; [done|cbn [fs_need_min]; lia]]].
  split; cbn [fs_buf fs_inp fs_need_min fs_done fs_complete]; try done. right. lia.
Qed.

(** What one poll does to a stream in the invariant. *)
Definition fs_poll_post (cap : nat) (frames : list frame_spec) (g : frame_spec) (part : list Z)
    (s s' : FrameStream) (out : fs_out) : Prop :=
  (exists f frames', frames = f :: frames' /\ out = FsPoll (Ready (Some (frame_item f))) /\
     fs_inv cap frames' g part s' /\ (length (fs_inp s') <= length (fs_inp s))%nat) \/
  (out = FsPoll Pending /\ fs_inv cap frames g part s' /\ (length (fs_inp s') < length (fs_inp s))%nat) \/
  (frames = [] /\ out = FsPoll (Ready None)).

(** Fuel that suffices: two turns for each event, one more when the length of
    the first frame is not known yet, and two to end. *)
Definition fs_fuel (s : FrameStream) : nat :=
  2 * length (fs_inp s) + (if fs_need_min s =? 20 then 1 else 0) + 2.

(** The turn that takes a chunk from upstream. *)
Lemma fs_upstream_chunk cap frames g part s x inp :
  fs_inv cap frames g part s -> fs_inp s = EvBytes x :: inp ->
  (sb_len (fs_buf s) < length (wire (hd g frames)))%nat ->
  exists s', fs_poll_upstream s = (s', Ready (Ok (length x))) /\ (length x =? 0)%nat = false /\
    fs_inv cap frames g part s' /\ fs_inp s' = inp /\ fs_need_min s' = fs_need_min s.
Proof.
  intros Hinv Hi Hlt. destruct Hinv as [Hwf Hcap Hrun Hfr Hpart Hb Hinp Hneed].
  rewrite Hi in Hinp, Hb. apply Forall_cons_1 in Hinp as [[Hx Hc] Hinp']. subst cap.
  unfold fs_poll_upstream. rewrite Hi.
  destruct (fs_recv_spec x (fs_buf s) Hwf) as (b' & -> & Hwf' & Hcap' & Hq).
  { rewrite sb_abs_length by done.
    assert (Hg : (length (wire (hd g frames)) + length x <= sb_cap (fs_buf s) + 1)%nat).
    { rewrite Forall_forall in Hc. apply Hc. destruct frames; simpl; by left. }
    lia. }
  cbn [map_err and_then]. eexists. split; [done|]. split; [by destruct x|].
  split; [|done]. split; cbn [fs_buf fs_inp fs_need_min fs_done fs_complete]; try done.
  rewrite Hq, <- Hb. unfold inp_bytes. cbn [map concat ev_bytes]. by rewrite <- app_assoc.
Qed.

Lemma fs_poll_next_spec cap frames g part fuel s :
  fs_inv cap frames g part s -> (fs_fuel s <= fuel)%nat ->
  let '(s', out) := fs_poll_next fuel s in fs_poll_post cap frames g part s s' out.
Proof.
  revert s. induction fuel as [fuel IH] using lt_wf_ind. intros s Hinv Hf.
  destruct fuel as [|fuel]; [unfold fs_fuel in Hf; lia|]. cbn [fs_poll_next].
  destruct (inv_running _ _ _ _ _ Hinv) as [Hd Hc]. rewrite Hd, Hc.
  assert (Hl20 : 24 <= Z.of_nat (length (wire (hd g frames)))) by (pose proof (wire_length (hd g frames)); lia).
  destruct (Z.leb_spec (fs_need_min s) (Z.of_nat (sb_len (fs_buf s)))) as [Hge|Hlt].
  - destruct (Nat.le_gt_cases (length (wire (hd g frames))) (sb_len (fs_buf s))) as [Hw|Hw].
    + destruct (fs_inv_whole cap frames g part s Hinv) as (f & frames' & q' & -> & Hq & Hr).
      { rewrite sb_abs_length; [done|apply Hinv]. }
      destruct (fs_parse_whole _ _ _ _ _ _ _ Hinv Hge Hq Hr) as (s' & -> & Hinv' & Hi). cbn [fr_tyid].
      pose proof (inv_frames _ _ _ _ _ Hinv) as Hfr. apply Forall_inv in Hfr as (_ & Hterm & _).
      rewrite (proj2 (Z.eqb_neq _ _) Hterm). left. exists f, frames'. rewrite Hi. done.
    + destruct (fs_parse_part _ _ _ _ _ Hinv Hge Hw) as (s' & -> & Hinv' & Hi & Hbuf & Hn).
      rewrite Hn, Hbuf. rewrite (proj2 (Z.leb_gt _ _)) by lia.
      assert (Hn20 : fs_need_min s = 20) by (destruct (inv_need _ _ _ _ _ Hinv); lia).
      specialize (IH fuel ltac:(lia) s' Hinv'). destruct (fs_poll_next fuel s') as [s2 out].
      unfold fs_poll_post in *. rewrite <- Hi. apply IH.
      unfold fs_fuel in *. rewrite Hn, Hi. rewrite Hn20, Z.eqb_refl in Hf.
      rewrite (proj2 (Z.eqb_neq _ _)) by lia. lia.
  - assert (Hw : (sb_len (fs_buf s) < length (wire (hd g frames)))%nat) by (destruct (inv_need _ _ _ _ _ Hinv); lia).
    destruct (fs_inp s) as [|[x| |] inp] eqn:Hi.
    + unfold fs_poll_upstream. rewrite Hi. cbn [Nat.eqb].
      destruct fuel as [|fuel]; [unfold fs_fuel in Hf; rewrite Hi in Hf; simpl in Hf; lia|].
      cbn [fs_poll_next set_done fs_complete fs_done]. rewrite Hc. right. right. split; [|done].
      destruct frames as [|f frames]; [done|]. exfalso.
      pose proof (inv_bytes _ _ _ _ _ Hinv) as Hb. rewrite Hi in Hb. apply (f_equal length) in Hb.
      unfold inp_bytes, wires in Hb. cbn [map concat hd] in *. rewrite app_nil_r, !length_app in Hb.
      rewrite sb_abs_length in Hb by apply Hinv. lia.
    + destruct (fs_upstream_chunk _ _ _ _ _ _ _ Hinv Hi Hw) as (s' & -> & -> & Hinv' & Hi' & Hn').
      specialize (IH fuel ltac:(lia) s' Hinv'). destruct (fs_poll_next fuel s') as [s2 out].
      unfold fs_fuel in *. rewrite Hi', Hn' in IH. rewrite Hi in Hf. cbn [length] in Hf.
      specialize (IH ltac:(lia)). unfold fs_poll_post in *. rewrite Hi. rewrite Hi' in IH. cbn [length].
      destruct IH as [(f & fs' & ? & ? & ? & ?)|[(? & ? & ?)|[? ?]]]; [left|right; left|right; right]; eauto 10 with lia.
    + exfalso. pose proof (inv_inp _ _ _ _ _ Hinv) as Hin. rewrite Hi in Hin. by inversion Hin.
    + unfold fs_poll_upstream. rewrite Hi. right. left. split; [done|]. cbn [fs_inp length]. rewrite Hi. split; [|cbn; lia].
      destruct Hinv as [Hwf Hcap Hrun Hfr Hpart Hb Hinp Hneed]. rewrite Hi in *.
      split; cbn [fs_buf fs_inp fs_need_min fs_done fs_complete]; try done. by inversion Hinp.
Qed.

Lemma fs_drain_inv cap frames g part polls fuel s :
  fs_inv cap frames g part s ->
  (length frames + length (fs_inp s) < polls)%nat -> (2 * length (fs_inp s) + 3 <= fuel)%nat ->
  fs_drain polls fuel s = Some (map frame_item frames).
Proof.
  revert frames s. induction polls as [|polls IH]; intros frames s Hinv Hp Hf; [lia|]. cbn [fs_drain].
  assert (Hfuel : (fs_fuel s <= fuel)%nat) by (unfold fs_fuel; destruct (_ =? _); lia).
  pose proof (fs_poll_next_spec cap frames g part fuel s Hinv Hfuel) as Hpost.
  destruct (fs_poll_next fuel s) as [s' out].
  destruct Hpost as [(f & frames' & -> & -> & Hinv' & Hl)|[(-> & Hinv' & Hl)|[-> ->]]]; [| |done].
  - cbn [length] in Hp. rewrite (IH frames' s' Hinv'); [done|lia|lia].
  - rewrite (IH frames s' Hinv'); [done|lia|lia].
Qed.

(** C16. Frames are reassembled from any byte stream: however the bytes of a
    sequence of frames, cut off anywhere in one more frame [g], are split into
    non-empty chunks and interleaved with polls that are not ready, the stream
    yields exactly those frames in order and then ends, within the stated number
    of polls and turns. The buffer must hold the largest frame but its last
    byte together with a chunk. *)
Theorem fs_reassembles cap frames g part rest inp polls fuel :
  Forall frame_ok (frames ++ [g]) ->
  wire g = part ++ rest -> rest <> [] ->
  inp_bytes inp = wires frames ++ part ->
  Forall (ev_ok cap (frames ++ [g])) inp ->
  (length frames + length inp < polls)%nat -> (2 * length inp + 3 <= fuel)%nat ->
  fs_drain polls fuel (fs_new inp cap) = Some (map frame_item frames).
Proof.
  intros Hok Hw Hr Hb Hev Hp Hf. apply (fs_drain_inv cap frames g part); [|done|done].
  split; cbn [fs_new fs_buf fs_inp fs_need_min fs_done fs_complete]; try done.
  - unfold sb_wf, sb_new. simpl. lia.
  - unfold sb_cap, sb_new. simpl. by rewrite length_replicate.
  - eauto.
  - by left.
Qed.

End Reassembly.

Lemma fs_reassembles_witness :
  let w1 := wire (H := toy_codec) (0xc80000, [1; 2; 3]) in
  let w2 := wire (H := toy_codec) (0xc0000, []) in
  fs_drain (H := toy_codec) 10 20 (fs_new [EvBytes (take 7 w1); EvPending; EvBytes (drop 7 w1 ++ take 22 w2); EvBytes (drop 22 w2 ++ take 5 w1)] 80)
    = Some [frame_item (0xc80000, [1; 2; 3]); frame_item (0xc0000, [])].
Proof.
  intros w1 w2.
  refine (fs_reassembles (H := toy_codec) (H0 := toy_codec_laws) 80 [(0xc80000, [1; 2; 3]); (0xc0000, [])] (0xc80000, [1; 2; 3])
    (take 5 w1) (drop 5 w1) [EvBytes (take 7 w1); EvPending; EvBytes (drop 7 w1 ++ take 22 w2); EvBytes (drop 22 w2 ++ take 5 w1)] 10 20 _ _ _ _ _ _ _).
  - repeat constructor; vm_compute; discriminate.
  - reflexivity.
  - discriminate.
  - reflexivity.
  - repeat constructor; try (vm_compute; discriminate); vm_compute; lia.
  - simpl. lia.
  - simpl. lia.
Defined.
