(* ===== verification/Events.v ===== *)
(** * Event containers

    [ContainerEvents] of [daqbuf-items-2/src/binning/container_events.rs] with
    [ContainerEventsTakeUpTo], and the trait [MergeableTy] of
    [daqbuf-items-0/src/merge.rs] that the merger works against.

    A value container is the [VecDeque] of the scalar types, a list; the value
    type is a parameter with its byte size and its comparison. *)
From Stdlib Require Import ZArith Lia.
From stdpp Require Import base numbers option strings list sorting.
From S2P Require Import Prelude Items.

#[local] Open Scope Z_scope.
#[local] Open Scope rust_scope.

(** ** Values *)

(** [EventValueType] with [PartialOrdEvtA]; floating point values may be
    incomparable. *)
Class EventValueType (V : Type) : Type := {
  ev_byte_estimate : V -> Z;
  ev_cmp_a : V -> V -> option comparison
}.

(** ** The interface of mergeable containers *)

Inductive DrainIntoDstResult : Type := DstDone | DstPartial | DstNotCompatible.

Inductive DrainIntoNewResult (T : Type) : Type :=
  | NewDone (x : T)
  | NewPartial (x : T)
  | NewNotCompatible.
Arguments NewDone {T} x.
Arguments NewPartial {T} x.
Arguments NewNotCompatible {T}.

(** [MergeableTy]; a method on [&mut self] returns the new self. Draining a
    range out of bounds panics. *)
Class MergeableTy (T : Type) : Type := {
  mt_len : T -> nat;
  mt_byte_estimate : T -> T * Z;
  mt_ts_min : T -> option Z;
  mt_ts_max : T -> option Z;
  mt_find_lowest_index_gt : T -> Z -> option nat;
  mt_find_lowest_index_ge : T -> Z -> option nat;
  mt_find_highest_index_lt : T -> Z -> option nat;
  mt_find_pp_le : T -> Z -> nat;
  mt_drain_into : forall {E}, T -> T -> nat -> nat -> outcome E (T * T * DrainIntoDstResult);
  mt_drain_into_new : forall {E}, T -> nat -> nat -> outcome E (T * DrainIntoNewResult T);
  mt_is_monotonic : T -> bool;
  mt_is_consistent : T -> bool;
  mt_retain_unique_ts : T -> Z -> T
}.

(** ** Containers of parallel lists

    The [izip!] of lists: a list of constructors is applied to one more list at
    a time. *)
Definition zap {X Y : Type} (fs : list (X -> Y)) (xs : list X) : list Y := zip_with (fun f x => f x) fs xs.

Lemma zap_app {X Y : Type} (f1 f2 : list (X -> Y)) x1 x2 :
  length f1 = length x1 -> zap (f1 ++ f2) (x1 ++ x2) = zap f1 x1 ++ zap f2 x2.
Proof. apply zip_with_app. Qed.

Lemma zap_length {X Y : Type} (fs : list (X -> Y)) xs : length fs = length xs -> length (zap fs xs) = length xs.
Proof. intros Hl. unfold zap. rewrite length_zip_with. lia. Qed.

Lemma zap_take {X Y : Type} (fs : list (X -> Y)) xs n : zap (take n fs) (take n xs) = take n (zap fs xs).
Proof. symmetry. apply zip_with_take. Qed.

Lemma zap_drop {X Y : Type} (fs : list (X -> Y)) xs n : zap (drop n fs) (drop n xs) = drop n (zap fs xs).
Proof. symmetry. apply zip_with_drop. Qed.

Ltac zap_len := repeat (rewrite zap_length; [|try rewrite ?length_map; congruence || zap_len]); rewrite ?length_map; congruence.

(** ** [ContainerEvents] *)

Inductive events_error : Type := Unordered.

Section ContainerEvents.
  Context {V : Type} `{EventValueType V}.

(** [impl Container for VecDeque]. *)
Definition vals_byte_estimate (vals : list V) : Z :=
  foldl (fun a x => u32_add a (ev_byte_estimate x)) 0 vals.

Definition vals_truncate_front (vals : list V) (len : nat) : list V :=
  if (len <? length vals)%nat then drop (length vals - len) vals else vals.

(** [drain(range)]: the removed elements and what stays. *)
Definition drain_range {E A} (l : list A) (b e : nat) : outcome E (list A * list A) :=
  let? d := slice l b e in
  Ok (d, take b l ++ drop e l).

Record ContainerEvents : Type := mkEvents {
  ce_tss : list Z;
  ce_vals : list V;
  ce_byte_estimate : option Z
}.

Definition ce_from_constituents (tss : list Z) (vals : list V) : ContainerEvents := mkEvents tss vals None.

Definition ce_new : ContainerEvents := mkEvents [] [] None.

Definition ce_len (c : ContainerEvents) : nat := length (ce_tss c).

(** Some neighbours in descending order. *)
Fixpoint any_descent (l : list Z) : bool :=
  match l with
  | a :: ((b :: _) as l') => (b <? a) || any_descent l'
  | _ => false
  end.

Definition ce_verify (c : ContainerEvents) : outcome events_error unit :=
  if any_descent (ce_tss c) then Err Unordered else Ok tt.

Definition ce_push_back (c : ContainerEvents) (ts : Z) (val : V) : ContainerEvents :=
  mkEvents (ce_tss c ++ [ts]) (ce_vals c ++ [val]) None.

Definition ce_iter_zip (c : ContainerEvents) : list (Z * V) := zip (ce_tss c) (ce_vals c).

Definition ce_clear (c : ContainerEvents) : ContainerEvents := mkEvents [] [] (Some 0).

Definition ce_truncate_front (c : ContainerEvents) (len : nat) : ContainerEvents :=
  if (len <? ce_len c)%nat then
    let n := (ce_len c - len)%nat in
    mkEvents (drop n (ce_tss c)) (vals_truncate_front (ce_vals c) len) (ce_byte_estimate c)
  else c.

(** The estimate is computed once and kept in the cell. *)
Definition ce_byte_estimate_mut (c : ContainerEvents) : ContainerEvents * Z :=
  match ce_byte_estimate c with
  | Some x => (c, x)
  | None =>
      let byte_est := u32_add (u32_mul 8 (wrap 32 (Z.of_nat (ce_len c)))) (vals_byte_estimate (ce_vals c)) in
      (mkEvents (ce_tss c) (ce_vals c) (Some byte_est), byte_est)
  end.

(** [impl MergeableTy for ContainerEvents]. *)
Definition ce_ts_min (c : ContainerEvents) : option Z := head (ce_tss c).
Definition ce_ts_max (c : ContainerEvents) : option Z := last (ce_tss c).

Definition ce_find_lowest_index_gt (c : ContainerEvents) (ts : Z) : option nat :=
  let x := partition_point (fun x => x <=? ts) (ce_tss c) in
  if (length (ce_tss c) <=? x)%nat then None else Some x.

Definition ce_find_lowest_index_ge (c : ContainerEvents) (ts : Z) : option nat :=
  let x := partition_point (fun x => x <? ts) (ce_tss c) in
  if (length (ce_tss c) <=? x)%nat then None else Some x.

Definition ce_find_highest_index_lt (c : ContainerEvents) (ts : Z) : option nat :=
  let x := partition_point (fun x => x <? ts) (ce_tss c) in
  if (x =? 0)%nat then None else Some (x - 1)%nat.

Definition ce_find_pp_le (c : ContainerEvents) (ts : Z) : nat :=
  partition_point (fun x => x <=? ts) (ce_tss c).

Definition ce_drain_into {E} (c dst : ContainerEvents) (b e : nat)
    : outcome E (ContainerEvents * ContainerEvents * DrainIntoDstResult) :=
  let? (dt, rt) := drain_range (ce_tss c) b e in
  let? (dv, rv) := drain_range (ce_vals c) b e in
  Ok (mkEvents rt rv (ce_byte_estimate c),
      mkEvents (ce_tss dst ++ dt) (ce_vals dst ++ dv) (ce_byte_estimate dst), DstDone).

Definition ce_drain_into_new {E} (c : ContainerEvents) (b e : nat)
    : outcome E (ContainerEvents * DrainIntoNewResult ContainerEvents) :=
  let dst := ce_new in
  let? (c, dst, _) := ce_drain_into c dst b e in
  Ok (c, NewDone dst).

(** The loop over the neighbours; it stops at the first descent. *)
Fixpoint ce_mono_loop (l : list (Z * Z)) : bool :=
  match l with
  | [] => true
  | (ts1, ts2) :: l => if ts2 <? ts1 then false else ce_mono_loop l
  end.

Definition ce_is_monotonic (c : ContainerEvents) : bool :=
  let n := length (ce_tss c) in
  ce_mono_loop (zip (ce_tss c) (drop (Nat.min n 1) (ce_tss c))).

Definition ce_is_consistent (c : ContainerEvents) : bool := ce_is_monotonic c.

(** The mask keeps what is greater than everything kept before. *)
Fixpoint ce_unique_mask (tss : list Z) (tsmin : Z) : list bool :=
  match tss with
  | [] => []
  | x :: tss => if tsmin <? x then true :: ce_unique_mask tss x else false :: ce_unique_mask tss tsmin
  end.

Definition mask_filter {A} (l : list A) (mask : list bool) : list A :=
  omap (fun '(a, b) => if b : bool then Some a else None) (zip l mask).

Definition ce_retain_unique_ts (c : ContainerEvents) (tsmin : Z) : ContainerEvents :=
  let mask := ce_unique_mask (ce_tss c) tsmin in
  mkEvents (mask_filter (ce_tss c) mask) (mask_filter (ce_vals c) mask) (ce_byte_estimate c).

#[export] Instance MergeableTy_ContainerEvents : MergeableTy ContainerEvents := {|
  mt_len := ce_len;
  mt_byte_estimate := ce_byte_estimate_mut;
  mt_ts_min := ce_ts_min;
  mt_ts_max := ce_ts_max;
  mt_find_lowest_index_gt := ce_find_lowest_index_gt;
  mt_find_lowest_index_ge := ce_find_lowest_index_ge;
  mt_find_highest_index_lt := ce_find_highest_index_lt;
  mt_find_pp_le := ce_find_pp_le;
  mt_drain_into := @ce_drain_into;
  mt_drain_into_new := @ce_drain_into_new;
  mt_is_monotonic := ce_is_monotonic;
  mt_is_consistent := ce_is_consistent;
  mt_retain_unique_ts := ce_retain_unique_ts
|}.

(** ** [ContainerEventsTakeUpTo]: a cursor over a borrowed container. *)

Record TakeUpTo : Type := mkTakeUpTo { tk_evs : ContainerEvents; tk_end : nat; tk_pos : nat }.

Definition tk_new (evs : ContainerEvents) : TakeUpTo := mkTakeUpTo evs (ce_len evs) 0.

Definition tk_constrain_up_to_ts {E} (t : TakeUpTo) (en : Z) : outcome E TakeUpTo :=
  let tss := ce_tss (tk_evs t) in
  let pp := partition_point (fun x => x <? en) tss in
  let pp := Nat.max pp (tk_pos t) in
  let? _ := assert (pp <=? length tss)%nat in
  let? _ := assert (tk_pos t <=? pp)%nat in
  let? _ := (if negb (pp =? 0)%nat then
               let? x := index tss (pp - 1) in assert (x <? en)
             else Ok tt) in
  Ok (mkTakeUpTo (tk_evs t) pp (tk_pos t)).

Definition tk_extend_to_all (t : TakeUpTo) : TakeUpTo := mkTakeUpTo (tk_evs t) (ce_len (tk_evs t)) (tk_pos t).

(** [end - pos]; [pos] never passes [end]. *)
Definition tk_len (t : TakeUpTo) : nat := tk_end t - tk_pos t.

Definition tk_ts_first (t : TakeUpTo) : option Z :=
  if (tk_pos t <? tk_end t)%nat then ce_tss (tk_evs t) !! tk_pos t else None.

Definition tk_next (t : TakeUpTo) : TakeUpTo * option (Z * V) :=
  if (tk_pos t <? tk_end t)%nat then
    match ce_tss (tk_evs t) !! tk_pos t, ce_vals (tk_evs t) !! tk_pos t with
    | Some ts, Some val => (mkTakeUpTo (tk_evs t) (tk_end t) (tk_pos t + 1), Some (ts, val))
    | _, _ => (t, None)
    end
  else (t, None).

End ContainerEvents.

Arguments ContainerEvents V : clear implicits.
Arguments TakeUpTo V : clear implicits.

(** ** What a mergeable container promises

    A container is its list of (timestamp, value); [mt_wf] is its
    representation invariant. The last two laws say that containers of one
    static type always drain completely. *)
Class MergeableLaws (T V : Type) `{MergeableTy T} : Type := {
  mt_events : T -> list (Z * V);
  mt_wf : T -> Prop;
  mt_len_eq t : mt_wf t -> mt_len t = length (mt_events t);
  mt_ts_min_eq t : mt_wf t -> mt_ts_min t = head (mt_events t).*1;
  mt_ts_max_eq t : mt_wf t -> mt_ts_max t = last (mt_events t).*1;
  mt_mono_eq t : mt_wf t -> mt_is_monotonic t = true <-> StronglySorted Z.le (mt_events t).*1;
  mt_find_gt_eq t ts : mt_wf t ->
    mt_find_lowest_index_gt t ts =
      let n := partition_point (fun x => x <=? ts) (mt_events t).*1 in
      if (length (mt_events t) <=? n)%nat then None else Some n;
  mt_find_ge_eq t ts : mt_wf t ->
    mt_find_lowest_index_ge t ts =
      let n := partition_point (fun x => x <? ts) (mt_events t).*1 in
      if (length (mt_events t) <=? n)%nat then None else Some n;
  mt_find_lt_eq t ts : mt_wf t -> StronglySorted Z.le (mt_events t).*1 ->
    mt_find_highest_index_lt t ts =
      let n := partition_point (fun x => x <? ts) (mt_events t).*1 in
      if (n =? 0)%nat then None else Some (n - 1)%nat;
  mt_estimate_eq t : mt_wf t -> mt_wf (mt_byte_estimate t).1 /\ mt_events (mt_byte_estimate t).1 = mt_events t;
  mt_drain_into_eq E t dst n : mt_wf t -> mt_wf dst -> (n <= length (mt_events t))%nat ->
    exists t' dst', mt_drain_into (E := E) t dst 0 n = Ok (t', dst', DstDone) /\ mt_wf t' /\ mt_wf dst' /\
      mt_events t' = drop n (mt_events t) /\ mt_events dst' = mt_events dst ++ take n (mt_events t);
  mt_drain_into_new_range E t b e : mt_wf t -> (b <= e <= length (mt_events t))%nat ->
    exists t' dst', mt_drain_into_new (E := E) t b e = Ok (t', NewDone dst') /\ mt_wf t' /\ mt_wf dst' /\
      mt_events t' = take b (mt_events t) ++ drop e (mt_events t) /\ mt_events dst' = take (e - b) (drop b (mt_events t))
}.

Lemma mt_drain_into_new_eq {T V} `{MergeableLaws T V} E t n : mt_wf t -> (n <= length (mt_events t))%nat ->
  exists t' dst', mt_drain_into_new (E := E) t 0 n = Ok (t', NewDone dst') /\ mt_wf t' /\ mt_wf dst' /\
    mt_events t' = drop n (mt_events t) /\ mt_events dst' = take n (mt_events t).
Proof.
  intros Hw Hn. destruct (mt_drain_into_new_range E t 0 n Hw) as (t' & d & ? & ? & ? & ? & Hd); [lia|].
  exists t', d. rewrite Nat.sub_0_r, drop_0 in Hd. done.
Qed.

(** The events that the polls of a stream deliver. *)
Section StreamEvents.
  Context {T V : Type} `{MergeableLaws T V} {L St E : Type}.

Definition sitem_events (i : Sitemty L St E T) : list (Z * V) :=
  match i with SOk (DataItem (Data k)) => mt_events k | _ => [] end.

Definition poll_events (p : Poll (Sitemty L St E T)) : list (Z * V) :=
  match p with Ready i => sitem_events i | Pending => [] end.

Definition polls_events (l : list (Poll (Sitemty L St E T))) : list (Z * V) := concat (map poll_events l).

End StreamEvents.

Section EventsProofs.
  Context {V : Type} `{EventValueType V}.

Definition ce_wf (c : ContainerEvents V) : Prop := length (ce_vals c) = length (ce_tss c).

Lemma ce_zip_fst (c : ContainerEvents V) : ce_wf c -> (ce_iter_zip c).*1 = ce_tss c.
Proof. unfold ce_wf, ce_iter_zip. intros Hw. apply fst_zip. lia. Qed.

Lemma ce_zip_length (c : ContainerEvents V) : ce_wf c -> length (ce_iter_zip c) = length (ce_tss c).
Proof. intros Hw. by rewrite <- (ce_zip_fst c Hw), length_fmap. Qed.

Lemma drain_range_ok {E A} (l : list A) b e :
  (b <= e <= length l)%nat -> @drain_range E A l b e = Ok (take (e - b) (drop b l), take b l ++ drop e l).
Proof. intros Hn. unfold drain_range. by rewrite slice_ok. Qed.

Lemma ce_mono_loop_sorted l x :
  ce_mono_loop (zip (x :: l) l) = true -> StronglySorted Z.le (x :: l).
Proof.
  revert x. induction l as [|y l IH]; intros x Hm; [by repeat constructor|].
  cbn [zip ce_mono_loop zip_with] in Hm. destruct (Z.ltb_spec y x); [done|].
  specialize (IH y Hm). constructor; [done|]. inversion IH as [|? ? ? Hall]; subst.
  constructor; [done|]. eapply Forall_impl; [exact Hall|]. simpl. lia.
Qed.

Lemma sorted_ce_mono_loop l x :
  StronglySorted Z.le (x :: l) -> ce_mono_loop (zip (x :: l) l) = true.
Proof.
  revert x. induction l as [|y l IH]; intros x Hs; [done|].
  cbn [zip ce_mono_loop zip_with]. inversion Hs as [|? ? Hs' Hall]; subst. inversion Hall; subst.
  destruct (Z.ltb_spec y x); [lia|]. by apply IH.
Qed.

Lemma ce_is_monotonic_iff (c : ContainerEvents V) : ce_is_monotonic c = true <-> StronglySorted Z.le (ce_tss c).
Proof.
  unfold ce_is_monotonic. destruct (ce_tss c) as [|x l]; simpl; [split; [constructor|done]|].
  rewrite Nat.min_0_r, drop_0. split; [apply ce_mono_loop_sorted | apply sorted_ce_mono_loop].
Qed.

Lemma ce_drain_into_range {E} (c dst : ContainerEvents V) b e :
  ce_wf c -> ce_wf dst -> (b <= e <= length (ce_tss c))%nat ->
  exists c' dst', ce_drain_into (E := E) c dst b e = Ok (c', dst', DstDone) /\ ce_wf c' /\ ce_wf dst' /\
    ce_iter_zip c' = take b (ce_iter_zip c) ++ drop e (ce_iter_zip c) /\
    ce_iter_zip dst' = ce_iter_zip dst ++ take (e - b) (drop b (ce_iter_zip c)).
Proof.
  unfold ce_wf. intros Hc Hd Hn. unfold ce_drain_into. rewrite !drain_range_ok by lia. cbn [and_then].
  eexists _, _. split; [done|]. cbn [ce_tss ce_vals]. rewrite !length_app, !length_take, !length_drop.
  split; [lia|]. split; [lia|]. unfold ce_iter_zip. cbn [ce_tss ce_vals].
  split; [rewrite zip_with_app by (rewrite !length_take; lia); by rewrite zip_with_drop, zip_with_take|].
  rewrite zip_with_app by lia. by rewrite zip_with_drop, zip_with_take.
Qed.

#[export] Instance MergeableLaws_ContainerEvents : MergeableLaws (ContainerEvents V) V.
Proof.
  refine {| mt_events := ce_iter_zip : ContainerEvents V -> list (Z * V); mt_wf := ce_wf |}; simpl.
  - intros t Ht. by rewrite ce_zip_length.
  - intros t Ht. by rewrite ce_zip_fst.
  - intros t Ht. by rewrite ce_zip_fst.
  - intros t Ht. rewrite ce_zip_fst by done. apply ce_is_monotonic_iff.
  - intros t ts Ht. unfold ce_find_lowest_index_gt. by rewrite ce_zip_fst, ce_zip_length by done.
  - intros t ts Ht. unfold ce_find_lowest_index_ge. by rewrite ce_zip_fst, ce_zip_length by done.
  - intros t ts Ht _. unfold ce_find_highest_index_lt. by rewrite ce_zip_fst by done.
  - intros t Ht. unfold ce_byte_estimate_mut. by destruct (ce_byte_estimate t).
  - intros E t dst n Ht Hd Hn. rewrite ce_zip_length in Hn by done.
    destruct (ce_drain_into_range (E := E) t dst 0 n Ht Hd) as (c' & dst' & ? & ? & ? & ? & Hdst); [lia|].
    exists c', dst'. rewrite Nat.sub_0_r, drop_0 in Hdst. done.
  - intros E t b e Ht Hn. rewrite ce_zip_length in Hn by done. unfold ce_drain_into_new.
    destruct (ce_drain_into_range (E := E) t ce_new b e Ht) as (c' & dst' & -> & ? & ? & ? & ?); [done|done|].
    by eexists _, _.
Defined.

End EventsProofs.

Section EventsTheorems.
  Context {V : Type} `{EventValueType V}.

(** The index searches of a sorted container are what their names say: the
    first event after [ts], the first not before it, the last before it, and the
    number of events up to it; [None] exactly when there is none. *)
Theorem ce_find_spec (c : ContainerEvents V) ts :
  StronglySorted Z.le (ce_tss c) ->
  (forall i x, ce_tss c !! i = Some x ->
     (x > ts <-> exists n, ce_find_lowest_index_gt c ts = Some n /\ (n <= i)%nat) /\
     (x >= ts <-> exists n, ce_find_lowest_index_ge c ts = Some n /\ (n <= i)%nat) /\
     (x < ts <-> exists n, ce_find_highest_index_lt c ts = Some n /\ (i <= n)%nat) /\
     (x <= ts <-> (i < ce_find_pp_le c ts)%nat)) /\
  (forall n, ce_find_lowest_index_gt c ts = Some n -> (n < ce_len c)%nat) /\
  (forall n, ce_find_lowest_index_ge c ts = Some n -> (n < ce_len c)%nat) /\
  (forall n, ce_find_highest_index_lt c ts = Some n -> (n < ce_len c)%nat) /\
  (ce_find_pp_le c ts <= ce_len c)%nat.
Proof.
  intros Hs. unfold ce_find_lowest_index_gt, ce_find_lowest_index_ge, ce_find_highest_index_lt, ce_find_pp_le, ce_len.
  set (l := ce_tss c) in *.
  pose proof (partition_point_le (fun x => (x <=? ts)%Z) l). pose proof (partition_point_le (fun x => (x <? ts)%Z) l).
  split; [|split; [|split; [|split; [|done]]]; intros n; [case Nat.leb_spec..|case Nat.eqb_spec]; intros ? [= <-]; lia].
  intros i x Hx. pose proof (lookup_lt_Some _ _ _ Hx) as Hi.
  assert (Hle : x <= ts <-> (i < partition_point (fun x => (x <=? ts)%Z) l)%nat).
  { split.
    - intros Hxt. apply Nat.nle_gt. intros Hge.
      pose proof (partition_point_after _ l i x Hs (leb_mono ts) Hge Hx) as Hf. apply Z.leb_gt in Hf. lia.
    - intros Hlt. pose proof (partition_point_before _ l i x Hlt Hx) as Hf. by apply Z.leb_le in Hf. }
  assert (Hlt : x < ts <-> (i < partition_point (fun x => (x <? ts)%Z) l)%nat).
  { split.
    - intros Hxt. apply Nat.nle_gt. intros Hge.
      pose proof (partition_point_after _ l i x Hs (ltb_mono ts) Hge Hx) as Hf. apply Z.ltb_ge in Hf. lia.
    - intros Hp. pose proof (partition_point_before _ l i x Hp Hx) as Hf. by apply Z.ltb_lt in Hf. }
  generalize dependent (partition_point (fun x => (x <=? ts)%Z) l). generalize dependent (partition_point (fun x => (x <? ts)%Z) l).
  intros p Hp Hlt q Hq Hle. split; [|split; [|split; [|done]]].
  - destruct (Nat.leb_spec (length l) q); split; [intros; exfalso; lia|intros (n & ? & ?); done|intros; exists q; split; [done|lia]|].
    intros (? & [= <-] & ?). lia.
  - destruct (Nat.leb_spec (length l) p); split; [intros; exfalso; lia|intros (n & ? & ?); done|intros; exists p; split; [done|lia]|].
    intros (? & [= <-] & ?). lia.
  - destruct (Nat.eqb_spec p 0); split; [intros; exfalso; lia|intros (n & ? & ?); done|intros; exists (p - 1)%nat; split; [done|lia]|].
    intros (? & [= <-] & ?). lia.
Qed.

Lemma ce_unique_mask_length tss tsmin : length (ce_unique_mask tss tsmin) = length tss.
Proof. revert tsmin. induction tss as [|x l IH]; intros m; simpl; [done|]. case_match; simpl; by rewrite IH. Qed.

Lemma mask_filter_cons {A} (x : A) l b m :
  mask_filter (x :: l) (b :: m) = (if b : bool then [x] else []) ++ mask_filter l m.
Proof. by destruct b. Qed.

Lemma mask_filter_zip {A B} (l : list A) (k : list B) m :
  length l = length k -> mask_filter (zip l k) m = zip (mask_filter l m) (mask_filter k m).
Proof.
  revert k m. induction l as [|a l IH]; intros [|b k] [|c m] Hl; simplify_eq/=; try done.
  change (zip_with pair l k) with (zip l k). rewrite !mask_filter_cons. destruct c; simpl; by rewrite IH by lia.
Qed.

Lemma mask_filter_elem {A} (x : A) l m : x ∈ mask_filter l m -> x ∈ l.
Proof.
  revert m. induction l as [|a l IH]; intros [|b m] Hx; try by apply not_elem_of_nil in Hx.
  rewrite mask_filter_cons in Hx. apply elem_of_app in Hx as [Hx|Hx].
  - destruct b; [apply list_elem_of_singleton in Hx as ->; by left | by apply not_elem_of_nil in Hx].
  - right. by eapply IH.
Qed.

Lemma unique_tss_spec tss tsmin :
  let r := mask_filter tss (ce_unique_mask tss tsmin) in
  StronglySorted Z.lt r /\ Forall (fun x => tsmin < x) r /\
  (StronglySorted Z.le tss -> forall x, x ∈ r <-> x ∈ tss /\ tsmin < x).
Proof.
  revert tsmin. induction tss as [|a l IH]; intros m; simpl.
  - split; [constructor|]. split; [constructor|]. intros _ x. split; [intros Hx|intros [Hx _]]; by apply not_elem_of_nil in Hx.
  - destruct (Z.ltb_spec m a) as [Hlt|Hge]; rewrite mask_filter_cons; cbn [app].
    + destruct (IH a) as (Hs & Hf & He). split; [by constructor|].
      split; [constructor; [done|]; eapply Forall_impl; [exact Hf|]; simpl; lia|].
      intros Hsort x. inversion Hsort as [|? ? Hs' Hall]; subst. rewrite !elem_of_cons, (He Hs').
      rewrite Forall_forall in Hall. split.
      * intros [->|[Hx Ha]]; [auto|]. split; [auto|lia].
      * intros [[->|Hx] Hm]; [auto|]. specialize (Hall x Hx). destruct (Z.eq_dec x a); [auto|]. right. split; [done|lia].
    + destruct (IH m) as (Hs & Hf & He). split; [done|]. split; [done|].
      intros Hsort x. inversion Hsort as [|? ? Hs' Hall]; subst. rewrite elem_of_cons, (He Hs'). split.
      * intros [Hx Hm]. auto.
      * intros [[->|Hx] Hm]; [lia|auto].
Qed.

(** [retain_unique_ts] keeps a selection of the (timestamp, value) pairs
    whose timestamps are strictly ascending and above [tsmin]; of a sorted
    container it keeps every timestamp above [tsmin]. *)
Theorem ce_retain_unique_spec (c : ContainerEvents V) tsmin :
  ce_wf c ->
  let r := ce_retain_unique_ts c tsmin in
  ce_wf r /\ StronglySorted Z.lt (ce_tss r) /\ Forall (fun x => tsmin < x) (ce_tss r) /\
  (forall p, p ∈ ce_iter_zip r -> p ∈ ce_iter_zip c) /\
  (StronglySorted Z.le (ce_tss c) -> forall x, x ∈ ce_tss r <-> x ∈ ce_tss c /\ tsmin < x).
Proof.
  intros Hwf r. destruct (unique_tss_spec (ce_tss c) tsmin) as (Hs & Hf & He).
  assert (Hz : ce_iter_zip r = mask_filter (ce_iter_zip c) (ce_unique_mask (ce_tss c) tsmin)).
  { unfold ce_iter_zip. rewrite mask_filter_zip by done. done. }
  assert (Hl : forall {A B} (l : list A) (k : list B) m, length l = length k -> length (mask_filter l m) = length (mask_filter k m)).
  { clear. intros A B l. induction l as [|a l IH]; intros [|b k] [|x m] Hl; simplify_eq/=; try done.
    rewrite !mask_filter_cons, !length_app, (IH k m) by done. by destruct x. }
  split; [by apply Hl|]. split; [done|]. split; [done|]. split; [|done].
  intros p. rewrite Hz. apply mask_filter_elem.
Qed.

(** Polling the cursor to its end. *)
Fixpoint tk_collect (fuel : nat) (t : TakeUpTo V) : TakeUpTo V * list (Z * V) :=
  match fuel with
  | O => (t, [])
  | S fuel =>
      match tk_next t with
      | (t, Some ev) => let '(t, evs) := tk_collect fuel t in (t, ev :: evs)
      | (t, None) => (t, [])
      end
  end.

Lemma tk_collect_slice fuel (t : TakeUpTo V) :
  ce_wf (tk_evs t) -> (tk_end t <= ce_len (tk_evs t))%nat -> (tk_pos t <= tk_end t)%nat -> (tk_len t < fuel)%nat ->
  tk_collect fuel t = (mkTakeUpTo (tk_evs t) (tk_end t) (tk_end t),
                       take (tk_len t) (drop (tk_pos t) (ce_iter_zip (tk_evs t)))).
Proof.
  unfold tk_len. destruct t as [evs en pos]. cbn [tk_evs tk_end tk_pos]. unfold ce_wf, ce_len.
  revert pos. induction fuel as [|fuel IH]; intros pos Hwf Hen Hpos Hf; [lia|].
  cbn [tk_collect]. unfold tk_next. cbn [tk_evs tk_end tk_pos].
  destruct (Nat.ltb_spec pos en) as [Hlt|Hge].
  - destruct (lookup_lt_is_Some_2 (ce_tss evs) pos) as [ts Hts]; [lia|].
    destruct (lookup_lt_is_Some_2 (ce_vals evs) pos) as [v Hv]; [lia|].
    rewrite Hts, Hv, (IH (pos + 1)%nat) by (done || lia). cbv beta iota.
    assert (Hz : ce_iter_zip evs !! pos = Some (ts, v)) by (unfold ce_iter_zip; by rewrite lookup_zip_with, Hts, Hv).
    replace (en - pos)%nat with (S (en - (pos + 1))) by lia.
    rewrite (drop_S _ (ts, v) pos) by done. cbn [take]. by rewrite Nat.add_1_r.
  - assert (pos = en) as -> by lia. by rewrite Nat.sub_diag.
Qed.

(** What the cursor still shows, and what is left behind its end. *)
Definition tk_inv (t : TakeUpTo V) : Prop :=
  ce_wf (tk_evs t) /\ (tk_pos t <= tk_end t <= ce_len (tk_evs t))%nat.

Definition tk_rest (t : TakeUpTo V) : list (Z * V) := drop (tk_pos t) (ce_iter_zip (tk_evs t)).
Definition tk_vis (t : TakeUpTo V) : list (Z * V) := take (tk_len t) (tk_rest t).

Lemma tk_vis_length t : tk_inv t -> length (tk_vis t) = tk_len t.
Proof.
  intros [Hw Hp]. unfold tk_vis, tk_rest. rewrite length_take, length_drop, ce_zip_length by done.
  unfold tk_len, ce_len in *. lia.
Qed.

Lemma tk_next_spec t :
  tk_inv t ->
  match tk_vis t with
  | [] => tk_next t = (t, None)
  | e :: l => exists t', tk_next t = (t', Some e) /\ tk_inv t' /\ tk_evs t' = tk_evs t /\ tk_end t' = tk_end t /\
      tk_vis t' = l /\ tk_pos t' = S (tk_pos t)
  end.
Proof.
  intros Hinv. pose proof (tk_vis_length t Hinv) as Hl. destruct Hinv as [Hw Hp]. unfold tk_next.
  destruct (Nat.ltb_spec (tk_pos t) (tk_end t)) as [Hlt|Hge].
  - unfold ce_wf, ce_len in *.
    destruct (lookup_lt_is_Some_2 (ce_tss (tk_evs t)) (tk_pos t)) as [ts Hts]; [lia|].
    destruct (lookup_lt_is_Some_2 (ce_vals (tk_evs t)) (tk_pos t)) as [v Hv]; [lia|].
    assert (Hz : ce_iter_zip (tk_evs t) !! tk_pos t = Some (ts, v)) by (unfold ce_iter_zip; by rewrite lookup_zip_with, Hts, Hv).
    rewrite Hts, Hv. unfold tk_vis, tk_rest in *. rewrite (drop_S _ _ _ Hz) in *.
    replace (tk_len t) with (S (tk_len t - 1)) in * by (unfold tk_len; lia). cbn [take].
    eexists. split; [done|]. cbn [tk_evs tk_end tk_pos]. split; [split; cbn [tk_evs tk_end tk_pos]; [done|unfold ce_len; lia]|].
    split; [done|]. split; [done|]. unfold tk_len in *. cbn [tk_end tk_pos]. rewrite Nat.add_1_r. split; [f_equal; lia|done].
  - assert (Hz : tk_len t = 0%nat) by (unfold tk_len; lia). rewrite Hz in Hl. by destruct (tk_vis t).
Qed.

Lemma tk_ts_first_spec t : tk_inv t -> tk_ts_first t = head (tk_vis t).*1.
Proof.
  intros Hinv. pose proof (tk_vis_length t Hinv) as Hl. destruct Hinv as [Hw Hp]. unfold tk_ts_first.
  destruct (Nat.ltb_spec (tk_pos t) (tk_end t)) as [Hlt|Hge].
  - unfold ce_wf, ce_len in *.
    destruct (lookup_lt_is_Some_2 (ce_tss (tk_evs t)) (tk_pos t)) as [ts Hts]; [lia|].
    destruct (lookup_lt_is_Some_2 (ce_vals (tk_evs t)) (tk_pos t)) as [v Hv]; [lia|].
    assert (Hz : ce_iter_zip (tk_evs t) !! tk_pos t = Some (ts, v)) by (unfold ce_iter_zip; by rewrite lookup_zip_with, Hts, Hv).
    rewrite Hts. unfold tk_vis, tk_rest. rewrite (drop_S _ _ _ Hz).
    by replace (tk_len t) with (S (tk_len t - 1)) by (unfold tk_len; lia).
  - assert (Hz : tk_len t = 0%nat) by (unfold tk_len; lia). rewrite Hz in Hl. by destruct (tk_vis t).
Qed.

(** Constraining shows the events before [en]: the first [n] of the rest. *)
Lemma tk_constrain_spec {E} t en :
  tk_inv t -> StronglySorted Z.le (ce_tss (tk_evs t)) -> Forall (fun x => x < en) (take (tk_pos t) (ce_tss (tk_evs t))) ->
  exists t', @tk_constrain_up_to_ts V E t en = Ok t' /\ tk_inv t' /\ tk_evs t' = tk_evs t /\ tk_pos t' = tk_pos t /\
    tk_vis t' = take (partition_point (fun x => x <? en) (tk_rest t).*1) (tk_rest t).
Proof.
  intros [Hw Hp] Hs Hbefore. set (tss := ce_tss (tk_evs t)) in *. unfold ce_len in Hp. fold tss in Hp.
  set (pp0 := partition_point (fun x => x <? en) tss).
  assert (Hpp0 : pp0 = (tk_pos t + partition_point (fun x => (x <? en)%Z) (drop (tk_pos t) tss))%nat).
  { unfold pp0. rewrite <- (take_drop (tk_pos t) tss) at 1.
    rewrite partition_point_app by (eapply Forall_impl; [exact Hbefore|]; intros x Hx; by apply Z.ltb_lt).
    rewrite length_take. lia. }
  pose proof (partition_point_le (fun x => (x <? en)%Z) tss) as Hle. fold pp0 in Hle.
  assert (Hrest : (tk_rest t).*1 = drop (tk_pos t) tss).
  { unfold tk_rest. by rewrite fmap_drop, ce_zip_fst. }
  unfold tk_constrain_up_to_ts. fold tss. fold pp0. rewrite (Nat.max_l pp0) by lia.
  rewrite !(proj2 (Nat.leb_le _ _)) by lia. cbn [assert and_then].
  exists (mkTakeUpTo (tk_evs t) pp0 (tk_pos t)). split.
  - destruct (Nat.eqb_spec pp0 0) as [|Hne]; cbn [negb and_then]; [done|].
    destruct (lookup_lt_is_Some_2 tss (pp0 - 1)) as [x Hx]; [lia|]. unfold index. rewrite Hx. cbn [unwrap and_then].
    rewrite (partition_point_before (fun x => (x <? en)%Z) tss (pp0 - 1) x); [done|fold pp0; lia|done].
  - split; [split; cbn [tk_evs tk_end tk_pos]; [done|unfold ce_len; fold tss; lia]|].
    split; [done|]. split; [done|]. unfold tk_vis, tk_rest, tk_len. cbn [tk_evs tk_end tk_pos]. f_equal.
    fold (tk_rest t). rewrite Hrest. lia.
Qed.

(** The cursor hands out each event once, in order, up to the given time: on
    a sorted container whose events before the cursor lie before [en], the
    constraint succeeds and polling yields exactly the events from the cursor on
    that lie before [en]; then the cursor stands at the first event not before
    [en], and a later [extend_to_all] yields the others. *)
Theorem tk_take_up_to (evs : ContainerEvents V) pos en0 en fuel :
  ce_wf evs -> StronglySorted Z.le (ce_tss evs) -> (pos <= ce_len evs)%nat ->
  Forall (fun x => x < en) (take pos (ce_tss evs)) -> (ce_len evs < fuel)%nat ->
  exists t t' xs, @tk_constrain_up_to_ts V events_error (mkTakeUpTo evs en0 pos) en = Ok t /\
    tk_collect fuel t = (t', xs) /\
    xs ++ (tk_collect fuel (tk_extend_to_all t')).2 = drop pos (ce_iter_zip evs) /\
    Forall (fun e => e.1 < en) xs /\
    Forall (fun e => en <= e.1) (tk_collect fuel (tk_extend_to_all t')).2.
Proof.
  intros Hwf Hs Hpos Hbefore Hf. unfold ce_len in Hpos, Hf. set (tss := ce_tss evs) in *.
  set (pp := Nat.max (partition_point (fun x => (x <? en)%Z) tss) pos).
  pose proof (partition_point_le (fun x => (x <? en)%Z) tss).
  assert (Hpp : (pos <= pp <= length tss)%nat) by (unfold pp; lia).
  assert (Hlow : forall i x, (i < pp)%nat -> tss !! i = Some x -> x < en).
  { intros i x Hi Hx. destruct (Nat.lt_ge_cases i pos).
    - rewrite Forall_lookup in Hbefore. apply (Hbefore i). by rewrite lookup_take_lt.
    - apply Z.ltb_lt. apply (partition_point_before (fun x => (x <? en)%Z) tss i x); [unfold pp in Hi; lia|done]. }
  assert (Hhigh : forall i x, (pp <= i)%nat -> tss !! i = Some x -> en <= x).
  { intros i x Hi Hx. apply Z.ltb_ge. apply (partition_point_after (fun x => (x <? en)%Z) tss i x Hs (ltb_mono en)); [unfold pp in Hi; lia|done]. }
  set (t := mkTakeUpTo evs pp pos). set (zs := ce_iter_zip evs).
  assert (Hzl : length zs = length tss) by (by apply ce_zip_length).
  assert (Hz : forall i e, zs !! i = Some e -> tss !! i = Some e.1).
  { intros i e He. unfold tss. rewrite <- (ce_zip_fst evs Hwf), list_lookup_fmap. fold zs. by rewrite He. }
  exists t. eexists _, _. split; [|split; [apply tk_collect_slice; [done| | |]; unfold tk_len, ce_len; cbn [t tk_evs tk_end tk_pos]; fold tss; lia|]].
  { unfold tk_constrain_up_to_ts. cbn [tk_evs tk_pos]. fold tss. fold pp.
    rewrite !(proj2 (Nat.leb_le _ _)) by lia. cbn [assert and_then].
    destruct (Nat.eqb_spec pp 0) as [|Hne]; cbn [negb and_then]; [done|].
    destruct (lookup_lt_is_Some_2 tss (pp - 1)) as [x Hx]; [lia|]. unfold index. rewrite Hx. cbn [unwrap and_then].
    rewrite (proj2 (Z.ltb_lt _ _)) by (apply (Hlow (pp - 1)%nat); [lia|done]). done. }
  unfold tk_extend_to_all, tk_len. cbn [tk_evs tk_pos tk_end t].
  rewrite tk_collect_slice; unfold tk_len, ce_len; cbn [tk_evs tk_pos tk_end snd]; fold tss zs; try done || lia.
  cbn [snd]. rewrite (take_ge _ (length tss - pp)) by (rewrite length_drop; lia).
  split; [|split].
  - replace (drop pp zs) with (drop (pp - pos) (drop pos zs)) by (rewrite drop_drop; f_equal; lia). apply take_drop.
  - apply Forall_lookup. intros i e He. apply lookup_take_Some in He as [He Hi]. rewrite lookup_drop in He.
    apply (Hlow (pos + i)%nat); [lia|]. by apply Hz.
  - apply Forall_lookup. intros i e He. rewrite lookup_drop in He. apply (Hhigh (pp + i)%nat); [lia|]. by apply Hz.
Qed.

End EventsTheorems.

(** An instance of the value type for the witnesses. *)
#[local] Instance EventValueType_Z : EventValueType Z :=
  {| ev_byte_estimate := fun _ => 8; ev_cmp_a := fun a b => Some (Z.compare a b) |}.

Definition demo_events : ContainerEvents Z := ce_from_constituents [10; 20; 20; 35] [1; 2; 3; 4].

Lemma ce_find_spec_witness : ce_find_lowest_index_gt demo_events 20 = Some 3%nat /\
  (35 > 20 <-> exists n, ce_find_lowest_index_gt demo_events 20 = Some n /\ (n <= 3)%nat).
Proof.
  split; [reflexivity|].
  refine (proj1 (proj1 (ce_find_spec demo_events 20 _) 3%nat 35 _)); [|reflexivity].
  repeat constructor; lia.
Defined.

Lemma ce_retain_unique_spec_witness :
  ce_tss (ce_retain_unique_ts demo_events 10) = [20; 35] /\
  (forall x, x ∈ ce_tss (ce_retain_unique_ts demo_events 10) <-> x ∈ ce_tss demo_events /\ 10 < x).
Proof.
  split; [reflexivity|].
  refine (proj2 (proj2 (proj2 (proj2 (ce_retain_unique_spec demo_events 10 _)))) _); [reflexivity|].
  repeat constructor; lia.
Defined.

Lemma tk_take_up_to_witness :
  exists t t' xs, @tk_constrain_up_to_ts Z events_error (mkTakeUpTo demo_events 4 1) 30 = Ok t /\
  tk_collect 5 t = (t', xs) /\ xs ++ (tk_collect 5 (tk_extend_to_all t')).2 = [(20, 2); (20, 3); (35, 4)].
Proof.
  destruct (tk_take_up_to demo_events 1 4 30 5) as (t & t' & xs & H1 & H2 & H3 & _);
    [reflexivity | by repeat constructor | by apply (bool_decide_unpack _) | by repeat constructor | by apply (bool_decide_unpack _) |].
  exists t, t', xs. split; [exact H1|]. split; [exact H2|]. exact H3.
Defined.
