(* ===== verification/Merger.v ===== *)
(** * Merging event streams

    [Merger] of [daqbuf-items-2/src/merger.rs]: it holds the current item of
    every input, moves events in time order into an output item, and discards
    events of the other inputs that carry a timestamp just emitted. It is
    generic over [MergeableTy]; the theorems use the laws of that interface.

    An input is the list of what its polls return, followed by its end. *)
From Stdlib Require Import ZArith Lia.
From stdpp Require Import base numbers option strings list sorting.
From S2P Require Import Prelude Items Events.

#[local] Open Scope Z_scope.
#[local] Open Scope rust_scope.

Definition OUT_MAX_BYTES : Z := 1024 * 1024 * 20.

Inductive merger_error (E : Type) : Type :=
  | NoPendingButMissing
  | MergeInput (e : E)
  | ShouldFindTsMin
  | ItemShouldHaveTsMax
  | PartialPathDrainedAllItems
  | InputNotMonotonic
  | MergeLogic.
Arguments NoPendingButMissing {E}.
Arguments MergeInput {E} e.
Arguments ShouldFindTsMin {E}.
Arguments ItemShouldHaveTsMax {E}.
Arguments PartialPathDrainedAllItems {E}.
Arguments InputNotMonotonic {E}.
Arguments MergeLogic {E}.

Record MergerStats : Type := mkStats {
  st_process_item_empty : Z;
  st_take_item_single_inp_cnt : Z;
  st_take_item_full_cnt : Z;
  st_take_item_partial_cnt : Z
}.

Section Merger.
  Context {T : Type} `{MergeableTy T} {L St E : Type}.

Definition MItem : Type := Sitemty L St E T.
Definition MergeInp : Type := list (Poll MItem).
Definition merr : Type := merger_error E.

(** Errors leave as stream items; [MOutErr] is one made of a merger error. *)
Inductive MOut : Type :=
  | MOutItem (i : MItem)
  | MOutErr (e : merr).

Record Merger : Type := mkMerger {
  mg_inps : list (option MergeInp);
  mg_items : list (option T);
  mg_out : option T;
  mg_do_clear_out : bool;
  mg_out_max_len : nat;
  mg_range_complete : list bool;
  mg_outbuf : list MItem;
  mg_log_queue : list L;
  mg_dim0ix_max : Z;
  mg_done_inp : bool;
  mg_done_range_complete : bool;
  mg_complete : bool;
  mg_stats : MergerStats
}.

Definition mg_new (inps : list MergeInp) (out_max_len : option nat) : Merger :=
  let n := length inps in
  mkMerger (map Some inps) (replicate n None) None false (default 1000%nat out_max_len) (replicate n false)
    [] [] 0 false false false (mkStats 0 0 0 0).

(** Field updates. *)
Definition set_items (m : Merger) (items : list (option T)) : Merger :=
  mkMerger (mg_inps m) items (mg_out m) (mg_do_clear_out m) (mg_out_max_len m) (mg_range_complete m) (mg_outbuf m)
    (mg_log_queue m) (mg_dim0ix_max m) (mg_done_inp m) (mg_done_range_complete m) (mg_complete m) (mg_stats m).
Definition set_out (m : Merger) (out : option T) : Merger :=
  mkMerger (mg_inps m) (mg_items m) out (mg_do_clear_out m) (mg_out_max_len m) (mg_range_complete m) (mg_outbuf m)
    (mg_log_queue m) (mg_dim0ix_max m) (mg_done_inp m) (mg_done_range_complete m) (mg_complete m) (mg_stats m).
Definition set_do_clear_out (m : Merger) (b : bool) : Merger :=
  mkMerger (mg_inps m) (mg_items m) (mg_out m) b (mg_out_max_len m) (mg_range_complete m) (mg_outbuf m)
    (mg_log_queue m) (mg_dim0ix_max m) (mg_done_inp m) (mg_done_range_complete m) (mg_complete m) (mg_stats m).
Definition set_outbuf (m : Merger) (buf : list MItem) : Merger :=
  mkMerger (mg_inps m) (mg_items m) (mg_out m) (mg_do_clear_out m) (mg_out_max_len m) (mg_range_complete m) buf
    (mg_log_queue m) (mg_dim0ix_max m) (mg_done_inp m) (mg_done_range_complete m) (mg_complete m) (mg_stats m).
Definition set_log_queue (m : Merger) (q : list L) : Merger :=
  mkMerger (mg_inps m) (mg_items m) (mg_out m) (mg_do_clear_out m) (mg_out_max_len m) (mg_range_complete m) (mg_outbuf m)
    q (mg_dim0ix_max m) (mg_done_inp m) (mg_done_range_complete m) (mg_complete m) (mg_stats m).
Definition set_dim0ix_max (m : Merger) (d : Z) : Merger :=
  mkMerger (mg_inps m) (mg_items m) (mg_out m) (mg_do_clear_out m) (mg_out_max_len m) (mg_range_complete m) (mg_outbuf m)
    (mg_log_queue m) d (mg_done_inp m) (mg_done_range_complete m) (mg_complete m) (mg_stats m).
Definition set_done (m : Merger) (inp rc complete : bool) : Merger :=
  mkMerger (mg_inps m) (mg_items m) (mg_out m) (mg_do_clear_out m) (mg_out_max_len m) (mg_range_complete m) (mg_outbuf m)
    (mg_log_queue m) (mg_dim0ix_max m) inp rc complete (mg_stats m).
Definition set_stats (m : Merger) (st : MergerStats) : Merger :=
  mkMerger (mg_inps m) (mg_items m) (mg_out m) (mg_do_clear_out m) (mg_out_max_len m) (mg_range_complete m) (mg_outbuf m)
    (mg_log_queue m) (mg_dim0ix_max m) (mg_done_inp m) (mg_done_range_complete m) (mg_complete m) st.
Definition set_refilled (m : Merger) (inps : list (option MergeInp)) (items : list (option T)) (rc : list bool)
    (buf : list MItem) : Merger :=
  mkMerger inps items (mg_out m) (mg_do_clear_out m) (mg_out_max_len m) rc buf
    (mg_log_queue m) (mg_dim0ix_max m) (mg_done_inp m) (mg_done_range_complete m) (mg_complete m) (mg_stats m).

(** ** Draining *)

Definition mg_drain_into_dst_upto (src dst : T) (upto : Z) : outcome merr (T * T * DrainIntoDstResult) :=
  match mt_find_lowest_index_gt src upto with
  | Some ilgt => mt_drain_into src dst 0 ilgt
  | None => mt_drain_into src dst 0 (mt_len src)
  end.

Definition mg_drain_into_new_upto (src : T) (upto : Z) : outcome merr (T * DrainIntoNewResult T) :=
  match mt_find_lowest_index_gt src upto with
  | Some ilgt => mt_drain_into_new src 0 ilgt
  | None => mt_drain_into_new src 0 (mt_len src)
  end.

(** The new merger, what is left of the source, and the result. *)
Definition mg_take_into_output_upto (m : Merger) (src : T) (upto : Z)
    : outcome merr (Merger * T * DrainIntoDstResult) :=
  match mg_out m with
  | Some out =>
      let? (src, out, r) := mg_drain_into_dst_upto src out upto in
      Ok (set_out m (Some out), src, r)
  | None =>
      let? (src, r) := mg_drain_into_new_upto src upto in
      match r with
      | NewDone x => Ok (set_out m (Some x), src, DstDone)
      | NewPartial x => Ok (set_out m (Some x), src, DstPartial)
      | NewNotCompatible => Ok (m, src, DstNotCompatible)
      end
  end.

Definition mg_take_into_output_all (m : Merger) (src : T) : outcome merr (Merger * T * DrainIntoDstResult) :=
  mg_take_into_output_upto m src (2 ^ 64 - 1).

Definition mg_take_outbuf_filtered (m : Merger) : Merger * option T := (set_out m None, mg_out m).

(** ** [process] *)

(** The two lowest first timestamps with their inputs; [inl] the first input
    whose item is empty, where the search stops. *)
Fixpoint mg_tslows (i1 : nat) (items : list (option T)) (lo0 lo1 : option (nat * Z))
    : nat + (option (nat * Z) * option (nat * Z)) :=
  match items with
  | [] => inr (lo0, lo1)
  | None :: items => mg_tslows (i1 + 1) items lo0 lo1
  | Some item :: items =>
      match mt_ts_min item with
      | Some t1 =>
          match lo0 with
          | Some (_, a) =>
              if t1 <? a then mg_tslows (i1 + 1) items (Some (i1, t1)) lo0
              else
                match lo1 with
                | Some (_, b) =>
                    if t1 <? b then mg_tslows (i1 + 1) items lo0 (Some (i1, t1))
                    else mg_tslows (i1 + 1) items lo0 lo1
                | None => mg_tslows (i1 + 1) items lo0 (Some (i1, t1))
                end
          | None => mg_tslows (i1 + 1) items (Some (i1, t1)) lo1
          end
      | None => inl i1
      end
  end.

(** [self.dim0ix_max = self.out.as_ref().unwrap().ts_max().unwrap()]. *)
Definition mg_update_dim0ix_max (m : Merger) : Merger * outcome merr unit :=
  match mg_out m with
  | Some out =>
      match mt_ts_max out with
      | Some t => (set_dim0ix_max m t, Ok tt)
      | None => (m, Panic)
      end
  | None => (m, Panic)
  end.

Definition mg_put_back (m : Merger) (il0 : nat) (item : T) : Merger :=
  set_items m (<[il0 := Some item]> (mg_items m)).

(** The matches on the result of a take: whole item, and partial item. *)
Definition mg_after_take_all (m : Merger) (il0 : nat) (taken : outcome merr (Merger * T * DrainIntoDstResult))
    : Merger * outcome merr unit :=
  match taken with
  | Ok (m, item, DstDone) => mg_update_dim0ix_max m
  | Ok (m, item, DstPartial) => mg_update_dim0ix_max (set_do_clear_out (mg_put_back m il0 item) true)
  | Ok (m, item, DstNotCompatible) => (set_do_clear_out (mg_put_back m il0 item) true, Ok tt)
  | Err e => (m, Err e)
  | Panic => (m, Panic)
  end.

Definition mg_after_take_upto (m : Merger) (il0 : nat) (taken : outcome merr (Merger * T * DrainIntoDstResult))
    : Merger * outcome merr unit :=
  match taken with
  | Ok (m, item, DstDone) =>
      if (mt_len item =? 0)%nat then (m, Err PartialPathDrainedAllItems)
      else mg_update_dim0ix_max (mg_put_back m il0 item)
  | Ok (m, item, DstPartial) => mg_update_dim0ix_max (set_do_clear_out (mg_put_back m il0 item) true)
  | Ok (m, item, DstNotCompatible) => (set_do_clear_out (mg_put_back m il0 item) true, Ok tt)
  | Err e => (m, Err e)
  | Panic => (m, Panic)
  end.

Definition stat_single (st : MergerStats) : MergerStats :=
  mkStats (st_process_item_empty st) (u32_add (st_take_item_single_inp_cnt st) 1) (st_take_item_full_cnt st) (st_take_item_partial_cnt st).
Definition stat_full (st : MergerStats) : MergerStats :=
  mkStats (st_process_item_empty st) (st_take_item_single_inp_cnt st) (u32_add (st_take_item_full_cnt st) 1) (st_take_item_partial_cnt st).
Definition stat_partial (st : MergerStats) : MergerStats :=
  mkStats (st_process_item_empty st) (st_take_item_single_inp_cnt st) (st_take_item_full_cnt st) (u32_add (st_take_item_partial_cnt st) 1).
Definition stat_empty (st : MergerStats) : MergerStats :=
  mkStats (u32_add (st_process_item_empty st) 1) (st_take_item_single_inp_cnt st) (st_take_item_full_cnt st) (st_take_item_partial_cnt st).

(** [self.items[il0].take().unwrap()]. *)
Definition mg_take_item (m : Merger) (il0 : nat) : option (Merger * T) :=
  match mg_items m !! il0 with
  | Some (Some item) => Some (set_items m (<[il0 := None]> (mg_items m)), item)
  | _ => None
  end.

(** The part of [process] that moves events into the output. *)
Definition mg_process_take (m : Merger) (lo0 lo1 : option (nat * Z)) : Merger * outcome merr unit :=
  match lo0 with
  | Some (il0, _) =>
      match mg_take_item m il0 with
      | None => (m, Panic)
      | Some (mt, item) =>
          match lo1 with
          | Some (_, tl1) =>
              match mt_ts_max item with
              | Some th0 =>
                  if th0 <=? tl1 then
                    let m := set_stats mt (stat_full (mg_stats mt)) in
                    mg_after_take_all m il0 (mg_take_into_output_all m item)
                  else
                    let m := set_stats mt (stat_partial (mg_stats mt)) in
                    mg_after_take_upto m il0 (mg_take_into_output_upto m item tl1)
              | None => (m, Err ItemShouldHaveTsMax)
              end
          | None =>
              let m := set_stats mt (stat_single (mg_stats mt)) in
              mg_after_take_all m il0 (mg_take_into_output_all m item)
          end
      end
  | None => (m, Err ShouldFindTsMin)
  end.

(** The inner [loop] that discards the events of an item up to a time; an item
    that stays partial for as many turns as it has events would loop on, the
    model reports [Panic] then. *)
Fixpoint mg_discard_item (fuel : nat) (item : T) (upto : Z) : outcome merr T :=
  match fuel with
  | O => Panic
  | S fuel =>
      match mt_ts_min item with
      | Some ts_min =>
          if ts_min <=? upto then
            let? (item, r) := mg_drain_into_new_upto item upto in
            match r with
            | NewDone _ => Ok item
            | NewPartial _ => mg_discard_item fuel item upto
            | NewNotCompatible => Err MergeLogic
            end
          else Ok item
      | None => Ok item
      end
  end.

(** The [for] loop over the items: the items done so far keep their change
    when a later one fails. *)
Fixpoint mg_discard_items (items : list (option T)) (upto : Z) : list (option T) * outcome merr unit :=
  match items with
  | [] => ([], Ok tt)
  | None :: items => let '(items, r) := mg_discard_items items upto in (None :: items, r)
  | Some item :: items =>
      match mg_discard_item (mt_len item + 1) item upto with
      | Ok item => let '(items, r) := mg_discard_items items upto in (Some item :: items, r)
      | Err e => (Some item :: items, Err e)
      | Panic => (Some item :: items, Panic)
      end
  end.

Definition mg_process (m : Merger) : Merger * outcome merr unit :=
  match mg_tslows 0 (mg_items m) None None with
  | inl i1 =>
      (set_stats (set_items m (<[i1 := None]> (mg_items m))) (stat_empty (mg_stats m)), Ok tt)
  | inr (lo0, lo1) =>
      let m := match lo0 with
               | Some (_, t1) => if t1 <=? mg_dim0ix_max m then set_dim0ix_max m t1 else m
               | None => m
               end in
      let '(m, ret) := mg_process_take m lo0 lo1 in
      match ret with
      | Panic => (m, Panic)
      | _ =>
          match lo1 with
          | Some (_, tl1) =>
              if tl1 <=? mg_dim0ix_max m then
                let '(items, r) := mg_discard_items (mg_items m) (mg_dim0ix_max m) in
                match r with
                | Ok _ => (set_items m items, ret)
                | Err e => (set_items m items, Err e)
                | Panic => (set_items m items, Panic)
                end
              else (m, ret)
          | None => (m, ret)
          end
      end
  end.

(** ** [refill] *)

(** What polling one input until it has an item, an end or nothing yet does:
    the input, the item, whether it is pending, its range flag, the buffer. *)
Record Refilled : Type := mkRefilled {
  rf_inp : option MergeInp;
  rf_item : option T;
  rf_pending : bool;
  rf_rc : bool;
  rf_outbuf : list MItem
}.

Fixpoint mg_refill_one (inp : MergeInp) (rc : bool) (outbuf : list MItem) : Refilled * outcome merr unit :=
  match inp with
  | [] => (mkRefilled None None false rc outbuf, Ok tt)
  | Ready (SOk (DataItem (Data k))) :: inp =>
      if negb (mt_is_monotonic k) then (mkRefilled (Some inp) None false rc outbuf, Err InputNotMonotonic)
      else (mkRefilled (Some inp) (Some k) false rc outbuf, Ok tt)
  | Ready (SOk (DataItem RangeComplete)) :: inp => mg_refill_one inp true outbuf
  | Ready (SOk (Log item)) :: inp => mg_refill_one inp rc (outbuf ++ [SOk (Log item)])
  | Ready (SOk (Stats item)) :: inp => mg_refill_one inp rc (outbuf ++ [SOk (Stats item)])
  | Ready (SErr e) :: inp => (mkRefilled None None false rc outbuf, Err (MergeInput e))
  | Pending :: inp => (mkRefilled (Some inp) None true rc outbuf, Ok tt)
  end.

(** The [for] loop over the inputs; the inputs after one that fails are not
    polled. *)
Fixpoint mg_refill_loop (inps : list (option MergeInp)) (items : list (option T)) (rcs : list bool)
    (outbuf : list MItem) (has_pending : bool)
    : list (option MergeInp) * list (option T) * list bool * list MItem * outcome merr bool :=
  match inps, items, rcs with
  | Some inp :: inps, None :: items, rc :: rcs =>
      let '(rf, r) := mg_refill_one inp rc outbuf in
      match r with
      | Ok _ =>
          let '(inps', items', rcs', outbuf', r) :=
            mg_refill_loop inps items rcs (rf_outbuf rf) (has_pending || rf_pending rf) in
          (rf_inp rf :: inps', rf_item rf :: items', rf_rc rf :: rcs', outbuf', r)
      | Err e => (rf_inp rf :: inps, rf_item rf :: items, rf_rc rf :: rcs, rf_outbuf rf, Err e)
      | Panic => (rf_inp rf :: inps, rf_item rf :: items, rf_rc rf :: rcs, rf_outbuf rf, Panic)
      end
  | inp :: inps, item :: items, rc :: rcs =>
      let '(inps', items', rcs', outbuf', r) := mg_refill_loop inps items rcs outbuf has_pending in
      (inp :: inps', item :: items', rc :: rcs', outbuf', r)
  | _, _, _ => (inps, items, rcs, outbuf, Ok has_pending)
  end.

Definition mg_refill (m : Merger) : Merger * outcome merr (Poll unit) :=
  let '(inps, items, rcs, outbuf, r) :=
    mg_refill_loop (mg_inps m) (mg_items m) (mg_range_complete m) (mg_outbuf m) false in
  (set_refilled m inps items rcs outbuf,
   let? has_pending := r in Ok (if has_pending : bool then Pending else Ready tt)).

(** ** Polling *)

(** [ControlFlow<Poll<Option<Error>>>], or a panic. *)
Inductive mg_flow : Type :=
  | Continue
  | Break (p : Poll (option merr))
  | FlowPanic.

Definition mg_missing (m : Merger) : nat :=
  length (filter (fun p : option MergeInp * option T => is_Some p.1 /\ p.2 = None) (zip (mg_inps m) (mg_items m))).

Definition mg_nitems (m : Merger) : nat := length (omap id (mg_items m)).

(** The end of [poll3]: emit the output item when it is large enough. *)
Definition mg_emit (m : Merger) (last_emit : bool) : Merger * mg_flow :=
  match mg_out m with
  | Some out =>
      let '(out, est) := mt_byte_estimate out in
      let m := set_out m (Some out) in
      if (mg_out_max_len m <=? mt_len out)%nat || (OUT_MAX_BYTES <=? est) || mg_do_clear_out m || last_emit then
        let m := set_do_clear_out m false in
        let '(m, o) := mg_take_outbuf_filtered m in
        match o with
        | Some out => (set_outbuf m (mg_outbuf m ++ [SOk (DataItem (Data out))]), Continue)
        | None => (m, Continue)
        end
      else (m, Continue)
  | None => if last_emit then (m, Break (Ready None)) else (m, Continue)
  end.

Definition mg_poll3 (m : Merger) : Merger * mg_flow :=
  let nitems := mg_nitems m in
  if negb (mg_missing m =? 0)%nat then (m, Break (Ready (Some NoPendingButMissing)))
  else
    let last_emit := (nitems =? 0)%nat in
    if negb (nitems =? 0)%nat then
      match mg_process m with
      | (m, Ok _) => mg_emit m last_emit
      | (m, Err e) => (m, Break (Ready (Some e)))
      | (m, Panic) => (m, FlowPanic)
      end
    else mg_emit m last_emit.

Definition mg_poll2 (m : Merger) : Merger * mg_flow :=
  match mg_refill m with
  | (m, Ok (Ready _)) => mg_poll3 m
  | (m, Ok Pending) => (m, Break Pending)
  | (m, Err e) => (m, Break (Ready (Some e)))
  | (m, Panic) => (m, FlowPanic)
  end.

(** A poll ends in a panic, in nothing when the fuel does not suffice for the
    turns of its loop, or in a result. *)
Inductive mg_result : Type :=
  | MgPanic
  | MgOutOfFuel
  | MgPoll (p : Poll (option MOut)).

Fixpoint mg_poll_next (fuel : nat) (m : Merger) : Merger * mg_result :=
  match fuel with
  | O => (m, MgOutOfFuel)
  | S fuel =>
      if mg_complete m then (m, MgPanic)
      else if mg_done_range_complete m then
        (set_done m (mg_done_inp m) (mg_done_range_complete m) true, MgPoll (Ready None))
      else
        match mg_log_queue m with
        | item :: q => (set_log_queue m q, MgPoll (Ready (Some (MOutItem (SOk (Log item))))))
        | [] =>
            match mg_outbuf m with
            | item :: buf => (set_outbuf m buf, MgPoll (Ready (Some (MOutItem item))))
            | [] =>
                if negb (mg_done_inp m) then
                  match mg_poll2 m with
                  | (m, Continue) => mg_poll_next fuel m
                  | (m, Break (Ready (Some e))) =>
                      (set_done m true (mg_done_range_complete m) (mg_complete m), MgPoll (Ready (Some (MOutErr e))))
                  | (m, Break (Ready None)) =>
                      let m := set_done m true (mg_done_range_complete m) (mg_complete m) in
                      let '(m, o) := mg_take_outbuf_filtered m in
                      match o with
                      | Some out => mg_poll_next fuel (set_outbuf m (mg_outbuf m ++ [SOk (DataItem (Data out))]))
                      | None => mg_poll_next fuel m
                      end
                  | (m, Break Pending) => (m, MgPoll Pending)
                  | (m, FlowPanic) => (m, MgPanic)
                  end
                else
                  let m := set_done m (mg_done_inp m) true (mg_complete m) in
                  if forallb id (mg_range_complete m)
                  then mg_poll_next fuel (set_outbuf m (mg_outbuf m ++ [SOk (DataItem RangeComplete)]))
                  else mg_poll_next fuel m
            end
        end
  end.

(** A consumer that polls until the end. *)
Fixpoint mg_drain (polls fuel : nat) (m : Merger) : option (list MOut) :=
  match polls with
  | O => None
  | S polls =>
      match mg_poll_next fuel m with
      | (m, MgPoll (Ready (Some item))) => items ← mg_drain polls fuel m; Some (item :: items)
      | (m, MgPoll (Ready None)) => Some []
      | (m, MgPoll Pending) => mg_drain polls fuel m
      | (_, MgPanic) | (_, MgOutOfFuel) => None
      end
  end.

End Merger.
