(* ===== verification/MergerProofs.v ===== *)
(** * The merger merges

    What [Merger] guarantees for inputs whose events ascend in time: the output
    ascends, contains every timestamp of every input, and nothing else; and the
    merger ends. The argument is over the lists of pending events of the inputs
    ([merge_inv], [merge_step]); the code is then shown to take such steps. *)
From Stdlib Require Import ZArith Lia.
From stdpp Require Import base numbers option strings list sorting.
From S2P Require Import Prelude Items Events Merger.

#[local] Open Scope Z_scope.

(** ** Merging lists of events *)
Section Abstract.
  Context {V : Type}.
Implicit Types p q O : list (Z * V).
Implicit Types pes orig : list (list (Z * V)).

(** [O] has been put out, [pes] are the events each input has yet to deliver,
    [orig] the events each input delivers in all. *)
Record merge_inv (orig : list (list (Z * V))) (O : list (Z * V)) (pes : list (list (Z * V))) : Prop := {
  mi_length : length pes = length orig;
  mi_sorted_out : StronglySorted Z.le O.*1;
  mi_sorted_in : Forall (fun p => StronglySorted Z.le p.*1) pes;
  mi_order : forall p o e, p ∈ pes -> o ∈ O -> e ∈ p -> o.1 <= e.1;
  mi_suffix : forall j p q, pes !! j = Some p -> orig !! j = Some q -> exists q0, q = q0 ++ p;
  mi_all : exists dropped, concat orig ≡ₚ O ++ dropped ++ concat pes /\
    forall e, e ∈ dropped -> exists o, o ∈ O /\ o.1 = e.1
}.

(** One move: the first events of input [i] go out, none later than what any
    other input still has; the others may lose events whose time just went out. *)
Record merge_step (i : nat) (taken rest : list (Z * V)) (pes pes' : list (list (Z * V))) : Prop := {
  ms_length : length pes' = length pes;
  ms_from : pes !! i = Some (taken ++ rest);
  ms_rest : pes' !! i = Some rest;
  ms_low : forall j p e o, j <> i -> pes !! j = Some p -> e ∈ p -> o ∈ taken -> o.1 <= e.1;
  ms_others : forall j p, j <> i -> pes !! j = Some p ->
    exists k, pes' !! j = Some (drop k p) /\ forall e, e ∈ take k p -> exists o, o ∈ taken /\ o.1 = e.1
}.

Lemma sorted_fst_drop p k : StronglySorted Z.le p.*1 -> StronglySorted Z.le (drop k p).*1.
Proof.
  intros Hs. rewrite <- (take_drop k p), fmap_app in Hs. by apply sorted_app_inv in Hs as (_ & ? & _).
Qed.

Lemma merge_inv_init orig :
  Forall (fun p => StronglySorted Z.le p.*1) orig -> merge_inv orig [] orig.
Proof.
  intros Hs. split; try done.
  - constructor.
  - intros p o e _ Ho. by apply not_elem_of_nil in Ho.
  - intros j p q Hp Hq. exists []. simplify_eq. done.
  - exists []. split; [done|]. intros e He. by apply not_elem_of_nil in He.
Qed.

(** Every pending list after a step is a suffix of the one before. *)
Lemma merge_step_suffix i taken rest pes pes' j p' :
  merge_step i taken rest pes pes' -> pes' !! j = Some p' ->
  exists p k, pes !! j = Some p /\ p' = drop k p /\ forall e, e ∈ take k p -> exists o, o ∈ taken /\ o.1 = e.1.
Proof.
  intros Hst Hp'. destruct (decide (j = i)) as [->|Hne].
  - rewrite (ms_rest _ _ _ _ _ Hst) in Hp'. injection Hp' as <-.
    exists (taken ++ rest), (length taken). split; [apply Hst|]. split; [by rewrite drop_app_length|].
    intros e. rewrite take_app_length. eauto.
  - destruct (lookup_lt_is_Some_2 pes j) as [p Hp].
    { rewrite <- (ms_length _ _ _ _ _ Hst). by eapply lookup_lt_Some. }
    destruct (ms_others _ _ _ _ _ Hst j p Hne Hp) as (k & Hk & He). exists p, k. by simplify_eq.
Qed.

Lemma concat_zip_app (hs ps : list (list (Z * V))) :
  length hs = length ps -> concat (zip_with app hs ps) ≡ₚ concat hs ++ concat ps.
Proof.
  revert ps. induction hs as [|h hs IH]; intros [|p ps] Hl; simplify_eq/=; [done|].
  rewrite IH by done. solve_Permutation.
Qed.

Lemma concat_delete (hs : list (list (Z * V))) i h : hs !! i = Some h -> concat hs ≡ₚ h ++ concat (delete i hs).
Proof.
  revert i. induction hs as [|h' hs IH]; intros [|i] Hi; simplify_eq/=; [done|].
  rewrite (IH i Hi). solve_Permutation.
Qed.

(** A step loses no event: they go out, stay, or are dropped because their time
    just went out. *)
Lemma merge_step_perm i taken rest pes pes' :
  merge_step i taken rest pes pes' ->
  exists ds, concat pes ≡ₚ taken ++ ds ++ concat pes' /\ forall e, e ∈ ds -> exists o, o ∈ taken /\ o.1 = e.1.
Proof.
  intros Hst. set (hs := zip_with (fun p p' => take (length p - length p') p) pes pes').
  assert (Hl : length hs = length pes') by (unfold hs; rewrite length_zip_with, (ms_length _ _ _ _ _ Hst); lia).
  assert (Hhs : forall j p', pes' !! j = Some p' -> exists p h, pes !! j = Some p /\ hs !! j = Some h /\ p = h ++ p' /\
    (j = i -> h = taken) /\ forall e, e ∈ h -> exists o, o ∈ taken /\ o.1 = e.1).
  { intros j p' Hp'. destruct (merge_step_suffix _ _ _ _ _ _ _ Hst Hp') as (p & k & Hp & -> & Hk).
    exists p, (take (length p - length (drop k p)) p).
    assert (Htk : take (length p - length (drop k p)) p = take k p).
    { rewrite length_drop. destruct (Nat.le_ge_cases k (length p)); [f_equal; lia|]. rewrite !take_ge by lia. done. }
    split; [done|]. split; [unfold hs; by rewrite lookup_zip_with, Hp; simpl; rewrite Hp'|].
    rewrite Htk. split; [by rewrite take_drop|]. split; [|done].
    intros ->. rewrite (ms_rest _ _ _ _ _ Hst) in Hp'. injection Hp' as Hp'.
    rewrite (ms_from _ _ _ _ _ Hst) in Hp. injection Hp as <-. rewrite <- Htk, <- Hp', length_app.
    replace (length taken + length rest - length rest)%nat with (length taken) by lia. apply take_app_length. }
  assert (Hpes : pes = zip_with app hs pes').
  { apply list_eq. intros j. rewrite lookup_zip_with. destruct (pes' !! j) as [p'|] eqn:Hp'.
    - destruct (Hhs j p' Hp') as (p & h & -> & -> & -> & _). done.
    - apply lookup_ge_None in Hp'. rewrite (ms_length _ _ _ _ _ Hst) in Hp'.
      rewrite (proj2 (lookup_ge_None pes j)) by done. by destruct (hs !! j). }
  exists (concat (delete i hs)). destruct (Hhs i rest (ms_rest _ _ _ _ _ Hst)) as (_ & h & _ & Hi & _ & Hh & _).
  rewrite (Hh eq_refl) in Hi. split.
  - rewrite Hpes at 1. rewrite concat_zip_app, (concat_delete hs i taken) by done. by rewrite app_assoc.
  - intros e (h' & Hh' & He)%list_elem_of_In%in_concat. apply list_elem_of_In in Hh', He.
    apply list_elem_of_lookup in Hh' as [j Hj].
    assert (exists j', hs !! j' = Some h') as [j' Hj'].
    { destruct (Nat.lt_ge_cases j i); [rewrite list_lookup_delete_lt in Hj by done|rewrite list_lookup_delete_ge in Hj by done]; eauto. }
    destruct (lookup_lt_is_Some_2 pes' j') as [p' Hp'].
    { rewrite <- Hl. by eapply lookup_lt_Some. }
    destruct (Hhs j' p' Hp') as (_ & h'' & _ & Hj'' & _ & _ & Hin). simplify_eq. by apply Hin.
Qed.

Lemma merge_inv_step orig O i taken rest pes pes' :
  merge_inv orig O pes -> merge_step i taken rest pes pes' -> merge_inv orig (O ++ taken) pes'.
Proof.
  intros Hinv Hst. pose proof (ms_from _ _ _ _ _ Hst) as Hfrom.
  assert (Hin : taken ++ rest ∈ pes) by (by eapply list_elem_of_lookup_2).
  assert (Hsi : StronglySorted Z.le (taken ++ rest).*1).
  { pose proof (mi_sorted_in _ _ _ Hinv) as Hs. rewrite Forall_forall in Hs. by apply Hs. }
  rewrite fmap_app in Hsi. apply sorted_app_inv in Hsi as (Hst1 & Hst2 & Hst3).
  assert (Hsuf := merge_step_suffix i taken rest pes pes').
  split.
  - rewrite (ms_length _ _ _ _ _ Hst). apply Hinv.
  - rewrite fmap_app. apply sorted_app; [apply Hinv|done|].
    intros x y (o & -> & Ho)%list_elem_of_fmap (e & -> & He)%list_elem_of_fmap.
    eapply (mi_order _ _ _ Hinv); [exact Hin|done|]. apply elem_of_app. by left.
  - apply Forall_forall. intros p' (j & Hj)%list_elem_of_lookup.
    destruct (Hsuf j p' Hst Hj) as (p & k & Hp & -> & _). apply sorted_fst_drop.
    pose proof (mi_sorted_in _ _ _ Hinv) as Hs. rewrite Forall_forall in Hs. apply Hs. by eapply list_elem_of_lookup_2.
  - intros p' o e (j & Hj)%list_elem_of_lookup Ho He.
    destruct (Hsuf j p' Hst Hj) as (p & k & Hp & -> & _).
    assert (He' : e ∈ p) by (rewrite <- (take_drop k p); apply elem_of_app; by right).
    apply elem_of_app in Ho as [Ho|Ho].
    { eapply (mi_order _ _ _ Hinv); [by eapply list_elem_of_lookup_2|done|done]. }
    destruct (decide (j = i)) as [->|Hne]; [|by apply (ms_low _ _ _ _ _ Hst j p e o)].
    rewrite (ms_rest _ _ _ _ _ Hst) in Hj. injection Hj as Hj. rewrite <- Hj in He.
    apply Hst3; apply list_elem_of_fmap; eauto.
  - intros j p' q Hp' Hq. destruct (Hsuf j p' Hst Hp') as (p & k & Hp & -> & _).
    destruct (mi_suffix _ _ _ Hinv j p q Hp Hq) as [q0 ->]. exists (q0 ++ take k p).
    by rewrite <- app_assoc, take_drop.
  - destruct (mi_all _ _ _ Hinv) as (dr & Hperm & Hdr). destruct (merge_step_perm _ _ _ _ _ Hst) as (ds & Hds & Hse).
    exists (dr ++ ds). split.
    + rewrite Hperm, Hds. solve_Permutation.
    + intros e [(o & Ho & Hoe)%Hdr|(o & Ho & Hoe)%Hse]%elem_of_app; exists o; rewrite elem_of_app; auto.
Qed.

End Abstract.

(** ** The code takes such steps *)
Section Concrete.
  Context {T V : Type} `{MergeableLaws T V} {L St E : Type}.
Abbreviation MergerT := (Merger (T := T) (L := L) (St := St) (E := E)).
Abbreviation ItemT := (MItem (T := T) (L := L) (St := St) (E := E)).
Abbreviation InpT := (MergeInp (T := T) (L := L) (St := St) (E := E)).
Abbreviation MErrT := (merr (E := E)).

Definition item_events (it : option T) : list (Z * V) := from_option mt_events [] it.

Definition inp_events (inp : option InpT) : list (Z * V) := from_option polls_events [] inp.

(** What each input has yet to deliver, and what is on its way out. *)
Definition mg_pes (m : MergerT) : list (list (Z * V)) :=
  zip_with (fun inp it => item_events it ++ inp_events inp) (mg_inps m) (mg_items m).

Definition mg_outs (m : MergerT) : list (Z * V) :=
  concat (map sitem_events (mg_outbuf m)) ++ item_events (mg_out m).

Definition opt_wf (it : option T) : Prop := from_option mt_wf True it.

(** ** Draining *)

Definition upto_n (evs : list (Z * V)) (upto : Z) : nat := partition_point (fun x => x <=? upto) evs.*1.

Lemma upto_n_le evs upto : (upto_n evs upto <= length evs)%nat.
Proof. unfold upto_n. rewrite <- (length_fmap fst evs). apply partition_point_le. Qed.

Lemma upto_n_taken evs upto e : e ∈ take (upto_n evs upto) evs -> e.1 <= upto.
Proof.
  intros He. pose proof (partition_point_take (fun x => x <=? upto) evs.*1) as Hf.
  rewrite <- fmap_take, Forall_fmap, Forall_forall in Hf. apply Hf in He. simpl in He. lia.
Qed.

Lemma upto_n_rest evs upto e :
  StronglySorted Z.le evs.*1 -> e ∈ drop (upto_n evs upto) evs -> upto < e.1.
Proof.
  intros Hs (i & Hi)%list_elem_of_lookup. rewrite lookup_drop in Hi.
  apply Z.leb_gt. eapply (partition_point_after (fun x => x <=? upto) evs.*1 _ _ Hs (leb_mono upto)).
  2: { rewrite list_lookup_fmap, Hi. done. } unfold upto_n. lia.
Qed.

Lemma upto_n_all evs upto : (forall e, e ∈ evs -> e.1 <= upto) -> upto_n evs upto = length evs.
Proof.
  unfold upto_n. induction evs as [|e evs IH]; simpl; intros Hle; [done|].
  rewrite (proj2 (Z.leb_le _ _)) by (apply Hle; by left). f_equal. apply IH. intros. apply Hle. by right.
Qed.

Lemma mg_drain_new_spec t upto :
  mt_wf t -> exists t' d, mg_drain_into_new_upto (E := E) t upto = Ok (t', NewDone d) /\ mt_wf t' /\ mt_wf d /\
    mt_events t' = drop (upto_n (mt_events t) upto) (mt_events t) /\
    mt_events d = take (upto_n (mt_events t) upto) (mt_events t).
Proof.
  intros Hw. unfold mg_drain_into_new_upto. rewrite mt_find_gt_eq, mt_len_eq by done. cbv zeta.
  fold (upto_n (mt_events t) upto). pose proof (upto_n_le (mt_events t) upto).
  destruct (Nat.leb_spec (length (mt_events t)) (upto_n (mt_events t) upto)) as [Hle|Hlt].
  - replace (upto_n (mt_events t) upto) with (length (mt_events t)) by lia. by apply mt_drain_into_new_eq.
  - by apply mt_drain_into_new_eq.
Qed.

Lemma mg_drain_dst_spec t dst upto :
  mt_wf t -> mt_wf dst ->
  exists t' d, mg_drain_into_dst_upto (E := E) t dst upto = Ok (t', d, DstDone) /\ mt_wf t' /\ mt_wf d /\
    mt_events t' = drop (upto_n (mt_events t) upto) (mt_events t) /\
    mt_events d = mt_events dst ++ take (upto_n (mt_events t) upto) (mt_events t).
Proof.
  intros Hw Hd. unfold mg_drain_into_dst_upto. rewrite mt_find_gt_eq, mt_len_eq by done. cbv zeta.
  fold (upto_n (mt_events t) upto). pose proof (upto_n_le (mt_events t) upto).
  destruct (Nat.leb_spec (length (mt_events t)) (upto_n (mt_events t) upto)) as [Hle|Hlt].
  - replace (upto_n (mt_events t) upto) with (length (mt_events t)) by lia. by apply mt_drain_into_eq.
  - by apply mt_drain_into_eq.
Qed.

Lemma mg_take_output_spec (m : MergerT) src upto :
  mt_wf src -> opt_wf (mg_out m) ->
  exists o src', mg_take_into_output_upto m src upto = Ok (set_out m (Some o), src', DstDone) /\
    mt_wf o /\ mt_wf src' /\
    mt_events src' = drop (upto_n (mt_events src) upto) (mt_events src) /\
    mt_events o = item_events (mg_out m) ++ take (upto_n (mt_events src) upto) (mt_events src).
Proof.
  intros Hs Ho. unfold mg_take_into_output_upto. destruct (mg_out m) as [out|]; simpl in Ho.
  - destruct (mg_drain_dst_spec src out upto Hs Ho) as (t' & d & -> & ? & ? & ? & ?). cbn [and_then]. eauto 10.
  - destruct (mg_drain_new_spec src upto Hs) as (t' & d & -> & ? & ? & ? & ?). cbn [and_then]. eauto 10.
Qed.

(** ** The two lowest timestamps *)

Definition lows_ok (l : list (option T)) (lo0 lo1 : option (nat * Z)) : Prop :=
  (forall j t, l !! j = Some (Some t) -> exists m, mt_ts_min t = Some m /\
     exists i0 t0, lo0 = Some (i0, t0) /\ t0 <= m /\
       (j <> i0 -> exists i1 t1, lo1 = Some (i1, t1) /\ t1 <= m)) /\
  (forall i0 t0, lo0 = Some (i0, t0) -> exists t, l !! i0 = Some (Some t) /\ mt_ts_min t = Some t0) /\
  (forall i1 t1, lo1 = Some (i1, t1) -> exists i0 t0, lo0 = Some (i0, t0) /\ i1 <> i0 /\ t0 <= t1 /\
     exists t, l !! i1 = Some (Some t)).

Lemma lookup_snoc_Some {A} (l : list A) x j y :
  (l ++ [x]) !! j = Some y <-> l !! j = Some y \/ (j = length l /\ x = y).
Proof.
  destruct (Nat.lt_ge_cases j (length l)) as [Hlt|Hge].
  - rewrite lookup_app_l by done. split; [auto|]. intros [?|[? _]]; [done|lia].
  - rewrite lookup_app_r by done. rewrite list_lookup_singleton_Some. split.
    + intros [? ?]. right. split; [lia|done].
    + intros [Hl|[? ?]]; [apply lookup_lt_Some in Hl; lia|]. split; [lia|done].
Qed.

Lemma lows_ok_none l lo0 lo1 : lows_ok l lo0 lo1 -> lows_ok (l ++ [None]) lo0 lo1.
Proof.
  intros (H1 & H2 & H3). split; [|split].
  - intros j t [Hj|[_ Hj]]%lookup_snoc_Some; [by apply (H1 j t)|done].
  - intros i0 t0 H'. destruct (H2 i0 t0 H') as (t & Ht & Hm). exists t. rewrite lookup_snoc_Some. auto.
  - intros i1 t1 H'. destruct (H3 i1 t1 H') as (i0 & t0 & ? & ? & ? & t & Ht).
    exists i0, t0. repeat (split; [done|]). exists t. rewrite lookup_snoc_Some. auto.
Qed.

(** Adding the item of one more input, in the cases of the code. *)
Lemma lows_ok_first l t t1 :
  mt_ts_min t = Some t1 -> lows_ok l None None -> lows_ok (l ++ [Some t]) (Some (length l, t1)) None.
Proof.
  intros Hm (H1 & _ & _). split; [|split].
  - intros j u [Hj|[-> [= <-]]]%lookup_snoc_Some.
    + destruct (H1 j u Hj) as (? & _ & ? & ? & ? & _). done.
    + exists t1. split; [done|]. exists (length l), t1. split; [done|]. split; [lia|done].
  - intros i0 t0 [= <- <-]. exists t. rewrite lookup_snoc_Some. auto.
  - done.
Qed.

Lemma lows_ok_lower l t t1 i0 a lo1 :
  mt_ts_min t = Some t1 -> t1 < a -> lows_ok l (Some (i0, a)) lo1 ->
  lows_ok (l ++ [Some t]) (Some (length l, t1)) (Some (i0, a)).
Proof.
  intros Hm Hlt (H1 & H2 & H3). destruct (H2 i0 a eq_refl) as (u0 & Hu0 & Hmu0).
  pose proof (lookup_lt_Some _ _ _ Hu0). split; [|split].
  - intros j u [Hj|[-> [= <-]]]%lookup_snoc_Some.
    + destruct (H1 j u Hj) as (m & Hmu & i0' & t0' & [= <- <-] & Hle & _).
      exists m. split; [done|]. exists (length l), t1. split; [done|]. split; [lia|].
      intros _. exists i0, a. auto.
    + exists t1. split; [done|]. exists (length l), t1. split; [done|]. split; [lia|done].
  - intros ? ? [= <- <-]. exists t. rewrite lookup_snoc_Some. auto.
  - intros ? ? [= <- <-]. exists (length l), t1. split; [done|]. split; [lia|]. split; [lia|].
    exists u0. rewrite lookup_snoc_Some. auto.
Qed.

Lemma lows_ok_second l t t1 i0 a lo1 :
  mt_ts_min t = Some t1 -> a <= t1 ->
  (forall i1 b, lo1 = Some (i1, b) -> t1 < b) -> lows_ok l (Some (i0, a)) lo1 ->
  lows_ok (l ++ [Some t]) (Some (i0, a)) (Some (length l, t1)).
Proof.
  intros Hm Hle Hlo1 (H1 & H2 & H3). destruct (H2 i0 a eq_refl) as (u0 & Hu0 & Hmu0).
  pose proof (lookup_lt_Some _ _ _ Hu0). split; [|split].
  - intros j u [Hj|[-> [= <-]]]%lookup_snoc_Some.
    + destruct (H1 j u Hj) as (m & Hmu & i0' & t0' & [= <- <-] & Hle' & Hne).
      exists m. split; [done|]. exists i0, a. split; [done|]. split; [done|].
      intros Hj'. destruct (Hne Hj') as (i1 & b & Hlo & Hb). specialize (Hlo1 i1 b Hlo).
      exists (length l), t1. split; [done|]. lia.
    + exists t1. split; [done|]. exists i0, a. split; [done|]. split; [done|]. intros _. exists (length l), t1. split; [done|lia].
  - intros ? ? [= <- <-]. exists u0. rewrite lookup_snoc_Some. auto.
  - intros ? ? [= <- <-]. exists i0, a. split; [done|]. split; [lia|]. split; [done|].
    exists t. rewrite lookup_snoc_Some. auto.
Qed.

Lemma lows_ok_third l t t1 i0 a i1 b :
  mt_ts_min t = Some t1 -> b <= t1 -> lows_ok l (Some (i0, a)) (Some (i1, b)) ->
  lows_ok (l ++ [Some t]) (Some (i0, a)) (Some (i1, b)).
Proof.
  intros Hm Hle (H1 & H2 & H3). destruct (H3 i1 b eq_refl) as (i0' & a' & [= <- <-] & Hi & Hab & u1 & Hu1).
  split; [|split].
  - intros j u [Hj|[-> [= <-]]]%lookup_snoc_Some; [by apply H1|].
    exists t1. split; [done|]. exists i0, a. split; [done|]. split; [lia|]. intros _. exists i1, b. auto.
  - intros ? ? [= <- <-]. destruct (H2 i0 a eq_refl) as (u & ? & ?). exists u. rewrite lookup_snoc_Some. auto.
  - intros ? ? [= <- <-]. exists i0, a. repeat (split; [done|]). exists u1. rewrite lookup_snoc_Some. auto.
Qed.

Lemma mg_tslows_spec items pre lo0 lo1 :
  lows_ok pre lo0 lo1 ->
  match mg_tslows (length pre) items lo0 lo1 with
  | inl i => exists t, (pre ++ items) !! i = Some (Some t) /\ mt_ts_min t = None
  | inr (lo0, lo1) => lows_ok (pre ++ items) lo0 lo1
  end.
Proof.
  revert pre lo0 lo1. induction items as [|it items IH]; intros pre lo0 lo1 Hok; cbn [mg_tslows].
  { by rewrite app_nil_r. }
  assert (Hnext : forall lo0 lo1, lows_ok (pre ++ [it]) lo0 lo1 ->
    match mg_tslows (length pre + 1) items lo0 lo1 with
    | inl i => exists t, (pre ++ it :: items) !! i = Some (Some t) /\ mt_ts_min t = None
    | inr (lo0, lo1) => lows_ok (pre ++ it :: items) lo0 lo1
    end).
  { intros a b Hab. specialize (IH _ a b Hab). rewrite length_app in IH. cbn [length] in IH.
    by rewrite <- app_assoc in IH. }
  destruct it as [t|]; [|by apply Hnext, lows_ok_none].
  destruct (mt_ts_min t) as [t1|] eqn:Hm.
  2: { exists t. rewrite lookup_app_r, Nat.sub_diag by lia. done. }
  destruct lo0 as [[i0 a]|].
  2: { destruct lo1 as [[i1 b]|].
       - destruct Hok as (_ & _ & H3). destruct (H3 i1 b eq_refl) as (? & ? & ? & _). done.
       - by apply Hnext, lows_ok_first. }
  destruct (Z.ltb_spec t1 a); [apply Hnext; by eapply lows_ok_lower|].
  destruct lo1 as [[i1 b]|].
  - destruct (Z.ltb_spec t1 b); apply Hnext; [|by eapply lows_ok_third].
    eapply lows_ok_second; [done|done| |done]. by intros ? ? [= <- <-].
  - apply Hnext. eapply lows_ok_second; [done|done| |done]. by intros.
Qed.

(** ** Discarding *)

Lemma mg_discard_item_spec t upto :
  mt_wf t ->
  exists t', mg_discard_item (E := E) (mt_len t + 1) t upto = Ok t' /\ mt_wf t' /\
    mt_events t' = drop (upto_n (mt_events t) upto) (mt_events t).
Proof.
  intros Hw. rewrite Nat.add_1_r. cbn [mg_discard_item]. rewrite mt_ts_min_eq by done.
  destruct (mt_events t) as [|e evs] eqn:He; simpl.
  { exists t. by rewrite He. }
  destruct (Z.leb_spec e.1 upto) as [Hle|Hgt].
  - destruct (mg_drain_new_spec t upto Hw) as (t' & d & -> & ? & ? & Hev & _). cbn [and_then].
    exists t'. rewrite He in Hev. auto.
  - exists t. split; [done|]. split; [done|]. unfold upto_n. simpl.
    by rewrite (proj2 (Z.leb_gt _ _)).
Qed.

Lemma mg_discard_items_spec items upto :
  Forall opt_wf items ->
  exists items', mg_discard_items (E := E) items upto = (items', Ok tt) /\
    Forall2 (fun it it' => opt_wf it' /\ (it = None <-> it' = None) /\
      item_events it' = drop (upto_n (item_events it) upto) (item_events it)) items items'.
Proof.
  induction 1 as [|it items Hw _ (items' & Hi & Hf)]; [by exists []|].
  destruct it as [t|]; cbn [mg_discard_items].
  - destruct (mg_discard_item_spec t upto Hw) as (t' & -> & Hw' & Hev). rewrite Hi.
    exists (Some t' :: items'). split; [done|]. constructor; [|done]. done.
  - rewrite Hi. exists (None :: items'). split; [done|]. constructor; [|done]. done.
Qed.

(** ** [process] *)

(** What [process] leaves alone. *)
Record mg_same (m m' : MergerT) : Prop := {
  sm_inps : mg_inps m' = mg_inps m;
  sm_rc : mg_range_complete m' = mg_range_complete m;
  sm_outbuf : mg_outbuf m' = mg_outbuf m;
  sm_log : mg_log_queue m' = mg_log_queue m;
  sm_clear : mg_do_clear_out m' = mg_do_clear_out m;
  sm_max : mg_out_max_len m' = mg_out_max_len m;
  sm_done : mg_done_inp m' = mg_done_inp m;
  sm_drc : mg_done_range_complete m' = mg_done_range_complete m;
  sm_complete : mg_complete m' = mg_complete m
}.

(** Taking from item [i]: [taken] goes out, [it'] stays. *)
Record mg_taken (m m' : MergerT) (i : nat) (taken : list (Z * V)) (it' : option T) (d : Z) : Prop := {
  tk_same : mg_same m m';
  tk_items : mg_items m' = <[i := it']> (mg_items m);
  tk_wf : opt_wf it';
  tk_out_wf : opt_wf (mg_out m');
  tk_out : item_events (mg_out m') = item_events (mg_out m) ++ taken;
  tk_out_some : is_Some (mg_out m');
  tk_dim : mg_dim0ix_max m' = d;
  tk_last : last taken.*1 = Some d
}.

Lemma mg_update_dim_spec (m : MergerT) o d :
  mg_out m = Some o -> mt_wf o -> last (mt_events o).*1 = Some d ->
  mg_update_dim0ix_max m = (set_dim0ix_max m d, Ok tt).
Proof. intros Ho Hw Hl. unfold mg_update_dim0ix_max. by rewrite Ho, mt_ts_max_eq, Hl. Qed.

Lemma last_app_fst (a b : list (Z * V)) d : last b.*1 = Some d -> last (a ++ b).*1 = Some d.
Proof. intros Hb. rewrite fmap_app, last_app. by rewrite Hb. Qed.

Lemma list_insert_twice {A} (l : list A) i x y : <[i := y]> (<[i := x]> l) = <[i := y]> l.
Proof. apply list_insert_insert_eq. Qed.

Lemma mg_process_take_all (m mi : MergerT) i t d st :
  mt_wf t -> opt_wf (mg_out m) -> last (mt_events t).*1 = Some d ->
  Forall (fun e => e.1 <= 2 ^ 64 - 1) (mt_events t) ->
  mi = set_stats (set_items m (<[i := None]> (mg_items m))) st ->
  exists m', mg_after_take_all mi i (mg_take_into_output_all mi t) = (m', Ok tt) /\
    mg_taken m m' i (mt_events t) None d.
Proof.
  intros Hw Ho Hl Hb ->. unfold mg_take_into_output_all.
  edestruct (mg_take_output_spec (set_stats (set_items m (<[i := None]> (mg_items m))) st) t (2 ^ 64 - 1))
    as (o & t' & -> & Hwo & _ & _ & Heo); [done|done|].
  rewrite upto_n_all, firstn_all in Heo by (by rewrite Forall_forall in Hb). cbn [mg_after_take_all].
  rewrite (mg_update_dim_spec _ o d); [|done|done|rewrite Heo; by apply last_app_fst].
  eexists. split; [done|]. by split.
Qed.

Lemma mg_process_take_upto (m mi : MergerT) i t e0 dl upto st :
  mt_wf t -> opt_wf (mg_out m) ->
  head (mt_events t).*1 = Some e0 -> e0 <= upto -> last (mt_events t).*1 = Some dl -> upto < dl ->
  mi = set_stats (set_items m (<[i := None]> (mg_items m))) st ->
  exists m' t' d, mg_after_take_upto mi i (mg_take_into_output_upto mi t upto) = (m', Ok tt) /\
    mg_taken m m' i (take (upto_n (mt_events t) upto) (mt_events t)) (Some t') d /\
    mt_events t' = drop (upto_n (mt_events t) upto) (mt_events t).
Proof.
  intros Hw Ho Hh Hle Hl Hlt ->.
  edestruct (mg_take_output_spec (set_stats (set_items m (<[i := None]> (mg_items m))) st) t upto)
    as (o & t' & -> & Hwo & Hwt & Het & Heo); [done|done|].
  set (n := upto_n (mt_events t) upto) in *. cbn [mg_after_take_upto].
  assert (Hn : (n < length (mt_events t))%nat).
  { destruct (Nat.lt_ge_cases n (length (mt_events t))) as [|Hge]; [done|exfalso].
    rewrite fmap_last in Hl. destruct (last (mt_events t)) as [e|] eqn:Hel; [|done].
    injection Hl as Hl. assert (He : e ∈ take n (mt_events t)).
    { rewrite take_ge by lia. by apply last_Some_elem_of. }
    apply upto_n_taken in He. lia. }
  rewrite mt_len_eq, Het, length_drop by done. destruct (Nat.eqb_spec (length (mt_events t) - n) 0); [lia|].
  assert (Hne : take n (mt_events t) <> []).
  { unfold n, upto_n. destruct (mt_events t) as [|e l]; [done|]. injection Hh as He. simpl. by rewrite (proj2 (Z.leb_le _ _)) by lia. }
  destruct (last (take n (mt_events t)).*1) as [d|] eqn:Hd.
  2: { apply last_None in Hd. apply fmap_nil_inv in Hd. done. }
  rewrite (mg_update_dim_spec _ o d); [|done|done|rewrite Heo; by apply last_app_fst].
  eexists _, t', d. split; [done|]. split; [|done]. split; try done.
  cbn. apply list_insert_twice.
Qed.

(** The weight of an item: it shrinks with every event taken, and when an
    empty item is dropped. *)
Definition item_weight (it : option T) : nat := from_option (fun t => 2 * length (mt_events t) + 1)%nat 0%nat it.
Definition items_weight (items : list (option T)) : nat := sum_list_with item_weight items.

Lemma items_weight_insert items i it it' :
  items !! i = Some it -> (items_weight (<[i := it']> items) + item_weight it = items_weight items + item_weight it')%nat.
Proof.
  revert i. unfold items_weight. induction items as [|x items IH]; intros [|i] Hi; simplify_eq/=; [lia|].
  specialize (IH i Hi). lia.
Qed.

(** Some first events up to [d] dropped. *)
Definition discards (d : Z) (it it' : option T) : Prop :=
  opt_wf it' /\ (item_weight it' <= item_weight it)%nat /\
  exists k, item_events it' = drop k (item_events it) /\ forall e, e ∈ take k (item_events it) -> e.1 <= d.

Lemma discards_refl d items : Forall opt_wf items -> Forall2 (discards d) items items.
Proof.
  induction 1; constructor; [|done]. split; [done|]. split; [done|]. exists 0%nat.
  split; [done|]. intros e He. by apply not_elem_of_nil in He.
Qed.

Lemma mg_discard_items_discards items d :
  Forall opt_wf items ->
  exists items', mg_discard_items (E := E) items d = (items', Ok tt) /\ Forall2 (discards d) items items'.
Proof.
  intros Hw. destruct (mg_discard_items_spec items d Hw) as (items' & Hi & Hf). exists items'. split; [done|].
  eapply Forall2_impl; [exact Hf|]. intros it it' (Hw' & Hn & Hev). split; [done|]. split.
  - destruct it as [t|], it' as [t'|]; simpl in *; [rewrite Hev, length_drop; lia|lia| |lia].
    destruct Hn as [Hn _]. by specialize (Hn eq_refl).
  - exists (upto_n (item_events it) d). split; [done|]. apply upto_n_taken.
Qed.

Lemma discards_weight d items items' : Forall2 (discards d) items items' -> (items_weight items' <= items_weight items)%nat.
Proof. unfold items_weight. induction 1 as [|? ? ? ? (_ & Hw & _) _ IH]; simpl; lia. Qed.

(** ** The state between polls *)

Definition poll_ok (p : Poll ItemT) : Prop :=
  match p with
  | Ready (SErr _) => False
  | Ready (SOk (DataItem (Data k))) => mt_wf k
  | _ => True
  end.

Definition inp_ok (inp : option InpT) : Prop := from_option (Forall poll_ok) True inp.

Record mg_ok (m : MergerT) : Prop := {
  ok_len : length (mg_items m) = length (mg_inps m);
  ok_len_rc : length (mg_range_complete m) = length (mg_inps m);
  ok_items : Forall opt_wf (mg_items m);
  ok_inps : Forall inp_ok (mg_inps m);
  ok_out : opt_wf (mg_out m);
  ok_sorted : Forall (fun p => StronglySorted Z.le p.*1) (mg_pes m);
  ok_bound : Forall (Forall (fun e => e.1 <= 2 ^ 64 - 1)) (mg_pes m)
}.

(** Every input that is not at its end has its item. *)
Definition settled (m : MergerT) : Prop :=
  forall j inp, mg_inps m !! j = Some (Some inp) -> exists t, mg_items m !! j = Some (Some t).

Lemma mg_pes_lookup (m : MergerT) j p :
  mg_pes m !! j = Some p <->
  exists inp it, mg_inps m !! j = Some inp /\ mg_items m !! j = Some it /\ p = item_events it ++ inp_events inp.
Proof. unfold mg_pes. rewrite lookup_zip_with_Some. split; intros (? & ? & ? & ? & ?); eauto 10. Qed.

Lemma ok_item (m : MergerT) j t :
  mg_ok m -> mg_items m !! j = Some (Some t) ->
  exists inp, mg_inps m !! j = Some inp /\ mt_wf t /\
    StronglySorted Z.le (mt_events t ++ inp_events inp).*1 /\ Forall (fun e => e.1 <= 2 ^ 64 - 1) (mt_events t).
Proof.
  intros Hok Ht. destruct (lookup_lt_is_Some_2 (mg_inps m) j) as [inp Hinp].
  { rewrite <- (ok_len m Hok). by eapply lookup_lt_Some. }
  exists inp. split; [done|].
  assert (Hp : mg_pes m !! j = Some (mt_events t ++ inp_events inp)) by (apply mg_pes_lookup; by exists inp, (Some t)).
  pose proof (ok_items m Hok) as Hi. rewrite Forall_lookup in Hi. split; [by apply (Hi j (Some t))|].
  pose proof (ok_sorted m Hok) as Hs. rewrite Forall_lookup in Hs. split; [by apply (Hs j)|].
  pose proof (ok_bound m Hok) as Hb. rewrite Forall_lookup in Hb. apply Hb in Hp. by apply Forall_app in Hp as [? _].
Qed.

Lemma sorted_head_le (l : list (Z * V)) t e :
  StronglySorted Z.le l.*1 -> head l.*1 = Some t -> e ∈ l -> t <= e.1.
Proof.
  destruct l as [|x l]; [done|]. simpl. intros Hs [= <-] [->|He]%elem_of_cons; [lia|].
  inversion Hs as [|? ? _ Hall]; subst. rewrite Forall_fmap, Forall_forall in Hall. by apply Hall.
Qed.

Lemma sorted_le_last (l : list (Z * V)) d o :
  StronglySorted Z.le l.*1 -> last l.*1 = Some d -> o ∈ l -> o.1 <= d.
Proof.
  intros Hs [pre Hpre]%last_Some Ho. rewrite Hpre in Hs. apply sorted_app_inv in Hs as (_ & _ & Hs).
  assert (Ho1 : o.1 ∈ l.*1) by (by apply list_elem_of_fmap_2).
  rewrite Hpre, elem_of_app, list_elem_of_singleton in Ho1. destruct Ho1 as [Ho1| ->]; [|lia].
  apply Hs; [done|]. by apply list_elem_of_singleton.
Qed.

(** What the other inputs have is not before [d] when their items are not. *)
Lemma mg_others_ge (m : MergerT) i d j p e :
  mg_ok m -> settled m ->
  (forall j u tm, j <> i -> mg_items m !! j = Some (Some u) -> mt_ts_min u = Some tm -> d <= tm) ->
  (forall j u, mg_items m !! j = Some (Some u) -> is_Some (mt_ts_min u)) ->
  j <> i -> mg_pes m !! j = Some p -> e ∈ p -> d <= e.1.
Proof.
  intros Hok Hset Hothers Hmin Hj Hp He. apply mg_pes_lookup in Hp as (inp & [u|] & Hinp & Hu & ->).
  - destruct (ok_item m j u Hok Hu) as (inp' & Hinp' & Hwu & Hs & _). simplify_eq.
    destruct (Hmin j u Hu) as [tm Htm]. transitivity tm; [by apply (Hothers j u)|].
    eapply sorted_head_le; [exact Hs| |exact He]. rewrite mt_ts_min_eq in Htm by done.
    by destruct (mt_events u).
  - destruct inp as [q|]; [|by apply not_elem_of_nil in He]. destruct (Hset j q Hinp) as [? ?]. simplify_eq.
Qed.

(** Dropping from the item is dropping from what the input has yet to deliver. *)
Lemma discards_app d (it it' : option T) (q : list (Z * V)) :
  discards d it it' ->
  exists k, item_events it' ++ q = drop k (item_events it ++ q) /\
    forall e, e ∈ take k (item_events it ++ q) -> e ∈ item_events it /\ e.1 <= d.
Proof.
  intros (_ & _ & k & Hk & Hle). exists (Nat.min k (length (item_events it))). split.
  - rewrite drop_app_le by lia. f_equal. rewrite Hk.
    destruct (Nat.le_ge_cases k (length (item_events it))); [by rewrite Nat.min_l|].
    rewrite Nat.min_r by done. by rewrite !drop_ge.
  - rewrite take_app_le by lia. intros e He. split; [eapply subseteq_take; exact He|]. apply Hle.
    revert He. rewrite <- take_take. by rewrite (take_ge (item_events it)) by lia.
Qed.

(** The state after taking from item [i] and discarding is a [merge_step]. *)
Lemma mg_step_of (m : MergerT) i t it' d taken items' :
  mg_ok m -> settled m -> mg_items m !! i = Some (Some t) ->
  mt_events t = taken ++ item_events it' -> last taken.*1 = Some d ->
  (forall e, e ∈ item_events it' -> d < e.1) ->
  (forall j u tm, j <> i -> mg_items m !! j = Some (Some u) -> mt_ts_min u = Some tm -> d <= tm) ->
  (forall j u, mg_items m !! j = Some (Some u) -> is_Some (mt_ts_min u)) ->
  Forall2 (discards d) (<[i := it']> (mg_items m)) items' ->
  exists rest, merge_step i taken rest (mg_pes m)
    (zip_with (fun inp it => item_events it ++ inp_events inp) (mg_inps m) items').
Proof.
  intros Hok Hset Ht Hev Hlast Hgt Hothers Hmin Hd.
  destruct (ok_item m i t Hok Ht) as (inp & Hinp & Hwt & Hsort & _).
  assert (Hto : forall o, o ∈ taken -> o.1 <= d).
  { intros o. apply sorted_le_last; [|done]. rewrite Hev, <- app_assoc, fmap_app in Hsort. by apply sorted_app_inv in Hsort as [? _]. }
  assert (Hge : forall j p e, j <> i -> mg_pes m !! j = Some p -> e ∈ p -> d <= e.1).
  { intros j p e ?. by apply (mg_others_ge m i d j p e). }
  exists (item_events it' ++ inp_events inp). split.
  - unfold mg_pes. rewrite !length_zip_with. apply Forall2_length in Hd. rewrite length_insert in Hd. lia.
  - apply mg_pes_lookup. exists inp, (Some t). split; [done|]. split; [done|]. by rewrite app_assoc, <- Hev.
  - assert (Hi : <[i := it']> (mg_items m) !! i = Some it').
    { apply list_lookup_insert_eq. by eapply lookup_lt_Some. }
    destruct (Forall2_lookup_l _ _ _ _ _ Hd Hi) as (it2 & Hit2 & _ & _ & k & Hk & Hle).
    apply lookup_zip_with_Some. exists inp, it2. split; [|done]. f_equal. rewrite Hk.
    destruct (item_events it') as [|e l]; [by rewrite drop_nil|]. destruct k as [|k]; [done|exfalso].
    specialize (Hle e (list_elem_of_here _ _)). specialize (Hgt e (list_elem_of_here _ _)). lia.
  - intros j p e o Hj Hp He Ho. transitivity d; [by apply Hto|by apply (Hge j p)].
  - intros j p Hj Hp. pose proof Hp as (inp2 & it & Hinp2 & Hit & ->)%mg_pes_lookup.
    assert (Hi : <[i := it']> (mg_items m) !! j = Some it) by (by rewrite list_lookup_insert_ne).
    destruct (Forall2_lookup_l _ _ _ _ _ Hd Hi) as (it2 & Hit2 & Hdis).
    destruct (discards_app d it it2 (inp_events inp2) Hdis) as (k & Hk & Hle). exists k. split.
    + apply lookup_zip_with_Some. exists inp2, it2. by rewrite <- Hk.
    + intros e He. destruct (Hle e He) as [Hein Hed].
      rewrite fmap_last in Hlast. destruct (last taken) as [o|] eqn:Ho; [|done]. injection Hlast as Hod.
      exists o. split; [by apply last_Some_elem_of|].
      assert (d <= e.1) by (apply (Hge j _ e Hj Hp); apply elem_of_app; by left). lia.
Qed.

Lemma mg_take_item_spec (m : MergerT) i t :
  mg_items m !! i = Some (Some t) -> mg_take_item m i = Some (set_items m (<[i := None]> (mg_items m)), t).
Proof. intros Hi. unfold mg_take_item. by rewrite Hi. Qed.

Lemma head_last_Some (l : list (Z * V)) e0 : head l.*1 = Some e0 -> exists d, last l.*1 = Some d.
Proof.
  intros Hh. destruct (last l.*1) as [d|] eqn:Hl; [eauto|]. apply last_None in Hl. by rewrite Hl in Hh.
Qed.

(** Taking the events of the item with the lowest timestamp: all of them, or
    those not after the second lowest timestamp. *)
Lemma mg_process_take_spec (m : MergerT) i0 t0 lo1 :
  mg_ok m -> lows_ok (mg_items m) (Some (i0, t0)) lo1 ->
  exists m' t taken it' d, mg_process_take m (Some (i0, t0)) lo1 = (m', Ok tt) /\
    mg_items m !! i0 = Some (Some t) /\ mt_events t = taken ++ item_events it' /\
    mg_taken m m' i0 taken it' d /\ (forall e, e ∈ item_events it' -> d < e.1) /\
    (forall i1 t1, lo1 = Some (i1, t1) -> d <= t1).
Proof.
  intros Hok (_ & H2 & H3). destruct (H2 i0 t0 eq_refl) as (t & Ht & Hmin).
  destruct (ok_item m i0 t Hok Ht) as (inp & Hinp & Hwt & Hsort & Hb).
  rewrite fmap_app in Hsort. apply sorted_app_inv in Hsort as (Hsort & _ & _).
  rewrite mt_ts_min_eq in Hmin by done. destruct (head_last_Some _ _ Hmin) as [dl Hdl].
  unfold mg_process_take. rewrite (mg_take_item_spec m i0 t Ht).
  assert (Hall : forall st, (forall i1 t1, lo1 = Some (i1, t1) -> dl <= t1) ->
    exists m' t' taken it' d,
      mg_after_take_all (set_stats (set_items m (<[i0 := None]> (mg_items m))) st) i0
        (mg_take_into_output_all (set_stats (set_items m (<[i0 := None]> (mg_items m))) st) t) = (m', Ok tt) /\
      mg_items m !! i0 = Some (Some t') /\ mt_events t' = taken ++ item_events it' /\
      mg_taken m m' i0 taken it' d /\ (forall e, e ∈ item_events it' -> d < e.1) /\
      (forall i1 t1, lo1 = Some (i1, t1) -> d <= t1)).
  { intros st Hle. destruct (mg_process_take_all m _ i0 t dl st Hwt (ok_out m Hok) Hdl Hb eq_refl) as (m' & Heq & Htk).
    exists m', t, (mt_events t), None, dl. split; [exact Heq|]. split; [done|]. split; [by rewrite app_nil_r|].
    split; [done|]. split; [|done]. intros e He. by apply not_elem_of_nil in He. }
  destruct lo1 as [[i1 t1]|]; [|by apply Hall].
  destruct (H3 i1 t1 eq_refl) as (? & ? & [= <- <-] & _ & Hle & _).
  rewrite mt_ts_max_eq, Hdl by done. destruct (Z.leb_spec dl t1) as [Hd|Hd].
  { apply Hall. by intros ? ? [= <- <-]. }
  edestruct (mg_process_take_upto m (set_stats (set_items m (<[i0 := None]> (mg_items m))) (stat_partial (mg_stats m))) i0 t t0 dl t1) as (m' & t' & d & Heq & Htk & Het);
    [done|apply Hok|done|done|done|done|reflexivity|].
  assert (Hdt : d <= t1).
  { pose proof (tk_last _ _ _ _ _ _ Htk) as Hl. rewrite fmap_last in Hl.
    destruct (last (take _ _)) as [o|] eqn:Ho; [|done]. injection Hl as <-.
    eapply upto_n_taken. by apply last_Some_elem_of. }
  eexists m', t, _, (Some t'), d. split; [exact Heq|]. split; [done|].
  split; [simpl; rewrite Het; by rewrite take_drop|]. split; [exact Htk|]. split.
  - simpl. rewrite Het. intros e He. apply upto_n_rest in He; [lia|done].
  - by intros ? ? [= <- <-].
Qed.

(** One turn of [process]: an empty item is dropped, or events move to the
    output as in [merge_step]. *)
Record processed (m m' : MergerT) : Prop := {
  pr_same : mg_same m m';
  pr_len : length (mg_items m') = length (mg_items m);
  pr_items : Forall opt_wf (mg_items m');
  pr_out : opt_wf (mg_out m');
  pr_step :
    (mg_pes m' = mg_pes m /\ mg_out m' = mg_out m /\
      (items_weight (mg_items m') < items_weight (mg_items m))%nat) \/
    (exists i taken rest, merge_step i taken rest (mg_pes m) (mg_pes m') /\
      item_events (mg_out m') = item_events (mg_out m) ++ taken /\
      (items_weight (mg_items m') + 2 <= items_weight (mg_items m))%nat)
}.

Lemma mg_clear_empty (m : MergerT) i t st :
  mg_ok m -> mg_items m !! i = Some (Some t) -> mt_ts_min t = None ->
  processed m (set_stats (set_items m (<[i := None]> (mg_items m))) st).
Proof.
  intros Hok Ht Hmin. destruct (ok_item m i t Hok Ht) as (inp & Hinp & Hwt & _).
  rewrite mt_ts_min_eq in Hmin by done.
  assert (Het : mt_events t = []) by (by destruct (mt_events t)).
  split; [done|cbn; by rewrite length_insert| |apply Hok|left; split; [|split; [done|]]].
  - cbn. apply Forall_insert; [apply Hok|done].
  - unfold mg_pes. cbn [set_stats set_items mg_inps mg_items].
    apply list_eq. intros j. destruct (decide (j = i)) as [->|Hj].
    + rewrite !lookup_zip_with, Hinp, Ht. cbn. rewrite list_lookup_insert_eq by (by eapply lookup_lt_Some).
      cbn. by rewrite Het.
    + rewrite !lookup_zip_with. by rewrite list_lookup_insert_ne.
  - cbn [set_stats set_items mg_items].
    pose proof (items_weight_insert (mg_items m) i (Some t) None Ht) as Hw. cbn [item_weight from_option] in Hw. lia.
Qed.

(** Taking, then discarding from all items. *)
Lemma mg_taken_processed (m m1 : MergerT) i t taken it' d lo0 lo1 items' :
  mg_ok m -> settled m -> lows_ok (mg_items m) (Some (i, lo0)) lo1 ->
  (forall i1 t1, lo1 = Some (i1, t1) -> d <= t1) ->
  mg_items m !! i = Some (Some t) -> mt_events t = taken ++ item_events it' ->
  (forall e, e ∈ item_events it' -> d < e.1) ->
  mg_taken m m1 i taken it' d -> Forall2 (discards d) (mg_items m1) items' ->
  processed m (set_items m1 items').
Proof.
  intros Hok Hset (H1 & _) Hlo Ht Hev Hgt Htk Hdis. destruct Htk as [Hsame Hitems Hwf Howf Hout _ _ Hlast].
  rewrite Hitems in Hdis. split; [|cbn| |done|right].
  - destruct Hsame. by split.
  - rewrite <- (Forall2_length _ _ _ Hdis). apply length_insert.
  - cbn. clear -Hdis. induction Hdis as [|? ? ? ? [? _]]; constructor; done.
  - destruct (mg_step_of m i t it' d taken items' Hok Hset Ht Hev Hlast Hgt) as [rest Hst]; [| |done|].
    + intros j u tm Hj Hu Htm. destruct (H1 j u Hu) as (tm' & Htm' & i0 & t0 & [= <- <-] & _ & Hne).
      destruct (Hne Hj) as (i1 & t1 & Hl & Hle). specialize (Hlo i1 t1 Hl). simplify_eq. lia.
    + intros j u Hu. destruct (H1 j u Hu) as (tm & Htm & _). by exists tm.
    + exists i, taken, rest. split; [|split; [done|]].
      * unfold mg_pes at 2. cbn. by rewrite (sm_inps _ _ Hsame).
      * cbn [set_items mg_items]. pose proof (discards_weight _ _ _ Hdis).
        pose proof (items_weight_insert (mg_items m) i (Some t) it' Ht) as Hw. cbn [item_weight from_option] in Hw.
        rewrite Hev, length_app in Hw.
        assert (Hl : (1 <= length taken)%nat) by (destruct taken; [done|simpl; lia]).
        assert ((item_weight it' <= 2 * length (item_events it') + 1)%nat) by (destruct it'; simpl; lia). lia.
Qed.

Lemma omap_id_nil {A} (l : list (option A)) : Forall (fun x => x = None) l -> length (omap id l) = 0%nat.
Proof. induction 1 as [|? ? ->]; done. Qed.

(** Lowering [dim0ix_max] changes nothing the rest depends on. *)
Lemma mg_ok_dim (m : MergerT) d : mg_ok m -> mg_ok (set_dim0ix_max m d).
Proof. intros []. by split. Qed.

Lemma processed_dim (m m' : MergerT) d : processed (set_dim0ix_max m d) m' -> processed m m'.
Proof. intros [[] Hl Hi Ho Hs]. split; [by split|exact Hl|exact Hi|exact Ho|exact Hs]. Qed.

Lemma set_items_id (m : MergerT) : set_items m (mg_items m) = m.
Proof. by destruct m. Qed.

Lemma mg_process_rest (m : MergerT) i0 t0 lo1 :
  mg_ok m -> settled m -> lows_ok (mg_items m) (Some (i0, t0)) lo1 ->
  exists m', (let '(m, ret) := mg_process_take m (Some (i0, t0)) lo1 in
      match ret with
      | Panic => (m, Panic)
      | _ =>
          match lo1 with
          | Some (_, tl1) =>
              if tl1 <=? mg_dim0ix_max m then
                let '(items, r) := mg_discard_items (mg_items m) (mg_dim0ix_max m) in
                match r with
                | Ok _ => (set_items m items, ret)
                | Err e => (set_items m items, Err e)
                | Panic => (set_items m items, Panic)
                end
              else (m, ret)
          | None => (m, ret)
          end
      end) = (m', Ok tt) /\ processed m m'.
Proof.
  intros Hok Hset Hlo.
  destruct (mg_process_take_spec m i0 t0 lo1 Hok Hlo) as (m1 & t & taken & it' & d & -> & Ht & Hev & Htk & Hgt & Hle).
  assert (Hp := fun items' => mg_taken_processed m m1 i0 t taken it' d t0 lo1 items' Hok Hset Hlo Hle Ht Hev Hgt Htk).
  assert (Hw : Forall opt_wf (mg_items m1)).
  { rewrite (tk_items _ _ _ _ _ _ Htk). apply Forall_insert; [apply Hok|apply Htk]. }
  assert (Hp0 : processed m m1).
  { specialize (Hp _ (discards_refl d _ Hw)). by rewrite set_items_id in Hp. }
  destruct lo1 as [[i1 t1]|]; [|by exists m1].
  rewrite (tk_dim _ _ _ _ _ _ Htk). destruct (t1 <=? d); [|by exists m1].
  destruct (mg_discard_items_discards (mg_items m1) d Hw) as (items' & -> & Hdis).
  eexists. split; [done|]. by apply Hp.
Qed.

Lemma mg_process_spec (m : MergerT) :
  mg_ok m -> settled m -> mg_nitems m <> 0%nat ->
  exists m', mg_process m = (m', Ok tt) /\ processed m m'.
Proof.
  intros Hok Hset Hn. unfold mg_process.
  pose proof (mg_tslows_spec (mg_items m) [] None None) as Hlo. cbn [length app] in Hlo.
  assert (Hnil : lows_ok [] None None) by (split; [intros ? ? ?|]; done).
  specialize (Hlo Hnil). destruct (mg_tslows 0 (mg_items m) None None) as [i|[lo0 lo1]].
  { destruct Hlo as (t & Ht & Hmin). eexists. split; [done|]. by eapply mg_clear_empty. }
  destruct lo0 as [[i0 t0]|].
  - destruct (t0 <=? mg_dim0ix_max m).
    + destruct (mg_process_rest (set_dim0ix_max m t0) i0 t0 lo1 (mg_ok_dim m t0 Hok) Hset Hlo) as (m' & Hm & Hp).
      exists m'. split; [exact Hm|]. by eapply processed_dim.
    + by apply mg_process_rest.
  - exfalso. apply Hn. apply omap_id_nil. apply Forall_lookup. intros j [u|] Hu; [|done].
    destruct Hlo as (H1 & _). destruct (H1 j u Hu) as (? & _ & ? & ? & ? & _). done.
Qed.

(** ** [refill] *)

Definition poll_weight (p : Poll ItemT) : nat :=
  match p with
  | Ready (SOk (DataItem (Data k))) => 2 * length (mt_events k) + 2
  | Ready (SOk (Log _)) | Ready (SOk (Stats _)) => 2
  | _ => 1
  end.

Definition inp_weight (inp : option InpT) : nat := from_option (sum_list_with poll_weight) 0%nat inp.

(** No error, and well-formed data. *)
Definition is_sok (i : ItemT) : Prop := poll_ok (Ready i).

(** Items that carry no events. *)
Definition no_data (l : list ItemT) : Prop := Forall (fun i => is_sok i /\ sitem_events i = []) l.

Lemma no_data_events l : no_data l -> concat (map sitem_events l) = [].
Proof. induction 1 as [|x l [_ Hx] _ IH]; simpl; [done|]. by rewrite Hx, IH. Qed.

Record refilled_one (inp : InpT) (outbuf : list ItemT) (rf : Refilled) (new : list ItemT) : Prop := {
  ro_outbuf : rf_outbuf rf = outbuf ++ new;
  ro_new : no_data new;
  ro_inp : inp_ok (rf_inp rf);
  ro_item : opt_wf (rf_item rf);
  ro_events : polls_events inp = item_events (rf_item rf) ++ inp_events (rf_inp rf);
  ro_settled : rf_pending rf = false -> is_Some (rf_inp rf) -> is_Some (rf_item rf);
  ro_weight : (item_weight (rf_item rf) + inp_weight (rf_inp rf) + length new + (if rf_pending rf then 1 else 0)
      <= sum_list_with poll_weight inp)%nat
}.

(** One more poll in front that only puts [i] out. *)
Lemma refilled_one_cons p inp outbuf rf new i :
  refilled_one inp (outbuf ++ i) rf new -> no_data i -> poll_events p = [] -> (length i < poll_weight p)%nat ->
  refilled_one (p :: inp) outbuf rf (i ++ new).
Proof.
  intros [Ho Hn Hi Hit Hev Hs Hw] Hni Hp Hwp. split; try done.
  - by rewrite Ho, app_assoc.
  - by apply Forall_app.
  - unfold polls_events in *. simpl. by rewrite Hp.
  - rewrite length_app. simpl. lia.
Qed.

Lemma mg_refill_one_spec (inp : InpT) rc outbuf :
  Forall poll_ok inp -> StronglySorted Z.le (polls_events inp).*1 ->
  exists rf new, mg_refill_one inp rc outbuf = (rf, Ok tt) /\ refilled_one inp outbuf rf new.
Proof.
  revert rc outbuf. induction inp as [|p inp IH]; intros rc outbuf Hok Hs.
  { eexists _, []. split; [done|]. split; try done; [by rewrite app_nil_r|constructor|]. simpl. intros _ [? ?]. done. }
  inversion Hok as [|? ? Hp Hok']; subst. unfold polls_events in Hs. simpl in Hs. rewrite fmap_app in Hs.
  apply sorted_app_inv in Hs as (Hsp & Hs & _). fold (polls_events inp) in Hs.
  assert (Hmore : forall rc' i, no_data i -> poll_events p = [] -> (length i < poll_weight p)%nat ->
    exists rf new, mg_refill_one inp rc' (outbuf ++ i) = (rf, Ok tt) /\ refilled_one (p :: inp) outbuf rf new).
  { intros rc' i Hi Hpe Hw. destruct (IH rc' (outbuf ++ i) Hok' Hs) as (rf & new & Heq & Hro).
    exists rf, (i ++ new). split; [done|]. by apply refilled_one_cons. }
  destruct p as [[[[|k]|it|it]|e]|]; cbn [mg_refill_one].
  - specialize (Hmore true []). rewrite app_nil_r in Hmore. apply Hmore; [by constructor|done|simpl; lia].
  - rewrite (proj2 (mt_mono_eq k Hp) Hsp). cbn [negb]. eexists _, []. split; [done|].
    split; try done; [by rewrite app_nil_r|constructor|simpl; lia].
  - apply Hmore; [|done|simpl; lia]. by repeat constructor.
  - apply Hmore; [|done|simpl; lia]. by repeat constructor.
  - done.
  - eexists _, []. split; [done|]. split; try done; [by rewrite app_nil_r|constructor|simpl; lia].
Qed.

Definition pes_of (inps : list (option InpT)) (items : list (option T)) : list (list (Z * V)) :=
  zip_with (fun inp it => item_events it ++ inp_events inp) inps items.

Definition loop_weight (inps : list (option InpT)) (items : list (option T)) : nat :=
  items_weight items + sum_list_with inp_weight inps.

Record refilled_all (inps inps' : list (option InpT)) (items items' : list (option T))
    (new : list ItemT) (has_pending b : bool) : Prop := {
  ra_len : length items' = length inps';
  ra_len_inps : length inps' = length inps;
  ra_inps : Forall inp_ok inps';
  ra_items : Forall opt_wf items';
  ra_pes : pes_of inps' items' = pes_of inps items;
  ra_new : no_data new;
  ra_settled : b = false -> has_pending = false /\ Forall2 (fun (inp : option InpT) (it : option T) => is_Some inp -> is_Some it) inps' items';
  ra_weight : (loop_weight inps' items' + length new + (if b && negb has_pending then 1 else 0)
      <= loop_weight inps items)%nat
}.

Lemma refilled_all_cons inps inps' items items' new hp hp' b inp inp' it it' new0 :
  refilled_all inps inps' items items' new hp' b ->
  inp_ok inp' -> opt_wf it' -> item_events it' ++ inp_events inp' = item_events it ++ inp_events inp ->
  no_data new0 -> (hp' = false -> hp = false /\ (is_Some inp' -> is_Some it')) ->
  (item_weight it' + inp_weight inp' + length new0 + (if hp' && negb hp then 1 else 0)
     <= item_weight it + inp_weight inp)%nat ->
  refilled_all (inp :: inps) (inp' :: inps') (it :: items) (it' :: items') (new0 ++ new) hp b.
Proof.
  intros [Hl Hli Hi Hit Hp Hn Hs Hw] Hinp Hit' Hev Hn0 Hset Hwt. split.
  - simpl. by rewrite Hl.
  - simpl. by rewrite Hli.
  - by constructor.
  - by constructor.
  - unfold pes_of in *. simpl. by rewrite Hev, Hp.
  - by apply Forall_app.
  - intros Hb. destruct (Hs Hb) as [Hhp' Hf]. destruct (Hset Hhp') as [? ?]. split; [done|]. by constructor.
  - unfold loop_weight, items_weight in *. simpl. rewrite length_app.
    destruct b, hp, hp'; simpl in *; lia.
Qed.

Lemma mg_refill_loop_spec inps items rcs outbuf hp :
  length items = length inps -> length rcs = length inps -> Forall inp_ok inps -> Forall opt_wf items ->
  Forall (fun p => StronglySorted Z.le p.*1) (pes_of inps items) ->
  exists inps' items' rcs' new b,
    mg_refill_loop inps items rcs outbuf hp = (inps', items', rcs', outbuf ++ new, Ok b) /\
    length rcs' = length inps' /\ refilled_all inps inps' items items' new hp b.
Proof.
  revert items rcs outbuf hp. induction inps as [|inp inps IH]; intros [|it items] [|rc rcs] outbuf hp Hl Hlr Hi Hit Hs; try done.
  { exists [], [], [], [], hp. split; [simpl; by rewrite app_nil_r|]. split; [done|].
    split; try done; [constructor|]. unfold loop_weight. simpl. destruct hp; done. }
  injection Hl as Hl. injection Hlr as Hlr. inversion Hi as [|? ? Hinp Hi']; inversion Hit as [|? ? Hitem Hit']; subst.
  inversion Hs as [|? ? Hs0 Hs']; subst.
  assert (Hkeep : (is_Some inp -> is_Some it) ->
    exists inps' items' rcs' new b,
    (let '(inps', items', rcs', outbuf', r) := mg_refill_loop inps items rcs outbuf hp in
      (inp :: inps', it :: items', rc :: rcs', outbuf', r)) = (inps', items', rcs', outbuf ++ new, Ok b) /\
    length rcs' = length inps' /\ refilled_all (inp :: inps) inps' (it :: items) items' new hp b).
  { intros Hset. destruct (IH items rcs outbuf hp Hl Hlr Hi' Hit' Hs') as (inps' & items' & rcs' & new & b & -> & Hlr' & Hra).
    exists (inp :: inps'), (it :: items'), (rc :: rcs'), new, b. split; [done|]. split; [simpl; by rewrite Hlr'|].
    rewrite <- (app_nil_l new). eapply refilled_all_cons; [exact Hra|done|done|done|constructor|done|].
    simpl. destruct hp; simpl; lia. }
  destruct inp as [inp|]; [|apply Hkeep; by intros [? ?]].
  destruct it as [t|]; [by apply Hkeep|]. cbn [mg_refill_loop].
  destruct (mg_refill_one_spec inp rc outbuf Hinp Hs0) as (rf & new0 & -> & [Ho Hn Hri Hrit Hev Hrs Hrw]).
  rewrite Ho. destruct (IH items rcs (outbuf ++ new0) (hp || rf_pending rf) Hl Hlr Hi' Hit' Hs')
    as (inps' & items' & rcs' & new & b & -> & Hlr' & Hra).
  eexists _, _, _, (new0 ++ new), b. split; [by rewrite app_assoc|]. split; [simpl; by rewrite Hlr'|].
  eapply refilled_all_cons; [exact Hra|done|done| |done| |].
  - simpl. by rewrite <- Hev.
  - intros [-> Hrp]%orb_false_iff. auto.
  - simpl. destruct hp, (rf_pending rf); simpl in *; lia.
Qed.

(** ** Polling *)

Definition mg_measure (m : MergerT) : nat :=
  loop_weight (mg_inps m) (mg_items m) + length (mg_outbuf m) + match mg_out m with Some _ => 1 | None => 0 end.

(** The invariant: [em] has been handed out; a bound on the timestamps. *)
Record mg_inv (orig : list (list (Z * V))) (em : list (Z * V)) (m : MergerT) : Prop := {
  iv_len : length (mg_items m) = length (mg_inps m);
  iv_len_rc : length (mg_range_complete m) = length (mg_inps m);
  iv_items : Forall opt_wf (mg_items m);
  iv_inps : Forall inp_ok (mg_inps m);
  iv_out : opt_wf (mg_out m);
  iv_log : mg_log_queue m = [];
  iv_drc : mg_done_range_complete m = false;
  iv_complete : mg_complete m = false;
  iv_outbuf : Forall is_sok (mg_outbuf m);
  iv_merge : merge_inv orig (em ++ mg_outs m) (mg_pes m);
  iv_bound : Forall (Forall (fun e => e.1 <= 2 ^ 64 - 1)) orig;
  iv_done : mg_done_inp m = true -> Forall (fun p => p = []) (mg_pes m) /\ mg_out m = None
}.

Lemma mg_inv_ok orig em (m : MergerT) : mg_inv orig em m -> mg_ok m.
Proof.
  intros Hinv. split; try apply Hinv. apply Forall_lookup. intros j p Hp.
  pose proof (iv_merge _ _ _ Hinv) as Hm.
  destruct (lookup_lt_is_Some_2 orig j) as [q Hq].
  { rewrite <- (mi_length _ _ _ Hm). by eapply lookup_lt_Some. }
  destruct (mi_suffix _ _ _ Hm j p q Hp Hq) as [q0 ->].
  pose proof (iv_bound _ _ _ Hinv) as Hb. rewrite Forall_lookup in Hb. apply Hb in Hq. by apply Forall_app in Hq as [_ ?].
Qed.

Lemma mg_outs_of (m m' : MergerT) :
  concat (map sitem_events (mg_outbuf m')) = concat (map sitem_events (mg_outbuf m)) ->
  item_events (mg_out m') = item_events (mg_out m) -> mg_outs m' = mg_outs m.
Proof. intros Hb Ho. unfold mg_outs. by rewrite Hb, Ho. Qed.

Lemma mg_processed_inv orig em (m m' : MergerT) :
  mg_inv orig em m -> mg_done_inp m = false -> processed m m' ->
  mg_inv orig em m' /\ (mg_measure m' < mg_measure m)%nat /\ mg_done_inp m' = false.
Proof.
  intros Hinv Hd [[] Hl Hi Ho Hst]. split; [|split; [|congruence]].
  - split; try (destruct Hinv; congruence).
    + pose proof (iv_merge _ _ _ Hinv) as Hm. destruct Hst as [(Hp & Hout & _)|(i & taken & rest & Hst & Hout & _)].
      * rewrite Hp. by rewrite (mg_outs_of m m') by congruence.
      * assert (mg_outs m' = mg_outs m ++ taken) as -> by (unfold mg_outs; by rewrite sm_outbuf0, Hout, app_assoc).
        rewrite app_assoc. by eapply merge_inv_step.
  - unfold mg_measure, loop_weight. rewrite sm_inps0, sm_outbuf0. destruct Hst as [(_ & -> & ?)|(? & ? & ? & _ & _ & ?)].
    + lia.
    + destruct (mg_out m'), (mg_out m); lia.
Qed.

(** Emitting moves the output item into the buffer, or leaves it. *)
Lemma mg_emit_spec orig em (m : MergerT) last_emit o :
  mg_inv orig em m -> mg_done_inp m = false -> mg_out m = Some o ->
  exists m', mg_emit m last_emit = (m', Continue) /\ mg_inv orig em m' /\ mg_measure m' = mg_measure m /\
    mg_done_inp m' = false /\ (last_emit = true -> mg_outbuf m' <> []).
Proof.
  intros Hinv Hd Ho. unfold mg_emit. rewrite Ho.
  pose proof (iv_out _ _ _ Hinv) as Hw. rewrite Ho in Hw.
  destruct (mt_estimate_eq o Hw) as [Hwe Hee]. destruct (mt_byte_estimate o) as [o' est]. cbn [fst] in Hwe, Hee.
  match goal with |- context [if ?c then _ else _] => destruct c eqn:Hc end.
  - cbn [mg_take_outbuf_filtered set_do_clear_out set_out mg_out]. eexists. split; [done|].
    split; [|split; [|split]].
    + split; try apply Hinv; [done|cbn|cbn|cbn; by rewrite Hd].
      * apply Forall_app. split; [apply Hinv|]. by repeat constructor.
      * pose proof (iv_merge _ _ _ Hinv) as Hm. unfold mg_outs in *. rewrite Ho in Hm. cbn in *.
        rewrite map_app, concat_app. cbn. by rewrite Hee, !app_nil_r.
    + unfold mg_measure. cbn [set_outbuf set_out set_do_clear_out mg_inps mg_items mg_outbuf mg_out].
      rewrite Ho, length_app. cbn [length]. lia.
    + done.
    + cbn. intros _. by destruct (mg_outbuf m).
  - eexists. split; [done|]. split; [|split; [|split]].
    + split; try apply Hinv; [done|cbn|cbn; by rewrite Hd].
      pose proof (iv_merge _ _ _ Hinv) as Hm. unfold mg_outs in *. rewrite Ho in Hm. cbn in *. by rewrite Hee.
    + unfold mg_measure. cbn [set_out mg_inps mg_items mg_outbuf mg_out]. by rewrite Ho.
    + done.
    + intros ->. by rewrite !orb_true_r in Hc.
Qed.

Lemma mg_refill_spec orig em (m : MergerT) :
  mg_inv orig em m -> mg_done_inp m = false ->
  exists m' b, mg_refill m = (m', Ok (if b : bool then Pending else Ready tt)) /\ mg_inv orig em m' /\
    mg_done_inp m' = false /\ (b = false -> settled m') /\
    (mg_measure m' + (if b then 1 else 0) <= mg_measure m)%nat.
Proof.
  intros Hinv Hd. destruct Hinv as [Hl Hlr Hit Hi Ho Hlog Hdrc Hc Hob Hm Hb Hdone].
  destruct (mg_refill_loop_spec (mg_inps m) (mg_items m) (mg_range_complete m) (mg_outbuf m) false)
    as (inps' & items' & rcs' & new & b & Heq & Hlr' & [Hl' Hli' Hi' Hit' Hp' Hn' Hs' Hw']); try done.
  { apply Hm. }
  unfold mg_refill. rewrite Heq. eexists _, b. split; [done|]. split; [|split; [done|split]].
  - split; try done; cbn.
    + apply Forall_app. split; [done|]. eapply Forall_impl; [exact Hn'|]. by intros ? [].
    + unfold mg_outs in *. cbn. rewrite map_app, concat_app. replace (concat (map _ new)) with (@nil (Z * V)) by (symmetry; by apply no_data_events).
      rewrite app_nil_r.
      unfold mg_pes. cbn. fold (pes_of inps' items'). by rewrite Hp'.
    + by rewrite Hd.
  - intros ->. destruct (Hs' eq_refl) as [_ Hset]. intros j inp Hinp. cbn in *.
    destruct (Forall2_lookup_l _ _ _ _ _ Hset Hinp) as (it & Hitj & Hsome).
    destruct Hsome as [t ->]; [by eexists|]. by exists t.
  - unfold mg_measure. cbn [set_refilled mg_inps mg_items mg_outbuf mg_out]. rewrite length_app.
    rewrite andb_true_r in Hw'. lia.
Qed.

Lemma settled_missing (m : MergerT) : settled m -> mg_missing m = 0%nat.
Proof.
  intros Hs. unfold mg_missing.
  match goal with |- length ?l = _ => destruct l as [|[inp it] l'] eqn:Hl; [done|exfalso] end.
  assert (Hin : (inp, it) ∈ (inp, it) :: l') by (by left). rewrite <- Hl in Hin.
  apply list_elem_of_filter in Hin as [[[q Hq] Hit] Hin]. simpl in Hq, Hit. subst.
  apply list_elem_of_lookup in Hin as [j Hj]. apply lookup_zip_with_Some in Hj as (? & ? & [= <- <-] & Hinp & Hit).
  destruct (Hs j q Hinp) as [? ?]. simplify_eq.
Qed.

Lemma settled_empty (m : MergerT) :
  settled m -> mg_nitems m = 0%nat -> Forall (fun p => p = []) (mg_pes m).
Proof.
  intros Hs Hn. apply Forall_lookup. intros j p (inp & it & Hinp & Hit & ->)%mg_pes_lookup.
  assert (it = None) as ->.
  { destruct it as [t|]; [|done]. exfalso. unfold mg_nitems in Hn. apply length_zero_iff_nil in Hn.
    assert (Hin : t ∈ omap id (mg_items m)) by (apply list_elem_of_omap; exists (Some t); split; [by eapply list_elem_of_lookup_2|done]).
    rewrite Hn in Hin. by apply not_elem_of_nil in Hin. }
  destruct inp as [q|]; [|done]. destruct (Hs j q Hinp) as [? ?]. simplify_eq.
Qed.

(** One turn of the inner poll. *)
Lemma mg_poll2_spec orig em (m : MergerT) :
  mg_inv orig em m -> mg_done_inp m = false ->
  match mg_poll2 m with
  | (m', Continue) => mg_inv orig em m' /\ mg_done_inp m' = false /\
      ((mg_measure m' < mg_measure m)%nat \/ ((mg_measure m' <= mg_measure m)%nat /\ mg_outbuf m' <> []))
  | (m', Break Pending) => mg_inv orig em m' /\ (mg_measure m' < mg_measure m)%nat
  | (m', Break (Ready None)) => mg_inv orig em m' /\ Forall (fun p => p = []) (mg_pes m') /\ mg_out m' = None /\
      (mg_measure m' <= mg_measure m)%nat
  | _ => False
  end.
Proof.
  intros Hinv Hd. unfold mg_poll2.
  destruct (mg_refill_spec orig em m Hinv Hd) as (m1 & b & -> & Hinv1 & Hd1 & Hset & Hw).
  destruct b; [split; [done|lia]|]. specialize (Hset eq_refl). unfold mg_poll3.
  rewrite settled_missing by done. cbn [negb Nat.eqb].
  destruct (Nat.eqb_spec (mg_nitems m1) 0) as [Hn|Hn]; cbn [negb].
  - pose proof (settled_empty m1 Hset Hn) as Hpes. destruct (mg_out m1) as [o|] eqn:Ho.
    + destruct (mg_emit_spec orig em m1 true o Hinv1 Hd1 Ho) as (m2 & -> & Hinv2 & Hm2 & Hd2 & Hob).
      split; [done|]. split; [done|]. right. split; [lia|auto].
    + unfold mg_emit. rewrite Ho. split; [done|]. split; [done|]. split; [done|lia].
  - destruct (mg_process_spec m1 (mg_inv_ok _ _ _ Hinv1) Hset Hn) as (m2 & -> & Hpr).
    destruct (mg_processed_inv _ _ _ _ Hinv1 Hd1 Hpr) as (Hinv2 & Hm2 & Hd2).
    destruct (mg_out m2) as [o|] eqn:Ho.
    + destruct (mg_emit_spec orig em m2 false o Hinv2 Hd2 Ho) as (m3 & -> & Hinv3 & Hm3 & Hd3 & _).
      split; [done|]. split; [done|]. left. lia.
    + unfold mg_emit. rewrite Ho. split; [done|]. split; [done|]. left. lia.
Qed.

(** The turns a poll may need. *)
Definition enough_fuel (m : MergerT) (fuel : nat) : Prop :=
  (mg_outbuf m <> [] /\ (1 <= fuel)%nat) \/ (mg_measure m + (if mg_done_inp m then 2 else 4) <= fuel)%nat.

(** What a poll gives: an item and progress, or the end with every event accounted for. *)
Definition poll_result (orig : list (list (Z * V))) (em : list (Z * V)) (n : nat)
    (r : MergerT * mg_result (T := T) (L := L) (St := St) (E := E)) : Prop :=
  match r with
  | (m, MgPoll (Ready (Some i))) => exists it, i = MOutItem it /\ is_sok it /\
      mg_inv orig (em ++ sitem_events it) m /\ (mg_measure m < n)%nat
  | (_, MgPoll (Ready None)) => exists pes, merge_inv orig em pes /\ Forall (fun p => p = []) pes
  | (m, MgPoll Pending) => mg_inv orig em m /\ (mg_measure m < n)%nat
  | _ => False
  end.

Lemma poll_result_le orig em n n' r : poll_result orig em n r -> (n <= n')%nat -> poll_result orig em n' r.
Proof.
  destruct r as [m [| |[[i|]|]]]; simpl; try done.
  - intros (it & ? & ? & ? & ?) ?. exists it. auto with lia.
  - intros [? ?] ?. split; [done|lia].
Qed.

Lemma mg_pop_spec orig em (m : MergerT) item buf :
  mg_inv orig em m -> mg_outbuf m = item :: buf ->
  poll_result orig em (mg_measure m) (set_outbuf m buf, MgPoll (Ready (Some (MOutItem item)))).
Proof.
  intros Hinv Hb. simpl. exists item. split; [done|].
  pose proof (iv_outbuf _ _ _ Hinv) as Hob. rewrite Hb in Hob. inversion Hob as [|? ? Hi Hob']; subst.
  split; [done|]. split.
  - split; try apply Hinv; [done|]. pose proof (iv_merge _ _ _ Hinv) as Hm.
    unfold mg_outs in *. rewrite Hb in Hm. cbn in *. by rewrite <- !app_assoc in *.
  - unfold mg_measure. cbn [set_outbuf mg_inps mg_items mg_outbuf mg_out]. rewrite Hb. cbn [length]. lia.
Qed.

(** The end: no input has anything left, and nothing is on its way. *)
Lemma mg_end_spec orig em (m : MergerT) n fuel :
  mg_inv orig em m -> mg_done_inp m = true -> mg_outbuf m = [] -> (1 <= fuel)%nat ->
  poll_result orig em n (mg_poll_next fuel (set_done m (mg_done_inp m) true (mg_complete m))) /\
  forall b, poll_result orig em n (mg_poll_next fuel (set_outbuf (set_done m (mg_done_inp m) true (mg_complete m)) b)).
Proof.
  intros Hinv Hd Hb Hf. destruct fuel as [|fuel]; [lia|].
  destruct (iv_done _ _ _ Hinv Hd) as [Hp Ho].
  assert (Hend : exists pes, merge_inv orig em pes /\ Forall (fun p => p = []) pes).
  { exists (mg_pes m). split; [|done]. pose proof (iv_merge _ _ _ Hinv) as Hm.
    unfold mg_outs in Hm. rewrite Hb, Ho in Hm. simpl in Hm. by rewrite app_nil_r in Hm. }
  split; [|intros b]; cbn [mg_poll_next set_outbuf set_done mg_complete mg_done_range_complete];
    rewrite (iv_complete _ _ _ Hinv); exact Hend.
Qed.

Lemma mg_poll_next_spec orig em (m : MergerT) fuel :
  mg_inv orig em m -> enough_fuel m fuel -> poll_result orig em (mg_measure m) (mg_poll_next fuel m).
Proof.
  revert m. induction fuel as [|fuel IH]; intros m Hinv Hf.
  { destruct Hf as [[_ ?]|?]; [lia|]. destruct (mg_done_inp m); lia. }
  cbn [mg_poll_next]. rewrite (iv_complete _ _ _ Hinv), (iv_drc _ _ _ Hinv), (iv_log _ _ _ Hinv).
  destruct (mg_outbuf m) as [|item buf] eqn:Hb; [|by apply mg_pop_spec].
  destruct Hf as [[? _]|Hf]; [done|]. destruct (mg_done_inp m) eqn:Hd; cbn [negb].
  { destruct (mg_end_spec orig em m (mg_measure m) fuel Hinv Hd Hb) as [H1 H2]; [lia|].
    rewrite Hd in H1, H2. rewrite (iv_complete _ _ _ Hinv) in *. case_match; [apply H2|apply H1]. }
  pose proof (mg_poll2_spec orig em m Hinv Hd) as Hp2. destruct (mg_poll2 m) as [m1 [| [[e|]|] |]]; try done.
  - destruct Hp2 as (Hinv1 & Hd1 & Hw). eapply poll_result_le; [apply IH; [done|]|lia].
    unfold enough_fuel. rewrite Hd1. destruct Hw as [Hw|[Hw Hob]]; [right; lia|left; split; [done|lia]].
  - destruct Hp2 as (Hinv1 & Hpes & Ho & Hw). cbn [mg_take_outbuf_filtered set_done mg_out]. rewrite Ho.
    eapply poll_result_le; [apply IH|].
    + destruct Hinv1. split; try done. unfold mg_outs in *. by rewrite Ho in iv_merge0.
    + right. unfold mg_measure in *. cbn [set_out set_done mg_done_inp mg_inps mg_items mg_outbuf mg_out]. rewrite Ho in Hw. lia.
    + unfold mg_measure in *. cbn [set_out set_done mg_inps mg_items mg_outbuf mg_out]. rewrite Ho in Hw. lia.
Qed.

Definition mout_events (i : MOut (T := T) (L := L) (St := St) (E := E)) : list (Z * V) :=
  match i with MOutItem it => sitem_events it | MOutErr _ => [] end.

Definition mout_ok (i : MOut (T := T) (L := L) (St := St) (E := E)) : Prop :=
  exists it, i = MOutItem it /\ is_sok it.

Lemma mg_drain_spec orig em (m : MergerT) polls fuel :
  mg_inv orig em m -> (mg_measure m < polls)%nat -> (mg_measure m + 4 <= fuel)%nat ->
  exists items pes, mg_drain polls fuel m = Some items /\ Forall mout_ok items /\
    merge_inv orig (em ++ concat (map mout_events items)) pes /\ Forall (fun p => p = []) pes.
Proof.
  revert em m. induction polls as [|polls IH]; intros em m Hinv Hp Hf; [lia|]. cbn [mg_drain].
  assert (Hen : enough_fuel m fuel) by (right; destruct (mg_done_inp m); lia).
  pose proof (mg_poll_next_spec orig em m fuel Hinv Hen) as Hr.
  destruct (mg_poll_next fuel m) as [m1 [| |[[i|]|]]]; try done; simpl in Hr.
  - destruct Hr as (it & -> & Hx & Hinv1 & Hw).
    destruct (IH _ m1 Hinv1) as (items & pes & -> & Hok & Hm & Hpes); [lia|lia|].
    eexists _, pes. split; [done|]. split; [constructor; [by exists it|done]|].
    split; [|done]. simpl. by rewrite app_assoc.
  - destruct Hr as (pes & Hm & Hpes). exists [], pes. simpl. by rewrite app_nil_r.
  - destruct Hr as [Hinv1 Hw]. apply IH; [done|lia|lia].
Qed.

Definition inputs_weight (inps : list InpT) : nat := sum_list_with (sum_list_with poll_weight) inps.

Lemma mg_new_inv (inps : list InpT) max :
  Forall (Forall poll_ok) inps ->
  Forall (fun inp => StronglySorted Z.le (polls_events inp).*1) inps ->
  Forall (fun inp => Forall (fun e => e.1 <= 2 ^ 64 - 1) (polls_events inp)) inps ->
  mg_inv (map polls_events inps) [] (mg_new inps max) /\ mg_measure (mg_new inps max) = inputs_weight inps.
Proof.
  intros Hok Hs Hb.
  assert (Hpes : mg_pes (mg_new inps max) = map polls_events inps).
  { unfold mg_pes, mg_new. cbn [mg_inps mg_items]. clear. induction inps as [|inp inps IH]; simpl; [done|]. by f_equal. }
  split; [split; try done|].
  - cbn. by rewrite length_replicate, length_map.
  - cbn. by rewrite length_replicate, length_map.
  - cbn. apply Forall_replicate. done.
  - cbn. apply Forall_map. done.
  - rewrite Hpes. apply merge_inv_init. by apply Forall_map.
  - by apply Forall_map.
  - unfold mg_measure, loop_weight, inputs_weight, mg_new. cbn [mg_inps mg_items mg_outbuf mg_out length].
    clear. induction inps as [|inp inps IH]; simpl in *; lia.
Qed.

(** C2. Merging. Take inputs that deliver, among log and stats items and
    unfinished polls, data items whose events ascend in time over the whole
    input. Then polling the merger to its end takes a bounded number of polls and
    of turns within each, gives only good items, and the events in these ascend
    in time. No event is invented or doubled: together with some dropped events
    they are exactly the events of all inputs, and an event is dropped only if
    one of the same timestamp is put out. *)
Theorem mg_merges (inps : list InpT) max polls fuel :
  Forall (Forall poll_ok) inps ->
  Forall (fun inp => StronglySorted Z.le (polls_events inp).*1) inps ->
  Forall (fun inp => Forall (fun e => e.1 <= 2 ^ 64 - 1) (polls_events inp)) inps ->
  (inputs_weight inps < polls)%nat -> (inputs_weight inps + 4 <= fuel)%nat ->
  exists items, mg_drain polls fuel (mg_new inps max) = Some items /\ Forall mout_ok items /\
    let evs := concat (map mout_events items) in
    StronglySorted Z.le evs.*1 /\
    exists dropped, concat (map polls_events inps) ≡ₚ evs ++ dropped /\
      forall e, e ∈ dropped -> exists o, o ∈ evs /\ o.1 = e.1.
Proof.
  intros Hok Hs Hb Hp Hf. destruct (mg_new_inv inps max Hok Hs Hb) as [Hinv Hw].
  destruct (mg_drain_spec _ _ _ polls fuel Hinv) as (items & pes & Hd & Hi & Hm & Hpes); [lia|lia|].
  exists items. split; [done|]. split; [done|]. rewrite app_nil_l in Hm. split; [apply Hm|].
  destruct (mi_all _ _ _ Hm) as (dr & Hperm & Hdr). exists dr. split; [|done].
  rewrite Hperm. assert (concat pes = []) as -> by (clear -Hpes; by induction Hpes as [|? ? ->]). by rewrite app_nil_r.
Qed.

End Concrete.

(** ** What no input can make the merger do *)
Section NoRangeComplete.
  Context {T : Type} `{MergeableTy T} {L St E : Type}.
Abbreviation MergerT := (Merger (T := T) (L := L) (St := St) (E := E)).
Abbreviation ItemT := (MItem (T := T) (L := L) (St := St) (E := E)).
Abbreviation OutT := (MOut (T := T) (L := L) (St := St) (E := E)).

Definition keeps (m m' : MergerT) : Prop :=
  mg_outbuf m' = mg_outbuf m /\ mg_done_range_complete m' = mg_done_range_complete m.

Lemma keeps_trans (m1 m2 m3 : MergerT) : keeps m1 m2 -> keeps m2 m3 -> keeps m1 m3.
Proof. unfold keeps. intuition congruence. Qed.

Lemma mg_take_keeps (m : MergerT) src upto m' src' r :
  mg_take_into_output_upto m src upto = Ok (m', src', r) -> keeps m m'.
Proof.
  unfold mg_take_into_output_upto. intros Ht.
  destruct (mg_out m) as [out|].
  - destruct (mg_drain_into_dst_upto src out upto) as [[[? ?] ?]| |]; simplify_eq/=. done.
  - destruct (mg_drain_into_new_upto src upto) as [[? []]| |]; simplify_eq/=; done.
Qed.

Lemma mg_update_dim_keeps (m : MergerT) : keeps m (mg_update_dim0ix_max m).1.
Proof. unfold mg_update_dim0ix_max. by repeat case_match. Qed.

Lemma mg_after_take_all_keeps (m : MergerT) il0 src upto :
  keeps m (mg_after_take_all m il0 (mg_take_into_output_upto m src upto)).1.
Proof.
  destruct (mg_take_into_output_upto m src upto) as [[[m' s] []]| |] eqn:Ht; simpl; try done;
    apply mg_take_keeps in Ht; (eapply keeps_trans; [exact Ht|]); try apply mg_update_dim_keeps; try done.
  eapply keeps_trans; [|apply mg_update_dim_keeps]. done.
Qed.

Lemma mg_after_take_upto_keeps (m : MergerT) il0 src upto :
  keeps m (mg_after_take_upto m il0 (mg_take_into_output_upto m src upto)).1.
Proof.
  destruct (mg_take_into_output_upto m src upto) as [[[m' s] []]| |] eqn:Ht; simpl; try done;
    apply mg_take_keeps in Ht; (eapply keeps_trans; [exact Ht|]); try done.
  - destruct (mt_len s =? 0)%nat; [done|]. eapply keeps_trans; [|apply mg_update_dim_keeps]. done.
  - eapply keeps_trans; [|apply mg_update_dim_keeps]. done.
Qed.

Lemma mg_process_take_keeps (m : MergerT) lo0 lo1 : keeps m (mg_process_take m lo0 lo1).1.
Proof.
  unfold mg_process_take. destruct lo0 as [[i0 t0]|]; [|done].
  destruct (mg_take_item m i0) as [[mt item]|] eqn:Hi; [|done].
  assert (Hk : keeps m mt).
  { unfold mg_take_item in Hi. destruct (mg_items m !! i0) as [[t|]|]; try done. by injection Hi as <- <-. }
  destruct lo1 as [[i1 t1]|]; [destruct (mt_ts_max item) as [th0|]; [|done]|];
    (eapply keeps_trans; [exact Hk|]); clear.
  - destruct (th0 <=? t1).
    + eapply keeps_trans; [|apply mg_after_take_all_keeps]. done.
    + eapply keeps_trans; [|apply mg_after_take_upto_keeps]. done.
  - eapply keeps_trans; [|apply mg_after_take_all_keeps]. done.
Qed.

Lemma mg_process_keeps (m : MergerT) : keeps m (mg_process m).1.
Proof.
  unfold mg_process. destruct (mg_tslows 0 (mg_items m) None None) as [i|[lo0 lo1]]; [done|].
  match goal with |- keeps m (let '(_, _) := mg_process_take ?x _ _ in _).1 => set (m0 := x) end.
  assert (H0 : keeps m m0) by (unfold m0; by repeat case_match).
  pose proof (mg_process_take_keeps m0 lo0 lo1) as H1. destruct (mg_process_take m0 lo0 lo1) as [m1 ret]. simpl in H1.
  assert (H2 : keeps m m1) by (by eapply keeps_trans).
  assert (Hrest : keeps m (match lo1 with
      | Some (_, tl1) =>
          if tl1 <=? mg_dim0ix_max m1 then
            let '(items, r) := mg_discard_items (mg_items m1) (mg_dim0ix_max m1) in
            match r with
            | Ok _ => (set_items m1 items, ret)
            | Err e => (set_items m1 items, Err e)
            | Panic => (set_items m1 items, Panic)
            end
          else (m1, ret)
      | None => (m1, ret)
      end).1).
  { destruct lo1 as [[i1 t1]|]; [|done]. destruct (t1 <=? mg_dim0ix_max m1); [|done].
    destruct (mg_discard_items (mg_items m1) (mg_dim0ix_max m1)) as [items []]; (eapply keeps_trans; [exact H2|done]). }
  by destruct ret.
Qed.

Definition not_range_complete (i : ItemT) : Prop := i <> SOk (DataItem RangeComplete).

Lemma mg_refill_one_no_rc inp rc outbuf :
  Forall not_range_complete outbuf ->
  Forall not_range_complete (rf_outbuf (mg_refill_one (T := T) (L := L) (St := St) (E := E) inp rc outbuf).1).
Proof.
  revert rc outbuf. induction inp as [|p inp IH]; intros rc outbuf Ho; [done|].
  destruct p as [[[[|k]|it|it]|e]|]; cbn [mg_refill_one]; try done.
  - by apply IH.
  - by destruct (negb _).
  - apply IH, Forall_app. split; [done|]. by repeat constructor.
  - apply IH, Forall_app. split; [done|]. by repeat constructor.
Qed.

Lemma mg_refill_loop_no_rc inps items rcs outbuf hp :
  Forall not_range_complete outbuf ->
  match mg_refill_loop (T := T) (L := L) (St := St) (E := E) inps items rcs outbuf hp with
  | (_, _, _, buf, _) => Forall not_range_complete buf
  end.
Proof.
  revert items rcs outbuf hp. induction inps as [|inp inps IH]; intros [|it items] [|rc rcs] outbuf hp Ho;
    try (destruct inp as [inp|]; done); try (destruct inp as [inp|], it as [t|]; done); try done.
  assert (Hk : match (let '(inps', items', rcs', outbuf', r) := mg_refill_loop inps items rcs outbuf hp in
      (inp :: inps', it :: items', rc :: rcs', outbuf', r)) with (_, _, _, buf, _) => Forall not_range_complete buf end).
  { specialize (IH items rcs outbuf hp Ho). by destruct (mg_refill_loop inps items rcs outbuf hp) as [[[[? ?] ?] ?] ?]. }
  destruct inp as [inp|]; [|exact Hk]. destruct it as [t|]; [exact Hk|]. clear Hk. cbn [mg_refill_loop].
  pose proof (mg_refill_one_no_rc inp rc outbuf Ho) as Hr.
  destruct (mg_refill_one inp rc outbuf) as [rf []]; simpl in Hr; [|done|done].
  specialize (IH items rcs (rf_outbuf rf) (hp || rf_pending rf) Hr).
  by destruct (mg_refill_loop inps items rcs (rf_outbuf rf) (hp || rf_pending rf)) as [[[[? ?] ?] ?] ?].
Qed.

(** Until the end the buffer holds no range marker. *)
Definition no_rc (m : MergerT) : Prop := Forall not_range_complete (mg_outbuf m) \/ mg_done_range_complete m = true.

Lemma no_rc_keeps (m m' : MergerT) : no_rc m -> keeps m m' -> no_rc m'.
Proof. unfold no_rc, keeps. intros Hn [-> ->]. exact Hn. Qed.

Lemma no_rc_push (m : MergerT) x : no_rc m -> no_rc (set_outbuf m (mg_outbuf m ++ [SOk (DataItem (Data x))])).
Proof. intros [Hm|Hm]; [left|by right]. apply Forall_app. split; [done|]. by repeat constructor. Qed.

Lemma mg_emit_no_rc (m : MergerT) b : no_rc m -> no_rc (mg_emit m b).1.
Proof.
  intros Hn. unfold mg_emit. destruct (mg_out m) as [out|] eqn:Ho; [|by destruct b].
  destruct (mt_byte_estimate out) as [out' est]. case_match; [|exact Hn].
  cbn [mg_take_outbuf_filtered set_do_clear_out set_out mg_out fst].
  refine (no_rc_push (set_out (set_do_clear_out (set_out m (Some out')) false) None) out' _). exact Hn.
Qed.

Lemma mg_poll2_no_rc (m : MergerT) : no_rc m -> no_rc (mg_poll2 m).1.
Proof.
  intros Hn. unfold mg_poll2. assert (Hr : no_rc (mg_refill m).1).
  { unfold mg_refill. destruct Hn as [Hn|Hn].
    - pose proof (mg_refill_loop_no_rc (mg_inps m) (mg_items m) (mg_range_complete m) _ false Hn) as Hl.
      destruct (mg_refill_loop _ _ _ _ _) as [[[[? ?] ?] ?] ?]. by left.
    - destruct (mg_refill_loop _ _ _ _ _) as [[[[? ?] ?] ?] ?]. by right. }
  destruct (mg_refill m) as [m1 [[[]|]| |]]; simpl in Hr; try done. unfold mg_poll3.
  destruct (negb (mg_missing m1 =? 0)%nat); [done|]. destruct (negb (mg_nitems m1 =? 0)%nat); [|by apply mg_emit_no_rc].
  pose proof (no_rc_keeps _ _ Hr (mg_process_keeps m1)) as Hp. destruct (mg_process m1) as [m2 []]; simpl in Hp; try done.
  by apply mg_emit_no_rc.
Qed.

Definition mout_not_rc (i : OutT) : Prop := i <> MOutItem (SOk (DataItem RangeComplete)).

Lemma mg_poll_next_no_rc fuel (m : MergerT) :
  no_rc m ->
  match mg_poll_next fuel m with
  | (m', MgPoll (Ready (Some i))) => mout_not_rc i /\ no_rc m'
  | (m', _) => no_rc m'
  end.
Proof.
  revert m. induction fuel as [|fuel IH]; intros m Hn; [done|]. cbn [mg_poll_next].
  destruct (mg_complete m); [done|]. destruct (mg_done_range_complete m) eqn:Hd; [by right|].
  destruct Hn as [Hn|Hn]; [|congruence].
  destruct (mg_log_queue m) as [|l q]; [|split; [done|by left]].
  destruct (mg_outbuf m) as [|item buf] eqn:Hb.
  2: { inversion Hn as [|? ? Hi Hbuf]; subst. split; [by intros [= ->]|by left]. }
  destruct (mg_done_inp m) eqn:Hdi; cbn [negb].
  { destruct (forallb id _); apply IH; by right. }
  assert (Hp : no_rc (mg_poll2 m).1) by (apply mg_poll2_no_rc; left; by rewrite Hb).
  destruct (mg_poll2 m) as [m1 [| [[e|]|] |]]; simpl in Hp; try done.
  - by apply IH.
  - cbn [mg_take_outbuf_filtered set_done mg_out]. destruct (mg_out m1) as [out|]; [|apply IH; exact Hp].
    apply IH. refine (no_rc_push (set_out (set_done m1 true (mg_done_range_complete m1) (mg_complete m1)) None) out _). exact Hp.
Qed.

(** The merger never puts out the range marker, whatever its inputs deliver,
    also when every input is marked complete: the marker is queued after the
    state that ends the stream is entered. *)
Theorem mg_never_range_complete (inps : list (MergeInp (T := T) (L := L) (St := St) (E := E))) max polls fuel items :
  mg_drain polls fuel (mg_new inps max) = Some items -> Forall mout_not_rc items.
Proof.
  assert (Hn : no_rc (mg_new inps max)) by (left; constructor). revert Hn. generalize (mg_new inps max) as m.
  revert items. induction polls as [|polls IH]; intros items m Hn Hd; [done|]. cbn [mg_drain] in Hd.
  pose proof (mg_poll_next_no_rc fuel m Hn) as Hp. destruct (mg_poll_next fuel m) as [m1 [| |[[i|]|]]]; try done.
  - destruct Hp as [Hi Hn1]. destruct (mg_drain polls fuel m1) as [items1|] eqn:Hd1; [|done].
    injection Hd as <-. constructor; [done|]. by eapply IH.
  - by injection Hd as <-.
  - by apply (IH items m1).
Qed.

End NoRangeComplete.

(** ** On the containers of the code *)
Section Demo.
  #[local] Existing Instance EventValueType_Z.

Definition demo_data (tss vals : list Z) : Poll (MItem (T := ContainerEvents Z) (L := unit) (St := unit) (E := unit)) :=
  Ready (SOk (DataItem (Data (ce_from_constituents tss vals)))).

Definition demo_inps : list (MergeInp (T := ContainerEvents Z) (L := unit) (St := unit) (E := unit)) :=
  [ [demo_data [1; 4] [10; 40]; Pending; demo_data [4; 9] [41; 90]; Ready (SOk (DataItem RangeComplete))];
    [Pending; Ready (SOk (Log tt)); demo_data [2; 4; 7] [20; 42; 70]; Ready (SOk (DataItem RangeComplete))] ].

Lemma mg_merges_witness :
  exists items, mg_drain 30 30 (mg_new demo_inps (Some 2%nat)) = Some items /\
    map (mout_events (V := Z)) items = [[]; [(1, 10); (2, 20); (4, 42)]; [(4, 41); (7, 70)]; [(9, 90)]] /\
    StronglySorted Z.le (concat (map (mout_events (V := Z)) items)).*1.
Proof.
  destruct (mg_merges (V := Z) demo_inps (Some 2%nat) 30 30) as (items & Hd & _ & Hs & _).
  - repeat constructor.
  - apply (bool_decide_unpack _); vm_compute; exact I.
  - repeat constructor; simpl; lia.
  - apply (bool_decide_unpack _); vm_compute; exact I.
  - apply (bool_decide_unpack _); vm_compute; exact I.
  - exists items. split; [exact Hd|]. split; [|exact Hs].
    vm_compute in Hd. injection Hd as <-. reflexivity.
Defined.

Lemma mg_never_range_complete_witness :
  exists items, mg_drain 30 30 (mg_new demo_inps (Some 2%nat)) = Some items /\ Forall mout_not_rc items.
Proof.
  eexists. split; [vm_compute; reflexivity|]. apply (mg_never_range_complete demo_inps (Some 2%nat) 30 30).
  vm_compute. reflexivity.
Defined.

End Demo.
