(* ===== verification/RangeFilter.v ===== *)
(** * The range filter

    [RangeFilter2] of [daqbuf-streams/src/rangefilter2.rs]: it passes the events
    of a range on, and on request the last event before the range. Like the
    merger it is generic over [MergeableTy], and its input is the list of what
    the polls of the upstream return, followed by its end. *)
From Stdlib Require Import ZArith Lia.
From stdpp Require Import base numbers option strings list sorting.
From S2P Require Import Prelude Items Ranges Events.

#[local] Open Scope Z_scope.
#[local] Open Scope rust_scope.

Inductive range_filter_error : Type :=
  | RfDrainUnclean
  | RfUnordered
  | RfLogic.

Section RangeFilter.
  Context {T : Type} `{MergeableTy T} {L R D E : Type}.

Definition RfItem : Type := Sitemty L (StatsItem R D) E T.

(** Items made from a text leave as errors: that of [handle_item], and the poll
    after the end. *)
Inductive RfOut : Type :=
  | RfOutItem (i : RfItem)
  | RfOutErr (e : range_filter_error)
  | RfOutPollOnComplete.

Record RangeFilter : Type := mkRangeFilter {
  rf_inp : list (Poll RfItem);
  rf_range : NanoRange;
  rf_one_before : bool;
  rf_one_before_done : bool;
  rf_stats : RangeFilterStats;
  rf_slot1 : option T;
  rf_slot2 : option T;
  rf_have_range_complete : bool;
  rf_inp_done : bool;
  rf_raco_done : bool;
  rf_done : bool;
  rf_complete : bool;
  rf_tsmax : Z
}.

Definition rf_new (inp : list (Poll RfItem)) (range : NanoRange) (one_before : bool) : RangeFilter :=
  mkRangeFilter inp range one_before false RangeFilterStats_new None None false false false false false 0.

(** Field updates. *)
Definition rf_set_inp (s : RangeFilter) (inp : list (Poll RfItem)) : RangeFilter :=
  mkRangeFilter inp (rf_range s) (rf_one_before s) (rf_one_before_done s) (rf_stats s) (rf_slot1 s) (rf_slot2 s)
    (rf_have_range_complete s) (rf_inp_done s) (rf_raco_done s) (rf_done s) (rf_complete s) (rf_tsmax s).
Definition rf_set_stats (s : RangeFilter) (st : RangeFilterStats) : RangeFilter :=
  mkRangeFilter (rf_inp s) (rf_range s) (rf_one_before s) (rf_one_before_done s) st (rf_slot1 s) (rf_slot2 s)
    (rf_have_range_complete s) (rf_inp_done s) (rf_raco_done s) (rf_done s) (rf_complete s) (rf_tsmax s).
Definition rf_set_tsmax (s : RangeFilter) (ts : Z) : RangeFilter :=
  mkRangeFilter (rf_inp s) (rf_range s) (rf_one_before s) (rf_one_before_done s) (rf_stats s) (rf_slot1 s) (rf_slot2 s)
    (rf_have_range_complete s) (rf_inp_done s) (rf_raco_done s) (rf_done s) (rf_complete s) ts.
Definition rf_set_one_before_done (s : RangeFilter) : RangeFilter :=
  mkRangeFilter (rf_inp s) (rf_range s) (rf_one_before s) true (rf_stats s) (rf_slot1 s) (rf_slot2 s)
    (rf_have_range_complete s) (rf_inp_done s) (rf_raco_done s) (rf_done s) (rf_complete s) (rf_tsmax s).
Definition rf_set_slots (s : RangeFilter) (slot1 slot2 : option T) : RangeFilter :=
  mkRangeFilter (rf_inp s) (rf_range s) (rf_one_before s) (rf_one_before_done s) (rf_stats s) slot1 slot2
    (rf_have_range_complete s) (rf_inp_done s) (rf_raco_done s) (rf_done s) (rf_complete s) (rf_tsmax s).
Definition rf_set_have_range_complete (s : RangeFilter) : RangeFilter :=
  mkRangeFilter (rf_inp s) (rf_range s) (rf_one_before s) (rf_one_before_done s) (rf_stats s) (rf_slot1 s) (rf_slot2 s)
    true (rf_inp_done s) (rf_raco_done s) (rf_done s) (rf_complete s) (rf_tsmax s).
Definition rf_set_done (s : RangeFilter) (inp raco done complete : bool) : RangeFilter :=
  mkRangeFilter (rf_inp s) (rf_range s) (rf_one_before s) (rf_one_before_done s) (rf_stats s) (rf_slot1 s) (rf_slot2 s)
    (rf_have_range_complete s) inp raco done complete (rf_tsmax s).

(** ** Pruning

    A counter is a [u64]; those written with [+=] wrap around. *)
Definition rf_prune_high (st : RangeFilterStats) (item : T) (ts : Z) : RangeFilterStats * outcome range_filter_error T :=
  let n := mt_len item in
  match mt_find_highest_index_lt item ts with
  | Some ihlt =>
      if (ihlt + 1 =? n)%nat then
        (mkRangeFilterStats (recv_empty st) (u64_add (items_no_prune_high st) 1) (items_all_prune_high st)
           (items_part_prune_high st) (items_prune_low st), Ok item)
      else
        (mkRangeFilterStats (recv_empty st) (items_no_prune_high st) (items_all_prune_high st)
           (u64_add (items_part_prune_high st) 1) (items_prune_low st),
         let? (item, _) := mt_drain_into_new item (ihlt + 1) n in Ok item)
  | None =>
      (mkRangeFilterStats (recv_empty st) (items_no_prune_high st) (u64_add (items_all_prune_high st) 1)
         (items_part_prune_high st) (items_prune_low st),
       let? (item, _) := mt_drain_into_new item 0 n in Ok item)
  end.

(** Draining that has to be complete; [f] gets what stays and what was taken. *)
Definition drain_clean {A} (item : T) (b e : nat) (f : T -> T -> outcome range_filter_error A) : outcome range_filter_error A :=
  let? (item, res) := mt_drain_into_new item b e in
  match res with
  | NewDone x => f item x
  | NewPartial _ | NewNotCompatible => Err RfDrainUnclean
  end.

(** The block for the one event before the range. *)
Definition rf_handle_one_before (s : RangeFilter) (item : T) : RangeFilter * outcome range_filter_error (option T) :=
  match mt_find_lowest_index_ge item (nr_beg (rf_range s)) with
  | Some ilge =>
      let s := rf_set_one_before_done s in
      if (ilge =? 0)%nat then
        match rf_slot1 s with
        | Some sl1 => (rf_set_slots s None (Some item), Ok (Some sl1))
        | None => (s, Ok (Some item))
        end
      else
        match drain_clean item 0 (ilge - 1) (fun item _ => Ok item) with
        | Ok item => (rf_set_slots s None (rf_slot2 s), Ok (Some item))
        | Err e => (s, Err e)
        | Panic => (s, Panic)
        end
  | None =>
      let n := mt_len item in
      if (n =? 0)%nat then (s, Err RfLogic)
      else
        match drain_clean item (n - 1) n (fun _ keep => Ok keep) with
        | Ok keep => (rf_set_slots s (Some keep) (rf_slot2 s), Ok None)
        | Err e => (s, Err e)
        | Panic => (s, Panic)
        end
  end.

Definition rf_handle_plain (s : RangeFilter) (item : T) : RangeFilter * outcome range_filter_error (option T) :=
  match mt_find_lowest_index_ge item (nr_beg (rf_range s)) with
  | Some ilge =>
      if (ilge =? 0)%nat then (s, Ok (Some item))
      else
        let st := rf_stats s in
        let s := rf_set_stats s (mkRangeFilterStats (recv_empty st) (items_no_prune_high st) (items_all_prune_high st)
                   (items_part_prune_high st) (u_saturating_add 64 (items_prune_low st) 1)) in
        (s, drain_clean item 0 ilge (fun item _ => if (mt_len item =? 0)%nat then Ok None else Ok (Some item)))
  | None => (s, Ok None)
  end.

Definition rf_handle_item (s : RangeFilter) (item : T) : RangeFilter * outcome range_filter_error (option T) :=
  match mt_ts_min item, mt_ts_max item with
  | Some min, Some max =>
      if min <? rf_tsmax s then (s, Err RfUnordered)
      else
        let s := rf_set_tsmax s max in
        let '(st, pruned) := rf_prune_high (rf_stats s) item (nr_end (rf_range s)) in
        let s := rf_set_stats s st in
        match pruned with
        | Ok item => if rf_one_before s && negb (rf_one_before_done s) then rf_handle_one_before s item else rf_handle_plain s item
        | Err e => (s, Err e)
        | Panic => (s, Panic)
        end
  | _, _ =>
      let st := rf_stats s in
      (rf_set_stats s (mkRangeFilterStats (u_saturating_add 64 (recv_empty st) 1) (items_no_prune_high st)
         (items_all_prune_high st) (items_part_prune_high st) (items_prune_low st)), Ok None)
  end.

(** ** Polling *)

Inductive rf_result : Type :=
  | RfPanic
  | RfOutOfFuel
  | RfPoll (p : Poll (option RfOut)).

Definition rf_data (item : T) : rf_result := RfPoll (Ready (Some (RfOutItem (SOk (DataItem (Data item)))))).

(** Each turn of the loop takes an item of the input or goes one stage further. *)
Fixpoint rf_poll_next (fuel : nat) (s : RangeFilter) : RangeFilter * rf_result :=
  match fuel with
  | O => (s, RfOutOfFuel)
  | S fuel =>
      if rf_complete s then (s, RfPoll (Ready (Some RfOutPollOnComplete)))
      else if rf_done s then (rf_set_done s (rf_inp_done s) (rf_raco_done s) (rf_done s) true, RfPoll (Ready None))
      else if rf_raco_done s then
        let s := rf_set_done s (rf_inp_done s) (rf_raco_done s) true (rf_complete s) in
        (rf_set_stats s RangeFilterStats_new, RfPoll (Ready (Some (RfOutItem (SOk (Stats (StatsRangeFilter (rf_stats s))))))))
      else if rf_inp_done s then
        let s := rf_set_done s (rf_inp_done s) true (rf_done s) (rf_complete s) in
        if rf_have_range_complete s then (s, RfPoll (Ready (Some (RfOutItem (SOk (DataItem RangeComplete))))))
        else rf_poll_next fuel s
      else
        match rf_slot2 s with
        | Some item => (rf_set_slots s (rf_slot1 s) None, rf_data item)
        | None =>
            match rf_inp s with
            | Ready item :: inp =>
                let s := rf_set_inp s inp in
                match item with
                | SOk (DataItem (Data item)) =>
                    match rf_handle_item s item with
                    | (s, Ok (Some item)) => (s, rf_data item)
                    | (s, Ok None) => rf_poll_next fuel s
                    | (s, Err e) =>
                        (rf_set_done s true (rf_raco_done s) (rf_done s) (rf_complete s), RfPoll (Ready (Some (RfOutErr e))))
                    | (s, Panic) => (s, RfPanic)
                    end
                | SOk (DataItem RangeComplete) => rf_poll_next fuel (rf_set_have_range_complete s)
                | k => (s, RfPoll (Ready (Some (RfOutItem k))))
                end
            | Pending :: inp => (rf_set_inp s inp, RfPoll Pending)
            | [] =>
                let s := rf_set_done s true (rf_raco_done s) (rf_done s) (rf_complete s) in
                match rf_slot1 s with
                | Some sl1 => (rf_set_slots s None (rf_slot2 s), rf_data sl1)
                | None => rf_poll_next fuel s
                end
            end
        end
  end.

(** A consumer that polls until the end. *)
Fixpoint rf_drain (polls fuel : nat) (s : RangeFilter) : option (list RfOut) :=
  match polls with
  | O => None
  | S polls =>
      match rf_poll_next fuel s with
      | (s, RfPoll (Ready (Some item))) => items ← rf_drain polls fuel s; Some (item :: items)
      | (_, RfPoll (Ready None)) => Some []
      | (s, RfPoll Pending) => rf_drain polls fuel s
      | (_, RfPanic) | (_, RfOutOfFuel) => None
      end
  end.

End RangeFilter.

(** ** What the filter passes *)
Section RangeFilterProofs.
  Context {T V : Type} `{MergeableLaws T V} {L R D E : Type}.
Abbreviation FilterT := (RangeFilter (T := T) (L := L) (R := R) (D := D) (E := E)).
Abbreviation FItemT := (RfItem (T := T) (L := L) (R := R) (D := D) (E := E)).
Abbreviation FOutT := (RfOut (T := T) (L := L) (R := R) (D := D) (E := E)).

Definition opt_events (o : option T) : list (Z * V) := from_option mt_events [] o.
Definition opt_list {A} (o : option A) : list A := from_option (fun x => [x]) [] o.

Definition in_range (r : NanoRange) (evs : list (Z * V)) : list (Z * V) :=
  filter (fun e => nr_beg r <= e.1 < nr_end r) evs.
Definition before_range (r : NanoRange) (evs : list (Z * V)) : list (Z * V) := filter (fun e => e.1 < nr_beg r) evs.

(** The events of the range, and before them the last one before it. *)
Definition selected (r : NanoRange) (one_before : bool) (prev evs : list (Z * V)) : list (Z * V) :=
  (if one_before then opt_list (last (prev ++ before_range r evs)) else []) ++ in_range r evs.

(** With events only after the range there has to be one in it, else the filter
    fails when it looks for the one before. *)
Definition reaches (r : NanoRange) (evs : list (Z * V)) : Prop :=
  Exists (fun e => nr_beg r <= e.1 < nr_end r) evs \/ Forall (fun e => e.1 < nr_end r) evs.

(** The state with the events [cur] of an item at hand and [rest] to come. *)
Record rf_ok (s : FilterT) (cur rest : list (Z * V)) : Prop := {
  ok_sorted : StronglySorted Z.le (cur ++ rest).*1;
  ok_tsmax : Forall (fun e => rf_tsmax s <= e.1) rest;
  ok_slot1 : forall t, rf_slot1 s = Some t ->
    rf_one_before s = true /\ rf_one_before_done s = false /\ mt_wf t /\ exists e, mt_events t = [e];
  ok_slot2 : forall t, rf_slot2 s = Some t -> mt_wf t /\ mt_events t <> [];
  ok_after : rf_one_before_done s = true -> Forall (fun e => nr_beg (rf_range s) <= e.1) (cur ++ rest);
  ok_reaches : rf_one_before s = true -> rf_one_before_done s = false -> reaches (rf_range s) (cur ++ rest)
}.

Definition rf_selected (s : FilterT) (evs : list (Z * V)) : list (Z * V) :=
  selected (rf_range s) (rf_one_before s) (opt_events (rf_slot1 s)) evs.

(** Everything but the events, the slots and the statistics. *)
Definition same_frame (s s' : FilterT) : Prop :=
  rf_inp s' = rf_inp s /\ rf_range s' = rf_range s /\ rf_one_before s' = rf_one_before s /\
  rf_have_range_complete s' = rf_have_range_complete s /\ rf_inp_done s' = rf_inp_done s /\
  rf_raco_done s' = rf_raco_done s /\ rf_done s' = rf_done s /\ rf_complete s' = rf_complete s.

(** The events [cur] are handled: what is put out and kept is what they add. *)
Definition handled (s : FilterT) (cur rest : list (Z * V)) (res : FilterT * outcome range_filter_error (option T)) : Prop :=
  exists s' o, res = (s', Ok o) /\ same_frame s s' /\ rf_ok s' [] rest /\
    (forall t, o = Some t -> mt_wf t /\ mt_events t <> []) /\
    (o = None -> rf_slot2 s' = None) /\
    rf_selected s (cur ++ rest) = opt_events o ++ opt_events (rf_slot2 s') ++ rf_selected s' rest.

Lemma sorted_cut (l1 l2 : list (Z * V)) :
  StronglySorted Z.le (l1 ++ l2).*1 ->
  StronglySorted Z.le l1.*1 /\ StronglySorted Z.le l2.*1 /\ forall x y, x ∈ l1 -> y ∈ l2 -> x.1 <= y.1.
Proof.
  rewrite fmap_app. intros (? & ? & Hle)%sorted_app_inv. split; [done|]. split; [done|].
  intros x y Hx Hy. by apply Hle; apply list_elem_of_fmap_2.
Qed.

Lemma prune_high_spec st item ts :
  mt_wf item -> StronglySorted Z.le (mt_events item).*1 ->
  exists st' item', rf_prune_high st item ts = (st', Ok item') /\ mt_wf item' /\
    mt_events item' = filter (fun e => e.1 < ts) (mt_events item).
Proof.
  intros Hw Hs. unfold rf_prune_high. rewrite mt_find_lt_eq, mt_len_eq by done. cbv zeta.
  destruct (partition_point_split (mt_events item) ts Hs) as [-> _].
  pose proof (partition_point_le (fun t => t <? ts) (mt_events item).*1) as Hle. rewrite length_fmap in Hle.
  set (k := partition_point _ _) in *. destruct (Nat.eqb_spec k 0) as [->|Hk].
  - destruct (mt_drain_into_new_range range_filter_error item 0 (length (mt_events item)) Hw) as (t' & d & -> & ? & ? & He & _); [lia|].
    eexists _, t'. split; [done|]. split; [done|]. by rewrite He, drop_all.
  - destruct (Nat.eqb_spec (k - 1 + 1) (length (mt_events item))) as [Hn|Hn].
    + eexists _, item. split; [done|]. split; [done|]. rewrite take_ge by lia. done.
    + destruct (mt_drain_into_new_range range_filter_error item (k - 1 + 1) (length (mt_events item)) Hw) as (t' & d & -> & ? & ? & He & _); [lia|].
      eexists _, t'. split; [done|]. split; [done|]. rewrite He, drop_all, app_nil_r. f_equal. lia.
Qed.

Lemma drain_clean_spec {A} item b e (f : T -> T -> outcome range_filter_error A) :
  mt_wf item -> (b <= e <= length (mt_events item))%nat ->
  exists item' x, drain_clean item b e f = f item' x /\ mt_wf item' /\ mt_wf x /\
    mt_events item' = take b (mt_events item) ++ drop e (mt_events item) /\
    mt_events x = take (e - b) (drop b (mt_events item)).
Proof.
  intros Hw Hb. destruct (mt_drain_into_new_range range_filter_error item b e Hw Hb) as (t' & d & Hd & ? & ? & ? & ?).
  exists t', d. unfold drain_clean. by rewrite Hd.
Qed.

(** What is left of the events when those at the end are cut off. *)
Lemma in_range_cut r evs : in_range r evs = filter (fun e => nr_beg r <= e.1) (filter (fun e => e.1 < nr_end r) evs).
Proof. unfold in_range. by rewrite list_filter_filter. Qed.

Lemma before_range_none r (l : list (Z * V)) : Forall (fun e => nr_beg r <= e.1) l -> before_range r l = [].
Proof. intros Hl. apply filter_false. eapply Forall_impl; [exact Hl|]. simpl. lia. Qed.

Lemma selected_after r ob l : Forall (fun e => nr_beg r <= e.1) l -> selected r ob [] l = in_range r l.
Proof. intros Hl. unfold selected. rewrite before_range_none by done. by destruct ob. Qed.

(** Nothing before the range is wanted. *)
Lemma selected_plain r ob prev cur rest :
  ob = false \/ prev = [] /\ Forall (fun e => nr_beg r <= e.1) (cur ++ rest) ->
  selected r ob prev (cur ++ rest) = in_range r cur ++ selected r ob prev rest.
Proof.
  intros [->|[-> Hf]]; [unfold selected, in_range; by rewrite filter_app|]. rewrite selected_after by done.
  apply Forall_app in Hf as [_ Hf]. rewrite selected_after by done. unfold in_range. by rewrite filter_app.
Qed.

Lemma filter_sorted (P : Z * V -> Prop) `{forall x, Decision (P x)} l : StronglySorted Z.le l.*1 -> StronglySorted Z.le (filter P l).*1.
Proof.
  induction l as [|e l IH]; intros Hs; [done|]. rewrite fmap_cons in Hs. inversion Hs as [|? ? Hs' Hall]; subst.
  rewrite filter_cons. destruct (decide (P e)); [|by apply IH]. rewrite fmap_cons. constructor; [by apply IH|].
  rewrite Forall_fmap in *. rewrite Forall_forall in *. intros x Hx. apply Hall. by apply list_elem_of_filter in Hx as [_ ?].
Qed.

Lemma rf_ok_stats s st cur rest : rf_ok s cur rest -> rf_ok (rf_set_stats s st) cur rest.
Proof. by intros []. Qed.

Lemma handle_plain_spec s item cur rest :
  rf_ok s cur rest -> rf_slot2 s = None -> (rf_one_before s && negb (rf_one_before_done s)) = false ->
  mt_wf item -> mt_events item = filter (fun e => e.1 < nr_end (rf_range s)) cur ->
  handled s cur rest (rf_handle_plain s item).
Proof.
  intros Hok H2 Hob Hw He.
  assert (Hrest : rf_ok s [] rest).
  { destruct Hok. destruct (sorted_cut cur rest) as (_ & ? & _); [done|]. split; cbn [app]; try done.
    - intros Hd. by eapply Forall_app, ok_after0.
    - intros Ho Hd. by rewrite Ho, Hd in Hob. }
  assert (Hsel : rf_selected s (cur ++ rest) = in_range (rf_range s) cur ++ rf_selected s rest).
  { apply selected_plain. destruct (rf_one_before s); [|by left]. right. destruct (rf_one_before_done s) eqn:Hd; [|done].
    split; [|by apply Hok]. destruct (rf_slot1 s) as [t|] eqn:Ht; [|done]. apply (ok_slot1 _ _ _ Hok) in Ht as (_ & ? & _). congruence. }
  assert (Hs : StronglySorted Z.le (mt_events item).*1).
  { rewrite He. apply filter_sorted. by destruct (sorted_cut cur rest) as (? & _); [apply Hok|]. }
  rewrite in_range_cut, <- He in Hsel. destruct (partition_point_split (mt_events item) (nr_beg (rf_range s)) Hs) as [_ Hd].
  rewrite Hd in Hsel. unfold rf_handle_plain. rewrite mt_find_ge_eq by done. cbv zeta. set (k := partition_point _ _) in *.
  destruct (Nat.leb_spec (length (mt_events item)) k) as [Hge|Hlt].
  - eexists s, None. rewrite drop_ge in Hsel by done. split; [done|]. split; [done|]. split; [done|]. split; [done|]. split; [done|].
    by rewrite H2.
  - destruct (Nat.eqb_spec k 0) as [Hk|Hk].
    + rewrite Hk, drop_0 in Hsel. exists s, (Some item). split; [done|]. split; [done|]. split; [done|].
      split; [|split; [done|by rewrite H2]]. intros ? [= <-]. split; [done|]. intros Hz. rewrite Hz in Hlt. simpl in Hlt. lia.
    + destruct (drain_clean_spec item 0 k (fun item _ => if (mt_len item =? 0)%nat then Ok None else Ok (Some item)) Hw)
        as (item' & x & -> & Hw' & _ & He' & _); [lia|].
      rewrite mt_len_eq by done. rewrite take_0, app_nil_l in He'. rewrite He', length_drop.
      destruct (Nat.eqb_spec (length (mt_events item) - k) 0); [lia|].
      eexists _, (Some item'). split; [done|]. split; [done|]. split; [by apply rf_ok_stats|].
      split; [|split; [done|cbn [opt_events from_option]; rewrite He'; cbn [rf_set_stats rf_slot2]; by rewrite H2]].
      intros ? [= <-]. split; [done|]. rewrite He'. intros Hz%(f_equal length). rewrite length_drop in Hz. simpl in Hz. lia.
Qed.

(** With an event in the range at hand, the one before is known. *)
Lemma one_before_found r cur rest x :
  StronglySorted Z.le (cur ++ rest).*1 -> x ∈ cur -> nr_beg r <= x.1 < nr_end r ->
  before_range r cur = filter (fun e => e.1 < nr_beg r) (filter (fun e => e.1 < nr_end r) cur) /\
  Forall (fun e => nr_beg r <= e.1) rest.
Proof.
  intros Hs Hx Hr. destruct (sorted_cut cur rest Hs) as (_ & _ & Hle). split.
  - rewrite list_filter_filter. apply list_filter_iff. intros e. lia.
  - apply Forall_forall. intros e He. specialize (Hle x e Hx He). lia.
Qed.

(** Without one, nothing of the item is cut off. *)
Lemma one_before_not_found r cur rest :
  StronglySorted Z.le (cur ++ rest).*1 -> reaches r (cur ++ rest) -> in_range r cur = [] ->
  filter (fun e => e.1 < nr_end r) cur = cur /\ reaches r rest.
Proof.
  intros Hs Hr Hin. destruct (sorted_cut cur rest Hs) as (_ & _ & Hle). destruct Hr as [Hex|Hall].
  - apply Exists_app in Hex as [Hex|Hex].
    + exfalso. apply Exists_exists in Hex as (x & Hx & Hxr).
      assert (Hm : x ∈ in_range r cur) by (by apply list_elem_of_filter). rewrite Hin in Hm. by apply not_elem_of_nil in Hm.
    + split; [|by left]. apply Exists_exists in Hex as (x & Hx & Hxr). apply filter_true, Forall_forall.
      intros e He. specialize (Hle e x He Hx). lia.
  - apply Forall_app in Hall as [? ?]. split; [by apply filter_true|by right].
Qed.

Lemma last_before_drop (prev l : list (Z * V)) k :
  (0 < k < length l)%nat -> opt_list (last (prev ++ take k l)) ++ drop k l = drop (k - 1) l.
Proof.
  intros Hk. destruct (lookup_lt_is_Some_2 l (k - 1)) as [y Hy]; [lia|]. replace k with (S (k - 1)) by lia.
  rewrite (take_S_r l _ y Hy), app_assoc, last_snoc. cbn [opt_list from_option app].
  replace (S (k - 1) - 1)%nat with (k - 1)%nat by lia. by rewrite (drop_S l y (k - 1) Hy).
Qed.

(** Finding the range: the state that is done with the event before it. *)
Lemma one_before_done_ok s cur rest sl2 x :
  rf_ok s cur rest -> x ∈ cur -> nr_beg (rf_range s) <= x.1 < nr_end (rf_range s) ->
  (forall t, sl2 = Some t -> mt_wf t /\ mt_events t <> []) ->
  rf_ok (rf_set_slots (rf_set_one_before_done s) None sl2) [] rest /\
  rf_selected (rf_set_slots (rf_set_one_before_done s) None sl2) rest = in_range (rf_range s) rest.
Proof.
  intros [] Hx Hr H2. destruct (sorted_cut cur rest) as (_ & ? & _); [done|].
  destruct (one_before_found (rf_range s) cur rest x) as [_ Hge]; try done. split.
  - by split; cbn.
  - by apply selected_after.
Qed.

Lemma handle_one_before_found s item cur rest :
  rf_ok s cur rest -> rf_slot2 s = None -> rf_one_before s = true ->
  mt_wf item -> mt_events item = filter (fun e => e.1 < nr_end (rf_range s)) cur ->
  StronglySorted Z.le (mt_events item).*1 ->
  (partition_point (fun t => (t <? nr_beg (rf_range s))%Z) (mt_events item).*1 < length (mt_events item))%nat ->
  handled s cur rest (rf_handle_one_before s item).
Proof.
  intros Hok H2 Hob Hw He Hs Hlt. destruct (partition_point_split (mt_events item) (nr_beg (rf_range s)) Hs) as [Ht Hd].
  unfold rf_handle_one_before. rewrite mt_find_ge_eq by done. cbv zeta. set (k := partition_point _ _) in *.
  rewrite (proj2 (Nat.leb_gt _ _)) by done.
  destruct (lookup_lt_is_Some_2 (mt_events item) k Hlt) as [x Hx].
  assert (Hxr : x ∈ cur /\ nr_beg (rf_range s) <= x.1 < nr_end (rf_range s)).
  { assert (Hin : x ∈ mt_events item) by (by eapply list_elem_of_lookup_2). rewrite He in Hin. apply list_elem_of_filter in Hin as [? ?].
    split; [done|]. split; [|done]. apply Z.ltb_ge, (partition_point_at (fun t => t <? nr_beg (rf_range s)) (mt_events item).*1).
    fold k. by rewrite list_lookup_fmap, Hx. }
  destruct Hxr as [Hxc Hxr]. destruct (one_before_found (rf_range s) cur rest x) as [Hbef Hge]; [apply Hok|done|done|].
  assert (Hsel : rf_selected s (cur ++ rest) =
    (opt_list (last (opt_events (rf_slot1 s) ++ take k (mt_events item))) ++ drop k (mt_events item)) ++ in_range (rf_range s) rest).
  { unfold rf_selected, selected. rewrite Hob. unfold before_range in *. unfold in_range. rewrite !filter_app, Hbef, <- He, Ht.
    rewrite (filter_false _ rest) by (eapply Forall_impl; [exact Hge|]; simpl; lia). rewrite app_nil_r, <- app_assoc.
    fold (in_range (rf_range s) cur). by rewrite in_range_cut, <- He, Hd. }
  assert (Hne : mt_events item <> []) by (by destruct (mt_events item)).
  destruct (Nat.eqb_spec k 0) as [Hk|Hk].
  - rewrite Hk, drop_0, take_0, app_nil_r in Hsel. cbn [rf_set_one_before_done rf_slot1]. destruct (rf_slot1 s) as [sl1|] eqn:Hsl.
    + destruct (ok_slot1 _ _ _ Hok sl1 Hsl) as (_ & _ & Hw1 & e & Hev1). cbn [opt_events from_option] in Hsel. rewrite Hev1 in Hsel.
      destruct (one_before_done_ok s cur rest (Some item) x Hok Hxc Hxr) as [Hok' Hsel']; [by intros ? [= <-]|].
      eexists _, (Some sl1). split; [done|]. split; [done|]. split; [exact Hok'|]. split; [intros ? [= <-]; by rewrite Hev1|].
      split; [done|]. rewrite Hsel, Hsel'. cbn. by rewrite Hev1.
    + destruct (one_before_done_ok s cur rest (rf_slot2 s) x Hok Hxc Hxr) as [Hok' Hsel']; [apply Hok|].
      assert (Hst : rf_set_slots (rf_set_one_before_done s) None (rf_slot2 s) = rf_set_one_before_done s) by (by rewrite <- Hsl; destruct s).
      rewrite Hst in *. eexists _, (Some item). split; [done|]. split; [done|]. split; [done|].
      split; [by intros ? [= <-]|]. split; [done|]. rewrite Hsel, Hsel'. cbn. by rewrite H2.
  - destruct (drain_clean_spec item 0 (k - 1) (fun item _ => Ok item) Hw) as (item' & y & -> & Hw' & _ & He' & _); [lia|].
    rewrite take_0, app_nil_l in He'. destruct (one_before_done_ok s cur rest (rf_slot2 s) x Hok Hxc Hxr) as [Hok' Hsel']; [apply Hok|].
    eexists _, (Some item'). split; [done|]. split; [done|]. split; [exact Hok'|].
    split; [intros ? [= <-]; split; [done|]; rewrite He'; intros Hz%(f_equal length); rewrite length_drop in Hz; simpl in Hz; lia|].
    split; [done|]. rewrite Hsel. cbn [rf_set_slots rf_set_one_before_done rf_slot2] in *. rewrite Hsel', H2. cbn [opt_events from_option app].
    by rewrite He', last_before_drop by lia.
Qed.

Lemma handle_one_before_spec s item cur rest :
  rf_ok s cur rest -> rf_slot2 s = None -> rf_one_before s = true -> rf_one_before_done s = false -> cur <> [] ->
  mt_wf item -> mt_events item = filter (fun e => e.1 < nr_end (rf_range s)) cur ->
  handled s cur rest (rf_handle_one_before s item).
Proof.
  intros Hok H2 Hob Hnd Hne Hw He.
  assert (Hs : StronglySorted Z.le (mt_events item).*1).
  { rewrite He. apply filter_sorted. by destruct (sorted_cut cur rest) as (? & _); [apply Hok|]. }
  destruct (Nat.lt_ge_cases (partition_point (fun t => (t <? nr_beg (rf_range s))%Z) (mt_events item).*1) (length (mt_events item))) as [Hlt|Hge];
    [by apply handle_one_before_found|].
  destruct (partition_point_split (mt_events item) (nr_beg (rf_range s)) Hs) as [Ht Hd].
  unfold rf_handle_one_before. rewrite mt_find_ge_eq by done. cbv zeta. rewrite (proj2 (Nat.leb_le _ _)) by done.
  rewrite take_ge in Ht by done. rewrite drop_ge in Hd by done.
  assert (Hin : in_range (rf_range s) cur = []) by (by rewrite in_range_cut, <- He).
  destruct (one_before_not_found (rf_range s) cur rest) as [Hall Hr]; [apply Hok|by apply Hok|done|]. rewrite Hall in He. rewrite He in *.
  rewrite mt_len_eq by done. rewrite He. destruct (Nat.eqb_spec (length cur) 0) as [Hz|Hz]; [by destruct cur|].
  destruct (drain_clean_spec item (length cur - 1) (length cur) (fun _ keep => Ok keep) Hw) as (y & keep & -> & _ & Hwk & _ & Hk);
    [rewrite He; lia|]. rewrite He in Hk.
  destruct (lookup_lt_is_Some_2 cur (length cur - 1)) as [e Hce]; [lia|].
  assert (Hcur : cur = take (length cur - 1) cur ++ [e]).
  { rewrite <- (take_S_r cur _ e Hce). by rewrite take_ge by lia. }
  assert (Hke : mt_events keep = [e]).
  { rewrite Hk. replace (length cur - (length cur - 1))%nat with 1%nat by lia. by rewrite (drop_S cur e _ Hce). }
  eexists _, None. split; [done|]. split; [done|]. destruct Hok. destruct (sorted_cut cur rest) as (_ & ? & _); [done|]. split; [|split; [done|split; [done|]]].
  - split; cbn; try done. + intros ? [= <-]. split; [done|]. split; [done|]. split; [done|]. by exists e.
    + by rewrite Hnd.
  - cbn [rf_set_slots rf_slot2]. rewrite H2. unfold rf_selected, selected. cbn [rf_set_slots rf_range rf_one_before rf_slot1 opt_events from_option app].
    rewrite Hob, Hke. unfold before_range in *. unfold in_range in *. rewrite !filter_app, Ht, Hin. cbn [app]. f_equal. f_equal.
    assert (Hl : last cur = Some e) by (by rewrite Hcur, last_snoc).
    change (e :: ?l) with ([e] ++ l). rewrite !last_app, Hl. by destruct (last (filter _ rest)).
Qed.

Lemma handle_item_spec s item rest :
  rf_ok s [] (mt_events item ++ rest) -> rf_slot2 s = None -> mt_wf item ->
  handled s (mt_events item) rest (rf_handle_item s item).
Proof.
  intros Hok H2 Hw. unfold rf_handle_item. rewrite mt_ts_min_eq, mt_ts_max_eq by done.
  destruct (mt_events item) as [|e0 evs] eqn:He; cbn [fmap list_fmap head].
  { eexists _, None. split; [done|]. split; [done|]. split; [by apply rf_ok_stats|]. split; [done|]. split; [done|].
    cbn [rf_set_stats rf_slot2]. by rewrite H2. }
  destruct (last (e0.1 :: evs.*1)) as [mx|] eqn:Hmx; [|by apply last_None in Hmx].
  pose proof (ok_tsmax _ _ _ Hok) as Hts. inversion Hts as [|? ? Hmin _]; subst. rewrite (proj2 (Z.ltb_ge _ _)) by done.
  set (s1 := rf_set_tsmax s mx).
  assert (Hok1 : rf_ok s1 (e0 :: evs) rest).
  { destruct Hok. split; try done. cbn [s1 rf_set_tsmax rf_tsmax]. destruct (sorted_cut (e0 :: evs) rest) as (_ & _ & Hle); [done|].
    change (e0.1 :: evs.*1) with ((e0 :: evs).*1) in Hmx. apply last_Some_elem_of, list_elem_of_fmap in Hmx as (x & -> & Hx).
    apply Forall_forall. intros y Hy. by apply Hle. }
  destruct (prune_high_spec (rf_stats s1) item (nr_end (rf_range s1)) Hw) as (st & item' & -> & Hw' & He').
  { rewrite He. by destruct (sorted_cut (e0 :: evs) rest) as (? & _); [apply Hok1|]. }
  rewrite He in He'. apply (rf_ok_stats _ st) in Hok1. set (s2 := rf_set_stats s1 st) in *.
  change (handled s2 (e0 :: evs) rest (if rf_one_before s2 && negb (rf_one_before_done s2)
    then rf_handle_one_before s2 item' else rf_handle_plain s2 item')).
  destruct (rf_one_before s2 && negb (rf_one_before_done s2)) eqn:Hc; [|by apply handle_plain_spec].
  apply andb_prop in Hc as [? ?%negb_true_iff]. by apply handle_one_before_spec.
Qed.

(** ** Polls *)

(** What is neither events nor the marker passes. *)
Definition item_passed (i : FItemT) : list FItemT := match i with SOk (DataItem _) => [] | _ => [i] end.
Definition poll_passed (p : Poll FItemT) : list FItemT := match p with Ready i => item_passed i | Pending => [] end.
Definition polls_passed (l : list (Poll FItemT)) : list FItemT := concat (map poll_passed l).
Definition poll_marks (p : Poll FItemT) : bool := match p with Ready (SOk (DataItem RangeComplete)) => true | _ => false end.

Definition poll_wf (p : Poll FItemT) : Prop := match p with Ready (SOk (DataItem (Data k))) => mt_wf k | _ => True end.

Definition out_events (o : FOutT) : list (Z * V) := match o with RfOutItem i => sitem_events i | _ => [] end.
Definition out_rest (o : FOutT) : list FOutT := match o with RfOutItem (SOk (DataItem (Data _))) => [] | _ => [o] end.

(** Containers that are put out are not empty. *)
Definition out_ok (o : FOutT) : Prop :=
  match o with RfOutItem (SOk (DataItem (Data k))) => mt_wf k /\ mt_events k <> [] | RfOutItem _ => True | _ => False end.

Definition out_end (marked : bool) (st : RangeFilterStats) : list FOutT :=
  (if marked then [RfOutItem (SOk (DataItem RangeComplete))] else []) ++ [RfOutItem (SOk (Stats (StatsRangeFilter st)))].

(** What a state has yet to put out, given the statistics at the end. *)
Definition rf_events (s : FilterT) : list (Z * V) :=
  if rf_inp_done s then [] else opt_events (rf_slot2 s) ++ rf_selected s (polls_events (rf_inp s)).
Definition rf_rest (st : RangeFilterStats) (s : FilterT) : list FOutT :=
  if rf_done s then []
  else if rf_raco_done s then out_end false st
  else if rf_inp_done s then out_end (rf_have_range_complete s) st
  else map RfOutItem (polls_passed (rf_inp s)) ++ out_end (rf_have_range_complete s || existsb poll_marks (rf_inp s)) st.

Record rf_inv (s : FilterT) : Prop := {
  ri_complete : rf_complete s = false;
  ri_stage : rf_inp_done s = false -> rf_raco_done s = false /\ rf_done s = false /\ Forall poll_wf (rf_inp s) /\
    rf_ok s [] (polls_events (rf_inp s))
}.

Definition slot_weight (o : option T) : nat := match o with Some _ => 1 | None => 0 end.
Definition rf_weight (s : FilterT) : nat :=
  if rf_done s then 0
  else if rf_raco_done s then 1
  else if rf_inp_done s then 2
  else 3 + 3 * length (rf_inp s) + slot_weight (rf_slot1 s) + slot_weight (rf_slot2 s).

(** From [s] to [s'] the events [evs] and the items [os] were put out. *)
Record advances (s s' : FilterT) (evs : list (Z * V)) (os : list FOutT) : Prop := {
  ad_inv : rf_inv s';
  ad_events : rf_events s = evs ++ rf_events s';
  ad_rest : forall st', exists st, rf_rest st s = os ++ rf_rest st' s';
  ad_inp : (length (rf_inp s') <= length (rf_inp s))%nat
}.

Definition polled (s : FilterT) (res : FilterT * rf_result) : Prop :=
  match res.2 with
  | RfPoll Pending => advances s res.1 [] [] /\ (rf_weight res.1 < rf_weight s)%nat
  | RfPoll (Ready (Some o)) => advances s res.1 (out_events o) (out_rest o) /\ (rf_weight res.1 < rf_weight s)%nat /\ out_ok o
  | RfPoll (Ready None) => rf_events s = [] /\ exists st, rf_rest st s = []
  | RfPanic | RfOutOfFuel => False
  end.

Lemma advances_trans s s1 s2 e1 e2 o1 o2 : advances s s1 e1 o1 -> advances s1 s2 e2 o2 -> advances s s2 (e1 ++ e2) (o1 ++ o2).
Proof.
  intros [_ He1 Hr1 Hl1] [Hi He2 Hr2 Hl2]. split; [done|by rewrite He1, He2, app_assoc| |lia].
  intros st2. destruct (Hr2 st2) as [st1 Hst1]. destruct (Hr1 st1) as [st Hst]. exists st. by rewrite Hst, Hst1, app_assoc.
Qed.

(** A turn that puts nothing out. *)
Lemma polled_after s s1 res : advances s s1 [] [] -> (rf_weight s1 <= rf_weight s)%nat -> polled s1 res -> polled s res.
Proof.
  intros Had Hw. unfold polled. destruct res as [s' [| |[[o|]|]]]; cbn [fst snd]; try done.
  - intros (Had' & ? & ?). split; [|split; [lia|done]]. exact (advances_trans _ _ _ _ _ _ _ Had Had').
  - destruct Had as [_ He Hr _]. intros [He1 [st1 Hr1]]. split; [by rewrite He, He1|]. destruct (Hr st1) as [st Hst]. exists st. by rewrite Hst, Hr1.
  - intros (Had' & ?). split; [|lia]. exact (advances_trans _ _ _ _ _ _ _ Had Had').
Qed.

Lemma rf_inv_end s : rf_complete s = false -> rf_inp_done s = true -> rf_inv s.
Proof. intros Hc Hi. split; [done|]. by rewrite Hi. Qed.

(** After the end of the input: the marker, the statistics, the end. *)
Lemma rf_poll_end fuel s : rf_inv s -> rf_inp_done s = true -> (2 <= fuel)%nat -> polled s (rf_poll_next fuel s).
Proof.
  intros [Hc _] Hi Hf. destruct fuel as [|[|fuel]]; [lia|lia|]. cbn [rf_poll_next]. rewrite Hc.
  destruct (rf_done s) eqn:Hd.
  { unfold polled. cbn [snd]. unfold rf_events, rf_rest. rewrite Hi, Hd. split; [done|]. by exists (rf_stats s). }
  destruct (rf_raco_done s) eqn:Hr.
  { unfold polled. cbn [fst snd]. split; [|split; [unfold rf_weight; cbn; rewrite Hd, Hr; lia|done]].
    split; [by apply rf_inv_end|unfold rf_events; cbn; by rewrite Hi| |done]. intros st'. exists (rf_stats s). unfold rf_rest. cbn. by rewrite Hd, Hr. }
  rewrite Hi. cbn [rf_set_done rf_set_stats rf_complete rf_done rf_raco_done rf_inp_done rf_have_range_complete rf_stats].
  destruct (rf_have_range_complete s) eqn:Hm.
  - unfold polled. cbn [fst snd]. split; [|split; [unfold rf_weight; cbn; rewrite Hd, Hr, Hi; lia|done]].
    split; [by apply rf_inv_end|unfold rf_events; cbn; by rewrite Hi| |done]. intros st'. exists st'. unfold rf_rest. cbn. by rewrite Hd, Hr, Hi, Hm.
  - unfold polled. cbn [fst snd]. split; [|split; [unfold rf_weight; cbn; rewrite Hd, Hr, Hi; lia|done]].
    split; [by apply rf_inv_end|unfold rf_events; cbn; by rewrite Hi| |done]. intros st'. exists (rf_stats s). unfold rf_rest. cbn. by rewrite Hd, Hr, Hi, Hm.
Qed.

(** The state that has taken an item from the input. *)
Lemma polls_events_cons (p : Poll FItemT) l : polls_events (p :: l) = poll_events p ++ polls_events l.
Proof. done. Qed.

Lemma rf_ok_inp s inp cur rest : rf_ok s cur rest -> rf_ok (rf_set_inp s inp) cur rest.
Proof. by intros []. Qed.

(** A poll that takes an item without events. *)
Lemma rf_take_plain s p inp :
  rf_inv s -> rf_inp_done s = false -> rf_inp s = p :: inp -> poll_events p = [] -> poll_marks p = false ->
  advances s (rf_set_inp s inp) [] (map RfOutItem (poll_passed p)) /\ (rf_weight (rf_set_inp s inp) < rf_weight s)%nat.
Proof.
  intros [Hc Hst] Hi Hinp Hev Hm. destruct (Hst Hi) as (Hr & Hd & Hw & Hok). rewrite Hinp, polls_events_cons, Hev in Hok.
  rewrite Hinp in Hw. inversion Hw; subst. split.
  - split.
    + split; [done|]. intros _. split; [done|]. split; [done|]. split; [done|]. by apply rf_ok_inp.
    + unfold rf_events. cbn [rf_set_inp rf_inp_done rf_slot2 rf_inp]. by rewrite Hi, Hinp, polls_events_cons, Hev.
    + intros st'. exists st'. unfold rf_rest. cbn [rf_set_inp rf_inp rf_inp_done rf_done rf_raco_done rf_have_range_complete].
      rewrite Hi, Hr, Hd, Hinp. unfold polls_passed. cbn [map concat existsb]. rewrite Hm. by rewrite map_app, <- app_assoc.
    + cbn. rewrite Hinp. cbn. lia.
  - unfold rf_weight. cbn [rf_set_inp rf_inp rf_inp_done rf_done rf_raco_done rf_slot1 rf_slot2]. rewrite Hi, Hr, Hd, Hinp. cbn [length]. lia.
Qed.

(** A poll that takes a container: the state after [rf_handle_item]. *)
Lemma rf_take_data s k inp :
  rf_inv s -> rf_inp_done s = false -> rf_slot2 s = None -> rf_inp s = Ready (SOk (DataItem (Data k))) :: inp ->
  exists s' o, rf_handle_item (rf_set_inp s inp) k = (s', Ok o) /\ rf_inp_done s' = false /\ rf_inp s' = inp /\
    advances s s' (opt_events o) [] /\ (rf_weight s' < rf_weight s)%nat /\ (forall t, o = Some t -> mt_wf t /\ mt_events t <> []).
Proof.
  intros [Hc Hst] Hi H2 Hinp. destruct (Hst Hi) as (Hr & Hd & Hw & Hok). rewrite Hinp, polls_events_cons in Hok.
  rewrite Hinp in Hw. inversion Hw as [|? ? Hk Hw']; subst.
  destruct (handle_item_spec (rf_set_inp s inp) k (polls_events inp)) as (s' & o & Heq & Hfr & Hok' & Ho & _ & Hsel);
    [by apply rf_ok_inp|done|done|].
  destruct Hfr as (F1 & F2 & F3 & F4 & F5 & F6 & F7 & F8). cbn [rf_set_inp rf_inp rf_have_range_complete rf_inp_done rf_raco_done rf_done rf_complete] in *.
  exists s', o. split; [done|]. split; [congruence|]. split; [done|]. split; [split|split; [|done]].
  - split; [congruence|]. intros _. rewrite F1. split; [congruence|]. split; [congruence|]. done.
  - unfold rf_events. rewrite F5, Hi, F1, H2, Hinp, polls_events_cons. exact Hsel.
  - intros st'. exists st'. unfold rf_rest. rewrite F1, F4, F5, F6, F7, Hi, Hr, Hd, Hinp. done.
  - rewrite F1, Hinp. cbn. lia.
  - unfold rf_weight. rewrite F1, F5, F6, F7, Hi, Hr, Hd, Hinp, H2. cbn [length slot_weight].
    assert (slot_weight (rf_slot1 s') <= 1)%nat by (destruct (rf_slot1 s'); simpl; lia).
    assert (slot_weight (rf_slot2 s') <= 1)%nat by (destruct (rf_slot2 s'); simpl; lia). lia.
Qed.

(** The end of the input: the event before the range is still to be put out. *)
Lemma rf_take_end s : rf_inv s -> rf_inp_done s = false -> rf_inp s = [] ->
  forall sl2, sl2 = None -> rf_slot2 s = None ->
  advances s (rf_set_slots (rf_set_done s true (rf_raco_done s) (rf_done s) (rf_complete s)) None sl2) (opt_events (rf_slot1 s)) [] /\
  (rf_weight (rf_set_slots (rf_set_done s true (rf_raco_done s) (rf_done s) (rf_complete s)) None sl2) < rf_weight s)%nat.
Proof.
  intros [Hc Hst] Hi Hinp sl2 -> H2. destruct (Hst Hi) as (Hr & Hd & _ & Hok). split; [split|].
  - by apply rf_inv_end.
  - unfold rf_events, rf_selected, selected. rewrite Hi, H2, Hinp. cbn [rf_set_slots rf_set_done rf_inp_done].
    rewrite !app_nil_r. cbn. destruct (rf_slot1 s) as [t|] eqn:H1; cbn; [|by destruct (rf_one_before s)].
    destruct (ok_slot1 _ _ _ Hok t H1) as (-> & _ & _ & e & ->). done.
  - intros st. exists st. unfold rf_rest. cbn. rewrite Hi, Hr, Hd, Hinp. cbn. by rewrite orb_false_r.
  - cbn. by rewrite Hinp.
  - unfold rf_weight. cbn. rewrite Hi, Hr, Hd. lia.
Qed.

Lemma rf_take_marker s inp :
  rf_inv s -> rf_inp_done s = false -> rf_inp s = Ready (SOk (DataItem RangeComplete)) :: inp ->
  advances s (rf_set_have_range_complete (rf_set_inp s inp)) [] [] /\
  (rf_weight (rf_set_have_range_complete (rf_set_inp s inp)) <= rf_weight s)%nat.
Proof.
  intros [Hc Hst] Hi Hinp. destruct (Hst Hi) as (Hr & Hd & Hw & Hok). rewrite Hinp in Hw, Hok. inversion Hw; subst. split; [split|].
  - split; [done|]. intros _. split; [done|]. split; [done|]. split; [done|]. by destruct Hok.
  - unfold rf_events. cbn. by rewrite Hi, Hinp.
  - intros st. exists st. unfold rf_rest. cbn. rewrite Hd, Hr, Hi, Hinp. cbn. by rewrite orb_true_r.
  - cbn. rewrite Hinp. cbn. lia.
  - unfold rf_weight. cbn. rewrite Hd, Hr, Hi, Hinp. cbn. lia.
Qed.

Lemma rf_take_slot2 s t :
  rf_inv s -> rf_inp_done s = false -> rf_slot2 s = Some t ->
  advances s (rf_set_slots s (rf_slot1 s) None) (mt_events t) [] /\
  (rf_weight (rf_set_slots s (rf_slot1 s) None) < rf_weight s)%nat /\ mt_wf t /\ mt_events t <> [].
Proof.
  intros [Hc Hst] Hi H2. destruct (Hst Hi) as (Hr & Hd & Hw & Hok). split; [split|split; [|by apply Hok]].
  - split; [done|]. intros _. split; [done|]. split; [done|]. split; [done|]. by destruct Hok.
  - unfold rf_events. cbn. by rewrite Hi, H2.
  - intros st. exists st. unfold rf_rest. cbn. by rewrite Hi, Hd, Hr.
  - done.
  - unfold rf_weight. cbn. rewrite Hi, Hd, Hr, H2. cbn. lia.
Qed.

Lemma rf_poll_next_spec fuel s :
  rf_inv s -> (length (rf_inp s) + 3 <= fuel)%nat -> polled s (rf_poll_next fuel s).
Proof.
  revert s. induction fuel as [|fuel IH]; intros s Hinv Hf; [lia|].
  destruct (rf_inp_done s) eqn:Hi; [apply rf_poll_end; [done|done|lia]|].
  pose proof Hinv as [Hc Hst]. destruct (Hst Hi) as (Hr & Hd & _ & Hok). cbn [rf_poll_next]. rewrite Hc, Hd, Hr, Hi.
  destruct (rf_slot2 s) as [t2|] eqn:H2; [by destruct (rf_take_slot2 s t2 Hinv Hi H2) as (? & ? & ?)|].
  destruct (rf_inp s) as [|p inp] eqn:Hinp; cbn [length] in Hf.
  - pose proof (rf_take_end s Hinv Hi Hinp) as Hend. rewrite Hr, Hd, Hc in Hend. cbn [rf_set_done rf_slot1 rf_slot2].
    destruct (rf_slot1 s) as [t1|] eqn:H1.
    + destruct (ok_slot1 _ _ _ Hok t1 H1) as (_ & _ & Hw1 & e & He1).
      destruct (Hend (rf_slot2 s) H2 H2) as [Had Hlt]. split; [exact Had|]. split; [exact Hlt|]. split; [done|by rewrite He1].
    + destruct (Hend None eq_refl H2) as [Had Hlt].
      assert (Hsame : rf_set_slots (rf_set_done s true false false false) None None = rf_set_done s true false false false)
        by (rewrite <- H1 at 1; rewrite <- H2; by destruct s).
      rewrite Hsame in *. eapply polled_after; [exact Had|lia|].
      apply rf_poll_end; [apply Had|done|lia].
  - destruct p as [[[[|k]|l|st0]|e]|].
    + destruct (rf_take_marker s inp Hinv Hi Hinp) as [Had Hle]. eapply polled_after; [exact Had|done|].
      apply IH; [apply Had|cbn; lia].
    + destruct (rf_take_data s k inp Hinv Hi H2 Hinp) as (s' & o & -> & Hi' & Hinp' & Had & Hlt & Ho).
      destruct o as [t|]; [split; [exact Had|]; split; [done|]; by apply Ho|].
      eapply polled_after; [exact Had|lia|]. apply IH; [apply Had|rewrite Hinp'; lia].
    + by destruct (rf_take_plain s _ inp Hinv Hi Hinp) as [? ?].
    + by destruct (rf_take_plain s _ inp Hinv Hi Hinp) as [? ?].
    + by destruct (rf_take_plain s _ inp Hinv Hi Hinp) as [? ?].
    + by destruct (rf_take_plain s _ inp Hinv Hi Hinp) as [? ?].
Qed.

Lemma rf_drain_spec n s polls fuel :
  rf_inv s -> (rf_weight s < n)%nat -> (n <= polls)%nat -> (length (rf_inp s) + 3 <= fuel)%nat ->
  exists outs st, rf_drain polls fuel s = Some outs /\ Forall out_ok outs /\
    concat (map out_events outs) = rf_events s /\ concat (map out_rest outs) = rf_rest st s.
Proof.
  revert s polls. induction n as [|n IH]; intros s polls Hinv Hw Hp Hf; [lia|]. destruct polls as [|polls]; [lia|].
  pose proof (rf_poll_next_spec fuel s Hinv Hf) as Hpoll. cbn [rf_drain].
  destruct (rf_poll_next fuel s) as [s' [| |[[o|]|]]]; unfold polled in Hpoll; cbn [fst snd] in Hpoll; try done.
  - destruct Hpoll as ([Hinv' He Hr Hl] & Hlt & Hok).
    destruct (IH s' polls Hinv') as (outs & st' & -> & Hall & Hev & Hre); [lia|lia|lia|].
    destruct (Hr st') as [st Hst]. exists (o :: outs), st. split; [done|]. split; [by constructor|]. cbn [map concat].
    by rewrite Hev, Hre, He, Hst.
  - destruct Hpoll as [He [st Hst]]. exists [], st. by rewrite He, Hst.
  - destruct Hpoll as ([Hinv' He Hr Hl] & Hlt).
    destruct (IH s' polls Hinv') as (outs & st' & -> & Hall & Hev & Hre); [lia|lia|lia|].
    destruct (Hr st') as [st Hst]. exists outs, st. split; [done|]. split; [done|]. by rewrite Hev, Hre, He, Hst.
Qed.

(** C3. Filtering a range. Whatever containers deliver events that ascend in time,
    among log and stats items, errors and unfinished polls: polled to its end,
    the filter puts out exactly the events of the range, in order and in
    containers that are not empty, before them the last event before the range
    when that is asked for, and passes every other item on. The range marker
    comes once, after all that, when the input had one; then the statistics. One
    before the range is asked for only where an event is in the range or none is
    after it. *)
Theorem rf_filters inp range one_before polls fuel :
  Forall poll_wf inp -> StronglySorted Z.le (polls_events inp).*1 -> Forall (fun e => 0 <= e.1) (polls_events inp) ->
  (one_before = true -> reaches range (polls_events inp)) ->
  (3 * length inp + 3 < polls)%nat -> (length inp + 3 <= fuel)%nat ->
  exists outs st, rf_drain polls fuel (rf_new inp range one_before) = Some outs /\ Forall out_ok outs /\
    concat (map out_events outs) = selected range one_before [] (polls_events inp) /\
    concat (map out_rest outs) = map RfOutItem (polls_passed inp) ++ out_end (existsb poll_marks inp) st.
Proof.
  intros Hw Hs Hpos Hr Hp Hf. destruct (rf_drain_spec polls (rf_new inp range one_before) polls fuel) as (outs & st & ? & ? & ? & ?).
  - split; [done|]. intros _. split; [done|]. split; [done|]. split; [done|]. split; unfold rf_new; cbn; try done. intros ? _. by apply Hr.
  - unfold rf_weight, rf_new. cbn. lia.
  - done.
  - done.
  - by exists outs, st.
Qed.

(** ** The missing case *)

Lemma handle_before s k :
  rf_one_before s = true -> rf_one_before_done s = false -> mt_wf k -> StronglySorted Z.le (mt_events k).*1 ->
  Forall (fun e => rf_tsmax s <= e.1) (mt_events k) ->
  Forall (fun e => e.1 < nr_beg (rf_range s) /\ e.1 < nr_end (rf_range s)) (mt_events k) ->
  exists s', rf_handle_item s k = (s', Ok None) /\ same_frame s s' /\ rf_one_before_done s' = false /\
    rf_slot2 s' = rf_slot2 s /\ rf_tsmax s' = default (rf_tsmax s) (last (mt_events k).*1).
Proof.
  intros Hob Hnd Hw Hs Hts Hf. unfold rf_handle_item. rewrite mt_ts_min_eq, mt_ts_max_eq by done.
  destruct (mt_events k) as [|e0 evs] eqn:He; cbn [fmap list_fmap head]; [by eexists|].
  destruct (last (e0.1 :: evs.*1)) as [mx|] eqn:Hmx; [|by apply last_None in Hmx].
  inversion Hts as [|? ? Hmin _]; subst. rewrite (proj2 (Z.ltb_ge _ _)) by done. set (s1 := rf_set_tsmax s mx).
  destruct (prune_high_spec (rf_stats s1) k (nr_end (rf_range s1)) Hw) as (st & k' & -> & Hw' & Hk'); [by rewrite He|].
  rewrite He, filter_true in Hk' by (eapply Forall_impl; [exact Hf|]; simpl; lia).
  cbn [rf_set_stats s1 rf_set_tsmax rf_one_before rf_one_before_done]. rewrite Hob, Hnd. cbn [andb negb].
  unfold rf_handle_one_before. rewrite mt_find_ge_eq, mt_len_eq, Hk' by done. cbv zeta.
  destruct (partition_point_split (e0 :: evs) (nr_beg (rf_range s)) Hs) as [Ht _].
  rewrite filter_true in Ht by (eapply Forall_impl; [exact Hf|]; simpl; lia). apply (f_equal length) in Ht. rewrite length_take in Ht.
  cbn [rf_set_stats rf_set_tsmax rf_range s1]. rewrite (proj2 (Nat.leb_le _ _)) by lia. cbn [length Nat.eqb].
  destruct (drain_clean_spec k' (S (length evs) - 1) (S (length evs)) (fun _ keep => Ok keep) Hw') as (? & keep & -> & _);
    [rewrite Hk'; simpl; lia|]. by eexists.
Qed.

Lemma handle_after s k :
  rf_one_before s = true -> rf_one_before_done s = false -> mt_wf k -> StronglySorted Z.le (mt_events k).*1 ->
  Forall (fun e => rf_tsmax s <= e.1) (mt_events k) -> mt_events k <> [] ->
  Forall (fun e => nr_end (rf_range s) <= e.1) (mt_events k) ->
  exists s', rf_handle_item s k = (s', Err RfLogic) /\ same_frame s s'.
Proof.
  intros Hob Hnd Hw Hs Hts Hne Hf. unfold rf_handle_item. rewrite mt_ts_min_eq, mt_ts_max_eq by done.
  destruct (mt_events k) as [|e0 evs] eqn:He; cbn [fmap list_fmap head]; [done|].
  destruct (last (e0.1 :: evs.*1)) as [mx|] eqn:Hmx; [|by apply last_None in Hmx].
  inversion Hts as [|? ? Hmin _]; subst. rewrite (proj2 (Z.ltb_ge _ _)) by done. set (s1 := rf_set_tsmax s mx).
  destruct (prune_high_spec (rf_stats s1) k (nr_end (rf_range s1)) Hw) as (st & k' & -> & Hw' & Hk'); [by rewrite He|].
  rewrite He, filter_false in Hk' by (eapply Forall_impl; [exact Hf|]; simpl; lia).
  cbn [rf_set_stats s1 rf_set_tsmax rf_one_before rf_one_before_done]. rewrite Hob, Hnd. cbn [andb negb].
  unfold rf_handle_one_before. rewrite mt_find_ge_eq, mt_len_eq, Hk' by done. cbn. by eexists.
Qed.

Definition data_poll (k : T) : Poll FItemT := Ready (SOk (DataItem (Data k))).

Lemma rf_poll_fails fuel s ks k rest :
  rf_complete s = false -> rf_done s = false -> rf_raco_done s = false -> rf_inp_done s = false -> rf_slot2 s = None ->
  rf_one_before s = true -> rf_one_before_done s = false -> rf_inp s = map data_poll ks ++ data_poll k :: rest ->
  Forall mt_wf (ks ++ [k]) -> StronglySorted Z.le (concat (map mt_events (ks ++ [k]))).*1 ->
  Forall (fun e => rf_tsmax s <= e.1) (concat (map mt_events (ks ++ [k]))) ->
  Forall (fun e => e.1 < nr_beg (rf_range s) /\ e.1 < nr_end (rf_range s)) (concat (map mt_events ks)) ->
  mt_events k <> [] -> Forall (fun e => nr_end (rf_range s) <= e.1) (mt_events k) -> (length ks < fuel)%nat ->
  exists s', rf_poll_next fuel s = (s', RfPoll (Ready (Some (RfOutErr RfLogic)))) /\ rf_complete s' = false /\
    rf_done s' = false /\ rf_raco_done s' = false /\ rf_inp_done s' = true /\ rf_have_range_complete s' = rf_have_range_complete s.
Proof.
  revert fuel s. induction ks as [|k0 ks IH]; intros fuel s Hc Hd Hr Hi H2 Hob Hnd Hinp Hw Hs Hts Hb Hne Hf Hfuel;
    (destruct fuel as [|fuel]; [lia|]); cbn [rf_poll_next]; rewrite Hc, Hd, Hr, Hi, H2, Hinp; cbn [map app data_poll].
  - cbn [app map concat] in *. rewrite app_nil_r in *. inversion Hw; subst.
    destruct (handle_after (rf_set_inp s rest) k) as (s' & -> & F1 & F2 & F3 & F4 & F5 & F6 & F7 & F8); try done.
    eexists. split; [done|]. cbn in *. split; [congruence|]. split; [congruence|]. split; [congruence|]. by split.
  - cbn [app map concat length] in *. inversion Hw as [|? ? Hw0 Hw']; subst. apply Forall_app in Hts as [Hts0 Hts], Hb as [Hb0 Hb].
    destruct (sorted_cut _ _ Hs) as (Hs0 & Hs' & Hle).
    destruct (handle_before (rf_set_inp s (map data_poll ks ++ data_poll k :: rest)) k0) as (s' & -> & (F1 & F2 & F3 & F4 & F5 & F6 & F7 & F8) & Hnd' & H2' & Ht');
      try done. cbn [rf_set_inp rf_inp rf_range rf_one_before rf_have_range_complete rf_inp_done rf_raco_done rf_done rf_complete rf_slot2 rf_tsmax] in *.
    rewrite <- F4. rewrite <- F2 in Hb, Hf. apply IH; try done; try congruence; [|lia].
    rewrite Ht'. apply Forall_forall. intros e He. rewrite Forall_forall in Hts. destruct (last (mt_events k0).*1) as [x|] eqn:Hx; [|by apply Hts].
    apply last_Some_elem_of, list_elem_of_fmap in Hx as (y & -> & Hy). cbn [default from_option]. by apply Hle.
Qed.

(** The event before the range is lost when the next event comes after the
    range: for containers before it and then one after it, the filter ends in an
    error that the code takes for impossible, and puts no event out. *)
Theorem rf_one_before_fails range ks k rest polls fuel :
  Forall mt_wf (ks ++ [k]) -> StronglySorted Z.le (concat (map mt_events (ks ++ [k]))).*1 ->
  Forall (fun e => 0 <= e.1) (concat (map mt_events (ks ++ [k]))) ->
  Forall (fun e => e.1 < nr_beg range /\ e.1 < nr_end range) (concat (map mt_events ks)) ->
  mt_events k <> [] -> Forall (fun e => nr_end range <= e.1) (mt_events k) ->
  (2 < polls)%nat -> (length ks + 2 <= fuel)%nat ->
  exists st, rf_drain polls fuel (rf_new (map data_poll ks ++ data_poll k :: rest) range true) =
    Some [RfOutErr RfLogic; RfOutItem (SOk (Stats (StatsRangeFilter st)))].
Proof.
  intros Hw Hs Hpos Hb Hne Hf Hp Hfuel. destruct polls as [|[|[|polls]]]; [lia|lia|lia|].
  destruct (rf_poll_fails fuel (rf_new (map data_poll ks ++ data_poll k :: rest) range true) ks k rest)
    as (s' & Heq & Hc & Hd & Hr & Hi & Hm); try done; [lia|].
  exists (rf_stats s'). destruct fuel as [|[|fuel]]; [lia|lia|]. cbn [rf_drain]. rewrite Heq.
  cbn [rf_poll_next rf_set_done rf_set_stats rf_have_range_complete rf_complete rf_done rf_raco_done rf_inp_done rf_stats].
  rewrite Hc, Hd, Hr, Hi, Hm. cbn. rewrite ?Hc, ?Hd. done.
Qed.

End RangeFilterProofs.

(** ** On the containers of the code *)
Section RangeFilterDemo.
  #[local] Existing Instance EventValueType_Z.

Definition demo_container (tss vals : list Z) : ContainerEvents Z := ce_from_constituents tss vals.

Definition demo_filter_inp : list (Poll (RfItem (T := ContainerEvents Z) (L := unit) (R := unit) (D := unit) (E := unit))) :=
  [data_poll (demo_container [1; 4] [10; 40]); Pending; Ready (SOk (DataItem RangeComplete));
   data_poll (demo_container [6; 6] [60; 61]); Ready (SOk (Log tt)); data_poll (demo_container [10; 19; 20] [100; 190; 200])].

Lemma rf_filters_witness :
  exists outs, rf_drain 30 30 (rf_new demo_filter_inp (mkNanoRange 10 20) true) = Some outs /\
    map (out_events (V := Z)) outs = [[]; [(6, 61)]; [(10, 100); (19, 190)]; []; []] /\
    concat (map (out_events (V := Z)) outs) = [(6, 61); (10, 100); (19, 190)].
Proof.
  destruct (rf_filters (V := Z) demo_filter_inp (mkNanoRange 10 20) true 30 30) as (outs & st & Hd & _ & He & _).
  - repeat constructor.
  - apply (bool_decide_unpack _); vm_compute; exact I.
  - apply (bool_decide_unpack _); vm_compute; exact I.
  - intros _. left. apply (bool_decide_unpack _); vm_compute; exact I.
  - apply (bool_decide_unpack _); vm_compute; exact I.
  - apply (bool_decide_unpack _); vm_compute; exact I.
  - exists outs. split; [exact Hd|]. split; [|exact He]. vm_compute in Hd. injection Hd as <-. reflexivity.
Defined.

Lemma rf_one_before_fails_witness :
  exists st, rf_drain 3 10 (rf_new (L := unit) (R := unit) (D := unit) (E := unit)
      [data_poll (demo_container [1; 4] [10; 40]); data_poll (demo_container [20] [200])] (mkNanoRange 10 20) true) =
    Some [RfOutErr RfLogic; RfOutItem (SOk (Stats (StatsRangeFilter st)))].
Proof.
  apply (rf_one_before_fails (V := Z) (mkNanoRange 10 20) [demo_container [1; 4] [10; 40]] (demo_container [20] [200]) [] 3 10).
  - repeat constructor.
  - apply (bool_decide_unpack _); vm_compute; exact I.
  - apply (bool_decide_unpack _); vm_compute; exact I.
  - apply (bool_decide_unpack _); vm_compute; exact I.
  - discriminate.
  - apply (bool_decide_unpack _); vm_compute; exact I.
  - apply (bool_decide_unpack _); vm_compute; exact I.
  - apply (bool_decide_unpack _); vm_compute; exact I.
Defined.

End RangeFilterDemo.
