(* ===== verification/Bins.v ===== *)
(** * Bin containers

    [ContainerBins] of [daqbuf-items-2/src/binning/container_bins.rs]: the bins
    that the binners produce, one list per field, with the merge interface and
    the collector. The type of the aggregate is a parameter. *)
From Stdlib Require Import ZArith Lia.
From stdpp Require Import base numbers option strings list sorting.
From S2P Require Import Prelude Events.

#[local] Open Scope Z_scope.
#[local] Open Scope rust_scope.

(** [BinRef]. *)
Record Bin (V B : Type) : Type := mkBin {
  bin_ts1 : Z;
  bin_ts2 : Z;
  bin_n : Z;
  bin_min : V;
  bin_max : V;
  bin_agg : B;
  bin_lst : V;
  bin_fnl : bool
}.
Arguments mkBin {V B}.
Arguments bin_ts1 {V B}.
Arguments bin_ts2 {V B}.
Arguments bin_n {V B}.
Arguments bin_min {V B}.
Arguments bin_max {V B}.
Arguments bin_agg {V B}.
Arguments bin_lst {V B}.
Arguments bin_fnl {V B}.

Inductive bins_error : Type := BinsUnordered.

Section ContainerBins.
  Context {V B : Type}.

Record ContainerBins : Type := mkBins {
  cb_ts1s : list Z;
  cb_ts2s : list Z;
  cb_cnts : list Z;
  cb_mins : list V;
  cb_maxs : list V;
  cb_aggs : list B;
  cb_lsts : list V;
  cb_fnls : list bool
}.

Definition cb_new : ContainerBins := mkBins [] [] [] [] [] [] [] [].

Definition cb_len (c : ContainerBins) : nat := length (cb_ts1s c).

Definition cb_verify (c : ContainerBins) : outcome bins_error unit :=
  if any_descent (cb_ts1s c) then Err BinsUnordered
  else if any_descent (cb_ts2s c) then Err BinsUnordered
  else Ok tt.

Definition cb_ts1_first (c : ContainerBins) : option Z := head (cb_ts1s c).
Definition cb_ts2_last (c : ContainerBins) : option Z := last (cb_ts2s c).

(** The [izip!] of all fields. *)
Definition cb_zip_iter_2 (c : ContainerBins) : list (Bin V B) :=
  zap (zap (zap (zap (zap (zap (zap (map mkBin (cb_ts1s c)) (cb_ts2s c)) (cb_cnts c)) (cb_mins c)) (cb_maxs c))
    (cb_aggs c)) (cb_lsts c)) (cb_fnls c).

Definition cb_edges_iter (c : ContainerBins) : list (Z * Z) := zip (cb_ts1s c) (cb_ts2s c).

Definition cb_len_before {E} (c : ContainerBins) (en : Z) : outcome E nat :=
  let pp := partition_point (fun x => x <=? en) (cb_ts2s c) in
  let? _ := assert (pp <=? cb_len c)%nat in
  Ok pp.

Definition cb_lst_last (c : ContainerBins) : option V :=
  let len := cb_len c in
  if (len =? 0)%nat then None else cb_lsts c !! (len - 1)%nat.

Definition cb_push_back (c : ContainerBins) (ts1 ts2 cnt : Z) (min max : V) (agg : B) (lst : V) (fnl : bool) : ContainerBins :=
  mkBins (cb_ts1s c ++ [ts1]) (cb_ts2s c ++ [ts2]) (cb_cnts c ++ [cnt]) (cb_mins c ++ [min]) (cb_maxs c ++ [max])
    (cb_aggs c ++ [agg]) (cb_lsts c ++ [lst]) (cb_fnls c ++ [fnl]).

Definition cb_byte_estimate (c : ContainerBins) : Z := u32_mul (wrap 32 (Z.of_nat (cb_len c))) 800.

(** [impl MergeableTy for ContainerBins]. *)
Definition cb_ts_min (c : ContainerBins) : option Z := head (cb_ts1s c).
Definition cb_ts_max (c : ContainerBins) : option Z := last (cb_ts1s c).

Definition cb_find_lowest_index_gt (c : ContainerBins) (ts : Z) : option nat :=
  let x := partition_point (fun x => x <=? ts) (cb_ts1s c) in
  if (length (cb_ts1s c) <=? x)%nat then None else Some x.

Definition cb_find_lowest_index_ge (c : ContainerBins) (ts : Z) : option nat :=
  let x := partition_point (fun x => x <? ts) (cb_ts1s c) in
  if (length (cb_ts1s c) <=? x)%nat then None else Some x.

Definition cb_find_highest_index_lt (c : ContainerBins) (ts : Z) : option nat :=
  let x := partition_point (fun x => x <? ts) (cb_ts1s c) in
  if (x =? 0)%nat then None else Some (x - 1)%nat.

Definition cb_find_pp_le (c : ContainerBins) (ts : Z) : nat :=
  partition_point (fun x => x <=? ts) (cb_ts1s c).

Definition cb_drain_into {E} (c dst : ContainerBins) (b e : nat)
    : outcome E (ContainerBins * ContainerBins * DrainIntoDstResult) :=
  let? (d1, r1) := drain_range (cb_ts1s c) b e in
  let? (d2, r2) := drain_range (cb_ts2s c) b e in
  let? (d3, r3) := drain_range (cb_cnts c) b e in
  let? (d4, r4) := drain_range (cb_mins c) b e in
  let? (d5, r5) := drain_range (cb_maxs c) b e in
  let? (d6, r6) := drain_range (cb_aggs c) b e in
  let? (d7, r7) := drain_range (cb_lsts c) b e in
  let? (d8, r8) := drain_range (cb_fnls c) b e in
  Ok (mkBins r1 r2 r3 r4 r5 r6 r7 r8,
      mkBins (cb_ts1s dst ++ d1) (cb_ts2s dst ++ d2) (cb_cnts dst ++ d3) (cb_mins dst ++ d4) (cb_maxs dst ++ d5)
        (cb_aggs dst ++ d6) (cb_lsts dst ++ d7) (cb_fnls dst ++ d8), DstDone).

Definition cb_drain_into_new {E} (c : ContainerBins) (b e : nat)
    : outcome E (ContainerBins * DrainIntoNewResult ContainerBins) :=
  let dst := cb_new in
  let? (c, dst, _) := cb_drain_into c dst b e in
  Ok (c, NewDone dst).

Definition cb_is_monotonic (c : ContainerBins) : bool :=
  let n := length (cb_ts1s c) in
  ce_mono_loop (zip (cb_ts1s c) (drop (Nat.min n 1) (cb_ts1s c))).

Definition cb_is_consistent (c : ContainerBins) : bool :=
  let n := length (cb_ts1s c) in
  cb_is_monotonic c &&
  ((n =? length (cb_ts2s c))%nat && (n =? length (cb_cnts c))%nat && (n =? length (cb_mins c))%nat
   && (n =? length (cb_ts2s c))%nat).

Definition cb_retain_unique_ts (c : ContainerBins) (tsmin : Z) : ContainerBins := c.

#[export] Instance MergeableTy_ContainerBins : MergeableTy ContainerBins := {|
  mt_len := cb_len;
  mt_byte_estimate := fun c => (c, cb_byte_estimate c);
  mt_ts_min := cb_ts_min;
  mt_ts_max := cb_ts_max;
  mt_find_lowest_index_gt := cb_find_lowest_index_gt;
  mt_find_lowest_index_ge := cb_find_lowest_index_ge;
  mt_find_highest_index_lt := cb_find_highest_index_lt;
  mt_find_pp_le := cb_find_pp_le;
  mt_drain_into := @cb_drain_into;
  mt_drain_into_new := @cb_drain_into_new;
  mt_is_monotonic := cb_is_monotonic;
  mt_is_consistent := cb_is_consistent;
  mt_retain_unique_ts := cb_retain_unique_ts
|}.

(** ** [ContainerBinsCollector] *)
Record BinsCollector : Type := mkBinsCollector {
  bc_bins : ContainerBins;
  bc_timed_out : bool;
  bc_range_final : bool
}.

Definition bc_new : BinsCollector := mkBinsCollector cb_new false false.

(** The source is drained; both stay with the caller. *)
Definition bc_ingest {E} (self : BinsCollector) (src : ContainerBins) : outcome E (BinsCollector * ContainerBins) :=
  let? (src, bins, _) := cb_drain_into src (bc_bins self) 0 (cb_len src) in
  Ok (mkBinsCollector bins (bc_timed_out self) (bc_range_final self), src).

Definition bc_result (self : BinsCollector) : BinsCollector * ContainerBins :=
  (mkBinsCollector cb_new (bc_timed_out self) (bc_range_final self), bc_bins self).

(** ** Laws *)

Record cb_wf (c : ContainerBins) : Prop := {
  wf_ts2s : length (cb_ts2s c) = cb_len c;
  wf_cnts : length (cb_cnts c) = cb_len c;
  wf_mins : length (cb_mins c) = cb_len c;
  wf_maxs : length (cb_maxs c) = cb_len c;
  wf_aggs : length (cb_aggs c) = cb_len c;
  wf_lsts : length (cb_lsts c) = cb_len c;
  wf_fnls : length (cb_fnls c) = cb_len c
}.

Lemma cb_new_wf : cb_wf cb_new.
Proof. by split. Qed.

Lemma cb_push_back_wf c ts1 ts2 cnt mi ma ag ls fn : cb_wf c -> cb_wf (cb_push_back c ts1 ts2 cnt mi ma ag ls fn).
Proof. intros []. unfold cb_len in *. split; unfold cb_len; cbn; rewrite !length_app; cbn; lia. Qed.

Lemma cb_zip_app c d :
  cb_wf c ->
  cb_zip_iter_2 (mkBins (cb_ts1s c ++ cb_ts1s d) (cb_ts2s c ++ cb_ts2s d) (cb_cnts c ++ cb_cnts d)
    (cb_mins c ++ cb_mins d) (cb_maxs c ++ cb_maxs d) (cb_aggs c ++ cb_aggs d) (cb_lsts c ++ cb_lsts d)
    (cb_fnls c ++ cb_fnls d)) = cb_zip_iter_2 c ++ cb_zip_iter_2 d.
Proof.
  intros []. unfold cb_len in *. unfold cb_zip_iter_2. cbn [cb_ts1s cb_ts2s cb_cnts cb_mins cb_maxs cb_aggs cb_lsts cb_fnls].
  rewrite map_app. by repeat (rewrite zap_app; [|zap_len]).
Qed.

Lemma cb_push_back_zip c ts1 ts2 cnt mi ma ag ls fn :
  cb_wf c -> cb_zip_iter_2 (cb_push_back c ts1 ts2 cnt mi ma ag ls fn) = cb_zip_iter_2 c ++ [mkBin ts1 ts2 cnt mi ma ag ls fn].
Proof. intros Hw. apply (cb_zip_app c (mkBins [ts1] [ts2] [cnt] [mi] [ma] [ag] [ls] [fn]) Hw). Qed.

Lemma cb_zip_length c : cb_wf c -> length (cb_zip_iter_2 c) = cb_len c.
Proof. intros []. unfold cb_len in *. unfold cb_zip_iter_2. zap_len. Qed.

Lemma cb_zip_ts1 c : cb_wf c -> map bin_ts1 (cb_zip_iter_2 c) = cb_ts1s c.
Proof.
  intros Hw. apply list_eq. intros i. rewrite list_lookup_fmap. destruct Hw. unfold cb_len in *. unfold cb_zip_iter_2, zap.
  rewrite !lookup_zip_with, list_lookup_fmap.
  destruct (cb_ts1s c !! i) as [a|] eqn:Ha; [|done]. apply lookup_lt_Some in Ha.
  repeat match goal with |- context [?l !! i] => destruct (lookup_lt_is_Some_2 l i) as [? ->]; [lia|] end. done.
Qed.

(** The same part of every list. *)
Definition cb_part (f : forall X, list X -> list X) (c : ContainerBins) : ContainerBins :=
  mkBins (f _ (cb_ts1s c)) (f _ (cb_ts2s c)) (f _ (cb_cnts c)) (f _ (cb_mins c)) (f _ (cb_maxs c)) (f _ (cb_aggs c))
    (f _ (cb_lsts c)) (f _ (cb_fnls c)).

Lemma cb_zip_take c n : cb_zip_iter_2 (cb_part (fun _ => take n) c) = take n (cb_zip_iter_2 c).
Proof.
  unfold cb_zip_iter_2, cb_part. cbn [cb_ts1s cb_ts2s cb_cnts cb_mins cb_maxs cb_aggs cb_lsts cb_fnls].
  change (map mkBin (take n (cb_ts1s c))) with (mkBin (V := V) (B := B) <$> take n (cb_ts1s c)). by rewrite fmap_take, !zap_take.
Qed.

Lemma cb_zip_drop c n : cb_zip_iter_2 (cb_part (fun _ => drop n) c) = drop n (cb_zip_iter_2 c).
Proof.
  unfold cb_zip_iter_2, cb_part. cbn [cb_ts1s cb_ts2s cb_cnts cb_mins cb_maxs cb_aggs cb_lsts cb_fnls].
  change (map mkBin (drop n (cb_ts1s c))) with (mkBin (V := V) (B := B) <$> drop n (cb_ts1s c)). by rewrite fmap_drop, !zap_drop.
Qed.

Lemma cb_part_wf (f : forall X, list X -> list X) c :
  (forall X Y (l : list X) (k : list Y), length l = length k -> length (f _ l) = length (f _ k)) -> cb_wf c -> cb_wf (cb_part f c).
Proof. intros Hf []. unfold cb_len in *. split; unfold cb_len; cbn; by apply Hf. Qed.

Lemma cb_take_wf c n : cb_wf c -> cb_wf (cb_part (fun _ => take n) c).
Proof. apply (cb_part_wf (fun _ => take n)). intros X Y l k Hl. rewrite !length_take. lia. Qed.

Lemma cb_drop_wf c n : cb_wf c -> cb_wf (cb_part (fun _ => drop n) c).
Proof. apply (cb_part_wf (fun _ => drop n)). intros X Y l k Hl. rewrite !length_drop. lia. Qed.

Lemma cb_app_wf c d :
  cb_wf c -> cb_wf d ->
  cb_wf (mkBins (cb_ts1s c ++ cb_ts1s d) (cb_ts2s c ++ cb_ts2s d) (cb_cnts c ++ cb_cnts d)
    (cb_mins c ++ cb_mins d) (cb_maxs c ++ cb_maxs d) (cb_aggs c ++ cb_aggs d) (cb_lsts c ++ cb_lsts d)
    (cb_fnls c ++ cb_fnls d)).
Proof. intros [] []. unfold cb_len in *. split; unfold cb_len; cbn; rewrite !length_app; lia. Qed.

Lemma cb_drain_into_range {E} c dst b e :
  cb_wf c -> cb_wf dst -> (b <= e <= cb_len c)%nat ->
  exists c' dst', cb_drain_into (E := E) c dst b e = Ok (c', dst', DstDone) /\ cb_wf c' /\ cb_wf dst' /\
    cb_zip_iter_2 c' = take b (cb_zip_iter_2 c) ++ drop e (cb_zip_iter_2 c) /\
    cb_zip_iter_2 dst' = cb_zip_iter_2 dst ++ take (e - b) (drop b (cb_zip_iter_2 c)).
Proof.
  intros Hw Hd Hn. pose proof Hw as []. unfold cb_drain_into. rewrite !drain_range_ok by (unfold cb_len in *; lia). cbn [and_then].
  pose proof (cb_take_wf c b Hw) as Hw1. pose proof (cb_drop_wf c e Hw) as Hw2.
  pose proof (cb_take_wf _ (e - b) (cb_drop_wf c b Hw)) as Hw3.
  eexists _, _. split; [done|]. split; [exact (cb_app_wf _ _ Hw1 Hw2)|]. split; [exact (cb_app_wf _ _ Hd Hw3)|].
  rewrite <- cb_zip_take, <- !cb_zip_drop, <- cb_zip_take.
  split; [exact (cb_zip_app _ (cb_part (fun _ => drop e) c) Hw1)|].
  exact (cb_zip_app dst (cb_part (fun _ => take (e - b)) (cb_part (fun _ => drop b) c)) Hd).
Qed.

Lemma cb_drain_into_front {E} c dst n :
  cb_wf c -> cb_wf dst -> (n <= cb_len c)%nat ->
  exists c' dst', cb_drain_into (E := E) c dst 0 n = Ok (c', dst', DstDone) /\ cb_wf c' /\ cb_wf dst' /\
    cb_zip_iter_2 c' = drop n (cb_zip_iter_2 c) /\ cb_zip_iter_2 dst' = cb_zip_iter_2 dst ++ take n (cb_zip_iter_2 c).
Proof.
  intros Hw Hd Hn. destruct (cb_drain_into_range (E := E) c dst 0 n Hw Hd) as (c' & d' & ? & ? & ? & ? & Hdst); [lia|].
  exists c', d'. rewrite Nat.sub_0_r, drop_0 in Hdst. done.
Qed.

(** The events of a bin container are its bins at their left edges. *)
Definition cb_events (c : ContainerBins) : list (Z * Bin V B) := map (fun b => (bin_ts1 b, b)) (cb_zip_iter_2 c).

Lemma cb_events_fst c : cb_wf c -> (cb_events c).*1 = cb_ts1s c.
Proof. intros Hw. rewrite <- (cb_zip_ts1 c Hw). unfold cb_events. change (fst <$> ?l) with (map fst l). by rewrite map_map. Qed.

Lemma cb_events_length c : cb_wf c -> length (cb_events c) = cb_len c.
Proof. intros Hw. unfold cb_events. rewrite length_map. by apply cb_zip_length. Qed.

#[export] Instance MergeableLaws_ContainerBins : MergeableLaws ContainerBins (Bin V B).
Proof.
  refine {| mt_events := cb_events; mt_wf := cb_wf |}; simpl.
  - intros t Ht. by rewrite cb_events_length.
  - intros t Ht. by rewrite cb_events_fst.
  - intros t Ht. by rewrite cb_events_fst.
  - intros t Ht. rewrite cb_events_fst by done. apply (ce_is_monotonic_iff (mkEvents (V := Z) (cb_ts1s t) [] None)).
  - intros t ts Ht. unfold cb_find_lowest_index_gt. by rewrite cb_events_fst, cb_events_length by done.
  - intros t ts Ht. unfold cb_find_lowest_index_ge. by rewrite cb_events_fst, cb_events_length by done.
  - intros t ts Ht _. unfold cb_find_highest_index_lt. by rewrite cb_events_fst by done.
  - done.
  - intros E t dst n Ht Hd Hn. rewrite cb_events_length in Hn by done.
    destruct (cb_drain_into_front (E := E) t dst n Ht Hd Hn) as (c' & d' & ? & ? & ? & Hc & Hdd).
    exists c', d'. unfold cb_events. rewrite Hc, Hdd, map_app.
    change (map ?f (drop ?k ?l)) with (f <$> drop k l). change (map ?f (take ?k ?l)) with (f <$> take k l).
    by rewrite fmap_drop, fmap_take.
  - intros E t b e Ht Hn. rewrite cb_events_length in Hn by done. unfold cb_drain_into_new.
    destruct (cb_drain_into_range (E := E) t cb_new b e Ht cb_new_wf Hn) as (c' & d' & -> & ? & ? & Hc & Hdd).
    cbn [and_then]. exists c', d'. unfold cb_events. rewrite Hc, Hdd. change (cb_zip_iter_2 cb_new) with (@nil (Bin V B)).
    cbn [app]. rewrite map_app. change (map ?f (take ?k ?l)) with (f <$> take k l). change (map ?f (drop ?k ?l)) with (f <$> drop k l).
    by rewrite !fmap_take, !fmap_drop.
Defined.

End ContainerBins.

Arguments ContainerBins V B : clear implicits.

Section BinsTheorems.
  Context {V B : Type}.

(** A caller that hands containers to the collector. *)
Fixpoint bc_ingest_all {E} (self : BinsCollector) (cs : list (ContainerBins V B))
    : outcome E (BinsCollector * list (ContainerBins V B)) :=
  match cs with
  | [] => Ok (self, [])
  | c :: cs =>
      match bc_ingest self c with
      | Ok (self, c) =>
          match bc_ingest_all self cs with
          | Ok (self, cs) => Ok (self, c :: cs)
          | Err e => Err e
          | Panic => Panic
          end
      | Err e => Err e
      | Panic => Panic
      end
  end.

Lemma bc_ingest_spec {E} (self : BinsCollector) (c : ContainerBins V B) :
  cb_wf (bc_bins self) -> cb_wf c ->
  exists self' c', bc_ingest (E := E) self c = Ok (self', c') /\ cb_wf (bc_bins self') /\ cb_zip_iter_2 c' = [] /\
    cb_zip_iter_2 (bc_bins self') = cb_zip_iter_2 (bc_bins self) ++ cb_zip_iter_2 c.
Proof.
  intros Hs Hc. unfold bc_ingest.
  destruct (cb_drain_into_front (E := E) c (bc_bins self) (cb_len c) Hc Hs) as (c' & d' & -> & ? & ? & Hc' & Hd'); [done|].
  cbn [and_then]. eexists _, c'. split; [done|]. split; [done|].
  rewrite <- (cb_zip_length c Hc) in Hc', Hd'. rewrite drop_all in Hc'. rewrite firstn_all in Hd'. done.
Qed.

(** The collector keeps every bin: from containers whose fields have equal
    lengths it takes all bins in order, leaves the containers empty, and gives
    the concatenation once; then it is empty. *)
Theorem bc_collects (cs : list (ContainerBins V B)) :
  Forall cb_wf cs ->
  exists self cs', bc_ingest_all (E := bins_error) bc_new cs = Ok (self, cs') /\
    Forall (fun c => cb_zip_iter_2 c = []) cs' /\ cb_wf (bc_result self).2 /\
    cb_zip_iter_2 (bc_result self).2 = concat (map cb_zip_iter_2 cs) /\
    cb_zip_iter_2 (bc_bins (bc_result self).1) = [].
Proof.
  intros Hw.
  assert (Hgen : forall self, cb_wf (bc_bins self) ->
    exists self' cs', bc_ingest_all (E := bins_error) self cs = Ok (self', cs') /\
      Forall (fun c => cb_zip_iter_2 c = []) cs' /\ cb_wf (bc_bins self') /\
      cb_zip_iter_2 (bc_bins self') = cb_zip_iter_2 (bc_bins self) ++ concat (map cb_zip_iter_2 cs)).
  { induction Hw as [|c cs Hc _ IH]; intros self Hs.
    - exists self, []. split; [done|]. split; [constructor|]. split; [done|]. by rewrite app_nil_r.
    - destruct (bc_ingest_spec (E := bins_error) self c Hs Hc) as (self1 & c' & Hi & Hs1 & Hc' & Hz1).
      destruct (IH self1 Hs1) as (self2 & cs' & Ha & Hcs' & Hs2 & Hz2).
      exists self2, (c' :: cs'). cbn [bc_ingest_all]. rewrite Hi, Ha. split; [done|]. split; [by constructor|]. split; [done|].
      rewrite Hz2, Hz1. cbn [map concat]. by rewrite app_assoc. }
  destruct (Hgen bc_new cb_new_wf) as (self & cs' & Ha & Hcs' & Hs & Hz). exists self, cs'. done.
Qed.

End BinsTheorems.

Definition demo_bins : ContainerBins Z Z := cb_push_back (cb_push_back cb_new 0 10 1 5 5 5 5 true) 10 20 0 5 5 5 5 true.

Lemma bc_collects_witness :
  exists self cs', bc_ingest_all (E := bins_error) bc_new [demo_bins; cb_new; demo_bins] = Ok (self, cs') /\
    length (cb_zip_iter_2 (bc_result self).2) = 4%nat.
Proof.
  destruct (bc_collects [demo_bins; cb_new; demo_bins]) as (self & cs' & H1 & _ & _ & H2 & _).
  - by repeat constructor.
  - exists self, cs'. split; [exact H1|]. rewrite H2. reflexivity.
Defined.
