(* ===== verification/Floats.v ===== *)
(** * Floating point aggregation

    [f32] and [f64] as the IEEE 754 binary formats of the Standard Library's
    specification floats; [DtNano::fraction_f32_of] of
    [daqbuf-netpod/src/netpod.rs]; the time-weighted aggregators of
    [daqbuf-items-2/src/binning/aggregator.rs] over scalar values. *)
From Stdlib Require Import ZArith Lia String Floats.SpecFloat.
From stdpp Require Import base numbers option strings list.
From S2P Require Import Prelude TimeTypes Events.

#[local] Open Scope Z_scope.

Abbreviation f64 := spec_float (only parsing).
Abbreviation f32 := spec_float (only parsing).

(** [as f64], [as f32] of an unsigned integer, and between the formats. *)
Definition f64_of_u64 (n : Z) : f64 := binary_normalize 53 1024 n 0 false.
Definition f32_of_u64 (n : Z) : f32 := binary_normalize 24 128 n 0 false.
Definition f32_of_f64 (x : f64) : f32 :=
  match x with S754_finite s m e => binary_round 24 128 s m e | _ => x end.
Definition f64_of_f32 (x : f32) : f64 :=
  match x with S754_finite s m e => binary_round 53 1024 s m e | _ => x end.

Definition f64_add (a b : f64) : f64 := SFadd 53 1024 a b.
Definition f64_mul (a b : f64) : f64 := SFmul 53 1024 a b.
Definition f64_div (a b : f64) : f64 := SFdiv 53 1024 a b.
Definition f32_add (a b : f32) : f32 := SFadd 24 128 a b.
Definition f32_div (a b : f32) : f32 := SFdiv 24 128 a b.

Definition DtNano_fraction_f32_of (self rhs : DtNano) : f32 := f32_div (f32_of_u64 self) (f32_of_u64 rhs).

(** ** [AggregatorTimeWeight] *)

(** [A] is the aggregator of the values [V] with the average [B]. *)
Class AggregatorTimeWeight (V A B : Type) : Type := {
  agg_new : A;
  agg_ingest : A -> DtNano -> DtNano -> V -> A;
  agg_reset_for_new_bin : A -> A;
  agg_result_and_reset_for_new_bin : A -> f32 -> A * B
}.

(** A reset aggregator is a new one. *)
Class AggregatorTimeWeightLaws (V A B : Type) `{AggregatorTimeWeight V A B} : Prop := {
  agg_reset_new a : agg_reset_for_new_bin a = agg_new;
  agg_result_reset_new a f : (agg_result_and_reset_for_new_bin a f).1 = agg_new
}.

(** [AggregatorNumeric], over a value read as an [f64]. *)
Record AggregatorNumeric : Type := mkAggNumeric { an_sum : f64 }.

Definition an_new : AggregatorNumeric := mkAggNumeric (S754_zero false).

Definition an_ingest (self : AggregatorNumeric) (dt bl : DtNano) (val : f64) : AggregatorNumeric :=
  let f := f64_div (f64_of_u64 dt) (f64_of_u64 bl) in
  mkAggNumeric (f64_add (an_sum self) (f64_mul f val)).

Definition an_reset_for_new_bin (self : AggregatorNumeric) : AggregatorNumeric := mkAggNumeric (S754_zero false).

(** The averages are [f64], for [f32] values [f32]. *)
Definition an_result_f64 (self : AggregatorNumeric) (filled_width_fraction : f32) : AggregatorNumeric * f64 :=
  (an_reset_for_new_bin self, f64_div (an_sum self) (f64_of_f32 filled_width_fraction)).

Definition an_result_f32 (self : AggregatorNumeric) (filled_width_fraction : f32) : AggregatorNumeric * f32 :=
  (an_reset_for_new_bin self, f32_div (f32_of_f64 (an_sum self)) filled_width_fraction).

(** The value types: a format is a type of its own. *)
Record F64 : Type := mkF64 { f64_val : f64 }.
Record F32 : Type := mkF32 { f32_val : f32 }.

#[export] Instance Agg_f64 : AggregatorTimeWeight F64 AggregatorNumeric F64 := {|
  agg_new := an_new;
  agg_ingest := fun self dt bl val => an_ingest self dt bl (f64_val val);
  agg_reset_for_new_bin := an_reset_for_new_bin;
  agg_result_and_reset_for_new_bin := fun self f => let '(self, r) := an_result_f64 self f in (self, mkF64 r)
|}.

#[export] Instance Agg_f32 : AggregatorTimeWeight F32 AggregatorNumeric F32 := {|
  agg_new := an_new;
  agg_ingest := fun self dt bl val => an_ingest self dt bl (f64_of_f32 (f32_val val));
  agg_reset_for_new_bin := an_reset_for_new_bin;
  agg_result_and_reset_for_new_bin := fun self f => let '(self, r) := an_result_f32 self f in (self, mkF32 r)
|}.

(** For [u64]. *)
#[export] Instance Agg_u64 : AggregatorTimeWeight Z AggregatorNumeric F64 := {|
  agg_new := an_new;
  agg_ingest := fun self dt bl val => an_ingest self dt bl (f64_of_u64 val);
  agg_reset_for_new_bin := an_reset_for_new_bin;
  agg_result_and_reset_for_new_bin := fun self f => let '(self, r) := an_result_f64 self f in (self, mkF64 r)
|}.

(** For [bool], read as 0 or 1, and for [String], its length. *)
#[export] Instance Agg_bool : AggregatorTimeWeight bool AggregatorNumeric F64 := {|
  agg_new := an_new;
  agg_ingest := fun self dt bl val => an_ingest self dt bl (f64_of_u64 (if val : bool then 1 else 0));
  agg_reset_for_new_bin := an_reset_for_new_bin;
  agg_result_and_reset_for_new_bin := fun self f => let '(self, r) := an_result_f64 self f in (self, mkF64 r)
|}.

#[export] Instance Agg_string : AggregatorTimeWeight string AggregatorNumeric F64 := {|
  agg_new := an_new;
  agg_ingest := fun self dt bl val => an_ingest self dt bl (f64_of_u64 (Z.of_nat (String.length val)));
  agg_reset_for_new_bin := an_reset_for_new_bin;
  agg_result_and_reset_for_new_bin := fun self f => let '(self, r) := an_result_f64 self f in (self, mkF64 r)
|}.

(** [AggregatorVecNumeric] over the elements read as [f64]. *)
Record AggregatorVecNumeric : Type := mkAggVec { av_sum : f64 }.

Definition av_new : AggregatorVecNumeric := mkAggVec (S754_zero false).

Definition av_ingest (self : AggregatorVecNumeric) (dt bl : DtNano) (val : list f64) : AggregatorVecNumeric :=
  let f := f64_div (f64_of_u64 dt) (f64_of_u64 bl) in
  foldl (fun self e => mkAggVec (f64_add (av_sum self) (f64_mul f e))) self val.

Definition av_reset_for_new_bin (self : AggregatorVecNumeric) : AggregatorVecNumeric := mkAggVec (S754_zero false).

Definition av_result_f32 (self : AggregatorVecNumeric) (filled_width_fraction : f32) : AggregatorVecNumeric * f32 :=
  (av_reset_for_new_bin self, f32_div (f32_of_f64 (av_sum self)) filled_width_fraction).

#[export] Instance Agg_vec_f64 : AggregatorTimeWeight (list F64) AggregatorVecNumeric F32 := {|
  agg_new := av_new;
  agg_ingest := fun self dt bl val => av_ingest self dt bl (map f64_val val);
  agg_reset_for_new_bin := av_reset_for_new_bin;
  agg_result_and_reset_for_new_bin := fun self f => let '(self, r) := av_result_f32 self f in (self, mkF32 r)
|}.

#[export] Instance Agg_vec_f64_laws : AggregatorTimeWeightLaws (list F64) AggregatorVecNumeric F32.
Proof. by split. Qed.
#[export] Instance Agg_f64_laws : AggregatorTimeWeightLaws F64 AggregatorNumeric F64.
Proof. by split. Qed.
#[export] Instance Agg_f32_laws : AggregatorTimeWeightLaws F32 AggregatorNumeric F32.
Proof. by split. Qed.
#[export] Instance Agg_u64_laws : AggregatorTimeWeightLaws Z AggregatorNumeric F64.
Proof. by split. Qed.
#[export] Instance Agg_bool_laws : AggregatorTimeWeightLaws bool AggregatorNumeric F64.
Proof. by split. Qed.
#[export] Instance Agg_string_laws : AggregatorTimeWeightLaws string AggregatorNumeric F64.
Proof. by split. Qed.

(** [EventValueType] of the floats: [partial_cmp], with none for a NaN. *)
#[export] Instance EventValueType_F64 : EventValueType F64 :=
  {| ev_byte_estimate := fun _ => 8; ev_cmp_a := fun a b => SFcompare (f64_val a) (f64_val b) |}.
#[export] Instance EventValueType_F32 : EventValueType F32 :=
  {| ev_byte_estimate := fun _ => 4; ev_cmp_a := fun a b => SFcompare (f32_val a) (f32_val b) |}.
