(* ===== verification/Rebin.v ===== *)
(** * Binning bins into longer bins

    [BinnedBinsTimeweight] of
    [daqbuf-items-2/src/binning/timeweight/timeweight_bins.rs] with the
    aggregators of averages ([binning/container/bins.rs]), the wrapper
    [BinnedBinsTimeweightLazy] and the stream [BinnedBinsTimeweightStream] around
    it. All containers of a stream are of one type; the wrappers that hide it are
    left out, and so is [fraction_filled], which is always 1. *)
From Stdlib Require Import ZArith Lia Floats.SpecFloat.
From stdpp Require Import base numbers option strings list sorting.
From S2P Require Import Prelude Items TimeTypes Ranges Events Bins Floats.

#[local] Open Scope Z_scope.
#[local] Open Scope rust_scope.

(** ** [AggBinValTw] *)

(** [A] is the aggregator of the averages [B]. *)
Class AggBinValTw (A B : Type) : Type := {
  bv_new : DtNano -> A;
  bv_ingest : A -> DtNano -> B -> A;
  bv_result : A -> B;
  bv_reset_for_new_bin : A -> A
}.

(** The aggregators of one bin length; a reset one is a new one. *)
Class AggBinValTwLaws (A B : Type) `{AggBinValTw A B} : Type := {
  bv_of_len : DtNano -> A -> Prop;
  bv_new_len l : bv_of_len l (bv_new l);
  bv_ingest_len l a dt v : bv_of_len l a -> bv_of_len l (bv_ingest a dt v);
  bv_reset_new l a : bv_of_len l a -> bv_reset_for_new_bin a = bv_new l
}.

Record AggBinValTwF32 : Type := mkAggF32 { af32_binlen : DtNano; af32_filled : DtNano; af32_sum : f32 }.
Record AggBinValTwF64 : Type := mkAggF64 { af64_binlen : DtNano; af64_filled : DtNano; af64_sum : f64 }.

Definition f32_add (a b : f32) : f32 := SFadd 24 128 a b.
Definition f32_mul (a b : f32) : f32 := SFmul 24 128 a b.

Definition af32_new (binlen : DtNano) : AggBinValTwF32 := mkAggF32 binlen (DtNano_from_ns 0) (S754_zero false).
Definition af32_ingest (self : AggBinValTwF32) (dt : DtNano) (val : f32) : AggBinValTwF32 :=
  let f := f32_div (f32_of_u64 (DtNano_ns dt)) (f32_of_u64 (DtNano_ns (af32_binlen self))) in
  mkAggF32 (af32_binlen self) (DtNano_add (af32_filled self) dt) (f32_add (af32_sum self) (f32_mul f val)).
Definition af32_result (self : AggBinValTwF32) : f32 :=
  if DtNano_ns (af32_filled self) =? 0 then S754_nan
  else
    let f := f32_div (f32_of_u64 (DtNano_ms_u64 (af32_binlen self))) (f32_of_u64 (DtNano_ms_u64 (af32_filled self))) in
    f32_mul (af32_sum self) f.
Definition af32_reset_for_new_bin (self : AggBinValTwF32) : AggBinValTwF32 :=
  mkAggF32 (af32_binlen self) (DtNano_from_ns 0) (S754_zero false).

Definition af64_new (binlen : DtNano) : AggBinValTwF64 := mkAggF64 binlen (DtNano_from_ns 0) (S754_zero false).
Definition af64_ingest (self : AggBinValTwF64) (dt : DtNano) (val : f64) : AggBinValTwF64 :=
  let f := f64_div (f64_of_u64 (DtNano_ns dt)) (f64_of_u64 (DtNano_ns (af64_binlen self))) in
  mkAggF64 (af64_binlen self) (DtNano_add (af64_filled self) dt) (f64_add (af64_sum self) (f64_mul f val)).
Definition af64_result (self : AggBinValTwF64) : f64 :=
  if DtNano_ns (af64_filled self) =? 0 then S754_nan
  else
    let f := f64_div (f64_of_u64 (DtNano_ms_u64 (af64_binlen self))) (f64_of_u64 (DtNano_ms_u64 (af64_filled self))) in
    f64_mul (af64_sum self) f.
Definition af64_reset_for_new_bin (self : AggBinValTwF64) : AggBinValTwF64 :=
  mkAggF64 (af64_binlen self) (DtNano_from_ns 0) (S754_zero false).

#[export] Instance AggBinValTw_f32 : AggBinValTw AggBinValTwF32 F32 := {|
  bv_new := af32_new;
  bv_ingest := fun self dt val => af32_ingest self dt (f32_val val);
  bv_result := fun self => mkF32 (af32_result self);
  bv_reset_for_new_bin := af32_reset_for_new_bin
|}.

#[export] Instance AggBinValTw_f64 : AggBinValTw AggBinValTwF64 F64 := {|
  bv_new := af64_new;
  bv_ingest := fun self dt val => af64_ingest self dt (f64_val val);
  bv_result := fun self => mkF64 (af64_result self);
  bv_reset_for_new_bin := af64_reset_for_new_bin
|}.

#[export] Instance AggBinValTw_f32_laws : AggBinValTwLaws AggBinValTwF32 F32.
Proof. refine {| bv_of_len l a := af32_binlen a = l |}; try done. by intros l a <-. Defined.

#[export] Instance AggBinValTw_f64_laws : AggBinValTwLaws AggBinValTwF64 F64.
Proof. refine {| bv_of_len l a := af64_binlen a = l |}; try done. by intros l a <-. Defined.

(** ** [BinnedBinsTimeweight] *)

Inductive bins_tw_error : Type := InputBinlenOverflow.

Section Rebin.
  Context {V A B : Type} `{EventValueType V} `{AggBinValTw A B}.

Record BinnedBinsTimeweight : Type := mkBb {
  bb_range : BinnedRange TsNano;
  bb_active_beg : TsNano;
  bb_active_end : TsNano;
  bb_cnt : Z;
  bb_min : option V;
  bb_max : option V;
  bb_lst : option V;
  bb_agg : A;
  bb_non_fnl : bool;
  bb_out : ContainerBins V B;
  bb_produce_cnt_zero : bool
}.

Definition bb_bin_len (s : BinnedBinsTimeweight) : DtNano := TsNano_to_dt_nano (bin_len (bb_range s)).

Definition bb_new (range : BinnedRange TsNano) : BinnedBinsTimeweight :=
  let binlen := TsNano_to_dt_nano (bin_len range) in
  let active_beg := br_nano_beg range in
  mkBb range active_beg (TsNano_add_dt_nano active_beg binlen) 0 None None None (bv_new binlen) false cb_new false.

Definition bb_cnt_zero_enable (s : BinnedBinsTimeweight) : BinnedBinsTimeweight :=
  mkBb (bb_range s) (bb_active_beg s) (bb_active_end s) (bb_cnt s) (bb_min s) (bb_max s) (bb_lst s) (bb_agg s) (bb_non_fnl s)
    (bb_out s) true.

Definition bb_reset_for_new_bin (s : BinnedBinsTimeweight) : BinnedBinsTimeweight :=
  mkBb (bb_range s) (bb_active_beg s) (bb_active_end s) 0 (bb_min s) (bb_max s) (bb_lst s) (bv_reset_for_new_bin (bb_agg s))
    (bb_non_fnl s) (bb_out s) (bb_produce_cnt_zero s).

Definition bb_set_out (s : BinnedBinsTimeweight) (out : ContainerBins V B) : BinnedBinsTimeweight :=
  mkBb (bb_range s) (bb_active_beg s) (bb_active_end s) (bb_cnt s) (bb_min s) (bb_max s) (bb_lst s) (bb_agg s) (bb_non_fnl s)
    out (bb_produce_cnt_zero s).

Definition bb_maybe_emit_active {E} (s : BinnedBinsTimeweight) : outcome E BinnedBinsTimeweight :=
  if negb (bb_cnt s =? 0) || bb_produce_cnt_zero s && bool_decide (is_Some (bb_min s)) then
    let? min := unwrap (bb_min s) in
    let? max := unwrap (bb_max s) in
    let agg := bv_result (bb_agg s) in
    let? lst := unwrap (bb_lst s) in
    let fnl := negb (bb_non_fnl s) in
    Ok (bb_reset_for_new_bin (bb_set_out s
          (cb_push_back (bb_out s) (bb_active_beg s) (bb_active_end s) (bb_cnt s) min max agg lst fnl)))
  else Ok (bb_reset_for_new_bin s).

Definition bb_active_forward {E} (s : BinnedBinsTimeweight) (ts1 : TsNano) : outcome E BinnedBinsTimeweight :=
  let bl := bb_bin_len s in
  let? q := u_div (TsNano_ns ts1) (DtNano_ns bl) in
  let tsnext := TsNano_from_ns (u64_mul q (DtNano_ns bl)) in
  Ok (mkBb (bb_range s) tsnext (TsNano_add_dt_nano tsnext bl) (bb_cnt s) (bb_lst s) (bb_lst s) (bb_lst s) (bb_agg s) false
        (bb_out s) (bb_produce_cnt_zero s)).

(** [bound]: [d] is the comparison for which [b] replaces the bound. *)
Definition bb_bound (a : option V) (b : V) (d : comparison) : option V :=
  match a with
  | Some x =>
      match ev_cmp_a b x with
      | Some c => if bool_decide (c = d) then Some b else a
      | None => a
      end
  | None => Some b
  end.

(** One bin of the loop. *)
Definition bb_ingest_bin (s : BinnedBinsTimeweight) (b : Bin V B) : outcome bins_tw_error BinnedBinsTimeweight :=
  let binlen := bb_bin_len s in
  if bin_ts1 b <? bb_active_beg s then
    Ok (mkBb (bb_range s) (bb_active_beg s) (bb_active_end s) (bb_cnt s) (bb_min s) (bb_max s) (Some (bin_lst b)) (bb_agg s)
          (bb_non_fnl s) (bb_out s) (bb_produce_cnt_zero s))
  else
    let? s := (if bb_active_end s <=? bin_ts1 b then let? s := bb_maybe_emit_active s in bb_active_forward s (bin_ts1 b) else Ok s) in
    let? s := (if bb_active_end s <? bin_ts2 b then let? s := bb_maybe_emit_active s in bb_active_forward s (bin_ts2 b) else Ok s) in
    let '(mn, mx) := if bin_ts1 b =? bb_active_beg s then (Some (bin_min b), Some (bin_max b)) else (bb_min s, bb_max s) in
    let cnt := u64_add (bb_cnt s) (bin_n b) in
    let mn := bb_bound mn (bin_min b) Lt in
    let mx := bb_bound mx (bin_max b) Gt in
    let dt := TsNano_delta (bin_ts2 b) (bin_ts1 b) in
    if binlen <? dt then Err InputBinlenOverflow
    else
      let s := mkBb (bb_range s) (bb_active_beg s) (bb_active_end s) cnt mn mx (Some (bin_lst b))
                 (bv_ingest (bb_agg s) dt (bin_agg b)) (bb_non_fnl s || negb (bin_fnl b)) (bb_out s) (bb_produce_cnt_zero s) in
      if bb_active_end s <=? bin_ts2 b then let? s := bb_maybe_emit_active s in bb_active_forward s (bin_ts2 b) else Ok s.

Fixpoint bb_ingest_loop (s : BinnedBinsTimeweight) (bins : list (Bin V B)) : outcome bins_tw_error BinnedBinsTimeweight :=
  match bins with
  | [] => Ok s
  | b :: bins => let? s := bb_ingest_bin s b in bb_ingest_loop s bins
  end.

Definition bb_ingest_bins (s : BinnedBinsTimeweight) (bins : ContainerBins V B) : outcome bins_tw_error BinnedBinsTimeweight :=
  bb_ingest_loop s (cb_zip_iter_2 bins).

Definition bb_input_done_range_final {E} (s : BinnedBinsTimeweight) : outcome E BinnedBinsTimeweight :=
  let? s := bb_maybe_emit_active s in
  bb_active_forward s (TsNano_add_dt_nano (bb_active_beg s) (bb_bin_len s)).

Definition bb_input_done_range_open {E} (s : BinnedBinsTimeweight) : outcome E BinnedBinsTimeweight :=
  let s := mkBb (bb_range s) (bb_active_beg s) (bb_active_end s) (bb_cnt s) (bb_min s) (bb_max s) (bb_lst s) (bb_agg s) true
             (bb_out s) (bb_produce_cnt_zero s) in
  let? s := bb_maybe_emit_active s in
  bb_active_forward s (TsNano_add_dt_nano (bb_active_beg s) (bb_bin_len s)).

Definition bb_output (s : BinnedBinsTimeweight) : BinnedBinsTimeweight * option (ContainerBins V B) :=
  if (cb_len (bb_out s) =? 0)%nat then (s, None) else (bb_set_out s cb_new, Some (bb_out s)).

(** ** [BinnedBinsTimeweightLazy] *)

Record BinsLazy : Type := mkBinsLazy {
  bl_range : BinnedRange TsNano;
  bl_binned : option BinnedBinsTimeweight;
  bl_produce_cnt_zero : bool
}.

Definition bl_new (range : BinnedRange TsNano) : BinsLazy := mkBinsLazy range None false.
Definition bl_set_cnt_zero (s : BinsLazy) : BinsLazy := mkBinsLazy (bl_range s) (bl_binned s) true.

(** The binner is made when the first container comes. *)
Definition bl_binner (s : BinsLazy) : BinnedBinsTimeweight :=
  match bl_binned s with
  | Some b => b
  | None => let b := bb_new (bl_range s) in if bl_produce_cnt_zero s then bb_cnt_zero_enable b else b
  end.

Definition bl_ingest (s : BinsLazy) (bins : ContainerBins V B) : outcome bins_tw_error BinsLazy :=
  let? b := bb_ingest_bins (bl_binner s) bins in
  Ok (mkBinsLazy (bl_range s) (Some b) (bl_produce_cnt_zero s)).

Definition bl_input_done_range_final (s : BinsLazy) : outcome bins_tw_error BinsLazy :=
  match bl_binned s with
  | Some b => let? b := bb_input_done_range_final b in Ok (mkBinsLazy (bl_range s) (Some b) (bl_produce_cnt_zero s))
  | None => Ok s
  end.

Definition bl_input_done_range_open (s : BinsLazy) : outcome bins_tw_error BinsLazy :=
  match bl_binned s with
  | Some b => let? b := bb_input_done_range_open b in Ok (mkBinsLazy (bl_range s) (Some b) (bl_produce_cnt_zero s))
  | None => Ok s
  end.

Definition bl_output (s : BinsLazy) : BinsLazy * option (ContainerBins V B) :=
  match bl_binned s with
  | Some b => let '(b, o) := bb_output b in (mkBinsLazy (bl_range s) (Some b) (bl_produce_cnt_zero s), o)
  | None => (s, None)
  end.

(** ** [BinnedBinsTimeweightStream] *)

Section BinsStream.
  Context {L St E : Type}.

Definition BsItem : Type := Sitemty L St E (ContainerBins V B).

(** Items of the upstream, bins, errors of the binner, and the log message at
    the end without bins. *)
Inductive BsOut : Type :=
  | BsOutItem (i : BsItem)
  | BsOutErr (e : bins_tw_error)
  | BsOutNoBinsLog.

Inductive BsState : Type := BsReading | BsDone.

Record BinsStream : Type := mkBinsStream {
  bs_state : BsState;
  bs_inp : list (Poll BsItem);
  bs_range_complete : bool;
  bs_binned : BinsLazy
}.

Definition bs_new (range : BinnedRange TsNano) (inp : list (Poll BsItem)) : BinsStream := mkBinsStream BsReading inp false (bl_new range).

(** What [handle_main] gives: [ControlFlow], or a panic. *)
Inductive bs_flow : Type :=
  | BsContinue
  | BsBreak (p : Poll (option BsOut))
  | BsPanic.

Definition bs_set_state (s : BinsStream) (st : BsState) : BinsStream := mkBinsStream st (bs_inp s) (bs_range_complete s) (bs_binned s).
Definition bs_set_binned (s : BinsStream) (b : BinsLazy) : BinsStream := mkBinsStream (bs_state s) (bs_inp s) (bs_range_complete s) b.

(** On an error of the binner the stream ends, its state is of no use then. *)
Definition bs_handle_sitemty (s : BinsStream) (item : BsItem) : BinsStream * bs_flow :=
  match item with
  | SOk (DataItem (Data x)) =>
      match bl_ingest (bs_binned s) x with
      | Ok b =>
          let '(b, o) := bl_output b in
          let s := bs_set_binned s b in
          match o with
          | Some x => if (cb_len x =? 0)%nat then (s, BsContinue) else (s, BsBreak (Ready (Some (BsOutItem (SOk (DataItem (Data x)))))))
          | None => (s, BsContinue)
          end
      | Err e => (s, BsBreak (Ready (Some (BsOutErr e))))
      | Panic => (s, BsPanic)
      end
  | SOk (DataItem RangeComplete) => (mkBinsStream (bs_state s) (bs_inp s) true (bs_binned s), BsContinue)
  | SOk (Log x) => (s, BsBreak (Ready (Some (BsOutItem (SOk (Log x))))))
  | SOk (Stats x) => (s, BsBreak (Ready (Some (BsOutItem (SOk (Stats x))))))
  | SErr e => (bs_set_state s BsDone, BsBreak (Ready (Some (BsOutItem (SErr e)))))
  end.

Definition bs_handle_eos (s : BinsStream) : BinsStream * bs_flow :=
  let s := bs_set_state s BsDone in
  match (if bs_range_complete s then bl_input_done_range_final (bs_binned s) else bl_input_done_range_open (bs_binned s)) with
  | Ok b =>
      let '(b, o) := bl_output b in
      let s := bs_set_binned s b in
      match o with
      | Some x => (s, BsBreak (Ready (Some (BsOutItem (SOk (DataItem (Data x)))))))
      | None => (s, BsBreak (Ready (Some BsOutNoBinsLog)))
      end
  | Err e => (s, BsBreak (Ready (Some (BsOutErr e))))
  | Panic => (s, BsPanic)
  end.

Definition bs_handle_main (s : BinsStream) : BinsStream * bs_flow :=
  let '(s, ret) :=
    match bs_state s with
    | BsReading =>
        match bs_inp s with
        | Ready x :: inp => bs_handle_sitemty (mkBinsStream (bs_state s) inp (bs_range_complete s) (bs_binned s)) x
        | Pending :: inp => (mkBinsStream (bs_state s) inp (bs_range_complete s) (bs_binned s), BsBreak Pending)
        | [] => bs_handle_eos s
        end
    | BsDone => (s, BsBreak (Ready None))
    end in
  match ret with
  | BsBreak (Ready (Some (BsOutErr _))) | BsBreak (Ready (Some (BsOutItem (SErr _)))) => (bs_set_state s BsDone, ret)
  | _ => (s, ret)
  end.

(** A poll; each turn takes an item of the input, so one turn more than there are
    items is enough. *)
Fixpoint bs_loop (fuel : nat) (s : BinsStream) : BinsStream * bs_flow :=
  match fuel with
  | O => (s, BsPanic)
  | S fuel =>
      match bs_handle_main s with
      | (s, BsContinue) => bs_loop fuel s
      | res => res
      end
  end.

Definition bs_poll_next (s : BinsStream) : BinsStream * bs_flow := bs_loop (length (bs_inp s) + 1) s.

(** A consumer that polls until the end. *)
Fixpoint bs_drain (polls : nat) (s : BinsStream) : option (list BsOut) :=
  match polls with
  | O => None
  | S polls =>
      match bs_poll_next s with
      | (s, BsBreak (Ready (Some item))) => items ← bs_drain polls s; Some (item :: items)
      | (_, BsBreak (Ready None)) => Some []
      | (s, BsBreak Pending) => bs_drain polls s
      | (_, BsContinue) | (_, BsPanic) => None
      end
  end.

End BinsStream.
End Rebin.
