(* ===== verification/RebinProofs.v ===== *)
(** * Binned bins

    What the bins of [BinnedBinsTimeweight] are, for bins of a finer grid: the
    state between two bins is described by the bins seen so far ([rb_inv]), and
    that description is kept by the steps of the code. *)
From Stdlib Require Import ZArith Lia.
From stdpp Require Import base numbers option strings list sorting.
From S2P Require Import Prelude Items TimeTypes Ranges Events Bins Floats Rebin.

#[local] Open Scope Z_scope.
#[local] Open Scope rust_scope.

Section RebinProofs.
  Context {V A B : Type} `{EventValueType V} `{AggBinValTwLaws A B}.
Abbreviation BinT := (Bin V B).
Abbreviation Binner := (BinnedBinsTimeweight (V := V) (A := A) (B := B)).

(** ** What the output bins are *)

Definition cell_bins (lo hi : Z) (P : list BinT) : list BinT := filter (fun b => lo <= bin_ts1 b < hi) P.
Definition cnt_sum (I : list BinT) : Z := foldr (fun b s => bin_n b + s) 0 I.
Definition agg_all (L : Z) (I : list BinT) : A := foldl (fun a b => bv_ingest a (bin_ts2 b - bin_ts1 b) (bin_agg b)) (bv_new L) I.

(** A value that no [f] of the bins [I] passes, taken from [I] or the last value
    of a bin that ends before. *)
Definition orders_by (key : V -> Z) : Prop := forall a b, ev_cmp_a a b = Some (Z.compare (key a) (key b)).
Definition extreme (f : BinT -> V) (d : comparison) (P : list BinT) (lo : Z) (I : list BinT) (v : V) : Prop :=
  (forall key, orders_by key -> Forall (fun b => Z.compare (key (f b)) (key v) <> d) I) /\
  ((exists b, b ∈ I /\ v = f b) \/ (exists b, b ∈ P /\ bin_ts2 b <= lo /\ v = bin_lst b)).

(** The bin [x] for the input [P], on the grid of length [L] from [beg] on. *)
Record rb_good (L beg : Z) (P : list BinT) (x : BinT) : Prop := {
  rg_grid : (L | bin_ts1 x) /\ bin_ts2 x = bin_ts1 x + L /\ beg <= bin_ts1 x;
  rg_cnt : bin_n x = wrap 64 (cnt_sum (cell_bins (bin_ts1 x) (bin_ts2 x) P)) /\ bin_n x <> 0;
  rg_lst : bin_lst <$> last (cell_bins (bin_ts1 x) (bin_ts2 x) P) = Some (bin_lst x);
  rg_agg : bin_agg x = bv_result (agg_all L (cell_bins (bin_ts1 x) (bin_ts2 x) P));
  rg_min : extreme bin_min Lt P (bin_ts1 x) (cell_bins (bin_ts1 x) (bin_ts2 x) P) (bin_min x);
  rg_max : extreme bin_max Gt P (bin_ts1 x) (cell_bins (bin_ts1 x) (bin_ts2 x) P) (bin_max x)
}.

(** Every cell that starts before [lim] and has events has its bin. *)
Definition rb_complete (L beg lim : Z) (P O : list BinT) : Prop :=
  forall b, b ∈ P -> beg <= bin_ts1 b < lim ->
    let c := bin_ts1 b / L * L in wrap 64 (cnt_sum (cell_bins c (c + L) P)) <> 0 -> exists x, x ∈ O /\ bin_ts1 x = c.

(** A bin within a cell of the grid; bins that follow each other. *)
Definition in_cell (L : Z) (b : BinT) : Prop :=
  0 <= bin_ts1 b < bin_ts2 b /\ bin_ts2 b <= bin_ts1 b / L * L + L /\ bin_ts2 b + 2 * L < 2 ^ 64.
Definition follows (a b : BinT) : Prop := bin_ts2 a <= bin_ts1 b.
Definition bins_ok (L : Z) (P : list BinT) : Prop := Forall (in_cell L) P /\ StronglySorted follows P.

(** ** Lists of bins *)

Lemma cnt_sum_app I J : cnt_sum (I ++ J) = cnt_sum I + cnt_sum J.
Proof. unfold cnt_sum. induction I as [|b I IH]; simpl; lia. Qed.

Lemma cell_bins_snoc lo hi P b :
  cell_bins lo hi (P ++ [b]) = cell_bins lo hi P ++ (if bool_decide (lo <= bin_ts1 b < hi) then [b] else []).
Proof. unfold cell_bins. rewrite filter_app. f_equal. rewrite filter_cons. case_bool_decide; [by rewrite decide_True|by rewrite decide_False]. Qed.

Lemma cell_bins_out lo hi P b : ~ (lo <= bin_ts1 b < hi) -> cell_bins lo hi (P ++ [b]) = cell_bins lo hi P.
Proof. intros Hb. rewrite cell_bins_snoc, bool_decide_false by done. by rewrite app_nil_r. Qed.

Lemma cell_bins_none lo hi P : Forall (fun b => ~ (lo <= bin_ts1 b < hi)) P -> cell_bins lo hi P = [].
Proof. apply filter_false. Qed.

Lemma bins_ok_snoc L P b : bins_ok L P -> in_cell L b -> Forall (fun a => follows a b) P -> bins_ok L (P ++ [b]).
Proof.
  intros [Hc Hs] Hb Hf. split; [apply Forall_app; by split; [|constructor]|].
  by apply sorted_snoc.
Qed.

Lemma agg_all_len L I : bv_of_len L (agg_all L I).
Proof.
  unfold agg_all. generalize (bv_new_len L). generalize (bv_new L : A). induction I as [|b I IH]; intros a Ha; [done|].
  cbn [foldl]. apply IH. by apply bv_ingest_len.
Qed.

Lemma agg_all_snoc L I b : agg_all L (I ++ [b]) = bv_ingest (agg_all L I) (bin_ts2 b - bin_ts1 b) (bin_agg b).
Proof. unfold agg_all. by rewrite foldl_app. Qed.

(** The bins of the last cell are the last bins. *)
Lemma cell_bins_last L lo hi P p :
  bins_ok L P -> last P = Some p -> Forall (fun b => bin_ts2 b <= hi) P -> cell_bins lo hi P <> [] -> last (cell_bins lo hi P) = Some p.
Proof.
  intros [Hc Hs] (P' & ->)%last_Some Hhi Hne. rewrite cell_bins_snoc in *. apply Forall_app in Hhi as [_ Hhi].
  inversion Hhi as [|? ? Hp _]; subst. apply Forall_app in Hc as [Hc' Hc]. inversion Hc as [|? ? [Hp1 _] _]; subst.
  rewrite bool_decide_true; [by rewrite last_snoc|]. split; [|lia]. apply Z.nlt_ge. intros Hlt. apply Hne.
  rewrite bool_decide_false by lia. rewrite app_nil_r. apply cell_bins_none, Forall_forall. intros b Hb Hlo.
  assert (Hfo : follows b p).
  { clear -Hs Hb. induction P' as [|a P' IH]; [by apply not_elem_of_nil in Hb|]. cbn [app] in Hs. inversion Hs as [|? ? Hs' Ha]; subst.
    apply elem_of_cons in Hb as [->|Hb]; [|by apply IH]. apply Forall_app in Ha as [_ Ha]. by inversion Ha. }
  unfold follows in Hfo. rewrite Forall_forall in Hc'. destruct (Hc' b Hb) as [? _]. lia.
Qed.

(** ** Extremes *)

Lemma extreme_seen f d P lo I v b : extreme f d P lo I v -> extreme f d (P ++ [b]) lo I v.
Proof.
  intros [Hk Ha]. split; [done|]. destruct Ha as [?|(a & ? & ? & ?)]; [by left|right]. exists a. split; [|done].
  apply elem_of_app. by left.
Qed.

(** The bound after a bin is the extreme of the bins with it. *)
Lemma bb_bound_extreme f d P lo I m b :
  d <> Eq -> (m = None -> I = []) -> (forall v, m = Some v -> extreme f d P lo I v) ->
  exists v, bb_bound m (f b) d = Some v /\ extreme f d P lo (I ++ [b]) v.
Proof.
  intros Hd Hnone Hsome. unfold bb_bound. destruct m as [v|].
  - destruct (Hsome v eq_refl) as [Hk Ha].
    assert (Hin : (exists b0, b0 ∈ I /\ v = f b0) \/ (exists b0, b0 ∈ P /\ bin_ts2 b0 <= lo /\ v = bin_lst b0) ->
      (exists b0, b0 ∈ I ++ [b] /\ v = f b0) \/ (exists b0, b0 ∈ P /\ bin_ts2 b0 <= lo /\ v = bin_lst b0)).
    { intros [(b0 & ? & ?)|?]; [left; exists b0; split; [apply elem_of_app; by left|done]|by right]. }
    assert (Hkeep : (forall key, orders_by key -> Z.compare (key (f b)) (key v) <> d) -> extreme f d P lo (I ++ [b]) v).
    { intros Hb. split; [|by apply Hin]. intros key Hkey. apply Forall_app. split; [by apply Hk|]. constructor; [by apply Hb|constructor]. }
    destruct (ev_cmp_a (f b) v) as [c|] eqn:Hc.
    + destruct (bool_decide (c = d)) eqn:Hcd; [apply bool_decide_eq_true in Hcd as ->|apply bool_decide_eq_false in Hcd].
      * exists (f b). split; [done|]. split; [|left; exists b; split; [apply elem_of_app; right; by left|done]].
        intros key Hkey. apply Forall_app. split; [|constructor; [|constructor]; by rewrite Z.compare_refl].
        eapply Forall_impl; [by apply Hk|]. intros b0 Hb0. simpl in Hb0. rewrite Hkey in Hc. injection Hc as Hc.
        destruct d; [done| |].
        -- apply Z.compare_lt_iff in Hc. rewrite Z.compare_lt_iff in *. lia.
        -- apply Z.compare_gt_iff in Hc. rewrite Z.compare_gt_iff in *. lia.
      * exists v. split; [done|]. apply Hkeep. intros key Hkey. rewrite Hkey in Hc. by injection Hc as ->.
    + exists v. split; [done|]. apply Hkeep. intros key Hkey. by rewrite Hkey in Hc.
  - rewrite Hnone by done. exists (f b). split; [done|]. split; [|left; exists b; split; [by left|done]].
    intros key Hkey. constructor; [by rewrite Z.compare_refl|constructor].
Qed.

(** ** The state *)
Section State.
  Context (range : BinnedRange TsNano).
  Hypothesis HL : 0 < bin_len range.
Local Abbreviation L := (bin_len range).
Local Abbreviation beg := (bin_len range * bin_off range).

(** The cell at work. *)
Definition active_bins (s : Binner) (P : list BinT) : list BinT := cell_bins (bb_active_beg s) (bb_active_end s) P.

Record extreme_inv (f : BinT -> V) (d : comparison) (P : list BinT) (lo : Z) (I : list BinT) (m : option V) : Prop := {
  xi_none : m = None -> I = [];
  xi_some v : m = Some v -> extreme f d P lo I v
}.

(** The state after the bins [P]; [O] are the bins put out so far. *)
Record rb_inv (s : Binner) (P O : list BinT) : Prop := {
  v_range : bb_range s = range;
  v_cz : bb_produce_cnt_zero s = false;
  v_beg : (L | bb_active_beg s) /\ beg <= bb_active_beg s /\ bb_active_end s = bb_active_beg s + L;
  v_wf : cb_wf (bb_out s);
  v_before : Forall (fun b => bin_ts2 b <= bb_active_end s) P;
  v_cnt : bb_cnt s = wrap 64 (cnt_sum (active_bins s P));
  v_agg : bb_agg s = agg_all L (active_bins s P);
  v_lst : bb_lst s = bin_lst <$> last P;
  v_min : extreme_inv bin_min Lt P (bb_active_beg s) (active_bins s P) (bb_min s);
  v_max : extreme_inv bin_max Gt P (bb_active_beg s) (active_bins s P) (bb_max s);
  v_good : Forall (rb_good L beg P) O;
  v_order : StronglySorted Z.lt (map bin_ts1 O);
  v_end : Forall (fun x => bin_ts2 x <= bb_active_beg s) O;
  v_complete : rb_complete L beg (bb_active_beg s) P O
}.

(** Only the last value changes with the bin [b]. *)
Lemma rb_good_after P x b : rb_good L beg P x -> ~ (bin_ts1 x <= bin_ts1 b < bin_ts2 x) -> rb_good L beg (P ++ [b]) x.
Proof.
  intros [] Hb. split; try rewrite (cell_bins_out _ _ P b Hb); try done; by apply extreme_seen.
Qed.

Lemma emit_cond (s : Binner) :
  bb_produce_cnt_zero s = false ->
  negb (bb_cnt s =? 0) || bb_produce_cnt_zero s && bool_decide (is_Some (bb_min s)) = negb (bb_cnt s =? 0).
Proof. intros ->. cbn. by rewrite orb_false_r. Qed.

(** Emitting: the bin of the active cell, unless its count is zero. *)
Lemma bb_emit {E} s P O :
  bins_ok L P -> rb_inv s P O ->
  exists new out, @bb_maybe_emit_active V A B _ E s = Ok (bb_reset_for_new_bin (bb_set_out s out)) /\ cb_wf out /\
    cb_zip_iter_2 out = cb_zip_iter_2 (bb_out s) ++ new /\
    (new = [] /\ wrap 64 (cnt_sum (active_bins s P)) = 0 \/
     exists x, new = [x] /\ bin_ts1 x = bb_active_beg s /\ bin_ts2 x = bb_active_end s /\
       bin_fnl x = negb (bb_non_fnl s) /\ rb_good L beg P x).
Proof.
  intros Hok Hinv. pose proof Hinv as [R1 R2 (R3 & R4 & R5) R6 R7 R8 R9 R10 R11 R12 R13 R14 R15 R16].
  unfold bb_maybe_emit_active. rewrite emit_cond by done. rewrite <- R8. destruct (Z.eqb_spec (bb_cnt s) 0) as [Hz|Hnz]; cbn [negb].
  { exists [], (bb_out s). split; [by destruct s|]. split; [done|]. split; [by rewrite app_nil_r|by left]. }
  assert (Hne : active_bins s P <> []) by (intros Hn; rewrite R8, Hn in Hnz; done).
  destruct (bb_min s) as [mn|] eqn:Hmn; [|by destruct Hne; apply R11]. destruct (bb_max s) as [mx|] eqn:Hmx; [|by destruct Hne; apply R12].
  destruct (last P) as [p|] eqn:Hp; [|by apply last_None in Hp as ->].
  rewrite R10. cbn [unwrap and_then fmap option_fmap option_map].
  eexists _, _. split; [reflexivity|]. split; [by apply cb_push_back_wf|]. split; [by apply cb_push_back_zip|]. right. eexists. split; [done|].
  cbn [bin_ts1 bin_ts2 bin_fnl]. split; [done|]. split; [done|]. split; [done|].
  split; cbn [bin_ts1 bin_ts2 bin_n bin_min bin_max bin_agg bin_lst]; fold (active_bins s P).
  - done.
  - done.
  - unfold active_bins in *. by rewrite (cell_bins_last L _ _ P p).
  - by rewrite R9.
  - by apply R11.
  - by apply R12.
Qed.

Lemma last_ends_before (P : list BinT) p hi : Forall (fun b => bin_ts2 b <= hi) P -> last P = Some p -> p ∈ P /\ bin_ts2 p <= hi.
Proof. intros Hf Hp. apply last_Some_elem_of in Hp. split; [done|]. by eapply (proj1 (Forall_forall _ _)) in Hf. Qed.

(** The bounds of a cell that no bin is in yet are the last value. *)
Lemma extreme_fresh f d (P : list BinT) lo :
  Forall (fun b => bin_ts2 b <= lo) P -> extreme_inv f d P lo [] (bin_lst <$> last P).
Proof.
  intros Hf. split; [done|]. intros v Hv. destruct (last P) as [p|] eqn:Hp; [|done]. injection Hv as <-.
  destruct (last_ends_before P p lo Hf Hp). split; [constructor|]. right. by exists p.
Qed.

(** Between the end of the active cell and [c] there is no bin. *)
Lemma complete_forward s P O new c :
  rb_inv s P O -> bb_active_end s <= c -> Forall (in_cell L) P -> rb_complete L beg (bb_active_beg s) P O ->
  (wrap 64 (cnt_sum (active_bins s P)) <> 0 -> exists x, new = [x] /\ bin_ts1 x = bb_active_beg s) ->
  rb_complete L beg c P (O ++ new).
Proof.
  intros Hinv Hc Hcell Hcom Hnew b Hb Hlim. cbv zeta. destruct (v_beg _ _ _ Hinv) as ([q Hq] & Hbeg & Hend).
  destruct (Z.lt_ge_cases (bin_ts1 b) (bb_active_beg s)) as [Hlt|Hge].
  - intros Hs. destruct (Hcom b Hb) as (x & Hx & ?); [lia|done|]. exists x. split; [apply elem_of_app; by left|done].
  - assert (Hin : bin_ts1 b < bb_active_end s).
    { pose proof (v_before _ _ _ Hinv) as Hf. rewrite Forall_forall in Hf, Hcell. specialize (Hf b Hb). destruct (Hcell b Hb). lia. }
    assert (Hq1 : bin_ts1 b / L * L = bb_active_beg s).
    { rewrite Hq. f_equal. apply floor_grid_spec; lia. }
    rewrite Hq1, <- Hend. intros Hs. destruct (Hnew Hs) as (x & -> & ?). exists x. split; [apply elem_of_app; right; by left|done].
Qed.

(** Closing the active cell and going to the one of [t]. *)
Lemma bb_close {E} s P O t :
  bins_ok L P -> rb_inv s P O -> bb_active_end s <= t / L * L -> 0 <= t -> t + L < 2 ^ 64 ->
  exists s' new, (let? s := @bb_maybe_emit_active V A B _ E s in bb_active_forward s t) = Ok s' /\ rb_inv s' P (O ++ new) /\
    bb_active_beg s' = t / L * L /\ bb_non_fnl s' = false /\ active_bins s' P = [] /\
    cb_zip_iter_2 (bb_out s') = cb_zip_iter_2 (bb_out s) ++ new /\
    Forall (fun x => bin_ts1 x = bb_active_beg s /\ bin_ts2 x = bb_active_end s /\ bin_fnl x = negb (bb_non_fnl s)) new.
Proof.
  intros Hok Hinv Hc Ht Hb. destruct (bb_emit (E := E) s P O Hok Hinv) as (new & out & -> & Hwf & Hz & Hnew).
  pose proof Hinv as [R1 R2 (R3 & R4 & R5) R6 R7 R8 R9 R10 R11 R12 R13 R14 R15 R16]. cbn [and_then].
  unfold bb_active_forward, bb_bin_len. cbn [bb_reset_for_new_bin bb_set_out bb_range]. rewrite R1.
  unfold TsNano_ns, DtNano_ns, TsNano_to_dt_nano, TsNano_from_ns, TsNano_add_dt_nano, DtNano_from_ns.
  pose proof (Z.div_mod t L ltac:(lia)). pose proof (Z.mod_pos_bound t L HL). assert (0 <= t / L) by (apply Z.div_pos; lia).
  rewrite u_div_ok by lia. cbn [and_then]. rewrite u64_mul_small by nia. rewrite u64_add_small by nia. set (c := t / L * L) in *.
  assert (Hbefore : Forall (fun b => bin_ts2 b <= c) P) by (eapply Forall_impl; [exact R7|]; simpl; lia).
  assert (Hnone : cell_bins c (c + L) P = []).
  { apply cell_bins_none. destruct Hok as [Hcell _]. rewrite Forall_forall in *. intros b Hin.
    specialize (Hbefore b Hin). destruct (Hcell b Hin). lia. }
  eexists _, new. split; [reflexivity|]. split; [|split; [done|split; [done|split; [exact Hnone|split; [done|]]]]].
  - split; unfold active_bins; cbn [bb_set_out bb_reset_for_new_bin bb_range bb_produce_cnt_zero bb_active_beg bb_active_end bb_out bb_cnt bb_agg bb_lst bb_min bb_max];
      try done; rewrite ?Hnone.
    + split; [by apply Z.divide_factor_r|]. split; [lia|done].
    + eapply Forall_impl; [exact Hbefore|]. simpl. lia.
    + done.
    + rewrite R9. apply bv_reset_new, agg_all_len.
    + rewrite R10. by apply extreme_fresh.
    + rewrite R10. by apply extreme_fresh.
    + apply Forall_app. split; [done|]. destruct Hnew as [[-> _]|(x & -> & _ & _ & _ & ?)]; [by apply Forall_nil|by apply Forall_singleton].
    + rewrite map_app. destruct Hnew as [[-> _]|(x & -> & Hx & _)]; [by rewrite app_nil_r|]. apply sorted_snoc; [done|].
      rewrite Hx, Forall_map. rewrite Forall_forall in *. intros y Hy. specialize (R15 y Hy). destruct (rg_grid _ _ _ _ (R13 y Hy)) as (_ & ? & _). lia.
    + apply Forall_app. split; [eapply Forall_impl; [exact R15|]; simpl; lia|].
      destruct Hnew as [[-> _]|(x & -> & _ & Hx & _)]; [by apply Forall_nil|apply Forall_singleton; by rewrite Hx].
    + apply (complete_forward s); try done; [apply Hok|]. intros Hs. destruct Hnew as [[_ Hz0]|(x & -> & ? & _)]; [done|]. by exists x.
  - destruct Hnew as [[-> _]|(x & -> & ? & ? & ? & _)]; [by apply Forall_nil|by apply Forall_singleton].
Qed.

(** Everything about a state between two bins of the input. *)
Record rb_reading (s : Binner) (P O : list BinT) : Prop := {
  r_inv : rb_inv s P O;
  r_fnl : bb_non_fnl s = negb (forallb bin_fnl (active_bins s P));
  r_out : Forall (fun x => bin_fnl x = forallb bin_fnl (cell_bins (bin_ts1 x) (bin_ts2 x) P) /\
                           Exists (fun b => bin_ts2 x <= bin_ts2 b) P) O;
  r_strict : Forall (fun b => bin_ts2 b < bb_active_end s) P;
  r_reach : bb_active_beg s = beg \/ Exists (fun b => bb_active_beg s <= bin_ts2 b) P
}.

Lemma bins_ok_inv P b : bins_ok L (P ++ [b]) -> bins_ok L P /\ in_cell L b /\ Forall (fun a => follows a b) P.
Proof.
  intros [Hc Hs]. apply Forall_app in Hc as [Hc Hb]. inversion Hb; subst.
  assert (Hf : StronglySorted follows P /\ Forall (fun a => follows a b) P); [|destruct Hf; split; [by split|by split]].
  clear Hc Hb. induction P as [|a P IH]; [by repeat constructor|]. cbn [app] in Hs. inversion Hs as [|? ? Hs' Ha]; subst.
  destruct (IH Hs'). apply Forall_app in Ha as [Ha Hab]. inversion Hab; subst. split; by constructor.
Qed.

Lemma r_out_after P O b :
  Forall (rb_good L beg P) O -> Forall (fun x => bin_ts2 x <= bin_ts1 b \/ bin_ts1 b < beg) O ->
  Forall (fun x => bin_fnl x = forallb bin_fnl (cell_bins (bin_ts1 x) (bin_ts2 x) P) /\ Exists (fun b => bin_ts2 x <= bin_ts2 b) P) O ->
  Forall (fun x => bin_fnl x = forallb bin_fnl (cell_bins (bin_ts1 x) (bin_ts2 x) (P ++ [b])) /\
                   Exists (fun b => bin_ts2 x <= bin_ts2 b) (P ++ [b])) O.
Proof.
  rewrite !Forall_forall. intros Hg Hb Ho x Hx. destruct (Ho x Hx) as [Hf He]. destruct (rg_grid _ _ _ _ (Hg x Hx)) as (_ & ? & ?).
  rewrite cell_bins_out by (destruct (Hb x Hx); lia). split; [done|]. apply Exists_app. by left.
Qed.

Lemma good_after_all P O b :
  Forall (rb_good L beg P) O -> Forall (fun x => bin_ts2 x <= bin_ts1 b \/ bin_ts1 b < beg) O -> Forall (rb_good L beg (P ++ [b])) O.
Proof.
  rewrite !Forall_forall. intros Hg Hb x Hx. apply rb_good_after; [by apply Hg|].
  destruct (rg_grid _ _ _ _ (Hg x Hx)) as (_ & ? & ?). destruct (Hb x Hx); lia.
Qed.

Lemma cell_end_le b lim : in_cell L b -> (L | lim) -> bin_ts1 b < lim -> bin_ts2 b <= lim.
Proof.
  intros (Hb & Hcell & _) [q ->] Hlt. assert (bin_ts1 b / L < q) by (apply Z.div_lt_upper_bound; lia). nia.
Qed.

(** A bin before the range gives the last value. *)
Lemma rb_before s P O b :
  bins_ok L (P ++ [b]) -> rb_reading s P O -> bin_ts1 b < bb_active_beg s ->
  rb_reading (mkBb (bb_range s) (bb_active_beg s) (bb_active_end s) (bb_cnt s) (bb_min s) (bb_max s) (Some (bin_lst b)) (bb_agg s)
          (bb_non_fnl s) (bb_out s) (bb_produce_cnt_zero s)) (P ++ [b]) O.
Proof.
  intros Hok [Hinv Hfnl Hout Hst Hreach] Hlt. destruct (bins_ok_inv P b Hok) as (_ & Hcell & Hfol).
  pose proof Hinv as [R1 R2 (R3 & R4 & R5) R6 R7 R8 R9 R10 R11 R12 R13 R14 R15 R16].
  assert (Hbeg : bb_active_beg s = beg).
  { destruct Hreach as [|Hex]; [done|]. apply Exists_exists in Hex as (a & Ha & ?). rewrite Forall_forall in Hfol.
    specialize (Hfol a Ha). unfold follows in Hfol. lia. }
  pose proof (cell_end_le b _ Hcell R3 Hlt) as Hend.
  assert (Hact : cell_bins (bb_active_beg s) (bb_active_end s) (P ++ [b]) = active_bins s P) by (apply cell_bins_out; lia).
  assert (HO : Forall (fun x => bin_ts2 x <= bin_ts1 b \/ bin_ts1 b < beg) O) by (apply Forall_forall; intros; right; lia).
  split; [split|..]; unfold active_bins; cbn [bb_range bb_produce_cnt_zero bb_active_beg bb_active_end bb_out bb_cnt bb_agg bb_lst bb_min bb_max bb_non_fnl];
    rewrite ?Hact; try done.
  - apply Forall_app. split; [done|]. constructor; [lia|constructor].
  - by rewrite last_snoc.
  - destruct R11 as [X1 X2]. split; [done|]. intros v Hv. by apply extreme_seen, X2.
  - destruct R12 as [X1 X2]. split; [done|]. intros v Hv. by apply extreme_seen, X2.
  - by apply good_after_all.
  - intros a Ha Hlim. rewrite Hbeg in Hlim. lia.
  - by apply r_out_after.
  - apply Forall_app. split; [done|]. constructor; [lia|constructor].
  - by left.
Qed.

Lemma bb_bound_self (v : V) d : bb_bound (Some v) v d = Some v.
Proof. unfold bb_bound. destruct (ev_cmp_a v v) as [c|]; [|done]. by destruct (bool_decide (c = d)). Qed.

(** The bound of the active cell with one more bin. *)
Lemma extreme_add f d s P O b m :
  d <> Eq -> bins_ok L (P ++ [b]) -> rb_inv s P O -> bb_active_beg s <= bin_ts1 b -> bin_ts1 b < bb_active_end s ->
  extreme_inv f d P (bb_active_beg s) (active_bins s P) m ->
  extreme_inv f d (P ++ [b]) (bb_active_beg s) (active_bins s P ++ [b])
    (bb_bound (if bin_ts1 b =? bb_active_beg s then Some (f b) else m) (f b) d).
Proof.
  intros Hd Hok Hinv Hge Hlt [X1 X2]. destruct (bins_ok_inv P b Hok) as ([Hc _] & _ & Hfol).
  destruct (Z.eqb_spec (bin_ts1 b) (bb_active_beg s)) as [Heq|Hne].
  - assert (Hnil : active_bins s P = []).
    { apply cell_bins_none. rewrite Forall_forall in *. intros a Ha. specialize (Hfol a Ha). destruct (Hc a Ha) as [? _].
      unfold follows in Hfol. lia. }
    rewrite bb_bound_self, Hnil. cbn [app]. split; [done|]. intros v [= <-].
    split; [|left; exists b; split; [by left|done]]. intros key _. constructor; [by rewrite Z.compare_refl|constructor].
  - destruct (bb_bound_extreme f d P (bb_active_beg s) (active_bins s P) m b Hd X1 X2) as (v & -> & Hv).
    split; [done|]. intros v' [= <-]. by apply extreme_seen.
Qed.

(** A bin of the active cell. *)
Lemma rb_add s P O b :
  bins_ok L (P ++ [b]) -> rb_inv s P O -> bb_active_beg s <= bin_ts1 b -> bin_ts2 b <= bb_active_end s ->
  let eq := bin_ts1 b =? bb_active_beg s in
  let s' := mkBb (bb_range s) (bb_active_beg s) (bb_active_end s) (u64_add (bb_cnt s) (bin_n b))
      (bb_bound (if eq then Some (bin_min b) else bb_min s) (bin_min b) Lt)
      (bb_bound (if eq then Some (bin_max b) else bb_max s) (bin_max b) Gt) (Some (bin_lst b))
      (bv_ingest (bb_agg s) (bin_ts2 b - bin_ts1 b) (bin_agg b)) (bb_non_fnl s || negb (bin_fnl b)) (bb_out s) (bb_produce_cnt_zero s) in
  rb_inv s' (P ++ [b]) O /\ active_bins s' (P ++ [b]) = active_bins s P ++ [b].
Proof.
  intros Hok Hinv Hge Hle eq s'. destruct (bins_ok_inv P b Hok) as (Hok' & Hcell & Hfol).
  pose proof Hinv as [R1 R2 (R3 & R4 & R5) R6 R7 R8 R9 R10 R11 R12 R13 R14 R15 R16]. destruct (Hcell) as (Hb & _ & _).
  assert (Hact : active_bins s' (P ++ [b]) = active_bins s P ++ [b]).
  { unfold active_bins. cbn [s' bb_active_beg bb_active_end]. rewrite cell_bins_snoc, bool_decide_true by lia. done. }
  split; [|done].
  assert (HO : Forall (fun x => bin_ts2 x <= bin_ts1 b \/ bin_ts1 b < beg) O) by (eapply Forall_impl; [exact R15|]; simpl; lia).
  split; rewrite ?Hact; unfold s'; cbn [bb_range bb_produce_cnt_zero bb_active_beg bb_active_end bb_out bb_cnt bb_agg bb_lst bb_min bb_max]; try done.
  - apply Forall_app. split; [done|]. constructor; [lia|constructor].
  - rewrite cnt_sum_app, R8. cbn [cnt_sum foldr]. unfold u64_add, wrap. rewrite Zplus_mod_idemp_l. f_equal. lia.
  - by rewrite agg_all_snoc, R9.
  - by rewrite last_snoc.
  - apply (extreme_add bin_min Lt s P O b); try done. lia.
  - apply (extreme_add bin_max Gt s P O b); try done. lia.
  - by apply good_after_all.
  - intros a Ha Hlim. cbv zeta. apply elem_of_app in Ha as [Ha|Ha]; [|apply list_elem_of_singleton in Ha as ->; lia].
    assert (bin_ts1 a / L * L + L <= bb_active_beg s).
    { destruct R3 as [q Hq]. rewrite Hq in *. assert (bin_ts1 a / L < q) by (apply Z.div_lt_upper_bound; lia). nia. }
    rewrite cell_bins_out by lia. by apply R16.
Qed.

Definition out_fnl_ok (P O : list BinT) : Prop :=
  Forall (fun x => bin_fnl x = forallb bin_fnl (cell_bins (bin_ts1 x) (bin_ts2 x) P) /\ Exists (fun b => bin_ts2 x <= bin_ts2 b) P) O.

(** Going to the cell of a bin. *)
Lemma rb_goto {E} s P O b :
  bins_ok L (P ++ [b]) -> rb_reading s P O -> bb_active_beg s <= bin_ts1 b ->
  exists s1 new, (if bb_active_end s <=? bin_ts1 b
      then let? s := @bb_maybe_emit_active V A B _ E s in bb_active_forward s (bin_ts1 b) else Ok s) = Ok s1 /\
    rb_inv s1 P (O ++ new) /\ bb_non_fnl s1 = negb (forallb bin_fnl (active_bins s1 P)) /\ out_fnl_ok (P ++ [b]) (O ++ new) /\
    bb_active_beg s1 <= bin_ts1 b /\ bin_ts2 b <= bb_active_end s1 /\
    cb_zip_iter_2 (bb_out s1) = cb_zip_iter_2 (bb_out s) ++ new.
Proof.
  intros Hok [Hinv Hfnl Hout Hst Hreach] Hge. destruct (bins_ok_inv P b Hok) as (Hok' & Hcell & Hfol).
  pose proof Hcell as (Hb & Hc & Hb64). destruct (v_beg _ _ _ Hinv) as (R3 & R4 & R5).
  assert (Hout' : out_fnl_ok (P ++ [b]) O).
  { apply r_out_after; [apply Hinv| |done]. eapply Forall_impl; [apply (v_end _ _ _ Hinv)|]. simpl. lia. }
  destruct (Z.leb_spec (bb_active_end s) (bin_ts1 b)) as [Hle|Hlt].
  - assert (Hcl : bb_active_end s <= bin_ts1 b / L * L).
    { rewrite R5 in *. destruct R3 as [q Hq]. rewrite Hq in *. assert (q + 1 <= bin_ts1 b / L) by (apply Z.div_le_lower_bound; lia). nia. }
    destruct (bb_close (E := E) s P O (bin_ts1 b) Hok' Hinv Hcl) as (s1 & new & -> & Hinv1 & Hbeg1 & Hnf & Hact & Hz & Hnew); [lia|lia|].
    exists s1, new. destruct (v_beg _ _ _ Hinv1) as (_ & _ & R5'). pose proof (Z.mul_div_le (bin_ts1 b) L HL).
    split; [done|]. split; [done|]. split; [by rewrite Hnf, Hact|]. split; [|split; [lia|split; [lia|done]]].
    apply Forall_app. split; [done|]. eapply Forall_impl; [exact Hnew|]. intros x (-> & -> & ->).
    rewrite cell_bins_out by lia. split; [by rewrite Hfnl, negb_involutive|]. apply Exists_app. right. constructor. lia.
  - exists s, []. rewrite !app_nil_r. split; [done|]. split; [done|]. split; [done|]. split; [done|]. split; [done|].
    split; [|done]. apply cell_end_le; [done|rewrite R5; apply Z.divide_add_r; [done|apply Z.divide_refl]|done].
Qed.

(** Leaving the cell when the bin reaches its end. *)
Lemma rb_finish {E} s P O b :
  bins_ok L P -> rb_inv s P O -> bb_non_fnl s = negb (forallb bin_fnl (active_bins s P)) -> out_fnl_ok P O ->
  b ∈ P -> Forall (fun a => bin_ts2 a <= bin_ts2 b) P -> bb_active_beg s <= bin_ts1 b -> bin_ts2 b <= bb_active_end s ->
  exists s' new, (if bb_active_end s <=? bin_ts2 b
      then let? s := @bb_maybe_emit_active V A B _ E s in bb_active_forward s (bin_ts2 b) else Ok s) = Ok s' /\
    rb_reading s' P (O ++ new) /\ cb_zip_iter_2 (bb_out s') = cb_zip_iter_2 (bb_out s) ++ new.
Proof.
  intros Hok Hinv Hfnl Hout Hin Hmax Hge Hle. destruct (v_beg _ _ _ Hinv) as (R3 & R4 & R5).
  assert (Hcell : in_cell L b) by (destruct Hok as [Hc _]; rewrite Forall_forall in Hc; by apply Hc).
  pose proof Hcell as (Hb & _ & Hb64). destruct (Z.leb_spec (bb_active_end s) (bin_ts2 b)) as [Hend|Hlt].
  - assert (Heq : bin_ts2 b = bb_active_end s) by lia.
    assert (Hdiv : bin_ts2 b / L * L = bin_ts2 b).
    { rewrite Heq, R5. destruct R3 as [q ->]. replace (q * L + L) with ((q + 1) * L) by lia. by rewrite Z.div_mul by lia. }
    destruct (bb_close (E := E) s P O (bin_ts2 b) Hok Hinv) as (s1 & new & -> & Hinv1 & Hbeg1 & Hnf & Hact & Hz & Hnew); [lia|lia|lia|].
    destruct (v_beg _ _ _ Hinv1) as (_ & _ & R5'). exists s1, new. split; [done|]. split; [|done]. split.
    + done.
    + by rewrite Hnf, Hact.
    + apply Forall_app. split; [done|]. eapply Forall_impl; [exact Hnew|]. intros x (-> & -> & ->).
      split; [by rewrite Hfnl, negb_involutive|]. apply Exists_exists. exists b. split; [done|lia].
    + eapply Forall_impl; [exact Hmax|]. simpl. lia.
    + right. apply Exists_exists. exists b. split; [done|lia].
  - exists s, []. rewrite !app_nil_r. split; [done|]. split; [|done]. split; try done.
    + eapply Forall_impl; [exact Hmax|]. simpl. lia.
    + right. apply Exists_exists. exists b. split; [done|lia].
Qed.

Lemma bb_ingest_bin_spec s P O b :
  bins_ok L (P ++ [b]) -> rb_reading s P O ->
  exists s' new, bb_ingest_bin s b = Ok s' /\ rb_reading s' (P ++ [b]) (O ++ new) /\
    cb_zip_iter_2 (bb_out s') = cb_zip_iter_2 (bb_out s) ++ new.
Proof.
  intros Hok Hr. unfold bb_ingest_bin. destruct (Z.ltb_spec (bin_ts1 b) (bb_active_beg s)) as [Hlt|Hge].
  { eexists _, []. split; [done|]. rewrite !app_nil_r. split; [by apply rb_before|done]. }
  destruct (rb_goto (E := bins_tw_error) s P O b Hok Hr Hge) as (s1 & new & -> & Hinv & Hfnl & Hout & Hbeg & Hend & Hz). cbn [and_then].
  rewrite (proj2 (Z.ltb_ge _ _)) by done. cbn [and_then].
  destruct (bins_ok_inv P b Hok) as (Hok' & Hcell & Hfol). pose proof Hcell as (Hb & _ & Hb64).
  destruct (rb_add s1 P (O ++ new) b Hok Hinv Hbeg Hend) as [Hinv2 Hact2].
  assert (Hlen : bb_bin_len s = L) by (unfold bb_bin_len; by rewrite (v_range _ _ _ (r_inv _ _ _ Hr))).
  unfold TsNano_delta. rewrite u64_sub_small by lia. rewrite Hlen.
  assert (Hdt : bin_ts2 b - bin_ts1 b <= L).
  { destruct (v_beg _ _ _ Hinv) as (_ & _ & R5). lia. }
  destruct (bin_ts1 b =? bb_active_beg s1); cbn zeta in *; rewrite (proj2 (Z.ltb_ge _ _)) by done; set (s2 := mkBb _ _ _ _ _ _ _ _ _ _ _) in *;
    (destruct (rb_finish (E := bins_tw_error) s2 (P ++ [b]) (O ++ new) b Hok Hinv2) as (s' & new' & Hfin & Hr' & Hz');
     [rewrite Hact2, forallb_app; cbn [s2 bb_non_fnl forallb]; rewrite Hfnl, andb_true_r; by destruct (forallb _ _), (bin_fnl b)
     |done|apply elem_of_app; right; by left
     |apply Forall_app; split; [eapply Forall_impl; [exact Hfol|]; unfold follows; simpl; lia|apply Forall_singleton; done]
     |done|done|]);
    exists s', (new ++ new'); rewrite !app_assoc; (split; [exact Hfin|]); (split; [exact Hr'|]);
    rewrite Hz'; cbn [s2 bb_out]; by rewrite Hz.
Qed.

(** ** All bins *)

Lemma bins_ok_app P Q : bins_ok L (P ++ Q) -> bins_ok L P.
Proof.
  induction Q as [|b Q IH] using rev_ind; [by rewrite app_nil_r|]. rewrite app_assoc. intros Hok. apply IH. by apply bins_ok_inv in Hok as [? _].
Qed.

Lemma bb_ingest_loop_spec s P O bins :
  bins_ok L (P ++ bins) -> rb_reading s P O ->
  exists s' new, bb_ingest_loop s bins = Ok s' /\ rb_reading s' (P ++ bins) (O ++ new) /\
    cb_zip_iter_2 (bb_out s') = cb_zip_iter_2 (bb_out s) ++ new.
Proof.
  revert s P O. induction bins as [|b bins IH]; intros s P O Hok Hr.
  { exists s, []. by rewrite !app_nil_r. }
  change (b :: bins) with ([b] ++ bins) in *. rewrite app_assoc in Hok. cbn [bb_ingest_loop app].
  destruct (bb_ingest_bin_spec s P O b) as (s1 & new1 & -> & Hr1 & Hz1); [by eapply bins_ok_app|done|]. cbn [and_then].
  destruct (IH s1 _ _ Hok Hr1) as (s' & new & -> & Hr' & Hz'). exists s', (new1 ++ new).
  rewrite Hz', Hz1, <- !app_assoc in *. done.
Qed.

Lemma rb_new_reading :
  0 <= bin_off range -> beg + 2 * L < 2 ^ 64 -> rb_reading (bb_new range) [] [].
Proof.
  intros Ho Hb. assert (Hbeg : br_nano_beg range = beg) by (unfold br_nano_beg; by rewrite u64_mul_small by nia).
  assert (Hend : u64_add beg L = beg + L) by (apply u64_add_small; nia).
  split; [split|..]; unfold bb_new, active_bins, TsNano_add_dt_nano, TsNano_to_dt_nano, DtNano_from_ns;
    cbn [bb_range bb_produce_cnt_zero bb_active_beg bb_active_end bb_out bb_cnt bb_agg bb_lst bb_min bb_max bb_non_fnl]; rewrite ?Hbeg; try done.
  - split; [apply Z.divide_factor_l|]. split; [lia|done].
  - constructor.
  - intros b Hin. by apply not_elem_of_nil in Hin.
  - by left.
Qed.

(** What the output [O] is for all the bins [T] of the input; the last bin is
    final when the range is, or when the input reaches its end. *)
Record rebinned (final : bool) (T O : list BinT) : Prop := {
  re_good : Forall (rb_good L beg T) O;
  re_fnl : Forall (fun x => bin_fnl x = forallb bin_fnl (cell_bins (bin_ts1 x) (bin_ts2 x) T) &&
                                        (final || existsb (fun b => bin_ts2 x <=? bin_ts2 b) T)) O;
  re_order : StronglySorted Z.lt (map bin_ts1 O);
  re_complete : forall b, b ∈ T -> beg <= bin_ts1 b ->
    let c := bin_ts1 b / L * L in wrap 64 (cnt_sum (cell_bins c (c + L) T)) <> 0 -> exists x, x ∈ O /\ bin_ts1 x = c
}.

Lemma existsb_reached (x : BinT) (T : list BinT) : Exists (fun b => bin_ts2 x <= bin_ts2 b) T -> existsb (fun b => bin_ts2 x <=? bin_ts2 b) T = true.
Proof. intros Hex. apply existsb_exists. apply Exists_exists in Hex as (b & Hb & ?). exists b. split; [by apply list_elem_of_In|by apply Z.leb_le]. Qed.

Lemma existsb_not_reached (x : BinT) (T : list BinT) : Forall (fun b => bin_ts2 b < bin_ts2 x) T -> existsb (fun b => bin_ts2 x <=? bin_ts2 b) T = false.
Proof.
  induction 1 as [|b T Hb _ IH]; [done|]. cbn [existsb]. by rewrite IH, (proj2 (Z.leb_gt _ _)).
Qed.

(** The end of the input. *)
Lemma bb_done_spec {E} (final : bool) s P O :
  0 <= bin_off range -> beg + 2 * L < 2 ^ 64 -> bins_ok L P -> rb_reading s P O ->
  exists s' new, (if final then @bb_input_done_range_final V A B _ E s else bb_input_done_range_open s) = Ok s' /\
    rebinned final P (O ++ new) /\ cb_wf (bb_out s') /\ cb_zip_iter_2 (bb_out s') = cb_zip_iter_2 (bb_out s) ++ new.
Proof.
  intros Ho H64 Hok [Hinv Hfnl Hout Hst Hreach]. destruct (v_beg _ _ _ Hinv) as (R3 & R4 & R5).
  set (s0 := if final then s else mkBb (bb_range s) (bb_active_beg s) (bb_active_end s) (bb_cnt s) (bb_min s) (bb_max s) (bb_lst s) (bb_agg s) true
             (bb_out s) (bb_produce_cnt_zero s)).
  assert (Hinv0 : rb_inv s0 P O) by (unfold s0; destruct final; [done|]; by destruct Hinv).
  assert (Hs0 : bb_active_beg s0 = bb_active_beg s /\ bb_active_end s0 = bb_active_end s /\ bb_out s0 = bb_out s /\ bb_range s0 = bb_range s)
    by (unfold s0; by destruct final). destruct Hs0 as (S1 & S2 & S3 & S4).
  assert (Hnf : negb (bb_non_fnl s0) = forallb bin_fnl (active_bins s P) && final).
  { unfold s0. destruct final; [by rewrite Hfnl, negb_involutive, andb_true_r|by rewrite andb_false_r]. }
  assert (Hlt64 : bb_active_end s + L < 2 ^ 64).
  { rewrite R5. destruct Hreach as [->|Hex]; [lia|]. apply Exists_exists in Hex as (a & Ha & ?). destruct Hok as [Hc _].
    rewrite Forall_forall in Hc. destruct (Hc a Ha) as (_ & _ & ?). lia. }
  assert (Hdiv : bb_active_end s / L * L = bb_active_end s).
  { rewrite R5. destruct R3 as [q ->]. replace (q * L + L) with ((q + 1) * L) by lia. by rewrite Z.div_mul by lia. }
  assert (Hb0 : 0 <= bb_active_beg s) by nia.
  destruct (bb_close (E := E) s0 P O (bb_active_end s) Hok Hinv0) as (s' & new & Heq & Hinv' & Hbeg' & _ & _ & Hz & Hnew); [lia|lia|lia|].
  exists s', new. split.
  { rewrite <- Heq. unfold bb_input_done_range_final, bb_input_done_range_open. fold s0.
    assert (Harg : u64_add (bb_active_beg s) L = bb_active_end s) by (rewrite R5; apply u64_add_small; lia).
    assert (Hfwd : forall s1 : Binner, bb_range s1 = range -> bb_active_beg s1 = bb_active_beg s ->
      TsNano_add_dt_nano (bb_active_beg s1) (bb_bin_len s1) = bb_active_end s).
    { intros s1 H1r H1b. unfold TsNano_add_dt_nano, bb_bin_len. by rewrite H1r, H1b, <- Harg. }
    destruct (bb_emit (E := E) s0 P O Hok Hinv0) as (? & out & Hem & _). unfold s0 in *.
    destruct final; rewrite Hem; cbn [and_then]; rewrite Hfwd; try done; cbn; apply (v_range _ _ _ Hinv). }
  split; [|split; [apply Hinv'|by rewrite Hz, S3]]. split.
  - apply Hinv'.
  - apply Forall_app. split; (eapply Forall_impl; [eassumption|]).
    + intros x [-> Hx]. rewrite existsb_reached by done. by rewrite orb_true_r, andb_true_r.
    + intros x (-> & Hx2 & ->). rewrite existsb_not_reached by (rewrite Hx2, S2; exact Hst). by rewrite Hnf, Hx2, S1, S2, orb_false_r.
  - apply Hinv'.
  - intros b Hb Hge. apply (v_complete _ _ _ Hinv'); [done|]. split; [done|]. rewrite Hbeg', Hdiv.
    rewrite Forall_forall in Hst. specialize (Hst b Hb). destruct Hok as [Hc _]. rewrite Forall_forall in Hc. destruct (Hc b Hb). lia.
Qed.

(** ** The stream *)
Section Stream.
  Context {Lg St E : Type}.
  Hypothesis Ho : 0 <= bin_off range.
  Hypothesis H64 : beg + 2 * L < 2 ^ 64.
Abbreviation StreamT := (BinsStream (V := V) (A := A) (B := B) (L := Lg) (St := St) (E := E)).
Abbreviation BItemT := (BsItem (V := V) (B := B) (L := Lg) (St := St) (E := E)).
Abbreviation BOutT := (BsOut (V := V) (B := B) (L := Lg) (St := St) (E := E)).

Definition bs_poll_bins (p : Poll BItemT) : list BinT := match p with Ready (SOk (DataItem (Data c))) => cb_zip_iter_2 c | _ => [] end.
Definition bs_bins (inp : list (Poll BItemT)) : list BinT := concat (map bs_poll_bins inp).
Definition bs_poll_marks (p : Poll BItemT) : bool := match p with Ready (SOk (DataItem RangeComplete)) => true | _ => false end.
Definition bs_poll_ok (p : Poll BItemT) : Prop :=
  match p with Ready (SErr _) => False | Ready (SOk (DataItem (Data c))) => cb_wf c | _ => True end.

Definition bs_out_bins (o : BOutT) : list BinT := match o with BsOutItem (SOk (DataItem (Data c))) => cb_zip_iter_2 c | _ => [] end.
(** No error comes out, no empty container, and no range marker. *)
Definition bs_out_ok (o : BOutT) : Prop :=
  match o with
  | BsOutItem (SErr _) | BsOutErr _ | BsOutItem (SOk (DataItem RangeComplete)) => False
  | BsOutItem (SOk (DataItem (Data c))) => cb_wf c /\ cb_zip_iter_2 c <> []
  | _ => True
  end.

(** The stream while it reads: [P] are the bins it has seen, [O] those it has put
    out, [T] those of the whole input, [mk] whether the input has the marker. *)
Record bs_at (s : StreamT) (P O T : list BinT) (mk : bool) : Prop := {
  at_reading : bs_state s = BsReading;
  at_lazy : bl_range (bs_binned s) = range /\ bl_produce_cnt_zero (bs_binned s) = false;
  at_none : bl_binned (bs_binned s) = None -> P = [] /\ O = [];
  at_inv : rb_reading (bl_binner (bs_binned s)) P O;
  at_out : cb_zip_iter_2 (bb_out (bl_binner (bs_binned s))) = [];
  at_polls : Forall bs_poll_ok (bs_inp s);
  at_total : P ++ bs_bins (bs_inp s) = T;
  at_mark : bs_range_complete s || existsb bs_poll_marks (bs_inp s) = mk
}.

Lemma rb_drained s P O : rb_reading s P O -> rb_reading (bb_set_out s cb_new) P O.
Proof. intros [[] ? ? ? ?]. by split; [split|..]. Qed.

Lemma cb_len_zip (c : ContainerBins V B) : cb_wf c -> cb_len c = length (cb_zip_iter_2 c).
Proof. intros Hw. by rewrite cb_zip_length. Qed.

(** A container is ingested and what is ready leaves. *)
Lemma bs_data_spec s P O T mk c inp :
  bs_at s P O T mk -> bins_ok L T -> bs_inp s = Ready (SOk (DataItem (Data c))) :: inp ->
  exists s' new flow, bs_handle_main s = (s', flow) /\ bs_at s' (P ++ cb_zip_iter_2 c) (O ++ new) T mk /\ bs_inp s' = inp /\
    (flow = BsContinue /\ new = [] \/ exists o, flow = BsBreak (Ready (Some o)) /\ bs_out_bins o = new /\ bs_out_ok o).
Proof.
  intros [A1 [A2 A2'] A3 A4 A5 A6 A7 A8] Hok Hinp. rewrite Hinp in *. inversion A6 as [|? ? Hw A6']; subst.
  change (bs_bins (Ready (SOk (DataItem (Data c))) :: inp)) with (cb_zip_iter_2 c ++ bs_bins inp) in *. rewrite app_assoc in Hok.
  destruct (bb_ingest_loop_spec (bl_binner (bs_binned s)) P O (cb_zip_iter_2 c)) as (b & new & Heq & Hr & Hz); [by eapply bins_ok_app|done|].
  rewrite A5, app_nil_l in Hz. unfold bs_handle_main. rewrite A1, Hinp.
  cbn [bs_handle_sitemty bs_binned]. unfold bl_ingest, bb_ingest_bins. rewrite Heq. cbn [and_then].
  unfold bl_output. cbn [bl_binned bl_range bl_produce_cnt_zero]. unfold bb_output.
  pose proof (v_wf _ _ _ (r_inv _ _ _ Hr)) as Hwf. rewrite (cb_len_zip _ Hwf), Hz.
  destruct (Nat.eqb_spec (length new) 0) as [Hn|Hn].
  - apply length_zero_iff_nil in Hn as ->. rewrite app_nil_r in *. eexists _, [], _. split; [reflexivity|]. rewrite app_nil_r.
    split; [|split; [done|by left]]. by split; cbn; rewrite <- ?app_assoc.
  - rewrite (cb_len_zip _ Hwf), Hz, (proj2 (Nat.eqb_neq _ _)) by done. eexists _, new, _. split; [reflexivity|].
    split; [|split; [done|right; eexists; split; [done|split; [exact Hz|split; [done|]]]]].
    + split; cbn; rewrite <- ?app_assoc; try done. by apply rb_drained.
    + rewrite Hz. by destruct new.
Qed.

(** A turn on an item of the input. *)
Lemma bs_step_spec s P O T mk p inp :
  bs_at s P O T mk -> bins_ok L T -> bs_inp s = p :: inp ->
  exists s' P' new flow, bs_handle_main s = (s', flow) /\ bs_at s' P' (O ++ new) T mk /\ bs_inp s' = inp /\
    match flow with
    | BsContinue | BsBreak Pending => new = []
    | BsBreak (Ready (Some o)) => bs_out_bins o = new /\ bs_out_ok o
    | _ => False
    end.
Proof.
  intros Hat Hok Hinp. pose proof Hat as [A1 [A2 A2'] A3 A4 A5 A6 A7 A8]. rewrite Hinp in A6, A7, A8. inversion A6 as [|? ? Hp A6']; subst.
  assert (Hplain : forall rc : bool, bs_poll_bins p = [] -> (rc || existsb bs_poll_marks inp = bs_range_complete s || existsb bs_poll_marks (p :: inp)) ->
    bs_at (mkBinsStream (bs_state s) inp rc (bs_binned s)) P (O ++ []) (P ++ bs_bins (p :: inp)) (bs_range_complete s || existsb bs_poll_marks (p :: inp))).
  { intros rc Hb Hm. rewrite app_nil_r. split; cbn; try done. unfold bs_bins. cbn [map concat]. by rewrite Hb. }
  destruct p as [[[[|c]|l|st]|e]|]; [| | | |done|].
  - exists (mkBinsStream (bs_state s) inp true (bs_binned s)), P, [], BsContinue. unfold bs_handle_main. rewrite A1, Hinp. cbn.
    split; [by rewrite ?A1|]. split; [|done]. rewrite <- A1. apply Hplain; [done|]. cbn. by rewrite orb_true_r.
  - destruct (bs_data_spec _ _ _ _ _ c inp Hat Hok Hinp) as (s' & new & flow & ? & ? & ? & [[-> ->]|(o & -> & ? & ?)]);
      by eexists s', _, _, _.
  - eexists (mkBinsStream (bs_state s) inp (bs_range_complete s) (bs_binned s)), P, [], _. unfold bs_handle_main. rewrite A1, Hinp. cbn.
    split; [reflexivity|]. split; [|done]. rewrite <- A1. by apply Hplain.
  - eexists (mkBinsStream (bs_state s) inp (bs_range_complete s) (bs_binned s)), P, [], _. unfold bs_handle_main. rewrite A1, Hinp. cbn.
    split; [reflexivity|]. split; [|done]. rewrite <- A1. by apply Hplain.
  - eexists (mkBinsStream (bs_state s) inp (bs_range_complete s) (bs_binned s)), P, [], _. unfold bs_handle_main. rewrite A1, Hinp. cbn.
    split; [reflexivity|]. split; [|done]. rewrite <- A1. by apply Hplain.
Qed.

Lemma rebinned_nil mk : rebinned mk [] [].
Proof. split; try constructor. intros b Hb. by apply not_elem_of_nil in Hb. Qed.

(** The end of the input. *)
Lemma bs_end_spec s P O T mk :
  bs_at s P O T mk -> bins_ok L T -> bs_inp s = [] ->
  exists s' o, bs_handle_main s = (s', BsBreak (Ready (Some o))) /\ bs_state s' = BsDone /\ bs_out_ok o /\
    rebinned mk T (O ++ bs_out_bins o).
Proof.
  intros [A1 [A2 A2'] A3 A4 A5 A6 A7 A8] Hok Hinp. rewrite Hinp in *. cbn [bs_bins map concat existsb] in *.
  rewrite orb_false_r in A8. rewrite app_nil_r in A7. subst. unfold bs_handle_main, bs_handle_eos. rewrite A1, Hinp.
  cbn [bs_set_state bs_range_complete bs_binned]. destruct (bl_binned (bs_binned s)) as [b|] eqn:Hb.
  - assert (Hbin : bl_binner (bs_binned s) = b) by (unfold bl_binner; by rewrite Hb). rewrite Hbin in *.
    destruct (bb_done_spec (E := bins_tw_error) (bs_range_complete s) b T O Ho H64 Hok A4) as (b' & new & Heq & Hre & Hwf & Hz).
    rewrite A5, app_nil_l in Hz. unfold bl_input_done_range_final, bl_input_done_range_open. rewrite Hb.
    assert (Hdone : (if bs_range_complete s
        then let? b := bb_input_done_range_final b in Ok (mkBinsLazy (bl_range (bs_binned s)) (Some b) (bl_produce_cnt_zero (bs_binned s)))
        else let? b := bb_input_done_range_open b in Ok (mkBinsLazy (bl_range (bs_binned s)) (Some b) (bl_produce_cnt_zero (bs_binned s)))) =
      @Ok bins_tw_error _ (mkBinsLazy (bl_range (bs_binned s)) (Some b') (bl_produce_cnt_zero (bs_binned s)))).
    { destruct (bs_range_complete s); by rewrite Heq. }
    rewrite Hdone. unfold bl_output. cbn [bl_binned bl_range bl_produce_cnt_zero]. unfold bb_output. rewrite (cb_len_zip _ Hwf), Hz.
    destruct (Nat.eqb_spec (length new) 0) as [Hn|Hn].
    + apply length_zero_iff_nil in Hn as ->. eexists _, _. split; [reflexivity|]. by repeat (split; [done|]).
    + eexists _, _. split; [reflexivity|]. split; [done|]. split; [split; [done|]|]; cbn [bs_out_bins]; rewrite Hz; [by destruct new|done].
  - destruct (A3 eq_refl) as [-> ->]. unfold bl_input_done_range_final, bl_input_done_range_open, bl_output. rewrite Hb.
    eexists _, _. split; [destruct (bs_range_complete s); cbn; rewrite Hb; reflexivity|]. split; [done|]. split; [done|]. apply rebinned_nil.
Qed.

(** A poll: it puts out an item or is not ready, and reads on, or ends. *)
Lemma bs_loop_spec fuel s P O T mk :
  bs_at s P O T mk -> bins_ok L T -> (length (bs_inp s) < fuel)%nat ->
  exists s' P' new flow, bs_loop fuel s = (s', flow) /\
    (bs_at s' P' (O ++ new) T mk /\ (length (bs_inp s') < length (bs_inp s))%nat /\
       (flow = BsBreak Pending /\ new = [] \/ exists o, flow = BsBreak (Ready (Some o)) /\ bs_out_bins o = new /\ bs_out_ok o) \/
     bs_state s' = BsDone /\ exists o, flow = BsBreak (Ready (Some o)) /\ bs_out_bins o = new /\ bs_out_ok o /\ rebinned mk T (O ++ new)).
Proof.
  revert s P O. induction fuel as [|fuel IH]; intros s P O Hat Hok Hf; [lia|]. cbn [bs_loop].
  destruct (bs_inp s) as [|p inp] eqn:Hinp; cbn [length] in *.
  - destruct (bs_end_spec s P O T mk Hat Hok Hinp) as (s' & o & -> & ? & ? & ?).
    eexists s', [], _, _. split; [reflexivity|]. right. split; [done|]. by exists o.
  - destruct (bs_step_spec s P O T mk p inp Hat Hok Hinp) as (s1 & P1 & new & flow & -> & Hat1 & Hinp1 & Hflow).
    destruct flow as [|[[o|]|]|]; try done.
    + subst new. rewrite app_nil_r in Hat1. destruct (IH s1 P1 O Hat1 Hok) as (s' & P' & new & flow & Heq & Hres); [rewrite Hinp1; lia|].
      exists s', P', new, flow. split; [done|]. rewrite Hinp1 in Hres. destruct Hres as [(? & ? & ?)|?]; [left|by right]. split; [done|]. split; [lia|done].
    + destruct Hflow. eexists s1, P1, new, _. split; [reflexivity|]. left. split; [done|]. rewrite Hinp1. split; [lia|]. right. by exists o.
    + subst new. eexists s1, P1, [], _. split; [reflexivity|]. left. split; [done|]. rewrite Hinp1. split; [lia|]. by left.
Qed.

Lemma bs_drain_done polls s : bs_state s = BsDone -> (1 <= polls)%nat -> bs_drain (V := V) (A := A) (L := Lg) (St := St) (E := E) polls s = Some [].
Proof.
  intros Hs Hp. destruct polls as [|polls]; [lia|]. cbn [bs_drain]. unfold bs_poll_next. rewrite Nat.add_1_r. cbn [bs_loop].
  unfold bs_handle_main. by rewrite Hs.
Qed.

Lemma bs_drain_spec n s P O T mk polls :
  bs_at s P O T mk -> bins_ok L T -> (length (bs_inp s) < n)%nat -> (n < polls)%nat ->
  exists outs, bs_drain polls s = Some outs /\ Forall bs_out_ok outs /\ rebinned mk T (O ++ concat (map bs_out_bins outs)).
Proof.
  revert s P O polls. induction n as [|n IH]; intros s P O polls Hat Hok Hn Hp; [lia|]. destruct polls as [|polls]; [lia|].
  cbn [bs_drain]. unfold bs_poll_next.
  destruct (bs_loop_spec (length (bs_inp s) + 1) s P O T mk Hat Hok) as (s' & P' & new & flow & -> & Hres); [lia|].
  destruct Hres as [(Hat' & Hlt & [[-> ->]|(o & -> & <- & Ho')])|(Hd & o & -> & <- & Ho' & Hre)].
  - rewrite app_nil_r in Hat'. apply (IH s' P' O polls Hat' Hok); lia.
  - destruct (IH s' P' _ polls Hat' Hok) as (outs & -> & Hall & Hre); [lia|lia|]. exists (o :: outs). split; [done|].
    split; [by constructor|]. cbn [map concat]. by rewrite app_assoc.
  - rewrite bs_drain_done by (done || lia). exists [o]. split; [done|]. split; [by constructor|]. cbn. by rewrite app_nil_r.
Qed.

(** C4. Binning bins into longer bins. Take a stream of containers, among log and
    stats items and unfinished polls, whose bins follow each other and each lie
    in one cell of the output grid (a finer grid, as the callers check). Polled
    to its end, the stream fails nowhere and puts out, in time order, one bin for
    each cell whose count is not zero: the count is the sum (mod 2^64), the last
    value the one of the last bin, the average the aggregator's result for the
    averages weighted by their lengths, and minimum and maximum are taken from
    the bins, or from the value that held before when the cell is not filled
    from its begin, and bound those of the bins. A bin is final when its inputs
    are, and the range is or the input reaches its end. *)
Theorem bs_rebins inp polls :
  bins_ok L (bs_bins inp) -> Forall bs_poll_ok inp -> (length inp + 1 < polls)%nat ->
  exists outs, bs_drain polls (bs_new range inp) = Some outs /\ Forall bs_out_ok outs /\
    rebinned (existsb bs_poll_marks inp) (bs_bins inp) (concat (map bs_out_bins outs)).
Proof.
  intros Hok Hp Hpolls. apply (bs_drain_spec (length inp + 1) (bs_new range inp) [] []); [|done|cbn; lia|lia].
  split; try done. by apply rb_new_reading.
Qed.

End Stream.
End State.
End RebinProofs.

(** ** An example *)

Definition demo_f32 (n : Z) : F32 := mkF32 (f32_of_u64 n).

(** A bin of [len] milliseconds at [ts1]. *)
Definition demo_bin (ts1 len n v : Z) : Bin F32 F32 :=
  mkBin (ts1 * 1000000) ((ts1 + len) * 1000000) n (demo_f32 v) (demo_f32 (v + 1)) (demo_f32 v) (demo_f32 v) true.

Definition demo_bins (bins : list (Bin F32 F32)) : Poll (BsItem (V := F32) (B := F32) (L := unit) (St := unit) (E := unit)) :=
  Ready (SOk (DataItem (Data (foldl (fun c b =>
    cb_push_back c (bin_ts1 b) (bin_ts2 b) (bin_n b) (bin_min b) (bin_max b) (bin_agg b) (bin_lst b) (bin_fnl b)) cb_new bins)))).

Definition demo_bins_inp : list (Poll (BsItem (V := F32) (B := F32) (L := unit) (St := unit) (E := unit))) :=
  [demo_bins [demo_bin 8 2 1 5; demo_bin 10 5 2 4; demo_bin 15 5 3 8]; Pending; Ready (SOk (Log tt));
   demo_bins [demo_bin 35 5 1 2]; Ready (SOk (DataItem RangeComplete)); demo_bins [demo_bin 40 5 7 16]].

Definition demo_range : BinnedRange TsNano := mkBinnedRange 10000000 1 4.

Lemma bs_rebins_witness :
  exists outs, bs_drain (A := AggBinValTwF32) 20 (bs_new demo_range demo_bins_inp) = Some outs /\
    map (fun x => (bin_ts1 x, bin_n x, bin_fnl x)) (concat (map bs_out_bins outs)) =
      [(10000000, 5, true); (30000000, 1, true); (40000000, 7, true)] /\
    map bin_agg (concat (map bs_out_bins outs)) = [demo_f32 6; demo_f32 2; demo_f32 16] /\
    Forall bs_out_ok outs.
Proof.
  destruct (bs_rebins (A := AggBinValTwF32) demo_range eq_refl (Lg := unit) (St := unit) (E := unit)) with (inp := demo_bins_inp) (polls := 20%nat)
    as (outs & Hd & Hok & _).
  - apply (bool_decide_unpack _); vm_compute; exact I.
  - apply (bool_decide_unpack _); vm_compute; exact I.
  - split.
    + repeat apply List.Forall_cons; try apply List.Forall_nil; (split; [split; vm_compute; congruence|split; vm_compute; congruence]).
    + repeat constructor; vm_compute; congruence.
  - repeat constructor.
  - vm_compute. lia.
  - exists outs. vm_compute in Hd. injection Hd as <-. split; [reflexivity|]. split; [reflexivity|]. split; [|exact Hok]. reflexivity.
Defined.
