(* ===== verification/StreamRun.v ===== *)
(** * Polling a stream to its end

    A stream of the code is a state and a turn of the loop in its [poll_next]. A
    consumer that polls again and again sees a list of polls; that list is what
    the next stream has as its input. *)
From Stdlib Require Import ZArith Lia.
From stdpp Require Import base numbers option strings list.
From S2P Require Import Prelude Items.

#[local] Open Scope nat_scope.

(** What a turn of the loop of a [poll_next] gives. [LoopFuel] is not of the code:
    the turn makes the input of another stream, and the fuel for that was too
    little. *)
Inductive loop_flow (A : Type) : Type :=
  | LoopContinue
  | LoopBreak (p : Poll (option A))
  | LoopPanic
  | LoopFuel.
Arguments LoopContinue {A}.
Arguments LoopBreak {A} p.
Arguments LoopPanic {A}.
Arguments LoopFuel {A}.

(** What a consumer sees of a stream up to its end, which may be a panic. *)
Record PollStream (A : Type) : Type := mkPollStream { ps_polls : list (Poll A); ps_panics : bool }.
Arguments mkPollStream {A}.
Arguments ps_polls {A}.
Arguments ps_panics {A}.

Definition ps_empty {A : Type} : PollStream A := mkPollStream [] false.
Definition ps_cons {A : Type} (p : Poll A) (s : PollStream A) : PollStream A := mkPollStream (p :: ps_polls s) (ps_panics s).
Definition ps_app {A : Type} (l : list (Poll A)) (s : PollStream A) : PollStream A := mkPollStream (l ++ ps_polls s) (ps_panics s).
Definition ps_map {A B : Type} (f : A -> B) (s : PollStream A) : PollStream B :=
  mkPollStream (map (fun p => match p with Ready x => Ready (f x) | Pending => Pending end) (ps_polls s)) (ps_panics s).

Section Run.
  Context {S A : Type} (turn : S -> S * loop_flow A).
  Implicit Types (stop : A -> bool) (r : PollStream A).

(** A poll: turns until one breaks the loop. *)
Fixpoint stream_poll (fuel : nat) (s : S) : option (S * loop_flow A) :=
  match fuel with
  | O => None
  | Datatypes.S fuel =>
      match turn s with
      | (s, LoopContinue) => stream_poll fuel s
      | (s, LoopFuel) => None
      | res => Some res
      end
  end.

(** All polls of a consumer, which goes on unless the stream ends or gives an
    item that makes it [stop]: the turns of its polls one after the other. *)
Fixpoint stream_run (stop : A -> bool) (fuel : nat) (s : S) : option (PollStream A) :=
  match fuel with
  | O => None
  | Datatypes.S fuel =>
      match turn s with
      | (s, LoopContinue) => stream_run stop fuel s
      | (s, LoopBreak Pending) => ps_cons Pending <$> stream_run stop fuel s
      | (s, LoopBreak (Ready None)) => Some ps_empty
      | (s, LoopBreak (Ready (Some x))) =>
          if stop x then Some (mkPollStream [Ready x] false) else ps_cons (Ready x) <$> stream_run stop fuel s
      | (s, LoopPanic) => Some (mkPollStream [] true)
      | (s, LoopFuel) => None
      end
  end.

(** What a number of turns gives, and the state after them unless the consumer
    has left. *)
Fixpoint stream_turns (stop : A -> bool) (n : nat) (s : S) : list (Poll A) * option S :=
  match n with
  | O => ([], Some s)
  | Datatypes.S n =>
      match turn s with
      | (s, LoopContinue) => stream_turns stop n s
      | (s, LoopBreak Pending) => let '(l, o) := stream_turns stop n s in (Pending :: l, o)
      | (s, LoopBreak (Ready None)) => ([], None)
      | (s, LoopBreak (Ready (Some x))) =>
          if stop x then ([Ready x], None) else let '(l, o) := stream_turns stop n s in (Ready x :: l, o)
      | (s, LoopPanic) | (s, LoopFuel) => ([], None)
      end
  end.

Lemma stream_run_mono stop f g s r : stream_run stop f s = Some r -> f <= g -> stream_run stop g s = Some r.
Proof.
  revert g s r. induction f as [|f IH]; intros g s r Hr Hg; [done|]. destruct g as [|g]; [lia|]. cbn [stream_run] in *.
  assert (Hm : forall s' p r', ps_cons p <$> stream_run stop f s' = Some r' -> ps_cons p <$> stream_run stop g s' = Some r').
  { intros s' p r' (r0 & Hr0 & ->)%fmap_Some. rewrite (IH g s' r0 Hr0); [done|lia]. }
  destruct (turn s) as [s' [|[[x|]|]| |]]; auto; [apply IH; [done|lia]|]. destruct (stop x); auto.
Qed.

(** The run is the polls one after the other. *)
Lemma stream_run_poll stop f g s s' fl r :
  stream_poll f s = Some (s', fl) ->
  match fl with
  | LoopBreak (Ready None) => r = ps_empty
  | LoopBreak (Ready (Some x)) =>
      if stop x then r = mkPollStream [Ready x] false else exists r', stream_run stop g s' = Some r' /\ r = ps_cons (Ready x) r'
  | LoopBreak Pending => exists r', stream_run stop g s' = Some r' /\ r = ps_cons Pending r'
  | LoopPanic => r = mkPollStream [] true
  | LoopContinue | LoopFuel => False
  end ->
  stream_run stop (f + g) s = Some r.
Proof.
  revert s. induction f as [|f IH]; intros s Hp Hr; [done|]. cbn [stream_poll stream_run Nat.add] in *.
  assert (Hm : forall p r', stream_run stop g s' = Some r' -> ps_cons p <$> stream_run stop (f + g) s' = Some (ps_cons p r')).
  { intros p r' Hr'. rewrite (stream_run_mono stop g (f + g) s' r' Hr'); [done|lia]. }
  destruct (turn s) as [s1 [|[[x|]|]| |]]; [by apply IH| | | | |done]; injection Hp as -> <-.
  - destruct (stop x); [by subst|]. destruct Hr as (r' & Hr' & ->). by apply Hm.
  - by subst.
  - destruct Hr as (r' & Hr' & ->). by apply Hm.
  - by subst.
Qed.

(** The consumer sees [r] from the state [s] on, with enough fuel. *)
Definition stream_gives (stop : A -> bool) (s : S) (r : PollStream A) : Prop :=
  exists n, forall fuel, n <= fuel -> stream_run stop fuel s = Some r.

Lemma gives_run stop n s r : stream_run stop n s = Some r -> stream_gives stop s r.
Proof. intros Hr. exists n. intros fuel Hf. by eapply stream_run_mono. Qed.

Lemma gives_continue stop s s' r : turn s = (s', LoopContinue) -> stream_gives stop s' r -> stream_gives stop s r.
Proof. intros Ht (n & Hn). apply (gives_run stop (Datatypes.S n)). cbn [stream_run]. rewrite Ht. by apply Hn. Qed.

Lemma gives_pending stop s s' r : turn s = (s', LoopBreak Pending) -> stream_gives stop s' r -> stream_gives stop s (ps_cons Pending r).
Proof. intros Ht (n & Hn). apply (gives_run stop (Datatypes.S n)). cbn [stream_run]. by rewrite Ht, Hn. Qed.

Lemma gives_ready stop s s' x r :
  turn s = (s', LoopBreak (Ready (Some x))) -> stop x = false -> stream_gives stop s' r -> stream_gives stop s (ps_cons (Ready x) r).
Proof. intros Ht Hx (n & Hn). apply (gives_run stop (Datatypes.S n)). cbn [stream_run]. by rewrite Ht, Hx, Hn. Qed.

Lemma gives_stop stop s s' x : turn s = (s', LoopBreak (Ready (Some x))) -> stop x = true -> stream_gives stop s (mkPollStream [Ready x] false).
Proof. intros Ht Hx. apply (gives_run stop 1). cbn [stream_run]. by rewrite Ht, Hx. Qed.

Lemma gives_end stop s s' : turn s = (s', LoopBreak (Ready None)) -> stream_gives stop s ps_empty.
Proof. intros Ht. apply (gives_run stop 1). cbn [stream_run]. by rewrite Ht. Qed.

(** What a run gives is what its turns give. *)
Lemma stream_run_turns stop n s r : stream_run stop n s = Some r -> stream_turns stop n s = (ps_polls r, None).
Proof.
  revert s r. induction n as [|n IH]; intros s r Hr; [done|]. cbn [stream_run stream_turns] in *.
  destruct (turn s) as [s' [|[[x|]|]| |]]; [by apply IH| | | | |done].
  - destruct (stop x); [by simplify_eq/=|]. apply fmap_Some in Hr as (r' & Hr' & ->). by rewrite (IH s' r' Hr').
  - by simplify_eq/=.
  - apply fmap_Some in Hr as (r' & Hr' & ->). by rewrite (IH s' r' Hr').
  - by simplify_eq/=.
Qed.

(** An invariant of the first [N] turns. *)
Lemma stream_turns_inv stop (N : nat) (I : nat -> list (Poll A) -> S -> Prop) (Q : list (Poll A) -> Prop) k n out s :
  (forall k out s, I k out s -> Q out) ->
  (forall k out s s' fl, k < N -> I k out s -> turn s = (s', fl) ->
     match fl with
     | LoopContinue => I (Datatypes.S k) out s'
     | LoopBreak Pending => I (Datatypes.S k) (out ++ [Pending]) s'
     | LoopBreak (Ready (Some x)) => if stop x then Q (out ++ [Ready x]) else I (Datatypes.S k) (out ++ [Ready x]) s'
     | LoopBreak (Ready None) | LoopPanic | LoopFuel => True
     end) ->
  I k out s -> k + n <= N -> Q (out ++ (stream_turns stop n s).1).
Proof.
  intros HQ Hstep. revert k out s. induction n as [|n IH]; intros k out s Hi Hn; cbn [stream_turns].
  { cbn. rewrite app_nil_r. by eapply HQ. }
  destruct (turn s) as [s' fl] eqn:Ht. specialize (Hstep k out s s' fl ltac:(lia) Hi Ht). destruct fl as [|[[x|]|]| |].
  - by apply (IH (Datatypes.S k)); [|lia].
  - destruct (stop x); [done|]. specialize (IH (Datatypes.S k) _ _ Hstep ltac:(lia)). destruct (stream_turns stop n s') as [l o].
    by rewrite <- app_assoc in IH.
  - cbn. rewrite app_nil_r. by eapply HQ.
  - specialize (IH (Datatypes.S k) _ _ Hstep ltac:(lia)). destruct (stream_turns stop n s') as [l o]. by rewrite <- app_assoc in IH.
  - cbn. rewrite app_nil_r. by eapply HQ.
  - cbn. rewrite app_nil_r. by eapply HQ.
Qed.

End Run.

(** With turns that agree unless the fuel of the first is too little. *)
Lemma stream_run_turn_mono {S A} (t u : S -> S * loop_flow A) stop fuel s r :
  (forall s s' fl, t s = (s', fl) -> fl <> LoopFuel -> u s = (s', fl)) -> stream_run t stop fuel s = Some r -> stream_run u stop fuel s = Some r.
Proof.
  intros Htu. revert s r. induction fuel as [|fuel IH]; intros s r Hr; [done|]. cbn [stream_run] in *. destruct (t s) as [s' fl] eqn:Ht.
  destruct fl as [|[[x|]|]| |]; [rewrite (Htu _ _ _ Ht) by done..|done]; try done.
  - by apply IH.
  - destruct (stop x); [done|]. apply fmap_Some in Hr as (r' & Hr' & ->). by rewrite (IH s' r' Hr').
  - apply fmap_Some in Hr as (r' & Hr' & ->). by rewrite (IH s' r' Hr').
Qed.
