(* ===== verification/CacheReader.v ===== *)
(** * Reading cached bins

    [CacheUsage] of [daqbuf-netpod/src/query.rs], [BinningOptions] and the choice
    of the next finer bin length of [daqbuf-streams/src/timebin] ([opts.rs],
    [grid.rs]), and the stream [CachedReader] of [cached/reader.rs], which asks
    the cache for the bins of a range patch by patch. What the cache answers is a
    parameter. *)
From Stdlib Require Import ZArith Lia.
From stdpp Require Import base numbers option strings list sorting.
From S2P Require Import Prelude Items TimeTypes Msp Ranges Events Bins StreamRun.

#[local] Open Scope Z_scope.
#[local] Open Scope rust_scope.

(** ** [CacheUsage] *)

Inductive CacheUsage : Type := CuRead | CuUse | CuIgnore | CuRecreate | CuV0NoCache.

#[export] Instance CacheUsage_eq_dec : EqDecision CacheUsage.
Proof. solve_decision. Defined.

(** Of the errors of [netpod.rs] those that are used here. *)
Inductive query_error : Type :=
  | BadCacheUsage (s : string)
  | InputBad.

Definition cu_query_param_value (u : CacheUsage) : string :=
  match u with
  | CuRead => "read"
  | CuUse => "use"
  | CuIgnore => "ignore"
  | CuRecreate => "recreate"
  | CuV0NoCache => "v0nocache"
  end%string.

(** [pairs] is the lookup in the query pairs; a missing parameter is no error. *)
Definition cu_from_pairs (pairs : string -> option string) : outcome query_error (option CacheUsage) :=
  match pairs "cacheUsage"%string with
  | Some k =>
      if String.eqb k "read" then Ok (Some CuRead)
      else if String.eqb k "use" then Ok (Some CuUse)
      else if String.eqb k "ignore" then Ok (Some CuIgnore)
      else if String.eqb k "recreate" then Ok (Some CuRecreate)
      else if String.eqb k "v0nocache" then Ok (Some CuV0NoCache)
      else Err (BadCacheUsage k)
  | None => Ok None
  end.

Definition cu_from_string (s : string) : outcome query_error CacheUsage :=
  if String.eqb s "read" then Ok CuRead
  else if String.eqb s "use" then Ok CuUse
  else if String.eqb s "ignore" then Ok CuIgnore
  else if String.eqb s "recreate" then Ok CuRecreate
  else if String.eqb s "v0nocache" then Ok CuV0NoCache
  else Err InputBad.

Definition cu_is_cache_write (u : CacheUsage) : bool :=
  match u with
  | CuRead => false
  | CuUse => true
  | CuIgnore => false
  | CuRecreate => true
  | CuV0NoCache => false
  end.

Definition cu_is_cache_read (u : CacheUsage) : bool :=
  match u with
  | CuRead => true
  | CuUse => true
  | CuIgnore => false
  | CuRecreate => false
  | CuV0NoCache => false
  end.

(** ** [BinningOptions] *)

Record BinningOptions : Type := mkBinningOptions {
  bo_cache_usage : CacheUsage;
  bo_allow_from_events : bool;
  bo_allow_from_prebinned : bool;
  bo_allow_rebin : bool;
  bo_pbd_enable : bool;
  bo_pbd_rts_pbp_block : list (list Z);
  bo_pbd_evs : bool
}.

(** The fields of [BinnedQuery] that matter here. *)
Record BinnedQueryOpts : Type := mkBinnedQueryOpts {
  bq_cache_usage : option CacheUsage;
  bq_allow_from_events : option bool;
  bq_allow_from_prebinned : option bool;
  bq_allow_rebin : option bool;
  bq_pbd_enable : option bool;
  bq_pbd_rts_pbp_block : option (list (list Z));
  bq_pbd_evs : option bool
}.

Definition CacheUsage_default : CacheUsage := CuIgnore.

Definition bo_default : BinningOptions := mkBinningOptions CacheUsage_default true true true false [] false.
Definition bo_testing_no_events : BinningOptions := mkBinningOptions CacheUsage_default false true true false [] false.
Definition bo_from_query (q : BinnedQueryOpts) : BinningOptions :=
  mkBinningOptions (default CacheUsage_default (bq_cache_usage q)) (default true (bq_allow_from_events q))
    (default true (bq_allow_from_prebinned q)) (default true (bq_allow_rebin q)) (default false (bq_pbd_enable q))
    (default [] (bq_pbd_rts_pbp_block q)) (default false (bq_pbd_evs q)).

(** ** The grid of bin lengths *)

Fixpoint next_finer_loop (bl : DtMs) (layers : list DtMs) : option DtMs :=
  match layers with
  | [] => None
  | l :: layers => if l <? bl then Some l else next_finer_loop bl layers
  end.

(** The list is sorted, finer lengths first. *)
Definition find_next_finer_bin_len (bl : DtMs) (layers : list DtMs) : option DtMs := next_finer_loop bl (rev layers).

Lemma next_finer_loop_lt bl layers l : next_finer_loop bl layers = Some l -> l ∈ layers /\ l < bl.
Proof.
  induction layers as [|a layers IH]; [done|]. cbn [next_finer_loop]. destruct (Z.ltb_spec a bl) as [Hlt|Hge].
  - intros [= <-]. split; [by left|done].
  - intros Hl. destruct (IH Hl). split; [by right|done].
Qed.

(** On a sorted list it is the longest length below [bl]. *)
Lemma find_next_finer_spec bl layers :
  StronglySorted Z.le layers ->
  match find_next_finer_bin_len bl layers with
  | Some l => l ∈ layers /\ l < bl /\ Forall (fun x => x < bl -> x <= l) layers
  | None => Forall (fun x => bl <= x) layers
  end.
Proof.
  unfold find_next_finer_bin_len. induction layers as [|a layers IH] using rev_ind; intros Hs; [by apply Forall_nil|].
  rewrite rev_app_distr. cbn [rev app next_finer_loop]. apply sorted_app_inv in Hs as (Hs & _ & Hle).
  destruct (Z.ltb_spec a bl) as [Hlt|Hge].
  - split; [apply elem_of_app; right; by left|]. split; [done|]. apply Forall_app. split; [|by apply Forall_singleton].
    apply Forall_forall. intros x Hx _. apply Hle; [done|by left].
  - specialize (IH Hs). destruct (next_finer_loop bl (rev layers)) as [l|].
    + destruct IH as (? & ? & Hf). split; [apply elem_of_app; by left|]. split; [done|]. apply Forall_app. split; [done|].
      apply Forall_singleton. lia.
    + apply Forall_app. split; [done|by apply Forall_singleton].
Qed.

(** ** [CachedReader] *)

Inductive cr_error : Type :=
  | CrTodoImpl
  | CrChannelSend
  | CrChannelRecv
  | CrScylla (s : string)
  | CrPrebinnedPartitioningInvalid (e : msp_error).

(** [CacheReadProvider::read]: series, bin length, patch and places in the patch;
    how often the answer is not ready yet, and the answer. *)
Definition CacheReads (V B : Type) : Type := Z -> DtMs -> Z -> Z * Z -> nat * outcome cr_error (option (ContainerBins V B)).

Section CachedReader.
  Context {V B : Type} (read : CacheReads V B).

Record CachedReader : Type := mkCachedReader {
  cdr_series : Z;
  cdr_range : BinnedRange TsNano;
  cdr_ts1next : TsNano;
  cdr_bin_len : DtMs;
  cdr_reading : option (nat * outcome cr_error (option (ContainerBins V B)))
}.

Definition cdr_new (series : Z) (range : BinnedRange TsNano) : CachedReader :=
  mkCachedReader series range (br_nano_beg range) (TsNano_to_dt_ms (bin_len range)) None.

Definition cdr_set_reading (s : CachedReader) (r : option (nat * outcome cr_error (option (ContainerBins V B)))) : CachedReader :=
  mkCachedReader (cdr_series s) (cdr_range s) (cdr_ts1next s) (cdr_bin_len s) r.

(** The next request: the places in the patch of [ts1next], up to the end of the
    patch or of the range, and where to go on after it. *)
Definition cdr_next_request {E} (s : CachedReader) (partt : PrebinnedPartitioning) : outcome E (Z * (Z * Z) * TsNano) :=
  let binlen := DtMs_ns (cdr_bin_len s) in
  let div := DtMs_ns (pbp_patch_dt partt) in
  let? msp := u_div (cdr_ts1next s) div in
  let? off1 := u_div (u64_sub (cdr_ts1next s) (u64_mul div msp)) binlen in
  let? off2 := u_div (u64_sub (br_nano_end (cdr_range s)) (u64_mul div msp)) binlen in
  let off2 := Z.min (pbp_patch_len partt) (wrap 32 off2) in
  let ts1next := TsNano_from_ns (u64_add (u64_mul binlen off2) (u64_mul div msp)) in
  Ok (msp, (wrap 32 off1, off2), ts1next).

(** A turn of the loop in [poll_next]. *)
Definition cdr_turn (s : CachedReader) : CachedReader * loop_flow (cr_error + ContainerBins V B) :=
  match cdr_reading s with
  | Some (S n, x) => (cdr_set_reading s (Some (n, x)), LoopBreak Pending)
  | Some (O, x) =>
      let s := cdr_set_reading s None in
      match x with
      | Ok (Some bins) => (s, LoopBreak (Ready (Some (inr bins))))
      | Ok None => (s, LoopContinue)
      | Err e => (s, LoopBreak (Ready (Some (inl e))))
      | Panic => (s, LoopPanic)
      end
  | None =>
      if cdr_ts1next s <? br_nano_end (cdr_range s) then
        match pbp_try_from (br_bin_len_dt_ms (cdr_range s)) with
        | Ok partt =>
            match cdr_next_request (E := cr_error) s partt with
            | Ok (msp, offs, ts1next) =>
                let fut := read (cdr_series s) (cdr_bin_len s) msp offs in
                (mkCachedReader (cdr_series s) (cdr_range s) ts1next (cdr_bin_len s) (Some fut), LoopContinue)
            | _ => (s, LoopPanic)
            end
        | _ => (s, LoopBreak (Ready None))
        end
      else (s, LoopBreak (Ready None))
  end.

Definition cdr_poll_next (fuel : nat) (s : CachedReader) := stream_poll cdr_turn fuel s.

(** Polled to its end; errors do not end the stream. *)
Definition cdr_run (fuel : nat) (s : CachedReader) : option (PollStream (cr_error + ContainerBins V B)) :=
  stream_run cdr_turn (fun _ => false) fuel s.

(** ** What is asked for *)

Section Tile.
  Context (p : PrebinnedPartitioning).
Local Abbreviation P := (pbp_patch_len p).

Lemma pbp_try_from_len : pbp_try_from (pbp_bin_len p) = Ok p.
Proof. by destruct p. Qed.

(** The requests for the bins from number [k] on, up to [e]. *)
Fixpoint cr_requests (fuel : nat) (k e : Z) : list (Z * (Z * Z)) :=
  match fuel with
  | O => []
  | S fuel =>
      if k <? e then
        let m := k / P in
        let o2 := Z.min P (e - m * P) in
        (m, (k mod P, o2)) :: cr_requests fuel (m * P + o2) e
      else []
  end.

(** The numbers of the bins of a request. *)
Definition cr_request_bins (r : Z * (Z * Z)) : list Z := let '(m, (o1, o2)) := r in seqZ (m * P + o1) (o2 - o1).

(** The requests ask for each bin once, in order, and stay within a patch. *)
Lemma cr_requests_tile fuel k e :
  (Z.to_nat (e - k) <= fuel)%nat -> 0 <= k <= e ->
  concat (map cr_request_bins (cr_requests fuel k e)) = seqZ k (e - k) /\
  Forall (fun '(m, (o1, o2)) => 0 <= m /\ 0 <= o1 < o2 /\ o2 <= P) (cr_requests fuel k e).
Proof.
  pose proof (pbp_patch_len_bound p) as HP. revert k. induction fuel as [|fuel IH]; intros k Hf Hk.
  { replace (e - k) with 0 by lia. by split. }
  cbn [cr_requests]. destruct (Z.ltb_spec k e) as [Hlt|Hge]; [|replace (e - k) with 0 by lia; by split].
  pose proof (Z.div_mod k P ltac:(lia)) as Hdm. pose proof (Z.mod_pos_bound k P ltac:(lia)) as Hmod.
  assert (0 <= k / P) by (apply Z.div_pos; lia). set (m := k / P) in *. set (o1 := k mod P) in *.
  set (o2 := Z.min P (e - m * P)) in *. destruct (IH (m * P + o2)) as [IH1 IH2]; [nia|nia|].
  cbn [map concat cr_request_bins]. rewrite IH1. split.
  - replace (m * P + o1) with k by lia.
    replace (m * P + o2) with (k + (o2 - o1)) by lia.
    rewrite <- seqZ_app by lia. f_equal. lia.
  - constructor; [|done]. lia.
Qed.

(** The polls that an answer makes. *)
Definition cr_reply (x : nat * outcome cr_error (option (ContainerBins V B))) : list (Poll (cr_error + ContainerBins V B)) :=
  repeat Pending x.1 ++ match x.2 with Ok (Some c) => [Ready (inr c)] | Err e => [Ready (inl e)] | _ => [] end.

Lemma cdr_reading_gives s n x out :
  cdr_reading s = Some (n, x) -> x <> Panic -> stream_gives cdr_turn (fun _ => false) (cdr_set_reading s None) out ->
  stream_gives cdr_turn (fun _ => false) s (ps_app (cr_reply (n, x)) out).
Proof.
  revert s. induction n as [|n IH]; intros s Hs Hx Hg.
  - destruct x as [[c|]|e|]; [| | |done]; unfold cr_reply, ps_app; cbn [repeat fst snd app].
    + apply (gives_ready _ _ _ (cdr_set_reading s None) (inr c) out); [by unfold cdr_turn; rewrite Hs|done|done].
    + apply (gives_continue _ _ _ (cdr_set_reading s None)); [by unfold cdr_turn; rewrite Hs|by destruct out].
    + apply (gives_ready _ _ _ (cdr_set_reading s None) (inl e) out); [by unfold cdr_turn; rewrite Hs|done|done].
  - apply (gives_pending _ _ _ (cdr_set_reading s (Some (n, x))) (ps_app (cr_reply (n, x)) out)); [by unfold cdr_turn; rewrite Hs|].
    by apply IH.
Qed.

Context (series : Z) (range : BinnedRange TsNano).
Hypothesis Hlen : bin_len range = 1000000 * pbp_bin_len p.
Hypothesis Hoff : 0 <= bin_off range /\ 0 <= bin_cnt range.
Hypothesis Hcnt : bin_cnt range + P < 2 ^ 32.
Hypothesis H64 : bin_len range * (bin_off range + bin_cnt range) < 2 ^ 64.

(** What the reader asks for, with the answer. *)
Definition cr_answer (r : Z * (Z * Z)) : nat * outcome cr_error (option (ContainerBins V B)) :=
  let '(m, offs) := r in read series (pbp_bin_len p) m offs.

Record cdr_at (s : CachedReader) (k : Z) : Prop := {
  ca_series : cdr_series s = series;
  ca_range : cdr_range s = range;
  ca_next : cdr_ts1next s = bin_len range * k;
  ca_len : cdr_bin_len s = pbp_bin_len p
}.

Lemma cr_len_pos : 0 < bin_len range.
Proof. pose proof (pbp_bin_len_pos p). lia. Qed.

Lemma cdr_next_request_spec {E} s k :
  cdr_at s k -> bin_off range <= k < bin_off range + bin_cnt range ->
  let m := k / P in let o2 := Z.min P (bin_off range + bin_cnt range - m * P) in
  cdr_next_request (E := E) s p = Ok (m, (k mod P, o2), bin_len range * (m * P + o2)).
Proof.
  intros [_ Hr Hn Hl] Hk m o2. pose proof cr_len_pos as HL. pose proof (pbp_patch_len_bound p) as HP.
  unfold cdr_next_request. rewrite Hr, Hn, Hl. unfold br_nano_end, DtMs_ns. rewrite pbp_patch_dt_eq.
  set (b := pbp_bin_len p) in *. set (L := bin_len range) in *. set (e := bin_off range + bin_cnt range) in *.
  pose proof (Z.div_mod k P ltac:(lia)) as Hdm. pose proof (Z.mod_pos_bound k P ltac:(lia)) as Hmod. fold m in Hdm.
  assert (Hm0 : 0 <= m) by (apply Z.div_pos; lia).
  assert (HmL : 0 <= L * (m * P) <= L * k) by nia. assert (HkL : L * k < L * e) by nia.
  assert (HL64 : L < 2 ^ 64) by nia. rewrite (u64_mul_small 1000000 b) by lia. rewrite <- Hlen. fold L.
  assert (HPL : u64_mul 1000000 (b * P) = L * P).
  { destruct p; cbn in *; subst L; rewrite Hlen; reflexivity. }
  rewrite HPL. assert (HPL0 : 0 < L * P) by nia.
  rewrite u_div_ok by lia. cbn [and_then].
  assert (Hmsp : L * k / (L * P) = m) by (rewrite Z.div_mul_cancel_l by lia; done). rewrite Hmsp.
  rewrite (u64_mul_small (L * P) m) by nia. rewrite (u64_sub_small (L * k)) by nia.
  rewrite u_div_ok by lia. cbn [and_then].
  assert (Ho1 : (L * k - L * P * m) / L = k mod P).
  { replace (L * k - L * P * m) with (k mod P * L) by nia. apply Z.div_mul. lia. }
  rewrite Ho1. rewrite (u64_add_small (bin_off range)) by nia. fold e. rewrite (u64_mul_small L e) by nia.
  rewrite (u64_sub_small (L * e)) by nia. rewrite u_div_ok by lia. cbn [and_then].
  assert (Ho2 : (L * e - L * P * m) / L = e - m * P).
  { replace (L * e - L * P * m) with ((e - m * P) * L) by lia. apply Z.div_mul. lia. }
  rewrite Ho2. rewrite !wrap_small by (unfold in_u; nia). fold o2.
  rewrite (u64_mul_small L o2) by nia. rewrite u64_add_small by nia. f_equal. f_equal. unfold TsNano_from_ns. lia.
Qed.

Lemma cdr_gives fuel k s :
  cdr_at s k -> cdr_reading s = None -> bin_off range <= k <= bin_off range + bin_cnt range ->
  (Z.to_nat (bin_off range + bin_cnt range - k) <= fuel)%nat ->
  let reqs := cr_requests fuel k (bin_off range + bin_cnt range) in
  Forall (fun r => (cr_answer r).2 <> Panic) reqs ->
  stream_gives cdr_turn (fun _ => false) s (mkPollStream (concat (map (fun r => cr_reply (cr_answer r)) reqs)) false).
Proof.
  pose proof cr_len_pos as HL. pose proof (pbp_patch_len_bound p) as HP.
  revert k s. induction fuel as [|fuel IH]; intros k s Hat Hrd Hk Hf reqs Hok; subst reqs; cbn [cr_requests] in *.
  - apply (gives_end _ _ s s). unfold cdr_turn. rewrite Hrd. destruct Hat as [_ -> -> _].
    unfold br_nano_end. rewrite u64_add_small, u64_mul_small by nia. by rewrite (proj2 (Z.ltb_ge _ _)) by nia.
  - destruct (Z.ltb_spec k (bin_off range + bin_cnt range)) as [Hlt|Hge].
    + set (m := k / P) in *. set (o2 := Z.min P (bin_off range + bin_cnt range - m * P)) in *.
      inversion Hok as [|? ? Hx Hok']; subst. cbn [map concat].
      set (s1 := mkCachedReader series range (bin_len range * (m * P + o2)) (pbp_bin_len p) (Some (cr_answer (m, (k mod P, o2))))).
      pose proof (Z.div_mod k P ltac:(lia)) as Hdm. pose proof (Z.mod_pos_bound k P ltac:(lia)) as Hmod. fold m in Hdm.
      apply (gives_continue _ _ _ s1).
      * pose proof (cdr_next_request_spec (E := cr_error) s k Hat ltac:(lia)) as Hreq. cbv zeta in Hreq. fold m o2 in Hreq.
        assert (Hd : br_bin_len_dt_ms range = pbp_bin_len p).
        { unfold br_bin_len_dt_ms, TsNano_to_dt_ms, DtMs_from_ms_u64, TsNano_ms. rewrite Hlen, Z.mul_comm. by apply Z.div_mul. }
        destruct Hat as [Hs Hr Hn Hl]. unfold cdr_turn. rewrite Hrd, Hr, Hn, Hd, pbp_try_from_len, Hreq, Hs, Hl.
        unfold br_nano_end. rewrite u64_add_small, u64_mul_small by nia. by rewrite (proj2 (Z.ltb_lt _ _)) by nia.
      * destruct (cr_answer (m, (k mod P, o2))) as [n x] eqn:Ha.
        apply (cdr_reading_gives s1 n x (mkPollStream _ false)); [done|done|].
        apply (IH (m * P + o2)); [by split|done|nia|nia|done].
    + apply (gives_end _ _ s s). unfold cdr_turn. rewrite Hrd. destruct Hat as [_ -> -> _].
      unfold br_nano_end. rewrite u64_add_small, u64_mul_small by nia. by rewrite (proj2 (Z.ltb_ge _ _)) by nia.
Qed.

(** The reader of cached bins asks the cache for every bin of the range
    exactly once, in time order, with requests that stay within a patch of the
    partitioning; polled to its end it gives the answers in the order of the
    requests, an error not excepted, and ends. *)
Theorem cdr_reads_range :
  let e := bin_off range + bin_cnt range in
  let reqs := cr_requests (Z.to_nat (bin_cnt range)) (bin_off range) e in
  concat (map cr_request_bins reqs) = seqZ (bin_off range) (bin_cnt range) /\
  Forall (fun '(m, (o1, o2)) => 0 <= m /\ 0 <= o1 < o2 /\ o2 <= P) reqs /\
  (Forall (fun r => (cr_answer r).2 <> Panic) reqs ->
   exists n, forall fuel, (n <= fuel)%nat ->
     cdr_run fuel (cdr_new series range) = Some (mkPollStream (concat (map (fun r => cr_reply (cr_answer r)) reqs)) false)).
Proof.
  intros e reqs. pose proof cr_len_pos as HL. destruct (cr_requests_tile (Z.to_nat (bin_cnt range)) (bin_off range) e) as [H1 H2]; [lia..|].
  split; [by replace (bin_cnt range) with (e - bin_off range) by lia|]. split; [done|]. intros Hok.
  apply (cdr_gives (Z.to_nat (bin_cnt range)) (bin_off range)); try done; [|lia|lia].
  split; [done|done| |].
  - cbn. unfold br_nano_beg. apply u64_mul_small. nia.
  - cbn. unfold TsNano_to_dt_ms, DtMs_from_ms_u64, TsNano_ms. rewrite Hlen, Z.mul_comm. by apply Z.div_mul.
Qed.

End Tile.
End CachedReader.

(** ** An example *)

(** A container of the bins number [k] to [k + n - 1] of a grid, an event in each. *)
Definition grid_container {V} (v : V) (l k n : Z) : ContainerBins V V :=
  foldl (fun c i => cb_push_back c (l * i) (l * (i + 1)) 1 v v v v true) cb_new (seqZ k n).

Lemma grid_container_spec {V} (v : V) l k n :
  cb_wf (grid_container v l k n) /\
  cb_zip_iter_2 (grid_container v l k n) = map (fun i => mkBin (l * i) (l * (i + 1)) 1 v v v v true) (seqZ k n).
Proof.
  unfold grid_container. induction (seqZ k n) as [|i idx IH] using rev_ind; [split; [apply cb_new_wf|done]|].
  rewrite foldl_app, map_app. cbn [foldl map]. destruct IH as [Hw Hz]. split; [by apply cb_push_back_wf|]. by rewrite cb_push_back_zip, Hz.
Qed.

(** A cache that answers at the second poll, and has only the second of the bins
    that are asked for. *)
Definition example_cache {V} (v : V) : CacheReads V V := fun series bl m offs =>
  (1%nat, match pbp_try_from bl with
          | Ok p =>
              if offs.1 + 1 <? offs.2 then Ok (Some (grid_container v (1000000 * bl) (m * pbp_patch_len p + offs.1 + 1) 1)) else Ok None
          | _ => Err CrTodoImpl
          end).

Lemma cdr_reads_range_witness :
  let range := mkBinnedRange 10000000000 715 12 in
  cr_requests Sec10 12 715 727 = [(0, (715, 720)); (1, (0, 7))] /\
  exists n, forall fuel, (n <= fuel)%nat -> cdr_run (example_cache 5) fuel (cdr_new 3 range) =
    Some (mkPollStream [Pending; Ready (inr (grid_container 5 10000000000 716 1)); Pending; Ready (inr (grid_container 5 10000000000 721 1))] false).
Proof.
  split; [reflexivity|].
  refine (proj2 (proj2 (cdr_reads_range (example_cache 5) Sec10 3 (mkBinnedRange 10000000000 715 12) _ _ _ _)) _); try (vm_compute; congruence).
  - split; vm_compute; congruence.
  - repeat constructor; vm_compute; congruence.
Defined.
