(* ===== verification/Timeweight.v ===== *)
(** * Time-weighted binning of events

    [BinnedEventsTimeweight] of
    [daqbuf-items-2/src/binning/timeweight/timeweight_events.rs]: events come in
    containers; each bin gets the count, the minimum, the maximum, the last value
    and the average weighted by the time a value held.

    A method that fails leaves no state: the stream that owns the binner ends
    with the error. [VERIFY_INPUT_EVENTS] is false, its block is left out;
    [DEBUG_CHECKS] is true. *)
From Stdlib Require Import ZArith Lia.
From stdpp Require Import base numbers option strings list sorting.
From S2P Require Import Prelude TimeTypes Ranges Events Bins Floats.

#[local] Open Scope Z_scope.
#[local] Open Scope rust_scope.

Definition OUT_LEN_MAX : Z := 10000.

(** The variants that carry a text are without it. *)
Inductive tw_error : Type :=
  | TwUnordered
  | TwEventAfterRange
  | TwNoLstAfterFirst
  | TwNoLstButMinMax
  | TwNoMinMaxAfterInit
  | TwIngestNoProgress (n1 n2 : nat)
  | TwEventActiveRangeBefore
  | TwEventActiveRangeAfter
  | TwEventActiveRangeLE.

Inductive IngestReport : Type := ConsumedAll | ConsumedPart (n : nat).

Section Timeweight.
  Context {V A B : Type} `{EventValueType V} `{AggregatorTimeWeight V A B}.

(** [EventSingle], and the pair of the events with the least and the greatest value. *)
Definition EventSingle : Type := Z * V.
Definition MinMax : Type := EventSingle * EventSingle.

Record InnerB : Type := mkInnerB {
  ib_cnt : Z;
  ib_active_beg : TsNano;
  ib_active_end : TsNano;
  ib_active_len : DtNano;
  ib_filled_until : TsNano;
  ib_filled_width : DtNano;
  ib_agg : A
}.

Record InnerA : Type := mkInnerA { ia_inner_b : InnerB; ia_minmax : option MinMax }.

(** ** Within a bin *)

Definition ib_inc_cnt (b : InnerB) : InnerB :=
  mkInnerB (u64_add (ib_cnt b) 1) (ib_active_beg b) (ib_active_end b) (ib_active_len b) (ib_filled_until b)
    (ib_filled_width b) (ib_agg b).

(** The aggregator gets the last value for the time up to [ts]. *)
Definition ib_ingest_up_to (b : InnerB) (ts : TsNano) (lst : EventSingle) : InnerB :=
  let dt := TsNano_delta ts (ib_filled_until b) in
  mkInnerB (ib_cnt b) (ib_active_beg b) (ib_active_end b) (ib_active_len b) ts
    (DtNano_add (ib_filled_width b) dt) (agg_ingest (ib_agg b) dt (ib_active_len b) lst.2).

Definition ib_ingest_event_with_lst_gt_range_beg_agg (b : InnerB) (ev lst : EventSingle) : outcome tw_error InnerB :=
  if ev.1 <=? ib_active_beg b then Panic
  else if ib_active_end b <=? ev.1 then Panic
  else Ok (ib_ingest_up_to b ev.1 lst).

(** The new last event is returned next to the inner state. *)
Definition ib_ingest_event_with_lst_gt_range_beg_2 (b : InnerB) (ev lst : EventSingle) : outcome tw_error (InnerB * EventSingle) :=
  let? b := ib_ingest_event_with_lst_gt_range_beg_agg b ev lst in
  Ok (b, ev).

Definition ia_apply_min_max (ev : EventSingle) (minmax : MinMax) : MinMax :=
  let '(mn, mx) := minmax in
  let mn := match ev_cmp_a ev.2 mn.2 with Some Lt => ev | _ => mn end in
  let mx := match ev_cmp_a ev.2 mx.2 with Some Gt => ev | _ => mx end in
  (mn, mx).

Definition ia_apply_min_max_range_beg (ev : EventSingle) : MinMax := (ev, ev).

Definition ib_ingest_event_with_lst_gt_range_beg (b : InnerB) (ev lst : EventSingle) (minmax : MinMax)
    : outcome tw_error (InnerB * EventSingle * MinMax) :=
  let minmax := ia_apply_min_max ev minmax in
  let? (b, lst) := ib_ingest_event_with_lst_gt_range_beg_2 b ev lst in
  Ok (b, lst, minmax).

Definition ib_ingest_event_with_lst_eq_range_beg (b : InnerB) (ev lst : EventSingle) (minmax : MinMax)
    : outcome tw_error (InnerB * EventSingle * MinMax) :=
  Ok (b, ev, ia_apply_min_max_range_beg ev).

(** The [while let] loops take an event per turn, the cursor's length of them. *)
Fixpoint ib_gt_loop (fuel : nat) (b : InnerB) (evs : TakeUpTo V) (lst : EventSingle) (minmax : MinMax)
    : outcome tw_error (InnerB * TakeUpTo V * EventSingle * MinMax) :=
  match fuel with
  | O => Panic
  | S fuel =>
      match tk_next evs with
      | (evs, Some ev) =>
          if ev.1 <=? ib_active_beg b then Err TwEventActiveRangeLE
          else if ib_active_end b <=? ev.1 then Err TwEventActiveRangeAfter
          else
            let? (b, lst, minmax) := ib_ingest_event_with_lst_gt_range_beg b ev lst minmax in
            ib_gt_loop fuel (ib_inc_cnt b) evs lst minmax
      | (evs, None) => Ok (b, evs, lst, minmax)
      end
  end.

Definition ib_ingest_with_lst_gt_range_beg (b : InnerB) (evs : TakeUpTo V) (lst : EventSingle) (minmax : MinMax) :=
  ib_gt_loop (tk_len evs + 1) b evs lst minmax.

Fixpoint ib_ge_loop (fuel : nat) (b : InnerB) (evs : TakeUpTo V) (lst : EventSingle) (minmax : MinMax)
    : outcome tw_error (InnerB * TakeUpTo V * EventSingle * MinMax) :=
  match fuel with
  | O => Panic
  | S fuel =>
      match tk_next evs with
      | (evs, Some ev) =>
          let? _ := assert (ib_active_beg b <=? ev.1) in
          let? _ := assert (ev.1 <? ib_active_end b) in
          if ev.1 =? ib_active_beg b then
            let? (b, lst, minmax) := ib_ingest_event_with_lst_eq_range_beg b ev lst minmax in
            ib_ge_loop fuel (ib_inc_cnt b) evs lst minmax
          else
            let? (b, lst, minmax) := ib_ingest_event_with_lst_gt_range_beg b ev lst minmax in
            Ok (ib_inc_cnt b, evs, lst, minmax)
      | (evs, None) => Ok (b, evs, lst, minmax)
      end
  end.

Definition ib_ingest_with_lst_ge_range_beg (b : InnerB) (evs : TakeUpTo V) (lst : EventSingle) (minmax : MinMax) :=
  let? (b, evs, lst, minmax) := ib_ge_loop (tk_len evs + 1) b evs lst minmax in
  ib_ingest_with_lst_gt_range_beg b evs lst minmax.

Definition ib_ingest_with_lst_minmax (b : InnerB) (evs : TakeUpTo V) (lst : EventSingle) (minmax : MinMax)
    : outcome tw_error (InnerB * TakeUpTo V * EventSingle * MinMax) :=
  match tk_ts_first evs with
  | Some ts0 =>
      if ts0 <? ib_active_beg b then Err TwEventActiveRangeBefore
      else if ib_active_end b <=? ts0 then Err TwEventActiveRangeAfter
      else ib_ingest_with_lst_ge_range_beg b evs lst minmax
  | None => Ok (b, evs, lst, minmax)
  end.

Definition ib_fill_until (b : InnerB) (ts : TsNano) (lst : EventSingle) : outcome tw_error InnerB :=
  let? _ := assert (ib_filled_until b <? ts) in
  let? _ := assert (ts <=? ib_active_end b) in
  Ok (ib_ingest_up_to b ts lst).

Definition ia_init_minmax (ev : EventSingle) : MinMax := (ev, ev).
Definition ia_init_minmax_with_lst (ev lst : EventSingle) : MinMax := ia_apply_min_max ev (lst, lst).

Definition ia_ingest_with_lst (a : InnerA) (evs : TakeUpTo V) (lst : EventSingle)
    : outcome tw_error (InnerA * TakeUpTo V * EventSingle) :=
  let b := ia_inner_b a in
  match ia_minmax a with
  | Some minmax =>
      let? (b, evs, lst, minmax) := ib_ingest_with_lst_minmax b evs lst minmax in
      Ok (mkInnerA b (Some minmax), evs, lst)
  | None =>
      match tk_next evs with
      | (evs, Some ev) =>
          if ev.1 <? ib_active_beg b then Err TwEventActiveRangeBefore
          else if ib_active_end b <=? ev.1 then Err TwEventActiveRangeAfter
          else if ev.1 =? ib_active_beg b then
            Ok (mkInnerA (ib_inc_cnt b) (Some (ia_init_minmax ev)), evs, ev)
          else
            let minmax := ia_init_minmax_with_lst ev lst in
            let? (b, lst) := ib_ingest_event_with_lst_gt_range_beg_2 b ev lst in
            let? (b, evs, lst, minmax) := ib_ingest_with_lst_minmax (ib_inc_cnt b) evs lst minmax in
            Ok (mkInnerA b (Some minmax), evs, lst)
      | (evs, None) => Ok (a, evs, lst)
      end
  end.

(** ** From bin to bin *)

Definition ia_reset_01 (a : InnerA) (lst : EventSingle) : outcome tw_error InnerA :=
  let b := ia_inner_b a in
  let div := DtNano_ns (ib_active_len b) in
  let old_end := ib_active_end b in
  let? q := u_div (TsNano_ns (ib_active_end b)) div in
  let ts1 := TsNano_from_ns (u64_mul q div) in
  let? _ := assert (ts1 =? old_end) in
  Ok (mkInnerA (mkInnerB 0 ts1 (TsNano_add_dt_nano ts1 (ib_active_len b)) (ib_active_len b) ts1 (DtNano_from_ns 0) (ib_agg b))
        (Some (lst, lst))).

Definition ia_push_out_and_reset (a : InnerA) (lst : EventSingle) (range_final : bool) (out : ContainerBins V B)
    : outcome tw_error (InnerA * ContainerBins V B) :=
  let b := ia_inner_b a in
  let minmax := default (lst, lst) (ia_minmax a) in
  let filled_width_fraction := DtNano_fraction_f32_of (ib_filled_width b) (ib_active_len b) in
  let '(agg, res) := agg_result_and_reset_for_new_bin (ib_agg b) filled_width_fraction in
  let out := cb_push_back out (ib_active_beg b) (ib_active_end b) (ib_cnt b) minmax.1.2 minmax.2.2 res lst.2 range_final in
  let b := mkInnerB (ib_cnt b) (ib_active_beg b) (ib_active_end b) (ib_active_len b) (ib_filled_until b) (ib_filled_width b) agg in
  let? a := ia_reset_01 (mkInnerA b (Some minmax)) lst in
  Ok (a, out).

Record BinnedEventsTimeweight : Type := mkTw {
  tw_range : BinnedRange TsNano;
  tw_produce_cnt_zero : bool;
  tw_lst : option EventSingle;
  tw_inner_a : InnerA;
  tw_out : ContainerBins V B;
  tw_continue_output : bool
}.

Definition tw_new (range : BinnedRange TsNano) : BinnedEventsTimeweight :=
  let active_beg := br_nano_beg range in
  let active_end := TsNano_add_dt_nano active_beg (TsNano_to_dt_nano (bin_len range)) in
  let active_len := TsNano_delta active_end active_beg in
  mkTw range false None
    (mkInnerA (mkInnerB 0 active_beg active_end active_len active_beg (DtNano_from_ns 0) agg_new) None) cb_new false.

Definition tw_cnt_zero_enable (s : BinnedEventsTimeweight) : BinnedEventsTimeweight :=
  mkTw (tw_range s) true (tw_lst s) (tw_inner_a s) (tw_out s) (tw_continue_output s).

Definition tw_set_inner (s : BinnedEventsTimeweight) (a : InnerA) : BinnedEventsTimeweight :=
  mkTw (tw_range s) (tw_produce_cnt_zero s) (tw_lst s) a (tw_out s) (tw_continue_output s).
Definition tw_set_inner_out (s : BinnedEventsTimeweight) (a : InnerA) (out : ContainerBins V B) : BinnedEventsTimeweight :=
  mkTw (tw_range s) (tw_produce_cnt_zero s) (tw_lst s) a out (tw_continue_output s).
Definition tw_set_inner_lst (s : BinnedEventsTimeweight) (a : InnerA) (lst : EventSingle) : BinnedEventsTimeweight :=
  mkTw (tw_range s) (tw_produce_cnt_zero s) (Some lst) a (tw_out s) (tw_continue_output s).
Definition tw_set_continue (s : BinnedEventsTimeweight) (c : bool) : BinnedEventsTimeweight :=
  mkTw (tw_range s) (tw_produce_cnt_zero s) (tw_lst s) (tw_inner_a s) (tw_out s) c.

Definition tw_ingest_event_without_lst (s : BinnedEventsTimeweight) (ev : EventSingle) : outcome tw_error BinnedEventsTimeweight :=
  let b := ia_inner_b (tw_inner_a s) in
  if ev.1 <? ib_active_beg b then
    Ok (tw_set_inner_lst s (mkInnerA b (Some (ia_init_minmax ev))) ev)
  else if ib_active_end b <=? ev.1 then Err TwEventActiveRangeAfter
  else
    let b := ib_inc_cnt b in
    let b := mkInnerB (ib_cnt b) (ib_active_beg b) (ib_active_end b) (ib_active_len b) ev.1 (ib_filled_width b) (ib_agg b) in
    Ok (tw_set_inner_lst s (mkInnerA b (Some (ia_init_minmax ev))) ev).

Definition tw_ingest_without_lst (s : BinnedEventsTimeweight) (evs : TakeUpTo V)
    : outcome tw_error (BinnedEventsTimeweight * TakeUpTo V) :=
  match tk_next evs with
  | (evs, Some ev) =>
      let? _ := assert (ev.1 <? ib_active_end (ia_inner_b (tw_inner_a s))) in
      let? s := tw_ingest_event_without_lst s ev in
      match tw_lst s with
      | Some lst =>
          let? (a, evs, lst) := ia_ingest_with_lst (tw_inner_a s) evs lst in
          Ok (tw_set_inner_lst s a lst, evs)
      | None => Err TwNoLstAfterFirst
      end
  | (evs, None) => Ok (s, evs)
  end.

Definition tw_ingest_ordered (s : BinnedEventsTimeweight) (evs : TakeUpTo V)
    : outcome tw_error (BinnedEventsTimeweight * TakeUpTo V) :=
  match tw_lst s with
  | Some lst =>
      let? (a, evs, lst) := ia_ingest_with_lst (tw_inner_a s) evs lst in
      Ok (tw_set_inner_lst s a lst, evs)
  | None =>
      match ia_minmax (tw_inner_a s) with
      | Some _ => Err TwNoLstButMinMax
      | None => tw_ingest_without_lst s evs
      end
  end.

(** The loop of [cycle_01] that produces all bins up to [ts]; it asserts the
    number of its turns. *)
Fixpoint tw_cycle_loop (fuel : nat) (s : BinnedEventsTimeweight) (ts : TsNano) (lst : EventSingle)
    : outcome tw_error BinnedEventsTimeweight :=
  match fuel with
  | O => Panic
  | S fuel =>
      let b := ia_inner_b (tw_inner_a s) in
      if OUT_LEN_MAX <? Z.of_nat (cb_len (tw_out s)) then Ok s
      else if ib_filled_until b <? ts then
        if ib_active_end b <=? ts then
          let? b := (if ib_filled_until b <? ib_active_end b then ib_fill_until b (ib_active_end b) lst else Ok b) in
          let? (a, out) := ia_push_out_and_reset (mkInnerA b (ia_minmax (tw_inner_a s))) lst true (tw_out s) in
          tw_cycle_loop fuel (tw_set_inner_out s a out) ts lst
        else
          let? b := ib_fill_until b ts lst in
          tw_cycle_loop fuel (tw_set_inner s (mkInnerA b (ia_minmax (tw_inner_a s)))) ts lst
      else Ok s
  end.

(** The turns that pass the assertion on their number. *)
Definition tw_cycle_turns : nat := Z.to_nat (3 * OUT_LEN_MAX - 1).

(** Starting the bin that contains [ts]. *)
Definition tw_jump (s : BinnedEventsTimeweight) (ts : TsNano) (div : Z) : outcome tw_error BinnedEventsTimeweight :=
  let b := ia_inner_b (tw_inner_a s) in
  let? q := u_div (TsNano_ns ts) div in
  let ts1 := TsNano_from_ns (u64_mul q div) in
  let b := mkInnerB 0 ts1 (TsNano_add_dt_nano ts1 (ib_active_len b)) (ib_active_len b) ts1 (DtNano_from_ns 0)
             (agg_reset_for_new_bin (ib_agg b)) in
  Ok (tw_set_inner s (mkInnerA b (ia_minmax (tw_inner_a s)))).

(** One bin, when empty bins are not produced. *)
Definition tw_cycle_one (s : BinnedEventsTimeweight) (ts : TsNano) (lst : EventSingle) : outcome tw_error BinnedEventsTimeweight :=
  let b := ia_inner_b (tw_inner_a s) in
  if ib_filled_until b <? ts then
    if ib_active_end b <=? ts then
      let? b := (if ib_filled_until b <? ib_active_end b then ib_fill_until b (ib_active_end b) lst else Ok b) in
      let? (a, out) := ia_push_out_and_reset (mkInnerA b (ia_minmax (tw_inner_a s))) lst true (tw_out s) in
      Ok (tw_set_inner_out s a out)
    else
      let? b := ib_fill_until b ts lst in
      Ok (tw_set_inner s (mkInnerA b (ia_minmax (tw_inner_a s))))
  else Ok s.

Definition tw_cycle_01 (s : BinnedEventsTimeweight) (ts : TsNano) : outcome tw_error BinnedEventsTimeweight :=
  let b := ia_inner_b (tw_inner_a s) in
  let? _ := assert (ib_active_beg b <? ts) in
  let? _ := assert (ib_active_beg b <=? ib_filled_until b) in
  let? _ := assert (ib_filled_until b <? ts) in
  let? _ := assert (ib_filled_until b <=? ib_active_end b) in
  let div := DtNano_ns (ib_active_len b) in
  match tw_lst s with
  | Some lst =>
      if tw_produce_cnt_zero s then tw_cycle_loop tw_cycle_turns s ts lst
      else
        let? s := tw_cycle_one s ts lst in
        tw_jump s ts div
  | None =>
      let? _ := assert (bool_decide (ia_minmax (tw_inner_a s) = None)) in
      tw_jump s ts div
  end.

Definition tw_cycle_02 (s : BinnedEventsTimeweight) : outcome tw_error BinnedEventsTimeweight :=
  match tw_lst s with
  | Some lst =>
      let? (a, out) := ia_push_out_and_reset (tw_inner_a s) lst false (tw_out s) in
      Ok (tw_set_inner_out s a out)
  | None => Ok s
  end.

(** ** Ingest and output *)

Fixpoint tw_ingest_loop (fuel : nat) (s : BinnedEventsTimeweight) (evs : TakeUpTo V) (nconsumed : nat)
    : outcome tw_error (BinnedEventsTimeweight * IngestReport) :=
  match fuel with
  | O => Panic
  | S fuel =>
      match tk_ts_first evs with
      | Some ts =>
          let b := ia_inner_b (tw_inner_a s) in
          if br_nano_end (tw_range s) <=? ts then Err TwEventAfterRange
          else
            let cycles := ib_active_end b <=? ts in
            let? s := (if cycles then
                         let? _ := assert (ib_filled_until b <? ib_active_end b) in
                         tw_cycle_01 s ts
                       else Ok s) in
            if cycles && (OUT_LEN_MAX <? Z.of_nat (cb_len (tw_out s))) then Ok (s, ConsumedPart nconsumed)
            else
              let n1 := tk_len evs in
              let? evs := tk_constrain_up_to_ts evs (ib_active_end (ia_inner_b (tw_inner_a s))) in
              let? (s, evs) :=
                match tw_lst s with
                | Some lst => if ts <? lst.1 then Err TwUnordered else tw_ingest_ordered s evs
                | None => tw_ingest_ordered s evs
                end in
              let evs := tk_extend_to_all evs in
              let n2 := tk_len evs in
              if (n2 =? 0)%nat then Ok (s, ConsumedAll)
              else if (n1 <=? n2)%nat then Err (TwIngestNoProgress n1 n2)
              else tw_ingest_loop fuel s evs (nconsumed + (n1 - n2))
      | None => Ok (s, ConsumedAll)
      end
  end.

Definition tw_ingest (s : BinnedEventsTimeweight) (evs : ContainerEvents V) : outcome tw_error (BinnedEventsTimeweight * IngestReport) :=
  tw_ingest_loop (ce_len evs + 1) s (tk_new evs) 0.

Definition tw_input_done_range_final (s : BinnedEventsTimeweight) : outcome tw_error BinnedEventsTimeweight :=
  let? s := tw_cycle_01 s (br_nano_end (tw_range s)) in
  if OUT_LEN_MAX <? Z.of_nat (cb_len (tw_out s)) then Ok (tw_set_continue s true) else Ok s.

Definition tw_input_done_range_open (s : BinnedEventsTimeweight) : outcome tw_error BinnedEventsTimeweight := tw_cycle_02 s.

Definition tw_output_len (s : BinnedEventsTimeweight) : nat := cb_len (tw_out s).

Definition tw_output (s : BinnedEventsTimeweight) : outcome tw_error (BinnedEventsTimeweight * ContainerBins V B) :=
  let ret := tw_out s in
  let s := tw_set_inner_out s (tw_inner_a s) cb_new in
  if tw_continue_output s then
    let? s := tw_cycle_01 (tw_set_continue s false) (br_nano_end (tw_range s)) in
    Ok (s, ret)
  else Ok (s, ret).

End Timeweight.
