(* ===== verification/TimeweightProofs.v ===== *)
(** * The bins of the time-weighted binner

    A reference that takes the events bin by bin ([ref_bins]): a bin averages
    over the pieces of time in which a value held. The binner, which takes
    containers cut anywhere and produces bins while it goes, gives the bins of
    the reference. The state of the binner is a function [state_of] of a small
    pure state, on which the steps are shown. *)
From Stdlib Require Import ZArith Lia.
From stdpp Require Import base numbers option strings list sorting.
From S2P Require Import Prelude TimeTypes Ranges Events Bins Floats Timeweight.

#[local] Open Scope Z_scope.
#[local] Open Scope rust_scope.

Section Reference.
  Context {V A B : Type} `{EventValueType V} `{AggregatorTimeWeightLaws V A B}.
Implicit Types (ev lst : Z * V) (E : list (Z * V)) (segs : list (Z * V)).

(** ** Bins of the reference *)

(** The pieces of a bin [[b, e)] filled up to [fu], in which [v] holds, with the
    events [E] to come: each event ends a piece; an event on the left edge only
    replaces the value. *)
Fixpoint seg_run (b e fu : Z) (v : V) (E : list (Z * V)) : list (Z * V) :=
  match E with
  | [] => [(e - fu, v)]
  | (t, w) :: E => if t =? b then seg_run b e fu w E else (t - fu, v) :: seg_run b e t w E
  end.

(** Least and greatest value: an event on the left edge starts over. *)
Definition mm_event (b : Z) (mm : MinMax (V := V)) (ev : Z * V) : MinMax :=
  if ev.1 =? b then (ev, ev) else ia_apply_min_max ev mm.

Definition agg_of (L : Z) (segs : list (Z * V)) : A := foldl (fun a s => agg_ingest a s.1 L s.2) agg_new segs.
Definition width_of (segs : list (Z * V)) : Z := foldr (fun s w => s.1 + w) 0 segs.

Definition bin_of (L b : Z) (cnt : Z) (mm : MinMax (V := V)) (segs : list (Z * V)) (lst : Z * V) : Bin V B :=
  mkBin b (b + L) cnt mm.1.2 mm.2.2
    (agg_result_and_reset_for_new_bin (agg_of L segs) (DtNano_fraction_f32_of (width_of segs) L)).2 lst.2 true.

(** A bin that the binner enters while it looks at an event gets the time up to
    that event as a piece of its own. *)
Definition segs_from (L b : Z) (crossed : bool) (v : V) (E : list (Z * V)) : list (Z * V) :=
  match E with
  | e0 :: _ => if crossed && (b <? e0.1) then (e0.1 - b, v) :: seg_run b (b + L) e0.1 v E
               else seg_run b (b + L) b v E
  | [] => seg_run b (b + L) b v E
  end.

Definition n_of (E : list (Z * V)) : Z := wrap 64 (Z.of_nat (length E)).

(** The bin at [b] with the events [E], after the event [lst0] if any. *)
Definition ref_bin (L b : Z) (crossed : bool) (lst0 : option (Z * V)) (E : list (Z * V)) : list (Bin V B) :=
  match lst0 with
  | Some l => [bin_of L b (n_of E) (foldl (mm_event b) (l, l) E) (segs_from L b crossed l.2 E) (default l (last E))]
  | None =>
      match E with
      | [] => []
      | e0 :: E' => [bin_of L b (n_of E) (foldl (mm_event b) (e0, e0) E') (seg_run b (b + L) e0.1 e0.2 E') (default e0 (last E))]
      end
  end.

Fixpoint ref_bins (n : nat) (L b : Z) (crossed : bool) (lst0 : option (Z * V)) (evs : list (Z * V)) : list (Bin V B) :=
  match n with
  | O => []
  | S n =>
      let k := partition_point (fun t => t <? b + L) evs.*1 in
      let E := take k evs in
      ref_bin L b crossed lst0 E ++ ref_bins n L (b + L) true (match last E with Some e => Some e | None => lst0 end) (drop k evs)
  end.

(** ** The pure state *)

Record PState : Type := mkP {
  p_b : Z;
  p_fu : Z;
  p_lst : Z * V;
  p_mm : MinMax (V := V);
  p_cnt : Z;
  p_segs : list (Z * V);
  p_bins : list (Bin V B)
}.

Definition p_event (P : PState) (ev : Z * V) : PState :=
  if ev.1 =? p_b P then mkP (p_b P) (p_fu P) ev (ev, ev) (u64_add (p_cnt P) 1) (p_segs P) (p_bins P)
  else mkP (p_b P) ev.1 ev (ia_apply_min_max ev (p_mm P)) (u64_add (p_cnt P) 1)
         (p_segs P ++ [(ev.1 - p_fu P, (p_lst P).2)]) (p_bins P).

Definition p_fill (t : Z) (P : PState) : PState :=
  mkP (p_b P) t (p_lst P) (p_mm P) (p_cnt P) (p_segs P ++ [(t - p_fu P, (p_lst P).2)]) (p_bins P).

Definition p_close (L : Z) (P : PState) : PState :=
  mkP (p_b P + L) (p_b P + L) (p_lst P) (p_lst P, p_lst P) 0 []
    (p_bins P ++ [bin_of L (p_b P) (p_cnt P) (p_mm P) (p_segs P ++ [(p_b P + L - p_fu P, (p_lst P).2)]) (p_lst P)]).

Definition p_enter (t : Z) (P : PState) : PState := if p_fu P <? t then p_fill t P else P.

Definition p_cross (L t : Z) (P : PState) : PState :=
  p_enter t (Nat.iter (Z.to_nat ((t - p_b P) / L)) (p_close L) P).

Definition p_step (L : Z) (P : PState) (ev : Z * V) : PState :=
  p_event (if p_b P + L <=? ev.1 then p_cross L ev.1 P else P) ev.

(** The time line of the state: on the grid, filled within the bin. *)
Record p_ok (L : Z) (P : PState) : Prop := {
  pk_beg : 0 <= p_b P;
  pk_grid : (L | p_b P);
  pk_fu : p_b P <= p_fu P < p_b P + L;
  pk_width : 0 <= width_of (p_segs P) <= p_fu P - p_b P
}.

Lemma width_of_snoc segs s : width_of (segs ++ [s]) = width_of segs + s.1.
Proof. unfold width_of. induction segs as [|x l IH]; simpl; lia. Qed.

Lemma agg_of_snoc L segs s : agg_of L (segs ++ [s]) = agg_ingest (agg_of L segs) s.1 L s.2.
Proof. unfold agg_of. by rewrite foldl_app. Qed.

Lemma p_event_ok L P ev : 0 < L -> p_ok L P -> p_fu P <= ev.1 < p_b P + L -> p_ok L (p_event P ev).
Proof.
  intros HL [K1 K2 K3 K4] Hev. unfold p_event. destruct (Z.eqb_spec ev.1 (p_b P)); split; cbn; try done; [lia|].
  rewrite width_of_snoc. cbn. lia.
Qed.

Lemma p_event_frame P ev : p_b (p_event P ev) = p_b P /\ p_bins (p_event P ev) = p_bins P /\ p_lst (p_event P ev) = ev.
Proof. unfold p_event. by destruct (ev.1 =? p_b P). Qed.

Lemma p_close_ok L P : 0 < L -> p_ok L P -> p_ok L (p_close L P).
Proof.
  intros HL [K1 K2 K3 K4]. split; cbn; [lia| |lia|lia]. by apply Z.divide_add_r; [|apply Z.divide_refl].
Qed.

Lemma p_enter_ok L t P : p_ok L P -> p_b P <= t < p_b P + L -> p_ok L (p_enter t P) /\ p_b (p_enter t P) = p_b P /\ p_fu (p_enter t P) <= Z.max t (p_fu P).
Proof.
  intros [K1 K2 K3 K4] Ht. unfold p_enter. destruct (Z.ltb_spec (p_fu P) t); [|split; [by split|split; [done|lia]]].
  split; [|cbn; split; [done|lia]]. split; cbn; try done; try rewrite width_of_snoc; cbn; lia.
Qed.

(** ** The state of the binner *)

Definition cb_of (bins : list (Bin V B)) : ContainerBins V B :=
  foldl (fun c b => cb_push_back c (bin_ts1 b) (bin_ts2 b) (bin_n b) (bin_min b) (bin_max b) (bin_agg b) (bin_lst b) (bin_fnl b))
    cb_new bins.

Lemma cb_of_snoc bins b :
  cb_of (bins ++ [b]) = cb_push_back (cb_of bins) (bin_ts1 b) (bin_ts2 b) (bin_n b) (bin_min b) (bin_max b) (bin_agg b) (bin_lst b) (bin_fnl b).
Proof. unfold cb_of. by rewrite foldl_app. Qed.

Lemma cb_of_spec bins : cb_wf (cb_of bins) /\ cb_zip_iter_2 (cb_of bins) = bins.
Proof.
  induction bins as [|b bins [Hw Hz]] using rev_ind; [split; [apply cb_new_wf|done]|].
  rewrite cb_of_snoc. split; [by apply cb_push_back_wf|]. rewrite cb_push_back_zip, Hz by done. by destruct b.
Qed.

Lemma cb_of_len bins : cb_len (cb_of bins) = length bins.
Proof. destruct (cb_of_spec bins) as [Hw Hz]. by rewrite <- (cb_zip_length _ Hw), Hz. Qed.

Definition inner_of (L : Z) (P : PState) : InnerB :=
  mkInnerB (p_cnt P) (p_b P) (p_b P + L) L (p_fu P) (width_of (p_segs P)) (agg_of L (p_segs P)).

Definition state_of (range : BinnedRange TsNano) (P : PState) : BinnedEventsTimeweight (V := V) (A := A) (B := B) :=
  mkTw range true (Some (p_lst P)) (mkInnerA (inner_of (bin_len range) P) (Some (p_mm P))) (cb_of (p_bins P)) false.

(** Filling: the aggregator gets the piece. *)
Lemma ib_ingest_up_to_of L P t :
  0 < L -> p_ok L P -> p_fu P <= t <= p_b P + L -> p_b P + L < 2 ^ 64 ->
  ib_ingest_up_to (inner_of L P) t (p_lst P) = inner_of L (p_fill t P).
Proof.
  intros HL [K1 K2 K3 K4] Ht Hb. unfold ib_ingest_up_to, inner_of, p_fill, TsNano_delta, DtNano_add.
  cbn [ib_cnt ib_active_beg ib_active_end ib_active_len ib_filled_until ib_filled_width ib_agg p_b p_fu p_cnt p_segs].
  rewrite width_of_snoc, agg_of_snoc. cbn [fst snd].
  by rewrite u64_sub_small, u64_add_small by lia.
Qed.

(** ** Events within a bin *)

Definition in_bin (L : Z) (P : PState) (E : list (Z * V)) : Prop :=
  StronglySorted Z.le E.*1 /\ Forall (fun e => p_fu P <= e.1 < p_b P + L) E.

Lemma p_event_fu L P ev : p_ok L P -> p_fu P <= ev.1 -> p_fu (p_event P ev) = ev.1.
Proof. intros [K1 K2 K3 K4] Hev. unfold p_event. destruct (Z.eqb_spec ev.1 (p_b P)); cbn; lia. Qed.

Lemma in_bin_cons L P ev E :
  0 < L -> p_ok L P -> in_bin L P (ev :: E) ->
  p_fu P <= ev.1 < p_b P + L /\ p_ok L (p_event P ev) /\ in_bin L (p_event P ev) E.
Proof.
  intros HL Hok [Hs Hf]. inversion Hf as [|? ? Hev Hf']; subst. split; [done|]. split; [by apply p_event_ok|].
  rewrite fmap_cons in Hs. inversion Hs as [|? ? Hs' Hall]; subst. split; [done|].
  rewrite (p_event_fu L P ev Hok) by lia. destruct (p_event_frame P ev) as (-> & _ & _).
  rewrite Forall_fmap in Hall. rewrite Forall_forall in *. intros e He. specialize (Hf' e He). specialize (Hall e He).
  simpl in Hall. lia.
Qed.

Lemma in_bin_foldl L P E :
  0 < L -> p_ok L P -> in_bin L P E ->
  p_ok L (foldl p_event P E) /\ p_b (foldl p_event P E) = p_b P /\ p_bins (foldl p_event P E) = p_bins P.
Proof.
  intros HL. revert P. induction E as [|ev E IH]; intros P Hok Hin; [done|]. cbn [foldl].
  destruct (in_bin_cons L P ev E HL Hok Hin) as (_ & Hok' & Hin').
  destruct (IH _ Hok' Hin') as (? & -> & ->). destruct (p_event_frame P ev) as (? & ? & _). done.
Qed.

Lemma gt_event L P ev :
  0 < L -> p_ok L P -> p_fu P <= ev.1 < p_b P + L -> p_b P + L < 2 ^ 64 -> p_b P < ev.1 ->
  ib_ingest_event_with_lst_gt_range_beg (inner_of L P) ev (p_lst P) (p_mm P) =
    Ok (inner_of L (p_fill ev.1 P), ev, ia_apply_min_max ev (p_mm P)) /\
  ib_inc_cnt (inner_of L (p_fill ev.1 P)) = inner_of L (p_event P ev) /\
  p_lst (p_event P ev) = ev /\ p_mm (p_event P ev) = ia_apply_min_max ev (p_mm P).
Proof.
  intros HL Hok Hev Hb Hgt. unfold ib_ingest_event_with_lst_gt_range_beg, ib_ingest_event_with_lst_gt_range_beg_2,
    ib_ingest_event_with_lst_gt_range_beg_agg. cbn [inner_of ib_active_beg ib_active_end].
  rewrite (proj2 (Z.leb_gt _ _)), (proj2 (Z.leb_gt _ _)) by lia. cbn [and_then].
  fold (inner_of L P). rewrite (ib_ingest_up_to_of L P ev.1) by (done || lia).
  split; [done|]. unfold p_event. rewrite (proj2 (Z.eqb_neq _ _)) by lia. done.
Qed.

Lemma eq_event L P ev :
  ev.1 = p_b P ->
  ib_inc_cnt (inner_of L P) = inner_of L (p_event P ev) /\
  p_lst (p_event P ev) = ev /\ p_mm (p_event P ev) = ia_apply_min_max_range_beg ev.
Proof. intros He. unfold p_event. by rewrite (proj2 (Z.eqb_eq _ _)). Qed.

(** What an ingest of the visible events leaves. *)
Definition ingested (L : Z) (P : PState) (evs : TakeUpTo V) (r : outcome tw_error (InnerB * TakeUpTo V * EventSingle * MinMax)) : Prop :=
  let P' := foldl p_event P (tk_vis evs) in
  exists evs', r = Ok (inner_of L P', evs', p_lst P', p_mm P') /\ tk_inv evs' /\ tk_evs evs' = tk_evs evs /\
    tk_end evs' = tk_end evs /\ tk_pos evs' = tk_end evs.

Lemma tk_vis_nil (evs : TakeUpTo V) : tk_inv evs -> tk_vis evs = [] -> tk_pos evs = tk_end evs.
Proof. intros Hinv Hv. pose proof (tk_vis_length evs Hinv) as Hl. rewrite Hv in Hl. destruct Hinv as [_ ?]. unfold tk_len in Hl. simpl in Hl. lia. Qed.

Lemma ingested_cons L P evs evs' ev E r :
  tk_vis evs = ev :: E -> tk_evs evs' = tk_evs evs -> tk_end evs' = tk_end evs -> tk_vis evs' = E ->
  ingested L (p_event P ev) evs' r -> ingested L P evs r.
Proof.
  intros Hv He Hend Hv' (evs2 & Hr & ? & ? & ? & ?). unfold ingested. rewrite Hv. cbn [foldl].
  exists evs2. rewrite Hv' in Hr. split; [done|]. split; [done|]. split; [congruence|]. split; congruence.
Qed.

Lemma gt_loop_spec L fuel P evs :
  0 < L -> p_ok L P -> p_b P + L < 2 ^ 64 -> tk_inv evs -> in_bin L P (tk_vis evs) ->
  Forall (fun e => p_b P < e.1) (tk_vis evs) -> (tk_len evs < fuel)%nat ->
  ingested L P evs (ib_gt_loop fuel (inner_of L P) evs (p_lst P) (p_mm P)).
Proof.
  intros HL. revert P evs. induction fuel as [|fuel IH]; intros P evs Hok Hb Hinv Hin Hgt Hf; [lia|].
  pose proof (tk_next_spec evs Hinv) as Hn. pose proof (tk_vis_length evs Hinv) as Hlen. cbn [ib_gt_loop].
  destruct (tk_vis evs) as [|ev E] eqn:Hv.
  { rewrite Hn. exists evs. rewrite Hv. split; [done|]. split; [done|]. split; [done|]. split; [done|]. by apply tk_vis_nil. }
  destruct Hn as (evs' & -> & Hinv' & He & Hend & Hv' & Hpos).
  destruct (in_bin_cons L P ev E HL Hok Hin) as (Hev & Hok' & Hin'). inversion Hgt as [|? ? Hgt1 Hgt']; subst.
  destruct (gt_event L P ev HL Hok Hev Hb Hgt1) as (Heq & Hinc & Hl & Hm).
  cbn [inner_of ib_active_beg ib_active_end]. fold (inner_of L P).
  rewrite (proj2 (Z.leb_gt _ _)), (proj2 (Z.leb_gt _ _)) by lia. rewrite Heq. cbn [and_then].
  rewrite Hinc. rewrite <- Hm. rewrite <- Hl at 2.
  eapply ingested_cons; [exact Hv|exact He|exact Hend|reflexivity|].
  destruct (p_event_frame P ev) as (Hpb & _ & _). apply IH; try done; [by rewrite Hpb|by rewrite Hpb|].
  pose proof (tk_vis_length evs' Hinv'). simpl in Hlen. lia.
Qed.

Lemma ge_loop_spec L fuel P evs :
  0 < L -> p_ok L P -> p_b P + L < 2 ^ 64 -> tk_inv evs -> in_bin L P (tk_vis evs) -> (tk_len evs < fuel)%nat ->
  ingested L P evs
    (let? (b, evs, lst, minmax) := ib_ge_loop fuel (inner_of L P) evs (p_lst P) (p_mm P) in
     ib_ingest_with_lst_gt_range_beg b evs lst minmax).
Proof.
  intros HL. revert P evs. induction fuel as [|fuel IH]; intros P evs Hok Hb Hinv Hin Hf; [lia|].
  pose proof (tk_next_spec evs Hinv) as Hn. pose proof (tk_vis_length evs Hinv) as Hlen. cbn [ib_ge_loop].
  destruct (tk_vis evs) as [|ev E] eqn:Hv.
  { rewrite Hn. cbn [and_then]. apply gt_loop_spec; try done; [by rewrite Hv|rewrite Hv; constructor|lia]. }
  destruct Hn as (evs' & -> & Hinv' & He & Hend & Hv' & Hpos).
  destruct (in_bin_cons L P ev E HL Hok Hin) as (Hev & Hok' & Hin').
  destruct (p_event_frame P ev) as (Hpb & _ & _). pose proof (pk_fu _ _ Hok) as Hfu.
  cbn [inner_of ib_active_beg ib_active_end]. fold (inner_of L P).
  rewrite (proj2 (Z.leb_le _ _)), (proj2 (Z.ltb_lt _ _)) by lia. cbn [assert and_then].
  pose proof (tk_vis_length evs' Hinv') as Hlen'. rewrite Hv' in Hlen'. simpl in Hlen.
  destruct (Z.eqb_spec ev.1 (p_b P)) as [Heq|Hne].
  - destruct (eq_event L P ev Heq) as (Hinc & Hl & Hm). unfold ib_ingest_event_with_lst_eq_range_beg. cbn [and_then].
    rewrite Hinc, <- Hm. rewrite <- Hl at 2. eapply ingested_cons; [exact Hv|exact He|exact Hend|exact Hv'|].
    apply IH; try done; [by rewrite Hpb|by rewrite Hv'|lia].
  - destruct (gt_event L P ev HL Hok Hev Hb) as (Heq & Hinc & Hl & Hm); [lia|]. rewrite Heq. cbn [and_then].
    rewrite Hinc, <- Hm. rewrite <- Hl at 2. eapply ingested_cons; [exact Hv|exact He|exact Hend|exact Hv'|].
    apply gt_loop_spec; try done; [by rewrite Hpb|by rewrite Hv'| |lia].
    rewrite Hv', Hpb. destruct Hin' as [_ Hall]. eapply Forall_impl; [exact Hall|].
    intros e [Hle _]. rewrite (p_event_fu L P ev Hok) in Hle by lia. lia.
Qed.

Lemma ingest_with_lst_minmax_spec L P evs :
  0 < L -> p_ok L P -> p_b P + L < 2 ^ 64 -> tk_inv evs -> in_bin L P (tk_vis evs) ->
  ingested L P evs (ib_ingest_with_lst_minmax (inner_of L P) evs (p_lst P) (p_mm P)).
Proof.
  intros HL Hok Hb Hinv Hin. unfold ib_ingest_with_lst_minmax. rewrite tk_ts_first_spec by done.
  destruct (tk_vis evs) as [|ev E] eqn:Hv; cbn [fmap list_fmap head].
  - exists evs. rewrite Hv. split; [done|]. split; [done|]. split; [done|]. split; [done|]. by apply tk_vis_nil.
  - destruct (in_bin_cons L P ev E HL Hok Hin) as (Hev & _ & _). pose proof (pk_fu _ _ Hok) as Hfu.
    cbn [inner_of ib_active_beg ib_active_end]. fold (inner_of L P).
    rewrite (proj2 (Z.ltb_ge _ _)), (proj2 (Z.leb_gt _ _)) by lia.
    apply ge_loop_spec; try done; [by rewrite Hv|lia].
Qed.

(** ** From bin to bin *)

Lemma grid_div L x : 0 < L -> (L | x) -> x / L * L = x.
Proof. intros HL [k ->]. by rewrite Z.div_mul by lia. Qed.

Lemma push_out_spec L P :
  0 < L -> p_ok L P -> p_b P + 2 * L < 2 ^ 64 ->
  ia_push_out_and_reset (mkInnerA (inner_of L (p_fill (p_b P + L) P)) (Some (p_mm P))) (p_lst P) true (cb_of (p_bins P)) =
    Ok (mkInnerA (inner_of L (p_close L P)) (Some (p_mm (p_close L P))), cb_of (p_bins (p_close L P))).
Proof.
  intros HL [K1 K2 K3 K4] Hb. unfold ia_push_out_and_reset, ia_reset_01.
  cbn [ia_inner_b ia_minmax default inner_of p_fill ib_cnt ib_active_beg ib_active_end ib_active_len ib_filled_until
    ib_filled_width ib_agg p_b p_fu p_cnt p_segs].
  pose proof (agg_result_reset_new (agg_of L (p_segs P ++ [(p_b P + L - p_fu P, (p_lst P).2)]))
    (DtNano_fraction_f32_of (width_of (p_segs P ++ [(p_b P + L - p_fu P, (p_lst P).2)])) L)) as Hreset.
  unfold p_close. cbn [p_b p_mm p_bins]. rewrite cb_of_snoc. unfold bin_of at 1 2 3 4 5 6 7 8.
  cbn [bin_ts1 bin_ts2 bin_n bin_min bin_max bin_agg bin_lst bin_fnl].
  destruct (agg_result_and_reset_for_new_bin _ _) as [agg res]. cbn [fst snd] in *. subst agg.
  cbn [ia_inner_b ib_active_len ib_active_end ib_agg]. unfold DtNano_ns, TsNano_ns, TsNano_from_ns, TsNano_add_dt_nano, DtNano_from_ns.
  assert (Hdiv : (p_b P + L) / L * L = p_b P + L) by (apply grid_div; [done|]; apply Z.divide_add_r; [done|apply Z.divide_refl]).
  rewrite u_div_ok by lia. cbn [and_then]. rewrite u64_mul_small, Hdiv by lia. rewrite Z.eqb_refl. cbn [assert and_then].
  by rewrite u64_add_small by lia.
Qed.

Lemma p_cross_close L t P : 0 < L -> p_b P + L <= t -> p_cross L t P = p_cross L t (p_close L P).
Proof.
  intros HL Ht. unfold p_cross. f_equal. cbn [p_close p_b].
  replace (Z.to_nat ((t - p_b P) / L)) with (S (Z.to_nat ((t - (p_b P + L)) / L))); [by rewrite Nat.iter_succ_r|].
  replace (t - p_b P) with ((t - (p_b P + L)) + 1 * L) by lia. rewrite Z.div_add by lia.
  rewrite Z2Nat.inj_add by (try apply Z.div_pos; lia). lia.
Qed.

Lemma p_cross_near L t P : p_b P <= t < p_b P + L -> p_cross L t P = p_enter t P.
Proof. intros Ht. unfold p_cross. rewrite Z.div_small by lia. done. Qed.

(** The room in the output: the bins up to the end of the range fit. *)
Definition room (L en : Z) (P : PState) : Prop := Z.of_nat (length (p_bins P)) + (en - p_b P) / L <= OUT_LEN_MAX.

Lemma room_close L en P : 0 < L -> room L en P -> room L en (p_close L P).
Proof.
  unfold room. intros HL Hr. cbn [p_close p_bins p_b]. rewrite length_app. cbn [length].
  replace (en - (p_b P + L)) with ((en - p_b P) + (-1) * L) by lia. rewrite Z.div_add by lia. lia.
Qed.

Lemma room_len L en P : 0 < L -> room L en P -> p_b P <= en -> (OUT_LEN_MAX <? Z.of_nat (cb_len (cb_of (p_bins P)))) = false.
Proof.
  unfold room. intros HL Hr Hb. rewrite cb_of_len. apply Z.ltb_ge.
  assert (0 <= (en - p_b P) / L) by (apply Z.div_pos; lia). lia.
Qed.

Section Cycle.
  Context (range : BinnedRange TsNano) (en : Z).
  Hypothesis HL : 0 < bin_len range.
  Hypothesis Hen : en + bin_len range < 2 ^ 64.
Local Abbreviation L := (bin_len range).
Local Abbreviation state_of := (state_of range).

Lemma tw_cycle_loop_spec n fuel P t :
  n = Z.to_nat ((t - p_b P) / L) -> p_ok L P -> p_fu P <= t <= en -> room L en P -> (n + 2 <= fuel)%nat ->
  tw_cycle_loop fuel (state_of P) t (p_lst P) = Ok (state_of (p_cross L t P)).
Proof.
  revert fuel P. induction n as [|n IH]; intros fuel P Hn Hok Ht Hr Hf; pose proof (pk_fu _ _ Hok) as Hfu;
    pose proof (pk_beg _ _ Hok) as Hbeg; (destruct fuel as [|fuel]; [lia|]); cbn [tw_cycle_loop state_of tw_inner_a tw_out ia_inner_b inner_of
    ib_filled_until ib_active_end ia_minmax]; rewrite (room_len L en) by (done || lia); fold (inner_of L P); fold (state_of P).
  - assert (Htb : t < p_b P + L).
    { apply Z.nle_gt. intros Hge. assert (1 <= (t - p_b P) / L) by (apply Z.div_le_lower_bound; lia). lia. }
    rewrite p_cross_near by lia. unfold p_enter. destruct (Z.ltb_spec (p_fu P) t); [|done].
    rewrite (proj2 (Z.leb_gt _ _)) by lia. unfold ib_fill_until. cbn [inner_of ib_filled_until ib_active_end]. fold (inner_of L P).
    rewrite (proj2 (Z.ltb_lt _ _)), (proj2 (Z.leb_le _ _)) by lia. cbn [assert and_then].
    rewrite ib_ingest_up_to_of by (done || lia).
    change (tw_set_inner _ _) with (state_of (p_fill t P)). destruct fuel as [|fuel]; [lia|].
    cbn [tw_cycle_loop state_of tw_inner_a tw_out ia_inner_b inner_of ib_filled_until p_fill p_fu p_bins].
    rewrite (room_len L en) by (done || lia). by rewrite Z.ltb_irrefl.
  - assert (Hge : p_b P + L <= t).
    { apply Z.nlt_ge. intros Hlt. rewrite Z.div_small in Hn by lia. done. }
    rewrite (proj2 (Z.ltb_lt _ _)), (proj2 (Z.leb_le _ _)), (proj2 (Z.ltb_lt _ _)) by lia.
    unfold ib_fill_until. cbn [inner_of ib_filled_until ib_active_end]. fold (inner_of L P).
    rewrite (proj2 (Z.ltb_lt _ _)), Z.leb_refl by lia. cbn [assert and_then].
    rewrite ib_ingest_up_to_of by (done || lia). cbn [and_then]. rewrite push_out_spec by (done || lia). cbn [and_then].
    change (tw_set_inner_out _ _ _) with (state_of (p_close L P)). change (p_lst P) with (p_lst (p_close L P)).
    rewrite (p_cross_close L t P HL Hge). apply IH; [|by apply p_close_ok|cbn; lia|by apply room_close|lia].
    cbn [p_close p_b]. replace (t - p_b P) with ((t - (p_b P + L)) + 1 * L) in Hn by lia. rewrite Z.div_add in Hn by lia.
    rewrite Z2Nat.inj_add in Hn by (try apply Z.div_pos; lia). lia.
Qed.

Lemma tw_cycle_01_spec P t :
  p_ok L P -> p_b P + L <= t <= en -> room L en P ->
  tw_cycle_01 (state_of P) t = Ok (state_of (p_cross L t P)).
Proof.
  intros Hok Ht Hr. pose proof (pk_fu _ _ Hok) as Hfu. unfold tw_cycle_01.
  cbn [state_of tw_inner_a tw_lst tw_produce_cnt_zero ia_inner_b inner_of ib_filled_until ib_active_beg ib_active_end].
  rewrite (proj2 (Z.ltb_lt _ _)), (proj2 (Z.leb_le _ _)), (proj2 (Z.ltb_lt _ _)), (proj2 (Z.leb_le _ _)) by lia.
  cbn [assert and_then]. fold (inner_of L P). fold (state_of P).
  apply (tw_cycle_loop_spec (Z.to_nat ((t - p_b P) / L))); [done|done|lia|done|].
  assert ((t - p_b P) / L <= OUT_LEN_MAX).
  { unfold room in Hr. transitivity ((en - p_b P) / L); [apply Z.div_le_mono; lia|lia]. }
  unfold tw_cycle_turns, OUT_LEN_MAX in *. lia.
Qed.

(** What crossing leaves. *)
Lemma p_cross_spec n P t :
  n = Z.to_nat ((t - p_b P) / L) -> p_ok L P -> p_b P <= t -> room L en P -> p_fu P <= t ->
  p_ok L (p_cross L t P) /\ room L en (p_cross L t P) /\ p_fu (p_cross L t P) <= t /\
  p_b (p_cross L t P) <= t < p_b (p_cross L t P) + L /\ p_lst (p_cross L t P) = p_lst P.
Proof.
  revert P. induction n as [|n IH]; intros P Hn Hok Hb Hr Hfu.
  - assert (Htb : t < p_b P + L).
    { apply Z.nle_gt. intros Hge. assert (1 <= (t - p_b P) / L) by (apply Z.div_le_lower_bound; lia). lia. }
    rewrite p_cross_near by lia. destruct (p_enter_ok L t P Hok) as (Hok' & Hb' & Hfu'); [lia|].
    rewrite Hb'. split; [done|]. split; [|split; [lia|split; [lia|]]]; unfold p_enter, room in *; by destruct (p_fu P <? t).
  - assert (Hge : p_b P + L <= t).
    { apply Z.nlt_ge. intros Hlt. rewrite Z.div_small in Hn by lia. done. }
    rewrite (p_cross_close L t P HL Hge). change (p_lst P) with (p_lst (p_close L P)).
    apply IH; [|by apply p_close_ok|cbn; lia|by apply room_close|cbn; lia].
    cbn [p_close p_b]. replace (t - p_b P) with ((t - (p_b P + L)) + 1 * L) in Hn by lia. rewrite Z.div_add in Hn by lia.
    rewrite Z2Nat.inj_add in Hn by (try apply Z.div_pos; lia). lia.
Qed.

(** The state whose bin contains [t]. *)
Lemma p_reach_spec P t :
  p_ok L P -> room L en P -> p_fu P <= t ->
  let P1 := if p_b P + L <=? t then p_cross L t P else P in
  p_ok L P1 /\ room L en P1 /\ p_fu P1 <= t < p_b P1 + L /\ p_b P1 <= t /\ p_lst P1 = p_lst P.
Proof.
  intros Hok Hr Ht. pose proof (pk_fu _ _ Hok). cbv zeta. destruct (Z.leb_spec (p_b P + L) t) as [Hge|Hlt].
  - destruct (p_cross_spec _ P t eq_refl Hok) as (? & ? & ? & ? & ?); [lia|done|lia|]. repeat (split; [done || lia|]). done.
  - repeat (split; [done || lia|]). done.
Qed.

Lemma tw_cycle_reach P t :
  p_ok L P -> room L en P -> t <= en ->
  (if p_b P + L <=? t then let? _ := assert (p_fu P <? p_b P + L) in tw_cycle_01 (state_of P) t else Ok (state_of P)) =
    Ok (state_of (if p_b P + L <=? t then p_cross L t P else P)).
Proof.
  intros Hok Hr Ht. pose proof (pk_fu _ _ Hok). destruct (Z.leb_spec (p_b P + L) t) as [Hge|Hlt]; [|done].
  rewrite (proj2 (Z.ltb_lt _ _)) by lia. cbn [assert and_then]. apply tw_cycle_01_spec; [done|lia|done].
Qed.

(** ** Ingest *)

(** A cursor over a sorted container, extended to all. *)
Record cursor_ok (evs : TakeUpTo V) : Prop := {
  cu_inv : tk_inv evs;
  cu_sorted : StronglySorted Z.le (ce_tss (tk_evs evs));
  cu_end : tk_end evs = ce_len (tk_evs evs)
}.

Lemma cursor_vis evs : cursor_ok evs -> tk_vis evs = tk_rest evs.
Proof.
  intros [[Hw Hp] _ He]. unfold tk_vis, tk_rest, tk_len. apply take_ge. rewrite length_drop, ce_zip_length by done.
  unfold ce_len in *. lia.
Qed.

Lemma cursor_rest_sorted evs : cursor_ok evs -> StronglySorted Z.le (tk_rest evs).*1.
Proof.
  intros [[Hw Hp] Hs _]. unfold tk_rest. rewrite fmap_drop, ce_zip_fst by done.
  rewrite <- (take_drop (tk_pos evs)) in Hs. by apply sorted_app_inv in Hs as (_ & ? & _).
Qed.

Lemma cursor_before evs e0 l x :
  cursor_ok evs -> tk_rest evs = e0 :: l -> x ∈ take (tk_pos evs) (ce_tss (tk_evs evs)) -> x <= e0.1.
Proof.
  intros [[Hw Hp] Hs _] Hr Hx. rewrite <- (take_drop (tk_pos evs)) in Hs. apply sorted_app_inv in Hs as (_ & _ & Hs).
  apply Hs; [done|]. rewrite <- (ce_zip_fst (tk_evs evs) Hw), <- fmap_drop. fold (tk_rest evs). rewrite Hr. by left.
Qed.

(** Constraining to the end of a bin that contains the first event, taking what
    it shows, extending again. *)
Lemma cursor_constrain evs en' e0 l :
  cursor_ok evs -> tk_rest evs = e0 :: l -> e0.1 < en' ->
  exists evs', @tk_constrain_up_to_ts V tw_error evs en' = Ok evs' /\ tk_inv evs' /\
    tk_vis evs' = e0 :: take (partition_point (fun t => t <? en') l.*1) l /\
    forall evs2, tk_inv evs2 -> tk_evs evs2 = tk_evs evs' -> tk_pos evs2 = tk_end evs' ->
      cursor_ok (tk_extend_to_all evs2) /\
      tk_rest (tk_extend_to_all evs2) = drop (partition_point (fun t => t <? en') l.*1) l /\
      tk_len (tk_extend_to_all evs2) = length (drop (partition_point (fun t => t <? en') l.*1) l).
Proof.
  intros Hc Hr He0. pose proof Hc as [Hinv Hs Hend].
  destruct (tk_constrain_spec (E := tw_error) evs en' Hinv Hs) as (evs' & Heq & Hinv' & Hev & Hpos & Hvis).
  { apply Forall_forall. intros x Hx. pose proof (cursor_before evs e0 l x Hc Hr Hx). lia. }
  exists evs'. split; [done|]. split; [done|]. set (k := partition_point _ _).
  rewrite Hr in Hvis. cbn [fmap list_fmap partition_point] in Hvis. rewrite (proj2 (Z.ltb_lt _ _)) in Hvis by done.
  cbn [take] in Hvis. split; [exact Hvis|]. intros evs2 Hinv2 Hev2 Hpos2.
  assert (Hlen : tk_end evs' = (tk_pos evs + S k)%nat).
  { pose proof (tk_vis_length evs' Hinv') as Hl. rewrite Hvis in Hl. cbn [length] in Hl. rewrite length_take in Hl.
    pose proof (partition_point_le (fun t => (t <? en')%Z) l.*1) as Hk. rewrite length_fmap in Hk. fold k in Hk, Hl.
    destruct Hinv' as [_ ?]. unfold tk_len in Hl. rewrite Hpos in *. lia. }
  assert (Hrest : tk_rest (tk_extend_to_all evs2) = drop k l).
  { unfold tk_rest, tk_extend_to_all. cbn [tk_pos tk_evs]. rewrite Hpos2, Hev2, Hev, Hlen.
    rewrite <- drop_drop. fold (tk_rest evs). by rewrite Hr. }
  assert (Hc2 : cursor_ok (tk_extend_to_all evs2)).
  { destruct Hinv2 as [Hw2 Hp2]. split; unfold tk_extend_to_all; cbn [tk_evs tk_end]; [|by rewrite Hev2, Hev|done].
    split; cbn [tk_evs tk_pos tk_end]; [done|lia]. }
  split; [done|]. split; [done|]. rewrite <- Hrest, <- (cursor_vis _ Hc2), tk_vis_length; [done|apply Hc2].
Qed.

(** Steps within a bin are events. *)
Lemma p_step_near P E : Forall (fun e => e.1 < p_b P + L) E -> foldl (p_step L) P E = foldl p_event P E.
Proof.
  revert P. induction E as [|e E IH]; intros P Hf; [done|]. inversion Hf as [|? ? He Hf']; subst. cbn [foldl].
  assert (p_step L P e = p_event P e) as -> by (unfold p_step; by rewrite (proj2 (Z.leb_gt _ _)) by lia).
  apply IH. destruct (p_event_frame P e) as (-> & _). done.
Qed.

Lemma foldl_p_event_lst P e0 E : exists e, e ∈ e0 :: E /\ p_lst (foldl p_event P (e0 :: E)) = e.
Proof.
  revert P e0. induction E as [|e E IH]; intros P e0.
  - exists e0. split; [by left|]. cbn. apply p_event_frame.
  - destruct (IH (p_event P e0) e) as (e' & He' & Hl). exists e'. split; [by right|]. exact Hl.
Qed.

Lemma foldl_p_event_fu P e0 E :
  p_ok L P -> in_bin L P (e0 :: E) -> exists e, e ∈ e0 :: E /\ p_fu (foldl p_event P (e0 :: E)) = e.1.
Proof.
  revert P e0. induction E as [|e E IH]; intros P e0 Hok Hin.
  - exists e0. split; [by left|]. destruct (in_bin_cons L P e0 [] HL Hok Hin) as (He & _). cbn. eapply p_event_fu; [done|lia].
  - destruct (in_bin_cons L P e0 _ HL Hok Hin) as (_ & Hok' & Hin'). destruct (IH (p_event P e0) e Hok' Hin') as (e' & He' & Hl).
    exists e'. split; [by right|]. exact Hl.
Qed.

(** The events that may come after a state: sorted, not before what was seen. *)
Definition coming (P : PState) (l : list (Z * V)) : Prop :=
  StronglySorted Z.le l.*1 /\ Forall (fun e => (p_lst P).1 <= e.1 /\ p_fu P <= e.1 < en) l.

(** After the events of a bin the rest is still to come. *)
Lemma coming_rest P e0 l k :
  p_ok L P -> StronglySorted Z.le (e0 :: l).*1 -> Forall (fun e => e.1 < en) (e0 :: l) -> in_bin L P (e0 :: take k l) ->
  coming (foldl p_event P (e0 :: take k l)) (drop k l).
Proof.
  intros Hok Hs Hf Hin. rewrite <- (take_drop k l) in Hs, Hf.
  change (e0 :: take k l ++ drop k l) with ((e0 :: take k l) ++ drop k l) in Hs, Hf.
  rewrite fmap_app in Hs. apply sorted_app_inv in Hs as (_ & Hs & Hle). apply Forall_app in Hf as [_ Hf].
  split; [done|]. apply Forall_forall. intros e He. rewrite Forall_forall in Hf.
  destruct (foldl_p_event_lst P e0 (take k l)) as (e1 & He1 & ->).
  destruct (foldl_p_event_fu P e0 (take k l) Hok Hin) as (e2 & He2 & ->).
  assert (Hx : forall x, x ∈ e0 :: take k l -> x.1 <= e.1) by (intros x Hx; apply Hle; by apply list_elem_of_fmap_2).
  split; [by apply Hx|]. split; [by apply Hx|by apply Hf].
Qed.

Lemma in_bin_take P e0 l :
  StronglySorted Z.le (e0 :: l).*1 -> p_fu P <= e0.1 < p_b P + L ->
  in_bin L P (e0 :: take (partition_point (fun t => t <? p_b P + L) l.*1) l).
Proof.
  intros Hs He0. set (k := partition_point _ _).
  assert (Hall : forall e, e ∈ take k l -> e0.1 <= e.1 < p_b P + L).
  { intros e He. split.
    - rewrite fmap_cons in Hs. inversion Hs as [|? ? _ Hall]; subst. rewrite Forall_fmap, Forall_forall in Hall.
      apply Hall. eapply subseteq_take. exact He.
    - pose proof (partition_point_take (fun t => t <? p_b P + L) l.*1) as Hf. fold k in Hf.
      rewrite <- fmap_take, Forall_fmap, Forall_forall in Hf. apply Hf in He. simpl in He. lia. }
  split.
  - rewrite <- (take_drop k l) in Hs. change (e0 :: take k l ++ drop k l) with ((e0 :: take k l) ++ drop k l) in Hs.
    rewrite fmap_app in Hs. by apply sorted_app_inv in Hs as (? & _).
  - constructor; [lia|]. apply Forall_forall. intros e He. specialize (Hall e He). lia.
Qed.

(** One turn of the loop from the bin that contains the first event. *)
Lemma tw_turn_spec P evs e0 l :
  p_ok L P -> p_b P + L <= en -> cursor_ok evs -> tk_rest evs = e0 :: l -> (p_lst P).1 <= e0.1 ->
  p_fu P <= e0.1 < p_b P + L -> Forall (fun e => e.1 < en) (e0 :: l) ->
  let k := partition_point (fun t => t <? p_b P + L) l.*1 in
  let P' := foldl p_event P (e0 :: take k l) in
  exists evs1 evs2, @tk_constrain_up_to_ts V tw_error evs (p_b P + L) = Ok evs1 /\
    tw_ingest_ordered (state_of P) evs1 = Ok (state_of P', evs2) /\
    p_ok L P' /\ p_b P' = p_b P /\ p_bins P' = p_bins P /\ coming P' (drop k l) /\
    cursor_ok (tk_extend_to_all evs2) /\ tk_rest (tk_extend_to_all evs2) = drop k l /\
    tk_len (tk_extend_to_all evs2) = length (drop k l).
Proof.
  intros Hok Hb Hc Hr Hlst He0 Hf k P'. pose proof (cursor_rest_sorted evs Hc) as Hs. rewrite Hr in Hs.
  pose proof (in_bin_take P e0 l Hs He0) as Hin. fold k in Hin.
  destruct (cursor_constrain evs (p_b P + L) e0 l Hc Hr) as (evs1 & Heq & Hinv1 & Hvis & Hext); [lia|]. fold k in Hvis, Hext.
  destruct (ingest_with_lst_minmax_spec L P evs1 HL Hok) as (evs2 & Hing & Hinv2 & Hev2 & Hend2 & Hpos2);
    [lia|done|by rewrite Hvis|]. rewrite Hvis in Hing. fold P' in Hing.
  destruct (in_bin_foldl L P _ HL Hok Hin) as (Hok' & Hb' & Hbins').
  exists evs1, evs2. split; [done|]. split.
  { unfold tw_ingest_ordered. cbn [state_of tw_lst tw_inner_a]. unfold ia_ingest_with_lst. cbn [ia_minmax ia_inner_b].
    rewrite Hing. cbn [and_then]. unfold tw_set_inner_lst, state_of.
    cbn [tw_range tw_produce_cnt_zero tw_out tw_continue_output]. unfold P' in *. by rewrite Hbins'. }
  split; [done|]. split; [done|]. split; [done|].
  split; [by apply coming_rest|]. apply Hext; [done|done|congruence].
Qed.

Lemma tw_ingest_loop_spec fuel P evs n :
  br_nano_end range = en -> (L | en) -> p_ok L P -> p_b P < en -> room L en P -> cursor_ok evs -> coming P (tk_rest evs) ->
  (length (tk_rest evs) < fuel)%nat ->
  tw_ingest_loop fuel (state_of P) evs n = Ok (state_of (foldl (p_step L) P (tk_rest evs)), ConsumedAll) /\
  p_ok L (foldl (p_step L) P (tk_rest evs)) /\ p_b (foldl (p_step L) P (tk_rest evs)) < en /\
  room L en (foldl (p_step L) P (tk_rest evs)).
Proof.
  intros Hne Hgrid. revert P evs n. induction fuel as [|fuel IH]; intros P evs n Hok Hb Hr Hc [Hs Hf] Hfuel; [lia|].
  cbn [tw_ingest_loop]. rewrite tk_ts_first_spec by apply Hc. rewrite (cursor_vis evs Hc).
  destruct (tk_rest evs) as [|e0 l] eqn:Hrest; [done|]. cbn [fmap list_fmap head].
  inversion Hf as [|? ? [Hlst0 He0] Hf']; subst.
  assert (Hfen : Forall (fun e => e.1 < en) (e0 :: l)) by (eapply Forall_impl; [exact Hf|]; simpl; intros ? []; lia).
  cbn [state_of tw_inner_a ia_inner_b tw_range]. rewrite Hne. rewrite (proj2 (Z.leb_gt _ _)) by lia.
  cbn [inner_of ib_active_end ib_filled_until]. fold (inner_of L P). fold (state_of P).
  destruct (p_reach_spec P e0.1 Hok Hr) as (Hok1 & Hr1 & He1 & Hb1 & Hl1); [lia|].
  rewrite (tw_cycle_reach P e0.1 Hok Hr) by lia. cbn [and_then].
  assert (Hstep : p_step L P e0 = p_event (if p_b P + L <=? e0.1 then p_cross L e0.1 P else P) e0) by done.
  set (P1 := if p_b P + L <=? e0.1 then _ else _) in *.
  assert (Hroom : (OUT_LEN_MAX <? Z.of_nat (cb_len (tw_out (state_of P1)))) = false) by (apply (room_len L en); [done|done|lia]).
  rewrite Hroom, andb_false_r.
  assert (Hend1 : p_b P1 + L <= en).
  { destruct Hgrid as [q Hq]. destruct (pk_grid _ _ Hok1) as [q1 Hq1]. assert (q1 < q) by nia. nia. }
  destruct (tw_turn_spec P1 evs e0 l Hok1 Hend1 Hc Hrest) as (evs1 & evs2 & Hcon & Hord & Hok2 & Hb2 & Hbins2 & Hcom2 & Hc2 & Hrest2 & Hlen2);
    [by rewrite Hl1|lia|done|].
  cbn [state_of tw_inner_a tw_lst ia_inner_b inner_of ib_active_end]. fold (inner_of L P1). fold (state_of P1).
  rewrite Hcon. cbn [and_then]. rewrite Hl1. rewrite (proj2 (Z.ltb_ge _ _)) by lia. rewrite Hord. cbn [and_then].
  set (k := partition_point _ _) in *. set (P2 := foldl p_event P1 (e0 :: take k l)) in *.
  assert (Hfold : foldl (p_step L) P (e0 :: l) = foldl (p_step L) P2 (drop k l)).
  { rewrite <- (take_drop k l) at 1. change (e0 :: take k l ++ drop k l) with ([e0] ++ (take k l ++ drop k l)).
    rewrite !foldl_app. f_equal. unfold P2. cbn [foldl]. rewrite Hstep, p_step_near; [done|]. destruct (p_event_frame P1 e0) as (-> & _).
    pose proof (in_bin_take P1 e0 l Hs He1) as [_ Hall]. inversion Hall as [|? ? _ Hall']; subst.
    eapply Forall_impl; [exact Hall'|]. simpl. lia. }
  rewrite Hfold, Hlen2.
  assert (Hr2 : room L en P2) by (unfold room in *; by rewrite Hb2, Hbins2).
  destruct (Nat.eqb_spec (length (drop k l)) 0) as [Hz|Hnz].
  { apply length_zero_iff_nil in Hz. rewrite Hz. cbn [foldl]. split; [done|]. split; [done|]. split; [lia|done]. }
  assert (Hn1 : tk_len evs = S (length l)).
  { rewrite <- tk_vis_length by apply Hc. by rewrite (cursor_vis evs Hc), Hrest. }
  rewrite Hn1. destruct (Nat.leb_spec (S (length l)) (length (drop k l))) as [Hle|_]; [rewrite length_drop in Hle; lia|].
  rewrite <- Hrest2. apply IH; [done|lia|done|done|by rewrite Hrest2|].
  rewrite Hrest2, length_drop. simpl in Hfuel. lia.
Qed.

(** ** The first event *)

Definition none_of (b : Z) : BinnedEventsTimeweight (V := V) (A := A) (B := B) :=
  mkTw range true None (mkInnerA (mkInnerB 0 b (b + L) L b 0 agg_new) None) cb_new false.

(** The bin at [b] or the one that contains the event. *)
Definition first_bin (b t : Z) : Z := if b + L <=? t then t / L * L else b.

Definition p_first (b : Z) (e0 : Z * V) : PState :=
  let b := first_bin b e0.1 in
  if e0.1 <? b then mkP b b e0 (e0, e0) 0 [] [] else mkP b e0.1 e0 (e0, e0) 1 [] [].

Lemma first_bin_spec b t :
  0 <= b -> (L | b) -> t < en -> b + L <= en -> (L | en) ->
  (L | first_bin b t) /\ b <= first_bin b t /\ first_bin b t + L <= en /\ t < first_bin b t + L /\
  (b <= t -> first_bin b t <= t) /\ (t < b -> first_bin b t = b).
Proof.
  intros Hb [q Hq] Ht Hbe [r Hr]. unfold first_bin. destruct (Z.leb_spec (b + L) t) as [Hge|Hlt].
  - pose proof (Z.div_mod t L ltac:(lia)). pose proof (Z.mod_pos_bound t L HL).
    split; [by exists (t / L)|]. assert (t / L < r) by nia. assert (q < t / L) by nia.
    split; [nia|]. split; [nia|]. split; [lia|]. split; [lia|]. lia.
  - split; [by exists q|]. repeat (split; [lia|]). done.
Qed.

Lemma p_first_ok b e0 :
  0 <= b -> (L | b) -> e0.1 < en -> b + L <= en -> (L | en) -> p_ok L (p_first b e0).
Proof.
  intros Hb Hg Ht Hbe Hge. destruct (first_bin_spec b e0.1 Hb Hg Ht Hbe Hge) as (F1 & F2 & F3 & F4 & F5 & F6).
  unfold p_first. destruct (Z.ltb_spec e0.1 (first_bin b e0.1)); split; cbn; try done; lia.
Qed.

Lemma tw_jump_spec b t :
  0 <= b -> (L | b) -> t < en -> b + L <= t ->
  tw_cycle_01 (none_of b) t = Ok (none_of (first_bin b t)).
Proof.
  intros Hb Hg Ht Hge. unfold tw_cycle_01. cbn [none_of tw_inner_a tw_lst ia_inner_b ia_minmax ib_filled_until ib_active_beg ib_active_end ib_active_len].
  rewrite (proj2 (Z.ltb_lt _ _)), Z.leb_refl, (proj2 (Z.leb_le _ _)) by lia. cbn [assert and_then].
  rewrite bool_decide_eq_true_2 by done. cbn [assert and_then]. unfold tw_jump.
  cbn [none_of tw_inner_a ia_inner_b ia_minmax ib_active_len ib_agg]. unfold DtNano_ns, TsNano_ns, TsNano_from_ns, DtNano_from_ns, TsNano_add_dt_nano.
  rewrite u_div_ok by lia. cbn [and_then]. pose proof (Z.div_mod t L ltac:(lia)). pose proof (Z.mod_pos_bound t L HL).
  assert (0 <= t / L) by (apply Z.div_pos; lia).
  rewrite u64_mul_small by nia. rewrite u64_add_small by nia. rewrite agg_reset_new.
  unfold first_bin. rewrite (proj2 (Z.leb_le _ _)) by lia. done.
Qed.

Lemma coming_take P l k :
  p_ok L P -> coming P l -> in_bin L P (take k l) -> coming (foldl p_event P (take k l)) (drop k l).
Proof.
  intros Hok [Hs Hf] Hin. destruct k as [|k]; [done|]. destruct l as [|e0 l]; [done|]. cbn [take drop] in *.
  apply coming_rest; try done. eapply Forall_impl; [exact Hf|]. simpl. lia.
Qed.

Lemma in_bin_coming P l :
  coming P l -> in_bin L P (take (partition_point (fun t => t <? p_b P + L) l.*1) l).
Proof.
  intros [Hs Hf]. set (k := partition_point _ _). split.
  - rewrite <- (take_drop k l), fmap_app in Hs. by apply sorted_app_inv in Hs as (? & _).
  - apply Forall_forall. intros e He. rewrite Forall_forall in Hf.
    assert (Hel : e ∈ l) by (eapply subseteq_take; exact He). specialize (Hf e Hel).
    pose proof (partition_point_take (fun t => t <? p_b P + L) l.*1) as Hp. fold k in Hp.
    rewrite <- fmap_take, Forall_fmap, Forall_forall in Hp. apply Hp in He. simpl in He. lia.
Qed.

Lemma tw_ingest_first b e0 l evs1 :
  0 <= b -> (L | b) -> e0.1 < en -> b + L <= en -> (L | en) -> coming (p_first b e0) l ->
  tk_inv evs1 -> tk_vis evs1 = e0 :: take (partition_point (fun t => t <? first_bin b e0.1 + L) l.*1) l ->
  exists evs2, tw_ingest_ordered (none_of (first_bin b e0.1)) evs1 =
      Ok (state_of (foldl p_event (p_first b e0) (take (partition_point (fun t => t <? first_bin b e0.1 + L) l.*1) l)), evs2) /\
    tk_inv evs2 /\ tk_evs evs2 = tk_evs evs1 /\ tk_pos evs2 = tk_end evs1.
Proof.
  intros Hb Hg Ht Hbe Hge Hcom Hinv Hvis.
  destruct (first_bin_spec b e0.1 Hb Hg Ht Hbe Hge) as (F1 & F2 & F3 & F4 & F5 & F6).
  pose proof (p_first_ok b e0 Hb Hg Ht Hbe Hge) as Hok.
  assert (Hpb : p_b (p_first b e0) = first_bin b e0.1) by (unfold p_first; by destruct (e0.1 <? _)).
  pose proof (in_bin_coming _ _ Hcom) as Hin. rewrite Hpb in Hin. set (k := partition_point _ _) in *.
  pose proof (tk_next_spec evs1 Hinv) as Hn. rewrite Hvis in Hn. destruct Hn as (evs1' & Hn & Hinv1 & He1 & Hend1 & Hvis1 & Hpos1).
  destruct (ingest_with_lst_minmax_spec L (p_first b e0) evs1' HL Hok) as (evs2 & Hing & Hinv2 & He2 & Hend2 & Hpos2);
    [lia|done|by rewrite Hvis1|]. rewrite Hvis1 in Hing.
  exists evs2. split; [|split; [done|split; congruence]].
  unfold tw_ingest_ordered. cbn [none_of tw_lst tw_inner_a ia_minmax]. unfold tw_ingest_without_lst. rewrite Hn.
  cbn [none_of tw_inner_a ia_inner_b ib_active_end]. rewrite (proj2 (Z.ltb_lt _ _)) by lia. cbn [assert and_then].
  assert (Hev : tw_ingest_event_without_lst (none_of (first_bin b e0.1)) e0 = Ok (state_of (p_first b e0))).
  { unfold tw_ingest_event_without_lst. cbn [none_of tw_inner_a ia_inner_b ib_active_beg ib_active_end].
    unfold p_first. destruct (Z.ltb_spec e0.1 (first_bin b e0.1)); [done|].
    rewrite (proj2 (Z.leb_gt _ _)) by lia. done. }
  fold (none_of (first_bin b e0.1)). rewrite Hev. cbn [and_then state_of tw_lst tw_inner_a]. unfold ia_ingest_with_lst. cbn [ia_minmax ia_inner_b].
  rewrite Hing. cbn [and_then]. destruct (in_bin_foldl L _ _ HL Hok Hin) as (_ & _ & Hbins).
  unfold tw_set_inner_lst, state_of. cbn [tw_range tw_produce_cnt_zero tw_out tw_continue_output]. by rewrite Hbins.
Qed.

Lemma p_first_bins b e0 : p_bins (p_first b e0) = [] /\ p_b (p_first b e0) = first_bin b e0.1 /\ p_lst (p_first b e0) = e0.
Proof. unfold p_first. by destruct (e0.1 <? _). Qed.

Lemma room_first b e0 :
  0 <= b -> (L | b) -> e0.1 < en -> b + L <= en -> (L | en) -> (en - b) / L <= OUT_LEN_MAX -> room L en (p_first b e0).
Proof.
  intros Hb Hg Ht Hbe Hge Hr. destruct (first_bin_spec b e0.1 Hb Hg Ht Hbe Hge) as (F1 & F2 & F3 & F4 & F5 & F6).
  unfold room. destruct (p_first_bins b e0) as (-> & -> & _). cbn [length].
  assert ((en - first_bin b e0.1) / L <= (en - b) / L) by (apply Z.div_le_mono; lia). lia.
Qed.

Lemma tw_ingest_loop_none fuel b evs e0 l n :
  br_nano_end range = en -> 0 <= b -> (L | b) -> b + L <= en -> (L | en) -> (l <> [] -> (en - b) / L <= OUT_LEN_MAX) ->
  cursor_ok evs -> tk_rest evs = e0 :: l -> e0.1 < en -> coming (p_first b e0) l -> (S (length l) < fuel)%nat ->
  tw_ingest_loop fuel (none_of b) evs n = Ok (state_of (foldl (p_step L) (p_first b e0) l), ConsumedAll).
Proof.
  intros Hne Hb Hg Hbe Hge Hr Hc Hrest Ht Hcom Hfuel. destruct fuel as [|fuel]; [lia|]. cbn [tw_ingest_loop].
  destruct (first_bin_spec b e0.1 Hb Hg Ht Hbe Hge) as (F1 & F2 & F3 & F4 & F5 & F6).
  rewrite tk_ts_first_spec by apply Hc. rewrite (cursor_vis evs Hc), Hrest. cbn [fmap list_fmap head].
  cbn [none_of tw_inner_a ia_inner_b tw_range ib_active_end ib_filled_until]. rewrite Hne, (proj2 (Z.leb_gt _ _)) by lia.
  fold (none_of b).
  assert (Hcyc : (if b + L <=? e0.1
      then let? _ := assert (b <? b + L) in tw_cycle_01 (none_of b) e0.1 else Ok (none_of b)) = Ok (none_of (first_bin b e0.1))).
  { destruct (Z.leb_spec (b + L) e0.1) as [Hle|Hlt].
    - rewrite (proj2 (Z.ltb_lt _ _)) by lia. cbn [assert and_then]. by apply tw_jump_spec.
    - unfold first_bin. by rewrite (proj2 (Z.leb_gt _ _)) by lia. }
  rewrite Hcyc. cbn [and_then]. change (Z.of_nat (cb_len (tw_out (none_of (first_bin b e0.1))))) with 0.
  rewrite andb_false_r. change (ib_active_end (ia_inner_b (tw_inner_a (none_of (first_bin b e0.1))))) with (first_bin b e0.1 + L).
  destruct (cursor_constrain evs (first_bin b e0.1 + L) e0 l Hc Hrest F4) as (evs1 & -> & Hinv1 & Hvis1 & Hext). cbn [and_then].
  destruct (tw_ingest_first b e0 l evs1 Hb Hg Ht Hbe Hge Hcom Hinv1 Hvis1) as (evs2 & Hord & Hinv2 & Hev2 & Hpos2).
  cbn [none_of tw_lst]. fold (none_of (first_bin b e0.1)). rewrite Hord. cbn [and_then].
  destruct (Hext evs2 Hinv2 Hev2 Hpos2) as (Hc2 & Hrest2 & Hlen2). rewrite Hlen2.
  destruct (p_first_bins b e0) as (Hbins & Hpb & _).
  pose proof (p_first_ok b e0 Hb Hg Ht Hbe Hge) as Hok.
  pose proof (in_bin_coming _ _ Hcom) as Hin. rewrite Hpb in Hin. set (k := partition_point _ _) in *.
  destruct (in_bin_foldl L _ _ HL Hok Hin) as (Hok2 & Hpb2 & Hbins2).
  assert (Hfold : foldl (p_step L) (p_first b e0) l = foldl (p_step L) (foldl p_event (p_first b e0) (take k l)) (drop k l)).
  { rewrite <- (take_drop k l) at 1. rewrite foldl_app. f_equal. apply p_step_near.
    destruct Hin as [_ Hall]. eapply Forall_impl; [exact Hall|]. simpl. lia. }
  rewrite Hfold. destruct (Nat.eqb_spec (length (drop k l)) 0) as [Hz|Hnz].
  { apply length_zero_iff_nil in Hz. by rewrite Hz. }
  assert (Hroom : room L en (p_first b e0)) by (apply room_first; try done; apply Hr; intros ->; by rewrite drop_nil in Hnz).
  assert (Hn1 : tk_len evs = S (length l)).
  { rewrite <- tk_vis_length by apply Hc. by rewrite (cursor_vis evs Hc), Hrest. }
  rewrite Hn1. destruct (Nat.leb_spec (S (length l)) (length (drop k l))) as [Hle|_]; [rewrite length_drop in Hle; lia|].
  rewrite <- Hrest2. apply tw_ingest_loop_spec; try done; [lia|unfold room in *; by rewrite Hpb2, Hbins2| |].
  - rewrite Hrest2. by apply coming_take.
  - rewrite Hrest2, length_drop. lia.
Qed.

(** ** A sequence of containers *)

Lemma p_step_spec P e :
  p_ok L P -> room L en P -> p_b P < en -> p_fu P <= e.1 < en -> (L | en) ->
  p_ok L (p_step L P e) /\ room L en (p_step L P e) /\ p_b (p_step L P e) < en /\
  p_fu (p_step L P e) = e.1 /\ p_lst (p_step L P e) = e.
Proof.
  intros Hok Hr Hb He Hge. unfold p_step. destruct (p_reach_spec P e.1 Hok Hr) as (Hok1 & Hr1 & He1 & Hb1 & _); [lia|].
  set (P1 := if p_b P + L <=? e.1 then _ else _) in *. destruct (p_event_frame P1 e) as (Hpb & Hbins & Hl).
  split; [by apply p_event_ok|]. split; [unfold room in *; by rewrite Hpb, Hbins|]. split; [rewrite Hpb; lia|].
  split; [|done]. apply (p_event_fu L); [done|lia].
Qed.

Lemma coming_app P l1 l2 :
  p_ok L P -> room L en P -> p_b P < en -> (L | en) -> coming P (l1 ++ l2) -> coming P l1 /\ coming (foldl (p_step L) P l1) l2.
Proof.
  intros Hok Hr Hb Hge Hcom. split.
  { destruct Hcom as [Hs Hf]. rewrite fmap_app in Hs. apply sorted_app_inv in Hs as (? & _). by apply Forall_app in Hf as [? _]. }
  revert P Hok Hr Hb Hcom. induction l1 as [|e l1 IH]; intros P Hok Hr Hb [Hs Hf]; [done|]. cbn [foldl app] in *.
  inversion Hf as [|? ? [He1 He2] Hf']; subst. rewrite fmap_cons in Hs. inversion Hs as [|? ? Hs' Hall]; subst.
  destruct (p_step_spec P e Hok Hr Hb He2 Hge) as (Hok' & Hr' & Hb' & Hfu' & Hl').
  apply IH; try done. split; [done|]. rewrite Hfu', Hl'. rewrite Forall_fmap in Hall. rewrite Forall_forall in *.
  intros x Hx. specialize (Hall x Hx). specialize (Hf' x Hx). simpl in Hall. lia.
Qed.

Lemma p_steps_spec P l :
  p_ok L P -> room L en P -> p_b P < en -> (L | en) -> coming P l ->
  p_ok L (foldl (p_step L) P l) /\ room L en (foldl (p_step L) P l) /\ p_b (foldl (p_step L) P l) < en.
Proof.
  intros Hok Hr Hb Hge. revert P Hok Hr Hb. induction l as [|e l IH]; intros P Hok Hr Hb Hcom; [done|].
  destruct (coming_app P [e] l Hok Hr Hb Hge Hcom) as [[_ Hf] Hc2]. inversion Hf as [|? ? [_ He] _]; subst.
  destruct (p_step_spec P e Hok Hr Hb He Hge) as (? & ? & ? & _). by apply IH.
Qed.

Definition evs_of (cs : list (ContainerEvents V)) : list (Z * V) := concat (map ce_iter_zip cs).

(** A consumer that hands in the containers; [None] when one is not taken whole. *)
Fixpoint tw_ingest_all (s : BinnedEventsTimeweight (V := V) (A := A) (B := B)) (cs : list (ContainerEvents V))
    : option (BinnedEventsTimeweight (V := V) (A := A) (B := B)) :=
  match cs with
  | [] => Some s
  | c :: cs =>
      match tw_ingest s c with
      | Ok (s, ConsumedAll) => tw_ingest_all s cs
      | _ => None
      end
  end.

Lemma cursor_new (c : ContainerEvents V) :
  ce_wf c -> StronglySorted Z.le (ce_tss c) -> cursor_ok (tk_new c) /\ tk_rest (tk_new c) = ce_iter_zip c.
Proof. intros Hw Hs. split; [|done]. split; [split; [done|cbn; lia]|done|done]. Qed.

Lemma sorted_container (c : ContainerEvents V) : ce_wf c -> StronglySorted Z.le (ce_iter_zip c).*1 -> StronglySorted Z.le (ce_tss c).
Proof. intros Hw. by rewrite ce_zip_fst. Qed.

Lemma tw_ingest_all_spec P cs :
  br_nano_end range = en -> (L | en) -> p_ok L P -> p_b P < en -> room L en P -> Forall ce_wf cs -> coming P (evs_of cs) ->
  tw_ingest_all (state_of P) cs = Some (state_of (foldl (p_step L) P (evs_of cs))).
Proof.
  intros Hne Hge Hok Hb Hr Hw. revert P Hok Hb Hr. induction Hw as [|c cs Hw _ IH]; intros P Hok Hb Hr Hcom; [done|].
  change (evs_of (c :: cs)) with (ce_iter_zip c ++ evs_of cs) in *.
  destruct (coming_app P _ _ Hok Hr Hb Hge Hcom) as [Hc1 Hc2].
  destruct (cursor_new c Hw) as [Hcu Hrest]; [apply sorted_container; [done|apply Hc1]|].
  cbn [tw_ingest_all]. unfold tw_ingest. rewrite <- Hrest in *.
  destruct (tw_ingest_loop_spec (ce_len c + 1) P (tk_new c) 0 Hne Hge Hok Hb Hr Hcu Hc1) as (-> & Hok' & Hb' & Hr').
  { rewrite Hrest, ce_zip_length by done. unfold ce_len. lia. }
  rewrite foldl_app. by apply IH.
Qed.

Lemma tw_ingest_empty s (c : ContainerEvents V) :
  ce_wf c -> ce_iter_zip c = [] -> tw_ingest (A := A) (B := B) s c = Ok (s, ConsumedAll).
Proof.
  intros Hw Hz. unfold tw_ingest. rewrite Nat.add_1_r. cbn [tw_ingest_loop].
  assert (tk_ts_first (tk_new c) = None) as ->; [|done].
  pose proof (ce_zip_length c Hw) as Hl. rewrite Hz in Hl. unfold tk_ts_first. cbn [tk_new tk_pos tk_end]. unfold ce_len.
  by rewrite <- Hl.
Qed.

Lemma tw_ingest_all_none b cs e0 l :
  br_nano_end range = en -> 0 <= b -> (L | b) -> b + L <= en -> (L | en) -> (en - b) / L <= OUT_LEN_MAX ->
  Forall ce_wf cs -> evs_of cs = e0 :: l -> e0.1 < en -> StronglySorted Z.le (e0 :: l).*1 -> coming (p_first b e0) l ->
  tw_ingest_all (none_of b) cs = Some (state_of (foldl (p_step L) (p_first b e0) l)).
Proof.
  intros Hne Hb Hg Hbe Hge Hr Hw. revert l. induction Hw as [|c cs Hw Hws IH]; intros l He Ht Hs Hcom; [done|].
  change (evs_of (c :: cs)) with (ce_iter_zip c ++ evs_of cs) in He. cbn [tw_ingest_all].
  destruct (ce_iter_zip c) as [|e1 l1] eqn:Hz.
  { rewrite tw_ingest_empty by done. by apply IH. }
  injection He as -> <-. pose proof (p_first_ok b e0 Hb Hg Ht Hbe Hge) as Hok.
  pose proof (room_first b e0 Hb Hg Ht Hbe Hge Hr) as Hroom.
  destruct (p_first_bins b e0) as (_ & Hpb & _). destruct (first_bin_spec b e0.1 Hb Hg Ht Hbe Hge) as (F1 & F2 & F3 & F4 & _).
  destruct (coming_app _ _ _ Hok Hroom ltac:(lia) Hge Hcom) as [Hc1 Hc2].
  destruct (cursor_new c Hw) as [Hcu Hrest].
  { apply sorted_container; [done|]. rewrite Hz. change (e0 :: l1 ++ evs_of cs) with ((e0 :: l1) ++ evs_of cs) in Hs.
    rewrite fmap_app in Hs. by apply sorted_app_inv in Hs as (? & _). }
  rewrite Hz in Hrest. unfold tw_ingest.
  rewrite (tw_ingest_loop_none (ce_len c + 1) b (tk_new c) e0 l1 0 Hne Hb Hg Hbe Hge (fun _ => Hr) Hcu Hrest Ht Hc1).
  2: { unfold ce_len. rewrite <- (ce_zip_length c Hw), Hz. cbn [length]. lia. }
  rewrite foldl_app.
  destruct (p_steps_spec (p_first b e0) l1 Hok Hroom) as (? & ? & ?); [lia|done|done|]. by apply tw_ingest_all_spec.
Qed.

(** ** The end of the range *)

Lemma p_cross_end n P :
  p_b P + Z.of_nat n * L = en -> p_ok L P -> (1 <= n)%nat -> p_cross L en P = Nat.iter n (p_close L) P.
Proof.
  intros Hn Hok H1n. unfold p_cross. replace (en - p_b P) with (Z.of_nat n * L) by lia. rewrite Z.div_mul by lia.
  rewrite Nat2Z.id. unfold p_enter. assert (p_fu (Nat.iter n (p_close L) P) = en) as ->; [|by rewrite Z.ltb_irrefl].
  revert P Hn Hok H1n. induction n as [|n IH]; intros P Hn Hok H1n; [lia|]. rewrite Nat.iter_succ_r.
  destruct n as [|n]; [cbn; lia|]. apply IH; [cbn [p_close p_b]; lia|by apply p_close_ok|lia].
Qed.

Lemma tw_final_spec P :
  br_nano_end range = en -> p_ok L P -> p_b P + L <= en -> room L en P -> (L | en) ->
  tw_input_done_range_final (state_of P) = Ok (state_of (p_cross L en P)).
Proof.
  intros Hne Hok Hb Hr Hge. unfold tw_input_done_range_final. cbn [state_of tw_range]. rewrite Hne. fold (state_of P).
  rewrite tw_cycle_01_spec by (done || lia). cbn [and_then].
  pose proof (pk_fu _ _ Hok). destruct (p_cross_spec _ P en eq_refl Hok) as (Hok' & Hr' & _ & Hb' & _); [lia|done|lia|].
  cbn [state_of tw_out]. rewrite (room_len L en) by (done || lia). done.
Qed.

(** When the bins up to the end are one more than fit, the loop ends at the end of
    the range all the same. *)
Lemma tw_cycle_loop_exact n fuel P :
  p_b P + Z.of_nat n * L = en -> p_ok L P -> (n = 0%nat -> p_fu P = en) ->
  Z.of_nat (length (p_bins P)) + Z.of_nat n <= OUT_LEN_MAX + 1 -> (n < fuel)%nat ->
  tw_cycle_loop fuel (state_of P) en (p_lst P) = Ok (state_of (Nat.iter n (p_close L) P)).
Proof.
  revert fuel P. induction n as [|n IH]; intros fuel P Hn Hok H0n Hl Hf; (destruct fuel as [|fuel]; [lia|]);
    pose proof (pk_fu _ _ Hok) as Hfu; cbn [tw_cycle_loop state_of tw_inner_a tw_out ia_inner_b inner_of ib_filled_until ib_active_end ia_minmax];
    fold (inner_of L P); fold (state_of P); rewrite cb_of_len.
  - rewrite (H0n eq_refl), Z.ltb_irrefl. by destruct (_ <? _).
  - rewrite (proj2 (Z.ltb_ge _ _)), (proj2 (Z.ltb_lt _ _)), (proj2 (Z.leb_le _ _)), (proj2 (Z.ltb_lt _ _)) by lia.
    unfold ib_fill_until. cbn [inner_of ib_filled_until ib_active_end]. fold (inner_of L P).
    rewrite (proj2 (Z.ltb_lt _ _)), Z.leb_refl by lia. cbn [assert and_then].
    rewrite ib_ingest_up_to_of by (done || lia). cbn [and_then]. rewrite push_out_spec by (done || lia). cbn [and_then].
    change (tw_set_inner_out _ _ _) with (state_of (p_close L P)). change (p_lst P) with (p_lst (p_close L P)).
    rewrite Nat.iter_succ_r. apply IH; [cbn [p_close p_b]; lia|by apply p_close_ok|intros ->; cbn [p_close p_fu]; lia| |lia].
    cbn [p_close p_bins]. rewrite length_app. cbn [length]. lia.
Qed.

Lemma p_iter_close n P : p_b (Nat.iter n (p_close L) P) = p_b P + Z.of_nat n * L /\
  length (p_bins (Nat.iter n (p_close L) P)) = (length (p_bins P) + n)%nat.
Proof.
  induction n as [|n [IH1 IH2]]; [split; cbn; lia|]. rewrite !Nat.iter_succ. cbn [p_close p_b p_bins]. rewrite length_app, IH1, IH2. cbn [length]. lia.
Qed.

(** ** The bins are those of the reference *)

Lemma p_event_segs P E :
  let P' := foldl p_event P E in
  p_segs P' ++ [(p_b P + L - p_fu P', (p_lst P').2)] = p_segs P ++ seg_run (p_b P) (p_b P + L) (p_fu P) (p_lst P).2 E.
Proof.
  revert P. induction E as [|[t w] E IH]; intros P; [done|]. cbn [foldl seg_run].
  specialize (IH (p_event P (t, w))). destruct (p_event_frame P (t, w)) as (Hpb & _ & Hl). rewrite Hpb, Hl in IH.
  cbn [foldl] in IH. etransitivity; [exact IH|]. unfold p_event. cbn [fst snd]. destruct (t =? p_b P); [done|].
  cbn [p_segs p_fu]. by rewrite <- app_assoc.
Qed.

Lemma p_event_mm P E : p_mm (foldl p_event P E) = foldl (mm_event (p_b P)) (p_mm P) E.
Proof.
  revert P. induction E as [|ev E IH]; intros P; [done|]. cbn [foldl]. rewrite IH.
  destruct (p_event_frame P ev) as (-> & _). f_equal. unfold p_event, mm_event. by destruct (ev.1 =? p_b P).
Qed.

Lemma p_event_cnt P E c : p_cnt P = wrap 64 c -> p_cnt (foldl p_event P E) = wrap 64 (c + Z.of_nat (length E)).
Proof.
  revert P c. induction E as [|ev E IH]; intros P c Hc; [by rewrite Z.add_0_r|]. cbn [foldl length].
  rewrite (IH _ (c + 1)); [f_equal; lia|].
  assert (p_cnt (p_event P ev) = u64_add (p_cnt P) 1) as -> by (unfold p_event; by destruct (ev.1 =? p_b P)).
  rewrite Hc. unfold u64_add, wrap. by rewrite Zplus_mod_idemp_l.
Qed.

Lemma p_event_lst P E : p_lst (foldl p_event P E) = default (p_lst P) (last E).
Proof.
  revert P. induction E as [|ev E IH]; intros P; [done|]. cbn [foldl]. rewrite IH.
  destruct (p_event_frame P ev) as (_ & _ & ->). rewrite last_cons. by destruct (last E).
Qed.

(** Closing a bin after its events. *)
Lemma p_close_bins P E c :
  p_ok L P -> in_bin L P E -> p_cnt P = wrap 64 c ->
  p_bins (p_close L (foldl p_event P E)) = p_bins P ++
    [bin_of L (p_b P) (wrap 64 (c + Z.of_nat (length E))) (foldl (mm_event (p_b P)) (p_mm P) E)
       (p_segs P ++ seg_run (p_b P) (p_b P + L) (p_fu P) (p_lst P).2 E) (default (p_lst P) (last E))].
Proof.
  intros Hok Hin Hc. destruct (in_bin_foldl L P E HL Hok Hin) as (_ & Hb & Hbins). cbn [p_close p_bins].
  rewrite Hbins, Hb, p_event_segs, p_event_mm, (p_event_cnt P E c Hc), p_event_lst. done.
Qed.

(** A fresh bin, perhaps with the time up to the first event filled. *)
Lemma ref_bin_entered P e0 E :
  p_ok L P -> p_fu P = p_b P -> p_segs P = [] -> p_mm P = (p_lst P, p_lst P) -> p_cnt P = 0 ->
  p_b P <= e0.1 < p_b P + L -> in_bin L (p_enter e0.1 P) (e0 :: E) ->
  p_bins (p_close L (foldl p_event (p_enter e0.1 P) (e0 :: E))) = p_bins P ++ ref_bin L (p_b P) true (Some (p_lst P)) (e0 :: E).
Proof.
  intros Hok Hfu Hsegs Hmm Hcnt He0 Hin. destruct (p_enter_ok L e0.1 P Hok He0) as (Hok' & Hb' & _).
  rewrite (p_close_bins _ _ 0 Hok' Hin).
  2: { unfold p_enter. destruct (p_fu P <? e0.1); exact Hcnt. }
  unfold p_enter. rewrite Hfu. cbn [ref_bin segs_from andb]. destruct (Z.ltb_spec (p_b P) e0.1).
  - cbn [p_fill p_bins p_b p_mm p_segs p_fu p_lst]. by rewrite Hmm, Hsegs, Hfu.
  - by rewrite Hmm, Hsegs, Hfu.
Qed.

Lemma ref_bin_fresh P :
  p_fu P = p_b P -> p_segs P = [] -> p_mm P = (p_lst P, p_lst P) -> p_cnt P = 0 ->
  p_bins (p_close L P) = p_bins P ++ ref_bin L (p_b P) true (Some (p_lst P)) [].
Proof.
  intros Hfu Hsegs Hmm Hcnt. cbn [p_close p_bins ref_bin segs_from seg_run foldl last]. by rewrite Hmm, Hsegs, Hfu, Hcnt.
Qed.

(** The events of a bin, then the rest. *)
Lemma p_step_split P l :
  coming P l -> let k := partition_point (fun t => t <? p_b P + L) l.*1 in
  foldl (p_step L) P l = foldl (p_step L) (foldl p_event P (take k l)) (drop k l).
Proof.
  intros Hcom k. destruct (in_bin_coming P l Hcom) as [_ Hall]. rewrite <- (take_drop k l) at 1. rewrite foldl_app.
  f_equal. apply p_step_near. eapply Forall_impl; [exact Hall|]. simpl. lia.
Qed.

Lemma coming_after P l e :
  coming P l -> e ∈ drop (partition_point (fun t => t <? p_b P + L) l.*1) l -> p_b P + L <= e.1.
Proof.
  intros [Hs _] (i & Hi)%list_elem_of_lookup. rewrite lookup_drop in Hi. apply Z.ltb_ge.
  eapply (partition_point_after (fun t => t <? p_b P + L) l.*1 (_ + i)); [exact Hs|apply ltb_mono|apply Nat.le_add_r|].
  by rewrite list_lookup_fmap, Hi.
Qed.

Lemma coming_close P l : coming P l -> (forall e, e ∈ l -> p_b P + L <= e.1) -> coming (p_close L P) l.
Proof.
  intros [Hs Hf] Hge. split; [done|]. rewrite Forall_forall in *. intros e He. specialize (Hf e He). specialize (Hge e He).
  cbn [p_close p_lst p_fu]. lia.
Qed.

Lemma coming_enter P r rs : p_fu P <= r.1 -> coming P (r :: rs) -> coming (p_enter r.1 P) (r :: rs).
Proof.
  intros Hr [Hs Hf]. split; [done|]. rewrite fmap_cons in Hs. inversion Hs as [|? ? _ Hall]; subst.
  rewrite Forall_fmap in Hall. rewrite Forall_forall in *. intros e He. specialize (Hf e He).
  assert (r.1 <= e.1) by (apply elem_of_cons in He as [->|He]; [lia|by apply Hall]).
  unfold p_enter. destruct (p_fu P <? r.1); cbn [p_fill p_lst p_fu]; lia.
Qed.

(** An event after the bin closes it; one in the next bin also fills that up to
    the event. *)
Lemma p_step_close P r rs :
  p_ok L P -> p_b P + L <= r.1 ->
  foldl (p_step L) P (r :: rs) =
    foldl (p_step L) (if r.1 <? p_b P + L + L then p_enter r.1 (p_close L P) else p_close L P) (r :: rs).
Proof.
  intros Hok Hr. cbn [foldl]. f_equal. pose proof (p_close_ok L P HL Hok) as Hok2.
  destruct (Z.ltb_spec r.1 (p_b P + L + L)) as [Hlt|Hge]; unfold p_step at 1.
  - destruct (p_enter_ok L r.1 (p_close L P) Hok2) as (_ & Hb & _); [cbn; lia|]. unfold p_step. rewrite Hb. cbn [p_close p_b].
    rewrite (proj2 (Z.leb_le _ _)), (proj2 (Z.leb_gt _ _)) by lia. f_equal.
    rewrite (p_cross_close L r.1 P) by lia. apply p_cross_near. cbn; lia.
  - unfold p_step. cbn [p_close p_b]. rewrite !(proj2 (Z.leb_le _ _)) by lia. f_equal. by apply p_cross_close.
Qed.

(** What a run gives from a state on: its bin with the events in it, then the
    bins of the reference. *)
Definition run_gives (n : nat) (P : PState) (l : list (Z * V)) : Prop :=
  let k := partition_point (fun t => t <? p_b P + L) l.*1 in
  p_bins (p_cross L en (foldl (p_step L) P l)) =
    p_bins (p_close L (foldl p_event P (take k l))) ++
    ref_bins n L (p_b P + L) true (Some (p_lst (foldl p_event P (take k l)))) (drop k l).

(** Closing a bin when a run from the next is right. *)
Lemma ref_run_close n P l :
  p_ok L P -> p_b P + L < en -> coming P l -> (forall e, e ∈ l -> p_b P + L <= e.1) ->
  (forall Q l, p_ok L Q -> p_b Q = p_b P + L -> coming Q l -> run_gives n Q l) ->
  p_bins (p_cross L en (foldl (p_step L) P l)) = p_bins (p_close L P) ++ ref_bins (S n) L (p_b P + L) true (Some (p_lst P)) l.
Proof.
  intros Hok Hend Hcom Hge IH. pose proof (p_close_ok L P HL Hok) as Hok2. pose proof (coming_close P l Hcom Hge) as Hcom2.
  assert (Hdef : p_bins (p_close L (p_close L P)) = p_bins (p_close L P) ++ ref_bin L (p_b P + L) true (Some (p_lst P)) [])
    by (by rewrite (ref_bin_fresh (p_close L P))).
  destruct l as [|r rs].
  { cbn [foldl]. rewrite (p_cross_close L en P) by lia.
    pose proof (IH (p_close L P) [] Hok2 eq_refl Hcom2) as Hrun. unfold run_gives in Hrun. cbn [foldl fmap list_fmap partition_point take drop] in Hrun.
    rewrite Hrun, Hdef, <- app_assoc. done. }
  assert (Hr : p_b P + L <= r.1) by (apply Hge; by left). rewrite p_step_close by done.
  cbn [ref_bins fmap list_fmap partition_point]. destruct (Z.ltb_spec r.1 (p_b P + L + L)) as [Hlt|Hnear].
  - destruct (p_enter_ok L r.1 (p_close L P) Hok2) as (Hok3 & Hb3 & _); [cbn; lia|]. cbn [p_close p_b] in Hb3.
    pose proof (coming_enter (p_close L P) r rs ltac:(cbn; lia) Hcom2) as Hcom3.
    pose proof (IH _ _ Hok3 Hb3 Hcom3) as Hrun. unfold run_gives in Hrun. rewrite Hrun.
    pose proof (in_bin_coming _ _ Hcom3) as Hin3. rewrite Hb3 in *. cbn [fmap list_fmap partition_point] in *.
    rewrite (proj2 (Z.ltb_lt _ _)) in * by lia. cbn [take drop] in *.
    rewrite (ref_bin_entered (p_close L P) r) by (done || (cbn; lia)). cbn [p_close p_b p_lst p_bins]. rewrite <- !app_assoc.
    cbn [app]. f_equal. f_equal. f_equal. rewrite p_event_lst, last_cons. by destruct (last (take _ rs)).
  - pose proof (IH (p_close L P) (r :: rs) Hok2 eq_refl Hcom2) as Hrun. unfold run_gives in Hrun. rewrite Hrun.
    cbn [p_close p_b fmap list_fmap partition_point]. rewrite (proj2 (Z.ltb_ge _ _)) by lia. cbn [take drop last foldl].
    fold (p_close L P). rewrite Hdef, <- app_assoc. done.
Qed.

(** From a state on: its bin, then the bins of the reference. *)
Lemma ref_run n P l : p_b P + Z.of_nat (S n) * L = en -> p_ok L P -> coming P l -> run_gives n P l.
Proof.
  revert P l. induction n as [|n IH]; intros P l Hn Hok Hcom; unfold run_gives; pose proof (in_bin_coming P l Hcom) as Hin;
    rewrite (p_step_split P l Hcom); pose proof (coming_after P l) as Hafter; set (k := partition_point _ _) in *;
    destruct (in_bin_foldl L P _ HL Hok Hin) as (Hok1 & Hb1 & _); pose proof (coming_take P l k Hok Hcom Hin) as Hcomk.
  - assert (drop k l = []) as ->.
    { destruct (drop k l) as [|e r]; [done|]. specialize (Hafter e Hcom ltac:(by left)).
      destruct Hcomk as [_ Hf]. inversion Hf as [|? ? [_ ?] _]; subst. lia. }
    cbn [foldl ref_bins]. rewrite app_nil_r. by rewrite (p_cross_end 1) by (done || lia).
  - rewrite <- Hb1. apply ref_run_close; [done|lia|done|intros e He; rewrite Hb1; by apply Hafter|].
    intros Q l' HQ HbQ Hc. apply IH; [lia|done|done].
Qed.

Lemma first_bin_next b t : (L | b) -> b + L <= t -> first_bin b t = first_bin (b + L) t.
Proof.
  intros [q ->] Ht. unfold first_bin. rewrite (proj2 (Z.leb_le _ _)) by lia.
  destruct (Z.leb_spec (q * L + L + L) t) as [|Hlt]; [done|].
  replace t with ((q + 1) * L + (t - (q + 1) * L)) by lia. rewrite Z.div_add_l by lia. rewrite Z.div_small by lia. lia.
Qed.

Lemma p_first_next b e0 : (L | b) -> b + L <= e0.1 -> p_first b e0 = p_first (b + L) e0.
Proof. intros Hg Ht. unfold p_first. by rewrite first_bin_next. Qed.

(** Bins before the first event are not produced. *)
Lemma ref_bins_first n b c e0 l :
  b + Z.of_nat n * L = en -> 0 <= b -> (L | b) -> (L | en) -> b <= e0.1 < en -> coming (p_first b e0) l ->
  p_bins (p_cross L en (foldl (p_step L) (p_first b e0) l)) = ref_bins n L b c None (e0 :: l).
Proof.
  revert b c. induction n as [|n IH]; intros b c Hn Hb Hg Hge He0 Hcom; [lia|]. cbn [ref_bins fmap list_fmap partition_point].
  destruct (Z.ltb_spec e0.1 (b + L)) as [Hlt|Hnear].
  - assert (Hfb : first_bin b e0.1 = b) by (unfold first_bin; by rewrite (proj2 (Z.leb_gt _ _)) by lia).
    destruct (p_first_bins b e0) as (Hbins & Hpb & Hlst). rewrite Hfb in Hpb.
    assert (Hok : p_ok L (p_first b e0)) by (apply p_first_ok; done || lia).
    rewrite (ref_run n) by (done || lia). rewrite Hpb. cbn [take drop]. set (k := partition_point _ _).
    pose proof (in_bin_coming _ _ Hcom) as Hin. rewrite Hpb in Hin. fold k in Hin.
    assert (Hfst : p_first b e0 = mkP b e0.1 e0 (e0, e0) 1 [] []).
    { unfold p_first. rewrite Hfb. by rewrite (proj2 (Z.ltb_ge _ _)) by lia. }
    rewrite (p_close_bins _ _ 1 Hok Hin) by (by rewrite Hfst). rewrite Hpb, Hbins, p_event_lst, Hlst.
    cbn [app ref_bin]. rewrite last_cons. f_equal; [|f_equal; by destruct (last (take k l))].
    rewrite Hfst. cbn [p_mm p_segs p_fu p_lst app]. unfold n_of. cbn [length].
    replace (1 + Z.of_nat (length (take k l))) with (Z.of_nat (S (length (take k l)))) by lia.
    by destruct (last (take k l)).
  - cbn [take drop last ref_bin app]. rewrite p_first_next by done.
    apply IH; [lia|lia|by apply Z.divide_add_r; [|apply Z.divide_refl]|done|lia|by rewrite <- p_first_next].
Qed.

Lemma ref_bins_nil n b c : ref_bins n L b c None [] = [].
Proof. revert b c. induction n as [|n IH]; intros b c; [done|]. cbn [ref_bins fmap list_fmap partition_point take drop last ref_bin app]. apply IH. Qed.

(** An event before the first bin holds from its left edge on. *)
Lemma ref_bins_pre n b e0 l :
  b + Z.of_nat n * L = en -> (1 <= n)%nat -> 0 <= b -> (L | b) -> (L | en) -> e0.1 < b -> coming (p_first b e0) l ->
  p_bins (p_cross L en (foldl (p_step L) (p_first b e0) l)) = ref_bins n L b false (Some e0) l.
Proof.
  intros Hn H1n Hb Hg Hge He0 Hcom. destruct n as [|n]; [lia|].
  assert (Hfb : first_bin b e0.1 = b) by (unfold first_bin; by rewrite (proj2 (Z.leb_gt _ _)) by lia).
  destruct (p_first_bins b e0) as (Hbins & Hpb & Hlst). rewrite Hfb in Hpb.
  assert (Hok : p_ok L (p_first b e0)) by (apply p_first_ok; done || lia).
  rewrite (ref_run n) by (done || lia). cbn [ref_bins]. rewrite Hpb. set (k := partition_point _ _).
  pose proof (in_bin_coming _ _ Hcom) as Hin. rewrite Hpb in Hin. fold k in Hin.
  assert (Hfst : p_first b e0 = mkP b b e0 (e0, e0) 0 [] []).
  { unfold p_first. rewrite Hfb. by rewrite (proj2 (Z.ltb_lt _ _)) by lia. }
  rewrite (p_close_bins _ _ 0 Hok Hin) by (by rewrite Hfst). rewrite Hpb, Hbins, p_event_lst, Hlst.
  cbn [app ref_bin]. f_equal; [|f_equal; by destruct (last (take k l))].
  rewrite Hfst. cbn [p_mm p_segs p_fu p_lst app]. unfold segs_from. cbn [andb]. by destruct (take k l).
Qed.

End Cycle.

(** ** The theorem *)

(** An event before the range only gives the value that holds at its begin. *)
Definition split_pre (beg : Z) (evs : list (Z * V)) : option (Z * V) * list (Z * V) :=
  match evs with
  | e0 :: l => if e0.1 <? beg then (Some e0, l) else (None, evs)
  | [] => (None, [])
  end.

Record tw_input (range : BinnedRange TsNano) (cs : list (ContainerEvents V)) : Prop := {
  ti_len : 0 < bin_len range;
  ti_off : 0 <= bin_off range;
  ti_cnt : 1 <= bin_cnt range <= OUT_LEN_MAX;
  ti_fit : bin_len range * (bin_off range + bin_cnt range + 1) < 2 ^ 64;
  ti_wf : Forall ce_wf cs;
  ti_sorted : StronglySorted Z.le (evs_of cs).*1;
  ti_range : Forall (fun e => e.1 < bin_len range * (bin_off range + bin_cnt range)) (evs_of cs);
  ti_one_before : Forall (fun e => bin_len range * bin_off range <= e.1) (tail (evs_of cs))
}.

Lemma tw_new_none range :
  0 < bin_len range -> 0 <= bin_off range -> 1 <= bin_cnt range ->
  bin_len range * (bin_off range + bin_cnt range + 1) < 2 ^ 64 ->
  tw_cnt_zero_enable (tw_new range) = none_of range (bin_len range * bin_off range) /\
  br_nano_end range = bin_len range * (bin_off range + bin_cnt range).
Proof.
  intros HL Ho Hc Hf. unfold tw_cnt_zero_enable, tw_new, none_of, br_nano_beg, br_nano_end, TsNano_add_dt_nano, TsNano_to_dt_nano,
    DtNano_from_ns, TsNano_delta.
  rewrite !u64_mul_small by nia. rewrite (u64_add_small (bin_off range)) by nia. rewrite u64_add_small by nia.
  rewrite u64_sub_small by nia. rewrite u64_mul_small by nia. split; [|done].
  replace (bin_len range * bin_off range + bin_len range - bin_len range * bin_off range) with (bin_len range) by lia. done.
Qed.

Lemma tw_output_spec range P :
  exists s, tw_output (state_of range P) = Ok (s, cb_of (p_bins P)).
Proof. eexists. reflexivity. Qed.

(** The run of the binner over [cs], with the bins it puts out. *)
Definition tw_gives (range : BinnedRange TsNano) (cs : list (ContainerEvents V)) (bins : list (Bin V B)) : Prop :=
  exists s1 s2 s3 out, tw_ingest_all (tw_cnt_zero_enable (tw_new range)) cs = Some s1 /\
    tw_input_done_range_final s1 = Ok s2 /\ tw_output s2 = Ok (s3, out) /\ cb_wf out /\ cb_zip_iter_2 out = bins.

(** Without events there are no bins. *)
Lemma tw_gives_none range cs :
  0 < bin_len range -> br_nano_end range = bin_len range * (bin_off range + bin_cnt range) ->
  tw_cnt_zero_enable (tw_new range) = none_of range (bin_len range * bin_off range) -> 1 <= bin_cnt range ->
  Forall ce_wf cs -> evs_of cs = [] -> tw_gives range cs [].
Proof.
  intros HL Hne Hnew Hc Hw Hevs. unfold tw_gives. rewrite Hnew. set (beg := bin_len range * bin_off range).
  assert (Hall : tw_ingest_all (none_of range beg) cs = Some (none_of range beg)).
  { clear -Hw Hevs. induction Hw as [|c cs Hwc _ IH]; [done|]. unfold evs_of in Hevs. cbn [map concat] in Hevs.
    apply app_nil in Hevs as [Hz Hevs]. cbn [tw_ingest_all]. by rewrite tw_ingest_empty, IH. }
  assert (beg + bin_len range <= br_nano_end range) by (rewrite Hne; unfold beg; nia).
  exists (none_of range beg). unfold tw_input_done_range_final, tw_cycle_01. cbn [none_of tw_range tw_inner_a tw_lst ia_inner_b ia_minmax
    ib_filled_until ib_active_beg ib_active_end ib_active_len].
  rewrite (proj2 (Z.ltb_lt _ _)), Z.leb_refl, (proj2 (Z.leb_le _ _)) by lia. cbn [assert and_then].
  rewrite bool_decide_eq_true_2 by done. cbn [assert and_then]. unfold tw_jump, DtNano_ns. rewrite u_div_ok by lia. cbn [and_then].
  eexists _, _, _. split; [exact Hall|]. split; [reflexivity|]. split; [reflexivity|]. split; [apply cb_new_wf|done].
Qed.

(** The events after the first, from its bin on. *)
Lemma coming_first range en b e0 l :
  0 < bin_len range -> en + bin_len range < 2 ^ 64 -> 0 <= b -> (bin_len range | b) -> b + bin_len range <= en -> (bin_len range | en) ->
  StronglySorted Z.le (e0 :: l).*1 -> Forall (fun e => e.1 < en) (e0 :: l) -> Forall (fun e => b <= e.1) l ->
  coming en (p_first range b e0) l.
Proof.
  intros HL Hen Hb Hg Hbe Hge Hs Hr Hone. inversion Hr as [|? ? He0 Hr']; subst. rewrite fmap_cons in Hs.
  inversion Hs as [|? ? Hs' Hall]; subst. split; [done|]. destruct (p_first_bins range b e0) as (_ & _ & ->).
  rewrite Forall_fmap in Hall. rewrite Forall_forall in *. intros e He. specialize (Hall e He). specialize (Hone e He). specialize (Hr' e He).
  simpl in Hall. split; [done|]. unfold p_first. destruct (Z.ltb_spec e0.1 (first_bin range b e0.1)); cbn [p_fu]; [|lia].
  destruct (first_bin_spec range en HL Hen b e0.1 Hb Hg He0 Hbe Hge) as (_ & _ & _ & _ & F5 & F6).
  assert (e0.1 < b) by lia. rewrite F6 by done. lia.
Qed.

(** What a non-empty input of a binner gives: the facts about its grid, and the
    events after the first. *)
Record run_facts (range : BinnedRange TsNano) (en : Z) (e0 : Z * V) (l : list (Z * V)) : Prop := {
  rn_len : 0 < bin_len range;
  rn_fit : en + bin_len range < 2 ^ 64;
  rn_end : br_nano_end range = en;
  rn_beg : 0 <= bin_len range * bin_off range;
  rn_room : bin_len range * bin_off range + bin_len range <= en;
  rn_grid : (bin_len range | en);
  rn_cnt : (en - bin_len range * bin_off range) / bin_len range <= OUT_LEN_MAX;
  rn_first : e0.1 < en;
  rn_sorted : StronglySorted Z.le (e0 :: l).*1;
  rn_coming : coming en (p_first range (bin_len range * bin_off range) e0) l
}.

Lemma tw_run_facts range cs e0 l : tw_input range cs -> evs_of cs = e0 :: l ->
  run_facts range (bin_len range * (bin_off range + bin_cnt range)) e0 l.
Proof.
  intros [HL Ho Hc Hfit Hw Hs Hr Hone] Hevs. rewrite Hevs in *. cbn [tail] in Hone. inversion Hr as [|? ? He0 Hr']; subst.
  destruct (tw_new_none range HL Ho (proj1 Hc) Hfit) as [_ Hne].
  assert (0 <= bin_len range * bin_off range) by nia. assert ((bin_len range | bin_len range * bin_off range)) by (apply Z.divide_factor_l).
  assert (bin_len range * bin_off range + bin_len range <= bin_len range * (bin_off range + bin_cnt range)) by nia.
  split; try done; try lia; [apply Z.divide_factor_l| |apply coming_first; done || lia || apply Z.divide_factor_l].
  replace (_ - _) with (bin_cnt range * bin_len range) by lia. rewrite Z.div_mul by lia. lia.
Qed.

(** The state after some events of a run. *)
Lemma run_facts_steps range en e0 l1 l2 : run_facts range en e0 (l1 ++ l2) ->
  let P := foldl (p_step (bin_len range)) (p_first range (bin_len range * bin_off range) e0) l1 in
  p_ok (bin_len range) P /\ room (bin_len range) en P /\ p_b P + bin_len range <= en /\ coming en P l2.
Proof.
  intros [HL Hen Hne Hb Hbe Hge Hrm He0 _ Hcom] P. assert (Hg : (bin_len range | bin_len range * bin_off range)) by (apply Z.divide_factor_l).
  pose proof (p_first_ok range en HL Hen _ e0 Hb Hg He0 Hbe Hge) as Hok.
  pose proof (room_first range en HL Hen _ e0 Hb Hg He0 Hbe Hge Hrm) as Hroom.
  destruct (first_bin_spec range en HL Hen _ e0.1 Hb Hg He0 Hbe Hge) as (_ & _ & F3 & _ & _ & _).
  destruct (p_first_bins range (bin_len range * bin_off range) e0) as (_ & Hpb & _).
  destruct (coming_app range en HL _ _ _ Hok Hroom ltac:(lia) Hge Hcom) as [Hc1 Hc2].
  destruct (p_steps_spec range en HL _ _ Hok Hroom ltac:(lia) Hge Hc1) as (Hok2 & Hrm2 & Hb2). fold P in Hok2, Hrm2, Hb2, Hc2.
  split; [done|]. split; [done|]. split; [|done].
  destruct Hge as [q Hq]. destruct (pk_grid _ _ Hok2) as [q1 Hq1]. assert (q1 < q) by nia. nia.
Qed.

(** The run of the binner in its pure form. *)
Lemma tw_gives_run range cs e0 l : tw_input range cs -> evs_of cs = e0 :: l ->
  let L := bin_len range in let en := L * (bin_off range + bin_cnt range) in
  tw_gives range cs (p_bins (p_cross L en (foldl (p_step L) (p_first range (L * bin_off range) e0) l))).
Proof.
  intros Hin Hevs L en. destruct (tw_run_facts range cs e0 l Hin Hevs) as [HL Hen Hne Hb Hbe Hge Hrm He0 Hs Hcom] eqn:Hf. clear Hf.
  pose proof (tw_run_facts range cs e0 l Hin Hevs) as Hrf. rewrite <- (app_nil_r l) in Hrf.
  destruct (run_facts_steps _ _ _ _ _ Hrf) as (Hok2 & Hrm2 & Hb2 & _). destruct Hin as [_ Ho Hc Hfit Hw _ _ _].
  destruct (tw_new_none range HL Ho (proj1 Hc) Hfit) as [Hnew _]. assert (Hg : (L | L * bin_off range)) by (apply Z.divide_factor_l).
  pose proof (tw_ingest_all_none range en HL Hen _ cs e0 l Hne Hb Hg Hbe Hge Hrm Hw Hevs He0 Hs Hcom) as Hing.
  pose proof (tw_final_spec range en HL Hen _ Hne Hok2 Hb2 Hrm2 Hge) as Hfin. fold L en in Hfin.
  set (P := p_cross _ en _) in *. destruct (tw_output_spec range P) as [s3 Hout]. destruct (cb_of_spec (p_bins P)) as [Hwf Hz].
  unfold tw_gives. rewrite Hnew. eexists _, _, _, _. split; [exact Hing|]. split; [exact Hfin|]. split; [exact Hout|]. by split.
Qed.

Lemma tw_gives_ref range cs :
  tw_input range cs ->
  let beg := bin_len range * bin_off range in
  let '(lst0, evs) := split_pre beg (evs_of cs) in
  tw_gives range cs (ref_bins (Z.to_nat (bin_cnt range)) (bin_len range) beg false lst0 evs).
Proof.
  intros Hin beg. destruct (evs_of cs) as [|e0 l] eqn:Hevs; cbn [split_pre].
  { rewrite ref_bins_nil. destruct Hin as [HL Ho Hc Hfit Hw _ _ _]. destruct (tw_new_none range HL Ho (proj1 Hc) Hfit).
    apply tw_gives_none; done || lia. }
  pose proof (tw_gives_run range cs e0 l Hin Hevs) as Hg. cbn zeta in Hg.
  destruct (tw_run_facts range cs e0 l Hin Hevs) as [HL Hen Hne Hb Hbe Hge Hrm He0 Hs Hcom]. fold beg in Hg, Hb, Hbe, Hrm, Hcom.
  pose proof (ti_cnt _ _ Hin) as Hc. assert (Hgr : (bin_len range | beg)) by (apply Z.divide_factor_l).
  assert (Hn : beg + Z.of_nat (Z.to_nat (bin_cnt range)) * bin_len range = bin_len range * (bin_off range + bin_cnt range))
    by (unfold beg; rewrite Z2Nat.id by lia; lia).
  destruct (Z.ltb_spec e0.1 beg) as [Hlt|Hnlt].
  - rewrite (ref_bins_pre range _ HL Hen (Z.to_nat (bin_cnt range))) in Hg by (done || lia). exact Hg.
  - rewrite (ref_bins_first range _ HL Hen (Z.to_nat (bin_cnt range)) _ false) in Hg by (done || lia). exact Hg.
Qed.


(** ** What the bins of the reference mean *)

(** The value that holds at [t]: of the last event not after [t]. *)
Definition value_at (evs : list (Z * V)) (t : Z) : option V := snd <$> last (filter (fun e => e.1 <= t) evs).

(** The value of the pieces at [t], the first piece beginning at [fu]. *)
Fixpoint piece_at (fu : Z) (segs : list (Z * V)) (t : Z) : option V :=
  match segs with
  | [] => None
  | (d, w) :: segs => if t <? fu + d then Some w else piece_at (fu + d) segs t
  end.

Lemma filter_none (evs : list (Z * V)) t : Forall (fun e => t < e.1) evs -> filter (fun e => e.1 <= t) evs = [].
Proof. intros Hf. apply filter_false. eapply Forall_impl; [exact Hf|]. simpl. lia. Qed.

Lemma filter_all (evs : list (Z * V)) t : Forall (fun e => e.1 <= t) evs -> filter (fun e => e.1 <= t) evs = evs.
Proof. apply filter_true. Qed.

Lemma sorted_cons_fst (e : Z * V) l : StronglySorted Z.le (e :: l).*1 -> StronglySorted Z.le l.*1 /\ Forall (fun x => e.1 <= x.1) l.
Proof.
  rewrite fmap_cons. intros Hs. inversion Hs as [|? ? Hs' Hall]; subst. split; [done|]. by rewrite Forall_fmap in Hall.
Qed.

Definition held (v : V) (E : list (Z * V)) (t : Z) : V := default v (snd <$> last (filter (fun e => e.1 <= t) E)).

Lemma held_cons v e E t :
  StronglySorted Z.le (e :: E).*1 -> held v (e :: E) t = if e.1 <=? t then held e.2 E t else v.
Proof.
  intros Hs. destruct (sorted_cons_fst e E Hs) as [Hs' Hall]. unfold held. destruct (Z.leb_spec e.1 t).
  - rewrite filter_cons, decide_True by done. rewrite last_cons. by destruct (last _).
  - rewrite filter_none; [done|]. constructor; [done|]. eapply Forall_impl; [exact Hall|]. simpl. lia.
Qed.

Lemma seg_run_at b e fu v E t :
  StronglySorted Z.le E.*1 -> Forall (fun x => fu <= x.1 < e) E -> b <= fu -> fu <= t < e ->
  piece_at fu (seg_run b e fu v E) t = Some (held v E t).
Proof.
  revert fu v. induction E as [|x E IH]; intros fu v Hs Hf Hb Ht.
  { cbn [seg_run piece_at]. by rewrite (proj2 (Z.ltb_lt _ _)) by lia. }
  destruct (sorted_cons_fst x E Hs) as [Hs' Hall]. rewrite held_cons by done.
  inversion Hf as [|? ? Hx Hf']; subst. destruct x as [t0 w]. cbn [seg_run fst snd] in *.
  destruct (Z.eqb_spec t0 b) as [->|Hne].
  - rewrite (proj2 (Z.leb_le _ _)) by lia. by apply IH.
  - cbn [piece_at]. replace (fu + (t0 - fu)) with t0 by lia.
    destruct (Z.ltb_spec t t0), (Z.leb_spec t0 t); try lia; [done|].
    apply IH; [done| |lia|lia]. rewrite Forall_forall in *. intros y Hy. specialize (Hall y Hy). specialize (Hf' y Hy). lia.
Qed.

Lemma seg_run_width b e fu v E :
  StronglySorted Z.le E.*1 -> Forall (fun x => fu <= x.1 < e) E -> width_of (seg_run b e fu v E) = e - fu.
Proof.
  revert fu v. induction E as [|x E IH]; intros fu v Hs Hf; [cbn; lia|].
  destruct (sorted_cons_fst x E Hs) as [Hs' Hall]. inversion Hf as [|? ? Hx Hf']; subst. destruct x as [t0 w]. cbn [seg_run fst snd] in *.
  destruct (Z.eqb_spec t0 b) as [->|Hne]; [by apply IH|]. cbn [width_of foldr fst]. fold (width_of (seg_run b e t0 w E)).
  rewrite IH; [lia|done|]. rewrite Forall_forall in *. intros y Hy. specialize (Hall y Hy). specialize (Hf' y Hy). lia.
Qed.

Lemma segs_from_spec L b c v E t :
  0 < L -> StronglySorted Z.le E.*1 -> Forall (fun x => b <= x.1 < b + L) E -> b <= t < b + L ->
  piece_at b (segs_from L b c v E) t = Some (held v E t) /\ width_of (segs_from L b c v E) = L.
Proof.
  intros HL Hs Hf Ht.
  assert (Hplain : piece_at b (seg_run b (b + L) b v E) t = Some (held v E t) /\ width_of (seg_run b (b + L) b v E) = L).
  { split; [by apply seg_run_at|]. rewrite seg_run_width by done. lia. }
  destruct E as [|e0 E]; [exact Hplain|]. cbn [segs_from]. destruct (c && (b <? e0.1)) eqn:Hc; [|exact Hplain].
  apply andb_prop in Hc as [_ Hc]. apply Z.ltb_lt in Hc.
  destruct (sorted_cons_fst e0 E Hs) as [Hs' Hall]. inversion Hf as [|? ? He0 Hf']; subst.
  assert (Hf2 : Forall (fun x => e0.1 <= x.1 < b + L) (e0 :: E)).
  { constructor; [lia|]. rewrite Forall_forall in *. intros y Hy. specialize (Hall y Hy). specialize (Hf' y Hy). lia. }
  split.
  - cbn [piece_at]. replace (b + (e0.1 - b)) with e0.1 by lia. destruct (Z.ltb_spec t e0.1).
    + rewrite held_cons by done. by rewrite (proj2 (Z.leb_gt _ _)) by lia.
    + by apply seg_run_at; [|done|lia|lia].
  - cbn [width_of foldr fst]. fold (width_of (seg_run b (b + L) e0.1 v (e0 :: E))). rewrite seg_run_width by done. lia.
Qed.

(** Where values are totally ordered by a key, the minimum and the maximum bound
    every value that holds in the bin. *)
Section MinMaxBounds.
  Context (key : V -> Z).
  Hypothesis Hkey : forall a b, ev_cmp_a a b = Some (Z.compare (key a) (key b)).

Lemma apply_min_max_bounds ev (mm : MinMax (V := V)) :
  key (ia_apply_min_max ev mm).1.2 = Z.min (key ev.2) (key mm.1.2) /\
  key (ia_apply_min_max ev mm).2.2 = Z.max (key ev.2) (key mm.2.2).
Proof.
  destruct mm as [mn mx]. cbn [ia_apply_min_max fst snd]. rewrite !Hkey.
  destruct (Z.compare_spec (key ev.2) (key mn.2)), (Z.compare_spec (key ev.2) (key mx.2)); lia.
Qed.

Lemma mm_event_monotone b E mm :
  Forall (fun e => b < e.1) E ->
  key (foldl (mm_event b) mm E).1.2 <= key mm.1.2 /\ key mm.2.2 <= key (foldl (mm_event b) mm E).2.2.
Proof.
  intros Hf. revert mm. induction Hf as [|e E He _ IH]; intros mm; [cbn; lia|]. cbn [foldl].
  destruct (IH (mm_event b mm e)). unfold mm_event in *. rewrite (proj2 (Z.eqb_neq _ _)) in * by lia.
  destruct (apply_min_max_bounds e mm). lia.
Qed.

Lemma mm_held b E mm v t :
  StronglySorted Z.le E.*1 -> b <= t -> key mm.1.2 <= key v <= key mm.2.2 ->
  key (foldl (mm_event b) mm E).1.2 <= key (held v E t) <= key (foldl (mm_event b) mm E).2.2.
Proof.
  revert mm v. induction E as [|e E IH]; intros mm v Hs Hb Hv; [exact Hv|].
  destruct (sorted_cons_fst e E Hs) as [Hs' Hall]. rewrite held_cons by done. destruct (Z.leb_spec e.1 t) as [Hle|Hgt].
  - cbn [foldl]. apply IH; [done|done|]. unfold mm_event. destruct (e.1 =? b); [cbn; lia|].
    destruct (apply_min_max_bounds e mm). unfold MinMax, EventSingle in *. lia.
  - destruct (mm_event_monotone b (e :: E) mm); [|unfold MinMax, EventSingle in *; lia]. constructor; [lia|].
    eapply Forall_impl; [exact Hall|]. simpl. lia.
Qed.

End MinMaxBounds.

(** What is promised of a bin, for the events [evs] of the whole input. The bin
    is filled from its left edge or from the first event on. *)
Definition fill_from (evs : list (Z * V)) (ts1 : Z) : Z :=
  match head evs with Some e0 => Z.max ts1 e0.1 | None => ts1 end.

Record bin_good (L : Z) (evs : list (Z * V)) (x : Bin V B) : Prop := {
  bg_fnl : bin_fnl x = true;
  bg_cnt : bin_n x = wrap 64 (Z.of_nat (length (filter (fun e => bin_ts1 x <= e.1 < bin_ts2 x) evs)));
  bg_lst : value_at evs (bin_ts2 x - 1) = Some (bin_lst x);
  bg_agg : exists segs,
    bin_agg x = (agg_result_and_reset_for_new_bin (agg_of L segs) (DtNano_fraction_f32_of (width_of segs) L)).2 /\
    width_of segs = bin_ts2 x - fill_from evs (bin_ts1 x) /\
    forall t, fill_from evs (bin_ts1 x) <= t < bin_ts2 x -> piece_at (fill_from evs (bin_ts1 x)) segs t = value_at evs t;
  bg_minmax : forall key : V -> Z, (forall a b, ev_cmp_a a b = Some (Z.compare (key a) (key b))) ->
    forall t, fill_from evs (bin_ts1 x) <= t < bin_ts2 x ->
      exists v, value_at evs t = Some v /\ key (bin_min x) <= key v <= key (bin_max x)
}.

Fixpoint tiles (L b en : Z) (bins : list (Bin V B)) : Prop :=
  match bins with
  | [] => b = en
  | x :: bins => bin_ts1 x = b /\ bin_ts2 x = b + L /\ tiles L (b + L) en bins
  end.

(** The events before a bin, in it, and after it. *)
Record bin_split (L b : Z) (past E rest : list (Z * V)) : Prop := {
  bs_past : Forall (fun e => e.1 < b) past;
  bs_in : Forall (fun e => b <= e.1 < b + L) E;
  bs_rest : Forall (fun e => b + L <= e.1) rest;
  bs_sorted : StronglySorted Z.le E.*1
}.

Lemma split_filter L b past E rest t :
  bin_split L b past E rest -> b <= t < b + L ->
  filter (fun e => e.1 <= t) (past ++ E ++ rest) = past ++ filter (fun e => e.1 <= t) E.
Proof.
  intros [Hp _ Hr _] Ht. rewrite !filter_app, (filter_all past), (filter_none rest).
  - by rewrite app_nil_r.
  - eapply Forall_impl; [exact Hr|]. simpl. lia.
  - eapply Forall_impl; [exact Hp|]. simpl. lia.
Qed.

Lemma split_count L b past E rest :
  bin_split L b past E rest -> filter (fun e => b <= e.1 < b + L) (past ++ E ++ rest) = E.
Proof.
  intros [Hp HE Hr _]. rewrite !filter_app.
  rewrite (filter_false _ past), (filter_false _ rest), (filter_true _ E), app_nil_r; [done|done| |].
  - eapply Forall_impl; [exact Hr|]. simpl. lia.
  - eapply Forall_impl; [exact Hp|]. simpl. lia.
Qed.

Lemma split_value L b past E rest t v :
  bin_split L b past E rest -> b <= t < b + L ->
  (snd <$> last past = Some v \/ past = [] /\ exists e0 E', E = e0 :: E' /\ e0.1 <= t /\ v = e0.2) ->
  value_at (past ++ E ++ rest) t = Some (held v E t).
Proof.
  intros Hsp Ht Hv. unfold value_at. rewrite (split_filter L b) by done. rewrite last_app. unfold held.
  destruct (last (filter _ E)) as [e|] eqn:Hl; [done|]. cbn [fmap option_fmap option_map default].
  destruct Hv as [Hv|(-> & e0 & E' & -> & Hle & ->)]; [done|]. exfalso.
  rewrite filter_cons, decide_True in Hl by done. rewrite last_cons in Hl. by destruct (last (filter _ E')).
Qed.

Lemma last_held v E (e0 : Z * V) t :
  Forall (fun e => e.1 <= t) E -> (e0.2 = v) -> held v E t = (default e0 (last E)).2.
Proof. intros Hf <-. unfold held. rewrite filter_all by done. by destruct (last E). Qed.

Lemma ref_bin_some L b c past l E rest :
  0 < L -> last past = Some l -> bin_split L b past E rest ->
  exists x, ref_bin L b c (Some l) E = [x] /\ bin_ts1 x = b /\ bin_ts2 x = b + L /\ bin_good L (past ++ E ++ rest) x.
Proof.
  intros HL Hl Hsp. eexists. split; [reflexivity|]. split; [done|]. split; [done|].
  assert (Hfu : fill_from (past ++ E ++ rest) b = b).
  { destruct past as [|e past]; [done|]. unfold fill_from. cbn [app head].
    pose proof (bs_past _ _ _ _ _ Hsp) as Hp. inversion Hp; subst. lia. }
  assert (Hval : forall t, b <= t < b + L -> value_at (past ++ E ++ rest) t = Some (held l.2 E t)).
  { intros t Ht. apply (split_value L b); [done|done|]. left. by rewrite Hl. }
  assert (HE : Forall (fun e => e.1 <= b + L - 1) E) by (eapply Forall_impl; [apply (bs_in _ _ _ _ _ Hsp)|]; simpl; lia).
  split; cbn [bin_of bin_fnl bin_n bin_ts1 bin_ts2 bin_lst bin_agg bin_min bin_max].
  - done.
  - by rewrite (split_count L b).
  - rewrite Hval by lia. f_equal. by apply last_held.
  - exists (segs_from L b c l.2 E). split; [done|]. rewrite Hfu. split.
    + destruct (segs_from_spec L b c l.2 E b) as [_ ->]; try apply Hsp; lia.
    + intros t Ht. rewrite Hval by done. apply segs_from_spec; try apply Hsp; done.
  - intros key Hkey t Ht. rewrite Hfu in Ht. rewrite Hval by done. eexists. split; [done|].
    apply mm_held; [done|apply Hsp|lia|cbn; lia].
Qed.

Lemma ref_bin_none L b c e0 E rest :
  0 < L -> bin_split L b [] (e0 :: E) rest ->
  exists x, ref_bin L b c None (e0 :: E) = [x] /\ bin_ts1 x = b /\ bin_ts2 x = b + L /\ bin_good L (e0 :: E ++ rest) x.
Proof.
  intros HL Hsp. eexists. split; [reflexivity|]. split; [done|]. split; [done|].
  pose proof (bs_in _ _ _ _ _ Hsp) as Hin. inversion Hin as [|? ? He0 HinE]; subst.
  destruct (sorted_cons_fst e0 E (bs_sorted _ _ _ _ _ Hsp)) as [Hs' Hall].
  assert (HE : Forall (fun x => e0.1 <= x.1 < b + L) E).
  { rewrite Forall_forall in *. intros y Hy. specialize (Hall y Hy). specialize (HinE y Hy). lia. }
  assert (Hfu : fill_from (e0 :: E ++ rest) b = e0.1) by (unfold fill_from; cbn [head]; lia).
  assert (Hval : forall t, e0.1 <= t < b + L -> value_at (e0 :: E ++ rest) t = Some (held e0.2 E t)).
  { intros t Ht. pose proof (split_value L b [] (e0 :: E) rest t e0.2 Hsp) as Hv. cbn [app] in Hv.
    rewrite Hv; [|lia|right; split; [done|]; exists e0, E; split; [done|split; [lia|done]]].
    rewrite held_cons by apply Hsp. by rewrite (proj2 (Z.leb_le _ _)) by lia. }
  split; cbn [bin_of bin_fnl bin_n bin_ts1 bin_ts2 bin_lst bin_agg bin_min bin_max].
  - done.
  - pose proof (split_count L b [] (e0 :: E) rest Hsp) as Hc. cbn [app] in Hc. by rewrite Hc.
  - rewrite Hval by lia. f_equal. rewrite last_cons.
    assert (default e0 match last E with Some y => Some y | None => Some e0 end = default e0 (last E)) as -> by (by destruct (last E)).
    apply last_held; [|done]. eapply Forall_impl; [exact HE|]. simpl. lia.
  - exists (seg_run b (b + L) e0.1 e0.2 E). split; [done|]. rewrite Hfu. split; [by apply seg_run_width|].
    intros t Ht. rewrite Hval by done. by apply seg_run_at; [done|done|lia|].
  - intros key Hkey t Ht. rewrite Hfu in Ht. rewrite Hval by done. eexists. split; [done|].
    apply mm_held; [done|done|lia|cbn; lia].
Qed.

(** Splitting at the end of the bin. *)
Lemma bin_split_take L b past evs :
  0 < L -> Forall (fun e => e.1 < b) past -> StronglySorted Z.le evs.*1 -> Forall (fun e => b <= e.1) evs ->
  let k := partition_point (fun t => t <? b + L) evs.*1 in bin_split L b past (take k evs) (drop k evs).
Proof.
  intros HL Hp Hs Hf k. pose proof Hs as Hs0. rewrite <- (take_drop k evs), fmap_app in Hs. apply sorted_app_inv in Hs as (Hs1 & Hs2 & _).
  split; [done| | |done].
  - apply Forall_forall. intros e He. rewrite Forall_forall in Hf. split; [apply Hf; eapply subseteq_take; exact He|].
    pose proof (partition_point_take (fun t => t <? b + L) evs.*1) as Hq. fold k in Hq.
    rewrite <- fmap_take, Forall_fmap, Forall_forall in Hq. apply Hq in He. simpl in He. lia.
  - apply Forall_forall. intros e (i & Hi)%list_elem_of_lookup. rewrite lookup_drop in Hi. apply Z.ltb_ge.
    eapply (partition_point_after (fun t => t <? b + L) evs.*1 (k + i) _ Hs0 (ltb_mono (b + L))); [unfold k; lia|].
    by rewrite list_lookup_fmap, Hi.
Qed.

Lemma ref_bins_some n L b c past l evs :
  0 < L -> last past = Some l -> Forall (fun e => e.1 < b) past -> StronglySorted Z.le evs.*1 -> Forall (fun e => b <= e.1) evs ->
  Forall (bin_good L (past ++ evs)) (ref_bins n L b c (Some l) evs) /\
  tiles L b (b + Z.of_nat n * L) (ref_bins n L b c (Some l) evs).
Proof.
  intros HL. revert b c past l evs. induction n as [|n IH]; intros b c past l evs Hl Hp Hs Hf; [split; [constructor|cbn; lia]|].
  cbn [ref_bins]. pose proof (bin_split_take L b past evs HL Hp Hs Hf) as Hsp. cbn zeta in Hsp. set (k := partition_point _ _) in *.
  destruct (ref_bin_some L b c past l _ _ HL Hl Hsp) as (x & -> & Hx1 & Hx2 & Hgood). rewrite take_drop in Hgood.
  set (l' := default l (last (take k evs))).
  assert (Hl' : match last (take k evs) with Some e => Some e | None => Some l end = Some l') by (unfold l'; by destruct (last (take k evs))).
  rewrite Hl'. destruct (IH (b + L) true (past ++ take k evs) l' (drop k evs)) as [Hg Ht].
  - rewrite last_app. unfold l'. by destruct (last (take k evs)).
  - apply Forall_app. split; (eapply Forall_impl; [apply Hsp|]); simpl; lia.
  - rewrite <- (take_drop k evs), fmap_app in Hs. by apply sorted_app_inv in Hs as (_ & ? & _).
  - apply Hsp.
  - rewrite <- app_assoc, take_drop in Hg. cbn [app]. split; [by constructor|]. cbn [tiles]. split; [done|]. split; [done|].
    by replace (b + Z.of_nat (S n) * L) with (b + L + Z.of_nat n * L) by lia.
Qed.

Lemma ref_bins_none n L b c e0 evs :
  0 < L -> (L | b) -> StronglySorted Z.le (e0 :: evs).*1 -> b <= e0.1 < b + Z.of_nat n * L ->
  Forall (bin_good L (e0 :: evs)) (ref_bins n L b c None (e0 :: evs)) /\
  exists b', (L | b') /\ b' <= e0.1 < b' + L /\ tiles L b' (b + Z.of_nat n * L) (ref_bins n L b c None (e0 :: evs)).
Proof.
  intros HL. revert b c. induction n as [|n IH]; intros b c Hg Hs He0; [lia|]. cbn [ref_bins fmap list_fmap partition_point].
  destruct (sorted_cons_fst e0 evs Hs) as [Hs' Hall]. destruct (Z.ltb_spec e0.1 (b + L)) as [Hlt|Hge].
  - cbn [take drop]. set (k := partition_point _ _).
    assert (Hsp : bin_split L b [] (e0 :: take k evs) (drop k evs)).
    { pose proof (bin_split_take L b [] (e0 :: evs) HL) as Hsp. cbn [fmap list_fmap partition_point] in Hsp.
      rewrite (proj2 (Z.ltb_lt _ _)) in Hsp by done. apply Hsp; [constructor|done|].
      constructor; [lia|]. eapply Forall_impl; [exact Hall|]. simpl. lia. }
    destruct (ref_bin_none L b c e0 _ _ HL Hsp) as (x & -> & Hx1 & Hx2 & Hgood). rewrite take_drop in Hgood.
    destruct (last (e0 :: take k evs)) as [l|] eqn:Hlast; [|by rewrite last_cons in Hlast; destruct (last (take k evs))].
    destruct (ref_bins_some n L (b + L) true (e0 :: take k evs) l (drop k evs) HL Hlast) as [Hg2 Ht2].
    + eapply Forall_impl; [apply Hsp|]. simpl. lia.
    + rewrite <- (take_drop k evs), fmap_app in Hs'. by apply sorted_app_inv in Hs' as (_ & ? & _).
    + apply Hsp.
    + cbn [app] in *. rewrite take_drop in Hg2. split; [by constructor|]. exists b. split; [done|]. split; [lia|].
      cbn [tiles]. split; [done|]. split; [done|].
      by replace (b + Z.of_nat (S n) * L) with (b + L + Z.of_nat n * L) by lia.
  - cbn [take drop last ref_bin app].
    replace (b + Z.of_nat (S n) * L) with (b + L + Z.of_nat n * L) by lia.
    apply IH; [by apply Z.divide_add_r; [|apply Z.divide_refl]|done|lia].
Qed.

(** A run puts out one list of bins. *)
Lemma tw_gives_det range cs bins bins' : tw_gives range cs bins -> tw_gives range cs bins' -> bins = bins'.
Proof. intros (s1 & s2 & s3 & out & F1 & F2 & F3 & _ & <-) (t1 & t2 & t3 & out' & G1 & G2 & G3 & _ & <-). congruence. Qed.

(** What the bins of a run are. *)
Lemma tw_gives_good range cs e0 evs bins :
  tw_input range cs -> evs_of cs = e0 :: evs -> tw_gives range cs bins ->
  let L := bin_len range in
  Forall (bin_good L (evs_of cs)) bins /\
  exists b, (L | b) /\ b <= Z.max (L * bin_off range) e0.1 < b + L /\ tiles L b (L * (bin_off range + bin_cnt range)) bins.
Proof.
  intros Hin Hevs Hgives. cbv zeta. pose proof (tw_gives_ref range cs Hin) as Hg. destruct Hin as [HL Ho Hc Hfit Hw Hs Hr Hone].
  rewrite Hevs in *. set (L := bin_len range) in *. cbn zeta in Hg. cbn [split_pre tail] in *.
  assert (Hn : L * bin_off range + Z.of_nat (Z.to_nat (bin_cnt range)) * L = L * (bin_off range + bin_cnt range)) by (rewrite Z2Nat.id by lia; lia).
  destruct (sorted_cons_fst e0 evs Hs) as [Hs' Hall]. inversion Hr as [|? ? He0 _]; subst.
  destruct (Z.ltb_spec e0.1 (L * bin_off range)) as [Hlt|Hge]; rewrite (tw_gives_det _ _ _ _ Hgives Hg), <- Hn.
  - destruct (ref_bins_some (Z.to_nat (bin_cnt range)) L (L * bin_off range) false [e0] e0 evs HL) as [Hgood Ht]; try done.
    { by repeat constructor. }
    split; [done|]. exists (L * bin_off range). split; [apply Z.divide_factor_l|]. split; [lia|done].
  - destruct (ref_bins_none (Z.to_nat (bin_cnt range)) L (L * bin_off range) false e0 evs HL) as (Hgood & b & Hb & Hbe & Ht);
      [apply Z.divide_factor_l|done|lia|].
    split; [done|]. exists b. split; [done|]. split; [lia|done].
Qed.

(** C1. Time-weighted binning. Take a grid of at most [OUT_LEN_MAX] bins that fits
    into 64 bits, and containers cut anywhere whose events ascend in time over
    all of them, end before the grid does, and of which at most the first is
    before the grid. The binner takes every container whole, ends the range
    without a panic, and puts out bins that tile the time from the bin of the
    first event to the end of the grid. In each bin the count is the number of
    events in it, the last value is the one that holds at its end, the average is
    the aggregator's result for pieces that fill the bin (from the first event
    on) and at each time carry the value that holds then, and the minimum and
    the maximum bound all these values. *)
Theorem tw_bins_correct range cs e0 evs :
  tw_input range cs -> evs_of cs = e0 :: evs ->
  let L := bin_len range in
  exists bins, tw_gives range cs bins /\ Forall (bin_good L (evs_of cs)) bins /\
    exists b, (L | b) /\ b <= Z.max (L * bin_off range) e0.1 < b + L /\
      tiles L b (L * (bin_off range + bin_cnt range)) bins.
Proof.
  intros Hin Hevs L. pose proof (tw_gives_ref range cs Hin) as Hg. cbn zeta in Hg. destruct (split_pre _ _) as [lst0 l].
  eexists. split; [exact Hg|]. by apply (tw_gives_good range cs e0 evs).
Qed.

(** When the grid has one bin more than the output holds at once, the run ends
    in a panic: all bins are there, the rest of the output is asked for all the
    same, and the cycle to the end of the range asserts that it is not reached. *)
Theorem tw_output_panics range e0 :
  0 < bin_len range -> 0 <= bin_off range -> bin_cnt range = OUT_LEN_MAX + 1 ->
  bin_len range * (bin_off range + bin_cnt range + 1) < 2 ^ 64 ->
  bin_len range * bin_off range <= e0.1 < bin_len range * (bin_off range + 1) ->
  exists s1 s2, tw_ingest (tw_cnt_zero_enable (tw_new range)) (ce_from_constituents [e0.1] [e0.2]) = Ok (s1, ConsumedAll) /\
    tw_input_done_range_final s1 = Ok s2 /\ Z.of_nat (tw_output_len s2) = bin_cnt range /\ tw_output s2 = Panic.
Proof.
  intros HL Ho Hc Hfit He0. set (beg := bin_len range * bin_off range) in *.
  set (en := bin_len range * (bin_off range + bin_cnt range)).
  destruct (tw_new_none range HL Ho) as [Hnew Hne]; [unfold OUT_LEN_MAX in *; lia|done|]. fold beg en in Hnew, Hne.
  assert (Hb : 0 <= beg) by (unfold beg; nia). assert (Hg : (bin_len range | beg)) by (apply Z.divide_factor_l).
  assert (Hge : (bin_len range | en)) by (apply Z.divide_factor_l).
  assert (Hn : beg + Z.of_nat (Z.to_nat (bin_cnt range)) * bin_len range = en) by (unfold beg, en, OUT_LEN_MAX in *; rewrite Z2Nat.id by lia; lia).
  set (n := Z.to_nat (bin_cnt range)) in *.
  assert (Hbe : beg + bin_len range <= en) by (unfold n, OUT_LEN_MAX in *; nia).
  assert (Hen : en + bin_len range < 2 ^ 64) by (unfold en; lia). assert (He : beg <= e0.1 < beg + bin_len range) by (unfold beg in *; lia).
  set (c := ce_from_constituents [e0.1] [e0.2]). destruct (cursor_new c) as [Hcu Hrest]; [done|by repeat constructor|].
  assert (Hz : ce_iter_zip c = [e0]) by (by destruct e0). rewrite Hz in Hrest.
  assert (Het : e0.1 < en) by lia.
  pose proof (tw_ingest_loop_none range en HL Hen (ce_len c + 1) beg (tk_new c) e0 [] 0 Hne Hb Hg Hbe Hge) as Hing.
  rewrite Hnew. unfold tw_ingest. rewrite Hing; try done; [|split; constructor|cbn; lia]. cbn [foldl].
  set (P := p_first range beg e0). pose proof (p_first_ok range en HL Hen beg e0 Hb Hg Het Hbe Hge) as Hok. fold P in Hok.
  destruct (p_first_bins range beg e0) as (Hbins & Hpb & Hlst). fold P in Hbins, Hpb, Hlst.
  assert (Hfb : first_bin range beg e0.1 = beg) by (unfold first_bin; by rewrite (proj2 (Z.leb_gt _ _)) by lia). rewrite Hfb in Hpb.
  pose proof (pk_fu _ _ Hok) as Hfu. rewrite Hpb in Hfu.
  set (Q := Nat.iter n (p_close (bin_len range)) P). destruct (p_iter_close range n P) as [Hq1 Hq2]. fold Q in Hq1, Hq2.
  exists (state_of range P), (tw_set_continue (state_of range Q) true). split; [done|].
  assert (Hlen : Z.of_nat (length (p_bins Q)) = bin_cnt range) by (rewrite Hq2, Hbins; unfold n, OUT_LEN_MAX in *; cbn [length]; lia).
  assert (Hcyc : tw_cycle_01 (state_of range P) en = Ok (state_of range Q)).
  { unfold tw_cycle_01. cbn [state_of tw_inner_a tw_lst tw_produce_cnt_zero ia_inner_b inner_of ib_filled_until ib_active_beg ib_active_end].
    rewrite (proj2 (Z.ltb_lt _ _)), (proj2 (Z.leb_le _ _)), (proj2 (Z.ltb_lt _ _)), (proj2 (Z.leb_le _ _)) by lia.
    cbn [assert and_then]. fold (inner_of (bin_len range) P). fold (state_of range P).
    apply (tw_cycle_loop_exact range en HL Hen); [lia|done|unfold n, OUT_LEN_MAX in *; lia| |].
    - rewrite Hbins. unfold n, OUT_LEN_MAX in *. cbn [length]. lia.
    - unfold n, tw_cycle_turns, OUT_LEN_MAX in *. lia. }
  split; [|split].
  - unfold tw_input_done_range_final. change (br_nano_end (tw_range (state_of range P))) with (br_nano_end range). rewrite Hne, Hcyc.
    cbn [and_then state_of tw_out]. rewrite cb_of_len, Hlen, Hc. by rewrite (proj2 (Z.ltb_lt _ _)) by lia.
  - unfold tw_output_len. cbn [tw_set_continue state_of tw_out]. by rewrite cb_of_len.
  - unfold tw_output. cbn [tw_set_continue tw_set_inner_out state_of tw_continue_output tw_range tw_inner_a]. rewrite Hne.
    unfold tw_cycle_01. cbn [tw_set_continue tw_set_inner_out state_of tw_inner_a ia_inner_b inner_of ib_active_beg].
    fold Q. rewrite Hq1, Hpb, Hn, Z.ltb_irrefl. done.
Qed.

End Reference.

(** ** On the aggregator of the code *)
Section TwDemo.
  #[local] Existing Instance EventValueType_Z.

Definition demo_range : BinnedRange TsNano := mkBinnedRange 10 1 4.

Definition demo_cs : list (ContainerEvents Z) :=
  [ce_from_constituents [5; 10; 12] [1; 2; 3]; ce_new; ce_from_constituents [12; 35] [4; 5]].

Lemma tw_bins_correct_witness :
  exists bins, tw_gives (A := AggregatorNumeric) (B := F64) demo_range demo_cs bins /\
    Forall (bin_good (A := AggregatorNumeric) 10 (evs_of demo_cs)) bins /\ length bins = 4%nat.
Proof.
  destruct (tw_bins_correct (A := AggregatorNumeric) (B := F64) demo_range demo_cs (5, 1) [(10, 2); (12, 3); (12, 4); (35, 5)])
    as (bins & Hg & Hf & b & _ & Hb & Ht); [|reflexivity|].
  - split; [| | | |by repeat constructor| | |]; apply (bool_decide_unpack _); vm_compute; exact I.
  - exists bins. split; [exact Hg|]. split; [exact Hf|].
    destruct Hg as (s1 & s2 & s3 & out & H1 & H2 & H3 & _ & <-).
    vm_compute in H1. injection H1 as <-. vm_compute in H2. injection H2 as <-. vm_compute in H3. injection H3 as <- <-.
    reflexivity.
Defined.

Lemma tw_output_panics_witness :
  exists s1 s2, tw_ingest (A := AggregatorNumeric) (B := F64) (tw_cnt_zero_enable (tw_new (mkBinnedRange 10 1 10001)))
      (ce_from_constituents [15] [7]) = Ok (s1, ConsumedAll) /\
    tw_input_done_range_final s1 = Ok s2 /\ tw_output s2 = Panic.
Proof.
  destruct (tw_output_panics (A := AggregatorNumeric) (B := F64) (mkBinnedRange 10 1 10001) (15, 7)) as (s1 & s2 & H1 & H2 & _ & H3);
    [vm_compute; reflexivity | vm_compute; discriminate | reflexivity | vm_compute; reflexivity | split; [vm_compute; discriminate | vm_compute; reflexivity] |].
  exists s1, s2. split; [exact H1|]. split; [exact H2|exact H3].
Defined.

End TwDemo.
