(* ===== verification/ChannelEvents.v ===== *)
(** * Events of a channel, of any type of value

    [ChannelEvents] of [daqbuf-items-2/src/channelevents.rs], the item that the
    merger and the streams of binning get: a boxed container of events, or a change
    of the state of the connection. The types of values are a family over [K], and
    a box is a container with its type; the downcasts of the code compare types.
    Serialisation is left out. *)
From Stdlib Require Import ZArith Lia Sorted.
From stdpp Require Import base numbers option list.
From S2P Require Import Prelude TimeTypes Items Events Merger.

#[local] Open Scope Z_scope.
#[local] Open Scope rust_scope.

(** ** States of the connection *)

Inductive ConnStatus : Type := CnConnect | CnDisconnect.
Definition ConnStatus_from_ca_ingest_status_kind (k : Z) : ConnStatus := if k =? 1 then CnConnect else CnDisconnect.

(** The second field is a system time, in milliseconds since 1970. *)
Record ConnStatusEvent : Type := mkConnStatusEvent { cse_ts : TsNano; cse_datetime : Z; cse_status : ConnStatus }.
Definition cse_new (ts : TsNano) (status : ConnStatus) : ConnStatusEvent := mkConnStatusEvent ts (TsNano_ms ts) status.
Definition cse_byte_estimate (e : ConnStatusEvent) : Z := 32.

Inductive ChannelStatusPubApi : Type := PubConnect | PubDisconnect.
Definition PubApi_from_ca_ingest_status_kind (k : Z) : ChannelStatusPubApi := if k =? 1 then PubConnect else PubDisconnect.

Record ChannelStatusEvents (D : Type) : Type := mkChannelStatusEvents { chs_tss : list Z; chs_datetimes : list D; chs_statuses : list ChannelStatusPubApi }.
#[global] Arguments mkChannelStatusEvents {D}.
#[global] Arguments chs_tss {D} c.
#[global] Arguments chs_datetimes {D} c.
#[global] Arguments chs_statuses {D} c.

Definition chs_empty {D} : ChannelStatusEvents D := mkChannelStatusEvents [] [] [].
Definition chs_len {D} (c : ChannelStatusEvents D) : nat := length (chs_tss c).
Definition chs_extend_from {D} (self src : ChannelStatusEvents D) : ChannelStatusEvents D * ChannelStatusEvents D :=
  (mkChannelStatusEvents (chs_tss self ++ chs_tss src) (chs_datetimes self ++ chs_datetimes src) (chs_statuses self ++ chs_statuses src),
   chs_empty).

Record ChannelStatusEvent : Type := mkChannelStatusEvent { chse_ts : Z; chse_datetime : Z; chse_status : ChannelStatusPubApi }.
Definition chse_new (ts : Z) (status : ChannelStatusPubApi) : ChannelStatusEvent := mkChannelStatusEvent ts (ts / 1000000) status.
Definition chse_byte_estimate (e : ChannelStatusEvent) : Z := 32.

Section Boxed.
  Context {K : Type} `{EqDecision K} {val : K -> Type} {Hval : forall i, EventValueType (val i)}.

(** ** Boxed containers *)

Record EventsBoxed : Type := mkBoxed { eb_ty : K; eb_evs : ContainerEvents (val eb_ty) }.

Definition eb_downcast (i : K) (b : EventsBoxed) : option (ContainerEvents (val i)) :=
  match decide (eb_ty b = i) with
  | left e => Some (eq_rect (eb_ty b) (fun j => ContainerEvents (val j)) (eb_evs b) i e)
  | right _ => None
  end.

Definition eb_drain_into {E} (self dst : EventsBoxed) (b e : nat) : outcome E (EventsBoxed * EventsBoxed * DrainIntoDstResult) :=
  match eb_downcast (eb_ty self) dst with
  | Some d =>
      let? (s, d, r) := mt_drain_into (eb_evs self) d b e in
      Ok (mkBoxed (eb_ty self) s, mkBoxed (eb_ty self) d, r)
  | None => Ok (self, dst, DstNotCompatible)
  end.

Definition eb_drain_into_new {E} (self : EventsBoxed) (b e : nat) : outcome E (EventsBoxed * DrainIntoNewResult EventsBoxed) :=
  let? (s, r) := mt_drain_into_new (eb_evs self) b e in
  Ok (mkBoxed (eb_ty self) s,
      match r with
      | NewDone x => NewDone (mkBoxed (eb_ty self) x)
      | NewPartial x => NewPartial (mkBoxed (eb_ty self) x)
      | NewNotCompatible => NewNotCompatible
      end).

Definition eb_byte_estimate (self : EventsBoxed) : EventsBoxed * Z :=
  let '(c, n) := mt_byte_estimate (eb_evs self) in (mkBoxed (eb_ty self) c, n).

#[export] Instance MergeableTy_EventsBoxed : MergeableTy EventsBoxed := {|
  mt_len b := mt_len (eb_evs b);
  mt_byte_estimate := eb_byte_estimate;
  mt_ts_min b := mt_ts_min (eb_evs b);
  mt_ts_max b := mt_ts_max (eb_evs b);
  mt_find_lowest_index_gt b := mt_find_lowest_index_gt (eb_evs b);
  mt_find_lowest_index_ge b := mt_find_lowest_index_ge (eb_evs b);
  mt_find_highest_index_lt b := mt_find_highest_index_lt (eb_evs b);
  mt_find_pp_le b := mt_find_pp_le (eb_evs b);
  mt_drain_into := @eb_drain_into;
  mt_drain_into_new := @eb_drain_into_new;
  mt_is_monotonic b := mt_is_monotonic (eb_evs b);
  mt_is_consistent b := mt_is_consistent (eb_evs b);
  mt_retain_unique_ts b tsmin := mkBoxed (eb_ty b) (mt_retain_unique_ts (eb_evs b) tsmin)
|}.

(** ** [ChannelEvents] *)

Inductive ChannelEvents : Type :=
  | ChEvents (k : EventsBoxed)
  | ChStatus (k : option ConnStatusEvent).

Definition che_is_events (c : ChannelEvents) : bool := match c with ChEvents _ => true | ChStatus _ => false end.
Definition che_from {i} (value : ContainerEvents (val i)) : ChannelEvents := ChEvents (mkBoxed i value).

Definition che_len (c : ChannelEvents) : nat :=
  match c with ChEvents k => mt_len k | ChStatus (Some _) => 1 | ChStatus None => 0 end.

Definition che_byte_estimate (c : ChannelEvents) : ChannelEvents * Z :=
  match c with
  | ChEvents k => let '(k, n) := mt_byte_estimate k in (ChEvents k, n)
  | ChStatus (Some k) => (c, cse_byte_estimate k)
  | ChStatus None => (c, 0)
  end.

Definition che_ts_min (c : ChannelEvents) : option Z := match c with ChEvents k => mt_ts_min k | ChStatus k => cse_ts <$> k end.
Definition che_ts_max (c : ChannelEvents) : option Z := match c with ChEvents k => mt_ts_max k | ChStatus k => cse_ts <$> k end.

Definition che_drain_into {E} (self dst : ChannelEvents) (b e : nat) : outcome E (ChannelEvents * ChannelEvents * DrainIntoDstResult) :=
  match self, dst with
  | ChEvents k, ChEvents j => let? (k, j, r) := mt_drain_into k j b e in Ok (ChEvents k, ChEvents j, r)
  | ChEvents _, ChStatus _ => Ok (self, dst, DstNotCompatible)
  | ChStatus _, ChEvents _ => Ok (self, dst, DstNotCompatible)
  | ChStatus k, ChStatus (Some j) => Ok (self, dst, DstPartial)
  | ChStatus k, ChStatus None => Ok (ChStatus None, ChStatus k, DstDone)
  end.

(** A status is cloned and stays where it is. *)
Definition che_drain_into_new {E} (self : ChannelEvents) (b e : nat) : outcome E (ChannelEvents * DrainIntoNewResult ChannelEvents) :=
  match self with
  | ChEvents k =>
      let? (k, r) := mt_drain_into_new k b e in
      Ok (ChEvents k, match r with NewDone x => NewDone (ChEvents x) | NewPartial x => NewPartial (ChEvents x) | NewNotCompatible => NewNotCompatible end)
  | ChStatus k => Ok (self, NewDone (ChStatus k))
  end.

Definition che_find_lowest_index_gt (c : ChannelEvents) (ts : Z) : option nat :=
  match c with
  | ChEvents k => mt_find_lowest_index_gt k ts
  | ChStatus (Some k) => if ts <? cse_ts k then Some 0%nat else None
  | ChStatus None => None
  end.

Definition che_find_lowest_index_ge (c : ChannelEvents) (ts : Z) : option nat :=
  match c with
  | ChEvents k => mt_find_lowest_index_ge k ts
  | ChStatus (Some k) => if ts <=? cse_ts k then Some 0%nat else None
  | ChStatus None => None
  end.

Definition che_find_highest_index_lt (c : ChannelEvents) (ts : Z) : option nat :=
  match c with
  | ChEvents k => mt_find_highest_index_lt k ts
  | ChStatus (Some k) => if cse_ts k <? ts then Some 0%nat else None
  | ChStatus None => None
  end.

Definition che_find_pp_le (c : ChannelEvents) (ts : Z) : nat :=
  match c with
  | ChEvents k => mt_find_pp_le k ts
  | ChStatus (Some k) => if cse_ts k <=? ts then 1 else 0
  | ChStatus None => 0
  end.

Definition che_is_monotonic (c : ChannelEvents) : bool := match c with ChEvents k => mt_is_monotonic k | ChStatus _ => true end.
Definition che_is_consistent (c : ChannelEvents) : bool := match c with ChEvents k => mt_is_consistent k | ChStatus _ => true end.
Definition che_retain_unique_ts (c : ChannelEvents) (tsmin : Z) : ChannelEvents :=
  match c with ChEvents k => ChEvents (mt_retain_unique_ts k tsmin) | ChStatus _ => c end.

#[export] Instance MergeableTy_ChannelEvents : MergeableTy ChannelEvents := {|
  mt_len := che_len;
  mt_byte_estimate := che_byte_estimate;
  mt_ts_min := che_ts_min;
  mt_ts_max := che_ts_max;
  mt_find_lowest_index_gt := che_find_lowest_index_gt;
  mt_find_lowest_index_ge := che_find_lowest_index_ge;
  mt_find_highest_index_lt := che_find_highest_index_lt;
  mt_find_pp_le := che_find_pp_le;
  mt_drain_into := @che_drain_into;
  mt_drain_into_new := @che_drain_into_new;
  mt_is_monotonic := che_is_monotonic;
  mt_is_consistent := che_is_consistent;
  mt_retain_unique_ts := che_retain_unique_ts
|}.

(** ** Collectors *)

Record EventsCollector : Type := mkEventsCollector { evc_evs : EventsBoxed; evc_range_final : bool; evc_timed_out : bool }.

(** The collector of the type of a container. *)
Definition evc_new (k : EventsBoxed) : EventsCollector := mkEventsCollector (mkBoxed (eb_ty k) ce_new) false false.

(** A container of another type is left as it is. *)
Definition evc_ingest {E} (self : EventsCollector) (src : EventsBoxed) : outcome E (EventsCollector * EventsBoxed) :=
  match eb_downcast (eb_ty (evc_evs self)) src with
  | Some s =>
      let? (s, c, _) := mt_drain_into s (eb_evs (evc_evs self)) 0 (ce_len s) in
      Ok (mkEventsCollector (mkBoxed (eb_ty (evc_evs self)) c) (evc_range_final self) (evc_timed_out self), mkBoxed (eb_ty (evc_evs self)) s)
  | None => Ok (self, src)
  end.

Definition evc_set_range_complete (self : EventsCollector) : EventsCollector := mkEventsCollector (evc_evs self) true (evc_timed_out self).
Definition evc_set_timed_out (self : EventsCollector) : EventsCollector := mkEventsCollector (evc_evs self) (evc_range_final self) true.

Record ChannelEventsCollector : Type := mkChColl { chc_coll : option EventsCollector; chc_range_complete : bool; chc_timed_out : bool }.

Inductive chc_error : Type := NothingCollected.

Definition chc_new : ChannelEventsCollector := mkChColl None false false.
Definition chc_len (self : ChannelEventsCollector) : nat := match chc_coll self with Some c => mt_len (evc_evs c) | None => 0 end.

Definition chc_ingest {E} (self : ChannelEventsCollector) (item : ChannelEvents) : outcome E (ChannelEventsCollector * ChannelEvents) :=
  match item with
  | ChEvents k =>
      let? (c, k) := evc_ingest (default (evc_new k) (chc_coll self)) k in
      Ok (mkChColl (Some c) (chc_range_complete self) (chc_timed_out self), ChEvents k)
  | ChStatus _ => Ok (self, item)
  end.

Definition chc_set_range_complete (self : ChannelEventsCollector) : ChannelEventsCollector := mkChColl (chc_coll self) true (chc_timed_out self).
Definition chc_set_timed_out (self : ChannelEventsCollector) : ChannelEventsCollector := mkChColl (chc_coll self) (chc_range_complete self) true.

(** The result is a copy of the collector's container with its flags. *)
Definition chc_result (self : ChannelEventsCollector) : outcome chc_error (ChannelEventsCollector * EventsCollector) :=
  match chc_coll self with
  | Some c =>
      let c := if chc_range_complete self then evc_set_range_complete c else c in
      let c := if chc_timed_out self then evc_set_timed_out c else c in
      Ok (mkChColl (Some c) (chc_range_complete self) (chc_timed_out self), c)
  | None => Err NothingCollected
  end.

(** ** The containers of one type satisfy the laws of the merger *)

Lemma eb_downcast_self i c : eb_downcast i (mkBoxed i c) = Some c.
Proof. unfold eb_downcast. cbn [eb_ty eb_evs]. by rewrite (decide_True_pi (eq_refl i)). Qed.

Lemma eb_drain_into_same E i c d b e :
  eb_drain_into (E := E) (mkBoxed i c) (mkBoxed i d) b e =
    let? (s, d, r) := mt_drain_into c d b e in Ok (mkBoxed i s, mkBoxed i d, r).
Proof. unfold eb_drain_into. cbn [eb_ty eb_evs]. by rewrite eb_downcast_self. Qed.

Definition ch_events (i : K) (c : ContainerEvents (val i)) : ChannelEvents := ChEvents (mkBoxed i c).

(** The container of type [i] in an item. *)
Definition che_container (i : K) (c : ChannelEvents) : option (ContainerEvents (val i)) :=
  match c with ChEvents k => eb_downcast i k | ChStatus _ => None end.

Lemma che_container_events i c : che_container i (ch_events i c) = Some c.
Proof. apply eb_downcast_self. Qed.

Definition che_wf (i : K) (c : ChannelEvents) : Prop := exists k, c = ch_events i k /\ ce_wf k.

Definition che_list (i : K) (c : ChannelEvents) : list (Z * val i) :=
  match che_container i c with Some k => ce_iter_zip k | None => [] end.

Lemma che_list_events i c : che_list i (ch_events i c) = ce_iter_zip c.
Proof. unfold che_list. by rewrite che_container_events. Qed.

Definition MergeableLaws_ChannelEvents (i : K) : MergeableLaws ChannelEvents (val i).
Proof.
  refine {| mt_events := che_list i; mt_wf := che_wf i |};
    try (intros t; intros; match goal with H : che_wf i t |- _ => destruct H as (k & -> & Hk) end; rewrite ?che_list_events).
  - exact (mt_len_eq k Hk).
  - exact (mt_ts_min_eq k Hk).
  - exact (mt_ts_max_eq k Hk).
  - exact (mt_mono_eq k Hk).
  - exact (mt_find_gt_eq k ts Hk).
  - exact (mt_find_ge_eq k ts Hk).
  - rewrite che_list_events in *. match goal with Hs : StronglySorted _ _ |- _ => exact (@mt_find_lt_eq _ _ _ MergeableLaws_ContainerEvents k ts Hk Hs) end.
  - destruct (@mt_estimate_eq _ _ _ MergeableLaws_ContainerEvents k Hk) as [Hw He]. assert (Hest : mt_byte_estimate (ch_events i k) = (ch_events i (mt_byte_estimate k).1, (mt_byte_estimate k).2)).
    { cbn [mt_byte_estimate MergeableTy_ChannelEvents che_byte_estimate ch_events MergeableTy_EventsBoxed]. unfold eb_byte_estimate.
      cbn [eb_ty eb_evs]. by destruct (mt_byte_estimate k). }
    rewrite Hest. cbn [fst]. split; [by eexists|]. by rewrite che_list_events.
  - intros E t dst n (k & -> & Hk) (d & -> & Hd). rewrite !che_list_events. intros Hn.
    destruct (@mt_drain_into_eq _ _ _ MergeableLaws_ContainerEvents E k d n Hk Hd Hn) as (k' & d' & Hdr & Hk' & Hd' & E1 & E2).
    exists (ch_events i k'), (ch_events i d'). rewrite !che_list_events. cbn [mt_drain_into MergeableTy_ChannelEvents che_drain_into ch_events].
    change (@mt_drain_into EventsBoxed _) with (@eb_drain_into). rewrite eb_drain_into_same, Hdr. cbn [and_then].
    split; [done|]. split; [by exists k'|]. split; [by exists d'|]. by split.
  - intros E t b e (k & -> & Hk). rewrite !che_list_events. intros Hn.
    destruct (@mt_drain_into_new_range _ _ _ MergeableLaws_ContainerEvents E k b e Hk Hn) as (k' & d' & Hdr & Hk' & Hd' & E1 & E2).
    exists (ch_events i k'), (ch_events i d'). rewrite !che_list_events. cbn [mt_drain_into_new MergeableTy_ChannelEvents che_drain_into_new ch_events].
    change (@mt_drain_into_new EventsBoxed _) with (@eb_drain_into_new). unfold eb_drain_into_new. cbn [eb_ty eb_evs]. rewrite Hdr. cbn [and_then].
    split; [done|]. split; [by exists k'|]. split; [by exists d'|]. by split.
Defined.

(** A status is not discarded with the events up to a time. *)
Lemma che_status_kept E fuel s upto : mg_discard_item (E := E) (S fuel) (ChStatus (Some s)) upto = Ok (ChStatus (Some s)).
Proof.
  cbn [mg_discard_item mt_ts_min MergeableTy_ChannelEvents che_ts_min fmap option_fmap option_map].
  destruct (cse_ts s <=? upto) eqn:E1; [|done]. unfold mg_drain_into_new_upto.
  by destruct (mt_find_lowest_index_gt _ _).
Qed.

End Boxed.
