(* ===== verification/TwStream.v ===== *)
(** * The stream of bins from the events of a channel

    [BinnedEventsTimeweightDynbox], [BinnedEventsTimeweightLazy] and
    [BinnedEventsTimeweightStream] of
    [daqbuf-items-2/src/binning/timeweight/timeweight_events_dyn.rs]. A binner for
    the type of the values is made when the first container comes. The types of
    values, aggregators and averages are families over the same index as in
    [ChannelEvents]. *)
From Stdlib Require Import ZArith Lia String.
From stdpp Require Import base numbers option strings list sorting.
From S2P Require Import Prelude TimeTypes Items Ranges Events Bins Floats Timeweight Merger ChannelEvents.

#[local] Open Scope Z_scope.
#[local] Open Scope rust_scope.

Inductive tws_error : Type :=
  | TwsEmptyEventsBuffer
  | TwsNoProgress
  | TwsTypeMismatch
  | TwsBinning (e : tw_error).

Section TwStream.
  Context {K : Type} `{EqDecision K} {val agg res : K -> Type} {Hval : forall i, EventValueType (val i)}
    {Hagg : forall i, AggregatorTimeWeight (val i) (agg i) (res i)}.

(** ** [BinnedEventsTimeweightDynbox] *)

Record TwDyn : Type := mkTwDyn { twd_ty : K; twd_binner : BinnedEventsTimeweight (V := val twd_ty) (A := agg twd_ty) (B := res twd_ty) }.

Record BinsBoxed : Type := mkBinsBoxed { bnb_ty : K; bnb_bins : ContainerBins (val bnb_ty) (res bnb_ty) }.

Definition twd_new (i : K) (range : BinnedRange TsNano) : TwDyn := mkTwDyn i (tw_new range).
Definition twd_cnt_zero_enable (d : TwDyn) : TwDyn := mkTwDyn (twd_ty d) (tw_cnt_zero_enable (twd_binner d)).

Definition twd_ingest (d : TwDyn) (evs : EventsBoxed (val := val)) : outcome tws_error (TwDyn * IngestReport) :=
  match eb_downcast (twd_ty d) evs with
  | Some c => let? (b, report) := map_err TwsBinning (tw_ingest (twd_binner d) c) in Ok (mkTwDyn (twd_ty d) b, report)
  | None => Err TwsTypeMismatch
  end.

Definition twd_input_done_range_final (d : TwDyn) : outcome tws_error TwDyn :=
  let? b := map_err TwsBinning (tw_input_done_range_final (twd_binner d)) in Ok (mkTwDyn (twd_ty d) b).
Definition twd_input_done_range_open (d : TwDyn) : outcome tws_error TwDyn :=
  let? b := map_err TwsBinning (tw_input_done_range_open (twd_binner d)) in Ok (mkTwDyn (twd_ty d) b).

Definition twd_output (d : TwDyn) : outcome tws_error (TwDyn * option BinsBoxed) :=
  if (tw_output_len (twd_binner d) =? 0)%nat then Ok (d, None)
  else
    let? (b, c) := map_err TwsBinning (tw_output (twd_binner d)) in
    Ok (mkTwDyn (twd_ty d) b, Some (mkBinsBoxed (twd_ty d) c)).

(** ** [BinnedEventsTimeweightLazy] *)

Record TwLazy : Type := mkTwLazy { twl_range : BinnedRange TsNano; twl_binned : option TwDyn; twl_enable_cnt_zero : bool }.

Definition twl_new (range : BinnedRange TsNano) : TwLazy := mkTwLazy range None false.
Definition twl_with_cnt_zero (s : TwLazy) : TwLazy := mkTwLazy (twl_range s) (twl_binned s) true.
Definition twl_cnt_zero_enable : TwLazy -> TwLazy := twl_with_cnt_zero.

(** The binner that there is, or one for the type of the container. *)
Definition twl_binner (s : TwLazy) (evs : EventsBoxed (val := val)) : TwDyn :=
  match twl_binned s with
  | Some d => d
  | None => let d := twd_new (eb_ty evs) (twl_range s) in if twl_enable_cnt_zero s then twd_cnt_zero_enable d else d
  end.

Definition twl_ingest (s : TwLazy) (evs : EventsBoxed (val := val)) : outcome tws_error (TwLazy * IngestReport) :=
  let? (d, report) := twd_ingest (twl_binner s evs) evs in
  Ok (mkTwLazy (twl_range s) (Some d) (twl_enable_cnt_zero s), report).

(** An operation of the binner, if there is one. *)
Definition twl_map (f : TwDyn -> outcome tws_error TwDyn) (s : TwLazy) : outcome tws_error TwLazy :=
  match twl_binned s with
  | Some d => let? d := f d in Ok (mkTwLazy (twl_range s) (Some d) (twl_enable_cnt_zero s))
  | None => Ok s
  end.

Definition twl_input_done_range_final : TwLazy -> outcome tws_error TwLazy := twl_map twd_input_done_range_final.
Definition twl_input_done_range_open : TwLazy -> outcome tws_error TwLazy := twl_map twd_input_done_range_open.

Definition twl_output (s : TwLazy) : outcome tws_error (TwLazy * option BinsBoxed) :=
  match twl_binned s with
  | Some d => let? (d, o) := twd_output d in Ok (mkTwLazy (twl_range s) (Some d) (twl_enable_cnt_zero s), o)
  | None => Ok (s, None)
  end.

(** ** [BinnedEventsTimeweightStream] *)

Section Stream.
  Context {L St E : Type}.

Definition TwsItem : Type := Sitemty L St E (ChannelEvents (val := val)).

(** What leaves the stream: bins, items that pass through, an error of the binner,
    and the log message at the end. *)
Inductive TwsOut : Type :=
  | TwsOutBins (x : BinsBoxed)
  | TwsOutLog (x : L)
  | TwsOutStats (x : St)
  | TwsOutInputErr (e : E)
  | TwsOutErr (e : tws_error)
  | TwsOutNoBinsLog.

Inductive TwsState : Type :=
  | TwsReading
  | TwsBuffered (evs : EventsBoxed (val := val))
  | TwsRemains
  | TwsDone
  | TwsInvalid.

Record TwStream : Type := mkTwStream {
  tws_state : TwsState;
  tws_inp : list (Poll TwsItem);
  tws_binned : TwLazy;
  tws_range_final : bool
}.

Definition tws_new (range : BinnedRange TsNano) (inp : list (Poll TwsItem)) : TwStream :=
  mkTwStream TwsReading inp (twl_with_cnt_zero (twl_new range)) false.

Definition tws_set_state (st : TwsState) (s : TwStream) : TwStream := mkTwStream st (tws_inp s) (tws_binned s) (tws_range_final s).
Definition tws_set_inp (inp : list (Poll TwsItem)) (s : TwStream) : TwStream := mkTwStream (tws_state s) inp (tws_binned s) (tws_range_final s).
Definition tws_set_binned (b : TwLazy) (s : TwStream) : TwStream := mkTwStream (tws_state s) (tws_inp s) b (tws_range_final s).

(** [ControlFlow<Poll<..>>], or a panic. *)
Inductive tws_flow : Type :=
  | TwsContinue
  | TwsBreak (p : Poll (option TwsOut))
  | TwsPanic.

Definition eb_truncate_front (b : EventsBoxed (val := val)) (len : nat) : EventsBoxed := mkBoxed (eb_ty b) (ce_truncate_front (eb_evs b) len).

Definition tws_consumed (report : IngestReport) (nev : nat) : nat := match report with ConsumedAll => nev | ConsumedPart n => n end.

(** What is left of the events, the binner and the bins that are ready. *)
Definition tws_consume_evsbuf (evs : EventsBoxed (val := val)) (binner : TwLazy) : outcome tws_error (EventsBoxed * TwLazy * option BinsBoxed) :=
  let nev := ce_len (eb_evs evs) in
  if (nev =? 0)%nat then Err TwsEmptyEventsBuffer
  else
    let? (binner, report) := twl_ingest binner evs in
    let? (binner, out) := twl_output binner in
    let nc := tws_consumed report nev in
    let evs := eb_truncate_front evs (nev - nc) in
    match out with
    | Some x =>
        if (cb_len (bnb_bins x) =? 0)%nat then
          if (nc =? 0)%nat then Err TwsNoProgress else Ok (evs, binner, None)
        else Ok (evs, binner, Some x)
    | None => if (nc =? 0)%nat then Err TwsNoProgress else Ok (evs, binner, None)
    end.

(** After an error the state of the binner is not used any more. *)
Definition tws_handle_buffered (evs : EventsBoxed (val := val)) (s : TwStream) : TwStream * tws_flow :=
  if (ce_len (eb_evs evs) =? 0)%nat then (s, TwsBreak (Ready (Some (TwsOutErr TwsEmptyEventsBuffer))))
  else
    match tws_consume_evsbuf evs (tws_binned s) with
    | Ok (evs, b, out) =>
        let s := tws_set_binned b (tws_set_state (if (ce_len (eb_evs evs) =? 0)%nat then TwsReading else TwsBuffered evs) s) in
        match out with
        | Some x => (s, TwsBreak (Ready (Some (TwsOutBins x))))
        | None => (s, TwsContinue)
        end
    | Err e => (s, TwsBreak (Ready (Some (TwsOutErr e))))
    | Panic => (s, TwsPanic)
    end.

Definition tws_handle_sitemty (item : TwsItem) (s : TwStream) : TwStream * tws_flow :=
  match item with
  | SOk (DataItem (Data (ChEvents evs))) =>
      (if (ce_len (eb_evs evs) =? 0)%nat then s else tws_set_state (TwsBuffered evs) s, TwsContinue)
  | SOk (DataItem (Data (ChStatus _))) => (s, TwsContinue)
  | SOk (DataItem RangeComplete) => (mkTwStream (tws_state s) (tws_inp s) (tws_binned s) true, TwsContinue)
  | SOk (Log x) => (s, TwsBreak (Ready (Some (TwsOutLog x))))
  | SOk (Stats x) => (s, TwsBreak (Ready (Some (TwsOutStats x))))
  | SErr e => (tws_set_state TwsDone s, TwsBreak (Ready (Some (TwsOutInputErr e))))
  end.

(** The end of the input counts as final, whether the range was or not. *)
Definition tws_handle_eos (s : TwStream) : TwStream * tws_flow :=
  let s := tws_set_state TwsRemains s in
  match (if true || tws_range_final s then twl_input_done_range_final (tws_binned s) else twl_input_done_range_open (tws_binned s)) with
  | Ok b => (tws_set_binned b s, TwsContinue)
  | Err e => (s, TwsBreak (Ready (Some (TwsOutErr e))))
  | Panic => (s, TwsPanic)
  end.

Definition tws_handle_remains (s : TwStream) : TwStream * tws_flow :=
  match twl_output (tws_binned s) with
  | Ok (b, Some x) => (tws_set_binned b s, TwsBreak (Ready (Some (TwsOutBins x))))
  | Ok (b, None) => (tws_set_state TwsDone (tws_set_binned b s), TwsBreak (Ready (Some TwsOutNoBinsLog)))
  | Err e => (s, TwsBreak (Ready (Some (TwsOutErr e))))
  | Panic => (s, TwsPanic)
  end.

(** The end of [handle_main]: after an error the stream is done. *)
Definition tws_main_end (r : TwStream * tws_flow) : TwStream * tws_flow :=
  let '(s, ret) := r in
  match ret with
  | TwsBreak (Ready (Some (TwsOutErr _))) | TwsBreak (Ready (Some (TwsOutInputErr _))) => (tws_set_state TwsDone s, ret)
  | _ => (s, ret)
  end.

(** An error of [handle_eos] leaves the function before that end. *)
Definition tws_handle_main (s : TwStream) : TwStream * tws_flow :=
  match tws_state s with
  | TwsReading =>
      match tws_inp s with
      | Ready x :: inp => tws_main_end (tws_handle_sitemty x (tws_set_inp inp s))
      | Pending :: inp => tws_main_end (tws_set_inp inp s, TwsBreak Pending)
      | [] => tws_handle_eos s
      end
  | TwsBuffered evs => tws_main_end (tws_handle_buffered evs s)
  | TwsRemains => tws_main_end (tws_handle_remains s)
  | TwsDone => tws_main_end (tws_set_state TwsInvalid s, TwsBreak (Ready None))
  | TwsInvalid => (s, TwsPanic)
  end.

(** A turn of the loop takes an item of the input, an event of the buffer, or ends it. *)
Definition tws_weight (s : TwStream) : nat :=
  (match tws_state s with TwsBuffered evs => ce_len (eb_evs evs) | _ => 0 end +
   list_sum (map (fun p : Poll TwsItem => match p with Ready (SOk (DataItem (Data (ChEvents evs)))) => S (ce_len (eb_evs evs)) | _ => 1 end) (tws_inp s)))%nat.

Fixpoint tws_loop (fuel : nat) (s : TwStream) : TwStream * tws_flow :=
  match fuel with
  | O => (s, TwsContinue)
  | S fuel =>
      match tws_handle_main s with
      | (s, TwsContinue) => tws_loop fuel s
      | r => r
      end
  end.

Definition tws_poll_next (s : TwStream) : TwStream * tws_flow := tws_loop (tws_weight s + 2) s.

(** A consumer that polls until the end. *)
Fixpoint tws_drain (polls : nat) (s : TwStream) : option (list TwsOut) :=
  match polls with
  | O => None
  | S polls =>
      match tws_poll_next s with
      | (s, TwsBreak (Ready (Some item))) => items ← tws_drain polls s; Some (item :: items)
      | (_, TwsBreak (Ready None)) => Some []
      | (s, TwsBreak Pending) => tws_drain polls s
      | (_, TwsContinue) | (_, TwsPanic) => None
      end
  end.

End Stream.
End TwStream.

(** ** [ConvertForBinning]

    The stream in front, of [daqbuf-streams/src/events/convertforbinning.rs]: after
    it the values of all containers are of one type. *)

(** [to_f32_for_binning_v01] of a value, with [V] the type of the result. *)
Class ForBinning (W V : Type) : Type := to_f32_for_binning_v01 : W -> V.

#[export] Instance ForBinning_f32 : ForBinning F32 F32 := fun x => x.
#[export] Instance ForBinning_f64 : ForBinning F64 F32 := fun x => mkF32 (f32_of_f64 (f64_val x)).
#[export] Instance ForBinning_u64 : ForBinning Z F32 := fun x => mkF32 (f32_of_u64 x).
#[export] Instance ForBinning_bool : ForBinning bool F32 := fun x => mkF32 (f32_of_u64 (if x then 1 else 0)).
#[export] Instance ForBinning_string : ForBinning string F32 := fun x => mkF32 (f32_of_u64 (Z.of_nat (String.length x))).
#[export] Instance ForBinning_list {W} `{ForBinning W F32} : ForBinning (list W) F32 := fun l =>
  foldl (fun a x => mkF32 (f32_add (f32_val a) (f32_val (to_f32_for_binning_v01 x)))) (mkF32 (f32_of_u64 0)) l.

Section Convert.
  Context {K : Type} {val : K -> Type} {V L St E : Type} {Hconv : forall i, ForBinning (val i) V}.

Definition ce_to_f32_for_binning_v01 {W} `{ForBinning W V} (c : ContainerEvents W) : ContainerEvents V :=
  foldl (fun ret r => ce_push_back ret r.1 (to_f32_for_binning_v01 r.2)) ce_new (ce_iter_zip c).

Definition eb_to_f32_for_binning_v01 (evs : EventsBoxed (val := val)) : EventsBoxed (K := unit) (val := fun _ => V) :=
  mkBoxed (val := fun _ => V) tt (ce_to_f32_for_binning_v01 (eb_evs evs)).

(** An item in [poll_next]; pauses and the end pass. *)
Definition cfb_item (item : TwsItem (val := val) (L := L) (St := St) (E := E)) : TwsItem (K := unit) (val := fun _ => V) (L := L) (St := St) (E := E) :=
  match item with
  | SOk (DataItem (Data (ChEvents evs))) => SOk (DataItem (Data (ChEvents (eb_to_f32_for_binning_v01 evs))))
  | SOk (DataItem (Data (ChStatus x))) => SOk (DataItem (Data (ChStatus x)))
  | SOk (DataItem RangeComplete) => SOk (DataItem RangeComplete)
  | SOk (Log x) => SOk (Log x)
  | SOk (Stats x) => SOk (Stats x)
  | SErr e => SErr e
  end.

End Convert.
