(* ===== verification/TwStreamProofs.v ===== *)
(** * What the stream of bins puts out

    [tws_bins]: the stream puts out, in pieces and in order, exactly the bins that
    the binner gives for all the containers in one go; log and statistics items pass
    through, and a message follows at the end.

    The bins put out do not matter for what the binner does next: [p_strip] takes
    them from its pure state, and all steps commute with adding them ([p_pre]). *)
From Stdlib Require Import ZArith Lia.
From stdpp Require Import base numbers option strings list sorting.
From S2P Require Import Prelude TimeTypes Items Ranges Events Bins Floats Timeweight TimeweightProofs Merger ChannelEvents TwStream.

#[local] Open Scope Z_scope.
#[local] Open Scope rust_scope.

(** ** The bins put out so far *)
Section Strip.
  Context {V A B : Type} `{EventValueType V} `{AggregatorTimeWeightLaws V A B}.

Definition p_pre (bs : list (Bin V B)) (P : PState (V := V) (B := B)) : PState (V := V) (B := B) :=
  mkP (p_b P) (p_fu P) (p_lst P) (p_mm P) (p_cnt P) (p_segs P) (bs ++ p_bins P).
Definition p_strip (P : PState (V := V) (B := B)) : PState (V := V) (B := B) := mkP (p_b P) (p_fu P) (p_lst P) (p_mm P) (p_cnt P) (p_segs P) [].

Implicit Types (P : PState (V := V) (B := B)).

Lemma p_pre_strip P : P = p_pre (p_bins P) (p_strip P).
Proof. destruct P. unfold p_pre, p_strip. cbn. by rewrite app_nil_r. Qed.

Lemma p_event_pre bs P ev : p_event (p_pre bs P) ev = p_pre bs (p_event P ev).
Proof. unfold p_event. cbn [p_pre p_b]. by destruct (ev.1 =? p_b P). Qed.

Lemma p_close_pre L bs P : p_close (A := A) L (p_pre bs P) = p_pre bs (p_close L P).
Proof. unfold p_close, p_pre. cbn. by rewrite app_assoc. Qed.

Lemma p_cross_pre L t bs P : p_cross (A := A) L t (p_pre bs P) = p_pre bs (p_cross L t P).
Proof.
  unfold p_cross. cbn [p_pre p_b]. set (n := Z.to_nat _).
  assert (Hn : Nat.iter n (p_close (A := A) L) (p_pre bs P) = p_pre bs (Nat.iter n (p_close L) P)).
  { generalize n. clear n. intros n. induction n as [|n IH]; [done|]. by rewrite !Nat.iter_succ, IH, p_close_pre. }
  fold (p_pre bs P). rewrite Hn. unfold p_enter. cbn [p_pre p_fu]. by destruct (_ <? t).
Qed.

Lemma p_step_pre L bs P ev : p_step (A := A) L (p_pre bs P) ev = p_pre bs (p_step L P ev).
Proof.
  unfold p_step. cbn [p_pre p_b]. destruct (p_b P + L <=? ev.1); [fold (p_pre bs P); by rewrite p_cross_pre, p_event_pre|].
  fold (p_pre bs P). by rewrite p_event_pre.
Qed.

Lemma p_steps_pre L bs P l : foldl (p_step (A := A) L) (p_pre bs P) l = p_pre bs (foldl (p_step L) P l).
Proof. revert P. induction l as [|ev l IH]; intros P; [done|]. cbn [foldl]. by rewrite p_step_pre, IH. Qed.

(** The steps on the stripped state put out what is new. *)
Lemma p_steps_strip L P l :
  p_bins (foldl (p_step (A := A) L) P l) = p_bins P ++ p_bins (foldl (p_step L) (p_strip P) l) /\
  p_strip (foldl (p_step (A := A) L) P l) = p_strip (foldl (p_step L) (p_strip P) l).
Proof. rewrite (p_pre_strip P) at 1 4. by rewrite p_steps_pre. Qed.

Lemma p_cross_strip L t P : p_bins (p_cross (A := A) L t P) = p_bins P ++ p_bins (p_cross L t (p_strip P)).
Proof. rewrite (p_pre_strip P) at 1. by rewrite p_cross_pre. Qed.

Lemma p_strip_ok L P : p_ok L P -> p_ok L (p_strip P).
Proof. by intros []. Qed.

Lemma p_strip_room L en P : room L en P -> room L en (p_strip P).
Proof. unfold room. cbn [p_strip p_bins p_b length]. lia. Qed.

Lemma tw_output_strip range P :
  tw_output (state_of range P) = Ok (state_of range (p_strip P), cb_of (p_bins P)).
Proof. done. Qed.

End Strip.

(** ** The stream, for containers of one type *)
Section StreamProofs.
  Context {K : Type} `{EqDecision K} {val agg res : K -> Type} {Hval : forall i, EventValueType (val i)}
    {Hagg : forall i, AggregatorTimeWeight (val i) (agg i) (res i)} {L St E : Type}.
  Context (i : K) {Hlaws : AggregatorTimeWeightLaws (val i) (agg i) (res i)}.

Implicit Types (c : ContainerEvents (val i)) (seen : list (Z * val i)).

Definition bnb_downcast (b : BinsBoxed (val := val) (res := res)) : option (ContainerBins (val i) (res i)) :=
  match decide (bnb_ty b = i) with
  | left e => Some (eq_rect (bnb_ty b) (fun j => ContainerBins (val j) (res j)) (bnb_bins b) i e)
  | right _ => None
  end.

Definition bnb_list (b : BinsBoxed (val := val) (res := res)) : list (Bin (val i) (res i)) :=
  match bnb_downcast b with Some c => cb_zip_iter_2 c | None => [] end.

Lemma bnb_list_self bins : bnb_list (mkBinsBoxed i (cb_of bins)) = bins.
Proof.
  unfold bnb_list, bnb_downcast. cbn [bnb_ty bnb_bins]. rewrite (decide_True_pi (eq_refl i)). cbn [eq_rect]. apply cb_of_spec.
Qed.

Definition TwsOutT : Type := TwsOut (val := val) (res := res) (L := L) (St := St) (E := E).
Definition TwStreamT : Type := TwStream (val := val) (agg := agg) (res := res) (L := L) (St := St) (E := E).
Definition TwsPoll : Type := Poll (TwsItem (val := val) (L := L) (St := St) (E := E)).

Definition tws_out_bins (o : TwsOutT) : list (Bin (val i) (res i)) := match o with TwsOutBins b => bnb_list b | _ => [] end.
Definition tws_out_rest (o : TwsOutT) : list TwsOutT := match o with TwsOutBins _ => [] | _ => [o] end.

(** What passes through of a poll of the input, and the container in it. *)
Definition poll_passes (p : TwsPoll) : list TwsOutT :=
  match p with Ready (SOk (Log x)) => [TwsOutLog x] | Ready (SOk (Stats x)) => [TwsOutStats x] | _ => [] end.
Definition poll_container (p : TwsPoll) : option (ContainerEvents (val i)) :=
  match p with Ready (SOk (DataItem (Data x))) => che_container i x | _ => None end.

(** No errors, and containers of the one type only. *)
Definition tws_poll_ok (p : TwsPoll) : Prop :=
  match p with
  | Ready (SErr _) => False
  | Ready (SOk (DataItem (Data (ChEvents b)))) => exists c, b = mkBoxed i c
  | _ => True
  end.

Definition tws_containers (inp : list TwsPoll) : list (ContainerEvents (val i)) := omap poll_container inp.

Section Run.
  Context (range : BinnedRange TsNano) (cs : list (ContainerEvents (val i))).
  Hypothesis Hin : tw_input range cs.
Local Abbreviation en := (bin_len range * (bin_off range + bin_cnt range)).
Local Abbreviation p_run e0 l := (foldl (p_step (A := agg i) (B := res i) (bin_len range)) (p_first range (bin_len range * bin_off range) e0) l).

(** The binner after the events [seen], its bins being put out, and these bins. *)
Definition lazy_of seen : TwLazy (val := val) (agg := agg) (res := res) :=
  mkTwLazy range (match seen with [] => None | e0 :: l => Some (mkTwDyn i (state_of range (p_strip (p_run e0 l)))) end) true.
Definition bins_of seen : list (Bin (val i) (res i)) := match seen with [] => [] | e0 :: l => p_bins (p_run e0 l) end.
Definition bins_end seen : list (Bin (val i) (res i)) :=
  match seen with [] => [] | e0 :: l => p_bins (p_cross (A := agg i) (bin_len range) en (p_run e0 l)) end.

(** Output of a binner in its pure form. *)
Lemma twd_output_spec P :
  twd_output (mkTwDyn i (state_of range P)) =
    Ok (mkTwDyn i (state_of range (p_strip P)), if (length (p_bins P) =? 0)%nat then None else Some (mkBinsBoxed i (cb_of (p_bins P)))).
Proof.
  unfold twd_output, tw_output_len. cbn [twd_binner twd_ty state_of tw_out]. fold (state_of range P). rewrite cb_of_len.
  destruct (Nat.eqb_spec (length (p_bins P)) 0) as [Hz|_]; [|by rewrite tw_output_strip].
  apply length_zero_iff_nil in Hz. destruct P as [b fu lst mm cnt segs bins]. cbn in Hz. by subst.
Qed.

(** A container is taken whole. *)
Lemma twl_ingest_spec seen c rest : ce_wf c -> ce_iter_zip c <> [] -> evs_of cs = seen ++ ce_iter_zip c ++ rest ->
  exists P, twl_ingest (lazy_of seen) (mkBoxed i c) = Ok (mkTwLazy range (Some (mkTwDyn i (state_of range P))) true, ConsumedAll) /\
    bins_of (seen ++ ce_iter_zip c) = bins_of seen ++ p_bins P /\
    lazy_of (seen ++ ce_iter_zip c) = mkTwLazy range (Some (mkTwDyn i (state_of range (p_strip P)))) true.
Proof.
  intros Hw Hne Hevs. unfold twl_ingest, twl_binner. destruct seen as [|e0 l].
  - destruct (ce_iter_zip c) as [|e0 l] eqn:Hz; [done|]. clear Hne. cbn [app] in Hevs.
    pose proof (tw_run_facts (B := res i) range cs e0 (l ++ rest) Hin Hevs) as Hrf. destruct Hin as [HL Ho [Hc _] Hfit _ _ _ _].
    destruct (tw_new_none (A := agg i) (B := res i) range HL Ho Hc Hfit) as [Hnew _].
    exists (p_run e0 l). destruct Hrf as [_ Hen Hend Hb Hbe Hge Hrm He0 Hs Hcom].
    assert (Hs' : StronglySorted Z.le (e0 :: l).*1) by (change (e0 :: l ++ rest) with ((e0 :: l) ++ rest) in Hs; rewrite fmap_app in Hs; by apply sorted_app_inv in Hs as (? & _)).
    destruct (cursor_new c Hw) as [Hcu Hrest]; [apply sorted_container; [done|by rewrite Hz]|]. rewrite Hz in Hrest.
    assert (Hcom1 : coming (B := res i) en (p_first range (bin_len range * bin_off range) e0) l).
    { destruct Hcom as [Hs1 Hf]. rewrite fmap_app in Hs1. apply sorted_app_inv in Hs1 as (? & _). by apply Forall_app in Hf as [? _]. }
    unfold twd_ingest. cbn [lazy_of twl_binned twl_range twl_enable_cnt_zero eb_ty twd_new twd_cnt_zero_enable twd_ty twd_binner].
    rewrite eb_downcast_self, Hnew. unfold tw_ingest.
    rewrite (tw_ingest_loop_none range en HL Hen _ _ (tk_new c) e0 l 0 Hend Hb) by
      (done || apply Z.divide_factor_l || (unfold ce_len; rewrite <- (ce_zip_length c Hw), Hz; cbn [length]; lia)).
    cbn [map_err and_then]. split; [done|]. by split.
  - cbn [app] in Hevs. rewrite <- app_assoc in Hevs || idtac.
    pose proof (tw_run_facts (B := res i) range cs e0 (l ++ ce_iter_zip c ++ rest) Hin Hevs) as Hrf.
    destruct (run_facts_steps (A := agg i) _ _ _ _ _ Hrf) as (Hok & Hroom & Hb & Hcom). destruct Hrf as [HL Hen Hend _ _ Hge _ _ _ _].
    assert (Hcom1 : coming (B := res i) en (p_run e0 l) (ce_iter_zip c)).
    { destruct Hcom as [Hs1 Hf]. rewrite fmap_app in Hs1. apply sorted_app_inv in Hs1 as (? & _). by apply Forall_app in Hf as [? _]. }
    destruct (cursor_new c Hw) as [Hcu Hrest]; [apply sorted_container; [done|apply Hcom1]|].
    exists (foldl (p_step (bin_len range)) (p_strip (p_run e0 l)) (ce_iter_zip c)).
    unfold twd_ingest. cbn [lazy_of twl_binned twl_range twl_enable_cnt_zero twd_ty twd_binner]. rewrite eb_downcast_self. unfold tw_ingest.
    rewrite <- Hrest in Hcom1 |- *.
    destruct (tw_ingest_loop_spec range en HL Hen (ce_len c + 1) (p_strip (p_run e0 l)) (tk_new c) 0 Hend Hge) as (Hing & _);
      [by apply p_strip_ok|cbn [p_strip p_b]; lia|by apply p_strip_room|done|exact Hcom1|rewrite Hrest, ce_zip_length by done; unfold ce_len; lia|].
    rewrite Hing. cbn [map_err and_then]. split; [done|]. unfold bins_of, lazy_of. cbn [app]. rewrite foldl_app, Hrest.
    destruct (p_steps_strip (A := agg i) (bin_len range) (p_run e0 l) (ce_iter_zip c)) as [-> ->]. done.
Qed.

(** What is put out is a container of these bins. *)
Definition out_boxed (out : option (BinsBoxed (val := val) (res := res))) : Prop :=
  match out with Some b => exists bins, b = mkBinsBoxed i (cb_of bins) | None => True end.

(** What consuming a container does. *)
Lemma tws_consume_spec seen c rest : ce_wf c -> ce_iter_zip c <> [] -> evs_of cs = seen ++ ce_iter_zip c ++ rest ->
  exists evs out, tws_consume_evsbuf (mkBoxed i c) (lazy_of seen) = Ok (evs, lazy_of (seen ++ ce_iter_zip c), out) /\
    ce_len (eb_evs evs) = 0%nat /\ out_boxed out /\
    bins_of (seen ++ ce_iter_zip c) = bins_of seen ++ match out with Some b => bnb_list b | None => [] end.
Proof.
  intros Hw Hne Hevs. destruct (twl_ingest_spec seen c rest Hw Hne Hevs) as (P & Hing & Hbins & Hlazy).
  assert (Hlen : ce_len c <> 0%nat) by (unfold ce_len; rewrite <- ce_zip_length by done; by destruct (ce_iter_zip c)).
  unfold tws_consume_evsbuf. cbn [eb_evs eb_ty]. rewrite (proj2 (Nat.eqb_neq _ _) Hlen), Hing. cbn [and_then].
  unfold twl_output. cbn [twl_binned twl_range twl_enable_cnt_zero]. rewrite twd_output_spec. cbn [and_then].
  cbn [tws_consumed]. rewrite Hlazy, Hbins, ?(proj2 (Nat.eqb_neq _ _) Hlen).
  assert (Htr : ce_len (ce_truncate_front c (ce_len c - ce_len c)) = 0%nat).
  { rewrite Nat.sub_diag. unfold ce_truncate_front. destruct (Nat.ltb_spec 0 (ce_len c)); [|lia]. rewrite Nat.sub_0_r.
    unfold ce_len. cbn [ce_tss]. by rewrite length_drop, Nat.sub_diag. }
  destruct (Nat.eqb_spec (length (p_bins P)) 0) as [Hz|Hz].
  - apply length_zero_iff_nil in Hz. rewrite Hz. eexists _, None. split; [done|]. split; [exact Htr|]. by split.
  - cbn [bnb_bins bnb_ty]. rewrite cb_of_len. rewrite (proj2 (Nat.eqb_neq _ _) Hz). eexists _, (Some _). split; [done|].
    split; [exact Htr|]. split; [by eexists|]. by rewrite bnb_list_self.
Qed.

(** The end of the input: the bins that are left come with the next output, and
    then none. *)
Lemma twl_final_spec : exists b b' bins,
  twl_input_done_range_final (lazy_of (evs_of cs)) = Ok b /\
  twl_output b = Ok (b', if (length bins =? 0)%nat then None else Some (mkBinsBoxed i (cb_of bins))) /\
  twl_output b' = Ok (b', None) /\ bins_end (evs_of cs) = bins_of (evs_of cs) ++ bins.
Proof.
  unfold twl_input_done_range_final, twl_map. destruct (evs_of cs) as [|e0 l] eqn:Hevs; unfold lazy_of; cbn [twl_binned].
  { by exists (mkTwLazy range None true), (mkTwLazy range None true), []. }
  pose proof (tw_run_facts (B := res i) range cs e0 l Hin Hevs) as Hrf. rewrite <- (app_nil_r l) in Hrf.
  destruct (run_facts_steps (A := agg i) _ _ _ _ _ Hrf) as (Hok & Hroom & Hb & _). destruct Hrf as [HL Hen Hend _ _ Hge _ _ _ _].
  set (P := p_cross (A := agg i) (bin_len range) en (p_strip (p_run e0 l))).
  exists (mkTwLazy range (Some (mkTwDyn i (state_of range P))) true), (mkTwLazy range (Some (mkTwDyn i (state_of range (p_strip P)))) true), (p_bins P).
  unfold twd_input_done_range_final. cbn [twd_binner twd_ty].
  rewrite (tw_final_spec range en HL Hen) by (done || by apply p_strip_ok || by apply p_strip_room). cbn [map_err and_then].
  split; [done|]. unfold twl_output. cbn [twl_binned twl_range twl_enable_cnt_zero]. rewrite !twd_output_spec. cbn [and_then].
  split; [done|]. split; [done|]. apply p_cross_strip.
Qed.

(** A poll with some fuel, and the polls after it. *)
Definition tws_go (polls fuel : nat) (s : TwStreamT) : option (list TwsOutT) :=
  match tws_loop fuel s with
  | (s, TwsBreak (Ready (Some item))) => items ← tws_drain polls s; Some (item :: items)
  | (_, TwsBreak (Ready None)) => Some []
  | (s, TwsBreak Pending) => tws_drain polls s
  | (_, TwsContinue) | (_, TwsPanic) => None
  end.

Lemma tws_drain_go polls (s : TwStreamT) : tws_drain (S polls) s = tws_go polls (tws_weight s + 2) s.
Proof. done. Qed.

(** What the stream is to give from here on. *)
Definition tws_right seen (inp : list TwsPoll) (r : option (list TwsOutT)) : Prop :=
  exists items, r = Some items /\ bins_of seen ++ concat (map tws_out_bins items) = bins_end (evs_of cs) /\
    concat (map tws_out_rest items) = concat (map poll_passes inp) ++ [TwsOutNoBinsLog].

Definition tws_at seen (inp : list TwsPoll) (rf : bool) : TwStreamT := mkTwStream TwsReading inp (lazy_of seen) rf.

Lemma tws_drain_done polls (s : TwStreamT) : tws_state s = TwsDone -> tws_drain (S polls) s = Some [].
Proof.
  intros Hs. rewrite tws_drain_go. unfold tws_go. rewrite Nat.add_comm. cbn [plus tws_loop]. unfold tws_handle_main. by rewrite Hs.
Qed.

(** Single turns. *)
Lemma tws_main_eos b b' rf : twl_input_done_range_final b = Ok b' ->
  tws_handle_main (mkTwStream TwsReading [] b rf : TwStreamT) = (mkTwStream TwsRemains [] b' rf, TwsContinue).
Proof. intros Hb. unfold tws_handle_main, tws_handle_eos. cbn. by rewrite Hb. Qed.

Lemma tws_main_remains inp b b' o rf : twl_output b = Ok (b', o) ->
  tws_handle_main (mkTwStream TwsRemains inp b rf : TwStreamT) =
    match o with
    | Some x => (mkTwStream TwsRemains inp b' rf, TwsBreak (Ready (Some (TwsOutBins x))))
    | None => (mkTwStream TwsDone inp b' rf, TwsBreak (Ready (Some TwsOutNoBinsLog)))
    end.
Proof. intros Hb. unfold tws_handle_main, tws_handle_remains. cbn. rewrite Hb. by destruct o. Qed.

Lemma tws_drain_remains polls inp b b' o rf : twl_output b = Ok (b', o) ->
  tws_drain (S polls) (mkTwStream TwsRemains inp b rf : TwStreamT) =
    match o with
    | Some x => items ← tws_drain polls (mkTwStream TwsRemains inp b' rf : TwStreamT); Some (TwsOutBins x :: items)
    | None => items ← tws_drain polls (mkTwStream TwsDone inp b' rf : TwStreamT); Some (TwsOutNoBinsLog :: items)
    end.
Proof.
  intros Hb. rewrite tws_drain_go. unfold tws_go. rewrite Nat.add_comm. cbn [plus tws_loop].
  rewrite (tws_main_remains _ _ _ _ _ Hb). by destruct o.
Qed.

Lemma tws_go_end polls fuel rf : (2 <= polls)%nat -> (2 <= fuel)%nat -> tws_right (evs_of cs) [] (tws_go polls fuel (tws_at (evs_of cs) [] rf)).
Proof.
  intros Hp Hf. destruct polls as [|[|polls]]; [lia|lia|]. destruct fuel as [|[|fuel]]; [lia|lia|].
  destruct twl_final_spec as (b & b' & bins & Hfin & Hout & Hout' & Hbins).
  unfold tws_go, tws_at. cbn [tws_loop]. rewrite (tws_main_eos _ _ _ Hfin), (tws_main_remains _ _ _ _ _ Hout).
  unfold tws_right. rewrite Hbins. destruct (Nat.eqb_spec (length bins) 0) as [Hz|Hz].
  - apply length_zero_iff_nil in Hz as ->. exists [TwsOutNoBinsLog]. by rewrite tws_drain_done.
  - exists [TwsOutBins (mkBinsBoxed i (cb_of bins)); TwsOutNoBinsLog]. split.
    + by rewrite (tws_drain_remains _ _ _ _ _ _ Hout'), tws_drain_done.
    + cbn [map concat tws_out_bins tws_out_rest poll_passes app]. by rewrite bnb_list_self, app_nil_r.
Qed.

Lemma tws_main_events seen c inp rf :
  tws_handle_main (tws_at seen (Ready (SOk (DataItem (Data (ch_events i c)))) :: inp) rf) =
    (if (ce_len c =? 0)%nat then tws_at seen inp rf else mkTwStream (TwsBuffered (mkBoxed i c)) inp (lazy_of seen) rf, TwsContinue).
Proof. unfold tws_handle_main, tws_handle_sitemty. cbn. by destruct (ce_len c =? 0)%nat. Qed.

Lemma tws_main_buffered seen c rest inp rf : ce_wf c -> ce_iter_zip c <> [] -> evs_of cs = seen ++ ce_iter_zip c ++ rest ->
  exists out, tws_handle_main (mkTwStream (TwsBuffered (mkBoxed i c)) inp (lazy_of seen) rf : TwStreamT) =
      (tws_at (seen ++ ce_iter_zip c) inp rf, match out with Some x => TwsBreak (Ready (Some (TwsOutBins x))) | None => TwsContinue end) /\ out_boxed out /\
    bins_of (seen ++ ce_iter_zip c) = bins_of seen ++ match out with Some b => bnb_list b | None => [] end.
Proof.
  intros Hw Hne Hevs. destruct (tws_consume_spec seen c rest Hw Hne Hevs) as (evs & out & Hcon & Hz & Hbox & Hbins).
  exists out. split; [|done]. unfold tws_handle_main. cbn [tws_state]. unfold tws_handle_buffered. cbn [eb_evs eb_ty tws_binned].
  assert (Hlen : ce_len c <> 0%nat) by (unfold ce_len; rewrite <- ce_zip_length by done; by destruct (ce_iter_zip c)).
  rewrite (proj2 (Nat.eqb_neq _ _) Hlen), Hcon, Hz. by destruct out.
Qed.

Lemma tws_right_silent seen p inp r : poll_passes p = [] -> tws_right seen inp r -> tws_right seen (p :: inp) r.
Proof. intros Hp (items & -> & Hb & Hr). exists items. cbn [map concat]. by rewrite Hp. Qed.

Lemma tws_right_pass seen p inp o r : tws_out_bins o = [] -> tws_out_rest o = poll_passes p ->
  tws_right seen inp r -> tws_right seen (p :: inp) (items ← r; Some (o :: items)).
Proof.
  intros Ho Hp (items & -> & Hb & Hr). exists (o :: items). cbn [map concat]. rewrite Ho, Hp, Hr. split; [done|]. split; [done|]. by rewrite app_assoc.
Qed.

Lemma tws_right_bins seen seen' p inp b r : poll_passes p = [] -> bins_of seen' = bins_of seen ++ bnb_list b ->
  tws_right seen' inp r -> tws_right seen (p :: inp) (items ← r; Some (TwsOutBins b :: items)).
Proof.
  intros Hp Hs (items & -> & Hb & Hr). exists (TwsOutBins b :: items). split; [done|]. cbn [map concat tws_out_bins tws_out_rest].
  rewrite Hp. split; [by rewrite app_assoc, <- Hs|done].
Qed.

Lemma tws_weight_at seen seen' p inp rf rf' : (tws_weight (tws_at seen inp rf) < tws_weight (tws_at seen' (p :: inp) rf'))%nat.
Proof. unfold tws_weight. cbn. destruct p as [[[[|[]]| |]|]|]; lia. Qed.

Lemma tws_go_spec inp : forall polls fuel seen rf,
  Forall tws_poll_ok inp -> Forall ce_wf (tws_containers inp) -> evs_of cs = seen ++ evs_of (tws_containers inp) ->
  (length inp + 2 <= polls)%nat -> (tws_weight (tws_at seen inp rf) + 2 <= fuel)%nat ->
  tws_right seen inp (tws_go polls fuel (tws_at seen inp rf)).
Proof.
  induction inp as [|p inp IH]; intros polls fuel seen rf Hok Hw Hevs Hp Hf.
  { cbn in Hevs. rewrite app_nil_r in Hevs. subst seen. apply tws_go_end; cbn in *; lia. }
  apply Forall_cons in Hok as [Hok Hoks]. destruct fuel as [|fuel]; [lia|]. destruct polls as [|polls]; [lia|]. cbn [length] in Hp.
  assert (Hw' : forall seen' rf', (tws_weight (tws_at seen' inp rf') + 2 <= fuel)%nat)
    by (intros seen' rf'; pose proof (tws_weight_at seen' seen p inp rf' rf); lia).
  assert (Hnext : forall seen' rf', Forall ce_wf (tws_containers inp) -> evs_of cs = seen' ++ evs_of (tws_containers inp) ->
    tws_right seen' inp (tws_go (S polls) fuel (tws_at seen' inp rf')) /\ tws_right seen' inp (tws_drain (S polls) (tws_at seen' inp rf')))
    by (intros seen' rf' Hw1 He1; rewrite tws_drain_go; split; apply IH; done || lia).
  destruct p as [[[[|[b|st]]|x|x]|e]|]; cbn [tws_poll_ok] in Hok; try done; unfold tws_go; cbn [tws_loop].
  - apply tws_right_silent; [done|]. by apply Hnext.
  - destruct Hok as [c ->]. unfold tws_containers in Hw, Hevs. cbn [omap list_omap poll_container che_container] in Hw, Hevs.
    rewrite eb_downcast_self in Hw, Hevs. apply Forall_cons in Hw as [Hwc Hw].
    change (evs_of (c :: omap poll_container inp)) with (ce_iter_zip c ++ evs_of (tws_containers inp)) in Hevs.
    change (ChEvents {| eb_ty := i; eb_evs := c |}) with (ch_events i c). rewrite tws_main_events.
    destruct (Nat.eqb_spec (ce_len c) 0) as [Hz|Hz].
    + assert (Hnil : ce_iter_zip c = []) by (apply length_zero_iff_nil; by rewrite ce_zip_length).
      rewrite Hnil in Hevs. apply tws_right_silent; [done|]. by apply Hnext.
    + assert (Hne : ce_iter_zip c <> []) by (intros Hn; apply Hz; unfold ce_len; by rewrite <- ce_zip_length, Hn).
      assert (Hf2 : (tws_weight (tws_at seen inp rf) + 3 <= fuel)%nat) by (unfold tws_weight in Hf |- *; cbn in Hf |- *; lia).
      destruct fuel as [|fuel]; [lia|]. cbn [tws_loop].
      destruct (tws_main_buffered seen c _ inp rf Hwc Hne Hevs) as (out & -> & _ & Hbins). rewrite app_assoc in Hevs.
      destruct out as [b|].
      * eapply tws_right_bins; [done|exact Hbins|]. by apply Hnext.
      * rewrite app_nil_r in Hbins. apply tws_right_silent; [done|].
        assert (Hgo : tws_right (seen ++ ce_iter_zip c) inp (tws_go (S polls) fuel (tws_at (seen ++ ce_iter_zip c) inp rf))).
        { apply IH; try done; [lia|]. unfold tws_weight, tws_at in Hf2 |- *. cbn [tws_state tws_inp] in Hf2 |- *. lia. }
        destruct Hgo as (items & Hgo & Hb & Hr). exists items. rewrite <- Hbins. done.
  - apply tws_right_silent; [done|]. by apply Hnext.
  - apply tws_right_pass; [done|done|]. by apply Hnext.
  - apply tws_right_pass; [done|done|]. by apply Hnext.
  - apply tws_right_silent; [done|]. by apply Hnext.
Qed.

End Run.

(** The bins of a run are those that the stream is to give. *)
Lemma tws_bins_end range cs : tw_input range cs -> tw_gives (A := agg i) range cs (bins_end range (evs_of cs)).
Proof.
  intros Hin. unfold bins_end. destruct (evs_of cs) as [|e0 l] eqn:Hevs; [|by apply tw_gives_run].
  destruct Hin as [HL Ho Hc Hfit Hw _ _ _]. destruct (tw_new_none (A := agg i) (B := res i) range HL Ho (proj1 Hc) Hfit).
  apply tw_gives_none; done || lia.
Qed.

(** The whole run of the stream. *)
Lemma tws_drains range (inp : list TwsPoll) polls :
  Forall tws_poll_ok inp -> tw_input range (tws_containers inp) -> (length inp + 3 <= polls)%nat ->
  exists items, tws_drain polls (tws_new range inp : TwStreamT) = Some items /\
    tw_gives (A := agg i) range (tws_containers inp) (concat (map tws_out_bins items)) /\
    concat (map tws_out_rest items) = concat (map poll_passes inp) ++ [TwsOutNoBinsLog].
Proof.
  intros Hok Hin Hp. destruct polls as [|polls]; [lia|]. rewrite tws_drain_go.
  change (tws_new range inp : TwStreamT) with (tws_at range [] inp false).
  destruct (tws_go_spec range (tws_containers inp) Hin inp polls (tws_weight (tws_at range [] inp false) + 2) [] false) as (items & -> & Hb & Hr);
    [done|apply Hin|done|lia|lia|].
  exists items. split; [done|]. split; [|done]. cbn [bins_of app] in Hb. rewrite Hb. by apply tws_bins_end.
Qed.

(** C15. The stream, on an input of any items but errors, with any pauses, whose
    containers are of one type and a valid input of the binner together: polled
    until the end it neither fails nor panics, its bins are in order exactly those
    that the binner gives for all the containers in one go, and what else it puts
    out are the log and statistics items of the input, in order, and one message at
    the end. *)
Theorem tws_bins range (inp : list TwsPoll) polls :
  Forall tws_poll_ok inp -> tw_input range (tws_containers inp) -> (length inp + 3 <= polls)%nat ->
  exists items, tws_drain polls (tws_new range inp : TwStreamT) = Some items /\
    tw_gives (A := agg i) range (tws_containers inp) (concat (map tws_out_bins items)) /\
    concat (map tws_out_rest items) = concat (map poll_passes inp) ++ [TwsOutNoBinsLog].
Proof. apply tws_drains. Qed.

End StreamProofs.

(** ** An example: numbers in containers of one type *)
Section TwsDemo.

#[local] Existing Instance EventValueType_Z.

Definition demo_events (tss vals : list Z) : ChannelEvents (K := unit) (val := fun _ => Z) := ch_events tt (ce_from_constituents tss vals).

Definition demo_polls : list (TwsPoll (K := unit) (val := fun _ => Z) (L := nat) (St := unit) (E := unit)) :=
  [Ready (SOk (Log 7%nat)); Pending; Ready (SOk (DataItem (Data (demo_events [5; 10; 12] [1; 2; 3]))));
   Ready (SOk (DataItem (Data (ChStatus None)))); Ready (SOk (DataItem (Data (demo_events [] []))));
   Ready (SOk (DataItem (Data (demo_events [12; 35] [4; 5])))); Pending; Ready (SOk (DataItem RangeComplete))].

Definition demo_stream : TwStream (K := unit) (val := fun _ => Z) (agg := fun _ => AggregatorNumeric) (res := fun _ => F64) :=
  tws_new demo_range demo_polls.

Lemma tws_bins_witness : exists items, tws_drain 11 demo_stream = Some items /\
  tw_gives (A := AggregatorNumeric) demo_range (tws_containers tt demo_polls) (concat (map (tws_out_bins tt) items)) /\
  concat (map tws_out_rest items) = [TwsOutLog 7%nat; TwsOutNoBinsLog] /\
  map (fun b => (bin_ts1 b, bin_n b)) (concat (map (tws_out_bins tt) items)) = [(10, 3); (20, 0); (30, 1); (40, 0)].
Proof.
  destruct (tws_bins (agg := fun _ => AggregatorNumeric) (res := fun _ => F64) tt demo_range demo_polls 11) as (items & Hd & Hg & Hr).
  - repeat constructor; by eexists.
  - split; [| | | |by repeat constructor| | |]; apply (bool_decide_unpack _); vm_compute; exact I.
  - apply (bool_decide_unpack _); vm_compute; exact I.
  - exists items. split; [exact Hd|]. split; [exact Hg|]. split; [exact Hr|].
    vm_compute in Hd. injection Hd as <-. vm_compute. reflexivity.
Defined.

End TwsDemo.
