(* ===== verification/GapFill.v ===== *)
(** * Filling the gaps of cached bins

    [GapFill] of [daqbuf-streams/src/timebin/gapfill.rs]: the bins of a range come
    from the cache; where the cache has none, they are made from finer bins, which
    come from a [GapFill] of the next finer bin length, or from events
    ([binned_from_events], over [TwStream]). All containers of bins are of one type;
    the wrappers that hide it are left out. *)
From Stdlib Require Import ZArith Lia.
From stdpp Require Import base numbers option strings list sorting.
From S2P Require Import Prelude Items TimeTypes Msp Ranges Events Bins Floats Rebin StreamRun CacheReader Timeweight Merger ChannelEvents TwStream.

#[local] Open Scope Z_scope.
#[local] Open Scope rust_scope.

(** The error of [BinnedFromEvents::new]. *)
Inductive from_events_error : Type :=
  | ExpectTimerange
  | ExpectTimeweighted.

Inductive gapfill_error : Type :=
  | GfCacheReader (e : cr_error)
  | GapFromFiner (ts1 last : TsNano) (bin_len : DtMs)
  | MissingBegFromFiner (ts1 beg : TsNano) (bin_len : DtMs)
  | InputBeforeRange (r : NanoRange) (range : BinnedRange TsNano)
  | GfEventsReader (e : from_events_error).

(** The errors that come out of the stream are made from strings; here the errors
    that the strings are made from. [E] are the errors of the events, [TbEventsTw]
    those of the stream that makes bins from them. *)
Inductive timebin_error (E : Type) : Type :=
  | TbCacheReader (e : cr_error)
  | TbGapFill (e : gapfill_error)
  | TbFinerNotToEnd
  | TbFinerNothing
  | TbRebin (e : bins_tw_error)
  | TbEvents (e : E)
  | TbEventsTw (e : tws_error).
Arguments TbCacheReader {E} e.
Arguments TbGapFill {E} e.
Arguments TbFinerNotToEnd {E}.
Arguments TbFinerNothing {E}.
Arguments TbRebin {E} e.
Arguments TbEvents {E} e.
Arguments TbEventsTw {E} e.

Inductive LogLevel : Type := LevelError | LevelWarn | LevelInfo | LevelDebug | LevelTrace.

Section GapFill.
  Context {V B Lg St E : Type}.

(** The items are those of [BinnedBinsTimeweightStream]. *)
Local Abbreviation TbItem := (BsItem (V := V) (B := B) (L := Lg) (St := St) (E := timebin_error E)).

Record GapFill : Type := mkGapFill {
  gf_range : BinnedRange TsNano;
  gf_inp : option (PollStream TbItem);
  gf_inp_range_final : bool;
  gf_inp_buf : option (ContainerBins V B);
  gf_inp_finer : option (PollStream TbItem);
  gf_inp_finer_range_final : bool;
  gf_inp_finer_range_final_cnt : Z;
  gf_inp_finer_range_final_max : Z;
  gf_inp_finer_fills_gap : bool;
  gf_last_bin_ts2 : option TsNano;
  gf_exp_finer_range : NanoRange;
  gf_bins_for_cache_write : option (ContainerBins V B);
  gf_done : bool
}.

(** [new], given the stream of cached bins. Of the field [cache_writing] nothing
    is left, since it is never set. *)
Definition gf_new (range : BinnedRange TsNano) (inp : PollStream TbItem) : GapFill :=
  mkGapFill range (Some inp) false None None false 0 0 false None (mkNanoRange 0 0) None false.

Definition gf_set_inp (s : GapFill) (inp : option (PollStream TbItem)) : GapFill :=
  mkGapFill (gf_range s) inp (gf_inp_range_final s) (gf_inp_buf s) (gf_inp_finer s) (gf_inp_finer_range_final s)
    (gf_inp_finer_range_final_cnt s) (gf_inp_finer_range_final_max s) (gf_inp_finer_fills_gap s) (gf_last_bin_ts2 s)
    (gf_exp_finer_range s) (gf_bins_for_cache_write s) (gf_done s).
Definition gf_set_inp_final (s : GapFill) : GapFill :=
  mkGapFill (gf_range s) (gf_inp s) true (gf_inp_buf s) (gf_inp_finer s) (gf_inp_finer_range_final s)
    (gf_inp_finer_range_final_cnt s) (gf_inp_finer_range_final_max s) (gf_inp_finer_fills_gap s) (gf_last_bin_ts2 s)
    (gf_exp_finer_range s) (gf_bins_for_cache_write s) (gf_done s).
Definition gf_set_buf (s : GapFill) (buf : option (ContainerBins V B)) : GapFill :=
  mkGapFill (gf_range s) (gf_inp s) (gf_inp_range_final s) buf (gf_inp_finer s) (gf_inp_finer_range_final s)
    (gf_inp_finer_range_final_cnt s) (gf_inp_finer_range_final_max s) (gf_inp_finer_fills_gap s) (gf_last_bin_ts2 s)
    (gf_exp_finer_range s) (gf_bins_for_cache_write s) (gf_done s).
Definition gf_set_finer (s : GapFill) (finer : option (PollStream TbItem)) : GapFill :=
  mkGapFill (gf_range s) (gf_inp s) (gf_inp_range_final s) (gf_inp_buf s) finer (gf_inp_finer_range_final s)
    (gf_inp_finer_range_final_cnt s) (gf_inp_finer_range_final_max s) (gf_inp_finer_fills_gap s) (gf_last_bin_ts2 s)
    (gf_exp_finer_range s) (gf_bins_for_cache_write s) (gf_done s).
Definition gf_set_finer_final (s : GapFill) : GapFill :=
  mkGapFill (gf_range s) (gf_inp s) (gf_inp_range_final s) (gf_inp_buf s) (gf_inp_finer s) true
    (u32_add (gf_inp_finer_range_final_cnt s) 1) (gf_inp_finer_range_final_max s) (gf_inp_finer_fills_gap s) (gf_last_bin_ts2 s)
    (gf_exp_finer_range s) (gf_bins_for_cache_write s) (gf_done s).
Definition gf_set_last (s : GapFill) (ts2 : TsNano) : GapFill :=
  mkGapFill (gf_range s) (gf_inp s) (gf_inp_range_final s) (gf_inp_buf s) (gf_inp_finer s) (gf_inp_finer_range_final s)
    (gf_inp_finer_range_final_cnt s) (gf_inp_finer_range_final_max s) (gf_inp_finer_fills_gap s) (Some ts2)
    (gf_exp_finer_range s) (gf_bins_for_cache_write s) (gf_done s).
Definition gf_set_exp (s : GapFill) (r : NanoRange) : GapFill :=
  mkGapFill (gf_range s) (gf_inp s) (gf_inp_range_final s) (gf_inp_buf s) (gf_inp_finer s) (gf_inp_finer_range_final s)
    (gf_inp_finer_range_final_cnt s) (gf_inp_finer_range_final_max s) (gf_inp_finer_fills_gap s) (gf_last_bin_ts2 s)
    r (gf_bins_for_cache_write s) (gf_done s).
Definition gf_set_write (s : GapFill) (w : option (ContainerBins V B)) : GapFill :=
  mkGapFill (gf_range s) (gf_inp s) (gf_inp_range_final s) (gf_inp_buf s) (gf_inp_finer s) (gf_inp_finer_range_final s)
    (gf_inp_finer_range_final_cnt s) (gf_inp_finer_range_final_max s) (gf_inp_finer_fills_gap s) (gf_last_bin_ts2 s)
    (gf_exp_finer_range s) w (gf_done s).
Definition gf_set_done (s : GapFill) : GapFill :=
  mkGapFill (gf_range s) (gf_inp s) (gf_inp_range_final s) (gf_inp_buf s) (gf_inp_finer s) (gf_inp_finer_range_final s)
    (gf_inp_finer_range_final_cnt s) (gf_inp_finer_range_final_max s) (gf_inp_finer_fills_gap s) (gf_last_bin_ts2 s)
    (gf_exp_finer_range s) (gf_bins_for_cache_write s) true.

Definition gf_bin_len (s : GapFill) : DtMs := br_bin_len_dt_ms (gf_range s).

Definition sitem_data (x : ContainerBins V B) : TbItem := SOk (DataItem (Data x)).

Section Ops.
(** [cache_write]: [cache_usage.is_cache_write()]. [finer]: the stream that
    [setup_inp_finer] makes for a range, [None] when the fuel for it is too little. *)
  Context (cache_write : bool) (finer : NanoRange -> option (outcome gapfill_error (PollStream TbItem))).

(** The loop over the edges in [handle_bins_finer]. *)
Fixpoint gf_check_finer (s : GapFill) (edges : list (TsNano * TsNano)) : GapFill * outcome gapfill_error unit :=
  match edges with
  | [] => (s, Ok tt)
  | (ts1, ts2) :: edges =>
      match gf_last_bin_ts2 s with
      | Some last =>
          if negb (ts1 =? last) then (s, Err (GapFromFiner ts1 last (gf_bin_len s)))
          else gf_check_finer (gf_set_last s ts2) edges
      | None =>
          if negb (ts1 =? br_nano_beg (gf_range s)) then (s, Err (MissingBegFromFiner ts1 (br_nano_beg (gf_range s)) (gf_bin_len s)))
          else gf_check_finer (gf_set_last s ts2) edges
      end
  end.

(** [cache_write_intermediate] does nothing. *)
Definition gf_handle_bins_finer (s : GapFill) (bins : ContainerBins V B) : GapFill * outcome gapfill_error (ContainerBins V B) :=
  match gf_check_finer s (cb_edges_iter bins) with
  | (s, Ok _) =>
      if (cb_len bins =? 0)%nat then (s, Ok bins)
      else
        let dst := default cb_new (gf_bins_for_cache_write s) in
        match cb_drain_into (E := gapfill_error) bins dst 0 (cb_len bins) with
        | Ok (_, dst, _) => (gf_set_write s (Some dst), Ok bins)
        | Err e => (s, Err e)
        | Panic => (s, Panic)
        end
  | (s, Err e) => (s, Err e)
  | (s, Panic) => (s, Panic)
  end.

Definition gf_setup_inp_finer (s : GapFill) (range : NanoRange) (fills_gap : bool) : GapFill * option (outcome gapfill_error unit) :=
  let s := mkGapFill (gf_range s) (gf_inp s) (gf_inp_range_final s) (gf_inp_buf s) (gf_inp_finer s) false
    (gf_inp_finer_range_final_cnt s) (u32_add (gf_inp_finer_range_final_max s) 1) fills_gap (gf_last_bin_ts2 s)
    range (gf_bins_for_cache_write s) (gf_done s) in
  match finer range with
  | Some (Ok st) => (gf_set_finer s (Some st), Some (Ok tt))
  | Some (Err e) => (s, Some (Err e))
  | Some Panic => (s, Some Panic)
  | None => (s, None)
  end.

(** The loop over the edges in [handle_bins]: at the end, or where it returns. *)
Inductive gf_edges_res : Type :=
  | EdgesAll
  | EdgesBeforeRange (e : gapfill_error)
  | EdgesGap (i : nat) (range : NanoRange)
  | EdgesGapBegin (range : NanoRange).

Fixpoint gf_check_edges (s : GapFill) (i : nat) (edges : list (TsNano * TsNano)) : GapFill * gf_edges_res :=
  match edges with
  | [] => (s, EdgesAll)
  | (ts1, ts2) :: edges =>
      if ts1 <? br_nano_beg (gf_range s) then (s, EdgesBeforeRange (InputBeforeRange (NanoRange_from_ns_u64 ts1 ts2) (gf_range s)))
      else
        match gf_last_bin_ts2 s with
        | Some last =>
            if negb (ts1 =? last) then (s, EdgesGap i (mkNanoRange last ts1))
            else gf_check_edges (gf_set_last s ts2) (i + 1) edges
        | None =>
            if negb (ts1 =? br_nano_beg (gf_range s)) then (s, EdgesGapBegin (mkNanoRange (br_nano_beg (gf_range s)) ts1))
            else gf_check_edges (gf_set_last s ts2) (i + 1) edges
        end
  end.

(** What to keep and what to put out. *)
Definition gf_handle_bins (s : GapFill) (bins : ContainerBins V B)
    : GapFill * option (outcome gapfill_error (ContainerBins V B * ContainerBins V B)) :=
  let setup s range keep ret :=
    match gf_setup_inp_finer s range true with
    | (s, Some (Ok _)) => (s, Some (Ok (keep, ret)))
    | (s, Some (Err e)) => (s, Some (Err e))
    | (s, Some Panic) => (s, Some Panic)
    | (s, None) => (s, None)
    end in
  match gf_check_edges s 0 (cb_edges_iter bins) with
  | (s, EdgesAll) => (s, Some (Ok (cb_new, bins)))
  | (s, EdgesBeforeRange e) => (s, Some (Err e))
  | (s, EdgesGap i range) =>
      match cb_drain_into (E := gapfill_error) bins cb_new 0 i with
      | Ok (bins, ret, _) => setup s range bins ret
      | Err e => (s, Some (Err e))
      | Panic => (s, Some Panic)
      end
  | (s, EdgesGapBegin range) => setup s range bins cb_new
  end.

Definition gf_cache_write_on_end (s : GapFill) : GapFill :=
  match gf_bins_for_cache_write s with
  | Some bins => if (2 <=? cb_len bins)%nat then gf_set_write s None else s
  | None => s
  end.

Definition gf_flow : Type := loop_flow TbItem.
Definition gf_ready (x : TbItem) : gf_flow := LoopBreak (Ready (Some x)).
Definition gf_err (e : timebin_error E) : gf_flow := gf_ready (SErr e).

(** [inp_finer] gives an item. *)
Definition gf_finer_item (s : GapFill) (x : TbItem) : GapFill * gf_flow :=
  match x with
  | SOk (DataItem (Data x)) =>
      match gf_handle_bins_finer s x with
      | (s, Ok x) => (s, gf_ready (sitem_data x))
      | (s, Err e) => (s, gf_err (TbGapFill e))
      | (s, Panic) => (s, LoopPanic)
      end
  | SOk (DataItem RangeComplete) =>
      let s := gf_set_finer_final s in
      (if cache_write then gf_cache_write_on_end s else s, LoopContinue)
  | SOk (Log x) => (s, gf_ready (SOk (Log x)))
  | SOk (Stats x) => (s, gf_ready (SOk (Stats x)))
  | SErr e => (s, gf_err e)
  end.

(** [inp_finer] ends. *)
Definition gf_finer_end (s : GapFill) : GapFill * gf_flow :=
  let exp_finer_range := gf_exp_finer_range s in
  let s := gf_set_finer (gf_set_exp s (mkNanoRange 0 0)) None in
  match gf_last_bin_ts2 s with
  | Some j =>
      if TsNano_ns j <? nr_end exp_finer_range then
        if gf_inp_finer_fills_gap s then (s, gf_err TbFinerNotToEnd) else (s, LoopContinue)
      else (s, LoopContinue)
  | None => if gf_inp_finer_fills_gap s then (s, gf_err TbFinerNothing) else (s, LoopContinue)
  end.

(** [inp] gives an item. *)
Definition gf_inp_item (s : GapFill) (x : TbItem) : GapFill * gf_flow :=
  match x with
  | SOk (DataItem (Data x)) => (if (cb_len x =? 0)%nat then s else gf_set_buf s (Some x), LoopContinue)
  | SOk (DataItem RangeComplete) => (gf_set_inp_final s, LoopContinue)
  | SOk (Log x) => (s, gf_ready (SOk (Log x)))
  | SOk (Stats x) => (s, gf_ready (SOk (Stats x)))
  | SErr e => (s, gf_err e)
  end.

(** [inp] ends: the rest of the range, or all of it, from finer bins. *)
Definition gf_inp_end (s : GapFill) : GapFill * gf_flow :=
  let s := gf_set_inp s None in
  let setup range :=
    match gf_setup_inp_finer s range false with
    | (s, Some (Ok _)) => (s, LoopContinue)
    | (s, Some (Err e)) => (s, gf_err (TbGapFill e))
    | (s, Some Panic) => (s, LoopPanic)
    | (s, None) => (s, LoopFuel)
    end in
  match gf_last_bin_ts2 s with
  | Some j =>
      if negb (j =? br_nano_end (gf_range s)) then setup (mkNanoRange (TsNano_ns j) (nr_end (br_full_range (gf_range s))))
      else (s, LoopBreak (Ready None))
  | None => setup (br_to_nano_range (gf_range s))
  end.

(** A turn of the loop in [poll_next]. *)
Definition gf_turn (s : GapFill) : GapFill * gf_flow :=
  if gf_done s then (s, LoopBreak (Ready None))
  else
    match gf_inp_finer s with
    | Some st =>
        match ps_polls st with
        | Ready x :: polls => gf_finer_item (gf_set_finer s (Some (mkPollStream polls (ps_panics st)))) x
        | Pending :: polls => (gf_set_finer s (Some (mkPollStream polls (ps_panics st))), LoopBreak Pending)
        | [] => if ps_panics st then (s, LoopPanic) else gf_finer_end s
        end
    | None =>
        match gf_inp_buf s with
        | Some x =>
            match gf_handle_bins (gf_set_buf s None) x with
            | (s, Some (Ok (keep, item))) =>
                (if (cb_len keep =? 0)%nat then s else gf_set_buf s (Some keep), gf_ready (sitem_data item))
            | (s, Some (Err e)) => (s, gf_err (TbGapFill e))
            | (s, Some Panic) => (s, LoopPanic)
            | (s, None) => (s, LoopFuel)
            end
        | None =>
            match gf_inp s with
            | Some st =>
                match ps_polls st with
                | Ready x :: polls => gf_inp_item (gf_set_inp s (Some (mkPollStream polls (ps_panics st)))) x
                | Pending :: polls => (gf_set_inp s (Some (mkPollStream polls (ps_panics st))), LoopBreak Pending)
                | [] => if ps_panics st then (s, LoopPanic) else gf_inp_end s
                end
            | None =>
                let s := gf_set_done s in
                if gf_inp_finer_range_final_cnt s =? gf_inp_finer_range_final_max s
                then (s, gf_ready (SOk (DataItem RangeComplete)))
                else (s, LoopContinue)
            end
        end
    end.

Definition gf_poll_next (fuel : nat) (s : GapFill) := stream_poll gf_turn fuel s.

Definition tb_is_err (x : TbItem) : bool := match x with SErr _ => true | _ => false end.

(** Polled to its end, or to its first error, where the streams that read from a
    [GapFill] stop. *)
Definition gf_run (fuel : nat) (s : GapFill) : option (PollStream TbItem) := stream_run gf_turn tb_is_err fuel s.

End Ops.

(** ** The layers *)
Section Layers.
  Context {A G K : Type} {val : K -> Type} `{EventValueType V} `{AggBinValTw A B} `{AggregatorTimeWeight V G B} {Hconv : forall i, ForBinning (val i) V}.

(** What an events provider gives, before and after [ConvertForBinning]. *)
Local Abbreviation EvItem := (TwsItem (val := val) (L := Lg) (St := St) (E := E)).
Local Abbreviation BinningStream := (TwStream (K := unit) (val := fun _ => V) (agg := fun _ => G) (res := fun _ => B) (L := Lg) (St := St) (E := E)).
Local Abbreviation BinningOut := (TwsOut (K := unit) (val := fun _ => V) (res := fun _ => B) (L := Lg) (St := St) (E := E)).

(** What a [GapFill] is made with: the series of the channel configuration, the
    options, the bin lengths, what the cache answers, what the events provider
    gives for a range with the event before it, and [LogItem::from_node] (which
    takes the time). *)
Record GapFillEnv : Type := mkGapFillEnv {
  ge_series : option Z;
  ge_opts : BinningOptions;
  ge_do_time_weight : bool;
  ge_layers : list DtMs;
  ge_cache_read : CacheReads V B;
  ge_read : NanoRange -> PollStream EvItem;
  ge_log_item : LogLevel -> string -> Lg;
  ge_stats_binning : St
}.

Context (env : GapFillEnv) (fuel : nat).

(** Outcomes that may be out of fuel. *)
Definition and_then_opt {E' X Y} (m : option (outcome E' X)) (k : X -> option (outcome E' Y)) : option (outcome E' Y) :=
  match m with
  | Some (Ok x) => k x
  | Some (Err e) => Some (Err e)
  | Some Panic => Some Panic
  | None => None
  end.

Definition cache_item (x : cr_error + ContainerBins V B) : TbItem :=
  match x with
  | inr x => SOk (DataItem (Data x))
  | inl e => SErr (TbCacheReader e)
  end.

(** [GapFill::new]: [inp] for the range. *)
Definition gf_cached_input (range : BinnedRange TsNano) : option (outcome gapfill_error (PollStream TbItem)) :=
  if cu_is_cache_read (bo_cache_usage (ge_opts env)) then
    match ge_series env with
    | Some series => st ← cdr_run (ge_cache_read env) fuel (cdr_new series range); Some (Ok (ps_map cache_item st))
    | None => Some Panic
    end
  else Some (Ok ps_empty).

Definition bs_item (o : BsOut (V := V) (B := B) (L := Lg) (St := St) (E := timebin_error E)) : TbItem :=
  match o with
  | BsOutItem i => i
  | BsOutErr e => SErr (TbRebin e)
  | BsOutNoBinsLog => SOk (Log (ge_log_item env LevelDebug "no bins ready on eos"))
  end.

(** A turn of [BinnedBinsTimeweightStream] on an input that may end in a panic. *)
Definition bs_turn (panics : bool) (s : BinsStream (V := V) (A := A) (B := B) (L := Lg) (St := St) (E := timebin_error E)) :=
  match bs_state s, bs_inp s, panics with
  | BsReading, [], true => (s, LoopPanic)
  | _, _, _ =>
      match bs_handle_main s with
      | (s, BsContinue) => (s, LoopContinue)
      | (s, BsBreak (Ready (Some o))) => (s, LoopBreak (Ready (Some (bs_item o))))
      | (s, BsBreak (Ready None)) => (s, LoopBreak (Ready None))
      | (s, BsBreak Pending) => (s, LoopBreak Pending)
      | (s, BsPanic) => (s, LoopPanic)
      end
  end.

Definition bs_run (range : BinnedRange TsNano) (st : PollStream TbItem) : option (PollStream TbItem) :=
  stream_run (bs_turn (ps_panics st)) (fun _ => false) fuel (bs_new range (ps_polls st)).

(** An item of [BinnedEventsTimeweightStream]. *)
Definition tws_item (o : BinningOut) : TbItem :=
  match o with
  | TwsOutBins x => SOk (DataItem (Data (bnb_bins x)))
  | TwsOutLog x => SOk (Log x)
  | TwsOutStats x => SOk (Stats x)
  | TwsOutInputErr e => SErr (TbEvents e)
  | TwsOutErr e => SErr (TbEventsTw e)
  | TwsOutNoBinsLog => SOk (Log (ge_log_item env LevelDebug "no bins ready on eos"))
  end.

(** A turn of [BinnedEventsTimeweightStream] on an input that may end in a panic. *)
Definition tws_turn (panics : bool) (s : BinningStream) : BinningStream * loop_flow TbItem :=
  match tws_state s, tws_inp s, panics with
  | TwsReading, [], true => (s, LoopPanic)
  | _, _, _ =>
      match tws_handle_main s with
      | (s, TwsContinue) => (s, LoopContinue)
      | (s, TwsBreak (Ready (Some o))) => (s, LoopBreak (Ready (Some (tws_item o))))
      | (s, TwsBreak (Ready None)) => (s, LoopBreak (Ready None))
      | (s, TwsBreak Pending) => (s, LoopBreak Pending)
      | (s, TwsPanic) => (s, LoopPanic)
      end
  end.

Definition tws_run (bins : BinnedRange TsNano) (st : PollStream EvItem) : option (PollStream TbItem) :=
  stream_run (tws_turn (ps_panics st)) (fun _ => false) fuel (tws_new bins (ps_polls (ps_map cfb_item st))).

(** [BinnedFromEvents::new], with the range that is read and the bins to make. *)
Definition binned_from_events (range : NanoRange) (bins : BinnedRange TsNano) : option (outcome from_events_error (PollStream TbItem)) :=
  if ge_do_time_weight env then st ← tws_run bins (ge_read env range); Some (Ok st) else Some (Err ExpectTimeweighted).

Definition opt_map_err {E1 E2 X} (f : E1 -> E2) (m : option (outcome E1 X)) : option (outcome E2 X) := map_err f <$> m.

(** The stream that [setup_inp_finer] makes, given the streams of [GapFill] for
    the next finer bin length. *)
Definition gf_finer_stream (gf : BinnedRange TsNano -> option (outcome gapfill_error (PollStream TbItem))) (bl : DtMs) (range : NanoRange)
    : option (outcome gapfill_error (PollStream TbItem)) :=
  match find_next_finer_bin_len bl (ge_layers env) with
  | Some bin_len_finer =>
      and_then_opt (Some (br_from_nano_range range bin_len_finer)) (fun range_finer =>
      and_then_opt (gf (br_one_before_bin range_finer)) (fun stream =>
      and_then_opt (Some (br_from_nano_range (br_full_range range_finer) bl)) (fun range =>
      if ge_do_time_weight env then st ← bs_run range stream; Some (Ok st) else Some Panic)))
  | None =>
      if bo_allow_from_events (ge_opts env) then
        and_then_opt (Some (br_from_nano_range range bl)) (fun bins => opt_map_err GfEventsReader (binned_from_events range bins))
      else Some (Ok ps_empty)
  end.

(** The polls of a [GapFill]; [depth] bounds the number of layers below it. *)
Fixpoint gf_stream (depth : nat) (range : BinnedRange TsNano) : option (outcome gapfill_error (PollStream TbItem)) :=
  match depth with
  | O => None
  | S depth =>
      and_then_opt (gf_cached_input range) (fun inp =>
      let finer := gf_finer_stream (gf_stream depth) (br_bin_len_dt_ms range) in
      st ← gf_run (cu_is_cache_write (bo_cache_usage (ge_opts env))) finer fuel (gf_new range inp); Some (Ok st))
  end.

(** ** [TimeBinnedFromLayers] *)

Inductive from_layers_error : Type :=
  | FlGapFill (e : gapfill_error)
  | FlBinnedFromEvents (e : from_events_error)
  | FinerGridMismatch (bl finer : DtMs).

Record TimeBinnedFromLayers : Type := mkFromLayers { fl_inp : PollStream TbItem; fl_outbuf : list TbItem }.

Definition fl_test_items : list TbItem :=
  [SOk (Log (ge_log_item env LevelTrace "test-log-item-trace")); SOk (Log (ge_log_item env LevelDebug "test-log-item-debug"));
   SOk (Log (ge_log_item env LevelInfo "test-log-item-info")); SOk (Log (ge_log_item env LevelWarn "test-log-item-warn"));
   SOk (Stats (ge_stats_binning env))].

(** [new]. [cache_usage] is a parameter of its own beside the options. *)
Definition fl_new (depth : nat) (cache_usage : CacheUsage) (range : BinnedRange TsNano)
    : option (outcome from_layers_error TimeBinnedFromLayers) :=
  let bl := DtMs_from_ms_u64 (TsNano_ms (bin_len range)) in
  if bo_pbd_enable (ge_opts env) then Some (Ok (mkFromLayers ps_empty fl_test_items))
  else if cu_is_cache_read cache_usage && bool_decide (bl ∈ ge_layers env) then
    and_then_opt (opt_map_err FlGapFill (gf_stream depth range)) (fun inp => Some (Ok (mkFromLayers inp [])))
  else
    match (if cu_is_cache_read cache_usage then find_next_finer_bin_len bl (ge_layers env) else None) with
    | Some finer =>
        and_then_opt (Some (u_rem (DtMs_ms bl) (DtMs_ms finer))) (fun r =>
        if negb (r =? 0) then Some (Err (FinerGridMismatch bl finer))
        else
          and_then_opt (Some (br_from_nano_range (br_to_nano_range range) finer)) (fun range_finer =>
          and_then_opt (opt_map_err FlGapFill (gf_stream depth range_finer)) (fun inp =>
          st ← bs_run range inp; Some (Ok (mkFromLayers st [])))))
    | None =>
        if bo_allow_from_events (ge_opts env) then
          and_then_opt (opt_map_err FlBinnedFromEvents (binned_from_events (br_to_nano_range range) range)) (fun inp => Some (Ok (mkFromLayers inp [])))
        else Some (Ok (mkFromLayers ps_empty []))
    end.

(** [poll_next]. *)
Definition fl_turn (s : TimeBinnedFromLayers) : TimeBinnedFromLayers * loop_flow TbItem :=
  match fl_outbuf s with
  | x :: outbuf => (mkFromLayers (fl_inp s) outbuf, LoopBreak (Ready (Some x)))
  | [] =>
      match ps_polls (fl_inp s) with
      | Ready x :: polls => (mkFromLayers (mkPollStream polls (ps_panics (fl_inp s))) [], LoopBreak (Ready (Some x)))
      | Pending :: polls => (mkFromLayers (mkPollStream polls (ps_panics (fl_inp s))) [], LoopBreak Pending)
      | [] => if ps_panics (fl_inp s) then (s, LoopPanic) else (s, LoopBreak (Ready None))
      end
  end.

Definition fl_run (s : TimeBinnedFromLayers) : option (PollStream TbItem) := stream_run fl_turn (fun _ => false) fuel s.

End Layers.
End GapFill.
