(* ===== verification/GapFillProofs.v ===== *)
(** * What comes out of [GapFill]

    For any input the bins that are put out follow each other from the begin of
    the range on, up to the first error; the range marker does not come. When the
    cache and the finer streams deliver what they are asked for, the output is the
    cached bins with the gaps filled ([gf_filled]). *)
From Stdlib Require Import ZArith Lia.
From stdpp Require Import base numbers option strings list sorting.
From S2P Require Import Prelude Items TimeTypes Msp Ranges Events Bins Floats Rebin RebinProofs StreamRun CacheReader Timeweight Merger ChannelEvents TwStream GapFill.

#[local] Open Scope Z_scope.
#[local] Open Scope rust_scope.

(** ** Chains of edges *)

Fixpoint chained (b : Z) (l : list (Z * Z)) : Prop :=
  match l with
  | [] => True
  | (x, y) :: l => x = b /\ chained y l
  end.

Definition chain_end (b : Z) (l : list (Z * Z)) : Z := default b (snd <$> last l).

Lemma chain_end_cons b x y l : chain_end b ((x, y) :: l) = chain_end y l.
Proof. unfold chain_end. destruct l as [|e l]; [done|]. change (last ((x, y) :: e :: l)) with (last (e :: l)).
  destruct (last (e :: l)) eqn:He; [done|]. by apply last_None in He. Qed.

Lemma chain_end_app b l k : chain_end b (l ++ k) = chain_end (chain_end b l) k.
Proof.
  revert b. induction l as [|[x y] l IH]; intros b; [done|]. cbn [app]. rewrite !chain_end_cons. apply IH.
Qed.

Lemma chained_app b l k : chained b (l ++ k) <-> chained b l /\ chained (chain_end b l) k.
Proof.
  revert b. induction l as [|[x y] l IH]; intros b; [cbn; tauto|]. cbn [app chained]. rewrite IH, chain_end_cons. tauto.
Qed.

Section GapFillProofs.
  Context {V B Lg St E : Type}.
Abbreviation Bins := (ContainerBins V B).
Abbreviation Item := (BsItem (V := V) (B := B) (L := Lg) (St := St) (E := timebin_error E)).
Abbreviation State := (GapFill (V := V) (B := B) (Lg := Lg) (St := St) (E := E)).
Abbreviation Flow := (gf_flow (V := V) (B := B) (Lg := Lg) (St := St) (E := E)).
Abbreviation item_marks := (bs_poll_marks (V := V) (B := B) (Lg := Lg) (St := St) (E := timebin_error E)).
Abbreviation item_ok := (bs_poll_ok (V := V) (B := B) (Lg := Lg) (St := St) (E := timebin_error E)).
Abbreviation item_bins := (bs_poll_bins (V := V) (B := B) (Lg := Lg) (St := St) (E := timebin_error E)).
Abbreviation polls_bins := (bs_bins (V := V) (B := B) (Lg := Lg) (St := St) (E := timebin_error E)).

Definition item_edges (p : Poll Item) : list (Z * Z) := match p with Ready (SOk (DataItem (Data c))) => cb_edges_iter c | _ => [] end.
(** The edges of the bins that come out. *)
Definition polls_edges (l : list (Poll Item)) : list (Z * Z) := concat (map item_edges l).

Lemma polls_edges_app l k : polls_edges (l ++ k) = polls_edges l ++ polls_edges k.
Proof. unfold polls_edges. by rewrite map_app, concat_app. Qed.

Lemma polls_edges_one p : polls_edges [p] = item_edges p.
Proof. unfold polls_edges. cbn. apply app_nil_r. Qed.

(** Where the next bin has to begin. *)
Definition gf_next (s : State) : Z := default (br_nano_beg (gf_range s)) (gf_last_bin_ts2 s).

(** Only the end of the last bin differs. *)
Definition set_next (s : State) (b : Z) (edges : list (Z * Z)) : State := match edges with [] => s | _ => gf_set_last s (chain_end b edges) end.

Lemma gf_check_finer_spec (s : State) edges :
  match gf_check_finer s edges with
  | (s', Ok _) => chained (gf_next s) edges /\ s' = set_next s (gf_next s) edges
  | (s', Err e) => exists l, s' = set_next s (gf_next s) l
  | (_, Panic) => False
  end.
Proof.
  revert s. induction edges as [|[ts1 ts2] edges IH]; intros s; [done|]. cbn [gf_check_finer].
  assert (Hgo : match gf_check_finer (gf_set_last s ts2) edges with
    | (s', Ok _) => chained (gf_next s) ((gf_next s, ts2) :: edges) /\ s' = set_next s (gf_next s) ((gf_next s, ts2) :: edges)
    | (s', Err e) => exists l, s' = set_next s (gf_next s) l
    | (_, Panic) => False
    end).
  { specialize (IH (gf_set_last s ts2)).
    assert (Hset : forall l, set_next (gf_set_last s ts2) ts2 l = set_next s (gf_next s) ((gf_next s, ts2) :: l)).
    { intros l. cbn [set_next]. rewrite chain_end_cons. destruct l; by destruct s. }
    change (gf_next (gf_set_last s ts2)) with ts2 in IH.
    destruct (gf_check_finer (gf_set_last s ts2) edges) as [s' [u|e|]]; [| |done].
    - destruct IH as [H1 ->]. split; [done|apply Hset].
    - destruct IH as [l ->]. eexists. apply Hset. }
  unfold gf_next in *. destruct (gf_last_bin_ts2 s) as [lst|]; cbn [default] in *.
  - destruct (Z.eqb_spec ts1 lst) as [->|]; [done|by exists []].
  - destruct (Z.eqb_spec ts1 (br_nano_beg (gf_range s))) as [->|]; [done|by exists []].
Qed.

Lemma gf_check_edges_some (s s' : State) i edges range :
  is_Some (gf_last_bin_ts2 s) -> gf_check_edges s i edges <> (s', EdgesGapBegin range).
Proof.
  revert s i. induction edges as [|[ts1 ts2] edges IH]; intros s i [x Hx]; cbn [gf_check_edges]; [done|]. rewrite Hx.
  destruct (_ <? _); [done|]. destruct (negb _); [done|]. by apply IH.
Qed.

Lemma gf_check_edges_spec (s : State) i edges :
  match gf_check_edges s i edges with
  | (s', EdgesAll) => chained (gf_next s) edges /\ s' = set_next s (gf_next s) edges
  | (s', EdgesBeforeRange e) => exists l, s' = set_next s (gf_next s) l
  | (s', EdgesGap j range) =>
      exists n, j = (i + n)%nat /\ (n <= length edges)%nat /\ chained (gf_next s) (take n edges) /\
        s' = set_next s (gf_next s) (take n edges)
  | (s', EdgesGapBegin range) => s' = s
  end.
Proof.
  revert s i. induction edges as [|[ts1 ts2] edges IH]; intros s i; [done|]. cbn [gf_check_edges].
  destruct (ts1 <? br_nano_beg (gf_range s)) eqn:Hlt; [by exists []|].
  specialize (IH (gf_set_last s ts2) (i + 1)%nat).
  assert (Hset : forall l, set_next (gf_set_last s ts2) ts2 l = set_next s (gf_next s) ((gf_next s, ts2) :: l)).
  { intros l. cbn [set_next]. rewrite chain_end_cons. destruct l; by destruct s. }
  change (gf_next (gf_set_last s ts2)) with ts2 in IH.
  assert (Hgo : ts1 = gf_next s -> match gf_check_edges (gf_set_last s ts2) (i + 1) edges with
    | (s', EdgesAll) => chained (gf_next s) ((ts1, ts2) :: edges) /\ s' = set_next s (gf_next s) ((ts1, ts2) :: edges)
    | (s', EdgesBeforeRange e) => exists l, s' = set_next s (gf_next s) l
    | (s', EdgesGap j range) =>
      exists n, j = (i + n)%nat /\ (n <= length ((ts1, ts2) :: edges))%nat /\ chained (gf_next s) (take n ((ts1, ts2) :: edges)) /\
        s' = set_next s (gf_next s) (take n ((ts1, ts2) :: edges))
    | (s', EdgesGapBegin range) => s' = s
    end).
  { intros ->. destruct (gf_check_edges (gf_set_last s ts2) (i + 1) edges) as [s' [|e|j range|range]] eqn:Hce.
    - destruct IH as [H1 ->]. split; [done|apply Hset].
    - destruct IH as [l ->]. eexists. apply Hset.
    - destruct IH as (n & -> & Hn & H1 & ->). exists (S n). cbn [length take]. split; [lia|]. split; [lia|]. split; [done|apply Hset].
    - by apply gf_check_edges_some in Hce. }
  unfold gf_next in *. destruct (gf_last_bin_ts2 s) as [lst|]; cbn [default] in *.
  - destruct (Z.eqb_spec ts1 lst) as [->|]; [by apply Hgo|]. exists 0%nat. cbn. split; [lia|]. split; [lia|done].
  - destruct (Z.eqb_spec ts1 (br_nano_beg (gf_range s))) as [->|]; [by apply Hgo|]. done.
Qed.

Lemma set_next_range s b l : gf_range (set_next s b l) = gf_range s.
Proof. by destruct l. Qed.

Lemma set_next_next s l : gf_next (set_next s (gf_next s) l) = chain_end (gf_next s) l.
Proof. by destruct l. Qed.

Lemma drain_edges {Er} (c keep ret : Bins) n r :
  cb_drain_into (E := Er) c cb_new 0 n = Ok (keep, ret, r) -> cb_edges_iter ret = take n (cb_edges_iter c).
Proof.
  unfold cb_drain_into, drain_range. intros Hd. repeat (apply and_then_ok_inv in Hd as ([? ?] & (? & Hs & Hd1)%and_then_ok_inv & Hd);
    apply slice_ok_inv in Hs as [_ ->]; injection Hd1 as <- <-).
  injection Hd as <- <- <-. unfold cb_edges_iter. cbn [cb_ts1s cb_ts2s cb_new app]. rewrite Nat.sub_0_r, !drop_0.
  by rewrite zip_with_take.
Qed.

Section Turns.
  Context (cache_write : bool) (finer : NanoRange -> option (outcome gapfill_error (PollStream Item))).
Local Abbreviation turn := (gf_turn cache_write finer).

(** What a turn does to the range and the place of the next bin. *)
Definition gf_keeps (s s' : State) : Prop := gf_range s' = gf_range s /\ gf_next s' = gf_next s.
Definition turn_chains (s : State) (r : State * Flow) : Prop :=
  let '(s', fl) := r in
  match fl with
  | LoopContinue | LoopBreak Pending => gf_keeps s s'
  | LoopBreak (Ready (Some (SErr _))) | LoopBreak (Ready None) | LoopPanic | LoopFuel => True
  | LoopBreak (Ready (Some x)) =>
      gf_range s' = gf_range s /\ chained (gf_next s) (item_edges (Ready x)) /\ gf_next s' = chain_end (gf_next s) (item_edges (Ready x))
  end.

Lemma gf_setup_keeps s range fg : gf_keeps s (gf_setup_inp_finer finer s range fg).1.
Proof. unfold gf_setup_inp_finer. by destruct (finer range) as [[]|]. Qed.

Lemma gf_finer_item_chains s x : turn_chains s (gf_finer_item cache_write s x).
Proof.
  destruct x as [[[|c]|l|st]|e]; cbn; try done.
  - unfold gf_cache_write_on_end. destruct cache_write; [|done]. cbn. by repeat case_match.
  - unfold gf_handle_bins_finer. pose proof (gf_check_finer_spec s (cb_edges_iter c)) as Hs.
    destruct (gf_check_finer s (cb_edges_iter c)) as [s' [u|e|]]; [|done|done]. destruct Hs as [Hc ->].
    destruct (cb_len c =? 0)%nat; [|destruct (cb_drain_into _ _ _ _) as [[[? ?] ?]|?|]]; try done; cbn;
      (split; [apply set_next_range|]; split; [done|apply set_next_next]).
Qed.

Lemma gf_finer_end_chains s : turn_chains s (gf_finer_end s).
Proof.
  unfold gf_finer_end. destruct (gf_last_bin_ts2 _) as [j|] eqn:Hl; cbn in Hl |- *;
    [destruct (_ <? _)|]; try destruct (gf_inp_finer_fills_gap s); by cbn.
Qed.

Lemma gf_inp_end_chains s : turn_chains s (gf_inp_end finer s).
Proof.
  unfold gf_inp_end. destruct (gf_last_bin_ts2 _) as [j|]; [destruct (negb _)|]; try done;
    (match goal with |- context [gf_setup_inp_finer finer ?s ?r ?b] => pose proof (gf_setup_keeps s r b) as Hk;
       destruct (gf_setup_inp_finer finer s r b) as [s' [[u|e|]|]] end); done.
Qed.

Lemma gf_handle_bins_chains s c :
  match gf_handle_bins finer s c with
  | (s', Some (Ok (keep, ret))) => gf_range s' = gf_range s /\ chained (gf_next s) (cb_edges_iter ret) /\ gf_next s' = chain_end (gf_next s) (cb_edges_iter ret)
  | _ => True
  end.
Proof.
  unfold gf_handle_bins. pose proof (gf_check_edges_spec s 0 (cb_edges_iter c)) as Hs.
  destruct (gf_check_edges s 0 (cb_edges_iter c)) as [s' [|e|j range|range]]; [|done| |].
  - destruct Hs as [Hc ->]. split; [apply set_next_range|]. split; [done|apply set_next_next].
  - destruct Hs as (n & -> & Hn & Hc & ->). cbn [Nat.add]. destruct (cb_drain_into c cb_new 0 n) as [[[keep ret] r]|?|] eqn:Hd; [|done|done].
    apply drain_edges in Hd. match goal with |- context [gf_setup_inp_finer finer ?s ?r ?b] => destruct (gf_setup_keeps s r b) as [Hk1 Hk2];
       destruct (gf_setup_inp_finer finer s r b) as [s' [[u|e|]|]] end; [|done|done|done]. cbn in Hk1, Hk2. rewrite Hd, Hk1, Hk2.
    split; [apply set_next_range|]. split; [done|apply set_next_next].
  - subst s'. match goal with |- context [gf_setup_inp_finer finer ?s ?r ?b] => destruct (gf_setup_keeps s r b) as [Hk1 Hk2];
       destruct (gf_setup_inp_finer finer s r b) as [s' [[u|e|]|]] end; done.
Qed.

Lemma gf_turn_chains s : turn_chains s (turn s).
Proof.
  unfold gf_turn. destruct (gf_done s); [done|]. destruct (gf_inp_finer s) as [[[|[x|] polls] pn]|]; cbn [ps_polls ps_panics].
  - destruct pn; [done|]. apply gf_finer_end_chains.
  - exact (gf_finer_item_chains (gf_set_finer s (Some (mkPollStream polls pn))) x).
  - done.
  - destruct (gf_inp_buf s) as [c|].
    + pose proof (gf_handle_bins_chains (gf_set_buf s None) c) as Hh. destruct (gf_handle_bins finer (gf_set_buf s None) c) as [s' [[[keep ret]|e|]|]]; [|done|done|done].
      cbn. by destruct (cb_len keep =? 0)%nat.
    + destruct (gf_inp s) as [[[|[x|] polls] pn]|]; cbn [ps_polls ps_panics].
      * destruct pn; [done|]. apply gf_inp_end_chains.
      * destruct x as [[[|c]|l|st]|e]; cbn; try done. by destruct (cb_len c =? 0)%nat.
      * done.
      * by destruct (_ =? _).
Qed.

(** Whatever the cache and the finer streams deliver, the bins that [GapFill]
    puts out, up to its first error, follow each other without a gap or an
    overlap, the first one from the begin of the range. *)
Theorem gf_contiguous range inp n :
  chained (br_nano_beg range) (polls_edges (stream_turns turn tb_is_err n (gf_new range inp)).1).
Proof.
  apply (stream_turns_inv turn tb_is_err n
    (fun _ out s => gf_range s = range /\ chained (br_nano_beg range) (polls_edges out) /\ gf_next s = chain_end (br_nano_beg range) (polls_edges out))
    (fun out => chained (br_nano_beg range) (polls_edges out)) 0 n []); [by intros ? ? ? (_ & ? & _)| |done|lia].
  intros k out s s' fl _ (Hr & Hc & Hn) Ht. pose proof (gf_turn_chains s) as Hs. rewrite Ht in Hs.
  destruct fl as [|[[x|]|]| |]; try done.
  - destruct Hs as [-> ->]. done.
  - assert (Hx : turn_chains s (s', LoopBreak (Ready (Some x)))) by done. unfold turn_chains in Hx. unfold gf_keeps in *.
    rewrite polls_edges_app, polls_edges_one. destruct x as [i|e]; cbn [tb_is_err].
    + destruct Hx as (-> & Hx1 & ->). rewrite Hn in *. rewrite chained_app, chain_end_app. done.
    + cbn [item_edges]. by rewrite app_nil_r.
  - destruct Hs as [-> ->]. rewrite polls_edges_app, polls_edges_one. cbn [item_edges]. by rewrite app_nil_r.
Qed.

(** ** The range marker *)

Definition no_marks (l : list (Poll Item)) : Prop := existsb item_marks l = false.
Definition ps_no_marks (o : option (PollStream Item)) : Prop := match o with Some st => no_marks (ps_polls st) | None => True end.

(** After [k] turns: no marker came, some finer stream was set up if the cached
    bins are through, and none gave a marker. *)
Record unmarked (k : nat) (s : State) : Prop := {
  um_cnt : gf_inp_finer_range_final_cnt s = 0;
  um_max : 0 <= gf_inp_finer_range_final_max s <= Z.of_nat k;
  um_some : gf_inp s = None -> 1 <= gf_inp_finer_range_final_max s;
  um_inp : ps_no_marks (gf_inp s);
  um_finer : ps_no_marks (gf_inp_finer s)
}.

Hypothesis Hfiner : forall r st, finer r = Some (Ok st) -> no_marks (ps_polls st).

Definition turn_unmarked (k : nat) (r : State * Flow) : Prop :=
  let '(s', fl) := r in
  match fl with
  | LoopContinue | LoopBreak Pending => unmarked k s'
  | LoopBreak (Ready (Some (SErr _))) | LoopBreak (Ready None) | LoopPanic | LoopFuel => True
  | LoopBreak (Ready (Some x)) => item_marks (Ready x) = false /\ unmarked k s'
  end.

(** Only the last bin and the bins to write differ. *)
Lemma unmarked_set_next k s b l : unmarked k (set_next s b l) <-> unmarked k s.
Proof. destruct l; [done|]. split; intros []; by split. Qed.

Lemma unmarked_S k s : unmarked k s -> unmarked (S k) s.
Proof. intros []. split; try done. lia. Qed.

Lemma unmarked_setup k s range fg :
  Z.of_nat k < 2 ^ 32 - 1 -> gf_inp_finer_range_final_cnt s = 0 -> 0 <= gf_inp_finer_range_final_max s <= Z.of_nat k -> ps_no_marks (gf_inp s) ->
  match gf_setup_inp_finer finer s range fg with (s', Some (Ok _)) => unmarked (S k) s' | _ => True end.
Proof.
  intros Hk Hc Hm Hi. unfold gf_setup_inp_finer. destruct (finer range) as [[st|e|]|] eqn:Hf; [|done|done|done].
  assert (Hmax : u32_add (gf_inp_finer_range_final_max s) 1 = gf_inp_finer_range_final_max s + 1) by (apply wrap_small; unfold in_u; lia).
  split; cbn; rewrite ?Hmax; try done; try lia. by apply (Hfiner range).
Qed.

Lemma gf_turn_unmarked k s : (Z.of_nat k < 2 ^ 32 - 1) -> unmarked k s -> turn_unmarked (S k) (turn s).
Proof.
  intros Hk Hu. pose proof Hu as [U1 U2 U3 U4 U5]. unfold gf_turn. destruct (gf_done s); [done|].
  destruct (gf_inp_finer s) as [[[|[x|] polls] pn]|] eqn:Hfin; cbn [ps_polls ps_panics].
  - destruct pn; [done|]. assert (Hs : unmarked (S k) (gf_set_finer (gf_set_exp s (mkNanoRange 0 0)) None)) by (apply unmarked_S; by split).
    unfold gf_finer_end. cbn. by repeat case_match.
  - assert (Hp : item_marks (Ready x) = false /\ no_marks polls) by (by apply orb_false_elim in U5). destruct Hp as [Hp Hpl].
    set (s0 := gf_set_finer s (Some (mkPollStream polls pn))).
    assert (Hs : unmarked (S k) s0) by (apply unmarked_S; by split). destruct x as [[[|c]|l|st]|e]; try done.
    cbn. unfold gf_handle_bins_finer. pose proof (gf_check_finer_spec s0 (cb_edges_iter c)) as Hch.
    destruct (gf_check_finer s0 (cb_edges_iter c)) as [s' [u|e|]]; [|done|done]. destruct Hch as [_ ->].
    pose proof (proj2 (unmarked_set_next (S k) s0 (gf_next s0) (cb_edges_iter c)) Hs) as Hs'.
    destruct (cb_len c =? 0)%nat; [|destruct (cb_drain_into _ _ _ _) as [[[? ?] ?]|?|]]; try done. cbn. split; [done|]. by destruct Hs'.
  - apply unmarked_S. by split.
  - destruct (gf_inp_buf s) as [c|].
    + unfold gf_handle_bins. pose proof (gf_check_edges_spec (gf_set_buf s None) 0 (cb_edges_iter c)) as Hs.
      assert (Hs0 : unmarked k (gf_set_buf s None)) by (split; cbn; rewrite ?Hfin; done).
      destruct (gf_check_edges (gf_set_buf s None) 0 (cb_edges_iter c)) as [s' [|e|j range|range]]; [|done| |].
      * destruct Hs as [_ ->]. cbn. split; [done|]. apply unmarked_S. by apply unmarked_set_next.
      * destruct Hs as (n & -> & _ & _ & ->). destruct (cb_drain_into c cb_new 0 _) as [[[keep ret] r]|?|]; [|done|done].
        set (s1 := set_next _ _ _). assert (Hs1 : unmarked k s1) by (by apply unmarked_set_next).
        pose proof (unmarked_setup k s1 range true Hk (um_cnt _ _ Hs1) (um_max _ _ Hs1) (um_inp _ _ Hs1)) as Hs2.
        destruct (gf_setup_inp_finer finer s1 range true) as [s2 [[u|e|]|]]; [|done|done|done]. cbn. split; [done|].
        destruct (cb_len keep =? 0)%nat; [done|]. by destruct Hs2.
      * subst s'. pose proof (unmarked_setup k _ range true Hk (um_cnt _ _ Hs0) (um_max _ _ Hs0) (um_inp _ _ Hs0)) as Hs2.
        destruct (gf_setup_inp_finer finer _ range true) as [s2 [[u|e|]|]]; [|done|done|done]. cbn. split; [done|].
        destruct (cb_len c =? 0)%nat; [done|]. by destruct Hs2.
    + destruct (gf_inp s) as [[[|[x|] polls] pn]|] eqn:Hinp; cbn [ps_polls ps_panics].
      * destruct pn; [done|]. unfold gf_inp_end. set (s0 := gf_set_inp s None).
        assert (Hgo : forall range, match (let '(s', o) := gf_setup_inp_finer finer s0 range false in
            match o with Some (Ok _) => (s', LoopContinue) | Some (Err e) => (s', gf_err (TbGapFill e)) | Some Panic => (s', LoopPanic) | None => (s', LoopFuel) end) with r => turn_unmarked (S k) r end).
        { intros range. pose proof (unmarked_setup k s0 range false Hk U1 U2 I) as Hs2. by destruct (gf_setup_inp_finer finer s0 range false) as [s2 [[u|e|]|]]. }
        destruct (gf_last_bin_ts2 s0) as [j|]; [destruct (negb _)|]; try done; apply Hgo.
      * assert (Hp : item_marks (Ready x) = false /\ no_marks polls) by (by apply orb_false_elim in U4). destruct Hp as [Hp Hpl].
        assert (Hs : unmarked (S k) (gf_set_inp s (Some (mkPollStream polls pn)))) by (apply unmarked_S; split; cbn; rewrite ?Hfin; done).
        destruct x as [[[|c]|l|st]|e]; try done. cbn. destruct (cb_len c =? 0)%nat; [done|]. by destruct Hs.
      * apply unmarked_S. split; cbn; rewrite ?Hfin; done.
      * cbn. rewrite U1. specialize (U3 eq_refl). rewrite (proj2 (Z.eqb_neq _ _)) by lia. apply unmarked_S. split; cbn; rewrite ?Hfin, ?Hinp; done.
Qed.

Lemma no_marks_app l p : no_marks l -> item_marks p = false -> no_marks (l ++ [p]).
Proof. unfold no_marks. intros Hl Hp. rewrite existsb_app, Hl. cbn. by rewrite Hp. Qed.

Lemma gf_turns_unmarked range inp n :
  Z.of_nat n < 2 ^ 32 -> no_marks (ps_polls inp) -> no_marks (stream_turns turn tb_is_err n (gf_new range inp)).1.
Proof.
  intros Hn Hi. apply (stream_turns_inv turn tb_is_err n (fun k out s => no_marks out /\ unmarked k s) no_marks 0 n []);
    [by intros ? ? ? [? _]| |by split|lia].
  intros k out s s' fl Hk [Ho Hu] Ht. pose proof (gf_turn_unmarked k s ltac:(lia) Hu) as Hs. rewrite Ht in Hs.
  destruct fl as [|[[[x|e]|]|]| |]; cbn [turn_unmarked tb_is_err] in *; try done.
  - destruct Hs. split; [by apply no_marks_app|done].
  - by apply no_marks_app.
  - split; [by apply no_marks_app|done].
Qed.

End Turns.

(** ** The marker in the layers *)
Section LayerMarks.
  Context {A G K : Type} {val : K -> Type} `{EventValueType V} `{AggBinValTw A B} `{AggregatorTimeWeight V G B} {Hconv : forall i, ForBinning (val i) V}.
  Context (env : GapFillEnv (V := V) (B := B) (Lg := Lg) (St := St) (E := E) (val := val)) (fuel : nat).
Local Abbreviation Finer gf bl r := (gf_finer_stream (A := A) (G := G) env fuel gf bl r).
Local Abbreviation Stream depth range := (gf_stream (A := A) (G := G) env fuel depth range).

Lemma bs_turn_item pn s s' x :
  bs_turn (A := A) env pn s = (s', LoopBreak (Ready (Some x))) ->
  exists o, bs_handle_main s = (s', BsBreak (Ready (Some o))) /\ x = bs_item env o.
Proof.
  unfold bs_turn. intros Ht. assert (Hm : match bs_handle_main s with
      | (s, BsContinue) => (s, LoopContinue)
      | (s, BsBreak (Ready (Some o))) => (s, LoopBreak (Ready (Some (bs_item env o))))
      | (s, BsBreak (Ready None)) => (s, LoopBreak (Ready None))
      | (s, BsBreak Pending) => (s, LoopBreak Pending)
      | (s, BsPanic) => (s, LoopPanic)
      end = (s', LoopBreak (Ready (Some x)))) by (destruct (bs_state s), (bs_inp s), pn; done).
  destruct (bs_handle_main s) as [s1 [|[[o|]|]|]]; simplify_eq. by exists o.
Qed.

Lemma bs_main_no_mark s s' o :
  bs_handle_main (V := V) (A := A) (B := B) (L := Lg) (St := St) (E := timebin_error E) s = (s', BsBreak (Ready (Some o))) ->
  item_marks (Ready (bs_item env o)) = false.
Proof.
  unfold bs_handle_main. intros Ht. destruct (bs_state s); [|by simplify_eq/=].
  destruct (bs_inp s) as [|[[[[|c]|l|st]|e]|] inp].
  - unfold bs_handle_eos in Ht. repeat case_match; simplify_eq/=; done.
  - by simplify_eq/=.
  - unfold bs_handle_sitemty in Ht. repeat case_match; simplify_eq/=; done.
  - by simplify_eq/=.
  - by simplify_eq/=.
  - by simplify_eq/=.
  - by simplify_eq/=.
Qed.

(** A stream none of whose items is the marker. *)
Lemma run_no_marks {T} (turn : T -> T * loop_flow Item) s st :
  (forall s s' x, turn s = (s', LoopBreak (Ready (Some x))) -> item_marks (Ready x) = false) ->
  stream_run turn (fun _ => false) fuel s = Some st -> no_marks (ps_polls st).
Proof.
  intros Hm Hr%stream_run_turns. assert (Hinv : no_marks ([] ++ (stream_turns turn (fun _ => false) fuel s).1)).
  { apply (stream_turns_inv _ _ fuel (fun _ out _ => no_marks out) no_marks 0 fuel []); [done| |done|lia].
    intros k out s1 s' fl _ Ho Ht. destruct fl as [|[[x|]|]| |]; try done; [|by apply no_marks_app].
    apply no_marks_app; [done|]. by eapply Hm. }
  by rewrite Hr in Hinv.
Qed.

Lemma bs_run_no_marks range st st' : bs_run (A := A) env fuel range st = Some st' -> no_marks (ps_polls st').
Proof. apply run_no_marks. intros s s' x (o & Ho & ->)%bs_turn_item. by eapply bs_main_no_mark. Qed.

(** The stream of bins from events has no marker to put out. *)
Lemma tws_run_no_marks bins st st' : tws_run (G := G) env fuel bins st = Some st' -> no_marks (ps_polls st').
Proof.
  apply run_no_marks. intros s s' x Ht. assert (exists o, x = tws_item env o) as [o ->]; [|by destruct o].
  unfold tws_turn in Ht. destruct (tws_handle_main s) as [s1 [|[[o|]|]|]];
    (destruct (tws_state s), (tws_inp s), (ps_panics st); simplify_eq; by exists o).
Qed.

Lemma ps_map_cache_no_marks (l : PollStream (cr_error + Bins)) : no_marks (ps_polls (ps_map (cache_item (Lg := Lg) (St := St) (E := E)) l)).
Proof. unfold no_marks. destruct l as [l pn]. cbn. induction l as [|[[e|c]|] l IH]; done. Qed.

Hypothesis Hfuel : Z.of_nat fuel < 2 ^ 32.

Lemma and_then_opt_inv {E' X Y} (m : option (outcome E' X)) (k : X -> option (outcome E' Y)) y :
  and_then_opt m k = Some (Ok y) -> exists x, m = Some (Ok x) /\ k x = Some (Ok y).
Proof. destruct m as [[x|er|]|]; cbn; intros; try done. by exists x. Qed.

Lemma gf_finer_no_marks gf bl r st : Finer gf bl r = Some (Ok st) -> no_marks (ps_polls st).
Proof.
  unfold gf_finer_stream. destruct (find_next_finer_bin_len _ _) as [bl'|].
  - intros (rf & _ & (sub & _ & (r2 & _ & Hs)%and_then_opt_inv)%and_then_opt_inv)%and_then_opt_inv.
    destruct (ge_do_time_weight env); [|done]. apply bind_Some in Hs as (st1 & Hb & Hs). injection Hs as <-. by eapply bs_run_no_marks.
  - destruct (bo_allow_from_events _); [|by intros [= <-]]. intros (b & _ & Hs)%and_then_opt_inv. unfold binned_from_events in Hs.
    destruct (ge_do_time_weight env); [|done]. destruct (tws_run env fuel b _) as [st1|] eqn:Hb; [|done]. injection Hs as <-. by eapply tws_run_no_marks.
Qed.

(** C38. [GapFill] never passes the range marker on: what it puts out up to its end
    has none, at whatever layer, because the binners that fill the gaps swallow the
    marker of their input, and without a gap the stream ends before the marker. (A
    wrap-around of the [u32] counters needs 2^32 turns.) *)
Theorem gf_never_range_complete depth range st : Stream depth range = Some (Ok st) -> no_marks (ps_polls st).
Proof.
  revert range st. induction depth as [|depth IH]; intros range st; [done|]. cbn [gf_stream].
  intros (inp & Hinp & Hr)%and_then_opt_inv. apply bind_Some in Hr as (st' & Hrun & Hr). injection Hr as ->.
  apply stream_run_turns in Hrun. assert (Hno : no_marks (ps_polls inp)).
  { unfold gf_cached_input in Hinp. destruct (cu_is_cache_read _); [|by injection Hinp as <-]. destruct (ge_series env); [|done].
    apply bind_Some in Hinp as (l & _ & Hinp). injection Hinp as <-. apply ps_map_cache_no_marks. }
  pose proof (gf_turns_unmarked (cu_is_cache_write (bo_cache_usage (ge_opts env)))
    (gf_finer_stream (G := G) env fuel (gf_stream env fuel depth) (br_bin_len_dt_ms range))) as Hg.
  assert (Hst : ps_polls st = (ps_polls st, @None State).1) by done. rewrite Hst, <- Hrun. apply Hg; [|done|done]. intros r st0. apply gf_finer_no_marks.
Qed.
End LayerMarks.

(** ** Gaps filled *)

Definition bin_edges (b : Bin V B) : Z * Z := (bin_ts1 b, bin_ts2 b).

(** Bins of the grid of length [l] in order, between the numbers [k] and [j]. *)
Fixpoint cached_ok (l k j : Z) (C : list (Bin V B)) : Prop :=
  match C with
  | [] => True
  | c :: C =>
      let i := bin_ts1 c / l in
      k <= i < j /\ bin_edges c = (l * i, l * (i + 1)) /\ cached_ok l (i + 1) j C
  end.

Lemma cb_zip_edges (c : Bins) : cb_wf c -> cb_edges_iter c = map bin_edges (cb_zip_iter_2 c).
Proof.
  intros Hw. unfold cb_edges_iter. apply list_eq. intros i. rewrite list_lookup_fmap. destruct Hw. unfold cb_len in *.
  unfold cb_zip_iter_2, zap. rewrite !lookup_zip_with, list_lookup_fmap.
  destruct (cb_ts1s c !! i) as [a|] eqn:Ha; [|done]. apply lookup_lt_Some in Ha.
  repeat match goal with |- context [?l !! i] => destruct (lookup_lt_is_Some_2 l i) as [? ->]; [lia|] end. done.
Qed.

Lemma gf_check_finer_ok (s : State) edges :
  chained (gf_next s) edges -> gf_check_finer s edges = (set_next s (gf_next s) edges, Ok tt).
Proof.
  revert s. induction edges as [|[ts1 ts2] edges IH]; intros s; [done|]. cbn [gf_check_finer chained]. intros [-> Hc].
  specialize (IH (gf_set_last s ts2) Hc).
  assert (Hset : set_next (gf_set_last s ts2) (gf_next (gf_set_last s ts2)) edges = set_next s (gf_next s) ((gf_next s, ts2) :: edges)).
  { cbn [set_next]. rewrite chain_end_cons. destruct edges; by destruct s. }
  rewrite Hset in IH. rewrite IH. unfold gf_next. destruct (gf_last_bin_ts2 s); cbn [default]; by rewrite Z.eqb_refl.
Qed.

(** The first [l1] edges follow each other; then there are no more, or a gap. *)
Lemma gf_check_edges_run (s : State) i l1 l2 :
  chained (gf_next s) l1 -> Forall (fun e => br_nano_beg (gf_range s) <= e.1) l1 ->
  gf_check_edges s i (l1 ++ l2) = gf_check_edges (set_next s (gf_next s) l1) (i + length l1) l2.
Proof.
  revert s i. induction l1 as [|[ts1 ts2] l1 IH]; intros s i Hc Hb; [cbn; by rewrite Nat.add_0_r|].
  cbn [app gf_check_edges chained] in *. destruct Hc as [-> Hc]. inversion Hb as [|? ? Hb1 Hb']; subst. cbn [fst] in Hb1.
  rewrite (proj2 (Z.ltb_ge _ _)) by done. specialize (IH (gf_set_last s ts2) (i + 1)%nat Hc Hb').
  assert (Hset : set_next (gf_set_last s ts2) (gf_next (gf_set_last s ts2)) l1 = set_next s (gf_next s) ((gf_next s, ts2) :: l1)).
  { cbn [set_next]. rewrite chain_end_cons. destruct l1; by destruct s. }
  rewrite Hset in IH. cbn [length]. replace (i + S (length l1))%nat with (i + 1 + length l1)%nat by lia. rewrite <- IH.
  unfold gf_next. destruct (gf_last_bin_ts2 s); cbn [default]; by rewrite Z.eqb_refl.
Qed.

(** The edges of the bins number [i] to [j - 1] of the grid. *)
Definition cells (l i j : Z) : list (Z * Z) := map (fun k => (l * k, l * (k + 1))) (seqZ i (j - i)).

(** A stream that gives exactly these bins, and no error. *)
Record delivers (l i j : Z) (st : PollStream Item) : Prop := {
  dl_ends : ps_panics st = false;
  dl_ok : Forall item_ok (ps_polls st);
  dl_cells : map bin_edges (polls_bins (ps_polls st)) = cells l i j
}.

Section Cells.
  Context (l : Z).

Lemma cells_cons i j : i < j -> cells l i j = (l * i, l * (i + 1)) :: cells l (i + 1) j.
Proof. intros Hij. unfold cells. rewrite seqZ_cons by lia. cbn [map]. do 3 f_equal; lia. Qed.

Lemma cells_nil i j : j <= i -> cells l i j = [].
Proof. intros Hij. unfold cells. by rewrite seqZ_nil by lia. Qed.

Lemma cells_app i k j : i <= k <= j -> cells l i k ++ cells l k j = cells l i j.
Proof.
  intros Hk. unfold cells. rewrite <- map_app. f_equal. replace (j - i) with ((k - i) + (j - k)) by lia. rewrite seqZ_app by lia. do 2 f_equal; lia.
Qed.

Lemma cells_split i j (xs ys : list (Z * Z)) :
  i <= j -> xs ++ ys = cells l i j ->
  xs = cells l i (i + Z.of_nat (length xs)) /\ ys = cells l (i + Z.of_nat (length xs)) j /\ i + Z.of_nat (length xs) <= j.
Proof.
  revert i. induction xs as [|x xs IH]; intros i Hij Heq; cbn [app length] in *.
  - rewrite Z.add_0_r. split; [by rewrite cells_nil by lia|]. split; [done|lia].
  - destruct (Z.lt_ge_cases i j) as [Hlt|Hge]; [|by rewrite cells_nil in Heq by lia].
    rewrite cells_cons in Heq by done. injection Heq as -> Heq. destruct (IH (i + 1)) as (Hl & Hr & Hle); [lia|done|].
    replace (i + Z.of_nat (S (length xs))) with (i + 1 + Z.of_nat (length xs)) by lia. rewrite cells_cons by lia. split; [by f_equal|done].
Qed.

Lemma cells_chained i j : i <= j -> chained (l * i) (cells l i j) /\ chain_end (l * i) (cells l i j) = l * j.
Proof.
  intros Hij. remember (Z.to_nat (j - i)) as n eqn:Hn. revert i Hij Hn. induction n as [|n IH]; intros i Hij Hn.
  - rewrite cells_nil by lia. split; [done|]. cbn. f_equal. lia.
  - rewrite cells_cons by lia. destruct (IH (i + 1)) as [H1 H2]; [lia|lia|]. split; [done|]. by rewrite chain_end_cons.
Qed.
End Cells.

Section Fill.
  Context (cache_write : bool) (finer : NanoRange -> option (outcome gapfill_error (PollStream Item))) (range : BinnedRange TsNano).
Local Abbreviation turn := (gf_turn cache_write finer).
Local Abbreviation L := (bin_len range).
Local Abbreviation off := (bin_off range).
Local Abbreviation e := (bin_off range + bin_cnt range).

(** The bins that [finer] has for a gap. *)
Definition gap_bins (i j : Z) : list (Bin V B) :=
  if i <? j then match finer (mkNanoRange (L * i) (L * j)) with Some (Ok st) => polls_bins (ps_polls st) | _ => [] end else [].

(** The reference: the cached bins, and between them the bins for the gaps. *)
Fixpoint gf_filled (k : Z) (C : list (Bin V B)) : list (Bin V B) :=
  match C with
  | [] => gap_bins k e
  | c :: C => let i := bin_ts1 c / L in gap_bins k i ++ c :: gf_filled (i + 1) C
  end.

Hypothesis HL : 0 < L.
Hypothesis Hoff : 0 <= off.
Hypothesis Hcnt : 0 < bin_cnt range.
Hypothesis H64 : L * e < 2 ^ 64.
Hypothesis Hfiner : forall i j, off <= i < j -> j <= e -> exists st, finer (mkNanoRange (L * i) (L * j)) = Some (Ok st) /\ delivers L i j st.

(** Up to number [k] everything came out. *)
Record gf_at (s : State) (k : Z) : Prop := {
  ga_range : gf_range s = range;
  ga_k : off <= k <= e;
  ga_last : match gf_last_bin_ts2 s with Some x => x = L * k | None => k = off end;
  ga_write : match gf_bins_for_cache_write s with Some c => cb_wf c | None => True end;
  ga_done : gf_done s = false
}.

(** From [s] on the stream gives these bins, and no error. *)
Definition gf_outputs (s : State) (bins : list (Bin V B)) : Prop :=
  exists st, stream_gives turn tb_is_err s st /\ ps_panics st = false /\ Forall item_ok (ps_polls st) /\ polls_bins (ps_polls st) = bins.

Lemma outputs_continue s s' bins : turn s = (s', LoopContinue) -> gf_outputs s' bins -> gf_outputs s bins.
Proof. intros Ht (st & Hg & Hst). exists st. split; [by apply (gives_continue _ _ _ s')|done]. Qed.

Lemma outputs_pending s s' bins : turn s = (s', LoopBreak Pending) -> gf_outputs s' bins -> gf_outputs s bins.
Proof.
  intros Ht (st & Hg & Hp & Hok & <-). exists (ps_cons Pending st). split; [by apply (gives_pending _ _ _ s')|]. split; [done|].
  split; [by constructor|done].
Qed.

Lemma outputs_item s s' x bins :
  turn s = (s', LoopBreak (Ready (Some x))) -> item_ok (Ready x) -> gf_outputs s' bins -> gf_outputs s (item_bins (Ready x) ++ bins).
Proof.
  intros Ht Hx (st & Hg & Hp & Hok & <-). exists (ps_cons (Ready x) st). split.
  - apply (gives_ready _ _ _ s'); [done|by destruct x|done].
  - split; [done|]. split; [by constructor|done].
Qed.

Lemma gf_at_next s k : gf_at s k -> gf_next s = L * k.
Proof.
  intros [Hr Hk Hl _ _]. unfold gf_next. destruct (gf_last_bin_ts2 s) as [x|]; [done|]. cbn. rewrite Hr, Hl. unfold br_nano_beg. apply u64_mul_small. nia.
Qed.

Lemma nano_beg_eq : br_nano_beg range = L * off.
Proof. unfold br_nano_beg. apply u64_mul_small. nia. Qed.

Lemma nano_end_eq : u64_mul L (u64_add off (bin_cnt range)) = L * e.
Proof. rewrite u64_add_small, u64_mul_small by nia. done. Qed.

Lemma gf_at_cells s k j : gf_at s k -> k <= j <= e -> gf_at (set_next s (L * k) (cells L k j)) j.
Proof.
  intros [] Hj. destruct (Z.eq_dec k j) as [->|Hne]; [by rewrite cells_nil by lia|].
  pose proof (proj2 (cells_chained L k j ltac:(lia))) as Hend. rewrite cells_cons in * by lia. split; cbn; try done; lia.
Qed.

(** *** The finer stream fills a gap *)

Definition with_finer (s : State) (polls : list (Poll Item)) (j : Z) : Prop :=
  gf_inp_finer s = Some (mkPollStream polls false) /\ nr_end (gf_exp_finer_range s) = L * j.

(** The state after it: the rest as before. *)
Definition same_input (s s' : State) : Prop := gf_inp s' = gf_inp s /\ gf_inp_buf s' = gf_inp_buf s /\ gf_inp_finer s' = None.

Lemma gf_drain_write (s : State) (c : Bins) :
  match gf_bins_for_cache_write s with Some w => cb_wf w | None => True end -> cb_wf c ->
  exists c' w', cb_drain_into (E := gapfill_error) c (default cb_new (gf_bins_for_cache_write s)) 0 (cb_len c) = Ok (c', w', DstDone) /\ cb_wf w'.
Proof.
  intros Hw Hc. destruct (cb_drain_into_front (E := gapfill_error) c (default cb_new (gf_bins_for_cache_write s)) (cb_len c)) as (c' & w' & Hd & _ & Hw' & _);
    [done|destruct (gf_bins_for_cache_write s); [done|apply cb_new_wf]|done|]. by exists c', w'.
Qed.

Lemma gf_finer_data s k j c polls :
  gf_at s k -> k <= j <= e -> with_finer s (Ready (SOk (DataItem (Data c))) :: polls) j -> cb_wf c ->
  map bin_edges (cb_zip_iter_2 c ++ polls_bins polls) = cells L k j ->
  exists s' k', turn s = (s', LoopBreak (Ready (Some (SOk (DataItem (Data c)))))) /\ gf_at s' k' /\ k <= k' <= j /\ with_finer s' polls j /\
    gf_inp s' = gf_inp s /\ gf_inp_buf s' = gf_inp_buf s /\ map bin_edges (polls_bins polls) = cells L k' j /\
    (gf_last_bin_ts2 s' = None -> gf_last_bin_ts2 s = None /\ k' = k).
Proof.
  intros Hat Hj [Hf Hexp] Hwf Hcells. rewrite map_app in Hcells. destruct (cells_split L k j _ _ ltac:(lia) Hcells) as (Hl & Hr & Hle).
  rewrite length_map in *. set (k' := k + Z.of_nat (length (cb_zip_iter_2 c))) in *. rewrite <- (cb_zip_edges c Hwf) in Hl.
  set (s0 := gf_set_finer s (Some (mkPollStream polls false))).
  assert (Hat0 : gf_at s0 k) by (by destruct Hat; split).
  pose proof (gf_at_next s0 k Hat0) as Hn.
  assert (Hchk : gf_check_finer s0 (cb_edges_iter c) = (set_next s0 (L * k) (cells L k k'), Ok tt)).
  { rewrite gf_check_finer_ok; rewrite Hn, Hl; [done|apply cells_chained; lia]. }
  pose proof (gf_at_cells s0 k k' Hat0 ltac:(lia)) as Hat1.
  assert (Hlast : gf_last_bin_ts2 (set_next s0 (L * k) (cells L k k')) = None -> gf_last_bin_ts2 s = None /\ k' = k).
  { destruct (Z.eq_dec k' k) as [->|]; [by rewrite cells_nil by lia|]. by rewrite cells_cons by lia. }
  assert (Hturn : turn s = gf_finer_item cache_write s0 (SOk (DataItem (Data c)))) by (unfold gf_turn; by rewrite (ga_done _ _ Hat), Hf).
  rewrite Hturn. cbn [gf_finer_item]. unfold gf_handle_bins_finer. rewrite Hchk.
  destruct (Nat.eqb_spec (cb_len c) 0) as [Hz|Hz].
  - eexists _, k'. split; [reflexivity|]. split; [done|]. split; [lia|]. split; [by destruct (cells L k k')|].
    split; [by destruct (cells L k k')|]. split; [by destruct (cells L k k')|]. done.
  - destruct (gf_drain_write (set_next s0 (L * k) (cells L k k')) c (ga_write _ _ Hat1) Hwf) as (c' & w' & -> & Hw').
    eexists _, k'. split; [reflexivity|]. split; [by destruct Hat1; split|]. split; [lia|]. split; [by destruct (cells L k k')|].
    split; [by destruct (cells L k k')|]. split; [by destruct (cells L k k')|]. done.
Qed.

Lemma gf_write_on_end (s : State) : gf_cache_write_on_end s = s \/ gf_cache_write_on_end s = gf_set_write s None.
Proof. unfold gf_cache_write_on_end. destruct (gf_bins_for_cache_write s); [|by left]. case_match; [by right|by left]. Qed.

(** Turns that only take a poll from the finer stream. *)
Lemma gf_finer_pass s k j p polls :
  gf_at s k -> with_finer s (p :: polls) j -> item_ok p -> item_bins p = [] -> (forall c, p <> Ready (SOk (DataItem (Data c)))) ->
  exists s', (turn s = (s', LoopContinue) \/ (p = Pending /\ turn s = (s', LoopBreak Pending)) \/ (exists x, p = Ready x /\ turn s = (s', LoopBreak (Ready (Some x))))) /\
    gf_at s' k /\ with_finer s' polls j /\ gf_inp s' = gf_inp s /\ gf_inp_buf s' = gf_inp_buf s /\ gf_last_bin_ts2 s' = gf_last_bin_ts2 s.
Proof.
  intros Hat [Hf Hexp] Hok _ Hnd. unfold gf_turn. rewrite (ga_done _ _ Hat), Hf. cbn [ps_polls ps_panics].
  destruct p as [[[[|c]|l|st]|er]|]; [| | | |done|].
  - cbn [gf_finer_item]. eexists. split; [left; reflexivity|].
    set (s0 := gf_set_finer_final _). assert (Hs0 : gf_at s0 k) by (by destruct Hat; split).
    destruct cache_write; [|by split; [destruct Hs0; split|]]. destruct (gf_write_on_end s0) as [-> | ->]; by (split; [destruct Hs0; split|]).
  - by destruct (Hnd c).
  - eexists. split; [right; right; eexists; split; [done|reflexivity]|]. by destruct Hat.
  - eexists. split; [right; right; eexists; split; [done|reflexivity]|]. by destruct Hat.
  - eexists. split; [right; left; split; [done|reflexivity]|]. by destruct Hat.
Qed.

Lemma poll_data_cases (p : Poll Item) :
  (exists c, p = Ready (SOk (DataItem (Data c)))) \/ (item_bins p = [] /\ forall c, p <> Ready (SOk (DataItem (Data c)))).
Proof. destruct p as [[[[|c]|l|st]|er]|]; first [left; by eexists|by right]. Qed.

Lemma gf_finer_fills s k j polls rest :
  gf_at s k -> k <= j <= e -> with_finer s polls j -> Forall item_ok polls -> map bin_edges (polls_bins polls) = cells L k j ->
  (gf_last_bin_ts2 s = None -> k < j) ->
  (forall s', gf_at s' j -> same_input s s' -> gf_last_bin_ts2 s' <> None -> gf_outputs s' rest) ->
  gf_outputs s (polls_bins polls ++ rest).
Proof.
  revert s k. induction polls as [|p polls IH]; intros s k Hat Hj Hwf Hok Hcells Hlast Hrest.
  - assert (k = j) as -> by (destruct (Z.eq_dec k j); [done|]; by rewrite cells_cons in Hcells by lia). cbn [polls_bins map concat app].
    destruct Hwf as [Hf Hexp]. destruct (gf_last_bin_ts2 s) as [x|] eqn:Hl; [|specialize (Hlast eq_refl); lia].
    set (s' := gf_set_finer (gf_set_exp s (mkNanoRange 0 0)) None).
    apply (outputs_continue s s').
    + unfold gf_turn. rewrite (ga_done _ _ Hat), Hf. cbn [ps_polls ps_panics]. unfold gf_finer_end. fold s'.
      change (gf_last_bin_ts2 s') with (gf_last_bin_ts2 s). rewrite Hl. pose proof (ga_last _ _ Hat) as Hx. rewrite Hl in Hx.
      unfold TsNano_ns. rewrite Hexp, Hx, Z.ltb_irrefl. done.
    + apply Hrest; [by destruct Hat; split|done|]. change (gf_last_bin_ts2 s') with (gf_last_bin_ts2 s). by rewrite Hl.
  - inversion Hok as [|? ? Hp Hok']; subst. destruct (poll_data_cases p) as [[c ->]|[Hnb Hnd']].
    + destruct (gf_finer_data s k j c polls Hat Hj Hwf Hp Hcells) as (s' & k' & Ht & Hat' & Hk' & Hwf' & Hi & Hb & Hcells' & Hl').
      change (polls_bins (Ready (SOk (DataItem (Data c))) :: polls)) with (item_bins (Ready (SOk (DataItem (Data c)))) ++ polls_bins polls).
      rewrite <- app_assoc. apply (outputs_item s s'); [done|done|]. apply (IH s' k'); try done; [lia| |].
      * intros Hn. destruct (Hl' Hn) as [Hn' ->]. by apply Hlast.
      * intros s'' Hat'' (Hs1 & Hs2 & Hs3) Hn. apply Hrest; [done| |done]. unfold same_input. by rewrite Hs1, Hs2, Hs3, Hi, Hb.
    + destruct (gf_finer_pass s k j p polls Hat Hwf Hp Hnb Hnd') as (s' & Ht & Hat' & Hwf' & Hi & Hb & Hl').
      assert (Hgo : gf_outputs s' (polls_bins polls ++ rest)).
      { apply (IH s' k); try done; [|by rewrite Hl'|].
        - revert Hcells. unfold polls_bins. cbn [map concat]. by rewrite Hnb.
        - intros s'' Hat'' (Hs1 & Hs2 & Hs3) Hn. apply Hrest; [done| |done]. unfold same_input. by rewrite Hs1, Hs2, Hs3, Hi, Hb. }
      unfold polls_bins in *. cbn [map concat]. rewrite Hnb. cbn [app]. destruct Ht as [Ht|[[-> Ht]|(x & -> & Ht)]].
      * by apply (outputs_continue s s').
      * by apply (outputs_pending s s').
      * rewrite <- (app_nil_l (concat _ ++ _)), <- Hnb. by apply (outputs_item s s').
Qed.

(** *** The cached bins *)

Lemma gf_setup_fills s k j fg :
  gf_at s k -> k < j <= e ->
  exists s' polls, gf_setup_inp_finer finer s (mkNanoRange (L * k) (L * j)) fg = (s', Some (Ok tt)) /\
    gf_at s' k /\ with_finer s' polls j /\ Forall item_ok polls /\ map bin_edges (polls_bins polls) = cells L k j /\
    gap_bins k j = polls_bins polls /\ gf_inp s' = gf_inp s /\ gf_inp_buf s' = gf_inp_buf s.
Proof.
  intros Hat Hj. pose proof (ga_k _ _ Hat) as Hk. destruct (Hfiner k j) as ([polls pn] & Hf & [Hpn Hok Hcells]); [lia|lia|]. cbn in Hpn. subst pn.
  unfold gf_setup_inp_finer, gap_bins. rewrite Hf, (proj2 (Z.ltb_lt _ _)) by lia. eexists _, polls.
  split; [reflexivity|]. split; [by destruct Hat; split|]. by repeat split.
Qed.

Lemma cells_from_beg k k' : off <= k <= k' -> Forall (fun x => L * off <= x.1) (cells L k k').
Proof.
  intros Hk. apply Forall_forall. intros x Hx. apply list_elem_of_fmap in Hx as (i & -> & Hi). apply elem_of_seqZ in Hi. cbn. nia.
Qed.

Lemma gf_check_cells s k k' i l2 :
  gf_at s k -> k <= k' <= e ->
  gf_check_edges s i (cells L k k' ++ l2) = gf_check_edges (set_next s (L * k) (cells L k k')) (i + length (cells L k k')) l2.
Proof.
  intros Hat Hk'. pose proof (ga_k _ _ Hat). rewrite gf_check_edges_run; rewrite ?(gf_at_next s k Hat); [done|apply cells_chained; lia|].
  rewrite (ga_range _ _ Hat), nano_beg_eq. apply cells_from_beg. lia.
Qed.

Lemma gf_handle_all s k k' (x : Bins) :
  gf_at s k -> k <= k' <= e -> cb_wf x -> map bin_edges (cb_zip_iter_2 x) = cells L k k' ->
  gf_handle_bins finer s x = (set_next s (L * k) (cells L k k'), Some (Ok (cb_new, x))).
Proof.
  intros Hat Hk' Hwf Hx. unfold gf_handle_bins. rewrite (cb_zip_edges x Hwf), Hx, <- (app_nil_r (cells L k k')).
  rewrite (gf_check_cells s k k') by done. cbn [gf_check_edges]. by rewrite app_nil_r.
Qed.

Lemma gf_handle_gap s k (x : Bins) P c C :
  let k' := k + Z.of_nat (length P) in let i := bin_ts1 c / L in
  gf_at s k -> cb_wf x -> cb_zip_iter_2 x = P ++ c :: C -> map bin_edges P = cells L k k' -> k' < i < e -> bin_ts1 c = L * i ->
  exists s' keep ret polls, gf_handle_bins finer s x = (s', Some (Ok (keep, ret))) /\ cb_wf keep /\ cb_zip_iter_2 keep = c :: C /\
    cb_wf ret /\ cb_zip_iter_2 ret = P /\ gf_at s' k' /\ with_finer s' polls i /\ Forall item_ok polls /\
    map bin_edges (polls_bins polls) = cells L k' i /\ gap_bins k' i = polls_bins polls /\ gf_inp s' = gf_inp s.
Proof.
  intros k' i Hat Hwf Hx HP Hi Hc. unfold gf_handle_bins. rewrite (cb_zip_edges x Hwf), Hx, map_app, HP.
  pose proof (ga_k _ _ Hat) as Hk. rewrite (gf_check_cells s k k') by (done || lia).
  set (s1 := set_next s (L * k) (cells L k k')). assert (Hat1 : gf_at s1 k') by (apply gf_at_cells; [done|lia]).
  assert (Hlen : length (cells L k k') = length P) by (by rewrite <- HP, length_map). rewrite Hlen. cbn [map gf_check_edges Nat.add].
  assert (Hb : bin_edges c = (L * i, bin_ts2 c)) by (unfold bin_edges; by rewrite Hc). rewrite Hb.
  rewrite (ga_range _ _ Hat1), nano_beg_eq, (proj2 (Z.ltb_ge _ _)) by nia.
  destruct (gf_setup_fills s1 k' i true Hat1 ltac:(lia)) as (s2 & polls & Hset & Hat2 & Hwf2 & Hok2 & Hcells2 & Hgap & Hi2 & _).
  assert (Hinp : gf_inp s2 = gf_inp s) by (rewrite Hi2; by destruct (cells L k k')).
  pose proof (ga_last _ _ Hat1) as Hl. destruct (gf_last_bin_ts2 s1) as [lst|].
  - subst lst. rewrite (proj2 (Z.eqb_neq _ _)) by nia. cbn [negb].
    destruct (cb_drain_into_front (E := gapfill_error) x cb_new (length P) Hwf cb_new_wf) as (keep & ret & Hd & Hw1 & Hw2 & Hk1 & Hr1).
    { rewrite <- (cb_zip_length x Hwf), Hx, length_app. lia. }
    rewrite Hd, Hset. exists s2, keep, ret, polls. split; [done|]. split; [done|]. split; [by rewrite Hk1, Hx, drop_app_length|]. split; [done|].
    split; [by rewrite Hr1, Hx, take_app_length|]. done.
  - rewrite (proj2 (Z.eqb_neq _ _)) by nia. cbn [negb]. rewrite Hl in Hset. rewrite Hset.
    assert (HPn : P = []) by (destruct P; [done|]; cbn [length] in *; unfold k' in *; lia).
    exists s2, x, cb_new, polls. split; [done|]. split; [done|]. split; [by rewrite Hx, HPn|]. split; [apply cb_new_wf|]. by rewrite HPn.
Qed.

(** The first run of bins without a gap. *)
Lemma cached_run k C R :
  cached_ok L k e (C ++ R) ->
  exists P D, let k' := k + Z.of_nat (length P) in C = P ++ D /\ map bin_edges P = cells L k k' /\ (P = [] \/ k' <= e) /\
    gf_filled k (C ++ R) = P ++ gf_filled k' (D ++ R) /\ cached_ok L k' e (D ++ R) /\
    match D with
    | [] => True
    | c :: _ => k' < bin_ts1 c / L < e /\ bin_ts1 c = L * (bin_ts1 c / L)
    end /\
    match C with
    | c :: _ => k = bin_ts1 c / L -> P <> []
    | [] => True
    end.
Proof.
  revert k. induction C as [|c C IH]; intros k Hok.
  - exists [], []. cbn [length app map]. rewrite Z.add_0_r. split; [done|]. split; [by rewrite cells_nil by lia|].
    split; [by left|]. split; [done|]. split; [done|done].
  - cbn [app cached_ok] in Hok. destruct Hok as (Hi & Hc & Hok). destruct (Z.eq_dec k (bin_ts1 c / L)) as [Hk|Hk].
    + rewrite <- Hk in *. destruct (IH (k + 1) Hok) as (P & D & -> & HP & Hle & Hfill & Hcok & HD & _).
      exists (c :: P), D. cbv zeta in *. cbn [length]. replace (k + Z.of_nat (S (length P))) with (k + 1 + Z.of_nat (length P)) by lia.
      split; [done|]. split; [cbn [map]; rewrite HP, Hc; by rewrite (cells_cons L k) by lia|]. split; [right; destruct Hle as [->|]; cbn [length] in *; lia|].
      split; [|split; [done|split; [done|done]]]. cbn [app gf_filled]. rewrite <- Hk. unfold gap_bins at 1. rewrite Z.ltb_irrefl. cbn [app]. by rewrite <- Hfill.
    + exists [], (c :: C). cbn [length app map]. rewrite Z.add_0_r. split; [done|]. split; [by rewrite cells_nil by lia|]. split; [by left|].
      split; [done|]. split; [done|]. split; [|done]. injection Hc as Hc1 _. split; [lia|done].
Qed.

Definition goes_on (s s' : State) : Prop := gf_inp s' = gf_inp s /\ gf_inp_buf s' = None /\ gf_inp_finer s' = None.

(** The buffer, when its first bin is the next one. *)
Lemma gf_buffer n s k (x : Bins) c C R :
  (length C < n)%nat -> gf_at s k -> gf_inp_finer s = None -> gf_inp_buf s = Some x -> cb_wf x -> cb_zip_iter_2 x = c :: C ->
  k = bin_ts1 c / L -> cached_ok L k e (c :: C ++ R) ->
  (forall s' k', gf_at s' k' -> goes_on s s' -> cached_ok L k' e R -> gf_outputs s' (gf_filled k' R)) ->
  gf_outputs s (gf_filled k (c :: C ++ R)).
Proof.
  revert s k x c C. induction n as [|n IH]; intros s k x c C Hn Hat Hfin Hbuf Hwf Hx Hk Hok Hcont; [lia|].
  destruct (cached_run k (c :: C) R Hok) as (P & D & HC & HP & Hle & Hfill & Hcok & HD & HPne). cbv zeta in *. specialize (HPne Hk).
  destruct Hle as [->|Hle]; [done|]. set (k' := k + Z.of_nat (length P)) in *.
  change (c :: C ++ R) with ((c :: C) ++ R). rewrite Hfill.
  set (s0 := gf_set_buf s None). assert (Hat0 : gf_at s0 k) by (by destruct Hat; split).
  destruct D as [|d D].
  - rewrite app_nil_r in HC. rewrite <- HC, <- Hx in HP.
    rewrite <- HC, <- Hx. change (cb_zip_iter_2 x) with (item_bins (Ready (sitem_data x))).
    apply (outputs_item s (set_next s0 (L * k) (cells L k k'))); [|done|].
    + unfold gf_turn. rewrite (ga_done _ _ Hat), Hfin, Hbuf. fold s0. by rewrite (gf_handle_all s0 k k' x Hat0 ltac:(lia) Hwf HP).
    + cbn [app] in *. apply Hcont; [apply gf_at_cells; [done|lia]| |done]. by destruct (cells L k k').
  - destruct HD as [Hd Hd1]. rewrite HC in Hx.
    destruct (gf_handle_gap s0 k x P d D Hat0 Hwf Hx HP Hd Hd1) as
      (s1 & keep & ret & polls & Hh & Hw1 & Hk1 & Hw2 & Hr & Hat1 & Hwf1 & Hok1 & Hcells1 & Hgap & Hi1). fold k' in Hat1, Hcells1, Hgap.
    rewrite <- Hr. change (cb_zip_iter_2 ret) with (item_bins (Ready (sitem_data ret))).
    apply (outputs_item s (gf_set_buf s1 (Some keep))); [|done|].
    + unfold gf_turn. rewrite (ga_done _ _ Hat), Hfin, Hbuf. fold s0. rewrite Hh.
      by rewrite (proj2 (Nat.eqb_neq _ _)) by (rewrite <- (cb_zip_length keep Hw1), Hk1; done).
    + cbn [app gf_filled]. rewrite Hgap. apply (gf_finer_fills _ k' (bin_ts1 d / L)); [by destruct Hat1; split|lia|done|done|done| |].
      * intros _. lia.
      * intros s2 Hat2 (Hs1 & Hs2 & Hs3) _. cbn [app cached_ok] in Hcok. destruct Hcok as (Hc1 & Hc2 & Hc3).
        assert (Hfd : d :: gf_filled (bin_ts1 d / L + 1) (D ++ R) = gf_filled (bin_ts1 d / L) (d :: D ++ R)).
        { cbn [gf_filled]. unfold gap_bins at 1. by rewrite Z.ltb_irrefl. }
        rewrite Hfd. apply (IH s2 _ keep); try done.
        -- assert (Hlen : length (c :: C) = length (P ++ d :: D)) by (by rewrite HC). rewrite length_app in Hlen. cbn [length] in *.
           destruct P; [done|]. cbn [length] in *. lia.
        -- cbn [cached_ok]. split; [lia|done].
        -- intros s3 k3 Hat3 (Hg1 & Hg2 & Hg3) Hok3. apply Hcont; [done| |done]. unfold goes_on. rewrite Hg1, Hs1. cbn. by rewrite Hi1.
Qed.

(** The buffer, with or without a gap before it. *)
Lemma gf_buffer_any s k (x : Bins) c C R :
  gf_at s k -> gf_inp_finer s = None -> gf_inp_buf s = Some x -> cb_wf x -> cb_zip_iter_2 x = c :: C -> cached_ok L k e (c :: C ++ R) ->
  (forall s' k', gf_at s' k' -> goes_on s s' -> cached_ok L k' e R -> gf_outputs s' (gf_filled k' R)) ->
  gf_outputs s (gf_filled k (c :: C ++ R)).
Proof.
  intros Hat Hfin Hbuf Hwf Hx Hok Hcont. destruct (Z.eq_dec k (bin_ts1 c / L)) as [Hk|Hk].
  { by apply (gf_buffer (S (length C)) s k x c C R); [lia|..]. }
  pose proof Hok as (Hi & Hc & Hok'). assert (Hc1 : bin_ts1 c = L * (bin_ts1 c / L)) by (by injection Hc).
  set (s0 := gf_set_buf s None). assert (Hat0 : gf_at s0 k) by (by destruct Hat; split).
  destruct (gf_handle_gap s0 k x [] c C Hat0 Hwf Hx) as
      (s1 & keep & ret & polls & Hh & Hw1 & Hk1 & Hw2 & Hr & Hat1 & Hwf1 & Hok1 & Hcells1 & Hgap & Hi1);
    [cbn [length map]; by rewrite cells_nil by lia|cbn [length]; lia|done|]. cbn [length] in *. rewrite Z.add_0_r in *.
  change (gf_filled k (c :: C ++ R)) with ([] ++ gf_filled k (c :: C ++ R)). rewrite <- Hr. change (cb_zip_iter_2 ret) with (item_bins (Ready (sitem_data ret))).
  apply (outputs_item s (gf_set_buf s1 (Some keep))); [|done|].
  - unfold gf_turn. rewrite (ga_done _ _ Hat), Hfin, Hbuf. fold s0. rewrite Hh.
    by rewrite (proj2 (Nat.eqb_neq _ _)) by (rewrite <- (cb_zip_length keep Hw1), Hk1; done).
  - cbn [app gf_filled]. rewrite Hgap. apply (gf_finer_fills _ k (bin_ts1 c / L)); [by destruct Hat1; split|lia|done|done|done|intros _; lia|].
    intros s2 Hat2 (Hs1 & Hs2 & Hs3) _.
    assert (Hfd : c :: gf_filled (bin_ts1 c / L + 1) (C ++ R) = gf_filled (bin_ts1 c / L) (c :: C ++ R)).
    { cbn [gf_filled]. unfold gap_bins at 1. by rewrite Z.ltb_irrefl. }
    rewrite Hfd. apply (gf_buffer (S (length C)) s2 _ keep); try done; [lia|cbn [cached_ok]; split; [lia|done]|].
    intros s3 k3 Hat3 (Hg1 & Hg2 & Hg3) Hok3. apply Hcont; [done| |done]. unfold goes_on. rewrite Hg1, Hs1. cbn. by rewrite Hi1.
Qed.

(** *** The end, and all of it *)

Lemma gf_last_turns s k : gf_at s k -> gf_inp s = None -> gf_inp_buf s = None -> gf_inp_finer s = None -> gf_outputs s [].
Proof.
  intros Hat Hi Hb Hf. set (s' := gf_set_done s).
  assert (Hend : gf_outputs s' []) by (exists ps_empty; split; [by apply (gives_end _ _ s' s')|done]).
  destruct (gf_inp_finer_range_final_cnt s =? gf_inp_finer_range_final_max s) eqn:Hc.
  - change (gf_outputs s (item_bins (Ready (SOk (DataItem RangeComplete))) ++ [])). apply (outputs_item s s'); [|done|done].
    unfold gf_turn. rewrite (ga_done _ _ Hat), Hf, Hb, Hi. cbn. by rewrite Hc.
  - apply (outputs_continue s s'); [|done]. unfold gf_turn. rewrite (ga_done _ _ Hat), Hf, Hb, Hi. cbn. by rewrite Hc.
Qed.

Lemma gf_input_end s k :
  gf_at s k -> gf_inp s = Some (mkPollStream [] false) -> gf_inp_buf s = None -> gf_inp_finer s = None -> gf_outputs s (gap_bins k e).
Proof.
  intros Hat Hi Hb Hf. pose proof (ga_k _ _ Hat) as Hk. set (s0 := gf_set_inp s None).
  assert (Hat0 : gf_at s0 k) by (by destruct Hat; split).
  assert (Hturn : turn s = gf_inp_end finer s) by (unfold gf_turn; by rewrite (ga_done _ _ Hat), Hf, Hb, Hi). unfold gf_inp_end in Hturn. fold s0 in Hturn.
  assert (Hgo : forall r, k < e -> r = mkNanoRange (L * k) (L * e) ->
    turn s = (let '(s', o) := gf_setup_inp_finer finer s0 r false in
      match o with Some (Ok _) => (s', LoopContinue) | Some (Err er) => (s', gf_err (TbGapFill er)) | Some Panic => (s', LoopPanic) | None => (s', LoopFuel) end) ->
    gf_outputs s (gap_bins k e)).
  { intros r Hke -> Ht. destruct (gf_setup_fills s0 k e false Hat0 ltac:(lia)) as (s1 & polls & Hset & Hat1 & Hwf1 & Hok1 & Hcells1 & Hgap & Hi1 & Hb1).
    rewrite Hset in Ht. apply (outputs_continue s s1); [done|]. rewrite Hgap, <- (app_nil_r (polls_bins polls)).
    apply (gf_finer_fills s1 k e); try done; [lia|]. intros s2 Hat2 (Hs1 & Hs2 & Hs3) _.
    apply (gf_last_turns s2 e); [done|by rewrite Hs1, Hi1|by rewrite Hs2, Hb1|done]. }
  pose proof (ga_last _ _ Hat0) as Hl. change (gf_last_bin_ts2 s0) with (gf_last_bin_ts2 s) in *. change (gf_range s0) with (gf_range s) in *.
  rewrite (ga_range _ _ Hat) in *. unfold br_nano_end in Hturn. rewrite nano_end_eq in Hturn. destruct (gf_last_bin_ts2 s) as [x|].
  - subst x. destruct (Z.eqb_spec (L * k) (L * e)) as [Heq|Hne]; cbn [negb] in Hturn.
    + assert (k = e) as -> by nia. unfold gap_bins. rewrite Z.ltb_irrefl. exists ps_empty. split; [by apply (gives_end _ _ s s0)|done].
    + apply (Hgo (mkNanoRange (L * k) (L * e))); [nia|done|]. rewrite Hturn. unfold br_full_range. cbn [d0_times d0_as_u64 Dim0Index_TsNano nr_end].
      unfold TsNano_ns. by rewrite nano_end_eq.
  - subst k. apply (Hgo (br_to_nano_range range)); [lia| |done]. unfold br_to_nano_range. rewrite nano_end_eq. f_equal. apply u64_mul_small. nia.
Qed.

Lemma gf_input polls s k :
  gf_at s k -> gf_inp s = Some (mkPollStream polls false) -> gf_inp_buf s = None -> gf_inp_finer s = None ->
  Forall item_ok polls -> cached_ok L k e (polls_bins polls) -> gf_outputs s (gf_filled k (polls_bins polls)).
Proof.
  revert s k. induction polls as [|p polls IH]; intros s k Hat Hi Hb Hf Hok Hc; [by apply gf_input_end|].
  inversion Hok as [|? ? Hp Hok']; subst. set (s0 := gf_set_inp s (Some (mkPollStream polls false))).
  assert (Hat0 : gf_at s0 k) by (by destruct Hat; split).
  assert (Hturn : turn s = match p with Ready x => gf_inp_item s0 x | Pending => (s0, LoopBreak Pending) end)
    by (unfold gf_turn; rewrite (ga_done _ _ Hat), Hf, Hb, Hi; by destruct p).
  change (polls_bins (p :: polls)) with (item_bins p ++ polls_bins polls) in *.
  destruct p as [[[[|c]|l|st]|er]|]; cbn [gf_inp_item] in Hturn; [| | | |done|].
  - apply (outputs_continue s (gf_set_inp_final s0)); [done|]. apply IH; try done. by destruct Hat; split.
  - cbn [bs_poll_bins] in *. pose proof (cb_zip_length c Hp) as Hlen. destruct (Nat.eqb_spec (cb_len c) 0) as [Hz|Hz].
    + rewrite Hz in Hlen. apply length_zero_iff_nil in Hlen. rewrite Hlen in *. apply (outputs_continue s s0); [done|]. by apply IH.
    + destruct (cb_zip_iter_2 c) as [|b bins] eqn:Hbins; [done|]. cbn [app] in *.
      apply (outputs_continue s (gf_set_buf s0 (Some c))); [done|].
      apply (gf_buffer_any _ k c b bins); try done; [by destruct Hat; split|].
      intros s' k' Hat' (Hg1 & Hg2 & Hg3) Hok2. by apply IH.
  - apply (outputs_item s s0 (SOk (Log l))); [done|done|]. by apply IH.
  - apply (outputs_item s s0 (SOk (Stats st))); [done|done|]. by apply IH.
  - apply (outputs_pending s s0); [done|]. by apply IH.
Qed.

Lemma gap_bins_cells i j : off <= i <= j -> j <= e -> map bin_edges (gap_bins i j) = cells L i j.
Proof.
  intros Hi Hj. unfold gap_bins. destruct (Z.ltb_spec i j); [|by rewrite cells_nil by lia].
  destruct (Hfiner i j) as (st0 & -> & Hd); [lia|lia|]. apply Hd.
Qed.

Lemma gf_filled_cells C k : off <= k <= e -> cached_ok L k e C -> map bin_edges (gf_filled k C) = cells L k e.
Proof.
  revert k. induction C as [|c C IH]; intros k Hk Hok; [by apply gap_bins_cells; lia|]. cbn [gf_filled cached_ok] in *.
  destruct Hok as (Hi & Hc & Hok). rewrite map_app. cbn [map]. rewrite gap_bins_cells, Hc, IH by (done || lia).
  rewrite <- cells_cons by lia. apply cells_app. lia.
Qed.

(** When the cached bins are bins of the grid in time order, and the finer
    stream for each gap has the bins of the gap, then the output of [GapFill] is,
    with no error and up to its end, the cached bins as they are with the gaps
    before, between and after them filled by the bins of the finer streams: all
    bins of the range in order. *)
Theorem gf_fills inp :
  ps_panics inp = false -> Forall item_ok (ps_polls inp) -> cached_ok L off e (polls_bins (ps_polls inp)) ->
  exists n st, (forall fuel, (n <= fuel)%nat -> gf_run cache_write finer fuel (gf_new range inp) = Some st) /\
    ps_panics st = false /\ Forall item_ok (ps_polls st) /\
    polls_bins (ps_polls st) = gf_filled off (polls_bins (ps_polls inp)) /\
    map bin_edges (polls_bins (ps_polls st)) = cells L off e.
Proof.
  intros Hpn Hok Hc. destruct inp as [polls pn]. cbn [ps_panics ps_polls] in *. subst pn.
  destruct (gf_input polls (gf_new range (mkPollStream polls false)) off) as (st & (n & Hn) & Hp & Hok2 & Hb); try done.
  { split; try done. lia. }
  exists n, st. split; [done|]. split; [done|]. split; [done|]. split; [done|]. rewrite Hb.
  apply gf_filled_cells; [lia|done].
Qed.

End Fill.
(** ** A gap that nothing fills *)
Section Endless.
  Context (cache_write : bool) (finer : NanoRange -> option (outcome gapfill_error (PollStream Item))).
  Context (range : BinnedRange TsNano) (c : Bins) (ts1 ts2 : TsNano) (edges : list (TsNano * TsNano)).
Local Abbreviation turn := (gf_turn cache_write finer).
Hypothesis Hc : cb_edges_iter c = (ts1, ts2) :: edges.
Hypothesis Hgap : br_nano_beg range < ts1.
Hypothesis Hnone : finer (mkNanoRange (br_nano_beg range) ts1) = Some (Ok ps_empty).

Record stuck (s : State) : Prop := {
  sk_range : gf_range s = range;
  sk_buf : gf_inp_buf s = Some c;
  sk_finer : gf_inp_finer s = None;
  sk_last : gf_last_bin_ts2 s = None;
  sk_done : gf_done s = false
}.

Lemma cb_len_edges : cb_len c <> 0%nat.
Proof. unfold cb_edges_iter, cb_len in *. by destruct (cb_ts1s c). Qed.

Lemma stuck_turns s n :
  stuck s -> exists s', stream_turns turn (fun _ => false) (2 + n) s =
    (let '(l, o) := stream_turns turn (fun _ => false) n s' in (Ready (sitem_data cb_new) :: Ready (SErr TbFinerNothing) :: l, o)) /\ stuck s'.
Proof.
  intros [Sr Sb Sf Sl Sd]. set (s0 := gf_set_buf s None).
  set (s1 := gf_set_buf (gf_set_finer (mkGapFill (gf_range s0) (gf_inp s0) (gf_inp_range_final s0) (gf_inp_buf s0) (gf_inp_finer s0) false
    (gf_inp_finer_range_final_cnt s0) (u32_add (gf_inp_finer_range_final_max s0) 1) true (gf_last_bin_ts2 s0)
    (mkNanoRange (br_nano_beg range) ts1) (gf_bins_for_cache_write s0) (gf_done s0)) (Some ps_empty)) (Some c)).
  assert (Ht1 : turn s = (s1, LoopBreak (Ready (Some (sitem_data cb_new))))).
  { unfold gf_turn. rewrite Sd, Sf, Sb. fold s0. unfold gf_handle_bins. rewrite Hc. cbn [gf_check_edges].
    change (gf_last_bin_ts2 s0) with (gf_last_bin_ts2 s). change (gf_range s0) with (gf_range s). rewrite Sr, Sl.
    rewrite (proj2 (Z.ltb_ge _ _)) by lia. rewrite (proj2 (Z.eqb_neq _ _)) by lia. cbn [negb].
    unfold gf_setup_inp_finer. rewrite Hnone. by rewrite (proj2 (Nat.eqb_neq _ _)) by apply cb_len_edges. }
  set (s2 := gf_set_finer (gf_set_exp s1 (mkNanoRange 0 0)) None).
  assert (Ht2 : turn s1 = (s2, LoopBreak (Ready (Some (SErr TbFinerNothing))))).
  { unfold gf_turn. change (gf_done s1) with (gf_done s). rewrite Sd. cbn [gf_inp_finer s1 gf_set_finer gf_set_buf ps_polls ps_empty ps_panics].
    unfold gf_finer_end. fold s2. change (gf_last_bin_ts2 s2) with (gf_last_bin_ts2 s). by rewrite Sl. }
  exists s2. split; [|by split].
  change (2 + n)%nat with (S (S n)). cbn [stream_turns]. rewrite Ht1. cbn [stream_turns]. rewrite Ht2. by destruct (stream_turns _ _ n s2).
Qed.

(** When the finer input has nothing for the gap before the first cached bin,
    as it is when bins from events are not allowed, a consumer that polls on after
    the error gets the same error again and again: [GapFill] never comes past the
    gap, and never ends. *)
Theorem gf_gap_endless polls pn n :
  exists s, stream_turns turn (fun _ => false) (1 + 2 * n) (gf_new range (mkPollStream (Ready (SOk (DataItem (Data c))) :: polls) pn)) =
    (concat (repeat [Ready (sitem_data cb_new); Ready (SErr TbFinerNothing)] n), Some s).
Proof.
  change (1 + 2 * n)%nat with (S (2 * n)). cbn [stream_turns]. unfold gf_turn at 1. cbn [gf_done gf_new gf_inp_finer gf_inp_buf gf_inp ps_polls gf_inp_item].
  rewrite (proj2 (Nat.eqb_neq _ _)) by apply cb_len_edges. set (s := gf_set_buf _ _). assert (Hs : stuck s) by (by split). clearbody s. revert s Hs.
  induction n as [|n IH]; intros s Hs; [by exists s|]. replace (2 * S n)%nat with (2 + 2 * n)%nat by lia.
  destruct (stuck_turns s (2 * n) Hs) as (s' & -> & Hs'). destruct (IH s' Hs') as (s2 & ->). by exists s2.
Qed.
End Endless.

(** ** More fuel *)

Lemma gf_setup_mono (f g : NanoRange -> option (outcome gapfill_error (PollStream Item))) s r fg s' o :
  (forall r x, f r = Some x -> g r = Some x) -> gf_setup_inp_finer f s r fg = (s', Some o) -> gf_setup_inp_finer g s r fg = (s', Some o).
Proof. intros Hfg. unfold gf_setup_inp_finer. destruct (f r) as [[st|er|]|] eqn:Hf; [rewrite (Hfg _ _ Hf); done..|done]. Qed.

Lemma gf_turn_mono cw (f g : NanoRange -> option (outcome gapfill_error (PollStream Item))) (s s' : State) fl :
  (forall r x, f r = Some x -> g r = Some x) -> gf_turn cw f s = (s', fl) -> fl <> LoopFuel -> gf_turn cw g s = (s', fl).
Proof.
  intros Hfg Ht Hfl. unfold gf_turn in *. destruct (gf_done s); [done|]. destruct (gf_inp_finer s); [done|].
  assert (Hsetup : forall s r fg, (gf_setup_inp_finer f s r fg).2 <> None -> gf_setup_inp_finer g s r fg = gf_setup_inp_finer f s r fg).
  { intros s0 r fg Hne. destruct (gf_setup_inp_finer f s0 r fg) as [s1 [o|]] eqn:Hs; [|done]. by eapply gf_setup_mono. }
  destruct (gf_inp_buf s) as [x|].
  - unfold gf_handle_bins in *. destruct (gf_check_edges _ _ _) as [s1 [|er|j range|range]]; [done|done| |].
    + destruct (cb_drain_into _ _ _ _) as [[[keep ret] r]|er|]; [|done|done]. rewrite Hsetup; [done|]. intros Hn.
      destruct (gf_setup_inp_finer f s1 range true) as [s2 o]. cbn in Hn. subst o. by injection Ht as _ <-.
    + rewrite Hsetup; [done|]. intros Hn. destruct (gf_setup_inp_finer f s1 range true) as [s2 o]. cbn in Hn. subst o. by injection Ht as _ <-.
  - destruct (gf_inp s) as [[[|[x|] polls] pn]|]; cbn [ps_polls ps_panics] in *; [|done|done|done]. destruct pn; [done|]. unfold gf_inp_end in *.
    destruct (gf_last_bin_ts2 _) as [j|]; [destruct (negb _); [|done]|]; (rewrite Hsetup; [done|]; intros Hn;
      destruct (gf_setup_inp_finer f _ _ false) as [s2 o]; cbn in Hn; subst o; by injection Ht as _ <-).
Qed.

Section LayerFuel.
  Context {A G K : Type} {val : K -> Type} `{EventValueType V} `{AggBinValTw A B} `{AggregatorTimeWeight V G B} {Hconv : forall i, ForBinning (val i) V}.
  Context (env : GapFillEnv (V := V) (B := B) (Lg := Lg) (St := St) (E := E) (val := val)).
Local Abbreviation FinerAt fuel gf bl r := (gf_finer_stream (A := A) (G := G) env fuel gf bl r).
Local Abbreviation StreamAt fuel depth range := (gf_stream (A := A) (G := G) env fuel depth range).

Lemma and_then_opt_mono {E' X Y} (m m' : option (outcome E' X)) (k k' : X -> option (outcome E' Y)) y :
  (forall x, m = Some x -> m' = Some x) -> (forall x y, k x = Some y -> k' x = Some y) -> and_then_opt m k = Some y -> and_then_opt m' k' = Some y.
Proof. intros Hm Hk. destruct m as [[x|er|]|]; cbn; [|intros Hy..]; rewrite (Hm _ eq_refl) || done; cbn; auto. Qed.

Lemma opt_map_err_mono {E1 E2 X} (f : E1 -> E2) (m m' : option (outcome E1 X)) y :
  (forall x, m = Some x -> m' = Some x) -> opt_map_err f m = Some y -> opt_map_err f m' = Some y.
Proof. intros Hm (x & Hx & ->)%fmap_Some. unfold opt_map_err. by rewrite (Hm x Hx). Qed.

Lemma from_events_mono fuel fuel' r bins x :
  (fuel <= fuel')%nat -> binned_from_events (G := G) env fuel r bins = Some x -> binned_from_events (G := G) env fuel' r bins = Some x.
Proof.
  intros Hf. unfold binned_from_events. destruct (ge_do_time_weight env); [|done]. intros (st & Hr & Hx)%bind_Some. apply bind_Some.
  exists st. split; [by eapply stream_run_mono|done].
Qed.

Lemma gf_finer_mono fuel fuel' gf gf' bl r x :
  (fuel <= fuel')%nat -> (forall r x, gf r = Some x -> gf' r = Some x) ->
  FinerAt fuel gf bl r = Some x -> FinerAt fuel' gf' bl r = Some x.
Proof.
  intros Hf Hgf. unfold gf_finer_stream. destruct (find_next_finer_bin_len _ _).
  2:{ destruct (bo_allow_from_events _); [|done]. apply and_then_opt_mono; [done|]. intros bins y. apply opt_map_err_mono. intros z. by apply from_events_mono. }
  apply and_then_opt_mono; [done|]. intros rf ?. apply and_then_opt_mono; [intros ?; apply Hgf|]. intros st0 ?. apply and_then_opt_mono; [done|].
  intros r2 ?. destruct (ge_do_time_weight env); [|done]. intros (st1 & Hb & Hz)%bind_Some. apply bind_Some. exists st1.
  split; [by eapply stream_run_mono|done].
Qed.

(** The streams of the layers do not depend on the fuel, if it suffices. *)
Lemma gf_stream_mono fuel fuel' depth range x :
  (fuel <= fuel')%nat -> StreamAt fuel depth range = Some x -> StreamAt fuel' depth range = Some x.
Proof.
  intros Hf. revert range x. induction depth as [|depth IH]; intros range x; [done|]. cbn [gf_stream]. apply and_then_opt_mono.
  - intros y. unfold gf_cached_input. destruct (cu_is_cache_read _); [|done]. destruct (ge_series env); [|done].
    intros (l & Hl & Hy)%bind_Some. apply bind_Some. exists l. split; [by eapply stream_run_mono|done].
  - intros inp y (st & Hr & Hy)%bind_Some. apply bind_Some. exists st. split; [|done]. unfold gf_run in *.
    eapply stream_run_mono; [|exact Hf]. eapply stream_run_turn_mono; [|exact Hr]. intros s s' fl. apply gf_turn_mono.
    intros r z. by apply gf_finer_mono.
Qed.

Lemma gf_finer_stream_mono fuel fuel' depth bl r x :
  (fuel <= fuel')%nat -> FinerAt fuel (gf_stream (A := A) (G := G) env fuel depth) bl r = Some x ->
  FinerAt fuel' (gf_stream (A := A) (G := G) env fuel' depth) bl r = Some x.
Proof. intros Hf. apply gf_finer_mono; [done|]. intros r' y. by apply gf_stream_mono. Qed.
End LayerFuel.
End GapFillProofs.

(** ** The events of a range *)

(** What is read for a range of time: its events, and the last one before. *)
Definition evs_read {V} (evs : list (Z * V)) (a b : Z) : list (Z * V) :=
  match last (filter (fun e => e.1 < a) evs) with Some e => [e] | None => [] end ++ filter (fun e => a <= e.1 < b) evs.

(** How many of the events are in a range of time. *)
Definition n_in {V} (evs : list (Z * V)) (a b : Z) : Z := Z.of_nat (length (filter (fun e => a <= e.1 < b) evs)).

(** ** An example *)

Abbreviation ExItem := (BsItem (V := F32) (B := F32) (L := LogLevel * string) (St := unit) (E := timebin_error unit)).

Definition example_value : F32 := demo_f32 7.

(** Events in all bins. *)
Definition example_bins (l i j : Z) : PollStream ExItem :=
  mkPollStream [Pending; Ready (SOk (DataItem (Data (grid_container example_value l i (j - i)))))] false.

Lemma example_bins_spec l i j :
  delivers l i j (example_bins l i j) /\
  bs_bins (ps_polls (example_bins l i j)) =
    map (fun k => mkBin (l * k) (l * (k + 1)) 1 example_value example_value example_value example_value true) (seqZ i (j - i)).
Proof.
  destruct (grid_container_spec example_value l i (j - i)) as [Hw Hz].
  assert (Hb : bs_bins (ps_polls (example_bins l i j)) = cb_zip_iter_2 (grid_container example_value l i (j - i))).
  { unfold bs_bins, example_bins. cbn. apply app_nil_r. }
  split; [|by rewrite Hb]. split; [done| |].
  - unfold example_bins. cbn [ps_polls]. repeat apply List.Forall_cons; [done|exact Hw|by apply List.Forall_nil].
  - rewrite Hb, Hz. unfold cells. rewrite map_map. done.
Qed.

(** A channel of integers: an event every ten seconds. *)
Definition example_evs : list (Z * Z) := map (fun k => (1000000000 * (10 * k + 1), k)) (seqZ 20 80).

(** An events provider that gives the events after a pause in one container. *)
Definition example_read (r : NanoRange) : PollStream (TwsItem (K := unit) (val := fun _ => Z) (L := LogLevel * string) (St := unit) (E := unit)) :=
  let l := evs_read example_evs (nr_beg r) (nr_end r) in
  mkPollStream [Pending; Ready (SOk (DataItem (Data (ch_events (val := fun _ => Z) tt (ce_from_constituents l.*1 l.*2)))));
    Ready (SOk (DataItem RangeComplete))] false.

(** A cache that answers at the second poll, and has only the second of the bins
    that are asked for, with the number of its events. *)
Definition example_cache_read : CacheReads F32 F32 := fun series bl m offs =>
  (1%nat, match pbp_try_from bl with
          | Ok p =>
              let l := 1000000 * bl in
              let k := m * pbp_patch_len p + offs.1 + 1 in
              if offs.1 + 1 <? offs.2
              then Ok (Some (cb_push_back cb_new (l * k) (l * (k + 1)) (n_in example_evs (l * k) (l * (k + 1))) example_value example_value example_value example_value true))
              else Ok None
          | _ => Err CrTodoImpl
          end).

Definition example_env (opts : BinningOptions) : GapFillEnv (K := unit) (val := fun _ => Z) (V := F32) (B := F32) (Lg := LogLevel * string) (St := unit) (E := unit) := {|
  ge_series := Some 3;
  ge_opts := opts;
  ge_do_time_weight := true;
  ge_layers := [1000; 10000; 60000];
  ge_cache_read := example_cache_read;
  ge_read := example_read;
  ge_log_item := fun level msg => (level, msg);
  ge_stats_binning := tt
|}.

Definition example_opts : BinningOptions := mkBinningOptions CuUse true true true false [] false.

Abbreviation example_stream := (gf_stream (A := AggBinValTwF32) (G := AggregatorNumeric) (example_env example_opts)).

Lemma gf_never_range_complete_witness :
  exists st, example_stream 300 3 (mkBinnedRange 60000000000 5 4) = Some (Ok st) /\
    length (bs_bins (ps_polls st)) = 4%nat /\ no_marks (ps_polls st).
Proof.
  destruct (example_stream 300 3 (mkBinnedRange 60000000000 5 4)) as [[st| |]|] eqn:Hst;
    [|vm_compute in Hst; discriminate Hst..].
  exists st. split; [reflexivity|]. split; [vm_compute in Hst; injection Hst as <-; reflexivity|].
  refine (gf_never_range_complete (A := AggBinValTwF32) (G := AggregatorNumeric) (example_env example_opts) 300 _ 3 _ st Hst).
  vm_compute. reflexivity.
Defined.

(** A finer stream for any range of a grid of length 10. *)
Definition example_finer (r : NanoRange) : option (outcome gapfill_error (PollStream ExItem)) :=
  Some (Ok (example_bins 10 (nr_beg r / 10) (nr_end r / 10))).

Definition example_cached : PollStream ExItem :=
  mkPollStream [Ready (SOk (DataItem (Data (grid_container (demo_f32 1) 10 4 2)))); Pending;
    Ready (SOk (DataItem (Data (grid_container (demo_f32 2) 10 8 1))))] false.

Lemma gf_fills_witness :
  exists n st, (forall fuel, (n <= fuel)%nat -> gf_run true example_finer fuel (gf_new (mkBinnedRange 10 3 7) example_cached) = Some st) /\
    map bin_lst (bs_bins (ps_polls st)) = map demo_f32 [7; 1; 1; 7; 7; 2; 7] /\
    map bin_edges (bs_bins (ps_polls st)) = [(30, 40); (40, 50); (50, 60); (60, 70); (70, 80); (80, 90); (90, 100)].
Proof.
  assert (Hfin : forall i j, 3 <= i < j -> j <= 10 -> exists st, example_finer (mkNanoRange (10 * i) (10 * j)) = Some (Ok st) /\ delivers 10 i j st).
  { intros i j Hi Hj. exists (example_bins 10 i j). split; [|apply example_bins_spec]. unfold example_finer. cbn [nr_beg nr_end].
    by rewrite !(Z.mul_comm 10), !Z.div_mul by lia. }
  assert (Hok : Forall bs_poll_ok (ps_polls example_cached)).
  { unfold example_cached. cbn [ps_polls]. repeat apply List.Forall_cons; try apply List.Forall_nil; [apply grid_container_spec|done|apply grid_container_spec]. }
  assert (Hc : cached_ok 10 3 10 (bs_bins (ps_polls example_cached))) by (vm_compute; intuition congruence).
  destruct (gf_fills true example_finer (mkBinnedRange 10 3 7) ltac:(done) ltac:(done) ltac:(done) ltac:(done) Hfin example_cached eq_refl Hok Hc)
    as (n & st & Hrun & _ & _ & Hf & Hcells).
  exists n, st. split; [exact Hrun|]. split; [rewrite Hf; vm_compute; reflexivity|]. rewrite Hcells. vm_compute. reflexivity.
Defined.

Lemma gf_gap_endless_witness :
  exists s, stream_turns (gf_turn false (fun _ => Some (Ok ps_empty))) (fun _ => false) 5 (gf_new (mkBinnedRange 10 3 7) example_cached) =
    ([Ready (sitem_data cb_new); Ready (SErr TbFinerNothing); Ready (sitem_data cb_new); Ready (SErr TbFinerNothing)], Some s).
Proof.
  refine (gf_gap_endless (E := unit) false (fun _ => Some (Ok ps_empty)) (mkBinnedRange 10 3 7) (grid_container (demo_f32 1) 10 4 2) 40 50 [(50, 60)] _ _ _ _ false 2).
  - vm_compute. reflexivity.
  - vm_compute. reflexivity.
  - reflexivity.
Defined.
