(* ===== verification/GapFillLayers.v ===== *)
(** * The layers of bin lengths

    [GapFill] over its finer [GapFill]s down to the events, and
    [TimeBinnedFromLayers] on top: when the provider of events gives the events of
    a range, and the cache what it has of the bins it is asked for, all bins of the
    range come out, each with the number of its events ([n_in]). The counts are
    followed through the stream of bins from events ([from_events_deliver]) and
    the binning of bins ([bs_run_delivers]). *)
From Stdlib Require Import ZArith Lia.
From stdpp Require Import base numbers option strings list sorting.
From S2P Require Import Prelude Items TimeTypes Msp Ranges Events Bins Floats Rebin RebinProofs StreamRun CacheReader Timeweight TimeweightProofs Merger ChannelEvents TwStream TwStreamProofs GapFill GapFillProofs.

#[local] Open Scope Z_scope.
#[local] Open Scope rust_scope.

(** A bound for finitely many values. *)
Lemma uniform_bound (P : Z -> nat -> Prop) a b :
  (forall i, a <= i < b -> exists n, forall m, (n <= m)%nat -> P i m) -> exists n, forall i m, a <= i < b -> (n <= m)%nat -> P i m.
Proof.
  intros HP. remember (Z.to_nat (b - a)) as k eqn:Hk. revert b HP Hk. induction k as [|k IH]; intros b HP Hk.
  { exists O. intros i m Hi. lia. }
  destruct (IH (b - 1)) as (n1 & H1); [intros i Hi; apply HP; lia|lia|]. destruct (HP (b - 1)) as (n2 & H2); [lia|].
  exists (Nat.max n1 n2). intros i m Hi Hm. destruct (Z.eq_dec i (b - 1)) as [->|]; [apply H2; lia|apply H1; lia].
Qed.

(** ** The events that there are *)

Section Counts.
  Context {V : Type} (evs : list (Z * V)).

Lemma n_in_split a b c : a <= b <= c -> n_in evs a c = n_in evs a b + n_in evs b c.
Proof.
  intros Hb. unfold n_in. induction evs as [|e l IH]; [done|]. rewrite !filter_cons. repeat case_decide; cbn [length]; lia.
Qed.

Lemma n_in_nil a : n_in evs a a = 0.
Proof. pose proof (n_in_split a a a). lia. Qed.

Lemma n_in_bound a b : 0 <= n_in evs a b <= Z.of_nat (length evs).
Proof. unfold n_in. pose proof (length_filter (fun e => a <= e.1 < b) evs). lia. Qed.

Lemma evs_read_before a e : last (filter (fun e => e.1 < a) evs) = Some e -> e.1 < a.
Proof. intros He%last_Some_elem_of. by apply list_elem_of_filter in He as [? _]. Qed.

(** What is read has the events of the range. *)
Lemma n_in_read a b x y : a <= x -> y <= b -> n_in (evs_read evs a b) x y = n_in evs x y.
Proof.
  intros Hx Hy. unfold n_in, evs_read. rewrite filter_app, length_app.
  replace (filter (fun e => x <= e.1 < y) (match last (filter (fun e => e.1 < a) evs) with Some e => [e] | None => [] end)) with (@nil (Z * V)).
  - cbn [length Nat.add]. f_equal. induction evs as [|e l IH]; [done|]. rewrite (filter_cons (fun e => a <= e.1 < b)).
    case_decide; rewrite ?filter_cons; repeat case_decide; cbn [length]; lia.
  - destruct (last _) as [e|] eqn:He; [|done]. apply evs_read_before in He. cbn. by rewrite decide_False by lia.
Qed.

Lemma sorted_events_filter (P : Z * V -> Prop) `{forall x, Decision (P x)} : StronglySorted Z.le evs.*1 -> StronglySorted Z.le (filter P evs).*1.
Proof.
  induction evs as [|e l IH]; [done|]. rewrite fmap_cons. inversion 1 as [|? ? Hs Hall]; subst. rewrite filter_cons. case_decide; [|by apply IH].
  rewrite fmap_cons. constructor; [by apply IH|]. rewrite Forall_fmap in Hall |- *. rewrite Forall_forall in *. intros x [_ Hx]%list_elem_of_filter. by apply Hall.
Qed.

Hypothesis Hsorted : StronglySorted Z.le evs.*1.

Lemma evs_read_spec a b :
  StronglySorted Z.le (evs_read evs a b).*1 /\ Forall (fun e => a <= e.1) (tail (evs_read evs a b)) /\
  (a <= b -> Forall (fun e => e.1 < b) (evs_read evs a b)).
Proof.
  set (l := filter (fun e => a <= e.1 < b) evs).
  assert (Hl : Forall (fun e => a <= e.1 < b) l) by (apply Forall_forall; intros e He; by apply list_elem_of_filter in He as [? _]).
  assert (Hs : StronglySorted Z.le l.*1) by (by apply sorted_events_filter).
  assert (Hge : Forall (fun e => a <= e.1) l) by (eapply Forall_impl; [exact Hl|]; simpl; lia).
  assert (Hlt : Forall (fun e => e.1 < b) l) by (eapply Forall_impl; [exact Hl|]; simpl; lia).
  unfold evs_read. fold l. destruct (last _) as [e|] eqn:He; cbn [app tail].
  - apply evs_read_before in He. split; [|split; [done|constructor; [lia|done]]]. rewrite fmap_cons. constructor; [done|].
    rewrite Forall_fmap. eapply Forall_impl; [exact Hge|]. simpl. lia.
  - split; [done|]. split; [|done]. destruct l; [done|]. by apply Forall_cons in Hge as [_ ?].
Qed.

(** With an event at the begin of the range or before it, the first that is read is one. *)
Lemma evs_read_first a b e : e ∈ evs -> e.1 <= a -> a < b -> exists e0 l, evs_read evs a b = e0 :: l /\ e0.1 <= a.
Proof.
  intros He Hea Hab. unfold evs_read. destruct (last _) as [x|] eqn:Hx; cbn [app].
  { apply evs_read_before in Hx. eexists _, _. split; [done|lia]. }
  apply last_None in Hx. assert (Hin : e ∈ filter (fun e => a <= e.1 < b) evs).
  { apply list_elem_of_filter. split; [|done]. destruct (Z.lt_ge_cases e.1 a); [|lia].
    assert (Hin : e ∈ filter (fun e => e.1 < a) evs) by (by apply list_elem_of_filter). rewrite Hx in Hin. by apply not_elem_of_nil in Hin. }
  pose proof (sorted_events_filter (fun e => a <= e.1 < b) Hsorted) as Hs. destruct (filter (fun e => a <= e.1 < b) evs) as [|e0 l]; [by apply not_elem_of_nil in Hin|].
  exists e0, l. split; [done|]. apply elem_of_cons in Hin as [->|Hin]; [done|]. rewrite fmap_cons in Hs. inversion Hs as [|? ? _ Hall]; subst.
  rewrite Forall_fmap, Forall_forall in Hall. specialize (Hall e Hin). simpl in Hall. lia.
Qed.

End Counts.

Section Layers.
  Context {V B A G Lg St E K : Type} {val : K -> Type} `{EventValueType V} `{AggBinValTwLaws A B} `{AggregatorTimeWeightLaws V G B}
    {Hconv : forall i, ForBinning (val i) V}.
Abbreviation Item := (BsItem (V := V) (B := B) (L := Lg) (St := St) (E := timebin_error E)).
Abbreviation item_ok := (bs_poll_ok (V := V) (B := B) (Lg := Lg) (St := St) (E := timebin_error E)).
Abbreviation polls_bins := (bs_bins (V := V) (B := B) (Lg := Lg) (St := St) (E := timebin_error E)).
Abbreviation Env := (GapFillEnv (V := V) (B := B) (Lg := Lg) (St := St) (E := E) (val := val)).

(** The events of the channel, with the values that are binned. *)
  Context (evs : list (Z * V)).

(** ** Binning what a stream delivers *)

(** The count of a bin is the number of the events in it. *)
Definition cnt_true (b : Bin V B) : Prop := bin_n b = n_in evs (bin_ts1 b) (bin_ts2 b).

Record delivers_all (l i j : Z) (st : PollStream Item) : Prop := {
  da_delivers : delivers l i j st;
  da_cnts : Forall cnt_true (polls_bins (ps_polls st))
}.

Section Stream.
  Context (env : Env) (range : BinnedRange TsNano).
  Hypothesis HL : 0 < bin_len range.
  Hypothesis Ho : 0 <= bin_off range.
  Hypothesis H64 : bin_len range * bin_off range + 2 * bin_len range < 2 ^ 64.

Lemma bs_turn_main s :
  bs_turn (A := A) env false s =
    match bs_handle_main s with
    | (s, BsContinue) => (s, LoopContinue)
    | (s, BsBreak (Ready (Some o))) => (s, LoopBreak (Ready (Some (bs_item env o))))
    | (s, BsBreak (Ready None)) => (s, LoopBreak (Ready None))
    | (s, BsBreak Pending) => (s, LoopBreak Pending)
    | (s, BsPanic) => (s, LoopPanic)
    end.
Proof. unfold bs_turn. by destruct (bs_state s), (bs_inp s). Qed.

Lemma bs_out_item o : bs_out_ok o -> item_ok (Ready (bs_item env o)) /\ bs_poll_bins (Ready (bs_item env o)) = bs_out_bins o.
Proof. destruct o as [[[[|c]|l|st]|er]|er|]; cbn; try done. by intros [? _]. Qed.

Lemma bs_gives s P O T mk :
  bs_at range s P O T mk -> bins_ok (bin_len range) T ->
  exists st, stream_gives (bs_turn (A := A) env false) (fun _ => false) s st /\ ps_panics st = false /\ Forall item_ok (ps_polls st) /\
    rebinned (A := A) range mk T (O ++ polls_bins (ps_polls st)).
Proof.
  remember (bs_inp s) as inp eqn:Hinp. revert s P O Hinp. induction inp as [|p inp IH]; intros s P O Hinp Hat Hok; symmetry in Hinp.
  - destruct (bs_end_spec range HL Ho H64 s P O T mk Hat Hok Hinp) as (s' & o & Hm & Hd & Ho' & Hre).
    destruct (bs_out_item o Ho') as [Hi Hb]. exists (mkPollStream [Ready (bs_item env o)] false). split; [|split; [done|split; [by constructor|]]].
    + apply (gives_ready _ _ _ s' (bs_item env o) ps_empty); [by rewrite bs_turn_main, Hm|done|]. apply (gives_end _ _ s' s').
      rewrite bs_turn_main. unfold bs_handle_main. by rewrite Hd.
    + cbn [ps_polls]. unfold bs_bins. cbn [map concat]. by rewrite Hb, app_nil_r.
  - destruct (bs_step_spec range HL s P O T mk p inp Hat Hok Hinp) as (s' & P' & new & flow & Hm & Hat' & Hinp' & Hfl).
    destruct (IH s' P' (O ++ new)) as (st & Hg & Hpn & Hall & Hre); [done|done|done|].
    assert (Ht := bs_turn_main s). rewrite Hm in Ht. destruct flow as [|[[o|]|]|]; [| |done| |done].
    + subst new. rewrite app_nil_r in Hre. exists st. split; [by apply (gives_continue _ _ _ s')|done].
    + destruct Hfl as [<- Ho']. destruct (bs_out_item o Ho') as [Hi Hb]. exists (ps_cons (Ready (bs_item env o)) st).
      split; [by apply (gives_ready _ _ _ s')|]. split; [done|]. split; [by constructor|]. cbn [ps_cons ps_polls]. unfold bs_bins in *. cbn [map concat].
      by rewrite Hb, app_assoc.
    + subst new. rewrite app_nil_r in Hre. exists (ps_cons Pending st). split; [by apply (gives_pending _ _ _ s')|]. split; [done|]. split; [by constructor|done].
Qed.

End Stream.

(** *** The bins of one cell *)

(** Bins of a grid with true counts: the counts from [lo] on, which is not behind the first bin. *)
Lemma cells_sum_from l a e (T : list (Bin V B)) lo y :
  0 < l -> map bin_edges T = cells l a e -> Forall cnt_true T -> lo <= l * a -> y <= e ->
  cnt_sum (cell_bins lo (l * y) T) = n_in evs (l * a) (l * Z.max a y).
Proof.
  intros Hl. revert a. induction T as [|b T IH]; intros a Hcells Hcnt Hlo Hy.
  { assert (e <= a) by (destruct (Z.lt_ge_cases a e); [by rewrite cells_cons in Hcells by done|lia]). by rewrite Z.max_l, n_in_nil by lia. }
  destruct (Z.lt_ge_cases a e) as [Hlt|]; [|by rewrite cells_nil in Hcells by lia]. rewrite cells_cons in Hcells by done. cbn [map] in Hcells.
  injection Hcells as Hb1 Hb2 Hcells. apply Forall_cons in Hcnt as [Hb Hcnt]. unfold cnt_true in Hb. rewrite Hb1, Hb2 in Hb.
  specialize (IH (a + 1) Hcells Hcnt ltac:(nia) Hy). unfold cell_bins in *. rewrite filter_cons. destruct (Z.lt_ge_cases a y) as [Hay|Hay].
  - rewrite decide_True by nia. cbn [cnt_sum foldr]. fold (cnt_sum (filter (fun b => lo <= bin_ts1 b < l * y) T)).
    rewrite IH, Hb, !Z.max_r by lia. symmetry. apply n_in_split. nia.
  - rewrite decide_False by nia. rewrite IH, !Z.max_l by lia. by rewrite !n_in_nil.
Qed.

(** The counts between two edges of the grid. *)
Lemma cells_sum l a e (T : list (Bin V B)) x y :
  0 < l -> map bin_edges T = cells l a e -> Forall cnt_true T -> a <= x <= y /\ y <= e ->
  cnt_sum (cell_bins (l * x) (l * y) T) = n_in evs (l * x) (l * y).
Proof.
  intros Hl. revert a. induction T as [|b T IH]; intros a Hcells Hcnt Hxy.
  { assert (e <= a) by (destruct (Z.lt_ge_cases a e); [by rewrite cells_cons in Hcells by done|lia]). replace y with x by lia. by rewrite n_in_nil. }
  destruct (Z.eq_dec a x) as [->|Hne]; [rewrite (cells_sum_from l x e) by (done || lia); by rewrite Z.max_r by lia|].
  rewrite cells_cons in Hcells by lia. cbn [map] in Hcells. injection Hcells as Hb1 Hb2 Hcells. apply Forall_cons in Hcnt as [_ Hcnt].
  unfold cell_bins in *. rewrite filter_cons, decide_False by nia. apply (IH (a + 1)); done || lia.
Qed.

Section Cell.
  Context (l L q a i j : Z) (T : list (Bin V B)).
  Hypothesis Hl : 0 < l.
  Hypothesis Hq : 1 < q.
  Hypothesis HL : L = l * q.
  Hypothesis Hi : 0 <= a <= q * i.
  Hypothesis Hij : i < j.
  Hypothesis H64 : L * (j + 2) < 2 ^ 64.
  Hypothesis Hcells : map bin_edges T = cells l a (q * j).
  Hypothesis Hcnt : Forall cnt_true T.
  Hypothesis Hlen : Z.of_nat (length evs) < 2 ^ 64.
  Hypothesis Hbusy : forall c, i <= c < j -> 1 <= n_in evs (L * c) (L * (c + 1)).

Lemma T_lookup b : b ∈ T -> exists k, a <= k < q * j /\ bin_ts1 b = l * k /\ bin_ts2 b = l * (k + 1).
Proof.
  intros Hb. assert (He : bin_edges b ∈ cells l a (q * j)) by (rewrite <- Hcells; by apply list_elem_of_fmap_2).
  apply list_elem_of_fmap in He as (k & Hk & Hin). apply elem_of_seqZ in Hin. injection Hk as H1k H2k. exists k. split; [lia|done].
Qed.

Lemma T_ok : bins_ok L T.
Proof.
  split.
  - apply Forall_forall. intros b Hb. unfold in_cell. destruct (T_lookup b Hb) as (k & Hk & -> & ->).
    assert (Hdiv : l * k / L = k / q) by (rewrite HL; apply Z.div_mul_cancel_l; lia). rewrite Hdiv.
    pose proof (Z.div_mod k q ltac:(lia)). pose proof (Z.mod_pos_bound k q ltac:(lia)). rewrite HL in *. split; [nia|]. split; [nia|]. nia.
  - clear Hcnt. revert Hcells. generalize a as a0. induction T as [|b T' IH]; intros a0 Ha; [constructor|].
    destruct (Z.lt_ge_cases a0 (q * j)) as [Hlt|Hge]; [|by rewrite cells_nil in Ha by lia]. rewrite cells_cons in Ha by done. cbn [map] in Ha.
    injection Ha as Ha1 Ha2 Ha. constructor; [by apply (IH (a0 + 1))|]. apply Forall_forall. intros c Hc.
    assert (He : bin_edges c ∈ cells l (a0 + 1) (q * j)) by (rewrite <- Ha; by apply list_elem_of_fmap_2).
    apply list_elem_of_fmap in He as (k & Hk & Hin). apply elem_of_seqZ in Hin. injection Hk as H1k H2k. unfold follows. nia.
Qed.

(** The counts of the bins of a cell add up to the number of its events. *)
Lemma cell_sum c : i <= c < j -> cnt_sum (cell_bins (L * c) (L * c + L) T) = n_in evs (L * c) (L * c + L).
Proof.
  intros Hc. pose proof (cells_sum l a (q * j) T (q * c) (q * (c + 1)) Hl Hcells Hcnt ltac:(nia)) as Hs.
  replace (l * (q * c)) with (L * c) in Hs by (rewrite HL; lia). replace (l * (q * (c + 1))) with (L * c + L) in Hs by (rewrite HL; lia). done.
Qed.

Lemma cell_sum_bounds c : i <= c < j -> 1 <= n_in evs (L * c) (L * c + L) < 2 ^ 64.
Proof.
  intros Hc. pose proof (n_in_bound evs (L * c) (L * c + L)). specialize (Hbusy c Hc). replace (L * (c + 1)) with (L * c + L) in Hbusy by lia. lia.
Qed.

Lemma sorted_lt_unique (xs ys : list Z) :
  StronglySorted Z.lt xs -> StronglySorted Z.lt ys -> (forall x, x ∈ xs <-> x ∈ ys) -> xs = ys.
Proof.
  intros Hx Hy Heq. assert (Hnd : forall zs, StronglySorted Z.lt zs -> NoDup zs).
  { induction 1 as [|z zs Hs IH Hf]; constructor; [|done]. intros Hin. rewrite Forall_forall in Hf. specialize (Hf z Hin). lia. }
  assert (Hle : forall zs, StronglySorted Z.lt zs -> StronglySorted Z.le zs).
  { induction 1 as [|z zs Hs IH Hf]; constructor; [done|]. eapply Forall_impl; [exact Hf|]. simpl. lia. }
  apply (StronglySorted_unique Z.le); [by apply Hle|by apply Hle|]. apply NoDup_Permutation; auto.
Qed.

(** One bin for each cell of the range. *)
Lemma rebinned_cells mk (O : list (Bin V B)) range :
  bin_len range = L -> bin_off range = i -> rebinned (A := A) range mk T O -> map bin_edges O = cells L i j /\ Forall cnt_true O.
Proof.
  intros Hrl Hro [Hg _ Hord Hcom]. rewrite Hrl, Hro in *. assert (HLpos : 0 < L) by nia.
  assert (Hx : Forall (fun x => exists c, i <= c < j /\ bin_ts1 x = L * c /\ bin_ts2 x = L * (c + 1) /\ cnt_true x) O).
  { apply Forall_forall. intros x Hx. rewrite Forall_forall in Hg. destruct (rg_grid _ _ _ _ (Hg x Hx)) as ([c Hc] & Hx2 & Hbeg).
    destruct (rg_cnt _ _ _ _ (Hg x Hx)) as [Hn Hn0]. exists c. assert (Hc' : i <= c) by nia.
    assert (Hcj : c < j).
    { destruct (cell_bins (bin_ts1 x) (bin_ts2 x) T) as [|b I] eqn:HI; [by rewrite Hn in Hn0|].
      assert (Hb : b ∈ cell_bins (bin_ts1 x) (bin_ts2 x) T) by (rewrite HI; by left). apply list_elem_of_filter in Hb as [Hlo HbT].
      destruct (T_lookup b HbT) as (k & Hk & Hk1 & _). rewrite HL in *. nia. }
    split; [done|]. split; [lia|]. split; [lia|]. unfold cnt_true.
    pose proof (cell_sum c ltac:(lia)) as Hs. pose proof (cell_sum_bounds c ltac:(lia)) as Hsb. replace (bin_ts1 x) with (L * c) in * by lia.
    rewrite Hx2 in *. rewrite Hn, Hs, wrap_small by (unfold in_u; lia). done. }
  split; [|eapply Forall_impl; [exact Hx|]; by intros x (c & _ & _ & _ & ?)].
  assert (Hts : map bin_ts1 O = map (fun k => L * k) (seqZ i (j - i))).
  { apply sorted_lt_unique; [done| |].
    - clear -HLpos. remember (Z.to_nat (j - i)) as n eqn:Hn. revert i Hn. induction n as [|n IH]; intros i Hn; [rewrite seqZ_nil by lia; constructor|].
      rewrite seqZ_cons by lia. cbn [map]. constructor; [replace (Z.pred (j - i)) with (j - Z.succ i) by lia; apply IH; lia|].
      rewrite Forall_map. apply Forall_forall. intros k Hk. apply elem_of_seqZ in Hk. nia.
    - intros t. rewrite !list_elem_of_fmap. split.
      + intros (x & -> & Hin). rewrite Forall_forall in Hx. destruct (Hx x Hin) as (c & Hc & -> & _). exists c. split; [done|]. apply elem_of_seqZ. lia.
      + intros (c & -> & Hin). apply elem_of_seqZ in Hin.
        assert (Hb : (l * (q * c), l * (q * c + 1)) ∈ map bin_edges T).
        { rewrite Hcells. apply list_elem_of_fmap. exists (q * c). split; [done|]. apply elem_of_seqZ. nia. }
        apply list_elem_of_fmap in Hb as (b & Hb & HbT). injection Hb as Hb1 _.
        assert (Hdiv : bin_ts1 b / L * L = L * c).
        { rewrite <- Hb1. replace (l * (q * c)) with (c * L) by (rewrite HL; lia). rewrite Z.div_mul by lia. lia. }
        destruct (Hcom b HbT) as (x & Hx1 & Hx2); [rewrite <- Hb1, HL; nia| |].
        * rewrite Hdiv, (cell_sum c) by lia. pose proof (cell_sum_bounds c ltac:(lia)). rewrite wrap_small by (unfold in_u; lia). lia.
        * exists x. rewrite Hx2, Hdiv. done. }
  assert (He : forall x, x ∈ O -> bin_edges x = (bin_ts1 x, bin_ts1 x + L)).
  { intros x Hin. rewrite Forall_forall in Hx. destruct (Hx x Hin) as (c & _ & Hc1 & Hc2 & _). unfold bin_edges. f_equal. lia. }
  transitivity (map (fun t => (t, t + L)) (map bin_ts1 O)).
  - rewrite map_map. apply map_ext_in. intros x Hin%list_elem_of_In. by apply He.
  - rewrite Hts, map_map. unfold cells. apply map_ext. intros k. f_equal. lia.
Qed.

End Cell.

Lemma bs_run_delivers (env : Env) l L q a i j st :
  0 < l -> 1 < q -> L = l * q -> 0 <= a <= q * i -> i < j -> L * (j + 2) < 2 ^ 64 -> Z.of_nat (length evs) < 2 ^ 64 ->
  (forall c, i <= c < j -> 1 <= n_in evs (L * c) (L * (c + 1))) -> delivers_all l a (q * j) st ->
  exists n st', (forall fuel, (n <= fuel)%nat -> bs_run (A := A) env fuel (mkBinnedRange L i (j - i)) st = Some st') /\ delivers_all L i j st'.
Proof.
  intros Hl Hq HL Hi Hij H64 Hlen Hbusy [[Hpn Hok Hcells] Hcnt]. set (range := mkBinnedRange L i (j - i)).
  assert (HLpos : 0 < bin_len range) by (cbn; nia). assert (Ho : 0 <= bin_off range) by (cbn; nia).
  assert (Hb : bin_len range * bin_off range + 2 * bin_len range < 2 ^ 64) by (cbn; nia).
  pose proof (T_ok l L q a i j (polls_bins (ps_polls st)) Hl Hq HL Hi H64 Hcells Hbusy) as HT.
  assert (Hat : bs_at (A := A) range (bs_new range (ps_polls st)) [] [] (polls_bins (ps_polls st)) (existsb bs_poll_marks (ps_polls st))).
  { split; try done. by apply rb_new_reading. }
  destruct (bs_gives env range HLpos Ho Hb _ _ _ _ _ Hat HT) as (st' & (n & Hn) & Hpn' & Hok' & Hre). cbn [app] in Hre.
  destruct (rebinned_cells l L q a i j (polls_bins (ps_polls st)) Hl Hq HL Hi H64 Hcells Hcnt Hlen Hbusy _ _ range eq_refl eq_refl Hre) as [He Hc].
  exists n, st'. split; [|by split]. intros fuel Hf. unfold bs_run. rewrite Hpn. by apply Hn.
Qed.

(** ** Bins from events *)

Abbreviation EvItem := (TwsItem (val := val) (L := Lg) (St := St) (E := E)).
Abbreviation BinEvItem := (TwsItem (K := unit) (val := fun _ => V) (L := Lg) (St := St) (E := E)).

Definition binning_event {W} `{ForBinning W V} (e : Z * W) : Z * V := (e.1, to_f32_for_binning_v01 e.2).

(** What a poll of an events provider has, and that it is no error. *)
Definition poll_events (p : Poll EvItem) : list (Z * V) :=
  match p with Ready (SOk (DataItem (Data (ChEvents b)))) => map binning_event (ce_iter_zip (eb_evs b)) | _ => [] end.
Definition poll_ok (p : Poll EvItem) : Prop := match p with Ready (SErr _) => False | _ => True end.

(** A stream of events that comes to its end with these events. *)
Record reads_events (st : PollStream EvItem) (l : list (Z * V)) : Prop := {
  re_ends : ps_panics st = false;
  re_ok : Forall poll_ok (ps_polls st);
  re_events : concat (map poll_events (ps_polls st)) = l
}.

Lemma ce_conv_spec {W} `{ForBinning W V} (c : ContainerEvents W) :
  ce_wf (ce_to_f32_for_binning_v01 c) /\ ce_iter_zip (ce_to_f32_for_binning_v01 c) = map binning_event (ce_iter_zip c).
Proof.
  unfold ce_to_f32_for_binning_v01. induction (ce_iter_zip c) as [|r l [Hw Hz]] using rev_ind; [done|].
  rewrite foldl_app, map_app. cbn [foldl map]. set (d := foldl _ _ l) in *. unfold ce_wf, ce_iter_zip, ce_push_back in *. cbn [ce_tss ce_vals].
  rewrite !length_app, Hw. split; [done|]. rewrite zip_with_app by done. by rewrite Hz.
Qed.

(** Behind [ConvertForBinning] there are containers of the one type, with the same events. *)
Lemma conv_polls_spec (polls : list (Poll EvItem)) (inp : list (Poll BinEvItem)) :
  inp = ps_polls (ps_map cfb_item (mkPollStream polls false)) -> Forall poll_ok polls ->
  Forall (tws_poll_ok tt) inp /\ Forall ce_wf (tws_containers tt inp) /\ evs_of (tws_containers tt inp) = concat (map poll_events polls).
Proof.
  intros ->. cbn [ps_map ps_polls]. induction 1 as [|p polls Hp _ (IH1 & IH2 & IH3)]; [done|]. unfold tws_containers in *. cbn [map concat omap list_omap].
  destruct p as [[[[|[b|x]]|x|x]|e]|]; cbn [cfb_item poll_container che_container poll_events]; try done; try (split; [by constructor|by split]).
  unfold eb_to_f32_for_binning_v01. destruct (ce_conv_spec (eb_evs b)) as [Hw Hz]. rewrite eb_downcast_self.
  split; [constructor; [by eexists|done]|]. split; [by constructor|].
  unfold evs_of in *. cbn [map concat]. by rewrite Hz, <- IH3.
Qed.

Section EventsRun.
  Context (env : Env) (range : BinnedRange TsNano) (cs : list (ContainerEvents V)).
  Hypothesis Hin : tw_input range cs.
Local Abbreviation turn := (tws_turn (G := G) env false).
Local Abbreviation stream_at seen inp rf :=
  (tws_at (K := unit) (val := fun _ => V) (agg := fun _ => G) (res := fun _ => B) (L := Lg) (St := St) (E := E) tt range seen inp rf).
Local Abbreviation bins_seen seen := (bins_of (val := fun _ => V) (agg := fun _ => G) (res := fun _ => B) tt range seen).
Local Abbreviation bins_all := (bins_end (val := fun _ => V) (agg := fun _ => G) (res := fun _ => B) tt range (evs_of cs)).

Lemma tws_turn_of s s' fl :
  tws_handle_main s = (s', fl) ->
  turn s = (s', match fl with
                | TwsContinue => LoopContinue
                | TwsBreak (Ready (Some o)) => LoopBreak (Ready (Some (tws_item env o)))
                | TwsBreak (Ready None) => LoopBreak (Ready None)
                | TwsBreak Pending => LoopBreak Pending
                | TwsPanic => LoopPanic
                end).
Proof.
  intros Hm. unfold tws_turn. destruct (tws_state s), (tws_inp s); rewrite Hm; by destruct fl as [|[[]|]|].
Qed.

(** With the bins [O] out, the stream is to give the rest. *)
Definition tws_rest (O : list (Bin V B)) s : Prop :=
  exists st, stream_gives turn (fun _ => false) s st /\ ps_panics st = false /\ Forall item_ok (ps_polls st) /\
    O ++ polls_bins (ps_polls st) = bins_all.

Lemma rest_continue O s s' : tws_handle_main s = (s', TwsContinue) -> tws_rest O s' -> tws_rest O s.
Proof. intros Ht%tws_turn_of (st & Hg & Hr). exists st. split; [by apply (gives_continue _ _ _ s')|done]. Qed.

Lemma rest_pending O s s' : tws_handle_main s = (s', TwsBreak Pending) -> tws_rest O s' -> tws_rest O s.
Proof.
  intros Ht%tws_turn_of (st & Hg & Hpn & Hok & Hb). exists (ps_cons Pending st). split; [by apply (gives_pending _ _ _ s')|]. split; [done|].
  split; [by constructor|done].
Qed.

Lemma rest_item O s s' o :
  tws_handle_main s = (s', TwsBreak (Ready (Some o))) -> item_ok (Ready (tws_item env o)) ->
  tws_rest (O ++ bs_poll_bins (Ready (tws_item env o))) s' -> tws_rest O s.
Proof.
  intros Ht%tws_turn_of Hxo (st & Hg & Hpn & Hok & Hb). exists (ps_cons (Ready (tws_item env o)) st). split; [by apply (gives_ready _ _ _ s')|].
  split; [done|]. split; [by constructor|]. cbn [ps_cons ps_polls]. unfold bs_bins in *. cbn [map concat]. by rewrite app_assoc.
Qed.

Lemma rest_bins O s s' bins :
  tws_handle_main s = (s', TwsBreak (Ready (Some (TwsOutBins (mkBinsBoxed (val := fun _ => V) (res := fun _ => B) tt (cb_of bins)))))) ->
  tws_rest (O ++ bins) s' -> tws_rest O s.
Proof.
  intros Ht Hr. destruct (cb_of_spec bins) as [Hw Hz]. apply (rest_item _ _ _ _ Ht); [exact Hw|]. cbn [tws_item bnb_bins bs_poll_bins]. by rewrite Hz.
Qed.

Lemma tws_rest_end rf : tws_rest (bins_seen (evs_of cs)) (stream_at (evs_of cs) [] rf).
Proof.
  destruct (twl_final_spec (K := unit) (val := fun _ => V) (agg := fun _ => G) (res := fun _ => B) tt range cs Hin) as (b & b' & bins & Hfin & Hout & Hout' & Hbins).
  apply (rest_continue _ _ _ (tws_main_eos _ _ rf Hfin)).
  assert (Hlast : forall s, tws_handle_main s = (mkTwStream TwsDone [] b' rf, TwsBreak (Ready (Some TwsOutNoBinsLog))) -> tws_rest bins_all s).
  { intros s Ht. apply (rest_item _ _ _ _ Ht); [done|]. cbn. rewrite app_nil_r. exists ps_empty. split; [|by rewrite app_nil_r].
    eapply gives_end. by apply (tws_turn_of _ (mkTwStream TwsInvalid [] b' rf) (TwsBreak (Ready None))). }
  rewrite Hbins in Hlast. destruct (length bins =? 0)%nat eqn:Hz.
  - apply Nat.eqb_eq, length_zero_iff_nil in Hz as ->. rewrite app_nil_r in Hlast. apply Hlast. exact (tws_main_remains [] b b' None rf Hout).
  - eapply rest_bins; [exact (tws_main_remains [] b b' (Some _) rf Hout)|]. apply Hlast. exact (tws_main_remains [] b' b' None rf Hout').
Qed.

(** The whole of the input. *)
Lemma tws_rest_all inp seen rf :
  Forall (tws_poll_ok tt) inp -> Forall ce_wf (tws_containers tt inp) -> evs_of cs = seen ++ evs_of (tws_containers tt inp) ->
  tws_rest (bins_seen seen) (stream_at seen inp rf).
Proof.
  revert seen rf. induction inp as [|p inp IH]; intros seen rf Hok Hw Hevs.
  { cbn in Hevs. rewrite app_nil_r in Hevs. subst seen. apply tws_rest_end. }
  apply Forall_cons in Hok as [Hp Hok].
  assert (Hpass : tws_containers tt (p :: inp) = tws_containers tt inp -> forall rf, tws_rest (bins_seen seen) (stream_at seen inp rf)).
  { intros Hcs rf'. rewrite Hcs in Hw, Hevs. by apply IH. }
  destruct p as [[[[|[b|st]]|x|x]|e]|]; cbn [tws_poll_ok] in Hp; try done.
  - eapply rest_continue; [done|]. by apply Hpass.
  - destruct Hp as [c ->]. unfold tws_containers in Hw, Hevs. cbn [omap list_omap poll_container che_container] in Hw, Hevs.
    rewrite eb_downcast_self in Hw, Hevs. apply Forall_cons in Hw as [Hwc Hw].
    change (evs_of (c :: omap (poll_container tt) inp)) with (ce_iter_zip c ++ evs_of (tws_containers tt inp)) in Hevs.
    eapply rest_continue; [exact (tws_main_events tt range seen c inp rf)|].
    match goal with |- context [if ?b then _ else _] => change b with (ce_len c =? 0)%nat end. destruct (Nat.eqb_spec (ce_len c) 0) as [Hz|Hz].
    + assert (Hnil : ce_iter_zip c = []) by (apply length_zero_iff_nil; by rewrite ce_zip_length). rewrite Hnil in Hevs. by apply IH.
    + assert (Hne : ce_iter_zip c <> []) by (intros Hn; apply Hz; unfold ce_len; by rewrite <- ce_zip_length, Hn).
      destruct (tws_main_buffered (K := unit) (val := fun _ => V) (agg := fun _ => G) (res := fun _ => B) tt range cs Hin seen c _ inp rf Hwc Hne Hevs)
        as (out & Hm & Hbox & Hbins). rewrite app_assoc in Hevs. specialize (IH (seen ++ ce_iter_zip c) rf Hok Hw Hevs). rewrite Hbins in IH.
      destruct out as [b|]; [|rewrite app_nil_r in IH; by eapply rest_continue]. destruct Hbox as [bins ->]. eapply rest_bins; [exact Hm|].
      exact (eq_rect _ (fun x => tws_rest (bins_seen seen ++ x) _) IH _ (bnb_list_self (val := fun _ => V) (res := fun _ => B) tt bins)).
  - eapply rest_continue; [done|]. by apply Hpass.
  - eapply rest_item; [done|done|]. cbn. rewrite app_nil_r. by apply Hpass.
  - eapply rest_item; [done|done|]. cbn. rewrite app_nil_r. by apply Hpass.
  - eapply rest_pending; [done|]. by apply Hpass.
Qed.

End EventsRun.

Lemma tiles_cells l i j (bins : list (Bin V B)) : 0 < l -> tiles l (l * i) (l * j) bins -> i <= j /\ map bin_edges bins = cells l i j.
Proof.
  intros Hl. revert i. induction bins as [|x bins IH]; intros i; cbn [tiles].
  - intros Hij. assert (i = j) as -> by nia. by rewrite cells_nil.
  - intros (H1e & H2e & Ht). replace (l * i + l) with (l * (i + 1)) in * by lia. destruct (IH _ Ht) as [Hle Hc].
    split; [lia|]. rewrite cells_cons by lia. cbn [map]. unfold bin_edges at 1. by rewrite H1e, H2e, Hc.
Qed.

(** [BinnedFromEvents]: when the events of the range, and the one before it, are
    read, and there is an event at its begin or before, it gives all bins with their counts. *)
Lemma from_events_deliver (env : Env) l i j e :
  StronglySorted Z.le evs.*1 -> Z.of_nat (length evs) < 2 ^ 64 -> e ∈ evs -> e.1 <= l * i ->
  0 < l -> 0 <= i < j -> j - i <= OUT_LEN_MAX -> l * (j + 1) < 2 ^ 64 -> ge_do_time_weight env = true ->
  reads_events (ge_read env (mkNanoRange (l * i) (l * j))) (evs_read evs (l * i) (l * j)) ->
  exists n st, (forall fuel, (n <= fuel)%nat ->
      binned_from_events (G := G) env fuel (mkNanoRange (l * i) (l * j)) (mkBinnedRange l i (j - i)) = Some (Ok st)) /\ delivers_all l i j st.
Proof.
  intros Hs Hlen He Hei Hl Hij Hmax H64 Htw [Rpn Rok Revs]. set (range := mkBinnedRange l i (j - i)).
  destruct (ge_read env _) as [polls pn] eqn:Hread. cbn [ps_panics ps_polls] in *. subst pn.
  destruct (conv_polls_spec polls _ eq_refl Rok) as (Hok & Hw & Hevs). rewrite Revs in Hevs.
  set (inp := ps_polls (ps_map cfb_item (mkPollStream polls false))) in *. set (cs := tws_containers tt inp) in *.
  assert (Hlij : l * i < l * j) by nia. destruct (evs_read_spec evs Hs (l * i) (l * j)) as (Rs & Rtl & Rlt). specialize (Rlt ltac:(lia)).
  assert (Hin : tw_input range cs).
  { split; cbn [range bin_len bin_off bin_cnt]; try done; try lia; rewrite ?Hevs; [by replace (i + (j - i)) with j by lia|by replace (i + (j - i)) with j by lia|done]. }
  destruct (tws_rest_all env range cs Hin inp [] false Hok Hw eq_refl) as (st & (n & Hn) & Hpn & Hiok & Hbins). cbn [bins_of app] in Hbins.
  destruct (evs_read_first evs Hs (l * i) (l * j) e He Hei Hlij) as (e0 & rest & Hread0 & He0). rewrite Hread0 in Hevs.
  pose proof (tws_bins_end (K := unit) (val := fun _ => V) (agg := fun _ => G) (res := fun _ => B) tt range cs Hin) as Hgives.
  destruct (tw_gives_good range cs e0 rest _ Hin Hevs Hgives) as (Hgood & b & Hdiv & Hb & Htiles).
  cbn [range bin_len bin_off bin_cnt] in Hdiv, Hb, Htiles. replace (i + (j - i)) with j in Htiles by lia.
  assert (b = l * i) as ->. { destruct Hdiv as [k ->]. rewrite Z.max_l in Hb by lia. assert (k = i) by nia. lia. }
  destruct (tiles_cells l i j _ Hl Htiles) as [_ Hcells].
  exists n, st. split; [|split; [split; [done|done|]|]].
  - intros fuel Hf. unfold binned_from_events. rewrite Htw, Hread. unfold tws_run. cbn [ps_panics].
    apply bind_Some. exists st. split; [exact (Hn fuel Hf)|done].
  - by rewrite Hbins.
  - rewrite Hbins, Forall_forall in *. intros x Hx. destruct (Hgood x Hx) as [_ Hcnt _ _ _]. unfold cnt_true.
    assert (Hedge : bin_edges x ∈ cells l i j) by (rewrite <- Hcells; by apply list_elem_of_fmap_2).
    apply list_elem_of_fmap in Hedge as (k & Hk & Hin'). apply elem_of_seqZ in Hin'. injection Hk as Hk1 Hk2.
    rewrite Hcnt, Hevs, <- Hread0. fold (n_in (evs_read evs (l * i) (l * j)) (bin_ts1 x) (bin_ts2 x)). rewrite n_in_read by nia.
    apply wrap_small. pose proof (n_in_bound evs (bin_ts1 x) (bin_ts2 x)). unfold in_u. lia.
Qed.

(** ** The cached bins of a range *)

(** What may be assumed of an answer for the bins [k] to [j - 1]. *)
Definition answer_ok (l k j : Z) (x : outcome cr_error (option (ContainerBins V B))) : Prop :=
  match x with
  | Ok (Some c) => cb_wf c /\ cached_ok l k j (cb_zip_iter_2 c) /\ Forall cnt_true (cb_zip_iter_2 c)
  | Ok None => True
  | _ => False
  end.

(** What a [GapFill] is made with, for bins of the length [top] and for all times
    between [wa] and [wb]. The cache and the events provider tell the truth: cached
    bins are bins of the request with the number of their events, and a range is
    read with the event before it. The first event is no later than [wa]; a
    bin that is made from finer bins has an event, since a bin without events is
    not put out there; and there are no more bins of the shortest length than the
    binner of events holds. *)
Record env_ok (env : Env) (top : DtMs) (wa wb : Z) : Prop := {
  eo_series : cu_is_cache_read (bo_cache_usage (ge_opts env)) = true -> is_Some (ge_series env);
  eo_weight : ge_do_time_weight env = true;
  eo_events_allowed : bo_allow_from_events (ge_opts env) = true;
  eo_sorted : StronglySorted (fun a b => a < b /\ (a | b)) (ge_layers env);
  eo_pbp : Forall (fun l => exists p, l = pbp_bin_len p) (ge_layers env);
  eo_cache series p m o1 o2 :
    0 <= m -> 0 <= o1 < o2 -> o2 <= pbp_patch_len p ->
    answer_ok (1000000 * pbp_bin_len p) (m * pbp_patch_len p + o1) (m * pbp_patch_len p + o2)
      (ge_cache_read env series (pbp_bin_len p) m (o1, o2)).2;
  eo_evs : StronglySorted Z.le evs.*1 /\ Z.of_nat (length evs) < 2 ^ 64;
  eo_read a b : 0 <= a < b -> reads_events (ge_read env (mkNanoRange a b)) (evs_read evs a b);
  eo_first : exists e, e ∈ evs /\ e.1 <= wa;
  eo_busy bl k :
    bl = top \/ bl ∈ ge_layers env -> is_Some (find_next_finer_bin_len bl (ge_layers env)) ->
    wa <= 1000000 * bl * k -> 1000000 * bl * (k + 1) <= wb -> 1 <= n_in evs (1000000 * bl * k) (1000000 * bl * (k + 1));
  eo_max bl : bl ∈ ge_layers env -> find_next_finer_bin_len bl (ge_layers env) = None -> wb - wa <= 1000000 * bl * OUT_LEN_MAX
}.

Lemma cached_ok_mono l k k' j j' (C : list (Bin V B)) : k' <= k -> j <= j' -> cached_ok l k j C -> cached_ok l k' j' C.
Proof.
  revert k k'. induction C as [|c C IH]; intros k k' Hk Hj; [done|]. cbn [cached_ok]. intros (Hi & Hc & Hok). split; [lia|]. split; [done|].
  eapply IH; [|exact Hj|exact Hok]. lia.
Qed.

Lemma cached_ok_app l k m j (C D : list (Bin V B)) : k <= m <= j -> cached_ok l k m C -> cached_ok l m j D -> cached_ok l k j (C ++ D).
Proof.
  revert k. induction C as [|c C IH]; intros k Hk HC HD; [by apply (cached_ok_mono l m k j j); [lia|lia|]|]. cbn [app cached_ok] in *.
  destruct HC as (Hi & Hc & HC). split; [lia|]. split; [done|]. apply IH; [|done|done]. lia.
Qed.

(** The polls of an answer as items. *)
Definition reply_items (x : nat * outcome cr_error (option (ContainerBins V B))) : list (Poll Item) :=
  map (fun p => match p with Ready x => Ready (cache_item x) | Pending => Pending end) (cr_reply x).

Lemma reply_items_ok l k j x :
  answer_ok l k j x.2 -> Forall item_ok (reply_items x) /\ cached_ok l k j (polls_bins (reply_items x)) /\ Forall cnt_true (polls_bins (reply_items x)).
Proof.
  destruct x as [n x]. unfold reply_items, cr_reply. cbn [fst snd]. intros Hx. induction n as [|n IH]; [|destruct IH as (? & ? & ?); by repeat (constructor || split)].
  destruct x as [[c|]|er|]; cbn; [|done|done|done]. destruct Hx as (Hw & Hc & Hn). unfold bs_bins. cbn. rewrite app_nil_r.
  split; [apply Forall_singleton; exact Hw|done].
Qed.

Lemma polls_bins_app (x y : list (Poll Item)) : polls_bins (x ++ y) = polls_bins x ++ polls_bins y.
Proof. unfold bs_bins. by rewrite map_app, concat_app. Qed.

Lemma cached_requests (env : Env) top wa wb series p fuel k e :
  env_ok env top wa wb -> 0 <= k <= e -> (Z.to_nat (e - k) <= fuel)%nat ->
  let out := concat (map (fun r => reply_items (cr_answer (ge_cache_read env) p series r)) (cr_requests p fuel k e)) in
  Forall (fun r => (cr_answer (ge_cache_read env) p series r).2 <> Panic) (cr_requests p fuel k e) /\
  Forall item_ok out /\ cached_ok (1000000 * pbp_bin_len p) k e (polls_bins out) /\ Forall cnt_true (polls_bins out).
Proof.
  intros Henv. pose proof (pbp_patch_len_bound p) as HP. revert k. induction fuel as [|fuel IH]; intros k Hk Hf; [by repeat split; constructor|].
  cbn [cr_requests]. destruct (Z.ltb_spec k e) as [Hlt|Hge]; [|by repeat split; constructor].
  pose proof (Z.div_mod k (pbp_patch_len p) ltac:(lia)) as Hdm. pose proof (Z.mod_pos_bound k (pbp_patch_len p) ltac:(lia)) as Hmod.
  assert (Hm0 : 0 <= k / pbp_patch_len p) by (apply Z.div_pos; lia).
  set (m := k / pbp_patch_len p) in *. set (o2 := Z.min (pbp_patch_len p) (e - m * pbp_patch_len p)) in *.
  destruct (IH (m * pbp_patch_len p + o2)) as (H1p & H2p & H3p & H4p); [nia|nia|]. cbn [map concat].
  pose proof (eo_cache _ _ _ _ Henv series p m (k mod pbp_patch_len p) o2 Hm0 ltac:(nia) ltac:(lia)) as Ha.
  destruct (reply_items_ok _ _ _ (cr_answer (ge_cache_read env) p series (m, (k mod pbp_patch_len p, o2))) Ha) as (R1 & R2 & R3).
  split; [|split; [|split]].
  - constructor; [|done]. cbn [cr_answer]. intros Hp. by rewrite Hp in Ha.
  - by apply Forall_app.
  - rewrite polls_bins_app. apply (cached_ok_app _ _ (m * pbp_patch_len p + o2)); [nia| |done].
    replace k with (m * pbp_patch_len p + k mod pbp_patch_len p) at 1 by lia. done.
  - rewrite polls_bins_app. by apply Forall_app.
Qed.

(** The input of a [GapFill]. *)
Lemma cached_input (env : Env) top wa wb p off cnt :
  env_ok env top wa wb -> 0 <= off -> 0 <= cnt -> cnt + pbp_patch_len p < 2 ^ 32 -> 1000000 * pbp_bin_len p * (off + cnt) < 2 ^ 64 ->
  exists n inp, (forall fuel, (n <= fuel)%nat -> gf_cached_input env fuel (mkBinnedRange (1000000 * pbp_bin_len p) off cnt) = Some (Ok inp)) /\
    ps_panics inp = false /\ Forall item_ok (ps_polls inp) /\
    cached_ok (1000000 * pbp_bin_len p) off (off + cnt) (polls_bins (ps_polls inp)) /\ Forall cnt_true (polls_bins (ps_polls inp)).
Proof.
  intros Henv Ho Hc H32 H64. unfold gf_cached_input. destruct (cu_is_cache_read _) eqn:Hrd.
  - destruct (eo_series _ _ _ _ Henv Hrd) as [series ->]. set (range := mkBinnedRange (1000000 * pbp_bin_len p) off cnt).
    destruct (cached_requests env top wa wb series p (Z.to_nat cnt) off (off + cnt) Henv ltac:(lia) ltac:(lia)) as (H1p & H2p & H3p & H4p).
    destruct (cdr_gives (ge_cache_read env) p series range eq_refl ltac:(done) H32 H64 (Z.to_nat cnt) off (cdr_new series range)) as (n & Hn).
    + split; [done|done| |].
      * cbn. unfold br_nano_beg. apply u64_mul_small. cbn. pose proof (pbp_bin_len_pos p). nia.
      * cbn. unfold TsNano_to_dt_ms, DtMs_from_ms_u64, TsNano_ms. rewrite Z.mul_comm. by apply Z.div_mul.
    + done.
    + cbn. lia.
    + cbn. lia.
    + exact H1p.
    + eexists n, _. split; [intros fuel Hf; unfold cdr_run; by rewrite (Hn fuel Hf)|]. cbn [ps_map ps_polls ps_panics].
      rewrite concat_map, map_map. split; [done|]. by split.
  - exists O, ps_empty. by repeat (split || constructor).
Qed.

(** ** The layers *)

Definition layers_below (bl : DtMs) (layers : list DtMs) : nat := length (filter (fun x => x < bl) layers).

Lemma layers_below_lt f bl layers : f ∈ layers -> f < bl -> (layers_below f layers < layers_below bl layers)%nat.
Proof.
  intros Hin Hlt. unfold layers_below. assert (Hle : forall ls : list Z, Nat.le (length (filter (fun x => x < f) ls)) (length (filter (fun x => x < bl) ls))).
  { induction ls as [|a ls IH]; [done|]. rewrite !filter_cons. repeat case_decide; cbn [length]; lia. }
  induction layers as [|a layers IH]; [by apply not_elem_of_nil in Hin|]. rewrite !filter_cons. apply elem_of_cons in Hin as [<-|Hin].
  - rewrite decide_False, decide_True by lia. cbn [length]. specialize (Hle layers). lia.
  - specialize (IH Hin). repeat case_decide; cbn [length]; lia.
Qed.

Lemma finer_layer (env : Env) top wa wb bl f :
  env_ok env top wa wb -> bl ∈ ge_layers env -> find_next_finer_bin_len bl (ge_layers env) = Some f -> f ∈ ge_layers env /\ f < bl /\ (f | bl).
Proof.
  intros Henv Hbl Hf. pose proof (eo_sorted _ _ _ _ Henv) as Hs. unfold find_next_finer_bin_len in Hf. apply next_finer_loop_lt in Hf as [Hin Hlt].
  rewrite list_elem_of_In, <- in_rev, <- list_elem_of_In in Hin. split; [done|]. split; [done|]. revert Hbl Hin. induction Hs as [|a ls Hs IH Ha].
  { intros Hbl. by apply not_elem_of_nil in Hbl. }
  rewrite Forall_forall in Ha. intros [->|Hb]%elem_of_cons [->|Hi]%elem_of_cons; [lia|by destruct (Ha f Hi); lia|by destruct (Ha bl Hb)|by apply IH].
Qed.

Lemma nano_range_grid {Er} l L q i j f :
  0 < l -> DtMs_ns f = l -> 0 < q -> L = l * q -> 0 <= i <= j -> l + L * j < 2 ^ 64 ->
  br_from_nano_range (E := Er) (mkNanoRange (L * i) (L * j)) f = Ok (mkBinnedRange l (q * i) (q * j - q * i)).
Proof.
  intros Hl Hf Hq HL Hij H64. unfold br_from_nano_range. rewrite Hf. cbn [nr_beg nr_end]. rewrite !u_div_ok by lia. cbn [and_then].
  assert (Hji : 0 <= L * i <= L * j) by nia. rewrite (u64_sub_small l 1) by lia. rewrite u64_add_small by lia.
  assert (H1p : L * i / l = q * i) by (rewrite HL; replace (l * q * i) with (q * i * l) by lia; apply Z.div_mul; lia).
  assert (H2p : (l - 1 + L * j) / l = q * j) by (rewrite HL; replace (l - 1 + l * q * j) with (l - 1 + q * j * l) by lia; rewrite Z.div_add by lia; rewrite Z.div_small by lia; lia).
  rewrite H1p, H2p. assert (q * i <= q * j) by nia. assert (q * j <= L * j) by nia. rewrite u64_sub_small by nia. done.
Qed.

(** A range that leaves room for one more bin on both sides, and for no more bins
    than a [u32] can count. *)
Record range_ok (L off cnt : Z) : Prop := {
  ro_off : 1 <= off;
  ro_cnt : 0 < cnt;
  ro_end : L * (off + cnt + 2) < 2 ^ 63;
  ro_span : L * (cnt + 2) <= 2 ^ 31 * 1000000000
}.

(** The ranges that a layer gets from the one above. *)
Lemma range_ok_finer l L q off cnt i j :
  0 < l -> 1 < q -> L = l * q -> range_ok L off cnt -> off <= i < j -> j <= off + cnt -> range_ok l (q * i - 1) (q * j - q * i + 1).
Proof.
  intros Hl Hq HL [R1 R2 R3 R4] Hi Hj. assert (H2l : 2 * l <= L) by nia. split.
  - nia.
  - nia.
  - replace (l * (q * i - 1 + (q * j - q * i + 1) + 2)) with (L * j + 2 * l) by (rewrite HL; lia). nia.
  - replace (l * (q * j - q * i + 1 + 2)) with (L * (j - i) + 3 * l) by (rewrite HL; lia). nia.
Qed.

Section Delivers.
  Context (env : Env) (top : DtMs) (wa wb : Z).
  Hypothesis Henv : env_ok env top wa wb.

(** A range and the bin before it. *)
Definition in_window (L off cnt : Z) : Prop := wa <= L * (off - 1) /\ L * (off + cnt) <= wb.

(** What [setup_inp_finer] makes for a part of the range. *)
Lemma finer_stream_delivers depth bl off cnt i j :
  bl ∈ ge_layers env -> range_ok (1000000 * bl) off cnt -> in_window (1000000 * bl) off cnt -> off <= i < j -> j <= off + cnt ->
  (forall f off cnt, f ∈ ge_layers env -> f < bl -> range_ok (1000000 * f) off cnt -> in_window (1000000 * f) off cnt ->
     exists n st, (forall fuel, (n <= fuel)%nat -> gf_stream (A := A) (G := G) env fuel depth (mkBinnedRange (1000000 * f) off cnt) = Some (Ok st)) /\
       delivers_all (1000000 * f) off (off + cnt) st) ->
  exists n st, (forall fuel, (n <= fuel)%nat ->
      gf_finer_stream (A := A) (G := G) env fuel (gf_stream (A := A) (G := G) env fuel depth) bl (mkNanoRange (1000000 * bl * i) (1000000 * bl * j)) = Some (Ok st)) /\
    delivers_all (1000000 * bl) i j st.
Proof.
  intros Hbl Hro [W1 W2] Hi Hj IH. pose proof (eo_pbp _ _ _ _ Henv) as Hpbp. rewrite Forall_forall in Hpbp. destruct (Hpbp bl Hbl) as [p Hp].
  pose proof (pbp_bin_len_pos p) as Hpos. rewrite <- Hp in Hpos. set (L := 1000000 * bl) in *. pose proof Hro as [R1 R2 R3 R4].
  assert (HL0 : 0 < L) by lia. assert (HLj : L * j + 2 * L < 2 ^ 63) by nia.
  assert (HLns : DtMs_ns bl = L) by (unfold DtMs_ns; rewrite u64_mul_small by nia; done).
  unfold gf_finer_stream. destruct (find_next_finer_bin_len bl (ge_layers env)) as [f|] eqn:Hf.
  - destruct (finer_layer env top wa wb bl f Henv Hbl Hf) as (Hfin & Hlt & [q Hq]). destruct (Hpbp f Hfin) as [pf Hpf].
    pose proof (pbp_bin_len_pos pf) as Hfpos. rewrite <- Hpf in Hfpos. set (l := 1000000 * f) in *.
    assert (HlL : L = l * q) by lia. assert (Hq1 : 1 < q) by nia. assert (Hl0 : 0 < l) by lia.
    assert (Hlns : DtMs_ns f = l) by (unfold DtMs_ns; rewrite u64_mul_small by nia; done).
    pose proof (range_ok_finer l L q off cnt i j Hl0 Hq1 HlL Hro Hi Hj) as Hrf.
    assert (Hwin : in_window l (q * i - 1) (q * j - q * i + 1)).
    { split; [replace (l * (q * i - 1 - 1)) with (L * i - 2 * l) by (rewrite HlL; lia)|replace (l * _) with (L * j) by (rewrite HlL; lia)]; nia. }
    destruct (IH f (q * i - 1) (q * j - q * i + 1) Hfin Hlt Hrf Hwin) as (n1 & st & Hst & Hd).
    replace (q * i - 1 + (q * j - q * i + 1)) with (q * j) in Hd by lia.
    destruct (bs_run_delivers env l L q (q * i - 1) i j st) as (n2 & st2 & Hst2 & Hd2); [done|done|done|nia|lia|nia|apply (eo_evs _ _ _ _ Henv)| |done|].
    { intros c Hc. apply (eo_busy _ _ _ _ Henv bl c); [by right|by exists f|fold L; nia|fold L; nia]. }
    exists (Nat.max n1 n2), st2. split; [|done]. intros fuel Hfu.
    rewrite (nano_range_grid l L q i j f) by (done || nia). cbn [and_then_opt].
    assert (Hone : br_one_before_bin (mkBinnedRange l (q * i) (q * j - q * i)) = mkBinnedRange l (q * i - 1) (q * j - q * i + 1)).
    { unfold br_one_before_bin. cbn [bin_len bin_off bin_cnt]. rewrite u64_sub_small by nia. rewrite u64_add_small by nia. done. }
    rewrite Hone, Hst by lia. cbn [and_then_opt].
    assert (Hfull : br_full_range (mkBinnedRange l (q * i) (q * j - q * i)) = mkNanoRange (L * i) (L * j)).
    { unfold br_full_range. cbn [d0_as_u64 d0_times Dim0Index_TsNano bin_len bin_off bin_cnt]. rewrite u64_add_small by nia.
      rewrite !u64_mul_small by nia. f_equal; lia. }
    rewrite Hfull, (nano_range_grid L L 1 i j bl) by (done || lia). cbn [and_then_opt].
    rewrite (eo_weight _ _ _ _ Henv), !Z.mul_1_l, Hst2 by lia. done.
  - destruct (eo_first _ _ _ _ Henv) as (e & He & Hewa). destruct (eo_evs _ _ _ _ Henv) as [Hs Hlen]. pose proof (eo_max _ _ _ _ Henv bl Hbl Hf) as Hmax.
    fold L in Hmax. destruct (from_events_deliver env L i j e Hs Hlen He) as (n & st & Hst & Hd);
      [nia|done|lia|nia|nia|apply (eo_weight _ _ _ _ Henv)|apply (eo_read _ _ _ _ Henv); nia|].
    exists n, st. split; [|done]. intros fuel Hfu. rewrite (eo_events_allowed _ _ _ _ Henv).
    rewrite (nano_range_grid L L 1 i j bl) by (done || lia). cbn [and_then_opt]. by rewrite !Z.mul_1_l, Hst.
Qed.

Lemma filled_cnts (finer : NanoRange -> option (outcome gapfill_error (PollStream Item))) range k C :
  (forall i j, bin_off range <= i -> j <= bin_off range + bin_cnt range -> Forall cnt_true (gap_bins finer range i j)) ->
  bin_off range <= k -> cached_ok (bin_len range) k (bin_off range + bin_cnt range) C -> Forall cnt_true C -> Forall cnt_true (gf_filled finer range k C).
Proof.
  intros Hgap. revert k. induction C as [|c C IH]; intros k Hk Hcok Hcnt; cbn [gf_filled cached_ok] in *; [apply Hgap; lia|].
  destruct Hcok as (Hi & _ & Hcok). inversion Hcnt; subst. apply Forall_app. split; [apply Hgap; lia|]. constructor; [done|]. apply IH; [lia|done|done].
Qed.

Lemma gf_stream_delivers depth bl off cnt :
  bl ∈ ge_layers env -> (layers_below bl (ge_layers env) < depth)%nat -> range_ok (1000000 * bl) off cnt -> in_window (1000000 * bl) off cnt ->
  exists n st, (forall fuel, (n <= fuel)%nat -> gf_stream (A := A) (G := G) env fuel depth (mkBinnedRange (1000000 * bl) off cnt) = Some (Ok st)) /\
    delivers_all (1000000 * bl) off (off + cnt) st.
Proof.
  revert bl off cnt. induction depth as [|depth IH]; intros bl off cnt Hbl Hd Hro Hwin; [lia|].
  pose proof (eo_pbp _ _ _ _ Henv) as Hpbp. rewrite Forall_forall in Hpbp. destruct (Hpbp bl Hbl) as [p Hp].
  pose proof (pbp_bin_len_pos p) as Hpos. pose proof (pbp_patch_len_bound p) as HP. pose proof Hro as [R1 R2 R3 R4].
  set (L := 1000000 * bl) in *. assert (HL9 : 1000000000 <= L) by (destruct p; cbn in Hp; lia). assert (HP2 : pbp_patch_len p <= 1200) by (by destruct p).
  set (range := mkBinnedRange L off cnt).
  destruct (cached_input env top wa wb p off cnt) as (n1 & inp & Hinp & Hpn & Hok & Hcok & Hcnt); [done|lia|lia|nia|rewrite <- Hp; fold L; nia|].
  rewrite <- Hp in Hinp, Hcok. fold L in Hinp, Hcok. fold range in Hinp.
  assert (Hfin : forall i j, off <= i < j -> j <= off + cnt -> exists n st, (forall fuel, (n <= fuel)%nat ->
      gf_finer_stream (A := A) (G := G) env fuel (gf_stream (A := A) (G := G) env fuel depth) bl (mkNanoRange (L * i) (L * j)) = Some (Ok st)) /\ delivers_all L i j st).
  { intros i j Hi Hj. apply (finer_stream_delivers depth bl off cnt i j Hbl Hro Hwin Hi Hj). intros f off' cnt' Hf Hlt Hro' Hwin'. apply IH; [done| |done|done].
    pose proof (layers_below_lt f bl (ge_layers env) Hf Hlt). lia. }
  destruct (uniform_bound (fun i m => forall j, i < j -> j <= off + cnt -> exists st,
      gf_finer_stream (A := A) (G := G) env m (gf_stream (A := A) (G := G) env m depth) bl (mkNanoRange (L * i) (L * j)) = Some (Ok st) /\ delivers_all L i j st) off (off + cnt)) as (n2 & Hn2).
  { intros i Hi. destruct (uniform_bound (fun j m => exists st,
      gf_finer_stream (A := A) (G := G) env m (gf_stream (A := A) (G := G) env m depth) bl (mkNanoRange (L * i) (L * j)) = Some (Ok st) /\ delivers_all L i j st) (i + 1) (off + cnt + 1)) as (n & Hn).
    - intros j Hj. destruct (Hfin i j) as (n & st & Hst & Hda); [lia|lia|]. exists n. intros m Hm. exists st. split; [by apply Hst|done].
    - exists n. intros m Hm j Hij Hj. apply Hn; lia. }
  set (F := Nat.max n1 n2).
  set (finer := gf_finer_stream (A := A) (G := G) env F (gf_stream (A := A) (G := G) env F depth) bl).
  assert (Hfiner : forall i j, off <= i < j -> j <= off + cnt -> exists st, finer (mkNanoRange (L * i) (L * j)) = Some (Ok st) /\ delivers_all L i j st).
  { intros i j Hi Hj. apply Hn2; lia. }
  assert (H64 : L * (off + cnt) < 2 ^ 64) by nia.
  destruct inp as [polls pn]. cbn [ps_panics ps_polls] in *. subst pn.
  destruct (gf_input (cu_is_cache_write (bo_cache_usage (ge_opts env))) finer range) with (polls := polls) (s := gf_new range (mkPollStream polls false)) (k := off)
    as (st & (n3 & Hn3) & Hpn' & Hok' & Hb); try done; try (cbn; lia).
  { intros i j Hi Hj. destruct (Hfiner i j Hi Hj) as (st & ? & [? _]). by exists st. }
  { split; try done. cbn. lia. }
  assert (Hblms : br_bin_len_dt_ms range = bl).
  { unfold br_bin_len_dt_ms, TsNano_to_dt_ms, DtMs_from_ms_u64, TsNano_ms. cbn [range bin_len]. unfold L. rewrite Z.mul_comm. by apply Z.div_mul. }
  exists (Nat.max F n3), st. split.
  - intros fuel Hfu. apply (gf_stream_mono env (Nat.max F n3)); [done|]. cbn [gf_stream]. rewrite Hinp by lia. cbn [and_then_opt]. rewrite Hblms.
    apply bind_Some. exists st. split; [|done]. unfold gf_run. eapply stream_run_turn_mono; [|apply Hn3; lia]. intros s s' fl. apply gf_turn_mono.
    intros r x. apply gf_finer_stream_mono. lia.
  - assert (Hcells : map bin_edges (polls_bins (ps_polls st)) = cells L off (off + cnt)).
    { rewrite Hb. apply (gf_filled_cells finer range); try done; try (cbn; lia).
      intros i j Hi Hj. destruct (Hfiner i j Hi Hj) as (st0 & ? & [? _]). by exists st0. }
    split; [by split|]. rewrite Hb.
    apply (filled_cnts finer range off); [|cbn; lia|done|done]. cbn [range bin_len bin_off bin_cnt]. intros i j Hi Hj.
    unfold gap_bins. destruct (Z.ltb_spec i j); [|constructor]. destruct (Hfiner i j) as (st0 & Hst0 & [_ Hc0]); [lia|lia|].
    cbn [range bin_len]. by rewrite Hst0.
Qed.

End Delivers.

(** The stream on top only passes on. *)
Lemma fl_run_inp polls fuel :
  (length polls < fuel)%nat ->
  fl_run fuel (mkFromLayers (V := V) (B := B) (Lg := Lg) (St := St) (E := E) (mkPollStream polls false) []) = Some (mkPollStream polls false).
Proof.
  unfold fl_run. revert fuel. induction polls as [|p polls IH]; intros [|fuel] Hf; cbn [length] in Hf; try lia; [done|].
  cbn [stream_run]. unfold fl_turn at 1. cbn [fl_outbuf fl_inp ps_polls ps_panics]. by destruct p; rewrite IH by lia.
Qed.


End Layers.

(** ** The example *)

Lemma filter_events_map {W V} (f : W -> V) (P : Z -> Prop) `{forall e : Z * V, Decision (P e.1)} `{forall e : Z * W, Decision (P e.1)} (l : list (Z * W)) :
  filter (fun e => P e.1) (map (fun e => (e.1, f e.2)) l) = map (fun e => (e.1, f e.2)) (filter (fun e => P e.1) l).
Proof. induction l as [|e l IH]; [done|]. cbn [map]. rewrite !filter_cons. cbn [fst]. repeat case_decide; cbn [map] in *; by rewrite ?IH. Qed.

Lemma n_in_map {W V} (f : W -> V) (l : list (Z * W)) a b : n_in (map (fun e => (e.1, f e.2)) l) a b = n_in l a b.
Proof. unfold n_in. by rewrite (filter_events_map f (fun t => a <= t < b)), length_map. Qed.

Lemma evs_read_map {W V} (f : W -> V) (l : list (Z * W)) a b :
  evs_read (map (fun e => (e.1, f e.2)) l) a b = map (fun e => (e.1, f e.2)) (evs_read l a b).
Proof.
  unfold evs_read. rewrite (filter_events_map f (fun t => t < a)), (filter_events_map f (fun t => a <= t < b)), map_app. f_equal.
  change (map (fun e => (e.1, f e.2)) ?x) with ((fun e => (e.1, f e.2)) <$> x). rewrite fmap_last. by destruct (last _).
Qed.

(** The events of the example as they are binned. *)
Definition example_truth : list (Z * F32) := map binning_event example_evs.

Lemma example_busy bl k1 n : forallb (fun k => 1 <=? n_in example_truth (1000000 * bl * k) (1000000 * bl * (k + 1))) (seqZ k1 n) = true ->
  forall k, k1 <= k < k1 + n -> 1 <= n_in example_truth (1000000 * bl * k) (1000000 * bl * (k + 1)).
Proof.
  rewrite List.forallb_forall. intros Hf k Hk. apply Z.leb_le, Hf. apply list_elem_of_In, elem_of_seqZ. lia.
Qed.

Lemma example_env_ok : env_ok example_truth (example_env example_opts) 120000 480000000000 960000000000.
Proof.
  split.
  - by intros _; exists 3.
  - done.
  - done.
  - cbn [ge_layers example_env].
    repeat first [apply SSorted_nil|apply SSorted_cons|apply List.Forall_nil|apply List.Forall_cons]; (split; [done|]); first [by exists 10|by exists 60|by exists 6].
  - cbn [ge_layers example_env]. repeat first [apply List.Forall_nil|apply List.Forall_cons]; [by exists Sec1|by exists Sec10|by exists Min1].
  - intros series p m o1 o2 Hm Ho1 Ho2. cbn [ge_cache_read example_env]. unfold example_cache_read. cbn [fst snd].
    rewrite pbp_try_from_len. destruct (Z.ltb_spec (o1 + 1) o2) as [Hlt|]; [|done]. cbn [snd answer_ok].
    pose proof (pbp_bin_len_pos p) as Hb. set (l := 1000000 * pbp_bin_len p) in *. set (k := m * pbp_patch_len p + o1 + 1) in *.
    set (c := cb_push_back _ _ _ _ _ _ _ _ _). assert (Hz : cb_zip_iter_2 c = [mkBin (l * k) (l * (k + 1)) (n_in example_evs (l * k) (l * (k + 1))) example_value example_value example_value example_value true]) by done.
    split; [done|]. rewrite Hz. cbn [cached_ok bin_edges bin_ts1 bin_ts2].
    assert (Hk : l * k / l = k) by (rewrite Z.mul_comm; apply Z.div_mul; lia). rewrite Hk.
    split; [split; [lia|done]|]. apply Forall_singleton. unfold cnt_true. cbn [bin_n bin_ts1 bin_ts2]. symmetry. apply n_in_map.
  - split; [|vm_compute; reflexivity]. apply (bool_decide_unpack _). vm_compute. exact I.
  - intros a b Hab. cbn [ge_read example_env]. unfold example_read. cbn [nr_beg nr_end]. split; cbn [ps_panics ps_polls]; [done|by repeat constructor|].
    unfold example_truth. change (map binning_event example_evs) with (map (fun e : Z * Z => (e.1, to_f32_for_binning_v01 (V := F32) e.2)) example_evs).
    rewrite evs_read_map. cbn. rewrite app_nil_r. unfold ce_iter_zip. cbn [ce_tss ce_vals ce_from_constituents]. by rewrite zip_fst_snd.
  - exists (201000000000, mkF32 (f32_of_u64 20)). split; [by left|]. cbn. lia.
  - cbn [ge_layers example_env]. intros bl k Hbl Hfin H1 H2.
    assert (Hcase : bl = 120000 \/ bl = 60000 \/ bl = 10000 \/ bl = 1000) by (rewrite !elem_of_cons, elem_of_nil in Hbl; tauto).
    destruct Hcase as [->|[->|[->| ->]]]; [..|by destruct Hfin].
    + apply (example_busy 120000 4 4); [vm_compute; reflexivity|lia].
    + apply (example_busy 60000 8 8); [vm_compute; reflexivity|lia].
    + apply (example_busy 10000 48 48); [vm_compute; reflexivity|lia].
  - cbn [ge_layers example_env]. intros bl Hbl Hfin. rewrite !elem_of_cons, elem_of_nil in Hbl. unfold OUT_LEN_MAX.
    destruct Hbl as [->|[->|[->|[]]]]; [lia|done..].
Qed.


(** A bin without events, behind the last event of the channel: the shortest length
    gives it with no events and the last value, but a longer one, made from bins
    like that, drops it, and the gap in front of a cached bin is an error. *)
Example gf_quiet_channel_fails :
  exists st st', example_stream 300 2 (mkBinnedRange 1000000000 1000 2) = Some (Ok st) /\ map bin_n (bs_bins (ps_polls st)) = [0; 0] /\
    example_stream 300 2 (mkBinnedRange 10000000000 100 2) = Some (Ok st') /\ last (ps_polls st') = Some (Ready (SErr TbFinerNothing)).
Proof.
  destruct (example_stream 300 2 (mkBinnedRange 1000000000 1000 2)) as [[st| |]|] eqn:Hst; [|vm_compute in Hst; discriminate Hst..].
  destruct (example_stream 300 2 (mkBinnedRange 10000000000 100 2)) as [[st'| |]|] eqn:Hst'; [|vm_compute in Hst'; discriminate Hst'..].
  exists st, st'. vm_compute in Hst, Hst'. injection Hst as <-. injection Hst' as <-. split; [reflexivity|]. split; [reflexivity|].
  split; [reflexivity|]. reflexivity.
Qed.
