(* ===== verification/CaProto.v ===== *)
(** * Messages of the channel access protocol

    [daqbuf-ca-proto/src/ca/proto.rs], the messages: their types, the bytes of
    a message ([place_into]) and the reading of a message from its header and
    payload ([from_proto_infos]). The stream of messages is in [CaStream].

    A [String] is the list of its bytes, a floating point value its bit pattern,
    an [Instant] a number. *)
From Stdlib Require Import ZArith Lia String Floats.SpecFloat.
From stdpp Require Import base numbers option strings list.
From S2P Require Import Prelude TimeTypes NetpodTypes Events Floats Utf8.

#[local] Open Scope Z_scope.
#[local] Open Scope rust_scope.

Inductive ca_error : Type :=
  | CeSlideBuf
  | CeBufferTooSmallForNeedMin (cap need_min : Z)
  | CeIO
  | CeBadSlice
  | CeBadCaDbrTypeId (k : Z)
  | CeBadCaScalarTypeId (k : Z)
  | CeGetValHelpInnerTypeMismatch
  | CeGetValHelpTodoWaveform
  | CeNotEnoughPayload
  | CeTodoConversionArray
  | CeCaProtoVersionMissing
  | CeNotEnoughPayloadTimeMetadata (n : Z)
  | CeMismatchDbrTimeType
  | CeBadCaCount
  | CeCaCommandNotSupported (k : Z)
  | CeParseAttemptInDoneState
  | CeUnexpectedHeader
  | CeExtendedHeaderBadCount
  | CeNoReadBufferSpace
  | CeNeitherPendingNorProgress
  | CeOutputBufferTooSmall
  | CeLogicError
  | CeBadPayload
  | CeCaImageUnsupported
  | CeSocket.

Definition CA_PROTO_VERSION : Z := 13.
Definition EPICS_EPOCH_OFFSET : Z := 631152000.
Definition PAYLOAD_LEN_MAX : Z := 1024 * 1024 * 32.
Definition PROTO_INPUT_BUF_CAP : Z := 1024 * 1024 * 40.

(** ** Data *)

Record Search : Type := mkSearch { search_id : Z; search_channel : list Z }.
Record SearchRes : Type := mkSearchRes { sres_addr : Z; sres_tcp_port : Z; sres_id : Z; sres_proto_version : Z }.
Record ErrorCmd : Type := mkErrorCmd { err_cid : Z; err_eid : Z; err_msg : list Z }.
Record ClientNameRes : Type := mkClientNameRes { cnres_name : list Z }.
Record CreateChan : Type := mkCreateChan { cchan_cid : Z; cchan_channel : list Z }.
Record CreateChanRes : Type := mkCreateChanRes { ccres_data_type : Z; ccres_data_count : Z; ccres_cid : Z; ccres_sid : Z }.
Record CreateChanFail : Type := mkCreateChanFail { ccfail_cid : Z }.
Record AccessRightsRes : Type := mkAccessRightsRes { arres_cid : Z; arres_rights : Z }.
Record EventAdd : Type := mkEventAdd { evadd_data_type : Z; evadd_data_count : Z; evadd_sid : Z; evadd_subid : Z }.
Record EventCancel : Type := mkEventCancel { evcan_data_type : Z; evcan_data_count : Z; evcan_sid : Z; evcan_subid : Z }.
Record EventCancelRes : Type := mkEventCancelRes { evcres_data_type : Z; evcres_sid : Z; evcres_subid : Z }.
Record EventAddResEmpty : Type := mkEventAddResEmpty { evemp_data_type : Z; evemp_sid : Z; evemp_subid : Z }.
Record ReadNotify : Type := mkReadNotify { rnot_data_type : Z; rnot_data_count : Z; rnot_sid : Z; rnot_ioid : Z }.
Record ChannelClose : Type := mkChannelClose { cclo_sid : Z; cclo_cid : Z }.
Record ChannelCloseRes : Type := mkChannelCloseRes { cclores_sid : Z; cclores_cid : Z }.
Record ChannelDisconnect : Type := mkChannelDisconnect { cdis_cid : Z }.

Inductive CaScalarType : Type := StI8 | StI16 | StI32 | StF32 | StF64 | StEnum | StString.
Inductive CaDbrMetaType : Type := MetaPlain | MetaStatus | MetaTime | MetaCtrl.

Record CaDbrType : Type := mkCaDbrType { dbr_meta : CaDbrMetaType; dbr_scalar_type : CaScalarType }.

Definition CaDbrType_from_ca_u16 (k : Z) : outcome ca_error CaDbrType :=
  if k =? 31 then Ok (mkCaDbrType MetaCtrl StEnum)
  else if 20 <? k then Err (CeBadCaDbrTypeId k)
  else
    let '(meta, k) :=
      if 14 <=? k then (MetaTime, k - 14)
      else if 7 <=? k then (MetaStatus, k - 7)
      else (MetaPlain, k) in
    let? scalar_type :=
      (if k =? 4 then Ok StI8
       else if k =? 1 then Ok StI16
       else if k =? 5 then Ok StI32
       else if k =? 2 then Ok StF32
       else if k =? 6 then Ok StF64
       else if k =? 3 then Ok StEnum
       else if k =? 0 then Ok StString
       else Err (CeBadCaScalarTypeId k)) in
    Ok (mkCaDbrType meta scalar_type).

Inductive CaDataScalarValue : Type :=
  | ScI8 (x : Z)
  | ScI16 (x : Z)
  | ScI32 (x : Z)
  | ScF32 (bits : Z)
  | ScF64 (bits : Z)
  | ScEnum (x : Z)
  | ScString (s : list Z)
  | ScBool (b : bool).

Inductive CaDataArrayValue : Type :=
  | ArI8 (x : list Z)
  | ArI16 (x : list Z)
  | ArI32 (x : list Z)
  | ArF32 (bits : list Z)
  | ArF64 (bits : list Z)
  | ArBool (x : list bool).

Inductive CaDataValue : Type :=
  | CaScalarVal (x : CaDataScalarValue)
  | CaArrayVal (x : CaDataArrayValue).

Definition CaDataScalarValue_byte_size (self : CaDataScalarValue) : Z :=
  match self with
  | ScI8 _ => 1
  | ScI16 _ => 2
  | ScI32 _ => 4
  | ScF32 _ => 4
  | ScF64 _ => 8
  | ScEnum _ => 2
  | ScString v => wrap 32 (Z.of_nat (length v))
  | ScBool _ => 1
  end.

(** [x.len() as u32] first, then the product. *)
Definition CaDataArrayValue_byte_size (self : CaDataArrayValue) : Z :=
  let len {A} (x : list A) := wrap 32 (Z.of_nat (length x)) in
  match self with
  | ArI8 x => u32_mul 1 (len x)
  | ArI16 x => u32_mul 2 (len x)
  | ArI32 x => u32_mul 4 (len x)
  | ArF32 x => u32_mul 4 (len x)
  | ArF64 x => u32_mul 8 (len x)
  | ArBool x => u32_mul 1 (len x)
  end.

Definition CaDataValue_byte_size (self : CaDataValue) : Z :=
  match self with
  | CaScalarVal x => CaDataScalarValue_byte_size x
  | CaArrayVal x => CaDataArrayValue_byte_size x
  end.

Record CaMetaTime : Type := mkCaMetaTime { cmt_status : Z; cmt_severity : Z; cmt_ca_secs : Z; cmt_ca_nanos : Z }.
Record CaMetaVariants : Type := mkCaMetaVariants { cmv_status : Z; cmv_severity : Z; cmv_variants : list (list Z) }.

Inductive CaMetaValue : Type :=
  | MvTime (x : CaMetaTime)
  | MvVariants (x : CaMetaVariants).

Record CaEventValue : Type := mkCaEventValue { cev_data : CaDataValue; cev_meta : CaMetaValue }.

Definition CaEventValue_ts (self : CaEventValue) : option Z :=
  match cev_meta self with
  | MvTime x =>
      Some (u64_add (u64_mul SEC (u64_add (cmt_ca_secs x) EPICS_EPOCH_OFFSET)) (cmt_ca_nanos x))
  | MvVariants _ => None
  end.

(** A value of a binary format from its bits: sign, [ew] bits of exponent,
    [mw] bits of mantissa. *)
Definition float_of_bits (mw ew : Z) (z : Z) : spec_float :=
  let s := Z.testbit z (mw + ew) in
  let e := Z.land (Z.shiftr z mw) (2 ^ ew - 1) in
  let m := Z.land z (2 ^ mw - 1) in
  let emin := 3 - 2 ^ (ew - 1) - (mw + 1) in
  let fin (m e : Z) := match m with Zpos p => S754_finite s p e | _ => S754_zero s end in
  if e =? 2 ^ ew - 1 then (if m =? 0 then S754_infinity s else S754_nan)
  else if e =? 0 then fin m emin
  else fin (m + 2 ^ mw) (emin + e - 1).

Definition f32_of_bits (z : Z) : f32 := float_of_bits 23 8 z.
Definition f64_of_bits (z : Z) : f64 := float_of_bits 52 11 z.
Definition f32_add (a b : f32) : f32 := SFadd 24 128 a b.

(** [as f32] of a signed integer, and [f32::from] of a [bool]. *)
Definition f32_of_i (z : Z) : f32 := binary_normalize 24 128 z 0 false.
Definition f32_of_bool (b : bool) : f32 := f32_of_i (if b then 1 else 0).

Definition CaEventValue_f32_for_binning (self : CaEventValue) : f32 :=
  let sum {A} (f : A -> f32) (l : list A) := foldl (fun a x => f32_add a (f x)) (S754_zero false) l in
  match cev_data self with
  | CaScalarVal val =>
      match val with
      | ScI8 x => f32_of_i x
      | ScI16 x => f32_of_i x
      | ScI32 x => f32_of_i x
      | ScF32 x => f32_of_bits x
      | ScF64 x => f32_of_f64 (f64_of_bits x)
      | ScEnum x => f32_of_i x
      | ScString x => f32_of_i (Z.of_nat (length x))
      | ScBool x => f32_of_bool x
      end
  | CaArrayVal val =>
      match val with
      | ArI8 x => sum f32_of_i x
      | ArI16 x => sum f32_of_i x
      | ArI32 x => sum f32_of_i x
      | ArF32 x => sum f32_of_bits x
      | ArF64 x => sum (fun x => f32_of_f64 (f64_of_bits x)) x
      | ArBool x => sum f32_of_bool x
      end
  end.

Record EventAddRes : Type := mkEventAddRes {
  evres_data_type : Z; evres_data_count : Z; evres_status : Z; evres_subid : Z;
  evres_payload_len : Z; evres_value : CaEventValue
}.

Record ReadNotifyRes : Type := mkReadNotifyRes {
  rnres_data_type : Z; rnres_data_count : Z; rnres_sid : Z; rnres_ioid : Z;
  rnres_payload_len : Z; rnres_value : CaEventValue
}.

Inductive CaMsgTy : Type :=
  | CaVersion
  | CaVersionRes (n : Z)
  | CaError (x : ErrorCmd)
  | CaClientName
  | CaClientNameRes (x : ClientNameRes)
  | CaHostName (x : list Z)
  | CaSearch (x : Search)
  | CaSearchRes (x : SearchRes)
  | CaCreateChan (x : CreateChan)
  | CaCreateChanRes (x : CreateChanRes)
  | CaCreateChanFail (x : CreateChanFail)
  | CaAccessRightsRes (x : AccessRightsRes)
  | CaEventAdd (x : EventAdd)
  | CaEventAddRes (x : EventAddRes)
  | CaEventAddResEmpty (x : EventAddResEmpty)
  | CaEventCancel (x : EventCancel)
  | CaEventCancelRes (x : EventCancelRes)
  | CaReadNotify (x : ReadNotify)
  | CaReadNotifyRes (x : ReadNotifyRes)
  | CaChannelClose (x : ChannelClose)
  | CaChannelCloseRes (x : ChannelCloseRes)
  | CaChannelDisconnect (x : ChannelDisconnect)
  | CaEcho.

(** ** The parts of the bytes of a message *)

Definition CaMsgTy_cmdid (self : CaMsgTy) : Z :=
  match self with
  | CaVersion => 0
  | CaVersionRes _ => 0
  | CaError _ => 11
  | CaClientName => 20
  | CaClientNameRes _ => 20
  | CaHostName _ => 21
  | CaSearch _ => 6
  | CaSearchRes _ => 6
  | CaCreateChan _ => 18
  | CaCreateChanRes _ => 18
  | CaCreateChanFail _ => 26
  | CaAccessRightsRes _ => 22
  | CaEventAdd _ => 1
  | CaEventAddRes _ => 1
  | CaEventAddResEmpty _ => 1
  | CaEventCancel _ => 2
  | CaEventCancelRes _ => 1
  | CaReadNotify _ => 15
  | CaReadNotifyRes _ => 15
  | CaChannelClose _ => 12
  | CaChannelCloseRes _ => 12
  | CaChannelDisconnect _ => 27
  | CaEcho => 23
  end.

Definition CaMsgTy_payload_len (self : CaMsgTy) : outcome ca_error Z :=
  let padded (n : Z) := n / 8 * 8 in
  let len (s : list Z) := Z.of_nat (length s) in
  match self with
  | CaVersion => Ok 0
  | CaVersionRes _ => Ok 0
  | CaError x => Ok (padded (16 + len (err_msg x) + 1 + 7))
  | CaClientName => Ok 16
  | CaClientNameRes x => Ok (padded (len (cnres_name x) + 1 + 7))
  | CaHostName x => Ok (padded (len x + 1 + 7))
  | CaSearch x => Ok (padded (len (search_channel x) + 1 + 7))
  | CaSearchRes _ => Ok 8
  | CaCreateChan x => Ok (padded (len (cchan_channel x) + 1 + 7))
  | CaCreateChanRes _ => Ok 0
  | CaCreateChanFail _ => Ok 0
  | CaAccessRightsRes _ => Ok 0
  | CaEventAdd _ => Ok 16
  | CaEventAddRes _ => Panic
  | CaEventAddResEmpty _ => Ok 0
  | CaEventCancel _ => Ok 0
  | CaEventCancelRes _ => Ok 0
  | CaReadNotify _ => Ok 0
  | CaReadNotifyRes _ => Panic
  | CaChannelClose _ => Ok 0
  | CaChannelCloseRes _ => Ok 0
  | CaChannelDisconnect _ => Ok 0
  | CaEcho => Ok 0
  end.

Definition CaMsgTy_data_type (self : CaMsgTy) : Z :=
  match self with
  | CaVersion => 0
  | CaVersionRes n => n
  | CaError _ => 0
  | CaClientName => 0
  | CaClientNameRes _ => 0
  | CaHostName _ => 0
  | CaSearch _ => 1
  | CaSearchRes x => sres_tcp_port x
  | CaCreateChan _ => 0
  | CaCreateChanRes x => ccres_data_type x
  | CaCreateChanFail _ => 0
  | CaAccessRightsRes _ => 0
  | CaEventAdd x => evadd_data_type x
  | CaEventAddRes x => evres_data_type x
  | CaEventAddResEmpty x => evemp_data_type x
  | CaEventCancel x => evcan_data_type x
  | CaEventCancelRes x => evcres_data_type x
  | CaReadNotify x => rnot_data_type x
  | CaReadNotifyRes x => rnres_data_type x
  | CaChannelClose _ => 0
  | CaChannelCloseRes _ => 0
  | CaChannelDisconnect _ => 0
  | CaEcho => 0
  end.

Definition CaMsgTy_data_count (self : CaMsgTy) : outcome ca_error Z :=
  match self with
  | CaVersion => Ok CA_PROTO_VERSION
  | CaVersionRes _ => Ok 0
  | CaError _ => Ok 0
  | CaClientName => Ok 0
  | CaClientNameRes _ => Ok 0
  | CaHostName _ => Ok 0
  | CaSearch _ => Ok CA_PROTO_VERSION
  | CaSearchRes _ => Ok 0
  | CaCreateChan _ => Ok 0
  | CaCreateChanRes _ => Panic
  | CaCreateChanFail _ => Ok 0
  | CaAccessRightsRes _ => Ok 0
  | CaEventAdd x => Ok (evadd_data_count x)
  | CaEventAddRes _ => Panic
  | CaEventAddResEmpty _ => Ok 0
  | CaEventCancel x => Ok (evcan_data_count x)
  | CaEventCancelRes _ => Ok 0
  | CaReadNotify x => Ok (rnot_data_count x)
  | CaReadNotifyRes _ => Panic
  | CaChannelClose _ => Ok 0
  | CaChannelCloseRes _ => Ok 0
  | CaChannelDisconnect _ => Ok 0
  | CaEcho => Ok 0
  end.

Definition CaMsgTy_param1 (self : CaMsgTy) : Z :=
  match self with
  | CaVersion => 0
  | CaVersionRes _ => 0
  | CaError _ => 0
  | CaClientName => 0
  | CaClientNameRes _ => 0
  | CaHostName _ => 0
  | CaSearch e => search_id e
  | CaSearchRes x => sres_addr x
  | CaCreateChan x => cchan_cid x
  | CaCreateChanRes x => ccres_cid x
  | CaCreateChanFail x => ccfail_cid x
  | CaAccessRightsRes x => arres_cid x
  | CaEventAdd x => evadd_sid x
  | CaEventAddRes x => evres_status x
  | CaEventAddResEmpty x => evemp_sid x
  | CaEventCancel x => evcan_sid x
  | CaEventCancelRes x => evcres_sid x
  | CaReadNotify x => rnot_sid x
  | CaReadNotifyRes x => rnres_sid x
  | CaChannelClose x => cclo_sid x
  | CaChannelCloseRes x => cclores_sid x
  | CaChannelDisconnect x => cdis_cid x
  | CaEcho => 0
  end.

Definition CaMsgTy_param2 (self : CaMsgTy) : Z :=
  match self with
  | CaVersion => 0
  | CaVersionRes _ => 0
  | CaError _ => 0
  | CaClientName => 0
  | CaClientNameRes _ => 0
  | CaHostName _ => 0
  | CaSearch e => search_id e
  | CaSearchRes x => sres_id x
  | CaCreateChan _ => CA_PROTO_VERSION
  | CaCreateChanRes x => ccres_sid x
  | CaCreateChanFail _ => 0
  | CaAccessRightsRes x => arres_rights x
  | CaEventAdd x => evadd_subid x
  | CaEventAddRes x => evres_subid x
  | CaEventAddResEmpty x => evemp_subid x
  | CaEventCancel x => evcan_subid x
  | CaEventCancelRes x => evcres_subid x
  | CaReadNotify x => rnot_ioid x
  | CaReadNotifyRes x => rnres_ioid x
  | CaChannelClose x => cclo_cid x
  | CaChannelCloseRes x => cclores_cid x
  | CaChannelDisconnect _ => 0
  | CaEcho => 0
  end.

(** The short header, unless the payload or the count is too large for it. The
    count is read only when the payload is small. *)
Definition CaMsgTy_short_header (self : CaMsgTy) : outcome ca_error bool :=
  let? pl := CaMsgTy_payload_len self in
  if pl <=? 16368 then (let? dc := CaMsgTy_data_count self in Ok (dc <=? 65535)) else Ok false.

Definition CaMsgTy_len (self : CaMsgTy) : outcome ca_error Z :=
  let? short := CaMsgTy_short_header self in
  let? pl := CaMsgTy_payload_len self in
  Ok (if short then 16 + pl else 24 + pl).

(** [buf.fill(0); buf[..n].copy_from_slice(s)]. *)
Definition fill_with_prefix (s buf : list Z) : outcome ca_error (list Z) :=
  if (length s <=? length buf)%nat then Ok (s ++ replicate (length buf - length s) 0) else Panic.

Definition DBE_LOG : Z := 2.
Definition DBE_ALARM : Z := 4.

Definition CaMsgTy_place_payload_into (self : CaMsgTy) (buf : list Z) : outcome ca_error (list Z) :=
  match self with
  | CaError _ => Panic
  | CaClientName => fill_with_prefix (bytes_of_string "daqingest") buf
  | CaClientNameRes _ => Panic
  | CaHostName name => fill_with_prefix name buf
  | CaSearch e =>
      if (length buf <? length (search_channel e) + 1)%nat then Panic else fill_with_prefix (search_channel e) buf
  | CaSearchRes _ => Panic
  | CaCreateChan x =>
      if (length buf <? length (cchan_channel x) + 1)%nat then Panic else fill_with_prefix (cchan_channel x) buf
  | CaEventAdd _ =>
      if (length buf =? 16)%nat
      then Ok [0; 0; 0; 0; 0; 0; 0; 0; 0; 0; 0; 0; 0; Z.lor DBE_LOG DBE_ALARM; 0; 0]
      else Panic
  | _ => Ok buf
  end.

Definition CaMsgTy_cmd_title (self : CaMsgTy) : string :=
  match self with
  | CaVersion => "Version"
  | CaVersionRes _ => "VersionRes"
  | CaError _ => "Error"
  | CaClientName => "ClientName"
  | CaClientNameRes _ => "ClientNameRes"
  | CaHostName _ => "HostName"
  | CaSearch _ => "Search"
  | CaSearchRes _ => "SearchRes"
  | CaCreateChan _ => "CreateChan"
  | CaCreateChanRes _ => "CreateChanRes"
  | CaCreateChanFail _ => "CreateChanFail"
  | CaAccessRightsRes _ => "AccessRightsRes"
  | CaEventAdd _ => "EventAdd"
  | CaEventAddRes _ => "EventAddRes"
  | CaEventAddResEmpty _ => "EventAddResEmpty"
  | CaEventCancel _ => "EventCancel"
  | CaEventCancelRes _ => "EventCancelRes"
  | CaReadNotify _ => "ReadNotify"
  | CaReadNotifyRes _ => "ReadNotifyRes"
  | CaChannelClose _ => "ChannelClose"
  | CaChannelCloseRes _ => "ChannelCloseRes"
  | CaChannelDisconnect _ => "ChannelDisconnect"
  | CaEcho => "Echo"
  end.

(** ** Messages *)

Record CaMsgCommon : Type := mkCaMsgCommon { cmc_ts : Z }.
Record CaMsg : Type := mkCaMsg { cm_ty : CaMsgTy; cm_common : CaMsgCommon }.

Definition CaMsg_from_ty_ts (ty : CaMsgTy) (ts : Z) : CaMsg := mkCaMsg ty (mkCaMsgCommon ts).
Definition CaMsg_into_parts (self : CaMsg) : CaMsgCommon * CaMsgTy := (cm_common self, cm_ty self).
Definition CaMsg_len (self : CaMsg) : outcome ca_error Z := CaMsgTy_len (cm_ty self).

Definition CaMsg_overwrite_ioid (self : CaMsg) (ioid : Z) : CaMsg :=
  match cm_ty self with
  | CaReadNotify v =>
      mkCaMsg (CaReadNotify (mkReadNotify (rnot_data_type v) (rnot_data_count v) (rnot_sid v) ioid)) (cm_common self)
  | _ => self
  end.

Definition CaMsg_overwrite_subid (self : CaMsg) (subid : Z) : CaMsg :=
  match cm_ty self with
  | CaEventAdd v =>
      mkCaMsg (CaEventAdd (mkEventAdd (evadd_data_type v) (evadd_data_count v) (evadd_sid v) subid)) (cm_common self)
  | CaEventCancel v =>
      mkCaMsg (CaEventCancel (mkEventCancel (evcan_data_type v) (evcan_data_count v) (evcan_sid v) subid)) (cm_common self)
  | _ => self
  end.

(** The header bytes are stored one by one, the payload into the rest. *)
Definition CaMsg_place_into (self : CaMsg) (buf : list Z) : outcome ca_error (list Z) :=
  let ty := cm_ty self in
  let store (head : list Z) :=
    if (length head <=? length buf)%nat
    then (let? p := CaMsgTy_place_payload_into ty (drop (length head) buf) in Ok (head ++ p))
    else Panic in
  let? short := CaMsgTy_short_header ty in
  let? pls := CaMsgTy_payload_len ty in
  let? cnt := CaMsgTy_data_count ty in
  if short : bool then
    store (be_bytes 2 (CaMsgTy_cmdid ty) ++ be_bytes 2 (wrap 16 pls) ++ be_bytes 2 (CaMsgTy_data_type ty) ++
           be_bytes 2 (wrap 16 cnt) ++ be_bytes 4 (CaMsgTy_param1 ty) ++ be_bytes 4 (CaMsgTy_param2 ty))
  else
    store (be_bytes 2 (CaMsgTy_cmdid ty) ++ [255; 255] ++ be_bytes 2 (CaMsgTy_data_type ty) ++
           [0; 0] ++ be_bytes 4 (CaMsgTy_param1 ty) ++ be_bytes 4 (CaMsgTy_param2 ty) ++
           be_bytes 4 (wrap 32 pls) ++ be_bytes 4 cnt).

(** ** Reading a message *)

Record HeadInfo : Type := mkHeadInfo {
  hi_cmdid : Z;
  hi_payload_size : Z;
  hi_data_type : Z;
  hi_data_count : Z;
  hi_param1 : Z;
  hi_param2 : Z;
  hi_is_ext : bool
}.

Definition HeadInfo_with_ext (self : HeadInfo) (payload datacount : Z) : HeadInfo :=
  mkHeadInfo (hi_cmdid self) payload (hi_data_type self) datacount (hi_param1 self) (hi_param2 self) true.

(** [from_be_bytes] of the first bytes, for the signed types as well as for the
    bit patterns. *)
Definition read_uint (stl : nat) (buf : list Z) : outcome ca_error Z :=
  let? a := slice buf 0 stl in Ok (of_be_bytes a).

Definition convert_scalar_value (stl : nat) (conv : Z -> CaDataScalarValue) (buf : list Z) : outcome ca_error CaDataValue :=
  if (length buf <? stl)%nat then Err CeNotEnoughPayload
  else (let? v := read_uint stl buf in Ok (CaScalarVal (conv v))).

Fixpoint convert_wave_loop (nn stl : nat) (conv : Z -> Z) (bb : list Z) (a : list Z) : outcome ca_error (list Z) :=
  match nn with
  | O => Ok a
  | S nn =>
      let? v := read_uint stl bb in
      let? bb := slice bb stl (length bb) in
      convert_wave_loop nn stl conv bb (a ++ [conv v])
  end.

Definition convert_wave_value (stl : nat) (conv : Z -> Z) (n : nat) (buf : list Z) : outcome ca_error (list Z) :=
  convert_wave_loop (n `min` (length buf / stl)) stl conv buf [].

Definition ca_scalar_value (scalar_type : CaScalarType) (buf : list Z) : outcome ca_error CaDataValue :=
  match scalar_type with
  | StI8 => convert_scalar_value 1 (fun v => ScI8 (to_signed 8 v)) buf
  | StI16 => convert_scalar_value 2 (fun v => ScI16 (to_signed 16 v)) buf
  | StI32 => convert_scalar_value 4 (fun v => ScI32 (to_signed 32 v)) buf
  | StF32 => convert_scalar_value 4 ScF32 buf
  | StF64 => convert_scalar_value 8 ScF64 buf
  | StEnum => convert_scalar_value 2 (fun v => ScEnum (to_signed 16 v)) buf
  | StString =>
      let ixn := default (length buf) (position (fun c => c =? 0) buf) in
      Ok (CaScalarVal (ScString (from_utf8_lossy (take ixn buf))))
  end.

Definition ca_wave_value (scalar_type : CaScalarType) (n : nat) (buf : list Z) : outcome ca_error CaDataValue :=
  let wave (conv : list Z -> CaDataArrayValue) (r : outcome ca_error (list Z)) :=
    let? a := r in Ok (CaArrayVal (conv a)) in
  match scalar_type with
  | StI8 => wave ArI8 (convert_wave_value 1 (to_signed 8) n buf)
  | StI16 => wave ArI16 (convert_wave_value 2 (to_signed 16) n buf)
  | StI32 => wave ArI32 (convert_wave_value 4 (to_signed 32) n buf)
  | StF32 => wave ArF32 (convert_wave_value 4 id n buf)
  | StF64 => wave ArF64 (convert_wave_value 8 id n buf)
  | StString => Ok (CaScalarVal (ScString (bytes_of_string "todo-array-string")))
  | StEnum => Err CeTodoConversionArray
  end.

(** [u16::from_be_bytes(payload[b..e].try_into()..)]; the slice has the length
    of the array, so the conversion does not fail. *)
Definition read_field (payload : list Z) (b e : nat) : outcome ca_error Z :=
  let? a := slice payload b e in Ok (of_be_bytes a).

(** One name of an enum value: a field of 26 bytes. *)
Definition ca_variant (payload : list Z) (i : nat) : outcome ca_error (list Z) :=
  let p := (6 + 26 * i)%nat in
  let? field := slice payload p (p + 26) in
  let s1 := default (bytes_of_string "encodingerror") (cstr_to_str field) in
  Ok (if (26 <=? length s1)%nat then bytes_of_string "toolongerror" else s1).

Fixpoint ca_variants (payload : list Z) (i varcnt : nat) : outcome ca_error (list (list Z)) :=
  match varcnt with
  | O => Ok []
  | S varcnt =>
      let? s1 := ca_variant payload i in
      let? rest := ca_variants payload (S i) varcnt in
      Ok (s1 :: rest)
  end.

Definition ca_meta_value (meta : CaDbrMetaType) (payload : list Z) : outcome ca_error (CaMetaValue * nat) :=
  match meta with
  | MetaPlain => Err CeMismatchDbrTimeType
  | MetaStatus => Err CeMismatchDbrTimeType
  | MetaTime =>
      let? status := read_field payload 0 2 in
      let? severity := read_field payload 2 4 in
      let? ca_secs := read_field payload 4 8 in
      let? ca_nanos := read_field payload 8 12 in
      Ok (MvTime (mkCaMetaTime status severity ca_secs ca_nanos), 12%nat)
  | MetaCtrl =>
      let? status := read_field payload 0 2 in
      let? severity := read_field payload 2 4 in
      let? varcnt := read_field payload 4 6 in
      if 16 <? varcnt then Err CeBadCaCount
      else
        let? variants := ca_variants payload 0 (Z.to_nat varcnt) in
        Ok (MvVariants (mkCaMetaVariants status severity variants), (2 + 2 + 2 + 26 * 16)%nat)
  end.

Definition ca_meta_padding (meta : CaDbrMetaType) (scalar_type : CaScalarType) : nat :=
  match meta with
  | MetaPlain => 0
  | MetaStatus => match scalar_type with StI8 => 1 | StF64 => 4 | _ => 0 end
  | MetaTime =>
      match scalar_type with
      | StI8 => 3
      | StI16 => 2
      | StI32 => 0
      | StF32 => 0
      | StF64 => 4
      | StEnum => 2
      | StString => 0
      end
  | MetaCtrl => match scalar_type with StI8 => 1 | _ => 0 end
  end.

Definition extract_ca_data_value (hi : HeadInfo) (payload : list Z) (array_truncate : nat) : outcome ca_error CaEventValue :=
  let? ca_dbr_ty := CaDbrType_from_ca_u16 (hi_data_type hi) in
  let? ca_sh := map_err (fun _ => CeBadCaCount) (Shape_from_ca_count (hi_data_count hi)) in
  let? (meta, data_offset) := ca_meta_value (dbr_meta ca_dbr_ty) payload in
  let meta_padding := ca_meta_padding (dbr_meta ca_dbr_ty) (dbr_scalar_type ca_dbr_ty) in
  let? valbuf := slice payload (data_offset + meta_padding) (length payload) in
  let? value :=
    match ca_sh with
    | Scalar => ca_scalar_value (dbr_scalar_type ca_dbr_ty) valbuf
    | Wave n => ca_wave_value (dbr_scalar_type ca_dbr_ty) (Z.to_nat n `min` array_truncate) valbuf
    | Image _ _ => Err CeCaImageUnsupported
    end in
  Ok (mkCaEventValue value meta).

Section Reading.
  (** The [Debug] forms of the errors of [CString::new] and [into_string],
      which the code takes as the name of the client. *)
  Context (debug_nul_error debug_into_string_error : list Z -> list Z).

Definition client_name_of (payload : list Z) : list Z :=
  match position (fun c => c =? 0) payload with
  | Some _ => debug_nul_error payload
  | None => if utf8_valid payload then payload else debug_into_string_error payload
  end.

Definition CaMsgTy_from_proto_infos (hi : HeadInfo) (payload : list Z) (array_truncate : nat) : outcome ca_error CaMsgTy :=
  let cmd := hi_cmdid hi in
  let len := length payload in
  if cmd =? 0 then Ok (CaVersionRes (wrap 16 (hi_data_count hi)))
  else if cmd =? 11 then
    let? head := slice payload 0 (len `min` 16) in
    let s := debug_bytes head in
    let? msg :=
      (if (17 <=? len)%nat then
         (let? text := slice payload 17 (len - 1) in
          Ok (s ++ bytes_of_string "  msg: " ++ from_utf8_lossy text))
       else Ok s) in
    Ok (CaError (mkErrorCmd (hi_param1 hi) (hi_param2 hi) msg))
  else if cmd =? 6 then
    if (len <? 2)%nat then Err CeCaProtoVersionMissing
    else
      let? proto_version := read_field payload 0 2 in
      Ok (CaSearchRes (mkSearchRes (hi_param1 hi) (hi_data_type hi) (hi_param2 hi) proto_version))
  else if cmd =? 1 then
    if (len <? 12)%nat then
      if (len =? 0)%nat
      then Ok (CaEventAddResEmpty (mkEventAddResEmpty (hi_data_type hi) (hi_param1 hi) (hi_param2 hi)))
      else Err (CeNotEnoughPayloadTimeMetadata (Z.of_nat len))
    else
      let? value := extract_ca_data_value hi payload array_truncate in
      Ok (CaEventAddRes (mkEventAddRes (hi_data_type hi) (hi_data_count hi) (hi_param1 hi) (hi_param2 hi)
                           (hi_payload_size hi) value))
  else if cmd =? 12 then
    if negb (len =? 0)%nat then Err CeBadPayload
    else Ok (CaChannelCloseRes (mkChannelCloseRes (hi_param1 hi) (hi_param2 hi)))
  else if cmd =? 15 then
    let? value := extract_ca_data_value hi payload array_truncate in
    Ok (CaReadNotifyRes (mkReadNotifyRes (hi_data_type hi) (hi_data_count hi) (hi_param1 hi) (hi_param2 hi)
                           (hi_payload_size hi) value))
  else if cmd =? 18 then
    Ok (CaCreateChanRes (mkCreateChanRes (hi_data_type hi) (hi_data_count hi) (hi_param1 hi) (hi_param2 hi)))
  else if cmd =? 22 then Ok (CaAccessRightsRes (mkAccessRightsRes (hi_param1 hi) (hi_param2 hi)))
  else if cmd =? 23 then Ok CaEcho
  else if cmd =? 26 then Ok (CaCreateChanFail (mkCreateChanFail (hi_param1 hi)))
  else if cmd =? 20 then Ok (CaClientNameRes (mkClientNameRes (client_name_of payload)))
  else if cmd =? 21 then Ok (CaHostName (bytes_of_string "TODOx5288"))
  else Err (CeCaCommandNotSupported cmd).

Definition CaMsg_from_proto_infos (hi : HeadInfo) (payload : list Z) (tsnow : Z) (array_truncate : nat) : outcome ca_error CaMsg :=
  let? ty := CaMsgTy_from_proto_infos hi payload array_truncate in
  Ok (CaMsg_from_ty_ts ty tsnow).

End Reading.

(** The identifiers that a message carries. *)
Definition CaMsg_cid (self : CaMsg) : option Z :=
  match cm_ty self with
  | CaError x => Some (err_cid x)
  | CaCreateChan x => Some (cchan_cid x)
  | CaCreateChanRes x => Some (ccres_cid x)
  | CaCreateChanFail x => Some (ccfail_cid x)
  | CaAccessRightsRes x => Some (arres_cid x)
  | CaChannelDisconnect x => Some (cdis_cid x)
  | CaChannelClose x => Some (cclo_cid x)
  | CaChannelCloseRes x => Some (cclores_cid x)
  | _ => None
  end.

Definition CaMsg_sid (self : CaMsg) : option Z :=
  match cm_ty self with
  | CaCreateChanRes x => Some (ccres_sid x)
  | CaChannelClose x => Some (cclo_sid x)
  | CaChannelCloseRes x => Some (cclores_sid x)
  | CaReadNotify x => Some (rnot_sid x)
  | CaReadNotifyRes x => Some (rnres_sid x)
  | _ => None
  end.

Definition CaMsg_subid (self : CaMsg) : option Z :=
  match cm_ty self with
  | CaEventAdd x => Some (evadd_subid x)
  | CaEventAddRes x => Some (evres_subid x)
  | CaEventAddResEmpty x => Some (evemp_subid x)
  | CaEventCancel x => Some (evcan_subid x)
  | CaEventCancelRes x => Some (evcres_subid x)
  | _ => None
  end.

Definition CaMsg_ioid (self : CaMsg) : option Z :=
  match cm_ty self with
  | CaReadNotify x => Some (rnot_ioid x)
  | CaReadNotifyRes x => Some (rnres_ioid x)
  | _ => None
  end.
