(* ===== verification/CaStream.v ===== *)
(** * The stream of channel access messages

    [CaProto] of [daqbuf-ca-proto/src/ca/proto.rs]: bytes from a socket become
    messages, queued messages become bytes to the socket. The socket is what its
    polls return: a list of reads, a list of writes, and the bytes written. *)
From Stdlib Require Import ZArith Lia.
From stdpp Require Import base numbers option strings list.
From S2P Require Import Prelude Items ByteBuf CaProto.

#[local] Open Scope Z_scope.
#[local] Open Scope rust_scope.

(** ** The socket *)

Inductive rd_event : Type :=
  | RdBytes (x : list Z)
  | RdPending
  | RdErr
  | RdEof.

Inductive wr_event : Type :=
  | WrAccept (n : nat)
  | WrPending
  | WrErr.

(** Nothing more listed: the socket stays silent, or takes nothing more. *)
Record Tcp : Type := mkTcp { tcp_rd : list rd_event; tcp_wr : list wr_event; tcp_sent : list Z }.

(** A read into a buffer of [n] bytes; what does not fit is read later. The
    number of bytes read is the length of the result, and 0 at the end. *)
Definition tcp_poll_read (n : nat) (t : Tcp) : Tcp * Poll (outcome ca_error (list Z)) :=
  let rest rd := mkTcp rd (tcp_wr t) (tcp_sent t) in
  match tcp_rd t with
  | [] => (t, Pending)
  | RdBytes x :: rd =>
      if (length x <=? n)%nat then (rest rd, Ready (Ok x))
      else (rest (RdBytes (drop n x) :: rd), Ready (Ok (take n x)))
  | RdPending :: rd => (rest rd, Pending)
  | RdErr :: rd => (rest rd, Ready (Err CeIO))
  | RdEof :: rd => (t, Ready (Ok []))
  end.

Definition tcp_poll_write (b : list Z) (t : Tcp) : Tcp * Poll (outcome ca_error nat) :=
  match tcp_wr t with
  | [] => (t, Pending)
  | WrAccept n :: wr =>
      let k := (n `min` length b)%nat in
      (mkTcp (tcp_rd t) wr (tcp_sent t ++ take k b), Ready (Ok k))
  | WrPending :: wr => (mkTcp (tcp_rd t) wr (tcp_sent t), Pending)
  | WrErr :: wr => (mkTcp (tcp_rd t) wr (tcp_sent t), Ready (Err CeIO))
  end.

(** What the stream takes from its surroundings: the clock by the number of the
    reading, the capacity that [VecDeque::with_capacity(256)] allots, and the
    [Debug] forms of two errors of the standard library. *)
Class CaEnv : Type := {
  env_now : nat -> Z;
  env_resqu_capacity : nat;
  env_debug_nul_error : list Z -> list Z;
  env_debug_into_string_error : list Z -> list Z
}.

(** Surroundings for examples. *)
Definition silent_env : CaEnv :=
  {| env_now := fun _ => 0; env_resqu_capacity := 256; env_debug_nul_error := id; env_debug_into_string_error := id |}.

(** ** State *)

Inductive CaState : Type :=
  | StdHead
  | ExtHead (hi : HeadInfo)
  | CaPayload (hi : HeadInfo)
  | CaDone.

Definition CaState_need_min (self : CaState) : Z :=
  match self with
  | StdHead => 16
  | ExtHead _ => 8
  | CaPayload k => hi_payload_size k
  | CaDone => 123
  end.

Inductive CaItem : Type :=
  | CaItemEmpty
  | CaItemMsg (m : CaMsg).

(** The metrics as the log of what was counted. *)
Inductive CaMett : Type :=
  | MtTcpRecvCount
  | MtTcpRecvBytes (n : Z)
  | MtProtocolIssue
  | MtPayloadExtButSmall
  | MtPayloadExtVeryLarge
  | MtOutMsgPlaced
  | MtOutBytes (n : Z)
  | MtPayloadSize (n : Z)
  | MtDataCount (n : Z)
  | MtOutbufLen (n : Z).

Section CaProto.
  Context `{NetBuf} `{CaEnv}.

(** The socket handle is in [cp_tcp]; [cp_clock] counts the readings of the
    clock. The fields for tests that constants switch off are left out. *)
Record CaProto : Type := mkCaProto {
  cp_tcp : Tcp;
  cp_clock : nat;
  cp_tcp_eof : bool;
  cp_state : CaState;
  cp_buf : nb;
  cp_outbuf : nb;
  cp_out : list CaMsg;
  cp_array_truncate : nat;
  cp_mett : list CaMett;
  cp_resqu : list CaItem;
  cp_event_add_res_cnt : Z;
  cp_tcp_read_bytes : Z
}.

Definition cp_new (tcp : Tcp) (array_truncate : nat) : CaProto :=
  mkCaProto tcp 0 false StdHead (nb_new (Z.to_nat PROTO_INPUT_BUF_CAP)) (nb_new (1024 * 256))
    [] array_truncate [] [] 0 0.

Definition cp_set_tcp (t : Tcp) (s : CaProto) : CaProto :=
  mkCaProto t (cp_clock s) (cp_tcp_eof s) (cp_state s) (cp_buf s) (cp_outbuf s) (cp_out s)
    (cp_array_truncate s) (cp_mett s) (cp_resqu s) (cp_event_add_res_cnt s) (cp_tcp_read_bytes s).
Definition cp_set_clock (c : nat) (s : CaProto) : CaProto :=
  mkCaProto (cp_tcp s) c (cp_tcp_eof s) (cp_state s) (cp_buf s) (cp_outbuf s) (cp_out s)
    (cp_array_truncate s) (cp_mett s) (cp_resqu s) (cp_event_add_res_cnt s) (cp_tcp_read_bytes s).
Definition cp_set_eof (s : CaProto) : CaProto :=
  mkCaProto (cp_tcp s) (cp_clock s) true (cp_state s) (cp_buf s) (cp_outbuf s) (cp_out s)
    (cp_array_truncate s) (cp_mett s) (cp_resqu s) (cp_event_add_res_cnt s) (cp_tcp_read_bytes s).
Definition cp_set_state (st : CaState) (s : CaProto) : CaProto :=
  mkCaProto (cp_tcp s) (cp_clock s) (cp_tcp_eof s) st (cp_buf s) (cp_outbuf s) (cp_out s)
    (cp_array_truncate s) (cp_mett s) (cp_resqu s) (cp_event_add_res_cnt s) (cp_tcp_read_bytes s).
Definition cp_set_buf (b : nb) (s : CaProto) : CaProto :=
  mkCaProto (cp_tcp s) (cp_clock s) (cp_tcp_eof s) (cp_state s) b (cp_outbuf s) (cp_out s)
    (cp_array_truncate s) (cp_mett s) (cp_resqu s) (cp_event_add_res_cnt s) (cp_tcp_read_bytes s).
Definition cp_set_outbuf (b : nb) (s : CaProto) : CaProto :=
  mkCaProto (cp_tcp s) (cp_clock s) (cp_tcp_eof s) (cp_state s) (cp_buf s) b (cp_out s)
    (cp_array_truncate s) (cp_mett s) (cp_resqu s) (cp_event_add_res_cnt s) (cp_tcp_read_bytes s).
Definition cp_set_out (o : list CaMsg) (s : CaProto) : CaProto :=
  mkCaProto (cp_tcp s) (cp_clock s) (cp_tcp_eof s) (cp_state s) (cp_buf s) (cp_outbuf s) o
    (cp_array_truncate s) (cp_mett s) (cp_resqu s) (cp_event_add_res_cnt s) (cp_tcp_read_bytes s).
Definition cp_count (m : CaMett) (s : CaProto) : CaProto :=
  mkCaProto (cp_tcp s) (cp_clock s) (cp_tcp_eof s) (cp_state s) (cp_buf s) (cp_outbuf s) (cp_out s)
    (cp_array_truncate s) (cp_mett s ++ [m]) (cp_resqu s) (cp_event_add_res_cnt s) (cp_tcp_read_bytes s).
Definition cp_set_resqu (q : list CaItem) (s : CaProto) : CaProto :=
  mkCaProto (cp_tcp s) (cp_clock s) (cp_tcp_eof s) (cp_state s) (cp_buf s) (cp_outbuf s) (cp_out s)
    (cp_array_truncate s) (cp_mett s) q (cp_event_add_res_cnt s) (cp_tcp_read_bytes s).
Definition cp_set_event_add_res_cnt (n : Z) (s : CaProto) : CaProto :=
  mkCaProto (cp_tcp s) (cp_clock s) (cp_tcp_eof s) (cp_state s) (cp_buf s) (cp_outbuf s) (cp_out s)
    (cp_array_truncate s) (cp_mett s) (cp_resqu s) n (cp_tcp_read_bytes s).
Definition cp_set_tcp_read_bytes (n : Z) (s : CaProto) : CaProto :=
  mkCaProto (cp_tcp s) (cp_clock s) (cp_tcp_eof s) (cp_state s) (cp_buf s) (cp_outbuf s) (cp_out s)
    (cp_array_truncate s) (cp_mett s) (cp_resqu s) (cp_event_add_res_cnt s) n.

Definition cp_proto_out_space (s : CaProto) : bool := (length (cp_out s) <? 20)%nat.
Definition cp_push_out (item : CaMsg) (s : CaProto) : CaProto := cp_set_out (cp_out s ++ [item]) s.

(** ** Output *)

(** The first message of the queue and the space for it; none when the buffer
    has not enough space. *)
Definition cp_out_msg_buf (s : CaProto) : CaProto * outcome ca_error (option (CaMsg * list Z)) :=
  match cp_out s with
  | item :: _ =>
      match CaMsg_len item with
      | Ok n =>
          match nb_available_writable_area (Z.to_nat n) (cp_outbuf s) with
          | (b, Ok area) => (cp_set_outbuf b s, Ok (Some (item, area)))
          | (b, Err _) => (cp_set_outbuf b s, Ok None)
          | (b, Panic) => (cp_set_outbuf b s, Panic)
          end
      | Err e => (s, Err e)
      | Panic => (s, Panic)
      end
  | [] => (s, Ok None)
  end.

(** The loop that moves messages to the output buffer; each turn takes one. *)
Fixpoint cp_place_out (fuel : nat) (s : CaProto) : CaProto * outcome ca_error unit :=
  match fuel with
  | O => (s, Ok tt)
  | S fuel =>
      match cp_out_msg_buf s with
      | (s, Ok None) => (s, Ok tt)
      | (s, Ok (Some (msg, area))) =>
          match CaMsg_len msg with
          | Ok msglen =>
              if Z.of_nat (length area) <? msglen then (s, Ok tt)
              else
                match CaMsg_place_into msg (take (Z.to_nat msglen) area) with
                | Ok bytes =>
                    let '(b, r) := nb_wadv (Z.to_nat msglen) (nb_fill_area bytes (cp_outbuf s)) in
                    let s := cp_set_outbuf b s in
                    match r with
                    | Ok _ => cp_place_out fuel (cp_count MtOutMsgPlaced (cp_set_out (tail (cp_out s)) s))
                    | Err _ => (s, Err CeSlideBuf)
                    | Panic => (s, Panic)
                    end
                | Err e => (s, Err e)
                | Panic => (s, Panic)
                end
          | Err e => (s, Err e)
          | Panic => (s, Panic)
          end
      | (s, Err e) => (s, Err e)
      | (s, Panic) => (s, Panic)
      end
  end.

Definition cp_attempt_output (s : CaProto) : CaProto * Poll (outcome ca_error nat) :=
  let '(t, r) := tcp_poll_write (nb_data (cp_outbuf s)) (cp_tcp s) in
  let s := cp_set_tcp t s in
  match r with
  | Ready (Ok k) =>
      let '(b, r) := nb_adv k (cp_outbuf s) in
      let s := cp_set_outbuf b s in
      match r with
      | Ok _ => (cp_count (MtOutBytes (wrap 32 (Z.of_nat k))) s, Ready (Ok k))
      | Err _ => (s, Ready (Err CeSlideBuf))
      | Panic => (s, Ready Panic)
      end
  | Ready (Err e) => (s, Ready (Err e))
  | Ready Panic => (s, Ready Panic)
  | Pending => (s, Pending)
  end.

(** The loop that writes: each turn but the last takes a byte or more. The
    result is whether there was progress and whether the socket is pending. *)
Fixpoint cp_write_out (fuel : nat) (progress : bool) (s : CaProto) : CaProto * outcome ca_error (bool * bool) :=
  match fuel with
  | O => (s, Panic)
  | S fuel =>
      if (nb_len (cp_outbuf s) =? 0)%nat then (s, Ok (progress, false))
      else
        match cp_attempt_output s with
        | (s, Ready (Ok n)) => if (n =? 0)%nat then (s, Err CeLogicError) else cp_write_out fuel true s
        | (s, Ready (Err e)) => (s, Err e)
        | (s, Ready Panic) => (s, Panic)
        | (s, Pending) => (s, Ok (progress, true))
        end
  end.

Definition cp_poll_outbound (s : CaProto) : CaProto * option (Poll (option (outcome ca_error unit))) :=
  let s := cp_count (MtOutbufLen (wrap 32 (Z.of_nat (nb_len (cp_outbuf s))))) s in
  match cp_place_out (S (length (cp_out s))) s with
  | (s, Ok _) =>
      match cp_write_out (S (nb_len (cp_outbuf s))) false s with
      | (s, Ok (have_progress, have_pending)) =>
          if have_progress then (s, Some (Ready (Some (Ok tt))))
          else if have_pending then (s, Some Pending)
          else ((if cp_tcp_eof s then cp_set_state CaDone s else s), None)
      | (s, Err e) => (s, Some (Ready (Some (Err e))))
      | (s, Panic) => (s, Some (Ready (Some Panic)))
      end
  | (s, Err e) => (s, Some (Ready (Some (Err e))))
  | (s, Panic) => (s, Some (Ready (Some Panic)))
  end.

(** ** Input *)

Definition HeadInfo_from_netbuf (buf : nb) : nb * outcome nb_error HeadInfo :=
  (let* command := nb_read_u16_be in
   let* payload_size := nb_read_u16_be in
   let* data_type := nb_read_u16_be in
   let* data_count := nb_read_u16_be in
   let* param1 := nb_read_u32_be in
   let* param2 := nb_read_u32_be in
   fun buf => (buf, Ok (mkHeadInfo command payload_size data_type data_count param1 param2 false))) buf.

Definition cp_from_proto_infos (hi : HeadInfo) (payload : list Z) (tsnow : Z) (s : CaProto) : outcome ca_error CaMsg :=
  CaMsg_from_proto_infos env_debug_nul_error env_debug_into_string_error hi payload tsnow (cp_array_truncate s).

Definition cp_parse_std_head (tsnow : Z) (s : CaProto) : CaProto * outcome ca_error (option CaItem) :=
  match HeadInfo_from_netbuf (cp_buf s) with
  | (b, Ok hi) =>
      let s := cp_set_buf b s in
      let s := if 26 <? hi_cmdid hi then cp_count MtProtocolIssue s else s in
      if hi_payload_size hi =? 65535 then (cp_set_state (ExtHead hi) s, Ok None)
      else
        let s := cp_count (MtPayloadSize (hi_payload_size hi)) s in
        if hi_payload_size hi =? 0 then
          let s := cp_set_state StdHead s in
          (s, let? msg := cp_from_proto_infos hi [] tsnow s in Ok (Some (CaItemMsg msg)))
        else (cp_set_state (CaPayload hi) s, Ok None)
  | (b, Err _) => (cp_set_buf b s, Err CeSlideBuf)
  | (b, Panic) => (cp_set_buf b s, Panic)
  end.

Definition cp_parse_ext_head (hi : HeadInfo) (s : CaProto) : CaProto * outcome ca_error (option CaItem) :=
  match (let* payload_size := nb_read_u32_be in
         let* data_count := nb_read_u32_be in
         fun buf => (buf, Ok (payload_size, data_count))) (cp_buf s) with
  | (b, Ok (payload_size, data_count)) =>
      let s := cp_set_buf b s in
      let s := cp_count (MtPayloadSize (hi_payload_size hi)) s in
      let s := if PAYLOAD_LEN_MAX <? payload_size then cp_count MtPayloadExtVeryLarge s else s in
      let s := if payload_size <=? 16368 then cp_count MtPayloadExtButSmall s else s in
      (cp_set_state (CaPayload (HeadInfo_with_ext hi payload_size data_count)) s, Ok None)
  | (b, Err _) => (cp_set_buf b s, Err CeSlideBuf)
  | (b, Panic) => (cp_set_buf b s, Panic)
  end.

Definition cp_parse_payload (hi : HeadInfo) (tsnow : Z) (s : CaProto) : CaProto * outcome ca_error (option CaItem) :=
  match nb_read_bytes (Z.to_nat (hi_payload_size hi)) (cp_buf s) with
  | (b, Ok g) =>
      let s := cp_set_buf b s in
      match cp_from_proto_infos hi g tsnow s with
      | Ok msg =>
          let s :=
            match cm_ty msg with
            | CaEventAddRes _ =>
                cp_set_event_add_res_cnt (u32_add (cp_event_add_res_cnt s) 1) (cp_count (MtDataCount (hi_data_count hi)) s)
            | _ => s
            end in
          (cp_set_state StdHead s, Ok (Some (CaItemMsg msg)))
      | Err e => (s, Err e)
      | Panic => (s, Panic)
      end
  | (b, Err _) => (cp_set_buf b s, Err CeSlideBuf)
  | (b, Panic) => (cp_set_buf b s, Panic)
  end.

Definition cp_parse_item (tsnow : Z) (s : CaProto) : CaProto * outcome ca_error (option CaItem) :=
  match cp_state s with
  | StdHead => cp_parse_std_head tsnow s
  | ExtHead hi => cp_parse_ext_head hi s
  | CaPayload hi => cp_parse_payload hi tsnow s
  | CaDone => (s, Err CeParseAttemptInDoneState)
  end.

(** The reads that can follow: at most one for each event and each byte. *)
Definition rd_weight (rd : list rd_event) : nat :=
  list_sum (map (fun e => match e with RdBytes x => S (length x) | _ => 1%nat end) rd).

(** Read until the socket is pending or at its end; the result is whether it is
    pending, and whether there was progress. *)
Fixpoint cp_read_loop (fuel need_min : nat) (progress : bool) (s : CaProto) : CaProto * outcome ca_error (bool * bool) :=
  match fuel with
  | O => (s, Panic)
  | S fuel =>
      if cp_tcp_eof s then (s, Ok (false, progress))
      else
        match nb_available_writable_area need_min (cp_buf s) with
        | (b, Ok area) =>
            let s := cp_set_buf b s in
            if (length area =? 0)%nat then (s, Err CeNoReadBufferSpace)
            else
              let '(t, r) := tcp_poll_read (length area) (cp_tcp s) in
              let s := cp_set_tcp t s in
              match r with
              | Ready (Ok x) =>
                  if (length x =? 0)%nat then (cp_set_eof s, Ok (false, progress))
                  else
                    let '(b, r) := nb_wadv (length x) (nb_fill_area x (cp_buf s)) in
                    let s := cp_set_buf b s in
                    match r with
                    | Ok _ =>
                        let s := cp_count MtTcpRecvCount s in
                        let s := cp_count (MtTcpRecvBytes (wrap 32 (Z.of_nat (length x)))) s in
                        let s := cp_set_tcp_read_bytes (u64_add (cp_tcp_read_bytes s) (Z.of_nat (length x))) s in
                        cp_read_loop fuel need_min true s
                    | Err _ => (s, Err CeSlideBuf)
                    | Panic => (s, Panic)
                    end
              | Ready (Err e) => (s, Err e)
              | Ready Panic => (s, Panic)
              | Pending => (s, Ok (true, progress))
              end
        | (b, Err _) => (cp_set_buf b s, Err CeSlideBuf)
        | (b, Panic) => (cp_set_buf b s, Panic)
        end
  end.

(** Parse until the queue is full or a part is incomplete. *)
Fixpoint cp_parse_loop (fuel : nat) (tsnow : Z) (progress : bool) (s : CaProto) : CaProto * outcome ca_error bool :=
  match fuel with
  | O => (s, Panic)
  | S fuel =>
      if (length (cp_resqu s) <? env_resqu_capacity)%nat then
        if CaState_need_min (cp_state s) <=? Z.of_nat (nb_len (cp_buf s)) then
          match cp_parse_item tsnow s with
          | (s, Ok (Some item)) => cp_parse_loop fuel tsnow true (cp_set_resqu (cp_resqu s ++ [item]) s)
          | (s, Ok None) => cp_parse_loop fuel tsnow true s
          | (s, Err e) => (s, Err e)
          | (s, Panic) => (s, Panic)
          end
        else (s, Ok progress)
      else (s, Ok progress)
  end.

(** The part of the loop body after the output. *)
Definition cp_loop_input (tsnow : Z) (have_progress have_pending : bool) (s : CaProto) : CaProto * outcome ca_error (Poll unit) :=
  let need_min := CaState_need_min (cp_state s) in
  let cap := Z.of_nat (nb_cap (cp_buf s)) in
  if cap <? need_min then (s, Err (CeBufferTooSmallForNeedMin cap need_min))
  else
    match cp_read_loop (S (rd_weight (tcp_rd (cp_tcp s)))) (Z.to_nat need_min) have_progress s with
    | (s, Ok (rd_pending, have_progress)) =>
        match cp_parse_loop (2 * nb_len (cp_buf s) + 2) tsnow have_progress s with
        | (s, Ok have_progress) =>
            if have_progress then (s, Ok (Ready tt))
            else if (have_pending || rd_pending)%bool then (s, Ok Pending)
            else if cp_tcp_eof s then (cp_set_state CaDone s, Ok (Ready tt))
            else (s, Err CeNeitherPendingNorProgress)
        | (s, Err e) => (s, Err e)
        | (s, Panic) => (s, Panic)
        end
    | (s, Err e) => (s, Err e)
    | (s, Panic) => (s, Panic)
    end.

Definition cp_loop_body (s : CaProto) : CaProto * outcome ca_error (Poll unit) :=
  let tsnow := env_now (cp_clock s) in
  let s := cp_set_clock (S (cp_clock s)) s in
  match cp_poll_outbound s with
  | (s, Some (Ready (Some (Ok _)))) => cp_loop_input tsnow true false s
  | (s, Some (Ready (Some (Err e)))) => (s, Err e)
  | (s, Some (Ready (Some Panic))) => (s, Panic)
  | (s, Some (Ready None)) => cp_loop_input tsnow false false s
  | (s, Some Pending) => cp_loop_input tsnow false true s
  | (s, None) => cp_loop_input tsnow false false s
  end.

(** ** The stream *)

Inductive ca_out : Type :=
  | CaOutPanic
  | CaOutOfFuel
  | CaOut (p : Poll (option (outcome ca_error CaItem))).

Fixpoint cp_poll_next (fuel : nat) (s : CaProto) : CaProto * ca_out :=
  match fuel with
  | O => (s, CaOutOfFuel)
  | S fuel =>
      match cp_resqu s with
      | item :: q => (cp_set_resqu q s, CaOut (Ready (Some (Ok item))))
      | [] =>
          match cp_state s with
          | CaDone => (s, CaOut (Ready None))
          | _ =>
              match cp_loop_body s with
              | (s, Ok (Ready _)) => cp_poll_next fuel s
              | (s, Ok Pending) => (s, CaOut Pending)
              | (s, Err e) => (cp_set_state CaDone s, CaOut (Ready (Some (Err e))))
              | (s, Panic) => (s, CaOutPanic)
              end
          end
      end
  end.

Definition cp_get_read_stats_v1 (socket_buffer_len : outcome ca_error Z) (s : CaProto) :
    CaProto * outcome ca_error (Z * Z * Z) :=
  match socket_buffer_len with
  | Ok socket_len =>
      (cp_set_tcp_read_bytes 0 s, Ok (socket_len, cp_tcp_read_bytes s, Z.of_nat (nb_len (cp_buf s))))
  | Err e => (s, Err e)
  | Panic => (s, Panic)
  end.

(** A consumer that polls, up to a number of polls, until the stream is pending
    with nothing left to read, or at its end: the state and the items. *)
Fixpoint cp_drain (polls fuel : nat) (s : CaProto) : CaProto * option (list (outcome ca_error CaItem)) :=
  match polls with
  | O => (s, None)
  | S polls =>
      match cp_poll_next fuel s with
      | (s, CaOut (Ready (Some r))) =>
          let '(s, rs) := cp_drain polls fuel s in (s, (fun rs => r :: rs) <$> rs)
      | (s, CaOut (Ready None)) => (s, Some [])
      | (s, CaOut Pending) =>
          match tcp_rd (cp_tcp s) with [] => (s, Some []) | _ => cp_drain polls fuel s end
      | (s, CaOutPanic) => (s, Some [Panic])
      | (s, CaOutOfFuel) => (s, None)
      end
  end.

(** Any use of the stream: messages are queued ([inl]) and the stream is polled
    ([inr], with fuel), in any order; the results of the polls. *)
Fixpoint cp_run (ops : list (CaMsg + nat)) (s : CaProto) : CaProto * list (outcome ca_error CaItem) :=
  match ops with
  | [] => (s, [])
  | inl m :: ops => cp_run ops (cp_push_out m s)
  | inr fuel :: ops =>
      match cp_poll_next fuel s with
      | (s, CaOut (Ready (Some r))) => let '(s, rs) := cp_run ops s in (s, r :: rs)
      | (s, CaOut (Ready None)) | (s, CaOut Pending) => cp_run ops s
      | (s, CaOutPanic) => (s, [Panic])
      | (s, CaOutOfFuel) => (s, [])
      end
  end.

(** A connection over time: in each round some reads become possible, and the
    consumer polls until the stream is pending. *)
Definition cp_feed (rd : list rd_event) (s : CaProto) : CaProto :=
  cp_set_tcp (mkTcp (tcp_rd (cp_tcp s) ++ rd) (tcp_wr (cp_tcp s)) (tcp_sent (cp_tcp s))) s.

Fixpoint cp_session (polls fuel : nat) (rounds : list (list rd_event)) (s : CaProto) :
    CaProto * option (list (outcome ca_error CaItem)) :=
  match rounds with
  | [] => (s, Some [])
  | rd :: rounds =>
      match cp_drain polls fuel (cp_feed rd s) with
      | (s, Some rs) => let '(s, rs') := cp_session polls fuel rounds s in (s, app rs <$> rs')
      | (s, None) => (s, None)
      end
  end.

End CaProto.
