(* ===== verification/CaMessages.v ===== *)
(** * Channel access messages as bytes

    The messages in a sequence of bytes, by cutting the bytes message by message
    ([ca_messages]), without state; and the bytes of a message to send
    ([ca_wire]), from which its header and payload are read back. *)
From Stdlib Require Import ZArith Lia.
From stdpp Require Import base numbers option strings list.
From S2P Require Import Prelude Items Utf8 CaProto CaStream.

#[local] Open Scope Z_scope.
#[local] Open Scope rust_scope.

(** ** The messages in a sequence of bytes *)

(** The number in the [n] bytes at [i]. *)
Definition num_at (b : list Z) (i n : nat) : Z := of_be_bytes (take n (drop i b)).

Definition head_of (b : list Z) : HeadInfo :=
  mkHeadInfo (num_at b 0 2) (num_at b 2 2) (num_at b 4 2) (num_at b 6 2) (num_at b 8 4) (num_at b 12 4) false.

(** The header at the front, and its length. *)
Definition ca_header (b : list Z) : option (HeadInfo * nat) :=
  if (length b <? 16)%nat then None
  else if num_at b 2 2 =? 65535 then
    if (length b <? 24)%nat then None
    else Some (HeadInfo_with_ext (head_of b) (num_at b 16 4) (num_at b 20 4), 24%nat)
  else Some (head_of b, 16%nat).

(** The message at the front: header, payload, and the bytes after it. *)
Definition ca_split (b : list Z) : option (HeadInfo * list Z * list Z) :=
  match ca_header b with
  | Some (hi, h) =>
      let n := Z.to_nat (hi_payload_size hi) in
      if (length b <? h + n)%nat then None
      else Some (hi, take n (drop h b), drop (h + n) b)
  | None => None
  end.

Section Messages.
  Context `{CaEnv} (trunc : nat).

Definition ca_decode (hi : HeadInfo) (payload : list Z) : outcome ca_error CaMsgTy :=
  CaMsgTy_from_proto_infos env_debug_nul_error env_debug_into_string_error hi payload trunc.

(** A message takes 16 bytes at least: as many steps as bytes are enough. What
    comes after a message that does not decode is not read. *)
Fixpoint ca_msgs (fuel : nat) (b : list Z) : list (outcome ca_error CaMsgTy) :=
  match fuel with
  | O => []
  | S fuel =>
      match ca_split b with
      | Some (hi, p, rest) =>
          match ca_decode hi p with
          | Ok ty => Ok ty :: ca_msgs fuel rest
          | r => [r]
          end
      | None => []
      end
  end.

Definition ca_messages (b : list Z) : list (outcome ca_error CaMsgTy) := ca_msgs (length b) b.

Lemma ca_header_bounds b hi h : ca_header b = Some (hi, h) -> (16 <= h <= length b)%nat.
Proof.
  unfold ca_header. destruct (Nat.ltb_spec (length b) 16); [done|].
  destruct (_ =? _); [|intros [= _ <-]; lia].
  destruct (Nat.ltb_spec (length b) 24); [done|]. intros [= _ <-]. lia.
Qed.

Lemma ca_split_shorter b hi p rest : ca_split b = Some (hi, p, rest) -> (length rest + 16 <= length b)%nat.
Proof.
  unfold ca_split. destruct (ca_header b) as [[hi' h]|] eqn:Hh; [|done]. apply ca_header_bounds in Hh.
  destruct (Nat.ltb_spec (length b) (h + Z.to_nat (hi_payload_size hi'))); [done|].
  intros [= _ _ <-]. rewrite length_drop. lia.
Qed.

Lemma ca_msgs_fuel b f1 f2 : (length b <= f1)%nat -> (length b <= f2)%nat -> ca_msgs f1 b = ca_msgs f2 b.
Proof.
  revert b f2. induction f1 as [|f1 IH]; intros b f2 H1 H2.
  - destruct f2; [done|]. simpl. destruct (ca_split b) as [[[hi p] rest]|] eqn:Hs; [|done].
    apply ca_split_shorter in Hs. lia.
  - destruct f2 as [|f2]; simpl; (destruct (ca_split b) as [[[hi p] rest]|] eqn:Hs; [|done]);
      apply ca_split_shorter in Hs; [lia|].
    destruct (ca_decode hi p); [|done..]. f_equal. apply IH; lia.
Qed.

Lemma ca_messages_eq b :
  ca_messages b =
    match ca_split b with
    | Some (hi, p, rest) =>
        match ca_decode hi p with Ok ty => Ok ty :: ca_messages rest | r => [r] end
    | None => []
    end.
Proof.
  unfold ca_messages. destruct b as [|x b]; [done|]. cbn [length ca_msgs].
  destruct (ca_split (x :: b)) as [[[hi p] rest]|] eqn:Hs; [|done].
  apply ca_split_shorter in Hs. cbn [length] in Hs.
  destruct (ca_decode hi p); [|done..]. f_equal. apply ca_msgs_fuel; lia.
Qed.

End Messages.

(** The announced sizes are between 0 and [N], also that of a message of which only
    the header is there; and an extended header announces some payload. *)
Definition hi_fits (N : Z) (hi : HeadInfo) : Prop :=
  0 <= hi_payload_size hi <= N /\ (hi_is_ext hi = true -> 1 <= hi_payload_size hi).

Inductive ca_fits (N : Z) : list Z -> Prop :=
  | fits_none b : ca_header b = None -> ca_fits N b
  | fits_last b hi h : ca_header b = Some (hi, h) -> ca_split b = None -> hi_fits N hi -> ca_fits N b
  | fits_cons b hi p rest : ca_split b = Some (hi, p, rest) -> hi_fits N hi -> ca_fits N rest -> ca_fits N b.

(** ** Reading the front of longer bytes *)

Lemma num_at_app b x i n : (i + n <= length b)%nat -> num_at (b ++ x) i n = num_at b i n.
Proof.
  intros Hl. unfold num_at. rewrite drop_app_le by lia. rewrite take_app_le; [done|]. rewrite length_drop. lia.
Qed.

Lemma num_at_drop b i j n : num_at (drop i b) j n = num_at b (i + j) n.
Proof. unfold num_at. by rewrite drop_drop. Qed.

Lemma num_at_shift a b i n j : i = (length a + j)%nat -> num_at (a ++ b) i n = num_at b j n.
Proof. intros ->. unfold num_at. rewrite <- drop_drop. by rewrite drop_app_length. Qed.

Lemma head_of_app b x : (16 <= length b)%nat -> head_of (b ++ x) = head_of b.
Proof. intros Hl. unfold head_of. by rewrite !num_at_app by lia. Qed.

Lemma ca_header_app b x hi h : ca_header b = Some (hi, h) -> ca_header (b ++ x) = Some (hi, h).
Proof.
  unfold ca_header. rewrite length_app. destruct (Nat.ltb_spec (length b) 16); [done|].
  rewrite (proj2 (Nat.ltb_ge (length b + length x) 16)) by lia. rewrite num_at_app by lia. rewrite head_of_app by lia.
  destruct (_ =? _); [|done]. destruct (Nat.ltb_spec (length b) 24); [done|].
  rewrite (proj2 (Nat.ltb_ge (length b + length x) 24)) by lia. by rewrite !num_at_app by lia.
Qed.

(** Pieces of the header that a short prefix already determines. *)
Lemma head_of_front (d x : list Z) : (16 <= length d)%nat -> head_of (take 16 d ++ x) = head_of d.
Proof.
  intros Hl. assert (Ht : (16 <= length (take 16 d))%nat) by (rewrite length_take; lia).
  rewrite head_of_app by done. by rewrite <- (head_of_app (take 16 d) (drop 16 d)), take_drop.
Qed.

(** The message that starts with a complete header and payload. *)
Lemma ca_split_front b hi h n d y :
  ca_header b = Some (hi, h) -> h = length b -> n = Z.to_nat (hi_payload_size hi) -> length d = n ->
  ca_split (b ++ d ++ y) = Some (hi, d, y).
Proof.
  intros Hh -> Hn Hd. unfold ca_split. rewrite (ca_header_app _ _ _ _ Hh). rewrite <- Hn.
  rewrite !length_app, (proj2 (Nat.ltb_ge _ _)) by lia.
  rewrite drop_app_length, (take_app_length' d) by done.
  rewrite (app_assoc b), drop_app_length' by (rewrite length_app; lia). done.
Qed.

(** ** Messages to send *)

(** The messages that can be written; the others are responses of a server. *)
Definition CaMsgTy_sendable (ty : CaMsgTy) : bool :=
  match ty with
  | CaError _ | CaClientNameRes _ | CaSearchRes _ | CaCreateChanRes _ | CaEventAddRes _ | CaReadNotifyRes _ => false
  | _ => true
  end.

(** A text in the payload: zeros up to a multiple of eight, one at least. *)
Definition pad8 (s : list Z) : list Z := s ++ replicate (8 - length s mod 8) 0.

Definition ca_payload (ty : CaMsgTy) : list Z :=
  match ty with
  | CaClientName => bytes_of_string "daqingest" ++ replicate 7 0
  | CaHostName s => pad8 s
  | CaSearch x => pad8 (search_channel x)
  | CaCreateChan x => pad8 (cchan_channel x)
  | CaEventAdd _ => replicate 13 0 ++ [6; 0; 0]
  | _ => []
  end.

(** What [place_into] makes of a buffer of the length of the message. *)
Definition ca_wire (m : CaMsg) : list Z :=
  match CaMsg_len m with
  | Ok n => match CaMsg_place_into m (replicate (Z.to_nat n) 0) with Ok b => b | _ => [] end
  | _ => []
  end.

Lemma pad8_length s : length (pad8 s) = ((length s + 8) / 8 * 8)%nat.
Proof.
  unfold pad8. rewrite length_app, length_replicate. pose proof (Nat.div_mod_eq (length s) 8).
  pose proof (Nat.mod_upper_bound (length s) 8 ltac:(lia)).
  assert (Hd : ((length s + 8) / 8 = S (length s / 8))%nat).
  { replace (length s + 8)%nat with (length s + 1 * 8)%nat by lia. rewrite Nat.div_add by lia. lia. }
  rewrite Hd. lia.
Qed.

Lemma pad8_len s : Z.of_nat (length (pad8 s)) = (Z.of_nat (length s) + 1 + 7) / 8 * 8.
Proof.
  rewrite pad8_length, Nat2Z.inj_mul, Nat2Z.inj_div, Nat2Z.inj_add. do 2 f_equal. lia.
Qed.

Lemma fill_pad8 s buf : length buf = length (pad8 s) -> fill_with_prefix s buf = Ok (pad8 s).
Proof.
  intros Hl. unfold fill_with_prefix. unfold pad8 in *. rewrite length_app, length_replicate in Hl.
  rewrite (proj2 (Nat.leb_le _ _)) by lia. do 3 f_equal. lia.
Qed.

Lemma pad8_longer s : (length s < length (pad8 s))%nat.
Proof.
  unfold pad8. rewrite length_app, length_replicate. pose proof (Nat.mod_upper_bound (length s) 8 ltac:(lia)). lia.
Qed.

(** The payload is written whole, whatever the buffer held. *)
Lemma place_payload_sendable ty :
  CaMsgTy_sendable ty = true ->
  CaMsgTy_payload_len ty = Ok (Z.of_nat (length (ca_payload ty))) /\
  (exists dc, CaMsgTy_data_count ty = Ok dc) /\
  (forall buf, length buf = length (ca_payload ty) -> CaMsgTy_place_payload_into ty buf = Ok (ca_payload ty)).
Proof.
  intros Hs. destruct ty; try discriminate Hs; cbn [CaMsgTy_payload_len CaMsgTy_data_count ca_payload CaMsgTy_place_payload_into];
    rewrite ?pad8_len; (split; [done|]); (split; [eauto|]); intros buf Hb;
    try (by apply nil_length_inv in Hb as ->); try (by apply fill_pad8);
    try (rewrite (proj2 (Nat.ltb_ge _ _)) by (rewrite Hb; pose proof (pad8_longer (search_channel x)); lia); by apply fill_pad8);
    try (rewrite (proj2 (Nat.ltb_ge _ _)) by (rewrite Hb; pose proof (pad8_longer (cchan_channel x)); lia); by apply fill_pad8).
  rewrite Hb. reflexivity.
Qed.

(** The bytes of the header, short or extended. *)
Definition ca_head_bytes (ty : CaMsgTy) (short : bool) (pl dc : Z) : list Z :=
  if short then
    be_bytes 2 (CaMsgTy_cmdid ty) ++ be_bytes 2 (wrap 16 pl) ++ be_bytes 2 (CaMsgTy_data_type ty) ++
    be_bytes 2 (wrap 16 dc) ++ be_bytes 4 (CaMsgTy_param1 ty) ++ be_bytes 4 (CaMsgTy_param2 ty)
  else
    be_bytes 2 (CaMsgTy_cmdid ty) ++ [255; 255] ++ be_bytes 2 (CaMsgTy_data_type ty) ++
    [0; 0] ++ be_bytes 4 (CaMsgTy_param1 ty) ++ be_bytes 4 (CaMsgTy_param2 ty) ++
    be_bytes 4 (wrap 32 pl) ++ be_bytes 4 dc.

Lemma ca_head_length ty short pl dc : length (ca_head_bytes ty short pl dc) = (if short then 16 else 24)%nat.
Proof. unfold ca_head_bytes. by destruct short; rewrite !length_app, !be_bytes_length. Qed.

(** A message to send has its bytes, which do not depend on the buffer. *)
Lemma place_sendable m dc :
  CaMsgTy_sendable (cm_ty m) = true -> CaMsgTy_data_count (cm_ty m) = Ok dc ->
  let pl := Z.of_nat (length (ca_payload (cm_ty m))) in
  let short := (pl <=? 16368) && (dc <=? 65535) in
  CaMsg_len m = Ok (Z.of_nat (length (ca_wire m))) /\
  ca_wire m = ca_head_bytes (cm_ty m) short pl dc ++ ca_payload (cm_ty m) /\
  (forall buf, length buf = length (ca_wire m) -> CaMsg_place_into m buf = Ok (ca_wire m)).
Proof.
  intros Hs Hdc pl short. destruct (place_payload_sendable _ Hs) as (Hpl & _ & Hplace).
  set (b := ca_head_bytes (cm_ty m) short pl dc ++ ca_payload (cm_ty m)).
  assert (Hshort : CaMsgTy_short_header (cm_ty m) = Ok short).
  { unfold CaMsgTy_short_header. rewrite Hpl, Hdc. cbn [and_then]. subst short. fold pl. by destruct (pl <=? 16368). }
  assert (Hlen : CaMsg_len m = Ok (Z.of_nat (length b))).
  { unfold CaMsg_len, CaMsgTy_len. rewrite Hshort, Hpl. cbn [and_then]. subst b. rewrite length_app, ca_head_length. fold pl.
    destruct short; f_equal; lia. }
  assert (Hput : forall buf, length buf = length b -> CaMsg_place_into m buf = Ok b).
  { intros buf Hb. unfold CaMsg_place_into. rewrite Hshort, Hpl, Hdc. cbn [and_then]. fold pl. subst b.
    rewrite length_app in Hb. pose proof (ca_head_length (cm_ty m) short pl dc) as Hh.
    assert (Hst : forall hd, hd = ca_head_bytes (cm_ty m) short pl dc ->
      (if (length hd <=? length buf)%nat
       then (let? p := CaMsgTy_place_payload_into (cm_ty m) (drop (length hd) buf) in Ok (hd ++ p)) else Panic) =
      Ok (ca_head_bytes (cm_ty m) short pl dc ++ ca_payload (cm_ty m))).
    { intros hd ->. rewrite (proj2 (Nat.leb_le _ _)) by lia. rewrite Hplace by (rewrite length_drop; lia). done. }
    destruct short; by apply Hst. }
  assert (Hw : ca_wire m = b).
  { unfold ca_wire. rewrite Hlen, Nat2Z.id, Hput by (by rewrite length_replicate). done. }
  rewrite Hw. done.
Qed.

(** *** Reading the bytes back *)

Lemma num_at_head n z x : in_u (8 * Z.of_nat n) z -> num_at (be_bytes n z ++ x) 0 n = z.
Proof.
  intros Hz. unfold num_at. rewrite drop_0, take_app_length' by (by rewrite be_bytes_length). by apply of_be_bytes_round.
Qed.

Lemma num_at_skip a b n i k : length a = n -> (n <= i)%nat -> num_at (a ++ b) i k = num_at b (i - n) k.
Proof. intros Ha Hi. apply num_at_shift. lia. Qed.

(** The fields of a message fit the header. *)
Definition ca_fields_ok (ty : CaMsgTy) (dc : Z) : Prop :=
  is_u16 (CaMsgTy_data_type ty) /\ is_u32 dc /\ is_u32 (CaMsgTy_param1 ty) /\ is_u32 (CaMsgTy_param2 ty) /\
  is_u32 (Z.of_nat (length (ca_payload ty))).

Lemma cmdid_u16 ty : is_u16 (CaMsgTy_cmdid ty).
Proof. by destruct ty. Qed.

Ltac fields :=
  repeat first
    [ rewrite num_at_head by (unfold in_u in *; simpl in *; lia)
    | rewrite (num_at_skip (be_bytes 2 _) _ 2) by (apply be_bytes_length || lia); cbn [Nat.sub]
    | rewrite (num_at_skip (be_bytes 4 _) _ 4) by (apply be_bytes_length || lia); cbn [Nat.sub]
    | rewrite (num_at_skip [255; 255] _ 2) by (done || lia); cbn [Nat.sub]
    | rewrite (num_at_skip [0; 0] _ 2) by (done || lia); cbn [Nat.sub] ].

Lemma ca_header_bytes ty pl dc x :
  ca_fields_ok ty dc -> pl = Z.of_nat (length (ca_payload ty)) ->
  let short := (pl <=? 16368) && (dc <=? 65535) in
  ca_header (ca_head_bytes ty short pl dc ++ x) =
    Some (mkHeadInfo (CaMsgTy_cmdid ty) pl (CaMsgTy_data_type ty) dc (CaMsgTy_param1 ty) (CaMsgTy_param2 ty) (negb short),
          length (ca_head_bytes ty short pl dc)).
Proof.
  intros (Hdt & Hdc & Hp1 & Hp2 & Hpl) Hpl' short. rewrite <- Hpl' in Hpl. pose proof (cmdid_u16 ty) as Hcmd.
  rewrite ca_head_length. unfold ca_header. rewrite length_app, ca_head_length.
  destruct short eqn:Hs; cbn [negb].
  - subst short. apply andb_prop in Hs as [Hs1 Hs2]. rewrite (proj2 (Nat.ltb_ge _ _)) by lia.
    unfold head_of, ca_head_bytes. rewrite !wrap_small by (unfold in_u in *; lia). rewrite <- !app_assoc. fields.
    rewrite (proj2 (Z.eqb_neq _ _)) by lia. done.
  - rewrite !(proj2 (Nat.ltb_ge _ _)) by lia.
    unfold head_of, ca_head_bytes. rewrite !wrap_small by done. rewrite <- !app_assoc.
    assert (Hx : forall y, num_at (be_bytes 2 (CaMsgTy_cmdid ty) ++ [255; 255] ++ y) 2 2 = 65535).
    { intros y. fields. reflexivity. }
    rewrite Hx. cbn [Z.eqb]. unfold HeadInfo_with_ext, head_of. cbn [hi_cmdid hi_data_type hi_param1 hi_param2]. fields. done.
Qed.

(** C39. What is sent can be read: the bytes of a message that a client sends,
    followed by any others, cut into its header - with the size of the payload,
    the data type and count, both parameters, in the short form or in the
    extended one when payload or count need it - its payload, and exactly what
    follows; and they do not depend on what the output buffer held before. *)
Theorem ca_wire_round (m : CaMsg) (dc : Z) (x buf : list Z) :
  let ty := cm_ty m in
  let pl := Z.of_nat (length (ca_payload ty)) in
  CaMsgTy_sendable ty = true -> CaMsgTy_data_count ty = Ok dc -> ca_fields_ok ty dc ->
  length buf = length (ca_wire m) ->
  CaMsg_place_into m buf = Ok (ca_wire m) /\ CaMsg_len m = Ok (Z.of_nat (length (ca_wire m))) /\
  ca_split (ca_wire m ++ x) =
    Some (mkHeadInfo (CaMsgTy_cmdid ty) pl (CaMsgTy_data_type ty) dc (CaMsgTy_param1 ty) (CaMsgTy_param2 ty)
            (negb ((pl <=? 16368) && (dc <=? 65535))), ca_payload ty, x).
Proof.
  intros ty pl Hs Hdc Hf Hb. destruct (place_sendable m dc Hs Hdc) as (Hlen & Hw & Hput).
  split; [by apply Hput|]. split; [done|]. rewrite Hw, <- app_assoc.
  apply ca_split_front with (h := length (ca_head_bytes ty ((pl <=? 16368) && (dc <=? 65535)) pl dc)) (n := Z.to_nat pl);
    [|done|done|subst pl; by rewrite Nat2Z.id].
  rewrite <- (app_nil_r (ca_head_bytes _ _ _ _)) at 1. by apply ca_header_bytes.
Qed.

Lemma ca_wire_round_witness :
  let m := CaMsg_from_ty_ts (CaCreateChan (mkCreateChan 7 [65; 66; 67])) 0 in
  ca_split (ca_wire m ++ [1; 2]) = Some (mkHeadInfo 18 8 0 0 7 13 false, [65; 66; 67; 0; 0; 0; 0; 0], [1; 2]).
Proof.
  intros m. apply (ca_wire_round m 0 [1; 2] (replicate 24 9)); [reflexivity|reflexivity| |reflexivity].
  split_and!; by vm_compute.
Defined.
