(* ===== verification/CaValues.v ===== *)
(** * Values of channel access messages

    What [from_proto_infos] of [daqbuf-ca-proto/src/ca/proto.rs] makes of a
    payload: arrays come back element by element, and exactly the payloads that
    are too short for what the header announces make it panic. *)
From Stdlib Require Import ZArith Lia.
From stdpp Require Import base numbers option strings list.
From S2P Require Import Prelude NetpodTypes CaProto CaStream CaMessages.

#[local] Open Scope Z_scope.
#[local] Open Scope rust_scope.

(** ** Fields *)

Lemma read_field_eq p b e :
  (b <= e)%nat -> read_field p b e = if (e <=? length p)%nat then Ok (num_at p b (e - b)) else Panic.
Proof.
  intros Hbe. unfold read_field, slice, num_at. destruct (Nat.leb_spec e (length p)).
  - by rewrite bool_decide_true by lia.
  - by rewrite bool_decide_false by lia.
Qed.

Lemma read_uint_ok stl l : (stl <= length l)%nat -> read_uint stl l = Ok (of_be_bytes (take stl l)).
Proof. intros Hl. unfold read_uint. rewrite slice_ok by lia. by rewrite drop_0, Nat.sub_0_r. Qed.

(** ** Arrays *)

Lemma convert_wave_loop_spec nn stl conv bb a :
  (nn * stl <= length bb)%nat ->
  convert_wave_loop nn stl conv bb a =
    Ok (a ++ map (fun i => conv (of_be_bytes (take stl (drop (i * stl) bb)))) (seq 0 nn)).
Proof.
  revert bb a. induction nn as [|nn IH]; intros bb a Hl; [by rewrite app_nil_r|]. cbn [convert_wave_loop].
  rewrite read_uint_ok by lia. cbn [and_then]. rewrite slice_ok by lia. cbn [and_then].
  rewrite take_ge by (rewrite length_drop; lia). rewrite IH by (rewrite length_drop; lia).
  rewrite <- app_assoc. cbn [seq map app]. rewrite <- seq_shift, map_map.
  do 3 f_equal. apply map_ext. intros i. do 3 f_equal. by rewrite drop_drop.
Qed.

Lemma convert_wave_value_ok stl conv n buf :
  (0 < stl)%nat -> exists a, convert_wave_value stl conv n buf = Ok a /\ length a = (n `min` (length buf / stl))%nat.
Proof.
  intros Hs. unfold convert_wave_value. pose proof (Nat.div_mod_eq (length buf) stl).
  rewrite convert_wave_loop_spec by nia. eexists. split; [done|]. cbn [app]. by rewrite length_map, length_seq.
Qed.

(** The elements of an array on the wire. *)
Definition wave_bytes (stl : nat) (enc : Z -> Z) (xs : list Z) : list Z := concat (map (fun x => be_bytes stl (enc x)) xs).

Lemma wave_bytes_length stl enc xs : length (wave_bytes stl enc xs) = (length xs * stl)%nat.
Proof. induction xs as [|x xs IH]; [done|]. unfold wave_bytes in *. cbn [map concat length]. rewrite length_app, be_bytes_length, IH. done. Qed.

Lemma convert_wave_round stl conv enc n xs :
  (0 < stl)%nat -> Forall (fun x => conv (of_be_bytes (be_bytes stl (enc x))) = x) xs ->
  convert_wave_value stl conv n (wave_bytes stl enc xs) = Ok (take n xs).
Proof.
  intros Hs Hx. unfold convert_wave_value. rewrite wave_bytes_length, Nat.div_mul by lia.
  assert (Hloop : forall a, convert_wave_loop (n `min` length xs) stl conv (wave_bytes stl enc xs) a = Ok (a ++ take n xs)).
  { revert n. induction Hx as [|x xs Hx _ IH]; intros n a.
    - rewrite Nat.min_0_r. by rewrite take_nil, app_nil_r.
    - destruct n as [|n]; [by rewrite take_0, app_nil_r|]. cbn [length Nat.min convert_wave_loop take].
      change (wave_bytes stl enc (x :: xs)) with (be_bytes stl (enc x) ++ wave_bytes stl enc xs).
      rewrite read_uint_ok by (rewrite length_app, be_bytes_length; lia). cbn [and_then].
      rewrite slice_ok by (rewrite length_app, be_bytes_length; lia). cbn [and_then].
      rewrite take_ge by (rewrite length_drop; lia). rewrite take_app_length', drop_app_length' by (by rewrite be_bytes_length).
      rewrite IH, Hx. by rewrite <- app_assoc. }
  by apply Hloop.
Qed.

(** The width of the elements of an array type, their range and their value. *)
Definition wave_type (st : CaScalarType) : option (nat * bool * (list Z -> CaDataArrayValue)) :=
  match st with
  | StI8 => Some (1%nat, true, ArI8)
  | StI16 => Some (2%nat, true, ArI16)
  | StI32 => Some (4%nat, true, ArI32)
  | StF32 => Some (4%nat, false, ArF32)
  | StF64 => Some (8%nat, false, ArF64)
  | _ => None
  end.

Definition in_wave (stl : nat) (signed : bool) (x : Z) : Prop :=
  let w := 8 * Z.of_nat stl in if signed then in_i w x else in_u w x.

Lemma wave_elem_round stl x :
  (0 < stl)%nat -> in_i (8 * Z.of_nat stl) x ->
  to_signed (8 * Z.of_nat stl) (of_be_bytes (be_bytes stl (wrap (8 * Z.of_nat stl) x))) = x.
Proof. intros Hs Hx. rewrite of_be_bytes_round by (apply wrap_bound; lia). apply to_signed_of_wrap; [lia|done]. Qed.

Lemma ca_wave_value_round st stl signed arr n xs :
  wave_type st = Some (stl, signed, arr) -> Forall (in_wave stl signed) xs ->
  ca_wave_value st n (wave_bytes stl (wrap (8 * Z.of_nat stl)) xs) = Ok (CaArrayVal (arr (take n xs))).
Proof.
  intros Hw Hxs. assert (Hs : (0 < stl)%nat) by (destruct st; simplify_eq/=; lia).
  assert (Hr : forall conv, (forall x, in_wave stl signed x -> conv (of_be_bytes (be_bytes stl (wrap (8 * Z.of_nat stl) x))) = x) ->
    convert_wave_value stl conv n (wave_bytes stl (wrap (8 * Z.of_nat stl)) xs) = Ok (take n xs)).
  { intros conv Hc. apply convert_wave_round; [done|]. eapply Forall_impl; [exact Hxs|]. exact Hc. }
  assert (Hi : signed = true -> forall x, in_wave stl signed x ->
    to_signed (8 * Z.of_nat stl) (of_be_bytes (be_bytes stl (wrap (8 * Z.of_nat stl) x))) = x).
  { intros -> x Hx. by apply wave_elem_round. }
  assert (Hu : signed = false -> forall x, in_wave stl signed x -> id (of_be_bytes (be_bytes stl (wrap (8 * Z.of_nat stl) x))) = x).
  { intros -> x Hx. rewrite wrap_small by exact Hx. by apply of_be_bytes_round. }
  destruct st; simplify_eq/=; unfold ca_wave_value; rewrite Hr; try done; (by apply Hi) || (by apply Hu).
Qed.

(** The payload of an event with a time stamp. *)
Definition event_bytes (status severity secs nanos : Z) (padding val : list Z) : list Z :=
  be_bytes 2 status ++ be_bytes 2 severity ++ be_bytes 4 secs ++ be_bytes 4 nanos ++ padding ++ val.

(** An array event is read as it was written: for each of the array types,
    with its data type code and its padding, a payload of status, severity,
    seconds, nanoseconds, padding and the big-endian elements gives these
    numbers and the elements, up to the announced count and the limit set for
    arrays; and the time is that of the EPICS epoch in nanoseconds. *)
Theorem ca_wave_round (st : CaScalarType) (stl : nat) (signed : bool) (arr : list Z -> CaDataArrayValue)
    (hi : HeadInfo) (status severity secs nanos : Z) (padding xs : list Z) (trunc : nat) :
  wave_type st = Some (stl, signed, arr) ->
  CaDbrType_from_ca_u16 (hi_data_type hi) = Ok (mkCaDbrType MetaTime st) ->
  1 < hi_data_count hi <= 1024 * 3000 ->
  is_u16 status -> is_u16 severity -> is_u32 secs -> is_u32 nanos -> Forall (in_wave stl signed) xs ->
  length padding = ca_meta_padding MetaTime st ->
  extract_ca_data_value hi (event_bytes status severity secs nanos padding (wave_bytes stl (wrap (8 * Z.of_nat stl)) xs)) trunc =
    Ok (mkCaEventValue (CaArrayVal (arr (take (Z.to_nat (hi_data_count hi) `min` trunc) xs)))
          (MvTime (mkCaMetaTime status severity secs nanos))) /\
  CaEventValue_ts (mkCaEventValue (CaArrayVal (arr xs)) (MvTime (mkCaMetaTime status severity secs nanos))) =
    Some ((secs + 631152000) * 1000000000 + nanos).
Proof.
  intros Hw Hty Hn Hst Hse Hsc Hna Hxs Hpad. split.
  - set (val := wave_bytes _ _ _). unfold extract_ca_data_value. rewrite Hty. cbn [and_then dbr_meta dbr_scalar_type].
    unfold Shape_from_ca_count. rewrite !(proj2 (Z.eqb_neq _ _)), (proj2 (Z.leb_le _ _)) by lia. cbn [map_err and_then].
    set (p := event_bytes status severity secs nanos padding val).
    assert (Hlen : length p = (12 + length padding + length val)%nat).
    { subst p. unfold event_bytes. rewrite !length_app, !be_bytes_length. lia. }
    assert (Hmeta : ca_meta_value MetaTime p = Ok (MvTime (mkCaMetaTime status severity secs nanos), 12%nat)).
    { unfold ca_meta_value. rewrite !read_field_eq by lia. rewrite !(proj2 (Nat.leb_le _ _)) by lia. cbn [and_then Nat.sub].
      subst p. unfold event_bytes. fields. done. }
    rewrite Hmeta. cbn [and_then]. rewrite slice_ok by lia.
    rewrite <- Hpad. assert (Hv : take (length p - (12 + length padding)) (drop (12 + length padding) p) = val).
    { subst p. unfold event_bytes. rewrite !app_assoc.
      rewrite drop_app_length' by (rewrite !length_app, !be_bytes_length; lia).
      apply take_ge. rewrite !length_app, !be_bytes_length. lia. }
    rewrite Hv. cbn [and_then]. subst val. erewrite ca_wave_value_round by done. done.
  - unfold CaEventValue_ts. cbn [cev_meta cmt_ca_secs cmt_ca_nanos]. unfold EPICS_EPOCH_OFFSET, in_u in *.
    change TimeTypes.SEC with 1000000000.
    rewrite (u64_add_small secs) by lia. rewrite u64_mul_small by lia. rewrite u64_add_small by lia. f_equal. lia.
Qed.

Lemma ca_wave_round_witness :
  extract_ca_data_value (mkHeadInfo 1 20 15 3 1 5 false)
    (event_bytes 1 2 3 4 [0; 0] (wave_bytes 2 (wrap 16) [-1; 5; 300])) 2 =
  Ok (mkCaEventValue (CaArrayVal (ArI16 [-1; 5])) (MvTime (mkCaMetaTime 1 2 3 4))).
Proof.
  refine (proj1 (ca_wave_round StI16 2 true ArI16 (mkHeadInfo 1 20 15 3 1 5 false) 1 2 3 4 [0; 0] [-1; 5; 300] 2
    eq_refl eq_refl _ _ _ _ _ _ eq_refl)); try (unfold in_u; simpl; lia).
  repeat constructor; unfold in_wave, in_i; simpl; lia.
Defined.

(** ** Payloads that are too short *)

(** The value does not reach as far as its type needs: with a time stamp, the
    meta data and its padding; for the names of an enum, the counter of the
    names, then the whole table of 16 names. *)
Definition value_short (hi : HeadInfo) (p : list Z) : Prop :=
  match CaDbrType_from_ca_u16 (hi_data_type hi), Shape_from_ca_count (hi_data_count hi) with
  | Ok t, Ok _ =>
      match dbr_meta t with
      | MetaTime => (length p < 12 + ca_meta_padding MetaTime (dbr_scalar_type t))%nat
      | MetaCtrl => (length p < 6)%nat \/ num_at p 4 2 <= 16 /\ (length p < 422)%nat
      | _ => False
      end
  | _, _ => False
  end.

Lemma ca_scalar_value_no_panic st buf : ca_scalar_value st buf <> Panic.
Proof.
  destruct st; cbn [ca_scalar_value]; try done;
    unfold convert_scalar_value;
    match goal with |- context[(length buf <? ?n)%nat] => destruct (Nat.ltb_spec (length buf) n) end;
    (done || by rewrite read_uint_ok).
Qed.

Lemma ca_wave_value_no_panic st n buf : ca_wave_value st n buf <> Panic.
Proof.
  destruct st; cbn [ca_wave_value]; try done;
    match goal with |- context[convert_wave_value ?stl ?conv n buf] =>
      destruct (convert_wave_value_ok stl conv n buf ltac:(lia)) as (a & -> & _) end; done.
Qed.

Lemma from_ca_u16_no_panic k : CaDbrType_from_ca_u16 k <> Panic.
Proof. unfold CaDbrType_from_ca_u16. repeat case_match; done. Qed.

Lemma from_ca_u16_ctrl k t : CaDbrType_from_ca_u16 k = Ok t -> dbr_meta t = MetaCtrl -> dbr_scalar_type t = StEnum.
Proof.
  unfold CaDbrType_from_ca_u16. destruct (k =? 31); [by intros [= <-]|]. destruct (20 <? k); [done|].
  destruct (14 <=? k); [|destruct (7 <=? k)]; repeat case_match; simpl; intros; simplify_eq/=.
Qed.

Lemma ca_variants_ok p i n : (6 + 26 * (i + n) <= length p)%nat -> exists v, ca_variants p i n = Ok v.
Proof.
  revert i. induction n as [|n IH]; intros i Hl; [by eexists|]. cbn [ca_variants]. unfold ca_variant.
  rewrite slice_ok by lia. cbn [and_then]. destruct (IH (S i) ltac:(lia)) as [v ->]. by eexists.
Qed.

Lemma ca_variants_outcome p i n : (exists v, ca_variants p i n = Ok v) \/ ca_variants p i n = Panic.
Proof.
  revert i. induction n as [|n IH]; intros i; [by left; eexists|]. cbn [ca_variants]. unfold ca_variant, slice.
  case_bool_decide; [|by right]. cbn [and_then]. destruct (IH (S i)) as [[v ->]| ->]; [left; by eexists|by right].
Qed.

(** After the meta data only the cut of the value can panic. *)
Lemma extract_tail_panic hi t sh p trunc meta off :
  CaDbrType_from_ca_u16 (hi_data_type hi) = Ok t -> Shape_from_ca_count (hi_data_count hi) = Ok sh ->
  ca_meta_value (dbr_meta t) p = Ok (meta, off) ->
  extract_ca_data_value hi p trunc = Panic <-> (length p < off + ca_meta_padding (dbr_meta t) (dbr_scalar_type t))%nat.
Proof.
  intros Ht Hs Hm. unfold extract_ca_data_value. rewrite Ht, Hs. cbn [and_then map_err]. rewrite Hm. cbn [and_then].
  unfold slice. case_bool_decide; cbn [and_then]; [|split; [lia|done]]. split; [|lia].
  set (buf := take _ _). intros Hp. exfalso.
  destruct sh as [|n|a b]; cbn [and_then] in Hp; [| |done].
  - pose proof (ca_scalar_value_no_panic (dbr_scalar_type t) buf). by destruct (ca_scalar_value _ _).
  - pose proof (ca_wave_value_no_panic (dbr_scalar_type t) (Z.to_nat n `min` trunc) buf). by destruct (ca_wave_value _ _ _).
Qed.

Lemma extract_panics hi p trunc :
  Forall is_u8 p -> extract_ca_data_value hi p trunc = Panic <-> value_short hi p.
Proof.
  intros Hp8. unfold value_short. pose proof (from_ca_u16_no_panic (hi_data_type hi)).
  destruct (CaDbrType_from_ca_u16 (hi_data_type hi)) as [t|e|] eqn:Ht; [|unfold extract_ca_data_value; by rewrite Ht|done].
  destruct (Shape_from_ca_count (hi_data_count hi)) as [sh|e|] eqn:Hs;
    [|unfold extract_ca_data_value; by rewrite Ht, Hs|unfold Shape_from_ca_count in Hs; repeat case_match; done].
  assert (Hpanic : ca_meta_value (dbr_meta t) p = Panic -> extract_ca_data_value hi p trunc = Panic).
  { intros Hm. unfold extract_ca_data_value. rewrite Ht, Hs. cbn [and_then map_err]. by rewrite Hm. }
  assert (Herr : forall e, ca_meta_value (dbr_meta t) p = Err e -> extract_ca_data_value hi p trunc <> Panic).
  { intros e Hm. unfold extract_ca_data_value. rewrite Ht, Hs. cbn [and_then map_err]. by rewrite Hm. }
  pose proof (extract_tail_panic hi t sh p trunc) as Htail. specialize Htail with (1 := Ht) (2 := Hs).
  pose proof (from_ca_u16_ctrl _ _ Ht) as Hctrl.
  destruct (dbr_meta t) eqn:Hmeta.
  - split; [|done]. intros Hx. by apply (Herr CeMismatchDbrTimeType).
  - split; [|done]. intros Hx. by apply (Herr CeMismatchDbrTimeType).
  - unfold ca_meta_value in *. rewrite !read_field_eq in * by lia.
    destruct (Nat.leb_spec 12 (length p)) as [Hl|Hl].
    + rewrite !(proj2 (Nat.leb_le _ _)) in Htail by lia. by apply (Htail _ _ eq_refl).
    + split; [intros _; destruct (dbr_scalar_type t); simpl; lia|]. intros _. apply Hpanic.
      destruct (2 <=? length p)%nat, (4 <=? length p)%nat, (8 <=? length p)%nat; done.
  - rewrite (Hctrl eq_refl) in Htail. unfold ca_meta_value in *. rewrite !read_field_eq in * by lia.
    destruct (Nat.leb_spec 6 (length p)) as [Hl|Hl].
    2:{ split; [by left|]. intros _. apply Hpanic. destruct (2 <=? length p)%nat, (4 <=? length p)%nat; done. }
    rewrite !(proj2 (Nat.leb_le _ _)) in * by lia. cbn [and_then Nat.sub] in *.
    destruct (Z.ltb_spec 16 (num_at p 4 2)) as [Hv|Hv].
    { split; [intros Hx; by destruct (Herr _ eq_refl)|lia]. }
    destruct (ca_variants_outcome p 0 (Z.to_nat (num_at p 4 2))) as [[v Hvs]|Hvs]; rewrite Hvs in *; cbn [and_then] in *.
    + rewrite (Htail _ _ eq_refl). cbn [ca_meta_padding]. split; [intros; right; lia|intros [?|?]; lia].
    + split; [|by intros _; apply Hpanic]. intros _. right. split; [done|].
      destruct (Nat.ltb_spec (length p) 422); [done|].
      destruct (ca_variants_ok p 0 (Z.to_nat (num_at p 4 2))) as [v Hv2]; [lia|]. by rewrite Hv2 in Hvs.
Qed.

(** A message of the server makes the reader panic in exactly these cases,
    and in no other whatever its bytes are: an error message of 17 bytes, and an
    event or a read response whose payload is shorter than its data type needs
    (an event of less than 12 bytes is an error value or the end of a
    subscription instead). *)
Theorem ca_decode_panics `{CaEnv} (trunc : nat) (hi : HeadInfo) (p : list Z) :
  Forall is_u8 p ->
  ca_decode trunc hi p = Panic <->
    (hi_cmdid hi = 11 /\ length p = 17%nat) \/
    (hi_cmdid hi = 1 /\ (12 <= length p)%nat /\ value_short hi p) \/
    (hi_cmdid hi = 15 /\ value_short hi p).
Proof.
  intros Hp8. pose proof (extract_panics hi p trunc Hp8) as Hx. unfold ca_decode, CaMsgTy_from_proto_infos.
  destruct (Z.eqb_spec (hi_cmdid hi) 0); [split; [done|lia]|].
  destruct (Z.eqb_spec (hi_cmdid hi) 11) as [He|?].
  { rewrite slice_ok by lia. cbn [and_then]. destruct (Nat.leb_spec 17 (length p)); [|split; [done|lia]].
    unfold slice. case_bool_decide; cbn [and_then]; [split; [done|lia]|split; [lia|done]]. }
  destruct (Z.eqb_spec (hi_cmdid hi) 6).
  { destruct (Nat.ltb_spec (length p) 2); [split; [done|lia]|]. rewrite read_field_eq by lia.
    rewrite (proj2 (Nat.leb_le _ _)) by lia. split; [done|lia]. }
  destruct (Z.eqb_spec (hi_cmdid hi) 1) as [He|?].
  { destruct (Nat.ltb_spec (length p) 12); [destruct (length p =? 0)%nat; (split; [done|lia])|].
    rewrite <- Hx. destruct (extract_ca_data_value hi p trunc); cbn [and_then]; (split; [|intros [?|[?|?]]]); try done; try lia;
      try (by right; left); try (by destruct_and?). }
  destruct (Z.eqb_spec (hi_cmdid hi) 12); [destruct (negb _); (split; [done|lia])|].
  destruct (Z.eqb_spec (hi_cmdid hi) 15) as [He|?].
  { rewrite <- Hx. destruct (extract_ca_data_value hi p trunc); cbn [and_then]; (split; [|intros [?|[?|?]]]); try done; try lia;
      try (by right; right); try (by destruct_and?). }
  repeat (destruct (_ =? _)%Z; [split; [done|lia]|]). split; [done|lia].
Qed.

Lemma ca_decode_panics_witness :
  ca_decode (H := silent_env) 8 (mkHeadInfo 1 13 18 1 1 5 false) (replicate 13 0) = Panic.
Proof.
  apply (ca_decode_panics (H := silent_env) 8 (mkHeadInfo 1 13 18 1 1 5 false) (replicate 13 0)).
  - repeat constructor; lia.
  - right. left. split; [reflexivity|]. split; [simpl; lia|]. vm_compute. lia.
Defined.
