(* ===== verification/CaStreamProofs.v ===== *)
(** * The stream of channel access messages: proofs

    The stream delivers the messages that [ca_messages] cuts out of the bytes,
    however the bytes arrive, and sends the bytes of the queued messages in their
    order. *)
From Stdlib Require Import ZArith Lia.
From stdpp Require Import base numbers option strings list.
From S2P Require Import Prelude Items ByteBuf CaProto CaStream CaMessages.

#[local] Open Scope Z_scope.
#[local] Open Scope rust_scope.

(** ** The parser *)
Section Parser.
  Context `{NetBufLaws} `{CaEnv}.

(** The readers of the buffer in terms of [num_at]. *)
Lemma nb_u16_num b d i :
  nb_wf b -> nb_data b = drop i d -> (i + 2 <= length d)%nat ->
  nb_yields nb_wf b (nb_read_u16_be b) (num_at d i 2) (drop (i + 2) d).
Proof.
  intros Hwf Hd Hl. unfold num_at. rewrite <- (drop_drop d 2 i), <- Hd. apply nb_read_u16_spec; [done|].
  unfold nb_len. rewrite Hd, length_drop. lia.
Qed.

Lemma nb_u32_num b d i :
  nb_wf b -> nb_data b = drop i d -> (i + 4 <= length d)%nat ->
  nb_yields nb_wf b (nb_read_u32_be b) (num_at d i 4) (drop (i + 4) d).
Proof.
  intros Hwf Hd Hl. unfold num_at. rewrite <- (drop_drop d 4 i), <- Hd. apply nb_read_u32_spec; [done|].
  unfold nb_len. rewrite Hd, length_drop. lia.
Qed.

Lemma from_netbuf_spec b :
  nb_wf b -> (16 <= nb_len b)%nat ->
  nb_yields nb_wf b (HeadInfo_from_netbuf b) (head_of (nb_data b)) (drop 16 (nb_data b)).
Proof.
  intros Hwf Hl. unfold nb_len in Hl. set (d := nb_data b) in *. unfold HeadInfo_from_netbuf.
  apply (nb_bind_yields _ _ _ _ _ _ _ (nb_u16_num b d 0 Hwf eq_refl ltac:(lia))). intros b1 Hw1 Hd1.
  apply (nb_bind_yields _ _ _ _ _ _ _ (nb_u16_num b1 d _ Hw1 Hd1 ltac:(lia))). intros b2 Hw2 Hd2.
  apply (nb_bind_yields _ _ _ _ _ _ _ (nb_u16_num b2 d _ Hw2 Hd2 ltac:(lia))). intros b3 Hw3 Hd3.
  apply (nb_bind_yields _ _ _ _ _ _ _ (nb_u16_num b3 d _ Hw3 Hd3 ltac:(lia))). intros b4 Hw4 Hd4.
  apply (nb_bind_yields _ _ _ _ _ _ _ (nb_u32_num b4 d _ Hw4 Hd4 ltac:(lia))). intros b5 Hw5 Hd5.
  apply (nb_bind_yields _ _ _ _ _ _ _ (nb_u32_num b5 d _ Hw5 Hd5 ltac:(lia))). intros b6 Hw6 Hd6.
  cbn [Nat.add] in *. rewrite <- Hd6. by apply nb_ret_yields.
Qed.

(** [pre] are the bytes of the current message that the parser has taken. *)
Definition st_pre (st : CaState) (pre : list Z) : Prop :=
  match st with
  | StdHead => pre = []
  | ExtHead hi => length pre = 16%nat /\ hi = head_of pre /\ num_at pre 2 2 = 65535
  | CaPayload hi => ca_header pre = Some (hi, length pre) /\ (hi_is_ext hi = false -> hi_payload_size hi <> 0)
  | CaDone => False
  end.

(** What parsing leaves alone; a step of it does not touch the queue either. *)
Definition cp_io (s s' : CaProto) : Prop :=
  cp_tcp s' = cp_tcp s /\ cp_tcp_eof s' = cp_tcp_eof s /\ cp_out s' = cp_out s /\ cp_outbuf s' = cp_outbuf s /\
  cp_array_truncate s' = cp_array_truncate s.

Definition cp_same (s s' : CaProto) : Prop := cp_io s s' /\ cp_resqu s' = cp_resqu s.

(** Steps of the parser that the bytes allow, counted twice. *)
Definition pw (s : CaProto) : nat :=
  (2 * nb_len (cp_buf s) + match cp_state s with CaPayload _ => 2 | _ => 0 end)%nat.

Lemma pw_len s : (2 * nb_len (cp_buf s) <= pw s <= 2 * nb_len (cp_buf s) + 2)%nat.
Proof. unfold pw. destruct (cp_state s); lia. Qed.

(** The decoding of the message at the front of [b], whatever follows. *)
Definition front_decodes (s : CaProto) (b : list Z) (r : outcome ca_error CaMsgTy) (rest : list Z) : Prop :=
  exists hi p, (forall x, ca_split (b ++ x) = Some (hi, p, rest ++ x)) /\ ca_decode (cp_array_truncate s) hi p = r.

(** A step of the parser: it takes a part of the message, or the rest of it. *)
Definition parse_step_ok (s : CaProto) (pre : list Z) (s' : CaProto) (r : outcome ca_error (option CaItem)) : Prop :=
  let b := pre ++ nb_data (cp_buf s) in
  cp_same s s' /\ nb_wf (cp_buf s') /\ nb_cap (cp_buf s') = nb_cap (cp_buf s) /\
  match r with
  | Ok None => (pw s' + 2 <= pw s)%nat /\ exists pre', st_pre (cp_state s') pre' /\ b = pre' ++ nb_data (cp_buf s')
  | Ok (Some it) =>
      (pw s' + 2 <= pw s)%nat /\ cp_state s' = StdHead /\
      exists m, it = CaItemMsg m /\ front_decodes s b (Ok (cm_ty m)) (nb_data (cp_buf s'))
  | Err e => exists rest, front_decodes s b (Err e) rest
  | Panic => exists rest, front_decodes s b Panic rest
  end.

Lemma decode_outcome s hi d ts :
  match cp_from_proto_infos hi d ts s with
  | Ok m => ca_decode (cp_array_truncate s) hi d = Ok (cm_ty m)
  | Err e => ca_decode (cp_array_truncate s) hi d = Err e
  | Panic => ca_decode (cp_array_truncate s) hi d = Panic
  end.
Proof.
  unfold cp_from_proto_infos, CaMsg_from_proto_infos, ca_decode. by destruct (CaMsgTy_from_proto_infos _ _ _ _ _).
Qed.

Lemma parse_payload_ok hi pre ts s :
  cp_state s = CaPayload hi -> nb_wf (cp_buf s) -> st_pre (cp_state s) pre ->
  hi_payload_size hi <= Z.of_nat (nb_len (cp_buf s)) ->
  let '(s', r) := cp_parse_payload hi ts s in parse_step_ok s pre s' r.
Proof.
  intros Hst Hwf Hpre Hn. rewrite Hst in Hpre. destruct Hpre as [Hpre _]. unfold cp_parse_payload.
  destruct (nb_read_bytes_spec (cp_buf s) (Z.to_nat (hi_payload_size hi)) Hwf ltac:(lia)) as (b & -> & Hwf' & Hd & Hc).
  set (d := take (Z.to_nat (hi_payload_size hi)) (nb_data (cp_buf s))) in *.
  assert (Hld : length d = Z.to_nat (hi_payload_size hi)).
  { subst d. rewrite length_take. unfold nb_len in Hn. lia. }
  assert (Hfront : forall x, ca_split ((pre ++ nb_data (cp_buf s)) ++ x) = Some (hi, d, nb_data b ++ x)).
  { intros x. rewrite <- (take_drop (Z.to_nat (hi_payload_size hi)) (nb_data (cp_buf s))), <- Hd, <- !app_assoc.
    by apply ca_split_front with (h := length pre) (n := Z.to_nat (hi_payload_size hi)). }
  pose proof (decode_outcome (cp_set_buf b s) hi d ts) as Hdec. cbn [cp_array_truncate cp_set_buf] in Hdec.
  destruct (cp_from_proto_infos hi d ts (cp_set_buf b s)) as [m|e|].
  - assert (Hpw : (2 * nb_len b + 0 + 2 <= pw s)%nat).
    { unfold pw, nb_len. rewrite Hst, Hd, length_drop. lia. }
    destruct (cm_ty m) eqn:Hty; (split; [done|]); (split; [done|]); (split; [done|]); (split; [exact Hpw|]);
      (split; [done|]); exists m; (split; [done|]); rewrite Hty; by exists hi, d.
  - split; [done|]. split; [done|]. split; [done|]. exists (nb_data b). by exists hi, d.
  - split; [done|]. split; [done|]. split; [done|]. exists (nb_data b). by exists hi, d.
Qed.

Lemma parse_std_head_ok pre ts s :
  cp_state s = StdHead -> nb_wf (cp_buf s) -> st_pre (cp_state s) pre -> (16 <= nb_len (cp_buf s))%nat ->
  let '(s', r) := cp_parse_std_head ts s in parse_step_ok s pre s' r.
Proof.
  intros Hst Hwf Hpre Hn. rewrite Hst in Hpre. cbn [st_pre] in Hpre. subst pre. unfold cp_parse_std_head.
  destruct (from_netbuf_spec (cp_buf s) Hwf Hn) as (b & -> & Hwf' & Hd & Hc).
  set (d := nb_data (cp_buf s)) in *. set (hi := head_of d).
  assert (Hlen : length (take 16 d) = 16%nat) by (rewrite length_take; unfold nb_len in Hn; fold d in Hn; lia).
  assert (Hhead : head_of (take 16 d) = hi).
  { rewrite <- (app_nil_r (take 16 d)). apply head_of_front. exact Hn. }
  assert (Hsz : num_at (take 16 d) 2 2 = hi_payload_size hi) by (by rewrite <- Hhead).
  assert (Hcut : d = take 16 d ++ nb_data b) by (by rewrite Hd, take_drop).
  assert (Hpw : (2 * nb_len b + 4 <= pw s)%nat).
  { unfold pw, nb_len. rewrite Hd, length_drop. rewrite Hst. unfold nb_len in Hn. fold d in Hn |- *. lia. }
  cbv zeta. set (s1 := if 26 <? hi_cmdid hi then _ else _).
  assert (Hs1 : cp_same s s1 /\ cp_buf s1 = b) by (subst s1; by destruct (26 <? hi_cmdid hi)).
  clearbody s1. destruct Hs1 as [Hsame Hb].
  unfold parse_step_ok. destruct (Z.eqb_spec (hi_payload_size hi) 65535) as [Hext|Hext].
  - cbn [cp_buf cp_set_state cp_state pw st_pre]. rewrite Hb. split; [exact Hsame|]. split; [done|]. split; [done|].
    split; [unfold pw at 1; cbn [cp_state cp_buf cp_set_state cp_count]; rewrite Hb; lia|]. exists (take 16 d). rewrite Hlen, Hhead, Hsz. split; [done|].
    exact Hcut.
  - assert (Hhdr : ca_header (take 16 d) = Some (hi, 16%nat)).
    { unfold ca_header. rewrite Hlen, Hsz, Hhead. cbn [Nat.ltb Nat.leb]. by rewrite (proj2 (Z.eqb_neq _ _) Hext). }
    destruct (Z.eqb_spec (hi_payload_size hi) 0) as [H0'|H0'].
    + assert (Hfront : forall x, ca_split (([] ++ d) ++ x) = Some (hi, [], nb_data b ++ x)).
      { intros x. cbn [app]. rewrite Hcut, <- app_assoc. change (nb_data b ++ x) with ([] ++ nb_data b ++ x) at 1.
        apply ca_split_front with (h := 16%nat) (n := 0%nat); [done|done|by rewrite H0'|done]. }
      set (s2 := cp_set_state StdHead _).
      pose proof (decode_outcome s2 hi [] ts) as Hdec.
      assert (Ht : cp_array_truncate s2 = cp_array_truncate s) by apply Hsame. rewrite Ht in Hdec.
      destruct (cp_from_proto_infos hi [] ts s2) as [m|e|]; cbn [and_then];
        (split; [exact Hsame|]); subst s2; cbn [cp_buf cp_set_state cp_state cp_count]; rewrite Hb;
        (split; [done|]); (split; [done|]); [|by exists (nb_data b), hi, []..].
      split; [unfold pw at 1; cbn [cp_state cp_buf cp_set_state cp_count]; rewrite Hb; lia|].
      split; [done|]. exists m. split; [done|]. by exists hi, [].
    + cbn [cp_buf cp_set_state cp_state cp_count]. rewrite Hb. split; [exact Hsame|]. split; [done|]. split; [done|].
      split; [unfold pw at 1; cbn [cp_state cp_buf cp_set_state cp_count]; rewrite Hb; lia|].
      exists (take 16 d). cbn [st_pre]. rewrite Hlen. split; [done|]. exact Hcut.
Qed.

Lemma parse_ext_head_ok hi pre s :
  cp_state s = ExtHead hi -> nb_wf (cp_buf s) -> st_pre (cp_state s) pre -> (8 <= nb_len (cp_buf s))%nat ->
  let '(s', r) := cp_parse_ext_head hi s in parse_step_ok s pre s' r.
Proof.
  intros Hst Hwf Hpre Hn. rewrite Hst in Hpre. destruct Hpre as (Hl & Hhi & Hsz). unfold cp_parse_ext_head.
  set (d := nb_data (cp_buf s)) in *.
  assert (Hy : nb_yields nb_wf (cp_buf s)
    ((let* payload_size := nb_read_u32_be in let* data_count := nb_read_u32_be in
      fun buf => (buf, Ok (payload_size, data_count))) (cp_buf s)) (num_at d 0 4, num_at d 4 4) (drop 8 d)).
  { unfold nb_len in Hn. fold d in Hn.
    apply (nb_bind_yields _ _ _ _ _ _ _ (nb_u32_num (cp_buf s) d 0 Hwf eq_refl ltac:(lia))). intros b1 Hw1 Hd1.
    apply (nb_bind_yields _ _ _ _ _ _ _ (nb_u32_num b1 d _ Hw1 Hd1 ltac:(lia))). intros b2 Hw2 Hd2.
    cbn [Nat.add] in *. rewrite <- Hd2. by apply nb_ret_yields. }
  destruct Hy as (b & -> & Hwf' & Hd & Hc). cbv zeta.
  set (s1 := if num_at d 0 4 <=? 16368 then _ else _).
  assert (Hs1 : cp_same s s1 /\ cp_buf s1 = b).
  { subst s1. by destruct (num_at d 0 4 <=? 16368), (PAYLOAD_LEN_MAX <? num_at d 0 4). }
  clearbody s1. destruct Hs1 as [Hsame Hb]. unfold parse_step_ok. cbn [cp_buf cp_set_state cp_state]. rewrite Hb.
  split; [exact Hsame|]. split; [done|]. split; [done|].
  assert (Hln : length (take 8 d) = 8%nat) by (rewrite length_take; unfold nb_len in Hn; fold d in Hn; lia).
  split.
  { unfold pw, nb_len. cbn [cp_state cp_buf cp_set_state]. rewrite Hb, Hd, length_drop. rewrite Hst. unfold nb_len in Hn. fold d in Hn |- *. lia. }
  exists (pre ++ take 8 d). split.
  - cbn [st_pre]. split; [|done]. unfold ca_header. rewrite length_app, Hl, Hln. cbn [Nat.ltb Nat.leb Nat.add].
    rewrite num_at_app by lia. rewrite Hsz. cbn [Z.eqb]. rewrite Hhi, head_of_app by lia.
    rewrite (num_at_shift pre (take 8 d) 16 4 0), (num_at_shift pre (take 8 d) 20 4 4) by lia.
    rewrite <- (num_at_app (take 8 d) (drop 8 d) 0), <- (num_at_app (take 8 d) (drop 8 d) 4), take_drop by lia. done.
  - fold d. rewrite Hd, <- app_assoc. by rewrite take_drop.
Qed.

Lemma parse_item_ok pre ts s :
  nb_wf (cp_buf s) -> st_pre (cp_state s) pre -> CaState_need_min (cp_state s) <= Z.of_nat (nb_len (cp_buf s)) ->
  let '(s', r) := cp_parse_item ts s in parse_step_ok s pre s' r.
Proof.
  intros Hwf Hpre Hn. unfold cp_parse_item. destruct (cp_state s) eqn:Hst; cbn [CaState_need_min] in Hn.
  - apply parse_std_head_ok; rewrite ?Hst; [done..|lia].
  - apply parse_ext_head_ok; rewrite ?Hst; [done..|lia].
  - apply parse_payload_ok; rewrite ?Hst; done.
  - done.
Qed.

(** ** The loops *)

(** The messages among what the stream returns. *)
Definition item_out (r : outcome ca_error CaItem) : option (outcome ca_error CaMsgTy) :=
  match r with
  | Ok (CaItemMsg m) => Some (Ok (cm_ty m))
  | Ok CaItemEmpty => None
  | Err e => Some (Err e)
  | Panic => Some Panic
  end.

Definition outs (rs : list (outcome ca_error CaItem)) : list (outcome ca_error CaMsgTy) := omap item_out rs.

Lemma outs_app l k : outs (l ++ k) = outs l ++ outs k.
Proof. apply omap_app. Qed.

Definition queued (s : CaProto) : list (outcome ca_error CaMsgTy) := outs (Ok <$> cp_resqu s).

Lemma queued_push s m : queued (cp_set_resqu (cp_resqu s ++ [CaItemMsg m]) s) = queued s ++ [Ok (cm_ty m)].
Proof. unfold queued. cbn [cp_resqu cp_set_resqu]. by rewrite fmap_app, outs_app. Qed.

(** What the stream has yet to deliver when the bytes [x] follow. *)
Definition fut (s : CaProto) (pre x : list Z) : list (outcome ca_error CaMsgTy) :=
  queued s ++ ca_messages (cp_array_truncate s) (pre ++ nb_data (cp_buf s) ++ x).

(** A change that delivers nothing and loses nothing. *)
Definition keeps (s : CaProto) (pre : list Z) (s' : CaProto) (pre' : list Z) : Prop :=
  (forall x, fut s' pre' x = fut s pre x) /\
  (forall N x, ca_fits N (pre ++ nb_data (cp_buf s) ++ x) -> ca_fits N (pre' ++ nb_data (cp_buf s') ++ x)).

Lemma ca_keeps_refl s pre : keeps s pre s pre.
Proof. by split. Qed.

Lemma ca_keeps_trans s1 p1 s2 p2 s3 p3 : keeps s1 p1 s2 p2 -> keeps s2 p2 s3 p3 -> keeps s1 p1 s3 p3.
Proof. intros [F1 G1] [F2 G2]. split; [intros x; by rewrite F2|intros N x Hf; by apply G2, G1]. Qed.

Lemma front_messages s b r rest x :
  front_decodes s b r rest ->
  ca_messages (cp_array_truncate s) (b ++ x) =
    match r with Ok ty => Ok ty :: ca_messages (cp_array_truncate s) (rest ++ x) | r => [r] end.
Proof. intros (hi & p & Hs & Hd). rewrite ca_messages_eq, Hs, Hd. by destruct r. Qed.

Lemma ca_fits_front N b hi p rest : ca_fits N b -> ca_split b = Some (hi, p, rest) -> ca_fits N rest.
Proof.
  intros Hf Hs. destruct Hf as [b Hh|b hi' h Hh Hs'|b hi' p' rest' Hs' _ Hf].
  - unfold ca_split in Hs. by rewrite Hh in Hs.
  - by rewrite Hs in Hs'.
  - rewrite Hs in Hs'. by injection Hs' as -> -> ->.
Qed.

(** The measure of what the stream still has to do. *)
Definition work (s : CaProto) : nat :=
  (3 * rd_weight (tcp_rd (cp_tcp s)) + pw s + length (cp_resqu s))%nat.

(** The stream in the middle of reading. *)
Definition reading (s : CaProto) (pre : list Z) : Prop := nb_wf (cp_buf s) /\ st_pre (cp_state s) pre.

Lemma cp_io_trans s1 s2 s3 : cp_io s1 s2 -> cp_io s2 s3 -> cp_io s1 s3.
Proof. unfold cp_io. intros (-> & -> & -> & -> & ->) (-> & -> & -> & -> & ->). done. Qed.

(** A step of the parser and the push of its item. *)
Lemma parse_step_keeps s pre s' it :
  parse_step_ok s pre s' (Ok it) ->
  let s2 := match it with Some i => cp_set_resqu (cp_resqu s' ++ [i]) s' | None => s' end in
  cp_io s s2 /\ nb_cap (cp_buf s2) = nb_cap (cp_buf s) /\ (pw s2 + 2 <= pw s)%nat /\ (work s2 < work s)%nat /\
  exists pre', reading s2 pre' /\ keeps s pre s2 pre'.
Proof.
  intros ([Hio Hq] & Hwf & Hc & Hr). destruct it as [it|]; cbv zeta.
  - destruct Hr as (Hpw & Hst & m & -> & Hf). pose proof Hio as (Ht & _ & _ & _ & Htr).
    split; [done|]. split; [done|]. split; [done|]. split.
    { unfold work. change (pw (cp_set_resqu _ _)) with (pw s'). cbn [cp_tcp cp_resqu cp_set_resqu].
      rewrite Ht, length_app, Hq. cbn [length]. lia. }
    exists []. split; [split; [done|]; cbn; by rewrite Hst|]. split.
    + intros x. unfold fut. rewrite queued_push. cbn [app cp_array_truncate cp_buf cp_set_resqu].
      rewrite (app_assoc pre), (front_messages _ _ _ _ _ Hf), Htr, <- app_assoc. unfold queued. by rewrite Hq.
    + intros N x Hfit. rewrite app_assoc in Hfit. destruct Hf as (hi & p & Hs & _).
      exact (ca_fits_front _ _ _ _ _ Hfit (Hs x)).
  - destruct Hr as (Hpw & pre' & Hst & Hb). pose proof Hio as (Ht & _ & _ & _ & Htr).
    split; [done|]. split; [done|]. split; [done|]. split.
    { unfold work. rewrite Ht, Hq. lia. }
    exists pre'. split; [by split|]. split.
    + intros x. unfold fut, queued. by rewrite Hq, Htr, !app_assoc, Hb.
    + intros N x. by rewrite !app_assoc, Hb.
Qed.

Lemma parse_loop_ok fuel ts p s pre :
  reading s pre -> (pw s < 2 * fuel)%nat ->
  let '(s', r) := cp_parse_loop fuel ts p s in
  cp_io s s' /\ nb_wf (cp_buf s') /\ nb_cap (cp_buf s') = nb_cap (cp_buf s) /\
  match r with
  | Ok p' =>
      (nb_len (cp_buf s') <= nb_len (cp_buf s))%nat /\
      ((env_resqu_capacity <= length (cp_resqu s'))%nat \/ Z.of_nat (nb_len (cp_buf s')) < CaState_need_min (cp_state s')) /\
      (s' = s /\ p' = p \/ p' = true /\ (work s' < work s)%nat) /\
      exists pre', reading s' pre' /\ keeps s pre s' pre'
  | Err e => forall x, fut s pre x = queued s' ++ [Err e]
  | Panic => forall x, fut s pre x = queued s' ++ [Panic]
  end.
Proof.
  revert p s pre. induction fuel as [|fuel IH]; intros p s pre Hr Hf; [lia|]. cbn [cp_parse_loop].
  destruct (Nat.ltb_spec (length (cp_resqu s)) env_resqu_capacity) as [Hq|Hq].
  2:{ destruct Hr. split; [done|]. split; [done|]. split; [done|]. split; [done|]. split; [by left|]. split; [by left|].
      exists pre. split; [done|apply ca_keeps_refl]. }
  destruct (Z.leb_spec (CaState_need_min (cp_state s)) (Z.of_nat (nb_len (cp_buf s)))) as [Hn|Hn].
  2:{ destruct Hr. split; [done|]. split; [done|]. split; [done|]. split; [done|]. split; [by right|]. split; [by left|].
      exists pre. split; [done|apply ca_keeps_refl]. }
  pose proof (parse_item_ok pre ts s (proj1 Hr) (proj2 Hr) Hn) as Hstep.
  destruct (cp_parse_item ts s) as [s1 [it|e|]].
  - pose proof (parse_step_keeps s pre s1 it Hstep) as Hk. cbv zeta in Hk.
    set (s2 := match it with Some i => _ | None => _ end) in Hk.
    assert (Hgoal : (match it with
      | Some item => cp_parse_loop fuel ts true (cp_set_resqu (cp_resqu s1 ++ [item]) s1)
      | None => cp_parse_loop fuel ts true s1 end) = cp_parse_loop fuel ts true s2) by (subst s2; by destruct it).
    replace (match it with Some _ => _ | None => _ end) with (cp_parse_loop fuel ts true s2).
    clear Hgoal. destruct Hk as (Hio & Hc & Hpw & Hw & pre2 & Hr2 & Hk).
    specialize (IH true s2 pre2 Hr2 ltac:(lia)).
    destruct (cp_parse_loop fuel ts true s2) as [s3 r]. destruct IH as (Hio3 & Hwf3 & Hc3 & Hr3).
    split; [by apply (cp_io_trans s s2 s3)|]. split; [done|]. split; [by rewrite Hc3|].
    destruct r as [p'|e|].
    + destruct Hr3 as (Hle & Hend & Hp & pre3 & Hread & Hk3). split.
      { pose proof (pw_len s2). pose proof (pw_len s). lia. }
      split; [done|]. split.
      { right. destruct Hp as [[-> ->]|[-> ?]]; (split; [done|lia]). }
      exists pre3. split; [done|]. by apply (ca_keeps_trans s pre s2 pre2).
    + intros x. rewrite <- (proj1 Hk x). apply Hr3.
    + intros x. rewrite <- (proj1 Hk x). apply Hr3.
  - destruct Hstep as ([Hio Hqq] & Hwf & Hc & rest & Hfr). split; [done|]. split; [done|]. split; [done|].
    intros x. unfold fut, queued. by rewrite Hqq, app_assoc, (front_messages _ _ _ _ _ Hfr).
  - destruct Hstep as ([Hio Hqq] & Hwf & Hc & rest & Hfr). split; [done|]. split; [done|]. split; [done|].
    intros x. unfold fut, queued. by rewrite Hqq, app_assoc, (front_messages _ _ _ _ _ Hfr).
Qed.

(** *** Reading *)

Definition ev_data (e : rd_event) : list Z := match e with RdBytes x => x | _ => [] end.
Definition rd_bytes (rd : list rd_event) : list Z := concat (map ev_data rd).

(** Neither an error nor an end. *)
Definition rd_plain (e : rd_event) : Prop :=
  match e with RdBytes x => x <> [] | RdPending => True | _ => False end.

(** There is space for everything still to be read. *)
Definition roomy (need : nat) (s : CaProto) : Prop :=
  Forall rd_plain (tcp_rd (cp_tcp s)) /\ cp_tcp_eof s = false /\ (1 <= need)%nat /\
  (nb_len (cp_buf s) + length (rd_bytes (tcp_rd (cp_tcp s))) + need <= nb_cap (cp_buf s))%nat.

(** What reading leaves alone. *)
Definition cp_out_side (s s' : CaProto) : Prop :=
  cp_state s' = cp_state s /\ cp_out s' = cp_out s /\ cp_outbuf s' = cp_outbuf s /\ cp_resqu s' = cp_resqu s /\
  cp_array_truncate s' = cp_array_truncate s /\ tcp_wr (cp_tcp s') = tcp_wr (cp_tcp s) /\
  tcp_sent (cp_tcp s') = tcp_sent (cp_tcp s).

Lemma cp_out_side_trans s1 s2 s3 : cp_out_side s1 s2 -> cp_out_side s2 s3 -> cp_out_side s1 s3.
Proof.
  unfold cp_out_side. intros (-> & -> & -> & -> & -> & -> & ->) (-> & -> & -> & -> & -> & -> & ->). done.
Qed.

Abbreviation rd_of s := (tcp_rd (cp_tcp s)).

(** The reads by their effect: [x] is taken from the socket. *)
Lemma tcp_poll_read_ok n t :
  (1 <= n)%nat ->
  let '(t', r) := tcp_poll_read n t in
  tcp_wr t' = tcp_wr t /\ tcp_sent t' = tcp_sent t /\ (Forall rd_plain (tcp_rd t) -> Forall rd_plain (tcp_rd t')) /\
  match r with
  | Pending => rd_bytes (tcp_rd t') = rd_bytes (tcp_rd t) /\ (tcp_rd t = [] /\ tcp_rd t' = [] \/ (rd_weight (tcp_rd t') < rd_weight (tcp_rd t))%nat)
  | Ready (Ok x) =>
      (length x <= n)%nat /\ x ++ rd_bytes (tcp_rd t') = rd_bytes (tcp_rd t) /\
      (rd_weight (tcp_rd t') + length x <= rd_weight (tcp_rd t))%nat /\
      (x <> [] -> (rd_weight (tcp_rd t') < rd_weight (tcp_rd t))%nat) /\
      (x = [] -> ~ Forall rd_plain (tcp_rd t))
  | Ready (Err _) => ~ Forall rd_plain (tcp_rd t)
  | Ready Panic => False
  end.
Proof.
  intros Hn. unfold tcp_poll_read. destruct t as [rd wr sent]. cbn [tcp_rd tcp_wr tcp_sent].
  destruct rd as [|[x| | |] rd]; cbn [tcp_rd tcp_wr tcp_sent].
  - split; [done|]. split; [done|]. split; [done|]. split; [done|by left].
  - destruct (Nat.leb_spec (length x) n) as [Hl|Hl]; cbn [tcp_rd tcp_wr tcp_sent].
    + split; [done|]. split; [done|]. split; [by inversion 1|]. split; [done|]. split; [done|].
      change (rd_weight (RdBytes x :: rd)) with (S (length x) + rd_weight rd)%nat.
      split; [lia|]. split; [intros _; lia|]. intros -> Hp. by inversion Hp.
    + assert (Ht : length (take n x) = n) by (rewrite length_take; lia).
      change (rd_weight (RdBytes x :: rd)) with (S (length x) + rd_weight rd)%nat.
      change (rd_weight (RdBytes (drop n x) :: rd)) with (S (length (drop n x)) + rd_weight rd)%nat.
      rewrite length_drop, Ht. split; [done|]. split; [done|]. split.
      { intros Hp. inversion Hp; subst. constructor; [|done]. intros Hd. apply (f_equal length) in Hd.
        rewrite length_drop in Hd. cbn [length] in Hd. lia. }
      split; [lia|]. split; [|split; [lia|split; [intros _; lia|]]].
      * unfold rd_bytes. cbn [map concat ev_data]. by rewrite app_assoc, take_drop.
      * intros He. rewrite He in Ht. cbn [length] in Ht. lia.
  - split; [done|]. split; [done|]. split; [by inversion 1|]. split; [done|]. right. unfold rd_weight. simpl. lia.
  - split; [done|]. split; [done|]. split; [by inversion 1|]. by inversion 1.
  - split; [done|]. split; [done|]. split; [done|]. split; [cbn [length]; lia|]. split; [done|].
    split; [cbn [length]; lia|]. split; [done|]. intros _. by inversion 1.
Qed.

Definition read_weight (s : CaProto) : nat := (3 * rd_weight (rd_of s) + 2 * nb_len (cp_buf s))%nat.

(** What the loop of reads does to the stream: bytes move to the buffer, and it
    stops for a reason. *)
Definition read_post (need : nat) (p : bool) (s s' : CaProto) (r : outcome ca_error (bool * bool)) : Prop :=
  cp_out_side s s' /\ nb_wf (cp_buf s') /\ nb_cap (cp_buf s') = nb_cap (cp_buf s) /\
  match r with
  | Ok (pend, p') =>
      nb_data (cp_buf s') ++ rd_bytes (rd_of s') = nb_data (cp_buf s) ++ rd_bytes (rd_of s) /\
      (p' = p /\ nb_data (cp_buf s') = nb_data (cp_buf s) /\ (read_weight s' <= read_weight s)%nat /\
         (pend = true -> rd_of s = [] /\ rd_of s' = [] \/ (read_weight s' < read_weight s)%nat) \/
       p' = true /\ (read_weight s' < read_weight s)%nat) /\
      (pend = true -> cp_tcp_eof s' = cp_tcp_eof s /\ cp_tcp_eof s = false) /\
      (pend = false -> cp_tcp_eof s' = true /\ ~ roomy need s) /\
      (Forall rd_plain (rd_of s) -> Forall rd_plain (rd_of s'))
  | Err _ => ~ roomy need s
  | Panic => False
  end.

(** A read of [x] and then more reads. *)
Lemma read_post_more need p x s s2 s3 r :
  cp_out_side s s2 -> nb_cap (cp_buf s2) = nb_cap (cp_buf s) -> (Forall rd_plain (rd_of s) -> Forall rd_plain (rd_of s2)) ->
  nb_data (cp_buf s2) = nb_data (cp_buf s) ++ x -> x ++ rd_bytes (rd_of s2) = rd_bytes (rd_of s) ->
  cp_tcp_eof s2 = cp_tcp_eof s -> (read_weight s2 < read_weight s)%nat ->
  read_post need true s2 s3 r -> read_post need p s s3 r.
Proof.
  intros Hside Hcap Hplain Hd Hx Heof Hrw (Hs3 & Hwf3 & Hc3 & Hr3).
  assert (Hroom : roomy need s -> roomy need s2).
  { intros (R1 & R2 & R3 & R4). unfold roomy. rewrite Heof. split; [by apply Hplain|]. split; [done|]. split; [done|].
    rewrite Hcap. unfold nb_len in *. rewrite Hd. rewrite <- Hx in R4. rewrite length_app in *. lia. }
  split; [by apply (cp_out_side_trans s s2 s3)|]. split; [done|]. split; [by rewrite Hc3|].
  destruct r as [[pend p']|e|]; [|by intros Hro; apply Hr3, Hroom|done].
  destruct Hr3 as (Hd3 & Hp3 & He3 & Hf3 & Hpl3).
  split; [by rewrite Hd3, Hd, <- app_assoc, Hx|].
  split. { right. destruct Hp3 as [(-> & _ & Hle & _)|(-> & Hlt)]; (split; [done|lia]). }
  split; [intros Hp; destruct (He3 Hp) as [-> He]; by rewrite <- Heof|].
  split; [intros Hp; destruct (Hf3 Hp) as [? Hnr]; split; [done|]; intros Hro; by apply Hnr, Hroom|].
  intros Hpl. by apply Hpl3, Hplain.
Qed.

Lemma read_loop_ok fuel need p s :
  nb_wf (cp_buf s) -> (rd_weight (rd_of s) < fuel)%nat ->
  let '(s', r) := cp_read_loop fuel need p s in
  read_post need p s s' r.
Proof.
  revert p s. induction fuel as [|fuel IH]; intros p s Hwf Hf; [lia|]. cbn [cp_read_loop].
  destruct (cp_tcp_eof s) eqn:Heof.
  { split; [done|]. split; [done|]. split; [done|]. split; [done|]. split; [by left|]. split; [done|].
    split; [|done]. intros _. split; [done|]. intros (_ & He & _). congruence. }
  destruct (nb_available_writable_area need (cp_buf s)) as [b [area|e|]] eqn:Ha.
  2:{ destruct (nb_area_err _ _ _ _ Hwf Ha) as (Hw & Hd & Hc). split; [done|]. split; [done|]. split; [done|].
      intros (_ & _ & _ & Hr). destruct (nb_area_enough (cp_buf s) need Hwf ltac:(lia)) as (b' & ar & Ha').
      by rewrite Ha' in Ha. }
  2:{ exfalso. by apply (nb_area_no_panic (cp_buf s) need b Hwf). }
  destruct (nb_area_spec _ _ _ _ Hwf Ha) as (Hwb & Hdb & Hcb & Hneed & Hfit & Hfill).
  destruct (Nat.eqb_spec (length area) 0) as [Hz|Hz].
  { split; [done|]. split; [done|]. split; [done|]. intros (_ & _ & H1' & _). lia. }
  pose proof (tcp_poll_read_ok (length area) (cp_tcp s) ltac:(lia)) as Hread.
  change (cp_tcp (cp_set_buf b s)) with (cp_tcp s).
  destruct (tcp_poll_read (length area) (cp_tcp s)) as [t r]. destruct Hread as (Hwr & Hsent & Hplain & Hr).
  assert (Hside : cp_out_side s (cp_set_tcp t (cp_set_buf b s))) by (unfold cp_out_side; cbn; by rewrite Hwr, Hsent).
  destruct r as [[x|e|]|].
  - destruct Hr as (Hlx & Hx & Hw & Hw' & Hnil). destruct (Nat.eqb_spec (length x) 0) as [Hx0|Hx0].
    { destruct x; [|done]. cbn [app] in Hx. split; [exact Hside|]. split; [done|]. split; [done|].
      cbn [cp_set_eof cp_buf cp_tcp cp_set_tcp cp_set_buf cp_tcp_eof]. split; [by rewrite Hdb, Hx|].
      split. { left. split; [done|]. split; [done|]. unfold read_weight, nb_len.
        cbn [cp_set_eof cp_buf cp_tcp cp_set_tcp cp_set_buf]. rewrite Hdb. simpl in Hw. split; [lia|done]. }
      split; [done|]. split; [|done]. intros _. split; [done|]. intros (Hpl & _). by apply Hnil. }
    destruct (Hfill x Hlx) as (b2 & Hwadv & Hwf2 & Hd2 & Hc2).
    cbn [cp_set_tcp cp_set_buf cp_buf] in *. rewrite Hwadv. cbv zeta.
    set (s2 := cp_set_tcp_read_bytes _ _).
    assert (Hs2 : cp_buf s2 = b2 /\ cp_tcp s2 = t /\ cp_out_side s s2 /\ cp_tcp_eof s2 = cp_tcp_eof s) by done.
    clearbody s2. destruct Hs2 as (Hb2 & Ht2 & Hside2 & Heof2).
    assert (Hxn : x <> []) by (intros ->; done). specialize (Hw' Hxn).
    specialize (IH true s2). rewrite Hb2, Ht2 in IH. specialize (IH Hwf2 ltac:(lia)).
    assert (Hrw : (read_weight s2 < read_weight s)%nat).
    { unfold read_weight, nb_len. rewrite Hb2, Ht2, Hd2, length_app. unfold nb_len in *.
      assert (length x <> 0)%nat by done. lia. }
    destruct (cp_read_loop fuel need true s2) as [s3 r].
    apply (read_post_more need p x s s2 s3 r); rewrite ?Hb2, ?Ht2, ?Heof2; try done; by rewrite ?Hd2, ?Hc2, ?Hdb.
  - split; [exact Hside|]. split; [done|]. split; [done|]. intros (Hpl & _). by apply Hr.
  - done.
  - destruct Hr as (Hb & Hz'). split; [exact Hside|]. split; [done|]. split; [done|].
    cbn [cp_set_eof cp_buf cp_tcp cp_set_tcp cp_set_buf cp_tcp_eof]. split; [by rewrite Hdb, Hb|].
    split. { left. split; [done|]. split; [done|]. unfold read_weight, nb_len.
      cbn [cp_buf cp_tcp cp_set_tcp cp_set_buf]. rewrite Hdb.
      destruct Hz' as [[Hz1 Hz2]|Hlt]; [rewrite Hz1, Hz2; split; [lia|by left]|split; [lia|right; lia]]. }
    split; [done|]. split; [done|]. exact Hplain.
Qed.

(** *** Writing *)

Definition sendable (m : CaMsg) : Prop := CaMsgTy_sendable (cm_ty m) = true.

(** The bytes sent, those waiting, and those of the messages in the queue. *)
Definition out_stream (s : CaProto) : list Z :=
  tcp_sent (cp_tcp s) ++ nb_data (cp_outbuf s) ++ concat (map ca_wire (cp_out s)).

Definition out_ok (s : CaProto) : Prop := nb_wf (cp_outbuf s) /\ Forall sendable (cp_out s).

(** What writing leaves alone. *)
Definition cp_in_side (s s' : CaProto) : Prop :=
  cp_buf s' = cp_buf s /\ cp_resqu s' = cp_resqu s /\ cp_array_truncate s' = cp_array_truncate s /\
  rd_of s' = rd_of s /\ cp_tcp_eof s' = cp_tcp_eof s.

Lemma cp_in_side_trans s1 s2 s3 : cp_in_side s1 s2 -> cp_in_side s2 s3 -> cp_in_side s1 s3.
Proof. unfold cp_in_side. intros (-> & -> & -> & -> & ->) (-> & -> & -> & -> & ->). done. Qed.

(** A step of the output: messages are kept in their order. *)
Definition out_step (s s' : CaProto) : Prop :=
  out_ok s' /\ out_stream s' = out_stream s /\ cp_in_side s s' /\ cp_state s' = cp_state s.

Lemma out_step_refl s : out_ok s -> out_step s s.
Proof. by split. Qed.

Lemma out_step_trans s1 s2 s3 : out_step s1 s2 -> out_step s2 s3 -> out_step s1 s3.
Proof.
  intros (_ & Ho1 & Hi1 & Hs1) (Hok & Ho2 & Hi2 & Hs2). split; [done|]. split; [by rewrite Ho2|].
  split; [by apply (cp_in_side_trans s1 s2 s3)|by rewrite Hs2].
Qed.

Lemma place_out_ok fuel s :
  out_ok s -> let '(s', r) := cp_place_out fuel s in out_step s s' /\ r = Ok tt.
Proof.
  revert s. induction fuel as [|fuel IH]; intros s Hok; [by split; [apply out_step_refl|]|]. cbn [cp_place_out].
  unfold cp_out_msg_buf. destruct Hok as [Hwf Hall]. destruct (cp_out s) as [|m q] eqn:Hout.
  { split; [apply out_step_refl; split; [done|by rewrite Hout]|done]. }
  inversion Hall as [|? ? Hm Hq]; subst. destruct (place_payload_sendable (cm_ty m) Hm) as (_ & [dc Hdc] & _).
  destruct (place_sendable m dc Hm Hdc) as (Hlen & _ & Hput). rewrite Hlen, Nat2Z.id.
  set (n := length (ca_wire m)) in *.
  destruct (nb_available_writable_area n (cp_outbuf s)) as [b [area|e|]] eqn:Ha.
  - destruct (nb_area_spec _ _ _ _ Hwf Ha) as (Hwb & Hdb & Hcb & Hneed & _ & Hfill).
    rewrite Hlen, Nat2Z.id. fold n. rewrite (proj2 (Z.ltb_ge _ _)) by lia.
    rewrite Hput by (rewrite length_take; lia). cbn [cp_outbuf cp_set_outbuf].
    destruct (Hfill (ca_wire m) ltac:(lia)) as (b2 & Hwadv & Hwf2 & Hd2 & _). fold n in Hwadv. rewrite Hwadv.
    cbn [cp_out cp_set_outbuf]. rewrite Hout. cbn [tail].
    set (s2 := cp_count MtOutMsgPlaced _).
    assert (Hs2 : cp_outbuf s2 = b2 /\ cp_out s2 = q /\ cp_tcp s2 = cp_tcp s /\ cp_in_side s s2 /\ cp_state s2 = cp_state s)
      by done. clearbody s2. destruct Hs2 as (Hb2 & Hq2 & Ht2 & Hi2 & Hst2).
    assert (Hok2 : out_ok s2) by (split; [by rewrite Hb2|by rewrite Hq2]).
    specialize (IH s2 Hok2). destruct (cp_place_out fuel s2) as [s3 r]. destruct IH as [Hstep ->]. split; [|done].
    apply (out_step_trans s s2 s3); [|done]. split; [done|]. split; [|done].
    unfold out_stream. rewrite Ht2, Hb2, Hd2, Hq2, Hout. cbn [map concat]. by rewrite <- !app_assoc.
  - destruct (nb_area_err _ _ _ _ Hwf Ha) as (Hwb & Hdb & Hcb). split; [|done].
    split; [split; [done|]; cbn; by rewrite Hout|]. split; [|done]. unfold out_stream. cbn [cp_tcp cp_outbuf cp_out cp_set_outbuf].
    by rewrite Hdb.
  - by destruct (nb_area_no_panic (cp_outbuf s) n b Hwf).
Qed.

Lemma attempt_output_ok s :
  out_ok s -> nb_len (cp_outbuf s) <> 0%nat ->
  let '(s', r) := cp_attempt_output s in
  out_step s s' /\
  match r with
  | Ready (Ok n) => n <> 0%nat -> (nb_len (cp_outbuf s') < nb_len (cp_outbuf s))%nat
  | Ready Panic => False
  | _ => True
  end.
Proof.
  intros [Hwf Hall] Hne. unfold cp_attempt_output, tcp_poll_write.
  destruct (tcp_wr (cp_tcp s)) as [|[n| |] wr] eqn:Hwr; [done..| |done|done].
  set (k := (n `min` length (nb_data (cp_outbuf s)))%nat). cbn [cp_outbuf cp_set_tcp].
  destruct (nb_adv_spec (cp_outbuf s) k Hwf) as (b & -> & Hwb & Hdb & _); [unfold nb_len; lia|].
  split.
  - split; [by split|]. split; [|done]. unfold out_stream. cbn [cp_tcp cp_set_tcp cp_outbuf cp_set_outbuf cp_out cp_count tcp_sent].
    rewrite Hdb, <- app_assoc. by rewrite (app_assoc (take k _)), take_drop.
  - intros Hk. cbn [cp_outbuf cp_count cp_set_outbuf]. unfold nb_len in *. rewrite Hdb, length_drop. lia.
Qed.

Lemma write_out_ok fuel p s :
  out_ok s -> (nb_len (cp_outbuf s) < fuel)%nat ->
  let '(s', r) := cp_write_out fuel p s in out_step s s' /\ r <> Panic.
Proof.
  revert p s. induction fuel as [|fuel IH]; intros p s Hok Hf; [lia|]. cbn [cp_write_out].
  destruct (Nat.eqb_spec (nb_len (cp_outbuf s)) 0) as [Hz|Hz]; [by split; [apply out_step_refl|]|].
  pose proof (attempt_output_ok s Hok Hz) as Ha. destruct (cp_attempt_output s) as [s1 [[n|e|]|]].
  - destruct Ha as [Hs1 Hlt]. destruct (Nat.eqb_spec n 0) as [Hn|Hn]; [by split|]. specialize (Hlt Hn).
    specialize (IH true s1 (proj1 Hs1) ltac:(lia)). destruct (cp_write_out fuel true s1) as [s2 r].
    destruct IH as [Hs2 Hr]. split; [by apply (out_step_trans s s1 s2)|done].
  - by destruct Ha.
  - by destruct Ha.
  - by destruct Ha.
Qed.

(** A poll of the output: it may declare the stream done once the peer has
    closed, and it does not panic. *)
Lemma poll_outbound_ok s :
  out_ok s ->
  let '(s', r) := cp_poll_outbound s in
  out_ok s' /\ out_stream s' = out_stream s /\ cp_in_side s s' /\
  (cp_state s' = cp_state s \/ r = None /\ cp_state s' = CaDone /\ cp_tcp_eof s = true) /\
  match r with Some (Ready (Some Panic)) | Some (Ready None) => False | _ => True end.
Proof.
  intros Hok. unfold cp_poll_outbound. set (s0 := cp_count _ s).
  assert (Hs0 : out_step s s0) by done. clearbody s0.
  pose proof (place_out_ok (S (length (cp_out s0))) s0 (proj1 Hs0)) as Hp.
  destruct (cp_place_out _ s0) as [s1 r1]. destruct Hp as [Hs1 ->].
  pose proof (write_out_ok (S (nb_len (cp_outbuf s1))) false s1 (proj1 Hs1) ltac:(lia)) as Hw.
  destruct (cp_write_out _ _ s1) as [s2 r2]. destruct Hw as [Hs2 Hr2].
  destruct (out_step_trans _ _ _ (out_step_trans _ _ _ Hs0 Hs1) Hs2) as (Hok2 & Ho & Hi & Hst).
  destruct r2 as [[prog pend]|e|]; [|by split_and!; try left|done].
  destruct prog; [by split_and!; try left|]. destruct pend; [by split_and!; try left|].
  destruct (cp_tcp_eof s2) eqn:He; [|by split_and!; try left].
  split; [done|]. split; [done|]. split; [done|]. split; [|done]. right. destruct Hi as (_ & _ & _ & _ & He'). by rewrite <- He'.
Qed.

(** Nothing to write and the peer still there: nothing happens. *)
Lemma poll_outbound_idle s :
  cp_out s = [] -> nb_len (cp_outbuf s) = 0%nat -> cp_tcp_eof s = false ->
  exists m, cp_poll_outbound s = (cp_count m s, None).
Proof.
  intros Hout Hlen Heof. unfold cp_poll_outbound. cbn [cp_out cp_count]. rewrite Hout. cbn [length cp_place_out].
  unfold cp_out_msg_buf. cbn [cp_out cp_count]. rewrite Hout. cbn [cp_outbuf cp_count cp_write_out].
  rewrite Hlen. cbn [Nat.eqb cp_tcp_eof cp_count]. rewrite Heof. by eexists.
Qed.

(** *** The loop body *)

(** What the input leaves alone. *)
Definition in_step (s s' : CaProto) : Prop :=
  cp_out s' = cp_out s /\ cp_outbuf s' = cp_outbuf s /\ tcp_sent (cp_tcp s') = tcp_sent (cp_tcp s) /\
  cp_array_truncate s' = cp_array_truncate s /\ nb_wf (cp_buf s') /\ nb_cap (cp_buf s') = nb_cap (cp_buf s).

Abbreviation need_of s := (Z.to_nat (CaState_need_min (cp_state s))).
Abbreviation unread s := (rd_bytes (rd_of s)).

(** The stream before and after, with all the bytes of the socket, and [x] as
    what follows them. *)
Definition advances (s : CaProto) (pre : list Z) (s' : CaProto) (pre' : list Z) : Prop :=
  (forall x, fut s' pre' (unread s' ++ x) = fut s pre (unread s ++ x)) /\
  (forall N x, ca_fits N (pre ++ nb_data (cp_buf s) ++ unread s ++ x) ->
     ca_fits N (pre' ++ nb_data (cp_buf s') ++ unread s' ++ x)).

(** What a turn of the loop that ends well has done. *)
Definition turn_ok (p : bool) (s : CaProto) (pre : list Z) (s' : CaProto) (r : Poll unit) : Prop :=
  exists pre', reading s' pre' /\ advances s pre s' pre' /\
    (Forall rd_plain (rd_of s) -> Forall rd_plain (rd_of s')) /\
    (roomy (need_of s) s -> cp_tcp_eof s' = false) /\
    (nb_len (cp_buf s') + length (unread s') <= nb_len (cp_buf s) + length (unread s))%nat /\
    match r with
    | Ready _ => p = true \/ (work s' < work s)%nat
    | Pending =>
        p = false /\ (roomy (need_of s) s -> rd_of s = [] /\ rd_of s' = [] \/ (work s' < work s)%nat) /\
        cp_resqu s' = cp_resqu s /\
        ((env_resqu_capacity <= length (cp_resqu s'))%nat \/ Z.of_nat (nb_len (cp_buf s')) < CaState_need_min (cp_state s'))
    end.

Lemma reading_not_done s pre : reading s pre -> cp_state s <> CaDone.
Proof. intros [_ Hp] He. by rewrite He in Hp. Qed.

Lemma work_read s : work s = (read_weight s + match cp_state s with CaPayload _ => 2 | _ => 0 end + length (cp_resqu s))%nat.
Proof. unfold work, read_weight, pw. lia. Qed.

(** Reading does not change what is ahead. *)
Lemma read_advances s s1 pre :
  cp_out_side s s1 -> nb_wf (cp_buf s1) -> reading s pre ->
  nb_data (cp_buf s1) ++ unread s1 = nb_data (cp_buf s) ++ unread s ->
  reading s1 pre /\ advances s pre s1 pre.
Proof.
  intros (Hst & _ & _ & Hq & Ht & _ & _) Hwf [_ Hpre] Hd. split; [split; [done|by rewrite Hst]|]. split.
  - intros x. unfold fut, queued. by rewrite Hq, Ht, !(app_assoc (nb_data _)), Hd.
  - intros N x. by rewrite !(app_assoc (nb_data _)), Hd.
Qed.

Lemma loop_input_ok ts p q s pre :
  reading s pre ->
  let '(s', r) := cp_loop_input ts p q s in
  in_step s s' /\
  match r with
  | Ok r' => turn_ok p s pre s' r' \/
      cp_state s' = CaDone /\ ~ roomy (need_of s) s /\
      (exists rest, forall x, fut s pre (unread s ++ x) = queued s' ++ rest x)
  | Err e =>
      (forall x, fut s pre (unread s ++ x) = queued s' ++ [Err e]) \/
      ~ roomy (need_of s) s /\ (exists rest, forall x, fut s pre (unread s ++ x) = queued s' ++ rest x)
  | Panic => forall x, fut s pre (unread s ++ x) = queued s' ++ [Panic]
  end.
Proof.
  intros Hr. unfold cp_loop_input. destruct (Z.ltb_spec (Z.of_nat (nb_cap (cp_buf s))) (CaState_need_min (cp_state s))) as [Hcap|Hcap].
  { split; [split_and!; try done; apply Hr|]. right. split; [|by eexists (fun x => _)].
    intros (_ & _ & _ & Hro). lia. }
  pose proof (read_loop_ok (S (rd_weight (rd_of s))) (need_of s) p s (proj1 Hr) ltac:(lia)) as Hread.
  destruct (cp_read_loop _ _ _ s) as [s1 r1]. destruct Hread as (Hside & Hwf1 & Hc1 & Hread).
  pose proof Hside as (Hst1 & Hout1 & Hob1 & Hq1 & Ht1 & Hwr1 & Hse1).
  assert (Hq1' : queued s1 = queued s) by (unfold queued; by rewrite Hq1).
  destruct r1 as [[pend p1]|e|]; [|split; [by split_and!|]; right; split; [done|]; by rewrite Hq1'; eexists (fun x => _)|done].
  destruct Hread as (Hd1 & Hp1 & Hpt & Hpf & Hpl).
  destruct (read_advances s s1 pre Hside Hwf1 Hr Hd1) as [Hr1 [Ha1 Hb1]].
  pose proof (parse_loop_ok (2 * nb_len (cp_buf s1) + 2) ts p1 s1 pre Hr1) as Hparse.
  destruct (cp_parse_loop _ ts p1 s1) as [s2 r2].
  destruct Hparse as (Hio & Hwf2 & Hc2 & Hr2); [pose proof (pw_len s1); lia|].
  destruct Hio as (Htcp & Heof & Hout2 & Hob2 & Ht2).
  assert (Hin : in_step s s2) by (unfold in_step; rewrite Hout2, Hob2, Htcp, Ht2, Hc2; done).
  destruct r2 as [p2|e|]; [|by split; [|left; intros x; rewrite <- Ha1]|by split; [|intros x; rewrite <- Ha1]].
  destruct Hr2 as (Hlen2 & Hend & Hp2 & pre2 & Hr2 & Hk).
  assert (Hadv : advances s pre s2 pre2).
  { split.
    - intros x. rewrite <- Ha1, Htcp. apply (proj1 Hk).
    - intros N x Hf. rewrite Htcp. by apply (proj2 Hk), Hb1. }
  assert (Hpl2 : Forall rd_plain (rd_of s) -> Forall rd_plain (rd_of s2)) by (by rewrite Htcp).
  assert (Heof2 : roomy (need_of s) s -> cp_tcp_eof s2 = false).
  { intros Hro. rewrite Heof. destruct pend; [by destruct (Hpt eq_refl) as [-> ->]|]. by destruct (Hpf eq_refl). }
  assert (Hlen : (nb_len (cp_buf s2) + length (unread s2) <= nb_len (cp_buf s) + length (unread s))%nat).
  { apply (f_equal length) in Hd1. rewrite !length_app in Hd1. rewrite Htcp. unfold nb_len in *. lia. }
  assert (Hwork : p2 = true -> p = true \/ (work s2 < work s)%nat).
  { intros ->. pose proof (work_read s) as W. pose proof (work_read s1) as W1. rewrite Hst1, Hq1 in W1.
    destruct Hp2 as [[-> ->]|[_ Hlt]].
    - destruct Hp1 as [(-> & _)|[_ Hlt]]; [by left|right; lia].
    - destruct Hp1 as [(-> & _ & Hle & _)|[_ Hlt1]]; right; lia. }
  destruct p2; [split; [done|]; left; exists pre2; split_and!; try done; by apply Hwork|].
  assert (Hidle : p = false /\ s2 = s1 /\ (pend = true -> rd_of s = [] /\ rd_of s1 = [] \/ (read_weight s1 < read_weight s)%nat)).
  { destruct Hp2 as [[-> <-]|[? _]]; [|done]. destruct Hp1 as [(<- & _ & _ & Hz)|[? _]]; [|done]. done. }
  destruct Hidle as (-> & -> & Hz).
  assert (Hpend : turn_ok false s pre s1 Pending).
  { exists pre2. split_and!; try done. intros Hro. destruct pend; [|by destruct (Hpf eq_refl)].
    destruct (Hz eq_refl) as [?|Hlt]; [by left|right]. rewrite !work_read, Hst1, Hq1. lia. }
  destruct (q || pend)%bool eqn:Hqp; [split; [done|]; by left|].
  apply orb_false_elim in Hqp as [_ ->]. destruct (Hpf eq_refl) as [He Hnr]. rewrite He.
  split; [done|]. right. split; [done|]. split; [done|].
  change (queued (cp_set_state CaDone s1)) with (queued s1). rewrite Hq1'. by eexists (fun x => _).
Qed.

(** ** Any use of the stream *)

Definition oks (l : list (outcome ca_error CaMsgTy)) : list CaMsgTy :=
  omap (fun r => match r with Ok ty => Some ty | _ => None end) l.

Lemma oks_app l k : oks (l ++ k) = oks l ++ oks k.
Proof. apply omap_app. Qed.

(** What a stream that goes on has yet to deliver at most. *)
Definition ahead (s : CaProto) (l : list CaMsgTy) : Prop :=
  nb_wf (cp_buf s) /\
  ((exists pre, reading s pre /\ l = oks (fut s pre (unread s))) \/ (cp_state s = CaDone /\ l = oks (queued s))).

(** The stream can still be used, and what is ahead has not grown. *)
Definition onward (s : CaProto) (l : list CaMsgTy) : Prop :=
  exists l', ahead s l' /\ l' `prefix_of` l.

Lemma onward_trans s l l' : onward s l' -> l' `prefix_of` l -> onward s l.
Proof. intros (k & Hk & Hp) Hl. exists k. split; [done|]. by transitivity l'. Qed.

Lemma ahead_done s l : nb_wf (cp_buf s) -> oks (queued s) `prefix_of` l -> onward (cp_set_state CaDone s) l.
Proof. intros Hwf Hp. exists (oks (queued s)). split; [|done]. split; [done|]. by right. Qed.

Lemma queued_prefix (q : list (outcome ca_error CaMsgTy)) l r : l = q ++ r -> oks q `prefix_of` oks l.
Proof. intros ->. rewrite oks_app. by apply prefix_app_r. Qed.

(** The outcome of a turn, for what is delivered. *)
Definition turn_delivers (l : list CaMsgTy) (s' : CaProto) (r : outcome ca_error (Poll unit)) : Prop :=
  match r with Ok _ => onward s' l | Err _ => onward (cp_set_state CaDone s') l | Panic => True end.

Lemma loop_input_reading ts p q s pre :
  reading s pre ->
  let '(s', r) := cp_loop_input ts p q s in in_step s s' /\ turn_delivers (oks (fut s pre (unread s))) s' r.
Proof.
  intros Hr. pose proof (loop_input_ok ts p q s pre Hr) as Hl. destruct (cp_loop_input ts p q s) as [s' r].
  destruct Hl as [Hin Hl]. split; [done|].
  assert (Hnil : forall t, unread t = unread t ++ []) by (intros t; by rewrite app_nil_r).
  pose proof Hin as (_ & _ & _ & _ & Hwf & _).
  destruct r as [r'|e|]; cbn [turn_delivers]; [| |done].
  - destruct Hl as [(pre' & Hr' & [Hadv _] & _)|(Hd & _ & rest & Hf)].
    + exists (oks (fut s' pre' (unread s'))). split; [split; [done|]; left; eauto|].
      rewrite (Hnil s'), (Hnil s), Hadv. done.
    + exists (oks (queued s')). split; [split; [done|]; by right|]. rewrite (Hnil s). by apply queued_prefix with (rest []).
  - apply ahead_done; [done|]. rewrite (Hnil s). destruct Hl as [Hf|(_ & rest & Hf)]; by eapply queued_prefix.
Qed.

(** The stream is done and the peer has closed. *)
Lemma loop_input_done ts s :
  nb_wf (cp_buf s) -> cp_state s = CaDone -> cp_tcp_eof s = true ->
  let '(s', r) := cp_loop_input ts false false s in in_step s s' /\ turn_delivers (oks (queued s)) s' r.
Proof.
  intros Hwf Hst He. unfold cp_loop_input. rewrite Hst. cbn [CaState_need_min].
  destruct (_ <? 123); [split; [done|]; by apply ahead_done|].
  cbn [cp_read_loop]. rewrite He. replace (2 * nb_len (cp_buf s) + 2)%nat with (S (2 * nb_len (cp_buf s) + 1)) by lia.
  cbn [cp_parse_loop]. rewrite Hst. cbn [CaState_need_min].
  destruct (_ <? _)%nat; [destruct (_ <=? _)|];
    try (unfold cp_parse_item; rewrite Hst; split; [done|]; by apply ahead_done);
    cbn [orb]; rewrite He; (split; [done|]); by apply ahead_done.
Qed.

Lemma in_step_out s s' : in_step s s' -> out_ok s -> out_ok s' /\ out_stream s' = out_stream s.
Proof. unfold out_ok, out_stream. intros (-> & -> & -> & _) Hok. done. Qed.

Lemma input_delivers s s1 ts p q l :
  out_ok s1 -> out_stream s1 = out_stream s ->
  (let '(s', r) := cp_loop_input ts p q s1 in in_step s1 s' /\ turn_delivers l s' r) ->
  let '(s', r) := cp_loop_input ts p q s1 in out_ok s' /\ out_stream s' = out_stream s /\ turn_delivers l s' r.
Proof.
  intros Hok Hos. destruct (cp_loop_input ts p q s1) as [s' r]. intros [Hin Ht].
  destruct (in_step_out _ _ Hin Hok) as [Hok' Hos']. split; [done|]. split; [by rewrite Hos'|done].
Qed.

Lemma loop_body_delivers s pre :
  out_ok s -> reading s pre ->
  let '(s', r) := cp_loop_body s in
  out_ok s' /\ out_stream s' = out_stream s /\ turn_delivers (oks (fut s pre (unread s))) s' r.
Proof.
  intros Hok Hr. unfold cp_loop_body. set (s0 := cp_set_clock _ s).
  pose proof (poll_outbound_ok s0 Hok) as Ho. destruct (cp_poll_outbound s0) as [s1 r1].
  destruct Ho as (Hok1 & Hos & (Hb & Hq & Ht & Hrd & He) & Hst & Hr1).
  change (cp_buf s0) with (cp_buf s) in Hb. change (cp_resqu s0) with (cp_resqu s) in Hq.
  change (rd_of s0) with (rd_of s) in Hrd. change (cp_state s0) with (cp_state s) in Hst.
  change (cp_array_truncate s0) with (cp_array_truncate s) in Ht. change (cp_tcp_eof s0) with (cp_tcp_eof s) in *.
  assert (Hfut : forall x, fut s1 pre x = fut s pre x) by (intros x; unfold fut, queued; by rewrite Hq, Hb, Ht).
  assert (Hq1 : queued s1 = queued s) by (unfold queued; by rewrite Hq).
  assert (Hsame : forall p q, cp_state s1 = cp_state s ->
    let '(s', r) := cp_loop_input (env_now (cp_clock s)) p q s1 in
    out_ok s' /\ out_stream s' = out_stream s /\ turn_delivers (oks (fut s pre (unread s))) s' r).
  { intros p q Hs1. apply input_delivers; [done|done|]. rewrite <- Hfut, <- Hrd. apply loop_input_reading.
    split; [rewrite Hb|rewrite Hs1]; apply Hr. }
  destruct Hst as [Hst|(-> & Hst & Heof)].
  - destruct r1 as [[[[u|e|]|]|]|]; try done; try (by apply Hsame).
    split; [done|]. split; [done|]. apply ahead_done; [rewrite Hb; apply Hr|]. rewrite Hq1. by eapply queued_prefix.
  - apply input_delivers; [done|done|].
    pose proof (loop_input_done (env_now (cp_clock s)) s1) as Hd. rewrite Hb, Hst, He in Hd. specialize (Hd (proj1 Hr) eq_refl Heof).
    destruct (cp_loop_input _ false false s1) as [s' r]. destruct Hd as [Hin Hd]. split; [done|]. rewrite Hq1 in Hd.
    assert (Hp : oks (queued s) `prefix_of` oks (fut s pre (unread s))) by (by eapply queued_prefix).
    destruct r; [by eapply onward_trans..|done].
Qed.

(** What a poll delivers comes off what was ahead. *)
Definition poll_delivers (l : list CaMsgTy) (s' : CaProto) (o : ca_out) : Prop :=
  match o with
  | CaOut (Ready (Some r)) => exists l', onward s' l' /\ oks (outs [r]) ++ l' `prefix_of` l
  | CaOut _ => onward s' l
  | _ => True
  end.

Lemma poll_next_delivers fuel s l :
  out_ok s -> onward s l ->
  let '(s', o) := cp_poll_next fuel s in
  out_ok s' /\ out_stream s' = out_stream s /\ poll_delivers l s' o.
Proof.
  revert s. induction fuel as [|fuel IH]; intros s Hok Hon; [done|]. cbn [cp_poll_next].
  destruct Hon as (k & [Hwf Hah] & Hkl). destruct (cp_resqu s) as [|item q] eqn:Hq.
  - destruct (cp_state s) eqn:Hst; destruct Hah as [(pre & Hr & ->)|[Hd ->]]; try discriminate Hd;
      try (by apply reading_not_done in Hr; rewrite Hst in Hr).
    4:{ split; [done|]. split; [done|]. exists (oks (queued s)). split; [|done]. split; [done|]. by right. }
    all: pose proof (loop_body_delivers s pre Hok Hr) as Hl; destruct (cp_loop_body s) as [s1 r1];
      destruct Hl as (Hok1 & Hos1 & Hd1); destruct r1 as [[u|]|e|]; cbn [turn_delivers] in Hd1.
    all: try (specialize (IH s1 Hok1 (onward_trans _ _ _ Hd1 Hkl)); destruct (cp_poll_next fuel s1);
      rewrite Hos1 in IH; exact IH).
    all: try (split; [done|]; split; [done|]; cbn [poll_delivers]; try done; by eapply onward_trans).
    all: split; [done|]; split; [done|]; eexists; split; [exact Hd1|]; exact Hkl.
  - split; [done|]. split; [done|]. cbn [poll_delivers].
    assert (Hqq : queued s = outs [Ok item] ++ queued (cp_set_resqu q s)).
    { unfold queued. rewrite Hq. exact (outs_app [Ok item] (Ok <$> q)). }
    destruct Hah as [(pre & Hr & ->)|[Hd ->]].
    + exists (oks (fut (cp_set_resqu q s) pre (unread s))). split.
      { exists (oks (fut (cp_set_resqu q s) pre (unread s))). split; [|done]. split; [done|]. left. by exists pre. }
      unfold fut in *. rewrite Hqq, <- app_assoc, oks_app in Hkl. exact Hkl.
    + exists (oks (queued (cp_set_resqu q s))). split.
      { exists (oks (queued (cp_set_resqu q s))). split; [|done]. split; [done|]. by right. }
      rewrite Hqq, oks_app in Hkl. exact Hkl.
Qed.

Definition pushed (ops : list (CaMsg + nat)) : list CaMsg := omap (fun op => match op with inl m => Some m | _ => None end) ops.

Lemma push_out_stream m s :
  sendable m -> out_ok s -> out_ok (cp_push_out m s) /\ out_stream (cp_push_out m s) = out_stream s ++ ca_wire m.
Proof.
  intros Hm [Hwf Hall]. split.
  - split; [done|]. cbn [cp_out cp_push_out cp_set_out]. apply Forall_app. by split; [|apply Forall_singleton].
  - unfold out_stream. cbn [cp_out cp_outbuf cp_tcp cp_push_out cp_set_out]. rewrite map_app, concat_app. cbn [map concat].
    by rewrite app_nil_r, !app_assoc.
Qed.

Lemma run_delivers ops s l :
  Forall sendable (pushed ops) -> out_ok s -> onward s l ->
  let '(s', rs) := cp_run ops s in
  oks (outs rs) `prefix_of` l /\
  (exists later, out_stream s' ++ concat (map ca_wire later) = out_stream s ++ concat (map ca_wire (pushed ops))).
Proof.
  revert s l. induction ops as [|op ops IH]; intros s l Hs Hok Hon.
  { split; [apply prefix_nil|]. by exists []. }
  destruct op as [m|fuel]; cbn [cp_run].
  - inversion Hs as [|? ? Hm Hs']; subst. destruct (push_out_stream m s Hm Hok) as [Hok' Hos'].
    specialize (IH (cp_push_out m s) l Hs' Hok'). destruct (cp_run ops (cp_push_out m s)) as [s' rs].
    destruct IH as [Hp (later & Hl)]; [by destruct Hon as (k & Hk & ?); exists k|]. split; [done|]. exists later. rewrite Hl, Hos'.
    cbn [pushed omap list_omap map concat]. by rewrite <- app_assoc.
  - pose proof (poll_next_delivers fuel s l Hok Hon) as Hp. destruct (cp_poll_next fuel s) as [s1 o].
    destruct Hp as (Hok1 & Hos1 & Hd). change (pushed (inr fuel :: ops)) with (pushed ops) in *.
    assert (Hstop : forall k, oks (outs k) = [] -> oks (outs k) `prefix_of` l /\
      exists later, out_stream s1 ++ concat (map ca_wire later) = out_stream s ++ concat (map ca_wire (pushed ops))).
    { intros k ->. split; [apply prefix_nil|]. exists (pushed ops). by rewrite Hos1. }
    destruct o as [| |[[r|]|]]; cbn [poll_delivers] in Hd; try (by apply Hstop).
    + destruct Hd as (l' & Hon' & Hpre). specialize (IH s1 l' Hs Hok1 Hon'). destruct (cp_run ops s1) as [s2 rs].
      destruct IH as [Hp (later & Hl)]. rewrite Hos1 in Hl. split; [|by exists later].
      change (r :: rs) with ([r] ++ rs). rewrite outs_app, oks_app. transitivity (oks (outs [r]) ++ l'); [|done]. by apply prefix_app.
    + specialize (IH s1 l Hs Hok1 Hd). destruct (cp_run ops s1) as [s2 rs]. by rewrite Hos1 in IH.
    + specialize (IH s1 l Hs Hok1 Hd). destruct (cp_run ops s1) as [s2 rs]. by rewrite Hos1 in IH.
Qed.

(** ** Everything is delivered *)

(** No output is under way, and the peer is there. *)
Definition quiet (s : CaProto) : Prop :=
  cp_out s = [] /\ nb_len (cp_outbuf s) = 0%nat /\ cp_tcp_eof s = false.

(** The bytes at hand do not complete what is awaited. *)
Definition incomplete (s : CaProto) : Prop := Z.of_nat (nb_len (cp_buf s)) < CaState_need_min (cp_state s).

(** The stream reads, what it can read fits in the buffer beside a part of a
    message of [N] bytes, and all messages in its bytes and in [x], which come
    after, are good. *)
Definition on_track (N : nat) (s : CaProto) (pre x : list Z) : Prop :=
  reading s pre /\ quiet s /\ Forall rd_plain (rd_of s) /\ (16 <= N)%nat /\
  (nb_len (cp_buf s) + length (unread s) + N <= nb_cap (cp_buf s))%nat /\
  ca_fits (Z.of_nat N) (pre ++ nb_data (cp_buf s) ++ unread s ++ x) /\
  Forall is_ok (fut s pre (unread s ++ x)).

Lemma fits_header N b hi h : ca_fits N b -> ca_header b = Some (hi, h) -> hi_fits N hi.
Proof.
  intros Hf Hh. destruct Hf as [b Hh'|b hi' h' Hh' _ Hf|b hi' p rest Hs Hf _].
  - by rewrite Hh in Hh'.
  - rewrite Hh in Hh'. by injection Hh' as <- <-.
  - unfold ca_split in Hs. rewrite Hh in Hs. destruct (_ <? _)%nat; [done|]. by injection Hs as <- _ _.
Qed.

Lemma fits_need N st pre x :
  (16 <= N)%nat -> st_pre st pre -> ca_fits (Z.of_nat N) (pre ++ x) -> 1 <= CaState_need_min st <= Z.of_nat N.
Proof.
  intros HN Hp Hf. destruct st as [|hi|hi|]; cbn [st_pre CaState_need_min] in *; [lia|lia| |done].
  destruct Hp as [Hh Hne]. destruct (fits_header _ _ _ _ Hf (ca_header_app _ x _ _ Hh)) as [Hb He].
  destruct (hi_is_ext hi); [specialize (He eq_refl)|specialize (Hne eq_refl)]; lia.
Qed.

Lemma loop_body_quiet s :
  quiet s ->
  exists s0, cp_loop_body s = cp_loop_input (env_now (cp_clock s)) false false s0 /\
    cp_in_side s s0 /\ cp_state s0 = cp_state s /\ quiet s0.
Proof.
  intros (Ho & Hb & He). unfold cp_loop_body.
  destruct (poll_outbound_idle (cp_set_clock (S (cp_clock s)) s) Ho Hb He) as [m ->].
  by eexists.
Qed.

(** A turn of a stream on track delivers nothing, loses nothing, and works; it
    is pending only when all it has is a part of a message. *)
Lemma loop_body_on_track N s pre x :
  on_track N s pre x -> cp_resqu s = [] -> (0 < env_resqu_capacity)%nat ->
  exists s' r pre', cp_loop_body s = (s', Ok r) /\ on_track N s' pre' x /\
    fut s' pre' (unread s' ++ x) = fut s pre (unread s ++ x) /\ nb_cap (cp_buf s') = nb_cap (cp_buf s) /\
    match r with
    | Ready _ => (work s' < work s)%nat
    | Pending => (rd_of s = [] /\ rd_of s' = [] \/ (work s' < work s)%nat) /\
        cp_resqu s' = [] /\ incomplete s'
    end.
Proof.
  intros (Hr & Hqt & Hpl & HN & Hsp & Hfit & Hok) Hq Hcap.
  destruct (loop_body_quiet s Hqt) as (s0 & -> & (Hb0 & Hq0 & Ht0 & Hrd0 & He0) & Hst0 & Hqt0).
  assert (Hf0 : forall y, fut s0 pre y = fut s pre y) by (intros y; unfold fut, queued; by rewrite Hq0, Hb0, Ht0).
  assert (Hr0 : reading s0 pre) by (split; [rewrite Hb0|rewrite Hst0]; apply Hr).
  assert (Hw0 : work s0 = work s) by (unfold work, pw, nb_len; by rewrite Hrd0, Hb0, Hst0, Hq0).
  pose proof (fits_need N (cp_state s) pre _ HN (proj2 Hr) Hfit) as Hneed.
  assert (Hro : roomy (need_of s0) s0).
  { unfold roomy. rewrite Hrd0, Hst0, Hb0, He0. split; [done|]. split; [apply Hqt|]. split; [lia|].
    assert (Z.to_nat (CaState_need_min (cp_state s)) <= N)%nat by lia. lia. }
  pose proof (loop_input_ok (env_now (cp_clock s)) false false s0 pre Hr0) as Hl.
  destruct (cp_loop_input _ false false s0) as [s1 r]. destruct Hl as [(Hout & Hob & _ & Htr & Hwf & Hc) Hl].
  assert (Hgood : forall r', ~ (exists q, fut s pre (unread s ++ x) = q ++ [r'] /\ ~ is_ok r')).
  { intros r' (q & Hq' & Hn). rewrite Hq' in Hok. apply Forall_app in Hok as [_ Hok]. by inversion Hok. }
  assert (Hun : unread s0 = unread s) by (by rewrite Hrd0).
  destruct r as [r|e|].
  - destruct Hl as [(pre' & Hr' & [Hadv Hfit'] & Hpl' & He' & Hlen & Hrr)|(_ & Hnr & _)]; [|done].
    assert (Hfut : fut s1 pre' (unread s1 ++ x) = fut s pre (unread s ++ x)) by (rewrite Hadv, Hf0; by rewrite Hrd0).
    exists s1, r, pre'. split; [done|]. split; [|split; [done|split; [by rewrite Hc, Hb0|]]].
    + split; [done|]. split; [destruct Hqt0 as (? & ? & _); split_and!; [by rewrite Hout|by rewrite Hob|by apply He']|].
      split; [apply Hpl'; by rewrite Hrd0|]. split; [done|]. split; [|split].
      * rewrite Hc, Hb0. rewrite Hb0, Hrd0 in Hlen. lia.
      * apply Hfit'. by rewrite Hb0, Hrd0.
      * by rewrite Hfut.
    + destruct r as [u|].
      * destruct Hrr as [?|Hlt]; [done|]. by rewrite Hw0 in Hlt.
      * destruct Hrr as (_ & Hz & Hq1 & Hend). specialize (Hz Hro). rewrite Hrd0, Hw0 in Hz. split; [done|].
        assert (Hq1' : cp_resqu s1 = []) by (by rewrite Hq1, Hq0). split; [done|]. rewrite Hq1' in Hend. cbn [length] in Hend.
        unfold incomplete. destruct Hend as [Hend|Hend]; [lia|done].
  - exfalso. destruct Hl as [Hl|[Hnr _]]; [|done]. apply (Hgood (Err e)). exists (queued s1). rewrite <- (Hl x), Hf0, Hrd0.
    split; [done|]. by intros [a ?].
  - exfalso. apply (Hgood Panic). exists (queued s1). rewrite <- (Hl x), Hf0, Hrd0. split; [done|]. by intros [a ?].
Qed.

Lemma poll_next_on_track N fuel s pre x :
  on_track N s pre x -> (0 < env_resqu_capacity)%nat -> (work s < fuel)%nat ->
  exists s' o pre', cp_poll_next fuel s = (s', CaOut o) /\ on_track N s' pre' x /\ nb_cap (cp_buf s') = nb_cap (cp_buf s) /\
    match o with
    | Ready (Some r) => outs [r] ++ fut s' pre' (unread s' ++ x) = fut s pre (unread s ++ x) /\ (work s' < work s)%nat
    | Ready None => False
    | Pending => fut s' pre' (unread s' ++ x) = fut s pre (unread s ++ x) /\
        ((work s' < work s)%nat \/ rd_of s' = []) /\ cp_resqu s' = [] /\ incomplete s'
    end.
Proof.
  intros Ht Hcap. revert s pre Ht. induction fuel as [|fuel IH]; intros s pre Ht Hf; [lia|]. cbn [cp_poll_next].
  destruct (cp_resqu s) as [|item q] eqn:Hq.
  - destruct (loop_body_on_track N s pre x Ht Hq Hcap) as (s1 & r & pre1 & Hl & Ht1 & Hfut & Hc & Hr).
    assert (Hnd : cp_state s <> CaDone) by (eapply reading_not_done; apply Ht).
    replace (match cp_state s with CaDone => _ | _ => _ end) with
      (match r with Ready _ => cp_poll_next fuel s1 | Pending => (s1, CaOut Pending) end)
      by (by destruct (cp_state s); rewrite ?Hl; destruct r).
    destruct r as [u|].
    + destruct (IH s1 pre1 Ht1 ltac:(lia)) as (s2 & o & pre2 & -> & Ht2 & Hc2 & Ho). exists s2, o, pre2.
      split; [done|]. split; [done|]. split; [by rewrite Hc2|]. rewrite Hfut in Ho.
      destruct o as [[r|]|]; [destruct Ho as [Ho Hw]; split; [done|lia]|done|].
      destruct Ho as (Ho & Hw & ?). split; [done|]. split; [|done]. destruct Hw as [Hw|]; [left; lia|by right].
    + exists s1, Pending, pre1. split; [done|]. split; [done|]. split; [done|]. split; [done|].
      destruct Hr as (Hz & ? & ?). split; [|done]. destruct Hz as [[_ ?]|?]; [by right|by left].
  - exists (cp_set_resqu q s), (Ready (Some (Ok item))), pre. split; [done|].
    assert (Hqq : fut s pre (unread s ++ x) = outs [Ok item] ++ fut (cp_set_resqu q s) pre (unread s ++ x)).
    { unfold fut, queued. rewrite Hq. change (Ok <$> item :: q) with ([Ok item] ++ (Ok (E := ca_error) <$> q)).
      by rewrite outs_app, <- app_assoc. }
    split.
    { destruct Ht as (? & ? & ? & ? & ? & ? & Hok). rewrite Hqq in Hok. apply Forall_app in Hok as [_ Hok]. by split_and!. }
    split; [done|]. split; [by rewrite Hqq|]. unfold work. change (pw (cp_set_resqu q s)) with (pw s).
    cbn [cp_tcp cp_resqu cp_set_resqu]. rewrite Hq. cbn [length]. lia.
Qed.

Lemma drain_on_track N polls fuel s pre x :
  on_track N s pre x -> (0 < env_resqu_capacity)%nat -> (work s < fuel)%nat -> (work s < polls)%nat ->
  exists s' rs pre', cp_drain polls fuel s = (s', Some rs) /\ on_track N s' pre' x /\ nb_cap (cp_buf s') = nb_cap (cp_buf s) /\
    outs rs ++ fut s' pre' x = fut s pre (unread s ++ x) /\
    rd_of s' = [] /\ cp_resqu s' = [] /\ incomplete s'.
Proof.
  intros Ht Hcap. revert s pre Ht. induction polls as [|polls IH]; intros s pre Ht Hf Hp; [lia|]. cbn [cp_drain].
  destruct (poll_next_on_track N fuel s pre x Ht Hcap Hf) as (s1 & o & pre1 & -> & Ht1 & Hc1 & Ho).
  destruct o as [[r|]|]; [|done|].
  - destruct Ho as [Hfut Hw]. destruct (IH s1 pre1 Ht1 ltac:(lia) ltac:(lia)) as (s2 & rs & pre2 & -> & Ht2 & Hc2 & Ho2 & Hend).
    exists s2, (r :: rs), pre2. split; [done|]. split; [done|]. split; [by rewrite Hc2|]. split; [|done].
    change (r :: rs) with ([r] ++ rs). by rewrite outs_app, <- app_assoc, Ho2, Hfut.
  - destruct Ho as (Hfut & Hw & Hq & Hlen). destruct (tcp_rd (cp_tcp s1)) as [|e rd] eqn:Hrd.
    + exists s1, [], pre1. split; [done|]. split; [done|]. split; [done|]. split; [|done]. exact Hfut.
    + destruct Hw as [Hw|]; [|done]. destruct (IH s1 pre1 Ht1 ltac:(lia) ltac:(lia)) as (s2 & rs & pre2 & -> & Ht2 & Hc2 & Ho2 & Hend).
      exists s2, rs, pre2. split; [done|]. split; [done|]. split; [by rewrite Hc2|]. split; [|done]. rewrite Ho2, Hrd. exact Hfut.
Qed.

Lemma rd_bytes_app a b : rd_bytes (a ++ b) = rd_bytes a ++ rd_bytes b.
Proof. unfold rd_bytes. by rewrite map_app, concat_app. Qed.

(** Between the rounds: all read, nothing queued, a part of a message kept. *)
Definition settled (N : nat) (s : CaProto) (pre x : list Z) : Prop :=
  on_track N s pre x /\ rd_of s = [] /\ cp_resqu s = [] /\ incomplete s.

Lemma feed_on_track N s pre rd x :
  settled N s pre (rd_bytes rd ++ x) -> Forall rd_plain rd -> (length (rd_bytes rd) + 2 * N <= nb_cap (cp_buf s))%nat ->
  on_track N (cp_feed rd s) pre x /\ fut (cp_feed rd s) pre (unread (cp_feed rd s) ++ x) = fut s pre (rd_bytes rd ++ x) /\
  (work (cp_feed rd s) < 3 * rd_weight rd + 2 * N + 3)%nat.
Proof.
  intros ((Hr & Hq & _ & HN & _ & Hfit & Hok) & Hrd & Hqu & Hinc) Hpl Hsp.
  pose proof (fits_need N (cp_state s) pre _ HN (proj2 Hr) Hfit) as Hneed.
  assert (Hlen : (nb_len (cp_buf s) < N)%nat) by (unfold incomplete in Hinc; lia).
  rewrite Hrd in Hfit, Hok. cbn [rd_bytes map concat app] in Hfit, Hok.
  assert (Hu : rd_of (cp_feed rd s) = rd) by (cbn; by rewrite Hrd).
  split; [|split].
  - split; [done|]. split; [done|]. rewrite Hu. split; [done|]. split; [done|]. split; [cbn [cp_buf cp_feed cp_set_tcp]; lia|].
    by split.
  - by rewrite Hu.
  - unfold work. rewrite Hu. change (cp_resqu (cp_feed rd s)) with (cp_resqu s). rewrite Hqu. change (pw (cp_feed rd s)) with (pw s).
    pose proof (pw_len s). cbn [length]. lia.
Qed.

Lemma session_delivers N polls fuel rounds s pre :
  settled N s pre (rd_bytes (concat rounds)) -> (0 < env_resqu_capacity)%nat ->
  Forall (fun rd => Forall rd_plain rd /\ (length (rd_bytes rd) + 2 * N <= nb_cap (cp_buf s))%nat /\
    (3 * rd_weight rd + 2 * N + 3 <= fuel)%nat /\ (3 * rd_weight rd + 2 * N + 3 <= polls)%nat) rounds ->
  exists s' rs pre', cp_session polls fuel rounds s = (s', Some rs) /\ settled N s' pre' [] /\
    outs rs ++ fut s' pre' [] = fut s pre (rd_bytes (concat rounds)).
Proof.
  intros Hs Hcap. revert s pre Hs. induction rounds as [|rd rounds IH]; intros s pre Hs Hall.
  { exists s, [], pre. split; [done|]. by split. }
  inversion Hall as [|? ? (Hpl & Hsp & Hfu & Hpo) Hall']; subst. cbn [concat] in *. rewrite rd_bytes_app in *.
  destruct (feed_on_track N s pre rd _ Hs Hpl Hsp) as (Ht & Hfut & Hw). cbn [cp_session].
  destruct (drain_on_track N polls fuel _ _ _ Ht Hcap ltac:(lia) ltac:(lia)) as (s1 & rs & pre1 & -> & Ht1 & Hc1 & Ho1 & Hend).
  assert (Hs1 : settled N s1 pre1 (rd_bytes (concat rounds))) by done.
  destruct (IH s1 pre1 Hs1) as (s2 & rs2 & pre2 & -> & Hs2 & Ho2).
  { change (nb_cap (cp_buf (cp_feed rd s))) with (nb_cap (cp_buf s)) in Hc1. by rewrite Hc1. }
  exists s2, (rs ++ rs2), pre2. split; [done|]. split; [done|].
  by rewrite outs_app, <- app_assoc, Ho2, Ho1, Hfut.
Qed.

(** A part of a message holds no message. *)
Lemma incomplete_messages s pre : reading s pre -> incomplete s -> ca_messages (cp_array_truncate s) (pre ++ nb_data (cp_buf s)) = [].
Proof.
  intros [_ Hp] Hi. unfold incomplete, nb_len in Hi. rewrite ca_messages_eq. unfold ca_split.
  destruct (cp_state s) as [|hi|hi|]; cbn [st_pre CaState_need_min] in *; [| | |done].
  - subst pre. unfold ca_header. cbn [app]. by rewrite (proj2 (Nat.ltb_lt _ _)) by lia.
  - destruct Hp as (Hl & _ & Hn). unfold ca_header. rewrite length_app, num_at_app, Hn by lia. cbn [Z.eqb].
    rewrite (proj2 (Nat.ltb_lt (length pre + _) 24)) by lia. by destruct (_ <? _)%nat.
  - destruct Hp as [Hh _]. rewrite (ca_header_app _ _ _ _ Hh), length_app.
    by rewrite (proj2 (Nat.ltb_lt _ _)) by lia.
Qed.

Lemma settled_rest N s pre : settled N s pre [] -> fut s pre [] = [].
Proof.
  intros ((Hr & _) & _ & Hq & Hi). unfold fut, queued. rewrite Hq, app_nil_r. by apply incomplete_messages.
Qed.

Lemma new_reading tcp trunc : reading (cp_new tcp trunc) [].
Proof. split; [apply nb_new_spec|done]. Qed.

Lemma new_out_ok tcp trunc : out_ok (cp_new tcp trunc) /\ out_stream (cp_new tcp trunc) = tcp_sent tcp.
Proof.
  destruct (nb_new_spec (1024 * 256)) as (Hw & Hd & _). split; [by split|]. unfold out_stream. cbn [cp_outbuf cp_new cp_tcp cp_out].
  by rewrite Hd, !app_nil_r.
Qed.

Lemma new_fut tcp trunc x : fut (cp_new tcp trunc) [] x = ca_messages trunc x.
Proof.
  unfold fut. destruct (nb_new_spec (Z.to_nat PROTO_INPUT_BUF_CAP)) as (_ & Hd & _).
  change (cp_buf (cp_new tcp trunc)) with (nb_new (Z.to_nat PROTO_INPUT_BUF_CAP)). by rewrite Hd.
Qed.

(** ** Properties *)

(** C17. The stream of messages is the reference parser: whatever the sizes of the
    chunks in which the bytes come from the socket, round by round and with
    pauses anywhere, polling delivers exactly the messages that cutting the
    bytes message by message gives, in their order, and then waits. Assumed: the
    messages decode, their payloads are at most [N] bytes, and a round fits into
    the input buffer beside two of them. The fuel is enough: no poll runs on. *)
Theorem ca_stream_reassembles (N polls fuel trunc : nat) (wr : list wr_event) (rounds : list (list rd_event)) :
  let bytes := rd_bytes (concat rounds) in
  (16 <= N)%nat -> (0 < env_resqu_capacity)%nat ->
  ca_fits (Z.of_nat N) bytes -> Forall is_ok (ca_messages trunc bytes) ->
  Forall (fun rd => Forall rd_plain rd /\ Z.of_nat (length (rd_bytes rd) + 2 * N) <= PROTO_INPUT_BUF_CAP /\
    (3 * rd_weight rd + 2 * N + 3 <= fuel)%nat /\ (3 * rd_weight rd + 2 * N + 3 <= polls)%nat) rounds ->
  exists s rs, cp_session polls fuel rounds (cp_new (mkTcp [] wr []) trunc) = (s, Some rs) /\
    outs rs = ca_messages trunc bytes.
Proof.
  intros bytes HN Hcap Hfit Hok Hall. set (s0 := cp_new (mkTcp [] wr []) trunc).
  destruct (nb_new_spec (Z.to_nat PROTO_INPUT_BUF_CAP)) as (_ & Hd & Hc).
  destruct (nb_new_spec (1024 * 256)) as (_ & Hdo & _).
  change (nb_new (Z.to_nat PROTO_INPUT_BUF_CAP)) with (cp_buf s0) in *.
  destruct rounds as [|rd rounds]; [by exists s0, []|].
  assert (Hs0 : settled N s0 [] bytes).
  { split; [|split; [done|split; [done|]]].
    - split; [apply new_reading|]. split; [split; [done|split; [|done]]; unfold nb_len; exact (f_equal length Hdo)|].
      split; [done|]. split; [done|]. unfold nb_len. rewrite Hd, Hc. split; [|split; [done|]].
      2:{ change (Forall is_ok (fut (cp_new (mkTcp [] wr []) trunc) [] bytes)). by rewrite new_fut. }
      inversion Hall as [|? ? (_ & Hsp & _) _]; subst. change (length (unread s0)) with 0%nat. cbn [length]. lia.
    - unfold incomplete, nb_len. rewrite Hd. done. }
  destruct (session_delivers N polls fuel (rd :: rounds) s0 [] Hs0 Hcap) as (s & rs & pre & Hses & Hs & Ho).
  { eapply Forall_impl; [exact Hall|]. intros r (? & ? & ? & ?). rewrite Hc. split_and!; [done|lia|done|done]. }
  exists s, rs. split; [done|]. rewrite (settled_rest _ _ _ Hs), app_nil_r in Ho. rewrite Ho. apply new_fut.
Qed.

(** Nothing is made up or reordered: in any use of the stream - any order of
    polls and of messages queued for output, any behaviour of the socket, with
    errors and with its end - the messages that polls deliver are, in their
    order, the first ones of the messages in the bytes of the socket. *)
Theorem ca_stream_prefix (tcp : Tcp) (trunc : nat) (ops : list (CaMsg + nat)) :
  Forall sendable (pushed ops) ->
  oks (outs (cp_run ops (cp_new tcp trunc)).2) `prefix_of` oks (ca_messages trunc (rd_bytes (tcp_rd tcp))).
Proof.
  intros Hs. destruct (new_out_ok tcp trunc) as [Hok _].
  pose proof (run_delivers ops (cp_new tcp trunc) (oks (ca_messages trunc (rd_bytes (tcp_rd tcp)))) Hs Hok) as Hr.
  destruct (cp_run ops (cp_new tcp trunc)) as [s rs]. apply Hr.
  exists (oks (ca_messages trunc (rd_bytes (tcp_rd tcp)))). split; [|done]. split; [apply new_reading|]. left.
  exists []. split; [apply new_reading|]. by rewrite new_fut.
Qed.

(** Output is a queue: in any use of the stream, the bytes on the socket,
    followed by those in the output buffer and by those of the messages whose turn
    is still to come, are the bytes of the queued messages in the order in which
    they were queued: none is lost, doubled, reordered or mixed with another. *)
Theorem ca_output_fifo (rd : list rd_event) (wr : list wr_event) (trunc : nat) (ops : list (CaMsg + nat)) :
  Forall sendable (pushed ops) ->
  let s := (cp_run ops (cp_new (mkTcp rd wr []) trunc)).1 in
  exists later, tcp_sent (cp_tcp s) ++ nb_data (cp_outbuf s) ++ concat (map ca_wire later) =
    concat (map ca_wire (pushed ops)).
Proof.
  intros Hs s. destruct (new_out_ok (mkTcp rd wr []) trunc) as [Hok Hos].
  pose proof (run_delivers ops (cp_new (mkTcp rd wr []) trunc) (oks (ca_messages trunc (rd_bytes rd))) Hs Hok) as Hr.
  subst s. destruct (cp_run ops _) as [s rs]. destruct Hr as [_ (later & Hl)].
  { exists (oks (ca_messages trunc (rd_bytes rd))). split; [|done]. split; [apply new_reading|]. left.
    exists []. split; [apply new_reading|]. by rewrite new_fut. }
  rewrite Hos in Hl. cbn [tcp_sent app] in Hl. unfold out_stream in Hl. cbn [fst].
  exists (cp_out s ++ later). rewrite map_app, concat_app. rewrite <- Hl. by rewrite <- !app_assoc.
Qed.

End Parser.

(** ** Witnesses, and two corners *)

Definition echo_bytes : list Z := [0; 23; 0; 0; 0; 0; 0; 0; 0; 0; 0; 0; 0; 0; 0; 0].
Definition created_bytes : list Z := [0; 18; 0; 0; 0; 6; 0; 1; 0; 0; 0; 7; 0; 0; 0; 9].

Lemma ca_stream_reassembles_witness :
  exists s rs, cp_session (H := SlideBuf_netbuf) (H0 := silent_env) 400 400
      [[RdBytes (take 3 echo_bytes); RdPending]; [RdBytes (drop 3 echo_bytes ++ take 10 created_bytes)]; [RdBytes (drop 10 created_bytes)]]
      (cp_new (H := SlideBuf_netbuf) (mkTcp [] [] []) 8) = (s, Some rs) /\
    outs rs = [Ok CaEcho; Ok (CaCreateChanRes (mkCreateChanRes 6 1 7 9))].
Proof.
  apply (ca_stream_reassembles (H := SlideBuf_netbuf) (H1 := silent_env) 16 400 400 8 []
    [[RdBytes (take 3 echo_bytes); RdPending]; [RdBytes (drop 3 echo_bytes ++ take 10 created_bytes)]; [RdBytes (drop 10 created_bytes)]]).
  - lia.
  - simpl. lia.
  - eapply fits_cons; [reflexivity|vm_compute; split; [split|]; discriminate|].
    eapply fits_cons; [reflexivity|vm_compute; split; [split|]; discriminate|]. by apply fits_none.
  - repeat constructor; eexists; reflexivity.
  - repeat constructor; try discriminate; unfold PROTO_INPUT_BUF_CAP; vm_compute; try discriminate; lia.
Defined.

Definition example_ops : list (CaMsg + nat) :=
  [inl (CaMsg_from_ty_ts CaVersion 0); inr 5%nat; inl (CaMsg_from_ty_ts (CaSearch (mkSearch 3 [65; 66])) 0); inr 5%nat].

Lemma ca_stream_prefix_witness :
  oks (outs (cp_run (H := SlideBuf_netbuf) (H0 := silent_env) example_ops
    (cp_new (H := SlideBuf_netbuf) (mkTcp [RdBytes echo_bytes; RdErr] [WrAccept 20] []) 8)).2) `prefix_of` [CaEcho].
Proof.
  apply (ca_stream_prefix (H := SlideBuf_netbuf) (H1 := silent_env) (mkTcp [RdBytes echo_bytes; RdErr] [WrAccept 20] []) 8 example_ops).
  repeat constructor.
Defined.

Lemma ca_output_fifo_witness :
  exists later,
    let s := (cp_run (H := SlideBuf_netbuf) (H0 := silent_env) example_ops
      (cp_new (H := SlideBuf_netbuf) (mkTcp [] [WrAccept 20; WrAccept 10] []) 8)).1 in
    tcp_sent (cp_tcp s) ++ nb_data (cp_outbuf s) ++ concat (map ca_wire later) =
    [0; 0; 0; 0; 0; 0; 0; 13; 0; 0; 0; 0; 0; 0; 0; 0; 0; 6; 0; 8; 0; 1; 0; 13; 0; 0; 0; 3; 0; 0; 0; 3; 65; 66; 0; 0; 0; 0; 0; 0].
Proof.
  apply (ca_output_fifo (H := SlideBuf_netbuf) (H1 := silent_env) [] [WrAccept 20; WrAccept 10] 8 example_ops).
  repeat constructor.
Defined.

(** A connection with a small input buffer. *)
Definition small_proto (cap : nat) (rd : list rd_event) : CaProto (H := SlideBuf_netbuf) :=
  mkCaProto (H := SlideBuf_netbuf) (mkTcp rd [] []) 0 false StdHead (nb_new (NetBuf := SlideBuf_netbuf) cap) (nb_new (NetBuf := SlideBuf_netbuf) 16) [] 8 [] [] 0 0.

(** When the peer closes after more messages than the queue of results holds,
    the rest of them is dropped: the output poll declares the stream done while
    there are bytes to parse, and parsing in that state is an error. *)
Lemma ca_eof_drops_messages :
  outs (cp_run (H := SlideBuf_netbuf) (H0 := silent_env) (replicate 258 (inr 9%nat))
    (small_proto 5000 [RdBytes (concat (replicate 264 echo_bytes)); RdEof])).2 =
  replicate 256 (Ok CaEcho) ++ [Err CeParseAttemptInDoneState].
Proof. vm_compute. reflexivity. Qed.

(** A message that does not decode is reported before the good messages that
    came with it. *)
Lemma ca_error_overtakes :
  outs (cp_run (H := SlideBuf_netbuf) (H0 := silent_env) (replicate 3 (inr 9%nat))
    (small_proto 100 [RdBytes (echo_bytes ++ [0; 99] ++ drop 2 echo_bytes)])).2 =
  [Err (CeCaCommandNotSupported 99); Ok CaEcho].
Proof. vm_compute. reflexivity. Qed.
