(* ===== verification/CaHeap.v ===== *)
(** * Channels of a channel access connection

    [ChannelHeap] of [daqbuf-netfetch/src/ca/conn2/conn/channelheap.rs] with the
    identifiers of [conn2/caids.rs] and the buffers of [asynbuf.rs]: the channels
    of one connection, the registries that say to which channel a message of the
    server belongs, and the turns of the poll loop.

    The handler of a channel is an interface ([ChannelHandlerOps]); the items that
    pass through unchanged are one type ([ch_data]). What a waker does is to put
    the channel into [hp_wakeup_cids] ([heap_wake]); that a handler does so while it
    is polled is left out. Metrics and logs are left out. A hash map is walked in an order that is not specified
    ([heap_order]). *)
From Stdlib Require Import ZArith Lia String.
From stdpp Require Import base numbers option strings list gmap.
From S2P Require Import Prelude Items CaProto.

#[local] Open Scope Z_scope.

(** ** Identifiers *)

(** [Cid], [Subid], [Sid] and [Ioid] are [u32]; [inc] gives the new number. *)
Definition Subid_inc (self : Z) : Z * Z := let x := wrap 32 (self + 1) in (x, x).
Definition Ioid_inc (self : Z) : Z * Z := let x := wrap 32 (self + 1) in (x, x).

(** The numbers in use: of channels, of subscriptions. *)
Record CaIdRegs : Type := mkCaIdRegs { cir_cid : gset Z; cir_subid : gset Z }.

(** [gen_next]: the first of the random numbers that is not in use; the
    generator is the list of what it gives. *)
Fixpoint gen_next (rng : list Z) (reg : gset Z) : option (Z * gset Z) :=
  match rng with
  | [] => None
  | r :: rng =>
      let k := Z.land r 2147483647 in
      if bool_decide (k ∈ reg) then gen_next rng reg else Some (k, {[k]} ∪ reg)
  end.

Definition CidOwned_new (rng : list Z) (g : CaIdRegs) : option (Z * CaIdRegs) :=
  '(k, reg) ← gen_next rng (cir_cid g); Some (k, mkCaIdRegs reg (cir_subid g)).
Definition CidOwned_drop (k : Z) (g : CaIdRegs) : CaIdRegs := mkCaIdRegs (cir_cid g ∖ {[k]}) (cir_subid g).
Definition SubidOwned_new (rng : list Z) (g : CaIdRegs) : option (Z * CaIdRegs) :=
  '(k, reg) ← gen_next rng (cir_subid g); Some (k, mkCaIdRegs (cir_cid g) reg).

(** As the code has it: the registry of the channels. *)
Definition SubidOwned_drop (k : Z) (g : CaIdRegs) : CaIdRegs := mkCaIdRegs (cir_cid g ∖ {[k]}) (cir_subid g).

(** ** Registries *)

Record IoidRegistry : Type := mkIoidRegistry { ir_ioids : gmap Z (Z * Z * Z * Z); ir_current : Z }.

Definition IoidRegistry_new : IoidRegistry := mkIoidRegistry ∅ 0.

Definition IoidRegistry_register (sid ioid cid tscmd tsreg : Z) (r : IoidRegistry) : IoidRegistry :=
  let v :=
    match ir_ioids r !! ioid with
    | Some (cid0, sid0, _, _) => (cid0, sid0, tscmd, tsreg)
    | None => (cid, sid, tscmd, tsreg)
    end in
  mkIoidRegistry (<[ioid := v]> (ir_ioids r)) (ir_current r).

Definition IoidRegistry_take (ioid : Z) (r : IoidRegistry) : IoidRegistry * option (Z * Z * Z * Z) :=
  (mkIoidRegistry (delete ioid (ir_ioids r)) (ir_current r), ir_ioids r !! ioid).

(** [current().inc()]. *)
Definition IoidRegistry_next (r : IoidRegistry) : IoidRegistry * Z :=
  let '(cur, ioid) := Ioid_inc (ir_current r) in (mkIoidRegistry (ir_ioids r) cur, ioid).

Record SubidRegistry : Type := mkSubidRegistry {
  sr_subids : gmap Z (Z * Z);
  sr_rev : gmap Z Z;
  sr_current : Z
}.

Definition SubidRegistry_new : SubidRegistry := mkSubidRegistry ∅ ∅ 0.

Definition SubidRegistry_register (cid tsreg : Z) (r : SubidRegistry) : SubidRegistry * Z :=
  match sr_rev r !! cid with
  | Some subid => (r, subid)
  | None =>
      let '(cur, subid) := Subid_inc (sr_current r) in
      (mkSubidRegistry (<[subid := (cid, tsreg)]> (sr_subids r)) (<[cid := subid]> (sr_rev r)) cur, subid)
  end.

Definition SubidRegistry_lookup (subid : Z) (r : SubidRegistry) : option (Z * Z) := sr_subids r !! subid.

Definition SubidRegistry_remove (cid : Z) (r : SubidRegistry) : SubidRegistry * nat :=
  match sr_rev r !! cid with
  | Some subid => (mkSubidRegistry (delete subid (sr_subids r)) (delete cid (delete cid (sr_rev r))) (sr_current r), 1%nat)
  | None => (r, 0%nat)
  end.

Definition SubidRegistry_remove_subid (subid : Z) (r : SubidRegistry) : SubidRegistry :=
  match sr_subids r !! subid with
  | Some (cid, _) => mkSubidRegistry (delete subid (sr_subids r)) (delete cid (sr_rev r)) (sr_current r)
  | None => r
  end.

(** ** Buffers *)

Record AsynBuf (T : Type) : Type := mkAsynBuf { ab_buf : list T; ab_cap : nat }.
Arguments mkAsynBuf {T} ab_buf ab_cap.
Arguments ab_buf {T} a.
Arguments ab_cap {T} a.

Inductive PushRes (T : Type) : Type :=
  | PushFirst
  | PushDone
  | PushFull (x : T).
Arguments PushFirst {T}.
Arguments PushDone {T}.
Arguments PushFull {T} x.

(** A full [VecDeque] grows; to what is not specified, here to twice its size. *)
Definition ab_grown {T} (b : AsynBuf T) : nat := if (length (ab_buf b) <? ab_cap b)%nat then ab_cap b else (2 * ab_cap b + 1)%nat.

Definition AsynBuf_new {T} (cap : nat) : AsynBuf T := mkAsynBuf [] cap.
Definition AsynBuf_len {T} (b : AsynBuf T) : nat := length (ab_buf b).
Definition AsynBuf_is_space {T} (b : AsynBuf T) : bool := (AsynBuf_len b <? ab_cap b)%nat.
Definition AsynBuf_push_back {T} (x : T) (b : AsynBuf T) : AsynBuf T * PushRes T :=
  if (AsynBuf_len b =? 0)%nat then (mkAsynBuf (ab_buf b ++ [x]) (ab_grown b), PushFirst)
  else if (AsynBuf_len b <? ab_cap b)%nat then (mkAsynBuf (ab_buf b ++ [x]) (ab_cap b), PushDone)
  else (b, PushFull x).
Definition AsynBuf_push_back_force {T} (x : T) (b : AsynBuf T) : AsynBuf T := mkAsynBuf (ab_buf b ++ [x]) (ab_grown b).
Definition AsynBuf_push_front {T} (x : T) (b : AsynBuf T) : AsynBuf T := mkAsynBuf (x :: ab_buf b) (ab_grown b).
Definition AsynBuf_pop_front {T} (b : AsynBuf T) : AsynBuf T * option T :=
  match ab_buf b with x :: l => (mkAsynBuf l (ab_cap b), Some x) | [] => (b, None) end.

(** The buffer that stays behind has no capacity. *)
Definition AsynBuf_take {T} (b : AsynBuf T) : AsynBuf T * AsynBuf T := (mkAsynBuf [] 0, b).

(** ** Channels *)

Record ProtoRxItem : Type := mkProtoRxItem { prx_msg : CaMsg; prx_tscmd : Z; prx_tsreg : Z; prx_tsdisp : Z }.

(** What a handler asks of the heap; [D] is the type of what passes through. *)
Inductive ChItemInner (D : Type) : Type :=
  | ItProtoOut (m : CaMsg)
  | ItProtoOutIoid (m : CaMsg) (sid tscmd : Z)
  | ItProtoOutSubid (m : CaMsg) (tscmd : Z)
  | ItSubidRemove (cid : Z)
  | ItChannelInfoQuery (x : D)
  | ItTestValue (x : D)
  | ItLocalLog (x : D)
  | ItChannelStatus (x : D)
  | ItChannelEventValue (x : D).
Arguments ItProtoOut {D} m.
Arguments ItProtoOutIoid {D} m sid tscmd.
Arguments ItProtoOutSubid {D} m tscmd.
Arguments ItSubidRemove {D} cid.
Arguments ItChannelInfoQuery {D} x.
Arguments ItTestValue {D} x.
Arguments ItLocalLog {D} x.
Arguments ItChannelStatus {D} x.
Arguments ItChannelEventValue {D} x.

(** What the heap puts out. *)
Inductive HeapItemInner (D : Type) : Type :=
  | HiChannelInfoQuery (x : D)
  | HiTestValue (x : D)
  | HiLocalLog (x : D)
  | HiChannelEventValue (x : D)
  | HiProtoOut (m : CaMsg).
Arguments HiChannelInfoQuery {D} x.
Arguments HiTestValue {D} x.
Arguments HiLocalLog {D} x.
Arguments HiChannelEventValue {D} x.
Arguments HiProtoOut {D} m.

(** What the heap uses of a channel handler ([ch_inp_done] panics in the states
    where the code has [todo!()]), the clock, what the future of a command returns
    when it is polled (by the readings of the clock), and the order in which the
    heap walks through a hash map. *)
Class ChannelHandlerOps : Type := {
  ch_handler : Type;
  ch_data : Type;
  ch_new : string -> ch_handler;
  ch_cid : ch_handler -> Z;
  ch_sid : ch_handler -> option Z;
  ch_inp_push_try : ProtoRxItem -> ch_handler -> ch_handler * option CaMsg;
  ch_inp_done : ch_handler -> option ch_handler;
  ch_poll_next : ch_handler -> ch_handler * Poll (option (outcome unit (ChItemInner ch_data)));
  heap_now : nat -> Z;
  heap_cmd_fut : nat -> Poll (outcome unit unit);
  heap_order : gset Z -> list Z
}.

Inductive HeapCmd : Type := RemoveChannel (name : string).

Inductive InpItem : Type :=
  | InpCmd (c : HeapCmd)
  | InpCaMsg (m : CaMsg).

Inductive HeapState : Type := HeapRunning | HeapDone.

Definition INP_BUF_CAP : nat := 128.
Definition OUT_BUF_MAX_LEN : nat := 128.

Section ChannelHeap.
  Context `{ChannelHandlerOps}.

Inductive ChHandler : Type :=
  | ChHandlerActive (h : ch_handler)
  | ChHandlerDone.

Record ChannelEntry : Type := mkChannelEntry { ce_name : string; ce_handler : ChHandler }.

(** [hp_clock] counts the readings of the clock. [hp_cmd_exec_fut] is the future
    of the command under way, by the channels it removes when it is done. The
    future field of the handlers is never set by the code and left out. *)
Record ChannelHeap : Type := mkChannelHeap {
  hp_state : HeapState;
  hp_out_buf : AsynBuf (Z * HeapItemInner ch_data);
  hp_inp_buf : AsynBuf InpItem;
  hp_inp_cmd_buf : AsynBuf HeapCmd;
  hp_inp_proto_buf : AsynBuf CaMsg;
  hp_by_cid : gmap Z ChannelEntry;
  hp_by_name : gmap string Z;
  hp_inp_done : bool;
  hp_wakeup_cids : gset Z;
  hp_cmd_exec_fut : option (list Z);
  hp_disconnect_on_idle : bool;
  hp_ioid_reg : IoidRegistry;
  hp_subid_reg : SubidRegistry;
  hp_clock : nat
}.

Definition heap_new : ChannelHeap :=
  mkChannelHeap HeapRunning (AsynBuf_new INP_BUF_CAP) (AsynBuf_new INP_BUF_CAP) (AsynBuf_new INP_BUF_CAP)
    (AsynBuf_new INP_BUF_CAP) ∅ ∅ false ∅ None false IoidRegistry_new SubidRegistry_new 0.

(** The maps and registries; the buffers; the rest. *)
Definition hp_set_regs (by_cid : gmap Z ChannelEntry) (by_name : gmap string Z) (wakeup : gset Z)
    (ioids : IoidRegistry) (subids : SubidRegistry) (s : ChannelHeap) : ChannelHeap :=
  mkChannelHeap (hp_state s) (hp_out_buf s) (hp_inp_buf s) (hp_inp_cmd_buf s) (hp_inp_proto_buf s) by_cid by_name
    (hp_inp_done s) wakeup (hp_cmd_exec_fut s) (hp_disconnect_on_idle s) ioids subids (hp_clock s).
Definition hp_set_inps (inp : AsynBuf InpItem) (cmd : AsynBuf HeapCmd) (proto : AsynBuf CaMsg) (s : ChannelHeap) : ChannelHeap :=
  mkChannelHeap (hp_state s) (hp_out_buf s) inp cmd proto (hp_by_cid s) (hp_by_name s)
    (hp_inp_done s) (hp_wakeup_cids s) (hp_cmd_exec_fut s) (hp_disconnect_on_idle s) (hp_ioid_reg s) (hp_subid_reg s) (hp_clock s).
Definition hp_set_out (out : AsynBuf (Z * HeapItemInner ch_data)) (s : ChannelHeap) : ChannelHeap :=
  mkChannelHeap (hp_state s) out (hp_inp_buf s) (hp_inp_cmd_buf s) (hp_inp_proto_buf s) (hp_by_cid s) (hp_by_name s)
    (hp_inp_done s) (hp_wakeup_cids s) (hp_cmd_exec_fut s) (hp_disconnect_on_idle s) (hp_ioid_reg s) (hp_subid_reg s) (hp_clock s).
Definition hp_set_misc (st : HeapState) (inp_done : bool) (fut : option (list Z)) (idle : bool) (clock : nat) (s : ChannelHeap) : ChannelHeap :=
  mkChannelHeap st (hp_out_buf s) (hp_inp_buf s) (hp_inp_cmd_buf s) (hp_inp_proto_buf s) (hp_by_cid s) (hp_by_name s)
    inp_done (hp_wakeup_cids s) fut idle (hp_ioid_reg s) (hp_subid_reg s) clock.

Definition hp_set_by_cid (m : gmap Z ChannelEntry) (s : ChannelHeap) : ChannelHeap :=
  hp_set_regs m (hp_by_name s) (hp_wakeup_cids s) (hp_ioid_reg s) (hp_subid_reg s) s.
Definition hp_set_wakeup (w : gset Z) (s : ChannelHeap) : ChannelHeap :=
  hp_set_regs (hp_by_cid s) (hp_by_name s) w (hp_ioid_reg s) (hp_subid_reg s) s.
Definition hp_set_ioid (r : IoidRegistry) (s : ChannelHeap) : ChannelHeap :=
  hp_set_regs (hp_by_cid s) (hp_by_name s) (hp_wakeup_cids s) r (hp_subid_reg s) s.
Definition hp_set_subid (r : SubidRegistry) (s : ChannelHeap) : ChannelHeap :=
  hp_set_regs (hp_by_cid s) (hp_by_name s) (hp_wakeup_cids s) (hp_ioid_reg s) r s.
Definition hp_set_proto (b : AsynBuf CaMsg) (s : ChannelHeap) : ChannelHeap :=
  hp_set_inps (hp_inp_buf s) (hp_inp_cmd_buf s) b s.
Definition hp_set_state (st : HeapState) (s : ChannelHeap) : ChannelHeap :=
  hp_set_misc st (hp_inp_done s) (hp_cmd_exec_fut s) (hp_disconnect_on_idle s) (hp_clock s) s.
Definition hp_set_fut (fut : option (list Z)) (s : ChannelHeap) : ChannelHeap :=
  hp_set_misc (hp_state s) (hp_inp_done s) fut (hp_disconnect_on_idle s) (hp_clock s) s.

(** [Instant::now()]. *)
Definition hp_now (s : ChannelHeap) : ChannelHeap * Z :=
  (hp_set_misc (hp_state s) (hp_inp_done s) (hp_cmd_exec_fut s) (hp_disconnect_on_idle s) (S (hp_clock s)) s, heap_now (hp_clock s)).

(** *** Channels come and go *)

Definition heap_channel_add (name : string) (s : ChannelHeap) : ChannelHeap :=
  match hp_by_name s !! name with
  | Some _ => s
  | None =>
      let handler := ch_new name in
      let cid := ch_cid handler in
      match hp_by_cid s !! cid with
      | Some _ => s
      | None =>
          hp_set_regs (<[cid := mkChannelEntry name (ChHandlerActive handler)]> (hp_by_cid s)) (<[name := cid]> (hp_by_name s))
            ({[cid]} ∪ hp_wakeup_cids s) (hp_ioid_reg s) (hp_subid_reg s) s
      end
  end.

Definition heap_disconnect_on_idle (s : ChannelHeap) : ChannelHeap :=
  hp_set_misc (hp_state s) (hp_inp_done s) (hp_cmd_exec_fut s) true (hp_clock s) s.

Definition heap_remove_cid (cid : Z) (s : ChannelHeap) : ChannelHeap :=
  let '(by_cid, by_name) :=
    match hp_by_cid s !! cid with
    | Some c => (delete cid (hp_by_cid s), delete (ce_name c) (hp_by_name s))
    | None => (hp_by_cid s, hp_by_name s)
    end in
  let '(subids, _) := SubidRegistry_remove cid (hp_subid_reg s) in
  hp_set_regs by_cid by_name (hp_wakeup_cids s ∖ {[cid]}) (hp_ioid_reg s) subids s.

(** *** The items of a handler *)

Inductive PollHandlerItem : Type :=
  | PhNone
  | PhProtoOut (m : CaMsg)
  | PhChannelInfoQuery (x : ch_data)
  | PhTestValue (x : ch_data)
  | PhLocalLog (x : ch_data)
  | PhChannelEventValue (x : ch_data).

(** One item; the handler is the one after the poll. *)
Definition heap_handler_item (h : ch_handler) (cid tsnow : Z) (item : ChItemInner ch_data)
    (ioids : IoidRegistry) (subids : SubidRegistry) : IoidRegistry * SubidRegistry * PollHandlerItem :=
  match item with
  | ItProtoOut m => (ioids, subids, PhProtoOut m)
  | ItProtoOutIoid m sid tscmd =>
      match ch_sid h with
      | Some sid2 =>
          if negb (sid2 =? sid) then (ioids, subids, PhNone)
          else
            let '(ioids, ioid) := IoidRegistry_next ioids in
            (IoidRegistry_register sid ioid cid tscmd tsnow ioids, subids, PhProtoOut (CaMsg_overwrite_ioid m ioid))
      | None => (ioids, subids, PhNone)
      end
  | ItProtoOutSubid m _ =>
      let '(subids, subid) := SubidRegistry_register cid tsnow subids in
      (ioids, subids, PhProtoOut (CaMsg_overwrite_subid m subid))
  | ItSubidRemove cid => (ioids, (SubidRegistry_remove cid subids).1, PhNone)
  | ItChannelInfoQuery x => (ioids, subids, PhChannelInfoQuery x)
  | ItTestValue x => (ioids, subids, PhTestValue x)
  | ItLocalLog x => (ioids, subids, PhLocalLog x)
  | ItChannelStatus _ => (ioids, subids, PhNone)
  | ItChannelEventValue x => (ioids, subids, PhChannelEventValue x)
  end.

(** The loop of [poll_handler] takes one turn: an item breaks it, and without
    one there is no progress. *)
Definition heap_poll_handler (h : ch_handler) (cid tsnow : Z) (ioids : IoidRegistry) (subids : SubidRegistry) :
    ch_handler * IoidRegistry * SubidRegistry * Poll (option (outcome unit PollHandlerItem)) :=
  match ch_poll_next h with
  | (h, Ready (Some (Ok item))) =>
      let '(ioids, subids, x) := heap_handler_item h cid tsnow item ioids subids in
      (h, ioids, subids, Ready (Some (Ok x)))
  | (h, Ready (Some (Err e))) => (h, ioids, subids, Ready (Some (Err tt)))
  | (h, Ready (Some Panic)) => (h, ioids, subids, Ready (Some Panic))
  | (h, Ready None) => (h, ioids, subids, Ready None)
  | (h, Pending) => (h, ioids, subids, Pending)
  end.

(** *** Messages to channels *)

(** The channel a message belongs to, and the times to report with it. A read
    response takes its registration away. *)
Definition heap_resolve (item : CaMsg) (tsnow : Z) (s : ChannelHeap) : ChannelHeap * option (Z * Z * Z) :=
  match CaMsg_cid item with
  | Some cid => (s, Some (cid, tsnow, tsnow))
  | None =>
      match CaMsg_subid item with
      | Some subid =>
          match SubidRegistry_lookup subid (hp_subid_reg s) with
          | Some (cid, _) => (s, Some (cid, tsnow, tsnow))
          | None => (s, None)
          end
      | None =>
          match CaMsg_ioid item with
          | Some ioid =>
              let '(reg, r) := IoidRegistry_take ioid (hp_ioid_reg s) in
              match r with
              | Some (cid, _, tscmd, tsreg) => (hp_set_ioid reg s, Some (cid, tscmd, tsreg))
              | None => (hp_set_ioid reg s, None)
              end
          | None => (s, None)
          end
      end
  end.

(** What became of one message. *)
Inductive dispatched : Type :=
  | DispBlocked
  | DispDone.

Definition heap_dispatch_msg (item : CaMsg) (tsnow : Z) (s : ChannelHeap) : ChannelHeap * dispatched :=
  match heap_resolve item tsnow s with
  | (s, Some (cid, tscmd, tsreg)) =>
      match hp_by_cid s !! cid with
      | Some e =>
          match ce_handler e with
          | ChHandlerActive h =>
              let '(h, r) := ch_inp_push_try (mkProtoRxItem item tscmd tsreg tsnow) h in
              let s := hp_set_by_cid (<[cid := mkChannelEntry (ce_name e) (ChHandlerActive h)]> (hp_by_cid s)) s in
              let s := match r with Some item => hp_set_proto (AsynBuf_push_front item (hp_inp_proto_buf s)) s | None => s end in
              (hp_set_wakeup ({[cid]} ∪ hp_wakeup_cids s) s, match r with Some _ => DispBlocked | None => DispDone end)
          | ChHandlerDone => (s, DispDone)
          end
      | None => (s, DispDone)
      end
  | (s, None) => (s, DispDone)
  end.

(** [dispatch_input_to_channels]; [idp] counts what was dispatched in the turn
    at hand, so it is 0 where the result looks at it. Each turn takes a message
    or is the last. *)
Fixpoint heap_dispatch_loop (fuel : nat) (s : ChannelHeap) : ChannelHeap * Poll (option (outcome unit unit)) :=
  match fuel with
  | O => (s, Pending)
  | S fuel =>
      let '(s, tsnow) := hp_now s in
      match AsynBuf_pop_front (hp_inp_proto_buf s) with
      | (b, Some item) =>
          match heap_dispatch_msg item tsnow (hp_set_proto b s) with
          | (s, DispDone) => heap_dispatch_loop fuel s
          | (s, DispBlocked) => (s, Pending)
          end
      | (_, None) => if hp_inp_done s then (s, Ready None) else (s, Pending)
      end
  end.

Definition heap_dispatch_input_to_channels (s : ChannelHeap) : ChannelHeap * Poll (option (outcome unit unit)) :=
  heap_dispatch_loop (S (AsynBuf_len (hp_inp_proto_buf s))) s.

(** *** Polling the handlers *)

Definition heap_push_out (ts : Z) (x : HeapItemInner ch_data) (s : ChannelHeap) : ChannelHeap :=
  hp_set_out (AsynBuf_push_back_force (ts, x) (hp_out_buf s)) s.

Definition heap_handler_out (ts : Z) (x : PollHandlerItem) (s : ChannelHeap) : ChannelHeap :=
  match x with
  | PhNone => s
  | PhProtoOut m => heap_push_out ts (HiProtoOut m) s
  | PhChannelInfoQuery x => heap_push_out ts (HiChannelInfoQuery x) s
  | PhTestValue x => heap_push_out ts (HiTestValue x) s
  | PhLocalLog x => heap_push_out ts (HiLocalLog x) s
  | PhChannelEventValue x => heap_push_out ts (HiChannelEventValue x) s
  end.

Definition heap_store_handler (cid : Z) (name : string) (h : ChHandler) (ioids : IoidRegistry) (subids : SubidRegistry)
    (s : ChannelHeap) : ChannelHeap :=
  hp_set_subid subids (hp_set_ioid ioids (hp_set_by_cid (<[cid := mkChannelEntry name h]> (hp_by_cid s)) s)).

(** The loop over the channels to wake up: how it ends, whether there was
    progress and whether something is pending, and what to wake up again. *)
Inductive handlers_end : Type :=
  | HeSome (r : outcome unit unit)
  | HeNone.

Fixpoint heap_poll_handlers (tsnow : Z) (tmp : list Z) (progress pending : bool) (again : list Z) (s : ChannelHeap) :
    ChannelHeap * (handlers_end * bool * bool * list Z) :=
  if (OUT_BUF_MAX_LEN <? AsynBuf_len (hp_out_buf s))%nat then (s, (HeSome (Ok tt), progress, pending, again))
  else
    match tmp with
    | [] => (s, (HeNone, progress, pending, again))
    | cid :: tmp =>
        let s := hp_set_wakeup (hp_wakeup_cids s ∖ {[cid]}) s in
        match hp_by_cid s !! cid with
        | Some e =>
            match ce_handler e with
            | ChHandlerActive h =>
                let '(h, ioids, subids, r) := heap_poll_handler h cid tsnow (hp_ioid_reg s) (hp_subid_reg s) in
                let s := heap_store_handler cid (ce_name e) (ChHandlerActive h) ioids subids s in
                match r with
                | Ready (Some (Ok x)) => heap_poll_handlers tsnow tmp true pending (again ++ [cid]) (heap_handler_out tsnow x s)
                | Ready (Some (Err e)) => (s, (HeSome (Err e), true, pending, again ++ [cid]))
                | Ready (Some Panic) => (s, (HeSome Panic, true, pending, again))
                | Ready None => heap_poll_handlers tsnow tmp true pending again (heap_store_handler cid (ce_name e) ChHandlerDone ioids subids s)
                | Pending => heap_poll_handlers tsnow tmp true true again s
                end
            | ChHandlerDone => heap_poll_handlers tsnow tmp true pending again s
            end
        | None => heap_poll_handlers tsnow tmp true pending again s
        end
    end.

(** The channels are taken from the end of the vector. *)
Definition heap_poll_all_handler_sub (s : ChannelHeap) : ChannelHeap * Poll (option (outcome unit unit)) :=
  let '(s, tsnow) := hp_now s in
  let '(s, (e, progress, pending, again)) := heap_poll_handlers tsnow (rev (heap_order (hp_wakeup_cids s))) false false [] s in
  let s := hp_set_wakeup (list_to_set again ∪ hp_wakeup_cids s) s in
  match e with
  | HeSome r => (s, Ready (Some r))
  | HeNone => (s, if progress : bool then Ready (Some (Ok tt)) else if pending : bool then Pending else Ready None)
  end.

(** With fuel: the code loops until the output is full or nothing moves. *)
Fixpoint heap_poll_all_handler (fuel : nat) (s : ChannelHeap) : ChannelHeap * option (Poll (option (outcome unit unit))) :=
  match fuel with
  | O => (s, None)
  | S fuel =>
      if (OUT_BUF_MAX_LEN <=? AsynBuf_len (hp_out_buf s))%nat then (s, Some (Ready (Some (Ok tt))))
      else
        match heap_poll_all_handler_sub s with
        | (s, Ready (Some (Ok _))) => heap_poll_all_handler fuel s
        | (s, Ready (Some (Err e))) => (s, Some (Ready (Some (Err e))))
        | (s, Ready (Some Panic)) => (s, Some (Ready (Some Panic)))
        | (s, Ready None) => (s, Some (Ready None))
        | (s, Pending) => (s, Some Pending)
        end
  end.

(** *** Commands and input *)

Definition heap_cids_named (name : string) (s : ChannelHeap) : list Z :=
  filter (fun cid => ce_name <$> hp_by_cid s !! cid = Some name) (heap_order (dom (hp_by_cid s))).

(** The command waits for the handlers and then removes the channels. *)
Definition heap_handle_command (cmd : HeapCmd) (s : ChannelHeap) : ChannelHeap :=
  match cmd with
  | RemoveChannel name => hp_set_fut (Some (heap_cids_named name s)) s
  end.

Definition heap_poll_outer_cmd (s : ChannelHeap) : ChannelHeap * Poll (option unit) :=
  match hp_cmd_exec_fut s with
  | Some cids =>
      match heap_cmd_fut (hp_clock s) with
      | Ready r =>
          let s := hp_set_fut None s in
          let s := match r with Ok _ => foldl (fun s cid => heap_remove_cid cid s) s cids | _ => s end in
          (s, Ready (Some tt))
      | Pending => (s, Pending)
      end
  | None =>
      match AsynBuf_pop_front (hp_inp_cmd_buf s) with
      | (b, Some cmd) => (heap_handle_command cmd (hp_set_inps (hp_inp_buf s) b (hp_inp_proto_buf s) s), Ready (Some tt))
      | (_, None) => (s, Ready None)
      end
  end.

Definition heap_inp_push_try (item : InpItem) (s : ChannelHeap) : ChannelHeap * PushRes InpItem :=
  let '(b, r) := AsynBuf_push_back item (hp_inp_buf s) in
  (hp_set_inps b (hp_inp_cmd_buf s) (hp_inp_proto_buf s) s, r).

Definition heap_inp_is_space (s : ChannelHeap) : bool := AsynBuf_is_space (hp_inp_buf s).

(** The input is done: each active handler hears of it. *)
Definition ce_inp_done (e : ChannelEntry) : option ChannelEntry :=
  match ce_handler e with
  | ChHandlerActive h => (fun h => mkChannelEntry (ce_name e) (ChHandlerActive h)) <$> ch_inp_done h
  | ChHandlerDone => Some e
  end.

Definition heap_inp_done (s : ChannelHeap) : outcome unit ChannelHeap :=
  let s := hp_set_misc (hp_state s) true (hp_cmd_exec_fut s) (hp_disconnect_on_idle s) (hp_clock s) s in
  if bool_decide (map_Forall (fun _ e => is_Some (ce_inp_done e)) (hp_by_cid s)) then
    Ok (hp_set_by_cid (omap ce_inp_done (hp_by_cid s)) s)
  else Panic.

(** The input is sorted into commands and messages while both have space. *)
Fixpoint heap_sort_inputs (items : list InpItem) (s : ChannelHeap) : ChannelHeap :=
  match items with
  | [] => s
  | x :: rest =>
      if AsynBuf_is_space (hp_inp_cmd_buf s) && AsynBuf_is_space (hp_inp_proto_buf s) then
        let inp := mkAsynBuf rest (ab_cap (hp_inp_buf s)) in
        heap_sort_inputs rest
          match x with
          | InpCmd c => hp_set_inps inp (AsynBuf_push_back_force c (hp_inp_cmd_buf s)) (hp_inp_proto_buf s) s
          | InpCaMsg m => hp_set_inps inp (hp_inp_cmd_buf s) (AsynBuf_push_back_force m (hp_inp_proto_buf s)) s
          end
      else s
  end.

Definition heap_status_info (s : ChannelHeap) : list (string * Z * bool) :=
  omap (fun cid => (fun e => (ce_name e, cid, match ce_handler e with ChHandlerActive _ => true | _ => false end)) <$> hp_by_cid s !! cid)
    (heap_order (dom (hp_by_cid s))).

(** *** The poll loop *)

(** What a wake-up does, from within the code or from elsewhere. *)
Definition heap_wake (cid : Z) (s : ChannelHeap) : ChannelHeap := hp_set_wakeup ({[cid]} ∪ hp_wakeup_cids s) s.

Definition heap_poll_some {A} (p : Poll (option A)) : bool := match p with Ready (Some _) => true | _ => false end.
Definition heap_poll_pending {A} (p : Poll (option A)) : bool := match p with Pending => true | _ => false end.

(** How a turn of the loop ends. *)
Inductive heap_turn_end : Type :=
  | HtContinue
  | HtBreak (r : Poll (option (outcome unit (AsynBuf (Z * HeapItemInner ch_data))))).

Definition heap_turn_running (hf : nat) (s : ChannelHeap) : ChannelHeap * option heap_turn_end :=
  let '(s, r1) := heap_poll_outer_cmd s in
  let s := heap_sort_inputs (ab_buf (hp_inp_buf s)) s in
  match heap_dispatch_input_to_channels s with
  | (s, Ready (Some (Err e))) => (s, Some (HtBreak (Ready (Some (Err e)))))
  | (s, r2) =>
      match heap_poll_all_handler hf s with
      | (s, None) => (s, None)
      | (s, Some (Ready (Some (Err e)))) => (hp_set_state HeapDone s, Some (HtBreak (Ready (Some (Err e)))))
      | (s, Some (Ready (Some Panic))) => (s, Some (HtBreak (Ready (Some Panic))))
      | (s, Some r3) =>
          let progress := heap_poll_some r1 || heap_poll_some r2 || heap_poll_some r3 in
          let pending := heap_poll_pending r1 || heap_poll_pending r2 || heap_poll_pending r3 in
          let idle := hp_disconnect_on_idle s && negb progress && (size (hp_by_cid s) =? 0)%nat in
          let s := if idle then hp_set_state HeapDone s else s in
          (s, Some (if progress || idle then HtContinue else HtBreak (if pending then Pending else Ready None)))
      end
  end.

Definition heap_turn (hf : nat) (s : ChannelHeap) : ChannelHeap * option heap_turn_end :=
  let '(s, _) := hp_now s in
  if negb (AsynBuf_len (hp_out_buf s) =? 0)%nat then
    let '(out, items) := AsynBuf_take (hp_out_buf s) in
    (hp_set_out out s, Some (HtBreak (Ready (Some (Ok items)))))
  else
    match hp_state s with
    | HeapRunning => heap_turn_running hf s
    | HeapDone => (s, Some (HtBreak (Ready None)))
    end.

(** [turns] are left before [i1 max]; [None]: a loop over the handlers takes more
    than [hf] turns. *)
Fixpoint heap_poll_loop (hf turns : nat) (s : ChannelHeap) :
    ChannelHeap * option (Poll (option (outcome unit (AsynBuf (Z * HeapItemInner ch_data))))) :=
  match turns with
  | O => (s, Some (Ready (Some Panic)))
  | S turns =>
      match heap_turn hf s with
      | (s, Some HtContinue) => heap_poll_loop hf turns s
      | (s, Some (HtBreak r)) => (s, Some r)
      | (s, None) => (s, None)
      end
  end.

Definition HEAP_TURNS_MAX : nat := Z.to_nat 8000.

Definition heap_poll_next (hf : nat) (s : ChannelHeap) := heap_poll_loop hf HEAP_TURNS_MAX s.

(** *** What may happen to the heap *)

Inductive heap_step : ChannelHeap -> ChannelHeap -> Prop :=
  | hs_add name s : heap_step s (heap_channel_add name s)
  | hs_idle s : heap_step s (heap_disconnect_on_idle s)
  | hs_push item s : heap_step s (heap_inp_push_try item s).1
  | hs_done s s' : heap_inp_done s = Ok s' -> heap_step s s'
  | hs_wake cid s : heap_step s (heap_wake cid s)
  | hs_poll hf s s' r : heap_poll_next hf s = (s', Some r) -> heap_step s s'.

End ChannelHeap.

(** ** A handler to try the heap with

    It puts out what it is given to say, then one value per message it has. *)
Record SimHandler : Type := mkSimHandler {
  sim_cid : Z;
  sim_queue : list ProtoRxItem;
  sim_cap : nat;
  sim_says : list (ChItemInner unit)
}.

Definition sim_push (it : ProtoRxItem) (h : SimHandler) : SimHandler * option CaMsg :=
  if (length (sim_queue h) <? sim_cap h)%nat then (mkSimHandler (sim_cid h) (sim_queue h ++ [it]) (sim_cap h) (sim_says h), None)
  else (h, Some (prx_msg it)).

Definition sim_poll (h : SimHandler) : SimHandler * Poll (option (outcome unit (ChItemInner unit))) :=
  match sim_says h, sim_queue h with
  | x :: says, _ => (mkSimHandler (sim_cid h) (sim_queue h) (sim_cap h) says, Ready (Some (Ok x)))
  | [], _ :: q => (mkSimHandler (sim_cid h) q (sim_cap h) [], Ready (Some (Ok (ItChannelEventValue tt))))
  | [], [] => (h, Pending)
  end.

Definition sim_ops : ChannelHandlerOps := {|
  ch_handler := SimHandler;
  ch_data := unit;
  ch_new name := mkSimHandler (Z.of_nat (String.length name)) [] 2 [ItLocalLog tt];
  ch_cid := sim_cid;
  ch_sid h := Some (sim_cid h + 100);
  ch_inp_push_try := sim_push;
  ch_inp_done h := Some h;
  ch_poll_next := sim_poll;
  heap_now n := Z.of_nat n;
  heap_cmd_fut _ := Ready (Ok tt);
  heap_order := elements
|}.
