(* ===== verification/CaHeapProofs.v ===== *)
(** * Properties of the channels of a connection

    [heap_reach_wf]: what holds in every state the heap gets into. The maps of
    channels by name and by cid agree, and the buffers do not outgrow the space
    they were made with. *)
From Stdlib Require Import ZArith Lia String.
From stdpp Require Import base numbers option strings list gmap relations.
From S2P Require Import Prelude Items CaProto CaHeap.

#[local] Open Scope Z_scope.
#[local] Arguments Nat.ltb : simpl never.
#[local] Arguments Nat.mul : simpl never.

Section HeapInv.
  Context `{ChannelHandlerOps}.

(** ** The maps of channels *)

(** The names of the channels by cid; [by_name] is the inverse map. *)
Definition heap_names (s : ChannelHeap) : gmap Z string := ce_name <$> hp_by_cid s.

Definition heap_maps_wf (s : ChannelHeap) : Prop :=
  forall name cid, hp_by_name s !! name = Some cid <-> heap_names s !! cid = Some name.

(** ** The buffers *)

Definition ab_wf {T} (cap : nat) (b : AsynBuf T) : Prop := ab_cap b = cap /\ (AsynBuf_len b <= cap)%nat.

Definition heap_bufs_wf (s : ChannelHeap) : Prop :=
  ab_wf INP_BUF_CAP (hp_inp_buf s) /\ ab_wf INP_BUF_CAP (hp_inp_cmd_buf s) /\ ab_wf INP_BUF_CAP (hp_inp_proto_buf s) /\
  (AsynBuf_len (hp_out_buf s) <= S OUT_BUF_MAX_LEN)%nat.

(** What the operations that neither add nor remove a channel keep. *)
Definition heap_keeps (s s' : ChannelHeap) : Prop :=
  heap_names s' = heap_names s /\ hp_by_name s' = hp_by_name s /\ (heap_bufs_wf s -> heap_bufs_wf s').

#[local] Instance heap_keeps_preorder : PreOrder heap_keeps.
Proof. split; [firstorder|intros s1 s2 s3 (?&?&?) (?&?&?); split_and!; auto; congruence]. Qed.

Lemma heap_keeps_wf s s' : heap_keeps s s' -> heap_maps_wf s -> heap_maps_wf s'.
Proof. intros (Hn & Hb & _) Hwf name cid. rewrite Hn, Hb. apply Hwf. Qed.

Lemma ab_push_back_wf {T} cap (x : T) b : (0 < cap)%nat -> ab_wf cap b -> ab_wf cap (AsynBuf_push_back x b).1.
Proof.
  destruct b as [l c]; unfold ab_wf, AsynBuf_push_back, AsynBuf_len, ab_grown; cbn. intros Hc [-> Hl].
  destruct (Nat.eqb_spec (length l) 0) as [E|_]; cbn.
  - rewrite (proj2 (Nat.ltb_lt _ _)) by lia. rewrite length_app; cbn. lia.
  - destruct (Nat.ltb_spec (length l) cap); cbn; rewrite ?length_app; cbn; lia.
Qed.

Lemma ab_space_wf {T} cap (x : T) b : ab_wf cap b -> AsynBuf_is_space b = true -> ab_wf cap (AsynBuf_push_back_force x b).
Proof.
  destruct b as [l c]; unfold ab_wf, AsynBuf_is_space, AsynBuf_push_back_force, AsynBuf_len, ab_grown; cbn.
  intros [-> Hl] Hs. rewrite Hs, length_app. apply Nat.ltb_lt in Hs. cbn. lia.
Qed.

(** What was taken from the front has space there. *)
Lemma ab_pop_push_wf {T} cap (x y : T) b b' : ab_wf cap b -> AsynBuf_pop_front b = (b', Some x) ->
  ab_wf cap b' /\ ab_wf cap (AsynBuf_push_front y b').
Proof.
  destruct b as [[|z l] c]; unfold ab_wf, AsynBuf_pop_front, AsynBuf_push_front, AsynBuf_len, ab_grown; cbn; [done|].
  intros [-> Hl] [= <- <-]; cbn. rewrite (proj2 (Nat.ltb_lt _ _)) by lia. lia.
Qed.

(** ** Each operation *)

(** The entry of a channel changes, the name stays. *)
Lemma heap_names_insert (m : gmap Z ChannelEntry) cid e h : m !! cid = Some e ->
  ce_name <$> <[cid := mkChannelEntry (ce_name e) h]> m = ce_name <$> m.
Proof.
  intros He. rewrite fmap_insert; cbn. apply insert_id. rewrite lookup_fmap, He. done.
Qed.

Lemma heap_keeps_misc st d f i c s : heap_keeps s (hp_set_misc st d f i c s).
Proof. by split_and!. Qed.

Lemma heap_keeps_wakeup w s : heap_keeps s (hp_set_wakeup w s).
Proof. by split_and!. Qed.

Lemma heap_keeps_ioid r s : heap_keeps s (hp_set_ioid r s).
Proof. by split_and!. Qed.

Lemma heap_keeps_entry cid e h s : hp_by_cid s !! cid = Some e ->
  heap_keeps s (hp_set_by_cid (<[cid := mkChannelEntry (ce_name e) h]> (hp_by_cid s)) s).
Proof. intros He. split_and!; [|done..]. by apply heap_names_insert. Qed.

Lemma heap_keeps_store cid e h i r s : hp_by_cid s !! cid = Some e ->
  heap_keeps s (heap_store_handler cid (ce_name e) h i r s).
Proof. intros He. split_and!; [|done..]. by apply heap_names_insert. Qed.

Lemma heap_keeps_push item s : heap_keeps s (heap_inp_push_try item s).1.
Proof.
  unfold heap_inp_push_try. destruct (AsynBuf_push_back item (hp_inp_buf s)) as [b r] eqn:E.
  split_and!; [done..|]. intros (Hi & Hr). split; [|done].
  pose proof (ab_push_back_wf INP_BUF_CAP item _ ltac:(unfold INP_BUF_CAP; lia) Hi) as Hp. by rewrite E in Hp.
Qed.

Lemma heap_keeps_inp_done s s' : heap_inp_done s = Ok s' -> heap_keeps s s'.
Proof.
  unfold heap_inp_done. case_bool_decide as Hall; [|done]. intros [= <-]. split_and!; [|done..].
  unfold heap_names; cbn. apply map_eq; intros cid. rewrite !lookup_fmap, lookup_omap. cbn in Hall.
  destruct (hp_by_cid s !! cid) as [e|] eqn:E; [|done]; cbn.
  destruct (Hall _ _ E) as [e' He']. rewrite He'. unfold ce_inp_done in He'.
  destruct (ce_handler e); simplify_option_eq; [|done]. done.
Qed.

Lemma heap_keeps_sort items s : heap_bufs_wf s -> items = ab_buf (hp_inp_buf s) -> heap_keeps s (heap_sort_inputs items s).
Proof.
  revert s. induction items as [|x rest IH]; intros s Hb E; cbn; [done|].
  destruct (AsynBuf_is_space (hp_inp_cmd_buf s)) eqn:E1; cbn; [|done].
  destruct (AsynBuf_is_space (hp_inp_proto_buf s)) eqn:E2; [|done].
  set (s1 := match x with InpCmd _ => _ | InpCaMsg _ => _ end).
  assert (heap_keeps s s1 /\ ab_buf (hp_inp_buf s1) = rest /\ heap_bufs_wf s1) as (Hk & Ei & Hb1).
  { destruct Hb as ([Ec El] & Hc & Hp & Ho). unfold AsynBuf_len in El. rewrite <- E in El; cbn in El.
    assert (ab_wf INP_BUF_CAP (mkAsynBuf rest (ab_cap (hp_inp_buf s)))) by (split; cbn; [done|]; unfold AsynBuf_len; cbn; lia).
    assert (heap_bufs_wf s1) by (destruct x; split_and!; try done; cbn; by apply ab_space_wf).
    split_and!; try done; by destruct x. }
  etrans; [exact Hk|]. by apply IH.
Qed.

Lemma heap_keeps_resolve item ts s : heap_keeps s (heap_resolve item ts s).1.
Proof.
  unfold heap_resolve. destruct (CaMsg_cid item); [done|]. destruct (CaMsg_subid item).
  - by destruct (SubidRegistry_lookup _ _) as [[]|].
  - destruct (CaMsg_ioid item); [|done]. unfold IoidRegistry_take. destruct (_ !! _) as [[[[] ?] ?]|]; by split_and!.
Qed.

(** A message is taken from the front of the queue, and may be put back there. *)
Lemma heap_keeps_dispatch_msg item ts b s : AsynBuf_pop_front (hp_inp_proto_buf s) = (b, Some item) ->
  heap_keeps s (heap_dispatch_msg item ts (hp_set_proto b s)).1.
Proof.
  intros E. unfold heap_dispatch_msg.
  assert (Hb : forall y, heap_bufs_wf s -> ab_wf INP_BUF_CAP b /\ ab_wf INP_BUF_CAP (AsynBuf_push_front y b)).
  { intros y (_ & _ & Hp & _). by eapply ab_pop_push_wf. }
  assert (Hk : heap_keeps s (hp_set_proto b s)).
  { split_and!; [done..|]. intros Hw. destruct (Hb item Hw). by destruct Hw as (? & ? & ? & ?). }
  destruct (heap_resolve _ _ _) as [s1 r] eqn:Er.
  pose proof (heap_keeps_resolve item ts (hp_set_proto b s)) as Hr. rewrite Er in Hr; cbn in Hr.
  assert (Eb : hp_inp_proto_buf s1 = b).
  { unfold heap_resolve, IoidRegistry_take in Er. repeat case_match; by simplify_eq. }
  destruct r as [[[cid tscmd] tsreg]|]; cbn; [|by etrans].
  destruct (hp_by_cid s1 !! cid) as [e|] eqn:Ee; [|by etrans].
  destruct (ce_handler e) as [h|]; [|by etrans].
  destruct (ch_inp_push_try _ h) as [h' [m|]]; cbn -[hp_set_by_cid].
  - assert (He : heap_keeps s (hp_set_by_cid (<[cid := mkChannelEntry (ce_name e) (ChHandlerActive h')]> (hp_by_cid s1)) s1)).
    { etrans; [exact Hk|]. etrans; [exact Hr|]. by apply heap_keeps_entry. }
    etrans; [|apply heap_keeps_wakeup]. destruct He as (He1 & He2 & He3). split_and!; [done..|].
    intros Hw. destruct (He3 Hw) as (? & ? & ? & ?). split_and!; try done. cbn -[ab_wf]. rewrite Eb. by apply Hb.
  - etrans; [exact Hk|]. etrans; [exact Hr|]. etrans; [|apply heap_keeps_wakeup]. by apply heap_keeps_entry.
Qed.

Lemma heap_keeps_now s : heap_keeps s (hp_now s).1.
Proof. apply heap_keeps_misc. Qed.

Lemma heap_keeps_dispatch_loop fuel s : heap_keeps s (heap_dispatch_loop fuel s).1.
Proof.
  revert s. induction fuel as [|fuel IH]; intros s; cbn; [done|].
  set (s1 := hp_set_misc _ _ _ _ _ _).
  assert (Hs : heap_keeps s s1) by apply heap_keeps_misc.
  change (hp_inp_proto_buf s) with (hp_inp_proto_buf s1).
  destruct (AsynBuf_pop_front (hp_inp_proto_buf s1)) as [b [item|]] eqn:E.
  - pose proof (heap_keeps_dispatch_msg item (heap_now (hp_clock s)) b s1 E) as Hk.
    destruct (heap_dispatch_msg _ _ _) as [s2 []]; cbn in Hk |- *; (etrans; [exact Hs|]); [done|].
    by etrans.
  - by destruct (hp_inp_done s).
Qed.

Lemma heap_keeps_handler_out ts x s : (AsynBuf_len (hp_out_buf s) <= OUT_BUF_MAX_LEN)%nat ->
  heap_keeps s (heap_handler_out ts x s).
Proof.
  intros Hl. destruct x; [done|..]; split_and!; try done; intros (? & ? & ? & ?); split_and!; try done.
  all: unfold AsynBuf_len in *; cbn -[OUT_BUF_MAX_LEN]; rewrite length_app; cbn -[OUT_BUF_MAX_LEN]; lia.
Qed.

Lemma heap_keeps_poll_handlers ts tmp progress pending again s :
  heap_keeps s (heap_poll_handlers ts tmp progress pending again s).1.
Proof.
  revert progress pending again s. induction tmp as [|cid tmp IH]; intros progress pending again s;
    cbn -[OUT_BUF_MAX_LEN heap_store_handler]; destruct (Nat.ltb_spec OUT_BUF_MAX_LEN (AsynBuf_len (hp_out_buf s))); try done.
  set (s1 := hp_set_wakeup _ s). assert (Hs : heap_keeps s s1) by apply heap_keeps_wakeup.
  change (hp_by_cid s) with (hp_by_cid s1).
  destruct (hp_by_cid s1 !! cid) as [e|] eqn:Ee; [|etrans; [exact Hs|apply IH]].
  destruct (ce_handler e) as [h|]; [|etrans; [exact Hs|apply IH]].
  destruct (heap_poll_handler _ _ _ _ _) as [[[h' i] r] p].
  pose proof (fun hh => heap_keeps_store cid e hh i r s1 Ee) as Hst.
  etrans; [exact Hs|].
  destruct p as [[[x| |]|]|]; cbn -[OUT_BUF_MAX_LEN heap_store_handler]; try apply Hst.
  - etrans; [apply Hst|]. etrans; [|apply IH]. by apply heap_keeps_handler_out.
  - etrans; [apply Hst|]. etrans; [|apply IH].
    apply (heap_keeps_store cid (mkChannelEntry (ce_name e) (ChHandlerActive h'))). cbn. apply lookup_insert_eq.
  - etrans; [apply Hst|]. apply IH.
Qed.

Lemma heap_keeps_poll_all_handler_sub s : heap_keeps s (heap_poll_all_handler_sub s).1.
Proof.
  unfold heap_poll_all_handler_sub; cbn. set (s1 := hp_set_misc _ _ _ _ _ _).
  pose proof (heap_keeps_poll_handlers (heap_now (hp_clock s)) (rev (heap_order (hp_wakeup_cids s))) false false [] s1) as Hk.
  destruct (heap_poll_handlers _ _ _ _ _ _) as [s2 [[[e progress] pending] again]]. cbn in Hk.
  assert (heap_keeps s (hp_set_wakeup (list_to_set again ∪ hp_wakeup_cids s2) s2)).
  { etrans; [apply (heap_keeps_misc (hp_state s) (hp_inp_done s) (hp_cmd_exec_fut s) (hp_disconnect_on_idle s) (S (hp_clock s)))|].
    etrans; [exact Hk|]. apply heap_keeps_wakeup. }
  by destruct e.
Qed.

Lemma heap_keeps_poll_all_handler hf s : heap_keeps s (heap_poll_all_handler hf s).1.
Proof.
  revert s. induction hf as [|hf IH]; intros s; cbn -[OUT_BUF_MAX_LEN heap_poll_all_handler_sub]; [done|].
  destruct (_ <=? _)%nat; [done|].
  pose proof (heap_keeps_poll_all_handler_sub s) as Hk.
  destruct (heap_poll_all_handler_sub s) as [s1 [[[| |]|]|]]; cbn in Hk |- *; try done. by etrans.
Qed.

(** ** Channels come and go *)

Definition heap_wf (s : ChannelHeap) : Prop := heap_maps_wf s /\ heap_bufs_wf s.

Lemma heap_keeps_heap_wf s s' : heap_keeps s s' -> heap_wf s -> heap_wf s'.
Proof. intros Hk [Hm Hb]. split; [by eapply heap_keeps_wf|by apply Hk]. Qed.

Lemma heap_new_wf : heap_wf heap_new.
Proof.
  split; [|split_and!; try split; cbn; unfold AsynBuf_len, INP_BUF_CAP; cbn; done || lia].
  intros name cid. unfold heap_names; cbn. rewrite fmap_empty, !lookup_empty. done.
Qed.

Lemma heap_channel_add_wf name s : heap_wf s -> heap_wf (heap_channel_add name s).
Proof.
  intros [Hm Hb]. unfold heap_channel_add. destruct (hp_by_name s !! name) eqn:En; [done|].
  destruct (hp_by_cid s !! ch_cid (ch_new name)) eqn:Ec; [done|]. split; [|done].
  intros name' cid'. unfold heap_names; cbn. rewrite fmap_insert; cbn.
  pose proof (Hm name' cid') as Hm'. unfold heap_names in Hm'.
  destruct (decide (name' = name)) as [->|Hn], (decide (cid' = ch_cid (ch_new name))) as [->|Hcid];
    rewrite ?lookup_insert_eq, ?lookup_insert_ne by done.
  - done.
  - split; [naive_solver|]. rewrite <- Hm', En. done.
  - split; [|naive_solver]. rewrite Hm', lookup_fmap, Ec. done.
  - done.
Qed.

Lemma heap_remove_cid_wf cid s : heap_wf s -> heap_wf (heap_remove_cid cid s).
Proof.
  intros [Hm Hb]. unfold heap_remove_cid. destruct (SubidRegistry_remove cid (hp_subid_reg s)) as [r n].
  destruct (hp_by_cid s !! cid) as [c|] eqn:Ec; (split; [|done]); [|done].
  intros name' cid'. unfold heap_names; cbn. rewrite fmap_delete.
  pose proof (Hm (ce_name c) cid) as Hc. unfold heap_names in Hc. rewrite lookup_fmap, Ec in Hc.
  pose proof (Hm name' cid') as Hm'. unfold heap_names in Hm'.
  destruct (decide (name' = ce_name c)) as [->|Hn], (decide (cid' = cid)) as [->|Hcid];
    rewrite ?lookup_delete_eq, ?lookup_delete_ne by done.
  - done.
  - split; [done|]. intros E. apply Hm' in E. destruct Hc as [_ Hc]. naive_solver.
  - split; [|done]. intros E. apply Hm' in E. rewrite lookup_fmap, Ec in E. cbn in E. congruence.
  - done.
Qed.

Lemma heap_poll_outer_cmd_wf s : heap_wf s -> heap_wf (heap_poll_outer_cmd s).1.
Proof.
  intros Hw. unfold heap_poll_outer_cmd. destruct (hp_cmd_exec_fut s) as [cids|].
  - destruct (heap_cmd_fut (hp_clock s)) as [r|]; [|done]. cbn.
    assert (heap_wf (hp_set_fut None s)) as Hf by (eapply heap_keeps_heap_wf; [apply heap_keeps_misc|done]).
    destruct r; try done. revert Hf. generalize (hp_set_fut None s).
    induction cids as [|cid cids IH]; intros s1 Hf; cbn; [done|]. apply IH. by apply heap_remove_cid_wf.
  - destruct (AsynBuf_pop_front (hp_inp_cmd_buf s)) as [b [[name]|]] eqn:E; [|done]. cbn.
    destruct Hw as (Hm & Hi & Hc & Hp & Ho).
    exact (conj Hm (conj Hi (conj (proj1 (ab_pop_push_wf _ _ (RemoveChannel name) _ _ Hc E)) (conj Hp Ho)))).
Qed.

Lemma heap_turn_wf hf s : heap_wf s -> heap_wf (heap_turn hf s).1.
Proof.
  intros Hw. unfold heap_turn; cbn. set (s0 := hp_set_misc _ _ _ _ _ _).
  assert (Hw0 : heap_wf s0) by (eapply heap_keeps_heap_wf; [apply heap_keeps_misc|done]).
  destruct (negb _).
  { destruct Hw0 as (Hm & Hi & Hc & Hp & Ho). split_and!; try done. split_and!; try done. cbn. lia. }
  destruct (hp_state s); [|done]. unfold heap_turn_running.
  destruct (heap_poll_outer_cmd s0) as [s1 r1] eqn:E1.
  assert (Hw1 : heap_wf s1) by (apply heap_poll_outer_cmd_wf in Hw0; by rewrite E1 in Hw0).
  set (s2 := heap_sort_inputs _ s1).
  assert (Hw2 : heap_wf s2) by (eapply heap_keeps_heap_wf; [apply heap_keeps_sort; [apply Hw1|done]|done]).
  pose proof (heap_keeps_dispatch_loop (S (AsynBuf_len (hp_inp_proto_buf s2))) s2) as Hk.
  unfold heap_dispatch_input_to_channels. destruct (heap_dispatch_loop _ s2) as [s3 r2]. cbn in Hk.
  assert (Hw3 : heap_wf s3) by (by eapply heap_keeps_heap_wf).
  pose proof (heap_keeps_poll_all_handler hf s3) as Hk4.
  destruct (heap_poll_all_handler hf s3) as [s4 r3]. cbn in Hk4.
  assert (Hw4 : heap_wf s4) by (by eapply heap_keeps_heap_wf).
  assert (heap_wf (hp_set_state HeapDone s4)) by (eapply heap_keeps_heap_wf; [apply heap_keeps_misc|done]).
  repeat case_match; cbn; simplify_eq; try done.
Qed.

Lemma heap_step_wf s s' : heap_step s s' -> heap_wf s -> heap_wf s'.
Proof.
  intros [] Hw.
  - by apply heap_channel_add_wf.
  - eapply heap_keeps_heap_wf; [apply heap_keeps_misc|done].
  - eapply heap_keeps_heap_wf; [apply heap_keeps_push|done].
  - eapply heap_keeps_heap_wf; [by apply heap_keeps_inp_done|done].
  - eapply heap_keeps_heap_wf; [apply heap_keeps_wakeup|done].
  - assert (forall turns s, heap_wf s -> heap_wf (heap_poll_loop hf turns s).1) as Hl.
    { induction turns as [|turns IH]; intros s1 Hw1; cbn -[heap_turn]; [done|].
      pose proof (heap_turn_wf hf s1 Hw1) as Ht. destruct (heap_turn hf s1) as [s2 [[]|]]; cbn in Ht |- *; auto. }
    match goal with E : heap_poll_next _ _ = _ |- _ => specialize (Hl HEAP_TURNS_MAX _ Hw); unfold heap_poll_next in E; rewrite E in Hl end.
    done.
Qed.

(** C33. In every state the heap gets into, by adding channels, by input, by
    wake-ups, by shutting down and by polls: a name is mapped to a cid if and only
    if the channel of this cid has this name (so no two channels have the same
    name); the input, the commands and the messages that wait are at most 128 each
    and their buffers keep the space they were made with; and at most 129 items
    wait to be put out. *)
Theorem heap_reach_wf s : rtc heap_step heap_new s ->
  (forall name cid, hp_by_name s !! name = Some cid <-> ce_name <$> hp_by_cid s !! cid = Some name) /\
  heap_bufs_wf s.
Proof.
  intros Hr. assert (heap_wf s) as [Hm Hb].
  { generalize heap_new_wf. induction Hr as [|s1 s2 s3 Hs _ IH]; [done|]. intros Hw. apply IH. by eapply heap_step_wf. }
  split; [|done]. intros name cid. rewrite (Hm name cid). unfold heap_names. by rewrite lookup_fmap.
Qed.

End HeapInv.

#[local] Existing Instance sim_ops.

(** Two channels are added, one of them twice, and the heap is polled. *)
Definition sim_heap_reached : ChannelHeap :=
  (heap_poll_next 9 (heap_channel_add "a" (heap_channel_add "bb" (heap_channel_add "a" heap_new)))).1.

Lemma heap_reach_wf_witness :
  rtc heap_step heap_new sim_heap_reached /\
  (forall name cid, hp_by_name sim_heap_reached !! name = Some cid <-> ce_name <$> hp_by_cid sim_heap_reached !! cid = Some name) /\
  heap_bufs_wf sim_heap_reached.
Proof.
  assert (Hr : rtc heap_step heap_new sim_heap_reached).
  { eapply rtc_l; [apply (hs_add "a")|]. eapply rtc_l; [apply (hs_add "bb")|]. eapply rtc_l; [apply (hs_add "a")|].
    apply rtc_once. eapply (hs_poll 9). vm_compute. reflexivity. }
  split; [exact Hr|exact (heap_reach_wf sim_heap_reached Hr)].
Defined.
