(* ===== verification/CaHeapRouting.v ===== *)
(** * How messages of the server find their channel

    [subid_routes]: the subscription ids that the heap writes into the messages of
    a channel lead the answers back to it. [heap_dispatch_no_loss]: dispatching
    neither loses nor reorders the messages of a channel, except for the answer to
    a read request that finds the queue of its channel full: its registration is
    taken, and it is the only message that is lost. [heap_ioid_lost]: what then
    becomes of it. *)
From Stdlib Require Import ZArith Lia String.
From stdpp Require Import base numbers option strings list gmap.
From S2P Require Import Prelude Items CaProto CaHeap.

#[local] Open Scope Z_scope.
#[local] Arguments Nat.ltb : simpl never.

(** ** Subscription ids *)

(** What is done to the registry of a connection. *)
Inductive SubidOp : Type :=
  | SoRegister (cid tsreg : Z)
  | SoRemove (cid : Z)
  | SoRemoveSubid (subid : Z).

Definition subid_step (r : SubidRegistry) (op : SubidOp) : SubidRegistry :=
  match op with
  | SoRegister cid tsreg => (SubidRegistry_register cid tsreg r).1
  | SoRemove cid => (SubidRegistry_remove cid r).1
  | SoRemoveSubid subid => SubidRegistry_remove_subid subid r
  end.

Definition subid_run (ops : list SubidOp) (r : SubidRegistry) : SubidRegistry := foldl subid_step r ops.

(** [n] bounds the registrations so far. The two maps are inverse to each other. *)
Record subid_wf (n : Z) (r : SubidRegistry) : Prop := {
  swf_current : 0 <= sr_current r <= n;
  swf_range subid x : sr_subids r !! subid = Some x -> 0 < subid <= sr_current r;
  swf_inverse cid subid : sr_rev r !! cid = Some subid <-> fst <$> sr_subids r !! subid = Some cid
}.

Lemma SubidRegistry_new_wf : subid_wf 0 SubidRegistry_new.
Proof. split; cbn; [lia|intros ? ?; by rewrite lookup_empty|intros ? ?; by rewrite !lookup_empty]. Qed.

Lemma subid_wf_le n m r : n <= m -> subid_wf n r -> subid_wf m r.
Proof. intros Hn []; split; auto; lia. Qed.

Lemma SubidRegistry_register_wf cid ts n r : n + 1 < 2 ^ 32 -> subid_wf n r ->
  subid_wf (n + 1) (SubidRegistry_register cid ts r).1 /\
  sr_rev (SubidRegistry_register cid ts r).1 !! cid = Some (SubidRegistry_register cid ts r).2.
Proof.
  intros Hn Hw. unfold SubidRegistry_register. destruct (sr_rev r !! cid) as [subid|] eqn:E; cbn.
  { split; [|done]. eapply subid_wf_le; [|done]. lia. }
  destruct Hw as [Hc Hr Hi].
  assert (wrap 32 (sr_current r + 1) = sr_current r + 1) as -> by (unfold wrap; rewrite Z.mod_small; lia).
  split; [|by rewrite lookup_insert_eq]. split; cbn; [lia|..].
  - intros k x. destruct (decide (k = sr_current r + 1)) as [->|Hk]; [lia|].
    rewrite lookup_insert_ne by done. intros Hx. apply Hr in Hx. lia.
  - intros c k. destruct (decide (k = sr_current r + 1)) as [->|Hk], (decide (c = cid)) as [->|Hcid];
      rewrite ?lookup_insert_eq, ?lookup_insert_ne by done; cbn.
    + done.
    + split; [|by intros [= ->]]. intros Hx. apply Hi in Hx. apply fmap_Some in Hx as (x & Hx & _). apply Hr in Hx. lia.
    + split; [by intros [= <-]|]. intros Hx. apply Hi in Hx. congruence.
    + apply Hi.
Qed.

(** What is registered stays. *)
Lemma SubidRegistry_register_keeps cid ts n r : n + 1 < 2 ^ 32 -> subid_wf n r ->
  forall k x, sr_subids r !! k = Some x -> sr_subids (SubidRegistry_register cid ts r).1 !! k = Some x.
Proof.
  intros Hn [Hc Hr _] k x Hk. unfold SubidRegistry_register. destruct (sr_rev r !! cid); [done|]. cbn.
  rewrite lookup_insert_ne; [done|]. pose proof (Hr _ _ Hk). unfold wrap. rewrite Z.mod_small; lia.
Qed.

(** A pair is taken out of both maps. *)
Lemma subid_wf_delete n r cid subid : subid_wf n r -> sr_rev r !! cid = Some subid ->
  subid_wf n (mkSubidRegistry (delete subid (sr_subids r)) (delete cid (sr_rev r)) (sr_current r)).
Proof.
  intros [Hc Hr Hi] E. split; cbn; [done|..].
  - intros k x [_ Hx]%lookup_delete_Some. by eapply Hr.
  - intros c k. pose proof (proj1 (Hi cid subid) E) as E'.
    destruct (decide (k = subid)) as [->|Hk], (decide (c = cid)) as [->|Hcid];
      rewrite ?lookup_delete_eq, ?lookup_delete_ne by done; cbn.
    + done.
    + split; [|done]. intros Hx. apply Hi in Hx. congruence.
    + split; [done|]. intros Hx. apply Hi in Hx. congruence.
    + apply Hi.
Qed.

Lemma subid_step_wf n r op : n + 1 < 2 ^ 32 -> subid_wf n r -> subid_wf (n + 1) (subid_step r op).
Proof.
  intros Hn Hw. destruct op as [cid ts|cid|subid]; cbn; [by apply SubidRegistry_register_wf|..];
    (eapply (subid_wf_le n); [lia|]).
  - unfold SubidRegistry_remove. destruct (sr_rev r !! cid) as [subid|] eqn:E; [|done]. cbn.
    rewrite delete_delete_eq. by apply subid_wf_delete.
  - unfold SubidRegistry_remove_subid. destruct (sr_subids r !! subid) as [[cid ts]|] eqn:E; [|done].
    apply subid_wf_delete; [done|]. apply Hw. by rewrite E.
Qed.

Lemma subid_run_wf ops n r : n + Z.of_nat (length ops) < 2 ^ 32 -> subid_wf n r ->
  subid_wf (n + Z.of_nat (length ops)) (subid_run ops r).
Proof.
  revert n r. induction ops as [|op ops IH]; intros n r Hn Hw; cbn [length subid_run foldl] in *.
  - by rewrite Z.add_0_r.
  - replace (n + Z.of_nat (S (length ops))) with (n + 1 + Z.of_nat (length ops)) by lia.
    apply IH; [lia|]. apply subid_step_wf; [lia|done].
Qed.

(** The operations that take the registration away. *)
Definition subid_removes (cid subid : Z) (op : SubidOp) : bool :=
  match op with
  | SoRegister _ _ => false
  | SoRemove c => c =? cid
  | SoRemoveSubid k => k =? subid
  end.

Lemma subid_step_keeps n r op cid subid : subid_wf n r -> subid_removes cid subid op = false ->
  sr_rev r !! cid = Some subid -> sr_rev (subid_step r op) !! cid = Some subid.
Proof.
  intros [_ _ Hi] Ho E. destruct op as [c ts|c|k]; cbn in Ho |- *.
  - unfold SubidRegistry_register. destruct (sr_rev r !! c) eqn:Ec; [done|]. cbn.
    rewrite lookup_insert_ne; [done|congruence].
  - unfold SubidRegistry_remove. destruct (sr_rev r !! c); [|done]. cbn.
    apply Z.eqb_neq in Ho. by rewrite !lookup_delete_ne by done.
  - unfold SubidRegistry_remove_subid. destruct (sr_subids r !! k) as [[c ts]|] eqn:Ek; [|done]. cbn.
    apply Z.eqb_neq in Ho. rewrite lookup_delete_ne; [done|]. intros ->.
    assert (sr_rev r !! cid = Some k) by (apply Hi; by rewrite Ek). congruence.
Qed.

Lemma subid_run_keeps ops n r cid subid : n + Z.of_nat (length ops) < 2 ^ 32 -> subid_wf n r ->
  forallb (fun op => negb (subid_removes cid subid op)) ops = true ->
  sr_rev r !! cid = Some subid -> sr_rev (subid_run ops r) !! cid = Some subid.
Proof.
  revert n r. induction ops as [|op ops IH]; intros n r Hn Hw Hf E; [done|].
  cbn [forallb length subid_run foldl] in *. apply andb_true_iff in Hf as [Ho Hf]. apply negb_true_iff in Ho.
  apply (IH (n + 1)); [lia|apply subid_step_wf; [lia|done]|done|]. by eapply subid_step_keeps.
Qed.

Section Routing.
  Context `{ChannelHandlerOps}.

(** C24. A channel asks to send a subscription request; the message leaves with a
    subscription id. An answer with this id that comes later is resolved to the
    channel, whatever other channels have subscribed and unsubscribed in between,
    as long as the subscription was not removed and the connection has seen fewer
    than [2^32] operations on subscriptions; the id was not in use for another
    channel. *)
Theorem subid_routes h cid tsnow m tscmd ioids ops1 ops2 s item ts :
  Z.of_nat (length ops1) + Z.of_nat (length ops2) + 1 < 2 ^ 32 ->
  let r1 := subid_run ops1 SubidRegistry_new in
  let '(_, r2, out) := heap_handler_item h cid tsnow (ItProtoOutSubid m tscmd) ioids r1 in
  exists subid, out = PhProtoOut (CaMsg_overwrite_subid m subid) /\
    (forall c t, SubidRegistry_lookup subid r1 = Some (c, t) -> c = cid) /\
    (forallb (fun op => negb (subid_removes cid subid op)) ops2 = true ->
     hp_subid_reg s = subid_run ops2 r2 -> CaMsg_cid item = None -> CaMsg_subid item = Some subid ->
     heap_resolve item ts s = (s, Some (cid, ts, ts))).
Proof.
  intros Hn r1. cbn.
  assert (Hw1 : subid_wf (Z.of_nat (length ops1)) r1) by (apply (subid_run_wf ops1 0); [lia|apply SubidRegistry_new_wf]).
  destruct (SubidRegistry_register_wf cid tsnow (Z.of_nat (length ops1)) r1 ltac:(lia) Hw1) as [Hw2 Hr2].
  pose proof (SubidRegistry_register_keeps cid tsnow (Z.of_nat (length ops1)) r1 ltac:(lia) Hw1) as Hk.
  destruct (SubidRegistry_register cid tsnow r1) as [r2 subid]. cbn in Hw2, Hr2, Hk. exists subid. split_and!; [done|..].
  - intros c t Hl. apply Hk in Hl. apply (swf_inverse _ _ Hw2) in Hr2. rewrite Hl in Hr2. by injection Hr2.
  - intros Hf Es Ec Ei. unfold heap_resolve. rewrite Ec, Ei, Es. unfold SubidRegistry_lookup.
    pose proof (subid_run_keeps ops2 (Z.of_nat (length ops1) + 1) r2 cid subid ltac:(lia) Hw2 Hf Hr2) as Hr3.
    apply (swf_inverse _ _ (subid_run_wf ops2 (Z.of_nat (length ops1) + 1) r2 ltac:(lia) Hw2)) in Hr3.
    by apply fmap_Some in Hr3 as ([c t] & -> & ->).
Qed.

End Routing.

(** ** Dispatch *)

(** The contract of [ChannelHandler::inp_push_try]: a queue of bounded length. *)
Class ChannelHandlerLaws (H : ChannelHandlerOps) : Type := {
  ch_queue : ch_handler -> list ProtoRxItem;
  ch_cap : ch_handler -> nat;
  ch_push_law it h :
    let '(h', r) := ch_inp_push_try it h in
    ch_cap h' = ch_cap h /\
    if (length (ch_queue h) <? ch_cap h)%nat then r = None /\ ch_queue h' = ch_queue h ++ [it]
    else r = Some (prx_msg it) /\ ch_queue h' = ch_queue h
}.

Section Dispatch.
  Context `{Hops : ChannelHandlerOps} {Hlaws : ChannelHandlerLaws Hops}.

(** The handler of a channel, the messages that wait in it. *)
Definition heap_active (cid : Z) (s : ChannelHeap) : option ch_handler :=
  e ← hp_by_cid s !! cid; match ce_handler e with ChHandlerActive h => Some h | ChHandlerDone => None end.
Definition heap_queue (cid : Z) (s : ChannelHeap) : list CaMsg := from_option (fun h => prx_msg <$> ch_queue h) [] (heap_active cid s).

(** The channel of a message: by its cid, by the subscription, or by the request
    that it answers, whose registration is then taken. *)
Definition msg_route (subids : SubidRegistry) (ioids : gmap Z (Z * Z * Z * Z)) (m : CaMsg) : option Z :=
  match CaMsg_cid m, CaMsg_subid m, CaMsg_ioid m with
  | Some cid, _, _ => Some cid
  | None, Some subid, _ => fst <$> SubidRegistry_lookup subid subids
  | None, None, Some ioid => (fun x : Z * Z * Z * Z => x.1.1.1) <$> ioids !! ioid
  | None, None, None => None
  end.

(** The id of the request that a message answers, for a message without cid and
    subscription. *)
Definition msg_ioid (m : CaMsg) : option Z :=
  match CaMsg_cid m, CaMsg_subid m with None, None => CaMsg_ioid m | _, _ => None end.

Definition msg_used (ioids : gmap Z (Z * Z * Z * Z)) (m : CaMsg) : gmap Z (Z * Z * Z * Z) :=
  match msg_ioid m with Some ioid => delete ioid ioids | None => ioids end.

(** The messages for a channel, in their order; each answer uses up its request. *)
Fixpoint msgs_for (subids : SubidRegistry) (ioids : gmap Z (Z * Z * Z * Z)) (cid : Z) (l : list CaMsg) : list CaMsg :=
  match l with
  | [] => []
  | m :: l =>
      (if bool_decide (msg_route subids ioids m = Some cid) then [m] else []) ++ msgs_for subids (msg_used ioids m) cid l
  end.

Definition heap_route (s : ChannelHeap) (m : CaMsg) : option Z := msg_route (hp_subid_reg s) (ir_ioids (hp_ioid_reg s)) m.
Definition heap_for (s : ChannelHeap) (cid : Z) (l : list CaMsg) : list CaMsg :=
  msgs_for (hp_subid_reg s) (ir_ioids (hp_ioid_reg s)) cid l.

(** What is on its way to a channel: in its queue, or still to be dispatched. *)
Definition heap_inbound (cid : Z) (s : ChannelHeap) : list CaMsg := heap_queue cid s ++ heap_for s cid (ab_buf (hp_inp_proto_buf s)).

(** The registrations of the answers among the messages at the front are taken, and
    apart from the channel [but] the messages are moved and nothing else. *)
Record heap_moves_but (but : option Z) (s s' : ChannelHeap) : Prop := {
  hm_regs : hp_subid_reg s' = hp_subid_reg s /\ hp_inp_done s' = hp_inp_done s;
  hm_active cid : is_Some (heap_active cid s') <-> is_Some (heap_active cid s);
  hm_inbound cid : is_Some (heap_active cid s) -> but <> Some cid -> heap_inbound cid s' = heap_inbound cid s;
  hm_wakeup cid : cid ∈ hp_wakeup_cids s' \/ (heap_active cid s' = heap_active cid s /\ cid ∉ hp_wakeup_cids s)
}.

Abbreviation heap_moves := (heap_moves_but None).

Lemma heap_moves_trans but s1 s2 s3 : heap_moves s1 s2 -> heap_moves_but but s2 s3 -> heap_moves_but but s1 s3.
Proof.
  intros [(E1 & E3) A W U] [(F1 & F3) B V T]. split.
  - split_and!; congruence.
  - intros cid. rewrite B. apply A.
  - intros cid Hc Hb. rewrite V by (done || by apply A). by apply W.
  - intros cid. destruct (T cid) as [?|[-> ?]]; [by left|]. destruct (U cid) as [?|[-> ?]]; [done|]. by right.
Qed.

(** Resolving a message takes the registration of the request it answers. *)
Lemma heap_resolve_spec m ts s : let '(s1, o) := heap_resolve m ts s in
  hp_by_cid s1 = hp_by_cid s /\ hp_subid_reg s1 = hp_subid_reg s /\ hp_inp_done s1 = hp_inp_done s /\
  hp_inp_proto_buf s1 = hp_inp_proto_buf s /\ hp_wakeup_cids s1 = hp_wakeup_cids s /\
  ir_ioids (hp_ioid_reg s1) = msg_used (ir_ioids (hp_ioid_reg s)) m /\ (fun x : Z * Z * Z => x.1.1) <$> o = heap_route s m.
Proof.
  unfold heap_resolve, heap_route, msg_route, msg_used, msg_ioid, IoidRegistry_take.
  destruct (CaMsg_cid m); [done|]. destruct (CaMsg_subid m).
  - by destruct (SubidRegistry_lookup _ _) as [[]|].
  - destruct (CaMsg_ioid m); [|done]. by destruct (_ !! _) as [[[[]]]|].
Qed.

(** An answer that was resolved once more finds no registration. *)
Lemma msg_route_used subids ioids m ioid : msg_ioid m = Some ioid -> msg_route subids (msg_used ioids m) m = None.
Proof.
  unfold msg_route, msg_used, msg_ioid. destruct (CaMsg_cid m), (CaMsg_subid m); try done. intros ->.
  by rewrite lookup_delete_eq.
Qed.

Lemma msg_used_twice ioids m : msg_used (msg_used ioids m) m = msg_used ioids m.
Proof. unfold msg_used. destruct (msg_ioid m); [|done]. by rewrite delete_delete_eq. Qed.

(** What is on its way when the registries and the buffer are known. *)
Lemma heap_inbound_eq cid s l subids ioids : hp_subid_reg s = subids -> ir_ioids (hp_ioid_reg s) = ioids ->
  ab_buf (hp_inp_proto_buf s) = l -> heap_inbound cid s = heap_queue cid s ++ msgs_for subids ioids cid l.
Proof. by intros <- <- <-. Qed.

(** The handler of a channel and its queue, after the handler of one was stored. *)
Lemma heap_active_insert s s' cid name h c :
  hp_by_cid s' = <[cid := mkChannelEntry name (ChHandlerActive h)]> (hp_by_cid s) ->
  heap_active c s' = if decide (c = cid) then Some h else heap_active c s.
Proof.
  intros E. unfold heap_active. rewrite E. case_decide; [subst; by rewrite lookup_insert_eq|by rewrite lookup_insert_ne].
Qed.

(** A message without an active handler is dropped. *)
Lemma heap_moves_drop m rest s s' : ab_buf (hp_inp_proto_buf s) = m :: rest ->
  (forall cid, heap_route s m = Some cid -> heap_active cid s = None) ->
  hp_by_cid s' = hp_by_cid s -> hp_subid_reg s' = hp_subid_reg s -> hp_inp_done s' = hp_inp_done s ->
  hp_wakeup_cids s' = hp_wakeup_cids s -> ir_ioids (hp_ioid_reg s') = msg_used (ir_ioids (hp_ioid_reg s)) m ->
  ab_buf (hp_inp_proto_buf s') = rest -> heap_moves s s'.
Proof.
  intros E Hd E1 E2 E3 E4 E5 E6.
  assert (Ha : forall c, heap_active c s' = heap_active c s) by (intros c; unfold heap_active; by rewrite E1).
  split; [done|intros c; by rewrite Ha| |].
  - intros cid [h Hh] _. rewrite (heap_inbound_eq cid s' _ _ _ E2 E5 E6), (heap_inbound_eq cid s _ _ _ eq_refl eq_refl E).
    unfold heap_queue. rewrite Ha. cbn [msgs_for]. f_equal.
    rewrite bool_decide_eq_false_2; [done|]. intros Hr. apply Hd in Hr. congruence.
  - intros cid. rewrite E4, Ha. destruct (decide (cid ∈ hp_wakeup_cids s)); auto.
Qed.

(** An active handler gets the message, or refuses it and the message stays; a
    refused answer to a request has lost its registration. *)
Lemma heap_moves_push cid name h it h' b m rest s s' :
  ab_buf (hp_inp_proto_buf s) = m :: rest -> heap_route s m = Some cid -> prx_msg it = m -> heap_active cid s = Some h ->
  hp_by_cid s' = <[cid := mkChannelEntry name (ChHandlerActive h')]> (hp_by_cid s) ->
  hp_subid_reg s' = hp_subid_reg s -> hp_inp_done s' = hp_inp_done s ->
  hp_wakeup_cids s' = {[cid]} ∪ hp_wakeup_cids s -> ir_ioids (hp_ioid_reg s') = msg_used (ir_ioids (hp_ioid_reg s)) m ->
  ab_buf (hp_inp_proto_buf s') = b ->
  (ch_queue h' = ch_queue h ++ [it] /\ b = rest -> heap_moves s s') /\
  (ch_queue h' = ch_queue h /\ b = m :: rest ->
   match msg_ioid m with
   | Some _ =>
       heap_moves_but (Some cid) s s' /\ heap_inbound cid s = heap_queue cid s' ++ m :: heap_for s' cid rest /\ heap_route s' m = None
   | None => heap_moves s s' /\ heap_route s' m = Some cid
   end).
Proof.
  intros E Er Em Ha E1 E2 E3 E4 E5 E6.
  pose proof (fun c => heap_active_insert s s' cid name h' c E1) as Hact.
  assert (Ein : forall c, heap_inbound c s = heap_queue c s ++ (if decide (c = cid) then [m] else []) ++
    msgs_for (hp_subid_reg s) (msg_used (ir_ioids (hp_ioid_reg s)) m) c rest).
  { intros c. rewrite (heap_inbound_eq c s _ _ _ eq_refl eq_refl E). cbn [msgs_for]. unfold heap_route in Er. rewrite Er. do 2 f_equal.
    case_decide; [subst; by rewrite bool_decide_eq_true_2|rewrite bool_decide_eq_false_2 by congruence; done]. }
  assert (Hmk : forall but, (forall c, is_Some (heap_active c s) -> but <> Some c -> heap_inbound c s' = heap_inbound c s) -> heap_moves_but but s s').
  { intros but Hin. split; [done| |done|].
    - intros c. rewrite Hact. case_decide; [|done]. subst. rewrite Ha. by split; eexists.
    - intros c. rewrite E4, Hact. destruct (decide (c ∈ {[cid]} ∪ hp_wakeup_cids s)) as [|Hn]; [by left|right].
      apply not_elem_of_union in Hn as [Hn1 Hn2]. rewrite decide_False; [done|].
      intros ->. by apply Hn1, elem_of_singleton. }
  assert (Hq : forall c, heap_queue c s' = if decide (c = cid) then prx_msg <$> ch_queue h' else heap_queue c s).
  { intros c. unfold heap_queue. rewrite Hact. by case_decide. }
  assert (Hq0 : heap_queue cid s = prx_msg <$> ch_queue h) by (unfold heap_queue; by rewrite Ha).
  split; intros [Hh' Hb].
  - apply Hmk. intros c _ _. rewrite (heap_inbound_eq c s' _ _ _ E2 E5 E6), Ein, Hq, Hb. case_decide; [|done]. subst c.
    rewrite Hq0, Hh', fmap_app, <- app_assoc. cbn. by rewrite Em.
  - assert (Hs : forall c, heap_inbound c s' = heap_queue c s ++
      (if bool_decide (heap_route s' m = Some c) then [m] else []) ++
      msgs_for (hp_subid_reg s) (msg_used (ir_ioids (hp_ioid_reg s)) m) c rest).
    { intros c. rewrite (heap_inbound_eq c s' _ _ _ E2 E5 E6), Hq, Hb. cbn [msgs_for]. rewrite msg_used_twice.
      unfold heap_route. rewrite E2, E5. f_equal. case_decide; [|done]. subst c. by rewrite Hq0, Hh'. }
    destruct (msg_ioid m) as [ioid|] eqn:Ei.
    + assert (Hr : heap_route s' m = None) by (unfold heap_route; rewrite E2, E5; by eapply msg_route_used).
      split_and!; [|rewrite Ein, Hq, !decide_True, Hq0, Hh' by done; unfold heap_for; by rewrite E2, E5|done].
      apply Hmk. intros c _ Hc. rewrite Hs, Ein, Hr, decide_False by congruence. done.
    + assert (Hr : heap_route s' m = Some cid).
      { rewrite <- Er. unfold heap_route. rewrite E2, E5. unfold msg_used. by rewrite Ei. }
      split; [|done]. apply Hmk. intros c _ _. rewrite Hs, Ein, Hr. do 2 f_equal.
      case_decide; [subst; by rewrite bool_decide_eq_true_2|rewrite bool_decide_eq_false_2 by congruence; done].
Qed.

(** How dispatching ends: with nothing left; at a channel whose queue is full; or
    there with the answer to a request, which is then the one message that no
    longer finds its channel. *)
Inductive heap_dispatched (s s' : ChannelHeap) : Poll (option (outcome unit unit)) -> Prop :=
  | HdAll : heap_moves s s' -> ab_buf (hp_inp_proto_buf s') = [] ->
      heap_dispatched s s' (if hp_inp_done s then Ready None else Pending)
  | HdBlocked m rest cid h : heap_moves s s' -> ab_buf (hp_inp_proto_buf s') = m :: rest -> msg_ioid m = None -> heap_route s' m = Some cid ->
      heap_active cid s' = Some h -> (ch_cap h <= length (ch_queue h))%nat -> heap_dispatched s s' Pending
  | HdAnswerLost m rest cid h ioid : heap_moves_but (Some cid) s s' -> ab_buf (hp_inp_proto_buf s') = m :: rest ->
      msg_ioid m = Some ioid -> heap_route s' m = None -> is_Some (heap_active cid s) ->
      heap_inbound cid s = heap_queue cid s' ++ m :: heap_for s' cid rest ->
      heap_active cid s' = Some h -> (ch_cap h <= length (ch_queue h))%nat -> heap_dispatched s s' Pending.

Lemma heap_dispatched_trans s1 s2 s3 r : heap_moves s1 s2 -> heap_dispatched s2 s3 r -> heap_dispatched s1 s3 r.
Proof.
  intros H12 H23. pose proof H12 as [(_ & E3) A W _]. destruct H23.
  - rewrite E3. apply HdAll; [by eapply heap_moves_trans|done].
  - by eapply HdBlocked; [eapply heap_moves_trans|..].
  - assert (is_Some (heap_active cid s1)) by (by apply A).
    eapply HdAnswerLost; [by eapply heap_moves_trans|done..| |done|done]. by rewrite <- (W cid).
Qed.

(** The message at the front. *)
Lemma heap_dispatch_msg_moves m rest ts s s' d : ab_buf (hp_inp_proto_buf s) = m :: rest ->
  heap_dispatch_msg m ts (hp_set_proto (mkAsynBuf rest (ab_cap (hp_inp_proto_buf s))) s) = (s', d) ->
  match d with
  | DispDone => heap_moves s s' /\ ab_buf (hp_inp_proto_buf s') = rest
  | DispBlocked => heap_dispatched s s' Pending
  end.
Proof.
  intros E. set (s0 := hp_set_proto _ s). unfold heap_dispatch_msg.
  pose proof (heap_resolve_spec m ts s0) as Hres. change (heap_route s0 m) with (heap_route s m) in Hres.
  destruct (heap_resolve m ts s0) as [s1 o]. destruct Hres as (F1 & F2 & F3 & F4 & F5 & F6 & F7).
  change (hp_by_cid s0) with (hp_by_cid s) in F1. change (hp_inp_proto_buf s0) with (mkAsynBuf rest (ab_cap (hp_inp_proto_buf s))) in F4.
  assert (Hdrop : (forall cid, heap_route s m = Some cid -> heap_active cid s = None) -> heap_moves s s1 /\ ab_buf (hp_inp_proto_buf s1) = rest).
  { intros Hd. assert (Eb : ab_buf (hp_inp_proto_buf s1) = rest) by (by rewrite F4). split; [|done]. by eapply heap_moves_drop. }
  destruct o as [[[cid tscmd] tsreg]|]; cbn in F7; [|intros [= <- <-]; apply Hdrop; congruence].
  rewrite F1. destruct (hp_by_cid s !! cid) as [e|] eqn:Ee.
  2:{ intros [= <- <-]. apply Hdrop. intros c Hc. rewrite <- F7 in Hc. injection Hc as <-. unfold heap_active. by rewrite Ee. }
  destruct (ce_handler e) as [h|] eqn:Eh.
  2:{ intros [= <- <-]. apply Hdrop. intros c Hc. rewrite <- F7 in Hc. injection Hc as <-. unfold heap_active. rewrite Ee. cbn. by rewrite Eh. }
  assert (Ha : heap_active cid s = Some h) by (unfold heap_active; rewrite Ee; cbn; by rewrite Eh).
  pose proof (ch_push_law (mkProtoRxItem m tscmd tsreg ts) h) as Hp.
  destruct (ch_inp_push_try _ h) as [h' r]. destruct Hp as [Hcap Hp].
  assert (Hpush := fun s2 b => heap_moves_push cid (ce_name e) h (mkProtoRxItem m tscmd tsreg ts) h' b m rest s s2 E (eq_sym F7) eq_refl Ha).
  destruct (Nat.ltb_spec (length (ch_queue h)) (ch_cap h)) as [Hl|Hl]; destruct Hp as [-> Hq]; intros [= <- <-].
  - match goal with |- heap_moves s ?x /\ _ => destruct (Hpush x rest) as [Hm _]; [by cbn; rewrite ?F1, ?F2, ?F3, ?F5, ?F6..|by cbn; rewrite F4|] end.
    split; [by apply Hm|by cbn; rewrite F4].
  - match goal with |- heap_dispatched s ?x _ => destruct (Hpush x (m :: rest)) as [_ Hm]; [by cbn; rewrite ?F1, ?F2, ?F3, ?F5, ?F6..|by cbn; rewrite F4|] end.
    specialize (Hm (conj Hq eq_refl)).
    assert (Ha' : forall x, hp_by_cid x = <[cid:=mkChannelEntry (ce_name e) (ChHandlerActive h')]> (hp_by_cid s) -> heap_active cid x = Some h')
      by (intros x Hx; rewrite (heap_active_insert s x cid _ h' cid Hx); by rewrite decide_True).
    destruct (msg_ioid m) as [ioid|] eqn:Ei.
    + destruct Hm as (Hm & Hin & Hr). eapply (HdAnswerLost _ _ m rest cid h' ioid); [done|by cbn; rewrite F4|done|done|by eexists|done| |by rewrite Hq, Hcap].
      by apply Ha'.
    + destruct Hm as [Hm Hr]. eapply (HdBlocked _ _ m rest cid h'); [done|by cbn; rewrite F4|done|done| |by rewrite Hq, Hcap].
      by apply Ha'.
Qed.

Lemma heap_moves_now s : heap_moves s (hp_now s).1.
Proof. split; [done|done|done|]. intros cid. cbn. destruct (decide (cid ∈ hp_wakeup_cids s)); auto. Qed.

Lemma heap_dispatch_loop_moves fuel s s' r :
  (length (ab_buf (hp_inp_proto_buf s)) < fuel)%nat -> heap_dispatch_loop fuel s = (s', r) -> heap_dispatched s s' r.
Proof.
  revert s. induction fuel as [|fuel IH]; intros s Hl; [lia|]. cbn [heap_dispatch_loop].
  pose proof (heap_moves_now s) as Hn. destruct (hp_now s) as [s1 ts] eqn:En.
  assert (Ep : hp_inp_proto_buf s1 = hp_inp_proto_buf s) by (by injection En as <- _).
  assert (Ed : hp_inp_done s1 = hp_inp_done s) by (by injection En as <- _). cbn in Hn.
  rewrite Ep, Ed. unfold AsynBuf_pop_front. destruct (ab_buf (hp_inp_proto_buf s)) as [|m rest] eqn:Eb.
  { intros Hr. assert (Es : s' = s1 /\ r = if hp_inp_done s then Ready None else Pending) by (destruct (hp_inp_done s); by injection Hr as <- <-).
    destruct Es as [-> ->]. apply HdAll; [done|by rewrite Ep]. }
  rewrite <- Ep. destruct (heap_dispatch_msg _ _ _) as [s2 d] eqn:Em.
  apply heap_dispatch_msg_moves in Em; [|by rewrite Ep]. destruct d.
  - intros [= <- <-]. by eapply heap_dispatched_trans.
  - destruct Em as [Hm Hb]. intros Hr. cbn in Hl. apply IH in Hr; [|rewrite Hb; lia].
    eapply heap_dispatched_trans; [|done]. by eapply heap_moves_trans.
Qed.

(** C23. Dispatching the messages of the server. For each channel with an active
    handler, what waits in its queue followed by what is still to be dispatched to
    it (by its cid, its subscription, or the request that a message answers, each
    request answered once) is the same as before: no message is lost, doubled or
    overtakes another of the channel. There is exactly one exception: the answer to
    a read request that finds the queue of its channel full stays the next message
    to dispatch, but its request is no longer known, so that for its channel it,
    and only it, is missing. A channel whose queue changed is marked to be polled.
    All messages are dispatched, or the front one belongs to a channel whose queue
    is full, and then the turn is pending. *)
Theorem heap_dispatch_no_loss s s' r :
  heap_dispatch_input_to_channels s = (s', r) ->
  (forall cid, is_Some (heap_active cid s') <-> is_Some (heap_active cid s)) /\
  (forall cid, heap_queue cid s' <> heap_queue cid s -> cid ∈ hp_wakeup_cids s') /\
  ((r = (if hp_inp_done s then Ready None else Pending) /\ ab_buf (hp_inp_proto_buf s') = [] /\
    forall c, is_Some (heap_active c s) -> heap_inbound c s' = heap_inbound c s) \/
   (r = Pending /\ exists m rest cid h,
      ab_buf (hp_inp_proto_buf s') = m :: rest /\ heap_active cid s' = Some h /\ (ch_cap h <= length (ch_queue h))%nat /\
      (forall c, is_Some (heap_active c s) -> c <> cid -> heap_inbound c s' = heap_inbound c s) /\
      match msg_ioid m with
      | None => heap_route s' m = Some cid /\ heap_inbound cid s' = heap_inbound cid s
      | Some _ => heap_route s' m = None /\ heap_inbound cid s = heap_queue cid s' ++ m :: heap_for s' cid rest
      end)).
Proof.
  intros Hd. apply heap_dispatch_loop_moves in Hd; [|unfold AsynBuf_len; lia].
  assert (Hm : exists but, heap_moves_but but s s') by (destruct Hd; by eexists). destruct Hm as (but & [_ A _ U]).
  split_and!; [done|intros cid Hc; destruct (U cid) as [|[He _]]; [done|]; unfold heap_queue in Hc; by rewrite He in Hc|].
  destruct Hd as [Hm E|m rest cid h Hm E Ei Hr Hh Hf|m rest cid h ioid Hm E Ei Hr Hs Hin Hh Hf].
  - left. split_and!; [done|done|]. intros c Hc. by apply Hm.
  - right. split; [done|]. exists m, rest, cid, h. rewrite Ei. split_and!; [done|done|done|intros c Hc _; by apply Hm|done|].
    apply Hm; [|done]. apply (hm_active _ _ _ Hm). by eexists.
  - right. split; [done|]. exists m, rest, cid, h. rewrite Ei. split_and!; [done|done|done| |done|done].
    intros c Hc Hn. apply Hm; [done|congruence].
Qed.

(** An answer to a read request that finds the queue of its channel full. It
    stays the next message to dispatch, but its registration is gone: when it is
    dispatched again, in whatever state that is, it is dropped, and the channel
    waits for its answer in vain. *)
Theorem heap_ioid_lost s s1 r m rest ioid cid sid tscmd tsreg h :
  ab_buf (hp_inp_proto_buf s) = m :: rest -> CaMsg_cid m = None -> CaMsg_subid m = None -> CaMsg_ioid m = Some ioid ->
  ir_ioids (hp_ioid_reg s) !! ioid = Some (cid, sid, tscmd, tsreg) ->
  heap_active cid s = Some h -> (ch_cap h <= length (ch_queue h))%nat ->
  heap_dispatch_input_to_channels s = (s1, r) ->
  r = Pending /\ ab_buf (hp_inp_proto_buf s1) = m :: rest /\ (forall c, heap_queue c s1 = heap_queue c s) /\
  ir_ioids (hp_ioid_reg s1) !! ioid = None /\
  (forall s2 rest2 ts, ir_ioids (hp_ioid_reg s2) !! ioid = None ->
     let '(s3, d) := heap_dispatch_msg m ts (hp_set_proto (mkAsynBuf rest2 (ab_cap (hp_inp_proto_buf s2))) s2) in
     d = DispDone /\ hp_by_cid s3 = hp_by_cid s2 /\ ab_buf (hp_inp_proto_buf s3) = rest2).
Proof.
  intros Eb Ec Es Ei Er Ha Hfull. unfold heap_active in Ha.
  destruct (hp_by_cid s !! cid) as [e|] eqn:Ee; [|done]. cbn in Ha.
  destruct (ce_handler e) as [h0|] eqn:Eh; [injection Ha as ->|done].
  unfold heap_dispatch_input_to_channels, AsynBuf_len. cbn [heap_dispatch_loop hp_now].
  unfold AsynBuf_pop_front. cbn -[heap_dispatch_msg heap_dispatch_loop]. rewrite Eb.
  unfold heap_dispatch_msg at 1, heap_resolve at 1, IoidRegistry_take. rewrite Ec, Es, Ei. cbn -[heap_dispatch_msg heap_dispatch_loop].
  rewrite Er. cbn -[heap_dispatch_msg heap_dispatch_loop]. rewrite Ee, Eh.
  pose proof (ch_push_law (mkProtoRxItem m tscmd tsreg (heap_now (hp_clock s))) h) as Hp.
  destruct (ch_inp_push_try _ h) as [h' x]. destruct Hp as [Hcap Hp].
  rewrite (proj2 (Nat.ltb_ge (length (ch_queue h)) (ch_cap h)) Hfull) in Hp. destruct Hp as [-> Hq].
  intros [= <- <-]. split_and!; [done|done| |by apply lookup_delete_eq|].
  - intros c. unfold heap_queue, heap_active. cbn. destruct (decide (c = cid)) as [->|Hc].
    + rewrite lookup_insert_eq, Ee. cbn. rewrite Eh. cbn. by rewrite Hq.
    + by rewrite lookup_insert_ne by done.
  - intros s2 rest2 ts Hn. unfold heap_dispatch_msg, heap_resolve, IoidRegistry_take. rewrite Ec, Es, Ei. cbn. by rewrite Hn.
Qed.

End Dispatch.

(** ** Examples *)

Definition sim_laws : ChannelHandlerLaws sim_ops.
Proof.
  refine (@Build_ChannelHandlerLaws sim_ops sim_queue sim_cap _).
  intros it h. cbn. unfold sim_push. by destruct (length (sim_queue h) <? sim_cap h)%nat.
Defined.

#[local] Existing Instance sim_ops.
#[local] Existing Instance sim_laws.

(** Channel [a] has cid 1 and channel [bb] cid 2; each queue takes two messages. *)
Definition sim_heap_with (ioids : gmap Z (Z * Z * Z * Z)) (l : list CaMsg) : ChannelHeap :=
  let s := heap_channel_add "bb" (heap_channel_add "a" heap_new) in
  hp_set_proto (mkAsynBuf l 128) (hp_set_ioid (mkIoidRegistry ioids 7) s).

Definition sim_gone (cid t : Z) : CaMsg := CaMsg_from_ty_ts (CaChannelDisconnect (mkChannelDisconnect cid)) t.
Definition sim_evempty (subid t : Z) : CaMsg := CaMsg_from_ty_ts (CaEventAddResEmpty (mkEventAddResEmpty 0 0 subid)) t.
Definition sim_read (ioid t : Z) : CaMsg :=
  CaMsg_from_ty_ts (CaReadNotifyRes (mkReadNotifyRes 0 1 101 ioid 2
    (mkCaEventValue (CaScalarVal (ScI16 5)) (MvTime (mkCaMetaTime 0 0 0 0))))) t.

Lemma subid_routes_witness :
  let ops := [SoRegister 2 0; SoRemove 5] in
  let ask := CaMsg_from_ty_ts (CaEventAdd (mkEventAdd 0 0 101 0)) 0 in
  let s := hp_set_subid (subid_run ops (SubidRegistry_register 1 9 SubidRegistry_new).1) (sim_heap_with ∅ []) in
  let item := sim_evempty 1 0 in
  2 + 1 < 2 ^ 32 /\ heap_resolve item 4 s = (s, Some (1, 4, 4)).
Proof.
  intros ops ask s item. split; [lia|].
  destruct (subid_routes (H := sim_ops) (mkSimHandler 1 [] 2 []) 1 9 ask 0 IoidRegistry_new [] ops s item 4 ltac:(cbn; lia)) as (subid & E & _ & Hr).
  assert (subid = 1) as -> by (vm_compute in E; by injection E).
  apply Hr; by vm_compute.
Defined.

Lemma nil_not_cons {A} (l : list A) x k : l = [] -> l = x :: k -> False.
Proof. by intros ->. Qed.

Lemma cons_fields {A} (l : list A) x k y j : l = x :: k -> l = y :: j -> x = y /\ k = j.
Proof. by intros -> [= <- <-]. Qed.

(** The answer, the fourth message, finds the queue of channel 1 full: for channel
    1 it is missing from what is on its way, and nothing is for channel 2. *)
Lemma heap_dispatch_no_loss_witness :
  let s := sim_heap_with {[7 := (1, 101, 0, 0)]} [sim_gone 1 0; sim_gone 1 1; sim_gone 9 2; sim_read 7 3; sim_gone 1 4; sim_gone 2 5] in
  let r := heap_dispatch_input_to_channels s in
  heap_inbound 1 s = [sim_gone 1 0; sim_gone 1 1; sim_read 7 3; sim_gone 1 4] /\
  heap_inbound 1 r.1 = [sim_gone 1 0; sim_gone 1 1; sim_gone 1 4] /\ ab_buf (hp_inp_proto_buf r.1) = [sim_read 7 3; sim_gone 1 4; sim_gone 2 5] /\
  (forall cid, is_Some (heap_active cid r.1) <-> is_Some (heap_active cid s)) /\
  (forall cid, heap_queue cid r.1 <> heap_queue cid s -> cid ∈ hp_wakeup_cids r.1) /\
  heap_inbound 2 r.1 = heap_inbound 2 s.
Proof.
  intros s r. destruct (heap_dispatch_no_loss s r.1 r.2 (surjective_pairing _)) as (Ha & Hw & Hr).
  assert (E : ab_buf (hp_inp_proto_buf r.1) = [sim_read 7 3; sim_gone 1 4; sim_gone 2 5]) by (vm_compute; reflexivity).
  split; [vm_compute; reflexivity|]. split; [vm_compute; reflexivity|]. split; [exact E|]. split; [exact Ha|]. split; [exact Hw|].
  destruct Hr as [(_ & E0 & _)|(_ & m & rest & cid & h & Em & _ & _ & Hin & Hm)]; [destruct (nil_not_cons _ _ _ E0 E)|].
  destruct (cons_fields _ _ _ _ _ Em E) as [-> ->]. apply Hin; [vm_compute; eexists; reflexivity|].
  intros <-. destruct Hm as [_ Hl]. apply (f_equal length) in Hl. vm_compute in Hl. discriminate Hl.
Defined.

Lemma heap_ioid_lost_witness :
  let s := sim_heap_with {[7 := (1, 101, 0, 0)]} [sim_gone 1 0; sim_gone 1 1; sim_gone 1 2] in
  let s := (heap_dispatch_input_to_channels s).1 in
  let s := hp_set_proto (mkAsynBuf [sim_read 7 5] 128) s in
  let r := heap_dispatch_input_to_channels s in
  r.2 = Pending /\ ab_buf (hp_inp_proto_buf r.1) = [sim_read 7 5] /\ (forall c, heap_queue c r.1 = heap_queue c s) /\
  ir_ioids (hp_ioid_reg r.1) !! 7 = None.
Proof.
  intros s0 s1 s r.
  destruct (heap_ioid_lost (Hops := sim_ops) s r.1 r.2 (sim_read 7 5) [] 7 1 101 0 0
    (mkSimHandler 1 [mkProtoRxItem (sim_gone 1 0) 0 0 0; mkProtoRxItem (sim_gone 1 1) 1 1 1] 2 [ItLocalLog tt])
    ltac:(by vm_compute) ltac:(done) ltac:(done) ltac:(done) ltac:(by vm_compute) ltac:(by vm_compute) ltac:(vm_compute; lia)
    (surjective_pairing _)) as (H1 & H2 & H3 & H4 & _).
  exact (conj H1 (conj H2 (conj H3 H4))).
Defined.
