(* ===== verification/CaHeapLive.v ===== *)
(** * The poll loop over the channels comes to rest

    [heap_handlers_settle]: when each handler has only finitely much to do without
    new input, [poll_all_handler] returns: the output is full, a handler failed, or
    no channel is left marked to be polled. *)
From Stdlib Require Import ZArith Lia String.
From stdpp Require Import base numbers option strings list gmap.
From S2P Require Import Prelude Items CaProto CaHeap.

#[local] Open Scope Z_scope.
#[local] Arguments Nat.ltb : simpl never.
#[local] Arguments Nat.leb : simpl never.
#[local] Arguments Nat.mul : simpl never.

(** [ch_left] bounds how many items a handler still puts out before it
    fails; a walk through
    a hash map visits each key once. *)
Class ChannelHandlerFinite (H : ChannelHandlerOps) : Type := {
  ch_left : ch_handler -> nat;
  ch_left_law h :
    match ch_poll_next h with
    | (h', Ready (Some (Ok _))) => (ch_left h' < ch_left h)%nat
    | (_, Ready (Some _)) => True
    | (h', _) => (ch_left h' <= ch_left h)%nat
    end;
  heap_order_law X : heap_order X ≡ₚ elements X
}.

(** The handlers of the examples: what they say, and one value per message. *)
Definition sim_left (h : SimHandler) : nat := (length (sim_says h) + length (sim_queue h))%nat.

Definition sim_finite : ChannelHandlerFinite sim_ops.
Proof.
  refine (@Build_ChannelHandlerFinite sim_ops sim_left _ _); [|done].
  intros [cid [|it q] cap [|x says]]; cbn; unfold sim_left; cbn; lia.
Defined.

Section Settle.
  Context `{Hops : ChannelHandlerOps} {Hfin : ChannelHandlerFinite Hops}.

Definition ce_left (e : ChannelEntry) : nat :=
  match ce_handler e with ChHandlerActive h => ch_left h | ChHandlerDone => 0%nat end.

Definition heap_left (m : gmap Z ChannelEntry) : nat := map_fold (fun _ e n => (ce_left e + n)%nat) 0%nat m.

(** What is left to do. *)
Definition heap_work (s : ChannelHeap) : nat := (2 * heap_left (hp_by_cid s) + size (hp_wakeup_cids s))%nat.

Lemma heap_left_delete m cid e : m !! cid = Some e -> heap_left m = (ce_left e + heap_left (delete cid m))%nat.
Proof. intros He. unfold heap_left. apply (map_fold_delete_L (fun _ e n => (ce_left e + n)%nat)); [intros; lia|done]. Qed.

Lemma heap_left_insert m cid e e' : m !! cid = Some e -> (heap_left (<[cid := e']> m) + ce_left e = heap_left m + ce_left e')%nat.
Proof.
  intros He. rewrite (heap_left_delete m cid e He), (heap_left_delete _ cid e' (lookup_insert_eq _ _ _)).
  rewrite delete_insert_eq. lia.
Qed.

(** A poll of a handler does some of the work, or the handler has none. *)
Lemma heap_poll_handler_left h cid ts i r :
  match heap_poll_handler h cid ts i r with
  | (h', _, _, Ready (Some (Ok _))) => (ch_left h' < ch_left h)%nat
  | (_, _, _, Ready (Some _)) => True
  | (h', _, _, _) => (ch_left h' <= ch_left h)%nat
  end.
Proof.
  pose proof (ch_left_law h) as Hl. unfold heap_poll_handler.
  destruct (ch_poll_next h) as [h' [[[x| |]|]|]]; try done. by destruct (heap_handler_item _ _ _ _ _ _) as [[]].
Qed.

(** The errors of the handlers. *)
Definition handlers_fail : Prop := exists h, (ch_poll_next h).2 = Ready (Some (Err tt)) \/ (ch_poll_next h).2 = Ready (Some Panic).

Lemma heap_poll_handler_fail h cid ts i r :
  match heap_poll_handler h cid ts i r with
  | (_, _, _, Ready (Some (Err _))) | (_, _, _, Ready (Some Panic)) => handlers_fail
  | _ => True
  end.
Proof.
  unfold heap_poll_handler, handlers_fail. destruct (ch_poll_next h) as [h' [[[x|[]|]|]|]] eqn:E; try done.
  - by destruct (heap_handler_item _ _ _ _ _ _) as [[]].
  - exists h. rewrite E. by left.
  - exists h. rewrite E. by right.
Qed.

(** How the loop over the marked channels ends, and what it leaves. *)
Definition handlers_ended (s s' : ChannelHeap) (e : handlers_end) (again again' : list Z) (tmp : list Z) : Prop :=
  match e with
  | HeNone => (2 * heap_left (hp_by_cid s') + length again' <= 2 * heap_left (hp_by_cid s) + length again)%nat /\
      hp_wakeup_cids s' = hp_wakeup_cids s ∖ list_to_set tmp
  | HeSome (Ok _) => (OUT_BUF_MAX_LEN < AsynBuf_len (hp_out_buf s'))%nat
  | HeSome _ => handlers_fail
  end.

Lemma handlers_ended_cons s s1 s2 e cid tmp again again1 again2 :
  (2 * heap_left (hp_by_cid s1) + length again1 <= 2 * heap_left (hp_by_cid s) + length again)%nat ->
  hp_wakeup_cids s1 = hp_wakeup_cids s ∖ {[cid]} ->
  handlers_ended s1 s2 e again1 again2 tmp -> handlers_ended s s2 e again again2 (cid :: tmp).
Proof. intros Hl Hw. destruct e as [[]|]; cbn; [done..|]. intros [Hl2 ->]. split; [lia|]. cbn. by rewrite Hw, difference_difference_l_L. Qed.

(** The handler is stored, or put away. *)
Lemma heap_left_store cid e h h' i r s : hp_by_cid s !! cid = Some e -> ce_handler e = ChHandlerActive h ->
  (heap_left (hp_by_cid (heap_store_handler cid (ce_name e) (ChHandlerActive h') i r s)) + ch_left h =
   heap_left (hp_by_cid s) + ch_left h')%nat.
Proof.
  intros He Eh. cbn. pose proof (heap_left_insert _ _ _ (mkChannelEntry (ce_name e) (ChHandlerActive h')) He) as Hi.
  unfold ce_left in Hi. rewrite Eh in Hi. exact Hi.
Qed.

Lemma heap_left_done cid e h i r s : hp_by_cid s !! cid = Some e ->
  (heap_left (hp_by_cid (heap_store_handler cid (ce_name e) ChHandlerDone i r (heap_store_handler cid (ce_name e) h i r s))) <=
   heap_left (hp_by_cid s))%nat.
Proof.
  intros He. cbn. rewrite insert_insert_eq.
  pose proof (heap_left_insert _ _ _ (mkChannelEntry (ce_name e) ChHandlerDone) He) as Hi. cbn in Hi. lia.
Qed.

Lemma heap_handler_out_maps ts x s :
  hp_by_cid (heap_handler_out ts x s) = hp_by_cid s /\ hp_wakeup_cids (heap_handler_out ts x s) = hp_wakeup_cids s.
Proof. by destruct x. Qed.

Lemma heap_poll_handlers_ended ts tmp progress pending again s s' e progress' pending' again' :
  heap_poll_handlers ts tmp progress pending again s = (s', (e, progress', pending', again')) ->
  handlers_ended s s' e again again' tmp /\ (e = HeNone -> progress' = progress || negb (bool_decide (tmp = []))).
Proof.
  revert progress pending again s. induction tmp as [|cid tmp IH]; intros progress pending again s;
    cbn -[OUT_BUF_MAX_LEN heap_store_handler];
    destruct (Nat.ltb_spec OUT_BUF_MAX_LEN (AsynBuf_len (hp_out_buf s))) as [Ho|_]; [by intros [= <- <- <- <- <-]| |by intros [= <- <- <- <- <-]|].
  { intros [= <- <- <- <- <-]. cbn. rewrite orb_false_r, difference_empty_L. by split_and!. }
  set (s1 := hp_set_wakeup _ s). change (hp_by_cid s) with (hp_by_cid s1).
  assert (Hstep : forall pending1 again1 s2,
    (2 * heap_left (hp_by_cid s2) + length again1 <= 2 * heap_left (hp_by_cid s) + length again)%nat ->
    hp_wakeup_cids s2 = hp_wakeup_cids s1 ->
    heap_poll_handlers ts tmp true pending1 again1 s2 = (s', (e, progress', pending', again')) ->
    handlers_ended s s' e again again' (cid :: tmp) /\ (e = HeNone -> progress' = progress || negb (bool_decide (cid :: tmp = [])))).
  { intros ? again1 s2 Hl Hw Hr. apply IH in Hr as [Hr Hp]. split; [by eapply handlers_ended_cons|].
    intros He. rewrite (Hp He). by rewrite orb_true_r. }
  destruct (hp_by_cid s1 !! cid) as [ce|] eqn:Ee; [|by apply Hstep].
  destruct (ce_handler ce) as [h|] eqn:Eh; [|by apply Hstep].
  pose proof (heap_poll_handler_left h cid ts (hp_ioid_reg s1) (hp_subid_reg s1)) as Hl.
  pose proof (heap_poll_handler_fail h cid ts (hp_ioid_reg s1) (hp_subid_reg s1)) as Hf.
  change (hp_ioid_reg s) with (hp_ioid_reg s1). change (hp_subid_reg s) with (hp_subid_reg s1).
  destruct (heap_poll_handler _ _ _ _ _) as [[[h' i] r] p].
  pose proof (heap_left_store cid ce h h' i r s1 Ee Eh) as Ha.
  pose proof (heap_left_done cid ce (ChHandlerActive h') i r s1 Ee) as Hd.
  change (hp_by_cid s1) with (hp_by_cid s) in Ha, Hd.
  destruct p as [[[x| |]|]|].
  - apply Hstep; [|by rewrite (proj2 (heap_handler_out_maps _ _ _))].
    rewrite (proj1 (heap_handler_out_maps _ _ _)), length_app. cbn [length]. lia.
  - by intros [= <- <- <- <- <-].
  - by intros [= <- <- <- <- <-].
  - apply Hstep; [lia|done].
  - apply Hstep; [lia|done].
Qed.

Lemma list_to_set_size_le (l : list Z) : (size (list_to_set l : gset Z) <= length l)%nat.
Proof.
  induction l as [|x l IH]; cbn; [by rewrite size_empty|].
  rewrite size_union_alt, size_singleton.
  assert (list_to_set l ∖ {[x]} ⊆ (list_to_set l : gset Z)) as Hs by set_solver.
  apply subseteq_size in Hs. lia.
Qed.

(** One call: nothing was marked, or the work got less, or it is over. *)
Lemma heap_poll_all_handler_sub_work s s' r : heap_poll_all_handler_sub s = (s', r) ->
  match r with
  | Ready (Some (Ok _)) => (OUT_BUF_MAX_LEN < AsynBuf_len (hp_out_buf s'))%nat \/ (heap_work s' < heap_work s)%nat
  | Ready (Some _) => handlers_fail
  | Ready None => hp_wakeup_cids s' = ∅
  | Pending => False
  end.
Proof.
  unfold heap_poll_all_handler_sub, hp_now. cbn -[OUT_BUF_MAX_LEN heap_poll_handlers].
  set (s0 := hp_set_misc _ _ _ _ _ _). set (marked := rev (heap_order (hp_wakeup_cids s))).
  assert (Hperm : marked ≡ₚ elements (hp_wakeup_cids s)) by (unfold marked; rewrite <- Permutation_rev; apply heap_order_law).
  destruct (decide (marked = [])) as [Em|Em].
  - rewrite Em in Hperm |- *. symmetry in Hperm. apply Permutation_nil_r, elements_empty_iff in Hperm. fold_leibniz.
    cbn -[OUT_BUF_MAX_LEN]. destruct (Nat.ltb_spec OUT_BUF_MAX_LEN (AsynBuf_len (hp_out_buf s))); intros [= <- <-]; [by left|].
    cbn. rewrite Hperm. by rewrite union_empty_l_L.
  - destruct (heap_poll_handlers _ _ _ _ _ _) as [s1 [[[e progress] pending] again]] eqn:E.
    apply heap_poll_handlers_ended in E as [He Hp]. rewrite bool_decide_eq_false_2 in Hp by done.
    destruct e as [[]|]; intros [= <- <-]; cbn -[OUT_BUF_MAX_LEN] in He |- *; [by left|done|done|].
    destruct He as [Hl Hw]. rewrite (Hp eq_refl). cbn [orb negb].
    assert (Hw0 : hp_wakeup_cids s1 = ∅) by (rewrite Hw, Hperm, list_to_set_elements_L; apply difference_diag_L).
    right. unfold heap_work. cbn. rewrite Hw0, union_empty_r_L. pose proof (list_to_set_size_le again) as Hsz.
    assert (size (hp_wakeup_cids s) <> 0)%nat; [|lia].
    intros Hz. apply Em, length_zero_iff_nil. by rewrite (Permutation_length Hperm).
Qed.

(** C34. When each handler has only finitely much left to put out, the loop over
    the handlers ends: with enough fuel it gives a result, and then the output is
    full, or a handler failed, or no channel is left that is marked to be polled. *)
Theorem heap_handlers_settle s hf : (heap_work s + 2 <= hf)%nat ->
  exists s' r, heap_poll_all_handler hf s = (s', Some r) /\
    match r with
    | Ready (Some (Ok _)) => (OUT_BUF_MAX_LEN <= AsynBuf_len (hp_out_buf s'))%nat
    | Ready (Some _) => handlers_fail
    | Ready None => hp_wakeup_cids s' = ∅
    | Pending => False
    end.
Proof.
  revert s. induction hf as [|hf IH]; intros s Hhf; [lia|]. cbn -[OUT_BUF_MAX_LEN heap_poll_all_handler_sub].
  destruct (Nat.leb_spec OUT_BUF_MAX_LEN (AsynBuf_len (hp_out_buf s))) as [Ho|Ho]; [by eexists _, _|].
  destruct (heap_poll_all_handler_sub s) as [s1 r] eqn:E. apply heap_poll_all_handler_sub_work in E.
  destruct r as [[[[]|e|]|]|]; [|by eexists _, _..|done].
  destruct E as [E|E]; [|apply IH; lia].
  destruct hf as [|hf]; [lia|]. cbn -[OUT_BUF_MAX_LEN]. 
  rewrite (proj2 (Nat.leb_le OUT_BUF_MAX_LEN (AsynBuf_len (hp_out_buf s1)))) by lia.
  eexists _, _. split; [done|]. by apply Nat.lt_le_incl.
Qed.

End Settle.

#[local] Existing Instance sim_ops.
#[local] Existing Instance sim_finite.

(** Two channels, freshly added. *)
Definition sim_heap : ChannelHeap := heap_channel_add "bb" (heap_channel_add "a" heap_new).

Lemma heap_handlers_settle_witness :
  (heap_work sim_heap + 2 <= 8)%nat /\
  exists s' r, heap_poll_all_handler 8 sim_heap = (s', Some r) /\
    match r with
    | Ready (Some (Ok _)) => (OUT_BUF_MAX_LEN <= AsynBuf_len (hp_out_buf s'))%nat
    | Ready (Some _) => handlers_fail
    | Ready None => hp_wakeup_cids s' = ∅
    | Pending => False
    end.
Proof.
  assert (Hw : (heap_work sim_heap + 2 <= 8)%nat) by (vm_compute; repeat constructor).
  split; [exact Hw|exact (heap_handlers_settle sim_heap 8 Hw)].
Defined.

(** Both logs are put out. *)
Example sim_heap_settles :
  (fun '(s, r) => (ab_buf (hp_out_buf s), r)) (heap_poll_all_handler 8 sim_heap) =
  ([(0, HiLocalLog tt); (0, HiLocalLog tt)], Some (Ready None)).
Proof. vm_compute. reflexivity. Qed.
