(* ===== verification/Conn.v ===== *)
(** * A connection to a channel access server

    [daqbuf-netfetch/src/ca/conn2]: the handshake ([conn/handshake.rs]), the
    queue in front of the protocol ([protowrap.rs]), the part that serves the
    channels once the handshake is done ([conn/activeca.rs]), the connection that
    joins them ([conn/connected.rs]), and its owner with the ticker and the task
    that sends what it puts out ([conn.rs]).

    The channels are an interface ([ChanHeapOps]), which [ChannelHeap] implements
    ([channel_heap_ops]). Each [poll_next] is a loop over one turn; the number of
    turns is fuel, and [None] says that it was not enough. Metrics, logs, reports
    of state and the JSON commands are left out. *)
From Stdlib Require Import ZArith Lia String.
From stdpp Require Import base numbers option strings list gmap.
From S2P Require Import Prelude Utf8 Items ByteBuf CaProto CaStream CaHeap.

#[local] Open Scope Z_scope.

(** ** Surroundings *)

(** The clock in milliseconds, by the number of the reading, and whether the
    channel that takes the answer to a command has room. *)
Class ConnEnv : Type := {
  cn_now : nat -> Z;
  cn_done_send : nat -> bool
}.

Definition PushRes_is_fail {T} (r : PushRes T) : bool := match r with PushFull _ => true | _ => false end.

Definition AsynBuf_from_deque {T} (l : list T) : AsynBuf T := mkAsynBuf l (length l).

(** ** Handshake *)

Inductive HsItem : Type :=
  | HsCaMsg (m : CaMsg)
  | HsHandshakeDone.

Inductive HsError : Type := HsEpicsVersion (n : Z).

Inductive HsState : Type :=
  | HsHelloSend (msgs : list CaMsg)
  | HsHelloRecv
  | HsDone.

Record Handshake : Type := mkHandshake { hs_state : HsState; hs_inp_buf : AsynBuf CaMsg }.

Definition HelloSend_new (tsnow : Z) : list CaMsg :=
  let hostname := bytes_of_string "data-api.psi.ch" in
  [CaMsg_from_ty_ts CaVersion tsnow; CaMsg_from_ty_ts CaClientName tsnow; CaMsg_from_ty_ts (CaHostName hostname) tsnow].

Definition hs_new (tsnow : Z) : Handshake := mkHandshake (HsHelloSend (HelloSend_new tsnow)) (AsynBuf_new 16).

Definition hs_dismantle (s : Handshake) : AsynBuf CaMsg := hs_inp_buf s.

Definition hs_to_dummy : Handshake := mkHandshake HsDone (AsynBuf_new 16).

Definition hs_inp_push_try (item : CaMsg) (s : Handshake) : Handshake * PushRes CaMsg :=
  let '(b, r) := AsynBuf_push_back item (hs_inp_buf s) in (mkHandshake (hs_state s) b, r).

(** A message is taken; the version of the server ends the handshake, all else
    is dropped. *)
Definition hs_recv (s : Handshake) : Handshake * Poll (option (outcome HsError HsItem)) :=
  match AsynBuf_pop_front (hs_inp_buf s) with
  | (b, Some item) =>
      match cm_ty item with
      | CaVersionRes n =>
          if (n <? 12) || (13 <? n) then (mkHandshake HsDone b, Ready (Some (Err (HsEpicsVersion n))))
          else (mkHandshake HsDone b, Ready (Some (Ok HsHandshakeDone)))
      | _ => (mkHandshake (hs_state s) b, Ready None)
      end
  | (_, None) => (s, Ready None)
  end.

(** Only the change from [HsHelloSend] to [HsHelloRecv] makes the loop turn
    again. *)
Definition hs_poll_next (s : Handshake) : Handshake * Poll (option (outcome HsError HsItem)) :=
  match hs_state s with
  | HsHelloSend (msg :: msgs) => (mkHandshake (HsHelloSend msgs) (hs_inp_buf s), Ready (Some (Ok (HsCaMsg msg))))
  | HsHelloSend [] => hs_recv (mkHandshake HsHelloRecv (hs_inp_buf s))
  | HsHelloRecv => hs_recv s
  | HsDone => (s, Ready None)
  end.

(** ** The queue in front of the protocol *)

Inductive PwState : Type := PwRunning | PwDone.

Definition PROTO_OUT_BUF_CAP : nat := 3.

Section ProtoPusher.
  Context `{NetBuf} `{CaEnv}.

Record ProtoPusher : Type := mkProtoPusher { pw_state : PwState; pw_proto : CaProto; pw_out_buf : AsynBuf CaMsg }.

Definition pw_new (proto : CaProto) : ProtoPusher := mkProtoPusher PwRunning proto (AsynBuf_new PROTO_OUT_BUF_CAP).

Definition pw_is_space (s : ProtoPusher) : bool := AsynBuf_is_space (pw_out_buf s).
Definition pw_out_len (s : ProtoPusher) : nat := AsynBuf_len (pw_out_buf s).

Definition pw_push_back_or_drop (item : CaMsg) (s : ProtoPusher) : ProtoPusher :=
  mkProtoPusher (pw_state s) (pw_proto s) (AsynBuf_push_back item (pw_out_buf s)).1.
Definition pw_push_back_force (item : CaMsg) (s : ProtoPusher) : ProtoPusher :=
  mkProtoPusher (pw_state s) (pw_proto s) (AsynBuf_push_back_force item (pw_out_buf s)).

Definition pw_poll_proto (fuel : nat) (s : ProtoPusher) : ProtoPusher * ca_out :=
  let '(proto, r) := cp_poll_next fuel (pw_proto s) in
  (mkProtoPusher (match r with CaOut (Ready None) => PwDone | _ => pw_state s end) proto (pw_out_buf s), r).

Definition pw_poll_outbound (s : ProtoPusher) : ProtoPusher * Poll (option (outcome ca_error unit)) :=
  let '(proto, r) := cp_poll_outbound (pw_proto s) in
  (mkProtoPusher (pw_state s) proto (pw_out_buf s), match r with Some x => x | None => Ready None end).

(** Messages move on while the protocol has space; each turn moves one. *)
Fixpoint pw_flush (fuel : nat) (s : ProtoPusher) : ProtoPusher :=
  match fuel with
  | O => s
  | S fuel =>
      if cp_proto_out_space (pw_proto s) then
        match AsynBuf_pop_front (pw_out_buf s) with
        | (b, Some x) => pw_flush fuel (mkProtoPusher (pw_state s) (cp_push_out x (pw_proto s)) b)
        | (_, None) => s
        end
      else s
  end.

(** The loop does not turn again. *)
Definition pw_poll_next (fuel : nat) (s : ProtoPusher) : ProtoPusher * ca_out :=
  match pw_state s with
  | PwRunning => pw_poll_proto fuel (pw_flush (S (pw_out_len s)) s)
  | PwDone => (s, CaOut (Ready None))
  end.

End ProtoPusher.

(** ** Serving the channels *)

(** What the connection uses of the channels. [ah_cmd_done]: no command is
    waiting or under way; [ah_poll_next] gives [None] where the loops of the
    channels do not come to rest. *)
Class ChanHeapOps : Type := {
  ah_heap : Type;
  ah_data : Type;
  ah_new : ah_heap;
  ah_channel_add : string -> ah_heap -> ah_heap;
  ah_disconnect_on_idle : ah_heap -> ah_heap;
  ah_inp_is_space : ah_heap -> bool;
  ah_inp_push_try : InpItem -> ah_heap -> ah_heap * PushRes InpItem;
  ah_cmd_done : ah_heap -> bool;
  ah_poll_next : ah_heap -> ah_heap * option (Poll (option (outcome unit (AsynBuf (Z * HeapItemInner ah_data)))))
}.

(** What [ChanHeapOps] promises: a push is refused only when there is no space,
    and gives back what was to be pushed. *)
Class ChanHeapLaws (H : ChanHeapOps) : Prop := {
  ah_space x h : ah_inp_is_space h = true -> PushRes_is_fail (ah_inp_push_try x h).2 = false;
  ah_full x h y : (ah_inp_push_try x h).2 = PushFull y -> y = x
}.

(** [done_tx] is the number of the channel for the answer. *)
Inductive CaCommand : Type :=
  | CkChannelAdd (name : string) (done_tx : nat)
  | CkChannelRemove (name : string) (done_tx : nat)
  | CkDisconnectOnIdle (done_tx : nat).

(** The future of a command under way: it waits for the channels, or it waits to
    send the answer. *)
Inductive CommandFut : Type :=
  | CfRecv (done_tx : nat)
  | CfSend (done_tx : nat).

Inductive PingPong : Type :=
  | PpIdle (until : Z)
  | PpSend (item : option CaMsg) (until : Z)
  | PpWait (until : Z).

Inductive AcState : Type :=
  | AcRunning (pingpong : PingPong)
  | AcDone.

Inductive AcInpItem : Type :=
  | AcInpCaMsg (m : CaMsg)
  | AcInpCmd (c : CaCommand).

Inductive AcItemInner (D : Type) : Type :=
  | AiChannelInfoQuery (x : D)
  | AiTestValue (x : D)
  | AiLocalLog (x : D)
  | AiChannelEventValue (x : D)
  | AiProtoOut (m : CaMsg).
Arguments AiChannelInfoQuery {D} x.
Arguments AiTestValue {D} x.
Arguments AiLocalLog {D} x.
Arguments AiChannelEventValue {D} x.
Arguments AiProtoOut {D} m.

Inductive AcError : Type :=
  | AcChannelHeap
  | AcBufPushGuardIssue
  | AcPingNoItem
  | AcIocEchoTimeout.

Definition AC_INP_BUF_CAP : nat := 3.
Definition AC_FWD_BUF_CAP : nat := 1.

Definition PING_IDLE_MS : Z := 10000.
Definition PING_SEND_MS : Z := 4000.
Definition PING_WAIT_MS : Z := 10000.

(** Whether a message of the server is for a channel. *)
Definition ac_dispatches (m : CaMsg) : bool :=
  match CaMsg_cid m, CaMsg_subid m, CaMsg_ioid m with None, None, None => false | _, _, _ => true end.

Definition ac_item {D} (x : Z * HeapItemInner D) : Z * AcItemInner D :=
  (x.1, match x.2 with
        | HiChannelInfoQuery q => AiChannelInfoQuery q
        | HiTestValue v => AiTestValue v
        | HiLocalLog l => AiLocalLog l
        | HiChannelEventValue v => AiChannelEventValue v
        | HiProtoOut m => AiProtoOut m
        end).

Definition inp_is_cmd (x : InpItem) : bool := match x with InpCmd _ => true | InpCaMsg _ => false end.

(** How a part of a turn ends: with what it adds to progress and pending, or with
    the result of the poll. *)
Inductive part_end (R : Type) : Type :=
  | PartGo (progress pending : bool)
  | PartBreak (r : R).
Arguments PartGo {R} progress pending.
Arguments PartBreak {R} r.

(** How a turn ends. *)
Inductive turn_end (R : Type) : Type :=
  | TurnContinue
  | TurnBreak (r : Poll (option R))
  | TurnStuck.
Arguments TurnContinue {R}.
Arguments TurnBreak {R} r.
Arguments TurnStuck {R}.

Definition hpp_turn {R} (progress pending : bool) : turn_end R :=
  if progress then TurnContinue else TurnBreak (if pending then Pending else Ready None).

Section ActiveCa.
  Context `{ConnEnv} `{ChanHeapOps}.

(** [ac_clock] counts the readings of the clock; [ac_done_sent] is what was sent
    as answers. The field for the end of the input is never set by the code and
    left out. *)
Record ActiveCa : Type := mkActiveCa {
  ac_state : AcState;
  ac_chanheap : ah_heap;
  ac_inp_buf : AsynBuf AcInpItem;
  ac_inp_cmd_buf : AsynBuf CaCommand;
  ac_inp_msg_buf : AsynBuf CaMsg;
  ac_buf_for_chanheap : AsynBuf InpItem;
  ac_cmd_fut : option CommandFut;
  ac_clock : nat;
  ac_done_sent : list nat
}.

Definition ac_new (clock : nat) : ActiveCa :=
  mkActiveCa (AcRunning (PpIdle (cn_now clock + PING_IDLE_MS))) ah_new (AsynBuf_new AC_INP_BUF_CAP)
    (AsynBuf_new AC_FWD_BUF_CAP) (AsynBuf_new AC_FWD_BUF_CAP) (AsynBuf_new AC_FWD_BUF_CAP) None (S clock) [].

Definition ac_set_state (st : AcState) (s : ActiveCa) : ActiveCa :=
  mkActiveCa st (ac_chanheap s) (ac_inp_buf s) (ac_inp_cmd_buf s) (ac_inp_msg_buf s) (ac_buf_for_chanheap s) (ac_cmd_fut s)
    (ac_clock s) (ac_done_sent s).
Definition ac_set_heap (h : ah_heap) (s : ActiveCa) : ActiveCa :=
  mkActiveCa (ac_state s) h (ac_inp_buf s) (ac_inp_cmd_buf s) (ac_inp_msg_buf s) (ac_buf_for_chanheap s) (ac_cmd_fut s)
    (ac_clock s) (ac_done_sent s).
Definition ac_set_inp (b : AsynBuf AcInpItem) (s : ActiveCa) : ActiveCa :=
  mkActiveCa (ac_state s) (ac_chanheap s) b (ac_inp_cmd_buf s) (ac_inp_msg_buf s) (ac_buf_for_chanheap s) (ac_cmd_fut s)
    (ac_clock s) (ac_done_sent s).
Definition ac_set_inp_cmd (b : AsynBuf CaCommand) (s : ActiveCa) : ActiveCa :=
  mkActiveCa (ac_state s) (ac_chanheap s) (ac_inp_buf s) b (ac_inp_msg_buf s) (ac_buf_for_chanheap s) (ac_cmd_fut s)
    (ac_clock s) (ac_done_sent s).
Definition ac_set_inp_msg (b : AsynBuf CaMsg) (s : ActiveCa) : ActiveCa :=
  mkActiveCa (ac_state s) (ac_chanheap s) (ac_inp_buf s) (ac_inp_cmd_buf s) b (ac_buf_for_chanheap s) (ac_cmd_fut s)
    (ac_clock s) (ac_done_sent s).
Definition ac_set_for_chanheap (b : AsynBuf InpItem) (s : ActiveCa) : ActiveCa :=
  mkActiveCa (ac_state s) (ac_chanheap s) (ac_inp_buf s) (ac_inp_cmd_buf s) (ac_inp_msg_buf s) b (ac_cmd_fut s)
    (ac_clock s) (ac_done_sent s).
Definition ac_set_fut (f : option CommandFut) (s : ActiveCa) : ActiveCa :=
  mkActiveCa (ac_state s) (ac_chanheap s) (ac_inp_buf s) (ac_inp_cmd_buf s) (ac_inp_msg_buf s) (ac_buf_for_chanheap s) f
    (ac_clock s) (ac_done_sent s).
Definition ac_log_done (d : nat) (s : ActiveCa) : ActiveCa :=
  mkActiveCa (ac_state s) (ac_chanheap s) (ac_inp_buf s) (ac_inp_cmd_buf s) (ac_inp_msg_buf s) (ac_buf_for_chanheap s) (ac_cmd_fut s)
    (ac_clock s) (ac_done_sent s ++ [d]).

(** A reading of the clock. *)
Definition ac_tick (s : ActiveCa) : ActiveCa :=
  mkActiveCa (ac_state s) (ac_chanheap s) (ac_inp_buf s) (ac_inp_cmd_buf s) (ac_inp_msg_buf s) (ac_buf_for_chanheap s) (ac_cmd_fut s)
    (S (ac_clock s)) (ac_done_sent s).
Definition ac_now (s : ActiveCa) : ActiveCa * Z := (ac_tick s, cn_now (ac_clock s)).

Definition ac_inp_push_try (item : AcInpItem) (s : ActiveCa) : ActiveCa * PushRes AcInpItem :=
  let '(b, r) := AsynBuf_push_back item (ac_inp_buf s) in (ac_set_inp b s, r).

Definition ac_inp_is_space (s : ActiveCa) : bool := AsynBuf_is_space (ac_inp_buf s).

(** *** Commands *)

Definition ac_handle_command (cmd : CaCommand) (s : ActiveCa) : outcome AcError (ActiveCa * CommandFut) :=
  if AsynBuf_is_space (ac_buf_for_chanheap s) then
    match cmd with
    | CkChannelAdd conf done_tx => Ok (ac_set_heap (ah_channel_add conf (ac_chanheap s)) s, CfSend done_tx)
    | CkChannelRemove name done_tx =>
        Ok (ac_set_for_chanheap (AsynBuf_push_back_force (InpCmd (RemoveChannel name)) (ac_buf_for_chanheap s)) s, CfRecv done_tx)
    | CkDisconnectOnIdle done_tx => Ok (ac_set_heap (ah_disconnect_on_idle (ac_chanheap s)) s, CfSend done_tx)
    end
  else Panic.

(** The removal that was given to the channels is over. *)
Definition ac_cmd_done (s : ActiveCa) : bool :=
  negb (existsb inp_is_cmd (ab_buf (ac_buf_for_chanheap s))) && ah_cmd_done (ac_chanheap s).

Definition ac_send_done (d : nat) (s : ActiveCa) : ActiveCa * Poll unit :=
  let room := cn_done_send (ac_clock s) in
  let s := ac_tick s in
  if room then (ac_log_done d s, Ready tt) else (ac_set_fut (Some (CfSend d)) s, Pending).

Definition ac_poll_cmd_fut (fut : CommandFut) (s : ActiveCa) : ActiveCa * Poll unit :=
  match fut with
  | CfRecv d => if ac_cmd_done s then ac_send_done d s else (s, Pending)
  | CfSend d => ac_send_done d s
  end.

(** The futures of the commands do not fail. *)
Definition ac_poll_command_input (s : ActiveCa) : ActiveCa * option (Poll (outcome AcError unit)) :=
  match ac_cmd_fut s with
  | Some fut =>
      match ac_poll_cmd_fut fut s with
      | (s, Ready _) => (ac_set_fut None s, Some (Ready (Ok tt)))
      | (s, Pending) => (s, Some Pending)
      end
  | None =>
      if AsynBuf_is_space (ac_buf_for_chanheap s) then
        match AsynBuf_pop_front (ac_inp_cmd_buf s) with
        | (b, Some item) =>
            match ac_handle_command item (ac_set_inp_cmd b s) with
            | Ok (s, fut) => (ac_set_fut (Some fut) s, Some (Ready (Ok tt)))
            | Err e => (s, Some (Ready (Err e)))
            | Panic => (s, Some (Ready Panic))
            end
        | (_, None) => (s, None)
        end
      else (s, None)
  end.

(** *** Messages *)

(** A message that is for no channel: only the echo means something. *)
Definition ac_handle_internal (m : CaMsg) (s : ActiveCa) : ActiveCa :=
  match cm_ty m with
  | CaEcho =>
      match ac_state s with
      | AcRunning (PpWait _) =>
          let '(s, now) := ac_now s in ac_set_state (AcRunning (PpIdle (now + PING_IDLE_MS))) s
      | _ => s
      end
  | _ => s
  end.

Fixpoint ac_dispatch_loop (fuel : nat) (s : ActiveCa) : ActiveCa :=
  match fuel with
  | O => s
  | S fuel =>
      if AsynBuf_is_space (ac_buf_for_chanheap s) then
        match AsynBuf_pop_front (ac_inp_msg_buf s) with
        | (b, Some item) =>
            let s := ac_set_inp_msg b s in
            ac_dispatch_loop fuel
              (if ac_dispatches item then
                 ac_set_for_chanheap (AsynBuf_push_back_force (InpCaMsg item) (ac_buf_for_chanheap s)) s
               else ac_handle_internal item s)
        | (_, None) => s
        end
      else s
  end.

(** Its result is always [None]. *)
Definition ac_poll_dispatch (s : ActiveCa) : ActiveCa := ac_dispatch_loop (S (AsynBuf_len (ac_inp_msg_buf s))) s.

Fixpoint ac_push_loop (fuel : nat) (s : ActiveCa) : ActiveCa :=
  match fuel with
  | O => s
  | S fuel =>
      if ah_inp_is_space (ac_chanheap s) then
        match AsynBuf_pop_front (ac_buf_for_chanheap s) with
        | (b, Some x) =>
            match ah_inp_push_try x (ac_chanheap s) with
            | (h, PushFull x) => ac_set_for_chanheap (AsynBuf_push_front x b) (ac_set_heap h s)
            | (h, _) => ac_push_loop fuel (ac_set_for_chanheap b (ac_set_heap h s))
            end
        | (_, None) => s
        end
      else s
  end.

(** Its result is always [Ready None]; the counter of its loop stays 0. *)
Definition ac_poll_inp_push_to_chanheap (s : ActiveCa) : ActiveCa :=
  ac_push_loop (S (AsynBuf_len (ac_buf_for_chanheap s))) s.

(** *** The poll loop *)

(** The next input goes to its buffer, when both buffers have space. *)
Definition ac_take_inp (s : ActiveCa) : ActiveCa * outcome AcError unit :=
  if AsynBuf_is_space (ac_inp_cmd_buf s) && AsynBuf_is_space (ac_inp_msg_buf s) then
    match AsynBuf_pop_front (ac_inp_buf s) with
    | (b, Some (AcInpCaMsg x)) =>
        let s := ac_set_inp b s in
        let '(b, r) := AsynBuf_push_back x (ac_inp_msg_buf s) in
        if PushRes_is_fail r then (ac_set_state AcDone s, Err AcBufPushGuardIssue) else (ac_set_inp_msg b s, Ok tt)
    | (b, Some (AcInpCmd x)) =>
        let s := ac_set_inp b s in
        let '(b, r) := AsynBuf_push_back x (ac_inp_cmd_buf s) in
        if PushRes_is_fail r then (ac_set_state AcDone s, Err AcBufPushGuardIssue) else (ac_set_inp_cmd b s, Ok tt)
    | (_, None) => (s, Ok tt)
    end
  else (s, Ok tt).

Abbreviation ac_res := (outcome AcError (AsynBuf (Z * AcItemInner ah_data))).

Definition ac_poll_ping (tsnow : Z) (s : ActiveCa) : ActiveCa * part_end ac_res :=
  match ac_state s with
  | AcRunning (PpIdle until) =>
      let '(s, now) := ac_now s in
      if until <=? now then
        let '(s, ts) := ac_now s in
        let '(s, now) := ac_now s in
        (ac_set_state (AcRunning (PpSend (Some (CaMsg_from_ty_ts CaEcho ts)) (now + PING_SEND_MS))) s, PartGo true false)
      else (s, PartGo false true)
  | AcRunning (PpSend item until) =>
      let '(s, now) := ac_now s in
      if until <=? now then
        let '(s, now) := ac_now s in
        (ac_set_state (AcRunning (PpIdle (now + PING_IDLE_MS))) s, PartGo true false)
      else
        match item with
        | Some item =>
            let '(s, now) := ac_now s in
            (ac_set_state (AcRunning (PpWait (now + PING_WAIT_MS))) s,
             PartBreak (Ok (AsynBuf_from_deque [(tsnow, AiProtoOut item)])))
        | None => (ac_set_state AcDone s, PartBreak (Err AcPingNoItem))
        end
  | AcRunning (PpWait until) =>
      let '(s, now) := ac_now s in
      if until <=? now then (ac_set_state AcDone s, PartBreak (Err AcIocEchoTimeout)) else (s, PartGo false true)
  | AcDone => (s, PartGo false false)
  end.

(** From the channels on. *)
Definition ac_turn_heap (tsnow : Z) (progress pending : bool) (s : ActiveCa) : ActiveCa * turn_end ac_res :=
  let '(h, r) := ah_poll_next (ac_chanheap s) in
  let s := ac_set_heap h s in
  let rest (progress pending : bool) (s : ActiveCa) :=
    match ac_poll_ping tsnow s with
    | (s, PartGo p q) => (s, hpp_turn (progress || p) (pending || q))
    | (s, PartBreak r) => (s, TurnBreak (Ready (Some r)))
    end in
  match r with
  | Some (Ready (Some (Ok items))) => (s, TurnBreak (Ready (Some (Ok (AsynBuf_from_deque (map ac_item (ab_buf items)))))))
  | Some (Ready (Some (Err _))) => (ac_set_state AcDone s, TurnBreak (Ready (Some (Err AcChannelHeap))))
  | Some (Ready (Some Panic)) => (s, TurnBreak (Ready (Some Panic)))
  | Some (Ready None) => rest true pending (ac_set_state AcDone s)
  | Some Pending => rest progress true s
  | None => (s, TurnStuck)
  end.

Definition ac_turn (s : ActiveCa) : ActiveCa * turn_end ac_res :=
  let '(s, tsnow) := ac_now s in
  match ac_state s with
  | AcRunning _ =>
      match ac_take_inp s with
      | (s, Ok _) =>
          match ac_poll_command_input s with
          | (s, Some (Ready (Err e))) => (ac_set_state AcDone s, TurnBreak (Ready (Some (Err e))))
          | (s, Some (Ready Panic)) => (s, TurnBreak (Ready (Some Panic)))
          | (s, r) =>
              let s := ac_poll_inp_push_to_chanheap (ac_poll_dispatch s) in
              ac_turn_heap tsnow (match r with Some (Ready _) => true | _ => false end)
                (match r with Some Pending => true | _ => false end) s
          end
      | (s, Err e) => (s, TurnBreak (Ready (Some (Err e))))
      | (s, Panic) => (s, TurnBreak (Ready (Some Panic)))
      end
  | AcDone => (s, TurnBreak (Ready None))
  end.

Fixpoint ac_poll_next (turns : nat) (s : ActiveCa) : ActiveCa * option (Poll (option ac_res)) :=
  match turns with
  | O => (s, None)
  | S turns =>
      match ac_turn s with
      | (s, TurnContinue) => ac_poll_next turns s
      | (s, TurnBreak r) => (s, Some r)
      | (s, TurnStuck) => (s, None)
      end
  end.

End ActiveCa.

(** The channels of a connection as [ChannelHeap] keeps them. *)
Definition channel_heap_ops `{ChannelHandlerOps} (hf : nat) : ChanHeapOps := {|
  ah_heap := ChannelHeap;
  ah_data := ch_data;
  ah_new := heap_new;
  ah_channel_add := heap_channel_add;
  ah_disconnect_on_idle := heap_disconnect_on_idle;
  ah_inp_is_space := heap_inp_is_space;
  ah_inp_push_try := heap_inp_push_try;
  ah_cmd_done h :=
    bool_decide (hp_cmd_exec_fut h = None) && (AsynBuf_len (hp_inp_cmd_buf h) =? 0)%nat &&
    negb (existsb inp_is_cmd (ab_buf (hp_inp_buf h)));
  ah_poll_next := heap_poll_next hf
|}.

(** ** The connection *)

Inductive CdItemInner (D : Type) : Type :=
  | DiChannelInfoQuery (x : D)
  | DiTestValue (x : D)
  | DiLocalLog (x : D)
  | DiChannelEventValue (x : D).
Arguments DiChannelInfoQuery {D} x.
Arguments DiTestValue {D} x.
Arguments DiLocalLog {D} x.
Arguments DiChannelEventValue {D} x.

Inductive CdError : Type :=
  | CdProto (e : ca_error)
  | CdHandshakeError (e : HsError)
  | CdActiveCaError (e : AcError)
  | CdLogic.

Definition CD_INP_BUF_CAP : nat := 128.

Section Connected.
  Context `{NetBuf} `{CaEnv} `{ConnEnv} `{ChanHeapOps}.

Inductive CdState : Type :=
  | CdInit
  | CdHandshake (hs : Handshake)
  | CdActiveCa (ac : ActiveCa)
  | CdDone.

(** [cd_clock] counts the readings of the clock. *)
Record Connected : Type := mkConnected {
  cd_protowrap : ProtoPusher;
  cd_state : CdState;
  cd_inp_buf : AsynBuf CaMsg;
  cd_inp_cmd_buf : AsynBuf CaCommand;
  cd_clock : nat
}.

Definition cd_array_truncate : nat := Z.to_nat (1024 * 1024 * 10).

Definition cd_new (tcp : Tcp) : Connected :=
  mkConnected (pw_new (cp_new tcp cd_array_truncate)) CdInit (AsynBuf_new CD_INP_BUF_CAP) (AsynBuf_new CD_INP_BUF_CAP) 0.

(** The same with other sizes of the buffers of the protocol and another limit of
    the arrays; for the sizes of the code, see [cd_new_sizes]. *)
Definition cd_new_with (inp_cap out_cap array_truncate : nat) (tcp : Tcp) : Connected :=
  mkConnected (pw_new (mkCaProto tcp 0 false StdHead (nb_new inp_cap) (nb_new out_cap) [] array_truncate [] [] 0 0))
    CdInit (AsynBuf_new CD_INP_BUF_CAP) (AsynBuf_new CD_INP_BUF_CAP) 0.

Definition cd_set_protowrap (p : ProtoPusher) (s : Connected) : Connected :=
  mkConnected p (cd_state s) (cd_inp_buf s) (cd_inp_cmd_buf s) (cd_clock s).
Definition cd_set_state (st : CdState) (s : Connected) : Connected :=
  mkConnected (cd_protowrap s) st (cd_inp_buf s) (cd_inp_cmd_buf s) (cd_clock s).
Definition cd_set_inp (b : AsynBuf CaMsg) (s : Connected) : Connected :=
  mkConnected (cd_protowrap s) (cd_state s) b (cd_inp_cmd_buf s) (cd_clock s).
Definition cd_set_inp_cmd (b : AsynBuf CaCommand) (s : Connected) : Connected :=
  mkConnected (cd_protowrap s) (cd_state s) (cd_inp_buf s) b (cd_clock s).
Definition cd_set_clock (c : nat) (s : Connected) : Connected :=
  mkConnected (cd_protowrap s) (cd_state s) (cd_inp_buf s) (cd_inp_cmd_buf s) c.

Abbreviation cd_res := (outcome CdError (AsynBuf (Z * CdItemInner ah_data))).
Abbreviation cd_part := (option (part_end cd_res)).

(** Output, then at most one item of input: the loop around it never turns
    again. [None]: the fuel of a poll of the protocol is not enough. *)
Definition cd_poll_protowrap (pf : nat) (s : Connected) : Connected * cd_part :=
  match cd_state s with
  | CdDone => (s, Some (PartGo false false))
  | _ =>
      let '(pw, r1) := pw_poll_outbound (cd_protowrap s) in
      let s := cd_set_protowrap pw s in
      match r1 with
      | Ready (Some (Err e)) => (s, Some (PartBreak (Err (CdProto e))))
      | Ready (Some Panic) => (s, Some (PartBreak Panic))
      | _ =>
          let progress := heap_poll_some r1 in
          let pending := heap_poll_pending r1 in
          if AsynBuf_is_space (cd_inp_buf s) then
            let '(pw, r) := pw_poll_next pf (cd_protowrap s) in
            let s := cd_set_protowrap pw s in
            match r with
            | CaOut (Ready (Some (Ok (CaItemMsg x)))) =>
                (cd_set_inp (AsynBuf_push_back_force x (cd_inp_buf s)) s, Some (PartGo true pending))
            | CaOut (Ready (Some (Ok CaItemEmpty))) => (s, Some (PartGo true pending))
            | CaOut (Ready (Some (Err e))) => (cd_set_state CdDone s, Some (PartBreak (Err (CdProto e))))
            | CaOut (Ready (Some Panic)) | CaOutPanic => (s, Some (PartBreak Panic))
            | CaOut (Ready None) => (s, Some (PartGo progress pending))
            | CaOut Pending => (s, Some (PartGo progress true))
            | CaOutOfFuel => (s, None)
            end
          else (s, Some (PartGo progress pending))
      end
  end.

(** *** The handshake *)

Definition cd_handshake_inp (st1 : Handshake) (s : Connected) : Connected * Handshake * bool :=
  match AsynBuf_pop_front (cd_inp_buf s) with
  | (b, Some x) =>
      match hs_inp_push_try x st1 with
      | (st1, PushFull x) => (cd_set_inp (AsynBuf_push_front x b) s, st1, false)
      | (st1, _) => (cd_set_inp b s, st1, true)
      end
  | (_, None) => (s, st1, false)
  end.

(** What is left in the buffer of the handshake is dropped with it. *)
Definition cd_handshake (st1 : Handshake) (s : Connected) : Connected * part_end cd_res :=
  let '(s, st1, progress) := cd_handshake_inp st1 s in
  if pw_is_space (cd_protowrap s) then
    match hs_poll_next st1 with
    | (st1, Ready (Some (Ok (HsCaMsg x)))) =>
        (cd_set_protowrap (pw_push_back_or_drop x (cd_protowrap s)) (cd_set_state (CdHandshake st1) s), PartGo true false)
    | (_, Ready (Some (Ok HsHandshakeDone))) => (cd_set_state (CdActiveCa (ac_new (cd_clock s))) s, PartGo true false)
    | (_, Ready (Some (Err e))) => (cd_set_state CdDone s, PartBreak (Err (CdHandshakeError e)))
    | (st1, Ready (Some Panic)) => (cd_set_state (CdHandshake st1) s, PartBreak Panic)
    | (st1, Ready None) => (cd_set_state (CdHandshake st1) s, PartGo progress false)
    | (st1, Pending) => (cd_set_state (CdHandshake st1) s, PartGo progress true)
    end
  else (cd_set_state (CdHandshake st1) s, PartGo progress false).

(** *** Serving the channels *)

(** At most one command: the loop around it never turns again. The result says
    whether one was passed on; an error is a logic error. *)
Definition cd_pass_cmd (st1 : ActiveCa) (s : Connected) : Connected * ActiveCa * outcome CdError bool :=
  if negb (AsynBuf_len (cd_inp_cmd_buf s) =? 0)%nat && ac_inp_is_space st1 then
    match AsynBuf_pop_front (cd_inp_cmd_buf s) with
    | (b, Some x) =>
        let s := cd_set_inp_cmd b s in
        let '(st1, r) := ac_inp_push_try (AcInpCmd x) st1 in
        if PushRes_is_fail r then (cd_set_state CdDone s, st1, Err CdLogic) else (s, st1, Ok true)
    | (_, None) => (s, st1, Ok false)
    end
  else (s, st1, Ok false).

(** At most one message, likewise. *)
Definition cd_pass_inp (st1 : ActiveCa) (s : Connected) : Connected * ActiveCa * outcome CdError bool :=
  match AsynBuf_pop_front (cd_inp_buf s) with
  | (b, Some x) =>
      match ac_inp_push_try (AcInpCaMsg x) st1 with
      | (st1, PushFull (AcInpCaMsg x)) => (cd_set_inp (AsynBuf_push_front x b) s, st1, Ok false)
      | (st1, PushFull _) => (cd_set_inp b s, st1, Err CdLogic)
      | (st1, _) => (cd_set_inp b s, st1, Ok true)
      end
  | (_, None) => (s, st1, Ok false)
  end.

(** Messages go to the protocol, whether it has space for them or not; the rest
    is put out. *)
Fixpoint cd_items (items : list (Z * AcItemInner ah_data)) (p : ProtoPusher) :
    ProtoPusher * list (Z * CdItemInner ah_data) :=
  match items with
  | [] => (p, [])
  | (ts, x) :: items =>
      let keep inner := let '(p, l) := cd_items items p in (p, (ts, inner) :: l) in
      match x with
      | AiChannelInfoQuery q => keep (DiChannelInfoQuery q)
      | AiTestValue v => keep (DiTestValue v)
      | AiLocalLog l => keep (DiLocalLog l)
      | AiChannelEventValue v => keep (DiChannelEventValue v)
      | AiProtoOut m => cd_items items (pw_push_back_force m p)
      end
  end.

Definition cd_active_poll (af : nat) (st1 : ActiveCa) (s : Connected) : Connected * cd_part :=
  if pw_is_space (cd_protowrap s) then
    let '(st1, r) := ac_poll_next af st1 in
    let s := cd_set_state (CdActiveCa st1) s in
    match r with
    | Some (Ready (Some (Ok items))) =>
        let '(p, l) := cd_items (ab_buf items) (cd_protowrap s) in
        (cd_set_protowrap p s, Some (PartBreak (Ok (AsynBuf_from_deque l))))
    | Some (Ready (Some (Err e))) => (cd_set_state CdDone s, Some (PartBreak (Err (CdActiveCaError e))))
    | Some (Ready (Some Panic)) => (s, Some (PartBreak Panic))
    | Some (Ready None) => (cd_set_state CdDone s, Some (PartGo true false))
    | Some Pending => (s, Some (PartGo false true))
    | None => (s, None)
    end
  else (cd_set_state (CdActiveCa st1) s, Some (PartGo false false)).

Definition cd_active (af : nat) (st1 : ActiveCa) (s : Connected) : Connected * cd_part :=
  match cd_pass_cmd st1 s with
  | (s, st1, Ok p1) =>
      match cd_pass_inp st1 s with
      | (s, st1, Ok p2) =>
          match cd_active_poll af st1 s with
          | (s, Some (PartGo p q)) => (s, Some (PartGo (p1 || p2 || p) q))
          | (s, r) => (s, r)
          end
      | (s, st1, Err e) => (cd_set_state (CdActiveCa st1) s, Some (PartBreak (Err e)))
      | (s, st1, Panic) => (cd_set_state (CdActiveCa st1) s, Some (PartBreak Panic))
      end
  | (s, _, Err e) => (s, Some (PartBreak (Err e)))
  | (s, st1, Panic) => (cd_set_state (CdActiveCa st1) s, Some (PartBreak Panic))
  end.

(** *** The poll loop *)

Definition cd_poll_state (af : nat) (s : Connected) : Connected * cd_part :=
  match cd_state s with
  | CdInit => (cd_set_state (CdHandshake (hs_new (cn_now (cd_clock s)))) (cd_set_clock (S (cd_clock s)) s), Some (PartGo true false))
  | CdHandshake st1 => let '(s, r) := cd_handshake st1 s in (s, Some r)
  | CdActiveCa st1 => cd_active af st1 s
  | CdDone => (s, Some (PartGo false false))
  end.

Definition cd_turn (pf af : nat) (s : Connected) : Connected * turn_end cd_res :=
  match cd_poll_protowrap pf (cd_set_clock (S (cd_clock s)) s) with
  | (s, Some (PartGo p1 q1)) =>
      match cd_poll_state af s with
      | (s, Some (PartGo p2 q2)) => (s, hpp_turn (p1 || p2) (q1 || q2))
      | (s, Some (PartBreak r)) => (s, TurnBreak (Ready (Some r)))
      | (s, None) => (s, TurnStuck)
      end
  | (s, Some (PartBreak r)) => (s, TurnBreak (Ready (Some r)))
  | (s, None) => (s, TurnStuck)
  end.

Fixpoint cd_poll_next (pf af turns : nat) (s : Connected) : Connected * option (Poll (option cd_res)) :=
  match turns with
  | O => (s, None)
  | S turns =>
      match cd_turn pf af s with
      | (s, TurnContinue) => cd_poll_next pf af turns s
      | (s, TurnBreak r) => (s, Some r)
      | (s, TurnStuck) => (s, None)
      end
  end.

(** What the owner of the connection does: it puts commands into the buffer. *)
Definition cd_command (c : CaCommand) (s : Connected) : Connected :=
  cd_set_inp_cmd (AsynBuf_push_back_force c (cd_inp_cmd_buf s)) s.

Definition cd_health_check (s : Connected) : bool :=
  negb (1000 <? pw_out_len (cd_protowrap s))%nat && negb (10 * CD_INP_BUF_CAP <? AsynBuf_len (cd_inp_buf s))%nat &&
  negb (10 * CD_INP_BUF_CAP <? AsynBuf_len (cd_inp_cmd_buf s))%nat.

(** Any use of the connection: commands ([inl]) and polls ([inr]), with the bytes
    of the socket and its readiness in [Tcp]; the results of the polls. [None]: a
    poll panics, or takes more turns than the fuel. *)
Fixpoint cd_run (pf af turns : nat) (ops : list (CaCommand + unit)) (s : Connected) :
    option (Connected * list (Poll (option cd_res))) :=
  match ops with
  | [] => Some (s, [])
  | inl c :: ops => cd_run pf af turns ops (cd_command c s)
  | inr _ :: ops =>
      match cd_poll_next pf af turns s with
      | (_, Some (Ready (Some Panic))) | (_, None) => None
      | (s, Some r) => '(s, rs) ← cd_run pf af turns ops s; Some (s, r :: rs)
      end
  end.

End Connected.

(** ** The owner of the connection *)

(** The commands, by the number of the channel for the answer. *)
Inductive CaConnCmdKind : Type :=
  | CxChannelAdd (conf : string) (done_tx : nat)
  | CxChannelRemove (conf : string) (done_tx : nat)
  | CxDisconnectOnIdle (done_tx : nat)
  | CxChannelsForAddrInfoV1
  | CxChannelsForAddrInfoV2 (name : string)
  | CxChannelsByRegexV1 (kind regex : string)
  | CxDynCmdV03.

(** The future under way: a command on its way to the channels, or a report on
    its way to who asked for it. *)
Inductive CxFut : Type :=
  | CxSend (c : CaCommand)
  | CxReply.

Inductive CaConnItem (D : Type) : Type :=
  | KiStatusInfo
  | KiChannelInfoQuery (x : D)
  | KiTestValue (x : D)
  | KiLocalLog (x : D)
  | KiChannelEventValue (x : D).
Arguments KiStatusInfo {D}.
Arguments KiChannelInfoQuery {D} x.
Arguments KiTestValue {D} x.
Arguments KiLocalLog {D} x.
Arguments KiChannelEventValue {D} x.

Inductive CxError : Type :=
  | CxIO
  | CxConnected (e : CdError)
  | CxChanSend.

Definition OUT_QUEUE_LEN_MAX : nat := 64.
Definition CA_CMD_CAP : nat := 16.
Definition CX_OUT_BUF_CAP : nat := 128.
Definition CX_TICK_MS : Z := 2000.

(** What the owner takes from outside: the random numbers of the ticker, the
    result of connecting, and whether a report could be sent. The sizes of the
    buffers of a new connection are constants in the code, those of [cd_new]. *)
Class CaConnEnv : Type := {
  cx_inp_cap : nat;
  cx_out_cap : nat;
  cx_array_truncate : nat;
  cx_rand : nat -> Z;
  cx_connect : nat -> Poll (outcome unit Tcp);
  cx_reply : nat -> Poll (outcome unit unit)
}.

Definition cx_item {D} (x : CdItemInner D) : CaConnItem D :=
  match x with
  | DiChannelInfoQuery q => KiChannelInfoQuery q
  | DiTestValue v => KiTestValue v
  | DiLocalLog l => KiLocalLog l
  | DiChannelEventValue v => KiChannelEventValue v
  end.

Section CaConn.
  Context `{NetBuf} `{CaEnv} `{ConnEnv} `{CaConnEnv} `{ChanHeapOps}.

Inductive CxState : Type :=
  | StConnecting
  | StConnected (st : Connected)
  | StDone.

(** [cx_cmd_rx] is what was sent and not yet taken; [cx_ca_cmd] is the channel of
    commands for the channels; [cx_clock] counts the readings of the clock and of
    what is outside. *)
Record CaConn : Type := mkCaConn {
  cx_state : CxState;
  cx_ticker : Z;
  cx_cmd_rx : list CaConnCmdKind;
  cx_ca_cmd : list CaCommand;
  cx_ca_cmd_tx_fut : option CxFut;
  cx_out_buf : AsynBuf (CaConnItem ah_data);
  cx_clock : nat
}.

Definition cx_set_state (st : CxState) (s : CaConn) : CaConn :=
  mkCaConn st (cx_ticker s) (cx_cmd_rx s) (cx_ca_cmd s) (cx_ca_cmd_tx_fut s) (cx_out_buf s) (cx_clock s).
Definition cx_set_ticker (t : Z) (s : CaConn) : CaConn :=
  mkCaConn (cx_state s) t (cx_cmd_rx s) (cx_ca_cmd s) (cx_ca_cmd_tx_fut s) (cx_out_buf s) (cx_clock s).
Definition cx_set_cmd_rx (l : list CaConnCmdKind) (s : CaConn) : CaConn :=
  mkCaConn (cx_state s) (cx_ticker s) l (cx_ca_cmd s) (cx_ca_cmd_tx_fut s) (cx_out_buf s) (cx_clock s).
Definition cx_set_ca_cmd (l : list CaCommand) (s : CaConn) : CaConn :=
  mkCaConn (cx_state s) (cx_ticker s) (cx_cmd_rx s) l (cx_ca_cmd_tx_fut s) (cx_out_buf s) (cx_clock s).
Definition cx_set_fut (f : option CxFut) (s : CaConn) : CaConn :=
  mkCaConn (cx_state s) (cx_ticker s) (cx_cmd_rx s) (cx_ca_cmd s) f (cx_out_buf s) (cx_clock s).
Definition cx_set_out (b : AsynBuf (CaConnItem ah_data)) (s : CaConn) : CaConn :=
  mkCaConn (cx_state s) (cx_ticker s) (cx_cmd_rx s) (cx_ca_cmd s) (cx_ca_cmd_tx_fut s) b (cx_clock s).
Definition cx_tick (s : CaConn) : CaConn :=
  mkCaConn (cx_state s) (cx_ticker s) (cx_cmd_rx s) (cx_ca_cmd s) (cx_ca_cmd_tx_fut s) (cx_out_buf s) (S (cx_clock s)).

(** The time of the next tick: the interval and up to 31/255 of it. *)
Definition ticker_make (ivl : Z) (clock : nat) : Z := cn_now clock + ivl + ivl * Z.land (cx_rand clock) 31 / 255.

Definition cx_new (cmds : list CaConnCmdKind) : CaConn :=
  mkCaConn StConnecting (ticker_make CX_TICK_MS 0) cmds [] None (AsynBuf_new CX_OUT_BUF_CAP) 1.

Definition cx_push_out (x : CaConnItem ah_data) (s : CaConn) : CaConn := cx_set_out (AsynBuf_push_back_force x (cx_out_buf s)) s.

Abbreviation cx_res := (outcome CxError (AsynBuf (CaConnItem ah_data))).

(** *** Commands *)

Definition cx_handle_cmd (cmd : CaConnCmdKind) : CxFut :=
  match cmd with
  | CxChannelAdd conf done_tx => CxSend (CkChannelAdd conf done_tx)
  | CxChannelRemove conf done_tx => CxSend (CkChannelRemove conf done_tx)
  | CxDisconnectOnIdle done_tx => CxSend (CkDisconnectOnIdle done_tx)
  | CxChannelsForAddrInfoV1 | CxChannelsForAddrInfoV2 _ | CxChannelsByRegexV1 _ _ | CxDynCmdV03 => CxReply
  end.

(** A command is sent when the channel has room; both ends are here, so that
    sending does not fail. *)
Definition cx_poll_fut (fut : CxFut) (s : CaConn) : CaConn * Poll (outcome CxError unit) :=
  match fut with
  | CxSend c =>
      if (length (cx_ca_cmd s) <? CA_CMD_CAP)%nat then (cx_set_ca_cmd (cx_ca_cmd s ++ [c]) s, Ready (Ok tt)) else (s, Pending)
  | CxReply =>
      let r := cx_reply (cx_clock s) in
      (cx_tick s, match r with Ready (Ok _) => Ready (Ok tt) | Ready (Err _) => Ready (Err CxChanSend) | Ready Panic => Ready Panic
                  | Pending => Pending end)
  end.

Definition cx_poll_cmd (s : CaConn) : CaConn * part_end cx_res :=
  match cx_ca_cmd_tx_fut s with
  | Some fut =>
      match cx_poll_fut fut s with
      | (s, Ready (Ok _)) => (cx_set_fut None s, PartGo true false)
      | (s, Ready (Err e)) => (cx_set_state StDone (cx_set_fut None s), PartBreak (Err e))
      | (s, Ready Panic) => (s, PartBreak Panic)
      | (s, Pending) => (s, PartGo false true)
      end
  | None =>
      match cx_state s with
      | StDone => (s, PartGo false false)
      | _ =>
          match cx_cmd_rx s with
          | cmd :: rest => (cx_set_fut (Some (cx_handle_cmd cmd)) (cx_set_cmd_rx rest s), PartGo true false)
          | [] => (s, PartGo false true)
          end
      end
  end.

(** *** State *)

(** At most one command goes on to the connection. *)
Definition cx_pass_cmd (st1 : Connected) (s : CaConn) : CaConn * Connected * (bool * bool) :=
  if AsynBuf_is_space (cd_inp_cmd_buf st1) then
    match cx_ca_cmd s with
    | x :: rest => (cx_set_ca_cmd rest s, cd_command x st1, (true, false))
    | [] => (s, st1, (false, true))
    end
  else (s, st1, (false, false)).

Definition cx_poll_state (pf af turns : nat) (s : CaConn) : CaConn * option (part_end cx_res) :=
  match cx_state s with
  | StConnecting =>
      let r := cx_connect (cx_clock s) in
      let s := cx_tick s in
      match r with
      | Ready (Ok tcp) => (cx_set_state (StConnected (cd_new_with cx_inp_cap cx_out_cap cx_array_truncate tcp)) s, Some (PartGo true false))
      | Ready (Err _) => (cx_set_state StDone s, Some (PartBreak (Err CxIO)))
      | Ready Panic => (s, Some (PartBreak Panic))
      | Pending => (s, Some (PartGo false true))
      end
  | StConnected st1 =>
      let '(s, st1, (p1, q1)) := cx_pass_cmd st1 s in
      let '(st1, r) := cd_poll_next pf af turns st1 in
      let s := cx_set_state (StConnected st1) s in
      match r with
      | Some (Ready (Some (Ok items))) =>
          (foldl (fun s x => cx_push_out (cx_item x.2) s) s (ab_buf items), Some (PartGo true q1))
      | Some (Ready (Some (Err e))) => (cx_set_state StDone s, Some (PartBreak (Err (CxConnected e))))
      | Some (Ready (Some Panic)) => (s, Some (PartBreak Panic))
      | Some (Ready None) => (cx_set_state StDone s, Some (PartGo true q1))
      | Some Pending => (s, Some (PartGo p1 true))
      | None => (s, None)
      end
  | StDone => (s, Some (PartGo false false))
  end.

(** *** The ticker *)

Definition cx_on_ticker_fired (s : CaConn) : CaConn :=
  if (AsynBuf_len (cx_out_buf s) <? OUT_QUEUE_LEN_MAX)%nat then cx_push_out KiStatusInfo s else s.

Definition cx_poll_own_ticker (s : CaConn) : CaConn * (bool * bool) :=
  let now := cn_now (cx_clock s) in
  let s := cx_tick s in
  if cx_ticker s <=? now then (cx_on_ticker_fired (cx_tick (cx_set_ticker (ticker_make CX_TICK_MS (cx_clock s)) s)), (true, false))
  else (s, (false, true)).

(** *** The poll loop *)

Definition cx_turn (pf af turns : nat) (s : CaConn) : CaConn * turn_end cx_res :=
  if negb (AsynBuf_len (cx_out_buf s) =? 0)%nat then
    let '(b, items) := AsynBuf_take (cx_out_buf s) in (cx_set_out b s, TurnBreak (Ready (Some (Ok items))))
  else
    match cx_poll_cmd s with
    | (s, PartBreak r) => (s, TurnBreak (Ready (Some r)))
    | (s, PartGo p1 q1) =>
        match cx_poll_state pf af turns s with
        | (s, None) => (s, TurnStuck)
        | (s, Some (PartBreak r)) => (s, TurnBreak (Ready (Some r)))
        | (s, Some (PartGo p2 q2)) =>
            match cx_state s with
            | StDone => (s, hpp_turn (p1 || p2) (q1 || q2))
            | _ => let '(s, (p3, q3)) := cx_poll_own_ticker s in (s, hpp_turn (p1 || p2 || p3) (q1 || q2 || q3))
            end
        end
    end.

Fixpoint cx_poll_next (pf af turns fuel : nat) (s : CaConn) : CaConn * option (Poll (option cx_res)) :=
  match fuel with
  | O => (s, None)
  | S fuel =>
      match cx_turn pf af turns s with
      | (s, TurnContinue) => cx_poll_next pf af turns fuel s
      | (s, TurnBreak r) => (s, Some r)
      | (s, TurnStuck) => (s, None)
      end
  end.

(** Any use of the owner: commands that are sent ([inl]) and polls ([inr]). [None]: a
    poll panics, or takes more turns than the fuel. *)
Fixpoint cx_run (pf af turns fuel : nat) (ops : list (CaConnCmdKind + unit)) (s : CaConn) :
    option (CaConn * list (Poll (option cx_res))) :=
  match ops with
  | [] => Some (s, [])
  | inl c :: ops => cx_run pf af turns fuel ops (cx_set_cmd_rx (cx_cmd_rx s ++ [c]) s)
  | inr _ :: ops =>
      match cx_poll_next pf af turns fuel s with
      | (_, Some (Ready (Some Panic))) | (_, None) => None
      | (s, Some r) => '(s, rs) ← cx_run pf af turns fuel ops s; Some (s, r :: rs)
      end
  end.

(** *** The task *)

(** What a send to the channel of the output comes to. *)
Inductive tx_event : Type := TxOk | TxFull | TxClosed.

(** [ct_tx] is what the sends to come come to, and after that the channel is
    full; [ct_sent] is what was sent. *)
Record CaConnTask : Type := mkCaConnTask {
  ct_conn : CaConn;
  ct_t1 : option cx_res;
  ct_tx : list tx_event;
  ct_sent : list cx_res
}.

Definition ct_new (conn : CaConn) (tx : list tx_event) : CaConnTask := mkCaConnTask conn None tx [].

(** The result [true]: the task is over. *)
Fixpoint ct_poll (pf af turns fuel steps : nat) (s : CaConnTask) : CaConnTask * option (Poll bool) :=
  match steps with
  | O => (s, None)
  | S steps =>
      match ct_t1 s with
      | Some x =>
          match ct_tx s with
          | TxOk :: tx => ct_poll pf af turns fuel steps (mkCaConnTask (ct_conn s) None tx (ct_sent s ++ [x]))
          | TxFull :: tx => (mkCaConnTask (ct_conn s) (Some x) tx (ct_sent s), Some Pending)
          | TxClosed :: tx => (mkCaConnTask (ct_conn s) None (TxClosed :: tx) (ct_sent s), Some (Ready true))
          | [] => (s, Some Pending)
          end
      | None =>
          match cx_poll_next pf af turns fuel (ct_conn s) with
          | (conn, Some (Ready (Some x))) => ct_poll pf af turns fuel steps (mkCaConnTask conn (Some x) (ct_tx s) (ct_sent s))
          | (conn, Some (Ready None)) => (mkCaConnTask conn None (ct_tx s) (ct_sent s), Some (Ready true))
          | (conn, Some Pending) => (mkCaConnTask conn None (ct_tx s) (ct_sent s), Some Pending)
          | (conn, None) => (mkCaConnTask conn None (ct_tx s) (ct_sent s), None)
          end
      end
  end.

End CaConn.
