(* ===== verification/ConnProofs.v ===== *)
(** * What a connection does with messages and commands

    Between the socket and the channels nothing is lost, doubled or reordered, in
    both directions, but for the messages right behind the version of the server
    ([hello_taken]), and each command is answered once ([ac_keeps], [cd_inv],
    [cd_run_inv]); then two ways in which a connection comes to a stop ([cd_stuck],
    [ac_blocked]), and examples that run one. *)
From Stdlib Require Import ZArith Lia String.
From stdpp Require Import base numbers option strings list gmap.
From S2P Require Import Prelude Utf8 Items ByteBuf CaProto CaMessages CaStream CaStreamProofs CaHeap Conn.

#[local] Open Scope Z_scope.
#[local] Arguments Nat.ltb : simpl never.

(** ** Buffers *)

Lemma push_back_space {T} (x : T) b : AsynBuf_is_space b = true ->
  PushRes_is_fail (AsynBuf_push_back x b).2 = false /\ ab_buf (AsynBuf_push_back x b).1 = ab_buf b ++ [x].
Proof.
  unfold AsynBuf_is_space, AsynBuf_push_back. intros ->. by destruct (AsynBuf_len b =? 0)%nat.
Qed.

Lemma push_back_cases {T} (x : T) b :
  match AsynBuf_push_back x b with
  | (b', PushFull y) => b' = b /\ y = x
  | (b', _) => ab_buf b' = ab_buf b ++ [x]
  end.
Proof. unfold AsynBuf_push_back. by destruct (AsynBuf_len b =? 0)%nat; [|destruct (_ <? _)%nat]. Qed.

Lemma pop_front_some {T} (x : T) b b' : AsynBuf_pop_front b = (b', Some x) -> ab_buf b = x :: ab_buf b'.
Proof. unfold AsynBuf_pop_front. destruct (ab_buf b); [done|]. by intros [= <- <-]. Qed.

Lemma pop_front_none {T} (b b' : AsynBuf T) : AsynBuf_pop_front b = (b', None) -> ab_buf b = [].
Proof. unfold AsynBuf_pop_front. by destruct (ab_buf b). Qed.

(** ** Channels that are watched *)

Definition inp_msgs (l : list InpItem) : list CaMsg := omap (fun x => match x with InpCaMsg m => Some m | _ => None end) l.

Definition item_outs {D} (l : list (Z * HeapItemInner D)) : list CaMsg :=
  omap (fun x => match x.2 with HiProtoOut m => Some m | _ => None end) l.

Definition heap_outs {D} (r : option (Poll (option (outcome unit (AsynBuf (Z * HeapItemInner D)))))) : list CaMsg :=
  match r with Some (Ready (Some (Ok items))) => item_outs (ab_buf items) | _ => [] end.

(** [ah_got]: the messages that were pushed; [ah_put]: those that were put out. *)
Class ChanHeapRec (H : ChanHeapOps) : Type := {
  ah_got : ah_heap -> list CaMsg;
  ah_put : ah_heap -> list CaMsg;
  rec_new : ah_got ah_new = [] /\ ah_put ah_new = [];
  rec_add n h : ah_got (ah_channel_add n h) = ah_got h /\ ah_put (ah_channel_add n h) = ah_put h;
  rec_idle h : ah_got (ah_disconnect_on_idle h) = ah_got h /\ ah_put (ah_disconnect_on_idle h) = ah_put h;
  rec_push x h :
    ah_got (ah_inp_push_try x h).1 = ah_got h ++ (if PushRes_is_fail (ah_inp_push_try x h).2 then [] else inp_msgs [x]) /\
    ah_put (ah_inp_push_try x h).1 = ah_put h;
  rec_poll h : ah_got (ah_poll_next h).1 = ah_got h /\ ah_put (ah_poll_next h).1 = ah_put h ++ heap_outs (ah_poll_next h).2
}.

(** Any channels can be watched. *)
Definition rec_ops (H : ChanHeapOps) : ChanHeapOps := {|
  ah_heap := ah_heap * (list CaMsg * list CaMsg);
  ah_data := ah_data;
  ah_new := (ah_new, ([], []));
  ah_channel_add n h := (ah_channel_add n h.1, h.2);
  ah_disconnect_on_idle h := (ah_disconnect_on_idle h.1, h.2);
  ah_inp_is_space h := ah_inp_is_space h.1;
  ah_inp_push_try x h :=
    let '(h', r) := ah_inp_push_try x h.1 in ((h', (h.2.1 ++ (if PushRes_is_fail r then [] else inp_msgs [x]), h.2.2)), r);
  ah_cmd_done h := ah_cmd_done h.1;
  ah_poll_next h := let '(h', r) := ah_poll_next h.1 in ((h', (h.2.1, h.2.2 ++ heap_outs r)), r)
|}.

#[export] Instance rec_ops_rec H : ChanHeapRec (rec_ops H).
Proof.
  refine (@Build_ChanHeapRec (rec_ops H) (fun h => h.2.1) (fun h => h.2.2) _ _ _ _ _); try done.
  - intros x [h [g p]]. cbn. by destruct (ah_inp_push_try x h).
  - intros [h [g p]]. cbn. by destruct (ah_poll_next h).
Defined.

#[export] Instance rec_ops_laws H : ChanHeapLaws H -> ChanHeapLaws (rec_ops H).
Proof.
  intros [Hs Hf]. split.
  - intros x [h l]. cbn. intros Hsp. specialize (Hs x h Hsp). by destruct (ah_inp_push_try x h).
  - intros x [h l] y. cbn. specialize (Hf x h y). by destruct (ah_inp_push_try x h).
Qed.

#[export] Instance channel_heap_laws `{ChannelHandlerOps} hf : ChanHeapLaws (channel_heap_ops hf).
Proof.
  split; cbn; unfold heap_inp_push_try, heap_inp_is_space.
  - intros x h Hs. destruct (push_back_space x _ Hs) as [Hf _]. by destruct (AsynBuf_push_back x (hp_inp_buf h)).
  - intros x h y. pose proof (push_back_cases x (hp_inp_buf h)) as Hc.
    destruct (AsynBuf_push_back x (hp_inp_buf h)) as [b []]; try done. destruct Hc as [_ ->]. cbn. congruence.
Qed.

(** ** The part that serves the channels *)

Section ActiveCaProofs.
  Context `{Henv : ConnEnv} `{Hops : ChanHeapOps} {Hlaws : ChanHeapLaws Hops} {Hrec : ChanHeapRec Hops}.

Definition to_channels (l : list CaMsg) : list CaMsg := filter (fun m => ac_dispatches m = true) l.

Definition ac_inp_msgs (l : list AcInpItem) : list CaMsg := omap (fun x => match x with AcInpCaMsg m => Some m | _ => None end) l.
Definition ac_inp_cmds (l : list AcInpItem) : list CaCommand := omap (fun x => match x with AcInpCmd c => Some c | _ => None end) l.

Definition cmd_done_tx (c : CaCommand) : nat :=
  match c with CkChannelAdd _ d | CkChannelRemove _ d | CkDisconnectOnIdle d => d end.

Definition fut_done_tx (f : option CommandFut) : list nat := match f with Some (CfRecv d) | Some (CfSend d) => [d] | None => [] end.

(** The messages for the channels that came in, in their order: what the channels
    have, and what waits. *)
Definition ac_msgs (s : ActiveCa) : list CaMsg :=
  ah_got (ac_chanheap s) ++ inp_msgs (ab_buf (ac_buf_for_chanheap s)) ++
  to_channels (ab_buf (ac_inp_msg_buf s) ++ ac_inp_msgs (ab_buf (ac_inp_buf s))).

(** The commands that came in, by the channels for their answers. *)
Definition ac_cmds (s : ActiveCa) : list nat :=
  ac_done_sent s ++ fut_done_tx (ac_cmd_fut s) ++
  map cmd_done_tx (ab_buf (ac_inp_cmd_buf s) ++ ac_inp_cmds (ab_buf (ac_inp_buf s))).

Definition ac_keeps (s s' : ActiveCa) : Prop :=
  ac_msgs s' = ac_msgs s /\ ac_cmds s' = ac_cmds s /\ ah_put (ac_chanheap s') = ah_put (ac_chanheap s).

Lemma ac_keeps_refl s : ac_keeps s s.
Proof. done. Qed.

Lemma ac_keeps_trans s1 s2 s3 : ac_keeps s1 s2 -> ac_keeps s2 s3 -> ac_keeps s1 s3.
Proof. unfold ac_keeps. intros (-> & -> & ->) (-> & -> & ->). done. Qed.

Lemma to_channels_app l k : to_channels (l ++ k) = to_channels l ++ to_channels k.
Proof. apply filter_app. Qed.

Lemma ac_take_inp_keeps s : ac_keeps s (ac_take_inp s).1 /\ (ac_take_inp s).2 = Ok tt /\ ac_state (ac_take_inp s).1 = ac_state s.
Proof.
  unfold ac_take_inp. destruct (AsynBuf_is_space (ac_inp_cmd_buf s)) eqn:Hc; [|done].
  destruct (AsynBuf_is_space (ac_inp_msg_buf s)) eqn:Hm; [|done]. cbn [andb].
  destruct (AsynBuf_pop_front (ac_inp_buf s)) as [b [x|]] eqn:Hp; [|done]. apply pop_front_some in Hp.
  destruct x as [m|c].
  - destruct (push_back_space m _ Hm) as [Hf Hb].
    destruct (AsynBuf_push_back m (ac_inp_msg_buf (ac_set_inp b s))) as [b' r] eqn:E. cbn in E, Hf, Hb. rewrite E in Hf, Hb. cbn in Hf, Hb.
    rewrite Hf. split; [|done]. unfold ac_keeps, ac_msgs, ac_cmds. cbn. rewrite Hb, Hp. cbn. by rewrite <- app_assoc.
  - destruct (push_back_space c _ Hc) as [Hf Hb].
    destruct (AsynBuf_push_back c (ac_inp_cmd_buf (ac_set_inp b s))) as [b' r] eqn:E. cbn in E, Hf, Hb. rewrite E in Hf, Hb. cbn in Hf, Hb.
    rewrite Hf. split; [|done]. unfold ac_keeps, ac_msgs, ac_cmds. cbn. rewrite Hb, Hp. cbn. by rewrite <- app_assoc.
Qed.

Lemma ac_send_done_keeps d s : ac_cmd_fut s = Some (CfRecv d) \/ ac_cmd_fut s = Some (CfSend d) ->
  let '(s', r) := ac_send_done d s in
  ac_keeps s (match r with Ready _ => ac_set_fut None s' | Pending => s' end) /\ ac_state s' = ac_state s.
Proof.
  intros Hf. unfold ac_send_done. destruct (cn_done_send (ac_clock s)); (split; [|done]); split; [done| |done|];
    unfold ac_cmds; cbn; [split; [|done]|split; [|done]]; destruct Hf as [->| ->]; cbn; by rewrite <- ?app_assoc.
Qed.

Lemma ac_poll_command_keeps s :
  let '(s', r) := ac_poll_command_input s in
  ac_keeps s s' /\ ac_state s' = ac_state s /\ match r with Some (Ready (Err _)) | Some (Ready Panic) => False | _ => True end.
Proof.
  unfold ac_poll_command_input. destruct (ac_cmd_fut s) as [fut|] eqn:Hf.
  - unfold ac_poll_cmd_fut. destruct fut as [d|d].
    + destruct (ac_cmd_done s); [|done]. pose proof (ac_send_done_keeps d s (or_introl Hf)) as Hk.
      by destruct (ac_send_done d s) as [s' []]; destruct Hk.
    + pose proof (ac_send_done_keeps d s (or_intror Hf)) as Hk. by destruct (ac_send_done d s) as [s' []]; destruct Hk.
  - destruct (AsynBuf_is_space (ac_buf_for_chanheap s)) eqn:Hs; [|done].
    destruct (AsynBuf_pop_front (ac_inp_cmd_buf s)) as [b [c|]] eqn:Hp; [|done]. apply pop_front_some in Hp.
    unfold ac_handle_command. cbn [ac_buf_for_chanheap ac_set_inp_cmd]. rewrite Hs.
    destruct c as [n d|n d|d]; (split; [|done]); unfold ac_keeps, ac_msgs, ac_cmds; cbn; rewrite Hp, Hf; cbn.
    + by destruct (rec_add n (ac_chanheap s)) as [-> ->].
    + unfold inp_msgs. rewrite omap_app. cbn. by rewrite app_nil_r.
    + by destruct (rec_idle (ac_chanheap s)) as [-> ->].
Qed.

Lemma ac_internal_keeps m s : ac_keeps s (ac_handle_internal m s).
Proof.
  unfold ac_handle_internal. destruct (cm_ty m); try done. by destruct (ac_state s) as [[]|].
Qed.

Lemma ac_dispatch_keeps fuel s : ac_keeps s (ac_dispatch_loop fuel s).
Proof.
  revert s. induction fuel as [|fuel IH]; intros s; [done|]. cbn [ac_dispatch_loop].
  destruct (AsynBuf_is_space (ac_buf_for_chanheap s)); [|done].
  destruct (AsynBuf_pop_front (ac_inp_msg_buf s)) as [b [m|]] eqn:Hp; [|done]. apply pop_front_some in Hp.
  eapply ac_keeps_trans; [|apply IH]. destruct (ac_dispatches m) eqn:Hd.
  - unfold ac_keeps, ac_msgs, ac_cmds. cbn. rewrite Hp. unfold inp_msgs. rewrite omap_app. cbn [omap list_omap app]. unfold to_channels.
    cbn [app]. rewrite filter_cons_True by done. by rewrite <- !app_assoc.
  - eapply ac_keeps_trans; [|apply ac_internal_keeps]. unfold ac_keeps, ac_msgs, ac_cmds. cbn. rewrite Hp. unfold to_channels.
    cbn [app]. rewrite filter_cons_False; [done|]. by rewrite Hd.
Qed.

Lemma ac_push_keeps fuel s : ac_keeps s (ac_push_loop fuel s) /\ ac_state (ac_push_loop fuel s) = ac_state s.
Proof.
  revert s. induction fuel as [|fuel IH]; intros s; [done|]. cbn [ac_push_loop].
  destruct (ah_inp_is_space (ac_chanheap s)) eqn:Hs; [|done].
  destruct (AsynBuf_pop_front (ac_buf_for_chanheap s)) as [b [x|]] eqn:Hp; [|done]. apply pop_front_some in Hp.
  pose proof (ah_space x _ Hs) as Hf. pose proof (rec_push x (ac_chanheap s)) as [Hg Hpu].
  destruct (ah_inp_push_try x (ac_chanheap s)) as [h r]. cbn in Hf, Hg, Hpu. rewrite Hf in Hg.
  assert (Hk : ac_keeps s (ac_set_for_chanheap b (ac_set_heap h s))).
  { unfold ac_keeps, ac_msgs, ac_cmds. cbn. rewrite Hg, Hpu, Hp. unfold inp_msgs. change (x :: ab_buf b) with ([x] ++ ab_buf b).
    rewrite omap_app. by rewrite <- !app_assoc. }
  destruct r; [| |done]; destruct (IH (ac_set_for_chanheap b (ac_set_heap h s))) as [Hk' Hst]; (split; [by eapply ac_keeps_trans|done]).
Qed.

(** ** Its polls *)

Definition ac_outs {D} (l : list (Z * AcItemInner D)) : list CaMsg :=
  omap (fun x => match x.2 with AiProtoOut m => Some m | _ => None end) l.

Definition res_outs {E D} (r : Poll (option (outcome E (AsynBuf (Z * AcItemInner D))))) : list CaMsg :=
  match r with Ready (Some (Ok items)) => ac_outs (ab_buf items) | _ => [] end.

Definition is_echo (ty : CaMsgTy) : bool := match ty with CaEcho => true | _ => false end.

(** The messages that are not pings. *)
Definition no_echo (l : list CaMsg) : list CaMsgTy := filter (fun ty => is_echo ty = false) (map cm_ty l).

Lemma no_echo_app l k : no_echo (l ++ k) = no_echo l ++ no_echo k.
Proof. unfold no_echo. by rewrite map_app, filter_app. Qed.

(** A ping that is to be sent is there, and an echo. *)
Definition ac_ping_wf (s : ActiveCa) : Prop :=
  match ac_state s with AcRunning (PpSend item _) => exists m, item = Some m /\ cm_ty m = CaEcho | _ => True end.

Lemma ac_internal_wf m s : ac_ping_wf s -> ac_ping_wf (ac_handle_internal m s).
Proof.
  unfold ac_handle_internal. destruct (cm_ty m); try done. unfold ac_ping_wf. by destruct (ac_state s) as [[]|] eqn:E; cbn; rewrite ?E.
Qed.

Lemma ac_dispatch_wf fuel s : ac_ping_wf s -> ac_ping_wf (ac_dispatch_loop fuel s).
Proof.
  revert s. induction fuel as [|fuel IH]; intros s Hw; [done|]. cbn [ac_dispatch_loop].
  destruct (AsynBuf_is_space (ac_buf_for_chanheap s)); [|done].
  destruct (AsynBuf_pop_front (ac_inp_msg_buf s)) as [b [m|]]; [|done].
  apply IH. by destruct (ac_dispatches m); [|apply ac_internal_wf].
Qed.

(** What a part of a poll has done, if it put out [outs]: these can be written, if
    what the channels put out can be. *)
Definition ac_did (s s' : ActiveCa) (outs : list CaMsg) : Prop :=
  ac_ping_wf s' /\ ac_msgs s' = ac_msgs s /\ ac_cmds s' = ac_cmds s /\
  (Forall sendable (ah_put (ac_chanheap s')) -> Forall sendable outs) /\
  no_echo (ah_put (ac_chanheap s')) = no_echo (ah_put (ac_chanheap s)) ++ no_echo outs.

Definition ac_moves (s s' : ActiveCa) (outs : list CaMsg) : Prop :=
  ah_put (ac_chanheap s) `prefix_of` ah_put (ac_chanheap s') /\ (ac_ping_wf s -> ac_did s s' outs).

Lemma ac_keeps_moves s s' : (ac_ping_wf s -> ac_ping_wf s') -> ac_keeps s s' -> ac_moves s s' [].
Proof.
  intros Hw (Hm & Hc & Hp). split; [by rewrite Hp|]. intros Hs. split_and!; [by apply Hw|done..|].
  by rewrite Hp, app_nil_r.
Qed.

Lemma ac_moves_trans s1 s2 s3 l : ac_moves s1 s2 [] -> ac_moves s2 s3 l -> ac_moves s1 s3 l.
Proof.
  intros [Hpre H1] [Hpre' H2]. split; [by etransitivity|]. intros Hw. destruct (H1 Hw) as (Hw' & Hm & Hc & _ & Hp).
  destruct (H2 Hw') as (Hw'' & Hm' & Hc' & Hs & Hp'). split_and!; [done|by rewrite Hm'|by rewrite Hc'|done|].
  rewrite Hp', Hp. by rewrite app_nil_r.
Qed.

Definition part_outs {E D} (r : part_end (outcome E (AsynBuf (Z * AcItemInner D)))) : list CaMsg :=
  match r with PartBreak r => res_outs (Ready (Some r)) | PartGo _ _ => [] end.

Definition turn_outs {E D} (r : turn_end (outcome E (AsynBuf (Z * AcItemInner D)))) : list CaMsg :=
  match r with TurnBreak r => res_outs r | _ => [] end.

Lemma ac_ping_moves ts s : let '(s', r) := ac_poll_ping ts s in ac_moves s s' (part_outs r).
Proof.
  unfold ac_poll_ping. destruct (ac_state s) as [[until|item until|until]|] eqn:Hst; cbn; [destruct (until <=? _)..|]; cbn.
  - apply ac_keeps_moves; [by eexists|done].
  - by apply ac_keeps_moves.
  - by apply ac_keeps_moves.
  - destruct item as [m|]; cbn; [|by apply ac_keeps_moves]. split; [done|]. intros Hw. unfold ac_ping_wf in Hw. rewrite Hst in Hw.
    destruct Hw as (m' & [= <-] & Hm). split_and!; [done..| |].
    + intros _. apply Forall_singleton. unfold sendable. by rewrite Hm.
    + unfold no_echo at 3. cbn. rewrite Hm. cbn. by rewrite app_nil_r.
  - by apply ac_keeps_moves.
  - by apply ac_keeps_moves.
  - by apply ac_keeps_moves.
Qed.

Lemma ac_item_outs {D} (l : list (Z * HeapItemInner D)) : ac_outs (map ac_item l) = item_outs l.
Proof. induction l as [|[ts []] l IH]; [done|exact IH..|]. exact (f_equal (cons m) IH). Qed.

Lemma hpp_turn_outs {E D} p q : turn_outs (hpp_turn (R := outcome E (AsynBuf (Z * AcItemInner D))) p q) = [].
Proof. by destruct p, q. Qed.

Lemma ac_turn_heap_moves ts p q s : let '(s', r) := ac_turn_heap ts p q s in ac_moves s s' (turn_outs r).
Proof.
  unfold ac_turn_heap. pose proof (rec_poll (ac_chanheap s)) as [Hg Hp].
  destruct (ah_poll_next (ac_chanheap s)) as [h r]. cbn in Hg, Hp.
  assert (Hm : forall s', ac_state s' = ac_state s \/ ac_state s' = AcDone -> ac_keeps (ac_set_heap h s) s' -> ac_moves s s' (heap_outs r)).
  { intros s' Hst (Hm & Hc & Hpu). cbn [ac_chanheap ac_set_heap] in Hpu. rewrite Hp in Hpu.
    split; [rewrite Hpu; by eexists|]. intros Hw. split_and!.
    - unfold ac_ping_wf. destruct Hst as [->| ->]; [exact Hw|done].
    - rewrite Hm. unfold ac_msgs. cbn. by rewrite Hg.
    - by rewrite Hc.
    - rewrite Hpu. by intros [_ ?]%Forall_app.
    - by rewrite Hpu, no_echo_app. }
  assert (Hrest : forall p q s', ac_state s' = ac_state s \/ ac_state s' = AcDone -> heap_outs r = [] -> ac_keeps (ac_set_heap h s) s' ->
    let '(s2, r2) := (match ac_poll_ping ts s' with
      | (s, PartGo p' q') => (s, hpp_turn (p || p') (q || q'))
      | (s, PartBreak r) => (s, TurnBreak (Ready (Some r)))
      end) in ac_moves s s2 (turn_outs r2)).
  { intros p' q' s' Hst Hno Hk. pose proof (Hm s' Hst Hk) as Hmv. rewrite Hno in Hmv.
    pose proof (ac_ping_moves ts s') as Hpm. destruct (ac_poll_ping ts s') as [s2 [p2 q2|r2]].
    - rewrite hpp_turn_outs. by eapply ac_moves_trans.
    - by eapply ac_moves_trans. }
  destruct r as [[[[items|e|]|]|]|].
  - change (ac_moves s (ac_set_heap h s) (ac_outs (map ac_item (ab_buf items)))). rewrite ac_item_outs.
    apply (Hm (ac_set_heap h s) (or_introl eq_refl) (ac_keeps_refl _)).
  - by apply Hm; [right|].
  - by apply Hm; [left|].
  - apply Hrest; [by right|done|done].
  - apply Hrest; [by left|done|done].
  - by apply Hm; [left|].
Qed.

Lemma ac_turn_moves s : let '(s', r) := ac_turn s in ac_moves s s' (turn_outs r).
Proof.
  unfold ac_turn. cbn [ac_now]. set (s0 := ac_tick s). assert (Hk0 : ac_keeps s s0) by done.
  assert (Hw0 : ac_ping_wf s -> ac_ping_wf s0) by done. clearbody s0. destruct (ac_state s0) eqn:Hst; [|by apply ac_keeps_moves].
  pose proof (ac_take_inp_keeps s0) as Ht. destruct (ac_take_inp s0) as [s1 r1]. cbn in Ht. destruct Ht as (Hk1 & -> & Hst1).
  pose proof (ac_poll_command_keeps s1) as Hc. destruct (ac_poll_command_input s1) as [s2 r2]. destruct Hc as (Hk2 & Hst2 & Hr2).
  set (s3 := ac_poll_dispatch s2). assert (Hk3 : ac_keeps s2 s3) by apply ac_dispatch_keeps.
  set (s4 := ac_poll_inp_push_to_chanheap s3). destruct (ac_push_keeps (S (AsynBuf_len (ac_buf_for_chanheap s3))) s3) as [Hk4 Hst4].
  change (ac_keeps s3 s4) in Hk4. change (ac_state s4 = ac_state s3) in Hst4.
  assert (Hk : ac_moves s s4 []).
  { apply ac_keeps_moves.
    - intros Hw%Hw0. assert (Hw3 : ac_ping_wf s3) by (apply ac_dispatch_wf; unfold ac_ping_wf in *; by rewrite Hst2, Hst1).
      unfold ac_ping_wf in *. by rewrite Hst4.
    - eapply ac_keeps_trans; [exact Hk0|]. eapply ac_keeps_trans; [exact Hk1|]. eapply ac_keeps_trans; [exact Hk2|].
      by eapply ac_keeps_trans. }
  destruct r2 as [[[]|]|]; try done; match goal with |- context [ac_turn_heap ?ts ?p ?q _] => pose proof (ac_turn_heap_moves ts p q s4) as Hh;
    change (ac_poll_inp_push_to_chanheap (ac_poll_dispatch s2)) with s4; destruct (ac_turn_heap ts p q s4) as [s5 r5] end;
    by eapply ac_moves_trans.
Qed.

Definition poll_outs {E D} (r : option (Poll (option (outcome E (AsynBuf (Z * AcItemInner D)))))) : list CaMsg :=
  match r with Some r => res_outs r | None => [] end.

(** A poll keeps the messages and the commands, and puts out what the channels put
    out, and pings. *)
Lemma ac_poll_moves turns s : let '(s', r) := ac_poll_next turns s in ac_moves s s' (poll_outs r).
Proof.
  revert s. induction turns as [|turns IH]; intros s; [by apply ac_keeps_moves|]. cbn [ac_poll_next].
  pose proof (ac_turn_moves s) as Ht. destruct (ac_turn s) as [s1 r]. destruct r as [|r|]; [|done..].
  specialize (IH s1). destruct (ac_poll_next turns s1) as [s2 r2]. by eapply ac_moves_trans.
Qed.

End ActiveCaProofs.

(** ** The connection *)

Section ConnectedProofs.
  Context `{NetBufLaws} `{Hcaenv : CaEnv} `{Henv : ConnEnv} `{Hops : ChanHeapOps} {Hlaws : ChanHeapLaws Hops} {Hrec : ChanHeapRec Hops}.

Lemma poll_outbound_delivers s l :
  out_ok s -> onward s l ->
  let '(s', r) := cp_poll_outbound s in out_ok s' /\ out_stream s' = out_stream s /\ onward s' l.
Proof.
  intros Hok (k & [Hwf Hah] & Hkl). pose proof (poll_outbound_ok s Hok) as Ho. destruct (cp_poll_outbound s) as [s' r].
  destruct Ho as (Hok' & Hos & (Hb & Hq & Ht & Hrd & He) & Hst & _). split; [done|]. split; [done|].
  assert (Hqq : queued s' = queued s) by (unfold queued; by rewrite Hq).
  destruct Hst as [Hst|(_ & Hst & _)].
  - exists k. split; [|done]. split; [by rewrite Hb|]. destruct Hah as [(pre & [Hr1 Hr2] & ->)|[Hd ->]].
    + left. exists pre. split; [split; [by rewrite Hb|by rewrite Hst]|]. unfold fut. by rewrite Hqq, Hb, Ht, Hrd.
    + right. by rewrite Hst, Hqq.
  - exists (oks (queued s')). split; [split; [by rewrite Hb|by right]|]. rewrite Hqq. destruct Hah as [(pre & _ & ->)|[_ ->]]; [|done].
    etransitivity; [|exact Hkl]. by eapply queued_prefix.
Qed.

(** *** The queue in front of the protocol *)

Definition pw_inv (s : ProtoPusher) (l : list CaMsgTy) : Prop :=
  out_ok (pw_proto s) /\ onward (pw_proto s) l /\ Forall sendable (ab_buf (pw_out_buf s)).

(** The bytes of all messages that were put out, sent or not. *)
Definition pw_stream (s : ProtoPusher) : list Z := out_stream (pw_proto s) ++ concat (map ca_wire (ab_buf (pw_out_buf s))).

Lemma pw_flush_inv fuel s l : pw_inv s l -> pw_inv (pw_flush fuel s) l /\ pw_stream (pw_flush fuel s) = pw_stream s.
Proof.
  revert s. induction fuel as [|fuel IH]; intros s Hi; [done|]. cbn [pw_flush].
  destruct (cp_proto_out_space (pw_proto s)); [|done].
  destruct (AsynBuf_pop_front (pw_out_buf s)) as [b [x|]] eqn:Hp; [|done]. apply pop_front_some in Hp.
  destruct Hi as (Hok & Hon & Hs). rewrite Hp in Hs. inversion Hs as [|? ? Hx Hb]; subst.
  destruct (push_out_stream x (pw_proto s) Hx Hok) as [Hok' Hos].
  destruct (IH (mkProtoPusher (pw_state s) (cp_push_out x (pw_proto s)) b)) as [Hi' Hst].
  { split; [done|]. split; [|done]. by destruct Hon as (k & Hk & ?); exists k. }
  split; [done|]. rewrite Hst. unfold pw_stream. cbn [pw_proto pw_out_buf]. rewrite Hos, Hp. cbn [map concat]. by rewrite app_assoc.
Qed.

Lemma pw_poll_inv fuel s l : pw_inv s l ->
  match pw_poll_next fuel s with
  | (s', CaOut (Ready (Some r))) => exists l', pw_inv s' l' /\ oks (outs [r]) ++ l' `prefix_of` l /\ pw_stream s' = pw_stream s
  | (s', CaOut _) => pw_inv s' l /\ pw_stream s' = pw_stream s
  | _ => True
  end.
Proof.
  intros Hi. unfold pw_poll_next. destruct (pw_state s); [|done].
  destruct (pw_flush_inv (S (pw_out_len s)) s l Hi) as [(Hok & Hon & Hs) Hst]. set (s1 := pw_flush _ s) in *. clearbody s1.
  unfold pw_poll_proto. pose proof (poll_next_delivers fuel (pw_proto s1) l Hok Hon) as Hd.
  destruct (cp_poll_next fuel (pw_proto s1)) as [p o]. destruct Hd as (Hok' & Hos & Hd). rewrite <- Hst.
  destruct o as [| |[[r|]|]]; [done|done|..]; unfold pw_stream; cbn [pw_proto pw_out_buf poll_delivers] in *.
  - destruct Hd as (l' & Hon' & Hp). exists l'. split; [done|]. split; [done|]. by rewrite Hos.
  - split; [done|]. by rewrite Hos.
  - split; [done|]. by rewrite Hos.
Qed.

Lemma pw_outbound_inv s l : pw_inv s l -> pw_inv (pw_poll_outbound s).1 l /\ pw_stream (pw_poll_outbound s).1 = pw_stream s.
Proof.
  intros (Hok & Hon & Hs). unfold pw_poll_outbound. pose proof (poll_outbound_delivers (pw_proto s) l Hok Hon) as Hd.
  destruct (cp_poll_outbound (pw_proto s)) as [p r]. destruct Hd as (Hok' & Hos & Hon'). split; [done|].
  unfold pw_stream. cbn [pw_proto pw_out_buf fst]. by rewrite Hos.
Qed.

Lemma pw_force_inv m s l : sendable m -> pw_inv s l ->
  pw_inv (pw_push_back_force m s) l /\ pw_stream (pw_push_back_force m s) = pw_stream s ++ ca_wire m.
Proof.
  intros Hm (Hok & Hon & Hs). split.
  - split; [done|]. split; [done|]. cbn. apply Forall_app. by split; [|apply Forall_singleton].
  - unfold pw_stream. cbn. rewrite map_app, concat_app. cbn. by rewrite app_nil_r, app_assoc.
Qed.

Lemma pw_space_inv m s l : sendable m -> pw_is_space s = true -> pw_inv s l ->
  pw_inv (pw_push_back_or_drop m s) l /\ pw_stream (pw_push_back_or_drop m s) = pw_stream s ++ ca_wire m.
Proof.
  intros Hm Hsp (Hok & Hon & Hs). destruct (push_back_space m (pw_out_buf s) Hsp) as [_ Hb]. unfold pw_inv, pw_stream. cbn. rewrite Hb. split.
  - split; [done|]. split; [done|]. apply Forall_app. by split; [|apply Forall_singleton].
  - rewrite map_app, concat_app. cbn. by rewrite app_nil_r, app_assoc.
Qed.

Lemma cd_items_inv items p l : Forall sendable (ac_outs items) -> pw_inv p l ->
  pw_inv (cd_items items p).1 l /\ pw_stream (cd_items items p).1 = pw_stream p ++ concat (map ca_wire (ac_outs items)).
Proof.
  revert p. induction items as [|[ts x] items IH]; intros p Hs Hi; [by rewrite app_nil_r|].
  destruct x as [q|v|y|v|m]; cbn [cd_items];
    try (specialize (IH p Hs Hi); destruct (cd_items items p); exact IH).
  inversion Hs as [|? ? Hm Hs']; subst. destruct (pw_force_inv m p l Hm Hi) as [Hi' Hst].
  destruct (IH _ Hs' Hi') as [Hi2 Hst2]. split; [done|]. rewrite Hst2, Hst.
  change (ac_outs ((ts, AiProtoOut m) :: items)) with (m :: ac_outs items). cbn [map concat]. by rewrite app_assoc.
Qed.

(** *** The connection *)

Definition hello_tys : list CaMsgTy := map cm_ty (HelloSend_new 0).

Definition version_ok (ty : CaMsgTy) : Prop := match ty with CaVersionRes n => 12 <= n <= 13 | _ => False end.

Definition no_version (ty : CaMsgTy) : Prop := match ty with CaVersionRes _ => False | _ => True end.

(** The messages [taken] from the input end with [rest]; before these are the first
    version of the server, one that is understood, and behind it as many as wait
    in the input of the handshake, at most fifteen. *)
Definition hello_taken (taken rest : list CaMsgTy) : Prop :=
  exists pre v dropped, taken = pre ++ v :: dropped ++ rest /\ Forall no_version pre /\ version_ok v /\ (length dropped <= 15)%nat.

Lemma hello_taken_app taken rest l : hello_taken taken rest -> hello_taken (taken ++ l) (rest ++ l).
Proof.
  intros (pre & v & dropped & -> & Hpre & Hv & Hd). exists pre, v, dropped. split_and!; [|done..].
  by rewrite <- app_assoc, <- app_comm_cons, <- app_assoc.
Qed.

(** The input of the handshake. *)
Definition hs_buf_ok (hs : Handshake) : Prop := ab_cap (hs_inp_buf hs) = 16%nat /\ (length (ab_buf (hs_inp_buf hs)) <= 16)%nat.

(** The messages among these that are for the channels. *)
Definition for_channels (l : list CaMsgTy) : list CaMsgTy := filter (fun ty => ac_dispatches (CaMsg_from_ty_ts ty 0) = true) l.

Definition not_echo (l : list CaMsgTy) : list CaMsgTy := filter (fun ty => is_echo ty = false) l.

Lemma for_channels_app l k : for_channels (l ++ k) = for_channels l ++ for_channels k.
Proof. apply filter_app. Qed.

Lemma for_channels_one m : for_channels [cm_ty m] = map cm_ty (to_channels [m]).
Proof.
  unfold for_channels, to_channels. change (ac_dispatches (CaMsg_from_ty_ts (cm_ty m) 0)) with (ac_dispatches m).
  destruct (ac_dispatches m) eqn:Hd.
  - rewrite !filter_cons_True; [done|exact Hd|exact Hd].
  - rewrite !filter_cons_False; [done|by rewrite Hd|]. change (ac_dispatches (CaMsg_from_ty_ts (cm_ty m) 0)) with (ac_dispatches m).
    by rewrite Hd.
Qed.

(** [taken]: the messages that were taken from the input; [sent]: those that were
    put out; [passed]: the commands that were passed on. *)
Definition cd_state_inv (st : CdState) (taken sent : list CaMsgTy) (passed : list nat) : Prop :=
  match st with
  | CdInit => taken = [] /\ sent = []
  | CdHandshake hs =>
      (hs_buf_ok hs /\ exists before, taken = before ++ map cm_ty (ab_buf (hs_inp_buf hs)) /\ Forall no_version before) /\
      match hs_state hs with
      | HsHelloSend msgs => sent ++ map cm_ty msgs = hello_tys
      | HsHelloRecv => sent = hello_tys
      | HsDone => False
      end
  | CdActiveCa ac =>
      ac_ping_wf ac /\ ac_cmds ac = passed /\
      (exists rest, hello_taken taken rest /\ map cm_ty (ac_msgs ac) = for_channels rest) /\
      (exists l, sent = hello_tys ++ l /\ not_echo l = no_echo (ah_put (ac_chanheap ac)))
  | CdDone => True
  end.

Definition cd_passed_inv (st : CdState) (passed : list nat) : Prop :=
  match st with CdInit | CdHandshake _ => passed = [] | _ => True end.

Definition cd_inv (L : list CaMsgTy) (cmds : list nat) (s : Connected) : Prop :=
  exists l taken sent passed,
    pw_inv (cd_protowrap s) l /\ (taken ++ map cm_ty (ab_buf (cd_inp_buf s)) ++ l) `prefix_of` L /\
    pw_stream (cd_protowrap s) = concat (map ca_wire sent) /\
    passed ++ map cmd_done_tx (ab_buf (cd_inp_cmd_buf s)) = cmds /\
    cd_passed_inv (cd_state s) passed /\ cd_state_inv (cd_state s) taken (map cm_ty sent) passed.

Lemma cd_inv_intro L cmds s l taken sent passed :
  pw_inv (cd_protowrap s) l -> (taken ++ map cm_ty (ab_buf (cd_inp_buf s)) ++ l) `prefix_of` L ->
  pw_stream (cd_protowrap s) = concat (map ca_wire sent) ->
  passed ++ map cmd_done_tx (ab_buf (cd_inp_cmd_buf s)) = cmds ->
  cd_passed_inv (cd_state s) passed -> cd_state_inv (cd_state s) taken (map cm_ty sent) passed -> cd_inv L cmds s.
Proof. intros. by exists l, taken, sent, passed. Qed.

Definition part_inv {R} (L : list CaMsgTy) (cmds : list nat) (s : Connected) (r : option (part_end (outcome CdError R))) : Prop :=
  match r with None | Some (PartBreak Panic) => True | _ => cd_inv L cmds s end.

(** What the channels of the connection put out. *)
Definition cd_put (s : Connected) : list CaMsg :=
  match cd_state s with CdActiveCa ac => ah_put (ac_chanheap ac) | _ => [] end.

(** A step that goes on goes on from where it was. *)
Definition cd_forward (s s' : Connected) : Prop :=
  cd_state s' <> CdDone -> cd_state s <> CdDone /\ cd_put s `prefix_of` cd_put s'.

Lemma cd_inv_done L cmds s : cd_inv L cmds s -> cd_inv L cmds (cd_set_state CdDone s).
Proof. intros (l & taken & sent & passed & Hi & Hp & Hs & Hc & _). by exists l, taken, sent, passed. Qed.

Lemma cd_protowrap_inv pf L cmds s : cd_inv L cmds s ->
  let '(s', r) := cd_poll_protowrap pf s in part_inv L cmds s' r.
Proof.
  intros Hinv. pose proof Hinv as (l & taken & sent & passed & Hi & Hp & Hs & Hc & Hst). unfold cd_poll_protowrap.
  set (go := let '(pw, r1) := pw_poll_outbound (cd_protowrap s) in _).
  enough (let '(s', r) := go in part_inv L cmds s' r) by (by destruct (cd_state s)). subst go.
  destruct (pw_outbound_inv (cd_protowrap s) l Hi) as [Hi1 Hs1]. destruct (pw_poll_outbound (cd_protowrap s)) as [pw r1].
  cbn [fst] in Hi1, Hs1. rewrite Hs in Hs1.
  assert (Hset : forall pw' l' b, pw_inv pw' l' -> pw_stream pw' = concat (map ca_wire sent) ->
    (taken ++ map cm_ty (ab_buf b) ++ l') `prefix_of` L ->
    cd_inv L cmds (cd_set_inp b (cd_set_protowrap pw' s))) by (intros pw' l' b ? ? ?; by exists l', taken, sent, passed).
  assert (Hset0 : forall pw' l', pw_inv pw' l' -> pw_stream pw' = concat (map ca_wire sent) -> l' `prefix_of` l ->
    cd_inv L cmds (cd_set_protowrap pw' s)).
  { intros pw' l' ? ? Hl. exists l', taken, sent, passed. split_and!; try done; try apply Hst.
    etransitivity; [|exact Hp]. by do 2 apply prefix_app. }
  assert (Hgo : forall p q, let '(s', r) :=
     (if AsynBuf_is_space (cd_inp_buf (cd_set_protowrap pw s)) then
            let '(pw, r) := pw_poll_next pf (cd_protowrap (cd_set_protowrap pw s)) in
            let s := cd_set_protowrap pw (cd_set_protowrap pw s) in
            match r with
            | CaOut (Ready (Some (Ok (CaItemMsg x)))) =>
                (cd_set_inp (AsynBuf_push_back_force x (cd_inp_buf s)) s, Some (PartGo true q))
            | CaOut (Ready (Some (Ok CaItemEmpty))) => (s, Some (PartGo true q))
            | CaOut (Ready (Some (Err e))) => (cd_set_state CdDone s, Some (PartBreak (Err (CdProto e))))
            | CaOut (Ready (Some Panic)) | CaOutPanic => (s, Some (PartBreak Panic))
            | CaOut (Ready None) => (s, Some (PartGo p q))
            | CaOut Pending => (s, Some (PartGo p true))
            | CaOutOfFuel => (s, None)
            end
          else (cd_set_protowrap pw s, Some (PartGo p q))) in
     part_inv (R := AsynBuf (Z * CdItemInner ah_data)) L cmds s' r).
  { intros p q. destruct (AsynBuf_is_space _); [|by apply (Hset0 pw l)].
    pose proof (pw_poll_inv pf pw l Hi1) as Hn. cbn [cd_protowrap cd_set_protowrap].
    destruct (pw_poll_next pf pw) as [pw2 [| |[[r|]|]]]; [done|done|..].
    - destruct Hn as (l' & Hi2 & Hpre & Hs2). rewrite Hs1 in Hs2.
      destruct r as [[|m]|e|]; cbn [part_inv].
      + by apply (Hset0 pw2 l').
      + apply (Hset pw2 l'); [done|done|]. cbn. rewrite map_app. cbn. rewrite <- app_assoc. cbn.
        etransitivity; [|exact Hp]. by do 2 apply prefix_app.
      + apply cd_inv_done. by apply (Hset0 pw2 l').
      + done.
    - destruct Hn as [Hi2 Hs2]. rewrite Hs1 in Hs2. by apply (Hset0 pw2 l).
    - destruct Hn as [Hi2 Hs2]. rewrite Hs1 in Hs2. by apply (Hset0 pw2 l). }
  destruct r1 as [[[[]|e|]|]|]; try (apply Hgo); [by apply (Hset0 pw l)|done].
Qed.

(** *** The handshake *)

Lemma hs_push_buf x hs : hs_buf_ok hs -> hs_buf_ok (hs_inp_push_try x hs).1.
Proof.
  intros [Hc Hl]. unfold hs_inp_push_try, AsynBuf_push_back, ab_grown, AsynBuf_len. rewrite Hc.
  destruct (Nat.eqb_spec (length (ab_buf (hs_inp_buf hs))) 0) as [Hz|Hz]; [|destruct (Nat.ltb_spec (length (ab_buf (hs_inp_buf hs))) 16)];
    unfold hs_buf_ok; cbn [fst hs_inp_buf ab_cap ab_buf]; rewrite ?length_app; cbn [length]; try (split; [done|lia]).
  rewrite Hz. split; [done|lia].
Qed.

Lemma hs_push_inv x hs taken sent passed :
  cd_state_inv (CdHandshake hs) taken sent passed ->
  let '(hs', r) := hs_inp_push_try x hs in
  match r with
  | PushFull y => y = x /\ hs' = hs
  | _ => cd_state_inv (CdHandshake hs') (taken ++ [cm_ty x]) sent passed
  end.
Proof.
  intros [(Hb & before & -> & Hv) Hst]. unfold hs_inp_push_try. pose proof (push_back_cases x (hs_inp_buf hs)) as Hc.
  pose proof (hs_push_buf x hs Hb) as Hb'. unfold hs_inp_push_try in Hb'.
  destruct (AsynBuf_push_back x (hs_inp_buf hs)) as [b [| |y]].
  1,2: split; [|exact Hst]; split; [exact Hb'|]; exists before; split; [|done]; cbn; by rewrite Hc, map_app, app_assoc.
  destruct Hc as [-> ->]. by destruct hs.
Qed.

(** What the handshake takes from its buffer is gone. *)
Lemma hs_recv_inv hs taken sent passed :
  hs_state hs = HsHelloRecv -> cd_state_inv (CdHandshake hs) taken sent passed ->
  match hs_recv hs with
  | (hs', Ready None) | (hs', Pending) => cd_state_inv (CdHandshake hs') taken sent passed
  | (_, Ready (Some (Ok HsHandshakeDone))) => sent = hello_tys /\ hello_taken taken []
  | (_, Ready (Some (Err _))) => True
  | _ => False
  end.
Proof.
  intros Hs [([Hc Hl] & before & -> & Hv) Hst]. rewrite Hs in Hst. subst sent. unfold hs_recv.
  destruct (AsynBuf_pop_front (hs_inp_buf hs)) as [b [m|]] eqn:Hp.
  2:{ split; [split; [done|by eexists]|]. by rewrite Hs. }
  assert (Hcb : ab_cap b = 16%nat).
  { rewrite <- Hc. unfold AsynBuf_pop_front in Hp. destruct (ab_buf (hs_inp_buf hs)); [done|]. by injection Hp as <- _. }
  apply pop_front_some in Hp. rewrite Hp in Hl. cbn [length] in Hl.
  assert (Hb : no_version (cm_ty m) ->
    cd_state_inv (CdHandshake (mkHandshake (hs_state hs) b)) (before ++ map cm_ty (ab_buf (hs_inp_buf hs))) hello_tys passed).
  { intros Hm. split; [|by cbn; rewrite Hs]. split; [split; [done|cbn; lia]|]. exists (before ++ [cm_ty m]). cbn. rewrite Hp. cbn.
    rewrite <- app_assoc. split; [done|]. apply Forall_app. by split; [|constructor]. }
  destruct (cm_ty m) eqn:Hm; try exact (Hb I).
  destruct ((n <? 12) || (13 <? n)) eqn:Hn; [done|]. split; [done|]. apply orb_false_elim in Hn as [H1 H2].
  exists before, (CaVersionRes n), (map cm_ty (ab_buf b)). split_and!; [|done|cbn; lia|rewrite length_map; lia].
  rewrite Hp, app_nil_r. cbn. by rewrite Hm.
Qed.

Lemma hs_poll_inv hs taken sent passed :
  cd_state_inv (CdHandshake hs) taken sent passed ->
  match hs_poll_next hs with
  | (hs', Ready (Some (Ok (HsCaMsg m)))) =>
      sendable m /\ forall p, cd_state_inv (CdHandshake hs') taken (sent ++ [cm_ty m]) p
  | (_, Ready (Some (Ok HsHandshakeDone))) => sent = hello_tys /\ hello_taken taken []
  | (hs', Ready None) | (hs', Pending) => cd_state_inv (CdHandshake hs') taken sent passed
  | (_, Ready (Some (Err _))) => True
  | (_, Ready (Some Panic)) => False
  end.
Proof.
  intros Hi. unfold hs_poll_next. destruct (hs_state hs) as [[|m msgs]| |] eqn:Hs.
  - assert (Hi' : cd_state_inv (CdHandshake (mkHandshake HsHelloRecv (hs_inp_buf hs))) taken sent passed).
    { destruct Hi as [Hb Hst]. rewrite Hs in Hst. cbn in Hst. rewrite app_nil_r in Hst. by split. }
    pose proof (hs_recv_inv (mkHandshake HsHelloRecv (hs_inp_buf hs)) taken sent passed eq_refl Hi') as Hr. destruct (hs_recv _) as [h [[[[]|e|]|]|]]; done.
  - destruct Hi as [Hb Hst]. rewrite Hs in Hst. split.
    + assert (Hall : Forall (fun ty => CaMsgTy_sendable ty = true) hello_tys) by (repeat constructor).
      rewrite <- Hst in Hall. apply Forall_app in Hall as [_ Hall]. by inversion Hall.
    + intros p. split; [exact Hb|]. cbn. by rewrite <- app_assoc.
  - pose proof (hs_recv_inv _ _ _ _ Hs Hi) as Hr. destruct (hs_recv _) as [h [[[[]|e|]|]|]]; done.
  - destruct Hi as [_ Hst]. by rewrite Hs in Hst.
Qed.

Lemma ac_new_inv clock taken sent : sent = hello_tys -> hello_taken taken [] -> cd_state_inv (CdActiveCa (ac_new clock)) taken sent [].
Proof.
  intros -> Hv. destruct rec_new as [Hg Hp]. split; [done|]. split; [done|]. split.
  - exists []. split; [done|]. unfold ac_msgs. cbn. by rewrite Hg.
  - exists []. split; [by rewrite app_nil_r|]. cbn. by rewrite Hp.
Qed.

Lemma cd_handshake_inv hs L cmds s : cd_state s = CdHandshake hs -> cd_inv L cmds s ->
  let '(s', r) := cd_handshake hs s in part_inv L cmds s' (Some r).
Proof.
  intros Hst (l & taken & sent & passed & Hi & Hp & Hs & Hc & Hpa & Hsi). rewrite Hst in Hpa, Hsi. cbn in Hpa. subst passed.
  unfold cd_handshake, cd_handshake_inp.
  assert (Hrest : forall s1 hs1 taken1 p, cd_protowrap s1 = cd_protowrap s -> cd_inp_cmd_buf s1 = cd_inp_cmd_buf s ->
    cd_state_inv (CdHandshake hs1) taken1 (map cm_ty sent) [] ->
    (taken1 ++ map cm_ty (ab_buf (cd_inp_buf s1)) ++ l) `prefix_of` L ->
    let '(s', r) :=
      (if pw_is_space (cd_protowrap s1) then
         match hs_poll_next hs1 with
         | (st1, Ready (Some (Ok (HsCaMsg x)))) =>
             (cd_set_protowrap (pw_push_back_or_drop x (cd_protowrap s1)) (cd_set_state (CdHandshake st1) s1), PartGo true false)
         | (_, Ready (Some (Ok HsHandshakeDone))) => (cd_set_state (CdActiveCa (ac_new (cd_clock s1))) s1, PartGo true false)
         | (_, Ready (Some (Err e))) => (cd_set_state CdDone s1, PartBreak (Err (CdHandshakeError e)))
         | (st1, Ready (Some Panic)) => (cd_set_state (CdHandshake st1) s1, PartBreak Panic)
         | (st1, Ready None) => (cd_set_state (CdHandshake st1) s1, PartGo p false)
         | (st1, Pending) => (cd_set_state (CdHandshake st1) s1, PartGo p true)
         end
       else (cd_set_state (CdHandshake hs1) s1, PartGo p false)) in
    part_inv (R := AsynBuf (Z * CdItemInner ah_data)) L cmds s' (Some r)).
  { intros s1 hs1 taken1 p Hpw Hcb Hsi1 Hp1. rewrite <- Hpw in Hi, Hs. rewrite <- Hcb in Hc.
    destruct (pw_is_space (cd_protowrap s1)) eqn:Hsp; [|by apply (cd_inv_intro _ _ _ l taken1 sent [])].
    pose proof (hs_poll_inv hs1 taken1 (map cm_ty sent) [] Hsi1) as Hh.
    destruct (hs_poll_next hs1) as [hs2 [[[[m|]|e|]|]|]]; cbn [part_inv];
      [| |by apply (cd_inv_intro _ _ _ l taken1 sent [])|done|by apply (cd_inv_intro _ _ _ l taken1 sent [])..].
    - destruct Hh as [Hm Hh]. destruct (pw_space_inv m _ l Hm Hsp Hi) as [Hi' Hs'].
      apply (cd_inv_intro _ _ _ l taken1 (sent ++ [m]) []); [done|done| |done|done|].
      + change (pw_stream (pw_push_back_or_drop m (cd_protowrap s1)) = concat (map ca_wire (sent ++ [m]))).
        rewrite Hs', Hs, map_app, concat_app. cbn. by rewrite app_nil_r.
      + rewrite map_app. apply (Hh []).
    - destruct Hh as [Hh Hv]. apply (cd_inv_intro _ _ _ l taken1 sent []); [done..|]. by apply ac_new_inv. }
  destruct (AsynBuf_pop_front (cd_inp_buf s)) as [b [x|]] eqn:Hpop; [|by apply (Hrest s hs taken)].
  apply pop_front_some in Hpop. pose proof (hs_push_inv x hs taken (map cm_ty sent) [] Hsi) as Hx. rewrite Hpop in Hp.
  destruct (hs_inp_push_try x hs) as [hs1 [| |y]].
  - apply (Hrest _ hs1 (taken ++ [cm_ty x])); [done..|]. cbn. rewrite <- app_assoc. exact Hp.
  - apply (Hrest _ hs1 (taken ++ [cm_ty x])); [done..|]. cbn. rewrite <- app_assoc. exact Hp.
  - destruct Hx as [-> ->]. by apply (Hrest _ hs taken).
Qed.

(** *** Serving the channels *)

Lemma ac_push_inv x ac : let '(ac', r) := ac_inp_push_try x ac in
  match r with
  | PushFull y => y = x /\ ac' = ac
  | _ => ac_msgs ac' = ac_msgs ac ++ to_channels (ac_inp_msgs [x]) /\ ac_cmds ac' = ac_cmds ac ++ map cmd_done_tx (ac_inp_cmds [x]) /\
      ac_state ac' = ac_state ac /\ ac_chanheap ac' = ac_chanheap ac
  end.
Proof.
  unfold ac_inp_push_try. pose proof (push_back_cases x (ac_inp_buf ac)) as Hc.
  assert (Happ : forall b, ab_buf b = ab_buf (ac_inp_buf ac) ++ [x] ->
    ac_msgs (ac_set_inp b ac) = ac_msgs ac ++ to_channels (ac_inp_msgs [x]) /\
    ac_cmds (ac_set_inp b ac) = ac_cmds ac ++ map cmd_done_tx (ac_inp_cmds [x])).
  { intros b Hb. unfold ac_msgs, ac_cmds. cbn [ac_chanheap ac_buf_for_chanheap ac_inp_msg_buf ac_inp_buf ac_set_inp ac_done_sent ac_cmd_fut ac_inp_cmd_buf].
    rewrite Hb. unfold ac_inp_msgs, ac_inp_cmds. rewrite !omap_app, !to_channels_app, !map_app. by rewrite !app_assoc. }
  destruct (AsynBuf_push_back x (ac_inp_buf ac)) as [b [| |y]]; [destruct (Happ b Hc)..|destruct Hc as [-> ->]]; try done.
  by destruct ac.
Qed.

(** The state with what is to be handed to the part that serves the channels. *)
Definition cd_active_inv (L : list CaMsgTy) (cmds : list nat) (st1 : ActiveCa) (s : Connected) : Prop :=
  cd_inv L cmds (cd_set_state (CdActiveCa st1) s).

Lemma cd_pass_cmd_inv L cmds st1 s : cd_active_inv L cmds st1 s ->
  let '(s', st1', r) := cd_pass_cmd st1 s in cd_active_inv L cmds st1' s' /\ is_ok r /\ cd_state s' = cd_state s.
Proof.
  intros Hinv. unfold cd_pass_cmd. destruct (negb _ && ac_inp_is_space st1) eqn:Hsp; [|by split_and!; [|by eexists|]].
  apply andb_true_iff in Hsp as [_ Hsp].
  destruct (AsynBuf_pop_front (cd_inp_cmd_buf s)) as [b [x|]] eqn:Hpop; [|by split_and!; [|by eexists|]].
  apply pop_front_some in Hpop. pose proof (ac_push_inv (AcInpCmd x) st1) as Hx.
  assert (Hf : PushRes_is_fail (ac_inp_push_try (AcInpCmd x) st1).2 = false).
  { unfold ac_inp_push_try. destruct (push_back_space (AcInpCmd x) _ Hsp) as [Hf _].
    by destruct (AsynBuf_push_back (AcInpCmd x) (ac_inp_buf st1)). }
  destruct (ac_inp_push_try (AcInpCmd x) st1) as [st2 r]. cbn [snd] in Hf. rewrite Hf.
  split; [|by split; [eexists|]]. destruct Hinv as (l & taken & sent & passed & Hi & Hp & Hs & Hc & _ & Hw & Hcm & Hm & Hl).
  assert (Hx' : ac_msgs st2 = ac_msgs st1 /\ ac_cmds st2 = ac_cmds st1 ++ [cmd_done_tx x] /\ ac_state st2 = ac_state st1 /\
    ac_chanheap st2 = ac_chanheap st1) by (destruct r; [..|done]; destruct Hx as (Hx & ? & ? & ?); cbn in Hx; by rewrite app_nil_r in Hx).
  destruct Hx' as (Hm2 & Hc2 & Hst2 & Hh2). exists l, taken, sent, (passed ++ [cmd_done_tx x]). cbn in *.
  split_and!; [done..| |done|unfold ac_ping_wf in *; by rewrite Hst2| |by rewrite Hm2|by rewrite Hh2].
  - rewrite <- Hc, Hpop. cbn. by rewrite <- app_assoc.
  - by rewrite Hc2, Hcm.
Qed.

Lemma cd_pass_inp_inv L cmds st1 s : cd_active_inv L cmds st1 s ->
  let '(s', st1', r) := cd_pass_inp st1 s in cd_active_inv L cmds st1' s' /\ is_ok r /\ cd_state s' = cd_state s.
Proof.
  intros Hinv. unfold cd_pass_inp. destruct (AsynBuf_pop_front (cd_inp_buf s)) as [b [x|]] eqn:Hpop; [|by split_and!; [|by eexists|]].
  apply pop_front_some in Hpop. pose proof (ac_push_inv (AcInpCaMsg x) st1) as Hx.
  destruct Hinv as (l & taken & sent & passed & Hi & Hp & Hs & Hc & _ & Hw & Hcm & (rest & Ht & Hm) & Hl). cbn in *.
  rewrite Hpop in Hp.
  destruct (ac_inp_push_try (AcInpCaMsg x) st1) as [st2 r].
  assert (Hgo : ac_msgs st2 = ac_msgs st1 ++ to_channels (ac_inp_msgs [AcInpCaMsg x]) /\
      ac_cmds st2 = ac_cmds st1 ++ map cmd_done_tx (ac_inp_cmds [AcInpCaMsg x]) /\
      ac_state st2 = ac_state st1 /\ ac_chanheap st2 = ac_chanheap st1 -> cd_active_inv L cmds st2 (cd_set_inp b s)).
  { intros (Hm2 & Hc2 & Hst2 & Hh2). cbn in Hc2. rewrite app_nil_r in Hc2.
    exists l, (taken ++ [cm_ty x]), sent, passed. cbn. split_and!;
      [done| |done|done|done|unfold ac_ping_wf in *; by rewrite Hst2|by rewrite Hc2| |by rewrite Hh2].
    - rewrite <- app_assoc. exact Hp.
    - exists (rest ++ [cm_ty x]). split; [by apply hello_taken_app|].
      rewrite Hm2, map_app, Hm, for_channels_app, for_channels_one. done. }
  destruct r as [| |y]; [split; [by apply Hgo|by split; [eexists|]]..|].
  destruct Hx as [-> ->]. split; [|by split; [eexists|]]. exists l, taken, sent, passed. cbn. split_and!; try done. by exists rest.
Qed.

(** The channels only put out more, until the connection is done. *)
Lemma cd_active_poll_forward af st1 s : cd_forward (cd_set_state (CdActiveCa st1) s) (cd_active_poll af st1 s).1.
Proof.
  unfold cd_active_poll. destruct (pw_is_space (cd_protowrap s)); [|by intros _; split].
  pose proof (ac_poll_moves af st1) as Hm. destruct (ac_poll_next af st1) as [st2 r]. destruct Hm as [Hp _].
  intros Hnd. split; [done|].
  destruct r as [[[[items|e|]|]|]|]; cbn in Hnd |- *; try done. by destruct (cd_items (ab_buf items) (cd_protowrap s)).
Qed.

Lemma cd_pass_put st1 s :
  ac_chanheap (cd_pass_cmd st1 s).1.2 = ac_chanheap st1 /\ ac_chanheap (cd_pass_inp st1 s).1.2 = ac_chanheap st1.
Proof.
  unfold cd_pass_cmd, cd_pass_inp, ac_inp_push_try. split.
  - destruct (negb _ && _); [|done]. destruct (AsynBuf_pop_front _) as [b [x|]]; [|done].
    destruct (AsynBuf_push_back _ _) as [b2 r]. by destruct (PushRes_is_fail r).
  - destruct (AsynBuf_pop_front _) as [b [x|]]; [|done]. by destruct (AsynBuf_push_back _ _) as [b2 [| |[]]].
Qed.

Lemma cd_active_forward af st1 s : cd_forward (cd_set_state (CdActiveCa st1) s) (cd_active af st1 s).1.
Proof.
  unfold cd_active. destruct (cd_pass_put st1 s) as [Hh1 _]. destruct (cd_pass_cmd st1 s) as [[s1 st2] r1] eqn:E1. cbn in Hh1.
  destruct r1 as [b1|e|].
  - destruct (cd_pass_put st2 s1) as [_ Hh2]. destruct (cd_pass_inp st2 s1) as [[s2 st3] r2]. cbn in Hh2.
    destruct r2 as [b2|e|]; [|intros _; split; [done|]; cbn; by rewrite Hh2, Hh1..].
    pose proof (cd_active_poll_forward af st3 s2) as Hf. intros Hnd.
    assert (Hs : cd_state (cd_active_poll af st3 s2).1 <> CdDone) by (by destruct (cd_active_poll af st3 s2) as [s3 [[]|]]).
    split; [done|]. destruct (Hf Hs) as [_ Hp]. cbn [cd_put cd_state cd_set_state] in *. unfold cd_put in Hp at 1. cbn in Hp.
    rewrite Hh2, Hh1 in Hp. by destruct (cd_active_poll af st3 s2) as [s3 [[]|]].
  - intros Hnd. exfalso. apply Hnd. unfold cd_pass_cmd in E1. destruct (negb _ && _); [|done].
    destruct (AsynBuf_pop_front _) as [b [x|]]; [|done]. destruct (ac_inp_push_try _ _) as [st r].
    destruct (PushRes_is_fail r); [|done]. by injection E1 as <- _ _.
  - intros _. split; [done|]. cbn. by rewrite Hh1.
Qed.

Lemma cd_poll_state_forward af s : cd_forward s (cd_poll_state af s).1.
Proof.
  unfold cd_poll_state. destruct (cd_state s) as [|hs|ac|] eqn:Hst.
  - intros _. split; [by rewrite Hst|]. unfold cd_put at 1. rewrite Hst. apply prefix_nil.
  - intros _. split; [by rewrite Hst|]. unfold cd_put at 1. rewrite Hst. apply prefix_nil.
  - pose proof (cd_active_forward af ac s) as Hf.
    by replace (cd_set_state (CdActiveCa ac) s) with s in Hf by (destruct s; cbn in *; by subst).
  - by intros Hnd.
Qed.

(** The protocol leaves the state of the connection, or ends it. *)
Lemma cd_protowrap_forward pf s : cd_forward s (cd_poll_protowrap pf s).1.
Proof.
  assert (Hst : cd_state (cd_poll_protowrap pf s).1 = cd_state s \/ cd_state (cd_poll_protowrap pf s).1 = CdDone).
  { unfold cd_poll_protowrap.
    destruct (cd_state s) eqn:Hst; [..|by left]; destruct (pw_poll_outbound _) as [pw [[[[]| |]|]|]];
      try destruct (AsynBuf_is_space _); try destruct (pw_poll_next _ _) as [pw2 [| |[[[[]| |]|]|]]];
      cbn [fst cd_state cd_set_protowrap cd_set_inp cd_set_state]; rewrite ?Hst; auto. }
  intros Hnd. destruct Hst as [Hst|Hst]; [|done]. unfold cd_put. rewrite Hst in *. by split.
Qed.

Lemma cd_active_poll_inv af L cmds st1 s : cd_active_inv L cmds st1 s ->
  let '(s', r) := cd_active_poll af st1 s in
  cd_state s' <> CdDone -> Forall sendable (cd_put s') -> part_inv L cmds s' r.
Proof.
  intros Hinv. unfold cd_active_poll. destruct (pw_is_space (cd_protowrap s)); [|done].
  destruct Hinv as (l & taken & sent & passed & Hi & Hp & Hs & Hc & _ & Hw & Hcm & (rest & Ht & Hm) & (k & Hk & Hke)).
  pose proof (ac_poll_moves af st1) as Hmv. destruct (ac_poll_next af st1) as [st2 r]. destruct Hmv as [_ Hmv].
  destruct (Hmv Hw) as (Hw2 & Hm2 & Hc2 & Hso & Hput).
  assert (Hgo : forall pw outs, pw_inv pw l -> pw_stream pw = pw_stream (cd_protowrap s) ++ concat (map ca_wire outs) ->
    no_echo outs = no_echo (poll_outs r) -> cd_inv L cmds (cd_set_protowrap pw (cd_set_state (CdActiveCa st2) s))).
  { intros pw outs Hi2 Hs2 Hno. apply (cd_inv_intro _ _ _ l taken (sent ++ outs) passed); [done|done| |done|done|].
    - change (pw_stream pw = concat (map ca_wire (sent ++ outs))). rewrite Hs2, map_app, concat_app. by f_equal.
    - split; [done|]. split; [by rewrite Hc2|]. split.
      + exists rest. split; [done|]. by rewrite Hm2.
      + exists (k ++ map cm_ty outs). rewrite map_app, Hk. split; [by rewrite <- app_assoc|].
        rewrite Hput. unfold not_echo in *. rewrite filter_app, Hke. f_equal. exact Hno. }
  destruct r as [[[[items|e|]|]|]|]; [|done..| |done].
  - change (poll_outs (Some (Ready (Some (Ok items))))) with (ac_outs (ab_buf items)) in *.
    pose proof (cd_items_inv (ab_buf items) (cd_protowrap s) l) as Hit.
    change (cd_protowrap (cd_set_state (CdActiveCa st2) s)) with (cd_protowrap s).
    destruct (cd_items (ab_buf items) (cd_protowrap s)) as [pw out].
    intros _ Hf. destruct (Hit (Hso Hf) Hi) as [Hi2 Hs2]. by apply (Hgo pw (ac_outs (ab_buf items))).
  - intros _ _. apply (Hgo (cd_protowrap s) []); [done|by rewrite app_nil_r|done].
Qed.

Lemma cd_active_step_inv af L cmds st1 s : cd_active_inv L cmds st1 s ->
  let '(s', r) := cd_active af st1 s in cd_state s' <> CdDone -> Forall sendable (cd_put s') -> part_inv L cmds s' r.
Proof.
  intros Hinv. unfold cd_active. pose proof (cd_pass_cmd_inv L cmds st1 s Hinv) as H1.
  destruct (cd_pass_cmd st1 s) as [[s1 st2] r1]. destruct H1 as (H1 & [b1 ->] & _).
  pose proof (cd_pass_inp_inv L cmds st2 s1 H1) as H2. destruct (cd_pass_inp st2 s1) as [[s2 st3] r2].
  destruct H2 as (H2 & [b2 ->] & _). pose proof (cd_active_poll_inv af L cmds st3 s2 H2) as H3.
  by destruct (cd_active_poll af st3 s2) as [s3 [[p q|r]|]].
Qed.

Lemma cd_poll_state_inv af L cmds s : cd_inv L cmds s ->
  let '(s', r) := cd_poll_state af s in cd_state s' <> CdDone -> Forall sendable (cd_put s') -> part_inv L cmds s' r.
Proof.
  intros Hinv. unfold cd_poll_state. destruct (cd_state s) as [|hs|ac|] eqn:Hst; [| | |done].
  - destruct Hinv as (l & taken & sent & passed & Hi & Hp & Hs & Hc & Hpa & Hsi). rewrite Hst in Hpa, Hsi. cbn in Hpa, Hsi.
    subst passed. intros _ _.
    apply (cd_inv_intro _ _ _ l taken sent []); [done..|].
    destruct Hsi as [-> Hsi]. split; [|cbn [hs_state hs_new]; by rewrite Hsi].
    split; [split; [done|cbn; lia]|]. by exists [].
  - pose proof (cd_handshake_inv hs L cmds s Hst Hinv) as Hh. by destruct (cd_handshake hs s).
  - assert (Hs : cd_set_state (CdActiveCa ac) s = s) by (destruct s; cbn in *; by subst).
    pose proof (cd_active_step_inv af L cmds ac s) as Ha. unfold cd_active_inv in Ha. rewrite Hs in Ha. by apply Ha.
Qed.

(** The invariant as long as the connection is not done and what the channels put
    out can be written. *)
Definition cd_good (L : list CaMsgTy) (cmds : list nat) (s : Connected) : Prop :=
  cd_state s <> CdDone -> Forall sendable (cd_put s) -> cd_inv L cmds s.

Lemma cd_good_back L cmds s s' : cd_good L cmds s -> cd_forward s s' -> cd_state s' <> CdDone -> Forall sendable (cd_put s') ->
  cd_inv L cmds s.
Proof.
  intros Hg Hf Hnd Hs. destruct (Hf Hnd) as [Hnd0 [k Hk]]. rewrite Hk in Hs. apply Forall_app in Hs as [Hs _]. by apply Hg.
Qed.

Lemma cd_turn_good pf af L cmds s : cd_good L cmds s ->
  let '(s', r) := cd_turn pf af s in
  match r with TurnStuck | TurnBreak (Ready (Some Panic)) => True | _ => cd_good L cmds s' end.
Proof.
  intros Hg. unfold cd_turn. set (s0 := cd_set_clock (S (cd_clock s)) s). assert (Hg0 : cd_good L cmds s0) by exact Hg.
  pose proof (cd_protowrap_forward pf s0) as Hf1. pose proof (cd_protowrap_inv pf L cmds s0) as H1.
  destruct (cd_poll_protowrap pf s0) as [s1 r1]. cbn [fst] in Hf1.
  assert (H1' : cd_state s1 <> CdDone -> Forall sendable (cd_put s1) -> part_inv L cmds s1 r1).
  { intros Hnd Hs. apply H1. by eapply cd_good_back. }
  destruct r1 as [[p q|r]|]; [|by destruct r|done].
  pose proof (cd_poll_state_forward af s1) as Hf2. pose proof (cd_poll_state_inv af L cmds s1) as H2.
  destruct (cd_poll_state af s1) as [s2 r2]. cbn [fst] in Hf2.
  assert (H2' : cd_state s2 <> CdDone -> Forall sendable (cd_put s2) -> part_inv L cmds s2 r2).
  { intros Hnd Hs. apply H2; [|done..]. by eapply cd_good_back. }
  destruct r2 as [[p2 q2|r]|]; [|by destruct r|done]. unfold hpp_turn. by destruct (p || p2), (q || q2).
Qed.

Lemma cd_poll_good pf af turns L cmds s : cd_good L cmds s ->
  match cd_poll_next pf af turns s with
  | (_, Some (Ready (Some Panic))) | (_, None) => True
  | (s', _) => cd_good L cmds s'
  end.
Proof.
  revert s. induction turns as [|turns IH]; intros s Hinv; [done|]. cbn [cd_poll_next].
  pose proof (cd_turn_good pf af L cmds s Hinv) as Ht. destruct (cd_turn pf af s) as [s1 [|r|]]; [by apply IH| |done].
  by destruct r as [[[]|]|].
Qed.

Lemma cd_command_inv c L cmds s : cd_inv L cmds s -> cd_inv L (cmds ++ [cmd_done_tx c]) (cd_command c s).
Proof.
  intros (l & taken & sent & passed & Hi & Hp & Hs & Hc & Hpa & Hsi). exists l, taken, sent, passed.
  split_and!; [done..| |done|done]. cbn. rewrite map_app, app_assoc, Hc. done.
Qed.

Definition run_cmds (ops : list (CaCommand + unit)) : list nat :=
  omap (fun op => match op with inl c => Some (cmd_done_tx c) | inr _ => None end) ops.

Lemma cd_run_inv pf af turns ops L cmds s s' rs : cd_good L cmds s -> cd_run pf af turns ops s = Some (s', rs) ->
  cd_good L (cmds ++ run_cmds ops) s'.
Proof.
  revert cmds s s' rs. induction ops as [|[c|[]] ops IH]; intros cmds s s' rs Hinv Hr; cbn [cd_run] in Hr.
  - injection Hr as <- _. by rewrite app_nil_r.
  - assert (Hc : cd_good L (cmds ++ [cmd_done_tx c]) (cd_command c s)) by (intros Hnd Hs; apply cd_command_inv; by apply Hinv).
    specialize (IH _ _ _ _ Hc Hr). by rewrite <- app_assoc in IH.
  - pose proof (cd_poll_good pf af turns L cmds s Hinv) as Hp. destruct (cd_poll_next pf af turns s) as [s1 [r|]]; [|done].
    assert (Hgo : cd_good L cmds s1 -> ('(s, rs) ← cd_run pf af turns ops s1; Some (s, r :: rs)) = Some (s', rs) ->
      cd_good L (cmds ++ run_cmds ops) s').
    { intros Hi He. destruct (cd_run pf af turns ops s1) as [[s2 rs2]|] eqn:E; [|done]. cbn in He. injection He as <- _.
      by eapply IH. }
    destruct r as [[[]|]|]; try done; by apply Hgo.
Qed.

Lemma cd_new_sizes tcp : cd_new tcp = cd_new_with (Z.to_nat PROTO_INPUT_BUF_CAP) (1024 * 256) cd_array_truncate tcp.
Proof. reflexivity. Qed.

Lemma cd_new_inv ic oc trunc tcp : tcp_sent tcp = [] ->
  cd_inv (oks (ca_messages trunc (rd_bytes (tcp_rd tcp)))) [] (cd_new_with ic oc trunc tcp).
Proof.
  intros Ht. destruct (nb_new_spec ic) as (Hwi & Hdi & _). destruct (nb_new_spec oc) as (Hwo & Hdo & _).
  apply (cd_inv_intro _ _ _ (oks (ca_messages trunc (rd_bytes (tcp_rd tcp)))) [] [] []); try done.
  - split; [split; [exact Hwo|constructor]|]. split; [|constructor]. eexists. split; [|done]. split; [exact Hwi|]. left.
    exists []. split; [split; [exact Hwi|done]|]. unfold fut.
    cbn [queued cp_resqu cp_buf cp_array_truncate cp_tcp pw_proto pw_new cd_protowrap cd_new_with]. by rewrite Hdi.
  - unfold pw_stream, out_stream. cbn [cd_protowrap cd_new_with pw_new pw_proto pw_out_buf ab_buf AsynBuf_new map concat cp_tcp cp_outbuf cp_out].
    by rewrite Hdo, Ht.
Qed.

(** What holds of any connection that serves its channels. *)
Lemma cd_reached pf af turns ops ic oc trunc rd wr s ac rs :
  cd_run pf af turns ops (cd_new_with ic oc trunc (mkTcp rd wr [])) = Some (s, rs) -> cd_state s = CdActiveCa ac ->
  Forall sendable (ah_put (ac_chanheap ac)) ->
  cd_inv (oks (ca_messages trunc (rd_bytes rd))) (run_cmds ops) s.
Proof.
  intros Hr Hst Hs. apply (cd_run_inv pf af turns ops _ [] (cd_new_with ic oc trunc (mkTcp rd wr [])) s rs); [|done|by rewrite Hst|].
  - intros _ _. by apply (cd_new_inv ic oc trunc (mkTcp rd wr [])).
  - unfold cd_put. by rewrite Hst.
Qed.

(** ** Properties *)

(** C11. From the socket to the channels: in any use of a connection that serves its
    channels - any chunks and pauses of the socket, any commands, any polls - the
    messages that the bytes of the socket hold are those before the first version
    of the server, none of which gets to a channel, this version, one that is
    understood, at most fifteen that wait behind it in the input of the handshake
    and are dropped with it, and the rest; and the channels have got, in their
    order and without a gap, the first of the messages for channels of the rest. *)
Theorem conn_delivers pf af turns ops ic oc trunc rd wr s ac rs :
  cd_run pf af turns ops (cd_new_with ic oc trunc (mkTcp rd wr [])) = Some (s, rs) -> cd_state s = CdActiveCa ac ->
  Forall sendable (ah_put (ac_chanheap ac)) ->
  exists pre v dropped rest, oks (ca_messages trunc (rd_bytes rd)) = pre ++ v :: dropped ++ rest /\
    Forall no_version pre /\ version_ok v /\ (length dropped <= 15)%nat /\
    map cm_ty (ah_got (ac_chanheap ac)) `prefix_of` for_channels rest.
Proof.
  intros Hr Hst Hput. destruct (cd_reached _ _ _ _ _ _ _ _ _ _ _ _ Hr Hst Hput)
    as (l & taken & sent & passed & _ & [k Hp] & _ & _ & _ & Hsi).
  rewrite Hst in Hsi. destruct Hsi as (_ & _ & (rest & Ht & Hm) & _).
  apply (hello_taken_app _ _ ((map cm_ty (ab_buf (cd_inp_buf s)) ++ l) ++ k)) in Ht. destruct Ht as (pre & v & dropped & Ht & Hpre & Hv & Hd).
  eexists pre, v, dropped, _. split; [rewrite Hp, <- app_assoc; exact Ht|]. split_and!; [done..|].
  rewrite for_channels_app, <- Hm. unfold ac_msgs. rewrite map_app, <- app_assoc. by eexists.
Qed.

(** What a connection has still to send: the bytes in the buffer of the protocol,
    the messages in its queue and those in the queue in front of it. *)
Definition cd_unsent (s : Connected) : list Z :=
  let p := pw_proto (cd_protowrap s) in
  nb_data (cp_outbuf p) ++ concat (map ca_wire (cp_out p)) ++ concat (map ca_wire (ab_buf (pw_out_buf (cd_protowrap s)))).

(** C12. From the channels to the socket: in any use of a connection, the bytes on
    the socket and, behind them, what the buffer of the protocol and the two
    queues hold are those of the three messages of the handshake and then of all
    the messages that the channels have put out, in their order and without a
    gap, with pings between them. *)
Theorem conn_sends pf af turns ops ic oc trunc rd wr s ac rs :
  cd_run pf af turns ops (cd_new_with ic oc trunc (mkTcp rd wr [])) = Some (s, rs) -> cd_state s = CdActiveCa ac ->
  Forall sendable (ah_put (ac_chanheap ac)) ->
  exists sent l, tcp_sent (cp_tcp (pw_proto (cd_protowrap s))) ++ cd_unsent s = concat (map ca_wire sent) /\
    map cm_ty sent = hello_tys ++ l /\ not_echo l = no_echo (ah_put (ac_chanheap ac)).
Proof.
  intros Hr Hst Hput. destruct (cd_reached _ _ _ _ _ _ _ _ _ _ _ _ Hr Hst Hput)
    as (l & taken & sent & passed & _ & _ & Hs & _ & _ & Hsi).
  rewrite Hst in Hsi. destruct Hsi as (_ & _ & _ & (k & Hk & Hke)).
  unfold pw_stream, out_stream in Hs. rewrite <- !app_assoc in Hs. exists sent, k. by split_and!.
Qed.

(** ** A connection that is stuck *)

(** A buffer that is full. *)
Definition ab_full {T} (b : AsynBuf T) : Prop := AsynBuf_len b = ab_cap b /\ (0 < ab_cap b)%nat.

(** All messages that were put out are written or wait in front of the protocol,
    where there is no space, and the input is full. *)
Definition cd_stuck (s : Connected) (ac : ActiveCa) : Prop :=
  cd_state s = CdActiveCa ac /\ pw_is_space (cd_protowrap s) = false /\ quiet (pw_proto (cd_protowrap s)) /\
  ab_full (cd_inp_buf s) /\ ab_full (ac_inp_buf ac).

Lemma ab_full_no_space {T} (b : AsynBuf T) : ab_full b -> AsynBuf_is_space b = false.
Proof. intros [Hl _]. unfold AsynBuf_is_space. rewrite Hl. apply Nat.ltb_irrefl. Qed.

Lemma ab_full_push {T} (x : T) b : ab_full b -> AsynBuf_push_back x b = (b, PushFull x).
Proof.
  intros [Hl Hc]. unfold AsynBuf_push_back. rewrite Hl. destruct (Nat.eqb_spec (ab_cap b) 0); [lia|]. by rewrite Nat.ltb_irrefl.
Qed.

Lemma ab_full_pop {T} (b : AsynBuf T) : ab_full b ->
  exists x b', AsynBuf_pop_front b = (b', Some x) /\ AsynBuf_push_front x b' = b.
Proof.
  intros [Hl Hc]. destruct b as [[|x l] cap]; cbn in *; [lia|]. exists x, (mkAsynBuf l cap). split; [done|].
  unfold AsynBuf_push_front, ab_grown, AsynBuf_len in *. cbn [ab_buf ab_cap] in *. cbn [length] in Hl.
  replace (length l <? cap)%nat with true by (symmetry; apply Nat.ltb_lt; lia). done.
Qed.

Lemma cd_stuck_turn pf af s ac : cd_stuck s ac ->
  exists s', cd_turn pf af s = (s', TurnBreak (Ready None)) /\ cd_stuck s' ac /\ cd_inp_buf s' = cd_inp_buf s.
Proof.
  intros (Hst & Hsp & (Hout & Hob & Heof) & Hinp & Hac). unfold cd_turn. set (s0 := cd_set_clock (S (cd_clock s)) s).
  unfold cd_poll_protowrap. change (cd_state s0) with (cd_state s). rewrite Hst. unfold pw_poll_outbound.
  change (cd_protowrap s0) with (cd_protowrap s).
  destruct (poll_outbound_idle (pw_proto (cd_protowrap s)) Hout Hob Heof) as [m ->].
  change (cd_inp_buf (cd_set_protowrap _ s0)) with (cd_inp_buf s). rewrite (ab_full_no_space _ Hinp).
  set (s1 := cd_set_protowrap _ s0). assert (Hs1 : cd_state s1 = CdActiveCa ac /\ cd_inp_buf s1 = cd_inp_buf s /\
    pw_is_space (cd_protowrap s1) = false /\ quiet (pw_proto (cd_protowrap s1))) by done.
  clearbody s1. destruct Hs1 as (Hst1 & Hi1 & Hsp1 & Hq1). unfold cd_poll_state. rewrite Hst1. unfold cd_active.
  assert (Hcmd : cd_pass_cmd ac s1 = (s1, ac, Ok false)).
  { unfold cd_pass_cmd, ac_inp_is_space. by rewrite (ab_full_no_space _ Hac), andb_false_r. }
  assert (Hpi : cd_pass_inp ac s1 = (s1, ac, Ok false)).
  { unfold cd_pass_inp. destruct (ab_full_pop (cd_inp_buf s1)) as (x & b & Hpop & Hpush); [by rewrite Hi1|]. rewrite Hpop.
    unfold ac_inp_push_try. rewrite (ab_full_push _ _ Hac), Hpush. by destruct s1, ac. }
  rewrite Hcmd, Hpi. unfold cd_active_poll. rewrite Hsp1. cbn [heap_poll_some heap_poll_pending orb hpp_turn].
  eexists. split; [done|]. split; [|done]. split_and!; try done; cbn; by rewrite ?Hi1.
Qed.

(** C30. Back pressure ends a connection: when the input buffers are full and the
    queue in front of the protocol too, then, as soon as the protocol has written
    all it has, a poll of the connection says that it is at its end - not that
    it is pending - and changes nothing that would let it go on: the queue is
    flushed only where input is polled, input is polled only when there is space,
    and the channels are served only when the queue has space. *)
Theorem conn_backpressure_ends pf af turns s ac : cd_stuck s ac ->
  exists s', cd_poll_next pf af (S turns) s = (s', Some (Ready None)) /\ cd_stuck s' ac /\ cd_inp_buf s' = cd_inp_buf s.
Proof.
  intros Hs. destruct (cd_stuck_turn pf af s ac Hs) as (s' & Ht & Hs' & Hi). exists s'. cbn [cd_poll_next]. by rewrite Ht.
Qed.

End ConnectedProofs.

(** ** The owner of the connection *)

Section OwnerProofs.
  Context `{NetBufLaws} `{Hcaenv : CaEnv} `{Henv : ConnEnv} `{Hcx : CaConnEnv} `{Hops : ChanHeapOps} {Hlaws : ChanHeapLaws Hops}
    {Hrec : ChanHeapRec Hops}.

(** A new socket. *)
Context (Hconnect : forall n tcp, cx_connect n = Ready (Ok tcp) -> tcp_sent tcp = []).

Definition fut_cx_done_tx (f : CxFut) : list nat := match f with CxSend c => [cmd_done_tx c] | CxReply => [] end.

(** The commands that did not yet reach the connection, by the channels for their
    answers; reports are answered elsewhere. *)
Definition cx_waiting (s : CaConn) : list nat :=
  map cmd_done_tx (cx_ca_cmd s) ++ from_option fut_cx_done_tx [] (cx_ca_cmd_tx_fut s) ++
  concat (map (fun c => fut_cx_done_tx (cx_handle_cmd c)) (cx_cmd_rx s)).

Definition cx_state_inv (st : CxState) (waiting all : list nat) : Prop :=
  match st with
  | StConnecting => waiting = all
  | StConnected st => exists L cmds, cd_good L cmds st /\ cmds ++ waiting = all
  | StDone => True
  end.

Definition cx_good (all : list nat) (s : CaConn) : Prop := cx_state_inv (cx_state s) (cx_waiting s) all.

Lemma cx_good_same all s s' : cx_state s' = cx_state s -> cx_waiting s' = cx_waiting s -> cx_good all s -> cx_good all s'.
Proof. unfold cx_good. by intros -> ->. Qed.

Definition cx_part_good {R} (all : list nat) (s : CaConn) (r : option (part_end (outcome CxError R))) : Prop :=
  match r with None | Some (PartBreak Panic) => True | _ => cx_good all s end.

Lemma cx_poll_cmd_good all s : cx_good all s -> let '(s', r) := cx_poll_cmd s in cx_part_good all s' (Some r).
Proof.
  intros Hg. unfold cx_poll_cmd. destruct (cx_ca_cmd_tx_fut s) as [fut|] eqn:Hf.
  - destruct fut as [c|]; cbn [cx_poll_fut].
    + destruct (length (cx_ca_cmd s) <? CA_CMD_CAP)%nat; [|done]. apply (cx_good_same _ s); [done| |done].
      unfold cx_waiting. cbn. rewrite Hf. cbn. by rewrite map_app, <- app_assoc.
    + assert (Hr : cx_good all (cx_set_fut None (cx_tick s))).
      { apply (cx_good_same _ s); [done| |done]. unfold cx_waiting. cbn. by rewrite Hf. }
      by destruct (cx_reply (cx_clock s)) as [[]|].
  - assert (Hrx : forall c rest, cx_cmd_rx s = c :: rest -> cx_good all (cx_set_fut (Some (cx_handle_cmd c)) (cx_set_cmd_rx rest s))).
    { intros c rest Hc. apply (cx_good_same _ s); [done| |done]. unfold cx_waiting. cbn. by rewrite Hf, Hc. }
    destruct (cx_state s) eqn:Hst; [..|done]; destruct (cx_cmd_rx s) eqn:Hc; try done; by apply Hrx.
Qed.

(** What is put out does not matter here. *)
Lemma cx_push_good (l : list (Z * CdItemInner ah_data)) all s : cx_good all s -> cx_good all (foldl (fun s x => cx_push_out (cx_item x.2) s) s l).
Proof. revert s. induction l as [|x l IH]; intros s Hg; [done|]. apply IH. exact Hg. Qed.

Lemma cx_pass_good all st s : cx_state s = StConnected st -> cx_good all s ->
  let '(s', st', _) := cx_pass_cmd st s in cx_good all (cx_set_state (StConnected st') s').
Proof.
  intros Hst Hg. unfold cx_good in Hg. rewrite Hst in Hg. destruct Hg as (L & cmds & Hg & Ha). unfold cx_pass_cmd.
  destruct (AsynBuf_is_space _); [|by exists L, cmds].
  destruct (cx_ca_cmd s) as [|c rest] eqn:Hc; [by exists L, cmds|].
  exists L, (cmds ++ [cmd_done_tx c]). split; [intros Hnd Hs; apply cd_command_inv; by apply Hg|].
  rewrite <- Ha. unfold cx_waiting. cbn. rewrite Hc. cbn. by rewrite <- app_assoc.
Qed.

Lemma cx_poll_state_good pf af turns all s : cx_good all s ->
  let '(s', r) := cx_poll_state pf af turns s in cx_part_good all s' r.
Proof.
  intros Hg. unfold cx_poll_state. destruct (cx_state s) as [|st|] eqn:Hst; [| |exact Hg].
  - pose proof (Hconnect (cx_clock s)) as Ht. destruct (cx_connect (cx_clock s)) as [[tcp|e|]|]; [|done..|].
    + unfold cx_good in Hg. rewrite Hst in Hg. exists (oks (ca_messages cx_array_truncate (rd_bytes (tcp_rd tcp)))), [].
      split; [|exact Hg]. intros _ _. apply cd_new_inv. by apply Ht.
    + unfold cx_part_good, cx_good in *. cbn. by rewrite Hst in *.
  - pose proof (cx_pass_good all st s Hst Hg) as Hp. destruct (cx_pass_cmd st s) as [[s1 st1] [p1 q1]].
    destruct Hp as (L & cmds & Hcd & Ha). pose proof (cd_poll_good pf af turns L cmds st1 Hcd) as Hn.
    destruct (cd_poll_next pf af turns st1) as [st2 r].
    assert (Hg2 : cd_good L cmds st2 -> cx_good all (cx_set_state (StConnected st2) s1)) by (intros Hx; by exists L, cmds).
    destruct r as [[[[items|e|]|]|]|]; try done; [|by apply Hg2]. by apply cx_push_good, Hg2.
Qed.

Lemma cx_turn_good pf af turns all s : cx_good all s ->
  let '(s', r) := cx_turn pf af turns s in
  match r with TurnStuck | TurnBreak (Ready (Some Panic)) => True | _ => cx_good all s' end.
Proof.
  intros Hg. unfold cx_turn. destruct (negb _); [exact Hg|]. pose proof (cx_poll_cmd_good all s Hg) as H1.
  destruct (cx_poll_cmd s) as [s1 [p1 q1|r]]; [|by destruct r]. cbn in H1.
  pose proof (cx_poll_state_good pf af turns all s1 H1) as H2. destruct (cx_poll_state pf af turns s1) as [s2 [[p2 q2|r]|]]; [|by destruct r|done].
  cbn in H2. assert (H3 : cx_good all (cx_poll_own_ticker s2).1).
  { unfold cx_poll_own_ticker. destruct (_ <=? _); [|exact H2]. cbn [fst]. unfold cx_on_ticker_fired.
    by destruct (_ <? _)%nat. }
  destruct (cx_poll_own_ticker s2) as [s3 [p3 q3]]. unfold hpp_turn.
  destruct (cx_state s2); [destruct (p1 || p2 || p3), (q1 || q2 || q3)..|destruct (p1 || p2), (q1 || q2)]; done.
Qed.

Lemma cx_poll_good pf af turns fuel all s : cx_good all s ->
  match cx_poll_next pf af turns fuel s with
  | (_, Some (Ready (Some Panic))) | (_, None) => True
  | (s', _) => cx_good all s'
  end.
Proof.
  revert s. induction fuel as [|fuel IH]; intros s Hg; [done|]. cbn [cx_poll_next].
  pose proof (cx_turn_good pf af turns all s Hg) as Ht. destruct (cx_turn pf af turns s) as [s1 [|r|]]; [by apply IH| |done].
  by destruct r as [[[]|]|].
Qed.

Definition given_cmds (ops : list (CaConnCmdKind + unit)) : list nat :=
  concat (map (fun op => match op with inl c => fut_cx_done_tx (cx_handle_cmd c) | inr _ => [] end) ops).

Lemma cx_send_good c all s : cx_good all s -> cx_good (all ++ fut_cx_done_tx (cx_handle_cmd c)) (cx_set_cmd_rx (cx_cmd_rx s ++ [c]) s).
Proof.
  unfold cx_good. cbn [cx_state cx_set_cmd_rx].
  assert (Hw : cx_waiting (cx_set_cmd_rx (cx_cmd_rx s ++ [c]) s) = cx_waiting s ++ fut_cx_done_tx (cx_handle_cmd c)).
  { unfold cx_waiting. cbn. rewrite map_app, concat_app. cbn. by rewrite app_nil_r, <- !app_assoc. }
  rewrite Hw.
  destruct (cx_state s) as [|st|]; [by intros ->| |done]. intros (L & cmds & Hg & <-). exists L, cmds. split; [done|]. by rewrite app_assoc.
Qed.

Lemma cx_run_good pf af turns fuel ops all s s' rs : cx_good all s -> cx_run pf af turns fuel ops s = Some (s', rs) ->
  cx_good (all ++ given_cmds ops) s'.
Proof.
  revert all s s' rs. induction ops as [|[c|[]] ops IH]; intros all s s' rs Hg Hr; cbn [cx_run] in Hr.
  - injection Hr as <- _. by rewrite app_nil_r.
  - specialize (IH _ _ _ _ (cx_send_good c _ _ Hg) Hr). by rewrite <- app_assoc in IH.
  - pose proof (cx_poll_good pf af turns fuel all s Hg) as Hp. destruct (cx_poll_next pf af turns fuel s) as [s1 [r|]]; [|done].
    assert (Hgo : cx_good all s1 -> ('(s, rs) ← cx_run pf af turns fuel ops s1; Some (s, r :: rs)) = Some (s', rs) ->
      cx_good (all ++ given_cmds ops) s').
    { intros Hi He. destruct (cx_run pf af turns fuel ops s1) as [[s2 rs2]|] eqn:E; [|done]. cbn in He. injection He as <- _.
      by eapply IH. }
    destruct r as [[[]|]|]; try done; by apply Hgo.
Qed.

(** C13. Commands are answered in the order in which they were given, each at most
    once, and none is lost: in any use of the owner of a connection, once the
    connection serves its channels, the answers that were sent, followed by the
    command under way and by those that wait in the buffers on the way, are all
    commands that were given, in their order. *)
Theorem conn_answers pf af turns fuel ops s st ac rs :
  cx_run pf af turns fuel ops (cx_new []) = Some (s, rs) -> cx_state s = StConnected st -> cd_state st = CdActiveCa ac ->
  Forall sendable (ah_put (ac_chanheap ac)) ->
  ac_done_sent ac ++ fut_done_tx (ac_cmd_fut ac) ++
  map cmd_done_tx (ab_buf (ac_inp_cmd_buf ac) ++ ac_inp_cmds (ab_buf (ac_inp_buf ac)) ++ ab_buf (cd_inp_cmd_buf st)) ++
  cx_waiting s = given_cmds ops.
Proof.
  intros Hr Hst Hac Hput. pose proof (cx_run_good pf af turns fuel ops [] (cx_new []) s rs eq_refl Hr) as Hg.
  unfold cx_good in Hg. rewrite Hst in Hg. destruct Hg as (L & cmds & Hg & Ha). cbn [app] in Ha. rewrite <- Ha.
  destruct Hg as (l & taken & sent & passed & _ & _ & _ & Hc & _ & Hsi); [by rewrite Hac|unfold cd_put; by rewrite Hac|].
  rewrite Hac in Hsi. destruct Hsi as (_ & Hcm & _). rewrite <- Hc, <- Hcm. unfold ac_cmds. by rewrite !map_app, <- !app_assoc.
Qed.

End OwnerProofs.

(** ** Commands that block messages *)

Section Blocking.
  Context `{Henv : ConnEnv} `{Hops : ChanHeapOps}.

(** What a part of a poll leaves while a command is under way and another waits. *)
Definition ac_blocks (s s' : ActiveCa) : Prop :=
  ac_inp_buf s' = ac_inp_buf s /\ ac_inp_cmd_buf s' = ac_inp_cmd_buf s /\ ac_done_sent s' = ac_done_sent s /\
  ac_cmd_fut s' = ac_cmd_fut s.

Lemma ac_dispatch_blocks fuel s : ac_blocks s (ac_dispatch_loop fuel s).
Proof.
  revert s. induction fuel as [|fuel IH]; intros s; [done|]. cbn [ac_dispatch_loop].
  destruct (AsynBuf_is_space (ac_buf_for_chanheap s)); [|done]. destruct (AsynBuf_pop_front (ac_inp_msg_buf s)) as [b [m|]]; [|done].
  match goal with |- ac_blocks _ (ac_dispatch_loop _ ?x) => assert (Hx : ac_blocks s x); [|destruct (IH x) as (? & ? & ? & ?);
    destruct Hx as (? & ? & ? & ?); unfold ac_blocks; split_and!; congruence] end.
  destruct (ac_dispatches m); [done|]. unfold ac_handle_internal. destruct (cm_ty m); try done.
  by destruct (ac_state _) as [[]|].
Qed.

Lemma ac_push_blocks fuel s : ac_blocks s (ac_push_loop fuel s).
Proof.
  revert s. induction fuel as [|fuel IH]; intros s; [done|]. cbn [ac_push_loop].
  destruct (ah_inp_is_space _); [|done]. destruct (AsynBuf_pop_front _) as [b [x|]]; [|done].
  destruct (ah_inp_push_try _ _) as [h [| |y]]; [..|done];
    destruct (IH (ac_set_for_chanheap b (ac_set_heap h s))) as (? & ? & ? & ?); by unfold ac_blocks; split_and!.
Qed.

Lemma ac_turn_heap_blocks ts p q s : ac_blocks s (ac_turn_heap ts p q s).1.
Proof.
  assert (Hp : forall s0, ac_blocks s0 (ac_poll_ping ts s0).1).
  { intros s0. unfold ac_poll_ping. destruct (ac_state s0) as [[until|item until|until]|]; cbn; try (destruct (until <=? _));
      try (by split_and!); by destruct item. }
  unfold ac_turn_heap. destruct (ah_poll_next (ac_chanheap s)) as [h [[[[items| |]|]|]|]]; try done.
  specialize (Hp (ac_set_heap h s)). destruct (ac_poll_ping ts _) as [s1 []]; exact Hp.
Qed.

(** Answers are not taken back. *)
Lemma ac_turn_done s : ac_done_sent s `prefix_of` ac_done_sent (ac_turn s).1.
Proof.
  unfold ac_turn. cbn [ac_now]. set (s0 := ac_tick s). change (ac_done_sent s) with (ac_done_sent s0). clearbody s0.
  destruct (ac_state s0); [|done].
  assert (Ht : ac_done_sent (ac_take_inp s0).1 = ac_done_sent s0).
  { unfold ac_take_inp. destruct (_ && _); [|done]. destruct (AsynBuf_pop_front _) as [b [[m|c]|]]; [..|done];
      destruct (AsynBuf_push_back _ _) as [b2 r]; by destruct (PushRes_is_fail r). }
  rewrite <- Ht. destruct (ac_take_inp s0) as [s1 [[]|e|]]; [|done..]. cbn [fst].
  assert (Hc : ac_done_sent s1 `prefix_of` ac_done_sent (ac_poll_command_input s1).1).
  { unfold ac_poll_command_input. destruct (ac_cmd_fut s1) as [f|].
    - unfold ac_poll_cmd_fut, ac_send_done. destruct f; [destruct (ac_cmd_done s1)|]; try (destruct (cn_done_send _)); cbn;
        try done; by eexists.
    - destruct (AsynBuf_is_space _); [|done]. destruct (AsynBuf_pop_front _) as [b [c|]]; [|done].
      unfold ac_handle_command. destruct (AsynBuf_is_space _); [|done]. by destruct c. }
  destruct (ac_poll_command_input s1) as [s2 r2]. cbn [fst] in Hc.
  destruct (ac_dispatch_blocks (S (AsynBuf_len (ac_inp_msg_buf s2))) s2) as (_ & _ & H1 & _).
  change (ac_dispatch_loop _ s2) with (ac_poll_dispatch s2) in H1.
  destruct (ac_push_blocks (S (AsynBuf_len (ac_buf_for_chanheap (ac_poll_dispatch s2)))) (ac_poll_dispatch s2)) as (_ & _ & H2 & _).
  change (ac_push_loop _ (ac_poll_dispatch s2)) with (ac_poll_inp_push_to_chanheap (ac_poll_dispatch s2)) in H2.
  rewrite H1 in H2. rewrite <- H2 in Hc.
  destruct r2 as [[[]|]|]; try (by rewrite H2 in Hc);
    match goal with |- context [ac_turn_heap ?ts ?p ?q ?x] => destruct (ac_turn_heap_blocks ts p q x) as (_ & _ & H3 & _); by rewrite H3 end.
Qed.

Lemma ac_poll_done turns s : ac_done_sent s `prefix_of` ac_done_sent (ac_poll_next turns s).1.
Proof.
  revert s. induction turns as [|turns IH]; intros s; [done|]. cbn [ac_poll_next].
  pose proof (ac_turn_done s) as Ht. destruct (ac_turn s) as [s1 [|r|]]; cbn [fst] in *; [|done..]. by etransitivity.
Qed.

(** A command is under way, and another waits. *)
Definition ac_blocked (s : ActiveCa) : Prop := is_Some (ac_cmd_fut s) /\ AsynBuf_is_space (ac_inp_cmd_buf s) = false.

(** A turn of the loop answers the command, or takes nothing from the input. *)
Lemma ac_turn_blocked s : ac_blocked s ->
  let s' := (ac_turn s).1 in
  (length (ac_done_sent s) < length (ac_done_sent s'))%nat \/
  ac_blocked s' /\ ac_inp_buf s' = ac_inp_buf s /\ ac_done_sent s' = ac_done_sent s.
Proof.
  intros [[f Hf] Hc]. unfold ac_turn. cbn [ac_now]. set (s0 := ac_tick s). change (ac_state s0) with (ac_state s).
  destruct (ac_state s); [|right; by split; [split; [exists f|]|]].
  assert (Ht : ac_take_inp s0 = (s0, Ok tt)) by (unfold ac_take_inp; change (ac_inp_cmd_buf s0) with (ac_inp_cmd_buf s); by rewrite Hc).
  rewrite Ht.
  assert (Hcmd : match ac_poll_command_input s0 with
    | (s1, Some (Ready (Ok _))) => (length (ac_done_sent s) < length (ac_done_sent s1))%nat
    | (s1, Some Pending) => is_Some (ac_cmd_fut s1) /\ ac_inp_buf s1 = ac_inp_buf s /\ ac_inp_cmd_buf s1 = ac_inp_cmd_buf s /\
        ac_done_sent s1 = ac_done_sent s
    | _ => False
    end).
  { unfold ac_poll_command_input. change (ac_cmd_fut s0) with (ac_cmd_fut s). rewrite Hf. unfold ac_poll_cmd_fut, ac_send_done.
    destruct f; [destruct (ac_cmd_done s0)|]; try (destruct (cn_done_send _)); cbn;
      rewrite ?length_app; cbn; try lia; rewrite ?Hf; by split; [eexists|]. }
  destruct (ac_poll_command_input s0) as [s1 [[[[]| |]|]|]]; try done;
    match goal with |- context [ac_turn_heap ?ts ?p ?q ?x] => pose proof (ac_turn_heap_blocks ts p q x) as (H1 & H2 & H3 & H4);
      destruct (ac_push_blocks (S (AsynBuf_len (ac_buf_for_chanheap (ac_poll_dispatch s1)))) (ac_poll_dispatch s1)) as (H5 & H6 & H7 & H8);
      destruct (ac_dispatch_blocks (S (AsynBuf_len (ac_inp_msg_buf s1))) s1) as (H9 & H10 & H11 & H12);
      change (ac_push_loop _ (ac_poll_dispatch s1)) with x in *;
      change (ac_dispatch_loop _ s1) with (ac_poll_dispatch s1) in *; destruct (ac_turn_heap ts p q x) as [s2 r2]; cbn [fst] in * end.
  - left. by rewrite H3, H7, H11.
  - right. destruct Hcmd as (Hfu & Hi & Hb & Hd). unfold ac_blocked. rewrite H4, H8, H12, H2, H6, H10, H1, H5, H9, H3, H7, H11, Hb.
    done.
Qed.

(** C31. One command at a time, and nothing past it: while a command is under way -
    the removal of a channel, which waits for the channel - and another waits, a
    poll that does not answer the command takes nothing from the input. No
    message of the server is passed on in that time, not the answer that the
    removal waits for, and no echo. *)
Theorem command_blocks_messages turns s : ac_blocked s ->
  let s' := (ac_poll_next turns s).1 in
  ac_done_sent s' = ac_done_sent s -> ac_inp_buf s' = ac_inp_buf s /\ ac_blocked s'.
Proof.
  revert s. induction turns as [|turns IH]; intros s Hb s' Hd; [done|]. subst s'. cbn [ac_poll_next] in *.
  pose proof (ac_turn_blocked s Hb) as Ht. destruct (ac_turn s) as [s1 [|r|]]; cbn [fst] in *.
  - destruct Ht as [Ht|(Hb1 & Hi & Hd1)].
    + pose proof (prefix_length _ _ (ac_poll_done turns s1)) as Hl. rewrite Hd in Hl. lia.
    + rewrite <- Hi. apply IH; [done|]. by rewrite Hd1.
  - destruct Ht as [Ht|(Hb1 & Hi & Hd1)]; [rewrite Hd in Ht; lia|done].
  - destruct Ht as [Ht|(Hb1 & Hi & Hd1)]; [rewrite Hd in Ht; lia|done].
Qed.

End Blocking.

(** ** Examples *)

(** A clock that ticks by a number of milliseconds. *)
Definition tick_env (ms : Z) : ConnEnv := {| cn_now n := ms * Z.of_nat n; cn_done_send _ := true |}.

Definition version_bytes : list Z := [0; 0; 0; 0; 0; 0; 0; 13; 0; 0; 0; 0; 0; 0; 0; 0].

(** Handlers that ask for something once. *)
Definition ask_ops : ChannelHandlerOps := {|
  ch_handler := SimHandler;
  ch_data := unit;
  ch_new name := mkSimHandler (Z.of_nat (String.length name)) [] 2 [ItProtoOut (CaMsg_from_ty_ts (CaCreateChan (mkCreateChan 7 [65; 66])) 0)];
  ch_cid := sim_cid;
  ch_sid h := Some (sim_cid h + 100);
  ch_inp_push_try := sim_push;
  ch_inp_done h := Some h;
  ch_poll_next := sim_poll;
  heap_now n := Z.of_nat n;
  heap_cmd_fut _ := Ready (Ok tt);
  heap_order := elements
|}.

Definition ask_heap : ChanHeapOps := rec_ops (channel_heap_ops (H := ask_ops) 50).

Definition ex_rd : list rd_event :=
  [RdBytes (take 3 version_bytes); RdPending; RdBytes (drop 3 version_bytes)] ++ replicate 8 RdPending ++
  [RdBytes (echo_bytes ++ created_bytes)].

Definition ex_ops : list (CaCommand + unit) := inl (CkChannelAdd "CHANNEL" 5%nat) :: replicate 4 (inr tt).

Abbreviation ex_run :=
  (cd_run (H := SlideBuf_netbuf) (H0 := silent_env) (H1 := tick_env 1) (H2 := ask_heap) 50 50 50 ex_ops
    (cd_new_with (H := SlideBuf_netbuf) (H2 := ask_heap) 3000 3000 8 (mkTcp ex_rd (replicate 4 (WrAccept 1000)) []))).


(** A run that gets to serve its channels, with what is to hold then. *)
Lemma run_serves `{NetBuf} `{ChanHeapOps} (P : Connected -> ActiveCa -> Prop)
    (run : option (Connected * list (Poll (option (outcome CdError (AsynBuf (Z * CdItemInner ah_data))))))) :
  match run with Some (s, _) => match cd_state s with CdActiveCa ac => P s ac | _ => False end | None => False end ->
  exists s rs ac, run = Some (s, rs) /\ cd_state s = CdActiveCa ac /\ P s ac.
Proof.
  destruct run as [[s rs]|]; [|done]. destruct (cd_state s) as [| |ac|] eqn:Hs; try done. intros Hp. by exists s, rs, ac.
Qed.

Definition ex_good (s : Connected (H := SlideBuf_netbuf) (H2 := ask_heap)) (ac : ActiveCa (H0 := ask_heap)) : Prop :=
  Forall sendable (ah_put (ac_chanheap ac)) /\ map cm_ty (ah_got (ac_chanheap ac)) = [CaCreateChanRes (mkCreateChanRes 6 1 7 9)] /\
  no_echo (ah_put (ac_chanheap ac)) = [CaCreateChan (mkCreateChan 7 [65; 66])].

Lemma ex_run_good : exists s rs ac, ex_run = Some (s, rs) /\ cd_state s = CdActiveCa ac /\ ex_good s ac.
Proof. apply run_serves. vm_compute. repeat constructor. Qed.

Lemma conn_delivers_witness :
  exists pre v dropped rest, oks (ca_messages (H := silent_env) 8 (rd_bytes ex_rd)) = pre ++ v :: dropped ++ rest /\
    Forall no_version pre /\ version_ok v /\ (length dropped <= 15)%nat /\
    [CaCreateChanRes (mkCreateChanRes 6 1 7 9)] `prefix_of` for_channels rest.
Proof.
  destruct ex_run_good as (s & rs & ac & Hr & Hac & Hput & Hgot & _). rewrite <- Hgot.
  exact (conn_delivers (H := SlideBuf_netbuf) (Hcaenv := silent_env) (Henv := tick_env 1) (Hops := ask_heap)
    50 50 50 ex_ops 3000 3000 8 ex_rd (replicate 4 (WrAccept 1000)) s ac rs Hr Hac Hput).
Defined.

Lemma conn_sends_witness :
  exists s rs sent l, ex_run = Some (s, rs) /\
    tcp_sent (cp_tcp (pw_proto (cd_protowrap s))) ++ cd_unsent s = concat (map ca_wire sent) /\
    map cm_ty sent = hello_tys ++ l /\ not_echo l = [CaCreateChan (mkCreateChan 7 [65; 66])].
Proof.
  destruct ex_run_good as (s & rs & ac & Hr & Hac & Hput & _ & Hout). exists s, rs. rewrite <- Hout.
  destruct (conn_sends (H := SlideBuf_netbuf) (Hcaenv := silent_env) (Henv := tick_env 1) (Hops := ask_heap)
    50 50 50 ex_ops 3000 3000 8 ex_rd (replicate 4 (WrAccept 1000)) s ac rs Hr Hac Hput) as (sent & l & H1 & H2 & H3).
  exists sent, l. split; [exact Hr|]. split; [exact H1|]. split; [exact H2|exact H3].
Defined.

(** The owner: two channels are added and a report is asked for. *)
Definition ex_owner_env : CaConnEnv := {|
  cx_inp_cap := 3000;
  cx_out_cap := 3000;
  cx_array_truncate := 8;
  cx_rand _ := 7;
  cx_connect _ := Ready (Ok (mkTcp ex_rd (replicate 4 (WrAccept 1000)) []));
  cx_reply _ := Ready (Ok tt)
|}.

Definition ex_owner_ops : list (CaConnCmdKind + unit) :=
  [inl (CxChannelAdd "CHANNEL" 5); inl CxChannelsForAddrInfoV1; inl (CxChannelAdd "CHANNEL2" 6)] ++ replicate 6 (inr tt).

Abbreviation ex_owner_run :=
  (cx_run (H := SlideBuf_netbuf) (H0 := silent_env) (H1 := tick_env 1) (H2 := ex_owner_env) (H3 := ask_heap) 50 50 50 50
    ex_owner_ops (cx_new (H := SlideBuf_netbuf) (H1 := tick_env 1) (H2 := ex_owner_env) (H3 := ask_heap) [])).

Lemma owner_serves `{NetBuf} `{ChanHeapOps} (P : CaConn -> Connected -> ActiveCa -> Prop)
    (run : option (CaConn * list (Poll (option (outcome CxError (AsynBuf (CaConnItem ah_data))))))) :
  match run with
  | Some (s, _) =>
      match cx_state s with
      | StConnected st => match cd_state st with CdActiveCa ac => P s st ac | _ => False end
      | _ => False
      end
  | None => False
  end ->
  exists s rs st ac, run = Some (s, rs) /\ cx_state s = StConnected st /\ cd_state st = CdActiveCa ac /\ P s st ac.
Proof.
  destruct run as [[s rs]|]; [|done]. destruct (cx_state s) as [|st|] eqn:Hs; try done.
  destruct (cd_state st) as [| |ac|] eqn:Hst; try done. intros Hp. by exists s, rs, st, ac.
Qed.

Lemma conn_answers_witness :
  exists s rs st ac, ex_owner_run = Some (s, rs) /\ cx_state s = StConnected st /\ cd_state st = CdActiveCa ac /\ ac_done_sent ac = [5; 6]%nat /\
    ac_done_sent ac ++ fut_done_tx (ac_cmd_fut ac) ++
    map cmd_done_tx (ab_buf (ac_inp_cmd_buf ac) ++ ac_inp_cmds (ab_buf (ac_inp_buf ac)) ++ ab_buf (cd_inp_cmd_buf st)) ++
    cx_waiting s = [5; 6]%nat.
Proof.
  destruct (owner_serves (fun _ _ ac => Forall sendable (ah_put (ac_chanheap ac)) /\ ac_done_sent ac = [5; 6]%nat) ex_owner_run)
    as (s & rs & st & ac & Hr & Hst & Hac & Hput & Hd); [vm_compute; repeat constructor|].
  exists s, rs, st, ac. split; [exact Hr|]. split; [exact Hst|]. split; [exact Hac|]. split; [exact Hd|].
  apply (conn_answers (H := SlideBuf_netbuf) (Hcaenv := silent_env) (Henv := tick_env 1) (Hcx := ex_owner_env) (Hops := ask_heap)
    ltac:(by intros _ tcp [= <-]) 50 50 50 50 ex_owner_ops s st ac rs Hr Hst Hac Hput).
Defined.

(** Channels that take no input and put out what a script says. *)
Definition script_ops (script : list (Poll (option (outcome unit (AsynBuf (Z * HeapItemInner unit)))))) : ChanHeapOps := {|
  ah_heap := list (Poll (option (outcome unit (AsynBuf (Z * HeapItemInner unit)))));
  ah_data := unit;
  ah_new := script;
  ah_channel_add _ h := h;
  ah_disconnect_on_idle h := h;
  ah_inp_is_space _ := false;
  ah_inp_push_try x h := (h, PushFull x);
  ah_cmd_done _ := false;
  ah_poll_next h := match h with [] => ([], Some Pending) | r :: h => (h, Some r) end
|}.

Definition busy_heap : ChanHeapOps :=
  script_ops (replicate 135 Pending ++ [Ready (Some (Ok (AsynBuf_from_deque (replicate 3 (0, HiProtoOut (CaMsg_from_ty_ts CaEcho 0))))))]).

Abbreviation busy_run :=
  (cd_run (H := SlideBuf_netbuf) (H0 := silent_env) (H1 := tick_env 0) (H2 := busy_heap) 900 50 900 (replicate 6 (inr tt))
    (cd_new_with (H := SlideBuf_netbuf) (H2 := busy_heap) 3000 3000 8
       (mkTcp ([RdBytes version_bytes] ++ replicate 8 RdPending ++ [RdBytes (concat (replicate 140 created_bytes))])
          (replicate 9 (WrAccept 1000)) []))).

(** A connection gets there from its beginning: 140 messages come while the
    channels do not take any, and then the channels put out three. *)
Lemma conn_backpressure_ends_witness :
  exists s rs ac, busy_run = Some (s, rs) /\ cd_stuck s ac /\
    exists s', cd_poll_next (H0 := silent_env) (H1 := tick_env 0) 9 9 1 s = (s', Some (Ready None)) /\ cd_stuck s' ac /\
      cd_inp_buf s' = cd_inp_buf s.
Proof.
  destruct (run_serves (fun s ac => pw_is_space (cd_protowrap s) = false /\ quiet (pw_proto (cd_protowrap s)) /\
      ab_full (cd_inp_buf s) /\ ab_full (ac_inp_buf ac)) busy_run) as (s & rs & ac & Hr & Hac & Hs).
  { vm_compute. repeat split; lia. }
  assert (Hst : cd_stuck s ac) by (split; [exact Hac|exact Hs]).
  exists s, rs, ac. split; [exact Hr|]. split; [exact Hst|].
  exact (conn_backpressure_ends (Hcaenv := silent_env) (Henv := tick_env 0) 9 9 0 s ac Hst).
Defined.

(** The removal of a channel is under way, another waits, and a message came. *)
Definition blocked_ac : ActiveCa (H0 := script_ops []) :=
  let push x (s : ActiveCa) := (ac_inp_push_try (H0 := script_ops []) x s).1 in
  let poll (s : ActiveCa) := (ac_poll_next (H := tick_env 1) (H0 := script_ops []) 9 s).1 in
  push (AcInpCaMsg (CaMsg_from_ty_ts (CaChannelCloseRes (mkChannelCloseRes 9 7)) 0))
    (poll (push (AcInpCmd (CkChannelRemove "B" 2)) (poll (push (AcInpCmd (CkChannelRemove "A" 1))
      (ac_new (H := tick_env 1) (H0 := script_ops []) 0))))).

Lemma command_blocks_messages_witness :
  ab_buf (ac_inp_buf (ac_poll_next (H := tick_env 1) (H0 := script_ops []) 9 blocked_ac).1) =
  [AcInpCaMsg (CaMsg_from_ty_ts (CaChannelCloseRes (mkChannelCloseRes 9 7)) 0)].
Proof.
  transitivity (ab_buf (ac_inp_buf blocked_ac)); [|reflexivity]. apply (f_equal ab_buf).
  apply (command_blocks_messages (Henv := tick_env 1) (Hops := script_ops []) 9 blocked_ac).
  - split; [eexists; reflexivity|reflexivity].
  - reflexivity.
Defined.

(** A message that comes right behind the version of the server is dropped with
    the buffer of the handshake. *)
Example handshake_drops :
  match cd_run (H := SlideBuf_netbuf) (H0 := silent_env) (H1 := tick_env 1) (H2 := ask_heap) 50 50 50 ex_ops
    (cd_new_with (H := SlideBuf_netbuf) (H2 := ask_heap) 3000 3000 8
      (mkTcp [RdBytes (version_bytes ++ created_bytes)] (replicate 4 (WrAccept 1000)) [])) with
  | Some (s, _) => match cd_state s with CdActiveCa ac => ah_got (ac_chanheap ac) = [] /\ ac_msgs ac = [] | _ => False end
  | None => False
  end.
Proof. vm_compute. done. Qed.

(** The end of the socket is not noticed: after the request of the channel and a
    ping, which go nowhere, what ends the connection is that no echo comes. *)
Example end_is_echo_timeout :
  match cd_run (H := SlideBuf_netbuf) (H0 := silent_env) (H1 := tick_env 200) (H2 := ask_heap) 50 50 50
      (inl (CkChannelAdd "CHANNEL" 5%nat) :: replicate 70 (inr tt))
    (cd_new_with (H := SlideBuf_netbuf) (H2 := ask_heap) 3000 3000 8
      (mkTcp ([RdBytes version_bytes] ++ replicate 8 RdPending ++ [RdEof]) (replicate 9 (WrAccept 1000)) [])) with
  | Some (s, rs) =>
      take 3 (omap (fun r => match r with Pending => None | _ => Some r end) rs) =
      [Ready (Some (Ok (AsynBuf_from_deque []))); Ready (Some (Ok (AsynBuf_from_deque [])));
       Ready (Some (Err (CdActiveCaError AcIocEchoTimeout)))]
  | None => False
  end.
Proof. vm_compute. reflexivity. Qed.

(** Two messages in the input: a poll takes one, says that it is pending, and
    nothing wakes it for the other. *)
Example pending_leaves_input :
  let m := CaMsg_from_ty_ts CaEcho 0 in
  let s := (ac_inp_push_try (H0 := script_ops []) (AcInpCaMsg m)
    (ac_inp_push_try (H0 := script_ops []) (AcInpCaMsg m) (ac_new (H := tick_env 1) (H0 := script_ops []) 0)).1).1 in
  let '(s', r) := ac_poll_next (H := tick_env 1) (H0 := script_ops []) 9 s in
  r = Some Pending /\ ab_buf (ac_inp_buf s') = [AcInpCaMsg m].
Proof. vm_compute. done. Qed.
