(* ===== verification/Writers.v ===== *)
(** * Writing the events of a series

    The writers of [daqbuf-serieswriter/src]: where an event goes in the partitions
    of a series ([msptool]), the writer of one series ([writer.rs]), the one with a
    limit on the rate ([ratelimitwriter.rs]), and the one that writes to the stores
    of three retention times ([rtwriter.rs]); the queues of [daqbuf-scywr]
    ([insertqueues.rs], [iteminsertqueue.rs]) they write to.

    An instant is its number of nanoseconds; where the code reads the clock the
    reading is an argument, one for all readings of a call. *)
From Stdlib Require Import ZArith Lia.
From stdpp Require Import base numbers option list.
From S2P Require Import Prelude TimeTypes NetpodTypes Retention.

#[local] Open Scope Z_scope.
#[local] Open Scope rust_scope.

(** ** The items of the queues *)

Record MspItem : Type := mkMspItem { mi_series : Z; mi_ts_msp : TsMs; mi_ts_net : Z }.

Record TimeBinSimpleF32V02 (F : Type) : Type := mkTimeBin {
  tb_series : Z;
  tb_binlen : Z;
  tb_msp : Z;
  tb_off : Z;
  tb_cnt : Z;
  tb_min : F;
  tb_max : F;
  tb_avg : F;
  tb_dev : F;
  tb_lst : F
}.
Arguments mkTimeBin {F}.
Arguments tb_series {F} t.
Arguments tb_binlen {F} t.
Arguments tb_msp {F} t.
Arguments tb_off {F} t.
Arguments tb_cnt {F} t.
Arguments tb_min {F} t.
Arguments tb_max {F} t.
Arguments tb_avg {F} t.
Arguments tb_lst {F} t.

Record BinWriteIndexV04 : Type := mkBinWriteIndex {
  bi_series : Z;
  bi_pbp : Z;
  bi_msp : Z;
  bi_lsp : Z;
  bi_binlen : Z
}.

Record Accounting : Type := mkAccounting { acc_part : Z; acc_ts : TsMs; acc_series : Z; acc_count : Z; acc_bytes : Z }.
Record AccountingRecv : Type := mkAccountingRecv { accr_part : Z; accr_ts : TsMs; accr_series : Z; accr_count : Z; accr_bytes : Z }.

(** [D] is the type of the values written, [F] that of the numbers of a bin. *)
Record InsertItem (D : Type) : Type := mkInsertItem {
  ii_series : Z;
  ii_ts_msp : TsMs;
  ii_ts_lsp : DtNano;
  ii_val : D;
  ii_ts_net : Z
}.
Arguments mkInsertItem {D}.
Arguments ii_series {D} i.
Arguments ii_ts_msp {D} i.
Arguments ii_ts_lsp {D} i.
Arguments ii_val {D} i.
Arguments ii_ts_net {D} i.

Inductive QueryItem (D F : Type) : Type :=
  | QiInsert (x : InsertItem D)
  | QiMsp (x : MspItem)
  | QiTimeBin (x : TimeBinSimpleF32V02 F)
  | QiBinWriteIndex (x : BinWriteIndexV04)
  | QiAccounting (x : Accounting)
  | QiAccountingRecv (x : AccountingRecv).
Arguments QiInsert {D F} x.
Arguments QiMsp {D F} x.
Arguments QiTimeBin {D F} x.
Arguments QiBinWriteIndex {D F} x.
Arguments QiAccounting {D F} x.
Arguments QiAccountingRecv {D F} x.

(** ** The queues *)

Record InsertDeques (D F : Type) : Type := mkInsertDeques {
  idq_st_rf1 : list (QueryItem D F);
  idq_st_rf3 : list (QueryItem D F);
  idq_mt_rf3 : list (QueryItem D F);
  idq_lt_rf3 : list (QueryItem D F);
  idq_lt_rf3_lat5 : list (QueryItem D F)
}.
Arguments mkInsertDeques {D F}.
Arguments idq_st_rf1 {D F} i.
Arguments idq_st_rf3 {D F} i.
Arguments idq_mt_rf3 {D F} i.
Arguments idq_lt_rf3 {D F} i.
Arguments idq_lt_rf3_lat5 {D F} i.

Section InsertDeques.
  Context {D F : Type}.

Definition idq_new : InsertDeques D F := mkInsertDeques [] [] [] [] [].

Definition idq_len (q : InsertDeques D F) : nat :=
  (length (idq_st_rf1 q) + length (idq_st_rf3 q) + length (idq_mt_rf3 q) + length (idq_lt_rf3 q) + length (idq_lt_rf3_lat5 q))%nat.

Definition idq_clear (q : InsertDeques D F) : InsertDeques D F := mkInsertDeques [] [] [] [] [].

(** The queue of a retention time, and what the caller leaves in it. *)
Definition idq_deque (rt : RetentionTime) (q : InsertDeques D F) : list (QueryItem D F) :=
  match rt with Short => idq_st_rf3 q | Medium => idq_mt_rf3 q | Long => idq_lt_rf3 q end.
Definition idq_set_deque (rt : RetentionTime) (l : list (QueryItem D F)) (q : InsertDeques D F) : InsertDeques D F :=
  match rt with
  | Short => mkInsertDeques (idq_st_rf1 q) l (idq_mt_rf3 q) (idq_lt_rf3 q) (idq_lt_rf3_lat5 q)
  | Medium => mkInsertDeques (idq_st_rf1 q) (idq_st_rf3 q) l (idq_lt_rf3 q) (idq_lt_rf3_lat5 q)
  | Long => mkInsertDeques (idq_st_rf1 q) (idq_st_rf3 q) (idq_mt_rf3 q) l (idq_lt_rf3_lat5 q)
  end.
Definition idq_set_st_rf1 (l : list (QueryItem D F)) (q : InsertDeques D F) : InsertDeques D F :=
  mkInsertDeques l (idq_st_rf3 q) (idq_mt_rf3 q) (idq_lt_rf3 q) (idq_lt_rf3_lat5 q).

Definition idq_push (rt : RetentionTime) (x : QueryItem D F) (q : InsertDeques D F) : InsertDeques D F :=
  idq_set_deque rt (idq_deque rt q ++ [x]) q.

Definition idq_emit_accounting_item (rt : RetentionTime) (item : Accounting) (q : InsertDeques D F) : InsertDeques D F :=
  idq_push rt (QiAccounting item) q.
Definition idq_emit_accounting_recv (item : AccountingRecv) (q : InsertDeques D F) : InsertDeques D F :=
  idq_push Short (QiAccountingRecv item) q.

End InsertDeques.

(** ** Partitions of a series *)

(** [MspSplit]: the partition of an event, its place in there, whether the
    partition is new, and the one that is over. *)
Class MspSplit (S : Type) : Type := {
  spl_split : TsNano -> Z -> S -> outcome unit (S * (TsNano * DtNano * bool * option TsNano));
  spl_ts_msp_current : S -> outcome unit (option TsNano);
  spl_rt : S -> outcome unit RetentionTime
}.

Record MspSplitDyn : Type := mkMspSplitDyn {
  msd_last : option TsNano;
  msd_count : Z;
  msd_bytes : Z;
  msd_count_max : Z;
  msd_bytes_max : Z;
  msd_rt : RetentionTime;
  msd_rollover_at : TsNano
}.

Definition msd_new (count_max bytes_max : Z) (rt : RetentionTime) : MspSplitDyn :=
  mkMspSplitDyn None 0 0 count_max bytes_max rt (TsNano_from_ns 0).

(** A new partition begins. *)
Definition msd_start (self : MspSplitDyn) (ts_msp ts : TsNano) (item_bytes : Z) : MspSplitDyn :=
  mkMspSplitDyn (Some ts_msp) 1 item_bytes (msd_count_max self) (msd_bytes_max self) (msd_rt self)
    (TsNano_add_dt_nano ts (DtNano_from_ms (u64_mul 1000 (rt_msp_rollover_ivl (msd_rt self) / 1000000000)))).

Definition MSP_RES_MAX : Z := SEC * 2.

Definition msd_grid (ts : TsNano) : outcome unit TsNano :=
  let? q := TsNano_div ts MSP_RES_MAX in Ok (TsNano_mul q MSP_RES_MAX).

Definition msd_split (ts : TsNano) (item_bytes : Z) (self : MspSplitDyn) :
    outcome unit (MspSplitDyn * (TsNano * DtNano * bool * option TsNano)) :=
  let? res :=
    match msd_last self with
    | Some ts_msp_last =>
        if (msd_count_max self <=? msd_count self) || (msd_bytes_max self <=? msd_bytes self) || (msd_rollover_at self <=? ts) then
          let? ts_msp := msd_grid ts in
          if ts_msp =? ts_msp_last then Ok (self, (ts_msp, false, None))
          else Ok (msd_start self ts_msp ts item_bytes, (ts_msp, true, Some ts_msp_last))
        else
          Ok (mkMspSplitDyn (Some ts_msp_last) (u32_add (msd_count self) 1) (u32_add (msd_bytes self) item_bytes)
                (msd_count_max self) (msd_bytes_max self) (msd_rt self) (msd_rollover_at self),
              (ts_msp_last, false, None))
    | None =>
        let? ts_msp := msd_grid ts in
        Ok (msd_start self ts_msp ts item_bytes, (ts_msp, true, None))
    end in
  let '(self, (ts_msp, changed, retired)) := res in
  Ok (self, (ts_msp, TsNano_delta ts ts_msp, changed, retired)).

#[export] Instance MspSplitDyn_split : MspSplit MspSplitDyn := {
  spl_split := msd_split;
  spl_ts_msp_current self := Ok (msd_last self);
  spl_rt self := Ok (msd_rt self)
}.

Definition CHANNEL_STATUS_GRID : DtMs := DtMs_from_ms_u64 (1000 * 60 * 60).

Record MspSplitFixGrid : Type := mkMspSplitFixGrid { msf_grid_dt : DtMs; msf_last : option TsNano }.

Definition msf_new (grid_dt : DtMs) : MspSplitFixGrid := mkMspSplitFixGrid grid_dt None.
Definition msf_for_channel_status : MspSplitFixGrid := msf_new CHANNEL_STATUS_GRID.

Definition msf_split (ts : TsNano) (item_bytes : Z) (self : MspSplitFixGrid) :
    outcome unit (MspSplitFixGrid * (TsNano * DtNano * bool * option TsNano)) :=
  let? p := TsMs_to_grid_02 (TsNano_to_ts_ms ts) (msf_grid_dt self) in
  let msp := p.1 in
  let '(self, changed, retired) :=
    match msf_last self with
    | Some ts_msp_last =>
        if negb (TsMs_ns msp =? ts_msp_last) then (mkMspSplitFixGrid (msf_grid_dt self) (Some (TsMs_ns msp)), true, Some ts_msp_last)
        else (self, false, None)
    | None => (self, true, None)
    end in
  let msp := TsMs_ns msp in
  Ok (self, (msp, TsNano_delta ts msp, changed, retired)).

(** The other two are [todo!()]. *)
#[export] Instance MspSplitFixGrid_split : MspSplit MspSplitFixGrid := {
  spl_split := msf_split;
  spl_ts_msp_current _ := Panic;
  spl_rt _ := Panic
}.

(** ** The values of a series *)

(** [EmittableType], with what it is stored as. *)
Class EmittableType : Type := {
  et_item : Type;
  et_state : Type;
  et_data : Type;
  et_ts : et_item -> TsNano;
  et_has_change : et_item -> et_item -> bool;
  et_byte_size : et_item -> Z;
  et_into_query_item : et_item -> Z -> TsNano -> et_state -> et_state * (et_data * Z)
}.

(** A value of a channel status series. *)
Record ChannelStatusWriteValue : Type := mkChannelStatusWriteValue { csw_ts : TsNano; csw_val : Z }.

Definition ChannelStatus_emittable : EmittableType := {|
  et_item := ChannelStatusWriteValue;
  et_state := unit;
  et_data := Z;
  et_ts := csw_ts;
  et_has_change _ _ := true;
  et_byte_size _ := 8;
  et_into_query_item self _ _ st := (st, (csw_val self, 8))
|}.

Section Writers.
  Context `{EmittableType} {F : Type}.

(** ** [SeriesWriter] *)

Record SwWriteRes : Type := mkSwWriteRes { swr_bytes : Z; swr_msp_rewrite : Z }.

Record SeriesWriter (SPL : Type) : Type := mkSeriesWriter {
  sw_series : Z;
  sw_msp_split : SPL;
  sw_evts_on_msp_write : TsNano;
  sw_evts_latest : TsNano;
  sw_check_reput_last : Z;
  sw_msp_put_last : option Z
}.
#[global] Arguments mkSeriesWriter {SPL}.
#[global] Arguments sw_series {SPL} s.
#[global] Arguments sw_msp_split {SPL} s.
#[global] Arguments sw_evts_on_msp_write {SPL} s.
#[global] Arguments sw_evts_latest {SPL} s.
#[global] Arguments sw_check_reput_last {SPL} s.
#[global] Arguments sw_msp_put_last {SPL} s.

Definition sw_new {SPL} (series : Z) (spl : SPL) (now : Z) : SeriesWriter SPL :=
  mkSeriesWriter series spl (TsNano_from_ns 0) (TsNano_from_ns 0) now None.

Definition sw_write {SPL} `{MspSplit SPL} (item : et_item) (state : et_state) (ts_net now : Z) (tsev : TsNano)
    (deque : list (QueryItem et_data F)) (self : SeriesWriter SPL) :
    outcome unit (SeriesWriter SPL * et_state * list (QueryItem et_data F) * SwWriteRes) :=
  let '(state, (data, bytes)) := et_into_query_item item ts_net tsev state in
  let? p := spl_split tsev bytes (sw_msp_split self) in
  let '(spl, (ts_msp, ts_lsp, chg, retired)) := p in
  let '(deque, rewrite) :=
    match retired with
    | Some msp => (deque ++ [QiMsp (mkMspItem (sw_series self) (TsNano_to_ts_ms msp) ts_net)], 1)
    | None => (deque, 0)
    end in
  let '(deque, on_write, put_last) :=
    if chg : bool then (deque ++ [QiMsp (mkMspItem (sw_series self) (TsNano_to_ts_ms ts_msp) ts_net)], tsev, Some now)
    else (deque, sw_evts_on_msp_write self, sw_msp_put_last self) in
  let deque := deque ++ [QiInsert (mkInsertItem (sw_series self) (TsNano_to_ts_ms ts_msp) ts_lsp data ts_net)] in
  Ok (mkSeriesWriter (sw_series self) spl on_write tsev (sw_check_reput_last self) put_last, state, deque, mkSwWriteRes bytes rewrite).

Definition sw_tick {SPL} (deque : list (QueryItem et_data F)) (self : SeriesWriter SPL) : outcome unit (SeriesWriter SPL * list (QueryItem et_data F)) :=
  Ok (self, deque).

Definition sw_on_close {SPL} `{MspSplit SPL} (now : Z) (deque : list (QueryItem et_data F)) (self : SeriesWriter SPL) :
    outcome unit (list (QueryItem et_data F)) :=
  let? cur := spl_ts_msp_current (sw_msp_split self) in
  Ok match cur with
     | Some msp => deque ++ [QiMsp (mkMspItem (sw_series self) (TsNano_to_ts_ms msp) now)]
     | None => deque
     end.

(** The partition is written again when an hour has passed and there were events. *)
Definition sw_housekeeping {SPL} `{MspSplit SPL} (now : Z) (deque : list (QueryItem et_data F)) (self : SeriesWriter SPL) :
    outcome unit (SeriesWriter SPL * list (QueryItem et_data F) * Z) :=
  if sw_check_reput_last self + 60000 * MS <=? now then
    let self := mkSeriesWriter (sw_series self) (sw_msp_split self) (sw_evts_on_msp_write self) (sw_evts_latest self) now (sw_msp_put_last self) in
    match sw_msp_put_last self with
    | Some put_last =>
        if put_last + 3600000 * MS <=? now then
          if negb (sw_evts_latest self =? sw_evts_on_msp_write self) then
            let? cur := spl_ts_msp_current (sw_msp_split self) in
            match cur with
            | Some msp =>
                Ok (mkSeriesWriter (sw_series self) (sw_msp_split self) (sw_evts_latest self) (sw_evts_latest self) now (Some now),
                    deque ++ [QiMsp (mkMspItem (sw_series self) (TsNano_to_ts_ms msp) now)], 1)
            | None => Ok (self, deque, 0)
            end
          else Ok (self, deque, 0)
        else Ok (self, deque, 0)
    | None => Ok (self, deque, 0)
    end
  else Ok (self, deque, 0).

(** ** [RateLimitWriter] *)

Record RlWriteRes : Type := mkRlWriteRes {
  rlr_accept : bool;
  rlr_bytes : Z;
  rlr_msp_rewrite : Z;
  rlr_ignore_monitor_not_min_quiet : Z;
  rlr_ignore_poll_not_min_quiet : Z;
  rlr_ignore_rate_cap : Z
}.

Record RateLimitWriter (SPL : Type) : Type := mkRateLimitWriter {
  rl_series : Z;
  rl_min_quiet : Z;
  rl_is_polled : bool;
  rl_emit_state : et_state;
  rl_last_insert_ts : TsNano;
  rl_last_insert_val : option et_item;
  rl_writer : SeriesWriter SPL
}.
#[global] Arguments mkRateLimitWriter {SPL}.
#[global] Arguments rl_series {SPL} r.
#[global] Arguments rl_min_quiet {SPL} r.
#[global] Arguments rl_is_polled {SPL} r.
#[global] Arguments rl_emit_state {SPL} r.
#[global] Arguments rl_last_insert_ts {SPL} r.
#[global] Arguments rl_last_insert_val {SPL} r.
#[global] Arguments rl_writer {SPL} r.

Definition rl_new {SPL} (series min_quiet : Z) (is_polled : bool) (emit_state : et_state) (spl : SPL) (now : Z) : RateLimitWriter SPL :=
  mkRateLimitWriter series min_quiet is_polled emit_state (TsNano_from_ns 0) None (sw_new series spl now).

(** The event is written without looking at the last one. *)
Definition rl_write_through {SPL} `{MspSplit SPL} (item : et_item) (ts_net now : Z) (tsev : TsNano)
    (deque : list (QueryItem et_data F)) (self : RateLimitWriter SPL) :
    outcome unit (RateLimitWriter SPL * list (QueryItem et_data F) * RlWriteRes) :=
  let? p := sw_write item (rl_emit_state self) ts_net now tsev deque (rl_writer self) in
  let '(writer, emit_state, deque, res) := p in
  Ok (mkRateLimitWriter (rl_series self) (rl_min_quiet self) (rl_is_polled self) emit_state tsev (Some item) writer, deque,
      mkRlWriteRes true (swr_bytes res) (swr_msp_rewrite res) 0 0 0).

Definition rl_write_force {SPL} `{MspSplit SPL} := @rl_write_through SPL _.

(** [1000 * as_secs() + subsec_millis()]. *)
Definition rl_min_quiet_ms (min_quiet : Z) : Z :=
  u64_add (u64_mul 1000 (min_quiet / 1000000000)) (min_quiet mod 1000000000 / 1000000).

Inductive rl_decision : Type :=
  | RlMonitorNotMinQuiet
  | RlPollNotMinQuiet
  | RlRateCap
  | RlAccept.

Definition rl_decide {SPL} (ts : TsNano) (self : RateLimitWriter SPL) : rl_decision :=
  let min_quiet := rl_min_quiet_ms (rl_min_quiet self) in
  let tsl := rl_last_insert_ts self in
  if negb (rl_is_polled self) && (TsNano_ms ts <? u64_add (TsNano_ms tsl) min_quiet) then RlMonitorNotMinQuiet
  else if rl_is_polled self && (u64_add (TsNano_ms ts) 800 <? u64_add (TsNano_ms tsl) min_quiet) then RlPollNotMinQuiet
  else if ts <? TsNano_add_dt_nano tsl (DtNano_from_ms 1) then RlRateCap
  else RlAccept.

Definition rl_write {SPL} `{MspSplit SPL} (item : et_item) (ts_net now : Z) (tsev : TsNano)
    (deque : list (QueryItem et_data F)) (self : RateLimitWriter SPL) :
    outcome unit (RateLimitWriter SPL * list (QueryItem et_data F) * RlWriteRes) :=
  match rl_decide tsev self with
  | RlAccept => rl_write_through item ts_net now tsev deque self
  | RlMonitorNotMinQuiet => Ok (self, deque, mkRlWriteRes false 0 0 1 0 0)
  | RlPollNotMinQuiet => Ok (self, deque, mkRlWriteRes false 0 0 0 1 0)
  | RlRateCap => Ok (self, deque, mkRlWriteRes false 0 0 0 0 1)
  end.

Definition rl_set_writer {SPL} (w : SeriesWriter SPL) (self : RateLimitWriter SPL) : RateLimitWriter SPL :=
  mkRateLimitWriter (rl_series self) (rl_min_quiet self) (rl_is_polled self) (rl_emit_state self) (rl_last_insert_ts self)
    (rl_last_insert_val self) w.

Definition rl_tick {SPL} (deque : list (QueryItem et_data F)) (self : RateLimitWriter SPL) :
    outcome unit (RateLimitWriter SPL * list (QueryItem et_data F)) :=
  let? p := sw_tick deque (rl_writer self) in Ok (rl_set_writer p.1 self, p.2).

Definition rl_on_close {SPL} `{MspSplit SPL} (now : Z) (deque : list (QueryItem et_data F)) (self : RateLimitWriter SPL) :
    outcome unit (list (QueryItem et_data F)) := sw_on_close now deque (rl_writer self).

Definition rl_housekeeping {SPL} `{MspSplit SPL} (now : Z) (deque : list (QueryItem et_data F)) (self : RateLimitWriter SPL) :
    outcome unit (RateLimitWriter SPL * list (QueryItem et_data F) * Z) :=
  let? p := sw_housekeeping now deque (rl_writer self) in
  let '(w, deque, n) := p in Ok (rl_set_writer w self, deque, n).

(** ** [RtWriter] *)

Record MinQuiets : Type := mkMinQuiets { mq_st : Z; mq_mt : Z; mq_lt : Z }.

Definition mq_test_mon_1_10 : MinQuiets := mkMinQuiets 0 (1000 * MS) (10000 * MS).
Definition mq_test_1_10_60 : MinQuiets := mkMinQuiets (1000 * MS) (10000 * MS) (60000 * MS).
Definition mq_http_ingest_default : MinQuiets := mkMinQuiets 0 0 (3600000 * MS).

Record WriteRtRes : Type := mkWriteRtRes {
  wrr_accept : bool;
  wrr_bytes : Z;
  wrr_msp_rewrite : Z;
  wrr_ignore_rewind_time : Z;
  wrr_ignore_same_time : Z;
  wrr_ignore_same_value : Z;
  wrr_ignore_monitor_not_min_quiet : Z;
  wrr_ignore_poll_not_min_quiet : Z;
  wrr_ignore_rate_cap : Z
}.

Definition wrr_rewind_time : WriteRtRes := mkWriteRtRes false 0 0 1 0 0 0 0 0.
Definition wrr_same_time : WriteRtRes := mkWriteRtRes false 0 0 0 1 0 0 0 0.
Definition wrr_same_value : WriteRtRes := mkWriteRtRes false 0 0 0 0 1 0 0 0.
Definition wrr_default : WriteRtRes := mkWriteRtRes false 0 0 0 0 0 0 0 0.

Record RtWriteRes : Type := mkRtWriteRes { wr_st : WriteRtRes; wr_mt : WriteRtRes; wr_lt : WriteRtRes }.

Definition wr_accept_any (r : RtWriteRes) : bool := wrr_accept (wr_lt r) || wrr_accept (wr_mt r) || wrr_accept (wr_st r).

(** The counters are [u8]. *)
Definition wr_sum (f : WriteRtRes -> Z) (r : RtWriteRes) : Z := wrap 8 (f (wr_st r) + f (wr_mt r) + f (wr_lt r)).
Definition wr_msp_rewrite : RtWriteRes -> Z := wr_sum wrr_msp_rewrite.
Definition wr_ignore_rewind_time : RtWriteRes -> Z := wr_sum wrr_ignore_rewind_time.
Definition wr_ignore_same_time : RtWriteRes -> Z := wr_sum wrr_ignore_same_time.
Definition wr_ignore_same_value : RtWriteRes -> Z := wr_sum wrr_ignore_same_value.
Definition wr_ignore_monitor_not_min_quiet : RtWriteRes -> Z := wr_sum wrr_ignore_monitor_not_min_quiet.
Definition wr_ignore_poll_not_min_quiet : RtWriteRes -> Z := wr_sum wrr_ignore_poll_not_min_quiet.
Definition wr_ignore_rate_cap : RtWriteRes -> Z := wr_sum wrr_ignore_rate_cap.

Record RtWriter : Type := mkRtWriter {
  rw_series : Z;
  rw_scalar_type : ScalarType;
  rw_shape : Shape;
  rw_state_st : RateLimitWriter MspSplitDyn;
  rw_state_mt : RateLimitWriter MspSplitDyn;
  rw_state_lt : RateLimitWriter MspSplitDyn;
  rw_min_quiets : MinQuiets;
  rw_do_st_rf1 : bool;
  rw_last_insert_ts : TsNano;
  rw_last_insert_val : option et_item
}.

Definition rw_spl (rt : RetentionTime) : MspSplitDyn := msd_new (1024 * 64) (1024 * 1024 * 10) rt.

Definition rw_new (series : Z) (scalar_type : ScalarType) (shape : Shape) (min_quiets : MinQuiets) (is_polled do_st_rf1 : bool)
    (emit_state_new : et_state) (now : Z) : RtWriter :=
  mkRtWriter series scalar_type shape
    (rl_new series (mq_st min_quiets) is_polled emit_state_new (rw_spl Short) now)
    (rl_new series (mq_mt min_quiets) is_polled emit_state_new (rw_spl Medium) now)
    (rl_new series (mq_lt min_quiets) is_polled emit_state_new (rw_spl Long) now)
    min_quiets do_st_rf1 (TsNano_from_ns 0) None.

Definition rw_state (rt : RetentionTime) (self : RtWriter) : RateLimitWriter MspSplitDyn :=
  match rt with Short => rw_state_st self | Medium => rw_state_mt self | Long => rw_state_lt self end.

Definition rw_set_state (rt : RetentionTime) (w : RateLimitWriter MspSplitDyn) (self : RtWriter) : RtWriter :=
  mkRtWriter (rw_series self) (rw_scalar_type self) (rw_shape self)
    (match rt with Short => w | _ => rw_state_st self end) (match rt with Medium => w | _ => rw_state_mt self end)
    (match rt with Long => w | _ => rw_state_lt self end)
    (rw_min_quiets self) (rw_do_st_rf1 self) (rw_last_insert_ts self) (rw_last_insert_val self).

Definition wrr_of (x : RlWriteRes) : WriteRtRes :=
  mkWriteRtRes (rlr_accept x) (rlr_bytes x) (rlr_msp_rewrite x) 0 0 0
    (rlr_ignore_monitor_not_min_quiet x) (rlr_ignore_poll_not_min_quiet x) (rlr_ignore_rate_cap x).

(** [write_inner] on the writer and the queue of a retention time. *)
Definition rw_write_inner (rt : RetentionTime) (item : et_item) (ts_net now : Z) (tsev : TsNano) (q : InsertDeques et_data F)
    (self : RtWriter) : outcome unit (RtWriter * InsertDeques et_data F * WriteRtRes) :=
  let? p := rl_write item ts_net now tsev (idq_deque rt q) (rw_state rt self) in
  let '(w, deque, x) := p in Ok (rw_set_state rt w self, idq_set_deque rt deque q, wrr_of x).

Definition rw_write_inner_force (rt : RetentionTime) (item : et_item) (ts_net now : Z) (tsev : TsNano) (q : InsertDeques et_data F)
    (self : RtWriter) : outcome unit (RtWriter * InsertDeques et_data F * WriteRtRes) :=
  let? p := rl_write_force item ts_net now tsev (idq_deque rt q) (rw_state rt self) in
  let '(w, deque, x) := p in Ok (rw_set_state rt w self, idq_set_deque rt deque q, wrr_of x).

Definition rw_set_last (ts : TsNano) (val : option et_item) (self : RtWriter) : RtWriter :=
  mkRtWriter (rw_series self) (rw_scalar_type self) (rw_shape self) (rw_state_st self) (rw_state_mt self) (rw_state_lt self)
    (rw_min_quiets self) (rw_do_st_rf1 self) ts val.

(** The same queue is used for the short term store whatever [do_st_rf1] is. *)
Definition rw_write (item : et_item) (ts_net now : Z) (tsev : TsNano) (q : InsertDeques et_data F) (self : RtWriter) :
    outcome unit (RtWriter * InsertDeques et_data F * RtWriteRes) :=
  let tsl := rw_last_insert_ts self in
  let? p :=
    if tsev <? tsl then Ok (self, q, mkRtWriteRes wrr_rewind_time wrr_rewind_time wrr_rewind_time)
    else if tsev =? tsl then Ok (self, q, mkRtWriteRes wrr_same_time wrr_same_time wrr_same_time)
    else if negb (from_option (et_has_change item) true (rw_last_insert_val self)) then
      Ok (self, q, mkRtWriteRes wrr_same_value wrr_same_value wrr_same_value)
    else
      let? p := rw_write_inner Long item ts_net now tsev q self in
      let '(self, q, lt) := p in
      let? p := rw_write_inner Medium item ts_net now tsev q self in
      let '(self, q, mt) := p in
      let? p := rw_write_inner Short item ts_net now tsev q self in
      let '(self, q, st) := p in
      Ok (self, q, mkRtWriteRes st mt lt) in
  let '(self, q, ret) := p in
  Ok (if wr_accept_any ret then rw_set_last tsev (Some item) self else self, q, ret).

(** The last value of a store with its time; the latest of the three. *)
Definition rw_tsl (rt : RetentionTime) (self : RtWriter) : option (TsNano * et_item) :=
  (fun x => (rl_last_insert_ts (rw_state rt self), x)) <$> rl_last_insert_val (rw_state rt self).

Definition rw_max_tsl_step (self : RtWriter) (acc : option (TsNano * et_item * RetentionTime)) (rt : RetentionTime) :
    option (TsNano * et_item * RetentionTime) :=
  match rw_tsl rt self with
  | Some (tsl, val) => if from_option (fun x => x.1.1 <? tsl) true acc then Some (tsl, val, rt) else acc
  | None => acc
  end.

Definition rw_max_tsl (self : RtWriter) : option (TsNano * et_item * RetentionTime) :=
  foldl (rw_max_tsl_step self) None [Long; Medium; Short].

(** Has the value been quiet for long enough. *)
Definition rw_quiet_over (tsl : TsNano) (quiet : Z) (tsnow : TsNano) : bool :=
  TsNano_from_ns (Z.min (TsNano_ns tsl + wrap 64 quiet) (2 ^ 64 - 1)) <=? tsnow.

Definition rw_check_quiet_reput (now : Z) (tsnow : TsNano) (q : InsertDeques et_data F) (self : RtWriter) :
    outcome unit (RtWriter * InsertDeques et_data F) :=
  match rw_max_tsl self with
  | Some (tsl, val, Short) =>
      if rw_quiet_over tsl (mq_lt (rw_min_quiets self)) tsnow then
        let? p := rw_write_inner_force Long val now now tsl q self in Ok p.1
      else if rw_quiet_over tsl (mq_mt (rw_min_quiets self)) tsnow then
        let? p := rw_write_inner_force Medium val now now tsl q self in Ok p.1
      else Ok (self, q)
  | Some (tsl, val, Medium) =>
      if rw_quiet_over tsl (mq_lt (rw_min_quiets self)) tsnow then
        let? p := rw_write_inner_force Long val now now tsl q self in Ok p.1
      else Ok (self, q)
  | _ => Ok (self, q)
  end.

(** The queue for the short term store that the other operations use. *)
Definition rw_st_deque (self : RtWriter) (q : InsertDeques et_data F) : list (QueryItem et_data F) :=
  if rw_do_st_rf1 self then idq_st_rf1 q else idq_st_rf3 q.
Definition rw_set_st_deque (self : RtWriter) (l : list (QueryItem et_data F)) (q : InsertDeques et_data F) : InsertDeques et_data F :=
  if rw_do_st_rf1 self then idq_set_st_rf1 l q else idq_set_deque Short l q.

Definition rw_tick (now : Z) (tsnow : TsNano) (q : InsertDeques et_data F) (self : RtWriter) :
    outcome unit (RtWriter * InsertDeques et_data F) :=
  let? p := rw_check_quiet_reput now tsnow q self in
  let '(self, q) := p in
  let? p := rl_tick (rw_st_deque self q) (rw_state_st self) in
  let '(self, q) := (rw_set_state Short p.1 self, rw_set_st_deque self p.2 q) in
  let? p := rl_tick (idq_deque Medium q) (rw_state_mt self) in
  let '(self, q) := (rw_set_state Medium p.1 self, idq_set_deque Medium p.2 q) in
  let? p := rl_tick (idq_deque Long q) (rw_state_lt self) in
  Ok (rw_set_state Long p.1 self, idq_set_deque Long p.2 q).

Definition rw_on_close (now : Z) (q : InsertDeques et_data F) (self : RtWriter) : outcome unit (InsertDeques et_data F) :=
  let? l := rl_on_close now (rw_st_deque self q) (rw_state_st self) in
  let q := rw_set_st_deque self l q in
  let? l := rl_on_close now (idq_deque Medium q) (rw_state_mt self) in
  let q := idq_set_deque Medium l q in
  let? l := rl_on_close now (idq_deque Long q) (rw_state_lt self) in
  Ok (idq_set_deque Long l q).

Definition rw_housekeeping (now : Z) (q : InsertDeques et_data F) (self : RtWriter) : outcome unit (RtWriter * InsertDeques et_data F * Z) :=
  let? p := rl_housekeeping now (rw_st_deque self q) (rw_state_st self) in
  let '(w, l, n_st) := p in
  let '(self, q) := (rw_set_state Short w self, rw_set_st_deque self l q) in
  let? p := rl_housekeeping now (idq_deque Medium q) (rw_state_mt self) in
  let '(w, l, n_mt) := p in
  let '(self, q) := (rw_set_state Medium w self, idq_set_deque Medium l q) in
  let? p := rl_housekeeping now (idq_deque Long q) (rw_state_lt self) in
  let '(w, l, n_lt) := p in
  Ok (rw_set_state Long w self, idq_set_deque Long l q, wrap 8 (n_st + n_mt + n_lt)).

End Writers.
