(* ===== verification/WriterProofs.v ===== *)
(** * Properties of the writers of a series

    [rw_events_addressable]: every event in a store can be found through a partition
    announced before it, at the time it was given with. [rw_quiet_settles]: once a
    channel is quiet its last value gets into the long term store. *)
From Stdlib Require Import ZArith Lia Sorted.
From stdpp Require Import base numbers option list sorting sets.
From S2P Require Import Prelude TimeTypes NetpodTypes Retention Writers.

#[local] Open Scope Z_scope.
#[local] Open Scope rust_scope.

Section WriterInv.
  Context `{EmittableType} {F : Type}.

(** ** What a queue holds *)

Definition qi_insert (x : QueryItem et_data F) : option (InsertItem et_data) :=
  match x with QiInsert i => Some i | _ => None end.

(** The time of an event by its address. *)
Definition ii_time (i : InsertItem et_data) : Z := ii_ts_msp i * 1000000 + ii_ts_lsp i.

(** The partition of an event was announced before. *)
Definition q_addressable (l : list (QueryItem et_data F)) : Prop :=
  forall pre i post, l = pre ++ QiInsert i :: post ->
    exists tn, QiMsp (mkMspItem (ii_series i) (ii_ts_msp i) tn) ∈ pre.

(** The events of a queue are among those given: their value, and their time. *)
Definition q_given (G : list (et_item * Z)) (l : list (QueryItem et_data F)) : Prop :=
  Forall (fun i => exists item tn st, (item, ii_time i) ∈ G /\ ii_val i = (et_into_query_item item tn (ii_time i) st).2.1)
    (omap qi_insert l).

Definition q_times (l : list (QueryItem et_data F)) : list Z := ii_time <$> omap qi_insert l.

(** The last event of a queue. *)
Definition q_ends (l : list (QueryItem et_data F)) (v : et_item) (ts : Z) : Prop :=
  exists i tn st, last (omap qi_insert l) = Some i /\ ii_time i = ts /\ ii_val i = (et_into_query_item v tn ts st).2.1.

(** ** One store *)

(** [l] is all that was ever put into the queue of the store. *)
Record store_inv (series : Z) (G : list (et_item * Z)) (l : list (QueryItem et_data F)) (w : RateLimitWriter MspSplitDyn) : Prop := {
  si_series : sw_series (rl_writer w) = series;
  si_addressable : q_addressable l;
  si_given : q_given G l;
  si_times : StronglySorted Z.lt (q_times l) /\ Forall (fun t => t <= rl_last_insert_ts w) (q_times l);
  si_last : match rl_last_insert_val w with
            | Some v => 0 < rl_last_insert_ts w < 2 ^ 63 /\ (v, rl_last_insert_ts w) ∈ G /\ q_ends l v (rl_last_insert_ts w)
            | None => rl_last_insert_ts w = 0
            end;
  si_msp : match msd_last (sw_msp_split (rl_writer w)) with
           | Some m => 0 <= m <= rl_last_insert_ts w /\ (MSP_RES_MAX | m) /\ exists tn, QiMsp (mkMspItem series (TsNano_to_ts_ms m) tn) ∈ l
           | None => True
           end
}.

Lemma rl_new_inv series mq p st spl now G : msd_last spl = None -> store_inv series G [] (rl_new series mq p st spl now).
Proof.
  intros Hs. split; cbn; try done.
  - intros pre i post E. by destruct pre.
  - constructor.
  - split; constructor.
  - by rewrite Hs.
Qed.

(** *** Partitions *)

Lemma msp_grid_bounds ts : 0 <= ts -> 0 <= MSP_RES_MAX * (ts / MSP_RES_MAX) <= ts /\ (MSP_RES_MAX | MSP_RES_MAX * (ts / MSP_RES_MAX)).
Proof.
  intros Ht. assert (HM : 0 < MSP_RES_MAX) by done. split; [|apply Z.divide_factor_l].
  pose proof (Z.mul_div_le ts MSP_RES_MAX HM). pose proof (Z.div_pos ts MSP_RES_MAX Ht HM). nia.
Qed.

Lemma msd_grid_spec ts : 0 <= ts < 2 ^ 63 -> msd_grid ts = Ok (MSP_RES_MAX * (ts / MSP_RES_MAX)).
Proof.
  intros Ht. destruct (msp_grid_bounds ts) as [Hb _]; [lia|].
  unfold msd_grid, TsNano_div, TsNano_mul. rewrite u_div_ok by done. cbn [and_then].
  rewrite u64_mul_small by lia. by rewrite Z.mul_comm.
Qed.

(** What [split] gives for an event not before the partition at hand. *)
Lemma msd_split_spec ts bytes self : 0 <= ts < 2 ^ 63 ->
  match msd_last self with Some m => 0 <= m <= ts /\ (MSP_RES_MAX | m) | None => True end ->
  exists self' m chg ret, msd_split ts bytes self = Ok (self', (m, ts - m, chg, ret)) /\
    msd_last self' = Some m /\ 0 <= m <= ts /\ (MSP_RES_MAX | m) /\
    (chg = false -> msd_last self = Some m) /\ (forall r, ret = Some r -> msd_last self = Some r).
Proof.
  intros Ht Hl. unfold msd_split.
  pose proof (msp_grid_bounds ts ltac:(lia)) as Hg.
  assert (Hd : forall m, 0 <= m <= ts -> TsNano_delta ts m = ts - m) by (intros m Hm; unfold TsNano_delta; rewrite u64_sub_small; lia).
  destruct (msd_last self) as [m0|] eqn:El; [destruct (_ || _)|]; rewrite ?(msd_grid_spec ts Ht); cbn [and_then].
  - destruct (Z.eqb_spec (MSP_RES_MAX * (ts / MSP_RES_MAX)) m0) as [E|E]; cbn [and_then].
    + rewrite Hd by lia. eexists _, _, _, _. split; [done|]. rewrite El, E in *. by split_and!; try apply Hg.
    + rewrite Hd by lia. eexists _, _, _, _. split; [done|]. split_and!; try apply Hg; by try intros r [= <-].
  - rewrite Hd by lia. eexists _, _, _, _. split; [done|]. split_and!; try done; try apply Hl.
  - rewrite Hd by lia. eexists _, _, _, _. split; [done|]. split_and!; try done; try apply Hg.
Qed.

(** *** Appending to a queue *)

Lemma q_addressable_app_msp l msps : q_addressable l -> omap qi_insert msps = [] -> q_addressable (l ++ msps).
Proof.
  intros Ha Hm pre i post E. apply app_eq_inv in E as [(k & -> & E)|(k & -> & E)].
  - destruct k as [|x k]; cbn in E; [subst msps; done|]. injection E as <- ->. apply (Ha pre i k). done.
  - exfalso. subst msps. rewrite omap_app in Hm. by destruct (omap qi_insert k).
Qed.

Lemma q_addressable_snoc l i tn :
  q_addressable l -> QiMsp (mkMspItem (ii_series i) (ii_ts_msp i) tn) ∈ l -> q_addressable (l ++ [QiInsert i]).
Proof.
  intros Ha Hm pre j post E. destruct post as [|x post] using rev_ind.
  - apply app_inj_tail in E as [<- [= <-]]. by exists tn.
  - rewrite app_comm_cons, app_assoc in E. apply app_inj_tail in E as [-> _]. by apply (Ha pre j post).
Qed.

Lemma q_times_app l k : q_times (l ++ k) = q_times l ++ q_times k.
Proof. unfold q_times. by rewrite omap_app, fmap_app. Qed.

(** A partition and a place in it make the time again. *)
Lemma msp_lsp_time m ts series data tn : 0 <= m -> (MSP_RES_MAX | m) ->
  ii_time (mkInsertItem series (TsNano_to_ts_ms m) (ts - m) data tn) = ts.
Proof.
  intros Hm [k ->]. unfold ii_time, TsNano_to_ts_ms, TsMs_from_ms_u64, TsNano_ms. cbn.
  replace (k * MSP_RES_MAX) with (k * 2000 * 1000000) by (unfold MSP_RES_MAX, SEC, MS, MU; lia).
  rewrite Z.div_mul by done. lia.
Qed.

(** The writer puts the partition and the event behind what is there. *)
Lemma sw_write_spec item st tn now ts l (self : SeriesWriter MspSplitDyn) : 0 <= ts < 2 ^ 63 ->
  match msd_last (sw_msp_split self) with Some m => 0 <= m <= ts /\ (MSP_RES_MAX | m) | None => True end ->
  exists self' st' msps m res, let i := mkInsertItem (sw_series self) (TsNano_to_ts_ms m) (ts - m) (et_into_query_item item tn ts st).2.1 tn in
    sw_write item st tn now ts l self = Ok (self', st', l ++ msps ++ [QiInsert i : QueryItem et_data F], res) /\
    sw_series self' = sw_series self /\ msd_last (sw_msp_split self') = Some m /\ 0 <= m <= ts /\ (MSP_RES_MAX | m) /\
    omap qi_insert msps = [] /\
    (msd_last (sw_msp_split self) = Some m \/ exists tn, QiMsp (mkMspItem (sw_series self) (TsNano_to_ts_ms m) tn) ∈ msps).
Proof.
  intros Ht Hl. unfold sw_write. destruct (et_into_query_item item tn ts st) as [st' [data bytes]].
  destruct (msd_split_spec ts bytes (sw_msp_split self) Ht Hl) as (spl & m & chg & ret & E & Hm & Hb & Hd & Hc & Hr).
  cbn [spl_split MspSplitDyn_split]. rewrite E. cbn [and_then].
  set (new := fun r : TsNano => QiMsp (mkMspItem (sw_series self) (TsNano_to_ts_ms r) tn) : QueryItem et_data F).
  exists (mkSeriesWriter (sw_series self) spl (if chg then ts else sw_evts_on_msp_write self) ts (sw_check_reput_last self)
    (if chg then Some now else sw_msp_put_last self)), st', (from_option (fun r => [new r]) [] ret ++ (if chg then [new m] else [])), m,
    (mkSwWriteRes bytes (if ret is Some _ then 1 else 0)).
  split; [destruct ret, chg; cbn; by rewrite ?app_nil_r, <- ?app_assoc|].
  split_and!; try done; try apply Hb.
  - by destruct ret, chg.
  - destruct chg; [right; exists tn|left; by apply Hc].
    apply elem_of_app. right. by apply list_elem_of_singleton.
Qed.

(** An event later than the last is written. *)
Lemma store_write series G l w item tn now ts :
  store_inv series G l w -> rl_last_insert_ts w < ts < 2 ^ 63 -> (item, ts) ∈ G ->
  exists w' l' res, rl_write_through item tn now ts l w = Ok (w', l', res) /\ rlr_accept res = true /\
    store_inv series G l' w' /\ rl_last_insert_ts w' = ts /\ rl_last_insert_val w' = Some item /\
    rl_min_quiet w' = rl_min_quiet w /\ rl_is_polled w' = rl_is_polled w.
Proof.
  intros Hi Ht HG. destruct Hi as [Hs Ha Hg [Hst Hle] Hlast Hm].
  assert (H0 : 0 <= rl_last_insert_ts w) by (destruct (rl_last_insert_val w); lia).
  unfold rl_write_through.
  destruct (sw_write_spec item (rl_emit_state w) tn now ts l (rl_writer w)) as
    (sw & st' & msps & m & res & E & Hsw & Hlm & Hb & Hd & Hmsps & Hin); [lia| |].
  { destruct (msd_last _); [|done]. destruct Hm as (Hm1 & Hm2 & _). split; [lia|done]. }
  cbv zeta in E. rewrite E. cbn [and_then]. set (i := mkInsertItem _ _ _ _ _) in *.
  assert (Hti : ii_time i = ts) by (apply msp_lsp_time; [lia|done]).
  assert (Htimes : q_times (l ++ msps ++ [QiInsert i]) = q_times l ++ [ts]).
  { rewrite !q_times_app. unfold q_times at 2. rewrite Hmsps. cbn. by rewrite Hti. }
  assert (Hmem : exists tn', QiMsp (mkMspItem series (TsNano_to_ts_ms m) tn') ∈ l ++ msps).
  { destruct Hin as [Hin|[tn' Hin]].
    - rewrite Hin in Hm. destruct Hm as (_ & _ & tn' & Hm). exists tn'. apply elem_of_app. by left.
    - exists tn'. rewrite Hs in Hin. apply elem_of_app. by right. }
  eexists _, _, _. split; [done|]. cbn. split_and!; try done. split; cbn; try done.
  - by rewrite Hsw.
  - rewrite app_assoc. destruct Hmem as [tn' Hmem]. apply (q_addressable_snoc _ _ tn'); [|by rewrite <- Hs in Hmem].
    by apply q_addressable_app_msp.
  - unfold q_given. rewrite !omap_app, Hmsps. apply Forall_app. split; [done|]. apply Forall_singleton.
    exists item, tn, (rl_emit_state w). rewrite Hti. done.
  - rewrite Htimes. split.
    + apply StronglySorted_app_2; [|done|by repeat constructor]. intros x y Hx ->%list_elem_of_singleton.
      rewrite Forall_forall in Hle. specialize (Hle x Hx). lia.
    + apply Forall_app. split; [|by repeat constructor]. eapply Forall_impl; [done|]. cbn. lia.
  - split_and!; [lia|lia|done|]. exists i, tn, (rl_emit_state w).
    rewrite !omap_app, Hmsps, app_nil_l. cbn. by rewrite last_snoc.
  - rewrite Hlm. split; [lia|]. split; [done|]. destruct Hmem as [tn' Hmem].
    exists tn'. rewrite app_assoc. apply elem_of_app. by left.
Qed.

(** What was given stays given. *)
Lemma store_inv_mono series G G' l w : G ⊆ G' -> store_inv series G l w -> store_inv series G' l w.
Proof.
  intros HG [Hs Ha Hg Ht Hl Hm]. split; try done.
  - eapply Forall_impl; [done|]. intros i (item & tn & st & Hin & E). exists item, tn, st. split; [by apply HG|done].
  - destruct (rl_last_insert_val w); [|done]. destruct Hl as (? & ? & ?). split; [done|]. split; [by apply HG|done].
Qed.

(** The writer inside announces partitions again. *)
Lemma store_inv_reput series G l w sw tn : store_inv series G l w ->
  sw_series sw = series -> sw_msp_split sw = sw_msp_split (rl_writer w) ->
  store_inv series G l (rl_set_writer sw w) /\ forall m, store_inv series G (l ++ [QiMsp (mkMspItem series m tn)]) (rl_set_writer sw w).
Proof.
  intros [Hs Ha Hg Ht Hl Hm] E1 E2. split; [split; cbn; rewrite ?E2; done|]. intros m.
  split; cbn; rewrite ?E2, ?q_times_app; cbn; rewrite ?app_nil_r; try done.
  - by apply q_addressable_app_msp.
  - unfold q_given. rewrite omap_app. cbn. by rewrite app_nil_r.
  - unfold q_ends. rewrite omap_app. cbn. by rewrite app_nil_r.
  - destruct (msd_last _); [|done]. destruct Hm as (? & ? & tn' & ?). do 2 (split; [done|]).
    exists tn'. apply elem_of_app. by left.
Qed.

(** ** The three stores *)

Lemma idq_deque_set rt rt' l (q : InsertDeques et_data F) :
  idq_deque rt (idq_set_deque rt' l q) = if decide (rt = rt') then l else idq_deque rt q.
Proof. by destruct rt, rt'. Qed.

Lemma idq_deque_st_rf1 rt l (q : InsertDeques et_data F) : idq_deque rt (idq_set_st_rf1 l q) = idq_deque rt q.
Proof. by destruct rt. Qed.

Lemma rw_state_set rt rt' w (self : RtWriter) : rw_state rt (rw_set_state rt' w self) = if decide (rt = rt') then w else rw_state rt self.
Proof. by destruct rt, rt'. Qed.

Lemma rw_state_set_last rt ts v (self : RtWriter) : rw_state rt (rw_set_last ts v self) = rw_state rt self.
Proof. by destruct rt. Qed.

Definition stores_inv (series : Z) (G : list (et_item * Z)) (q : InsertDeques et_data F) (self : RtWriter) : Prop :=
  forall rt, store_inv series G (idq_deque rt q) (rw_state rt self).

Lemma stores_inv_set series G q self rt l w : stores_inv series G q self -> store_inv series G l w ->
  stores_inv series G (idq_set_deque rt l q) (rw_set_state rt w self).
Proof. intros Hs Hw rt'. rewrite idq_deque_set, rw_state_set. by case_decide. Qed.

(** The fields that the writing to a store leaves alone. *)
Definition rw_same (self self' : RtWriter) : Prop :=
  rw_last_insert_ts self' = rw_last_insert_ts self /\ rw_last_insert_val self' = rw_last_insert_val self /\
  rw_min_quiets self' = rw_min_quiets self /\ rw_do_st_rf1 self' = rw_do_st_rf1 self.

(** A store has the event as its last, or is as it was. *)
Definition store_has (self self' : RtWriter) (rt : RetentionTime) (item : et_item) (ts : Z) (accept : bool) : Prop :=
  if accept then rl_last_insert_ts (rw_state rt self') = ts /\ rl_last_insert_val (rw_state rt self') = Some item
  else rw_state rt self' = rw_state rt self.

Lemma rw_write_inner_spec series G q self rt item tn now ts :
  stores_inv series G q self -> rl_last_insert_ts (rw_state rt self) < ts < 2 ^ 63 -> (item, ts) ∈ G ->
  exists self' q' r, rw_write_inner rt item tn now ts q self = Ok (self', q', r) /\
    stores_inv series G q' self' /\ rw_same self self' /\ store_has self self' rt item ts (wrr_accept r) /\
    (forall rt', rt' <> rt -> rw_state rt' self' = rw_state rt' self).
Proof.
  intros Hi Ht HG. unfold rw_write_inner, rl_write.
  destruct (store_write series G _ _ item tn now ts (Hi rt) Ht HG) as (w & l & res & E & Ha & Hw & Hts & Hv & _).
  assert (Hne : forall w rt', rt' <> rt -> rw_state rt' (rw_set_state rt w self) = rw_state rt' self)
    by (intros w' rt' Hn; rewrite rw_state_set; by case_decide).
  destruct (rl_decide ts (rw_state rt self)); cbn [and_then].
  4:{ rewrite E. cbn [and_then]. eexists _, _, _. split; [done|]. split; [by apply stores_inv_set|]. split; [done|]. split; [|by apply Hne].
      unfold store_has. cbn. rewrite Ha, rw_state_set, decide_True by done. done. }
  all: eexists _, _, _; (split; [done|]); (split; [by apply stores_inv_set|]); (split; [done|]); (split; [|by apply Hne]).
  all: unfold store_has; cbn; by rewrite rw_state_set, decide_True.
Qed.

(** *** The state between the operations *)

Record rw_inv (series : Z) (G : list (et_item * Z)) (q : InsertDeques et_data F) (self : RtWriter) : Prop := {
  ri_stores : stores_inv series G q self;
  ri_last : 0 <= rw_last_insert_ts self < 2 ^ 63;
  ri_le rt : rl_last_insert_ts (rw_state rt self) <= rw_last_insert_ts self;
  ri_val rt v : rl_last_insert_val (rw_state rt self) = Some v ->
    rl_last_insert_ts (rw_state rt self) = rw_last_insert_ts self -> rw_last_insert_val self = Some v;
  ri_some : is_Some (rw_last_insert_val self) -> exists rt, is_Some (rl_last_insert_val (rw_state rt self)) /\
    rl_last_insert_ts (rw_state rt self) = rw_last_insert_ts self
}.

Lemma rw_new_inv series sty shp mq p rf1 st now G : rw_inv series G idq_new (rw_new series sty shp mq p rf1 st now).
Proof.
  split; cbn; try done.
  - intros rt. destruct rt; by apply rl_new_inv.
  - by intros [].
  - by intros [].
Qed.

Lemma stores_inv_mono series G G' q self : G ⊆ G' -> stores_inv series G q self -> stores_inv series G' q self.
Proof. intros HG Hs rt. by eapply store_inv_mono. Qed.

Lemma rw_inv_mono series G G' q self : G ⊆ G' -> rw_inv series G q self -> rw_inv series G' q self.
Proof. intros HG []. split; try done. by eapply stores_inv_mono. Qed.

(** Each store got the event or is as it was. *)
Lemma rw_inv_written series G q q' self s' item ts a : rw_inv series G q self -> rw_last_insert_ts self < ts < 2 ^ 63 ->
  stores_inv series G q' s' -> rw_same self s' ->
  (forall rt, store_has self s' rt item ts (a rt)) ->
  rw_inv series G q' (if a Long || a Medium || a Short then rw_set_last ts (Some item) s' else s').
Proof.
  intros [Hs Hl Hle Hv Hsome] Ht Hs' (E1 & E2 & _) Ha. destruct (a Long || a Medium || a Short) eqn:Eany.
  - assert (Hx : exists rt, a rt = true)
      by (destruct (a Long) eqn:?; [by exists Long|]; destruct (a Medium) eqn:?; [by exists Medium|]; by exists Short).
    split; cbn.
    + intros rt. rewrite rw_state_set_last. apply Hs'.
    + lia.
    + intros rt. rewrite rw_state_set_last. specialize (Ha rt). specialize (Hle rt). unfold store_has in Ha.
      destruct (a rt); [destruct Ha as [-> _]; lia|rewrite Ha; lia].
    + intros rt v. rewrite rw_state_set_last. specialize (Ha rt). specialize (Hle rt). unfold store_has in Ha.
      destruct (a rt); [by destruct Ha as [_ ->]|rewrite Ha; lia].
    + intros _. destruct Hx as [rt Hx]. exists rt. rewrite rw_state_set_last. specialize (Ha rt). unfold store_has in Ha.
      rewrite Hx in Ha. by destruct Ha as [-> ->].
  - assert (Hx : forall rt, rw_state rt s' = rw_state rt self).
    { intros rt. specialize (Ha rt). unfold store_has in Ha. destruct (a rt) eqn:Ert; [|done].
      exfalso. destruct rt; rewrite Ert, ?orb_true_r in Eany; done. }
    split; rewrite ?E1, ?E2; try done.
    + intros rt. rewrite Hx. apply Hle.
    + intros rt. rewrite Hx. apply Hv.
    + intros His. destruct (Hsome His) as [rt Hrt]. exists rt. by rewrite Hx.
Qed.

Lemma rw_write_inv series G q self item tn now ts : rw_inv series G q self -> 0 <= ts < 2 ^ 63 -> (item, ts) ∈ G ->
  exists self' q' r, rw_write item tn now ts q self = Ok (self', q', r) /\ rw_inv series G q' self'.
Proof.
  intros Hi Ht HG. unfold rw_write.
  destruct (Z.ltb_spec ts (rw_last_insert_ts self)) as [|Hge]; [by eexists _, _, _|].
  destruct (Z.eqb_spec ts (rw_last_insert_ts self)) as [|Hne]; [by eexists _, _, _|].
  destruct (negb _); [by eexists _, _, _|]. destruct Hi as [Hs Hl Hle Hv Hsome].
  destruct (rw_write_inner_spec series G q self Long item tn now ts) as (s1 & q1 & r1 & E1 & Hs1 & (Ht1 & Hv1 & Hm1) & Ha1 & Hn1);
    [done|specialize (Hle Long); lia|done|]. rewrite E1. cbn [and_then].
  destruct (rw_write_inner_spec series G q1 s1 Medium item tn now ts) as (s2 & q2 & r2 & E2 & Hs2 & (Ht2 & Hv2 & Hm2) & Ha2 & Hn2);
    [done|rewrite Hn1 by done; specialize (Hle Medium); lia|done|]. rewrite E2. cbn [and_then].
  destruct (rw_write_inner_spec series G q2 s2 Short item tn now ts) as (s3 & q3 & r3 & E3 & Hs3 & (Ht3 & Hv3 & Hm3) & Ha3 & Hn3);
    [done|rewrite Hn2, Hn1 by done; specialize (Hle Short); lia|done|]. rewrite E3. cbn [and_then].
  eexists _, _, _. split; [done|].
  apply (rw_inv_written series G q q3 self s3 item ts
    (fun rt => wrr_accept match rt with Long => r1 | Medium => r2 | Short => r3 end)); [by split|lia|done| |].
  - destruct Hm1, Hm2, Hm3. split_and!; congruence.
  - intros []; unfold store_has in *.
    + by rewrite <- Hn1, <- Hn2.
    + by rewrite Hn3, <- Hn1 by done.
    + by rewrite Hn3, Hn2 by done.
Qed.

(** *** The values of quiet channels *)

Lemma rw_max_tsl_spec self :
  match rw_max_tsl self with
  | Some (tsl, val, rt) =>
      rw_tsl rt self = Some (tsl, val) /\
      (forall rt' t v, rw_tsl rt' self = Some (t, v) -> t <= tsl) /\
      (rt <> Long -> forall t v, rw_tsl Long self = Some (t, v) -> t < tsl) /\
      (rt = Short -> forall t v, rw_tsl Medium self = Some (t, v) -> t < tsl)
  | None => forall rt', rw_tsl rt' self = None
  end.
Proof.
  unfold rw_max_tsl, rw_max_tsl_step. cbn.
  destruct (rw_tsl Long self) as [[tl vl]|] eqn:El, (rw_tsl Medium self) as [[tm vm]|] eqn:Em, (rw_tsl Short self) as [[ts vs]|] eqn:Es;
    cbn; repeat (case_match; cbn in *; simplify_eq); repeat split; intros; simplify_eq;
    repeat match goal with rt : RetentionTime |- _ => destruct rt end; simplify_eq; try lia; done.
Qed.

(** The last value of a store that is behind is written. *)
Lemma rw_force_inv series G q self rt item now ts : rw_inv series G q self ->
  rl_last_insert_ts (rw_state rt self) < ts <= rw_last_insert_ts self -> (item, ts) ∈ G ->
  (ts = rw_last_insert_ts self -> rw_last_insert_val self = Some item) ->
  exists self' q' r, rw_write_inner_force rt item now now ts q self = Ok (self', q', r) /\ rw_inv series G q' self' /\
    rw_same self self' /\ rl_last_insert_ts (rw_state rt self') = ts /\ rl_last_insert_val (rw_state rt self') = Some item.
Proof.
  intros [Hs Hl Hle Hv Hsome] Ht HG Hval. unfold rw_write_inner_force, rl_write_force.
  destruct (store_write series G _ _ item now now ts (Hs rt) ltac:(lia) HG) as (w & l & res & E & _ & Hw & Hts & Hwv & _).
  rewrite E. cbn [and_then]. eexists _, _, _. split; [done|]. rewrite rw_state_set, decide_True by done.
  split; [|by split]. split; cbn; try done.
  - by apply stores_inv_set.
  - intros rt'. rewrite rw_state_set. case_decide; [lia|apply Hle].
  - intros rt' v. rewrite rw_state_set. case_decide; [|apply Hv]. rewrite Hts, Hwv. intros [= ->] E'. by apply Hval.
  - intros His. destruct (Hsome His) as (rt' & Hrv & Hrt). destruct (decide (rt' = rt)) as [->|Hn]; [lia|].
    exists rt'. by rewrite rw_state_set, decide_False.
Qed.

Lemma rw_tsl_given series G q self rt ts v : rw_inv series G q self -> rw_tsl rt self = Some (ts, v) ->
  rl_last_insert_ts (rw_state rt self) = ts /\ rl_last_insert_val (rw_state rt self) = Some v /\
  0 < ts <= rw_last_insert_ts self /\ (v, ts) ∈ G /\ (ts = rw_last_insert_ts self -> rw_last_insert_val self = Some v).
Proof.
  intros [Hs _ Hle Hv _] E. unfold rw_tsl in E. destruct (rl_last_insert_val _) as [v'|] eqn:Ev; [|done]. injection E as <- <-.
  pose proof (si_last _ _ _ _ (Hs rt)) as Hl. rewrite Ev in Hl. destruct Hl as (Hl1 & Hl2 & _).
  split_and!; [done|done|lia|apply Hle|done|]. by apply (Hv rt).
Qed.

(** A store that is behind the last value of another. *)
Lemma rw_behind series G q self rt tsl : rw_inv series G q self -> 0 < tsl ->
  (forall t v, rw_tsl rt self = Some (t, v) -> t < tsl) -> rl_last_insert_ts (rw_state rt self) < tsl.
Proof.
  intros Hi Htsl Hb. pose proof (si_last _ _ _ _ (ri_stores _ _ _ _ Hi rt)) as Hl. unfold rw_tsl in Hb.
  destruct (rl_last_insert_val (rw_state rt self)) as [v|]; [by apply (Hb _ v)|lia].
Qed.

(** The long term store has the last value when it has been quiet for long. *)
Definition rw_settled (tsnow : TsNano) (self self' : RtWriter) : Prop :=
  is_Some (rw_last_insert_val self) -> rw_quiet_over (rw_last_insert_ts self) (mq_lt (rw_min_quiets self)) tsnow = true ->
  rl_last_insert_ts (rw_state Long self') = rw_last_insert_ts self /\
  rl_last_insert_val (rw_state Long self') = rw_last_insert_val self.

Lemma rw_reput_spec series G q self now tsnow : rw_inv series G q self ->
  exists self' q', rw_check_quiet_reput now tsnow q self = Ok (self', q') /\ rw_inv series G q' self' /\ rw_same self self' /\
    rw_settled tsnow self self'.
Proof.
  intros Hi. unfold rw_check_quiet_reput. pose proof (rw_max_tsl_spec self) as Hm.
  assert (Hidle : rw_settled tsnow self self -> exists self' q', @Ok unit _ (self, q) = Ok (self', q') /\ rw_inv series G q' self' /\
    rw_same self self' /\ rw_settled tsnow self self') by (intros HP; by exists self, q).
  destruct (rw_max_tsl self) as [[[tsl val] rt]|].
  2:{ apply Hidle. intros His. destruct (ri_some _ _ _ _ Hi His) as (rt & [v Hv] & _).
      specialize (Hm rt). unfold rw_tsl in Hm. by rewrite Hv in Hm. }
  destruct Hm as (Htsl & Hmax & Hlong & Hmed).
  destruct (rw_tsl_given _ _ _ _ _ _ _ Hi Htsl) as (Hts & Hval & Hpos & HG & Hlast).
  assert (Heq : is_Some (rw_last_insert_val self) -> tsl = rw_last_insert_ts self).
  { intros His. destruct (ri_some _ _ _ _ Hi His) as (rt' & [v Hv] & Hrt).
    assert (rw_last_insert_ts self <= tsl); [|lia]. rewrite <- Hrt. apply (Hmax rt' _ v). unfold rw_tsl. by rewrite Hv. }
  assert (Hforce : forall rt', (forall t v, rw_tsl rt' self = Some (t, v) -> t < tsl) ->
    exists self' q' r, rw_write_inner_force rt' val now now tsl q self = Ok (self', q', r) /\ rw_inv series G q' self' /\
      rw_same self self' /\ rl_last_insert_ts (rw_state rt' self') = tsl /\ rl_last_insert_val (rw_state rt' self') = Some val).
  { intros rt' Hb. apply rw_force_inv; try done. split; [|lia]. eapply rw_behind; [done|lia|done]. }
  assert (Hgo : rt <> Long -> exists self' q', and_then (rw_write_inner_force Long val now now tsl q self) (fun p => Ok p.1) = Ok (self', q') /\
    rw_inv series G q' self' /\ rw_same self self' /\
    rw_settled tsnow self self').
  { intros Hn. destruct (Hforce Long (Hlong Hn)) as (s' & q' & r & E & Hi' & Hsame & Ht' & Hv'). rewrite E.
    exists s', q'. split_and!; try done; try apply Hsame. intros His _. rewrite Ht', Hv'. specialize (Heq His).
    split; [done|]. symmetry. by apply Hlast. }
  destruct rt.
  - destruct (rw_quiet_over tsl (mq_lt _) tsnow) eqn:Eq; [by apply Hgo|].
    destruct (rw_quiet_over tsl (mq_mt _) tsnow).
    + destruct (Hforce Medium (Hmed eq_refl)) as (s' & q' & r & E & Hi' & Hsame & _). rewrite E. exists s', q'.
      split_and!; try done; try apply Hsame. all: intros His; rewrite <- (Heq His), Eq; done.
    + apply Hidle. intros His. by rewrite <- (Heq His), Eq.
  - destruct (rw_quiet_over tsl (mq_lt _) tsnow) eqn:Eq; [by apply Hgo|].
    apply Hidle. intros His. by rewrite <- (Heq His), Eq.
  - apply Hidle. intros His _. rewrite Hts, Hval. specialize (Heq His). split; [done|]. symmetry. by apply Hlast.
Qed.

(** The rest of a tick does nothing. *)
Lemma rl_set_writer_id (w : RateLimitWriter MspSplitDyn) : rl_set_writer (rl_writer w) w = w.
Proof. by destruct w. Qed.

Lemma rw_set_state_id rt (self : RtWriter) : rw_set_state rt (rw_state rt self) self = self.
Proof. by destruct self, rt. Qed.

Lemma idq_set_deque_id rt (q : InsertDeques et_data F) : idq_set_deque rt (idq_deque rt q) q = q.
Proof. by destruct q, rt. Qed.

Lemma rw_set_st_deque_id (self : RtWriter) (q : InsertDeques et_data F) : rw_set_st_deque self (rw_st_deque self q) q = q.
Proof. unfold rw_set_st_deque, rw_st_deque. destruct (rw_do_st_rf1 self); by destruct q. Qed.

Lemma rw_tick_eq now tsnow (q : InsertDeques et_data F) self : rw_tick now tsnow q self = rw_check_quiet_reput now tsnow q self.
Proof.
  unfold rw_tick. destruct (rw_check_quiet_reput now tsnow q self) as [[s q1]|e|]; [|done..]. cbn [and_then].
  unfold rl_tick, sw_tick. cbn [and_then fst snd]. rewrite !rl_set_writer_id, rw_set_st_deque_id.
  pose proof (rw_set_state_id Short s) as E1. cbn [rw_state] in E1. rewrite E1.
  pose proof (rw_set_state_id Medium s) as E2. cbn [rw_state] in E2. rewrite E2.
  pose proof (rw_set_state_id Long s) as E3. cbn [rw_state] in E3. rewrite E3.
  by rewrite !idq_set_deque_id.
Qed.

(** Housekeeping announces the partition at hand again, or does nothing. *)
Definition sw_reput (sw sw' : SeriesWriter MspSplitDyn) (now : Z) (msps : list (QueryItem et_data F)) : Prop :=
  sw_series sw' = sw_series sw /\ sw_msp_split sw' = sw_msp_split sw /\
  (msps = [] \/ exists m, msps = [QiMsp (mkMspItem (sw_series sw) m now)]).

Lemma sw_housekeeping_spec now l (sw : SeriesWriter MspSplitDyn) :
  exists sw' msps n, sw_housekeeping now l sw = Ok (sw', l ++ msps, n) /\ sw_reput sw sw' now msps.
Proof.
  unfold sw_housekeeping. cbn [spl_ts_msp_current MspSplitDyn_split and_then].
  assert (Hno : forall sw', sw_series sw' = sw_series sw -> sw_msp_split sw' = sw_msp_split sw ->
    exists sw'' msps n, @Ok unit _ (sw', l, 0) = Ok (sw'', l ++ msps, n) /\ sw_reput sw sw'' now msps).
  { intros sw' E1 E2. exists sw', [], 0. rewrite app_nil_r. do 3 (split; [done|]). by left. }
  repeat (case_match; cbn [and_then]; try by apply Hno).
  eexists _, _, _. split; [done|]. split; [done|]. split; [done|]. right. by eexists.
Qed.

(** On the queue of the store, or on another one. *)
Lemma rl_housekeeping_spec series G l l1 now w : store_inv series G l w ->
  exists w' msps n, rl_housekeeping now l1 w = Ok (w', l1 ++ msps, n) /\
    store_inv series G l w' /\ store_inv series G (l ++ msps) w' /\
    rl_last_insert_ts w' = rl_last_insert_ts w /\ rl_last_insert_val w' = rl_last_insert_val w.
Proof.
  intros Hi. unfold rl_housekeeping. destruct (sw_housekeeping_spec now l1 (rl_writer w)) as (sw & msps & n & E & E1 & E2 & Hm).
  rewrite E. cbn [and_then]. exists (rl_set_writer sw w), msps, n.
  rewrite (si_series _ _ _ _ Hi) in E1, Hm. destruct (store_inv_reput _ _ _ _ sw now Hi E1 E2) as [Hw Hw'].
  split_and!; try done. destruct Hm as [->|[m ->]]; [by rewrite app_nil_r|apply Hw'].
Qed.

Lemma rw_inv_set series G q self rt l w : rw_inv series G q self -> store_inv series G l w ->
  rl_last_insert_ts w = rl_last_insert_ts (rw_state rt self) -> rl_last_insert_val w = rl_last_insert_val (rw_state rt self) ->
  rw_inv series G (idq_set_deque rt l q) (rw_set_state rt w self).
Proof.
  intros [Hs Hl Hle Hv Hsome] Hw E1 E2. split; try done.
  - by apply stores_inv_set.
  - intros rt'. rewrite rw_state_set. case_decide as Hd; [subst; rewrite E1|]; apply Hle.
  - intros rt' v. rewrite rw_state_set. case_decide as Hd; [subst; rewrite E1, E2|]; apply Hv.
  - intros His. destruct (Hsome His) as [rt' Hrt]. exists rt'. rewrite rw_state_set. case_decide as Hd; [subst; rewrite E1, E2|]; apply Hrt.
Qed.

Lemma rw_housekeeping_inv series G q self now : rw_inv series G q self ->
  exists self' q' n, rw_housekeeping now q self = Ok (self', q', n) /\ rw_inv series G q' self'.
Proof.
  intros Hi. unfold rw_housekeeping.
  destruct (rl_housekeeping_spec series G _ (rw_st_deque self q) now _ (ri_stores _ _ _ _ Hi Short)) as (w1 & k1 & n1 & E1 & H1 & H1' & Ht1 & Hv1).
  change (rw_state_st self) with (rw_state Short self). rewrite E1. cbn [and_then].
  set (s1 := rw_set_state Short w1 self). set (q1 := rw_set_st_deque self (rw_st_deque self q ++ k1) q).
  assert (Hi1 : rw_inv series G q1 s1).
  { unfold q1, rw_set_st_deque, rw_st_deque. destruct (rw_do_st_rf1 self); [|exact (rw_inv_set _ _ _ _ Short _ _ Hi H1' Ht1 Hv1)].
    pose proof (rw_inv_set _ _ _ _ Short _ _ Hi H1 Ht1 Hv1) as Hs. rewrite idq_set_deque_id in Hs.
    destruct Hs as [Hs ? ? ? ?]. split; try done. }
  destruct (rl_housekeeping_spec series G _ (idq_deque Medium q1) now _ (ri_stores _ _ _ _ Hi1 Medium)) as (w2 & k2 & n2 & E2 & _ & H2 & Ht2 & Hv2).
  change (rw_state_mt s1) with (rw_state Medium s1). rewrite E2. cbn [and_then].
  pose proof (rw_inv_set _ _ _ _ Medium _ _ Hi1 H2 Ht2 Hv2) as Hi2.
  set (s2 := rw_set_state Medium w2 s1) in *. set (q2 := idq_set_deque Medium _ q1) in *.
  destruct (rl_housekeeping_spec series G _ (idq_deque Long q2) now _ (ri_stores _ _ _ _ Hi2 Long)) as (w3 & k3 & n3 & E3 & _ & H3 & Ht3 & Hv3).
  change (rw_state_lt s2) with (rw_state Long s2). rewrite E3. cbn [and_then].
  eexists _, _, _. split; [done|]. by apply rw_inv_set.
Qed.

(** ** Any use of a writer *)

Inductive RwOp : Type :=
  | RwWrite (item : et_item) (ts_net now : Z) (tsev : TsNano)
  | RwTick (now : Z) (tsnow : TsNano)
  | RwHousekeeping (now : Z).

Definition rw_step (p : RtWriter * InsertDeques et_data F) (op : RwOp) : outcome unit (RtWriter * InsertDeques et_data F) :=
  match op with
  | RwWrite item tn now ts => let? r := rw_write item tn now ts p.2 p.1 in Ok r.1
  | RwTick now tsnow => rw_tick now tsnow p.2 p.1
  | RwHousekeeping now => let? r := rw_housekeeping now p.2 p.1 in Ok r.1
  end.

Definition rw_run (ops : list RwOp) (p : RtWriter * InsertDeques et_data F) : outcome unit (RtWriter * InsertDeques et_data F) :=
  foldl (fun r op => and_then r (fun p => rw_step p op)) (Ok p) ops.

(** The events given to [write], with their times. *)
Definition rw_given (ops : list RwOp) : list (et_item * Z) :=
  omap (fun op => match op with RwWrite item _ _ ts => Some (item, ts) | _ => None end) ops.

Definition rw_times_ok (ops : list RwOp) : Prop := Forall (fun e => 0 <= e.2 < 2 ^ 63) (rw_given ops).

Lemma rw_step_inv series G op p : rw_inv series G p.2 p.1 -> (forall e, e ∈ rw_given [op] -> e ∈ G /\ 0 <= e.2 < 2 ^ 63) ->
  exists p', rw_step p op = Ok p' /\ rw_inv series G p'.2 p'.1.
Proof.
  intros Hi Hg. destruct op as [item tn now ts|now tsnow|now]; cbn [rw_step].
  - destruct (Hg (item, ts)) as [HG Ht]; [by apply list_elem_of_singleton|].
    destruct (rw_write_inv series G p.2 p.1 item tn now ts Hi Ht HG) as (s' & q' & r & E & Hi').
    rewrite E. by exists (s', q').
  - rewrite rw_tick_eq. destruct (rw_reput_spec series G p.2 p.1 now tsnow Hi) as (s' & q' & E & Hi' & _). by exists (s', q').
  - destruct (rw_housekeeping_inv series G p.2 p.1 now Hi) as (s' & q' & n & E & Hi'). rewrite E. by exists (s', q').
Qed.

Lemma rw_run_inv series G ops p : rw_inv series G p.2 p.1 -> (forall e, e ∈ rw_given ops -> e ∈ G /\ 0 <= e.2 < 2 ^ 63) ->
  exists p', rw_run ops p = Ok p' /\ rw_inv series G p'.2 p'.1.
Proof.
  revert p. induction ops as [|op ops IH]; intros p Hi Hg; [by exists p|].
  destruct (rw_step_inv series G op p Hi) as (p1 & E & Hi1).
  { intros e He. apply Hg. change (op :: ops) with ([op] ++ ops). unfold rw_given. rewrite omap_app. apply elem_of_app. by left. }
  unfold rw_run. cbn [foldl]. change (and_then (Ok p) (fun p => rw_step p op)) with (rw_step p op). rewrite E.
  apply IH; [done|]. intros e He. apply Hg. change (op :: ops) with ([op] ++ ops). unfold rw_given. rewrite omap_app.
  apply elem_of_app. by right.
Qed.

Lemma rw_run_new series sty shp mq p rf1 st now ops : rw_times_ok ops ->
  exists self q, rw_run ops (rw_new series sty shp mq p rf1 st now, idq_new) = Ok (self, q) /\ rw_inv series (rw_given ops) q self.
Proof.
  intros Hok. destruct (rw_run_inv series (rw_given ops) ops (rw_new series sty shp mq p rf1 st now, idq_new)) as ([s q] & E & Hi).
  - apply rw_new_inv.
  - intros e He. split; [done|]. by apply (proj1 (Forall_forall _ _) Hok).
  - by exists s, q.
Qed.

(** C36. A writer is used in any way: events are written at any times, the clock
    ticks, and housekeeping is done. It never fails, and in the queue of each store:
    each event comes after the announcement of its partition; partition and place
    give the time the event was written with, and its value is the one given; the
    times increase strictly. *)
Theorem rw_events_addressable series sty shp mq p rf1 st now ops : rw_times_ok ops ->
  exists self q, rw_run ops (rw_new series sty shp mq p rf1 st now, idq_new) = Ok (self, q) /\
    forall rt, q_addressable (idq_deque rt q) /\ q_given (rw_given ops) (idq_deque rt q) /\ StronglySorted Z.lt (q_times (idq_deque rt q)).
Proof.
  intros Hok. destruct (rw_run_new series sty shp mq p rf1 st now ops Hok) as (self & q & E & Hi).
  exists self, q. split; [done|]. intros rt. destruct (ri_stores _ _ _ _ Hi rt) as [_ Ha Hg [Hs _] _ _]. done.
Qed.

(** C37. Once an event was accepted and then nothing for the quiet time of the long
    term store, a tick leaves the long term store with this event as its last one. *)
Theorem rw_quiet_settles series sty shp mq p rf1 st now ops self q v now' tsnow : rw_times_ok ops ->
  rw_run ops (rw_new series sty shp mq p rf1 st now, idq_new) = Ok (self, q) ->
  rw_last_insert_val self = Some v -> 0 <= mq_lt (rw_min_quiets self) < 2 ^ 63 ->
  rw_last_insert_ts self + mq_lt (rw_min_quiets self) <= tsnow ->
  exists self' q', rw_tick now' tsnow q self = Ok (self', q') /\ q_ends (idq_deque Long q') v (rw_last_insert_ts self).
Proof.
  intros Hok Hrun Hv Hq Ht. destruct (rw_run_new series sty shp mq p rf1 st now ops Hok) as (self0 & q0 & E & Hi).
  rewrite Hrun in E. injection E as <- <-.
  destruct (rw_reput_spec series _ q self now' tsnow Hi) as (self' & q' & E & Hi' & _ & Hs).
  exists self', q'. rewrite rw_tick_eq. split; [done|].
  pose proof (ri_last _ _ _ _ Hi) as Hlast.
  destruct Hs as [Hts Hval]; [by rewrite Hv| |].
  { unfold rw_quiet_over, TsNano_from_ns, TsNano_ns. unfold wrap. rewrite Z.mod_small by lia. apply Z.leb_le. lia. }
  pose proof (si_last _ _ _ _ (ri_stores _ _ _ _ Hi' Long)) as Hl. rewrite Hval, Hv, Hts in Hl. apply Hl.
Qed.

End WriterInv.

(** ** Channel status *)

(** The partitions of a channel status series. The first partition is not
    remembered, so every event announces its partition again, and none is ever
    over. *)
Theorem msf_never_retires (evs : list (TsNano * Z)) : Forall (fun e => 0 <= e.1 < 2 ^ 64) evs ->
  let grid := 1000000 * CHANNEL_STATUS_GRID in
  foldl (fun r e => let? p := r in let? q := msf_split e.1 e.2 p.1 in Ok (q.1, p.2 ++ [q.2])) (Ok (msf_for_channel_status, [])) evs =
  Ok (msf_for_channel_status, (fun e => (e.1 / grid * grid, e.1 mod grid, true, None)) <$> evs).
Proof.
  intros Hev grid.
  assert (Hone : forall e, 0 <= e.1 < 2 ^ 64 ->
    msf_split e.1 e.2 msf_for_channel_status = Ok (msf_for_channel_status, (e.1 / grid * grid, e.1 mod grid, true, None))).
  { intros [ts b] Ht. unfold msf_split, TsMs_to_grid_02, TsNano_to_ts_ms, TsMs_from_ms_u64, TsNano_ms. cbn [fst snd] in *.
    change (msf_grid_dt msf_for_channel_status) with CHANNEL_STATUS_GRID. rewrite u_div_ok by done. cbn [and_then fst].
    rewrite Z.div_div by done. fold grid. pose proof (Z.mul_div_le ts grid ltac:(done)). pose proof (Z.div_pos ts grid ltac:(lia) ltac:(done)).
    rewrite Z.mod_eq by done. assert (Hg : grid = 3600000000000) by done. rewrite Hg in *. generalize dependent (ts / 3600000000000). intros q Hq Hq0.
    change CHANNEL_STATUS_GRID with 3600000. unfold TsMs_ns, TsNano_from_ms, TsNano_delta.
    rewrite (u64_mul_small q) by lia. rewrite u64_mul_small by lia. rewrite u64_sub_small by lia. do 4 f_equal; f_equal; lia. }
  assert (Hfold : forall acc, foldl (fun r e => let? p := r in let? q := msf_split e.1 e.2 p.1 in Ok (q.1, p.2 ++ [q.2]))
    (Ok (msf_for_channel_status, acc)) evs = Ok (msf_for_channel_status, acc ++ ((fun e => (e.1 / grid * grid, e.1 mod grid, true, None)) <$> evs))).
  { induction Hev as [|e evs He Hev IH]; intros acc; [by rewrite app_nil_r|]. cbn [foldl and_then fst snd].
    rewrite Hone by done. cbn [and_then fst snd]. rewrite IH. by rewrite <- app_assoc. }
  apply (Hfold []).
Qed.

(** ** Examples *)

(** Numbers, which are stored as they are. *)
Definition Z_emittable : EmittableType := {|
  et_item := Z;
  et_state := unit;
  et_data := Z;
  et_ts _ := 0;
  et_has_change a b := negb (a =? b);
  et_byte_size _ := 8;
  et_into_query_item self _ _ st := (st, (self, 8))
|}.

#[local] Existing Instance Z_emittable.

(** Quiet times of 0, 1 and 10 seconds; a value every 400 ms, then silence. *)
Definition demo_quiets : MinQuiets := mq_test_mon_1_10.
Definition demo_ops : list RwOp :=
  [RwWrite (5 : et_item) 0 0 (10000 * MS); RwWrite (6 : et_item) 0 0 (10400 * MS); RwTick 0 (10500 * MS);
   RwWrite (6 : et_item) 0 0 (10800 * MS); RwWrite (7 : et_item) 0 0 (10900 * MS); RwHousekeeping (7200000 * MS)].

Lemma demo_times_ok : rw_times_ok demo_ops.
Proof. unfold rw_times_ok. cbn. repeat constructor; cbn; unfold MS, MU; lia. Qed.

Definition demo_new : RtWriter := rw_new 7 F64 Scalar demo_quiets false false tt 0.

Lemma rw_events_addressable_witness :
  rw_times_ok demo_ops /\
  exists self q, rw_run (F := Z) demo_ops (demo_new, idq_new) = Ok (self, q) /\
    forall rt, q_addressable (idq_deque rt q) /\ q_given (rw_given demo_ops) (idq_deque rt q) /\ StronglySorted Z.lt (q_times (idq_deque rt q)).
Proof.
  split; [exact demo_times_ok|].
  exact (rw_events_addressable (F := Z) 7 F64 Scalar demo_quiets false false tt 0 demo_ops demo_times_ok).
Defined.

(** Short gets the three values; a tick gives the last one to Long. *)
Example demo_stores :
  (let? p := rw_run (F := Z) demo_ops (demo_new, idq_new) in
   let? p' := rw_tick 0 (30000 * MS) p.2 p.1 in
   Ok ((fun rt => (ii_val <$> omap qi_insert (idq_deque rt p.2), ii_val <$> omap qi_insert (idq_deque rt p'.2))) <$> [Short; Medium; Long])) =
  Ok [([5; 6; 7], [5; 6; 7]); ([5], [5]); ([5], [5; 7])].
Proof. vm_compute. reflexivity. Qed.

Lemma rw_quiet_settles_witness :
  exists self q self' q', rw_run (F := Z) demo_ops (demo_new, idq_new) = Ok (self, q) /\
    rw_tick 0 (30000 * MS) q self = Ok (self', q') /\ q_ends (idq_deque Long q') (7 : et_item) (rw_last_insert_ts self).
Proof.
  destruct (rw_run (F := Z) demo_ops (demo_new, idq_new)) as [[self q]|e|] eqn:E; [|vm_compute in E; discriminate E..].
  assert (Hf : rw_last_insert_val self = Some 7 /\ rw_last_insert_ts self = 10900 * MS /\ mq_lt (rw_min_quiets self) = 10000 * MS).
  { vm_compute in E. injection E as <- <-. vm_compute. done. }
  destruct Hf as (Hv & Ht & Hq).
  destruct (rw_quiet_settles (H := Z_emittable) (F := Z) 7 F64 Scalar demo_quiets false false tt 0 demo_ops self q 7 0 (30000 * MS) demo_times_ok E Hv)
    as (self' & q' & Htick & Hends); [rewrite Hq; unfold MS, MU; lia|rewrite Hq, Ht; unfold MS, MU; lia|].
  exists self, q, self', q'. exact (conj eq_refl (conj Htick Hends)).
Defined.

Lemma msf_never_retires_witness :
  Forall (fun e : Z * Z => 0 <= e.1 < 2 ^ 64) [(5000000, 8); (7200000000000, 8)] /\
  foldl (fun r e => let? p := r in let? q := msf_split e.1 e.2 p.1 in Ok (q.1, p.2 ++ [q.2])) (Ok (msf_for_channel_status, []))
    [(5000000, 8); (7200000000000, 8)] = Ok (msf_for_channel_status, [(0, 5000000, true, None); (7200000000000, 0, true, None)]).
Proof.
  assert (Hf : Forall (fun e : Z * Z => 0 <= e.1 < 2 ^ 64) [(5000000, 8); (7200000000000, 8)]) by (repeat constructor; cbn; lia).
  split; [exact Hf|]. rewrite (msf_never_retires _ Hf). vm_compute. reflexivity.
Defined.
