(* ===== verification/BinWriter.v ===== *)
(** * Writing bins while events come in

    [BinWriter] of [daqbuf-serieswriter/src/binwriter.rs]: the events of a series are
    binned as they come, the bins are binned again to coarser ones, and what is
    final is put into the queues of the stores, with index entries that say where
    there are bins.

    The code is for [f32] values and so is this. After an error the state of the
    writer is not used any more; what was put into the queues stays there. *)
From Stdlib Require Import ZArith Lia String.
From stdpp Require Import base numbers option strings list.
From S2P Require Import Prelude TimeTypes Msp NetpodTypes Retention Ranges Events Bins Floats Rebin Timeweight Writers.

#[local] Open Scope Z_scope.
#[local] Open Scope rust_scope.

Inductive bw_error : Type :=
  | BwBinning (e : tw_error)
  | BwBinBinning (e : bins_tw_error)
  | BwUnexpectedBinLen
  | BwBinnerNoProgress
  | BwIngestLoopLimit.

Definition bin_len_clamp (dur : DtMs) : PrebinnedPartitioning :=
  if dur <? DtMs_from_ms_u64 (1000 * 2) then Sec1
  else if dur <=? DtMs_from_ms_u64 (1000 * 20) then Sec10
  else if dur <=? DtMs_from_ms_u64 (1000 * 60 * 2) then Min1
  else if dur <=? DtMs_from_ms_u64 (1000 * 60 * 20) then Min10
  else if dur <=? DtMs_from_ms_u64 (1000 * 60 * 60 * 2) then Hour1
  else Day1.

Inductive WriteCntZero : Type := WczEnable | WczDisable.
Definition wcz_default_for_on_the_fly : WriteCntZero := WczDisable.
Definition wcz_enabled (x : WriteCntZero) : bool := match x with WczEnable => true | WczDisable => false end.

Inductive DiscardFirstOutput : Type := DfoEnable | DfoDisable.
Definition dfo_default_for_on_the_fly : DiscardFirstOutput := DfoEnable.
Definition dfo_enabled (x : DiscardFirstOutput) : bool := match x with DfoEnable => true | DfoDisable => false end.

(** The index entry written last. *)
Inductive IndexWritten : Type := IwNone | IwLast (msp lsp : Z).
Definition iw_new : IndexWritten := IwNone.
Definition iw_should_write (iw : IndexWritten) (msp lsp : Z) : bool :=
  match iw with IwLast lmsp llsp => negb (lmsp =? msp) || negb (llsp =? lsp) | IwNone => true end.
Definition iw_mark_written (iw : IndexWritten) (msp lsp : Z) : IndexWritten := IwLast msp lsp.

(** What a binner has besides the binner itself. *)
Record BinnerOut : Type := mkBinnerOut {
  bo_rt : RetentionTime;
  bo_write_zero : WriteCntZero;
  bo_pbp : PrebinnedPartitioning;
  bo_index_written_1 : IndexWritten;
  bo_index_written_2 : option IndexWritten;
  bo_discard_front : Z
}.

Record BinnerStateA : Type := mkBinnerStateA { bsa_binner : BinnedEventsTimeweight (V := F32) (A := AggregatorNumeric) (B := F32); bsa_out : BinnerOut }.
Record BinnerStateB : Type := mkBinnerStateB { bsb_binner : BinnedBinsTimeweight (V := F32) (A := AggBinValTwF32) (B := F32); bsb_out : BinnerOut }.

Record BinWriter : Type := mkBinWriter {
  bw_chname : string;
  bw_cssid : Z;
  bw_sid : Z;
  bw_emit_zero_default : WriteCntZero;
  bw_do_discard_front : DiscardFirstOutput;
  bw_scalar_type : ScalarType;
  bw_shape : Shape;
  bw_evbuf : ContainerEvents F32;
  bw_binner_1st : option BinnerStateA;
  bw_binner_others : list BinnerStateB
}.

(** ** Which binners *)

Definition bw_comb : Type := RetentionTime * PrebinnedPartitioning * WriteCntZero.

Definition BW_DUR_MAX : DtMs := DtMs_from_ms_u64 (1000 * 60 * 60 * 24 * 123).

(** The quiet times of the stores in milliseconds. *)
Definition bw_quiets (mq : MinQuiets) : list (RetentionTime * DtMs) :=
  let ms q := DtMs_from_ms_u64 (wrap 64 (q / 1000000)) in
  [(Short, ms (mq_st mq)); (Medium, ms (mq_mt mq)); (Long, ms (mq_lt mq))].

Definition bw_has_monitor (mq : MinQuiets) : option RetentionTime :=
  foldl (fun acc x => if x.2 <=? 0 then Some x.1 else acc) None (bw_quiets mq).

Definition bw_combs_quiet (mq : MinQuiets) (zero : WriteCntZero) : list bw_comb :=
  map (fun x => (x.1, bin_len_clamp x.2, zero)) (filter (fun x => 0 < x.2 /\ x.2 < BW_DUR_MAX) (bw_quiets mq)).

Definition bw_combs_extend (combs : list bw_comb) (has_monitor : option RetentionTime) (zero : WriteCntZero) : list bw_comb :=
  match last combs with
  | Some l =>
      match l.1.2 with
      | Day1 => removelast combs ++ [(Long, Day1, WczEnable)]
      | Hour1 => removelast combs ++ [(Long, Hour1, l.2); (Long, Day1, WczEnable)]
      | _ => combs ++ [(Long, Hour1, zero); (Long, Day1, WczEnable)]
      end
  | None =>
      match has_monitor with
      | Some Short | Some Medium => [(Short, Min1, zero); (Medium, Hour1, zero); (Long, Day1, WczEnable)]
      | Some Long => [(Medium, Min1, zero); (Long, Hour1, zero); (Long, Day1, WczEnable)]
      | None => [(Long, Day1, WczEnable)]
      end
  end.

Definition str_contains (pat s : string) : bool := match String.index 0 pat s with Some _ => true | None => false end.

(** A channel for tests has bins of count zero in the minutes. *)
Definition bw_comb_test (c : bw_comb) : bw_comb := match c.1.2 with Min1 => (c.1, WczEnable) | _ => c end.

Definition bw_combs (mq : MinQuiets) (is_polled : bool) (zero : WriteCntZero) (chname : string) : list bw_comb :=
  let has_monitor := bw_has_monitor mq in
  let combs := bw_combs_extend (bw_combs_quiet mq zero) has_monitor zero in
  let combs :=
    if str_contains "TEST:MIN10:" chname then map bw_comb_test combs
    else combs in
  if (1 <? Z.of_nat (length combs)) && bool_decide (has_monitor = None) && is_polled then tail combs else combs.

Definition bo_new (c : bw_comb) : BinnerOut :=
  mkBinnerOut c.1.1 c.2 c.1.2 iw_new (if pbp_uses_index_min10 c.1.2 then Some iw_new else None) 0.

Definition bsa_new (beg : TsNano) (c : bw_comb) : outcome bw_error BinnerStateA :=
  let? range := br_from_beg_to_inf beg (pbp_bin_len c.1.2) in
  let binner := tw_new range in
  Ok (mkBinnerStateA (if wcz_enabled c.2 then tw_cnt_zero_enable binner else binner) (bo_new c)).

Definition bsb_new (beg : TsNano) (c : bw_comb) : outcome bw_error BinnerStateB :=
  let? range := br_from_beg_to_inf beg (pbp_bin_len c.1.2) in
  let binner := bb_new range in
  Ok (mkBinnerStateB (if wcz_enabled c.2 then bb_cnt_zero_enable binner else binner) (bo_new c)).

Fixpoint bsb_new_all (beg : TsNano) (cs : list bw_comb) : outcome bw_error (list BinnerStateB) :=
  match cs with
  | [] => Ok []
  | c :: cs => let? st := bsb_new beg c in let? rest := bsb_new_all beg cs in Ok (st :: rest)
  end.

Definition bw_new (beg : TsNano) (mq : MinQuiets) (is_polled : bool) (zero : WriteCntZero) (discard : DiscardFirstOutput)
    (cssid sid : Z) (scalar_type : ScalarType) (shape : Shape) (chname : string) : outcome bw_error BinWriter :=
  let? binners :=
    match bw_combs mq is_polled zero chname with
    | [] => Ok (None, [])
    | c :: cs => let? a := bsa_new beg c in let? bs := bsb_new_all beg cs in Ok (Some a, bs)
    end in
  Ok (mkBinWriter chname cssid sid zero discard scalar_type shape ce_new binners.1 binners.2).

(** ** The rows of a bin *)

Section Rows.
  Context {D : Type}.

(** The index entry of a bin in a partitioning of the index. *)
Definition bw_index_item (series : Z) (pbp_ix pbp : PrebinnedPartitioning) (msp lsp : Z) : QueryItem D F32 :=
  QiBinWriteIndex (mkBinWriteIndex (to_signed 64 series) (to_signed 16 (pbp_db_ix pbp_ix)) (MspU32_to_db_i32 msp) (LspU32_to_db_i32 lsp)
    (to_signed 32 (wrap 32 (pbp_bin_len pbp)))).

Definition bw_index (series : Z) (pbp_ix pbp : PrebinnedPartitioning) (rt : RetentionTime) (ts1 : TsNano) (iw : IndexWritten)
    (q : InsertDeques D F32) : InsertDeques D F32 * IndexWritten :=
  let '(msp, lsp) := pbp_msp_lsp pbp_ix (TsNano_to_ts_ms ts1) in
  if iw_should_write iw msp lsp then (idq_push rt (bw_index_item series pbp_ix pbp msp lsp) q, iw_mark_written iw msp lsp)
  else (q, iw).

Definition f32_NAN : F32 := mkF32 SpecFloat.S754_nan.

Definition bw_row (series : Z) (pbp : PrebinnedPartitioning) (bin_len : DtMs) (b : Bin F32 F32) : QueryItem D F32 :=
  let '(msp, lsp) := pbp_msp_lsp pbp (TsNano_to_ts_ms (bin_ts1 b)) in
  QiTimeBin (mkTimeBin series (to_signed 32 (wrap 32 (DtMs_ms bin_len))) (MspU32_to_db_i32 msp) (LspU32_to_db_i32 lsp)
    (to_signed 64 (bin_n b)) (bin_min b) (bin_max b) (bin_agg b) f32_NAN (bin_lst b)).

(** The row, and the index entries for it. *)
Definition bw_emit (series : Z) (bin_len : DtMs) (b : Bin F32 F32) (o : BinnerOut) (q : InsertDeques D F32) :
    outcome bw_error (InsertDeques D F32 * BinnerOut) :=
  let q := idq_push (bo_rt o) (bw_row series (bo_pbp o) bin_len b) q in
  let? p :=
    if pbp_uses_index_min10 (bo_pbp o) then
      let? iw := unwrap (bo_index_written_2 o) in
      let '(q, iw) := bw_index series Min10 (bo_pbp o) (bo_rt o) (bin_ts1 b) iw q in
      Ok (q, Some iw)
    else Ok (q, bo_index_written_2 o) in
  let '(q, iw2) := p in
  let '(q, iw1) := bw_index series Day1 (bo_pbp o) (bo_rt o) (bin_ts1 b) (bo_index_written_1 o) q in
  Ok (q, mkBinnerOut (bo_rt o) (bo_write_zero o) (bo_pbp o) iw1 iw2 (bo_discard_front o)).

Definition bw_handle_bin (series : Z) (discard : DiscardFirstOutput) (b : Bin F32 F32) (o : BinnerOut) (q : InsertDeques D F32) :
    outcome bw_error (InsertDeques D F32 * BinnerOut) :=
  let bin_len := DtMs_from_ms_u64 (DtNano_ms_u64 (TsNano_delta (bin_ts2 b) (bin_ts1 b))) in
  if negb (bin_fnl b) then Ok (q, o)
  else if (bin_n b =? 0) && negb (wcz_enabled (bo_write_zero o)) then Ok (q, o)
  else if negb (bin_len =? pbp_bin_len (bo_pbp o)) then Err BwUnexpectedBinLen
  else if dfo_enabled discard && (bo_discard_front o <? 1) then
    Ok (q, mkBinnerOut (bo_rt o) (bo_write_zero o) (bo_pbp o) (bo_index_written_1 o) (bo_index_written_2 o) (bo_discard_front o + 1))
  else bw_emit series bin_len b o q.

(** The queues are returned with an error too. *)
Fixpoint bw_handle_bins (series : Z) (discard : DiscardFirstOutput) (bins : list (Bin F32 F32)) (o : BinnerOut) (q : InsertDeques D F32) :
    InsertDeques D F32 * outcome bw_error BinnerOut :=
  match bins with
  | [] => (q, Ok o)
  | b :: bins =>
      match bw_handle_bin series discard b o q with
      | Ok (q, o) => bw_handle_bins series discard bins o q
      | Err e => (q, Err e)
      | Panic => (q, Panic)
      end
  end.

Definition bw_handle_output_ready (series : Z) (discard : DiscardFirstOutput) (bins : ContainerBins F32 F32) (o : BinnerOut)
    (q : InsertDeques D F32) : InsertDeques D F32 * outcome bw_error BinnerOut :=
  bw_handle_bins series discard (cb_zip_iter_2 bins) o q.

(** ** Events come in *)

Definition bw_set_evbuf (c : ContainerEvents F32) (s : BinWriter) : BinWriter :=
  mkBinWriter (bw_chname s) (bw_cssid s) (bw_sid s) (bw_emit_zero_default s) (bw_do_discard_front s) (bw_scalar_type s) (bw_shape s)
    c (bw_binner_1st s) (bw_binner_others s).
Definition bw_set_binners (a : option BinnerStateA) (bs : list BinnerStateB) (s : BinWriter) : BinWriter :=
  mkBinWriter (bw_chname s) (bw_cssid s) (bw_sid s) (bw_emit_zero_default s) (bw_do_discard_front s) (bw_scalar_type s) (bw_shape s)
    (bw_evbuf s) a bs.

Definition bw_ingest (ts_local : TsNano) (val : F32) (s : BinWriter) : BinWriter := bw_set_evbuf (ce_push_back (bw_evbuf s) ts_local val) s.

(** The chain of binners: each one takes the output of the one before it. *)
Fixpoint bw_rebin (series : Z) (discard : DiscardFirstOutput) (bins : ContainerBins F32 F32) (bs : list BinnerStateB) (q : InsertDeques D F32) :
    InsertDeques D F32 * outcome bw_error (list BinnerStateB) :=
  match bs with
  | [] => (q, Ok [])
  | st :: bs =>
      match bb_ingest_bins (bsb_binner st) bins with
      | Ok b =>
          let '(b, out) := bb_output b in
          match out with
          | Some bins =>
              if (cb_len bins =? 0)%nat then (q, Ok (mkBinnerStateB b (bsb_out st) :: bs))
              else
                match bw_handle_output_ready series discard bins (bsb_out st) q with
                | (q, Ok o) =>
                    let '(q, r) := bw_rebin series discard bins bs q in
                    (q, let? bs := r in Ok (mkBinnerStateB b o :: bs))
                | (q, Err e) => (q, Err e)
                | (q, Panic) => (q, Panic)
                end
          | None => (q, Ok (mkBinnerStateB b (bsb_out st) :: bs))
          end
      | Err e => (q, Err (BwBinBinning e))
      | Panic => (q, Panic)
      end
  end.

Definition bw_tick_ingest_and_handle (s : BinWriter) (q : InsertDeques D F32) : InsertDeques D F32 * outcome bw_error BinWriter :=
  match bw_binner_1st s with
  | Some st =>
      let res :=
        let? p := map_err BwBinning (tw_ingest (bsa_binner st) (bw_evbuf s)) in
        let '(consumed, evbuf) :=
          match p.2 with
          | ConsumedAll => (ce_len (bw_evbuf s), ce_clear (bw_evbuf s))
          | ConsumedPart n => (n, ce_truncate_front (bw_evbuf s) (ce_len (bw_evbuf s) - n))
          end in
        let? r := map_err BwBinning (tw_output p.1) in
        Ok (consumed, evbuf, r.1, r.2) in
      match res with
      | Ok (consumed, evbuf, binner, bins) =>
          let s := bw_set_evbuf evbuf s in
          if (0 <? cb_len bins)%nat then
            match bw_handle_output_ready (bw_sid s) (bw_do_discard_front s) bins (bsa_out st) q with
            | (q, Ok o) =>
                let '(q, r) := bw_rebin (bw_sid s) (bw_do_discard_front s) bins (bw_binner_others s) q in
                (q, let? bs := r in Ok (bw_set_binners (Some (mkBinnerStateA binner o)) bs s))
            | (q, Err e) => (q, Err e)
            | (q, Panic) => (q, Panic)
            end
          else if (consumed =? 0)%nat then (q, Err BwBinnerNoProgress)
          else (q, Ok (bw_set_binners (Some (mkBinnerStateA binner (bsa_out st))) (bw_binner_others s) s))
      | Err e => (q, Err e)
      | Panic => (q, Panic)
      end
  | None => (q, Ok (bw_set_evbuf (ce_clear (bw_evbuf s)) s))
  end.

Definition BW_LOOP_MAX : nat := Z.to_nat 20000.

(** So many turns until the limit. *)
Fixpoint bw_tick_ingest_loop (turns : nat) (s : BinWriter) (q : InsertDeques D F32) : InsertDeques D F32 * outcome bw_error BinWriter :=
  if (ce_len (bw_evbuf s) =? 0)%nat then (q, Ok s)
  else
    match bw_tick_ingest_and_handle s q with
    | (q, Ok s) =>
        match turns with
        | O => (q, Err BwIngestLoopLimit)
        | S turns => bw_tick_ingest_loop turns s q
        end
    | r => r
    end.

Definition bw_tick (s : BinWriter) (q : InsertDeques D F32) : InsertDeques D F32 * outcome bw_error BinWriter :=
  if negb (ce_len (bw_evbuf s) =? 0)%nat then bw_tick_ingest_loop BW_LOOP_MAX s q else (q, Ok s).

End Rows.
