(* ===== verification/BinWriterProofs.v ===== *)
(** * Properties of the writer of bins

    [bw_combs_chain]: the binners form a chain in which each can bin what the one
    before it puts out. [bw_bins_written]: which bins are written, under which
    address, and that the index knows of them. *)
From Stdlib Require Import ZArith Lia Sorted String.
From stdpp Require Import base numbers option list strings sorting.
From S2P Require Import Prelude TimeTypes Msp NetpodTypes Retention Ranges Events Bins Floats Rebin Timeweight Writers BinWriter.

#[local] Open Scope Z_scope.
#[local] Open Scope rust_scope.

(** ** The chain of binners *)

Definition comb_pbp (c : bw_comb) : PrebinnedPartitioning := c.1.2.

(** A bin of the second is made of whole bins of the first. *)
Definition comb_refines (a b : bw_comb) : Prop := (pbp_bin_len (comb_pbp a) | pbp_bin_len (comb_pbp b)).

(** The lengths of bins divide each other in their order, the one of [pbp_db_ix]. *)
Lemma pbp_divide p p' : pbp_db_ix p <= pbp_db_ix p' -> (pbp_bin_len p | pbp_bin_len p').
Proof. intros Hle. apply Z.mod_divide; destruct p, p'; cbn in *; try done; lia. Qed.

Definition comb_rank (c : bw_comb) : Z := pbp_db_ix (comb_pbp c).

Lemma bin_len_clamp_mono a b : a <= b -> pbp_db_ix (bin_len_clamp a) <= pbp_db_ix (bin_len_clamp b).
Proof.
  intros Hab. unfold bin_len_clamp, DtMs_from_ms_u64.
  repeat match goal with |- context[if ?c then _ else _] => destruct c eqn:? end; cbn; lia.
Qed.

Lemma StronglySorted_map_filter {A B} (R : A -> A -> Prop) (S : B -> B -> Prop) (f : A -> B) (P : A -> Prop) `{forall x, Decision (P x)} l :
  (forall a b, R a b -> S (f a) (f b)) -> StronglySorted R l -> StronglySorted S (map f (filter P l)).
Proof.
  intros HRS. induction 1 as [|a l Hs IH Ha]; [constructor|]. rewrite filter_cons. case_decide; [|done]. cbn. constructor; [done|].
  apply Forall_map, Forall_forall. intros b Hb%list_elem_of_filter. apply HRS.
  rewrite Forall_forall in Ha. apply Ha, Hb.
Qed.

Definition comb_le (a b : bw_comb) : Prop := comb_rank a <= comb_rank b.

Lemma bw_combs_quiet_sorted mq zero : 0 <= mq_st mq <= mq_mt mq -> mq_mt mq <= mq_lt mq < 2 ^ 64 ->
  StronglySorted comb_le (bw_combs_quiet mq zero).
Proof.
  intros H1 H2. unfold bw_combs_quiet.
  apply (StronglySorted_map_filter (fun a b : RetentionTime * DtMs => a.2 <= b.2)).
  { intros a b Hab. apply bin_len_clamp_mono. exact Hab. }
  unfold bw_quiets, DtMs_from_ms_u64, wrap. cbn [snd].
  assert (Hm : forall x, 0 <= x < 2 ^ 64 -> (x / 1000000) mod 2 ^ 64 = x / 1000000).
  { intros x Hx. apply Z.mod_small. split; [apply Z.div_pos; lia|]. apply Z.div_lt_upper_bound; lia. }
  rewrite !Hm by lia.
  repeat constructor; cbn; apply Z.div_le_mono; lia.
Qed.

(** What the list ends with. *)
Lemma comb_le_day1 a r z : comb_le a (r, Day1, z).
Proof. unfold comb_le, comb_rank, comb_pbp. cbn. by destruct (a.1.2). Qed.

(** The last element is replaced by one that is no smaller, or one is added. *)
Lemma comb_sorted_replace pre l y : StronglySorted comb_le (pre ++ [l]) -> comb_le l y -> StronglySorted comb_le (pre ++ [y]).
Proof.
  intros (Hx & Hpre & _)%StronglySorted_app Hle. apply StronglySorted_app. split_and!; [|done|by repeat constructor].
  intros a b Ha ->%list_elem_of_singleton. specialize (Hx a l Ha ltac:(by apply list_elem_of_singleton)). unfold comb_le in *. lia.
Qed.

Lemma comb_sorted_add pre l y : StronglySorted comb_le (pre ++ [l]) -> comb_le l y -> StronglySorted comb_le ((pre ++ [l]) ++ [y]).
Proof.
  intros Hs Hle. apply StronglySorted_app. split_and!; [|done|by repeat constructor].
  apply StronglySorted_app in Hs as (Hx & _ & _).
  intros a b [Ha| ->%list_elem_of_singleton]%elem_of_app ->%list_elem_of_singleton; [|done].
  specialize (Hx a l Ha ltac:(by apply list_elem_of_singleton)). unfold comb_le in *. lia.
Qed.

Lemma snoc2 {A} (l : list A) a b : l ++ [a; b] = (l ++ [a]) ++ [b].
Proof. by rewrite <- app_assoc. Qed.

Lemma bw_combs_extend_sorted combs mon zero : StronglySorted comb_le combs ->
  StronglySorted comb_le (bw_combs_extend combs mon zero) /\
  exists front, bw_combs_extend combs mon zero = front ++ [(Long, Day1, WczEnable)].
Proof.
  intros Hs. unfold bw_combs_extend. destruct (last combs) as [l|] eqn:El.
  - apply last_Some in El as [pre ->]. rewrite removelast_last.
    pose proof (comb_sorted_replace pre l) as Hrep. pose proof (comb_sorted_add pre) as Hadd.
    assert (Hday : forall pre x, StronglySorted comb_le (pre ++ [x]) -> StronglySorted comb_le ((pre ++ [x]) ++ [(Long, Day1, WczEnable)]))
      by (intros pre' x Hx; apply comb_sorted_add; [done|apply comb_le_day1]).
    assert (Hhour : forall z, pbp_db_ix (comb_pbp l) <= 4 -> StronglySorted comb_le (((pre ++ [l]) ++ [(Long, Hour1, z)]) ++ [(Long, Day1, WczEnable)])).
    { intros z Hl. apply Hday. apply Hadd; [done|]. unfold comb_le, comb_rank. cbn. lia. }
    destruct l as [[rt pbp] z]. destruct pbp; cbn [fst snd]; rewrite ?snoc2; (split; [|by eexists]);
      first [by apply Hhour|apply Hday; by apply (Hrep (Long, Hour1, z))|by apply (Hrep (Long, Day1, WczEnable))].
  - destruct mon as [[]|]; (split; [by repeat constructor|]); [by exists [(Short, Min1, zero); (Medium, Hour1, zero)]..|
      by exists [(Medium, Min1, zero); (Long, Hour1, zero)]|by exists []].
Qed.

Lemma comb_le_refines a b : comb_le a b -> comb_refines a b.
Proof. apply pbp_divide. Qed.

(** The binners of a writer, for quiet times that do not decrease from the short
    to the long term store: there is one for days at the end, which writes to the
    long term store and with bins of count zero, and the bins of each binner are
    made of whole bins of every binner before it. *)
Theorem bw_combs_chain mq is_polled zero chname : 0 <= mq_st mq <= mq_mt mq -> mq_mt mq <= mq_lt mq < 2 ^ 64 ->
  StronglySorted comb_refines (bw_combs mq is_polled zero chname) /\
  exists front, bw_combs mq is_polled zero chname = front ++ [(Long, Day1, WczEnable)].
Proof.
  intros H1 H2. unfold bw_combs.
  destruct (bw_combs_extend_sorted (bw_combs_quiet mq zero) (bw_has_monitor mq) zero (bw_combs_quiet_sorted mq zero H1 H2)) as [Hs [front E]].
  set (combs := bw_combs_extend _ _ _) in *.
  assert (Ht : StronglySorted comb_le (map bw_comb_test combs) /\ exists front, map bw_comb_test combs = front ++ [(Long, Day1, WczEnable)]).
  { split; [|rewrite E, map_app; by eexists]. clear E. induction Hs as [|c l _ IH Hc]; [constructor|]. cbn. constructor; [done|].
    apply Forall_map. eapply Forall_impl; [done|]. intros c' Hle.
    assert (Hrank : forall c, comb_rank (bw_comb_test c) = comb_rank c) by (intros [[? []] ?]; done).
    unfold comb_le. by rewrite !Hrank. }
  set (combs' := if str_contains "TEST:MIN10:" chname then map bw_comb_test combs else combs).
  assert (Hc : StronglySorted comb_le combs' /\ exists front, combs' = front ++ [(Long, Day1, WczEnable)])
    by (unfold combs'; destruct (str_contains _ _); [done|by split; [|exists front]]).
  clearbody combs'. destruct Hc as [Hs' [front' ->]].
  assert (Hall : forall l, StronglySorted comb_le l -> StronglySorted comb_refines l).
  { induction 1; constructor; [done|]. eapply Forall_impl; [done|]. intros c'. apply comb_le_refines. }
  destruct (_ && _) eqn:Econd; [|split; [by apply Hall|by exists front']].
  destruct front' as [|c front']; cbn; [done|]. split; [|by exists front'].
  apply Hall. by apply StronglySorted_inv in Hs' as [Hs' _].
Qed.

Lemma bw_combs_chain_witness :
  StronglySorted comb_refines (bw_combs (mkMinQuiets 0 (30 * SEC) (30 * MIN)) true WczDisable "x") /\
  exists front, bw_combs (mkMinQuiets 0 (30 * SEC) (30 * MIN)) true WczDisable "x" = front ++ [(Long, Day1, WczEnable)].
Proof.
  apply (bw_combs_chain (mkMinQuiets 0 (30 * SEC) (30 * MIN)) true WczDisable "x"); cbn; unfold MIN, SEC, MS, MU; lia.
Defined.

Example bw_combs_demo : bw_combs (mkMinQuiets 0 (30 * SEC) (30 * MIN)) true WczDisable "x" =
  [(Medium, Min1, WczDisable); (Long, Hour1, WczDisable); (Long, Day1, WczEnable)].
Proof. vm_compute. reflexivity. Qed.

(** ** The rows *)

Section RowsProofs.
  Context {D : Type}.

(** A bin of the grid of a partitioning. *)
Definition bin_on_grid (pbp : PrebinnedPartitioning) (b : Bin F32 F32) : Prop :=
  0 <= bin_ts1 b /\ bin_ts2 b = bin_ts1 b + 1000000 * pbp_bin_len pbp /\ bin_ts2 b < 2 ^ 63 /\
  (1000000 * pbp_bin_len pbp | bin_ts1 b).

(** The bins that are to be written, apart from the first one. *)
Definition bin_kept (zero : WriteCntZero) (b : Bin F32 F32) : bool := bin_fnl b && (negb (bin_n b =? 0) || wcz_enabled zero).

(** The start of a row by its address. *)
Definition row_ts_ms (pbp : PrebinnedPartitioning) (r : TimeBinSimpleF32V02 F32) : Z :=
  pbp_msp_lsp_to_ts pbp (MspU32_from_db_i32 (tb_msp r)) (LspU32_from_db_i32 (tb_off r)).

Definition qi_row (x : QueryItem D F32) : option (TimeBinSimpleF32V02 F32) := match x with QiTimeBin r => Some r | _ => None end.

(** What a row says of a bin. *)
Definition row_of (series : Z) (pbp : PrebinnedPartitioning) (b : Bin F32 F32) (r : TimeBinSimpleF32V02 F32) : Prop :=
  tb_series r = series /\ tb_binlen r = pbp_bin_len pbp /\ 1000000 * row_ts_ms pbp r = bin_ts1 b /\
  tb_cnt r = to_signed 64 (bin_n b) /\ tb_min r = bin_min b /\ tb_max r = bin_max b /\ tb_avg r = bin_agg b /\ tb_lst r = bin_lst b.

(** An index entry of the series, of a partitioning of the index, for bins of a length. *)
Definition entry_at (series : Z) (pbp_ix pbp : PrebinnedPartitioning) (e : BinWriteIndexV04) : Prop :=
  bi_series e = to_signed 64 series /\ pbp_from_db_ix (bi_pbp e) = Ok pbp_ix /\ bi_binlen e = pbp_bin_len pbp.

Definition entry_addr (e : BinWriteIndexV04) : Z * Z := (MspU32_from_db_i32 (bi_msp e), LspU32_from_db_i32 (bi_lsp e)).

(** The entry says that there are bins in the cell of the index in which the bin
    begins: its address, read as the readers of the index do, gives that cell. *)
Definition entry_of (series : Z) (pbp_ix pbp : PrebinnedPartitioning) (b : Bin F32 F32) (e : BinWriteIndexV04) : Prop :=
  let '(msp, lsp) := entry_addr e in
  let cell := 1000000 * pbp_msp_lsp_to_ts pbp_ix msp lsp in
  entry_at series pbp_ix pbp e /\ pbp_addr_ok pbp_ix msp lsp /\
  (1000000 * pbp_bin_len pbp_ix | cell) /\ cell <= bin_ts1 b < cell + 1000000 * pbp_bin_len pbp_ix.

(** An index entry of a bin is in the queue. *)
Definition bin_indexed (series : Z) (pbp_ix pbp : PrebinnedPartitioning) (b : Bin F32 F32) (l : list (QueryItem D F32)) : Prop :=
  exists e, QiBinWriteIndex e ∈ l /\ entry_of series pbp_ix pbp b e.

(** The entry that is remembered as written last is in the queue. *)
Definition iw_ok (series : Z) (pbp_ix pbp : PrebinnedPartitioning) (iw : IndexWritten) (l : list (QueryItem D F32)) : Prop :=
  match iw with
  | IwNone => True
  | IwLast msp lsp => exists e, QiBinWriteIndex e ∈ l /\ entry_at series pbp_ix pbp e /\ entry_addr e = (msp, lsp)
  end.

(** What is put out: rows, and index entries of the bins [bs]. *)
Definition item_of (series : Z) (pbp : PrebinnedPartitioning) (bs : list (Bin F32 F32)) (x : QueryItem D F32) : Prop :=
  match x with
  | QiTimeBin _ => True
  | QiBinWriteIndex e =>
      exists b, b ∈ bs /\
        (entry_of series Day1 pbp b e \/ (pbp_uses_index_min10 pbp = true /\ entry_of series Min10 pbp b e))
  | _ => False
  end.

Record bo_inv (series : Z) (o : BinnerOut) (l : list (QueryItem D F32)) : Prop := {
  bo_inv_1 : iw_ok series Day1 (bo_pbp o) (bo_index_written_1 o) l;
  bo_inv_2 : if pbp_uses_index_min10 (bo_pbp o) then exists iw, bo_index_written_2 o = Some iw /\ iw_ok series Min10 (bo_pbp o) iw l else True;
  bo_inv_n : 0 <= bo_discard_front o
}.

Lemma bo_new_inv series c l : bo_inv series (bo_new c) l.
Proof. split; cbn; try done. destruct (pbp_uses_index_min10 _); [by eexists|done]. Qed.

(** A time in nanoseconds below [2^63] has an address in each partitioning. *)
Lemma pbp_ts_ok_ns p ts : 0 <= ts < 2 ^ 63 -> pbp_ts_ok p (ts / 1000000).
Proof.
  intros Ht. assert (0 <= ts / 1000000 < 2 ^ 44) by (split; [apply Z.div_pos; lia|apply Z.div_lt_upper_bound; lia]).
  unfold pbp_ts_ok, in_u. destruct p; cbn [pbp_bin_len pbp_patch_len]; lia.
Qed.

(** The address of a time on the grid leads back to it. *)
Lemma pbp_grid_round p k : let ms := k * pbp_bin_len p in pbp_ts_ok p ms ->
  let '(msp, lsp) := pbp_msp_lsp p ms in in_u 32 msp /\ in_u 32 lsp /\ pbp_msp_lsp_to_ts p msp lsp = ms.
Proof.
  intros ms Hok. pose proof (pbp_msp_lsp_eq p ms Hok) as Hq. destruct (pbp_msp_lsp p ms) as [m l].
  destruct Hq as (Ha & Hm & Hl). pose proof (pbp_bin_len_pos p) as Hb. pose proof (pbp_patch_len_bound p) as Hpl.
  split; [apply Ha|]. split; [destruct Ha as (_ & ? & _); unfold in_u; lia|].
  rewrite (proj1 (pbp_msp_lsp_to_ts_eq p m l Ha)).
  assert (pbp_patch_len p * m + l = ms / pbp_bin_len p) as ->.
  { rewrite Hm, Hl, <- Z.div_div by lia. symmetry. apply Z.div_mod. lia. }
  unfold ms. rewrite Z.div_mul by lia. lia.
Qed.

(** The address of a bin. *)
Lemma bw_row_spec series pbp b : bin_on_grid pbp b ->
  exists r, bw_row (D := D) series pbp (pbp_bin_len pbp) b = QiTimeBin r /\ row_of series pbp b r.
Proof.
  intros (H0 & H2 & Hlt & [k Hk]). unfold bw_row.
  assert (Hms : TsNano_to_ts_ms (bin_ts1 b) = k * pbp_bin_len pbp).
  { unfold TsNano_to_ts_ms, TsMs_from_ms_u64, TsNano_ms. rewrite Hk.
    replace (k * (1000000 * pbp_bin_len pbp)) with (k * pbp_bin_len pbp * 1000000) by lia. by apply Z.div_mul. }
  pose proof (pbp_bin_len_pos pbp) as Hb.
  pose proof (pbp_ts_ok_ns pbp (bin_ts1 b) ltac:(lia)) as Hok. change (bin_ts1 b / 1000000) with (TsNano_to_ts_ms (bin_ts1 b)) in Hok.
  rewrite Hms in Hok |- *. pose proof (pbp_grid_round pbp k Hok) as Hr.
  destruct (pbp_msp_lsp pbp (k * pbp_bin_len pbp)) as [msp lsp]. destruct Hr as (Hm & Hl & Hr).
  eexists. split; [done|]. unfold row_of. cbn [tb_series tb_binlen tb_cnt tb_min tb_max tb_avg tb_lst].
  split_and!; try done; [by destruct pbp|].
  unfold row_ts_ms, MspU32_to_db_i32, MspU32_from_db_i32, LspU32_to_db_i32, LspU32_from_db_i32. cbn [tb_msp tb_off].
  rewrite !to_signed_wrap by done. rewrite Hr, Hk. lia.
Qed.

Lemma idq_push_deque rt rt' (x : QueryItem D F32) q :
  idq_deque rt' (idq_push rt x q) = if decide (rt' = rt) then idq_deque rt q ++ [x] else idq_deque rt' q.
Proof. by destruct rt, rt'. Qed.

(** What the item that the writer makes says. *)
Lemma bw_index_item_spec series pbp_ix pbp msp lsp : in_u 32 msp -> in_u 32 lsp ->
  exists e, bw_index_item (D := D) series pbp_ix pbp msp lsp = QiBinWriteIndex e /\
    entry_at series pbp_ix pbp e /\ entry_addr e = (msp, lsp).
Proof.
  intros Hm Hl. eexists. split; [done|]. split.
  - split; [done|]. cbn [bi_pbp bi_binlen]. by destruct pbp_ix, pbp.
  - unfold entry_addr, MspU32_to_db_i32, MspU32_from_db_i32, LspU32_to_db_i32, LspU32_from_db_i32. cbn [bi_msp bi_lsp].
    by rewrite !to_signed_wrap.
Qed.

(** The entry at the address of the bin's begin is one of the bin. *)
Lemma entry_of_addr series pbp_ix pbp b e : 0 <= bin_ts1 b < 2 ^ 63 ->
  entry_at series pbp_ix pbp e -> entry_addr e = pbp_msp_lsp pbp_ix (TsNano_to_ts_ms (bin_ts1 b)) -> entry_of series pbp_ix pbp b e.
Proof.
  intros Hb He Ha. unfold entry_of. rewrite Ha. pose proof (pbp_ts_ok_ns pbp_ix (bin_ts1 b) Hb) as Hok.
  change (bin_ts1 b / 1000000) with (TsNano_to_ts_ms (bin_ts1 b)) in Hok.
  pose proof (pbp_msp_lsp_bin pbp_ix _ Hok) as Hc. destruct (pbp_msp_lsp pbp_ix _) as [msp lsp]. destruct Hc as (Haddr & Hc & _).
  split; [done|]. split; [done|]. rewrite (proj1 (pbp_msp_lsp_to_ts_eq pbp_ix msp lsp Haddr)) in *.
  split; [exists (pbp_patch_len pbp_ix * msp + lsp); lia|].
  unfold TsNano_to_ts_ms, TsMs_from_ms_u64, TsNano_ms in Hc. pose proof (Z.div_mod (bin_ts1 b) 1000000 ltac:(lia)).
  pose proof (Z.mod_pos_bound (bin_ts1 b) 1000000 ltac:(lia)). lia.
Qed.

(** The index knows of the bin; only entries of the bin are added, to one queue. *)
Lemma bw_index_spec series pbp_ix pbp rt b iw (q : InsertDeques D F32) : 0 <= bin_ts1 b < 2 ^ 63 ->
  iw_ok series pbp_ix pbp iw (idq_deque rt q) ->
  let '(q', iw') := bw_index series pbp_ix pbp rt (bin_ts1 b) iw q in
  exists out, idq_deque rt q' = idq_deque rt q ++ out /\ omap qi_row out = [] /\ (forall rt', rt' <> rt -> idq_deque rt' q' = idq_deque rt' q) /\
    iw_ok series pbp_ix pbp iw' (idq_deque rt q') /\ bin_indexed series pbp_ix pbp b (idq_deque rt q') /\
    Forall (fun x => exists e, x = QiBinWriteIndex e /\ entry_of series pbp_ix pbp b e) out.
Proof.
  intros Hb Hok. pose proof (entry_of_addr series pbp_ix pbp b) as Hof. unfold bw_index, bin_indexed.
  pose proof (pbp_msp_lsp_eq pbp_ix _ (pbp_ts_ok_ns pbp_ix (bin_ts1 b) Hb)) as Haddr.
  change (bin_ts1 b / 1000000) with (TsNano_to_ts_ms (bin_ts1 b)) in Haddr.
  destruct (pbp_msp_lsp pbp_ix _) as [msp lsp]. destruct Haddr as ((Hm & Hl & _) & _). pose proof (pbp_patch_len_bound pbp_ix) as Hpl.
  destruct (iw_should_write iw msp lsp) eqn:Ew.
  - destruct (bw_index_item_spec series pbp_ix pbp msp lsp Hm) as (e & -> & He & Ha); [unfold in_u; lia|].
    specialize (Hof e Hb He Ha). exists [QiBinWriteIndex e]. rewrite idq_push_deque, decide_True by done.
    assert (Hin : QiBinWriteIndex e ∈ idq_deque rt q ++ [QiBinWriteIndex e])
      by (apply elem_of_app; right; by apply list_elem_of_singleton).
    split_and!; [done|done| |by exists e|by exists e|by repeat constructor; exists e].
    intros rt' Hn. by rewrite idq_push_deque, decide_False.
  - exists []. rewrite app_nil_r. split_and!; try done.
    destruct iw as [|lmsp llsp]; [done|]. cbn in Ew. apply orb_false_iff in Ew as [Em El].
    apply negb_false_iff, Z.eqb_eq in Em, El. subst. destruct Hok as (e & Hin & He & Ha). exists e. split; [done|]. by apply Hof.
Qed.

(** More entries do no harm. *)
Lemma iw_ok_app series pbp_ix pbp iw l k : iw_ok series pbp_ix pbp iw l -> iw_ok series pbp_ix pbp iw (l ++ k).
Proof. destruct iw; [done|]. intros (e & Hin & H). exists e. split; [apply elem_of_app; by left|done]. Qed.

Lemma bin_indexed_app series pbp_ix pbp b l k : bin_indexed series pbp_ix pbp b l -> bin_indexed series pbp_ix pbp b (l ++ k).
Proof. intros (e & Hin & H). exists e. split; [apply elem_of_app; by left|done]. Qed.

Lemma item_of_mono series pbp bs bs' x : (forall b, b ∈ bs -> b ∈ bs') -> item_of series pbp bs x -> item_of series pbp bs' x.
Proof. intros Hsub. destruct x; try done. intros (b & Hb & He). exists b. auto. Qed.

(** The index entries that a partitioning needs. *)
Definition bin_known (series : Z) (pbp : PrebinnedPartitioning) (b : Bin F32 F32) (l : list (QueryItem D F32)) : Prop :=
  bin_indexed series Day1 pbp b l /\ (pbp_uses_index_min10 pbp = true -> bin_indexed series Min10 pbp b l).

Lemma bin_known_app series pbp b l k : bin_known series pbp b l -> bin_known series pbp b (l ++ k).
Proof. intros [H1 H2]. split; [by apply bin_indexed_app|]. intros Hu. by apply bin_indexed_app, H2. Qed.

(** Only the queue of a retention time grows. *)
Definition idq_grows (rt : RetentionTime) (q q' : InsertDeques D F32) (out : list (QueryItem D F32)) : Prop :=
  idq_deque rt q' = idq_deque rt q ++ out /\ forall rt', rt' <> rt -> idq_deque rt' q' = idq_deque rt' q.

Lemma idq_grows_refl rt q : idq_grows rt q q [].
Proof. split; [by rewrite app_nil_r|done]. Qed.

Lemma idq_grows_trans rt q q1 q2 o1 o2 : idq_grows rt q q1 o1 -> idq_grows rt q1 q2 o2 -> idq_grows rt q q2 (o1 ++ o2).
Proof. intros [E1 F1] [E2 F2]. split; [by rewrite E2, E1, app_assoc|]. intros rt' Hn. by rewrite F2, F1. Qed.

(** What the writing of bins leaves alone. *)
Definition bo_same (o o' : BinnerOut) : Prop := bo_rt o' = bo_rt o /\ bo_pbp o' = bo_pbp o /\ bo_write_zero o' = bo_write_zero o.

Lemma bw_emit_min10 series b o (q : InsertDeques D F32) : 0 <= bin_ts1 b < 2 ^ 63 -> bo_inv series o (idq_deque (bo_rt o) q) ->
  exists q' iw2 out,
    (if pbp_uses_index_min10 (bo_pbp o) then
       let? iw := unwrap (bo_index_written_2 o) in
       let '(q, iw) := bw_index series Min10 (bo_pbp o) (bo_rt o) (bin_ts1 b) iw q in Ok (q, Some iw)
     else Ok (q, bo_index_written_2 o)) = @Ok bw_error _ (q', iw2) /\
    idq_grows (bo_rt o) q q' out /\ omap qi_row out = [] /\
    (if pbp_uses_index_min10 (bo_pbp o) then exists iw, iw2 = Some iw /\ iw_ok series Min10 (bo_pbp o) iw (idq_deque (bo_rt o) q') else True) /\
    (pbp_uses_index_min10 (bo_pbp o) = true -> bin_indexed series Min10 (bo_pbp o) b (idq_deque (bo_rt o) q')) /\
    Forall (item_of series (bo_pbp o) [b]) out.
Proof.
  intros Hb [_ H2 _]. destruct (pbp_uses_index_min10 (bo_pbp o)) eqn:Hu.
  - destruct H2 as (iw & -> & Hok). cbn [unwrap and_then]. pose proof (bw_index_spec series Min10 (bo_pbp o) (bo_rt o) b iw q Hb Hok) as Hi.
    destruct (bw_index _ _ _ _ _ _ _) as [q' iw']. destruct Hi as (out & E & Ho & Hn & Hok' & Hin & Hall).
    exists q', (Some iw'), out. split_and!; try done; [by exists iw'|].
    eapply Forall_impl; [exact Hall|]. intros x (e & -> & He). exists b. split; [by apply list_elem_of_singleton | by right].
  - exists q, (bo_index_written_2 o), []. split; [done|]. split; [apply idq_grows_refl|done].
Qed.

Lemma bw_emit_spec series b o (q : InsertDeques D F32) : bo_inv series o (idq_deque (bo_rt o) q) -> bin_on_grid (bo_pbp o) b ->
  exists q' o' out r, bw_emit series (pbp_bin_len (bo_pbp o)) b o q = Ok (q', o') /\
    idq_grows (bo_rt o) q q' out /\ omap qi_row out = [r] /\ row_of series (bo_pbp o) b r /\
    bo_same o o' /\ bo_discard_front o' = bo_discard_front o /\ bo_inv series o' (idq_deque (bo_rt o) q') /\
    bin_known series (bo_pbp o) b (idq_deque (bo_rt o) q') /\ Forall (item_of series (bo_pbp o) [b]) out.
Proof.
  intros Hi Hb. unfold bw_emit. assert (Hb63 : 0 <= bin_ts1 b < 2 ^ 63).
  { destruct Hb as (H0 & H2 & Hlt & _). pose proof (pbp_bin_len_pos (bo_pbp o)). lia. } destruct (bw_row_spec series (bo_pbp o) b Hb) as (r & -> & Hr).
  set (q0 := idq_push _ _ q).
  assert (G0 : idq_grows (bo_rt o) q q0 [QiTimeBin r]).
  { unfold q0. split; [by rewrite idq_push_deque, decide_True|]. intros rt' Hn. by rewrite idq_push_deque, decide_False. }
  assert (Hi0 : bo_inv series o (idq_deque (bo_rt o) q0)).
  { destruct Hi as [H1 H2 H3]. rewrite (proj1 G0). split; [by apply iw_ok_app| |done].
    destruct (pbp_uses_index_min10 _); [|done]. destruct H2 as (iw & ? & ?). exists iw. split; [done|by apply iw_ok_app]. }
  destruct (bw_emit_min10 series b o q0 Hb63 Hi0) as (q1 & iw2 & out1 & -> & G1 & Ho1 & H2 & Hin2 & Hall1). cbn [and_then].
  assert (H1 : iw_ok series Day1 (bo_pbp o) (bo_index_written_1 o) (idq_deque (bo_rt o) q1)).
  { rewrite (proj1 G1). apply iw_ok_app. apply Hi0. }
  pose proof (bw_index_spec series Day1 (bo_pbp o) (bo_rt o) b (bo_index_written_1 o) q1 Hb63 H1) as Hx.
  destruct (bw_index _ _ _ _ _ _ _) as [q2 iw1]. destruct Hx as (out2 & E2 & Ho2 & Hn2 & Hok2 & Hin1 & Hall2).
  eexists _, _, ([QiTimeBin r] ++ out1 ++ out2), r. split; [done|].
  split; [eapply idq_grows_trans; [done|]; by eapply idq_grows_trans|].
  split; [by rewrite !omap_app, Ho1, Ho2|]. do 3 (split; [done|]). split.
  - destruct Hi as [_ _ Hn]. split; cbn; try done. destruct (pbp_uses_index_min10 _); [|done]. destruct H2 as (iw & -> & Hok).
    exists iw. split; [done|]. rewrite E2. by apply iw_ok_app.
  - split; [split; [done|]; intros Hu; rewrite E2; apply bin_indexed_app; by apply Hin2|].
    constructor; [done|]. apply Forall_app. split; [done|]. eapply Forall_impl; [exact Hall2|].
    intros x (e & -> & He). exists b. split; [by apply list_elem_of_singleton | by left].
Qed.

(** The bins of which rows are written. *)
Definition bins_written (discard : DiscardFirstOutput) (o : BinnerOut) (bins : list (Bin F32 F32)) : list (Bin F32 F32) :=
  drop (if dfo_enabled discard && (bo_discard_front o <? 1) then 1 else 0) (List.filter (bin_kept (bo_write_zero o)) bins).

(** What the writing of bins promises: what is put out are rows that say what the
    bins [bs] are, and index entries, of these bins and of every one of them. *)
Definition bw_wrote (series : Z) (o o' : BinnerOut) (q q' : InsertDeques D F32) (bs : list (Bin F32 F32)) (out : list (QueryItem D F32)) : Prop :=
  idq_grows (bo_rt o) q q' out /\ bo_same o o' /\ bo_inv series o' (idq_deque (bo_rt o) q') /\
  Forall2 (row_of series (bo_pbp o)) bs (omap qi_row out) /\
  Forall (fun b => bin_known series (bo_pbp o) b (idq_deque (bo_rt o) q')) bs /\
  Forall (item_of series (bo_pbp o) bs) out.

Lemma bw_wrote_nothing series o o' q : bo_same o o' -> bo_inv series o' (idq_deque (bo_rt o) q) -> bw_wrote series o o' q q [] [].
Proof. intros Hs Hi. split; [apply idq_grows_refl|]. split; [done|]. split; [done|]. split; [constructor|]. split; constructor. Qed.

Lemma bw_wrote_trans series o o1 o2 q q1 q2 bs1 bs2 out1 out2 :
  bw_wrote series o o1 q q1 bs1 out1 -> bw_wrote series o1 o2 q1 q2 bs2 out2 -> bw_wrote series o o2 q q2 (bs1 ++ bs2) (out1 ++ out2).
Proof.
  intros (G1 & (S1 & S2 & S3) & I1 & R1 & K1 & A1) (G2 & (T1 & T2 & T3) & I2 & R2 & K2 & A2). rewrite S1, S2 in *.
  split; [by eapply idq_grows_trans|]. split; [split_and!; congruence|]. split; [done|].
  rewrite omap_app. split; [by apply Forall2_app|]. split; apply Forall_app; split; [|done|..].
  - eapply Forall_impl; [done|]. intros b Hb. rewrite (proj1 G2). by apply bin_known_app.
  - eapply Forall_impl; [exact A1|]. intros x. apply item_of_mono. intros b Hb. apply elem_of_app. by left.
  - eapply Forall_impl; [exact A2|]. intros x. apply item_of_mono. intros b Hb. apply elem_of_app. by right.
Qed.

(** The length that the code computes for a bin of the grid. *)
Lemma bin_on_grid_len pbp b : bin_on_grid pbp b ->
  DtMs_from_ms_u64 (DtNano_ms_u64 (TsNano_delta (bin_ts2 b) (bin_ts1 b))) = pbp_bin_len pbp.
Proof.
  intros (H0 & H2 & Hlt & _). unfold DtMs_from_ms_u64, DtNano_ms_u64, TsNano_delta. pose proof (pbp_bin_len_pos pbp).
  rewrite u64_sub_small by lia. replace (bin_ts2 b - bin_ts1 b) with (pbp_bin_len pbp * 1000000) by lia. apply Z.div_mul. lia.
Qed.

(** One bin: it is passed over, it is the one at the front, or its row is written. *)
Definition bin_step (discard : DiscardFirstOutput) (o : BinnerOut) (b : Bin F32 F32) : list (Bin F32 F32) * Z :=
  if bin_kept (bo_write_zero o) b then
    if dfo_enabled discard && (bo_discard_front o <? 1) then ([], bo_discard_front o + 1) else ([b], bo_discard_front o)
  else ([], bo_discard_front o).

Lemma bw_handle_bin_spec series discard b o (q : InsertDeques D F32) :
  bin_on_grid (bo_pbp o) b -> bo_inv series o (idq_deque (bo_rt o) q) ->
  exists q' o' out, bw_handle_bin series discard b o q = Ok (q', o') /\
  bw_wrote series o o' q q' (bin_step discard o b).1 out /\ bo_discard_front o' = (bin_step discard o b).2.
Proof.
  intros Hb Hi. unfold bw_handle_bin, bin_step, bin_kept. rewrite (bin_on_grid_len (bo_pbp o)) by done. rewrite Z.eqb_refl. cbn [negb].
  destruct (bin_fnl b); cbn [negb andb]; [|exists q, o, []; split; [done|]; split; [by apply bw_wrote_nothing|done]].
  destruct (bin_n b =? 0), (wcz_enabled (bo_write_zero o)); cbn [negb andb orb];
    try (exists q, o, []; split; [done|]; split; [by apply bw_wrote_nothing|done]);
    (destruct (dfo_enabled discard && (bo_discard_front o <? 1)) eqn:Ed;
      [eexists q, _, []; split; [done|]; split; [apply bw_wrote_nothing; [done|]; destruct Hi; split; cbn; [done|done|lia]|done]|]);
    (destruct (bw_emit_spec series b o q Hi Hb) as (q' & o' & out & r & -> & G & Hout & Hr & Hs & Hd & Hi' & Hk & Hall);
      exists q', o', out; split; [done|]; split; [|done]; split; [done|]; split; [done|]; split; [done|]; rewrite Hout; split; [by (constructor; [|constructor])|]; split; [by (constructor; [|constructor])|exact Hall]).
Qed.

Lemma bins_written_cons discard o o' b bins : 0 <= bo_discard_front o -> bo_same o o' -> bo_discard_front o' = (bin_step discard o b).2 ->
  bins_written discard o (b :: bins) = (bin_step discard o b).1 ++ bins_written discard o' bins.
Proof.
  intros Hn (_ & _ & Hz) Hd. unfold bins_written, bin_step in *. rewrite Hz. cbn [List.filter].
  destruct (bin_kept (bo_write_zero o) b); [|cbn in *; by rewrite Hd].
  destruct (dfo_enabled discard); cbn [andb] in *; [|done].
  destruct (Z.ltb_spec (bo_discard_front o) 1) as [Hlt|Hge]; cbn in *; rewrite Hd.
  - replace (bo_discard_front o + 1 <? 1) with false by lia. done.
  - replace (bo_discard_front o <? 1) with false by lia. done.
Qed.

Lemma bw_handle_bins_spec series discard bins o (q : InsertDeques D F32) :
  Forall (bin_on_grid (bo_pbp o)) bins -> bo_inv series o (idq_deque (bo_rt o) q) ->
  exists q' o' out, bw_handle_bins series discard bins o q = (q', Ok o') /\ bw_wrote series o o' q q' (bins_written discard o bins) out.
Proof.
  revert o q. induction bins as [|b bins IH]; intros o q Hg Hi.
  { exists q, o, []. split; [done|]. unfold bins_written. cbn [List.filter]. rewrite drop_nil. by apply bw_wrote_nothing. }
  apply Forall_cons in Hg as [Hb Hg]. cbn [bw_handle_bins].
  destruct (bw_handle_bin_spec series discard b o q Hb Hi) as (q1 & o1 & out1 & -> & W1 & Hd).
  pose proof W1 as (_ & Hs & Hi1 & _). pose proof Hs as (Hrt & Hpbp & _).
  destruct (IH o1 q1) as (q2 & o2 & out2 & E & W2); [by rewrite Hpbp|by rewrite Hrt|].
  exists q2, o2, (out1 ++ out2). split; [done|].
  rewrite (bins_written_cons discard o o1 b bins (bo_inv_n _ _ _ Hi) Hs Hd). by eapply bw_wrote_trans.
Qed.

(** C35. A container of bins on the grid of a partitioning is written without an
    error: of the final bins, those of count zero only where they are wanted and the
    first one ever left out, there is one row each and in order, whose address
    leads back to the start of the bin and whose fields are the ones of the bin; for
    each of these bins there is in the queue of the store an entry of the index of
    days, and of the one of ten minutes where the bins are short, of the series and
    for bins of this length, whose address leads back to the cell of that index in
    which the bin begins; nothing else is put out but such entries, the queues of
    the other stores are as before, and what is remembered of the index stays true. *)
Theorem bw_bins_written series discard bins o (q : InsertDeques D F32) :
  Forall (bin_on_grid (bo_pbp o)) (cb_zip_iter_2 bins) -> bo_inv series o (idq_deque (bo_rt o) q) ->
  exists q' o' out, bw_handle_output_ready series discard bins o q = (q', Ok o') /\
  bw_wrote series o o' q q' (bins_written discard o (cb_zip_iter_2 bins)) out.
Proof. intros Hg Hi. by apply bw_handle_bins_spec. Qed.

End RowsProofs.

(** Two final bins of ten seconds: the row of the first one is left out. *)
Definition demo_bin (k n : Z) (v : F32) (c : ContainerBins F32 F32) : ContainerBins F32 F32 :=
  cb_push_back c (k * 10 * SEC) ((k + 1) * 10 * SEC) n v v v v true.
Definition demo_f32 : F32 := mkF32 (SpecFloat.S754_finite false 8388608 (-23)).
Definition demo_bins : ContainerBins F32 F32 := demo_bin 7 3 demo_f32 (demo_bin 6 1 demo_f32 cb_new).
Definition demo_out : BinnerOut := bo_new (Short, Sec10, WczDisable).

Lemma bw_bins_written_witness : exists q' o' out,
  bw_handle_output_ready (D := unit) 5 DfoEnable demo_bins demo_out idq_new = (q', Ok o') /\
  bw_wrote 5 demo_out o' idq_new q' (bins_written DfoEnable demo_out (cb_zip_iter_2 demo_bins)) out.
Proof.
  apply (bw_bins_written 5 DfoEnable demo_bins demo_out idq_new).
  - repeat apply Forall_cons_2; [| |apply Forall_nil_2]; (split; [cbn; unfold SEC, MS, MU; lia|]); (split; [reflexivity|]); (split; [reflexivity|]).
    + by exists 6.
    + by exists 7.
  - apply bo_new_inv.
Defined.

Example demo_bins_row : omap qi_row (idq_deque Short (bw_handle_output_ready (D := unit) 5 DfoEnable demo_bins demo_out idq_new).1) =
  [mkTimeBin 5 10000 0 7 3 demo_f32 demo_f32 demo_f32 f32_NAN demo_f32].
Proof. vm_compute. reflexivity. Qed.
