(* ===== verification/Pipeline.v ===== *)
(** * Merging and binning together

    What a node does for a query of bins: the events of the channel come from
    several inputs, the merger puts them in order, and the stream of
    [BinnedEventsTimeweightStream] bins what the merger puts out. [fed] connects the
    two: the items of the merger in order, with any pauses between them. *)
From Stdlib Require Import ZArith Lia.
From stdpp Require Import base numbers option strings list sorting.
From S2P Require Import Prelude TimeTypes Items Ranges Events Bins Floats Timeweight TimeweightProofs Merger MergerProofs ChannelEvents TwStream TwStreamProofs.

#[local] Open Scope Z_scope.
#[local] Open Scope rust_scope.

Section Pipeline.
  Context {K : Type} `{EqDecision K} {val agg res : K -> Type} {Hval : forall i, EventValueType (val i)}
    {Hagg : forall i, AggregatorTimeWeight (val i) (agg i) (res i)} {L St E : Type}.
  Context (i : K) {Hlaws : AggregatorTimeWeightLaws (val i) (agg i) (res i)}.

#[local] Instance che_laws : MergeableLaws (ChannelEvents (val := val)) (val i) := MergeableLaws_ChannelEvents i.

Definition PipeOut : Type := MOut (T := ChannelEvents (val := val)) (L := L) (St := St) (E := E).
Definition PipePoll : Type := TwsPoll (val := val) (L := L) (St := St) (E := E).

(** The second stream polls the first. *)
Inductive fed : list PipeOut -> list PipePoll -> Prop :=
  | fed_end : fed [] []
  | fed_pending os inp : fed os inp -> fed os (Pending :: inp)
  | fed_item it os inp : fed os inp -> fed (MOutItem it :: os) (Ready it :: inp).

Lemma fed_spec os inp : fed os inp -> Forall mout_ok os ->
  Forall (tws_poll_ok i) inp /\ Forall ce_wf (tws_containers i inp) /\
  evs_of (tws_containers i inp) = concat (map mout_events os).
Proof.
  induction 1 as [|os inp _ IH|it os inp _ IH]; intros Hok; [done| |].
  { destruct (IH Hok) as (H1 & H2 & H3). split; [by constructor|]. done. }
  apply Forall_cons in Hok as [(it' & [= <-] & Hit) Hok]. destruct (IH Hok) as (H1 & H2 & H3).
  destruct it as [[[|k]|x|x]|e]; cbn in Hit; try done; try (split; [by constructor|]; done).
  destruct Hit as (c & -> & Hc). cbn [map mout_events sitem_events concat].
  change (mt_events (MergeableLaws := che_laws) (ch_events i c)) with (che_list i (ch_events i c)). rewrite che_list_events.
  unfold tws_containers in *. cbn [omap list_omap poll_container]. rewrite che_container_events.
  split; [constructor; [by exists c|done]|]. split; [by constructor|].
  unfold evs_of in *. cbn [map concat]. by rewrite H3.
Qed.

(** A grid that fits, for events in it. *)
Record grid_ok (range : BinnedRange TsNano) : Prop := {
  go_len : 0 < bin_len range;
  go_off : 0 <= bin_off range;
  go_cnt : 1 <= bin_cnt range <= OUT_LEN_MAX;
  go_fit : bin_len range * (bin_off range + bin_cnt range + 1) < 2 ^ 64
}.

Definition in_grid (range : BinnedRange TsNano) (e : Z * val i) : Prop :=
  bin_len range * bin_off range <= e.1 < bin_len range * (bin_off range + bin_cnt range).

Lemma in_grid_merged range (evs dropped : list (Z * val i)) inps :
  Forall (Forall (in_grid range)) inps -> concat inps ≡ₚ evs ++ dropped -> Forall (in_grid range) evs.
Proof.
  intros Hg Hperm. assert (Hall : Forall (in_grid range) (evs ++ dropped)) by (rewrite <- Hperm; by apply Forall_concat).
  by apply Forall_app in Hall as [? _].
Qed.

Lemma grid_input range cs (evs : list (Z * val i)) : grid_ok range -> Forall ce_wf cs -> evs_of cs = evs ->
  StronglySorted Z.le evs.*1 -> Forall (in_grid range) evs -> tw_input range cs.
Proof.
  intros [HL Ho Hc Hf] Hw <- Hs Hg. split; try done; [eapply Forall_impl; [exact Hg|]; unfold in_grid; lia|].
  destruct (evs_of cs); [constructor|]. apply Forall_cons in Hg as [_ Hg]. eapply Forall_impl; [exact Hg|]. unfold in_grid; lia.
Qed.

(** C5. Several inputs of events of one type, each in order and within a grid, are
    merged and the merged events binned, with any pauses. Both streams end, no
    failure comes out, and the bins are the correct time-weighted bins of one sorted
    list of events: those of the inputs, up to events of which another with the same
    timestamp is kept; the bins tile the time from the bin of the first event to the
    end of the grid. *)
Theorem merged_bins range (inps : list (MergeInp (T := ChannelEvents (val := val)) (L := L) (St := St) (E := E))) max polls fuel :
  grid_ok range ->
  Forall (Forall poll_ok) inps ->
  Forall (fun inp => StronglySorted Z.le (polls_events inp).*1) inps ->
  Forall (fun inp => Forall (in_grid range) (polls_events inp)) inps ->
  (inputs_weight inps < polls)%nat -> (inputs_weight inps + 4 <= fuel)%nat ->
  exists items dropped, mg_drain polls fuel (mg_new inps max) = Some items /\
    let evs := concat (map mout_events items) in
    StronglySorted Z.le evs.*1 /\ concat (map polls_events inps) ≡ₚ evs ++ dropped /\
    (forall e, e ∈ dropped -> exists o, o ∈ evs /\ o.1 = e.1) /\
    forall inp n, fed items inp -> (length inp + 3 <= n)%nat ->
      exists outs, tws_drain n (tws_new range inp : TwStreamT (agg := agg) (res := res)) = Some outs /\
        let bins := concat (map (tws_out_bins i) outs) in
        match evs with
        | [] => bins = []
        | e0 :: _ => Forall (bin_good (A := agg i) (bin_len range) evs) bins /\
            exists b, (bin_len range | b) /\ b <= e0.1 < b + bin_len range /\
              tiles (bin_len range) b (bin_len range * (bin_off range + bin_cnt range)) bins
        end.
Proof.
  intros Hgrid Hok Hs Hg Hp Hf.
  destruct (mg_new_inv inps max Hok Hs) as [Hinv Hw].
  { eapply Forall_impl; [exact Hg|]. intros inp Hin. eapply Forall_impl; [exact Hin|]. destruct Hgrid. unfold in_grid. intros e He. nia. }
  destruct (mg_drain_spec _ _ _ polls fuel Hinv) as (items & pes & Hd & Hi & Hm & Hpes); [lia|lia|]. rewrite app_nil_l in Hm.
  assert (Hnil : concat pes = []) by (clear -Hpes; by induction Hpes as [|? ? ->]).
  destruct (mi_all _ _ _ Hm) as (dr & Hperm & Hdr). rewrite Hnil, app_nil_r in Hperm.
  set (evs := concat (map mout_events items)) in *. exists items, dr.
  assert (Hsorted : StronglySorted Z.le evs.*1) by apply Hm.
  split; [done|]. cbv zeta. fold evs. split; [done|]. split; [done|]. split; [done|]. intros inp n Hfed Hn.
  destruct (fed_spec items inp Hfed Hi) as (Hpoll & Hwf & Hevs). fold evs in Hevs.
  assert (Hgevs : Forall (in_grid range) evs) by (eapply in_grid_merged; [|exact Hperm]; by apply Forall_map).
  pose proof (grid_input range _ evs Hgrid Hwf Hevs Hsorted Hgevs) as Hin.
  destruct (tws_drains i range inp n Hpoll Hin Hn) as (outs & Hdrain & Hgives & _).
  exists outs. split; [exact Hdrain|]. cbv zeta. destruct evs as [|e0 l] eqn:Heq.
  - destruct Hgrid. destruct (tw_new_none (A := agg i) (B := res i) range) as [Hnew Hne]; try done; [lia|].
    eapply tw_gives_det; [exact Hgives|]. apply tw_gives_none; done || lia.
  - destruct (tw_gives_good range _ e0 l _ Hin Hevs Hgives) as [Hgood (b & Hb & Hbe & Ht)]. rewrite Hevs in Hgood.
    split; [done|]. exists b. split; [done|]. split; [|done].
    apply Forall_cons in Hgevs as [[Hlo _] _]. lia.
Qed.

End Pipeline.

(** ** An example: two inputs *)
Section PipelineDemo.
  #[local] Existing Instance EventValueType_Z.

Definition pipe_ev (tss vals : list Z) : Poll (Sitemty nat unit unit (ChannelEvents (K := unit) (val := fun _ => Z))) :=
  Ready (SOk (DataItem (Data (ch_events tt (ce_from_constituents tss vals))))).

Definition pipe_inps : list (MergeInp (T := ChannelEvents (K := unit) (val := fun _ => Z)) (L := nat) (St := unit) (E := unit)) :=
  [[pipe_ev [12; 25] [1; 2]; Pending; pipe_ev [41] [3]]; [Pending; pipe_ev [11; 12; 26] [4; 5; 6]; Ready (SOk (Log 3%nat))]].

(** Feeding without pauses. *)
Lemma fed_all {K val L St E} (os : list (PipeOut (K := K) (val := val) (L := L) (St := St) (E := E))) :
  Forall (fun o => exists it, o = MOutItem it) os -> exists inp, fed os inp /\ length inp = length os.
Proof.
  induction 1 as [|o os [it ->] _ (inp & Hf & Hl)]; [exists []; split; [constructor|done]|].
  exists (Ready it :: inp). split; [by constructor|cbn; by rewrite Hl].
Qed.

Lemma merged_bins_witness : exists items evs,
  mg_drain 40 40 (mg_new pipe_inps None) = Some items /\ evs.*1 = [11; 12; 25; 26; 41] /\
  forall inp n, fed items inp -> (length inp + 3 <= n)%nat ->
    exists outs, tws_drain n (tws_new demo_range inp : TwStreamT (agg := fun _ => AggregatorNumeric) (res := fun _ => F64)) = Some outs /\
      let bins := concat (map (tws_out_bins tt) outs) in
      Forall (bin_good (A := AggregatorNumeric) 10 evs) bins /\ exists b, (10 | b) /\ b <= 11 < b + 10 /\ tiles 10 b 50 bins.
Proof.
  destruct (merged_bins (agg := fun _ => AggregatorNumeric) (res := fun _ => F64) tt demo_range pipe_inps None 40 40)
    as (items & dropped & Hd & Hs & Hperm & Hdr & Hrun).
  - split; apply (bool_decide_unpack _); vm_compute; exact I.
  - repeat constructor; by eexists.
  - apply (bool_decide_unpack _); vm_compute; exact I.
  - repeat constructor; cbn; lia.
  - apply (bool_decide_unpack _); vm_compute; exact I.
  - apply (bool_decide_unpack _); vm_compute; exact I.
  - exists items, (concat (map (mout_events (H0 := che_laws tt)) items)). split; [exact Hd|].
    assert (Hevs : (concat (map (mout_events (H0 := che_laws tt)) items)).*1 = [11; 12; 25; 26; 41]) by (vm_compute in Hd; injection Hd as <-; reflexivity).
    split; [exact Hevs|]. intros inp n Hfed Hn. destruct (Hrun inp n Hfed Hn) as (outs & Ho & Hb). exists outs. split; [exact Ho|].
    cbv zeta in Hb |- *. destruct (concat (map (mout_events (H0 := che_laws tt)) items)) as [|[t v] l]; [discriminate Hevs|]. cbn in Hevs. injection Hevs as -> _.
    exact Hb.
Defined.

End PipelineDemo.
