(* ===== verification/Nom.v ===== *)
(** * Parser combinators

    The parsers of [daqbuf-parse] are written with the crate [nom], which is
    not part of the repository. [Nom] is what they use of it and [NomLaws] the
    documented behaviour they rely on: the parsers of [nom::number::complete]
    and [nom::bytes::complete] take the bytes from the front of the input and
    fail with the kind [Eof] when there are too few; [many0] repeats a parser
    until a recoverable error. [nom_std] is an implementation. *)
From Stdlib Require Import ZArith Lia.
From stdpp Require Import base numbers option list.
From S2P Require Import Prelude.

#[local] Open Scope Z_scope.
#[local] Open Scope rust_scope.

(** [nom::Err]. *)
Inductive nom_err (E : Type) : Type :=
  | NError (e : E)
  | NFailure (e : E)
  | NIncomplete (needed : Z).

Arguments NError {E} e.
Arguments NFailure {E} e.
Arguments NIncomplete {E} needed.

(** A parser returns the input that is left and a value. *)
Definition nres (E A : Type) : Type := outcome (nom_err E) (list Z * A).
Definition parser (E A : Type) : Type := list Z -> nres E A.

Class Nom : Type := {
  ErrorKind : Type;
  ek_Eof : ErrorKind;
  ek_Fail : ErrorKind;
  ek_Many0 : ErrorKind;
  nom_take {E} (mk : list Z -> ErrorKind -> E) : nat -> parser E (list Z);
  nom_be_u {E} (mk : list Z -> ErrorKind -> E) : nat -> parser E Z;
  nom_be_i {E} (mk : list Z -> ErrorKind -> E) : nat -> parser E Z;
  nom_many0 {E A} (mk : list Z -> ErrorKind -> E) : parser E A -> parser E (list A)
}.

(** [ParseError] and [ContextError] of the type of errors. *)
Class ParseError `{Nom} (E : Type) : Type := {
  from_error_kind : list Z -> ErrorKind -> E;
  add_context : list Z -> E -> E
}.

Section Parsers.
Context `{ParseError E}.

Definition be_u8 : parser E Z := nom_be_u from_error_kind 1.
Definition be_u32 : parser E Z := nom_be_u from_error_kind 4.
Definition be_u64 : parser E Z := nom_be_u from_error_kind 8.
Definition be_i8 : parser E Z := nom_be_i from_error_kind 1.
Definition be_i16 : parser E Z := nom_be_i from_error_kind 2.
Definition be_i32 : parser E Z := nom_be_i from_error_kind 4.
Definition be_i64 : parser E Z := nom_be_i from_error_kind 8.
Definition take_bytes (n : nat) : parser E (list Z) := nom_take from_error_kind n.
Definition many0 {A} (p : parser E A) : parser E (list A) := nom_many0 from_error_kind p.

(** [nom::error::context]. *)
Definition nom_context {A} (p : parser E A) : parser E A := fun inp =>
  map_err (fun e => match e with
    | NError e => NError (add_context inp e)
    | NFailure e => NFailure (add_context inp e)
    | NIncomplete n => NIncomplete n
    end) (p inp).
End Parsers.

Definition uint_width (n : nat) : Z := 8 * Z.of_nat n.

(** What [many0] does with the result of its parser at [inp]. *)
Definition many0_step `{Nom} {E A} (mk : list Z -> ErrorKind -> E) (p : parser E A) (inp : list Z)
    (rec : parser E (list A)) : nres E (list A) :=
  match p inp with
  | Ok (rest, a) =>
      if (length rest =? length inp)%nat then Err (NError (mk inp ek_Many0))
      else let? (rest, l) := rec rest in Ok (rest, a :: l)
  | Err (NError _) => Ok (inp, [])
  | Err e => Err e
  | Panic => Panic
  end.

Class NomLaws `{Nom} : Type := {
  nom_take_ok {E} (mk : list Z -> ErrorKind -> E) n inp :
    (n <= length inp)%nat -> nom_take mk n inp = Ok (drop n inp, take n inp);
  nom_take_eof {E} (mk : list Z -> ErrorKind -> E) n inp :
    (length inp < n)%nat -> nom_take mk n inp = Err (NError (mk inp ek_Eof));
  nom_be_u_ok {E} (mk : list Z -> ErrorKind -> E) n inp :
    (n <= length inp)%nat -> nom_be_u mk n inp = Ok (drop n inp, of_be_bytes (take n inp));
  nom_be_u_eof {E} (mk : list Z -> ErrorKind -> E) n inp :
    (length inp < n)%nat -> nom_be_u mk n inp = Err (NError (mk inp ek_Eof));
  nom_be_i_ok {E} (mk : list Z -> ErrorKind -> E) n inp :
    (n <= length inp)%nat ->
    nom_be_i mk n inp = Ok (drop n inp, to_signed (uint_width n) (of_be_bytes (take n inp)));
  nom_be_i_eof {E} (mk : list Z -> ErrorKind -> E) n inp :
    (length inp < n)%nat -> nom_be_i mk n inp = Err (NError (mk inp ek_Eof));
  nom_many0_eq {E A} (mk : list Z -> ErrorKind -> E) (p : parser E A) inp :
    (forall inp rest a, p inp = Ok (rest, a) -> (length rest <= length inp)%nat) ->
    nom_many0 mk p inp = many0_step mk p inp (nom_many0 mk p)
}.

(** ** An implementation *)

Section Std.
Context {K : Type} (eof many : K).

Definition std_take {E} (mk : list Z -> K -> E) (n : nat) : parser E (list Z) := fun inp =>
  if (n <=? length inp)%nat then Ok (drop n inp, take n inp) else Err (NError (mk inp eof)).

Definition std_be {E} (mk : list Z -> K -> E) (f : list Z -> Z) (n : nat) : parser E Z := fun inp =>
  let? (rest, b) := std_take mk n inp in Ok (rest, f b).

Fixpoint std_many0 {E A} (mk : list Z -> K -> E) (fuel : nat) (p : parser E A) (inp : list Z) : nres E (list A) :=
  match p inp with
  | Ok (rest, a) =>
      if (length rest =? length inp)%nat then Err (NError (mk inp many))
      else match fuel with
           | O => Ok (inp, [])
           | S fuel => let? (rest, l) := std_many0 mk fuel p rest in Ok (rest, a :: l)
           end
  | Err (NError _) => Ok (inp, [])
  | Err e => Err e
  | Panic => Panic
  end.
End Std.

(** The fuel of [many0]: a repetition takes at least a byte. *)
Lemma std_many0_fuel {K E A} (many : K) (mk : list Z -> K -> E) (p : parser E A) f1 f2 inp :
  (forall inp rest a, p inp = Ok (rest, a) -> (length rest <= length inp)%nat) ->
  (length inp <= f1)%nat -> (length inp <= f2)%nat ->
  std_many0 many mk f1 p inp = std_many0 many mk f2 p inp.
Proof.
  intros Hp. revert f2 inp. induction f1 as [|f1 IH]; intros [|f2] inp H1 H2; try done; cbn [std_many0];
    destruct (p inp) as [[rest a]|[]|] eqn:Hpi; try done; specialize (Hp _ _ _ Hpi);
    destruct (Nat.eqb_spec (length rest) (length inp)); try done; try lia.
  by rewrite (IH f2) by lia.
Qed.

Inductive std_kind : Type := KEof | KFail | KMany0.

#[export] Instance nom_std : Nom := {|
  ErrorKind := std_kind;
  ek_Eof := KEof;
  ek_Fail := KFail;
  ek_Many0 := KMany0;
  nom_take := @std_take _ KEof;
  nom_be_u := fun E mk n => std_be KEof mk of_be_bytes n;
  nom_be_i := fun E mk n => std_be KEof mk (fun b => to_signed (uint_width n) (of_be_bytes b)) n;
  nom_many0 := fun E A mk p inp => std_many0 KMany0 mk (length inp) p inp
|}.

#[export] Instance nom_std_laws : NomLaws.
Proof.
  split; cbn [nom_take nom_be_u nom_be_i nom_many0 nom_std ek_Eof]; unfold std_be, std_take; intros E.
  1-6: intros mk n inp Hn; first [rewrite (proj2 (Nat.leb_le _ _)) by done | rewrite (proj2 (Nat.leb_gt _ _)) by done]; done.
  intros A mk p inp Hp. destruct (length inp) as [|m] eqn:Hl; cbn [std_many0]; unfold many0_step;
    destruct (p inp) as [[rest a]|[]|] eqn:Hpi; try done; pose proof (Hp _ _ _ Hpi) as Hle; rewrite Hl.
  - by rewrite (proj2 (Nat.eqb_eq _ _)) by lia.
  - destruct (Nat.eqb_spec (length rest) (S m)); [done|].
    cbn [nom_many0]. by rewrite (std_many0_fuel _ _ _ m (length rest)) by (done || lia).
Qed.

(** ** The parsers on what the encoders write *)

Section Facts.
Context `{HL : NomLaws} `{PE : !ParseError E}.

Lemma take_bytes_app (b rest : list Z) : take_bytes (length b) (b ++ rest) = Ok (rest, b).
Proof. unfold take_bytes. rewrite nom_take_ok by (rewrite length_app; lia). by rewrite drop_app_length, take_app_length. Qed.

Lemma nom_be_u_app n z rest : in_u (uint_width n) z -> nom_be_u from_error_kind n (be_bytes n z ++ rest) = Ok (rest, z).
Proof.
  intros Hz. rewrite nom_be_u_ok by (rewrite length_app, be_bytes_length; lia).
  rewrite drop_app_length', take_app_length' by (by rewrite be_bytes_length). by rewrite of_be_bytes_round.
Qed.

Lemma nom_be_i_app n z rest :
  (0 < n)%nat -> in_i (uint_width n) z ->
  nom_be_i from_error_kind n (be_bytes n (wrap (uint_width n) z) ++ rest) = Ok (rest, z).
Proof.
  intros Hn Hz. assert (0 < uint_width n) by (unfold uint_width; lia).
  rewrite nom_be_i_ok by (rewrite length_app, be_bytes_length; lia).
  rewrite drop_app_length', take_app_length' by (by rewrite be_bytes_length).
  rewrite of_be_bytes_round by (apply wrap_bound; lia). by rewrite to_signed_of_wrap.
Qed.

(** A success takes the bytes from the front. *)
Lemma take_bytes_inv n inp rest (b : list Z) :
  take_bytes n inp = Ok (rest, b) -> (n <= length inp)%nat /\ rest = drop n inp /\ b = take n inp.
Proof.
  unfold take_bytes. intros Ht. destruct (decide (n <= length inp)%nat).
  - rewrite nom_take_ok in Ht by done. by simplify_eq.
  - rewrite nom_take_eof in Ht by lia. done.
Qed.

Lemma nom_be_u_inv n inp rest z :
  nom_be_u from_error_kind n inp = Ok (rest, z) ->
  (n <= length inp)%nat /\ rest = drop n inp /\ z = of_be_bytes (take n inp).
Proof.
  intros Ht. destruct (decide (n <= length inp)%nat).
  - rewrite nom_be_u_ok in Ht by done. by simplify_eq.
  - rewrite nom_be_u_eof in Ht by lia. done.
Qed.

Lemma nom_be_i_inv n inp rest z :
  nom_be_i from_error_kind n inp = Ok (rest, z) ->
  (n <= length inp)%nat /\ rest = drop n inp /\ z = to_signed (uint_width n) (of_be_bytes (take n inp)).
Proof.
  intros Ht. destruct (decide (n <= length inp)%nat).
  - rewrite nom_be_i_ok in Ht by done. by simplify_eq.
  - rewrite nom_be_i_eof in Ht by lia. done.
Qed.

Lemma take_bytes_no_panic n inp : take_bytes n inp <> Panic.
Proof. unfold take_bytes. destruct (decide (n <= length inp)%nat); [rewrite nom_take_ok by done|rewrite nom_take_eof by lia]; done. Qed.

Lemma nom_be_u_no_panic n inp : nom_be_u (E := E) from_error_kind n inp <> Panic.
Proof. destruct (decide (n <= length inp)%nat); [rewrite nom_be_u_ok by done|rewrite nom_be_u_eof by lia]; done. Qed.

Lemma nom_be_i_no_panic n inp : nom_be_i (E := E) from_error_kind n inp <> Panic.
Proof. destruct (decide (n <= length inp)%nat); [rewrite nom_be_i_ok by done|rewrite nom_be_i_eof by lia]; done. Qed.
End Facts.
