(* ===== verification/ChannelConfig.v ===== *)
(** * Channel configuration files

    [daqbuf-parse/src/channelconfig.rs]: the parser of the configuration file
    which the archive keeps for every channel, and the selection of the entry
    that is in force over most of a requested range. The sort of the standard
    library is unstable, so it is a parameter ([SortUnstable]): some permutation
    that is sorted by the key. *)
From Stdlib Require Import ZArith Lia.
From stdpp Require Import base numbers option strings list sorting.
From S2P Require Import Prelude TimeTypes NetpodTypes Ranges Utf8 Nom.

#[local] Open Scope Z_scope.
#[local] Open Scope rust_scope.

(** ** Data *)

Inductive CompressionMethod : Type := BitshuffleLZ4.

#[export] Instance CompressionMethod_eq_dec : EqDecision CompressionMethod.
Proof. solve_decision. Defined.

(** The variants of [ConfigParseError] that the parser makes, and of its
    [ParseError(String)] one per message. [parse_config] formats a [nom::Err]
    of it into a message. *)
Inductive cfg_error `{Nom} : Type :=
  | CfgErrorKind (k : ErrorKind)
  | BadStringLen (len : Z)
  | LargeStringLen (len : Z)
  | StringUtf8
  | ConfigEntryBadLen1 (len1 : Z)
  | UnexpectedDataTypeLen (dtlen : Z)
  | UnexpectedDataType (dtype : Z)
  | CanNotConvertDType (dtype : Z) (e : netpod_error)
  | UnknownCompression
  | UnexpectedNumberOfDimensions (dim : Z)
  | MismatchLen (len1 len2 : Z)
  | NoChannelName (len1 : Z)
  | ChannelNameUtf8.

(** [ts_human] in nanoseconds since the epoch; a [String] is its bytes. *)
Record ConfigEntry : Type := mkConfigEntry {
  cfg_ts : TsNano;
  cfg_ts_human : Z;
  cfg_pulse : Z;
  cfg_ks : Z;
  cfg_bs : DtNano;
  cfg_split_count : Z;
  cfg_status : Z;
  cfg_bb : Z;
  cfg_modulo : Z;
  cfg_offset : Z;
  cfg_precision : Z;
  cfg_scalar_type : ScalarType;
  cfg_is_compressed : bool;
  cfg_is_shaped : bool;
  cfg_is_array : bool;
  cfg_byte_order : ByteOrder;
  cfg_compression_method : option CompressionMethod;
  cfg_shape : option (list Z);
  cfg_source_name : option (list Z);
  cfg_unit : option (list Z);
  cfg_description : option (list Z);
  cfg_optional_fields : option (list Z);
  cfg_value_converter : option (list Z)
}.

(** The dimensions of the shape that is not supported, as the error's message. *)
Definition ConfigEntry_to_shape (e : ConfigEntry) : outcome (list Z) Shape :=
  match cfg_shape e with
  | Some lens =>
      if (length lens =? 1)%nat then let? n := index lens 0 in Ok (Wave n)
      else if (length lens =? 2)%nat then let? n := index lens 0 in let? m := index lens 1 in Ok (Image n m)
      else Err lens
  | None => Ok Scalar
  end.

Record ChannelConfigs : Type := mkChannelConfigs {
  cc_format_version : Z;
  cc_channel_name : list Z;
  cc_entries : list ConfigEntry
}.

(** ** The parser *)

(** A slice [&inp[n..]] with [n] a [usize]. *)
Definition slice_from {E} (inp : list Z) (n : Z) : outcome E (list Z) :=
  if Z.of_nat (length inp) <? n then Panic else Ok (drop (Z.to_nat n) inp).

Section Parser.
Context `{Nom}.

#[export] Instance ConfigParseError_ParseError : ParseError cfg_error := {|
  from_error_kind := fun _ k => CfgErrorKind k;
  add_context := fun _ e => e
|}.

Definition mkerr {A} (e : cfg_error) : nres cfg_error A := Err (NError e).

Definition parse_short_string (inp : list Z) : nres cfg_error (option (list Z)) :=
  let? (inp, len1) := be_i32 inp in
  if len1 =? -1 then Ok (inp, None)
  else if len1 <? 4 then mkerr (BadStringLen len1)
  else if 500 <? len1 then mkerr (LargeStringLen len1)
  else
    let? (inp, snb) := take_bytes (Z.to_nat (len1 - 4)) inp in
    if utf8_valid snb then Ok (inp, Some snb) else mkerr StringUtf8.

(** The loop over the dimensions. *)
Fixpoint parse_dims (dim : nat) (inp : list Z) : nres cfg_error (list Z) :=
  match dim with
  | O => Ok (inp, [])
  | S dim =>
      let? (inp, t1) := be_i32 inp in
      let? (inp, shape) := parse_dims dim inp in
      Ok (inp, wrap 32 t1 :: shape)
  end.

Definition parse_compression (is_compressed : bool) (inp : list Z) : nres cfg_error (option CompressionMethod) :=
  if is_compressed then
    let? (inp, cm) := be_u8 inp in
    if cm =? 0 then Ok (inp, Some BitshuffleLZ4) else mkerr UnknownCompression
  else Ok (inp, None).

Definition parse_shape (is_shaped : bool) (inp : list Z) : nres cfg_error (option (list Z)) :=
  if is_shaped then
    let? (inp, dim) := be_u8 inp in
    if 4 <? dim then mkerr (UnexpectedNumberOfDimensions dim)
    else let? (inp, shape) := parse_dims (Z.to_nat dim) inp in Ok (inp, Some shape)
  else Ok (inp, None).

(** The fields between the two lengths of an entry. *)
Definition parse_entry_body (inp : list Z) : nres cfg_error ConfigEntry :=
  let? (inp, ts) := be_i64 inp in
  let? (inp, pulse) := be_i64 inp in
  let? (inp, ks) := be_i32 inp in
  let? (inp, bs) := be_i64 inp in
  let bs := DtNano_from_ns (u64_mul (wrap 64 bs) MS) in
  let? (inp, split_count) := be_i32 inp in
  let? (inp, status) := be_i32 inp in
  let? (inp, bb) := be_i8 inp in
  let? (inp, modulo) := be_i32 inp in
  let? (inp, offset) := be_i32 inp in
  let? (inp, precision) := be_i16 inp in
  let? (inp, dtlen) := be_i32 inp in
  if 100 <? dtlen then mkerr (UnexpectedDataTypeLen dtlen) else
  let? (inp, dtmask) := be_u8 inp in
  let is_compressed := negb (Z.land dtmask 0x80 =? 0) in
  let is_array := negb (Z.land dtmask 0x40 =? 0) in
  let byte_order := ByteOrder_from_dtype_flags dtmask in
  let is_shaped := negb (Z.land dtmask 0x10 =? 0) in
  let? (inp, dtype) := be_u8 inp in
  if 13 <? dtype then mkerr (UnexpectedDataType dtype) else
  let? scalar_type := map_err (fun e => NError (CanNotConvertDType dtype e)) (ScalarType_from_dtype_index dtype) in
  let? (inp, compression_method) := parse_compression is_compressed inp in
  let? (inp, shape) := parse_shape is_shaped inp in
  let? (inp, source_name) := parse_short_string inp in
  let? (inp, unit_) := parse_short_string inp in
  let? (inp, description) := parse_short_string inp in
  let? (inp, optional_fields) := parse_short_string inp in
  let? (inp, value_converter) := parse_short_string inp in
  Ok (inp, {|
    cfg_ts := TsNano_from_ns (wrap 64 ts);
    cfg_ts_human := wrap 64 ts;
    cfg_pulse := pulse;
    cfg_ks := ks;
    cfg_bs := bs;
    cfg_split_count := split_count;
    cfg_status := status;
    cfg_bb := bb;
    cfg_modulo := modulo;
    cfg_offset := offset;
    cfg_precision := precision;
    cfg_scalar_type := scalar_type;
    cfg_is_compressed := is_compressed;
    cfg_is_array := is_array;
    cfg_is_shaped := is_shaped;
    cfg_byte_order := byte_order;
    cfg_compression_method := compression_method;
    cfg_shape := shape;
    cfg_source_name := source_name;
    cfg_unit := unit_;
    cfg_description := description;
    cfg_optional_fields := optional_fields;
    cfg_value_converter := value_converter |}).

Definition parse_entry (inp : list Z) : nres cfg_error (option ConfigEntry) :=
  let? (inp, len1) := be_i32 inp in
  if (len1 <? 0) || (4000 <? len1) then mkerr (ConfigEntryBadLen1 len1)
  else if (length inp =? 0)%nat then Ok (inp, None)
  else if Z.of_nat (length inp) <? u64_sub (wrap 64 len1) 4 then Err (NIncomplete (u64_sub (wrap 64 len1) 4))
  else
    let? inp_e := slice_from inp (wrap 64 (len1 - 8)) in
    let? (inp, entry) := parse_entry_body inp in
    let? _ := assert (length inp =? length inp_e)%nat in
    let? (inp_e, len2) := be_i32 inp_e in
    if negb (len1 =? len2) then mkerr (MismatchLen len1 len2)
    else Ok (inp_e, Some entry).

(** The loop over the entries; [None] when the fuel runs out. *)
Fixpoint parse_entries (fuel : nat) (inp_a : list Z) (entries : list ConfigEntry) : option (nres cfg_error (list ConfigEntry)) :=
  if (0 <? length inp_a)%nat then
    match fuel with
    | O => None
    | S fuel =>
        match parse_entry inp_a with
        | Ok (inp, e) => parse_entries fuel inp (match e with Some e => entries ++ [e] | None => entries end)
        | Err e => Some (Err e)
        | Panic => Some Panic
        end
    end
  else Some (Ok (inp_a, entries)).

(** Up to the entries: the version and the name of the channel. *)
Definition parse_config_head (inp : list Z) : nres cfg_error (Z * list Z) :=
  let? (inp, ver) := be_i16 inp in
  let? (inp, len1) := be_i32 inp in
  if (len1 <=? 8) || (500 <? len1) then mkerr (NoChannelName len1) else
  let? (inp, chn) := take_bytes (Z.to_nat (len1 - 8)) inp in
  if negb (utf8_valid chn) then mkerr ChannelNameUtf8 else
  let? (inp, len2) := be_i32 inp in
  if negb (len1 =? len2) then mkerr (MismatchLen len1 len2) else Ok (inp, (ver, chn)).

Definition parse_config_inner (fuel : nat) (inp : list Z) : option (nres cfg_error ChannelConfigs) :=
  match parse_config_head inp with
  | Ok (inp, (ver, channel_name)) =>
      r ← parse_entries fuel inp [];
      Some (let? (_, entries) := r in Ok (inp, mkChannelConfigs ver channel_name entries))
  | Err e => Some (Err e)
  | Panic => Some Panic
  end.

(** Every entry takes its length field: the number of bytes is enough fuel. *)
Definition parse_config (inp : list Z) : option (outcome (nom_err cfg_error) ChannelConfigs) :=
  r ← parse_config_inner (length inp) inp;
  Some (let? (_, ret) := r in Ok ret).
End Parser.

(** ** The entry for a range *)

Class SortUnstable : Type := { sort_unstable_by_key {A} (key : A -> Z) (l : list A) : list A }.

Class SortUnstableLaws `{SortUnstable} : Type := {
  sort_unstable_perm {A} (key : A -> Z) (l : list A) : sort_unstable_by_key key l ≡ₚ l;
  sort_unstable_sorted {A} (key : A -> Z) (l : list A) :
    StronglySorted (fun a b => key a <= key b) (sort_unstable_by_key key l)
}.

Inductive MatchingConfigEntry : Type :=
  | MatchingNone
  | MatchingSingle (e : ConfigEntry)
  | MatchingMultiple (e : ConfigEntry).

Definition MatchingConfigEntry_best (m : MatchingConfigEntry) : option ConfigEntry :=
  match m with
  | MatchingNone => None
  | MatchingSingle e => Some e
  | MatchingMultiple e => Some e
  end.

(** The first pass, from the back: every entry with the timestamp of the entry
    that comes after it; [last] is the captured variable. *)
Fixpoint with_next (last : option TsNano) (a : list (nat * ConfigEntry)) : list (nat * ConfigEntry * option TsNano) :=
  match a with
  | [] => []
  | (i, x) :: a => (i, x, last) :: with_next (Some (cfg_ts x)) a
  end.

Definition entry_weight (range : NanoRange) (e : ConfigEntry) (tsn : option TsNano) : DtNano :=
  match tsn with
  | Some ts2 =>
      if TsNano_ns (cfg_ts e) <? nr_end range then
        let p := if TsNano_ns (cfg_ts e) <? nr_beg range then nr_beg range else TsNano_ns (cfg_ts e) in
        let q := if TsNano_ns ts2 <? nr_beg range then nr_beg range
                 else if TsNano_ns ts2 <? nr_end range then TsNano_ns ts2 else nr_end range in
        DtNano_from_ns (u64_sub q p)
      else DtNano_from_ns 0
  | None =>
      if TsNano_ns (cfg_ts e) <? nr_end range then
        if TsNano_ns (cfg_ts e) <? nr_beg range then DtNano_from_ns (NanoRange_delta range)
        else DtNano_from_ns (u64_sub (nr_end range) (TsNano_ns (cfg_ts e)))
      else DtNano_from_ns 0
  end.

Section Matching.
Context `{SortUnstable}.

Definition extract_matching_config_entry (range : NanoRange) (channel_config : ChannelConfigs) :
    outcome Empty_set MatchingConfigEntry :=
  let a := zip (seq 0 (length (cc_entries channel_config))) (cc_entries channel_config) in
  let a := sort_unstable_by_key (fun x : nat * ConfigEntry => TsNano_ns (cfg_ts x.2)) a in
  let b := with_next None (rev a) in
  let c := map (fun x : nat * ConfigEntry * option TsNano => (x.1.1, entry_weight range x.1.2 x.2, x.1.2)) (rev b) in
  let c := sort_unstable_by_key (fun x : nat * DtNano * ConfigEntry => u64_sub (2 ^ 64 - 1) (DtNano_ns x.1.2)) c in
  match c with
  | (i, _, _) :: _ => let? e := index (cc_entries channel_config) i in Ok (MatchingSingle e)
  | [] => Ok MatchingNone
  end.
End Matching.
