(* ===== verification/ChannelConfigProofs.v ===== *)
(** * Properties of the channel configuration files

    [encode_config] writes a configuration file as the archive does; the
    parser gives back the configuration. The parser ends on every input. An
    entry whose length field is too small for its two length fields, or does
    not fit its fields, makes the parser panic. The entry that
    [extract_matching_config_entry] selects is in force over at least as much
    of the range as any other. *)
From Stdlib Require Import ZArith Lia.
From stdpp Require Import base numbers option strings list sorting.
From S2P Require Import Prelude TimeTypes NetpodTypes Ranges Utf8 Nom ChannelConfig.

#[local] Open Scope Z_scope.
#[local] Open Scope rust_scope.

(** ** The format *)

Definition enc_i (n : nat) (z : Z) : list Z := be_bytes n (wrap (uint_width n) z).

Definition enc_string (s : option (list Z)) : list Z :=
  match s with
  | None => enc_i 4 (-1)
  | Some s => enc_i 4 (Z.of_nat (length s) + 4) ++ s
  end.

Definition enc_dtmask (e : ConfigEntry) : Z :=
  (if cfg_is_compressed e then 0x80 else 0) + (if cfg_is_array e then 0x40 else 0) +
  (if ByteOrder_is_be (cfg_byte_order e) then 0x20 else 0) + (if cfg_is_shaped e then 0x10 else 0).

Definition enc_shape (s : option (list Z)) : list Z :=
  match s with
  | None => []
  | Some s => be_bytes 1 (Z.of_nat (length s)) ++ concat (map (be_bytes 4) s)
  end.

Definition enc_compression (c : option CompressionMethod) : list Z :=
  match c with None => [] | Some BitshuffleLZ4 => be_bytes 1 0 end.

(** [dtlen] is the length of the description of the type, which is ignored. *)
Definition enc_body (dtlen : Z) (e : ConfigEntry) : list Z :=
  be_bytes 8 (cfg_ts e) ++ enc_i 8 (cfg_pulse e) ++ enc_i 4 (cfg_ks e) ++ be_bytes 8 (cfg_bs e / MS) ++
  enc_i 4 (cfg_split_count e) ++ enc_i 4 (cfg_status e) ++ enc_i 1 (cfg_bb e) ++ enc_i 4 (cfg_modulo e) ++
  enc_i 4 (cfg_offset e) ++ enc_i 2 (cfg_precision e) ++ enc_i 4 dtlen ++
  be_bytes 1 (enc_dtmask e) ++ be_bytes 1 (ScalarType_index (cfg_scalar_type e)) ++
  enc_compression (cfg_compression_method e) ++ enc_shape (cfg_shape e) ++
  enc_string (cfg_source_name e) ++ enc_string (cfg_unit e) ++ enc_string (cfg_description e) ++
  enc_string (cfg_optional_fields e) ++ enc_string (cfg_value_converter e).

Definition enc_entry (dtlen : Z) (e : ConfigEntry) : list Z :=
  let len := Z.of_nat (length (enc_body dtlen e)) + 8 in
  enc_i 4 len ++ enc_body dtlen e ++ enc_i 4 len.

Definition enc_config (dtlen : Z) (c : ChannelConfigs) : list Z :=
  let len := Z.of_nat (length (cc_channel_name c)) + 8 in
  enc_i 2 (cc_format_version c) ++ enc_i 4 len ++ cc_channel_name c ++ enc_i 4 len ++
  concat (map (enc_entry dtlen) (cc_entries c)).

(** ** The configurations that can be written *)

Definition string_fits (s : option (list Z)) : Prop :=
  match s with None => True | Some s => utf8_valid s = true /\ (length s <= 496)%nat end.

Record entry_wf (e : ConfigEntry) : Prop := {
  ew_ts : is_u64 (cfg_ts e);
  ew_ts_human : cfg_ts_human e = cfg_ts e;
  ew_pulse : in_i 64 (cfg_pulse e);
  ew_ks : in_i 32 (cfg_ks e);
  ew_bs : is_u64 (cfg_bs e) /\ cfg_bs e mod MS = 0;
  ew_split_count : in_i 32 (cfg_split_count e);
  ew_status : in_i 32 (cfg_status e);
  ew_bb : in_i 8 (cfg_bb e);
  ew_modulo : in_i 32 (cfg_modulo e);
  ew_offset : in_i 32 (cfg_offset e);
  ew_precision : in_i 16 (cfg_precision e);
  ew_scalar_type : cfg_scalar_type e <> Enum;
  ew_compressed : cfg_is_compressed e = bool_decide (cfg_compression_method e <> None);
  ew_shaped : cfg_is_shaped e = bool_decide (cfg_shape e <> None);
  ew_shape : match cfg_shape e with None => True | Some s => (length s <= 4)%nat /\ Forall (in_u 32) s end;
  ew_source_name : string_fits (cfg_source_name e);
  ew_unit : string_fits (cfg_unit e);
  ew_description : string_fits (cfg_description e);
  ew_optional_fields : string_fits (cfg_optional_fields e);
  ew_value_converter : string_fits (cfg_value_converter e)
}.

Record config_wf (c : ChannelConfigs) : Prop := {
  cw_version : in_i 16 (cc_format_version c);
  cw_name : utf8_valid (cc_channel_name c) = true /\ (1 <= length (cc_channel_name c) <= 492)%nat;
  cw_entries : Forall entry_wf (cc_entries c)
}.

Lemma length_enc_i n z : length (enc_i n z) = n.
Proof. apply be_bytes_length. Qed.

Lemma length_enc_string s : string_fits s -> (length (enc_string s) <= 500)%nat.
Proof. destruct s as [s|]; cbn [string_fits enc_string]; [intros [_ Hs]|intros _]; rewrite ?length_app, length_enc_i; lia. Qed.

Lemma length_enc_shape s :
  match s with None => True | Some s => (length s <= 4)%nat /\ Forall (in_u 32) s end -> (length (enc_shape s) <= 17)%nat.
Proof.
  destruct s as [s|]; cbn [enc_shape]; [|cbn; lia]. intros [Hs _].
  do 5 (destruct s as [|? s]; [rewrite ?length_app, ?be_bytes_length; cbn [map concat]; rewrite ?length_app, ?be_bytes_length; cbn; lia|]).
  cbn in Hs. lia.
Qed.

Lemma length_enc_body dtlen e : entry_wf e -> (length (enc_body dtlen e) <= 3000)%nat.
Proof.
  intros []. unfold enc_body. rewrite !length_app, !length_enc_i, !be_bytes_length.
  repeat match goal with Hs : string_fits ?s |- _ => apply length_enc_string in Hs end.
  pose proof (length_enc_shape (cfg_shape e) ltac:(done)).
  assert (length (enc_compression (cfg_compression_method e)) <= 1)%nat
    by (destruct (cfg_compression_method e) as [[]|]; cbn; rewrite ?be_bytes_length; lia).
  lia.
Qed.

(** ** Round trip *)

Section Round.
Context `{HL : NomLaws}.

Lemma be_i_app n z rest : (0 < n)%nat -> in_i (uint_width n) z ->
  nom_be_i (E := cfg_error) from_error_kind n (enc_i n z ++ rest) = Ok (rest, z).
Proof. apply nom_be_i_app. Qed.

(** A field that is read as a signed number and used as an unsigned one. *)
Lemma be_i_unsigned n z rest : (0 < n)%nat -> in_u (uint_width n) z ->
  nom_be_i (E := cfg_error) from_error_kind n (be_bytes n z ++ rest) = Ok (rest, to_signed (uint_width n) z).
Proof.
  intros Hn Hz. rewrite nom_be_i_ok by (rewrite length_app, be_bytes_length; lia).
  rewrite drop_app_length', take_app_length' by (by rewrite be_bytes_length). by rewrite of_be_bytes_round.
Qed.

Lemma parse_short_string_round s rest : string_fits s -> parse_short_string (enc_string s ++ rest) = Ok (rest, s).
Proof.
  unfold parse_short_string, be_i32. destruct s as [s|]; cbn [enc_string string_fits].
  - intros [Hu Hs]. rewrite <- app_assoc, be_i_app by (unfold in_i, uint_width; lia). cbn [and_then].
    rewrite (proj2 (Z.eqb_neq _ _)), (proj2 (Z.ltb_ge _ _)), (proj2 (Z.ltb_ge _ _)) by lia.
    replace (Z.to_nat _) with (length s) by lia. rewrite take_bytes_app. cbn [and_then]. by rewrite Hu.
  - intros _. rewrite be_i_app by (unfold in_i, uint_width; lia). done.
Qed.

Lemma parse_dims_round s rest :
  Forall (in_u 32) s -> parse_dims (length s) (concat (map (be_bytes 4) s) ++ rest) = Ok (rest, s).
Proof.
  induction 1 as [|x s Hx _ IH]; [done|]. cbn [length parse_dims map concat].
  unfold be_i32. rewrite <- app_assoc, be_i_unsigned by (done || lia). cbn [and_then]. rewrite IH. cbn [and_then].
  by rewrite (to_signed_wrap 32).
Qed.

Lemma parse_compression_round c rest :
  parse_compression (bool_decide (c <> None)) (enc_compression c ++ rest) = Ok (rest, c).
Proof. destruct c as [[]|]; [|done]. rewrite bool_decide_true by done. cbn [parse_compression enc_compression]. unfold be_u8. by rewrite nom_be_u_app by (unfold in_u, uint_width; lia). Qed.

Lemma parse_shape_round s rest :
  match s with None => True | Some s => (length s <= 4)%nat /\ Forall (in_u 32) s end ->
  parse_shape (bool_decide (s <> None)) (enc_shape s ++ rest) = Ok (rest, s).
Proof.
  destruct s as [s|]; [|done]. intros [Hl Hs]. rewrite bool_decide_true by done. cbn [parse_shape enc_shape]. unfold be_u8.
  rewrite <- app_assoc, nom_be_u_app by (unfold in_u, uint_width; lia). cbn [and_then].
  rewrite (proj2 (Z.ltb_ge _ _)), Nat2Z.id by lia. by rewrite parse_dims_round.
Qed.

Lemma enc_dtmask_flags e :
  is_u8 (enc_dtmask e) /\ negb (Z.land (enc_dtmask e) 0x80 =? 0) = cfg_is_compressed e /\
  negb (Z.land (enc_dtmask e) 0x40 =? 0) = cfg_is_array e /\ negb (Z.land (enc_dtmask e) 0x10 =? 0) = cfg_is_shaped e /\
  ByteOrder_from_dtype_flags (enc_dtmask e) = cfg_byte_order e.
Proof.
  unfold enc_dtmask. destruct (cfg_is_compressed e), (cfg_is_array e), (cfg_is_shaped e), (cfg_byte_order e);
    (split; [unfold in_u; cbn; lia|done]).
Qed.

Lemma scalar_index_round t : t <> Enum ->
  0 <= ScalarType_index t <= 13 /\ ScalarType_from_dtype_index (ScalarType_index t) = Ok t.
Proof. by destruct t. Qed.

(** The entry is written with its block size in milliseconds. *)
Lemma bs_round bs : is_u64 bs -> bs mod MS = 0 ->
  in_u 64 (bs / MS) /\ u64_mul (bs / MS) MS = bs.
Proof.
  unfold is_u64, in_u, u64_mul, wrap. intros Hb Hm. pose proof (Z.div_mod bs MS ltac:(done)) as Hd.
  replace (bs / MS * MS) with bs by lia. split; [|apply Z.mod_small; lia].
  split; [apply Z.div_pos; [lia|done]|]. unfold MS, MU in *. nia.
Qed.

Lemma parse_entry_body_round dtlen e rest :
  entry_wf e -> in_i 32 dtlen -> dtlen <= 100 -> parse_entry_body (enc_body dtlen e ++ rest) = Ok (rest, e).
Proof.
  intros [] Hd Hdl. destruct ew_bs0 as [Hb Hbm]. destruct (bs_round _ Hb Hbm) as [Hb1 Hb2].
  destruct (enc_dtmask_flags e) as (Hm & Hm1 & Hm2 & Hm3 & Hm4). destruct (scalar_index_round _ ew_scalar_type0) as [Hs Hs1].
  unfold parse_entry_body, enc_body, be_i64, be_i32, be_i16, be_i8, be_u8. rewrite <- !app_assoc.
  repeat (first [rewrite be_i_app by (done || lia) | rewrite be_i_unsigned by (done || lia)
                | rewrite nom_be_u_app by (done || (unfold in_u, uint_width; lia))]; cbn [and_then]).
  rewrite (proj2 (Z.ltb_ge 100 _)), (proj2 (Z.ltb_ge 13 _)) by lia.
  rewrite Hs1. cbn [map_err and_then]. rewrite Hm1, Hm2, Hm3, Hm4.
  rewrite ew_compressed0, parse_compression_round. cbn [and_then]. rewrite ew_shaped0, parse_shape_round by done. cbn [and_then].
  repeat (rewrite parse_short_string_round by done; cbn [and_then]).
  rewrite (to_signed_wrap 64) by done. rewrite (to_signed_wrap 64) by done. unfold DtNano_from_ns, TsNano_from_ns.
  rewrite Hb2, <- ew_compressed0, <- ew_shaped0. rewrite <- ew_ts_human0 at 1. do 2 f_equal. destruct e. cbn in *. by subst.
Qed.

Lemma parse_entry_round dtlen e rest :
  entry_wf e -> in_i 32 dtlen -> dtlen <= 100 -> parse_entry (enc_entry dtlen e ++ rest) = Ok (rest, Some e).
Proof.
  intros He Hd Hdl. pose proof (length_enc_body dtlen e He) as Hl. unfold parse_entry, enc_entry, be_i32. cbv zeta.
  set (len := Z.of_nat (length (enc_body dtlen e)) + 8).
  rewrite <- !app_assoc, be_i_app by (unfold in_i, uint_width; lia). cbn [and_then].
  rewrite (proj2 (Z.ltb_ge len 0)), (proj2 (Z.ltb_ge 4000 len)) by lia. cbn [orb].
  rewrite (proj2 (Nat.eqb_neq _ _)) by (rewrite !length_app, length_enc_i; lia).
  rewrite (wrap_small 64 len), u64_sub_small by (unfold in_u; lia).
  rewrite (proj2 (Z.ltb_ge _ _)) by (rewrite !length_app, length_enc_i; lia).
  unfold slice_from. rewrite wrap_small by (unfold in_u; lia).
  rewrite (proj2 (Z.ltb_ge _ _)) by (rewrite !length_app, length_enc_i; lia). cbn [and_then].
  rewrite parse_entry_body_round by done. cbn [and_then].
  rewrite drop_app_length' by lia. rewrite Nat.eqb_refl. cbn [assert and_then].
  rewrite be_i_app by (unfold in_i, uint_width; lia). cbn [and_then]. by rewrite Z.eqb_refl.
Qed.

Lemma parse_entries_round dtlen es fuel acc :
  Forall entry_wf es -> in_i 32 dtlen -> dtlen <= 100 -> (length (concat (map (enc_entry dtlen) es)) <= fuel)%nat ->
  parse_entries fuel (concat (map (enc_entry dtlen) es)) acc = Some (Ok ([], acc ++ es)).
Proof.
  intros Hes Hd Hdl. revert fuel acc. induction Hes as [|e es He _ IH]; intros fuel acc Hf.
  - destruct fuel; cbn; by rewrite app_nil_r.
  - cbn [map concat] in *. rewrite length_app in Hf. unfold enc_entry in Hf at 1. cbv zeta in Hf. rewrite !length_app, !length_enc_i in Hf.
    destruct fuel as [|fuel]; [lia|]. cbn [parse_entries].
    rewrite (proj2 (Nat.ltb_lt _ _)) by (rewrite length_app; unfold enc_entry; cbv zeta; rewrite !length_app, !length_enc_i; lia).
    rewrite parse_entry_round by done. rewrite IH by lia. by rewrite <- app_assoc.
Qed.

(** C19. A configuration file that is written in the archive's format is read
    back as the configuration it was written from, whatever is in the field
    that the parser ignores. *)
Theorem cfg_config_round dtlen c :
  config_wf c -> in_i 32 dtlen -> dtlen <= 100 -> parse_config (enc_config dtlen c) = Some (Ok c).
Proof.
  intros [Hv [Hn Hnl] He] Hd Hdl. unfold parse_config, parse_config_inner, enc_config. cbv zeta.
  set (len := Z.of_nat (length (cc_channel_name c)) + 8). set (es := concat _).
  assert (parse_config_head (enc_i 2 (cc_format_version c) ++ enc_i 4 len ++ cc_channel_name c ++ enc_i 4 len ++ es) =
    Ok (es, (cc_format_version c, cc_channel_name c))) as ->.
  { unfold parse_config_head, be_i16, be_i32. rewrite be_i_app by (done || lia). cbn [and_then].
    rewrite be_i_app by (unfold in_i, uint_width; lia). cbn [and_then].
    rewrite (proj2 (Z.leb_gt _ _)), (proj2 (Z.ltb_ge _ _)) by lia. cbn [orb].
    replace (Z.to_nat (len - 8)) with (length (cc_channel_name c)) by lia. rewrite take_bytes_app. cbn [and_then].
    rewrite Hn. cbn [negb]. rewrite be_i_app by (unfold in_i, uint_width; lia). cbn [and_then]. by rewrite Z.eqb_refl. }
  unfold es. rewrite parse_entries_round; [|done..|rewrite !length_app; lia]. by destruct c.
Qed.
End Round.

(** ** Termination and panics *)

Section Total.
Context `{HL : NomLaws}.

Lemma parse_entry_takes inp rest o : parse_entry inp = Ok (rest, o) -> (length rest + 4 <= length inp)%nat.
Proof.
  unfold parse_entry. intros Hp. apply and_then_ok_inv in Hp as ([inp1 len1] & Hb1 & Hp).
  apply nom_be_i_inv in Hb1 as (Hl & -> & _). revert Hp. case_match; [done|]. case_match; [intros [= <- _]; rewrite length_drop; lia|].
  case_match; [done|]. intros Hp. apply and_then_ok_inv in Hp as (inp_e & He & Hp).
  apply and_then_ok_inv in Hp as ([inp2 e] & _ & Hp). apply and_then_ok_inv in Hp as ([] & _ & Hp).
  apply and_then_ok_inv in Hp as ([inp3 len2] & Hb2 & Hp). apply nom_be_i_inv in Hb2 as (Hl2 & -> & _).
  revert Hp. case_match; [done|]. intros [= <- _]. unfold slice_from in He. case_match; simplify_eq.
  rewrite !length_drop in *. lia.
Qed.

Lemma parse_entries_total fuel inp acc : (length inp <= fuel)%nat -> is_Some (parse_entries fuel inp acc).
Proof.
  revert inp acc. induction fuel as [|fuel IH]; intros inp acc Hf; cbn [parse_entries].
  - rewrite (proj2 (Nat.ltb_ge _ _)) by lia. eauto.
  - destruct (0 <? length inp)%nat; [|eauto]. destruct (parse_entry inp) as [[rest o]|e|] eqn:He; [|eauto..].
    apply IH. apply parse_entry_takes in He. lia.
Qed.

(** The parser ends on every input. *)
Theorem parse_config_total inp : is_Some (parse_config inp).
Proof.
  unfold parse_config, parse_config_inner. destruct (parse_config_head inp) as [[rest [ver name]]|e|] eqn:Hh; [|by eauto..].
  assert (length rest <= length inp)%nat as Hle.
  { unfold parse_config_head in Hh. apply and_then_ok_inv in Hh as ([i1 ?] & Hb1 & Hh). apply nom_be_i_inv in Hb1 as (? & -> & _).
    apply and_then_ok_inv in Hh as ([i2 ?] & Hb2 & Hh). apply nom_be_i_inv in Hb2 as (? & -> & _). case_match; [done|].
    apply and_then_ok_inv in Hh as ([i3 ?] & Hb3 & Hh). apply take_bytes_inv in Hb3 as (? & -> & _). case_match; [done|].
    apply and_then_ok_inv in Hh as ([i4 ?] & Hb4 & Hh). apply nom_be_i_inv in Hb4 as (? & -> & _). case_match; [done|].
    injection Hh as <- _ _. rewrite !length_drop. lia. }
  destruct (parse_entries_total (length inp) rest [] Hle) as [r ->]. cbn. eauto.
Qed.

Lemma parse_short_string_no_panic inp : parse_short_string inp <> Panic.
Proof.
  unfold parse_short_string, be_i32. destruct (nom_be_i _ 4 inp) as [[i l]| |] eqn:Hi; [|done|by apply nom_be_i_no_panic in Hi].
  cbn [and_then]. repeat case_match; try done. destruct (take_bytes _ i) as [[]| |] eqn:Ht; [|done|by apply take_bytes_no_panic in Ht].
  cbn. by case_match.
Qed.

Lemma parse_dims_no_panic n inp : parse_dims n inp <> Panic.
Proof.
  revert inp. induction n as [|n IH]; intros inp; [done|]. cbn [parse_dims]. unfold be_i32.
  destruct (nom_be_i _ 4 inp) as [[i l]| |] eqn:Hi; [|done|by apply nom_be_i_no_panic in Hi]. cbn [and_then].
  specialize (IH i). by destruct (parse_dims n i) as [[]| |].
Qed.

Lemma parse_shape_no_panic b inp : parse_shape b inp <> Panic.
Proof.
  unfold parse_shape, be_u8. destruct b; [|done].
  destruct (nom_be_u _ 1 inp) as [[i l]| |] eqn:Hi; [|done|by apply nom_be_u_no_panic in Hi]. cbn [and_then].
  case_match; [done|]. destruct (parse_dims _ i) as [[]| |] eqn:Hd; [done|done|]. by apply parse_dims_no_panic in Hd.
Qed.

Lemma parse_compression_no_panic b inp : parse_compression b inp <> Panic.
Proof.
  unfold parse_compression, be_u8. destruct b; [|done].
  destruct (nom_be_u _ 1 inp) as [[i l]| |] eqn:Hi; [|done|by apply nom_be_u_no_panic in Hi]. cbn. by case_match.
Qed.

Lemma scalar_index_no_panic {E} (f : netpod_error -> E) ix : map_err f (ScalarType_from_dtype_index ix) <> Panic.
Proof. unfold ScalarType_from_dtype_index. repeat case_match; done. Qed.

Lemma parse_entry_body_no_panic inp : parse_entry_body inp <> Panic.
Proof.
  unfold parse_entry_body, be_i64, be_i32, be_i16, be_i8, be_u8. intros Hp.
  repeat match type of Hp with
  | and_then ?m _ = Panic =>
      let Hm := fresh "Hm" in let x := fresh "x" in
      destruct m as [x| |] eqn:Hm;
      [ cbn [and_then] in Hp; try (let i := fresh "inp" in destruct x as [i x])
      | done
      | revert Hm; first [apply nom_be_i_no_panic | apply nom_be_u_no_panic | apply scalar_index_no_panic
          | apply parse_compression_no_panic | apply parse_shape_no_panic | apply parse_short_string_no_panic] ]
  | (if ?b then _ else _) = Panic => destruct b; [done|]
  | _ => done
  end.
Qed.

(** The lengths that pass the test for the rest of the entry. *)
Lemma entry_len_room len1 room :
  0 <= len1 <= 4000 -> 0 <= room < 2 ^ 63 -> u64_sub len1 4 <= room -> 4 <= len1 /\ len1 - 4 <= room.
Proof.
  intros Hl Hr Hs. destruct (decide (4 <= len1)); [rewrite u64_sub_small in Hs by lia; lia|].
  unfold u64_sub, wrap in Hs. rewrite <- (Z.mod_unique_pos (len1 - 4) (2 ^ 64) (-1) (len1 - 4 + 2 ^ 64)) in Hs by lia. lia.
Qed.

Lemma wrap_neg z : - 2 ^ 64 <= z < 0 -> wrap 64 z = z + 2 ^ 64.
Proof. intros Hz. unfold wrap. symmetry. apply (Z.mod_unique_pos _ _ (-1)); lia. Qed.

(** An entry makes the parser panic exactly when its length field cannot
    hold the two length fields, or when its fields do not end where the length
    field says: every other input is parsed or rejected. *)
Theorem parse_entry_panics inp :
  Z.of_nat (length inp) < 2 ^ 63 ->
  parse_entry inp = Panic <->
  exists rest len1,
    be_i32 (E := cfg_error) inp = Ok (rest, len1) /\ 4 <= len1 <= 4000 /\ rest <> [] /\ len1 - 4 <= Z.of_nat (length rest) /\
    (len1 < 8 \/ exists rest' e, parse_entry_body rest = Ok (rest', e) /\
      Z.of_nat (length rest') <> Z.of_nat (length rest) - (len1 - 8)).
Proof.
  intros Hn. unfold parse_entry. destruct (be_i32 inp) as [[rest len1]|e|] eqn:Hb; cycle 1.
  { split; [done|]. by intros (? & ? & ? & _). }
  { by apply nom_be_i_no_panic in Hb. }
  cbn [and_then]. pose proof (nom_be_i_inv _ _ _ _ Hb) as (_ & Hr & _).
  assert (length rest <= length inp)%nat by (rewrite Hr, length_drop; lia). clear Hr.
  split.
  - intros Hp. exists rest, len1. split; [done|]. destruct (Z.ltb_spec len1 0); [done|]. destruct (Z.ltb_spec 4000 len1); [done|]. cbn [orb] in Hp.
    destruct (Nat.eqb_spec (length rest) 0); [done|]. rewrite (wrap_small 64 len1) in Hp by (unfold in_u; lia).
    destruct (Z.ltb_spec (Z.of_nat (length rest)) (u64_sub len1 4)) as [|Hge]; [done|].
    destruct (entry_len_room len1 (Z.of_nat (length rest))) as [Hl4 Hlr]; [lia..|].
    split; [lia|]. split; [by destruct rest|]. split; [done|]. destruct (decide (len1 < 8)) as [|Hl8]; [by left|right].
    unfold slice_from in Hp. rewrite (wrap_small 64 (len1 - 8)) in Hp by (unfold in_u; lia).
    rewrite (proj2 (Z.ltb_ge _ _)) in Hp by lia. cbn [and_then] in Hp.
    destruct (parse_entry_body rest) as [[rest' e]| |] eqn:He; [|done|by apply parse_entry_body_no_panic in He].
    cbn [and_then] in Hp. exists rest', e. split; [done|]. intros Heq. rewrite (proj2 (Nat.eqb_eq _ _)) in Hp by (rewrite length_drop; lia).
    cbn [assert and_then] in Hp. unfold be_i32 in Hp.
    destruct (nom_be_i _ 4 _) as [[]| |] eqn:Hi in Hp; [|done|by apply nom_be_i_no_panic in Hi]. cbn in Hp. by case_match.
  - intros (? & ? & [= <- <-] & Hl & Hne & Hlr & Hc). rewrite (proj2 (Z.ltb_ge len1 0)), (proj2 (Z.ltb_ge 4000 len1)) by lia. cbn [orb].
    rewrite (proj2 (Nat.eqb_neq _ _)) by (by destruct rest). rewrite (wrap_small 64 len1), u64_sub_small by (unfold in_u; lia).
    rewrite (proj2 (Z.ltb_ge _ _)) by lia. destruct Hc as [Hc|(rest' & e & He & Hd)].
    + unfold slice_from. rewrite wrap_neg by lia. by rewrite (proj2 (Z.ltb_lt _ _)) by lia.
    + destruct (decide (len1 < 8)).
      * unfold slice_from. rewrite wrap_neg by lia. by rewrite (proj2 (Z.ltb_lt _ _)) by lia.
      * unfold slice_from. rewrite (wrap_small 64 (len1 - 8)) by (unfold in_u; lia). rewrite (proj2 (Z.ltb_ge _ _)) by lia.
        cbn [and_then]. rewrite He. cbn [and_then]. by rewrite (proj2 (Nat.eqb_neq _ _)) by (rewrite length_drop; lia).
Qed.
End Total.

Lemma parse_entry_panics_witness :
  parse_entry (H := nom_std) [0; 0; 0; 5; 0] = Panic /\
  exists rest len1,
    be_i32 (H := nom_std) (E := cfg_error) [0; 0; 0; 5; 0] = Ok (rest, len1) /\ 4 <= len1 <= 4000 /\ rest <> [] /\
    len1 - 4 <= Z.of_nat (length rest) /\
    (len1 < 8 \/ exists rest' e, parse_entry_body (H := nom_std) rest = Ok (rest', e) /\
      Z.of_nat (length rest') <> Z.of_nat (length rest) - (len1 - 8)).
Proof.
  assert (parse_entry (H := nom_std) [0; 0; 0; 5; 0] = Panic) as Hp by reflexivity.
  split; [exact Hp|]. exact (proj1 (parse_entry_panics (H := nom_std) [0; 0; 0; 5; 0] ltac:(reflexivity)) Hp).
Defined.

(** ** The entry for a range *)

(** Until when an entry from [ts] is in force, at most until [t_end]. *)
Definition in_force_until (ts t_end : Z) (entries : list ConfigEntry) : Z :=
  foldr Z.min t_end (filter (fun t => ts < t) (map cfg_ts entries)).

(** For how long an entry is in force within the range. *)
Definition overlap (range : NanoRange) (entries : list ConfigEntry) (e : ConfigEntry) : Z :=
  Z.max 0 (in_force_until (cfg_ts e) (nr_end range) entries - Z.max (nr_beg range) (cfg_ts e)).

Lemma foldr_min_spec t l z : z <= foldr Z.min t l <-> z <= t /\ Forall (fun x => z <= x) l.
Proof.
  induction l as [|x l IH]; cbn [foldr]; [split; [auto|by intros []]|].
  rewrite Z.min_glb_iff, IH, Forall_cons. tauto.
Qed.

Lemma in_force_until_spec ts t es z :
  z <= in_force_until ts t es <-> z <= t /\ forall e, e ∈ es -> ts < cfg_ts e -> z <= cfg_ts e.
Proof.
  unfold in_force_until. rewrite foldr_min_spec, Forall_forall. apply and_iff_compat_l. split.
  - intros Hf e He Ht. apply Hf, list_elem_of_filter. split; [done|]. by apply list_elem_of_fmap_2.
  - intros Hf x Hx. apply list_elem_of_filter in Hx as [Ht Hx]. apply list_elem_of_fmap in Hx as (e & -> & He). by apply Hf.
Qed.

(** The timestamp that follows in a list of entries. *)
Definition next_of (last : option TsNano) (a : list (nat * ConfigEntry)) : option TsNano :=
  match a with [] => last | x :: _ => Some (cfg_ts x.2) end.

Fixpoint zip_next (last : option TsNano) (a : list (nat * ConfigEntry)) : list (nat * ConfigEntry * option TsNano) :=
  match a with
  | [] => []
  | x :: a => (x, next_of last a) :: zip_next last a
  end.

Lemma with_next_snoc a last x :
  with_next last (a ++ [x]) = with_next last a ++ [(x, next_of last (rev a))].
Proof.
  revert last. induction a as [|[i y] a IH]; intros last; [by destruct x|]. cbn [app with_next]. rewrite IH. cbn [app rev].
  do 3 f_equal. destruct (rev a); done.
Qed.

Lemma with_next_rev a last : rev (with_next last (rev a)) = zip_next last a.
Proof.
  induction a as [|x a IH]; [done|]. cbn [rev zip_next]. rewrite with_next_snoc, rev_app_distr, rev_involutive. cbn [rev app]. by rewrite IH.
Qed.

Lemma zip_next_fst last a : map fst (zip_next last a) = a.
Proof. induction a as [|x a IH]; [done|]. cbn. by rewrite IH. Qed.

Definition by_ts (a b : nat * ConfigEntry) : Prop := TsNano_ns (cfg_ts a.2) <= TsNano_ns (cfg_ts b.2).

(** What follows an entry in the sorted list. *)
Lemma zip_next_sorted a x n :
  StronglySorted by_ts a -> (x, n) ∈ zip_next None a ->
  match n with
  | Some t => cfg_ts x.2 <= t /\ (exists y, y ∈ a /\ cfg_ts y.2 = t) /\ forall y, y ∈ a -> cfg_ts x.2 < cfg_ts y.2 -> t <= cfg_ts y.2
  | None => forall y, y ∈ a -> cfg_ts y.2 <= cfg_ts x.2
  end.
Proof.
  induction 1 as [|z a Hs IH Hz]; [by intros ?%elem_of_nil|]. cbn [zip_next]. unfold by_ts, TsNano_ns in *.
  intros [[= -> ->]|Hx]%elem_of_cons.
  - destruct Hs as [|y a Hs Hy]; cbn [next_of].
    + intros y [->|?%elem_of_nil]%elem_of_cons; [lia|done].
    + inversion Hz; subst. split; [done|]. split; [exists y; split; [right; left|done]|].
      rewrite Forall_forall in Hy. intros w [->|[->|Hw]%elem_of_cons]%elem_of_cons Hlt; [lia|lia|by apply Hy].
  - specialize (IH Hx). rewrite Forall_forall in Hz. assert (x ∈ a) as Hxa.
    { rewrite <- (zip_next_fst None a). apply list_elem_of_fmap. by exists (x, n). }
    pose proof (Hz x Hxa). destruct n as [t|].
    + destruct IH as (? & (y & ? & ?) & IH). split; [done|]. split; [exists y; split; [rewrite !elem_of_cons; auto|done]|].
      intros w [->|Hw]%elem_of_cons Hlt; [lia|by apply IH].
    + intros w [->|Hw]%elem_of_cons; [lia|by apply IH].
Qed.

(** Of the entries from the same time the last one counts. *)
Lemma zip_next_last a x :
  StronglySorted by_ts a -> x ∈ a ->
  exists y n, (y, n) ∈ zip_next None a /\ cfg_ts y.2 = cfg_ts x.2 /\
    match n with Some t => cfg_ts y.2 < t | None => True end.
Proof.
  intros Hs. revert x. induction Hs as [|z a Hs IH Hz]; intros x Hx; [by apply elem_of_nil in Hx|]. cbn [zip_next].
  assert (forall x, x ∈ a -> exists y n, (y, n) ∈ (z, next_of None a) :: zip_next None a /\ cfg_ts y.2 = cfg_ts x.2 /\
    match n with Some t => cfg_ts y.2 < t | None => True end) as Hin.
  { intros x' (y & n & ? & ?)%IH. exists y, n. rewrite elem_of_cons. auto. }
  apply elem_of_cons in Hx as [->|Hx]; [|by apply Hin]. destruct a as [|y a].
  - exists z, None. split; [left|done].
  - inversion Hz as [|? ? Hzy]; subst. unfold by_ts, TsNano_ns in Hzy. destruct (decide (cfg_ts z.2 < cfg_ts y.2)).
    + exists z, (Some (cfg_ts y.2)). split; [left|done].
    + replace (cfg_ts z.2) with (cfg_ts y.2) by lia. apply Hin. left.
Qed.

Section Matching.
Context (range : NanoRange) (Hbeg : is_u64 (nr_beg range)) (Hend : is_u64 (nr_end range)) (Hle : nr_beg range <= nr_end range).

Lemma entry_weight_spec e n :
  is_u64 (cfg_ts e) -> match n with Some t => cfg_ts e <= t /\ is_u64 t | None => True end ->
  entry_weight range e n =
    Z.max 0 (match n with Some t => Z.min (nr_end range) t | None => nr_end range end - Z.max (nr_beg range) (cfg_ts e)).
Proof.
  unfold is_u64, in_u in *. intros He Hn. unfold entry_weight, DtNano_from_ns, TsNano_ns, NanoRange_delta.
  destruct n as [t|].
  - destruct (Z.ltb_spec (cfg_ts e) (nr_end range)); [|lia]. destruct (Z.ltb_spec (cfg_ts e) (nr_beg range)),
      (Z.ltb_spec t (nr_beg range)), (Z.ltb_spec t (nr_end range)); rewrite u64_sub_small by lia; lia.
  - destruct (Z.ltb_spec (cfg_ts e) (nr_end range)); [|lia]. destruct (Z.ltb_spec (cfg_ts e) (nr_beg range));
      rewrite u64_sub_small by lia; lia.
Qed.

Context (es : list ConfigEntry) (Hes : Forall (fun e => is_u64 (cfg_ts e)) es).
Context (a : list (nat * ConfigEntry)) (Ha : StronglySorted by_ts a) (Hae : map snd a ≡ₚ es).

Lemma sorted_elem x : x ∈ a -> x.2 ∈ es.
Proof. intros Hx. rewrite <- Hae. by apply list_elem_of_fmap_2. Qed.

Lemma sorted_elem_inv e : e ∈ es -> exists x, x ∈ a /\ x.2 = e.
Proof. rewrite <- Hae. intros (x & -> & Hx)%list_elem_of_fmap. eauto. Qed.

Lemma zip_next_elem x n : (x, n) ∈ zip_next None a -> x ∈ a.
Proof. intros Hx. rewrite <- (zip_next_fst None a). apply list_elem_of_fmap. by exists (x, n). Qed.

Lemma weight_overlap x n :
  (x, n) ∈ zip_next None a ->
  entry_weight range x.2 n <= overlap range es x.2 /\
  (match n with Some t => cfg_ts x.2 < t | None => True end -> entry_weight range x.2 n = overlap range es x.2).
Proof.
  intros Hx. pose proof (zip_next_sorted _ _ _ Ha Hx) as Hn. pose proof (zip_next_elem _ _ Hx) as Hxa.
  rewrite Forall_forall in Hes. rewrite entry_weight_spec.
  2: { apply Hes. by apply sorted_elem. }
  2: { destruct n as [t|]; [|done]. destruct Hn as (? & (y & Hy & <-) & _). split; [done|]. apply Hes. by apply sorted_elem. }
  unfold overlap. pose proof (in_force_until_spec (cfg_ts x.2) (nr_end range) es) as Hf.
  set (u := in_force_until (cfg_ts x.2) (nr_end range) es) in *. destruct (proj1 (Hf u) ltac:(lia)) as [Hu1 Hu2].
  destruct n as [t|].
  - destruct Hn as (Hxt & (y & Hy & Hyt) & Hmin).
    assert (Z.min (nr_end range) t <= u) as Hle1.
    { apply Hf. split; [lia|]. intros e (w & Hw & <-)%sorted_elem_inv Hlt. specialize (Hmin w Hw Hlt). lia. }
    split; [lia|]. intros Hlt. specialize (Hu2 y.2 (sorted_elem y Hy)). lia.
  - assert (u = nr_end range) as ->; [|lia]. apply Z.le_antisymm; [done|]. apply Hf. split; [done|].
    intros e (w & Hw & <-)%sorted_elem_inv Hlt. specialize (Hn w Hw). lia.
Qed.

(** An entry of the largest weight has the largest overlap. *)
Lemma weight_max x n :
  (x, n) ∈ zip_next None a ->
  (forall y m, (y, m) ∈ zip_next None a -> entry_weight range y.2 m <= entry_weight range x.2 n) ->
  forall e, e ∈ es -> overlap range es e <= overlap range es x.2.
Proof.
  intros Hx Hmax e (y & Hy & <-)%sorted_elem_inv. destruct (zip_next_last a y Ha Hy) as (z & m & Hz & Hzt & Hm).
  destruct (weight_overlap z m Hz) as [_ Hw]. specialize (Hmax z m Hz). rewrite (Hw Hm) in Hmax.
  destruct (weight_overlap x n Hx) as [Hxw _]. replace (overlap range es y.2) with (overlap range es z.2); [lia|].
  unfold overlap. by rewrite Hzt.
Qed.

Lemma weight_u64 x n : (x, n) ∈ zip_next None a -> is_u64 (entry_weight range x.2 n).
Proof.
  intros Hx. pose proof (zip_next_sorted _ _ _ Ha Hx) as Hn. pose proof (zip_next_elem _ _ Hx) as Hxa.
  rewrite Forall_forall in Hes. rewrite entry_weight_spec.
  2: { apply Hes. by apply sorted_elem. }
  2: { destruct n as [t|]; [|done]. destruct Hn as (? & (y & Hy & <-) & _). split; [done|]. apply Hes. by apply sorted_elem. }
  pose proof (Hes x.2 (sorted_elem x Hxa)). unfold is_u64, in_u in *. destruct n; lia.
Qed.
End Matching.

Lemma enumerate_lookup {A} (l : list A) k i x : (i, x) ∈ zip (seq k (length l)) l -> l !! (i - k)%nat = Some x /\ (k <= i)%nat.
Proof.
  revert k. induction l as [|y l IH]; intros k; cbn; [by intros ?%elem_of_nil|].
  intros [[= -> ->]|Hx]%elem_of_cons; [by rewrite Nat.sub_diag|]. apply IH in Hx as [Hl Hk].
  replace (i - k)%nat with (S (i - S k)) by lia. split; [done|lia].
Qed.

Lemma enumerate_snd {A} (l : list A) k : map snd (zip (seq k (length l)) l) = l.
Proof. revert k. induction l as [|y l IH]; intros k; [done|]. cbn. by rewrite IH. Qed.

(** The entry that is selected for a range is one of the configuration,
    and no other entry is in force over more of the range; there is none only
    when the configuration has no entries. The order of the entries in the file
    and the order in which the sort leaves equal keys do not matter. *)
Theorem matching_entry_best `{HS : SortUnstableLaws} range c :
  is_u64 (nr_beg range) -> is_u64 (nr_end range) -> nr_beg range <= nr_end range ->
  Forall (fun e => is_u64 (cfg_ts e)) (cc_entries c) ->
  match extract_matching_config_entry range c with
  | Ok m =>
      match MatchingConfigEntry_best m with
      | None => cc_entries c = []
      | Some e => e ∈ cc_entries c /\
          forall e', e' ∈ cc_entries c -> overlap range (cc_entries c) e' <= overlap range (cc_entries c) e
      end
  | _ => False
  end.
Proof.
  intros Hb He Hle Hes. unfold extract_matching_config_entry. cbv zeta.
  set (l := zip _ _). pose proof (sort_unstable_perm (fun x : nat * ConfigEntry => TsNano_ns (cfg_ts x.2)) l) as Hp.
  pose proof (sort_unstable_sorted (fun x : nat * ConfigEntry => TsNano_ns (cfg_ts x.2)) l) as Hs.
  set (a := sort_unstable_by_key _ l) in *. rewrite with_next_rev.
  assert (map snd a ≡ₚ cc_entries c) as Hae by (rewrite Hp; unfold l; by rewrite enumerate_snd).
  set (w := map _ (zip_next None a)). pose proof (sort_unstable_perm (fun x : nat * DtNano * ConfigEntry => u64_sub (2 ^ 64 - 1) (DtNano_ns x.1.2)) w) as Hwp.
  pose proof (sort_unstable_sorted (fun x : nat * DtNano * ConfigEntry => u64_sub (2 ^ 64 - 1) (DtNano_ns x.1.2)) w) as Hws.
  destruct (sort_unstable_by_key _ w) as [|[[i dt] e] ws].
  - cbn. apply Permutation_nil in Hwp. unfold w in Hwp. apply map_eq_nil in Hwp.
    apply (f_equal (map fst)) in Hwp. rewrite zip_next_fst in Hwp. rewrite Hwp in Hae. by apply Permutation_nil in Hae.
  - assert ((i, dt, e) ∈ w) as Hin by (rewrite <- Hwp; left). unfold w in Hin.
    apply list_elem_of_fmap in Hin as ([[i' e'] n] & [= -> -> ->] & Hx). cbn [fst snd] in *.
    pose proof (zip_next_elem a (i', e') n Hx) as Hxa. pose proof Hxa as Hxl. rewrite Hp in Hxl. unfold l in Hxl.
    apply enumerate_lookup in Hxl as [Hl _]. rewrite Nat.sub_0_r in Hl. unfold index. rewrite Hl. cbn.
    split; [by eapply list_elem_of_lookup_2|].
    apply (weight_max range Hb He Hle (cc_entries c) Hes a Hs Hae (i', e') n Hx).
    intros y m Hy. pose proof (weight_u64 range Hb He Hle (cc_entries c) Hes a Hs Hae y m Hy) as Hyu.
    pose proof (weight_u64 range Hb He Hle (cc_entries c) Hes a Hs Hae _ _ Hx) as Hxu.
    assert ((y.1, entry_weight range y.2 m, y.2) ∈ (i', entry_weight range e' n, e') :: ws) as Hyw.
    { rewrite Hwp. unfold w. apply list_elem_of_fmap. exists (y, m). done. }
    inversion Hws as [|? ? _ Hf]; subst. rewrite Forall_forall in Hf.
    apply elem_of_cons in Hyw as [[= _ -> _]|Hyw]; [done|]. specialize (Hf _ Hyw). cbn [fst snd] in *.
    unfold DtNano_ns, is_u64, in_u in *. rewrite !u64_sub_small in Hf by lia. lia.
Qed.

(** A stable sort is one of the sorts. *)
Definition key_le {A} (key : A -> Z) (a b : A) : Prop := key a <= key b.

#[export] Instance key_le_dec {A} (key : A -> Z) : RelDecision (key_le key) := fun a b => Z_le_dec (key a) (key b).

#[export] Instance std_sort : SortUnstable := {| sort_unstable_by_key := fun A key l => merge_sort (key_le key) l |}.

#[export] Instance std_sort_laws : SortUnstableLaws.
Proof.
  split; cbn; intros A key l; [apply merge_sort_Permutation|].
  apply StronglySorted_merge_sort; [intros x y z|intros x y]; unfold key_le; lia.
Qed.

(** A configuration of two entries, a compressed waveform and a scalar. *)
Definition example_config : ChannelConfigs :=
  let e ts comp shape := {|
    cfg_ts := ts; cfg_ts_human := ts; cfg_pulse := -3; cfg_ks := 2; cfg_bs := 3600000 * MS; cfg_split_count := 1;
    cfg_status := 0; cfg_bb := -1; cfg_modulo := 1; cfg_offset := 0; cfg_precision := -7; cfg_scalar_type := F32;
    cfg_is_compressed := bool_decide (comp <> None); cfg_is_shaped := bool_decide (shape <> None); cfg_is_array := true;
    cfg_byte_order := Big; cfg_compression_method := comp; cfg_shape := shape; cfg_source_name := Some [97; 98];
    cfg_unit := None; cfg_description := Some []; cfg_optional_fields := None; cfg_value_converter := None |} in
  mkChannelConfigs 0 [97; 98; 99] [e 1000 (Some BitshuffleLZ4) (Some [2048]); e 5000 None None].

Lemma cfg_config_round_witness :
  parse_config (H := nom_std) (enc_config 7 example_config) = Some (Ok example_config).
Proof.
  apply (cfg_config_round (H := nom_std) 7 example_config).
  - split; [unfold in_i; cbn; lia|split; [reflexivity|cbn; lia]|].
    repeat constructor; try (unfold in_i, in_u, is_u64, in_u; cbn; lia); try done; cbn; try lia; repeat constructor; cbn; lia.
  - unfold in_i. lia.
  - lia.
Defined.

Lemma matching_entry_best_witness :
  exists e, extract_matching_config_entry (mkNanoRange 2000 9000) example_config = Ok (MatchingSingle e) /\ cfg_ts e = 5000 /\
    forall e', e' ∈ cc_entries example_config ->
      overlap (mkNanoRange 2000 9000) (cc_entries example_config) e' <= overlap (mkNanoRange 2000 9000) (cc_entries example_config) e.
Proof.
  eexists. split; [vm_compute; reflexivity|]. split; [reflexivity|].
  refine (proj2 (matching_entry_best (mkNanoRange 2000 9000) example_config _ _ _ _)); cbn; unfold is_u64, in_u;
    [cbn; lia..|]. repeat constructor; cbn; lia.
Defined.
