(* ===== verification/Api1.v ===== *)
(** * Frames of the first version of the API

    [daqbuf-parse/src/api1_parse.rs]: the header of a channel, and the parser of
    the frames of a response: the length, the kind of the frame, its content,
    and the length again. The content of a header is JSON, which [serde_json]
    decodes: [json_from_slice] is a parameter. [enc_api1_frames] writes the
    frames; the parser gives them back, and stops at what follows. *)
From Stdlib Require Import ZArith Lia String.
From stdpp Require Import base numbers option strings list.
From S2P Require Import Prelude NetpodTypes Nom ChannelConfig.

#[local] Open Scope Z_scope.
#[local] Open Scope rust_scope.

Inductive Api1ByteOrder : Type := Api1Little | Api1Big.

Inductive Api1ScalarType : Type :=
  | A1U8 | A1U16 | A1U32 | A1U64 | A1I8 | A1I16 | A1I32 | A1I64 | A1F32 | A1F64 | A1BOOL | A1STRING.

Definition Api1ScalarType_to_str (t : Api1ScalarType) : string :=
  match t with
  | A1U8 => "uint8"
  | A1U16 => "uint16"
  | A1U32 => "uint32"
  | A1U64 => "uint64"
  | A1I8 => "int8"
  | A1I16 => "int16"
  | A1I32 => "int32"
  | A1I64 => "int64"
  | A1F32 => "float32"
  | A1F64 => "float64"
  | A1BOOL => "bool"
  | A1STRING => "string"
  end.

Definition Api1ScalarType_from (t : ScalarType) : Api1ScalarType :=
  match t with
  | U8 => A1U8
  | U16 => A1U16
  | U32 => A1U32
  | U64 => A1U64
  | I8 => A1I8
  | I16 => A1I16
  | I32 => A1I32
  | I64 => A1I64
  | F32 => A1F32
  | F64 => A1F64
  | BOOL => A1BOOL
  | STRING => A1STRING
  | Enum => A1U16
  end.

Record Api1ChannelHeader : Type := mkApi1ChannelHeader {
  ah_name : list Z;
  ah_ty : Api1ScalarType;
  ah_byte_order : Api1ByteOrder;
  ah_shape : list Z;
  ah_compression : option CompressionMethod
}.

Definition Api1ChannelHeader_new (name : list Z) (ty : Api1ScalarType) (byte_order : Api1ByteOrder) (shape : Shape)
    (compression : option CompressionMethod) : Api1ChannelHeader :=
  mkApi1ChannelHeader name ty byte_order (Shape_to_u32_vec shape) compression.

(** [serde_compression_method]: the number in the JSON, if there is one. *)
Definition compression_serialize (v : option CompressionMethod) : option Z :=
  match v with Some BitshuffleLZ4 => Some 1 | None => None end.

(** The number that is not a variant. *)
Definition compression_visit_u64 (v : Z) : outcome Z (option CompressionMethod) :=
  if v =? 0 then Ok None else if v =? 1 then Ok (Some BitshuffleLZ4) else Err v.

Definition compression_deserialize (v : option Z) : outcome Z (option CompressionMethod) :=
  match v with Some v => compression_visit_u64 v | None => Ok None end.

Inductive Api1Frame : Type :=
  | Api1Header (header : Api1ChannelHeader)
  | Api1Data (ts pulse : Z) (data : list Z).

Section Api1.
Context (json_from_slice : list Z -> option Api1ChannelHeader).
Context `{ParseError E}.

Definition fail_on_input {A} : parser E A := fun inp => Err (NFailure (from_error_kind inp ek_Fail)).

Definition api1_header (inp : list Z) : nres E Api1Frame :=
  match json_from_slice inp with
  | Some k => Ok (drop (length inp) inp, Api1Header k)
  | None => nom_context fail_on_input inp
  end.

Definition api1_data (inp : list Z) : nres E Api1Frame :=
  if (length inp <? 16)%nat then Err (NIncomplete 16)
  else
    let? (inp, ts) := be_u64 inp in
    let? (inp, pulse) := be_u64 inp in
    let? (inp, data) := take_bytes (length inp) inp in
    Ok (inp, Api1Data ts pulse data).

Definition api1_frame_complete (inp : list Z) : nres E Api1Frame :=
  let? (inp, mtype) := be_u8 inp in
  if mtype =? 0 then
    let? (inp, val) := api1_header inp in
    if negb (length inp =? 0)%nat then nom_context fail_on_input inp else Ok (inp, val)
  else if mtype =? 1 then
    let? (inp, val) := api1_data inp in
    if negb (length inp =? 0)%nat then nom_context fail_on_input inp else Ok (inp, val)
  else Err (NIncomplete 1).

Definition api1_frame (inp : list Z) : nres E Api1Frame :=
  let inp_orig := inp in
  let? (inp, len) := be_u32 inp in
  if len <? 1 then Err (NFailure (from_error_kind inp ek_Fail))
  else if Z.of_nat (length inp) <? len + 4 then Err (NIncomplete len)
  else
    let? (inp, payload) := take_bytes (Z.to_nat len) inp in
    let? (inp, len2) := be_u32 inp in
    if negb (len =? len2) then Err (NFailure (from_error_kind inp_orig ek_Fail))
    else
      let? (left_, res) := api1_frame_complete payload in
      if negb (length left_ =? 0)%nat then nom_context fail_on_input inp_orig else Ok (inp, res).

Definition api1_frames (inp : list Z) : nres E (list Api1Frame) := many0 api1_frame inp.
End Api1.

(** ** The format *)

Section Format.
Context (json_from_slice : list Z -> option Api1ChannelHeader) (json : Api1ChannelHeader -> list Z).

Definition enc_api1_payload (f : Api1Frame) : list Z :=
  match f with
  | Api1Header h => 0 :: json h
  | Api1Data ts pulse data => 1 :: be_bytes 8 ts ++ be_bytes 8 pulse ++ data
  end.

Definition enc_api1_frame (f : Api1Frame) : list Z :=
  let len := Z.of_nat (length (enc_api1_payload f)) in
  be_bytes 4 len ++ enc_api1_payload f ++ be_bytes 4 len.

Definition enc_api1_frames (fs : list Api1Frame) : list Z := concat (map enc_api1_frame fs).

Definition api1_frame_wf (f : Api1Frame) : Prop :=
  in_u 32 (Z.of_nat (length (enc_api1_payload f))) /\
  match f with
  | Api1Header h => json_from_slice (json h) = Some h
  | Api1Data ts pulse _ => is_u64 ts /\ is_u64 pulse
  end.
End Format.

Section Facts.
Context `{HL : NomLaws} `{PE : !ParseError E}.
Context (json_from_slice : list Z -> option Api1ChannelHeader) (json : Api1ChannelHeader -> list Z).

Lemma nom_be_u_cons b rest : is_u8 b -> nom_be_u (E := E) from_error_kind 1 (b :: rest) = Ok (rest, b).
Proof. intros Hb. rewrite nom_be_u_ok by (cbn; lia). change (take 1 (b :: rest)) with [b]. change (drop 1 (b :: rest)) with rest.
  unfold of_be_bytes. cbn [rev app of_le_bytes]. by rewrite Z.mul_0_r, Z.add_0_r. Qed.

Lemma api1_frame_complete_round f :
  api1_frame_wf json_from_slice json f -> api1_frame_complete (E := E) json_from_slice (enc_api1_payload json f) = Ok ([], f).
Proof.
  intros [_ Hf]. unfold api1_frame_complete, be_u8. destruct f as [h|ts pulse d]; cbn [enc_api1_payload].
  - rewrite nom_be_u_cons by (unfold in_u; lia). cbn [and_then Z.eqb]. unfold api1_header. by rewrite Hf, drop_all.
  - destruct Hf as [Ht Hp]. rewrite nom_be_u_cons by (unfold in_u; lia). cbn [and_then]. unfold api1_data, be_u64.
    rewrite (proj2 (Nat.ltb_ge _ _)) by (rewrite !length_app, !be_bytes_length; lia).
    rewrite nom_be_u_app by done. cbn [and_then]. rewrite nom_be_u_app by done. cbn [and_then].
    pose proof (take_bytes_app (E := E) d []) as Hd. rewrite app_nil_r in Hd. by rewrite Hd.
Qed.

Lemma api1_frame_round f rest :
  api1_frame_wf json_from_slice json f -> api1_frame (E := E) json_from_slice (enc_api1_frame json f ++ rest) = Ok (rest, f).
Proof.
  intros Hf. pose proof (proj1 Hf) as Hl. unfold api1_frame, enc_api1_frame, be_u32. cbv zeta.
  set (len := Z.of_nat (length (enc_api1_payload json f))) in *.
  assert (1 <= len) by (unfold len; destruct f; cbn [enc_api1_payload length]; lia).
  rewrite <- !app_assoc, nom_be_u_app by done. cbn [and_then]. rewrite (proj2 (Z.ltb_ge len 1)) by done.
  rewrite (proj2 (Z.ltb_ge _ _)) by (rewrite !length_app, be_bytes_length; lia).
  replace (Z.to_nat len) with (length (enc_api1_payload json f)) by lia. rewrite take_bytes_app. cbn [and_then].
  rewrite nom_be_u_app by done. cbn [and_then]. rewrite Z.eqb_refl. cbn [negb]. by rewrite api1_frame_complete_round.
Qed.

(** A frame takes its bytes from the front. *)
Lemma api1_frame_takes inp rest f : api1_frame (E := E) json_from_slice inp = Ok (rest, f) -> (length rest + 8 <= length inp)%nat.
Proof.
  unfold api1_frame, be_u32. intros Hp. apply and_then_ok_inv in Hp as ([i1 len] & Hb1 & Hp).
  apply nom_be_u_inv in Hb1 as (? & -> & _). revert Hp. case_match; [done|]. case_match; [done|]. intros Hp.
  apply and_then_ok_inv in Hp as ([i2 payload] & Hb2 & Hp). apply take_bytes_inv in Hb2 as (? & -> & _).
  apply and_then_ok_inv in Hp as ([i3 len2] & Hb3 & Hp). apply nom_be_u_inv in Hb3 as (? & -> & _). revert Hp. case_match; [done|].
  intros Hp. apply and_then_ok_inv in Hp as ([l r] & _ & Hp). revert Hp. case_match; [done|]. intros [= <- _].
  rewrite !length_drop in *. lia.
Qed.

Lemma api1_frames_eq inp :
  api1_frames (E := E) json_from_slice inp =
    many0_step from_error_kind (api1_frame (E := E) json_from_slice) inp (api1_frames (E := E) json_from_slice).
Proof. apply nom_many0_eq. intros i r f Hf%api1_frame_takes. lia. Qed.

Lemma length_enc_api1_frame f : (8 <= length (enc_api1_frame json f))%nat.
Proof. unfold enc_api1_frame. cbv zeta. rewrite !length_app, !be_bytes_length. lia. Qed.

Lemma api1_frames_app fs tail :
  Forall (api1_frame_wf json_from_slice json) fs ->
  api1_frames (E := E) json_from_slice (enc_api1_frames json fs ++ tail) =
    let? (rest, more) := api1_frames json_from_slice tail in Ok (rest, fs ++ more).
Proof.
  induction 1 as [|f fs Hf _ IH]; [cbn; by destruct (api1_frames _ tail) as [[]| |]|].
  unfold enc_api1_frames in *. cbn [map concat]. rewrite <- app_assoc, api1_frames_eq. unfold many0_step.
  rewrite api1_frame_round by done. rewrite (proj2 (Nat.eqb_neq _ _)).
  2: { rewrite (length_app (enc_api1_frame json f)). pose proof (length_enc_api1_frame f). lia. }
  rewrite IH. by destruct (api1_frames _ tail) as [[]| |].
Qed.

(** The comment of the code: exactly [len] bytes follow the length. Such a
    frame on its own is incomplete, for the parser wants the length again. *)
Lemma api1_frame_needs_trailer len payload :
  in_u 32 len -> 1 <= len -> Z.of_nat (length payload) < len + 4 ->
  api1_frame (E := E) json_from_slice (be_bytes 4 len ++ payload) = Err (NIncomplete len).
Proof.
  intros Hu Hl Hp. unfold api1_frame, be_u32. rewrite nom_be_u_app by done. cbn [and_then].
  rewrite (proj2 (Z.ltb_ge _ _)) by done. by rewrite (proj2 (Z.ltb_lt _ _)).
Qed.

(** Frames that are written one after the other are read back in order.
    Fewer than four bytes that follow are left as the rest; a length that
    announces more than what follows rejects the whole input as incomplete, the
    frames before it included. *)
Theorem api1_frames_round fs :
  Forall (api1_frame_wf json_from_slice json) fs ->
  (forall tail, (length tail < 4)%nat ->
    api1_frames (E := E) json_from_slice (enc_api1_frames json fs ++ tail) = Ok (tail, fs)) /\
  (forall len payload, in_u 32 len -> 1 <= len -> Z.of_nat (length payload) < len + 4 ->
    api1_frames (E := E) json_from_slice (enc_api1_frames json fs ++ be_bytes 4 len ++ payload) = Err (NIncomplete len)).
Proof.
  intros Hfs. split; intros; rewrite api1_frames_app by done; rewrite api1_frames_eq; unfold many0_step.
  - unfold api1_frame, be_u32. rewrite nom_be_u_eof by done. cbn. by rewrite app_nil_r.
  - by rewrite api1_frame_needs_trailer.
Qed.
End Facts.

(** A stand-in for the JSON that knows one header, and errors by their kind. *)
Definition example_header : Api1ChannelHeader := mkApi1ChannelHeader [99; 104; 49] A1F64 Api1Little [] None.

Definition example_json (_ : Api1ChannelHeader) : list Z := [123; 125].

Definition example_json_from_slice (l : list Z) : option Api1ChannelHeader :=
  if decide (l = [123; 125]) then Some example_header else None.

#[export] Instance std_kind_ParseError : ParseError (H := nom_std) std_kind := {|
  from_error_kind := fun _ (k : ErrorKind (Nom := nom_std)) => k;
  add_context := fun _ k => k
|}.

Definition example_frames : list Api1Frame := [Api1Header example_header; Api1Data 20 21 [1; 2; 3]].

Lemma api1_frames_round_witness :
  (forall tail, (length tail < 4)%nat ->
    api1_frames example_json_from_slice (enc_api1_frames example_json example_frames ++ tail) = Ok (tail, example_frames)) /\
  (forall len payload, in_u 32 len -> 1 <= len -> Z.of_nat (length payload) < len + 4 ->
    api1_frames example_json_from_slice (enc_api1_frames example_json example_frames ++ be_bytes 4 len ++ payload) =
      Err (NIncomplete len)).
Proof.
  apply (api1_frames_round (HL := nom_std_laws) (PE := std_kind_ParseError) example_json_from_slice example_json example_frames).
  repeat constructor; unfold in_u; cbn; lia.
Defined.
