(* ===== verification/DataIndex.v ===== *)
(** * Index and data files of the archive

    [daqbuf-disk/src/index.rs]: the two searches in an index of pairs of a
    timestamp and a file position ([find_ge], [find_largest_smaller_than]), the
    parsers of the header and of the events of a data file, and the two
    searches for an event in a data file whose events have the same length.

    A file is its bytes and a position. A read returns at least one of the
    bytes that are left and at most what is asked for, as the parameter [chunk]
    says: the code repeats it until the buffer is full. Failures of the file
    system are not modelled, but for a seek to a position that is no [i64]. *)
From Stdlib Require Import ZArith Lia.
From stdpp Require Import base numbers option strings list.
From S2P Require Import Prelude TimeTypes Ranges.

#[local] Open Scope Z_scope.
#[local] Open Scope rust_scope.

(** The loops have fuel: [None] is a loop that does not end with it. *)
Definition and_run {E A B : Type} (m : outcome E A) (k : A -> option (outcome E B)) : option (outcome E B) :=
  match m with
  | Ok a => k a
  | Err e => Some (Err e)
  | Panic => Some Panic
  end.

Notation "'let!' x ':=' m 'in' k" := (and_run m (fun x => k))
  (at level 10, x pattern, m at level 200, k at level 200) : rust_scope.

(** ** The index *)

Inductive index_error : Type :=
  | FindBadLen (n : Z)
  | SearchUnordered (ts1 ts2 : Z)
  | SearchLoopUnordered (ts1 ts2 : Z).

(** [a[i]] of the slice of pairs of big endian numbers. *)
Definition index_at {E} (buf : list Z) (i : nat) : outcome E (Z * Z) :=
  if (i <? length buf / 16)%nat then
    let b := take 16 (drop (16 * i) buf) in
    Ok (of_be_bytes (take 8 b), of_be_bytes (drop 8 b))
  else Panic.

Fixpoint find_ge_loop (fuel : nat) (range : NanoRange) (expand_right : bool) (buf : list Z) (j k : nat) (x y : Z) :
    option (outcome index_error (option (Z * Z))) :=
  match fuel with
  | O => None
  | S fuel =>
      if y <=? x then Some (Err (SearchLoopUnordered x y))
      else if (k - j <? 2)%nat then
        if (y <? nr_end range) || expand_right then
          let! a := index_at buf k in Some (Ok (Some (y, a.2)))
        else Some (Ok None)
      else
        let m := ((k + j) / 2)%nat in
        let! e := index_at buf m in
        if e.1 <? nr_beg range then find_ge_loop fuel range expand_right buf m k e.1 y
        else find_ge_loop fuel range expand_right buf j m x e.1
  end.

Definition find_ge (range : NanoRange) (expand_right : bool) (buf : list Z) :
    option (outcome index_error (option (Z * Z))) :=
  let n1 := length buf in
  if negb (n1 mod 16 =? 0)%nat then Some (Err (FindBadLen (Z.of_nat n1)))
  else if (n1 =? 0)%nat then Some (Ok None)
  else
    let n1 := (n1 / 16)%nat in
    let j := 0%nat in
    let k := (n1 - 1)%nat in
    let! a := index_at buf j in
    let! b := index_at buf k in
    let x := a.1 in
    let y := b.1 in
    if y <? nr_beg range then Some (Ok None)
    else if nr_beg range <=? x then
      if (x <? nr_end range) || expand_right then Some (Ok (Some (x, a.2))) else Some (Ok None)
    else if y <=? x then Some (Err (SearchUnordered x y))
    else find_ge_loop n1 range expand_right buf j k x y.

Fixpoint find_lst_loop (fuel : nat) (range : NanoRange) (buf : list Z) (j k : nat) (x y : Z) :
    option (outcome index_error (option (Z * Z))) :=
  match fuel with
  | O => None
  | S fuel =>
      if y <=? x then Some (Err (SearchLoopUnordered x y))
      else if (k - j <? 2)%nat then let! a := index_at buf j in Some (Ok (Some (x, a.2)))
      else
        let m := ((k + j) / 2)%nat in
        let! e := index_at buf m in
        if e.1 <? nr_beg range then find_lst_loop fuel range buf m k e.1 y
        else find_lst_loop fuel range buf j m x e.1
  end.

Definition find_largest_smaller_than (range : NanoRange) (expand_right : bool) (buf : list Z) :
    option (outcome index_error (option (Z * Z))) :=
  let n1 := length buf in
  if negb (n1 mod 16 =? 0)%nat then Some (Err (FindBadLen (Z.of_nat n1)))
  else if (n1 =? 0)%nat then Some (Ok None)
  else
    let n1 := (n1 / 16)%nat in
    let j := 0%nat in
    let k := (n1 - 1)%nat in
    let! a := index_at buf j in
    let! b := index_at buf k in
    let x := a.1 in
    let y := b.1 in
    if nr_beg range <=? x then Some (Ok None)
    else if y <? nr_beg range then Some (Ok (Some (y, b.2)))
    else if y <=? x then Some (Err (SearchUnordered x y))
    else find_lst_loop n1 range buf j k x y.

(** ** Data files *)

Inductive datafile_error : Type :=
  | SeekError
  | HeaderBufLen (n : Z)
  | UnknownFileVersion (v : Z)
  | UnexpectedHeaderLen1 (len1 : Z)
  | HeaderNotContained (len1 n : Z)
  | DataLenMismatch (len1 len2 : Z)
  | EventBufLen (n : Z)
  | UnexpectedEventLen1 (len1 : Z)
  | EventNotContained (len1 n : Z)
  | InconsistentEventLengths (a b : Z).

(** [array_ref!], which takes a slice. *)
Definition array_ref {E} (buf : list Z) (off n : nat) : outcome E (list Z) := slice buf off (off + n).

Definition parse_channel_header (buf : list Z) : outcome datafile_error Z :=
  if (length buf <? 6)%nat then Err (HeaderBufLen (Z.of_nat (length buf))) else
  let? v := array_ref buf 0 2 in
  let ver := to_signed 16 (of_be_bytes v) in
  if negb (ver =? 0) then Err (UnknownFileVersion ver) else
  let? l := array_ref buf 2 4 in
  let len1 := of_be_bytes l in
  if (len1 <? 9) || (256 <? len1) then Err (UnexpectedHeaderLen1 len1) else
  if (length buf <? 2 + Z.to_nat len1)%nat then Err (HeaderNotContained len1 (Z.of_nat (length buf))) else
  let? l := array_ref buf (2 + Z.to_nat len1 - 4) 4 in
  let len2 := of_be_bytes l in
  if negb (len1 =? len2) then Err (DataLenMismatch len1 len2) else Ok len1.

Definition parse_event (buf : list Z) : outcome datafile_error (Z * TsNano) :=
  if (length buf <? 4)%nat then Err (EventBufLen (Z.of_nat (length buf))) else
  let? l := array_ref buf 0 4 in
  let len1 := of_be_bytes l in
  if (len1 <? 9) || (512 <? len1) then Err (UnexpectedEventLen1 len1) else
  if (length buf <? Z.to_nat len1)%nat then Err (EventNotContained len1 (Z.of_nat (length buf))) else
  let? l := array_ref buf (Z.to_nat len1 - 4) 4 in
  let len2 := of_be_bytes l in
  if negb (len1 =? len2) then Err (DataLenMismatch len1 len2) else
  let? t := array_ref buf 12 8 in
  Ok (len1, TsNano_from_ns (of_be_bytes t)).

Record File : Type := mkFile {
  f_bytes : list Z;
  f_pos : Z
}.

Definition seek_start (pos : Z) (f : File) : outcome datafile_error File :=
  if 2 ^ 63 <=? pos then Err SeekError else Ok (mkFile (f_bytes f) pos).

(** The file at its end, and its length. *)
Definition seek_end (f : File) : File * Z :=
  let len := Z.of_nat (length (f_bytes f)) in (mkFile (f_bytes f) len, len).

Section Read.
Context (chunk : Z -> nat -> nat).

(** [file.read] into a buffer of [want] bytes. *)
Definition file_read (want : nat) (f : File) : File * list Z :=
  if f_pos f <? Z.of_nat (length (f_bytes f)) then
    let l := take (chunk (f_pos f) want) (take want (drop (Z.to_nat (f_pos f)) (f_bytes f))) in
    (mkFile (f_bytes f) (f_pos f + Z.of_nat (length l)), l)
  else (f, []).

(** The loop of [read]: the bytes that are in the buffer so far. A step that
    does not end the loop reads a byte. *)
Fixpoint read_loop (fuel : nat) (len : nat) (got : list Z) (f : File) : File * list Z :=
  match fuel with
  | O => (f, got)
  | S fuel =>
      let '(f, l) := file_read (len - length got) f in
      if (length l =? 0)%nat then (f, got)
      else
        let got := got ++ l in
        if (len <=? length got)%nat then (f, got) else read_loop fuel len got f
  end.

(** [vec![0; len]] and [read]: the buffer keeps its zeros after what is read. *)
Definition read (len : nat) (f : File) : File * list Z :=
  let '(f, got) := read_loop (S len) len [] f in (f, got ++ replicate (len - length got) 0).

Definition read_event_at (pos : Z) (f : File) : outcome datafile_error (File * (Z * TsNano)) :=
  let? f := seek_start pos f in
  let '(f, buf) := read 1024 f in
  let? ev := parse_event buf in
  Ok (f, ev).

(** What both searches do first: the offset of the first event, the length of
    the events, the position of the last one and the timestamps of the two. *)
Definition position_first (f : File) : outcome datafile_error (File * (Z * Z * Z * Z * Z)) :=
  let '(f, flen) := seek_end f in
  let? f := seek_start 0 f in
  let '(f, buf) := read 1024 f in
  let? hres := parse_channel_header buf in
  let headoff := 2 + hres in
  let? evbuf := slice buf (Z.to_nat headoff) (length buf) in
  let? ev := parse_event evbuf in
  let evlen := ev.1 in
  let j := headoff in
  let? q := u_div (u64_sub flen headoff) evlen in
  let k := u64_add (u64_mul (u64_sub q 1) evlen) headoff in
  let x := TsNano_ns ev.2 in
  let? (f, t) := read_event_at k f in
  if negb (t.1 =? evlen) then Err (InconsistentEventLengths t.1 evlen)
  else Ok (f, (j, k, evlen, x, TsNano_ns t.2)).

(** [Ok((file, found, nreads, pos))] after the seek. *)
Definition position_ret (f : File) (found : bool) (nreads pos : Z) : option (outcome datafile_error (File * bool * Z * Z)) :=
  let! f := seek_start pos f in Some (Ok (f, found, nreads, pos)).

Fixpoint position_loop (fuel : nat) (range : NanoRange) (expand_right : bool) (evlen j k x y nreads : Z) (f : File) :
    option (outcome datafile_error (File * bool * Z * Z)) :=
  match fuel with
  | O => None
  | S fuel =>
      let! _ := assert (x <? y) in
      let! r := u_rem (u64_sub k j) evlen in
      let! _ := assert (r =? 0) in
      if u64_sub k j <? u64_mul 2 evlen then
        if (y <? nr_end range) || expand_right then position_ret f true nreads k else position_ret f false nreads 0
      else
        let! q := u_div (u64_sub k j / 2) evlen in
        let m := u64_add j (u64_mul q evlen) in
        let! (f, t) := read_event_at m f in
        if negb (t.1 =? evlen) then Some (Err (InconsistentEventLengths t.1 evlen))
        else
          let nreads := u32_add nreads 1 in
          let e := TsNano_ns t.2 in
          if e <? nr_beg range then position_loop fuel range expand_right evlen m k e y nreads f
          else position_loop fuel range expand_right evlen j m x e nreads f
  end.

Definition position_static_len_datafile (f : File) (range : NanoRange) (expand_right : bool) :
    option (outcome datafile_error (File * bool * Z * Z)) :=
  let! (f, (j, k, evlen, x, y)) := position_first f in
  let nreads := 2 in
  if nr_end range <=? x then
    if expand_right then position_ret f true nreads j else position_ret f false nreads 0
  else if y <? nr_beg range then position_ret f false nreads j
  else if nr_beg range <=? x then
    if (x <? nr_end range) || expand_right then position_ret f true nreads j else position_ret f false nreads 0
  else position_loop (length (f_bytes f)) range expand_right evlen j k x y nreads f.

Fixpoint position_lst_loop (fuel : nat) (range : NanoRange) (evlen j k nreads : Z) (f : File) :
    option (outcome datafile_error (File * bool * Z * Z)) :=
  match fuel with
  | O => None
  | S fuel =>
      if u64_sub k j <? u64_mul 2 evlen then position_ret f true nreads j
      else
        let! q := u_div (u64_sub k j / 2) evlen in
        let m := u64_add j (u64_mul q evlen) in
        let! (f, t) := read_event_at m f in
        if negb (t.1 =? evlen) then Some (Err (InconsistentEventLengths t.1 evlen))
        else
          let nreads := u32_add nreads 1 in
          let x := TsNano_ns t.2 in
          if x <? nr_beg range then position_lst_loop fuel range evlen m k nreads f
          else position_lst_loop fuel range evlen j m nreads f
  end.

Definition position_static_len_datafile_at_largest_smaller_than (f : File) (range : NanoRange) (expand_right : bool) :
    option (outcome datafile_error (File * bool * Z * Z)) :=
  let! (f, (j, k, evlen, x, y)) := position_first f in
  let nreads := 2 in
  if nr_beg range <=? x then position_ret f false nreads j
  else if y <? nr_beg range then position_ret f true nreads k
  else position_lst_loop (length (f_bytes f)) range evlen j k nreads f.
End Read.
