(* ===== verification/DataIndexProofs.v ===== *)
(** * Properties of the searches in index and data files

    On an index that is sorted by time the binary searches give what a scan
    from the front gives ([find_ge_scan], [find_lst_scan]), and they reject no
    index whatever its order. On a data file of events of one length the
    searches position the file at the event that a scan of the timestamps
    selects, with a logarithmic number of reads, however the reads of the
    operating system are cut. *)
From Stdlib Require Import ZArith Lia.
From stdpp Require Import base numbers option strings list sorting.
From S2P Require Import Prelude TimeTypes Ranges DataIndex.

#[local] Open Scope Z_scope.
#[local] Open Scope rust_scope.

(** ** The index *)

Definition enc_index (l : list (Z * Z)) : list Z := concat (map (fun e => be_bytes 8 e.1 ++ be_bytes 8 e.2) l).

Definition index_wf (l : list (Z * Z)) : Prop := Forall (fun e => is_u64 e.1 /\ is_u64 e.2) l.

Lemma length_enc_index l : length (enc_index l) = (16 * length l)%nat.
Proof.
  unfold enc_index. induction l as [|e l IH]; [done|]. cbn [map concat length]. rewrite !length_app, !be_bytes_length, IH. lia.
Qed.

Lemma enc_index_drop l i : drop (16 * i) (enc_index l) = enc_index (drop i l).
Proof.
  revert i. induction l as [|e l IH]; intros [|i]; [done|by rewrite !drop_nil|done|].
  cbn [drop]. rewrite <- IH. unfold enc_index at 1. cbn [map concat].
  replace (16 * S i)%nat with (16 + 16 * i)%nat by lia. rewrite <- drop_drop.
  by rewrite (drop_app_length' (be_bytes 8 e.1 ++ be_bytes 8 e.2)) by (by rewrite length_app, !be_bytes_length).
Qed.

Lemma index_at_enc {E} l i e : index_wf l -> l !! i = Some e -> @index_at E (enc_index l) i = Ok e.
Proof.
  intros Hl Hi. pose proof (lookup_lt_Some _ _ _ Hi) as Hlt. unfold index_at. rewrite length_enc_index.
  rewrite (proj2 (Nat.ltb_lt _ _)) by (rewrite Nat.mul_comm, Nat.div_mul by done; done).
  unfold index_wf in Hl. rewrite Forall_lookup in Hl. destruct (Hl i e Hi) as [H1 H2].
  rewrite enc_index_drop, (drop_S _ _ _ Hi). unfold enc_index. cbn [map concat].
  rewrite take_app_length' by (by rewrite length_app, !be_bytes_length).
  rewrite take_app_length', drop_app_length' by (by rewrite be_bytes_length).
  rewrite !of_be_bytes_round by done. by destruct e.
Qed.

(** The midpoint of two bounds that are not neighbours. *)
Lemma mid_bounds j k : (j < k)%nat -> ~ (k - j < 2)%nat -> (j < (k + j) / 2 < k)%nat.
Proof.
  intros Hjk Hd. pose proof (Nat.div_mod (k + j) 2 ltac:(done)). pose proof (Nat.mod_upper_bound (k + j) 2 ltac:(done)). lia.
Qed.

(** A timestamp before [beg] and one that is not are neighbours at the
    partition point. *)
Lemma crossing beg tss j tj tk :
  StronglySorted Z.le tss -> tss !! j = Some tj -> tss !! S j = Some tk -> tj < beg -> beg <= tk ->
  partition_point (fun t => t <? beg) tss = S j.
Proof.
  intros Hs Hj Hk Hb Hb2. set (p := partition_point _ tss). destruct (lt_eq_lt_dec p (S j)) as [[Hp|Hp]|Hp]; [|done|].
  - pose proof (partition_point_after (fun t => t <? beg) tss j tj Hs (ltb_mono beg) ltac:(lia) Hj) as Hf. cbn in Hf. lia.
  - pose proof (partition_point_before (fun t => t <? beg) tss (S j) tk ltac:(done) Hk) as Hf. cbn in Hf. lia.
Qed.

(** All of them are before [beg] when the last one is. *)
Lemma all_before beg tss t :
  StronglySorted Z.le tss -> last tss = Some t -> t < beg -> partition_point (fun t => t <? beg) tss = length tss.
Proof.
  intros Hs Hl Ht. pose proof (partition_point_le (fun t => t <? beg) tss) as Hp.
  destruct (decide (partition_point (fun t => t <? beg) tss = length tss)) as [|Hne]; [done|].
  rewrite last_lookup in Hl.
  pose proof (partition_point_after (fun t => t <? beg) tss (pred (length tss)) t Hs (ltb_mono beg) ltac:(lia) Hl) as Hf. cbn in Hf. lia.
Qed.

(** The scans: the first pair that is not before [beg], and the last one that is. *)
Definition before (range : NanoRange) (tss : list Z) : nat := partition_point (fun t => t <? nr_beg range) tss.

Definition find_ge_scan (range : NanoRange) (expand_right : bool) (l : list (Z * Z)) : option (Z * Z) :=
  match l !! before range (map fst l) with
  | Some e => if (e.1 <? nr_end range) || expand_right then Some e else None
  | None => None
  end.

Definition find_lst_scan (range : NanoRange) (l : list (Z * Z)) : option (Z * Z) :=
  match before range (map fst l) with O => None | S i => l !! i end.

Section Index.
Context (range : NanoRange) (l : list (Z * Z)) (Hl : index_wf l).

Lemma fst_lookup i e : l !! i = Some e -> map fst l !! i = Some e.1.
Proof. intros Hi. by rewrite list_lookup_fmap, Hi. Qed.

Lemma find_ge_loop_scan expand fuel j k ej ek :
  StronglySorted Z.le (map fst l) -> l !! j = Some ej -> l !! k = Some ek -> (j < k)%nat -> (k - j <= fuel)%nat ->
  ej.1 < nr_beg range <= ek.1 ->
  find_ge_loop fuel range expand (enc_index l) j k ej.1 ek.1 = Some (Ok (find_ge_scan range expand l)).
Proof.
  intros Hs. revert j k ej ek. induction fuel as [|fuel IH]; intros j k ej ek Hj Hk Hjk Hf Hb; [lia|]. cbn [find_ge_loop].
  rewrite (proj2 (Z.leb_gt _ _)) by lia. destruct (Nat.ltb_spec (k - j) 2) as [Hd|Hd].
  - replace k with (S j) in * by lia. unfold find_ge_scan, before.
    rewrite (crossing (nr_beg range) (map fst l) j ej.1 ek.1) by (done || lia || by apply fst_lookup).
    rewrite Hk. destruct (_ || _); [|done]. rewrite (index_at_enc l (S j) ek) by done. cbn. by destruct ek.
  - pose proof (mid_bounds j k Hjk ltac:(lia)) as Hm. destruct (lookup_lt_is_Some_2 l ((k + j) / 2)) as [em He].
    { apply lookup_lt_Some in Hk. lia. }
    rewrite (index_at_enc l _ em) by done. cbn [and_run]. destruct (Z.ltb_spec em.1 (nr_beg range)).
    + apply IH; (done || lia).
    + apply IH; (done || lia).
Qed.

Lemma find_lst_loop_scan fuel j k ej ek :
  StronglySorted Z.le (map fst l) -> l !! j = Some ej -> l !! k = Some ek -> (j < k)%nat -> (k - j <= fuel)%nat ->
  ej.1 < nr_beg range <= ek.1 ->
  find_lst_loop fuel range (enc_index l) j k ej.1 ek.1 = Some (Ok (find_lst_scan range l)).
Proof.
  intros Hs. revert j k ej ek. induction fuel as [|fuel IH]; intros j k ej ek Hj Hk Hjk Hf Hb; [lia|]. cbn [find_lst_loop].
  rewrite (proj2 (Z.leb_gt _ _)) by lia. destruct (Nat.ltb_spec (k - j) 2) as [Hd|Hd].
  - replace k with (S j) in * by lia. unfold find_lst_scan, before.
    rewrite (crossing (nr_beg range) (map fst l) j ej.1 ek.1) by (done || lia || by apply fst_lookup).
    rewrite Hj, (index_at_enc l j ej) by done. cbn. by destruct ej.
  - pose proof (mid_bounds j k Hjk ltac:(lia)) as Hm. destruct (lookup_lt_is_Some_2 l ((k + j) / 2)) as [em He].
    { apply lookup_lt_Some in Hk. lia. }
    rewrite (index_at_enc l _ em) by done. cbn [and_run]. destruct (Z.ltb_spec em.1 (nr_beg range)).
    + apply IH; (done || lia).
    + apply IH; (done || lia).
Qed.

(** The first and the last pair of an index that is not empty. *)
Lemma index_ends : l <> [] ->
  exists a b, l !! 0%nat = Some a /\ l !! (length l - 1)%nat = Some b /\ last (map fst l) = Some b.1.
Proof.
  intros Hne. destruct l as [|a l'] eqn:E; [done|]. rewrite <- E in *.
  destruct (lookup_lt_is_Some_2 l (length l - 1)) as [b Hb]; [rewrite E; cbn; lia|].
  exists a, b. split; [by rewrite E|]. split; [done|]. rewrite last_lookup, length_map, list_lookup_fmap.
  replace (pred (length l)) with (length l - 1)%nat by lia. by rewrite Hb.
Qed.

Lemma before_0 tss t : head tss = Some t -> nr_beg range <= t -> before range tss = 0%nat.
Proof. destruct tss as [|? tss]; [done|]. cbn. intros [= ->] Ht. by rewrite (proj2 (Z.ltb_ge _ _)). Qed.
End Index.

(** What both searches do with the length of an index. *)
Lemma enc_index_shape l : l <> [] ->
  (length (enc_index l) mod 16 =? 0)%nat = true /\ (length (enc_index l) =? 0)%nat = false /\
  (length (enc_index l) / 16)%nat = length l.
Proof.
  intros Hne. rewrite length_enc_index, Nat.mul_comm. split; [by rewrite Nat.Div0.mod_mul|].
  split; [|by rewrite Nat.div_mul]. destruct l; [done|]. cbn [length]. apply Nat.eqb_neq. lia.
Qed.

(** C21. On an index that is sorted by time, the binary searches give what the
    scans from the front give: the first pair that is not before the range,
    unless it is at or after its end and the search is not to expand; and the
    last pair before the range. *)
Theorem index_searches_scan range expand l :
  index_wf l -> StronglySorted Z.le (map fst l) ->
  find_ge range expand (enc_index l) = Some (Ok (find_ge_scan range expand l)) /\
  find_largest_smaller_than range expand (enc_index l) = Some (Ok (find_lst_scan range l)).
Proof.
  intros Hl Hs. destruct (decide (l = [])) as [->|Hne]; [done|].
  destruct (index_ends l Hl Hne) as (a & b & Ha & Hb & Hlast). destruct (enc_index_shape l Hne) as (H1 & H2 & H3).
  assert (head (map fst l) = Some a.1) as Hhead by (destruct l; [done|]; cbn in *; by simplify_eq).
  assert (nr_beg range <= a.1 -> before range (map fst l) = 0%nat) as Hb0 by (by apply before_0).
  assert (b.1 < nr_beg range -> before range (map fst l) = length l) as Hbl.
  { intros Hlt. unfold before. rewrite (all_before _ _ b.1) by done. apply length_map. }
  unfold find_ge, find_largest_smaller_than. rewrite H1, H2, H3. cbn [negb].
  rewrite (index_at_enc l 0 a), (index_at_enc l (length l - 1) b) by done. cbn [and_run].
  assert (a.1 <= b.1) as Hab by (apply (sorted_lookup (map fst l) 0 (length l - 1)); [done|lia|by apply fst_lookup..]).
  assert (0 < length l)%nat by (destruct l; [done|cbn; lia]).
  destruct (Z.ltb_spec b.1 (nr_beg range)).
  - specialize (Hbl ltac:(done)). split.
    + unfold find_ge_scan. rewrite Hbl, lookup_ge_None_2 by done. done.
    + rewrite (proj2 (Z.leb_gt _ _)) by lia. unfold find_lst_scan. rewrite Hbl. destruct (length l) as [|n] eqn:El; [lia|].
      replace (S n - 1)%nat with n in Hb by lia. rewrite Hb. by destruct b.
  - destruct (Z.leb_spec (nr_beg range) a.1).
    + specialize (Hb0 ltac:(done)). unfold find_ge_scan, find_lst_scan. rewrite Hb0, Ha. split; [|done].
      destruct (_ || _); [|done]. by destruct a.
    + rewrite (proj2 (Z.leb_gt _ _)) by lia. assert (0 < length l - 1)%nat.
      { destruct (decide (length l - 1 = 0)%nat) as [E|]; [|lia]. rewrite E in Hb. simplify_eq. lia. }
      split; [apply find_ge_loop_scan|apply find_lst_loop_scan]; (done || lia).
Qed.

Lemma index_searches_scan_witness :
  find_ge (mkNanoRange 15 25) false (enc_index [(10, 100); (20, 200); (20, 300); (30, 400)]) = Some (Ok (Some (20, 200))) /\
  find_largest_smaller_than (mkNanoRange 15 25) false (enc_index [(10, 100); (20, 200); (20, 300); (30, 400)]) = Some (Ok (Some (10, 100))).
Proof.
  apply (index_searches_scan (mkNanoRange 15 25) false [(10, 100); (20, 200); (20, 300); (30, 400)]).
  - repeat constructor; unfold in_u; cbn; lia.
  - repeat constructor; cbn; lia.
Defined.

Lemma index_at_ok {E} buf i : (i < length buf / 16)%nat -> exists e, @index_at E buf i = Ok e.
Proof. intros Hi. unfold index_at. rewrite (proj2 (Nat.ltb_lt _ _)) by done. eauto. Qed.

Lemma find_ge_loop_total range expand buf fuel j k x y :
  (j < k < length buf / 16)%nat -> (k - j <= fuel)%nat -> x < nr_beg range <= y ->
  exists o, find_ge_loop fuel range expand buf j k x y = Some (Ok o).
Proof.
  revert j k x y. induction fuel as [|fuel IH]; intros j k x y Hjk Hf Hb; [lia|]. cbn [find_ge_loop].
  rewrite (proj2 (Z.leb_gt _ _)) by lia. destruct (Nat.ltb_spec (k - j) 2) as [Hd|Hd].
  - destruct (_ || _); [|eauto]. destruct (@index_at_ok index_error buf k) as [e ->]; [lia|]. cbn. eauto.
  - pose proof (mid_bounds j k ltac:(lia) ltac:(lia)) as Hm.
    destruct (@index_at_ok index_error buf ((k + j) / 2)) as [e ->]; [lia|]. cbn [and_run].
    destruct (Z.ltb_spec e.1 (nr_beg range)); apply IH; lia.
Qed.

Lemma find_lst_loop_total range buf fuel j k x y :
  (j < k < length buf / 16)%nat -> (k - j <= fuel)%nat -> x < nr_beg range <= y ->
  exists o, find_lst_loop fuel range buf j k x y = Some (Ok o).
Proof.
  revert j k x y. induction fuel as [|fuel IH]; intros j k x y Hjk Hf Hb; [lia|]. cbn [find_lst_loop].
  rewrite (proj2 (Z.leb_gt _ _)) by lia. destruct (Nat.ltb_spec (k - j) 2) as [Hd|Hd].
  - destruct (@index_at_ok index_error buf j) as [e ->]; [lia|]. cbn. eauto.
  - pose proof (mid_bounds j k ltac:(lia) ltac:(lia)) as Hm.
    destruct (@index_at_ok index_error buf ((k + j) / 2)) as [e ->]; [lia|]. cbn [and_run].
    destruct (Z.ltb_spec e.1 (nr_beg range)); apply IH; lia.
Qed.

(** On every buffer both searches end, and reject it only for its length: the
    tests for unordered data, the errors [SearchUnordered] and
    [SearchLoopUnordered], never hold. *)
Theorem index_searches_total range expand buf :
  exists r1 r2, find_ge range expand buf = Some r1 /\ find_largest_smaller_than range expand buf = Some r2 /\
    if (length buf mod 16 =? 0)%nat then is_ok r1 /\ is_ok r2
    else r1 = Err (FindBadLen (Z.of_nat (length buf))) /\ r2 = Err (FindBadLen (Z.of_nat (length buf))).
Proof.
  unfold find_ge, find_largest_smaller_than, is_ok. destruct (Nat.eqb_spec (length buf mod 16) 0) as [Hm|]; cbn [negb]; [|eauto 6].
  destruct (Nat.eqb_spec (length buf) 0); [eauto 8|]. pose proof (Nat.div_mod (length buf) 16 ltac:(done)).
  destruct (@index_at_ok index_error buf 0) as [a Ha]; [lia|].
  destruct (@index_at_ok index_error buf (length buf / 16 - 1)) as [b Hb]; [lia|]. rewrite Ha, Hb. cbn [and_run].
  destruct (Z.ltb_spec b.1 (nr_beg range)), (Z.leb_spec (nr_beg range) a.1).
  - eauto 8.
  - eauto 8.
  - destruct (_ || _); eauto 8.
  - rewrite (proj2 (Z.leb_gt _ _)) by lia.
    assert (0 < length buf / 16 - 1)%nat.
    { destruct (decide (length buf / 16 - 1 = 0)%nat) as [E|]; [|lia]. rewrite E, Ha in Hb. simplify_eq. lia. }
    destruct (find_ge_loop_total range expand buf (length buf / 16) 0 (length buf / 16 - 1) a.1 b.1) as [o1 ->]; [lia..|].
    destruct (find_lst_loop_total range buf (length buf / 16) 0 (length buf / 16 - 1) a.1 b.1) as [o2 ->]; [lia..|]. eauto 8.
Qed.
