(* ===== verification/DataFileProofs.v ===== *)
(** * Properties of the searches in data files

    [enc_file] writes a data file of events of one length, the last of which
    may still be incomplete. Both searches position the file at the event that
    a scan of the timestamps selects, without a panic or an error, with a
    logarithmic number of reads, and however the reads of the operating system
    are cut. *)
From Stdlib Require Import ZArith Lia.
From stdpp Require Import base numbers option strings list sorting.
From S2P Require Import Prelude TimeTypes Ranges DataIndex DataIndexProofs.

#[local] Open Scope Z_scope.
#[local] Open Scope rust_scope.

(** ** Reading *)

Section Read.
Context (chunk : Z -> nat -> nat) (Hchunk : forall pos want, (0 < want)%nat -> (0 < chunk pos want)%nat).

(** The bytes from the position of the file. *)
Definition f_rest (f : File) : list Z := drop (Z.to_nat (f_pos f)) (f_bytes f).

Lemma file_read_spec want f :
  (0 < want)%nat -> 0 <= f_pos f ->
  exists l f', file_read chunk want f = (f', l) /\ f_bytes f' = f_bytes f /\ 0 <= f_pos f' /\
    f_rest f = l ++ f_rest f' /\ (length l <= want)%nat /\ (l = [] -> f_rest f = []).
Proof.
  intros Hw Hp. unfold file_read, f_rest. specialize (Hchunk (f_pos f) want Hw). case_match eqn:Hlt.
  - set (r := drop _ (f_bytes f)). exists (take (chunk (f_pos f) want) (take want r)). eexists. split; [reflexivity|].
    cbn [f_bytes f_pos]. rewrite take_take. set (c := Nat.min _ _). split; [done|]. split; [lia|].
    assert (length (take c r) = Nat.min c (length r)) as Hl by apply length_take. split; [|split].
    + rewrite Z2Nat.inj_add, Nat2Z.id, <- drop_drop by lia. fold r. rewrite <- (take_drop c r) at 1. f_equal.
      rewrite Hl. destruct (Nat.min_spec c (length r)) as [[_ ->]|[? ->]]; [done|]. by rewrite drop_all, drop_ge.
    + lia.
    + intros Hn%(f_equal length). rewrite Hl in Hn. cbn in Hn. apply nil_length_inv. lia.
  - exists [], f. split; [done|]. split; [done|]. split; [done|]. split; [done|]. split; [cbn; lia|]. intros _.
    apply drop_ge. lia.
Qed.

Lemma read_loop_spec len fuel got f :
  (length got < len)%nat -> (len - length got < fuel)%nat -> 0 <= f_pos f ->
  exists f', read_loop chunk fuel len got f = (f', got ++ take (len - length got) (f_rest f)) /\ f_bytes f' = f_bytes f.
Proof.
  revert got f. induction fuel as [|fuel IH]; intros got f Hg Hf Hp; [lia|]. cbn [read_loop].
  destruct (file_read_spec (len - length got) f) as (l & f' & -> & Hb & Hp' & Hr & Hl & Hn); [lia|done|].
  destruct (Nat.eqb_spec (length l) 0) as [H0|H0].
  - apply nil_length_inv in H0. rewrite (Hn H0), take_nil, app_nil_r. eauto.
  - rewrite length_app. destruct (Nat.leb_spec len (length got + length l)).
    + exists f'. split; [|done]. by rewrite Hr, take_app_length' by lia.
    + destruct (IH (got ++ l) f') as (f'' & -> & Hb'); [rewrite length_app; lia..|done|].
      exists f''. split; [|congruence]. rewrite Hr, take_app_ge, length_app, <- app_assoc by lia. by rewrite Nat.sub_add_distr.
Qed.

(** A read fills the buffer with the bytes at the position, as far as there are any. *)
Lemma read_spec len pos bytes :
  (0 < len)%nat -> 0 <= pos ->
  exists f' z, read chunk len (mkFile bytes pos) = (f', take len (drop (Z.to_nat pos) bytes) ++ z) /\ f_bytes f' = bytes.
Proof.
  intros Hl Hp. unfold read. destruct (read_loop_spec len (S len) [] (mkFile bytes pos)) as (f' & -> & Hb); [cbn; lia..|done|].
  cbn [length app]. rewrite Nat.sub_0_r. eauto.
Qed.
End Read.

(** ** The format *)

(** An event: the time to live, the timestamp and what follows. *)
Record disk_event : Type := mkDiskEvent {
  de_ttl : list Z;
  de_ts : Z;
  de_payload : list Z
}.

Definition de_len (e : disk_event) : nat := 24 + length (de_payload e).

Definition enc_event (e : disk_event) : list Z :=
  be_bytes 4 (Z.of_nat (de_len e)) ++ de_ttl e ++ be_bytes 8 (de_ts e) ++ de_payload e ++ be_bytes 4 (Z.of_nat (de_len e)).

Definition enc_header (name : list Z) : list Z :=
  let len := Z.of_nat (length name + 8) in be_bytes 2 0 ++ be_bytes 4 len ++ name ++ be_bytes 4 len.

Definition enc_file (name : list Z) (evs : list disk_event) (tail : list Z) : list Z :=
  enc_header name ++ concat (map enc_event evs) ++ tail.

Definition disk_event_wf (len : nat) (e : disk_event) : Prop :=
  de_len e = len /\ length (de_ttl e) = 8%nat /\ is_u64 (de_ts e).

Lemma length_enc_event len e : disk_event_wf len e -> length (enc_event e) = len.
Proof. intros (Hl & Ht & _). unfold enc_event. rewrite !length_app, !be_bytes_length, Ht. unfold de_len in Hl. lia. Qed.

Lemma length_enc_header name : length (enc_header name) = (length name + 10)%nat.
Proof. unfold enc_header. cbv zeta. rewrite !length_app, !be_bytes_length. lia. Qed.

Lemma array_ref_mid {E} l1 l2 l3 off n : off = length l1 -> n = length l2 -> @array_ref E (l1 ++ l2 ++ l3) off n = Ok l2.
Proof. intros -> ->. unfold array_ref. apply slice_mid; done. Qed.

Lemma array_ref_head {E} l2 l3 n : n = length l2 -> @array_ref E (l2 ++ l3) 0 n = Ok l2.
Proof. apply (array_ref_mid []). done. Qed.

Lemma parse_channel_header_enc name rest :
  (1 <= length name <= 248)%nat -> parse_channel_header (enc_header name ++ rest) = Ok (Z.of_nat (length name + 8)).
Proof.
  intros Hn. unfold parse_channel_header. rewrite length_app, length_enc_header. unfold enc_header. cbv zeta. rewrite <- !app_assoc.
  set (len := Z.of_nat (length name + 8)). rewrite (proj2 (Nat.ltb_ge _ _)) by lia.
  rewrite (array_ref_head (be_bytes 2 0)) by (by rewrite ?be_bytes_length). cbn [and_then].
  rewrite of_be_bytes_round by (unfold in_u; cbn; lia). cbn [to_signed]. change (negb (to_signed 16 0 =? 0)) with false. cbn iota.
  rewrite (array_ref_mid (be_bytes 2 0) (be_bytes 4 len)) by (by rewrite ?be_bytes_length). cbn [and_then].
  rewrite of_be_bytes_round by (unfold in_u; lia). rewrite (proj2 (Z.ltb_ge len 9)), (proj2 (Z.ltb_ge 256 len)) by lia. cbn [orb].
  rewrite (proj2 (Nat.ltb_ge _ _)) by lia.
  replace (be_bytes 2 0 ++ be_bytes 4 len ++ name ++ be_bytes 4 len ++ rest)
    with ((be_bytes 2 0 ++ be_bytes 4 len ++ name) ++ be_bytes 4 len ++ rest) by (by rewrite <- !app_assoc).
  rewrite (array_ref_mid _ (be_bytes 4 len)) by (rewrite ?length_app, ?be_bytes_length; lia). cbn [and_then].
  rewrite of_be_bytes_round by (unfold in_u; lia). by rewrite Z.eqb_refl.
Qed.

Lemma parse_event_enc len e rest :
  disk_event_wf len e -> (len <= 512)%nat -> parse_event (enc_event e ++ rest) = Ok (Z.of_nat len, de_ts e).
Proof.
  intros He Hlen. pose proof (length_enc_event len e He) as Hl. destruct He as (Hd & Ht & Hts).
  unfold parse_event. rewrite length_app, Hl. assert (24 <= len)%nat by (unfold de_len in Hd; lia).
  unfold enc_event in *. rewrite Hd in *. set (z := Z.of_nat len) in *. rewrite <- !app_assoc.
  rewrite (proj2 (Nat.ltb_ge _ _)) by lia.
  rewrite (array_ref_head (be_bytes 4 z)) by (by rewrite ?be_bytes_length). cbn [and_then].
  rewrite of_be_bytes_round by (unfold in_u; lia). rewrite (proj2 (Z.ltb_ge z 9)), (proj2 (Z.ltb_ge 512 z)) by lia. cbn [orb].
  rewrite (proj2 (Nat.ltb_ge _ _)) by lia.
  replace (be_bytes 4 z ++ de_ttl e ++ be_bytes 8 (de_ts e) ++ de_payload e ++ be_bytes 4 z ++ rest)
    with ((be_bytes 4 z ++ de_ttl e ++ be_bytes 8 (de_ts e) ++ de_payload e) ++ be_bytes 4 z ++ rest) by (by rewrite <- !app_assoc).
  rewrite !length_app, !be_bytes_length in Hl.
  rewrite (array_ref_mid _ (be_bytes 4 z)) by (rewrite ?length_app, ?be_bytes_length; lia). cbn [and_then].
  rewrite of_be_bytes_round by (unfold in_u; lia). rewrite Z.eqb_refl. cbn [negb].
  replace ((be_bytes 4 z ++ de_ttl e ++ be_bytes 8 (de_ts e) ++ de_payload e) ++ be_bytes 4 z ++ rest)
    with ((be_bytes 4 z ++ de_ttl e) ++ be_bytes 8 (de_ts e) ++ de_payload e ++ be_bytes 4 z ++ rest) by (by rewrite <- !app_assoc).
  rewrite (array_ref_mid _ (be_bytes 8 (de_ts e))) by (rewrite ?length_app, ?be_bytes_length; lia). cbn [and_then].
  by rewrite of_be_bytes_round by done.
Qed.

(** ** The searches *)

Section Search.
Context (chunk : Z -> nat -> nat) (Hchunk : forall pos want, (0 < want)%nat -> (0 < chunk pos want)%nat).
Context (name : list Z) (evs : list disk_event) (tail : list Z) (len : nat).

(** A file with at least one event, and an incomplete one after the last. *)
Record file_wf : Prop := {
  fw_name : (1 <= length name <= 248)%nat;
  fw_events : Forall (disk_event_wf len) evs;
  fw_some : evs <> [];
  fw_len : (len <= 512)%nat;
  fw_tail : (length tail < len)%nat;
  fw_size : Z.of_nat (length (enc_file name evs tail)) < 2 ^ 63
}.

Context (Hwf : file_wf).

Definition bytes : list Z := enc_file name evs tail.

Definition headoff : Z := Z.of_nat (length name + 10).

Definition ev_off (i : nat) : Z := headoff + Z.of_nat i * Z.of_nat len.

Definition ev_tss : list Z := map de_ts evs.

Lemma evlen_bounds : (24 <= len <= 512)%nat.
Proof using Hwf.
  pose proof (fw_events Hwf) as He. pose proof (fw_some Hwf). pose proof (nil_length_inv evs). pose proof (fw_len Hwf).
  destruct (lookup_lt_is_Some_2 evs 0) as [e Hi]; [destruct (length evs); [naive_solver|lia]|].
  rewrite Forall_lookup in He. destruct (He 0%nat e Hi) as [Hd _]. unfold de_len in Hd. lia.
Qed.

Lemma concat_drop i l : Forall (disk_event_wf len) l ->
  drop (i * len) (concat (map enc_event l)) = concat (map enc_event (drop i l)).
Proof.
  intros Hl. revert i. induction Hl as [|e l He _ IH]; intros [|i]; [done|cbn [map concat]; by rewrite !drop_nil|done|].
  cbn [drop map concat]. change (S i * len)%nat with (len + i * len)%nat. rewrite <- drop_drop, drop_app_length' by (by rewrite (length_enc_event len)). apply IH.
Qed.

Lemma concat_length l : Forall (disk_event_wf len) l -> length (concat (map enc_event l)) = (length l * len)%nat.
Proof. induction 1 as [|e l He _ IH]; [done|]. cbn [map concat length]. rewrite length_app, IH, (length_enc_event len) by done. lia. Qed.

Lemma bytes_length : length bytes = (length name + 10 + length evs * len + length tail)%nat.
Proof using Hwf. unfold bytes, enc_file. rewrite !length_app, length_enc_header, concat_length by apply Hwf. lia. Qed.

Lemma bytes_at i e : evs !! i = Some e -> exists rest, drop (Z.to_nat (ev_off i)) bytes = enc_event e ++ rest.
Proof using Hwf.
  intros Hi. unfold ev_off, headoff, bytes, enc_file.
  replace (Z.to_nat _) with (length (enc_header name) + i * len)%nat by (rewrite length_enc_header; lia).
  rewrite <- drop_drop, drop_app_length. rewrite drop_app_le.
  2: { rewrite concat_length by apply Hwf. apply lookup_lt_Some in Hi. nia. }
  rewrite concat_drop by apply Hwf. rewrite (drop_S _ _ _ Hi). cbn [map concat]. rewrite <- app_assoc. eauto.
Qed.

Lemma ev_off_bounds i : (i < length evs)%nat -> 0 <= ev_off i < 2 ^ 63.
Proof using Hwf.
  intros Hi. pose proof (fw_size Hwf) as Hs. fold bytes in Hs. rewrite bytes_length in Hs. unfold ev_off, headoff. split; [lia|]. nia.
Qed.

Lemma read_event_at_off i e f :
  f_bytes f = bytes -> evs !! i = Some e ->
  exists f', read_event_at chunk (ev_off i) f = Ok (f', (Z.of_nat len, de_ts e)) /\ f_bytes f' = bytes.
Proof using Hwf Hchunk.
  intros Hb Hi. pose proof (ev_off_bounds i (lookup_lt_Some _ _ _ Hi)). pose proof evlen_bounds.
  assert (disk_event_wf len e) as He by (pose proof (fw_events Hwf) as Hf; rewrite Forall_lookup in Hf; by eapply Hf).
  unfold read_event_at, seek_start. rewrite (proj2 (Z.leb_gt _ _)) by lia. cbn [and_then]. rewrite Hb.
  destruct (read_spec chunk Hchunk 1024 (ev_off i) bytes) as (f' & z & -> & Hf'); [lia..|].
  destruct (bytes_at i e Hi) as [rest ->]. rewrite take_app_ge by (rewrite (length_enc_event len) by done; lia).
  rewrite <- app_assoc, (parse_event_enc len) by (done || lia). eauto.
Qed.

Lemma position_first_spec f a b :
  f_bytes f = bytes -> evs !! 0%nat = Some a -> evs !! (length evs - 1)%nat = Some b ->
  exists f', f_bytes f' = bytes /\
    position_first chunk f = Ok (f', (ev_off 0, ev_off (length evs - 1), Z.of_nat len, de_ts a, de_ts b)).
Proof using Hwf Hchunk.
  intros Hb Ha Hl. pose proof evlen_bounds as Hlen. pose proof (fw_name Hwf) as Hn. pose proof (fw_size Hwf) as Hs. fold bytes in Hs.
  pose proof bytes_length as Hbl. pose proof (lookup_lt_Some _ _ _ Ha). pose proof (fw_tail Hwf).
  assert (disk_event_wf len a) as Hwa by (pose proof (fw_events Hwf) as Hf; rewrite Forall_lookup in Hf; by eapply Hf).
  unfold position_first, seek_end, seek_start. cbn [f_bytes]. rewrite Hb. change (2 ^ 63 <=? 0) with false. cbn [and_then].
  destruct (read_spec chunk Hchunk 1024 0 bytes) as (f1 & z & -> & Hf1); [lia..|].
  destruct (bytes_at 0 a Ha) as [rest Hr].
  assert (bytes = enc_header name ++ enc_event a ++ rest) as Hbytes.
  { rewrite <- Hr. rewrite <- (take_drop (Z.to_nat (ev_off 0)) bytes) at 1. f_equal. unfold bytes, enc_file.
    apply take_app_length'. rewrite length_enc_header. unfold ev_off, headoff. lia. }
  assert (exists r, take 1024 (drop (Z.to_nat 0) bytes) = enc_header name ++ enc_event a ++ r) as [r ->].
  { change (drop (Z.to_nat 0) bytes) with bytes. rewrite Hbytes. rewrite take_app_ge by (rewrite length_enc_header; lia).
    rewrite take_app_ge by (rewrite length_enc_header, (length_enc_event len) by done; lia). eauto. }
  rewrite <- !app_assoc, parse_channel_header_enc by done. cbn [and_then].
  replace (Z.to_nat (2 + Z.of_nat (length name + 8))) with (length (enc_header name)) by (rewrite length_enc_header; lia).
  rewrite slice_ok by (rewrite !length_app; lia). cbn [and_then]. rewrite drop_app_length, take_ge by (rewrite !length_app; lia).
  rewrite (parse_event_enc len) by (done || lia). cbn [and_then fst snd].
  assert (u64_sub (Z.of_nat (length bytes)) (2 + Z.of_nat (length name + 8)) =
    Z.of_nat (length evs) * Z.of_nat len + Z.of_nat (length tail)) as -> by (rewrite u64_sub_small; lia).
  rewrite u_div_ok by lia. cbn [and_then].
  rewrite <- (Z.div_unique_pos _ _ (Z.of_nat (length evs)) (Z.of_nat (length tail))) by lia.
  rewrite (u64_sub_small (Z.of_nat (length evs))), u64_mul_small, u64_add_small by nia.
  replace (_ + (2 + Z.of_nat (length name + 8))) with (ev_off (length evs - 1)) by (unfold ev_off, headoff; rewrite Nat2Z.inj_sub by lia; lia).
  destruct (read_event_at_off (length evs - 1) b f1 Hf1 Hl) as (f2 & -> & Hf2). cbn [and_then fst snd].
  rewrite Z.eqb_refl. cbn [negb]. exists f2. split; [done|]. do 6 f_equal. unfold ev_off, headoff. lia.
Qed.
(** A search ends with the file at a position, and this many reads at most. *)
Definition ends_at (r : option (outcome datafile_error (File * bool * Z * Z))) (to : bool * Z) (reads : Z) : Prop :=
  exists nr, r = Some (Ok (mkFile bytes to.2, to.1, nr, to.2)) /\ 2 <= nr <= reads.

Lemma position_ret_at f found nr pos reads :
  f_bytes f = bytes -> 0 <= pos < 2 ^ 63 -> 2 <= nr <= reads -> ends_at (position_ret f found nr pos) (found, pos) reads.
Proof using.
  intros Hb Hp Hr. exists nr. split; [|done]. unfold position_ret, seek_start. rewrite (proj2 (Z.leb_gt _ _)) by lia. by rewrite Hb.
Qed.

Lemma off_diff a b : (a <= b)%nat -> (b < length evs)%nat -> u64_sub (ev_off b) (ev_off a) = Z.of_nat (b - a) * Z.of_nat len.
Proof using Hwf.
  intros Hab Hb. pose proof (ev_off_bounds b Hb). pose proof (ev_off_bounds a ltac:(lia)).
  unfold ev_off in *. rewrite u64_sub_small by nia. rewrite Nat2Z.inj_sub by lia. lia.
Qed.

Lemma off_mid a b : (a < b < length evs)%nat ->
  u64_add (ev_off a) (u64_mul (Z.of_nat (b - a) * Z.of_nat len / 2 / Z.of_nat len) (Z.of_nat len)) = ev_off (a + (b - a) / 2).
Proof using Hwf.
  intros Hab. pose proof evlen_bounds. rewrite Z.div_div, (Z.mul_comm 2), Z.mul_comm, Z.div_mul_cancel_l by lia.
  replace (Z.of_nat (b - a) / 2) with (Z.of_nat ((b - a) / 2)) by (by rewrite Nat2Z.inj_div).
  assert ((b - a) / 2 < b - a)%nat as Hlt by (apply Nat.div_lt; lia).
  pose proof (ev_off_bounds (a + (b - a) / 2) ltac:(lia)). pose proof (ev_off_bounds a ltac:(lia)).
  unfold ev_off in *. rewrite Nat2Z.inj_add, Z.mul_add_distr_r in *. rewrite u64_mul_small, u64_add_small by lia. lia.
Qed.

(** The gap halves with every read. *)
Lemma log2_half g : (2 <= g)%nat ->
  1 + Z.log2_up (Z.of_nat (g / 2)) <= Z.log2_up (Z.of_nat g) /\
  1 + Z.log2_up (Z.of_nat (g - g / 2)) <= Z.log2_up (Z.of_nat g).
Proof using.
  intros Hg. pose proof (Nat.div_mod g 2 ltac:(done)). pose proof (Nat.mod_upper_bound g 2 ltac:(done)).
  pose proof (Z.log2_up_le_pow2 (Z.of_nat g) (Z.log2_up (Z.of_nat g)) ltac:(lia)) as [_ Hp]. specialize (Hp ltac:(lia)).
  assert (0 < Z.log2_up (Z.of_nat g)) by (apply Z.log2_up_pos; lia).
  replace (Z.log2_up (Z.of_nat g)) with (Z.succ (Z.log2_up (Z.of_nat g) - 1)) in Hp by lia. rewrite Z.pow_succ_r in Hp by lia.
  assert (Z.log2_up (Z.of_nat (g / 2)) <= Z.log2_up (Z.of_nat g) - 1) by (apply Z.log2_up_le_pow2; lia).
  assert (Z.log2_up (Z.of_nat (g - g / 2)) <= Z.log2_up (Z.of_nat g) - 1) by (apply Z.log2_up_le_pow2; lia). lia.
Qed.

Context (range : NanoRange) (Hsorted : StronglySorted Z.le ev_tss).

(** The scans of the timestamps: the first event that is not before the range,
    and the last one that is. *)
Definition position_scan (expand_right : bool) : bool * Z :=
  match ev_tss !! before range ev_tss with
  | Some t => if (t <? nr_end range) || expand_right then (true, ev_off (before range ev_tss)) else (false, 0)
  | None => (false, ev_off 0)
  end.

Definition position_lst_scan : bool * Z :=
  match before range ev_tss with O => (false, ev_off 0) | S i => (true, ev_off i) end.

Lemma tss_lookup i e : evs !! i = Some e -> ev_tss !! i = Some (de_ts e).
Proof using. intros Hi. unfold ev_tss. by rewrite list_lookup_fmap, Hi. Qed.

Lemma position_loop_scan expand fuel f a b ea eb nr reads :
  f_bytes f = bytes -> evs !! a = Some ea -> evs !! b = Some eb -> (a < b)%nat -> (b - a <= fuel)%nat ->
  de_ts ea < nr_beg range <= de_ts eb -> 2 <= nr -> nr + Z.log2_up (Z.of_nat (b - a)) <= reads < 2 ^ 32 ->
  ends_at (position_loop chunk fuel range expand (Z.of_nat len) (ev_off a) (ev_off b) (de_ts ea) (de_ts eb) nr f)
    (position_scan expand) reads.
Proof using Hwf Hchunk Hsorted.
  revert f a b ea eb nr. induction fuel as [|fuel IH]; intros f a b ea eb nr Hb Ha Hbe Hab Hf Hr Hn Hrd; [lia|].
  pose proof evlen_bounds. pose proof (lookup_lt_Some _ _ _ Hbe) as Hlt. pose proof (Z.log2_up_nonneg (Z.of_nat (b - a))).
  cbn [position_loop]. rewrite (proj2 (Z.ltb_lt _ _)) by lia. cbn [assert and_run]. rewrite off_diff by lia.
  unfold u_rem. rewrite (proj2 (Z.eqb_neq _ _)) by lia. rewrite Z.mod_mul by lia. cbn [and_run Z.eqb assert].
  rewrite u64_mul_small by lia. destruct (Z.ltb_spec (Z.of_nat (b - a) * Z.of_nat len) (2 * Z.of_nat len)) as [Hd|Hd].
  - assert (b = S a) as -> by nia. unfold position_scan, before.
    rewrite (crossing (nr_beg range) ev_tss a (de_ts ea) (de_ts eb)) by (done || lia || by apply tss_lookup).
    rewrite (tss_lookup _ _ Hbe). destruct (_ || _); (apply position_ret_at; [done| |lia]); [by apply ev_off_bounds|lia].
  - rewrite u_div_ok by lia. cbn [and_run]. rewrite off_mid by lia. pose proof (log2_half (b - a) ltac:(nia)) as [Hl1 Hl2].
    pose proof (Nat.div_mod (b - a) 2 ltac:(done)). pose proof (Nat.mod_upper_bound (b - a) 2 ltac:(done)).
    set (h := ((b - a) / 2)%nat) in *. pose proof (Z.log2_up_nonneg (Z.of_nat h)). assert (2 <= b - a)%nat by nia. clear Hd.
    destruct (lookup_lt_is_Some_2 evs (a + h)) as [em Hm]; [lia|].
    destruct (read_event_at_off (a + h) em f Hb Hm) as (f' & -> & Hf'). cbn [and_run fst snd]. rewrite Z.eqb_refl. cbn [negb].
    assert (u32_add nr 1 = nr + 1) as -> by (apply wrap_small; unfold in_u; lia).
    destruct (Z.ltb_spec (TsNano_ns (de_ts em)) (nr_beg range)); unfold TsNano_ns in *; apply IH; try (done || nia || lia).
    + replace (b - (a + h))%nat with (b - a - h)%nat by lia. lia.
    + replace (a + h - a)%nat with h by lia. lia.
Qed.

Lemma position_lst_loop_scan fuel f a b ea eb nr reads :
  f_bytes f = bytes -> evs !! a = Some ea -> evs !! b = Some eb -> (a < b)%nat -> (b - a <= fuel)%nat ->
  de_ts ea < nr_beg range <= de_ts eb -> 2 <= nr -> nr + Z.log2_up (Z.of_nat (b - a)) <= reads < 2 ^ 32 ->
  ends_at (position_lst_loop chunk fuel range (Z.of_nat len) (ev_off a) (ev_off b) nr f) position_lst_scan reads.
Proof using Hwf Hchunk Hsorted.
  revert f a b ea eb nr. induction fuel as [|fuel IH]; intros f a b ea eb nr Hb Ha Hbe Hab Hf Hr Hn Hrd; [lia|].
  pose proof evlen_bounds. pose proof (lookup_lt_Some _ _ _ Hbe) as Hlt. pose proof (Z.log2_up_nonneg (Z.of_nat (b - a))).
  cbn [position_lst_loop]. rewrite off_diff, u64_mul_small by lia.
  destruct (Z.ltb_spec (Z.of_nat (b - a) * Z.of_nat len) (2 * Z.of_nat len)) as [Hd|Hd].
  - assert (b = S a) as -> by nia. unfold position_lst_scan, before.
    rewrite (crossing (nr_beg range) ev_tss a (de_ts ea) (de_ts eb)) by (done || lia || by apply tss_lookup).
    apply position_ret_at; [done| |lia]. apply ev_off_bounds. lia.
  - rewrite u_div_ok by lia. cbn [and_run]. rewrite off_mid by lia. pose proof (log2_half (b - a) ltac:(nia)) as [Hl1 Hl2].
    pose proof (Nat.div_mod (b - a) 2 ltac:(done)). pose proof (Nat.mod_upper_bound (b - a) 2 ltac:(done)).
    set (h := ((b - a) / 2)%nat) in *. pose proof (Z.log2_up_nonneg (Z.of_nat h)). assert (2 <= b - a)%nat by nia. clear Hd.
    destruct (lookup_lt_is_Some_2 evs (a + h)) as [em Hm]; [lia|].
    destruct (read_event_at_off (a + h) em f Hb Hm) as (f' & -> & Hf'). cbn [and_run fst snd]. rewrite Z.eqb_refl. cbn [negb].
    assert (u32_add nr 1 = nr + 1) as -> by (apply wrap_small; unfold in_u; lia).
    destruct (Z.ltb_spec (TsNano_ns (de_ts em)) (nr_beg range)) as [Hc|Hc]; unfold TsNano_ns in Hc.
    + apply (IH f' (a + h)%nat b em eb); try (done || nia || lia). replace (b - (a + h))%nat with (b - a - h)%nat by lia. lia.
    + apply (IH f' a (a + h)%nat ea em); try (done || nia || lia). replace (a + h - a)%nat with h by lia. lia.
Qed.
Definition max_reads : Z := 2 + Z.log2_up (Z.of_nat (length evs - 1)).

Lemma max_reads_fits : 2 <= max_reads < 2 ^ 32.
Proof using Hwf.
  pose proof (Z.log2_up_nonneg (Z.of_nat (length evs - 1))) as Hn. unfold max_reads.
  enough (Z.log2_up (Z.of_nat (length evs - 1)) <= 63) by lia.
  destruct (decide (length evs - 1 = 0)%nat) as [->|Hne]; [done|]. apply Z.log2_up_le_pow2; [lia|].
  pose proof (fw_size Hwf) as Hs. fold bytes in Hs. rewrite bytes_length in Hs. pose proof evlen_bounds. nia.
Qed.

(** Where the searches start: the first event [a] and the last event [b]. *)
Lemma search_start f :
  f_bytes f = bytes ->
  exists f' a b,
    position_first chunk f = Ok (f', (ev_off 0, ev_off (length evs - 1), Z.of_nat len, de_ts a, de_ts b)) /\
    f_bytes f' = bytes /\ evs !! 0%nat = Some a /\ evs !! (length evs - 1)%nat = Some b /\ (0 < length evs)%nat /\
    (length evs - 1 <= length (f_bytes f'))%nat /\ de_ts a <= de_ts b /\
    (nr_beg range <= de_ts a -> before range ev_tss = 0%nat) /\
    (de_ts b < nr_beg range -> before range ev_tss = length evs) /\
    (de_ts a < nr_beg range <= de_ts b -> (0 < length evs - 1)%nat).
Proof using Hwf Hchunk Hsorted.
  intros Hf. assert (0 < length evs)%nat as Hpos.
  { pose proof (fw_some Hwf). pose proof (nil_length_inv evs). destruct (length evs); [naive_solver|lia]. }
  destruct (lookup_lt_is_Some_2 evs 0 Hpos) as [a Ha]. destruct (lookup_lt_is_Some_2 evs (length evs - 1)) as [b Hb]; [lia|].
  destruct (position_first_spec f a b Hf Ha Hb) as (f' & Hf' & Hp). exists f', a, b. pose proof evlen_bounds.
  pose proof (tss_lookup 0 a Ha) as Hta. pose proof (tss_lookup (length evs - 1) b Hb) as Htb.
  repeat (split; [done|]). split; [rewrite Hf', bytes_length; nia|].
  split; [eapply (sorted_lookup ev_tss 0 (length evs - 1)); (done || lia)|]. split; [|split].
  - intros Hle. apply (before_0 range _ (de_ts a)); [|done]. by rewrite head_lookup.
  - intros Hlt. unfold before. rewrite (all_before _ _ (de_ts b)); [apply length_map|done| |done].
    rewrite last_lookup. replace (length ev_tss) with (length evs) by (unfold ev_tss; by rewrite length_map). by replace (pred (length evs)) with (length evs - 1)%nat by lia.
  - intros Hab. destruct (decide (length evs - 1 = 0)%nat) as [E|]; [|lia]. rewrite E in Hb. simplify_eq. lia.
Qed.

Lemma position_static_scan expand f :
  f_bytes f = bytes -> nr_beg range <= nr_end range ->
  ends_at (position_static_len_datafile chunk f range expand) (position_scan expand) max_reads.
Proof using Hwf Hchunk Hsorted.
  intros Hf Hr. destruct (search_start f Hf) as (f' & a & b & Hp & Hf' & Ha & Hb & Hpos & Hfuel & Hab & Hb0 & Hbl & Hn).
  unfold position_static_len_datafile. rewrite Hp. cbn [and_run]. pose proof max_reads_fits as Hm.
  pose proof (ev_off_bounds 0 Hpos) as Ho.
  assert (nr_beg range <= de_ts a -> ends_at
    (if (de_ts a <? nr_end range) || expand then position_ret f' true 2 (ev_off 0) else position_ret f' false 2 0)
    (position_scan expand) max_reads) as Hfirst.
  { intros Hle. unfold position_scan. rewrite (Hb0 Hle), (tss_lookup 0 a Ha). destruct (_ || _); (apply position_ret_at; [done|lia|lia]). }
  destruct (Z.leb_spec (nr_end range) (de_ts a)).
  - specialize (Hfirst ltac:(lia)). rewrite (proj2 (Z.ltb_ge _ _)) in Hfirst by lia. by destruct expand.
  - destruct (Z.ltb_spec (de_ts b) (nr_beg range)).
    + unfold position_scan. rewrite Hbl by done. rewrite lookup_ge_None_2 by (unfold ev_tss; by rewrite length_map).
      apply position_ret_at; [done|lia|lia].
    + destruct (Z.leb_spec (nr_beg range) (de_ts a)); [by apply Hfirst|].
      specialize (Hn ltac:(lia)). apply (position_loop_scan expand _ f' 0 (length evs - 1) a b 2); try (done || lia).
      replace (length evs - 1 - 0)%nat with (length evs - 1)%nat by lia. unfold max_reads in *. lia.
Qed.

Lemma position_lst_static_scan expand f :
  f_bytes f = bytes ->
  ends_at (position_static_len_datafile_at_largest_smaller_than chunk f range expand) position_lst_scan max_reads.
Proof using Hwf Hchunk Hsorted.
  intros Hf. destruct (search_start f Hf) as (f' & a & b & Hp & Hf' & Ha & Hb & Hpos & Hfuel & Hab & Hb0 & Hbl & Hn).
  unfold position_static_len_datafile_at_largest_smaller_than. rewrite Hp. cbn [and_run]. pose proof max_reads_fits as Hm.
  pose proof (ev_off_bounds 0 Hpos) as Ho. pose proof (ev_off_bounds (length evs - 1) ltac:(lia)) as Ho1.
  destruct (Z.leb_spec (nr_beg range) (de_ts a)) as [Hc|Hc].
  - unfold position_lst_scan. rewrite (Hb0 Hc). apply position_ret_at; [done|lia|lia].
  - destruct (Z.ltb_spec (de_ts b) (nr_beg range)) as [Hd|Hd].
    + unfold position_lst_scan. rewrite (Hbl Hd). destruct (length evs) as [|n]; [lia|].
      replace (S n - 1)%nat with n in * by lia. apply position_ret_at; [done|lia|lia].
    + specialize (Hn ltac:(lia)). apply (position_lst_loop_scan _ f' 0 (length evs - 1) a b 2); try (done || lia).
      replace (length evs - 1 - 0)%nat with (length evs - 1)%nat by lia. unfold max_reads in *. lia.
Qed.
End Search.

(** C20. On a data file of events of one length which is sorted by time, both
    searches end without an error, however the reads are cut. The file is left
    at the first event that is not before the range, and this is reported as
    found unless the event is at or after the end and the search is not to
    expand; the other search leaves it at the last event before the range. At
    most two reads and the logarithm of the number of events are made. *)
Theorem position_scans chunk name evs tail len range expand pos :
  (forall pos want, (0 < want)%nat -> (0 < chunk pos want)%nat) ->
  file_wf name evs tail len -> StronglySorted Z.le (ev_tss evs) -> nr_beg range <= nr_end range ->
  let f := mkFile (enc_file name evs tail) pos in
  ends_at name evs tail (position_static_len_datafile chunk f range expand)
    (position_scan name evs len range expand) (max_reads evs) /\
  ends_at name evs tail (position_static_len_datafile_at_largest_smaller_than chunk f range expand)
    (position_lst_scan name evs len range) (max_reads evs).
Proof.
  intros Hc Hwf Hs Hr f. split; [by eapply position_static_scan|by eapply position_lst_static_scan].
Qed.

(** Five events, and a read that returns at most 7 bytes. *)
Definition example_events : list disk_event :=
  map (fun ts => mkDiskEvent (replicate 8 0) ts [1; 2; 3]) [10; 20; 20; 30; 40].

Lemma position_scans_witness :
  position_static_len_datafile (fun _ _ => 7%nat) (mkFile (enc_file [97] example_events [0; 0]) 5) (mkNanoRange 15 25) false =
    Some (Ok (mkFile (enc_file [97] example_events [0; 0]) 38, true, 4, 38)) /\
  ends_at [97] example_events [0; 0]
    (position_static_len_datafile (fun _ _ => 7%nat) (mkFile (enc_file [97] example_events [0; 0]) 5) (mkNanoRange 15 25) false)
    (true, 38) 4.
Proof.
  split; [vm_compute; reflexivity|].
  refine (proj1 (position_scans (fun _ _ => 7%nat) [97] example_events [0; 0] 27 (mkNanoRange 15 25) false 5 _ _ _ _)).
  - intros. lia.
  - split; try (cbn; lia); [|done]. repeat constructor; unfold in_u; cbn; lia.
  - repeat constructor; cbn; lia.
  - cbn. lia.
Defined.
