(* ===== verification/EventFull.v ===== *)
(** * Events as they are on disk

    [EventFull] of [daqbuf-items-2/src/eventfull.rs]: the container of the
    events that the data files hold, their values still as bytes. Its shape is
    derived from the compressed bytes; the decompression is the library
    [bitshuffle], a parameter. The container satisfies the laws of the merger. *)
From Stdlib Require Import ZArith Lia.
From stdpp Require Import base numbers option strings list sorting.
From S2P Require Import Prelude NetpodTypes Events ChannelConfig.

#[local] Open Scope Z_scope.
#[local] Open Scope rust_scope.

Record EventFull : Type := mkEventFull {
  ef_tss : list Z;
  ef_pulses : list Z;
  ef_blobs : list (list Z);
  ef_scalar_types : list ScalarType;
  ef_be : list bool;
  ef_shapes : list Shape;
  ef_comps : list (option CompressionMethod);
  ef_entry_payload_max : Z
}.

Definition ef_empty : EventFull := mkEventFull [] [] [] [] [] [] [] 0.

Definition ef_len (c : EventFull) : nat := length (ef_tss c).

Definition blob_len (b : list Z) : Z := Z.of_nat (length b).

Definition ef_push (c : EventFull) (ts pulse : Z) (blob : list Z) (scalar_type : ScalarType) (be : bool) (shape : Shape)
    (comp : option CompressionMethod) : EventFull :=
  {| ef_tss := ef_tss c ++ [ts];
     ef_pulses := ef_pulses c ++ [pulse];
     ef_blobs := ef_blobs c ++ [blob];
     ef_scalar_types := ef_scalar_types c ++ [scalar_type];
     ef_be := ef_be c ++ [be];
     ef_shapes := ef_shapes c ++ [shape];
     ef_comps := ef_comps c ++ [comp];
     ef_entry_payload_max := Z.max (ef_entry_payload_max c) (blob_len blob) |}.

(** The same operation on every list. *)
Definition ef_all (f : forall X, list X -> list X) (c : EventFull) : EventFull :=
  {| ef_tss := f _ (ef_tss c);
     ef_pulses := f _ (ef_pulses c);
     ef_blobs := f _ (ef_blobs c);
     ef_scalar_types := f _ (ef_scalar_types c);
     ef_be := f _ (ef_be c);
     ef_shapes := f _ (ef_shapes c);
     ef_comps := f _ (ef_comps c);
     ef_entry_payload_max := ef_entry_payload_max c |}.

(** Truncation keeps everything when no timestamp is at or after the end. *)
Definition ef_truncate_ts (c : EventFull) (en : Z) : EventFull :=
  match position (fun ts => en <=? ts) (ef_tss c) with
  | Some nkeep => ef_all (fun _ => take nkeep) c
  | None => c
  end.

Definition ef_overwrite_all_shapes (c : EventFull) (shape : Shape) : EventFull :=
  mkEventFull (ef_tss c) (ef_pulses c) (ef_blobs c) (ef_scalar_types c) (ef_be c) (map (fun _ => shape) (ef_shapes c))
    (ef_comps c) (ef_entry_payload_max c).

Definition ef_pop_back (c : EventFull) : EventFull := ef_all (fun _ l => take (length l - 1) l) c.

(** What the mask does not reach is dropped. *)
Definition ef_keep_ixs (c : EventFull) (ixs : list bool) : EventFull := ef_all (fun _ l => mask_filter l ixs) c.

Definition ef_byte_estimate (c : EventFull) : Z :=
  u32_mul (wrap 32 (Z.of_nat (ef_len c))) (u32_add 64 (wrap 32 (ef_entry_payload_max c))).

(** [impl MergeableTy for EventFull]. *)
Definition ef_ts_min (c : EventFull) : option Z := head (ef_tss c).
Definition ef_ts_max (c : EventFull) : option Z := last (ef_tss c).

(** The lengths of the blobs of the range; the index may be out of range. *)
Fixpoint ef_payload_max {E} (blobs : list (list Z)) (i n : nat) (max : Z) : outcome E Z :=
  match n with
  | O => Ok max
  | S n => let? b := index blobs i in ef_payload_max blobs (S i) n (Z.max max (blob_len b))
  end.

Definition ef_drain_into {E} (c dst : EventFull) (b e : nat) : outcome E (EventFull * EventFull * DrainIntoDstResult) :=
  let? max := ef_payload_max (ef_blobs c) b (e - b) (ef_entry_payload_max dst) in
  let? (d1, r1) := drain_range (ef_tss c) b e in
  let? (d2, r2) := drain_range (ef_pulses c) b e in
  let? (d3, r3) := drain_range (ef_blobs c) b e in
  let? (d4, r4) := drain_range (ef_scalar_types c) b e in
  let? (d5, r5) := drain_range (ef_be c) b e in
  let? (d6, r6) := drain_range (ef_shapes c) b e in
  let? (d7, r7) := drain_range (ef_comps c) b e in
  Ok (mkEventFull r1 r2 r3 r4 r5 r6 r7 (ef_entry_payload_max c),
      mkEventFull (ef_tss dst ++ d1) (ef_pulses dst ++ d2) (ef_blobs dst ++ d3) (ef_scalar_types dst ++ d4)
        (ef_be dst ++ d5) (ef_shapes dst ++ d6) (ef_comps dst ++ d7) max, DstDone).

Definition ef_drain_into_new {E} (c : EventFull) (b e : nat) : outcome E (EventFull * DrainIntoNewResult EventFull) :=
  let dst := ef_empty in
  let? (c, dst, r) := ef_drain_into c dst b e in
  Ok (c, match r with DstDone => NewDone dst | DstPartial => NewPartial dst | DstNotCompatible => NewNotCompatible end).

Definition ef_find_lowest_index_gt (c : EventFull) (ts : Z) : option nat := position (fun m => ts <? m) (ef_tss c).
Definition ef_find_lowest_index_ge (c : EventFull) (ts : Z) : option nat := position (fun m => ts <=? m) (ef_tss c).

(** The scan from the back: the index from the front. *)
Definition ef_find_highest_index_lt (c : EventFull) (ts : Z) : option nat :=
  k ← position (fun m => m <? ts) (rev (ef_tss c)); Some (length (ef_tss c) - 1 - k)%nat.

Definition ef_find_pp_le (c : EventFull) (ts : Z) : nat := partition_point (fun x => x <=? ts) (ef_tss c).

Definition ef_is_monotonic (c : EventFull) : bool :=
  let n := length (ef_tss c) in
  ce_mono_loop (zip (ef_tss c) (drop (Nat.min n 1) (ef_tss c))).

Definition ef_is_consistent (c : EventFull) : bool := ef_is_monotonic c.

Definition ef_retain_unique_ts (c : EventFull) (tsmin : Z) : EventFull :=
  ef_all (fun _ l => mask_filter l (ce_unique_mask (ef_tss c) tsmin)) c.

#[export] Instance MergeableTy_EventFull : MergeableTy EventFull := {|
  mt_len := ef_len;
  mt_byte_estimate := fun c => (c, ef_byte_estimate c);
  mt_ts_min := ef_ts_min;
  mt_ts_max := ef_ts_max;
  mt_find_lowest_index_gt := ef_find_lowest_index_gt;
  mt_find_lowest_index_ge := ef_find_lowest_index_ge;
  mt_find_highest_index_lt := ef_find_highest_index_lt;
  mt_find_pp_le := ef_find_pp_le;
  mt_drain_into := @ef_drain_into;
  mt_drain_into_new := @ef_drain_into_new;
  mt_is_monotonic := ef_is_monotonic;
  mt_is_consistent := ef_is_consistent;
  mt_retain_unique_ts := ef_retain_unique_ts
|}.

(** ** Shapes and decompression *)

Inductive decomp_error : Type :=
  | TooLittleInput
  | BadCompresionBlockSize
  | UnusedBytes
  | BitshuffleError
  | ShapeMakesNoSense
  | UnexpectedCompressedScalarValue.

(** The number of elements that the head of compressed bytes announces. *)
Definition blob_elements (blob : list Z) (scalar_type : ScalarType) : outcome decomp_error Z :=
  let type_size := ScalarType_bytes scalar_type in
  let? a := slice blob 0 8 in
  let value_bytes := wrap 32 (of_be_bytes a) in
  let? r := u_rem value_bytes type_size in
  if negb (r =? 0) then Err ShapeMakesNoSense else u_div value_bytes type_size.

Definition ef_shape_derived (c : EventFull) (i : nat) (scalar_type_exp : ScalarType) (shape_exp : Shape) :
    outcome decomp_error Shape :=
  match shape_exp with
  | Scalar =>
      let? comp := index (ef_comps c) i in
      match comp with
      | Some _ => match scalar_type_exp with STRING => Ok Scalar | _ => Err UnexpectedCompressedScalarValue end
      | None => Ok Scalar
      end
  | Wave _ =>
      let? shape := index (ef_shapes c) i in
      match shape with
      | Scalar =>
          let? comp := index (ef_comps c) i in
          match comp with
          | Some BitshuffleLZ4 =>
              let? t := index (ef_scalar_types c) i in
              let? b := index (ef_blobs c) i in
              let? n := blob_elements b t in Ok (Wave n)
          | None => Err ShapeMakesNoSense
          end
      | Wave s => Ok (Wave s)
      | Image _ _ => Err ShapeMakesNoSense
      end
  | Image a b =>
      let? shape := index (ef_shapes c) i in
      match shape with
      | Scalar =>
          let? comp := index (ef_comps c) i in
          match comp with
          | Some BitshuffleLZ4 =>
              let? t := index (ef_scalar_types c) i in
              let? bl := index (ef_blobs c) i in
              let? n := blob_elements bl t in
              if negb (u32_mul a b =? n) then Err ShapeMakesNoSense else Ok (Image a b)
          | None => Err ShapeMakesNoSense
          end
      | Wave _ => Err ShapeMakesNoSense
      | Image a b => Ok (Image a b)
      end
  end.

Definition ef_data_raw {E} (c : EventFull) (i : nat) : outcome E (list Z) := index (ef_blobs c) i.

Section Decompress.
(** [bitshuffle_decompress]: the input, the number of elements and their size;
    the output and the number of bytes that were used. *)
Context (bitshuffle_decompress : list Z -> Z -> Z -> option (list Z * Z)).

Definition decompress (databuf : list Z) (type_size : Z) : outcome decomp_error (list Z) :=
  if (length databuf <? 12)%nat then Err TooLittleInput
  else
    let? b8 := slice databuf 0 8 in
    let value_bytes := of_be_bytes b8 in
    let? b4 := slice databuf 8 12 in
    let block_size := of_be_bytes b4 in
    if 1024 * 32 <? block_size then Err BadCompresionBlockSize
    else
      let? ele_count := u_div value_bytes type_size in
      match bitshuffle_decompress (drop 12 databuf) ele_count type_size with
      | Some (decomp, c1) =>
          if negb (12 + c1 =? Z.of_nat (length databuf)) then Err UnusedBytes else Ok decomp
      | None => Err BitshuffleError
      end.

Definition ef_data_decompressed (c : EventFull) (i : nat) : outcome decomp_error (list Z) :=
  let? comp := index (ef_comps c) i in
  let? b := index (ef_blobs c) i in
  match comp with
  | Some BitshuffleLZ4 => let? t := index (ef_scalar_types c) i in decompress b (ScalarType_bytes t)
  | None => Ok b
  end.
End Decompress.
