(* ===== verification/EventFullProofs.v ===== *)
(** * The container of disk events in the merger

    [EventFull] satisfies [MergeableLaws]: what is proved of the merger and of
    the range filter holds for streams of it. The events are the rows of the
    parallel lists; a well-formed container knows a bound of its payloads, so
    that the estimate of its size does not fall behind. *)
From Stdlib Require Import ZArith Lia.
From stdpp Require Import base numbers option strings list sorting.
From S2P Require Import Prelude NetpodTypes Events ChannelConfig EventFull.

#[local] Open Scope Z_scope.
#[local] Open Scope rust_scope.

(** A row. *)
Record EfEvent : Type := mkEfEvent {
  ee_ts : Z;
  ee_pulse : Z;
  ee_blob : list Z;
  ee_scalar_type : ScalarType;
  ee_be : bool;
  ee_shape : Shape;
  ee_comp : option CompressionMethod
}.

Definition ef_rows (c : EventFull) : list EfEvent :=
  zap (zap (zap (zap (zap (zap (map mkEfEvent (ef_tss c)) (ef_pulses c)) (ef_blobs c)) (ef_scalar_types c)) (ef_be c))
    (ef_shapes c)) (ef_comps c).

Record ef_wf (c : EventFull) : Prop := {
  ew_pulses : length (ef_pulses c) = ef_len c;
  ew_blobs : length (ef_blobs c) = ef_len c;
  ew_scalar_types : length (ef_scalar_types c) = ef_len c;
  ew_be : length (ef_be c) = ef_len c;
  ew_shapes : length (ef_shapes c) = ef_len c;
  ew_comps : length (ef_comps c) = ef_len c;
  ew_max : Forall (fun b => blob_len b <= ef_entry_payload_max c) (ef_blobs c)
}.

Lemma ef_empty_wf : ef_wf ef_empty.
Proof. by split. Qed.

Lemma ef_rows_length c : ef_wf c -> length (ef_rows c) = ef_len c.
Proof. intros []. unfold ef_len in *. unfold ef_rows. zap_len. Qed.

Lemma ef_rows_ts c : ef_wf c -> map ee_ts (ef_rows c) = ef_tss c.
Proof.
  intros Hw. apply list_eq. intros i. rewrite list_lookup_fmap. destruct Hw. unfold ef_len in *. unfold ef_rows, zap.
  rewrite !lookup_zip_with, list_lookup_fmap.
  destruct (ef_tss c !! i) as [a|] eqn:Ha; [|done]. apply lookup_lt_Some in Ha.
  repeat match goal with |- context [?l !! i] => destruct (lookup_lt_is_Some_2 l i) as [? ->]; [lia|] end. done.
Qed.

Lemma ef_rows_take c n : ef_rows (ef_all (fun _ => take n) c) = take n (ef_rows c).
Proof.
  unfold ef_rows, ef_all. cbn [ef_tss ef_pulses ef_blobs ef_scalar_types ef_be ef_shapes ef_comps].
  change (map mkEfEvent (take n (ef_tss c))) with (mkEfEvent <$> take n (ef_tss c)). by rewrite fmap_take, !zap_take.
Qed.

Lemma ef_rows_drop c n : ef_rows (ef_all (fun _ => drop n) c) = drop n (ef_rows c).
Proof.
  unfold ef_rows, ef_all. cbn [ef_tss ef_pulses ef_blobs ef_scalar_types ef_be ef_shapes ef_comps].
  change (map mkEfEvent (drop n (ef_tss c))) with (mkEfEvent <$> drop n (ef_tss c)). by rewrite fmap_drop, !zap_drop.
Qed.

(** One container after the other, with a bound of both. *)
Definition ef_app (c d : EventFull) (max : Z) : EventFull :=
  mkEventFull (ef_tss c ++ ef_tss d) (ef_pulses c ++ ef_pulses d) (ef_blobs c ++ ef_blobs d)
    (ef_scalar_types c ++ ef_scalar_types d) (ef_be c ++ ef_be d) (ef_shapes c ++ ef_shapes d) (ef_comps c ++ ef_comps d) max.

Lemma ef_rows_app c d max : ef_wf c -> ef_rows (ef_app c d max) = ef_rows c ++ ef_rows d.
Proof.
  intros []. unfold ef_len in *. unfold ef_rows, ef_app. cbn [ef_tss ef_pulses ef_blobs ef_scalar_types ef_be ef_shapes ef_comps].
  rewrite map_app. by repeat (rewrite zap_app; [|zap_len]).
Qed.

Lemma ef_app_wf c d max :
  ef_wf c -> ef_wf d -> Forall (fun b => blob_len b <= max) (ef_blobs c) -> Forall (fun b => blob_len b <= max) (ef_blobs d) ->
  ef_wf (ef_app c d max).
Proof.
  intros [] [] Hc Hd. unfold ef_len in *. split; unfold ef_len; cbn; rewrite ?length_app; try lia. by apply Forall_app.
Qed.

Lemma ef_all_wf (f : forall X, list X -> list X) c :
  (forall X Y (l : list X) (k : list Y), length l = length k -> length (f _ l) = length (f _ k)) ->
  (forall P (l : list (list Z)), Forall P l -> Forall P (f _ l)) -> ef_wf c -> ef_wf (ef_all f c).
Proof. intros Hf HF []. unfold ef_len in *. split; unfold ef_len; cbn; (by apply Hf) || by apply HF. Qed.

Lemma ef_take_wf c n : ef_wf c -> ef_wf (ef_all (fun _ => take n) c).
Proof. apply (ef_all_wf (fun _ => take n)); [intros X Y l k Hl; rewrite !length_take; lia|intros P l; apply Forall_take]. Qed.

Lemma ef_drop_wf c n : ef_wf c -> ef_wf (ef_all (fun _ => drop n) c).
Proof. apply (ef_all_wf (fun _ => drop n)); [intros X Y l k Hl; rewrite !length_drop; lia|intros P l; apply Forall_drop]. Qed.

(** The bound over a range of the blobs. *)
Lemma ef_payload_max_spec {E} blobs i n max :
  (i + n <= length blobs)%nat ->
  exists max', ef_payload_max (E := E) blobs i n max = Ok max' /\ max <= max' /\
    Forall (fun b => blob_len b <= max') (take n (drop i blobs)).
Proof.
  revert i max. induction n as [|n IH]; intros i max Hn; [by exists max|]. cbn [ef_payload_max].
  destruct (lookup_lt_is_Some_2 blobs i) as [b Hb]; [lia|]. unfold index. rewrite Hb. cbn [unwrap and_then].
  destruct (IH (S i) (Z.max max (blob_len b))) as (m & -> & Hm & Hf); [lia|]. exists m. split; [done|]. split; [lia|].
  rewrite (drop_S _ _ _ Hb). cbn [take]. constructor; [lia|done].
Qed.

Lemma ef_drain_into_range {E} c dst b e :
  ef_wf c -> ef_wf dst -> (b <= e <= ef_len c)%nat ->
  exists c' dst', ef_drain_into (E := E) c dst b e = Ok (c', dst', DstDone) /\ ef_wf c' /\ ef_wf dst' /\
    ef_rows c' = take b (ef_rows c) ++ drop e (ef_rows c) /\
    ef_rows dst' = ef_rows dst ++ take (e - b) (drop b (ef_rows c)).
Proof.
  intros Hw Hd Hn. pose proof Hw as []. pose proof Hd as [].
  destruct (ef_payload_max_spec (E := E) (ef_blobs c) b (e - b) (ef_entry_payload_max dst)) as (m & Hm & Hle & Hf); [unfold ef_len in *; lia|].
  unfold ef_drain_into. rewrite Hm. cbn [and_then]. rewrite !drain_range_ok by (unfold ef_len in *; lia). cbn [and_then].
  pose proof (ef_take_wf c b Hw) as Hw1. pose proof (ef_drop_wf c e Hw) as Hw2.
  pose proof (ef_take_wf _ (e - b) (ef_drop_wf c b Hw)) as Hw3.
  exists (ef_app (ef_all (fun _ => take b) c) (ef_all (fun _ => drop e) c) (ef_entry_payload_max c)),
    (ef_app dst (ef_all (fun _ => take (e - b)) (ef_all (fun _ => drop b) c)) m).
  split; [done|]. split; [|split].
  - apply (ef_app_wf _ _ (ef_entry_payload_max c) Hw1 Hw2); [apply Hw1|apply Hw2].
  - apply (ef_app_wf dst _ m Hd Hw3); [|done]. eapply Forall_impl; [done|]. cbn. lia.
  - rewrite <- ef_rows_take, <- !ef_rows_drop, <- ef_rows_take. by rewrite !ef_rows_app.
Qed.

(** The events of the container: its rows at their timestamps. *)
Definition ef_events (c : EventFull) : list (Z * EfEvent) := map (fun r => (ee_ts r, r)) (ef_rows c).

Lemma ef_events_fst c : ef_wf c -> (ef_events c).*1 = ef_tss c.
Proof. intros Hw. rewrite <- (ef_rows_ts c Hw). unfold ef_events. change (fst <$> ?l) with (map fst l). by rewrite map_map. Qed.

Lemma ef_events_length c : ef_wf c -> length (ef_events c) = ef_len c.
Proof. intros Hw. unfold ef_events. rewrite length_map. by apply ef_rows_length. Qed.

(** The scans of the code in terms of the partition point. *)
Lemma position_partition {A} (f g : A -> bool) l :
  (forall x, g x = negb (f x)) ->
  position g l = let n := partition_point f l in if (length l <=? n)%nat then None else Some n.
Proof.
  intros Hg. cbv zeta. induction l as [|x l IH]; [done|]. cbn [position partition_point length]. rewrite Hg.
  destruct (f x); [|done]. cbn [negb]. rewrite IH. change (S (length l) <=? S (partition_point f l))%nat with (length l <=? partition_point f l)%nat.
  by destruct (_ <=? _)%nat.
Qed.

Lemma position_rev_last ts l :
  StronglySorted Z.le l ->
  (k ← position (fun m => m <? ts) (rev l); Some (length l - 1 - k)%nat) =
    let n := partition_point (fun x => x <? ts) l in if (n =? 0)%nat then None else Some (n - 1)%nat.
Proof.
  intros Hs. cbv zeta. set (n := partition_point _ l). pose proof (partition_point_le (fun x => x <? ts) l) as Hn. fold n in Hn.
  assert (Forall (fun m => (m <? ts) = false) (rev (drop n l))) as Hafter.
  { apply Forall_rev, Forall_forall. intros x (i & Hi)%list_elem_of_lookup. rewrite lookup_drop in Hi.
    apply (partition_point_after (fun x => x <? ts) l (n + i) x Hs (ltb_mono ts)); [lia|done]. }
  rewrite <- (take_drop n l) at 1. rewrite rev_app_distr. destruct n as [|n'] eqn:E.
  - cbn [take rev]. rewrite app_nil_r. cbn [Nat.eqb]. clear -Hafter.
    induction Hafter as [|x k Hx _ IH]; [done|]. cbn [position]. rewrite Hx. by destruct (position _ k).
  - destruct (lookup_lt_is_Some_2 l n') as [x Hx]; [lia|]. rewrite (take_S_r _ _ _ Hx), rev_app_distr. cbn [rev app].
    rewrite position_app; [|done|apply (partition_point_before (fun x => x <? ts) l n' x); [|done]; unfold n in *; lia].
    cbn. rewrite length_rev, length_drop. f_equal. lia.
Qed.

#[export] Instance MergeableLaws_EventFull : MergeableLaws EventFull EfEvent.
Proof.
  refine {| mt_events := ef_events; mt_wf := ef_wf |}; simpl.
  - intros t Ht. by rewrite ef_events_length.
  - intros t Ht. by rewrite ef_events_fst.
  - intros t Ht. by rewrite ef_events_fst.
  - intros t Ht. rewrite ef_events_fst by done. apply (ce_is_monotonic_iff (mkEvents (V := Z) (ef_tss t) [] None)).
  - intros t ts Ht. rewrite ef_events_fst, ef_events_length by done. apply position_partition. intros x. by rewrite Z.leb_antisym, negb_involutive.
  - intros t ts Ht. rewrite ef_events_fst, ef_events_length by done. apply position_partition. intros x. by rewrite Z.ltb_antisym, negb_involutive.
  - intros t ts Ht. rewrite ef_events_fst by done. apply position_rev_last.
  - done.
  - intros E t dst n Ht Hd Hn. rewrite ef_events_length in Hn by done.
    destruct (ef_drain_into_range (E := E) t dst 0 n Ht Hd) as (c' & d' & ? & ? & ? & Hc & Hdd); [lia|].
    exists c', d'. unfold ef_events. rewrite Hc, Hdd, Nat.sub_0_r, drop_0, take_0. cbn [app]. rewrite map_app.
    change (map ?f (drop ?k ?l)) with (f <$> drop k l). change (map ?f (take ?k ?l)) with (f <$> take k l).
    by rewrite fmap_drop, fmap_take.
  - intros E t b e Ht Hn. rewrite ef_events_length in Hn by done. unfold ef_drain_into_new.
    destruct (ef_drain_into_range (E := E) t ef_empty b e Ht ef_empty_wf Hn) as (c' & d' & -> & ? & ? & Hc & Hdd).
    cbn [and_then]. exists c', d'. unfold ef_events. rewrite Hc, Hdd. change (ef_rows ef_empty) with (@nil EfEvent).
    cbn [app]. rewrite map_app. change (map ?f (take ?k ?l)) with (f <$> take k l). change (map ?f (drop ?k ?l)) with (f <$> drop k l).
    by rewrite !fmap_take, !fmap_drop.
Defined.
