(* ===== verification/EventChunker.v ===== *)
(** * Reading the events of a data file

    [NeedMinBuffer] of [daqbuf-streams/src/needminbuffer.rs] collects the chunks
    of a file until there are enough bytes; [EventChunker] of
    [daqbuf-disk/src/eventchunker.rs] parses the header of the file and the
    events out of them, drops what is out of order or does not fit the channel,
    and stops at the second event after the range.

    The fields of [EventChunker] that the parser changes are in the record
    [EcParse]. A log item is what its message says. After an error the
    counters of shapes and types, which only the log of the drop shows, are those
    before the event. [bytes], [byteorder] and
    [Cursor] are a list of bytes and a position; a read of a cursor that does
    not find its bytes is unwrapped, a panic. *)
From Stdlib Require Import ZArith Lia.
From stdpp Require Import base numbers option strings list.
From S2P Require Import Prelude NetpodTypes Retention Ranges Items ChannelConfig EventFull.

#[local] Open Scope Z_scope.
#[local] Open Scope rust_scope.

(** ** Chunks *)

(** The duration in nanoseconds. *)
Record FileChunkRead : Type := mkFileChunkRead {
  fcr_buf : list Z;
  fcr_duration : Z
}.

Definition fcr_with_buf (buf : list Z) : FileChunkRead := mkFileChunkRead buf 0.

(** [buf_take]: the bytes, and the chunk without them. *)
Definition fcr_buf_take (f : FileChunkRead) : FileChunkRead * list Z := (mkFileChunkRead [] (fcr_duration f), fcr_buf f).

Section Streams.
Context {E : Type}.

Record NeedMinBuffer : Type := mkNeedMinBuffer {
  nm_inp : list (Poll (E + FileChunkRead));
  nm_need_min : Z;
  nm_left : option FileChunkRead;
  nm_histo : HistoLog2;
  nm_errored : bool;
  nm_completed : bool
}.

Definition nm_new (inp : list (Poll (E + FileChunkRead))) : NeedMinBuffer :=
  mkNeedMinBuffer inp 1 None (HistoLog2_new 8) false false.

Definition nm_put_back {X} (s : NeedMinBuffer) (buf : FileChunkRead) : outcome X NeedMinBuffer :=
  match nm_left s with
  | None => Ok (mkNeedMinBuffer (nm_inp s) (nm_need_min s) (Some buf) (nm_histo s) (nm_errored s) (nm_completed s))
  | Some _ => Panic
  end.

Definition nm_set_need_min (s : NeedMinBuffer) (need_min : Z) : NeedMinBuffer :=
  mkNeedMinBuffer (nm_inp s) need_min (nm_left s) (nm_histo s) (nm_errored s) (nm_completed s).

Inductive nm_out : Type :=
  | NmPoll (p : Poll (option (E + FileChunkRead)))
  | NmPanic.

(** The chunk that was left with the new one behind it. *)
Definition nm_join (left : option FileChunkRead) (fcr : FileChunkRead) : FileChunkRead :=
  match left with
  | Some lfcr => let '(fcr, b) := fcr_buf_take fcr in mkFileChunkRead (fcr_buf lfcr ++ b) (fcr_duration lfcr + fcr_duration fcr)
  | None => fcr
  end.

(** The loop of [poll_next], which polls the input until it can return. *)
Fixpoint nm_loop (need_min : Z) (inp : list (Poll (E + FileChunkRead))) (left : option FileChunkRead) (h : HistoLog2) :
    NeedMinBuffer * nm_out :=
  let st inp left h errored := mkNeedMinBuffer inp need_min left h errored false in
  match inp with
  | Ready (inr fcr) :: inp =>
      match HistoLog2_ingest (E := E) h (wrap 32 (Z.of_nat (length (fcr_buf fcr)))) with
      | Ok h =>
          let fcr := nm_join left fcr in
          if need_min <=? wrap 32 (Z.of_nat (length (fcr_buf fcr))) then (st inp None h false, NmPoll (Ready (Some (inr fcr))))
          else nm_loop need_min inp (Some fcr) h
      | _ => (st inp left h false, NmPanic)
      end
  | Ready (inl e) :: inp => (st inp left h true, NmPoll (Ready (Some (inl e))))
  | [] => (st [] left h false, NmPoll (Ready None))
  | Pending :: inp => (st inp left h false, NmPoll Pending)
  end.

Definition nm_poll_next (s : NeedMinBuffer) : NeedMinBuffer * nm_out :=
  if nm_completed s then (s, NmPanic)
  else if nm_errored s then
    (mkNeedMinBuffer (nm_inp s) (nm_need_min s) (nm_left s) (nm_histo s) (nm_errored s) true, NmPoll (Ready None))
  else nm_loop (nm_need_min s) (nm_inp s) (nm_left s) (nm_histo s).
End Streams.

Arguments NeedMinBuffer E : clear implicits.
Arguments nm_out E : clear implicits.

(** ** The parser *)

Definition COMPRESSION : Z := 0x80.
Definition ARRAY : Z := 0x40.
Definition BIG_ENDIAN : Z := 0x20.
Definition SHAPE : Z := 0x10.

Inductive DataParseError : Type :=
  | DataFrameLengthMismatch
  | FileHeaderTooShort
  | BadVersionTag
  | HeaderTooLarge
  | Utf8Error
  | EventTooShort
  | EventTooLong (shape : Shape) (len : Z)
  | TooManyBeforeRange
  | EventWithOptional
  | BadTypeIndex
  | WaveShapeWithoutEventArray
  | ShapedWithoutDims
  | TooManyDims
  | UnknownCompressionMethod
  | BadCompressionBlock.

Inductive ec_log : Type :=
  | LogSeenBeforeRange (n ts pulse : Z)
  | LogScalarTypeMismatch (this exp : ScalarType)
  | LogShapeDerivedMismatch (derived : Shape)
  | LogShapeDerivedError (e : decomp_error).

Inductive DataFileState : Type := FileHeader | FileEvent.

Record EcParse : Type := mkEcParse {
  ps_state : DataFileState;
  ps_need_min : Z;
  ps_seen_beyond_range : bool;
  ps_data_emit_complete : bool;
  ps_last_ts : Z;
  ps_seen_before : Z;
  ps_seen_after : Z;
  ps_seen_events : Z;
  ps_unordered : Z;
  ps_repeated : Z;
  ps_discard_range : Z;
  ps_discard_scalar_type : Z;
  ps_discard_shape : Z;
  ps_discard_derived : Z;
  ps_discard_derived_err : Z;
  ps_log_items : list ec_log
}.

(** A read of [n] bytes at [p] of a cursor, unwrapped. *)
Definition cur_read {E} (buf : list Z) (p n : nat) : outcome E Z :=
  if (p + n <=? length buf)%nat then Ok (of_be_bytes (take n (drop p buf))) else Panic.

(** [Buf::advance] of a cursor: its new position. *)
Definition cur_advance {E} (buf : list Z) (p : nat) (n : Z) : outcome E nat :=
  if Z.of_nat p + n <=? Z.of_nat (length buf) then Ok (p + Z.to_nat n)%nat else Panic.

Definition incr (n : Z) : Z := u64_add n 1.

Section Parser.
Context (scalar_type : ScalarType) (shape : Shape) (range : NanoRange).

(** What the timestamp of an event does: the counters, whether the event is
    discarded, and whether the loop goes on. *)
Inductive ec_verdict : Type := EvGo (discard : bool) | EvStop | EvTooMany.

Definition ec_event_ts (s : EcParse) (ts pulse : Z) : EcParse * ec_verdict :=
  let unordered := ts <? ps_last_ts s in
  let after := nr_end range <=? ts in
  let before := ts <? nr_beg range in
  let n_after := if after then incr (ps_seen_after s) else ps_seen_after s in
  let stop := after && (2 <=? n_after) in
  let n_before := if before && negb stop then incr (ps_seen_before s) else ps_seen_before s in
  let s' := {|
    ps_state := ps_state s;
    ps_need_min := ps_need_min s;
    ps_seen_beyond_range := after || ps_seen_beyond_range s;
    ps_data_emit_complete := stop || ps_data_emit_complete s;
    ps_last_ts := ts;
    ps_seen_before := n_before;
    ps_seen_after := n_after;
    ps_seen_events := incr (ps_seen_events s);
    ps_unordered := if unordered then incr (ps_unordered s) else ps_unordered s;
    ps_repeated := if ts =? ps_last_ts s then incr (ps_repeated s) else ps_repeated s;
    ps_discard_range :=
      (let d := if unordered then incr (ps_discard_range s) else ps_discard_range s in if after then incr d else d);
    ps_discard_scalar_type := ps_discard_scalar_type s;
    ps_discard_shape := ps_discard_shape s;
    ps_discard_derived := ps_discard_derived s;
    ps_discard_derived_err := ps_discard_derived_err s;
    ps_log_items :=
      ps_log_items s ++ (if before && negb stop && (n_before <? 20) then [LogSeenBeforeRange n_before ts pulse] else [])
  |} in
  (s', if stop then EvStop
       else if before && (100 <? n_before) then EvTooMany
       else EvGo (unordered || after)).

(** The fields from [optional] on: the type of the values, the byte order,
    whether the event has a shape, its dimensions, the compression, and the
    position of the data. *)
Definition ec_event_type (buf : list Z) (p : nat) : outcome DataParseError (ScalarType * bool * bool * nat) :=
  let? type_flags := cur_read buf p 1 in
  let? type_index := cur_read buf (p + 1) 1 in
  if 13 <? type_index then Err BadTypeIndex else
  let? t := map_err (fun _ => BadTypeIndex) (ScalarType_from_dtype_index type_index) in
  let is_array := negb (Z.land type_flags ARRAY =? 0) in
  if match shape with Wave _ => negb is_array | _ => false end then Err WaveShapeWithoutEventArray
  else Ok (t, negb (Z.land type_flags COMPRESSION =? 0), negb (Z.land type_flags SHAPE =? 0), (p + 2)%nat).

(** The dimensions, into an array of four: a fifth is out of its bounds, after
    its bytes are read. *)
Fixpoint ec_dims (buf : list Z) (p : nat) (i n : nat) : outcome DataParseError (list Z * nat) :=
  match n with
  | O => Ok ([], p)
  | S n =>
      let? d := cur_read buf p 4 in
      if (i <? 4)%nat then let? (ds, p) := ec_dims buf (p + 4) (S i) n in Ok (d :: ds, p) else Panic
  end.

(** Whether the event is discarded for its dimensions, and its shape. *)
Definition ec_shape_this (is_shaped : bool) (lens : list Z) : bool * Shape :=
  if is_shaped then
    match lens with
    | [n] => (false, Wave n)
    | [n; m] => (false, Image n m)
    | _ => (true, Scalar)
    end
  else (false, Scalar).

Definition ec_count_shape (s : EcParse) : EcParse := {|
  ps_state := ps_state s; ps_need_min := ps_need_min s; ps_seen_beyond_range := ps_seen_beyond_range s;
  ps_data_emit_complete := ps_data_emit_complete s; ps_last_ts := ps_last_ts s; ps_seen_before := ps_seen_before s;
  ps_seen_after := ps_seen_after s; ps_seen_events := ps_seen_events s; ps_unordered := ps_unordered s;
  ps_repeated := ps_repeated s; ps_discard_range := ps_discard_range s; ps_discard_scalar_type := ps_discard_scalar_type s;
  ps_discard_shape := incr (ps_discard_shape s); ps_discard_derived := ps_discard_derived s;
  ps_discard_derived_err := ps_discard_derived_err s; ps_log_items := ps_log_items s |}.

Definition ec_count_type (s : EcParse) : EcParse := {|
  ps_state := ps_state s; ps_need_min := ps_need_min s; ps_seen_beyond_range := ps_seen_beyond_range s;
  ps_data_emit_complete := ps_data_emit_complete s; ps_last_ts := ps_last_ts s; ps_seen_before := ps_seen_before s;
  ps_seen_after := ps_seen_after s; ps_seen_events := ps_seen_events s; ps_unordered := ps_unordered s;
  ps_repeated := ps_repeated s; ps_discard_range := ps_discard_range s;
  ps_discard_scalar_type := incr (ps_discard_scalar_type s);
  ps_discard_shape := ps_discard_shape s; ps_discard_derived := ps_discard_derived s;
  ps_discard_derived_err := ps_discard_derived_err s; ps_log_items := ps_log_items s |}.

Definition ec_count_derived (s : EcParse) (err : bool) : EcParse := {|
  ps_state := ps_state s; ps_need_min := ps_need_min s; ps_seen_beyond_range := ps_seen_beyond_range s;
  ps_data_emit_complete := ps_data_emit_complete s; ps_last_ts := ps_last_ts s; ps_seen_before := ps_seen_before s;
  ps_seen_after := ps_seen_after s; ps_seen_events := ps_seen_events s; ps_unordered := ps_unordered s;
  ps_repeated := ps_repeated s; ps_discard_range := ps_discard_range s; ps_discard_scalar_type := ps_discard_scalar_type s;
  ps_discard_shape := ps_discard_shape s;
  ps_discard_derived := if err then ps_discard_derived s else incr (ps_discard_derived s);
  ps_discard_derived_err := if err then incr (ps_discard_derived_err s) else ps_discard_derived_err s;
  ps_log_items := ps_log_items s |}.

Definition ec_need (s : EcParse) (st : DataFileState) (need_min : Z) : EcParse := {|
  ps_state := st; ps_need_min := need_min; ps_seen_beyond_range := ps_seen_beyond_range s;
  ps_data_emit_complete := ps_data_emit_complete s; ps_last_ts := ps_last_ts s; ps_seen_before := ps_seen_before s;
  ps_seen_after := ps_seen_after s; ps_seen_events := ps_seen_events s; ps_unordered := ps_unordered s;
  ps_repeated := ps_repeated s; ps_discard_range := ps_discard_range s; ps_discard_scalar_type := ps_discard_scalar_type s;
  ps_discard_shape := ps_discard_shape s; ps_discard_derived := ps_discard_derived s;
  ps_discard_derived_err := ps_discard_derived_err s; ps_log_items := ps_log_items s |}.

(** The event goes into the container, and out again when its shape is not the
    one of the channel. *)
Definition ec_push (s : EcParse) (ret : EventFull) (logs : list ec_log) (ts pulse : Z) (databuf : list Z) (t : ScalarType)
    (be : bool) (shape_this : Shape) (comp : option CompressionMethod) :
    outcome DataParseError (EcParse * EventFull * list ec_log) :=
  let ret := ef_push ret ts pulse databuf t be shape_this comp in
  match ef_shape_derived ret (ef_len ret - 1) scalar_type shape with
  | Ok sh =>
      if decide (sh = shape) then Ok (s, ret, logs)
      else Ok (ec_count_derived s false, ef_pop_back ret, logs ++ [LogShapeDerivedMismatch sh])
  | Err e => Ok (ec_count_derived s true, ef_pop_back ret, logs ++ [LogShapeDerivedError e])
  | Panic => Panic
  end.

(** An event of length [len] at the front of the buffer, its timestamp dealt
    with; [p] is the position of [ioc_ts]. *)
Definition ec_event_rest (s : EcParse) (buf : list Z) (len : Z) (p : nat) (ts pulse : Z) (discard : bool)
    (ret : EventFull) (logs : list ec_log) : outcome DataParseError (EcParse * EventFull * list ec_log) :=
  let? _ioc_ts := cur_read buf p 8 in
  let? _status := cur_read buf (p + 8) 1 in
  let? _severity := cur_read buf (p + 9) 1 in
  let? optional := cur_read buf (p + 10) 4 in
  if negb (to_signed 32 optional =? -1) then Err EventWithOptional else
  let? type_flags := cur_read buf (p + 14) 1 in
  let? (t, is_compressed, is_shaped, p) := ec_event_type buf (p + 14) in
  let? (compression_method, p) :=
    (if is_compressed then let? c := cur_read buf p 1 in Ok (c, (p + 1)%nat) else Ok (0, p)) in
  let? (shape_dim, p) := (if is_shaped then let? d := cur_read buf p 1 in Ok (d, (p + 1)%nat) else Ok (0, p)) in
  let? (shape_lens, p) := ec_dims buf p 0 (Z.to_nat shape_dim) in
  let '(bad_shape, shape_this) := ec_shape_this is_shaped shape_lens in
  let s := if bad_shape then ec_count_shape s else s in
  if is_compressed && negb (compression_method =? 0) then Err UnknownCompressionMethod else
  let comp_this := if is_compressed then Some BitshuffleLZ4 else None in
  let bad_type := bool_decide (scalar_type <> t) in
  let s := if bad_type then ec_count_type s else s in
  let logs := if bad_type then logs ++ [LogScalarTypeMismatch t scalar_type] else logs in
  let? databuf := slice buf p (Z.to_nat (len - 4)) in
  if discard || bad_shape || bad_type then Ok (s, ret, logs)
  else ec_push s ret logs ts pulse databuf t (negb (Z.land type_flags BIG_ENDIAN =? 0)) shape_this comp_this.

(** The longest event that is accepted. *)
Definition ec_too_long (len : Z) : bool :=
  match shape with
  | Scalar => 1024 * 64 <? len
  | Wave _ => 1024 * 1024 * 32 <? len
  | Image _ _ => 1024 * 1024 * 200 <? len
  end.

(** The header of the file: [Ok None] when it is not in the buffer yet. *)
Definition ec_header (buf : list Z) : outcome DataParseError (option Z * Z) :=
  if (length buf <? 6)%nat then Err FileHeaderTooShort else
  let? v := cur_read buf 0 2 in
  if negb (to_signed 16 v =? 0) then Err BadVersionTag else
  let? l := cur_read buf 2 4 in
  let len := to_signed 32 l in
  if (len <=? 0) || (512 <=? len) then Err HeaderTooLarge else
  let totlen := len + 2 in
  if Z.of_nat (length buf) <? totlen then Ok (None, totlen)
  else
    let? p := cur_advance buf 6 (u64_sub len 8) in
    let? l2 := cur_read buf p 4 in
    if negb (len =? to_signed 32 l2) then Err DataFrameLengthMismatch
    else
      let? _ := slice buf 6 (Z.to_nat (len + 6 - 8)) in
      Ok (Some totlen, totlen).

(** [parse_buf_inner]: the parser, the buffer, and what is parsed, the events,
    the bytes and the log items. A turn that does not end the loop takes at
    least the length field. *)
Fixpoint ec_parse_loop (fuel : nat) (s : EcParse) (buf : list Z) (ret : EventFull) (parsed : Z) (logs : list ec_log) :
    EcParse * list Z * outcome DataParseError (EventFull * Z * list ec_log) :=
  let done (s : EcParse) := (s, buf, Ok (ret, parsed, logs)) in
  let fail (s : EcParse) e := (s, buf, Err e) in
  let panic (s : EcParse) := (s, buf, Panic) in
  if wrap 32 (Z.of_nat (length buf)) <? ps_need_min s then done s
  else
    match fuel with
    | O => panic s
    | S fuel =>
        match ps_state s with
        | FileHeader =>
            match ec_header buf with
            | Ok (None, totlen) => done (ec_need s FileHeader totlen)
            | Ok (Some totlen, _) =>
                ec_parse_loop fuel (ec_need s FileEvent 4) (drop (Z.to_nat totlen) buf) ret (u64_add parsed totlen) logs
            | Err e => fail s e
            | Panic => panic s
            end
        | FileEvent =>
            match cur_read (E := DataParseError) buf 0 4 with
            | Ok l =>
                let len := to_signed 32 l in
                if len <? 20 then fail s EventTooShort
                else if ec_too_long len then fail s (EventTooLong shape (wrap 32 len))
                else if wrap 32 (Z.of_nat (length buf)) <? len then done (ec_need s FileEvent len)
                else
                  match
                    (let? _ttl := cur_read (E := DataParseError) buf 4 8 in
                     let? ts := cur_read buf 12 8 in
                     let? pulse := cur_read buf 20 8 in Ok (ts, pulse))
                  with
                  | Ok (ts, pulse) =>
                      match ec_event_ts s ts pulse with
                      | (s, EvStop) => done s
                      | (s, EvTooMany) => fail s TooManyBeforeRange
                      | (s, EvGo discard) =>
                          match ec_event_rest s buf len 28 ts pulse discard ret logs with
                          | Ok (s, ret, logs) =>
                              ec_parse_loop fuel (ec_need s FileEvent 4) (drop (Z.to_nat len) buf) ret (u64_add parsed len) logs
                          | Err e => fail s e
                          | Panic => panic s
                          end
                      end
                  | Err e => fail s e
                  | Panic => panic s
                  end
            | Err e => fail s e
            | Panic => panic s
            end
        end
    end.

Definition ec_parse_buf (s : EcParse) (buf : list Z) :
    EcParse * list Z * outcome DataParseError (EventFull * Z * list ec_log) :=
  ec_parse_loop (length buf) s buf ef_empty 0 [].
End Parser.

(** ** [EventChunker] *)

Section EventChunker.
Context {E : Type}.

Inductive ec_error : Type :=
  | EcParseError (e : DataParseError)
  | EcSpuriousNeedMin (need_min max : Z)
  | EcInput (e : E).

Record EventChunker : Type := mkEventChunker {
  ec_inp : NeedMinBuffer E;
  ec_parse : EcParse;
  ec_scalar_type : ScalarType;
  ec_shape : Shape;
  ec_need_min_max : Z;
  ec_errored : bool;
  ec_completed : bool;
  ec_range : NanoRange;
  ec_disk_stats_every : Z;
  ec_sent_beyond_range : bool;
  ec_final_stats_sent : bool;
  ec_parsed_bytes : Z;
  ec_histo : HistoLog2
}.

Definition EcItem : Type := Sitemty ec_log (StatsItem Z Empty_set) ec_error EventFull.

Definition ec_from_start (inp : list (Poll (E + FileChunkRead))) (scalar_type : ScalarType) (shape : Shape) (range : NanoRange)
    (disk_stats_every : Z) : EventChunker := {|
  ec_inp := nm_set_need_min (nm_new inp) 6;
  ec_parse := mkEcParse FileHeader 6 false false 0 0 0 0 0 0 0 0 0 0 0 [];
  ec_scalar_type := scalar_type;
  ec_shape := shape;
  ec_need_min_max :=
    match shape with
    | Scalar => 1024 * 16
    | Wave _ => 1024 * 6000
    | Image _ _ => 1024 * 1024 * 80
    end;
  ec_errored := false;
  ec_completed := false;
  ec_range := range;
  ec_disk_stats_every := disk_stats_every;
  ec_sent_beyond_range := false;
  ec_final_stats_sent := false;
  ec_parsed_bytes := 0;
  ec_histo := HistoLog2_new 0 |}.

(** The fields that [poll_next] changes. *)
Definition ec_set (s : EventChunker) (inp : NeedMinBuffer E) (p : EcParse) (errored completed sent final : bool)
    (parsed_bytes : Z) (h : HistoLog2) : EventChunker := {|
  ec_inp := inp; ec_parse := p; ec_scalar_type := ec_scalar_type s; ec_shape := ec_shape s;
  ec_need_min_max := ec_need_min_max s; ec_errored := errored; ec_completed := completed; ec_range := ec_range s;
  ec_disk_stats_every := ec_disk_stats_every s; ec_sent_beyond_range := sent; ec_final_stats_sent := final;
  ec_parsed_bytes := parsed_bytes; ec_histo := h |}.

(** The log items of the parser. *)
Definition ec_set_logs (p : EcParse) (logs : list ec_log) : EcParse :=
  mkEcParse (ps_state p) (ps_need_min p) (ps_seen_beyond_range p) (ps_data_emit_complete p) (ps_last_ts p) (ps_seen_before p)
    (ps_seen_after p) (ps_seen_events p) (ps_unordered p) (ps_repeated p) (ps_discard_range p) (ps_discard_scalar_type p)
    (ps_discard_shape p) (ps_discard_derived p) (ps_discard_derived_err p) logs.

Definition ec_set_emit_complete (p : EcParse) : EcParse :=
  mkEcParse (ps_state p) (ps_need_min p) (ps_seen_beyond_range p) true (ps_last_ts p) (ps_seen_before p)
    (ps_seen_after p) (ps_seen_events p) (ps_unordered p) (ps_repeated p) (ps_discard_range p) (ps_discard_scalar_type p)
    (ps_discard_shape p) (ps_discard_derived p) (ps_discard_derived_err p) (ps_log_items p).

(** [from_event_boundary]: no header in front of the events. *)
Definition ec_from_event_boundary (inp : list (Poll (E + FileChunkRead))) (scalar_type : ScalarType) (shape : Shape)
    (range : NanoRange) (disk_stats_every : Z) : EventChunker :=
  let ret := ec_from_start inp scalar_type shape range disk_stats_every in
  ec_set ret (nm_set_need_min (ec_inp ret) 4) (ec_need (ec_parse ret) FileEvent 4) (ec_errored ret) (ec_completed ret)
    (ec_sent_beyond_range ret) (ec_final_stats_sent ret) (ec_parsed_bytes ret) (ec_histo ret).

Inductive ec_out : Type :=
  | EcPoll (p : Poll (option EcItem))
  | EcPanic.

(** A chunk from the input: it is parsed, and what is left of it goes back. *)
Definition ec_on_chunk (s : EventChunker) (fcr : FileChunkRead) : EventChunker * ec_out :=
  let '(p, buf, r) := ec_parse_buf (ec_scalar_type s) (ec_shape s) (ec_range s) (ec_parse s) (fcr_buf fcr) in
  let upd inp p errored parsed h := ec_set s inp p errored (ec_completed s) (ec_sent_beyond_range s) (ec_final_stats_sent s) parsed h in
  match r with
  | Ok (events, parsed, logs) =>
      let p := ec_set_logs p (ps_log_items p ++ logs) in
      let parsed := u64_add (ec_parsed_bytes s) parsed in
      let put := if (0 <? length buf)%nat then nm_put_back (X := unit) (ec_inp s) (mkFileChunkRead buf (fcr_duration fcr)) else Ok (ec_inp s) in
      match put with
      | Ok inp =>
          if ec_need_min_max s <? ps_need_min p then
            (upd inp p true parsed (ec_histo s), EcPoll (Ready (Some (SErr (EcSpuriousNeedMin (ps_need_min p) (ec_need_min_max s))))))
          else
            let inp := nm_set_need_min inp (ps_need_min p) in
            match HistoLog2_ingest (E := unit) (ec_histo s) (wrap 32 (Z.of_nat (ef_len events))) with
            | Ok h => (upd inp p false parsed h, EcPoll (Ready (Some (SOk (DataItem (Data events))))))
            | _ => (upd inp p false parsed (ec_histo s), EcPanic)
            end
      | _ => (upd (ec_inp s) p false parsed (ec_histo s), EcPanic)
      end
  | Err e => (upd (ec_inp s) p true (ec_parsed_bytes s) (ec_histo s), EcPoll (Ready (Some (SErr (EcParseError e)))))
  | Panic => (upd (ec_inp s) p false (ec_parsed_bytes s) (ec_histo s), EcPanic)
  end.

(** [poll_next]: its loop turns at most three times, when the input ends. *)
Fixpoint ec_poll_loop (fuel : nat) (s : EventChunker) : EventChunker * ec_out :=
  match fuel with
  | O => (s, EcPanic)
  | S fuel =>
      let p := ec_parse s in
      let upd inp p errored completed sent final parsed := ec_set s inp p errored completed sent final parsed (ec_histo s) in
      if ec_completed s then (s, EcPanic)
      else
        match ps_log_items p with
        | item :: logs =>
            (upd (ec_inp s) (ec_set_logs p logs) (ec_errored s) false (ec_sent_beyond_range s) (ec_final_stats_sent s) (ec_parsed_bytes s),
             EcPoll (Ready (Some (SOk (Log item)))))
        | [] =>
            if ec_errored s then
              (upd (ec_inp s) p true true (ec_sent_beyond_range s) (ec_final_stats_sent s) (ec_parsed_bytes s), EcPoll (Ready None))
            else if ec_disk_stats_every s <=? ec_parsed_bytes s then
              (upd (ec_inp s) p false false (ec_sent_beyond_range s) (ec_final_stats_sent s) 0,
               EcPoll (Ready (Some (SOk (Stats (StatsEventDataRead (ec_parsed_bytes s)))))))
            else if ec_sent_beyond_range s then
              (upd (ec_inp s) p false true true (ec_final_stats_sent s) (ec_parsed_bytes s), EcPoll (Ready None))
            else if ec_final_stats_sent s then
              let s' := upd (ec_inp s) p false false true true (ec_parsed_bytes s) in
              if ps_seen_beyond_range p then (s', EcPoll (Ready (Some (SOk (DataItem RangeComplete)))))
              else ec_poll_loop fuel s'
            else if ps_data_emit_complete p then
              (upd (ec_inp s) p false false false true 0,
               EcPoll (Ready (Some (SOk (Stats (StatsEventDataRead (ec_parsed_bytes s)))))))
            else
              match nm_poll_next (ec_inp s) with
              | (inp, NmPoll (Ready (Some (inr fcr)))) =>
                  ec_on_chunk (upd inp p false false false false (ec_parsed_bytes s)) fcr
              | (inp, NmPoll (Ready (Some (inl e)))) =>
                  (upd inp p true false false false (ec_parsed_bytes s), EcPoll (Ready (Some (SErr (EcInput e)))))
              | (inp, NmPoll (Ready None)) =>
                  ec_poll_loop fuel (upd inp (ec_set_emit_complete p) false false false false (ec_parsed_bytes s))
              | (inp, NmPoll Pending) => (upd inp p false false false false (ec_parsed_bytes s), EcPoll Pending)
              | (inp, NmPanic) => (upd inp p false false false false (ec_parsed_bytes s), EcPanic)
              end
        end
  end.

Definition ec_poll_next (s : EventChunker) : EventChunker * ec_out := ec_poll_loop 4 s.

(** A consumer that polls until the end of the stream; [None] when a poll
    panics, or does not end the stream within the polls. *)
Fixpoint ec_drain (polls : nat) (s : EventChunker) : option (list EcItem) :=
  match polls with
  | O => None
  | S polls =>
      match ec_poll_next s with
      | (s, EcPoll (Ready (Some item))) => items ← ec_drain polls s; Some (item :: items)
      | (s, EcPoll (Ready None)) => Some []
      | (s, EcPoll Pending) => ec_drain polls s
      | (_, EcPanic) => None
      end
  end.
End EventChunker.

Arguments EventChunker E : clear implicits.
Arguments EcItem E : clear implicits.
