(* ===== verification/EventChunkerProofs.v ===== *)
(** * Properties of the reader of data files

    [enc_data_file] writes a data file as the archive does. However the file is
    cut into chunks, the reader gives the events before the end of the range in
    order, ends, and says that the range is complete exactly when it has seen
    an event at or after the end. *)
From Stdlib Require Import ZArith Lia.
From stdpp Require Import base numbers option strings list sorting.
From S2P Require Import Prelude NetpodTypes Retention Ranges Items Events ChannelConfig EventFull EventFullProofs DataIndex DataFileProofs EventChunker.

#[local] Open Scope Z_scope.
#[local] Open Scope rust_scope.

(** ** The format *)

(** What an event on disk has besides its row. *)
Record disk_extra : Type := mkDiskExtra {
  dx_ttl : Z;
  dx_ioc_ts : Z;
  dx_status : Z;
  dx_severity : Z;
  dx_array : bool
}.

Definition disk_ev : Type := disk_extra * EfEvent.

Definition enc_comp (c : option CompressionMethod) : list Z := match c with Some BitshuffleLZ4 => be_bytes 1 0 | None => [] end.

Definition enc_dims (s : Shape) : list Z :=
  match s with
  | Scalar => []
  | Wave n => be_bytes 1 1 ++ be_bytes 4 n
  | Image n m => be_bytes 1 2 ++ be_bytes 4 n ++ be_bytes 4 m
  end.

Definition dev_flags (e : disk_ev) : Z :=
  (if bool_decide (ee_comp e.2 <> None) then 0x80 else 0) + (if dx_array e.1 then 0x40 else 0) + (if ee_be e.2 then 0x20 else 0) +
  (match ee_shape e.2 with Scalar => 0 | _ => 0x10 end).

(** The fields after the pulse, up to the data. *)
Definition dev_fields (e : disk_ev) : list Z :=
  be_bytes 8 (dx_ioc_ts e.1) ++ be_bytes 1 (dx_status e.1) ++ be_bytes 1 (dx_severity e.1) ++ be_bytes 4 (2 ^ 32 - 1) ++
  be_bytes 1 (dev_flags e) ++ be_bytes 1 (ScalarType_index (ee_scalar_type e.2)) ++ enc_comp (ee_comp e.2) ++ enc_dims (ee_shape e.2).

Definition dev_len (e : disk_ev) : nat := 28 + length (dev_fields e) + length (ee_blob e.2) + 4.

Definition enc_ev (e : disk_ev) : list Z :=
  be_bytes 4 (Z.of_nat (dev_len e)) ++ be_bytes 8 (dx_ttl e.1) ++ be_bytes 8 (ee_ts e.2) ++ be_bytes 8 (ee_pulse e.2) ++
  dev_fields e ++ ee_blob e.2 ++ be_bytes 4 (Z.of_nat (dev_len e)).

Lemma length_enc_ev e : length (enc_ev e) = dev_len e.
Proof. unfold enc_ev, dev_len. rewrite !length_app, !be_bytes_length. lia. Qed.

(** The fields are in their widths, and the scalar type has a code. *)
Record ev_wf (e : disk_ev) : Prop := {
  ev_wf_ttl : is_u64 (dx_ttl e.1);
  ev_wf_ts : is_u64 (ee_ts e.2);
  ev_wf_pulse : is_u64 (ee_pulse e.2);
  ev_wf_ioc : is_u64 (dx_ioc_ts e.1);
  ev_wf_status : is_u8 (dx_status e.1);
  ev_wf_severity : is_u8 (dx_severity e.1);
  ev_wf_type : ee_scalar_type e.2 <> Enum;
  ev_wf_shape : match ee_shape e.2 with Scalar => True | Wave n => in_u 32 n | Image n m => in_u 32 n /\ in_u 32 m end
}.

Lemma length_ev_fields e : (16 <= length (dev_fields e) <= 26)%nat.
Proof.
  unfold dev_fields. rewrite !length_app, !be_bytes_length. destruct (ee_comp e.2) as [[]|], (ee_shape e.2);
    cbn [enc_comp enc_dims]; rewrite ?length_app, ?be_bytes_length; cbn; lia.
Qed.

(** ** Reading an event *)

Lemma to_signed_32 z : 0 <= z < 2 ^ 31 -> to_signed 32 z = z.
Proof. intros Hz. unfold to_signed. cbv zeta. rewrite Z.mod_small by lia. change (32 - 1) with 31. by rewrite (proj2 (Z.ltb_lt _ _)) by lia. Qed.

(** A read takes the field at the position. *)
Lemma cur_step {E} buf p n z rest :
  drop p buf = be_bytes n z ++ rest -> (p <= length buf)%nat -> in_u (8 * Z.of_nat n) z ->
  @cur_read E buf p n = Ok z /\ drop (p + n) buf = rest /\ (p + n <= length buf)%nat.
Proof.
  intros Hd Hp Hz. assert (length (drop p buf) = (n + length rest)%nat) as Hl by (by rewrite Hd, length_app, be_bytes_length).
  rewrite length_drop in Hl. unfold cur_read. rewrite (proj2 (Nat.leb_le _ _)) by lia. rewrite Hd.
  rewrite take_app_length' by (by rewrite be_bytes_length). rewrite of_be_bytes_round by done. split; [done|].
  split; [|lia]. rewrite <- drop_drop, Hd. apply drop_app_length'. by rewrite be_bytes_length.
Qed.

Lemma ev_flags_spec e :
  is_u8 (dev_flags e) /\ negb (Z.land (dev_flags e) COMPRESSION =? 0) = bool_decide (ee_comp e.2 <> None) /\
  negb (Z.land (dev_flags e) ARRAY =? 0) = dx_array e.1 /\
  negb (Z.land (dev_flags e) BIG_ENDIAN =? 0) = ee_be e.2 /\
  negb (Z.land (dev_flags e) SHAPE =? 0) = bool_decide (ee_shape e.2 <> Scalar).
Proof.
  unfold dev_flags. destruct (ee_comp e.2), (dx_array e.1), (ee_be e.2), (ee_shape e.2); (split; [unfold in_u; cbn; lia|done]).
Qed.

Lemma scalar_type_index_round t : t <> Enum ->
  0 <= ScalarType_index t <= 13 /\ ScalarType_from_dtype_index (ScalarType_index t) = Ok t.
Proof. by destruct t. Qed.

Section Chunker.
Context (st : ScalarType) (sh : Shape) (range : NanoRange).

(** The shape that [shape_derived] gives for a row. *)
Definition row_shape (r : EfEvent) : outcome decomp_error Shape :=
  ef_shape_derived (ef_push ef_empty (ee_ts r) (ee_pulse r) (ee_blob r) (ee_scalar_type r) (ee_be r) (ee_shape r) (ee_comp r)) 0 st sh.

Definition push_row (c : EventFull) (r : EfEvent) : EventFull :=
  ef_push c (ee_ts r) (ee_pulse r) (ee_blob r) (ee_scalar_type r) (ee_be r) (ee_shape r) (ee_comp r).

(** An event that belongs to the channel. *)
Record ev_good (e : disk_ev) : Prop := {
  eg_wf : ev_wf e;
  eg_type : ee_scalar_type e.2 = st;
  eg_shape : row_shape e.2 = Ok sh;
  eg_array : match sh with Wave _ => dx_array e.1 = true | _ => True end;
  eg_len : ec_too_long sh (Z.of_nat (dev_len e)) = false
}.

Lemma dev_len_bounds e : ev_good e -> 20 <= Z.of_nat (dev_len e) < 2 ^ 31.
Proof.
  intros []. unfold ec_too_long in *. pose proof (length_ev_fields e). unfold dev_len in *. destruct sh; apply Z.ltb_ge in eg_len0; lia.
Qed.

Lemma index_push {E A} (l : list A) x i : i = length l -> @index E A (l ++ [x]) i = Ok x.
Proof. intros ->. unfold index. by rewrite lookup_app_r, Nat.sub_diag by done. Qed.

(** The derived shape of a row at the end of a container. *)
Lemma row_shape_push c r : ef_wf c -> ef_shape_derived (push_row c r) (ef_len (push_row c r) - 1) st sh = row_shape r.
Proof.
  intros Hw. destruct Hw. unfold row_shape, ef_shape_derived, push_row, ef_push, ef_len in *. cbn [ef_tss ef_comps ef_shapes ef_scalar_types ef_blobs].
  rewrite length_app. cbn [length]. replace (length (ef_tss c) + 1 - 1)%nat with (length (ef_tss c)) by lia.
  rewrite !index_push by lia. reflexivity.
Qed.

Lemma push_row_wf c r : ef_wf c -> ef_wf (push_row c r) /\ ef_rows (push_row c r) = ef_rows c ++ [r].
Proof.
  intros Hw. set (d := ef_push ef_empty (ee_ts r) (ee_pulse r) (ee_blob r) (ee_scalar_type r) (ee_be r) (ee_shape r) (ee_comp r)).
  assert (ef_wf d) as Hd.
  { split; try done. unfold d, ef_push. cbn [ef_blobs ef_entry_payload_max ef_empty app]. repeat constructor. lia. }
  change (push_row c r) with (ef_app c d (ef_entry_payload_max (push_row c r))). split.
  - apply (ef_app_wf c d); [done|done|..]; unfold push_row, ef_push; cbn [ef_entry_payload_max].
    + destruct Hw. eapply Forall_impl; [done|]. cbn. lia.
    + unfold d, ef_push. cbn [ef_blobs ef_empty app]. repeat constructor. lia.
  - rewrite ef_rows_app by done. by destruct r.
Qed.
(** The dimensions of a shape, and what is behind them. *)
Lemma ec_dims_enc buf p dims rest i :
  drop p buf = concat (map (be_bytes 4) dims) ++ rest -> (p <= length buf)%nat -> Forall (in_u 32) dims -> (i + length dims <= 4)%nat ->
  ec_dims buf p i (length dims) = Ok (dims, (p + 4 * length dims)%nat) /\ drop (p + 4 * length dims) buf = rest /\
  (p + 4 * length dims <= length buf)%nat.
Proof.
  intros Hd Hp Hf. revert p i Hd Hp. induction Hf as [|d dims Hdim _ IH]; intros p i Hd Hp Hi; cbn [length map concat] in *.
  - by rewrite Nat.mul_0_r, Nat.add_0_r.
  - rewrite <- app_assoc in Hd. destruct (cur_step (E := DataParseError) buf p 4 d _ Hd Hp Hdim) as (Hr & Hd' & Hp').
    destruct (IH (p + 4)%nat (S i) Hd' Hp') as (He & Hd2 & Hp2); [lia|]. cbn [ec_dims]. rewrite Hr. cbn [and_then].
    rewrite (proj2 (Nat.ltb_lt _ _)) by lia. rewrite He. cbn [and_then].
    replace (p + 4 * S (length dims))%nat with (p + 4 + 4 * length dims)%nat by lia. done.
Qed.

Definition shape_dims (s : Shape) : list Z := match s with Scalar => [] | Wave n => [n] | Image n m => [n; m] end.

Lemma shape_dims_fit e : ev_wf e -> Forall (in_u 32) (shape_dims (ee_shape e.2)).
Proof. intros [_ _ _ _ _ _ _ Hs]. destruct (ee_shape e.2); cbn [shape_dims]; rewrite ?Forall_cons, ?Forall_nil; tauto. Qed.

(** From the flag of the compression to the data: the position of the data. *)
Lemma ec_tail_enc e buf p rest :
  ev_wf e -> drop p buf = enc_comp (ee_comp e.2) ++ enc_dims (ee_shape e.2) ++ rest -> (p <= length buf)%nat ->
  exists p1 p2 p3 c d,
    (if bool_decide (ee_comp e.2 <> None) then let? c := cur_read (E := DataParseError) buf p 1 in Ok (c, (p + 1)%nat) else Ok (0, p)) = Ok (c, p1) /\
    bool_decide (ee_comp e.2 <> None) && negb (c =? 0) = false /\
    (if bool_decide (ee_shape e.2 <> Scalar) then let? d := cur_read (E := DataParseError) buf p1 1 in Ok (d, (p1 + 1)%nat) else Ok (0, p1)) = Ok (d, p2) /\
    ec_dims buf p2 0 (Z.to_nat d) = Ok (shape_dims (ee_shape e.2), p3) /\
    ec_shape_this (bool_decide (ee_shape e.2 <> Scalar)) (shape_dims (ee_shape e.2)) = (false, ee_shape e.2) /\
    drop p3 buf = rest /\ (p3 <= length buf)%nat /\
    p3 = (p + length (enc_comp (ee_comp e.2)) + length (enc_dims (ee_shape e.2)))%nat.
Proof.
  intros Hw Hd Hp. pose proof (shape_dims_fit e Hw) as Hf.
  assert (exists p1 c, (if bool_decide (ee_comp e.2 <> None) then let? c := cur_read (E := DataParseError) buf p 1 in Ok (c, (p + 1)%nat) else Ok (0, p)) = Ok (c, p1) /\
    bool_decide (ee_comp e.2 <> None) && negb (c =? 0) = false /\ drop p1 buf = enc_dims (ee_shape e.2) ++ rest /\ (p1 <= length buf)%nat /\
    p1 = (p + length (enc_comp (ee_comp e.2)))%nat) as (p1 & c & H1 & H2 & Hd1 & Hp1 & E1).
  { destruct (ee_comp e.2) as [[]|]; cbn [enc_comp] in *.
    - destruct (cur_step (E := DataParseError) buf p 1 0 _ Hd Hp) as (-> & Hd' & Hp'); [unfold in_u; cbn; lia|].
      exists (p + 1)%nat, 0. rewrite bool_decide_true by done. rewrite be_bytes_length. by repeat split.
    - exists p, 0. cbn in *. rewrite Nat.add_0_r. by repeat split. }
  assert (exists p2 d, (if bool_decide (ee_shape e.2 <> Scalar) then let? d := cur_read (E := DataParseError) buf p1 1 in Ok (d, (p1 + 1)%nat) else Ok (0, p1)) = Ok (d, p2) /\
    Z.to_nat d = length (shape_dims (ee_shape e.2)) /\ drop p2 buf = concat (map (be_bytes 4) (shape_dims (ee_shape e.2))) ++ rest /\ (p2 <= length buf)%nat /\
    (p2 + 4 * length (shape_dims (ee_shape e.2)) = p1 + length (enc_dims (ee_shape e.2)))%nat) as (p2 & d & H3 & H4 & Hd2 & Hp2 & E2).
  { destruct (ee_shape e.2) as [|n|n m]; cbn [enc_dims shape_dims map concat app] in *; rewrite ?length_app, ?be_bytes_length.
    - exists p1, 0. repeat split; try done; cbn; lia.
    - rewrite <- app_assoc in Hd1. destruct (cur_step (E := DataParseError) buf p1 1 1 _ Hd1 Hp1) as (Hr & Hd' & Hp'); [unfold in_u; cbn; lia|].
      exists (p1 + 1)%nat, 1. rewrite bool_decide_true by done. rewrite Hr, app_nil_r. repeat split; try done; cbn; lia.
    - rewrite <- app_assoc in Hd1. destruct (cur_step (E := DataParseError) buf p1 1 2 _ Hd1 Hp1) as (Hr & Hd' & Hp'); [unfold in_u; cbn; lia|].
      exists (p1 + 1)%nat, 2. rewrite bool_decide_true by done. rewrite Hr, app_nil_r. repeat split; try done; cbn; lia. }
  destruct (ec_dims_enc buf p2 (shape_dims (ee_shape e.2)) rest 0 Hd2 Hp2 Hf) as (H5 & Hd3 & Hp3).
  { destruct (ee_shape e.2); cbn; lia. }
  exists p1, p2, (p2 + 4 * length (shape_dims (ee_shape e.2)))%nat, c, d. rewrite H4. repeat split; try done; [|lia].
  by destruct (ee_shape e.2).
Qed.
(** The bytes of an event in front of others. *)
Lemma enc_ev_drop28 e rest :
  drop 28 (enc_ev e ++ rest) = dev_fields e ++ ee_blob e.2 ++ be_bytes 4 (Z.of_nat (dev_len e)) ++ rest.
Proof.
  unfold enc_ev. rewrite <- !app_assoc.
  set (r := dev_fields e ++ _). rewrite (app_assoc (be_bytes 4 _)), (app_assoc (_ ++ be_bytes 8 (dx_ttl e.1))), (app_assoc ((_ ++ _) ++ be_bytes 8 (ee_ts e.2))).
  apply drop_app_length'. by rewrite !length_app, !be_bytes_length.
Qed.

Lemma ec_event_type_good e buf p rest :
  ev_good e -> drop p buf = be_bytes 1 (dev_flags e) ++ be_bytes 1 (ScalarType_index (ee_scalar_type e.2)) ++ rest -> (p <= length buf)%nat ->
  ec_event_type sh buf p = Ok (ee_scalar_type e.2, bool_decide (ee_comp e.2 <> None), bool_decide (ee_shape e.2 <> Scalar), (p + 2)%nat) /\
  cur_read (E := DataParseError) buf p 1 = Ok (dev_flags e) /\
  drop (p + 2) buf = rest /\ (p + 2 <= length buf)%nat.
Proof.
  intros [Hw Ht Hsh Ha Hl] Hd Hp. destruct (ev_flags_spec e) as (Hf & Hc & Harr & Hbe & Hs).
  destruct (scalar_type_index_round (ee_scalar_type e.2)) as [Hi Hix]; [by destruct Hw|].
  destruct (cur_step (E := DataParseError) buf p 1 _ _ Hd Hp Hf) as (Hr1 & Hd1 & Hp1).
  destruct (cur_step (E := DataParseError) buf (p + 1) 1 _ _ Hd1 Hp1) as (Hr2 & Hd2 & Hp2); [unfold in_u; cbn; lia|].
  replace (p + 1 + 1)%nat with (p + 2)%nat in * by lia.
  unfold ec_event_type. rewrite Hr1. cbn [and_then]. rewrite Hr2. cbn [and_then]. rewrite (proj2 (Z.ltb_ge _ _)) by lia.
  rewrite Hix. cbn [map_err and_then]. rewrite Harr, Hc, Hs. split; [|done].
  destruct sh; [done| |done]. by rewrite Ha.
Qed.

Lemma ec_event_rest_good e s rest discard ret logs :
  ev_good e -> ef_wf ret ->
  ec_event_rest st sh s (enc_ev e ++ rest) (Z.of_nat (dev_len e)) 28 (ee_ts e.2) (ee_pulse e.2) discard ret logs =
    Ok (s, if discard then ret else push_row ret e.2, logs).
Proof.
  intros Hg Hret. pose proof (enc_ev_drop28 e rest) as Hd. pose proof (length_enc_ev e) as Hlen. pose proof (length_ev_fields e) as Hlf.
  set (buf := enc_ev e ++ rest) in *. assert (length buf = (dev_len e + length rest)%nat) as Hbl by (unfold buf; by rewrite length_app, Hlen).
  pose proof (eg_wf e Hg) as Hw. pose proof Hw as [].
  unfold dev_fields in Hd. rewrite <- !app_assoc in Hd. unfold ec_event_rest.
  destruct (cur_step (E := DataParseError) buf 28 8 _ _ Hd) as (-> & Hd1 & Hp1); [unfold dev_len in *; lia|done|]. cbn [and_then].
  destruct (cur_step (E := DataParseError) buf (28 + 8) 1 _ _ Hd1) as (-> & Hd2 & Hp2); [lia|done|]. cbn [and_then].
  destruct (cur_step (E := DataParseError) buf (28 + 9) 1 _ _ Hd2) as (-> & Hd3 & Hp3); [lia|done|]. cbn [and_then].
  destruct (cur_step (E := DataParseError) buf (28 + 10) 4 _ _ Hd3) as (-> & Hd4 & Hp4); [lia|unfold in_u; cbn; lia|]. cbn [and_then].
  change (negb (to_signed 32 (2 ^ 32 - 1) =? -1)) with false. cbn iota.
  destruct (ec_event_type_good e buf (28 + 14) _ Hg Hd4) as (Ht & Hr & Hd5 & Hp5); [lia|].
 rewrite Hr. cbn [and_then]. rewrite Ht. cbn [and_then].
  destruct (ec_tail_enc e buf (28 + 14 + 2) _ Hw Hd5 Hp5) as (p1 & p2 & p3 & c & d & H1 & H2 & H3 & H4 & H5 & Hd6 & Hp6 & E6).
 rewrite H1. cbn [and_then]. rewrite H3. cbn [and_then]. rewrite H4. cbn [and_then]. rewrite H5, H2. cbn iota.
  rewrite (eg_type e Hg), bool_decide_false by naive_solver.
  assert (p3 + length (ee_blob e.2) = dev_len e - 4)%nat as Hp3e.
  { rewrite E6. unfold dev_len, dev_fields. rewrite !length_app, !be_bytes_length. lia. }
  replace (Z.to_nat (Z.of_nat (dev_len e) - 4)) with (p3 + length (ee_blob e.2))%nat by (unfold dev_len in *; lia).
  rewrite slice_ok by lia. cbn [and_then]. rewrite Hd6.
  replace (p3 + length (ee_blob e.2) - p3)%nat with (length (ee_blob e.2)) by lia. rewrite take_app_length.
  rewrite !orb_false_r. destruct discard; [done|].
  destruct (ev_flags_spec e) as (_ & _ & _ & Hbe & _). unfold ec_push. rewrite Hbe.
  assert ((if bool_decide (ee_comp e.2 <> None) then Some BitshuffleLZ4 else None) = ee_comp e.2) as -> by (by destruct (ee_comp e.2) as [[]|]).
  pose proof (row_shape_push ret e.2 Hret) as Hrs. rewrite (eg_shape e Hg) in Hrs. unfold push_row in *. rewrite (eg_type e Hg) in *.
  rewrite Hrs. by rewrite decide_True.
Qed.
(** ** The timestamps that have been seen *)

Definition n_after (tss : list Z) : Z := Z.of_nat (length (filter (fun t => nr_end range <= t) tss)).
Definition n_before (tss : list Z) : Z := Z.of_nat (length (filter (fun t => t < nr_beg range) tss)).

Record ps_inv (s : EcParse) (tss : list Z) : Prop := {
  pi_last : ps_last_ts s = default 0 (last tss);
  pi_after : ps_seen_after s = n_after tss;
  pi_before : ps_seen_before s = n_before tss;
  pi_beyond : ps_seen_beyond_range s = bool_decide (0 < n_after tss);
  pi_complete : ps_data_emit_complete s = false;
  pi_one : n_after tss <= 1
}.

(** The log items that the stream can still give. *)
Definition budget (s : EcParse) : nat := length (ps_log_items s) + Z.to_nat (19 - ps_seen_before s).

Lemma n_after_app a b : n_after (a ++ b) = n_after a + n_after b.
Proof. unfold n_after. rewrite filter_app, length_app. lia. Qed.

Lemma n_after_snoc tss t : n_after (tss ++ [t]) = n_after tss + (if nr_end range <=? t then 1 else 0).
Proof.
  unfold n_after. rewrite filter_app, length_app. destruct (Z.leb_spec (nr_end range) t).
  - rewrite filter_cons_True by done. cbn. lia.
  - rewrite filter_cons_False by lia. cbn. lia.
Qed.

Lemma n_before_snoc tss t : n_before (tss ++ [t]) = n_before tss + (if t <? nr_beg range then 1 else 0).
Proof.
  unfold n_before. rewrite filter_app, length_app. destruct (Z.ltb_spec t (nr_beg range)).
  - rewrite filter_cons_True by done. cbn. lia.
  - rewrite filter_cons_False by lia. cbn. lia.
Qed.

Context (Hrange : nr_beg range <= nr_end range).

Definition same_place (s s' : EcParse) : Prop := ps_state s' = ps_state s /\ ps_need_min s' = ps_need_min s.

(** A timestamp in order. The second one after the range stops the parser. *)
Lemma event_ts_step s tss t pulse :
  ps_inv s tss -> default 0 (last tss) <= t -> n_before (tss ++ [t]) <= 100 ->
  exists s', same_place s s' /\ (budget s' <= budget s)%nat /\
    if (nr_end range <=? t) && (1 <=? n_after tss) then
      ec_event_ts range s t pulse = (s', EvStop) /\ ps_seen_beyond_range s' = true /\ ps_data_emit_complete s' = true
    else ec_event_ts range s t pulse = (s', EvGo (nr_end range <=? t)) /\ ps_inv s' (tss ++ [t]).
Proof.
  intros [] Hl Hb. rewrite n_before_snoc in Hb. assert (0 <= n_before tss <= 100) by (destruct (t <? nr_beg range); unfold n_before in *; lia). assert (0 <= n_after tss) by (unfold n_after; lia).
  pose proof (n_after_snoc tss t) as Ha. pose proof (n_before_snoc tss t) as Hbs.
  assert (incr (n_after tss) = n_after tss + 1) as Hia by (apply u64_add_small; lia).
  assert (incr (n_before tss) = n_before tss + 1) as Hib by (apply u64_add_small; lia).
  exists (ec_event_ts range s t pulse).1. unfold ec_event_ts. rewrite pi_last0, pi_after0, pi_before0, pi_beyond0, pi_complete0, Hia, Hib.
  rewrite (proj2 (Z.ltb_ge t (default 0 (last tss)))) by done. cbn [fst orb]. split; [done|]. unfold budget.
  cbn [ps_log_items ps_seen_before]. rewrite pi_before0, length_app. destruct (Z.leb_spec (nr_end range) t) as [He|He]; cbn [andb].
  - rewrite (proj2 (Z.ltb_ge t _)) in * by lia. cbn [andb]. split; [cbn; lia|].
    destruct (Z.leb_spec 1 (n_after tss)); [rewrite (proj2 (Z.leb_le _ _)) by lia; done|]. rewrite (proj2 (Z.leb_gt _ _)) by lia.
    split; [done|]. split; cbn; try (by rewrite last_snoc); try lia. symmetry. apply bool_decide_eq_true. lia.
  - rewrite Z.add_0_r in Ha. rewrite andb_true_r. split.
    + destruct (t <? nr_beg range); cbn [andb]; [|cbn; lia]. destruct (Z.ltb_spec (n_before tss + 1) 20); cbn; lia.
    + rewrite (proj2 (Z.ltb_ge 100 _)) by (destruct (t <? nr_beg range); lia). rewrite andb_false_r. split; [done|].
      split; cbn; try (by rewrite last_snoc); try lia.
      * rewrite Hbs. destruct (t <? nr_beg range); lia.
      * by rewrite Ha.
Qed.
(** ** The events of the file *)

(** The file may end in the middle of an event. *)
Context (last_ev : disk_ev) (tail cut : list Z).
Context (Hlast : ev_good last_ev) (Htail : enc_ev last_ev = tail ++ cut) (Hcut : cut <> []).
Context (need_max : Z) (Hlast_max : Z.of_nat (dev_len last_ev) <= need_max).

Definition stream (evs : list disk_ev) : list Z := concat (map enc_ev evs) ++ tail.
Definition next_ev (evs : list disk_ev) : disk_ev := match evs with e :: _ => e | [] => last_ev end.
Definition disk_tss (evs : list disk_ev) : list Z := map (fun e => ee_ts e.2) evs.

(** What the reader is to give: the rows before the end of the range. *)
Definition kept (evs : list disk_ev) : list EfEvent := map snd (filter (fun e => ee_ts e.2 < nr_end range) evs).

(** The events that are still to come, after those at [tss]. *)
Record to_come (tss : list Z) (evs : list disk_ev) : Prop := {
  tc_good : Forall ev_good evs;
  tc_max : Forall (fun e => Z.of_nat (dev_len e) <= need_max) evs;
  tc_sorted : StronglySorted Z.le (default 0 (last tss) :: disk_tss evs);
  tc_before : n_before (tss ++ disk_tss evs) <= 100
}.

Lemma n_before_app a b : n_before (a ++ b) = n_before a + n_before b.
Proof. unfold n_before. rewrite filter_app, length_app. lia. Qed.

Lemma to_come_cons tss e evs :
  to_come tss (e :: evs) ->
  ev_good e /\ default 0 (last tss) <= ee_ts e.2 /\ n_before (tss ++ [ee_ts e.2]) <= 100 /\
  Forall (fun e' => ee_ts e.2 <= ee_ts e'.2) evs /\ to_come (tss ++ [ee_ts e.2]) evs.
Proof.
  intros [Hg Hm Hs Hb]. apply Forall_cons in Hg as [He Hg], Hm as [Hem Hm]. inversion Hs as [|? ? Hs1 Hf]; subst.
  inversion Hs1 as [|? ? Hs2 Hf1]; subst. inversion Hf; subst.
  assert (n_before (tss ++ disk_tss (e :: evs)) = n_before (tss ++ [ee_ts e.2]) + n_before (disk_tss evs)) as E
    by (rewrite <- n_before_app, <- app_assoc; done).
  assert (0 <= n_before (disk_tss evs)) by (unfold n_before; lia). split; [done|]. split; [done|]. split; [lia|].
  split; [by apply (Forall_map (fun e' : disk_ev => ee_ts e'.2)) in Hf1|].
  split; [done|done| |]; [by rewrite last_snoc|]. rewrite n_before_app. lia.
Qed.

Lemma next_good tss evs : to_come tss evs -> ev_good (next_ev evs) /\ Z.of_nat (dev_len (next_ev evs)) <= need_max.
Proof. intros [Hg Hm _ _]. destruct evs; [done|]. by apply Forall_cons in Hg as [? _], Hm as [? _]. Qed.

Lemma take_prefix (buf more l w : list Z) : buf ++ more = l ++ w -> (length l <= length buf)%nat -> take (length l) buf = l.
Proof.
  intros He Hl. assert (take (length l) (buf ++ more) = l) as Ht by (rewrite He; apply take_app_length).
  by rewrite take_app_le in Ht.
Qed.

(** The front of the stream is the front of the next event. *)
Lemma stream_front evs : exists w w', stream evs ++ w = enc_ev (next_ev evs) ++ w'.
Proof.
  destruct evs as [|e evs]; cbn [next_ev].
  - exists cut, []. rewrite app_nil_r. unfold stream. cbn [map concat app]. by rewrite Htail.
  - exists [], (stream evs). unfold stream. cbn [map concat]. by rewrite app_nil_r, <- app_assoc.
Qed.

Lemma stream_len tss evs buf rest :
  to_come tss evs -> buf ++ rest = stream evs -> (4 <= length buf)%nat ->
  cur_read (E := DataParseError) buf 0 4 = Ok (Z.of_nat (dev_len (next_ev evs))).
Proof.
  intros Hc Hb Hl. destruct (next_good _ _ Hc) as [Hg _]. pose proof (dev_len_bounds _ Hg).
  destruct (stream_front evs) as (w & w' & Hw). rewrite <- Hb, <- app_assoc in Hw. unfold enc_ev in Hw. rewrite <- app_assoc in Hw.
  unfold cur_read. rewrite (proj2 (Nat.leb_le _ _)), drop_0 by lia.
  pose proof (take_prefix _ _ _ _ Hw) as Ht. rewrite be_bytes_length in Ht. rewrite Ht by lia.
  rewrite of_be_bytes_round by (unfold in_u; lia). done.
Qed.

(** A buffer that holds the length of the next event holds that event. *)
Lemma stream_take evs buf rest :
  buf ++ rest = stream evs -> (dev_len (next_ev evs) <= length buf)%nat ->
  exists e evs' buf', evs = e :: evs' /\ buf = enc_ev e ++ buf' /\ buf' ++ rest = stream evs'.
Proof.
  intros Hb Hl. destruct evs as [|e evs]; cbn [next_ev] in Hl.
  - exfalso. unfold stream in Hb. cbn in Hb. pose proof (f_equal length Hb) as Hbl. pose proof (f_equal length Htail) as Htl.
    rewrite length_app in *. rewrite length_enc_ev in Htl. assert (0 < length cut)%nat by (destruct cut; [done|cbn; lia]). lia.
  - exists e, evs, (drop (dev_len e) buf). unfold stream in Hb. cbn [map concat] in Hb. rewrite <- app_assoc in Hb. fold (stream evs) in Hb.
    assert (take (dev_len e) buf = enc_ev e) as Ht.
    { pose proof (take_prefix buf rest (enc_ev e) (stream evs) Hb) as Ht. rewrite length_enc_ev in Ht. by apply Ht. }
    split; [done|]. assert (buf = enc_ev e ++ drop (dev_len e) buf) as Hbuf by (rewrite <- Ht; by rewrite take_drop).
    split; [done|]. rewrite Hbuf, <- app_assoc in Hb. by apply app_inv_head in Hb.
Qed.
(** A turn of the loop at an event that is in the buffer. *)
Lemma parse_turn tss e evs s buf rest ret parsed logs fuel :
  ps_state s = FileEvent -> 4 <= ps_need_min s <= Z.of_nat (dev_len e) -> ps_inv s tss -> to_come tss (e :: evs) ->
  Z.of_nat (length (enc_ev e ++ buf)) < 2 ^ 32 -> enc_ev e ++ buf ++ rest = stream (e :: evs) -> ef_wf ret ->
  exists s', same_place s s' /\ (budget s' <= budget s)%nat /\
    if (nr_end range <=? ee_ts e.2) && (1 <=? n_after tss) then
      ec_parse_loop st sh range (S fuel) s (enc_ev e ++ buf) ret parsed logs = (s', enc_ev e ++ buf, Ok (ret, parsed, logs)) /\
      ps_seen_beyond_range s' = true /\ ps_data_emit_complete s' = true
    else
      ec_parse_loop st sh range (S fuel) s (enc_ev e ++ buf) ret parsed logs =
        ec_parse_loop st sh range fuel (ec_need s' FileEvent 4) buf (if nr_end range <=? ee_ts e.2 then ret else push_row ret e.2)
          (u64_add parsed (Z.of_nat (dev_len e))) logs /\
      ps_inv s' (tss ++ [ee_ts e.2]).
Proof.
  intros Hst Hn Hi Hc Hbl Hb Hret. destruct (to_come_cons _ _ _ Hc) as (Hg & Hle & Hbe & _ & _).
  destruct (event_ts_step s tss (ee_ts e.2) (ee_pulse e.2) Hi Hle Hbe) as (s' & Hsp & Hbu & Hstep). exists s'. split; [done|]. split; [done|].
  pose proof (dev_len_bounds e Hg) as Hlb. pose proof (length_enc_ev e) as Hle1. pose proof (eg_wf e Hg) as [].
  rewrite length_app, Hle1 in Hbl. cbn [ec_parse_loop]. rewrite length_app, Hle1.
  rewrite !(wrap_small 32 (Z.of_nat _)) by (unfold in_u; lia). rewrite (proj2 (Z.ltb_ge _ (ps_need_min s))) by lia. rewrite Hst.
  pose proof (stream_len tss (e :: evs) (enc_ev e ++ buf) rest Hc) as Hlen. rewrite <- app_assoc in Hlen.
  rewrite Hlen; [|done|rewrite length_app; lia]. cbn [next_ev].
  assert (to_signed 32 (Z.of_nat (dev_len e)) = Z.of_nat (dev_len e)) as ->.
  { apply to_signed_32. lia. }
  rewrite (proj2 (Z.ltb_ge _ 20)) by lia. rewrite (eg_len e Hg). rewrite (proj2 (Z.ltb_ge _ (Z.of_nat (dev_len e)))) by lia.
  assert (drop 4 (enc_ev e ++ buf) = be_bytes 8 (dx_ttl e.1) ++ be_bytes 8 (ee_ts e.2) ++ be_bytes 8 (ee_pulse e.2) ++
    dev_fields e ++ ee_blob e.2 ++ be_bytes 4 (Z.of_nat (dev_len e)) ++ buf) as Hd.
  { unfold enc_ev. rewrite <- !app_assoc. apply drop_app_length'. by rewrite be_bytes_length. }
  assert (length (enc_ev e ++ buf) = (dev_len e + length buf)%nat) as Hbl2 by (by rewrite length_app, Hle1).
  destruct (cur_step (E := DataParseError) _ 4 8 _ _ Hd) as (-> & Hd1 & Hp1); [lia|done|].
  destruct (cur_step (E := DataParseError) _ 12 8 _ _ Hd1) as (-> & Hd2 & Hp2); [lia|done|].
  destruct (cur_step (E := DataParseError) _ 20 8 _ _ Hd2) as (-> & Hd3 & Hp3); [lia|done|]. cbn [and_then].
  destruct (_ && _).
  - destruct Hstep as (-> & ? & ?). done.
  - destruct Hstep as (-> & ?). split; [|done]. rewrite ec_event_rest_good by done. by rewrite Nat2Z.id, drop_app_length' by done.
Qed.
(** The parser waits for more bytes, with the events [evs] to come. *)
Record waiting (s : EcParse) (tss : list Z) (evs : list disk_ev) (buf rest : list Z) : Prop := {
  wt_state : ps_state s = FileEvent;
  wt_inv : ps_inv s tss;
  wt_come : to_come tss evs;
  wt_stream : buf ++ rest = stream evs;
  wt_need : 4 <= ps_need_min s <= Z.of_nat (dev_len (next_ev evs));
  wt_short : Z.of_nat (length buf) < ps_need_min s
}.

(** The parser has seen the second event after the range. *)
Record stopped (s : EcParse) (evs : list disk_ev) : Prop := {
  sp_complete : ps_data_emit_complete s = true;
  sp_beyond : ps_seen_beyond_range s = true;
  sp_need : ps_need_min s <= need_max;
  sp_after : Forall (fun e => nr_end range <= ee_ts e.2) evs;
  sp_some : evs <> []
}.

Lemma kept_after evs : Forall (fun e => nr_end range <= ee_ts e.2) evs -> kept evs = [].
Proof. intros Hf. unfold kept. rewrite filter_false; [done|]. eapply Forall_impl; [done|]. cbn. lia. Qed.

Lemma kept_app a b : kept (a ++ b) = kept a ++ kept b.
Proof. unfold kept. by rewrite filter_app, map_app. Qed.

(** What the loop leaves of the events [evs]: it has dealt with a prefix. *)
Definition parsed_prefix (s s' : EcParse) (tss : list Z) (evs : list disk_ev) (ret ret' : EventFull) (buf' rest : list Z) : Prop :=
  exists evs1 evs2, evs = evs1 ++ evs2 /\ ef_wf ret' /\ ef_rows ret' = ef_rows ret ++ kept evs1 /\ (budget s' <= budget s)%nat /\
    (waiting s' (tss ++ disk_tss evs1) evs2 buf' rest \/ stopped s' evs2).

Lemma ps_inv_need s tss d n : ps_inv s tss -> ps_inv (ec_need s d n) tss.
Proof. by intros []. Qed.

(** A buffer without the whole next event. *)
Lemma parse_waits evs s tss buf rest ret parsed logs fuel :
  ps_state s = FileEvent -> ps_inv s tss -> to_come tss evs -> buf ++ rest = stream evs ->
  Z.of_nat (length buf) < 2 ^ 32 -> (length buf <= fuel)%nat -> 4 <= ps_need_min s <= Z.of_nat (dev_len (next_ev evs)) ->
  Z.of_nat (length buf) < Z.of_nat (dev_len (next_ev evs)) ->
  exists s', ec_parse_loop st sh range fuel s buf ret parsed logs = (s', buf, Ok (ret, parsed, logs)) /\
    (budget s' <= budget s)%nat /\ waiting s' tss evs buf rest.
Proof.
  intros Hst Hi Hc Hb Hbl Hf Hn Hpart. pose proof (next_good _ _ Hc) as [Hg Hm]. pose proof (dev_len_bounds _ Hg) as Hlb.
  destruct (decide (Z.of_nat (length buf) < ps_need_min s)) as [Hshort|Hlong].
  - exists s. split; [|by split]. destruct fuel; cbn [ec_parse_loop]; rewrite !(wrap_small 32 (Z.of_nat (length buf))) by (unfold in_u; lia);
      by rewrite (proj2 (Z.ltb_lt _ (ps_need_min s))) by lia.
  - exists (ec_need s FileEvent (Z.of_nat (dev_len (next_ev evs)))). split.
    + destruct fuel as [|fuel]; [lia|]. cbn [ec_parse_loop]. rewrite !(wrap_small 32 (Z.of_nat (length buf))) by (unfold in_u; lia).
      rewrite (proj2 (Z.ltb_ge _ (ps_need_min s))) by lia. rewrite Hst.
      rewrite (stream_len tss evs buf rest) by (done || lia). rewrite to_signed_32 by lia.
      rewrite (proj2 (Z.ltb_ge _ 20)) by lia. rewrite (eg_len _ Hg). by rewrite (proj2 (Z.ltb_lt _ _)) by lia.
    + split; [done|]. split; [done|by apply ps_inv_need|done|done|cbn [ps_need_min ec_need]; lia..].
Qed.

Lemma parse_events evs s tss buf rest ret parsed logs fuel :
  ps_state s = FileEvent -> ps_inv s tss -> to_come tss evs -> ef_wf ret -> buf ++ rest = stream evs ->
  Z.of_nat (length buf) < 2 ^ 32 -> (length buf <= fuel)%nat -> 4 <= ps_need_min s <= Z.of_nat (dev_len (next_ev evs)) ->
  exists s' buf' ret' parsed',
    ec_parse_loop st sh range fuel s buf ret parsed logs = (s', buf', Ok (ret', parsed', logs)) /\
    parsed_prefix s s' tss evs ret ret' buf' rest.
Proof.
  revert evs s tss buf ret parsed. induction fuel as [fuel IH] using lt_wf_ind; intros evs s tss buf ret parsed Hst Hi Hc Hret Hb Hbl Hf Hn.
  destruct (decide (Z.of_nat (length buf) < Z.of_nat (dev_len (next_ev evs)))) as [Hpart|Hfull].
  { destruct (parse_waits _ s tss buf rest ret parsed logs fuel Hst Hi Hc Hb Hbl Hf Hn Hpart) as (s' & He & Hbu & Hw).
    exists s', buf, ret, parsed. split; [done|]. exists [], evs. split; [done|]. split; [done|].
    split; [by rewrite app_nil_r|]. split; [done|]. left. by rewrite app_nil_r. }
  destruct (stream_take _ buf rest Hb) as (e & evs' & buf' & -> & -> & Hb'); [lia|]. rename evs' into evs. cbn [next_ev] in *.
  destruct (to_come_cons _ _ _ Hc) as (Hg & Hle & Hbe & Haft & Hc'). pose proof (length_enc_ev e) as Hle1. pose proof (dev_len_bounds e Hg).
  rewrite length_app, Hle1 in Hf. destruct fuel as [|fuel]; [lia|]. rewrite <- app_assoc in Hb.
  destruct (parse_turn tss e evs s buf' rest ret parsed logs fuel Hst Hn Hi Hc Hbl Hb Hret) as (s1 & [_ Hsn] & Hbu & Ht).
  destruct (Z.leb_spec (nr_end range) (ee_ts e.2)) as [Hend|Hend]; [destruct (Z.leb_spec 1 (n_after tss))|]; cbn [andb] in Ht.
  { destruct Ht as (-> & Hs1 & Hs2). exists s1, (enc_ev e ++ buf'), ret, parsed. split; [done|]. eexists [], _. split; [done|].
    split; [done|]. split; [by rewrite app_nil_r|]. split; [done|]. right. pose proof (next_good _ _ Hc) as [_ Hm].
    split; [done|done|cbn [next_ev] in *; lia| |done]. constructor; [done|]. eapply Forall_impl; [done|]. cbn. lia. }
  all: destruct Ht as (-> & Hi1).
  all: destruct (next_good _ _ Hc') as [Hg' _]; pose proof (dev_len_bounds _ Hg').
  all: rewrite length_app, Hle1 in Hbl.
  - edestruct (IH fuel ltac:(lia) evs (ec_need s1 FileEvent 4) (tss ++ [ee_ts e.2]) buf' ret) as (s2 & b2 & r2 & p2 & Hr & evs1 & evs2 & -> & Hwf2 & Hrows & Hbu2 & Hd);
      [done|by apply ps_inv_need|done|done|done|lia|lia|cbn [ps_need_min ec_need]; lia|]. exists s2, b2, r2, p2. split; [exact Hr|].
    exists (e :: evs1), evs2. split; [done|]. split; [done|]. split; [|split; [change (budget (ec_need s1 FileEvent 4)) with (budget s1) in Hbu2; lia|by rewrite <- app_assoc in Hd]].
    rewrite Hrows. change (kept (e :: evs1)) with (kept ([e] ++ evs1)). by rewrite kept_app, (kept_after [e]) by (by repeat constructor).
  - destruct (push_row_wf ret e.2 Hret) as [Hpw Hpr].
    edestruct (IH fuel ltac:(lia) evs (ec_need s1 FileEvent 4) (tss ++ [ee_ts e.2]) buf' (push_row ret e.2)) as (s2 & b2 & r2 & p2 & Hr & evs1 & evs2 & -> & Hwf2 & Hrows & Hbu2 & Hd);
      [done|by apply ps_inv_need|done|done|done|lia|lia|cbn [ps_need_min ec_need]; lia|]. exists s2, b2, r2, p2. split; [exact Hr|].
    exists (e :: evs1), evs2. split; [done|]. split; [done|]. split; [|split; [change (budget (ec_need s1 FileEvent 4)) with (budget s1) in Hbu2; lia|by rewrite <- app_assoc in Hd]].
    rewrite Hrows, Hpr, <- app_assoc. f_equal. unfold kept. by rewrite filter_cons_True by lia.
Qed.
(** ** The header *)

Context (name : list Z) (Hname : (1 <= length name <= 248)%nat) (Hneed_max : 258 <= need_max).

Lemma cur_read_app {E} buf rest p n z :
  @cur_read E (buf ++ rest) p n = Ok z -> (p + n <= length buf)%nat -> @cur_read E buf p n = Ok z.
Proof.
  unfold cur_read. intros Hr Hl. rewrite (proj2 (Nat.leb_le _ _)) by done. rewrite length_app, (proj2 (Nat.leb_le _ _)) in Hr by lia.
  rewrite drop_app_le, take_app_le in Hr by (rewrite ?length_drop; lia). done.
Qed.

Lemma ec_header_spec buf rest more :
  buf ++ rest = enc_header name ++ more -> (6 <= length buf)%nat ->
  ec_header buf = Ok (if (length name + 10 <=? length buf)%nat then Some (Z.of_nat (length name + 10)) else None, Z.of_nat (length name + 10)).
Proof.
  intros Hb Hl. pose proof Hb as Hd. unfold enc_header in Hd. cbv zeta in Hd. set (len := Z.of_nat (length name + 8)) in *.
  rewrite <- !app_assoc in Hd. assert (Hbl : (length buf + length rest = length name + 10 + length more)%nat).
  { rewrite <- length_app, Hb, length_app, length_enc_header. lia. }
  destruct (cur_step (E := DataParseError) (buf ++ rest) 0 2 _ _ Hd) as (Hr0 & Hd0 & _); [lia|unfold in_u; cbn; lia|].
  destruct (cur_step (E := DataParseError) (buf ++ rest) 2 4 _ _ Hd0) as (Hr2 & Hd2 & _); [rewrite length_app; lia|unfold in_u, len; lia|].
  unfold ec_header. rewrite (proj2 (Nat.ltb_ge _ _)) by done. rewrite (cur_read_app _ _ _ _ _ Hr0), (cur_read_app _ _ _ _ _ Hr2) by lia.
  cbn [and_then]. change (negb (to_signed 16 0 =? 0)) with false. cbn iota. rewrite to_signed_32 by (unfold len; lia).
  rewrite (proj2 (Z.leb_gt len 0)), (proj2 (Z.leb_gt 512 len)) by (unfold len; lia). cbn [orb].
  replace (len + 2) with (Z.of_nat (length name + 10)) by (unfold len; lia).
  destruct (Nat.leb_spec (length name + 10) (length buf)); [|by rewrite (proj2 (Z.ltb_lt _ _)) by lia].
  rewrite (proj2 (Z.ltb_ge _ _)) by lia. rewrite u64_sub_small by (unfold len; lia).
  unfold cur_advance. rewrite (proj2 (Z.leb_le _ _)) by (unfold len; lia). cbn [and_then].
  replace (6 + Z.to_nat (len - 8))%nat with (6 + length name)%nat by (unfold len; lia).
  assert (drop (6 + length name) (buf ++ rest) = be_bytes 4 len ++ more) as Hd6.
  { rewrite <- drop_drop. change (2 + 4)%nat with 6%nat in Hd2. rewrite Hd2. by apply drop_app_length. }
  destruct (cur_step (E := DataParseError) (buf ++ rest) (6 + length name) 4 _ _ Hd6) as (Hr6 & _ & _); [rewrite length_app; lia|unfold in_u, len; lia|].
  rewrite (cur_read_app _ _ _ _ _ Hr6) by lia. cbn [and_then]. rewrite to_signed_32 by (unfold len; lia). rewrite Z.eqb_refl. cbn [negb].
  rewrite slice_ok by (unfold len; lia). done.
Qed.
(** The parser at some place of the file: [data] is to come. *)
Record ready (s : EcParse) (tss : list Z) (evs : list disk_ev) (data : list Z) : Prop := {
  rd_front :
    match ps_state s with
    | FileHeader => tss = [] /\ data = enc_header name ++ stream evs /\ 6 <= ps_need_min s <= Z.of_nat (length name + 10)
    | FileEvent => data = stream evs /\ 4 <= ps_need_min s <= Z.of_nat (dev_len (next_ev evs))
    end;
  rd_inv : ps_inv s tss;
  rd_come : to_come tss evs
}.

Lemma ready_need s tss evs data : ready s tss evs data -> 4 <= ps_need_min s <= need_max.
Proof. intros [Hf _ Hc]. destruct (next_good _ _ Hc). destruct (ps_state s); lia. Qed.

Lemma waiting_ready s tss evs buf rest : waiting s tss evs buf rest -> ready s tss evs (buf ++ rest).
Proof. intros [Hs Hi Hc Hb Hn _]. split; [by rewrite Hs|done|done]. Qed.

(** What the parser makes of a buffer. *)
Definition progress (s s' : EcParse) (tss : list Z) (evs : list disk_ev) (ret' : EventFull) (buf' rest : list Z) : Prop :=
  exists evs1 evs2, evs = evs1 ++ evs2 /\ ef_wf ret' /\ ef_rows ret' = kept evs1 /\ (budget s' <= budget s)%nat /\
    ((ready s' (tss ++ disk_tss evs1) evs2 (buf' ++ rest) /\ Z.of_nat (length buf') < ps_need_min s') \/ stopped s' evs2).

Lemma parsed_progress s s' tss evs ret' buf' rest :
  parsed_prefix s s' tss evs ef_empty ret' buf' rest -> progress s s' tss evs ret' buf' rest.
Proof.
  intros (evs1 & evs2 & -> & Hw & Hr & Hb & Hd). exists evs1, evs2. repeat (split; [done|]). destruct Hd as [Hd|Hd]; [left|by right].
  split; [by apply waiting_ready|by destruct Hd].
Qed.

Lemma progress_none s s' tss evs buf rest :
  ready s' tss evs (buf ++ rest) -> Z.of_nat (length buf) < ps_need_min s' -> (budget s' <= budget s)%nat ->
  progress s s' tss evs ef_empty buf rest.
Proof.
  intros Hr Hl Hb. exists [], evs. split; [done|]. split; [apply ef_empty_wf|]. split; [done|]. split; [done|]. left.
  by rewrite app_nil_r.
Qed.

Lemma parse_buf_ready s tss evs buf rest :
  ready s tss evs (buf ++ rest) -> Z.of_nat (length buf) < 2 ^ 32 ->
  exists s' buf' ret' parsed',
    ec_parse_buf st sh range s buf = (s', buf', Ok (ret', parsed', [])) /\ progress s s' tss evs ret' buf' rest.
Proof.
  intros Hr Hbl. pose proof Hr as [Hf Hi Hc]. unfold ec_parse_buf. destruct (ps_state s) eqn:Hst.
  2: { destruct Hf as [Hd Hn]. destruct (parse_events evs s tss buf rest ef_empty 0 [] (length buf) Hst Hi Hc ef_empty_wf Hd Hbl) as
         (s' & b' & r' & p' & He & Hp); [lia|lia|]. exists s', b', r', p'. split; [done|]. by apply parsed_progress. }
  destruct Hf as (-> & Hd & Hn). destruct (decide (Z.of_nat (length buf) < ps_need_min s)) as [Hshort|Hlong].
  { exists s, buf, ef_empty, 0. split; [|by apply progress_none].
    destruct (length buf) eqn:Hb0; cbn [ec_parse_loop]; rewrite Hb0, (wrap_small 32 (Z.of_nat _)) by (unfold in_u; lia);
      by rewrite (proj2 (Z.ltb_lt _ (ps_need_min s))) by lia. }
  destruct (length buf) as [|fuel] eqn:Hb0; [lia|]. cbn [ec_parse_loop].
  rewrite Hb0, (wrap_small 32 (Z.of_nat _)) by (unfold in_u; lia). rewrite (proj2 (Z.ltb_ge _ (ps_need_min s))) by lia.
  rewrite Hst, (ec_header_spec buf rest (stream evs)) by (done || lia). destruct (Nat.leb_spec (length name + 10) (length buf)) as [Hle|Hlt].
  - rewrite Nat2Z.id. assert (drop (length name + 10) buf ++ rest = stream evs) as Hd'.
    { rewrite <- drop_app_le by lia. rewrite Hd. apply drop_app_length'. by rewrite length_enc_header. }
    destruct (next_good _ _ Hc) as [Hg _]. pose proof (dev_len_bounds _ Hg).
    destruct (parse_events evs (ec_need s FileEvent 4) [] (drop (length name + 10) buf) rest ef_empty (u64_add 0 (Z.of_nat (length name + 10))) []
      fuel eq_refl (ps_inv_need _ _ _ _ Hi) Hc ef_empty_wf Hd') as (s' & b' & r' & p' & He & Hp);
      [rewrite length_drop; lia|rewrite length_drop; lia|cbn [ps_need_min ec_need]; lia|].
    exists s', b', r', p'. split; [done|]. by apply parsed_progress.
  - exists (ec_need s FileHeader (Z.of_nat (length name + 10))), buf, ef_empty, 0. split; [done|].
    apply progress_none; [|cbn [ps_need_min ec_need]; lia|done]. split; [|by apply ps_inv_need|done]. cbn [ps_state ec_need ps_need_min].
    split; [done|]. split; [done|lia].
Qed.
(** ** The chunks *)

Context {E : Type}.

(** No failure of the input, and no chunk of more than two gigabytes. *)
Definition chunk_ok (p : Poll (E + FileChunkRead)) : Prop :=
  match p with
  | Ready (inr f) => Z.of_nat (length (fcr_buf f)) < 2 ^ 31
  | Ready (inl _) => False
  | Pending => True
  end.

Definition chunk_bytes (p : Poll (E + FileChunkRead)) : list Z := match p with Ready (inr f) => fcr_buf f | _ => [] end.
Definition inp_bytes (inp : list (Poll (E + FileChunkRead))) : list Z := concat (map chunk_bytes inp).
Definition left_bytes (o : option FileChunkRead) : list Z := match o with Some f => fcr_buf f | None => [] end.

Definition histo_ok (h : HistoLog2) : Prop := length (histo h) = 16%nat /\ 0 <= histo_sub h < 2 ^ 63.

Lemma histo_ingest_ok {X} h v : histo_ok h -> is_u32 v -> exists h', @HistoLog2_ingest X h v = Ok h' /\ histo_ok h'.
Proof.
  intros [Hl Hs] Hv. destruct (@HistoLog2_ingest_slot X h v Hl Hs Hv) as (n & _ & He). eexists. split; [exact He|].
  split; [|done]. cbn [histo]. by rewrite length_insert.
Qed.

Record nm_ok (b : NeedMinBuffer E) : Prop := {
  nk_inp : Forall chunk_ok (nm_inp b);
  nk_histo : histo_ok (nm_histo b);
  nk_errored : nm_errored b = false;
  nk_completed : nm_completed b = false
}.

Definition nm_bytes (b : NeedMinBuffer E) : list Z := left_bytes (nm_left b) ++ inp_bytes (nm_inp b).

(** A poll of the buffer: enough bytes, nothing yet, or the end. *)
Definition nm_result (b b' : NeedMinBuffer E) (r : nm_out E) : Prop :=
  nm_ok b' /\ nm_need_min b' = nm_need_min b /\
  match r with
  | NmPoll (Ready (Some (inr fcr))) =>
      nm_left b' = None /\ fcr_buf fcr ++ inp_bytes (nm_inp b') = nm_bytes b /\
      Z.of_nat (length (fcr_buf fcr)) < 2 ^ 32 /\ (length (nm_inp b') < length (nm_inp b))%nat
  | NmPoll (Ready None) => Z.of_nat (length (nm_bytes b)) < nm_need_min b
  | NmPoll Pending =>
      nm_bytes b' = nm_bytes b /\ Z.of_nat (length (left_bytes (nm_left b'))) < nm_need_min b /\
      (length (nm_inp b') < length (nm_inp b))%nat
  | _ => False
  end.

Lemma nm_join_bytes left f : fcr_buf (nm_join left f) = left_bytes left ++ fcr_buf f.
Proof. by destruct left. Qed.

Lemma nm_poll_spec b :
  nm_ok b -> Z.of_nat (length (left_bytes (nm_left b))) < nm_need_min b -> nm_need_min b < 2 ^ 31 ->
  nm_result b (nm_poll_next b).1 (nm_poll_next b).2.
Proof.
  intros [Hi Hh He Hc] Hl Hn. unfold nm_poll_next. rewrite Hc, He. destruct b as [inp need left h er co]. cbn in *. subst.
  unfold nm_result, nm_bytes. cbn [nm_left nm_inp nm_need_min].
  revert left h Hh Hl. induction Hi as [|p inp Hp Hi IH]; intros left h Hh Hl; cbn [nm_loop].
  - cbn. rewrite app_nil_r. split; [by split|done].
  - destruct p as [[e|f]|]; [done| |].
    + cbn in Hp. destruct (histo_ingest_ok (X := E) h (wrap 32 (Z.of_nat (length (fcr_buf f)))) Hh) as (h' & -> & Hh'); [by apply wrap_bound|].
      pose proof (nm_join_bytes left f) as Hj. assert (Z.of_nat (length (fcr_buf (nm_join left f))) < 2 ^ 32) as Hjl.
      { rewrite Hj, length_app. lia. }
      destruct (Z.leb_spec need (wrap 32 (Z.of_nat (length (fcr_buf (nm_join left f)))))) as [Hle|Hlt]; cbn [fst snd].
      * split; [by split|]. split; [done|]. cbn [nm_left nm_inp length]. rewrite Hj. unfold inp_bytes. cbn [map concat chunk_bytes].
        rewrite <- app_assoc. repeat split; try lia. rewrite <- Hj. done.
      * rewrite wrap_small in Hlt by (unfold in_u; lia).
        destruct (IH (Some (nm_join left f)) h' Hh' Hlt) as (Hok & Hneed & Hres). split; [done|]. split; [done|].
        assert (left_bytes (Some (nm_join left f)) ++ inp_bytes inp = left_bytes left ++ inp_bytes (Ready (inr f) :: inp)) as Hbytes.
        { cbn [left_bytes]. rewrite Hj. unfold inp_bytes. cbn [map concat chunk_bytes]. by rewrite <- app_assoc. }
        rewrite Hbytes in Hres. cbn [length].
        destruct (nm_loop need inp (Some (nm_join left f)) h').2 as [[[[|]|]|]|]; try done.
        -- destruct Hres as (? & ? & ? & ?). repeat split; try done. lia.
        -- destruct Hres as (? & ? & ?). repeat split; try done. lia.
    + cbn. split; [by split|]. repeat split; try done. lia.
Qed.
(** ** The stream *)

Definition item_rows (i : EcItem E) : list EfEvent := match i with SOk (DataItem (Data d)) => ef_rows d | _ => [] end.
Definition is_complete (i : EcItem E) : bool := match i with SOk (DataItem RangeComplete) => true | _ => false end.
Definition not_err (i : EcItem E) : Prop := match i with SErr _ => False | _ => True end.

(** The stream ends within the polls, without an error, with these rows and,
    or not, the mark that the range is complete. *)
Definition drains (polls : nat) (s : EventChunker E) (rows : list EfEvent) (complete : bool) : Prop :=
  exists items, ec_drain polls s = Some items /\ concat (map item_rows items) = rows /\ Forall not_err items /\
    existsb is_complete items = complete.

Lemma drains_item polls s s' i rows c :
  ec_poll_next s = (s', EcPoll (Ready (Some i))) -> not_err i -> drains polls s' rows c ->
  drains (S polls) s (item_rows i ++ rows) (is_complete i || c).
Proof.
  intros Hp Hi (items & Hd & Hr & He & Hc). exists (i :: items). cbn [ec_drain]. rewrite Hp, Hd. split; [done|].
  cbn [map concat existsb]. rewrite Hr, Hc. split; [done|]. split; [by constructor|done].
Qed.

Lemma drains_pending polls s s' rows c :
  ec_poll_next s = (s', EcPoll Pending) -> drains polls s' rows c -> drains (S polls) s rows c.
Proof. intros Hp (items & Hd & Hr). exists items. cbn [ec_drain]. by rewrite Hp, Hd. Qed.

Lemma drains_end polls s s' : ec_poll_next s = (s', EcPoll (Ready None)) -> drains (S polls) s [] false.
Proof. intros Hp. exists []. cbn [ec_drain]. by rewrite Hp. Qed.

(** The state when all data is given. *)
Record ending (s : EventChunker E) (final : bool) : Prop := {
  en_errored : ec_errored s = false;
  en_completed : ec_completed s = false;
  en_sent : ec_sent_beyond_range s = false;
  en_final : ec_final_stats_sent s = final;
  en_complete : ps_data_emit_complete (ec_parse s) = true;
  en_every : 0 < ec_disk_stats_every s
}.

Lemma ends_final polls s :
  ending s true -> ps_log_items (ec_parse s) = [] -> ec_parsed_bytes s < ec_disk_stats_every s ->
  drains (S (S polls)) s [] (ps_seen_beyond_range (ec_parse s)).
Proof.
  intros [He Hc Hs Hf _ Hev] Hl Hp. pose proof (proj2 (Z.leb_gt _ _) Hp) as Hb.
  destruct (ps_seen_beyond_range (ec_parse s)) eqn:Hbe.
  - assert (exists s', ec_poll_next s = (s', EcPoll (Ready (Some (SOk (DataItem RangeComplete))))) /\
      ec_poll_next s' = (ec_set s' (ec_inp s) (ec_parse s) false true true true (ec_parsed_bytes s) (ec_histo s), EcPoll (Ready None))) as (s' & Hp1 & Hp2).
    { eexists. unfold ec_poll_next at 1. cbn [ec_poll_loop]. rewrite Hc, Hl, He, Hb, Hs, Hf, Hbe. split; [reflexivity|].
      unfold ec_poll_next. cbn [ec_poll_loop ec_set ec_completed ec_parse ec_errored ec_disk_stats_every ec_parsed_bytes ec_sent_beyond_range
        ec_final_stats_sent ec_inp ec_histo]. by rewrite Hl, Hb. }
    apply (drains_item _ _ _ _ [] false Hp1 I). by eapply drains_end.
  - eapply drains_end. unfold ec_poll_next. cbn [ec_poll_loop]. rewrite Hc, Hl, He, Hb, Hs, Hf, Hbe.
    cbn [ec_poll_loop ec_set ec_completed ec_parse ec_errored ec_disk_stats_every ec_parsed_bytes ec_sent_beyond_range
      ec_final_stats_sent ec_inp ec_histo]. by rewrite Hl, Hb.
Qed.

(** With the last counts and the log items that are left. *)
Lemma ends_stats polls s :
  ending s false -> ps_log_items (ec_parse s) = [] -> ec_parsed_bytes s < ec_disk_stats_every s ->
  drains (S (S (S polls))) s [] (ps_seen_beyond_range (ec_parse s)).
Proof.
  intros [He Hc Hs Hf Hco Hev] Hl Hp. pose proof (proj2 (Z.leb_gt _ _) Hp) as Hb.
  eapply (drains_item _ s _ (SOk (Stats (StatsEventDataRead (ec_parsed_bytes s)))) []); [|exact I|].
  - unfold ec_poll_next. cbn [ec_poll_loop]. rewrite Hc, Hl, He, Hb, Hs, Hf, Hco. reflexivity.
  - apply ends_final; [by split|done|done].
Qed.

Lemma ends_all polls s :
  ending s false -> (length (ps_log_items (ec_parse s)) + 4 <= polls)%nat ->
  drains polls s [] (ps_seen_beyond_range (ec_parse s)).
Proof.
  remember (ps_log_items (ec_parse s)) as logs eqn:Hl. revert polls s Hl. induction logs as [|l logs IH]; intros polls s Hl Hen Hp.
  - do 4 (destruct polls as [|polls]; [cbn in Hp; lia|]). symmetry in Hl. pose proof Hen as [He Hc Hs Hf Hco Hev].
    destruct (Z.leb_spec (ec_disk_stats_every s) (ec_parsed_bytes s)) as [Hb|Hb]; [|by apply ends_stats].
    pose proof (proj2 (Z.leb_le _ _) Hb) as Hb'.
    eapply (drains_item _ s _ (SOk (Stats (StatsEventDataRead (ec_parsed_bytes s)))) []); [|exact I|].
    + unfold ec_poll_next. cbn [ec_poll_loop]. rewrite Hc, Hl, He, Hb', Hs, Hf. reflexivity.
    + apply ends_stats; [by split|done|done].
  - destruct polls as [|polls]; [lia|]. symmetry in Hl. pose proof Hen as [He Hc Hs Hf Hco Hev].
    eapply (drains_item _ s _ (SOk (Log l)) []); [|exact I|].
    + unfold ec_poll_next. cbn [ec_poll_loop]. rewrite Hc, Hl, He, Hs, Hf. reflexivity.
    + match goal with |- drains _ ?s' _ _ => apply (IH polls s') end; [done|by split|cbn in Hp; lia].
Qed.
(** The state while data is to come. *)
Record active (s : EventChunker E) (tss : list Z) (evs : list disk_ev) : Prop := {
  ac_conf : ec_scalar_type s = st /\ ec_shape s = sh /\ ec_range s = range /\ ec_need_min_max s = need_max /\ 0 < ec_disk_stats_every s;
  ac_flags : ec_errored s = false /\ ec_completed s = false /\ ec_sent_beyond_range s = false /\ ec_final_stats_sent s = false;
  ac_nm : nm_ok (ec_inp s) /\ nm_need_min (ec_inp s) = ps_need_min (ec_parse s);
  ac_ready : ready (ec_parse s) tss evs (nm_bytes (ec_inp s));
  ac_short : Z.of_nat (length (left_bytes (nm_left (ec_inp s)))) < ps_need_min (ec_parse s);
  ac_histo : histo_ok (ec_histo s)
}.

Context (Hneed_fits : need_max < 2 ^ 31).

(** The polls that the stream needs. *)
Definition due (s : EventChunker E) : nat :=
  2 * length (nm_inp (ec_inp s)) + budget (ec_parse s) + (if ec_disk_stats_every s <=? ec_parsed_bytes s then 1 else 0).

(** At the end of the input no event is left. *)
Lemma ready_end s tss evs data : ready s tss evs data -> Z.of_nat (length data) < ps_need_min s -> evs = [].
Proof.
  intros [Hf _ _] Hl. destruct (ps_state s).
  - destruct Hf as (_ & -> & Hn). rewrite length_app, length_enc_header in Hl. lia.
  - destruct Hf as (-> & Hn). destruct evs as [|e evs]; [done|]. unfold stream in Hl. cbn [map concat next_ev] in *.
    rewrite !length_app, length_enc_ev in Hl. lia.
Qed.

Lemma stopped_beyond s tss evs : stopped s evs -> bool_decide (0 < n_after (tss ++ disk_tss evs)) = true.
Proof.
  intros []. apply bool_decide_eq_true. rewrite n_after_app. destruct evs as [|e evs]; [done|].
  apply Forall_cons in sp_after0 as [He _]. unfold n_after. cbn [disk_tss map]. rewrite (filter_cons_True _ (ee_ts e.2)) by done.
  cbn [length]. lia.
Qed.

(** A chunk that is long enough: its events, then what is left of it. *)
Lemma on_chunk_spec s tss evs fcr :
  ec_scalar_type s = st /\ ec_shape s = sh /\ ec_range s = range /\ ec_need_min_max s = need_max /\ 0 < ec_disk_stats_every s ->
  ec_errored s = false /\ ec_completed s = false /\ ec_sent_beyond_range s = false /\ ec_final_stats_sent s = false ->
  nm_ok (ec_inp s) -> nm_left (ec_inp s) = None -> histo_ok (ec_histo s) ->
  ready (ec_parse s) tss evs (fcr_buf fcr ++ inp_bytes (nm_inp (ec_inp s))) -> Z.of_nat (length (fcr_buf fcr)) < 2 ^ 32 ->
  exists s' d evs1 evs2,
    ec_on_chunk s fcr = (s', EcPoll (Ready (Some (SOk (DataItem (Data d)))))) /\ evs = evs1 ++ evs2 /\ ef_rows d = kept evs1 /\
    nm_inp (ec_inp s') = nm_inp (ec_inp s) /\ (budget (ec_parse s') <= budget (ec_parse s))%nat /\
    (active s' (tss ++ disk_tss evs1) evs2 \/ (ending s' false /\ stopped (ec_parse s') evs2)).
Proof.
  intros (H1 & H2 & H3 & H4 & H5) (F1 & F2 & F3 & F4) Hnm Hleft Hh Hr Hlen.
  destruct (parse_buf_ready _ _ _ _ _ Hr Hlen) as (p & b & d & parsed & Hp & evs1 & evs2 & -> & Hwf & Hrows & Hbu & Hd).
  unfold ec_on_chunk. rewrite H1, H2, H3, Hp, F2, F3, F4, H4, app_nil_r.
  assert (ps_need_min p <= need_max) as Hnp by (destruct Hd as [[Hd _]|Hd]; [by apply (ready_need _ _ _ _ Hd)|by destruct Hd]).
  assert (ec_set_logs p (ps_log_items p) = p) as -> by (by destruct p).
  assert (exists inp, (if (0 <? length b)%nat then nm_put_back (X := unit) (ec_inp s) (mkFileChunkRead b (fcr_duration fcr)) else Ok (ec_inp s)) = Ok inp /\
    nm_ok inp /\ nm_inp inp = nm_inp (ec_inp s) /\ left_bytes (nm_left inp) = b) as (inp & -> & Hnm' & Hinp & Hlb).
  { unfold nm_put_back. rewrite Hleft. destruct Hnm. destruct b; cbn [length Nat.ltb Nat.leb]; eexists; (split; [done|]); [by rewrite Hleft|]. by split. }
  rewrite (proj2 (Z.ltb_ge need_max _)) by done.
  destruct (histo_ingest_ok (X := unit) (ec_histo s) (wrap 32 (Z.of_nat (ef_len d))) Hh) as (h & -> & Hh'); [by apply wrap_bound|].
  eexists _, d, evs1, evs2. split; [reflexivity|]. split; [done|]. split; [done|]. cbn [ec_inp ec_set nm_set_need_min nm_inp ec_parse].
  split; [done|]. split; [done|]. destruct Hd as [[Hd Hs]|Hd].
  - left. split; cbn [ec_set ec_scalar_type ec_shape ec_range ec_need_min_max ec_disk_stats_every ec_errored ec_completed ec_sent_beyond_range
      ec_final_stats_sent ec_inp ec_parse ec_histo nm_set_need_min nm_need_min nm_left]; try done.
    + split; [|done]. destruct Hnm'. by split.
    + unfold nm_bytes. cbn [nm_left nm_inp nm_set_need_min]. by rewrite Hlb, Hinp.
    + by rewrite Hlb.
  - right. split; [|done]. split; try done. by destruct Hd.
Qed.

Lemma ready_logs s tss evs data logs : ready s tss evs data -> ready (ec_set_logs s logs) tss evs data.
Proof. intros [Hf [] Hc]. by split. Qed.

(** One poll of an active stream. *)
Inductive turn (s : EventChunker E) (tss : list Z) (evs : list disk_ev) : EventChunker E -> option (EcItem E) -> Prop :=
  | turn_active s' i evs1 evs2 :
      evs = evs1 ++ evs2 -> match i with Some i => not_err i /\ is_complete i = false /\ item_rows i = kept evs1 | None => evs1 = [] end ->
      active s' (tss ++ disk_tss evs1) evs2 -> (due s' < due s)%nat -> turn s tss evs s' i
  | turn_stopped s' i evs1 evs2 :
      evs = evs1 ++ evs2 -> not_err i -> is_complete i = false -> item_rows i = kept evs1 ->
      ending s' false -> stopped (ec_parse s') evs2 -> (budget (ec_parse s') <= due s)%nat -> turn s tss evs s' (Some i)
  | turn_end s' i :
      evs = [] -> not_err i -> is_complete i = false -> item_rows i = [] ->
      ending s' true -> ps_log_items (ec_parse s') = [] -> ec_parsed_bytes s' < ec_disk_stats_every s' ->
      ps_seen_beyond_range (ec_parse s') = bool_decide (0 < n_after tss) -> turn s tss evs s' (Some i).

Lemma active_turn s tss evs :
  active s tss evs ->
  exists s' i, ec_poll_next s = (s', EcPoll (match i with Some i => Ready (Some i) | None => Pending end)) /\ turn s tss evs s' i.
Proof.
  intros Ha. pose proof Ha as [(H1 & H2 & H3 & H4 & H5) (F1 & F2 & F3 & F4) (Hnm & Hneed) Hr Hs Hh].
  assert (ps_data_emit_complete (ec_parse s) = false) as Hco by (by destruct (rd_inv _ _ _ _ Hr)).
  unfold ec_poll_next. cbn [ec_poll_loop]. rewrite F2. destruct (ps_log_items (ec_parse s)) as [|l logs] eqn:Hl.
  2: { eexists _, (Some (SOk (Log l))). split; [reflexivity|]. apply (turn_active _ _ _ _ _ [] evs); [done|done| |].
       - rewrite app_nil_r. rewrite F1, F3, F4. split; try done. by apply ready_logs.
       - unfold due, budget. rewrite Hl. cbn -[Nat.mul]. lia. }
  rewrite F1. destruct (Z.leb_spec (ec_disk_stats_every s) (ec_parsed_bytes s)) as [Hb|Hb].
  { eexists _, (Some (SOk (Stats (StatsEventDataRead _)))). split; [reflexivity|]. apply (turn_active _ _ _ _ _ [] evs); [done|done| |].
    - rewrite app_nil_r, F3, F4. by split.
    - unfold due. cbn -[Nat.mul Z.leb]. rewrite (proj2 (Z.leb_le _ _) Hb), (proj2 (Z.leb_gt _ _) H5). lia. }
  rewrite F3, F4, Hco. pose proof (ready_need _ _ _ _ Hr) as Hnm2.
  pose proof (nm_poll_spec (ec_inp s) Hnm ltac:(lia) ltac:(lia)) as (Hok & Hneed' & Hres).
  destruct (nm_poll_next (ec_inp s)) as [inp out] eqn:Hpoll. cbn [fst snd] in *.
  destruct out as [[[[e|fcr]|]|]|]; try done.
  - destruct Hres as (Hl0 & Hbytes & Hlen & Hin). rewrite <- Hbytes in Hr.
    destruct (on_chunk_spec (ec_set s inp (ec_parse s) false false false false (ec_parsed_bytes s) (ec_histo s)) tss evs fcr)
      as (s' & d & evs1 & evs2 & Hon & He & Hrows & Hin' & Hbu & Hd); try done.
    exists s', (Some (SOk (DataItem (Data d)))). split; [exact Hon|]. cbn [ec_inp ec_parse ec_set] in *. destruct Hd as [Hd|[Hd Hst]].
    + apply (turn_active _ _ _ _ _ evs1 evs2); [done|done|done|]. unfold due. rewrite Hin'. destruct (_ <=? _), (_ <=? _); lia.
    + apply (turn_stopped _ _ _ _ _ evs1 evs2); try done. unfold due. lia.
  - cbn [ec_poll_loop ec_set ec_completed ec_parse ps_log_items ec_set_emit_complete ec_errored ec_disk_stats_every ec_parsed_bytes
      ec_sent_beyond_range ec_final_stats_sent ps_data_emit_complete ec_inp ec_histo].
    rewrite Hl, (proj2 (Z.leb_gt _ _) Hb). eexists _, (Some (SOk (Stats (StatsEventDataRead _)))). split; [reflexivity|].
    apply turn_end; try done; [|by destruct (rd_inv _ _ _ _ Hr)].
    apply (ready_end _ _ _ _ Hr). lia.
  - destruct Hres as (Hbytes & Hleft & Hin). eexists _, None. split; [reflexivity|]. apply (turn_active _ _ _ _ _ [] evs); [done|done| |].
    + rewrite app_nil_r. split; try done; cbn [ec_set ec_inp ec_parse]; [by split; [|congruence]|by rewrite Hbytes|lia].
    + unfold due. cbn -[Nat.mul Z.leb]. lia.
Qed.

Lemma active_drains m polls s tss evs :
  active s tss evs -> (due s <= m)%nat -> (m + 5 <= polls)%nat ->
  drains polls s (kept evs) (bool_decide (0 < n_after (tss ++ disk_tss evs))).
Proof.
  revert polls s tss evs. induction m as [m IH] using lt_wf_ind. intros polls s tss evs Ha Hdue Hpolls.
  destruct polls as [|polls]; [lia|]. destruct (active_turn s tss evs Ha) as (s' & i & Hp & Ht).
  destruct Ht as [s' i evs1 evs2 -> Hi Hact Hd|s' i evs1 evs2 -> Hi1 Hi2 Hi3 Hen Hst Hbu|s' i -> Hi1 Hi2 Hi3 Hen Hl Hpb Hbe].
  - pose proof (IH (due s') ltac:(lia) polls s' _ _ Hact ltac:(lia) ltac:(lia)) as Hdr.
    assert (disk_tss (evs1 ++ evs2) = disk_tss evs1 ++ disk_tss evs2) as Hts by apply map_app. rewrite <- app_assoc, <- Hts in Hdr.
    rewrite kept_app. destruct i as [i|].
    + destruct Hi as (Hi1 & Hi2 & Hi3). pose proof (drains_item _ _ _ _ _ _ Hp Hi1 Hdr) as Hdi. by rewrite Hi2, Hi3 in Hdi.
    + rewrite Hi in *. by apply (drains_pending _ _ _ _ _ Hp).
  - assert (disk_tss (evs1 ++ evs2) = disk_tss evs1 ++ disk_tss evs2) as -> by apply map_app.
    rewrite app_assoc, (stopped_beyond _ _ _ Hst), kept_app, (kept_after evs2) by (by destruct Hst).
    pose proof (ends_all polls s' Hen) as Hdr. unfold budget in Hbu.
    pose proof (drains_item _ _ _ _ _ _ Hp Hi1 (Hdr ltac:(lia))) as Hdi. rewrite Hi2, Hi3 in Hdi.
    by rewrite (sp_beyond _ _ Hst) in Hdi.
  - do 2 (destruct polls as [|polls]; [lia|]). pose proof (ends_final polls s' Hen Hl Hpb) as Hdr.
    pose proof (drains_item _ _ _ _ _ _ Hp Hi1 Hdr) as Hdi. rewrite Hi2, Hi3, Hbe in Hdi. by rewrite app_nil_r.
Qed.
End Chunker.
