(* ===== verification/EventChunkerReads.v ===== *)
(** * A data file is read as it was written

    The two ends of the reader together: the file as [enc_data_file] writes it,
    and the stream's items from its first poll to its last. *)
From Stdlib Require Import ZArith Lia.
From stdpp Require Import base numbers option strings list sorting.
From S2P Require Import Prelude NetpodTypes Retention Ranges Items Events ChannelConfig EventFull EventFullProofs DataIndex DataFileProofs EventChunker EventChunkerProofs.

#[local] Open Scope Z_scope.
#[local] Open Scope rust_scope.

(** A data file that ends, perhaps, in the middle of [last_ev]: the events are
    those of the channel, in order, with at most 100 before the range, and no
    event is longer than the reader's limit. *)
Record data_file_ok (st : ScalarType) (sh : Shape) (range : NanoRange) (name : list Z) (evs : list disk_ev) (last_ev : disk_ev)
    (tail : list Z) (need_max : Z) : Prop := {
  df_range : nr_beg range <= nr_end range;
  df_name : (1 <= length name <= 248)%nat;
  df_good : Forall (ev_good st sh) (last_ev :: evs);
  df_max : Forall (fun e => Z.of_nat (dev_len e) <= need_max) (last_ev :: evs);
  df_tail : exists cut, cut <> [] /\ enc_ev last_ev = tail ++ cut;
  df_sorted : StronglySorted Z.le (disk_tss evs);
  df_before : n_before range (disk_tss evs) <= 100
}.

Definition enc_data_file (name : list Z) (evs : list disk_ev) (tail : list Z) : list Z :=
  enc_header name ++ concat (map enc_ev evs) ++ tail.

Lemma n_after_exists range evs :
  bool_decide (0 < n_after range (disk_tss evs)) = existsb (fun e => nr_end range <=? ee_ts e.2) evs.
Proof.
  induction evs as [|e evs IH]; [done|]. cbn [existsb]. rewrite <- IH.
  assert (n_after range (disk_tss (e :: evs)) = n_after range ([] ++ [ee_ts e.2]) + n_after range (disk_tss evs)) as ->
    by exact (n_after_app range [ee_ts e.2] (disk_tss evs)).
  rewrite n_after_snoc. change (n_after range []) with 0. assert (0 <= n_after range (disk_tss evs)) by (unfold n_after; lia).
  destruct (nr_end range <=? ee_ts e.2); cbn [orb]; [apply bool_decide_eq_true; lia|]. by rewrite !Z.add_0_l.
Qed.

(** C14. However a data file is cut into chunks, and whatever the stream waits
    for in between, the reader ends without an error. It gives the events
    before the end of the range, with those before its start, in order, each
    with its fields and the bytes of its value; what is incomplete at the end
    of the file it leaves out. It marks the range as complete exactly when the
    file has an event at or after the end. *)
Theorem ec_reads_file {E} st sh range name evs last_ev tail (inp : list (Poll (E + FileChunkRead))) every polls :
  data_file_ok st sh range name evs last_ev tail (ec_need_min_max (ec_from_start (E := E) [] st sh range every)) ->
  0 < every -> Forall chunk_ok inp -> inp_bytes inp = enc_data_file name evs tail ->
  (2 * length inp + 24 <= polls)%nat ->
  drains polls (ec_from_start inp st sh range every) (kept range evs) (existsb (fun e => nr_end range <=? ee_ts e.2) evs).
Proof.
  intros [] Hev Hin Hb Hp. destruct df_tail0 as (cut & Hcut & Ht). apply Forall_cons in df_good0 as [Hlast Hg], df_max0 as [Hml Hm].
  rewrite <- n_after_exists. set (need_max := ec_need_min_max _) in *.
  assert (258 <= need_max < 2 ^ 31) as Hn by (unfold need_max; cbn; destruct sh; lia).
  eapply (active_drains st sh range df_range0 last_ev tail cut Hlast Ht Hcut need_max Hml name df_name0 ltac:(lia) ltac:(lia) _ polls _ [] evs);
    [|reflexivity|].
  - split; try done.
    split; [|by split|].
    + split; [done|]. split; [exact Hb|]. cbn. lia.
    + split; try done. constructor; [done|]. apply Forall_map, (Forall_impl _ _ _ Hg). intros e He.
      by destruct (ev_wf_ts _ (eg_wf _ _ _ He)).
  - unfold due. cbn -[Nat.mul Z.leb]. rewrite (proj2 (Z.leb_gt every 0)) by lia. lia.
Qed.

(** An F64 value on disk: eight bytes, uncompressed. *)
Definition sample_ev (ts : Z) : disk_ev :=
  (mkDiskExtra 0 ts 0 0 false, mkEfEvent ts 7 (be_bytes 8 ts) F64 true Scalar None).
Definition sample_evs : list disk_ev := [sample_ev 5; sample_ev 12; sample_ev 17; sample_ev 20; sample_ev 31].
Definition sample_range : NanoRange := mkNanoRange 10 20.
Definition sample_bytes : list Z := enc_data_file [65; 66] sample_evs (take 9 (enc_ev (sample_ev 40))).

(** The file in three chunks, with two waits. *)
Definition sample_inp : list (Poll (unit + FileChunkRead)) :=
  [Ready (inr (mkFileChunkRead (take 3 sample_bytes) 0)); Pending; Ready (inr (mkFileChunkRead (take 100 (drop 3 sample_bytes)) 0)); Pending;
   Ready (inr (mkFileChunkRead (drop 103 sample_bytes) 0))].

Lemma ec_reads_file_witness :
  drains 34 (ec_from_start sample_inp F64 Scalar sample_range 1000) (map snd (take 3 sample_evs)) true.
Proof.
  apply (ec_reads_file F64 Scalar sample_range [65; 66] sample_evs (sample_ev 40) (take 9 (enc_ev (sample_ev 40))) sample_inp 1000 34).
  - split; try done.
    + cbn. lia.
    + repeat constructor; try done; cbn; lia.
    + repeat constructor; vm_compute; congruence.
    + exists (drop 9 (enc_ev (sample_ev 40))). split; [by vm_compute|by rewrite take_drop].
    + repeat constructor; vm_compute; congruence.
  - lia.
  - repeat constructor.
  - vm_compute. reflexivity.
  - cbn. lia.
Defined.
