(* ===== verification/HandlerFetch.v ===== *)
(** * How a channel gets its values: polling and monitoring

    [FetchPolling] and [FetchMonitoring] of
    [daqbuf-netfetch/src/ca/conn2/conn/channelheap/channelhandler/fetchmpx/], the
    [Fetchmpx] in front of them ([fetchmpx.rs]), and the local log of
    [conn2/locallog.rs].

    Time: the clock stands still during one poll, whose [Clock] holds the two
    readings; a sleep is its deadline, and is ready when the clock has reached
    it. The random numbers are an interface ([RngOps]). Metrics, wakers and log
    output are left out, the items [TestValue] and [ChannelStatus], which nothing
    makes, and the JSON commands of [Fetchmpx], which nothing calls. *)
From Stdlib Require Import ZArith Lia String.
From stdpp Require Import base numbers option strings list.
From S2P Require Import Prelude TimeTypes NetpodTypes Retention Items Floats CaProto CaHeap.

#[local] Open Scope Z_scope.
#[local] Open Scope rust_scope.

(** ** Time and randomness *)

(** [Instant::now] in nanoseconds, and the time of day. *)
Record Clock : Type := mkClock { ck_now : Z; ck_wall : TsNano }.

Definition sleep (ck : Clock) (dur : Z) : Z := ck_now ck + dur.
Definition timer_ready (ck : Clock) (deadline : Z) : bool := deadline <=? ck_now ck.

(** A sleep in an [async] block, which starts with its first poll. *)
Inductive LazySleep : Type := LsNew (dur : Z) | LsUntil (deadline : Z).
Definition lazy_poll (ck : Clock) (t : LazySleep) : LazySleep * bool :=
  match t with
  | LsNew dur => (LsUntil (sleep ck dur), timer_ready ck (sleep ck dur))
  | LsUntil d => (t, timer_ready ck d)
  end.

Definition millis (n : Z) : Z := n * 1000000.

(** [Xoshiro128PlusPlus]. *)
Class RngOps : Type := {
  Rng : Type;
  rng_from_os : Rng;
  rng_next_u32 : Rng -> Z * Rng
}.

(** [HaveProgressPending]: the decision at the end of a turn that made no
    progress. *)
Definition hpp_end {A} (have_pending : bool) : Poll (option A) := if have_pending then Pending else Ready None.

(** ** The local log *)

Definition LogEntry : Type := Z * TsNano * string.

Record LocalLog : Type := mkLocalLog { ll_enable : bool; ll_cnt : Z; ll_buf : list LogEntry }.

Definition LocalLog_new : LocalLog := mkLocalLog false 0 [].
Definition LocalLog_enable (self : LocalLog) : LocalLog := if ll_enable self then self else mkLocalLog true (ll_cnt self) [].
Definition LocalLog_disable (self : LocalLog) : LocalLog := if ll_enable self then mkLocalLog false (ll_cnt self) [] else self.
Definition LocalLog_check_truncate (self : LocalLog) : LocalLog :=
  if (120 <=? length (ll_buf self))%nat then mkLocalLog (ll_enable self) (ll_cnt self) (drop 20 (ll_buf self)) else self.
Definition LocalLog_push (ck : Clock) (s : string) (self : LocalLog) : LocalLog :=
  let self := LocalLog_check_truncate self in
  mkLocalLog (ll_enable self) (u32_add (ll_cnt self) 1) (ll_buf self ++ [(ll_cnt self, ck_wall ck, s)]).
Definition LocalLog_push_entry (e : LogEntry) (self : LocalLog) : LocalLog :=
  let self := LocalLog_check_truncate self in mkLocalLog (ll_enable self) (ll_cnt self) (ll_buf self ++ [e]).
Definition LocalLog_to_vec_string (self : LocalLog) : list LogEntry := ll_buf self.
Definition LocalLog_pop (self : LocalLog) : LocalLog * option LogEntry :=
  match ll_buf self with
  | e :: buf => (mkLocalLog (ll_enable self) (ll_cnt self) buf, Some e)
  | [] => (self, None)
  end.

(** ** The channel *)

Record ChannelEventValue : Type := mkChannelEventValue { cev_series : Z; cev_ts : TsNano; cev_val : f32 }.

(** The fields that both ways to fetch have and do not change. *)
Record FetchChan : Type := mkFetchChan {
  fc_series : Z;
  fc_cid : Z;
  fc_sid : Z;
  fc_scalar_type : ScalarType;
  fc_shape : Shape;
  fc_ca_dbr_ty : Z
}.

Inductive fetch_error : Type := FetchLogic.

Definition FETCH_INP_CAP : nat := 16.

(** [inp_push_try], of a [VecDeque] with the given capacity. *)
Definition inp_buf_push {A} (cap : nat) (item : A) (v : list A) : list A * option A :=
  if (length v <? cap)%nat then (v ++ [item], None) else (v, Some item).

Section Fetch.
Context `{RngOps}.

(** [b * dur / a] for a random [b]. *)
Definition jitter (dur : Z) (rng : Rng) : Z * Rng :=
  let '(x, rng) := rng_next_u32 rng in
  let r := Z.land x 0xff in
  let a := 1024 in
  let b := a - a / 8 + r in
  (b * dur / a, rng).

(** ** [FetchPolling] *)

Inductive PollDir : Type := PdNone | PdDoNothing.

Inductive PollState : Type :=
  | PsDoNothing
  | PsIdle (deadline : Z)
  | PsSendReq (stdir : PollDir)
  | PsWaitRes (to : LazySleep) (stdir : PollDir)
  | PsClosing1
  | PsDone.

Definition PollState_fmt (s : PollState) : string :=
  match s with
  | PsDoNothing => "DoNothing"
  | PsIdle _ => "Idle"
  | PsSendReq _ => "SendReq"
  | PsWaitRes _ _ => "WaitRes"
  | PsClosing1 => "Closing1"
  | PsDone => "Done"
  end.

Inductive FpItem : Type :=
  | FpNone
  | FpProtoOut (m : CaMsg)
  | FpProtoOutIoid (m : CaMsg) (sid ts : Z)
  | FpChannelEventValue (v : ChannelEventValue)
  | FpLocalLog (e : LogEntry).

Record FetchPolling : Type := mkFetchPolling {
  fp_state : PollState;
  fp_chan : FetchChan;
  fp_interval : Z;
  fp_next_ts_exact : Z;
  fp_next_ts_jitter : Z;
  fp_inp_buf : list ProtoRxItem;
  fp_inp_done : bool;
  fp_rng : Rng;
  fp_llog : LocalLog
}.

Definition fp_new (ck : Clock) (chan : FetchChan) : FetchPolling :=
  mkFetchPolling PsDoNothing chan (millis 3000) (ck_now ck) (ck_now ck) [] false rng_from_os LocalLog_new.

Definition fp_set_inp (inp : list ProtoRxItem) (inp_done : bool) (self : FetchPolling) : FetchPolling :=
  mkFetchPolling (fp_state self) (fp_chan self) (fp_interval self) (fp_next_ts_exact self) (fp_next_ts_jitter self) inp inp_done
    (fp_rng self) (fp_llog self).
Definition fp_set_llog (llog : LocalLog) (self : FetchPolling) : FetchPolling :=
  mkFetchPolling (fp_state self) (fp_chan self) (fp_interval self) (fp_next_ts_exact self) (fp_next_ts_jitter self)
    (fp_inp_buf self) (fp_inp_done self) (fp_rng self) llog.
Definition fp_log (ck : Clock) (s : string) (self : FetchPolling) : FetchPolling :=
  fp_set_llog (LocalLog_push ck s (fp_llog self)) self.

(** [transition_state]. *)
Definition fp_transition (ck : Clock) (new : PollState) (self : FetchPolling) : FetchPolling :=
  mkFetchPolling new (fp_chan self) (fp_interval self) (fp_next_ts_exact self) (fp_next_ts_jitter self) (fp_inp_buf self)
    (fp_inp_done self) (fp_rng self)
    (LocalLog_push ck ("transition  " ++ PollState_fmt (fp_state self) ++ " -> " ++ PollState_fmt new) (fp_llog self)).

(** The state without a log entry: only the direction changes, or the timer. *)
Definition fp_set_dir (new : PollState) (self : FetchPolling) : FetchPolling :=
  mkFetchPolling new (fp_chan self) (fp_interval self) (fp_next_ts_exact self) (fp_next_ts_jitter self) (fp_inp_buf self)
    (fp_inp_done self) (fp_rng self) (fp_llog self).

Definition fp_next_poll_instant_jitter (ck : Clock) (self : FetchPolling) : FetchPolling * Z :=
  let exact := fp_next_ts_exact self + fp_interval self in
  let '(exact, rng) :=
    (if exact <? ck_now ck then let '(dd, rng) := jitter (fp_interval self) (fp_rng self) in (ck_now ck + dd, rng)
     else (exact, fp_rng self)) in
  let '(dd, rng) := jitter (fp_interval self) rng in
  (mkFetchPolling (fp_state self) (fp_chan self) (fp_interval self) exact (exact + dd) (fp_inp_buf self) (fp_inp_done self) rng (fp_llog self),
   exact + dd).

Definition fp_to_idle (ck : Clock) (self : FetchPolling) : FetchPolling :=
  let '(self, ts) := fp_next_poll_instant_jitter ck self in fp_transition ck (PsIdle ts) self.

Definition fp_transition_to_enable (ck : Clock) (self : FetchPolling) : FetchPolling :=
  match fp_state self with
  | PsDoNothing => fp_to_idle ck (fp_log ck "transition_to_enable  State::DoNothing  enable immediately" self)
  | PsIdle _ => fp_log ck "transition_to_enable  State::Idle  no change" self
  | PsSendReq _ => fp_log ck "transition_to_enable  State::SendReq  no change" self
  | PsWaitRes _ _ => fp_log ck "transition_to_enable  State::WaitRes  no change" self
  | PsClosing1 => fp_log ck "transition_to_enable  State::Closing1  no change" self
  | PsDone => fp_log ck "transition_to_enable  State::Done  no change" self
  end.

Definition fp_transition_to_disable (ck : Clock) (self : FetchPolling) : FetchPolling :=
  match fp_state self with
  | PsDoNothing => fp_log ck "transition_to_disable  State::DoNothing  no change" self
  | PsIdle _ => fp_transition ck PsDoNothing (fp_log ck "transition_to_disable  State::Idle  goto immediate" self)
  | PsSendReq _ => fp_set_dir (PsSendReq PdDoNothing) (fp_log ck "transition_to_disable  State::Idle  set stdir" self)
  | PsWaitRes to _ => fp_set_dir (PsWaitRes to PdDoNothing) (fp_log ck "transition_to_disable  State::Idle  set stdir" self)
  | PsClosing1 => fp_log ck "transition_to_disable  State::Closing1  no change" self
  | PsDone => fp_log ck "transition_to_disable  State::Done  no change" self
  end.

Definition fp_transition_to_closing (ck : Clock) (self : FetchPolling) : FetchPolling :=
  match fp_state self with
  | PsDoNothing => fp_transition ck PsClosing1 (fp_log ck "transition_to_closing  State::DoNothing  goto Closing1" self)
  | PsIdle _ => fp_transition ck PsClosing1 (fp_log ck "transition_to_closing  State::Idle  goto Closing1" self)
  | PsSendReq _ => fp_transition ck PsClosing1 (fp_log ck "transition_to_closing  State::SendReq  goto Closing1" self)
  | PsWaitRes _ _ => fp_transition ck PsClosing1 (fp_log ck "transition_to_closing  State::Idle  goto Closing1" self)
  | PsClosing1 => fp_log ck "transition_to_closing  State::Idle  no change" self
  | PsDone => fp_log ck "transition_to_closing  State::Done  no change" self
  end.

Definition fp_trigger_closing (ck : Clock) (self : FetchPolling) : FetchPolling := fp_transition_to_closing ck self.

Definition fp_inp_push_try (item : ProtoRxItem) (self : FetchPolling) : FetchPolling * option ProtoRxItem :=
  let '(v, r) := inp_buf_push FETCH_INP_CAP item (fp_inp_buf self) in (fp_set_inp v (fp_inp_done self) self, r).

Definition fp_set_inp_done (self : FetchPolling) : FetchPolling := fp_set_inp (fp_inp_buf self) true self.

(** The value of a read, and the state after it. *)
Definition fp_on_value (ck : Clock) (stdir : PollDir) (v : ReadNotifyRes) (self : FetchPolling) : FetchPolling * FpItem :=
  let self := match stdir with PdDoNothing => fp_transition ck PsDoNothing self | PdNone => fp_to_idle ck self end in
  (self, FpChannelEventValue (mkChannelEventValue (fc_series (fp_chan self)) (ck_wall ck) (CaEventValue_f32_for_binning (rnres_value v)))).

(** The second half of [poll_next], by the state. *)
Definition fp_poll_state (ck : Clock) (progress pending : bool) (self : FetchPolling) :
    FetchPolling * Poll (option (outcome fetch_error FpItem)) :=
  let ret (self : FetchPolling) (progress pending : bool) :=
    (self, if progress then Ready (Some (Ok FpNone)) else hpp_end pending) in
  match fp_state self with
  | PsDoNothing => ret self progress pending
  | PsIdle deadline =>
      if timer_ready ck deadline then ret (fp_transition ck (PsSendReq PdNone) self) true pending else ret self progress true
  | PsSendReq stdir =>
      match Shape_to_ca_count (fc_shape (fp_chan self)) with
      | Ok data_count =>
          let msg := CaMsg_from_ty_ts (CaReadNotify (mkReadNotify (fc_ca_dbr_ty (fp_chan self)) data_count (fc_sid (fp_chan self)) 0)) (ck_now ck) in
          (fp_transition ck (PsWaitRes (LsNew (millis 3000)) stdir) self,
           Ready (Some (Ok (FpProtoOutIoid msg (fc_sid (fp_chan self)) (ck_now ck)))))
      | _ => (self, Ready (Some Panic))
      end
  | PsWaitRes to stdir =>
      let '(to, ready) := lazy_poll ck to in
      if ready : bool then
        match stdir with
        | PdDoNothing => ret (fp_transition ck PsDoNothing self) true pending
        | PdNone => ret (fp_transition ck (PsWaitRes (LsNew (millis 27427)) stdir) self) true pending
        end
      else ret (fp_set_dir (PsWaitRes to stdir) self) progress true
  | PsClosing1 => ret (fp_transition ck PsDone (fp_set_inp_done self)) true pending
  | PsDone => ret self progress pending
  end.

Definition fp_poll_next (ck : Clock) (self : FetchPolling) : FetchPolling * Poll (option (outcome fetch_error FpItem)) :=
  match LocalLog_pop (fp_llog self) with
  | (llog, Some x) => (fp_set_llog llog self, Ready (Some (Ok (FpLocalLog x))))
  | (_, None) =>
      match fp_inp_buf self with
      | item :: inp =>
          let self := fp_set_inp inp (fp_inp_done self) self in
          match fp_state self, cm_ty (prx_msg item) with
          | PsWaitRes _ stdir, CaReadNotifyRes v => let '(self, x) := fp_on_value ck stdir v self in (self, Ready (Some (Ok x)))
          | _, _ => fp_poll_state ck true false self
          end
      | [] => fp_poll_state ck false (negb (fp_inp_done self)) self
      end
  end.

(** ** [FetchMonitoring] *)

Definition SILENCE_MONITOR_WAKEUP : Z := millis 60000.
Definition CREATE_SEND_TIMEOUT : Z := millis 20000.

Inductive MonDir : Type := MdNone | MdDisable | MdEnable | MdClosing.

Inductive MonState : Type :=
  | MsDoNothing
  | MsCreateMonitorSend (stdir : MonDir)
  | MsCreateMonitorRecv (to : Z) (stdir : MonDir)
  | MsMonitoring (to : Z) (stdir : MonDir)
  | MsRemoveMonitorSend (stdir : MonDir)
  | MsRemoveMonitorRecv (to : Z) (stdir : MonDir)
  | MsRemoveSubidSend (stdir : MonDir)
  | MsClosing1
  | MsDone.

Definition MonState_fmt (s : MonState) : string :=
  match s with
  | MsDoNothing => "DoNothing"
  | MsCreateMonitorSend _ => "CreateMonitorSend"
  | MsCreateMonitorRecv _ _ => "CreateMonitorRecv"
  | MsMonitoring _ _ => "Monitoring"
  | MsRemoveMonitorSend _ => "RemoveMonitorSend"
  | MsRemoveMonitorRecv _ _ => "RemoveMonitorRecv"
  | MsRemoveSubidSend _ => "RemoveSubidSend"
  | MsClosing1 => "Closing1"
  | MsDone => "Done"
  end.

Inductive MonitoringItem : Type :=
  | MiProtoOutSubid (m : CaMsg) (ts : Z)
  | MiSubidRemove (cid : Z)
  | MiChannelEventValue (v : ChannelEventValue)
  | MiLocalLog (e : LogEntry).

Record FetchMonitoring : Type := mkFetchMonitoring {
  fm_state : MonState;
  fm_chan : FetchChan;
  fm_inp_buf : list ProtoRxItem;
  fm_inp_done : bool;
  fm_rng : Rng;
  fm_llog : LocalLog
}.

Definition fm_new (chan : FetchChan) : FetchMonitoring := mkFetchMonitoring MsDoNothing chan [] false rng_from_os LocalLog_new.

Definition fm_set_inp (inp : list ProtoRxItem) (inp_done : bool) (self : FetchMonitoring) : FetchMonitoring :=
  mkFetchMonitoring (fm_state self) (fm_chan self) inp inp_done (fm_rng self) (fm_llog self).
Definition fm_set_llog (llog : LocalLog) (self : FetchMonitoring) : FetchMonitoring :=
  mkFetchMonitoring (fm_state self) (fm_chan self) (fm_inp_buf self) (fm_inp_done self) (fm_rng self) llog.
Definition fm_log (ck : Clock) (s : string) (self : FetchMonitoring) : FetchMonitoring :=
  fm_set_llog (LocalLog_push ck s (fm_llog self)) self.

(** The state without a log entry, for a direction and for the last state. *)
Definition fm_set_state (new : MonState) (self : FetchMonitoring) : FetchMonitoring :=
  mkFetchMonitoring new (fm_chan self) (fm_inp_buf self) (fm_inp_done self) (fm_rng self) (fm_llog self).

Definition fm_transition (ck : Clock) (new : MonState) (self : FetchMonitoring) : FetchMonitoring :=
  fm_set_state new (fm_log ck ("transition  " ++ MonState_fmt (fm_state self) ++ " -> " ++ MonState_fmt new) self).

(** A sleep of about a minute, [duration_jitter]. *)
Definition fm_silence (ck : Clock) (self : FetchMonitoring) : FetchMonitoring * Z :=
  let '(dur, rng) := jitter SILENCE_MONITOR_WAKEUP (fm_rng self) in
  (mkFetchMonitoring (fm_state self) (fm_chan self) (fm_inp_buf self) (fm_inp_done self) rng (fm_llog self), sleep ck dur).

Definition fm_transition_to_enable (ck : Clock) (self : FetchMonitoring) : FetchMonitoring :=
  let self := fm_log ck ("transition_to_enable  " ++ MonState_fmt (fm_state self)) self in
  match fm_state self with
  | MsDoNothing => fm_transition ck (MsCreateMonitorSend MdEnable) self
  | MsRemoveMonitorSend _ => fm_set_state (MsRemoveMonitorSend MdEnable) self
  | MsRemoveMonitorRecv to _ => fm_set_state (MsRemoveMonitorRecv to MdEnable) self
  | MsRemoveSubidSend _ => fm_set_state (MsRemoveSubidSend MdEnable) self
  | MsCreateMonitorSend _ | MsCreateMonitorRecv _ _ | MsMonitoring _ _ | MsClosing1 | MsDone => self
  end.

(** [transition_to_disable] and [transition_to_closing]: a monitor that is there,
    or on its way, gets the direction. *)
Definition fm_redirect (ck : Clock) (name : string) (dir : MonDir) (self : FetchMonitoring) : FetchMonitoring :=
  let self := fm_log ck (name ++ "  " ++ MonState_fmt (fm_state self)) self in
  match fm_state self with
  | MsCreateMonitorSend _ => fm_set_state (MsCreateMonitorSend dir) self
  | MsCreateMonitorRecv to _ => fm_set_state (MsCreateMonitorRecv to dir) self
  | MsMonitoring to _ => fm_set_state (MsMonitoring to dir) self
  | MsDoNothing | MsRemoveMonitorSend _ | MsRemoveMonitorRecv _ _ | MsRemoveSubidSend _ | MsClosing1 | MsDone => self
  end.

Definition fm_transition_to_disable (ck : Clock) : FetchMonitoring -> FetchMonitoring := fm_redirect ck "transition_to_disable" MdDisable.
Definition fm_transition_to_closing (ck : Clock) : FetchMonitoring -> FetchMonitoring := fm_redirect ck "transition_to_closing" MdClosing.

Definition fm_trigger_closing (ck : Clock) (self : FetchMonitoring) : FetchMonitoring := fm_transition_to_closing ck self.

Definition fm_inp_push_try (item : ProtoRxItem) (self : FetchMonitoring) : FetchMonitoring * option ProtoRxItem :=
  let '(v, r) := inp_buf_push FETCH_INP_CAP item (fm_inp_buf self) in (fm_set_inp v (fm_inp_done self) self, r).

Definition fm_set_inp_done (self : FetchMonitoring) : FetchMonitoring := fm_set_inp (fm_inp_buf self) true self.

Definition fm_handle_received_item (ck : Clock) (item : ProtoRxItem) (self : FetchMonitoring) : option MonitoringItem :=
  match cm_ty (prx_msg item) with
  | CaEventAddRes v =>
      Some (MiChannelEventValue (mkChannelEventValue (fc_series (fm_chan self)) (ck_wall ck) (CaEventValue_f32_for_binning (evres_value v))))
  | _ => None
  end.

(** [poll_inp], of an item: the item to put out, if any. *)
Definition fm_on_inp (ck : Clock) (item : ProtoRxItem) (self : FetchMonitoring) : FetchMonitoring * option MonitoringItem :=
  match fm_state self with
  | MsCreateMonitorRecv _ stdir =>
      let ret := fm_handle_received_item ck item self in
      let '(self, deadline) := fm_silence ck self in
      (fm_transition ck (MsMonitoring deadline stdir) self, ret)
  | MsMonitoring _ _ | MsRemoveMonitorSend _ => (self, fm_handle_received_item ck item self)
  | MsRemoveMonitorRecv _ stdir =>
      match cm_ty (prx_msg item) with
      | CaEventAddResEmpty _ | CaEventCancelRes _ => (fm_transition ck (MsRemoveSubidSend stdir) self, None)
      | _ => (self, None)
      end
  | MsRemoveSubidSend _ => (fm_set_inp [] (fm_inp_done self) self, None)
  | MsDoNothing | MsCreateMonitorSend _ | MsClosing1 | MsDone => (self, None)
  end.

(** The request of the monitor or its end, with what comes after it. *)
Definition fm_send (ck : Clock) (ty : Z -> CaMsgTy) (stn : MonState) (self : FetchMonitoring) :
    FetchMonitoring * Poll (option (outcome fetch_error MonitoringItem)) :=
  match Shape_to_ca_count (fc_shape (fm_chan self)) with
  | Ok count =>
      (fm_transition ck stn self, Ready (Some (Ok (MiProtoOutSubid (CaMsg_from_ty_ts (ty count) (ck_now ck)) (ck_now ck)))))
  | _ => (self, Ready (Some Panic))
  end.

(** What a state does: it puts something out, or says whether it made progress
    and whether it waits. *)
Definition fm_poll_state (ck : Clock) (self : FetchMonitoring) :
    FetchMonitoring * (Poll (option (outcome fetch_error MonitoringItem)) + bool * bool) :=
  let emit (p : FetchMonitoring * Poll (option (outcome fetch_error MonitoringItem))) := (p.1, inl p.2) in
  let chan := fm_chan self in
  match fm_state self with
  | MsDoNothing => (self, inr (false, false))
  | MsCreateMonitorSend stdir =>
      emit (fm_send ck (fun count => CaEventAdd (mkEventAdd (fc_ca_dbr_ty chan) count (fc_sid chan) 0))
              (MsCreateMonitorRecv (sleep ck CREATE_SEND_TIMEOUT) stdir) self)
  | MsCreateMonitorRecv to _ =>
      if timer_ready ck to then (fm_transition ck MsDoNothing self, inr (true, false)) else (self, inr (false, true))
  | MsMonitoring to stdir =>
      match stdir with
      | MdDisable | MdClosing => (fm_transition ck (MsRemoveMonitorSend stdir) self, inr (true, false))
      | MdEnable =>
          if timer_ready ck to then
            let self := fm_log ck "poll_next_unpin  Monitoring  Timeout  7d956c9" self in
            let '(self, deadline) := fm_silence ck self in
            (fm_transition ck (MsMonitoring deadline stdir) self, inr (true, false))
          else (self, inr (false, true))
      | MdNone => (self, inr (false, false))
      end
  | MsRemoveMonitorSend stdir =>
      emit (fm_send ck (fun count => CaEventCancel (mkEventCancel (fc_ca_dbr_ty chan) count (fc_sid chan) 0))
              (MsRemoveMonitorRecv (sleep ck CREATE_SEND_TIMEOUT) stdir) self)
  | MsRemoveMonitorRecv to _ =>
      if timer_ready ck to then (fm_transition ck MsDoNothing self, inr (true, false)) else (self, inr (false, true))
  | MsRemoveSubidSend stdir =>
      let stn :=
        match stdir with
        | MdNone | MdDisable => MsDoNothing
        | MdEnable => MsCreateMonitorSend stdir
        | MdClosing => MsClosing1
        end in
      emit (fm_transition ck stn self, Ready (Some (Ok (MiSubidRemove (fc_cid chan)))))
  | MsClosing1 => (fm_set_state MsDone (fm_set_inp_done self), inr (true, false))
  | MsDone => (self, inr (false, false))
  end.

(** A turn of [poll_next_unpin], after the log: a message, then the state. *)
Definition fm_turn (ck : Clock) (self : FetchMonitoring) :
    FetchMonitoring * (Poll (option (outcome fetch_error MonitoringItem)) + bool * bool) :=
  match fm_inp_buf self with
  | item :: inp =>
      match fm_on_inp ck item (fm_set_inp inp (fm_inp_done self) self) with
      | (self, Some x) => (self, inl (Ready (Some (Ok x))))
      | (self, None) =>
          match fm_poll_state ck self with
          | (self, inl r) => (self, inl r)
          | (self, inr (_, pending)) => (self, inr (true, pending))
          end
      end
  | [] =>
      match fm_poll_state ck self with
      | (self, inl r) => (self, inl r)
      | (self, inr (progress, pending)) => (self, inr (progress, negb (fm_inp_done self) || pending))
      end
  end.

(** The loop of [poll_next_unpin]. *)
Fixpoint fm_poll_loop (fuel : nat) (ck : Clock) (self : FetchMonitoring) :
    FetchMonitoring * Poll (option (outcome fetch_error MonitoringItem)) :=
  match fuel with
  | O => (self, Ready (Some Panic))
  | S fuel =>
      match LocalLog_pop (fm_llog self) with
      | (llog, Some x) => (fm_set_llog llog self, Ready (Some (Ok (MiLocalLog x))))
      | (_, None) =>
          match fm_turn ck self with
          | (self, inl r) => (self, r)
          | (self, inr (true, _)) => fm_poll_loop fuel ck self
          | (self, inr (false, pending)) => (self, hpp_end pending)
          end
      end
  end.

(** A turn that goes on takes a message, writes to the log, or is the last. *)
Definition fm_poll_next (ck : Clock) (self : FetchMonitoring) : FetchMonitoring * Poll (option (outcome fetch_error MonitoringItem)) :=
  fm_poll_loop (length (fm_inp_buf self) + 3) ck self.

(** ** [Fetchmpx] *)

Inductive fx_error : Type :=
  | FxCreateMonitorUnexpectedMessage
  | FxFetchPolling (e : fetch_error)
  | FxFetchMonitoring (e : fetch_error).

Inductive FetchmpxItem : Type :=
  | FxCaMsgOut (m : CaMsg)
  | FxCaMsgOutIoid (m : CaMsg) (sid ts : Z)
  | FxCaMsgOutSubid (m : CaMsg) (ts : Z)
  | FxSubidRemove (cid : Z)
  | FxLocalLog (e : LogEntry)
  | FxInputDone
  | FxChannelEventValue (v : ChannelEventValue).

Inductive FxState : Type := FxNormal | FxClosing1 | FxDone | FxDone2.

Record Fetchmpx : Type := mkFetchmpx {
  fx_state : FxState;
  fx_polling : FetchPolling;
  fx_monitoring : FetchMonitoring;
  fx_inp_buf : list ProtoRxItem;
  fx_inp_done : bool;
  fx_llog : LocalLog
}.

Definition FX_INP_CAP : nat := 64.

Definition fx_set (st : FxState) (polling : FetchPolling) (monitoring : FetchMonitoring) (inp : list ProtoRxItem) (self : Fetchmpx) : Fetchmpx :=
  mkFetchmpx st polling monitoring inp (fx_inp_done self) (fx_llog self).
Definition fx_set_state (st : FxState) (self : Fetchmpx) : Fetchmpx :=
  fx_set st (fx_polling self) (fx_monitoring self) (fx_inp_buf self) self.

Definition fx_new (ck : Clock) (chan : FetchChan) (is_polled : bool) : Fetchmpx :=
  let polling := fp_new ck chan in
  let monitoring := fm_new chan in
  let '(polling, monitoring) :=
    (if is_polled then (fp_transition_to_enable ck polling, monitoring) else (polling, fm_transition_to_enable ck monitoring)) in
  mkFetchmpx FxNormal polling monitoring [] false LocalLog_new.

Definition fx_trigger_closing (ck : Clock) (self : Fetchmpx) : Fetchmpx :=
  match fx_state self with
  | FxNormal =>
      fx_set FxClosing1 (fp_trigger_closing ck (fx_polling self)) (fm_trigger_closing ck (fx_monitoring self)) (fx_inp_buf self) self
  | FxClosing1 | FxDone | FxDone2 => self
  end.

Definition fx_trigger_remove (ck : Clock) (self : Fetchmpx) : Fetchmpx := fx_trigger_closing ck self.

Definition fx_inp_push_try (item : ProtoRxItem) (self : Fetchmpx) : Fetchmpx * option ProtoRxItem :=
  let '(v, r) := inp_buf_push FX_INP_CAP item (fx_inp_buf self) in
  (fx_set (fx_state self) (fx_polling self) (fx_monitoring self) v self, r).

Definition fx_set_inp_done (self : Fetchmpx) : Fetchmpx :=
  mkFetchmpx (fx_state self) (fp_set_inp_done (fx_polling self)) (fm_set_inp_done (fx_monitoring self)) (fx_inp_buf self) true (fx_llog self).

(** The loop of [poll_inp_dispatch] in the states [Normal] and [Closing1]; the
    messages are handed on until one does not fit. *)
Fixpoint fx_dispatch_loop (ck : Clock) (inp : list ProtoRxItem) (self : Fetchmpx) :
    Fetchmpx * Poll (option (outcome fx_error (option FetchmpxItem))) :=
  let upd (polling : FetchPolling) (monitoring : FetchMonitoring) inp := fx_set (fx_state self) polling monitoring inp self in
  match inp with
  | item :: rest =>
      match cm_ty (prx_msg item) with
      | CaEventAddRes _ | CaEventAddResEmpty _ | CaEventCancelRes _ =>
          match fm_inp_push_try item (fx_monitoring self) with
          | (m, Some x) => (upd (fx_polling self) m (x :: rest), Pending)
          | (m, None) => fx_dispatch_loop ck rest (upd (fx_polling self) m rest)
          end
      | CaReadNotifyRes _ =>
          match fp_inp_push_try item (fx_polling self) with
          | (p, Some x) => (upd p (fx_monitoring self) (x :: rest), Pending)
          | (p, None) => fx_dispatch_loop ck rest (upd p (fx_monitoring self) rest)
          end
      | _ => (upd (fx_polling self) (fx_monitoring self) rest, Ready (Some (Err FxCreateMonitorUnexpectedMessage)))
      end
  | [] =>
      if fx_inp_done self then (fx_trigger_closing ck self, Ready (Some (Ok (Some FxInputDone)))) else (self, Pending)
  end.

Definition fx_poll_inp_dispatch (ck : Clock) (self : Fetchmpx) : Fetchmpx * Poll (option (outcome fx_error (option FetchmpxItem))) :=
  match fx_state self with
  | FxNormal | FxClosing1 => fx_dispatch_loop ck (fx_inp_buf self) self
  | FxDone | FxDone2 => (self, Ready None)
  end.

(** An item of the polling and of the monitoring. *)
Definition fx_of_polling (x : FpItem) : option FetchmpxItem :=
  match x with
  | FpNone => None
  | FpProtoOut m => Some (FxCaMsgOut m)
  | FpProtoOutIoid m sid ts => Some (FxCaMsgOutIoid m sid ts)
  | FpChannelEventValue v => Some (FxChannelEventValue v)
  | FpLocalLog e => Some (FxLocalLog e)
  end.

Definition fx_of_monitoring (x : MonitoringItem) : FetchmpxItem :=
  match x with
  | MiProtoOutSubid m ts => FxCaMsgOutSubid m ts
  | MiSubidRemove cid => FxSubidRemove cid
  | MiChannelEventValue v => FxChannelEventValue v
  | MiLocalLog e => FxLocalLog e
  end.

(** The polls of the monitoring, and before it of the polling: an item to put
    out, or whether there was progress and whether something waits. *)
Definition fx_poll_monitoring (ck : Clock) (progress pending : bool) (self : Fetchmpx) :
    Fetchmpx * (outcome fx_error FetchmpxItem + bool * bool) :=
  let '(m, r) := fm_poll_next ck (fx_monitoring self) in
  let self := fx_set (fx_state self) (fx_polling self) m (fx_inp_buf self) self in
  match r with
  | Ready (Some (Ok x)) => (self, inl (Ok (fx_of_monitoring x)))
  | Ready (Some (Err e)) => (fx_set_state FxDone self, inl (Err (FxFetchMonitoring e)))
  | Ready (Some Panic) => (self, inl Panic)
  | Ready None => (self, inr (progress, pending))
  | Pending => (self, inr (progress, true))
  end.

Definition fx_poll_both (ck : Clock) (progress pending : bool) (self : Fetchmpx) :
    Fetchmpx * (outcome fx_error FetchmpxItem + bool * bool) :=
  let '(p, r) := fp_poll_next ck (fx_polling self) in
  let self := fx_set (fx_state self) p (fx_monitoring self) (fx_inp_buf self) self in
  match r with
  | Ready (Some (Ok x)) =>
      match fx_of_polling x with
      | Some x => (self, inl (Ok x))
      | None => fx_poll_monitoring ck true pending self
      end
  | Ready (Some (Err e)) => (fx_set_state FxDone self, inl (Err (FxFetchPolling e)))
  | Ready (Some Panic) => (self, inl Panic)
  | Ready None => fx_poll_monitoring ck progress pending self
  | Pending => fx_poll_monitoring ck progress true self
  end.

(** A turn of [poll_next] in the states [Normal] and [Closing1]. In [Closing1] the
    input does not keep it waiting. *)
Definition fx_turn (ck : Clock) (closing : bool) (self : Fetchmpx) : Fetchmpx * (outcome fx_error FetchmpxItem + bool * bool) :=
  match fx_poll_inp_dispatch ck self with
  | (self, Ready (Some (Ok (Some x)))) => (self, inl (Ok x))
  | (self, Ready (Some (Ok None))) => fx_poll_both ck true false self
  | (self, Ready (Some (Err _))) => fx_poll_both ck true false (fx_set_state FxDone self)
  | (self, Ready (Some Panic)) => (self, inl Panic)
  | (self, Ready None) => fx_poll_both ck false false self
  | (self, Pending) => fx_poll_both ck false (negb closing) self
  end.

(** The loop of [poll_next]. *)
Fixpoint fx_poll_loop (fuel : nat) (ck : Clock) (self : Fetchmpx) : Fetchmpx * Poll (option (outcome fx_error FetchmpxItem)) :=
  match fuel with
  | O => (self, Ready (Some Panic))
  | S fuel =>
      match LocalLog_pop (fx_llog self) with
      | (llog, Some x) =>
          (mkFetchmpx (fx_state self) (fx_polling self) (fx_monitoring self) (fx_inp_buf self) (fx_inp_done self) llog,
           Ready (Some (Ok (FxLocalLog x))))
      | (_, None) =>
          match fx_state self with
          | FxDone => (fx_set_state FxDone2 self, Ready None)
          | FxDone2 => (self, Ready None)
          | st =>
              let closing := match st with FxClosing1 => true | _ => false end in
              match fx_turn ck closing self with
              | (self, inl x) => (self, Ready (Some x))
              | (self, inr (true, _)) => fx_poll_loop fuel ck self
              | (self, inr (false, pending)) => (if closing && negb pending then fx_set_state FxDone self else self, hpp_end pending)
              end
          end
      end
  end.

(** A turn that goes on hands messages on, or the polling makes a step without
    an item. *)
Definition fx_poll_next (ck : Clock) (self : Fetchmpx) : Fetchmpx * Poll (option (outcome fx_error FetchmpxItem)) :=
  fx_poll_loop (length (fx_inp_buf self) + length (fp_inp_buf (fx_polling self)) + 5) ck self.
End Fetch.
