(* ===== verification/Handler.v ===== *)
(** * The handler of a channel

    [ChannelHandler] of
    [daqbuf-netfetch/src/ca/conn2/conn/channelheap/channelhandler.rs]: it creates
    the channel on the server ([create.rs]), runs it ([running.rs] with
    [HandlerFetch]) and closes it. [handler_ops] makes it the handler of the
    channels of a connection ([CaHeap]).

    What comes from outside between the polls: messages of the server, the end of
    them, commands, the answer of the series registry, and the time. Wakers,
    metrics, the reports of state and the creation time of an item, which only
    measures performance, are left out. An error while the channel is created
    ends the process ([std::process::exit]): a panic here. *)
From Stdlib Require Import ZArith Lia String.
From stdpp Require Import base numbers option strings list gmap.
From S2P Require Import Prelude TimeTypes NetpodTypes Retention Items Utf8 Floats CaProto CaHeap HandlerFetch.

#[local] Open Scope Z_scope.
#[local] Open Scope rust_scope.

(** ** [Creating] *)

Record ChannelInfoQuery : Type := mkChannelInfoQuery {
  ciq_backend : string;
  ciq_channel : string;
  ciq_kind : SeriesKind;
  ciq_scalar_type : ScalarType;
  ciq_shape : Shape
}.

Record ChannelInfoResult : Type := mkChannelInfoResult { cir_backend : string; cir_channel : string; cir_series : Z }.

(** The receiving end of the answer: nothing yet, the sender is gone, or the
    answer. *)
Definition InfoRx : Type := Poll (option (outcome unit ChannelInfoResult)).

Inductive create_error : Type :=
  | CreateUnexpectedMessage
  | RecvChannelInfoResult
  | TimeoutCreateChanSend
  | TimeoutCreateChanRecv
  | TimeoutSeriesIdRecv
  | CreateLogic
  | CreateRegister.

Inductive CreatingItem : Type :=
  | CiCaMsgOut (m : CaMsg)
  | CiChannelInfoQuery (q : ChannelInfoQuery)
  | CiDone (sid : Z) (scalar_type : ScalarType) (shape : Shape) (ca_dbr_ty : Z) (chi : ChannelInfoResult).

Inductive CreateState : Type :=
  | CsCreateChanSend (msgs : list CaMsg) (to : Z)
  | CsCreateChanRecv (to : Z)
  | CsSeriesIdRecv (rx : InfoRx) (sid : Z) (scalar_type : ScalarType) (shape : Shape) (ca_dbr_ty : Z) (to : Z)
  | CsDone.

Record Creating : Type := mkCreating {
  cr_cid : Z;
  cr_name : string;
  cr_backend : string;
  cr_state : CreateState;
  cr_removing : bool;
  cr_inp_buf : list ProtoRxItem;
  cr_inp_done : bool
}.

Definition CREATE_INP_CAP : nat := 16.

Definition cr_set (st : CreateState) (inp : list ProtoRxItem) (self : Creating) : Creating :=
  mkCreating (cr_cid self) (cr_name self) (cr_backend self) st (cr_removing self) inp (cr_inp_done self).

Definition cr_new (ck : Clock) (cid : Z) (name backend : string) : Creating :=
  let msg := CaMsg_from_ty_ts (CaCreateChan (mkCreateChan cid (bytes_of_string name))) (ck_now ck) in
  mkCreating cid name backend (CsCreateChanSend [msg] (sleep ck (millis 8000))) false [] false.

Definition cr_name_short (self : Creating) : string :=
  if cr_removing self then "Creating { removing: true }" else "Creating { }".

Definition cr_set_removing (self : Creating) : Creating :=
  mkCreating (cr_cid self) (cr_name self) (cr_backend self) (cr_state self) true (cr_inp_buf self) (cr_inp_done self).

Definition cr_poll_inp_push (item : ProtoRxItem) (self : Creating) : Creating * option ProtoRxItem :=
  let '(v, r) := inp_buf_push CREATE_INP_CAP item (cr_inp_buf self) in (cr_set (cr_state self) v self, r).

Definition cr_set_inp_done (self : Creating) : Creating :=
  mkCreating (cr_cid self) (cr_name self) (cr_backend self) (cr_state self) (cr_removing self) (cr_inp_buf self) true.

(** The answer arrives. *)
Definition cr_info_arrives (x : option (outcome unit ChannelInfoResult)) (self : Creating) : Creating :=
  match cr_state self with
  | CsSeriesIdRecv Pending sid t shape dbr to => cr_set (CsSeriesIdRecv (Ready x) sid t shape dbr to) (cr_inp_buf self) self
  | _ => self
  end.

(** A message in [CreateChanRecv]: nothing follows from it, or what is put out. *)
Definition cr_on_msg (ck : Clock) (to : Z) (ty : CaMsgTy) (self : Creating) : Creating * option (outcome create_error CreatingItem) :=
  let unexpected := (self, Some (Err CreateUnexpectedMessage)) in
  match ty with
  | CaCreateChanRes k =>
      if 6 <? ccres_data_type k then unexpected
      else
        let ca_dbr_type := ccres_data_type k + 14 in
        match ScalarType_from_ca_id (ccres_data_type k) with
        | Ok scalar_type =>
            match Shape_from_ca_count (ccres_data_count k) with
            | Ok shape =>
                (cr_set (CsSeriesIdRecv Pending (ccres_sid k) scalar_type shape ca_dbr_type to) (cr_inp_buf self) self,
                 Some (Ok (CiChannelInfoQuery (mkChannelInfoQuery (cr_backend self) (cr_name self) ChannelData scalar_type shape))))
            | _ => unexpected
            end
        | _ => unexpected
        end
  | CaCreateChanFail _ => unexpected
  | CaAccessRightsRes _ => (self, None)
  | _ => unexpected
  end.

(** The loop of [poll_next]. *)
Fixpoint cr_poll_loop (fuel : nat) (ck : Clock) (self : Creating) : Creating * Poll (option (outcome create_error CreatingItem)) :=
  match fuel with
  | O => (self, Ready (Some Panic))
  | S fuel =>
      let fail e := (cr_set CsDone (cr_inp_buf self) self, Ready (Some (Err e))) in
      match cr_state self with
      | CsCreateChanSend msgs to =>
          if timer_ready ck to then fail TimeoutCreateChanSend
          else
            match msgs with
            | m :: msgs => (cr_set (CsCreateChanSend msgs to) (cr_inp_buf self) self, Ready (Some (Ok (CiCaMsgOut m))))
            | [] => cr_poll_loop fuel ck (cr_set (CsCreateChanRecv to) (cr_inp_buf self) self)
            end
      | CsCreateChanRecv to =>
          if timer_ready ck to then fail TimeoutCreateChanRecv
          else
            match cr_inp_buf self with
            | item :: inp =>
                match cr_on_msg ck to (cm_ty (prx_msg item)) (cr_set (cr_state self) inp self) with
                | (self, Some x) => (self, Ready (Some x))
                | (self, None) => cr_poll_loop fuel ck self
                end
            | [] => if cr_inp_done self then cr_poll_loop fuel ck (cr_set CsDone [] self) else (self, Pending)
            end
      | CsSeriesIdRecv rx sid scalar_type shape ca_dbr_ty to =>
          if timer_ready ck to then fail TimeoutSeriesIdRecv
          else
            match rx with
            | Ready (Some (Ok x)) => (cr_set CsDone (cr_inp_buf self) self, Ready (Some (Ok (CiDone sid scalar_type shape ca_dbr_ty x))))
            | Ready (Some (Err _)) => fail CreateRegister
            | Ready (Some Panic) => (self, Ready (Some Panic))
            | Ready None => fail RecvChannelInfoResult
            | Pending => (self, Pending)
            end
      | CsDone => (self, Ready (Some (Err CreateLogic)))
      end
  end.

(** A turn that goes on changes the state or takes a message. *)
Definition cr_poll_next (ck : Clock) (self : Creating) : Creating * Poll (option (outcome create_error CreatingItem)) :=
  cr_poll_loop (length (cr_inp_buf self) + 4) ck self.

(** ** [Running] *)

Inductive running_error : Type := RunUnexpectedMessage.

Inductive RunningItem : Type :=
  | RiCaMsgOut (m : CaMsg)
  | RiCaMsgOutIoid (m : CaMsg) (sid ts : Z)
  | RiCaMsgOutSubid (m : CaMsg) (ts : Z)
  | RiSubidRemove (cid : Z)
  | RiLocalLog (e : LogEntry)
  | RiChannelEventValue (v : ChannelEventValue).

Section Handler.
Context `{RngOps}.

Inductive RunState : Type :=
  | RsNormal (fx : Fetchmpx)
  | RsDone.

Record Running : Type := mkRunning {
  rn_state : RunState;
  rn_cid : Z;
  rn_sid : Z;
  rn_chi : ChannelInfoResult;
  rn_removing : bool;
  rn_chan_close_ack : bool;
  rn_inp_buf : list ProtoRxItem;
  rn_inp_done : bool
}.

Definition RUNNING_INP_CAP : nat := 64.

Definition rn_set (st : RunState) (ack : bool) (inp : list ProtoRxItem) (self : Running) : Running :=
  mkRunning st (rn_cid self) (rn_sid self) (rn_chi self) (rn_removing self) ack inp (rn_inp_done self).
Definition rn_set_state (st : RunState) (self : Running) : Running := rn_set st (rn_chan_close_ack self) (rn_inp_buf self) self.

Definition rn_new (ck : Clock) (cid sid : Z) (scalar_type : ScalarType) (shape : Shape) (ca_dbr_ty : Z) (chi : ChannelInfoResult)
    (is_polled : bool) : Running :=
  mkRunning (RsNormal (fx_new ck (mkFetchChan (cir_series chi) cid sid scalar_type shape ca_dbr_ty) is_polled)) cid sid chi false false [] false.

Definition rn_trigger_remove (ck : Clock) (self : Running) : Running :=
  let st := match rn_state self with RsNormal x => RsNormal (fx_trigger_remove ck x) | RsDone => RsDone end in
  mkRunning st (rn_cid self) (rn_sid self) (rn_chi self) true (rn_chan_close_ack self) (rn_inp_buf self) (rn_inp_done self).

Definition rn_inp_push_try (item : ProtoRxItem) (self : Running) : Running * option ProtoRxItem :=
  let '(v, r) := inp_buf_push RUNNING_INP_CAP item (rn_inp_buf self) in (rn_set (rn_state self) (rn_chan_close_ack self) v self, r).

Definition rn_set_inp_done (self : Running) : Running :=
  let st := match rn_state self with RsNormal x => RsNormal (fx_set_inp_done x) | RsDone => RsDone end in
  mkRunning st (rn_cid self) (rn_sid self) (rn_chi self) (rn_removing self) (rn_chan_close_ack self) (rn_inp_buf self) true.

(** The messages that go on to the fetching. *)
Definition rn_to_mpx (ty : CaMsgTy) : bool :=
  match ty with CaEventAddRes _ | CaEventAddResEmpty _ | CaReadNotifyRes _ => true | _ => false end.

(** The loop of [poll_inp_dispatch], in the state [Normal]. *)
Fixpoint rn_dispatch_loop (inp : list ProtoRxItem) (fx : Fetchmpx) (self : Running) : Running * Poll (option (outcome running_error unit)) :=
  match inp with
  | item :: rest =>
      if rn_to_mpx (cm_ty (prx_msg item)) then
        match fx_inp_push_try item fx with
        | (fx, Some x) => (rn_set (RsNormal fx) (rn_chan_close_ack self) (x :: rest) self, Pending)
        | (fx, None) => rn_dispatch_loop rest fx (rn_set (RsNormal fx) (rn_chan_close_ack self) rest self)
        end
      else
        match cm_ty (prx_msg item) with
        | CaChannelCloseRes _ => rn_dispatch_loop rest fx (rn_set (RsNormal fx) (rn_removing self || rn_chan_close_ack self) rest self)
        | _ => (rn_set (RsNormal fx) (rn_chan_close_ack self) rest self, Ready (Some (Err RunUnexpectedMessage)))
        end
  | [] => (self, if rn_inp_done self then Ready None else Pending)
  end.

Definition rn_poll_inp_dispatch (self : Running) : Running * Poll (option (outcome running_error unit)) :=
  match rn_state self with
  | RsNormal fx => rn_dispatch_loop (rn_inp_buf self) fx self
  | RsDone => (self, Ready None)
  end.

Definition rn_of_fx (x : FetchmpxItem) : option RunningItem :=
  match x with
  | FxCaMsgOut m => Some (RiCaMsgOut m)
  | FxCaMsgOutIoid m sid ts => Some (RiCaMsgOutIoid m sid ts)
  | FxCaMsgOutSubid m ts => Some (RiCaMsgOutSubid m ts)
  | FxSubidRemove cid => Some (RiSubidRemove cid)
  | FxLocalLog e => Some (RiLocalLog e)
  | FxChannelEventValue v => Some (RiChannelEventValue v)
  | FxInputDone => None
  end.

(** A turn of [poll_next]: the messages are handed on, then the fetching is
    polled. It ends the poll, or the loop goes on. *)
Definition rn_turn (ck : Clock) (self : Running) : Running * (Poll (option (outcome running_error RunningItem)) + unit) :=
  match rn_state self with
  | RsDone => (self, inl (Ready None))
  | RsNormal _ =>
      let '(self, progress) :=
        match rn_poll_inp_dispatch self with
        | (self, Ready (Some (Ok tt))) => (self, true)
        | (self, Ready _) => (rn_set_state RsDone self, true)
        | (self, Pending) => (self, false)
        end in
      match rn_state self with
      | RsDone => (self, inr tt)
      | RsNormal fx =>
          let '(fx, r) := fx_poll_next ck fx in
          let self := rn_set_state (RsNormal fx) self in
          match r with
          | Ready (Some (Ok x)) =>
              match rn_of_fx x with
              | Some x => (self, inl (Ready (Some (Ok x))))
              | None => (self, inr tt)
              end
          | Ready (Some Panic) => (self, inl (Ready (Some Panic)))
          | Ready _ => (rn_set_state RsDone self, inr tt)
          | Pending => (self, if progress : bool then inr tt else inl Pending)
          end
      end
  end.

(** The loop of [poll_next]. *)
Fixpoint rn_poll_loop (fuel : nat) (ck : Clock) (self : Running) : Running * Poll (option (outcome running_error RunningItem)) :=
  match fuel with
  | O => (self, Ready (Some Panic))
  | S fuel => match rn_turn ck self with (self, inl r) => (self, r) | (self, inr tt) => rn_poll_loop fuel ck self end
  end.

(** A turn that goes on is the last of the fetching, or the one before. *)
Definition rn_poll_next (ck : Clock) (self : Running) : Running * Poll (option (outcome running_error RunningItem)) := rn_poll_loop 4 ck self.

(** ** [ChannelHandler] *)

Inductive handler_error : Type :=
  | HandlerProtoRxClosed
  | HandlerRunning (e : running_error)
  | HandlerLogic.

(** The future of [Closing1] is ready at once; [hc_fut] says whether it is still
    there. *)
Inductive HandlerState : Type :=
  | HsInit
  | HsCreating (st : Creating)
  | HsRunning (st : Running)
  | HsClosing1 (chan_close_ack hc_fut : bool) (to : Z)
  | HsClosing2
  | HsDone1
  | HsDone.

(** [Remove], with a sender for the answer. *)
Inductive HandlerCmd : Type := CmdRemove | CmdChannelHandlerStatus.

Inductive HandlerData : Type :=
  | HdChannelInfoQuery (q : ChannelInfoQuery)
  | HdLocalLog (e : LogEntry)
  | HdChannelStatus (s : ChannelStatus)
  | HdChannelEventValue (v : ChannelEventValue).

Definition HandlerItem : Type := ChItemInner HandlerData.

(** [hd_removing]: there is someone to answer to; [hd_answers]: how often that
    was done. The sending end of the commands is in the handler itself, so the
    commands never end. *)
Record ChannelHandler : Type := mkChannelHandler {
  hd_state : HandlerState;
  hd_removing : bool;
  hd_answers : nat;
  hd_cid : Z;
  hd_backend : string;
  hd_name : string;
  hd_is_polled : bool;
  hd_inp_buf : list ProtoRxItem;
  hd_inp_done : bool;
  hd_cmds : list HandlerCmd;
  hd_outbuf : list HandlerItem
}.

Definition HANDLER_INP_CAP : nat := 64.
Definition HANDLER_CMD_CAP : nat := 16.

Definition hd_new (cid : Z) (backend name : string) (is_polled : bool) : ChannelHandler :=
  mkChannelHandler HsInit false 0 cid backend name is_polled [] false [] [].

Definition hd_set (st : HandlerState) (inp : list ProtoRxItem) (self : ChannelHandler) : ChannelHandler :=
  mkChannelHandler st (hd_removing self) (hd_answers self) (hd_cid self) (hd_backend self) (hd_name self) (hd_is_polled self) inp
    (hd_inp_done self) (hd_cmds self) (hd_outbuf self).
Definition hd_set_state (st : HandlerState) (self : ChannelHandler) : ChannelHandler := hd_set st (hd_inp_buf self) self.
Definition hd_set_removing (removing : bool) (answers : nat) (self : ChannelHandler) : ChannelHandler :=
  mkChannelHandler (hd_state self) removing answers (hd_cid self) (hd_backend self) (hd_name self) (hd_is_polled self)
    (hd_inp_buf self) (hd_inp_done self) (hd_cmds self) (hd_outbuf self).
Definition hd_set_cmds (cmds : list HandlerCmd) (self : ChannelHandler) : ChannelHandler :=
  mkChannelHandler (hd_state self) (hd_removing self) (hd_answers self) (hd_cid self) (hd_backend self) (hd_name self)
    (hd_is_polled self) (hd_inp_buf self) (hd_inp_done self) cmds (hd_outbuf self).

Definition hd_sid (self : ChannelHandler) : option Z := match hd_state self with HsRunning st => Some (rn_sid st) | _ => None end.

(** A command is sent, if there is space. *)
Definition hd_cmd_try_send (c : HandlerCmd) (self : ChannelHandler) : option ChannelHandler :=
  if (length (hd_cmds self) <? HANDLER_CMD_CAP)%nat then Some (hd_set_cmds (hd_cmds self ++ [c]) self) else None.

(** [None] is a panic. *)
Definition hd_handle_cmd_remove (ck : Clock) (self : ChannelHandler) : option ChannelHandler :=
  let self := hd_set_removing true (hd_answers self) self in
  match hd_state self with
  | HsInit => Some (hd_set_state HsDone1 self)
  | HsCreating _ => None
  | HsRunning st => Some (hd_set_state (HsRunning (rn_trigger_remove ck st)) self)
  | HsClosing1 _ _ _ | HsClosing2 => Some self
  | HsDone1 | HsDone => None
  end.

Definition hd_handle_cmd (ck : Clock) (cmd : HandlerCmd) (self : ChannelHandler) : option ChannelHandler :=
  match cmd with
  | CmdRemove => if hd_removing self then Some self else hd_handle_cmd_remove ck self
  | CmdChannelHandlerStatus => Some self
  end.

Definition hd_inp_push_try (item : ProtoRxItem) (self : ChannelHandler) : ChannelHandler * option CaMsg :=
  let '(v, r) := inp_buf_push HANDLER_INP_CAP item (hd_inp_buf self) in (hd_set (hd_state self) v self, prx_msg <$> r).

(** [None] is a panic ([todo!()]). *)
Definition hd_inp_done_set (self : ChannelHandler) : option ChannelHandler :=
  let upd st :=
    mkChannelHandler st (hd_removing self) (hd_answers self) (hd_cid self) (hd_backend self) (hd_name self) (hd_is_polled self)
      (hd_inp_buf self) true (hd_cmds self) (hd_outbuf self) in
  match hd_state self with
  | HsInit => Some (upd HsInit)
  | HsCreating st => Some (upd (HsCreating (cr_set_inp_done st)))
  | HsRunning st => Some (upd (HsRunning (rn_set_inp_done st)))
  | HsClosing1 _ _ _ | HsClosing2 => None
  | HsDone1 => Some (upd HsDone1)
  | HsDone => Some (upd HsDone)
  end.

(** The loop of [poll_proto_rx_creating]: the messages, how many of them went in,
    and how it ended. *)
Fixpoint hd_poll_proto_rx_creating (inp : list ProtoRxItem) (done : bool) (idp : nat) (st : Creating) :
    list ProtoRxItem * Creating * Poll (option (outcome handler_error nat)) :=
  let pending := if (0 <? idp)%nat then Ready (Some (Ok idp)) else Pending in
  match inp with
  | item :: rest =>
      match cr_poll_inp_push item st with
      | (st, Some x) => (x :: rest, st, pending)
      | (st, None) => hd_poll_proto_rx_creating rest done (S idp) st
      end
  | [] => ([], st, if done then Ready (Some (Err HandlerProtoRxClosed)) else pending)
  end.

(** The messages that [Running] takes: those left, and whether it took one. *)
Fixpoint hd_push_running (inp : list ProtoRxItem) (progress : bool) (st : Running) : list ProtoRxItem * Running * bool * bool :=
  match inp with
  | item :: rest =>
      match rn_inp_push_try item st with
      | (st, Some x) => (x :: rest, st, progress, true)
      | (st, None) => hd_push_running rest true st
      end
  | [] => ([], st, progress, false)
  end.

Definition hd_of_running (x : RunningItem) : HandlerItem :=
  match x with
  | RiCaMsgOut m => ItProtoOut m
  | RiCaMsgOutIoid m sid ts => ItProtoOutIoid m sid ts
  | RiCaMsgOutSubid m ts => ItProtoOutSubid m ts
  | RiSubidRemove cid => ItSubidRemove cid
  | RiLocalLog e => ItLocalLog (HdLocalLog e)
  | RiChannelEventValue v => ItChannelEventValue (HdChannelEventValue v)
  end.

(** A part of a turn puts out an item, fails or panics, or says whether it made
    progress; without progress it waits, for commands at least. *)
Definition HandlerTurn : Type := ChannelHandler * (outcome handler_error HandlerItem + bool).

Definition hd_turn_creating (ck : Clock) (progress : bool) (st : Creating) (self : ChannelHandler) : HandlerTurn :=
  let '(inp, st, r) := hd_poll_proto_rx_creating (hd_inp_buf self) (hd_inp_done self) 0 st in
  match r with
  | Ready (Some (Err e)) => (hd_set HsDone1 inp self, inl (Err e))
  | _ =>
      let progress := match r with Ready (Some _) => true | _ => progress end in
      let '(st, r) := cr_poll_next ck st in
      let self := hd_set (HsCreating st) inp self in
      match r with
      | Ready (Some (Ok (CiCaMsgOut m))) => (self, inl (Ok (ItProtoOut m)))
      | Ready (Some (Ok (CiChannelInfoQuery q))) => (self, inl (Ok (ItChannelInfoQuery (HdChannelInfoQuery q))))
      | Ready (Some (Ok (CiDone sid scalar_type shape ca_dbr_ty chi))) =>
          (hd_set_state (HsRunning (rn_new ck (hd_cid self) sid scalar_type shape ca_dbr_ty chi (hd_is_polled self))) self, inr true)
      | Ready (Some _) => (self, inl Panic)
      | Ready None | Pending => (self, inr progress)
      end
  end.

Definition hd_turn_running (ck : Clock) (progress : bool) (st : Running) (self : ChannelHandler) : HandlerTurn :=
  let '(inp, st, progress, _) := hd_push_running (hd_inp_buf self) progress st in
  let '(st, r) := rn_poll_next ck st in
  let self := hd_set (HsRunning st) inp self in
  match r with
  | Ready (Some (Ok x)) => (self, inl (Ok (hd_of_running x)))
  | Ready (Some (Err e)) => (hd_set_state HsDone1 self, inl (Err (HandlerRunning e)))
  | Ready (Some Panic) => (self, inl Panic)
  | Ready None =>
      let msg := CaMsg_from_ty_ts (CaChannelClose (mkChannelClose (rn_sid st) (hd_cid self))) (ck_now ck) in
      (hd_set_state (HsClosing1 false true (sleep ck (millis 2000))) self, inl (Ok (ItProtoOut msg)))
  | Pending => (self, inr progress)
  end.

Definition hd_turn_closing1 (ck : Clock) (progress ack fut : bool) (to : Z) (self : ChannelHandler) : HandlerTurn :=
  let '(inp, ack, progress) :=
    match hd_inp_buf self with
    | item :: inp => (inp, match cm_ty (prx_msg item) with CaChannelCloseRes _ => true | _ => ack end, true)
    | [] => ([], ack, progress)
    end in
  let progress := fut || progress in
  if ack || timer_ready ck to then (hd_set HsClosing2 inp self, inr true)
  else (hd_set (HsClosing1 ack false to) inp self, inr progress).

Definition hd_turn (ck : Clock) (progress : bool) (self : ChannelHandler) : HandlerTurn :=
  match hd_state self with
  | HsInit => (hd_set_state (HsCreating (cr_new ck (hd_cid self) (hd_name self) (hd_backend self))) self, inr true)
  | HsCreating st => hd_turn_creating ck progress st self
  | HsRunning st => hd_turn_running ck progress st self
  | HsClosing1 ack fut to => hd_turn_closing1 ck progress ack fut to self
  | HsClosing2 => (hd_set_state HsDone1 self, inr true)
  | HsDone1 =>
      let answers := if hd_removing self then S (hd_answers self) else hd_answers self in
      (hd_set_state HsDone (hd_set_removing (hd_removing self) answers self), inr true)
  | HsDone => (self, inr progress)
  end.

(** The loop of [poll_next]: an item, a command, then the state. Without a
    command the handler waits for one. *)
Fixpoint hd_poll_loop (fuel : nat) (ck : Clock) (self : ChannelHandler) : ChannelHandler * Poll (option (outcome handler_error HandlerItem)) :=
  match fuel with
  | O => (self, Ready (Some Panic))
  | S fuel =>
      match hd_outbuf self with
      | x :: out =>
          (mkChannelHandler (hd_state self) (hd_removing self) (hd_answers self) (hd_cid self) (hd_backend self) (hd_name self)
             (hd_is_polled self) (hd_inp_buf self) (hd_inp_done self) (hd_cmds self) out, Ready (Some (Ok x)))
      | [] =>
          let cmd :=
            match hd_cmds self with
            | c :: cmds =>
                let self := hd_set_cmds cmds self in
                match hd_state self with
                | HsDone => Some (self, true)
                | _ => (fun s => (s, true)) <$> hd_handle_cmd ck c self
                end
            | [] => Some (self, false)
            end in
          match cmd with
          | None => (self, Ready (Some Panic))
          | Some (self, progress) =>
              match hd_turn ck progress self with
              | (self, inl x) => (self, Ready (Some x))
              | (self, inr true) => hd_poll_loop fuel ck self
              | (self, inr false) => (self, Pending)
              end
          end
      end
  end.

(** A turn that goes on takes a command or a message, or the state gets further:
    there are seven. *)
Definition hd_poll_next (ck : Clock) (self : ChannelHandler) : ChannelHandler * Poll (option (outcome handler_error HandlerItem)) :=
  hd_poll_loop (length (hd_cmds self) + length (hd_inp_buf self) + 10) ck self.
End Handler.

(** ** The handler as the heap of channels sees it *)

(** What the handlers and the heap take from outside: the identifiers, the
    configuration of the channels, and the heap's own parameters. *)
Class HandlerEnv : Type := {
  he_rng :: RngOps;
  he_cid : string -> Z;
  he_backend : string;
  he_is_polled : string -> bool;
  he_start : Clock;
  he_heap_now : nat -> Z;
  he_heap_cmd_fut : nat -> Poll (outcome unit unit);
  he_heap_order : gset Z -> list Z
}.

(** A handler with the time that its next poll sees. *)
Definition clocked_poll_next `{RngOps} (h : Clock * ChannelHandler) :
    Clock * ChannelHandler * Poll (option (outcome unit HandlerItem)) :=
  let '(self, r) := hd_poll_next h.1 h.2 in
  (h.1, self,
   match r with
   | Ready (Some x) => Ready (Some (map_err (fun _ => tt) x))
   | Ready None => Ready None
   | Pending => Pending
   end).

#[export] Instance handler_ops `{HandlerEnv} : ChannelHandlerOps := {|
  ch_handler := Clock * ChannelHandler;
  ch_data := HandlerData;
  ch_new name := (he_start, hd_new (he_cid name) he_backend name (he_is_polled name));
  ch_cid h := hd_cid h.2;
  ch_sid h := hd_sid h.2;
  ch_inp_push_try item h := let '(self, r) := hd_inp_push_try item h.2 in (h.1, self, r);
  ch_inp_done h := self ← hd_inp_done_set h.2; Some (h.1, self);
  ch_poll_next := clocked_poll_next;
  heap_now := he_heap_now;
  heap_cmd_fut := he_heap_cmd_fut;
  heap_order := he_heap_order
|}.
