(* ===== verification/HandlerFetchProofs.v ===== *)
(** * What the fetching of values puts out

    [fp_left], [fm_left], [fx_left]: a bound on the items that are put out while
    the clock stands still and nothing comes in. *)
From Stdlib Require Import ZArith Lia String.
From stdpp Require Import base numbers option strings list.
From S2P Require Import Prelude TimeTypes NetpodTypes Retention Items Floats CaProto CaHeap HandlerFetch.

#[local] Open Scope Z_scope.
#[local] Open Scope rust_scope.

Definition log_len (l : LocalLog) : nat := length (ll_buf l).

Lemma LocalLog_push_len ck s l : (log_len (LocalLog_push ck s l) <= log_len l + 1)%nat.
Proof.
  unfold log_len, LocalLog_push, LocalLog_check_truncate. destruct (_ <=? _)%nat; cbn [ll_buf]; rewrite length_app; [rewrite length_drop|]; cbn; lia.
Qed.

Lemma LocalLog_push_pop ck s l : exists l' x, LocalLog_pop (LocalLog_push ck s l) = (l', Some x).
Proof.
  unfold LocalLog_pop, LocalLog_push. cbn [ll_buf]. destruct (ll_buf (LocalLog_check_truncate l)); cbn; eauto.
Qed.

Lemma LocalLog_pop_spec l :
  match LocalLog_pop l with
  | (l', Some _) => (log_len l' + 1 = log_len l)%nat
  | (l', None) => l' = l /\ log_len l = 0%nat
  end.
Proof. destruct l as [e c [|x b]]; cbn; [done|]. unfold log_len. cbn. lia. Qed.

Lemma inp_buf_push_spec {A} cap (x : A) v :
  inp_buf_push cap x v = if (length v <? cap)%nat then (v ++ [x], None) else (v, Some x).
Proof. done. Qed.

(** A deadline in the future does not ring. *)
Lemma sleep_not_ready ck d : 0 < d -> timer_ready ck (sleep ck d) = false.
Proof. intros Hd. unfold timer_ready, sleep. apply Z.leb_gt. lia. Qed.

Lemma lazy_new_not_ready ck d : 0 < d -> (lazy_poll ck (LsNew d)).2 = false.
Proof. apply sleep_not_ready. Qed.

Lemma lazy_poll_again ck t : (lazy_poll ck (lazy_poll ck t).1).2 = (lazy_poll ck t).2.
Proof. by destruct t. Qed.

Section Fetch.
Context `{RngOps}.

Lemma jitter_pos dur rng : 0 < dur -> 1024 <= 896 * dur -> 0 < (jitter dur rng).1.
Proof.
  intros Hd Hl. unfold jitter. destruct (rng_next_u32 rng) as [x r']. cbn [fst].
  assert (0 <= Z.land x 255) by (apply Z.land_nonneg; lia). apply Z.div_str_pos. change (1024 - 1024 / 8) with 896. nia.
Qed.

(** ** Polling *)

Definition fp_pot (ck : Clock) (s : PollState) : nat :=
  match s with
  | PsDoNothing | PsDone => 0
  | PsIdle d => if timer_ready ck d then 3 else 0
  | PsSendReq _ => 2
  | PsWaitRes to _ => if (lazy_poll ck to).2 then 1 else 0
  | PsClosing1 => 1
  end%nat.

Definition fp_base (p : FetchPolling) : nat := (log_len (fp_llog p) + 5 * length (fp_inp_buf p))%nat.
Definition fp_left (ck : Clock) (p : FetchPolling) : nat := (fp_base p + fp_pot ck (fp_state p))%nat.

Definition fp_post (ck : Clock) (left : nat) (r : FetchPolling * Poll (option (outcome fetch_error FpItem))) : Prop :=
  match r with
  | (p, Ready (Some (Ok FpNone))) | (p, Ready None) | (p, Pending) => (fp_left ck p <= left)%nat
  | (p, Ready (Some (Ok _))) => (fp_left ck p < left)%nat
  | (_, Ready (Some _)) => True
  end.

Lemma fp_transition_left ck st p : (fp_left ck (fp_transition ck st p) <= fp_base p + 1 + fp_pot ck st)%nat.
Proof.
  unfold fp_left, fp_base. cbn [fp_transition fp_llog fp_inp_buf fp_state].
  pose proof (LocalLog_push_len ck ("transition  " ++ PollState_fmt (fp_state p) ++ " -> " ++ PollState_fmt st) (fp_llog p)). lia.
Qed.

Lemma fp_next_base ck p : fp_base (fp_next_poll_instant_jitter ck p).1 = fp_base p.
Proof. unfold fp_next_poll_instant_jitter. by repeat case_match. Qed.

Lemma fp_to_idle_left ck p : (fp_left ck (fp_to_idle ck p) <= fp_base p + 4)%nat.
Proof.
  unfold fp_to_idle. pose proof (fp_next_base ck p) as Hb. destruct (fp_next_poll_instant_jitter ck p) as [p' ts].
  pose proof (fp_transition_left ck (PsIdle ts) p'). cbn in *. destruct (timer_ready ck ts); lia.
Qed.

Lemma fp_poll_state_left ck progress pending p : fp_post ck (fp_left ck p) (fp_poll_state ck progress pending p).
Proof.
  assert (Hret : forall left p' b c, (fp_left ck p' <= left)%nat ->
    fp_post ck left (p', if b : bool then Ready (Some (Ok FpNone)) else hpp_end c)) by (by intros ? ? [] []).
  unfold fp_poll_state. pose proof (fun st => fp_transition_left ck st p) as Ht. unfold fp_left at 1.
  destruct (fp_state p) as [|d|dir|to dir| |] eqn:Es; cbn [fp_pot].
  - apply Hret. unfold fp_left. by rewrite Es.
  - destruct (timer_ready ck d) eqn:Er; [apply (Hret _ _ true pending)|apply (Hret _ _ progress true)].
    + specialize (Ht (PsSendReq PdNone)). cbn [fp_pot] in Ht. lia.
    + unfold fp_left. rewrite Es. cbn [fp_pot]. by rewrite Er.
  - destruct (Shape_to_ca_count _); [|done..]. specialize (Ht (PsWaitRes (LsNew (millis 3000)) dir)). cbn [fp_pot] in Ht.
    rewrite lazy_new_not_ready in Ht by done. cbn [fp_post]. lia.
  - pose proof (lazy_poll_again ck to) as Ha. destruct (lazy_poll ck to) as [to' []]; cbn [fst snd] in *;
      [destruct dir; apply (Hret _ _ true pending)|apply (Hret _ _ progress true)].
    + specialize (Ht (PsWaitRes (LsNew (millis 27427)) PdNone)). cbn [fp_pot] in Ht. rewrite lazy_new_not_ready in Ht by done. lia.
    + specialize (Ht PsDoNothing). cbn [fp_pot] in Ht. lia.
    + unfold fp_left. cbn [fp_set_dir fp_state fp_pot]. by rewrite Ha.
  - apply (Hret _ _ true pending). pose proof (fp_transition_left ck PsDone (fp_set_inp_done p)) as Hc.
    change (fp_base (fp_set_inp_done p)) with (fp_base p) in Hc. cbn [fp_pot] in Hc. lia.
  - apply Hret. unfold fp_left. by rewrite Es.
Qed.

Lemma fp_poll_next_left ck p : fp_post ck (fp_left ck p) (fp_poll_next ck p).
Proof.
  unfold fp_poll_next. pose proof (LocalLog_pop_spec (fp_llog p)) as Hl. destruct (LocalLog_pop (fp_llog p)) as [l [x|]].
  { cbn. unfold fp_left, fp_base. cbn [fp_set_llog fp_llog fp_inp_buf fp_state]. lia. }
  destruct (fp_inp_buf p) as [|item inp] eqn:Ei; [apply fp_poll_state_left|].
  set (p' := fp_set_inp inp (fp_inp_done p) p).
  assert (fp_base p = fp_base p' + 5)%nat as Hb by (unfold fp_base, p'; rewrite Ei; cbn [fp_set_inp fp_llog fp_inp_buf length]; lia).
  assert (fp_post ck (fp_left ck p) (fp_poll_state ck true false p')) as Hs.
  { pose proof (fp_poll_state_left ck true false p') as Hs. assert (fp_left ck p' <= fp_left ck p)%nat as Hle.
    { unfold fp_left. change (fp_state p') with (fp_state p). lia. }
    revert Hs. unfold fp_post. repeat case_match; try done; lia. }
  change (fp_state p') with (fp_state p). destruct (fp_state p) as [| | |to dir| |] eqn:Es; try exact Hs.
  destruct (cm_ty (prx_msg item)); try exact Hs. unfold fp_on_value, fp_post, fp_left at 2. rewrite Es. cbn [fp_pot].
  destruct dir; [pose proof (fp_to_idle_left ck p')|pose proof (fp_transition_left ck PsDoNothing p')]; cbn [fp_pot] in *; lia.
Qed.

(** ** Monitoring *)

Definition fm_pot (ck : Clock) (s : MonState) : nat :=
  match s with
  | MsDoNothing | MsClosing1 | MsDone => 0
  | MsCreateMonitorSend _ => 2
  | MsCreateMonitorRecv to _ => if timer_ready ck to then 1 else 0
  | MsMonitoring to dir =>
      match dir with
      | MdDisable | MdClosing => 3
      | MdEnable => if timer_ready ck to then 2 else 0
      | MdNone => 0
      end
  | MsRemoveMonitorSend _ => 2
  | MsRemoveMonitorRecv to _ => if timer_ready ck to then 1 else 0
  | MsRemoveSubidSend dir => match dir with MdEnable => 4 | _ => 2 end
  end%nat.

Definition fm_base (m : FetchMonitoring) : nat := (log_len (fm_llog m) + 6 * length (fm_inp_buf m))%nat.
Definition fm_left (ck : Clock) (m : FetchMonitoring) : nat := (fm_base m + fm_pot ck (fm_state m))%nat.

Definition fm_post (ck : Clock) (left : nat) (r : FetchMonitoring * Poll (option (outcome fetch_error MonitoringItem))) : Prop :=
  match r with
  | (m, Ready (Some (Ok _))) => (fm_left ck m < left)%nat
  | (_, Ready (Some _)) => True
  | (m, _) => (fm_left ck m <= left)%nat
  end.

Lemma fm_log_base ck s m : (fm_base (fm_log ck s m) <= fm_base m + 1)%nat.
Proof. unfold fm_base. cbn [fm_log fm_set_llog fm_llog fm_inp_buf]. pose proof (LocalLog_push_len ck s (fm_llog m)). lia. Qed.

Lemma fm_transition_left ck st m : (fm_left ck (fm_transition ck st m) <= fm_base m + 1 + fm_pot ck st)%nat.
Proof.
  unfold fm_left, fm_transition. change (fm_base (fm_set_state st ?x)) with (fm_base x).
  pose proof (fm_log_base ck ("transition  " ++ MonState_fmt (fm_state m) ++ " -> " ++ MonState_fmt st) m). cbn [fm_set_state fm_state]. lia.
Qed.

Lemma fm_silence_spec ck m :
  let '(m', deadline) := fm_silence ck m in
  fm_base m' = fm_base m /\ fm_state m' = fm_state m /\ fm_chan m' = fm_chan m /\ fm_llog m' = fm_llog m /\
  fm_inp_buf m' = fm_inp_buf m /\ fm_inp_done m' = fm_inp_done m /\ timer_ready ck deadline = false.
Proof.
  unfold fm_silence. pose proof (jitter_pos SILENCE_MONITOR_WAKEUP (fm_rng m)) as Hj.
  destruct (jitter _ _) as [dur rng]. cbn [fst] in Hj. split_and!; try done. apply sleep_not_ready. by apply Hj.
Qed.

Lemma fm_on_inp_left ck item m :
  match fm_on_inp ck item m with
  | (m', Some _) => (fm_left ck m' < fm_left ck m + 6)%nat
  | (m', None) => (fm_left ck m' <= fm_left ck m + 6)%nat
  end.
Proof.
  unfold fm_on_inp. assert (fm_left ck m = fm_base m + fm_pot ck (fm_state m))%nat as El by done.
  destruct (fm_state m) as [|dir|to dir|to dir|dir|to dir|dir| |] eqn:Es; cbn [fm_pot] in El;
    try (unfold fm_handle_received_item; repeat case_match; lia).
  - pose proof (fm_silence_spec ck m) as Hs. destruct (fm_silence ck m) as [m' d]. destruct Hs as (Hb & _ & _ & _ & _ & _ & Hd).
    pose proof (fm_transition_left ck (MsMonitoring d dir) m') as Ht. cbn [fm_pot] in Ht. rewrite Hd in Ht.
    destruct (fm_handle_received_item ck item m), dir; lia.
  - pose proof (fm_transition_left ck (MsRemoveSubidSend dir) m) as Ht. cbn [fm_pot] in Ht.
    assert (fm_left ck (fm_transition ck (MsRemoveSubidSend dir) m) <= fm_left ck m + 6)%nat by (destruct dir; lia).
    destruct (cm_ty (prx_msg item)); lia.
  - unfold fm_left. cbn [fm_set_inp fm_state]. rewrite Es. cbn [fm_pot]. unfold fm_base in *. cbn [fm_set_inp fm_llog fm_inp_buf length].
    case_match; lia.
Qed.

Lemma fm_poll_state_left ck m :
  match fm_poll_state ck m with
  | (m', inl r) => fm_post ck (fm_left ck m) (m', r)
  | (m', inr _) => (fm_left ck m' <= fm_left ck m)%nat
  end.
Proof.
  unfold fm_poll_state. assert (fm_left ck m = fm_base m + fm_pot ck (fm_state m))%nat as El by done.
  assert (Hsend : forall ty to dir st, fm_pot ck (fm_state m) = 2%nat -> timer_ready ck to = false ->
    st = MsCreateMonitorRecv to dir \/ st = MsRemoveMonitorRecv to dir ->
    match ((fm_send ck ty st m).1, @inl _ (bool * bool) (fm_send ck ty st m).2) with
    | (m', inl r) => fm_post ck (fm_left ck m) (m', r)
    | (m', inr _) => (fm_left ck m' <= fm_left ck m)%nat
    end).
  { intros ty to dir st Hp Hto Hst. unfold fm_send. destruct (Shape_to_ca_count _); cbn [fst snd]; [|done..].
    pose proof (fm_transition_left ck st m) as Ht. rewrite Hp in El.
    assert (fm_pot ck st = 0%nat) as Hz by (destruct Hst as [-> | ->]; cbn [fm_pot]; by rewrite Hto). rewrite Hz in Ht. unfold fm_post. lia. }
  pose proof (fun st => fm_transition_left ck st m) as Ht.
  destruct (fm_state m) as [|dir|to dir|to dir|dir|to dir|dir| |] eqn:Es; cbn [fm_pot] in *.
  - done.
  - apply (Hsend _ (sleep ck CREATE_SEND_TIMEOUT) dir); [done|by apply sleep_not_ready|by left].
  - destruct (timer_ready ck to); [|lia]. specialize (Ht MsDoNothing). cbn [fm_pot] in Ht. lia.
  - destruct dir; [lia| | |].
    + specialize (Ht (MsRemoveMonitorSend MdDisable)). cbn [fm_pot] in Ht. lia.
    + destruct (timer_ready ck to) eqn:Er; [|lia]. set (m1 := fm_log _ _ _).
      pose proof (fm_silence_spec ck m1) as Hs. destruct (fm_silence ck m1) as [m2 d]. destruct Hs as (Hb & _ & _ & _ & _ & _ & Hd).
      pose proof (fm_transition_left ck (MsMonitoring d MdEnable) m2) as Ht2. cbn [fm_pot] in Ht2. rewrite Hd in Ht2.
      pose proof (fm_log_base ck "poll_next_unpin  Monitoring  Timeout  7d956c9" m). fold m1 in H0. lia.
    + specialize (Ht (MsRemoveMonitorSend MdClosing)). cbn [fm_pot] in Ht. lia.
  - apply (Hsend _ (sleep ck CREATE_SEND_TIMEOUT) dir); [done|by apply sleep_not_ready|by right].
  - destruct (timer_ready ck to); [|lia]. specialize (Ht MsDoNothing). cbn [fm_pot] in Ht. lia.
  - destruct dir; unfold fm_post; cbn [fst snd].
    1,2: specialize (Ht MsDoNothing). 3: specialize (Ht (MsCreateMonitorSend MdEnable)). 4: specialize (Ht MsClosing1).
    all: cbn [fm_pot] in Ht; lia.
  - unfold fm_left, fm_base. cbn. lia.
  - lia.
Qed.

Lemma fm_turn_left ck m :
  match fm_turn ck m with
  | (m', inl r) => fm_post ck (fm_left ck m) (m', r)
  | (m', inr _) => (fm_left ck m' <= fm_left ck m)%nat
  end.
Proof.
  unfold fm_turn. destruct (fm_inp_buf m) as [|item inp] eqn:Ei.
  - pose proof (fm_poll_state_left ck m) as Hs. by destruct (fm_poll_state ck m) as [m2 [r|[pr pe]]].
  - pose proof (fm_on_inp_left ck item (fm_set_inp inp (fm_inp_done m) m)) as Ho.
    assert (fm_left ck (fm_set_inp inp (fm_inp_done m) m) + 6 = fm_left ck m)%nat as Hw.
    { unfold fm_left, fm_base. cbn [fm_set_inp fm_llog fm_inp_buf fm_state]. rewrite Ei. cbn [length]. lia. }
    destruct (fm_on_inp ck item _) as [m1 [x|]]; [unfold fm_post; lia|].
    pose proof (fm_poll_state_left ck m1) as Hs. destruct (fm_poll_state ck m1) as [m2 [[[[]|]|]|[pr pe]]]; unfold fm_post in *; done || lia.
Qed.

Lemma fm_poll_loop_left fuel ck m : fm_post ck (fm_left ck m) (fm_poll_loop fuel ck m).
Proof.
  revert m. induction fuel as [|fuel IH]; intros m; cbn [fm_poll_loop]; [done|].
  pose proof (LocalLog_pop_spec (fm_llog m)) as Hl. destruct (LocalLog_pop (fm_llog m)) as [l [x|]].
  { unfold fm_post, fm_left, fm_base. cbn [fm_set_llog fm_llog fm_inp_buf fm_state]. lia. }
  pose proof (fm_turn_left ck m) as Ht. destruct (fm_turn ck m) as [m1 [r|[[] pe]]]; [done| |destruct pe; done].
  specialize (IH m1). destruct (fm_poll_loop fuel ck m1) as [m2 [[[]|]|]]; unfold fm_post in *; done || lia.
Qed.

(** ** Both *)

Definition fx_pot (s : FxState) : nat := match s with FxNormal => 8 | _ => 0 end.

Definition fx_left (ck : Clock) (x : Fetchmpx) : nat :=
  (log_len (fx_llog x) + 7 * length (fx_inp_buf x) + fp_left ck (fx_polling x) + fm_left ck (fx_monitoring x) + fx_pot (fx_state x))%nat.

Definition fx_post (ck : Clock) (left : nat) (r : Fetchmpx * Poll (option (outcome fx_error FetchmpxItem))) : Prop :=
  match r with
  | (x, Ready (Some (Ok FxInputDone))) | (x, Ready None) | (x, Pending) => (fx_left ck x <= left)%nat
  | (x, Ready (Some (Ok _))) => (fx_left ck x < left)%nat
  | (_, Ready (Some _)) => True
  end.

Lemma fp_log_base ck s p : (fp_base (fp_log ck s p) <= fp_base p + 1)%nat.
Proof. unfold fp_base. cbn [fp_log fp_set_llog fp_llog fp_inp_buf]. pose proof (LocalLog_push_len ck s (fp_llog p)). lia. Qed.

Lemma fp_trigger_closing_left ck p : (fp_left ck (fp_trigger_closing ck p) <= fp_left ck p + 3)%nat.
Proof.
  unfold fp_trigger_closing, fp_transition_to_closing. assert (fp_left ck p = fp_base p + fp_pot ck (fp_state p))%nat as El by done.
  assert (Ht : forall s, (fp_left ck (fp_transition ck PsClosing1 (fp_log ck s p)) <= fp_base p + 3)%nat).
  { intros s. pose proof (fp_transition_left ck PsClosing1 (fp_log ck s p)) as Ht. pose proof (fp_log_base ck s p). cbn [fp_pot] in Ht. lia. }
  assert (Hg : forall s, (fp_left ck (fp_log ck s p) <= fp_left ck p + 1)%nat).
  { intros s. pose proof (fp_log_base ck s p). unfold fp_left in *. change (fp_state (fp_log ck s p)) with (fp_state p). lia. }
  destruct (fp_state p); first [eapply Nat.le_trans; [apply Ht|lia]|eapply Nat.le_trans; [apply Hg|lia]].
Qed.

Lemma fm_redirect_left ck name dir m : (fm_left ck (fm_redirect ck name dir m) <= fm_left ck m + 4)%nat.
Proof.
  unfold fm_redirect. set (m1 := fm_log ck _ m). assert (fm_left ck m = fm_base m + fm_pot ck (fm_state m))%nat as El by done.
  assert (fm_base m1 <= fm_base m + 1)%nat as Hb by (apply fm_log_base). change (fm_state m1) with (fm_state m).
  assert (Hset : forall st, (fm_left ck (fm_set_state st m1) = fm_base m1 + fm_pot ck st)%nat) by done.
  assert (fm_left ck m1 = fm_base m1 + fm_pot ck (fm_state m))%nat as Hm1 by done.
  destruct (fm_state m) as [|d|to d|to d|d|to d|d| |]; rewrite ?Hset; cbn [fm_pot] in *; try lia.
  destruct dir, (timer_ready ck to); lia.
Qed.

Lemma fx_trigger_closing_left ck x : (fx_left ck (fx_trigger_closing ck x) <= fx_left ck x)%nat.
Proof.
  unfold fx_trigger_closing, fx_left. destruct (fx_state x) eqn:Es; rewrite ?Es; try lia. cbn [fx_set fx_llog fx_inp_buf fx_polling fx_monitoring fx_state fx_pot].
  pose proof (fp_trigger_closing_left ck (fx_polling x)). pose proof (fm_redirect_left ck "transition_to_closing" MdClosing (fx_monitoring x)).
  unfold fm_trigger_closing, fm_transition_to_closing. lia.
Qed.

(** Handing a message on. *)
Lemma fm_push_left ck item m :
  match fm_inp_push_try item m with
  | (m', Some x) => x = item /\ fm_left ck m' = fm_left ck m
  | (m', None) => fm_left ck m' = (fm_left ck m + 6)%nat
  end.
Proof.
  unfold fm_inp_push_try. rewrite inp_buf_push_spec. unfold fm_left, fm_base. destruct (_ <? _)%nat; cbn [fm_set_inp fm_llog fm_inp_buf fm_state]; [|done].
  rewrite length_app. cbn. lia.
Qed.

Lemma fp_push_left ck item p :
  match fp_inp_push_try item p with
  | (p', Some x) => x = item /\ fp_left ck p' = fp_left ck p
  | (p', None) => fp_left ck p' = (fp_left ck p + 5)%nat
  end.
Proof.
  unfold fp_inp_push_try. rewrite inp_buf_push_spec. unfold fp_left, fp_base. destruct (_ <? _)%nat; cbn [fp_set_inp fp_llog fp_inp_buf fp_state]; [|done].
  rewrite length_app. cbn. lia.
Qed.

Lemma fx_dispatch_left ck inp x :
  fx_inp_buf x = inp ->
  match fx_dispatch_loop ck inp x with
  | (x', Ready (Some (Ok r))) => (fx_left ck x' <= fx_left ck x)%nat /\ r = Some FxInputDone
  | (x', Ready (Some Panic)) | (x', Ready None) => False
  | (x', _) => (fx_left ck x' <= fx_left ck x)%nat
  end.
Proof.
  revert x. induction inp as [|item inp IH]; intros x Hi; cbn [fx_dispatch_loop].
  { destruct (fx_inp_done x); [|done]. split; [apply fx_trigger_closing_left|done]. }
  assert (Hset : forall p m l, (7 * length l + fp_left ck p + fm_left ck m <= 7 * S (length inp) + fp_left ck (fx_polling x) + fm_left ck (fx_monitoring x))%nat ->
    (fx_left ck (fx_set (fx_state x) p m l x) <= fx_left ck x)%nat).
  { intros p m l Hle. unfold fx_left. rewrite Hi. cbn [fx_set fx_llog fx_inp_buf fx_polling fx_monitoring fx_state length]. lia. }
  pose proof (fm_push_left ck item (fx_monitoring x)) as Hm. pose proof (fp_push_left ck item (fx_polling x)) as Hp.
  destruct (fm_inp_push_try item (fx_monitoring x)) as [m rm].
  destruct (fp_inp_push_try item (fx_polling x)) as [p rp].
  destruct (cm_ty (prx_msg item)); try (apply Hset; lia);
    (destruct rm as [a|]; destruct rp as [b|]; destruct_and?; subst; try (apply Hset; cbn [length]; lia));
    match goal with |- context [fx_dispatch_loop ck inp ?y] => specialize (IH y eq_refl);
      assert (fx_left ck y <= fx_left ck x)%nat by (apply Hset; lia) end;
    destruct (fx_dispatch_loop ck inp _) as [? [[[| |]|]|]]; intuition lia.
Qed.

Definition fx_both_post (ck : Clock) (left : nat) (r : Fetchmpx * (outcome fx_error FetchmpxItem + bool * bool)) : Prop :=
  match r with
  | (x, inl (Ok FxInputDone)) => False
  | (x, inl (Ok _)) => (fx_left ck x < left)%nat
  | (_, inl _) => True
  | (x, inr _) => (fx_left ck x <= left)%nat
  end.

Lemma fx_poll_monitoring_left ck progress pending x : fx_both_post ck (fx_left ck x) (fx_poll_monitoring ck progress pending x).
Proof.
  unfold fx_poll_monitoring. pose proof (fm_poll_loop_left (length (fm_inp_buf (fx_monitoring x)) + 3) ck (fx_monitoring x)) as Hm.
  unfold fm_poll_next. destruct (fm_poll_loop _ _ _) as [m [[[y|e|]|]|]]; unfold fx_both_post, fm_post, fx_left in *;
    cbn [fx_set fx_llog fx_inp_buf fx_polling fx_monitoring fx_state]; try done; try lia.
  destruct y; cbn [fx_of_monitoring]; lia.
Qed.

Lemma fx_poll_both_left ck progress pending x : fx_both_post ck (fx_left ck x) (fx_poll_both ck progress pending x).
Proof.
  unfold fx_poll_both. pose proof (fp_poll_next_left ck (fx_polling x)) as Hp. destruct (fp_poll_next ck (fx_polling x)) as [p r].
  set (x1 := fx_set (fx_state x) p (fx_monitoring x) (fx_inp_buf x) x).
  assert (Hgo : forall b c, (fp_left ck p <= fp_left ck (fx_polling x))%nat -> fx_both_post ck (fx_left ck x) (fx_poll_monitoring ck b c x1)).
  { intros b c Hle. pose proof (fx_poll_monitoring_left ck b c x1) as Hm.
    assert (fx_left ck x1 <= fx_left ck x)%nat as Hx by (unfold fx_left, x1; cbn [fx_set fx_llog fx_inp_buf fx_polling fx_monitoring fx_state]; lia).
    destruct (fx_poll_monitoring ck b c x1) as [x2 [[[]| |]|]]; unfold fx_both_post in *; try done; lia. }
  destruct r as [[[y|e|]|]|]; unfold fp_post in Hp; try done; try (by apply Hgo).
  destruct y; cbn [fx_of_polling]; try (by apply Hgo);
    unfold fx_both_post, fx_left, x1; cbn [fx_set fx_llog fx_inp_buf fx_polling fx_monitoring fx_state]; lia.
Qed.

Lemma fx_set_state_left ck st x : (fx_pot st <= fx_pot (fx_state x) -> fx_left ck (fx_set_state st x) <= fx_left ck x)%nat.
Proof. unfold fx_left. cbn [fx_set_state fx_set fx_llog fx_inp_buf fx_polling fx_monitoring fx_state]. lia. Qed.

Lemma fx_both_post_weaken ck a b r : (a <= b)%nat -> fx_both_post ck a r -> fx_both_post ck b r.
Proof. destruct r as [x [[[]| |]|]]; unfold fx_both_post; try done; lia. Qed.

(** A turn, apart from the notice that the input is done. *)
Lemma fx_turn_left ck closing x :
  match fx_turn ck closing x with
  | (x', inl (Ok FxInputDone)) => (fx_left ck x' <= fx_left ck x)%nat
  | r => fx_both_post ck (fx_left ck x) r
  end.
Proof.
  assert (Hboth : forall x1 progress pending, (fx_left ck x1 <= fx_left ck x)%nat ->
    match fx_poll_both ck progress pending x1 with
    | (x', inl (Ok FxInputDone)) => (fx_left ck x' <= fx_left ck x)%nat
    | r => fx_both_post ck (fx_left ck x) r
    end).
  { intros x1 progress pending Hx1. pose proof (fx_both_post_weaken ck _ _ _ Hx1 (fx_poll_both_left ck progress pending x1)) as Hb.
    by destruct (fx_poll_both ck progress pending x1) as [x2 [[[]| |]|]]. }
  unfold fx_turn, fx_poll_inp_dispatch. pose proof (fx_dispatch_left ck (fx_inp_buf x) x eq_refl) as Hd.
  destruct (fx_state x); try (by apply Hboth);
    (destruct (fx_dispatch_loop ck (fx_inp_buf x) x) as [x1 [[[r|e|]|]|]]; try done; try (by apply Hboth);
     [destruct Hd as [Hd ->]; exact Hd|apply Hboth; pose proof (fx_set_state_left ck FxDone x1 ltac:(cbn; lia)); lia]).
Qed.

Lemma fx_poll_loop_left fuel ck x : fx_post ck (fx_left ck x) (fx_poll_loop fuel ck x).
Proof.
  revert x. induction fuel as [|fuel IH]; intros x; cbn [fx_poll_loop]; [done|].
  pose proof (LocalLog_pop_spec (fx_llog x)) as Hl. destruct (LocalLog_pop (fx_llog x)) as [l [y|]].
  { unfold fx_post, fx_left. cbn [fx_llog fx_inp_buf fx_polling fx_monitoring fx_state]. lia. }
  assert (Hturn : forall closing : bool,
    fx_post ck (fx_left ck x)
      (match fx_turn ck closing x with
       | (self, inl x) => (self, Ready (Some x))
       | (self, inr (true, _)) => fx_poll_loop fuel ck self
       | (self, inr (false, pending)) => (if closing && negb pending then fx_set_state FxDone self else self, hpp_end pending)
       end)).
  { intros closing. pose proof (fx_turn_left ck closing x) as Ht. destruct (fx_turn ck closing x) as [x1 [[]|[[] pe]]]; try done.
    - specialize (IH x1). unfold fx_both_post in Ht. destruct (fx_poll_loop fuel ck x1) as [x2 [[[[]| |]|]|]]; unfold fx_post in *; done || lia.
    - unfold fx_both_post in Ht. pose proof (fx_set_state_left ck FxDone x1 ltac:(cbn; lia)).
      destruct (closing && negb pe), pe; cbn [hpp_end fx_post]; lia. }
  destruct (fx_state x) eqn:Es; [apply (Hturn false)|apply (Hturn true)| |];
    [apply (fx_set_state_left ck FxDone2 x); cbn [fx_pot]; lia|exact (le_n _)].
Qed.
End Fetch.
