(* ===== verification/HandlerProofs.v ===== *)
(** * Properties of the handler of a channel

    [handler_laws] and [handler_finite] make the handler fit for the heap of
    channels: its queue is bounded, and while the clock stands still and nothing
    comes in, it has finitely much to put out. *)
From Stdlib Require Import ZArith Lia String.
From stdpp Require Import base numbers option strings list gmap.
From S2P Require Import Prelude TimeTypes NetpodTypes Retention Items Floats CaProto CaHeap CaHeapRouting CaHeapLive HandlerFetch HandlerFetchProofs Handler.

#[local] Open Scope Z_scope.
#[local] Open Scope rust_scope.

(** ** The queue *)

#[export] Instance handler_laws `{HandlerEnv} : ChannelHandlerLaws handler_ops.
Proof.
  refine (@Build_ChannelHandlerLaws handler_ops (fun h : Clock * ChannelHandler => hd_inp_buf h.2) (fun _ => HANDLER_INP_CAP) _).
  intros it [ck h]. cbn -[HANDLER_INP_CAP Nat.ltb]. unfold hd_inp_push_try. rewrite inp_buf_push_spec.
  by destruct (length (hd_inp_buf h) <? HANDLER_INP_CAP)%nat.
Defined.

(** ** What is left to put out *)

Section Handler.
Context `{RngOps}.

Definition rn_left (ck : Clock) (s : Running) : nat :=
  match rn_state s with RsNormal x => 7 * length (rn_inp_buf s) + fx_left ck x | RsDone => 0 end%nat.

Definition rn_post (ck : Clock) (left : nat) (r : Running * Poll (option (outcome running_error RunningItem))) : Prop :=
  match r with
  | (s, Ready (Some (Ok _))) => (rn_left ck s < left)%nat
  | (_, Ready (Some _)) => True
  | (s, _) => (rn_left ck s <= left)%nat
  end.

Lemma fx_push_left ck item x :
  match fx_inp_push_try item x with
  | (x', Some y) => y = item /\ fx_left ck x' = fx_left ck x
  | (x', None) => fx_left ck x' = (fx_left ck x + 7)%nat
  end.
Proof.
  unfold fx_inp_push_try. rewrite inp_buf_push_spec. unfold fx_left.
  destruct (_ <? _)%nat; cbn [fx_set fx_llog fx_inp_buf fx_polling fx_monitoring fx_state]; [|done]. rewrite length_app. cbn. lia.
Qed.

Lemma rn_dispatch_left ck inp fx s :
  match rn_dispatch_loop inp fx (rn_set (RsNormal fx) (rn_chan_close_ack s) inp s) with
  | (s', _) => (rn_left ck s' <= 7 * length inp + fx_left ck fx)%nat
  end.
Proof.
  revert fx s. induction inp as [|item inp IH]; intros fx s; cbn [rn_dispatch_loop]; [cbn; lia|].
  destruct (rn_to_mpx (cm_ty (prx_msg item))).
  - pose proof (fx_push_left ck item fx) as Hp. destruct (fx_inp_push_try item fx) as [fx' [y|]].
    + destruct Hp as [-> Hp]. cbn [rn_left rn_set rn_state rn_inp_buf length]. lia.
    + match goal with |- context [rn_dispatch_loop inp fx' ?y] => specialize (IH fx' y) end. cbn [rn_set rn_chan_close_ack] in IH |- *.
      destruct (rn_dispatch_loop _ _ _) as [s' r]. cbn [length]. lia.
  - destruct (cm_ty (prx_msg item)); try (cbn [rn_left rn_set rn_state rn_inp_buf length]; lia).
    match goal with |- context [rn_dispatch_loop inp fx ?y] => specialize (IH fx y) end. cbn [rn_set rn_chan_close_ack] in IH |- *.
    destruct (rn_dispatch_loop _ _ _) as [s' r]. cbn [length]. lia.
Qed.

Lemma rn_turn_left ck s :
  match rn_turn ck s with
  | (s', inl r) => rn_post ck (rn_left ck s) (s', r)
  | (s', inr _) => (rn_left ck s' <= rn_left ck s)%nat
  end.
Proof.
  unfold rn_turn. destruct (rn_state s) as [fx|] eqn:Es; [|unfold rn_post; done].
  unfold rn_poll_inp_dispatch. rewrite Es. pose proof (rn_dispatch_left ck (rn_inp_buf s) fx s) as Hd.
  assert (rn_set (RsNormal fx) (rn_chan_close_ack s) (rn_inp_buf s) s = s) as Hself by (destruct s; cbn in *; by subst).
  rewrite Hself in Hd. destruct (rn_dispatch_loop (rn_inp_buf s) fx s) as [s1 r].
  assert (rn_left ck s = 7 * length (rn_inp_buf s) + fx_left ck fx)%nat as Hl by (unfold rn_left; by rewrite Es).
  assert (Hgo : forall progress : bool,
    match
      (match rn_state s1 with
      | RsDone => (s1, inr tt)
      | RsNormal fx =>
          let '(fx, r) := fx_poll_next ck fx in
          let self := rn_set_state (RsNormal fx) s1 in
          match r with
          | Ready (Some (Ok x)) =>
              match rn_of_fx x with
              | Some x => (self, inl (Ready (Some (Ok x))))
              | None => (self, inr tt)
              end
          | Ready (Some Panic) => (self, inl (Ready (Some Panic)))
          | Ready _ => (rn_set_state RsDone self, inr tt)
          | Pending => (self, if progress : bool then inr tt else inl Pending)
          end
      end)
    with
    | (s', inl r) => rn_post ck (rn_left ck s) (s', r)
    | (s', inr _) => (rn_left ck s' <= rn_left ck s)%nat
    end).
  { intros progress. destruct (rn_state s1) as [fx1|] eqn:Es1; [|lia].
    assert (rn_left ck s1 = 7 * length (rn_inp_buf s1) + fx_left ck fx1)%nat as Hl1 by (unfold rn_left; by rewrite Es1).
    pose proof (fx_poll_loop_left (length (fx_inp_buf fx1) + length (fp_inp_buf (fx_polling fx1)) + 5) ck fx1) as Hf.
    unfold fx_poll_next. destruct (fx_poll_loop _ ck fx1) as [fx2 r2].
    assert (rn_left ck (rn_set_state (RsNormal fx2) s1) = 7 * length (rn_inp_buf s1) + fx_left ck fx2)%nat as Hl2 by done.
    assert (rn_left ck (rn_set_state RsDone (rn_set_state (RsNormal fx2) s1)) = 0)%nat as Hl3 by done.
    destruct r2 as [[[x|e|]|]|]; unfold fx_post in Hf; try done; try lia.
    - destruct x; cbn [rn_of_fx]; unfold rn_post; lia.
    - destruct progress; unfold rn_post; lia. }
  destruct r as [[[[]|e|]|]|]; [apply (Hgo true)|..|apply (Hgo false)]; cbn [rn_set_state rn_set rn_state]; unfold rn_left at 1; cbn; lia.
Qed.

Lemma rn_poll_loop_left fuel ck s : rn_post ck (rn_left ck s) (rn_poll_loop fuel ck s).
Proof.
  revert s. induction fuel as [|fuel IH]; intros s; cbn [rn_poll_loop]; [done|].
  pose proof (rn_turn_left ck s) as Ht. destruct (rn_turn ck s) as [s1 [r|[]]]; [done|].
  specialize (IH s1). destruct (rn_poll_loop fuel ck s1) as [s2 [[[]|]|]]; unfold rn_post in *; done || lia.
Qed.

(** What a new running handler has to put out. *)
Lemma rn_new_left ck cid sid t sh dbr chi polled : (rn_left ck (rn_new ck cid sid t sh dbr chi polled) <= 13)%nat.
Proof.
  unfold rn_left, rn_new. cbn [rn_state rn_inp_buf length]. unfold fx_new, fx_left. destruct polled; cbn [fx_llog fx_inp_buf fx_polling fx_monitoring fx_state].
  - unfold fp_transition_to_enable. cbn [fp_new fp_state]. set (p := fp_log ck _ _). pose proof (fp_to_idle_left ck p) as Hp.
    assert (fp_base p <= 1)%nat by (unfold p; cbn; lia). assert (fm_left ck (fm_new (mkFetchChan (cir_series chi) cid sid t sh dbr)) = 0%nat) by done.
    unfold log_len. cbn. lia.
  - unfold fm_transition_to_enable. set (m := fm_log ck _ _). change (fm_state (fm_new _)) with MsDoNothing.
    pose proof (fm_transition_left ck (MsCreateMonitorSend MdEnable) m) as Hm. assert (fm_base m <= 1)%nat by (unfold m; cbn; lia). cbn [fm_pot] in Hm.
    assert (fp_left ck (fp_new ck (mkFetchChan (cir_series chi) cid sid t sh dbr)) = 0%nat) by done. unfold log_len. cbn. lia.
Qed.

Definition cr_left (s : Creating) : nat :=
  match cr_state s with CsCreateChanSend msgs _ => length msgs + 1 | CsCreateChanRecv _ => 1 | CsSeriesIdRecv _ _ _ _ _ _ | CsDone => 0 end%nat.

Lemma cr_poll_loop_left fuel ck s :
  match cr_poll_loop fuel ck s with
  | (s', Ready (Some (Ok (CiDone _ _ _ _ _)))) | (s', Ready None) | (s', Pending) => (cr_left s' <= cr_left s)%nat
  | (s', Ready (Some (Ok _))) => (cr_left s' < cr_left s)%nat
  | _ => True
  end.
Proof.
  revert s. induction fuel as [|fuel IH]; intros s; cbn [cr_poll_loop]; [done|].
  assert (Hloop : forall s1, (cr_left s1 <= cr_left s)%nat ->
    match cr_poll_loop fuel ck s1 with
    | (s', Ready (Some (Ok (CiDone _ _ _ _ _)))) | (s', Ready None) | (s', Pending) => (cr_left s' <= cr_left s)%nat
    | (s', Ready (Some (Ok _))) => (cr_left s' < cr_left s)%nat
    | _ => True
    end).
  { intros s1 Hs1. specialize (IH s1). destruct (cr_poll_loop fuel ck s1) as [s2 [[[[]| |]|]|]]; try done; lia. }
  assert (cr_left s = match cr_state s with CsCreateChanSend msgs _ => length msgs + 1 | CsCreateChanRecv _ => 1 | _ => 0 end)%nat as Hl by (unfold cr_left; by destruct (cr_state s)).
  destruct (cr_state s) as [msgs to|to|rx sid t sh dbr to|]; [| | |done]; (destruct (timer_ready ck to); [done|]).
  - destruct msgs as [|m msgs]; [apply Hloop; cbn in *; lia|cbn in *; lia].
  - destruct (cr_inp_buf s) as [|item inp]; [destruct (cr_inp_done s); [apply Hloop; cbn; lia|done]|].
    set (s1 := cr_set (CsCreateChanRecv to) inp s). assert (cr_left s1 <= cr_left s)%nat by (rewrite Hl; done).
    destruct (cm_ty (prx_msg item)); cbn [cr_on_msg]; try done; [|by apply Hloop].
    destruct (6 <? _); [done|]. destruct (ScalarType_from_ca_id _); [|done..]. destruct (Shape_from_ca_count _); [|done..]. cbn. lia.
  - destruct rx as [[[x| |]|]|]; try done. cbn. lia.
Qed.

Definition hd_pot (ck : Clock) (s : HandlerState) : nat :=
  match s with
  | HsInit => 16
  | HsCreating st => cr_left st + 14
  | HsRunning st => rn_left ck st + 1
  | _ => 0
  end%nat.

(** How many items the handler still puts out while nothing changes around it. *)
Definition hd_left (ck : Clock) (h : ChannelHandler) : nat :=
  (length (hd_outbuf h) + 7 * length (hd_inp_buf h) + hd_pot ck (hd_state h))%nat.

Definition hd_post {A} (ck : Clock) (left : nat) (r : ChannelHandler * (outcome handler_error HandlerItem + A)) : Prop :=
  match r with
  | (h, inl (Ok _)) => (hd_left ck h < left)%nat
  | (_, inl Panic) => True
  | (h, inl (Err _)) | (h, inr _) => (hd_left ck h <= left)%nat
  end.

Lemma rn_trigger_remove_left ck s : (rn_left ck (rn_trigger_remove ck s) <= rn_left ck s)%nat.
Proof.
  unfold rn_left, rn_trigger_remove. cbn [rn_state rn_inp_buf]. destruct (rn_state s) as [fx|]; [|lia].
  pose proof (fx_trigger_closing_left ck fx). unfold fx_trigger_remove. lia.
Qed.

Lemma hd_handle_cmd_left ck c h h' : hd_handle_cmd ck c h = Some h' -> (hd_left ck h' <= hd_left ck h)%nat.
Proof.
  unfold hd_handle_cmd. destruct c; [|by intros [= <-]]. destruct (hd_removing h); [by intros [= <-]|].
  unfold hd_handle_cmd_remove. cbn [hd_set_removing hd_state].
  destruct (hd_state h) as [|st|st| | | |] eqn:Es; intros [= <-]; unfold hd_left;
    cbn [hd_set_state hd_set hd_set_removing hd_outbuf hd_inp_buf hd_state]; rewrite Es; cbn [hd_pot]; try lia.
  pose proof (rn_trigger_remove_left ck st). lia.
Qed.

Lemma hd_creating_rx_left inp done idp st : (length (hd_poll_proto_rx_creating inp done idp st).1.1 <= length inp)%nat /\
  cr_left (hd_poll_proto_rx_creating inp done idp st).1.2 = cr_left st.
Proof.
  revert idp st. induction inp as [|item inp IH]; intros idp st; cbn [hd_poll_proto_rx_creating]; [done|].
  unfold cr_poll_inp_push. rewrite inp_buf_push_spec. destruct (_ <? _)%nat; [|done].
  destruct (IH (S idp) (cr_set (cr_state st) (cr_inp_buf st ++ [item]) st)) as [H1 H2]. split; [cbn [length]; lia|done].
Qed.

Lemma hd_push_running_left ck inp progress st :
  match hd_push_running inp progress st with
  | (inp', st', _, _) => (7 * length inp' + rn_left ck st' <= 7 * length inp + rn_left ck st)%nat
  end.
Proof.
  revert progress st. induction inp as [|item inp IH]; intros progress st; cbn [hd_push_running]; [lia|].
  unfold rn_inp_push_try. rewrite inp_buf_push_spec. destruct (_ <? _)%nat; [|cbn [length]; unfold rn_left; cbn [rn_set rn_state rn_inp_buf]; lia].
  match goal with |- context [hd_push_running inp true ?x] => specialize (IH true x) end.
  destruct (hd_push_running _ _ _) as [[[inp' st'] ?] ?]. cbn [length]. unfold rn_left in IH at 2. cbn [rn_set rn_state rn_inp_buf] in IH.
  unfold rn_left at 2. destruct (rn_state st); [rewrite length_app in IH; cbn in IH|]; lia.
Qed.

Lemma hd_set_left ck st inp h : hd_left ck (hd_set st inp h) = (length (hd_outbuf h) + 7 * length inp + hd_pot ck st)%nat.
Proof. done. Qed.

Lemma hd_turn_left ck progress h : hd_post ck (hd_left ck h) (hd_turn ck progress h).
Proof.
  assert (hd_left ck h = length (hd_outbuf h) + 7 * length (hd_inp_buf h) + hd_pot ck (hd_state h))%nat as Hl by done.
  unfold hd_turn. destruct (hd_state h) as [|st|st|ack fut to| | |] eqn:Es; cbn [hd_pot] in Hl.
  - unfold hd_post, hd_set_state. rewrite hd_set_left. cbn [hd_pot cr_left cr_new cr_state length]. lia.
  - unfold hd_turn_creating. destruct (hd_creating_rx_left (hd_inp_buf h) (hd_inp_done h) 0 st) as [H1 H2].
    destruct (hd_poll_proto_rx_creating _ _ _ _) as [[inp st1] r]. cbn [fst snd] in *.
    assert (Hgo : forall progress, hd_post ck (hd_left ck h)
      (let '(st, r) := cr_poll_next ck st1 in
       let self := hd_set (HsCreating st) inp h in
       match r with
       | Ready (Some (Ok (CiCaMsgOut m))) => (self, inl (Ok (ItProtoOut m)))
       | Ready (Some (Ok (CiChannelInfoQuery q))) => (self, inl (Ok (ItChannelInfoQuery (HdChannelInfoQuery q))))
       | Ready (Some (Ok (CiDone sid scalar_type shape ca_dbr_ty chi))) =>
           (hd_set_state (HsRunning (rn_new ck (hd_cid self) sid scalar_type shape ca_dbr_ty chi (hd_is_polled self))) self, inr true)
       | Ready (Some _) => (self, inl Panic)
       | Ready None | Pending => (self, inr progress)
       end)).
    { intros b. unfold cr_poll_next. pose proof (cr_poll_loop_left (length (cr_inp_buf st1) + 4) ck st1) as Hc.
      destruct (cr_poll_loop _ ck st1) as [st2 [[[x| |]|]|]]; unfold hd_post; try done; rewrite ?hd_set_left; cbn [hd_pot]; try lia.
      destruct x; rewrite ?hd_set_left; cbn [hd_pot]; try lia. unfold hd_set_state. rewrite hd_set_left. cbn [hd_pot hd_set hd_inp_buf hd_outbuf].
      match goal with |- context [rn_new ck ?a ?b ?c ?d ?e ?f ?g] => pose proof (rn_new_left ck a b c d e f g) end. cbn [hd_set hd_cid hd_is_polled] in *. lia. }
    destruct r as [[[|e|]|]|]; [by apply Hgo|unfold hd_post; rewrite hd_set_left; cbn [hd_pot]; lia|by apply Hgo..].
  - unfold hd_turn_running. pose proof (hd_push_running_left ck (hd_inp_buf h) progress st) as Hp.
    destruct (hd_push_running _ _ _) as [[[inp st1] pr] ?]. pose proof (rn_poll_loop_left 4 ck st1) as Hr. unfold rn_poll_next.
    destruct (rn_poll_loop 4 ck st1) as [st2 [[[x| |]|]|]]; unfold rn_post in Hr; unfold hd_post, hd_set_state; try done;
      rewrite ?hd_set_left; cbn [hd_pot hd_set hd_outbuf hd_inp_buf]; lia.
  - unfold hd_turn_closing1. destruct (hd_inp_buf h) as [|item inp]; cbn [length] in Hl;
      (destruct (_ || timer_ready ck to); unfold hd_post; rewrite hd_set_left; cbn [hd_pot length]; lia).
  - unfold hd_post, hd_set_state. rewrite hd_set_left. cbn [hd_pot]. lia.
  - unfold hd_post, hd_set_state. rewrite hd_set_left. cbn [hd_pot hd_set_removing hd_inp_buf hd_outbuf]. lia.
  - unfold hd_post. lia.
Qed.

Lemma hd_poll_loop_left fuel ck h :
  match hd_poll_loop fuel ck h with
  | (h', Ready (Some (Ok _))) => (hd_left ck h' < hd_left ck h)%nat
  | (_, Ready (Some Panic)) => True
  | (h', _) => (hd_left ck h' <= hd_left ck h)%nat
  end.
Proof.
  revert h. induction fuel as [|fuel IH]; intros h; cbn [hd_poll_loop]; [done|].
  destruct (hd_outbuf h) as [|x out] eqn:Eo; [|unfold hd_left; rewrite Eo; cbn; lia].
  assert (Hgo : forall h1 progress, (hd_left ck h1 <= hd_left ck h)%nat ->
    match
      (match hd_turn ck progress h1 with
       | (self, inl x) => (self, Ready (Some x))
       | (self, inr true) => hd_poll_loop fuel ck self
       | (self, inr false) => (self, Pending)
       end)
    with
    | (h', Ready (Some (Ok _))) => (hd_left ck h' < hd_left ck h)%nat
    | (_, Ready (Some Panic)) => True
    | (h', _) => (hd_left ck h' <= hd_left ck h)%nat
    end).
  { intros h1 progress Hh1. pose proof (hd_turn_left ck progress h1) as Ht. destruct (hd_turn ck progress h1) as [h2 [[x| |]|[]]]; unfold hd_post in Ht; try done; try lia.
    specialize (IH h2). destruct (hd_poll_loop fuel ck h2) as [h3 [[[| |]|]|]]; done || lia. }
  destruct (hd_cmds h) as [|c cmds] eqn:Ec; [by apply Hgo|]. change (hd_state (hd_set_cmds cmds h)) with (hd_state h).
  destruct (hd_state h) eqn:Es; try (destruct (hd_handle_cmd ck c (hd_set_cmds cmds h)) as [h1|] eqn:Eh; [|done];
    apply hd_handle_cmd_left in Eh; cbn [fmap option_fmap option_map]; by apply Hgo). by apply Hgo.
Qed.
End Handler.

#[export] Instance handler_finite `{HandlerEnv} (Horder : forall X, he_heap_order X ≡ₚ elements X) : ChannelHandlerFinite handler_ops.
Proof.
  refine (@Build_ChannelHandlerFinite handler_ops (fun h : Clock * ChannelHandler => hd_left h.1 h.2) _ Horder).
  intros [ck h]. cbn. unfold clocked_poll_next. cbn [fst snd].
  pose proof (hd_poll_loop_left (length (hd_cmds h) + length (hd_inp_buf h) + 10) ck h) as Hl. unfold hd_poll_next.
  by destruct (hd_poll_loop _ ck h) as [h' [[[| |]|]|]].
Defined.
