(* ===== verification/HandlerSafety.v ===== *)
(** * The handler of a running channel does not panic

    The loops of the polls have fuel enough, the shape of the channel has a
    count, and what the states exclude does not come. *)
From Stdlib Require Import ZArith Lia String.
From stdpp Require Import base numbers option strings list gmap.
From S2P Require Import Prelude TimeTypes NetpodTypes Retention Items Floats CaProto CaHeap HandlerFetch HandlerFetchProofs Handler.

#[local] Open Scope Z_scope.
#[local] Open Scope rust_scope.

(** The channel has a count of values to ask for. *)
Definition chan_ok (c : FetchChan) : Prop := is_ok (Shape_to_ca_count (fc_shape c)).

(** The channel of a message that creates it has one. *)
Lemma Shape_from_ca_count_ok k s : Shape_from_ca_count k = Ok s -> is_ok (Shape_to_ca_count s).
Proof. unfold Shape_from_ca_count. repeat case_match; intros [= <-]; eexists; done. Qed.

Lemma LocalLog_push_nonempty ck s l : log_len (LocalLog_push ck s l) <> 0%nat.
Proof. unfold log_len, LocalLog_push. cbn [ll_buf]. rewrite length_app. cbn. lia. Qed.

Section Fetch.
Context `{RngOps}.

(** ** Polling *)

Definition fp_same (p p' : FetchPolling) : Prop := fp_chan p' = fp_chan p /\ (length (fp_inp_buf p') <= length (fp_inp_buf p))%nat.

(** What a poll leaves; a step without an item takes a message or writes to the
    log. *)
Definition fp_safe (p : FetchPolling) (taken : bool) (r : FetchPolling * Poll (option (outcome fetch_error FpItem))) : Prop :=
  match r with
  | (p', r) => fp_same p p' /\
      match r with
      | Ready (Some (Ok FpNone)) => taken = true \/ log_len (fp_llog p') <> 0%nat
      | Ready (Some (Ok _)) | Ready None | Pending => True
      | Ready (Some _) => False
      end
  end.

Lemma fp_transition_same ck st p : fp_same p (fp_transition ck st p) /\ log_len (fp_llog (fp_transition ck st p)) <> 0%nat.
Proof. split; [done|]. apply LocalLog_push_nonempty. Qed.

Lemma fp_to_idle_same ck p : fp_same p (fp_to_idle ck p).
Proof. unfold fp_to_idle, fp_next_poll_instant_jitter. by repeat case_match; simplify_eq. Qed.

Lemma fp_poll_state_safe ck progress pending p :
  chan_ok (fp_chan p) -> fp_safe p progress (fp_poll_state ck progress pending p).
Proof.
  intros [n Hn]. assert (Hret : forall b c, (b = true -> progress = true) ->
    fp_safe p progress (p, if b : bool then Ready (Some (Ok FpNone)) else hpp_end c)).
  { intros [] [] Hb; (split; [done|]); cbn; try done; left; auto. }
  assert (Ht : forall st, fp_safe p progress (fp_transition ck st p, Ready (Some (Ok FpNone)))).
  { intros st. split; [done|]. right. apply LocalLog_push_nonempty. }
  unfold fp_poll_state. rewrite Hn. destruct (fp_state p) as [|d|dir|to dir| |].
  - by apply (Hret progress pending).
  - destruct (timer_ready ck d); [apply Ht|by apply (Hret progress true)].
  - done.
  - destruct (lazy_poll ck to) as [to' []]; [destruct dir; apply Ht|].
    destruct progress; (split; [done|]); [by left|done].
  - split; [done|]. right. apply LocalLog_push_nonempty.
  - by apply (Hret progress pending).
Qed.

Lemma fp_poll_next_safe ck p :
  chan_ok (fp_chan p) ->
  match fp_poll_next ck p with
  | (p', r) => fp_same p p' /\
      match r with
      | Ready (Some (Ok FpNone)) =>
          log_len (fp_llog p) = 0%nat /\ ((length (fp_inp_buf p') < length (fp_inp_buf p))%nat \/ log_len (fp_llog p') <> 0%nat)
      | Ready (Some (Ok _)) | Ready None | Pending => True
      | Ready (Some _) => False
      end
  end.
Proof.
  intros Hc. unfold fp_poll_next. pose proof (LocalLog_pop_spec (fp_llog p)) as Hl. destruct (LocalLog_pop (fp_llog p)) as [l [x|]]; [done|].
  destruct Hl as [_ Hl]. destruct (fp_inp_buf p) as [|item inp] eqn:Ei.
  - pose proof (fp_poll_state_safe ck false (negb (fp_inp_done p)) p Hc) as Hs. unfold fp_safe in Hs.
    destruct (fp_poll_state _ _ _ p) as [p' [[[[]| |]|]|]]; rewrite <- ?Ei in *; intuition done.
  - set (p1 := fp_set_inp inp (fp_inp_done p) p).
    assert (Hgo : match fp_poll_state ck true false p1 with
      | (p', r) => fp_same p p' /\
          match r with
          | Ready (Some (Ok FpNone)) =>
              log_len (fp_llog p) = 0%nat /\ ((length (fp_inp_buf p') < length (item :: inp))%nat \/ log_len (fp_llog p') <> 0%nat)
          | Ready (Some (Ok _)) | Ready None | Pending => True
          | Ready (Some _) => False
          end
      end).
    { pose proof (fp_poll_state_safe ck true false p1 Hc) as Hs. unfold fp_safe, fp_same in *. rewrite Ei.
      destruct (fp_poll_state ck true false p1) as [p' r]. destruct Hs as [[Hs1 Hs2] Hr]. cbn [p1 fp_set_inp fp_inp_buf fp_chan] in *.
      split; [split; [done|cbn [length]; lia]|]. destruct r as [[[[]| |]|]|]; try done. split; [done|]. left. cbn [length]. lia. }
    change (fp_state p1) with (fp_state p). destruct (fp_state p) as [| | |to dir| |]; try exact Hgo.
    destruct (cm_ty (prx_msg item)); try exact Hgo. unfold fp_on_value, fp_same. rewrite Ei. split; [|done].
    destruct dir; [destruct (fp_to_idle_same ck p1) as [H1 H2]|destruct (fp_transition_same ck PsDoNothing p1) as [[H1 H2] _]];
      (split; [done|cbn [p1 fp_set_inp fp_inp_buf length] in *; lia]).
Qed.

(** ** Monitoring *)

Definition fm_same (m m' : FetchMonitoring) : Prop := fm_chan m' = fm_chan m /\ (length (fm_inp_buf m') <= length (fm_inp_buf m))%nat.

(** The turns that a poll needs. *)
Definition fm_need (m : FetchMonitoring) : nat :=
  if (log_len (fm_llog m) =? 0)%nat then length (fm_inp_buf m) + match fm_state m with MsClosing1 => 3 | _ => 2 end else 1.

Lemma fm_transition_same ck st m : fm_same m (fm_transition ck st m) /\ fm_need (fm_transition ck st m) = 1%nat.
Proof.
  split; [done|]. unfold fm_need. cbn [fm_transition fm_set_state fm_log fm_set_llog fm_llog].
  by rewrite (proj2 (Nat.eqb_neq _ _) (LocalLog_push_nonempty _ _ _)).
Qed.

(** A state that goes on without an item writes to the log, or is the last. *)
Lemma fm_poll_state_safe ck m :
  chan_ok (fm_chan m) ->
  match fm_poll_state ck m with
  | (m', inl r) => fm_same m m' /\ match r with Ready (Some (Ok _)) => True | _ => False end
  | (m', inr (progress, _)) => fm_same m m' /\
      if progress then fm_need m' = 1%nat \/ (fm_state m = MsClosing1 /\ fm_state m' = MsDone /\ fm_inp_buf m' = fm_inp_buf m) else m' = m
  end.
Proof.
  intros [n Hn]. unfold fm_poll_state, fm_send. rewrite Hn. pose proof (fun st => fm_transition_same ck st m) as Ht.
  destruct (fm_state m) as [|dir|to dir|to dir|dir|to dir|dir| |] eqn:Es; try done; try (by destruct (timer_ready ck to); [split; [|left]; apply Ht|]).
  - destruct dir; [done|split; [|left]; apply Ht| |split; [|left]; apply Ht]. destruct (timer_ready ck to); [|done].
    set (m1 := fm_log _ _ _). pose proof (fm_silence_spec ck m1) as Hs. destruct (fm_silence ck m1) as [m2 d].
    destruct Hs as (_ & _ & Hc & _ & Hi & _). destruct (fm_transition_same ck (MsMonitoring d MdEnable) m2) as [[H1 H2] H3].
    split; [|by left]. unfold fm_same. rewrite H1, Hc. rewrite Hi in H2. done.
  - split; [done|]. by right.
Qed.

Lemma fm_on_inp_safe ck item m :
  match fm_on_inp ck item m with
  | (m', Some _) => fm_same m m'
  | (m', None) => fm_same m m' /\ (fm_need m' = 1%nat \/ fm_state m' = fm_state m)
  end.
Proof.
  unfold fm_on_inp. pose proof (fun st => fm_transition_same ck st m) as Ht. assert (fm_same m m) as Hm by (by split).
  destruct (fm_state m) as [|dir|to dir|to dir|dir|to dir|dir| |] eqn:Es;
    try (unfold fm_handle_received_item; destruct (cm_ty (prx_msg item)); rewrite ?Es; auto; fail).
  - pose proof (fm_silence_spec ck m) as Hs. destruct (fm_silence ck m) as [m2 d]. destruct Hs as (_ & _ & Hc & _ & Hi & _).
    destruct (fm_transition_same ck (MsMonitoring d dir) m2) as [[H1 H2] H3].
    assert (fm_same m (fm_transition ck (MsMonitoring d dir) m2)) by (unfold fm_same; rewrite H1, Hc; rewrite Hi in H2; done).
    destruct (fm_handle_received_item ck item m); auto.
  - destruct (cm_ty (prx_msg item)); rewrite <- Es; auto; (split; [|left]; apply Ht).
  - rewrite <- Es. unfold fm_same. cbn [fm_set_inp fm_inp_buf fm_chan fm_state length]. split; [split; [done|lia]|by right].
Qed.

Lemma fm_turn_safe ck m :
  chan_ok (fm_chan m) -> log_len (fm_llog m) = 0%nat ->
  match fm_turn ck m with
  | (m', inl r) => fm_same m m' /\ match r with Ready (Some (Ok _)) => True | _ => False end
  | (m', inr (progress, _)) => fm_same m m' /\ (progress = true -> fm_need m' < fm_need m)%nat
  end.
Proof.
  intros Hc Hl. assert (fm_need m = length (fm_inp_buf m) + match fm_state m with MsClosing1 => 3 | _ => 2 end)%nat as Hn by (unfold fm_need; by rewrite Hl).
  assert (Hle : forall m', (fm_need m' <= length (fm_inp_buf m') + match fm_state m' with MsClosing1 => 3 | _ => 2 end)%nat).
  { intros m'. unfold fm_need. destruct (_ =? _)%nat, (fm_state m'); lia. }
  unfold fm_turn. destruct (fm_inp_buf m) as [|item inp] eqn:Ei; cbn [length] in Hn.
  - pose proof (fm_poll_state_safe ck m Hc) as Hs. destruct (fm_poll_state ck m) as [m2 [r|[pr pe]]]; [done|]. destruct Hs as [Hsame Hs].
    split; [done|]. intros ->. destruct Hs as [Hs|(Hs1 & Hs2 & Hs3)]; [destruct (fm_state m); lia|].
    rewrite Hs1 in Hn. specialize (Hle m2). rewrite Hs2, Hs3, Ei in Hle. cbn [length] in Hle. lia.
  - set (m0 := fm_set_inp inp (fm_inp_done m) m). pose proof (fm_on_inp_safe ck item m0) as Ho.
    assert (Hback : forall m', fm_same m0 m' -> fm_same m m' /\ (length (fm_inp_buf m') <= length inp)%nat).
    { intros m' [Ha Hb]. cbn [m0 fm_set_inp fm_inp_buf fm_chan] in Ha, Hb. split; [split; [done|rewrite Ei; cbn [length]; lia]|done]. }
    destruct (fm_on_inp ck item m0) as [m1 [x|]]; [destruct (Hback _ Ho); done|]. destruct Ho as [Ho Hst].
    destruct (Hback _ Ho) as [[Hc1 Hb1] Hl1]. pose proof (fm_poll_state_safe ck m1 ltac:(by rewrite Hc1)) as Hs.
    assert (Hb2 : forall m', fm_same m1 m' -> fm_same m m' /\ (length (fm_inp_buf m') <= length inp)%nat).
    { intros m' [Ha Hb]. split; [split; [congruence|lia]|lia]. }
    destruct (fm_poll_state ck m1) as [m2 [r|[pr pe]]]; [destruct Hs as [Hs ?]; by destruct (Hb2 _ Hs)|]. destruct Hs as [Hsame Hs].
    destruct (Hb2 _ Hsame) as [H2 H2l]. split; [done|]. intros _. specialize (Hle m2). change (fm_state m0) with (fm_state m) in Hst.
    destruct pr.
    + destruct Hs as [Hs|(Hs1 & Hs2 & Hs3)]; [destruct (fm_state m); lia|]. rewrite Hs2 in Hle. destruct (fm_state m); lia.
    + subst m2. destruct Hst as [Hst|Hst]; [destruct (fm_state m); lia|]. rewrite Hst in Hle. destruct (fm_state m); lia.
Qed.

Lemma fm_poll_loop_safe fuel ck m :
  chan_ok (fm_chan m) -> (fm_need m <= fuel)%nat ->
  match fm_poll_loop fuel ck m with
  | (m', r) => fm_same m m' /\ match r with Ready (Some (Ok _)) | Ready None | Pending => True | Ready (Some _) => False end
  end.
Proof.
  revert m. induction fuel as [|fuel IH]; intros m Hc Hf.
  { exfalso. unfold fm_need in Hf. destruct (_ =? _)%nat; [destruct (fm_state m); lia|lia]. }
  cbn [fm_poll_loop]. pose proof (LocalLog_pop_spec (fm_llog m)) as Hl. destruct (LocalLog_pop (fm_llog m)) as [l [x|]]; [done|].
  pose proof (fm_turn_safe ck m Hc (proj2 Hl)) as Ht. destruct (fm_turn ck m) as [m1 [r|[[] pe]]].
  - destruct Ht as [Ht Hr]. split; [done|]. by destruct r as [[[]|]|].
  - destruct Ht as [[Hc1 Hl1] Hn]. specialize (IH m1 ltac:(by rewrite Hc1) ltac:(specialize (Hn eq_refl); lia)).
    destruct (fm_poll_loop fuel ck m1) as [m2 r]. destruct IH as [[Hc2 Hl2] Hr]. split; [split; [congruence|lia]|done].
  - destruct Ht as [Ht _]. split; [done|]. by destruct pe.
Qed.

(** ** Both *)

Record fx_ok (x : Fetchmpx) : Prop := {
  fo_polling : chan_ok (fp_chan (fx_polling x));
  fo_monitoring : chan_ok (fm_chan (fx_monitoring x));
  fo_llog : log_len (fx_llog x) = 0%nat
}.

(** The messages before the polling, and the turns that a poll needs. *)
Definition fx_backlog (x : Fetchmpx) : nat := (length (fx_inp_buf x) + length (fp_inp_buf (fx_polling x)))%nat.
Definition fx_need (x : Fetchmpx) : nat :=
  match fx_state x with
  | FxDone | FxDone2 => 1
  | _ => if (log_len (fp_llog (fx_polling x)) =? 0)%nat then fx_backlog x + 3 else 2
  end%nat.

(** What a part of a poll leaves. *)
Definition fx_next (x x' : Fetchmpx) : Prop := fx_ok x' /\ (fx_backlog x' <= fx_backlog x)%nat /\ fx_inp_done x' = fx_inp_done x /\
  (length (fx_inp_buf x') <= length (fx_inp_buf x))%nat.

Lemma fx_next_trans x y z : fx_next x y -> fx_next y z -> fx_next x z.
Proof. unfold fx_next. intuition (lia || congruence). Qed.

Lemma fx_set_next st p m inp x :
  fx_ok x -> chan_ok (fp_chan p) -> chan_ok (fm_chan m) -> (length inp + length (fp_inp_buf p) <= fx_backlog x)%nat ->
  (length inp <= length (fx_inp_buf x))%nat -> fx_next x (fx_set st p m inp x).
Proof. intros [] Hp Hm Hl Hi. split; [by split|]. split_and!; done. Qed.

Lemma fx_poll_monitoring_safe ck progress pending x :
  fx_ok x ->
  match fx_poll_monitoring ck progress pending x with
  | (x', inl r) => fx_next x x' /\ r <> Panic /\ r <> Ok FxInputDone
  | (x', inr (progress', _)) => fx_next x x' /\ progress' = progress /\ fx_state x' = fx_state x /\ fx_polling x' = fx_polling x
  end.
Proof.
  intros Hx. unfold fx_poll_monitoring, fm_poll_next.
  assert (fm_need (fx_monitoring x) <= length (fm_inp_buf (fx_monitoring x)) + 3)%nat as Hn.
  { unfold fm_need. destruct (_ =? _)%nat, (fm_state (fx_monitoring x)); lia. }
  pose proof (fm_poll_loop_safe _ ck (fx_monitoring x) (fo_monitoring _ Hx) Hn) as Hs.
  destruct (fm_poll_loop _ ck _) as [m r]. destruct Hs as [[Hc _] Hr].
  assert (fx_next x (fx_set (fx_state x) (fx_polling x) m (fx_inp_buf x) x)) as Hnx.
  { apply fx_set_next; [done|apply Hx| |unfold fx_backlog; lia|lia]. rewrite Hc. apply Hx. }
  destruct r as [[[y|e|]|]|]; try done. split; [done|]. by destruct y.
Qed.

Lemma fx_poll_both_safe ck progress pending x :
  fx_ok x ->
  match fx_poll_both ck progress pending x with
  | (x', inl r) => fx_next x x' /\ r <> Panic /\ r <> Ok FxInputDone
  | (x', inr (progress', _)) => fx_next x x' /\ fx_state x' = fx_state x /\ log_len (fp_llog (fx_polling x)) = 0%nat /\
      (progress' = true -> progress = true \/ (fx_backlog x' < fx_backlog x)%nat \/ log_len (fp_llog (fx_polling x')) <> 0%nat)
  end.
Proof.
  intros Hx. unfold fx_poll_both. pose proof (fp_poll_next_safe ck (fx_polling x) (fo_polling _ Hx)) as Hp.
  assert (Hlog : match fp_poll_next ck (fx_polling x) with
    | (_, Ready (Some (Ok FpNone))) | (_, Ready None) | (_, Pending) => log_len (fp_llog (fx_polling x)) = 0%nat | _ => True end).
  { unfold fp_poll_next. pose proof (LocalLog_pop_spec (fp_llog (fx_polling x))) as Hl.
    destruct (LocalLog_pop (fp_llog (fx_polling x))) as [l [y|]]; [done|]. destruct Hl as [_ Hl]. by repeat case_match. }
  destruct (fp_poll_next ck (fx_polling x)) as [p r]. destruct Hp as [[Hc Hl] Hr].
  set (x1 := fx_set (fx_state x) p (fx_monitoring x) (fx_inp_buf x) x).
  assert (fx_next x x1) as Hn1.
  { apply fx_set_next; [done|by rewrite Hc; apply Hx|apply Hx|unfold fx_backlog; lia|lia]. }
  assert (Hgo : forall b c, log_len (fp_llog (fx_polling x)) = 0%nat ->
    (b = true -> progress = true \/ (length (fp_inp_buf p) < length (fp_inp_buf (fx_polling x)))%nat \/ log_len (fp_llog p) <> 0%nat) ->
    match fx_poll_monitoring ck b c x1 with
    | (x', inl r) => fx_next x x' /\ r <> Panic /\ r <> Ok FxInputDone
    | (x', inr (progress', _)) => fx_next x x' /\ fx_state x' = fx_state x /\ log_len (fp_llog (fx_polling x)) = 0%nat /\
        (progress' = true -> progress = true \/ (fx_backlog x' < fx_backlog x)%nat \/ log_len (fp_llog (fx_polling x')) <> 0%nat)
    end).
  { intros b c Hz Hb. pose proof (fx_poll_monitoring_safe ck b c x1 (proj1 Hn1)) as Hm.
    destruct (fx_poll_monitoring ck b c x1) as [x2 [r2|[pr pe]]].
    - destruct Hm as [Hm ?]. split; [by eapply fx_next_trans|done].
    - destruct Hm as (Hm & -> & Hst & Hpol). split; [by eapply fx_next_trans|]. split; [done|]. split; [done|]. intros ->.
      rewrite Hpol. destruct (Hb eq_refl) as [|[Hb1|Hb1]]; [by left|right; left|by right; right].
      destruct Hm as (_ & Hm & _). unfold fx_backlog in *. rewrite Hpol in *. cbn [x1 fx_set fx_inp_buf fx_polling] in *. lia. }
  destruct r as [[[y|e|]|]|]; try done; [|by apply Hgo; auto..].
  destruct y; cbn [fx_of_polling]; try done. destruct Hr as [Hz Hr]. apply Hgo; [done|]. intros _. by right.
Qed.

Lemma fm_push_safe item m :
  match fm_inp_push_try item m with (m', r) => fm_chan m' = fm_chan m /\ (r = None \/ r = Some item) end.
Proof. unfold fm_inp_push_try. rewrite inp_buf_push_spec. destruct (_ <? _)%nat; auto. Qed.

Lemma fp_push_safe item p :
  match fp_inp_push_try item p with
  | (p', None) => fp_chan p' = fp_chan p /\ length (fp_inp_buf p') = S (length (fp_inp_buf p))
  | (p', Some x) => fp_chan p' = fp_chan p /\ length (fp_inp_buf p') = length (fp_inp_buf p) /\ x = item
  end.
Proof.
  unfold fp_inp_push_try. rewrite inp_buf_push_spec. destruct (_ <? _)%nat; cbn [fp_set_inp fp_chan fp_inp_buf]; [|done].
  rewrite length_app. cbn. split; [done|lia].
Qed.

Lemma fp_trigger_closing_same ck p : fp_chan (fp_trigger_closing ck p) = fp_chan p /\ fp_inp_buf (fp_trigger_closing ck p) = fp_inp_buf p.
Proof. unfold fp_trigger_closing, fp_transition_to_closing. by destruct (fp_state p). Qed.

Lemma fm_redirect_same ck name dir m : fm_chan (fm_redirect ck name dir m) = fm_chan m /\ fm_inp_buf (fm_redirect ck name dir m) = fm_inp_buf m.
Proof. unfold fm_redirect. destruct (fm_state (fm_log ck _ m)); done. Qed.

Lemma fx_trigger_closing_next ck x : fx_ok x -> fx_next x (fx_trigger_closing ck x) /\ fx_inp_buf (fx_trigger_closing ck x) = fx_inp_buf x.
Proof.
  intros Hx. assert (fx_next x x) by (split; [done|]; split_and!; lia || done).
  unfold fx_trigger_closing. destruct (fx_state x); try done. destruct (fp_trigger_closing_same ck (fx_polling x)) as [H1 H2].
  destruct (fm_redirect_same ck "transition_to_closing" MdClosing (fx_monitoring x)) as [H3 _]. split; [|done].
  apply fx_set_next; [done|rewrite H1; apply Hx|unfold fm_trigger_closing, fm_transition_to_closing; rewrite H3; apply Hx|rewrite H2; done|done].
Qed.

Lemma fx_dispatch_safe ck inp x :
  fx_ok x -> fx_inp_buf x = inp ->
  match fx_dispatch_loop ck inp x with
  | (x', Ready (Some (Ok _))) => fx_next x x' /\ fx_inp_done x = true /\ fx_inp_buf x' = []
  | (x', r) => fx_next x x' /\ fx_state x' = fx_state x /\ r <> Ready (Some Panic)
  end.
Proof.
  revert x. induction inp as [|item inp IH]; intros x Hx Hi; cbn [fx_dispatch_loop].
  { assert (fx_next x x) by (split; [done|]; split_and!; lia || done). destruct (fx_inp_done x) eqn:Ed; [|done].
    destruct (fx_trigger_closing_next ck x Hx) as [H1 H2]. by rewrite H2. }
  pose proof (fm_push_safe item (fx_monitoring x)) as Hm. pose proof (fp_push_safe item (fx_polling x)) as Hp.
  destruct (fm_inp_push_try item (fx_monitoring x)) as [m rm]. destruct Hm as [Hm Hrm].
  destruct (fp_inp_push_try item (fx_polling x)) as [p rp].
  assert (Hset : forall p' m' l, chan_ok (fp_chan p') -> chan_ok (fm_chan m') ->
    (length l + length (fp_inp_buf p') <= S (length inp) + length (fp_inp_buf (fx_polling x)))%nat -> (length l <= S (length inp))%nat ->
    fx_next x (fx_set (fx_state x) p' m' l x)).
  { intros p' m' l ? ? ? ?. apply fx_set_next; [done..| |by rewrite Hi]. unfold fx_backlog. rewrite Hi. cbn [length]. lia. }
  destruct Hx as [Hx1 Hx2 Hx3].
  assert (Hrec : forall y, fx_next x y -> fx_state y = fx_state x -> fx_inp_buf y = inp ->
    match fx_dispatch_loop ck inp y with
    | (x', Ready (Some (Ok _))) => fx_next x x' /\ fx_inp_done x = true /\ fx_inp_buf x' = []
    | (x', r) => fx_next x x' /\ fx_state x' = fx_state x /\ r <> Ready (Some Panic)
    end).
  { intros y Hy Hst Hb. specialize (IH y (proj1 Hy) Hb). destruct Hy as (Hy1 & Hy2 & Hy3 & Hy4).
    destruct (fx_dispatch_loop ck inp y) as [z [[[]|]|]]; destruct_and?; unfold fx_next in *; destruct_and?; split_and!; try done; try lia; congruence. }
  destruct (cm_ty (prx_msg item)); try (split; [apply Hset; [done..|cbn [length]; lia|lia]|done]);
    [destruct rm as [a|]|destruct rm as [a|]|destruct rm as [a|]|destruct rp as [a|]]; destruct_and?; simplify_eq;
    first [split; [apply Hset; try done; cbn [length]; try lia; congruence|done]
          |apply Hrec; [apply Hset; try done; try lia; congruence|done..]].
Qed.

(** A turn ends the poll, or fewer are needed; that the input is done is said when
    it is, and nothing is left of it. *)
Definition fx_poll_ok (x x' : Fetchmpx) (r : outcome fx_error FetchmpxItem) : Prop :=
  fx_next x x' /\ r <> Panic /\ (r = Ok FxInputDone -> fx_inp_done x = true /\ fx_inp_buf x' = []).

Lemma fx_turn_safe ck closing x :
  fx_ok x -> fx_state x = FxNormal \/ fx_state x = FxClosing1 ->
  match fx_turn ck closing x with
  | (x', inl r) => fx_poll_ok x x' r
  | (x', inr (progress, _)) => fx_next x x' /\ (progress = true -> fx_need x' < fx_need x)%nat
  end.
Proof.
  intros Hx Hst. assert (fx_need x = if (log_len (fp_llog (fx_polling x)) =? 0)%nat then fx_backlog x + 3 else 2)%nat as Hn.
  { unfold fx_need. by destruct Hst as [-> | ->]. }
  assert (Hboth : forall y b c, fx_next x y -> (b = true -> fx_state y = FxDone) ->
    fx_polling y = fx_polling x \/ (log_len (fp_llog (fx_polling y)) = log_len (fp_llog (fx_polling x)))%nat ->
    match fx_poll_both ck b c y with
    | (x', inl r) => fx_poll_ok x x' r
    | (x', inr (progress, _)) => fx_next x x' /\ (progress = true -> fx_need x' < fx_need x)%nat
    end).
  { intros y b c Hy Hb Hlog. assert (log_len (fp_llog (fx_polling y)) = log_len (fp_llog (fx_polling x))) as Hl by (destruct Hlog as [-> |]; done).
    pose proof (fx_poll_both_safe ck b c y (proj1 Hy)) as Hs. destruct (fx_poll_both ck b c y) as [z [r|[pr pe]]].
    - destruct Hs as (Hs & Hr1 & Hr2). split; [by eapply fx_next_trans|done].
    - destruct Hs as (Hs & Hsz & Hz & Hp). split; [by eapply fx_next_trans|]. intros ->. rewrite Hn, <- Hl, Hz. cbn [Nat.eqb].
      destruct (Hp eq_refl) as [Hp1|[Hp1|Hp1]].
      + unfold fx_need. rewrite Hsz, (Hb Hp1). lia.
      + destruct Hy as (_ & Hy & _). unfold fx_need. destruct (fx_state z), (log_len (fp_llog (fx_polling z)) =? 0)%nat; lia.
      + unfold fx_need. rewrite (proj2 (Nat.eqb_neq _ _) Hp1). destruct (fx_state z); lia. }
  unfold fx_turn, fx_poll_inp_dispatch. pose proof (fx_dispatch_safe ck (fx_inp_buf x) x Hx eq_refl) as Hd.
  pose proof (fx_dispatch_left ck (fx_inp_buf x) x eq_refl) as Hr.
  assert (Hlog : log_len (fp_llog (fx_polling (fx_dispatch_loop ck (fx_inp_buf x) x).1)) = log_len (fp_llog (fx_polling x)) \/
    exists r, (fx_dispatch_loop ck (fx_inp_buf x) x).2 = Ready (Some (Ok r))).
  { clear. generalize (fx_inp_buf x). intros l. revert x. induction l as [|item l IH]; intros x; cbn [fx_dispatch_loop].
    - destruct (fx_inp_done x); [right; eauto|by left].
    - unfold fm_inp_push_try, fp_inp_push_try. rewrite !inp_buf_push_spec.
      destruct (cm_ty (prx_msg item)); try (by left); destruct (_ <? _)%nat; try (by left);
        match goal with |- context [fx_dispatch_loop ck l ?y] => exact (IH y) end. }
  destruct Hst as [Hst|Hst]; rewrite Hst; (destruct (fx_dispatch_loop ck (fx_inp_buf x) x) as [y [[[r|e|]|]|]]; cbn [fst snd] in *;
    [destruct Hr as [_ ->]; destruct Hd as (Hd & ? & ?); done
    |destruct Hd as [Hd _]; destruct Hlog as [Hlog|[? ?]]; [|done]; apply Hboth; [|done|by right];
     eapply fx_next_trans; [done|]; destruct Hd as ([] & _ & _ & _); apply fx_set_next; unfold fx_backlog; try done; lia
    |done|done|destruct Hd as [Hd _]; destruct Hlog as [Hlog|[? ?]]; [|done]; apply Hboth; [done|done|by right]]).
Qed.

Lemma fx_poll_loop_safe fuel ck x :
  fx_ok x -> (fx_need x <= fuel)%nat ->
  match fx_poll_loop fuel ck x with
  | (x', Ready (Some r)) => fx_poll_ok x x' r
  | (x', _) => fx_next x x'
  end.
Proof.
  revert x. induction fuel as [|fuel IH]; intros x Hx Hf.
  { exfalso. unfold fx_need in Hf. destruct (fx_state x); try destruct (_ =? _)%nat; lia. }
  cbn [fx_poll_loop]. pose proof (LocalLog_pop_spec (fx_llog x)) as Hl. destruct (LocalLog_pop (fx_llog x)) as [l [y|]].
  { destruct Hx as [_ _ Hx]. lia. }
  assert (fx_next x x) as Hself by (split; [done|]; split_and!; lia || done).
  assert (Hturn : forall closing, fx_state x = FxNormal \/ fx_state x = FxClosing1 ->
    match
      (match fx_turn ck closing x with
       | (self, inl x) => (self, Ready (Some x))
       | (self, inr (true, _)) => fx_poll_loop fuel ck self
       | (self, inr (false, pending)) => (if closing && negb pending then fx_set_state FxDone self else self, hpp_end pending)
       end)
    with
    | (x', Ready (Some r)) => fx_poll_ok x x' r
    | (x', _) => fx_next x x'
    end).
  { intros closing Hst. pose proof (fx_turn_safe ck closing x Hx Hst) as Ht. destruct (fx_turn ck closing x) as [y [r|[[] pe]]]; [done| |].
    - destruct Ht as [Ht Hn]. specialize (IH y (proj1 Ht) ltac:(specialize (Hn eq_refl); lia)).
      destruct (fx_poll_loop fuel ck y) as [z [[r|]|]]; [|by eapply fx_next_trans..].
      destruct IH as (H1 & H2 & H3). split; [by eapply fx_next_trans|]. split; [done|]. intros Hr. destruct Ht as (_ & _ & <- & _). auto.
    - destruct Ht as [Ht _]. assert (fx_next x (if closing && negb pe then fx_set_state FxDone y else y)) as Hend.
      { destruct (closing && negb pe); [|done]. eapply fx_next_trans; [done|]. destruct Ht as ([] & _). apply fx_set_next; unfold fx_backlog; try done; lia. }
      by destruct pe. }
  destruct (fx_state x) eqn:Es; [apply (Hturn false); by left|apply (Hturn true); by right| |done].
  apply fx_set_next; unfold fx_backlog; try apply Hx; done || lia.
Qed.

Lemma fx_poll_next_safe ck x :
  fx_ok x -> match fx_poll_next ck x with (x', Ready (Some r)) => fx_poll_ok x x' r | (x', _) => fx_next x x' end.
Proof.
  intros Hx. apply fx_poll_loop_safe; [done|]. unfold fx_need, fx_backlog. destruct (fx_state x); try destruct (_ =? _)%nat; lia.
Qed.
End Fetch.
