(* ===== verification/HandlerSession.v ===== *)
(** * The session of a channel

    What the handler of a channel puts out, whatever happens around it: the
    channel is created, the registry of series is asked, then the values are
    polled or monitored, and at last the channel is closed. [session] is that
    protocol; [hd_run_session] says that the handler keeps to it. *)
From Stdlib Require Import ZArith Lia String.
From stdpp Require Import base numbers option strings list.
From S2P Require Import Prelude TimeTypes NetpodTypes Retention Items Utf8 Floats CaProto CaHeap HandlerFetch HandlerFetchProofs Handler.

#[local] Open Scope Z_scope.
#[local] Open Scope rust_scope.

(** ** The protocol *)

(** A polled channel has a request on its way or not; a monitor is there or not,
    or its end was asked for. *)
Inductive FetchPhase : Type := FhReady | FhWait | FhIdle | FhOn | FhCancel.

Definition fh_polled (ph : FetchPhase) : bool := match ph with FhReady | FhWait => true | _ => false end.

(** At most one read is on its way, and a value comes only for one; the values of
    a monitor come between its request and the request of its end, and only after
    the latter its identifier is given back. *)
Inductive fetch_step (c : FetchChan) : FetchPhase -> FetchmpxItem -> FetchPhase -> Prop :=
  | fs_log ph e : fetch_step c ph (FxLocalLog e) ph
  | fs_read count ts :
      Shape_to_ca_count (fc_shape c) = Ok count ->
      fetch_step c FhReady
        (FxCaMsgOutIoid (CaMsg_from_ty_ts (CaReadNotify (mkReadNotify (fc_ca_dbr_ty c) count (fc_sid c) 0)) ts) (fc_sid c) ts) FhWait
  | fs_read_value ts v : fetch_step c FhWait (FxChannelEventValue (mkChannelEventValue (fc_series c) ts v)) FhReady
  | fs_add count ts :
      Shape_to_ca_count (fc_shape c) = Ok count ->
      fetch_step c FhIdle
        (FxCaMsgOutSubid (CaMsg_from_ty_ts (CaEventAdd (mkEventAdd (fc_ca_dbr_ty c) count (fc_sid c) 0)) ts) ts) FhOn
  | fs_monitor_value ts v : fetch_step c FhOn (FxChannelEventValue (mkChannelEventValue (fc_series c) ts v)) FhOn
  | fs_cancel count ts :
      Shape_to_ca_count (fc_shape c) = Ok count ->
      fetch_step c FhOn
        (FxCaMsgOutSubid (CaMsg_from_ty_ts (CaEventCancel (mkEventCancel (fc_ca_dbr_ty c) count (fc_sid c) 0)) ts) ts) FhCancel
  | fs_remove : fetch_step c FhCancel (FxSubidRemove (fc_cid c)) FhIdle.

Inductive SessionPhase : Type :=
  | SpNew
  | SpCreated
  | SpAsked (sid : Z) (scalar_type : ScalarType) (shape : Shape) (ca_dbr_ty : Z)
  | SpRunning (c : FetchChan) (ph : FetchPhase)
  | SpClosed.

Section Session.
Variables (cid : Z) (name backend : string) (is_polled : bool).

(** The session with what it put out so far. The answer of the registry is not
    seen from outside. *)
Inductive session : list HandlerItem -> SessionPhase -> Prop :=
  | ss_new : session [] SpNew
  | ss_create l ts :
      session l SpNew ->
      session (l ++ [ItProtoOut (CaMsg_from_ty_ts (CaCreateChan (mkCreateChan cid (bytes_of_string name))) ts)]) SpCreated
  | ss_ask l sid ty count scalar_type shape :
      session l SpCreated ->
      ScalarType_from_ca_id ty = Ok scalar_type ->
      Shape_from_ca_count count = Ok shape ->
      session (l ++ [ItChannelInfoQuery (HdChannelInfoQuery (mkChannelInfoQuery backend name ChannelData scalar_type shape))])
        (SpAsked sid scalar_type shape (ty + 14))
  | ss_registered l sid scalar_type shape dbr series :
      session l (SpAsked sid scalar_type shape dbr) ->
      session l (SpRunning (mkFetchChan series cid sid scalar_type shape dbr) (if is_polled then FhReady else FhIdle))
  | ss_fetch l c ph x y ph' :
      session l (SpRunning c ph) -> fetch_step c ph x ph' -> rn_of_fx x = Some y ->
      session (l ++ [hd_of_running y]) (SpRunning c ph')
  | ss_close l c ph ts :
      session l (SpRunning c ph) ->
      session (l ++ [ItProtoOut (CaMsg_from_ty_ts (CaChannelClose (mkChannelClose (fc_sid c) cid)) ts)]) SpClosed.
End Session.

(** ** Polling and monitoring keep to it *)

Section Fetch.
Context `{RngOps}.

Definition fp_rel (p : FetchPolling) (ph : FetchPhase) : Prop :=
  match fp_state p with
  | PsIdle _ | PsSendReq _ => ph = FhReady
  | PsWaitRes _ _ => ph = FhWait
  | PsDoNothing | PsClosing1 | PsDone => True
  end.

Definition fm_rel (m : FetchMonitoring) (ph : FetchPhase) : Prop :=
  match fm_state m with
  | MsCreateMonitorSend _ => ph = FhIdle
  | MsCreateMonitorRecv _ _ | MsMonitoring _ _ | MsRemoveMonitorSend _ => ph = FhOn
  | MsRemoveMonitorRecv _ _ | MsRemoveSubidSend _ => ph = FhCancel
  | MsDoNothing | MsClosing1 | MsDone => True
  end.

(** The one that does not fetch does not mind what the other does. *)
Lemma fp_rel_other p ph ph' : fp_rel p ph -> fh_polled ph = false -> fp_rel p ph'.
Proof. unfold fp_rel. destruct (fp_state p); intros -> || intros _; done. Qed.

Lemma fm_rel_other m ph ph' : fm_rel m ph -> fh_polled ph = true -> fm_rel m ph'.
Proof. unfold fm_rel. destruct (fm_state m); intros -> || intros _; done. Qed.

(** A step of the polling, and of the monitoring, from a phase. *)
Definition fp_step (c : FetchChan) (ph : FetchPhase) (p' : FetchPolling) (r : Poll (option (outcome fetch_error FpItem))) : Prop :=
  fp_chan p' = c /\
  match r with
  | Ready (Some (Ok x)) =>
      match fx_of_polling x with
      | Some y => exists ph', fetch_step c ph y ph' /\ fp_rel p' ph' /\ (ph' = ph \/ fh_polled ph = true /\ fh_polled ph' = true)
      | None => fp_rel p' ph
      end
  | _ => fp_rel p' ph
  end.

Definition fm_step (c : FetchChan) (ph : FetchPhase) (m' : FetchMonitoring) (r : Poll (option (outcome fetch_error MonitoringItem))) : Prop :=
  fm_chan m' = c /\
  match r with
  | Ready (Some (Ok x)) =>
      exists ph', fetch_step c ph (fx_of_monitoring x) ph' /\ fm_rel m' ph' /\ (ph' = ph \/ fh_polled ph = false /\ fh_polled ph' = false)
  | _ => fm_rel m' ph
  end.

Lemma fp_to_idle_rel ck p : fp_chan (fp_to_idle ck p) = fp_chan p /\ fp_rel (fp_to_idle ck p) FhReady.
Proof. unfold fp_to_idle, fp_next_poll_instant_jitter. by repeat case_match; simplify_eq. Qed.

Lemma fp_poll_state_step ck progress pending p ph :
  fp_rel p ph -> let '(p', r) := fp_poll_state ck progress pending p in fp_step (fp_chan p) ph p' r.
Proof.
  intros Hp. assert (Hret : forall p' b c, fp_chan p' = fp_chan p -> fp_rel p' ph ->
    fp_step (fp_chan p) ph p' (if b : bool then Ready (Some (Ok FpNone)) else hpp_end c)).
  { intros p' [] [] ? ?; by split. }
  pose proof Hp as Hq. unfold fp_poll_state, fp_rel in *. destruct (fp_state p) as [|d|dir|to dir| |] eqn:Es.
  - apply (Hret p progress pending); [done|]. unfold fp_rel. by rewrite Es.
  - destruct (timer_ready ck d); [apply (Hret _ true pending)|apply (Hret _ progress true)]; try done; unfold fp_rel; by rewrite Es.
  - destruct (Shape_to_ca_count _) as [n| |] eqn:En; [|split; [done|]; unfold fp_rel; by rewrite Es..].
    split; [done|]. subst ph. exists FhWait. split; [by apply fs_read|]. split; [done|by right].
  - destruct (lazy_poll ck to) as [to' []]; [destruct dir; by apply (Hret _ true pending)|by apply (Hret _ progress true)].
  - by apply (Hret _ true pending).
  - apply (Hret p progress pending); [done|]. unfold fp_rel. by rewrite Es.
Qed.

Lemma fp_poll_next_step ck p ph :
  fp_rel p ph -> let '(p', r) := fp_poll_next ck p in fp_step (fp_chan p) ph p' r.
Proof.
  intros Hp. unfold fp_poll_next. destruct (LocalLog_pop (fp_llog p)) as [l [x|]].
  { split; [done|]. exists ph. split; [constructor|]. split; [exact Hp|by left]. }
  destruct (fp_inp_buf p) as [|item inp]; [by apply fp_poll_state_step|].
  set (p1 := fp_set_inp inp (fp_inp_done p) p). assert (fp_rel p1 ph) as Hp1 by exact Hp.
  pose proof (fp_poll_state_step ck true false p1 ph Hp1) as Hgo. change (fp_chan p1) with (fp_chan p) in Hgo.
  unfold fp_rel in Hp1. destruct (fp_state p1) as [| | |to dir| |] eqn:Es; try exact Hgo.
  destruct (cm_ty (prx_msg item)); try exact Hgo. subst ph. unfold fp_on_value.
  assert (Hv : forall q, fp_chan q = fp_chan p1 -> fp_rel q FhReady -> forall ts v,
    fp_step (fp_chan p) FhWait q (Ready (Some (Ok (FpChannelEventValue (mkChannelEventValue (fc_series (fp_chan q)) ts v)))))).
  { intros q Hq Hr ts w. split; [exact Hq|]. exists FhReady. cbn [fx_of_polling]. rewrite Hq. split; [apply fs_read_value|]. split; [done|by right]. }
  destruct dir; [|by apply Hv]. destruct (fp_to_idle_rel ck p1). by apply Hv.
Qed.

Lemma fm_silence_rel ck m : fm_chan (fm_silence ck m).1 = fm_chan m /\ fm_state (fm_silence ck m).1 = fm_state m.
Proof. unfold fm_silence. by destruct (jitter _ _). Qed.

Lemma fm_poll_state_step ck m ph :
  fm_rel m ph ->
  match fm_poll_state ck m with
  | (m', inl r) => fm_step (fm_chan m) ph m' r
  | (m', inr _) => fm_chan m' = fm_chan m /\ fm_rel m' ph
  end.
Proof.
  intros Hm. pose proof Hm as Hq. unfold fm_poll_state, fm_send, fm_rel in *.
  destruct (fm_state m) as [|dir|to dir|to dir|dir|to dir|dir| |] eqn:Es; try (rewrite ?Es; done);
    try (destruct (timer_ready ck to); rewrite ?Es; done).
  - destruct (Shape_to_ca_count _) as [n| |] eqn:En; cbn [fst snd]; [|split; [done|]; unfold fm_rel; by rewrite Es..].
    split; [done|]. subst ph. exists FhOn. split; [by apply fs_add|]. split; [done|by right].
  - destruct dir; try done; [by rewrite Es|]. destruct (timer_ready ck to); [|by rewrite Es].
    set (m1 := fm_log _ _ _). pose proof (fm_silence_rel ck m1) as [H1 H2]. by destruct (fm_silence ck m1).
  - destruct (Shape_to_ca_count _) as [n| |] eqn:En; cbn [fst snd]; [|split; [done|]; unfold fm_rel; by rewrite Es..].
    split; [done|]. subst ph. exists FhCancel. split; [by apply fs_cancel|]. split; [done|by right].
  - subst ph. split; [done|]. exists FhIdle. split; [apply fs_remove|]. split; [by destruct dir|by right].
Qed.

Lemma fm_received_step ck item m ph y :
  fm_handle_received_item ck item m = Some y -> ph = FhOn -> fetch_step (fm_chan m) ph (fx_of_monitoring y) ph.
Proof. unfold fm_handle_received_item. intros Hy ->. destruct (cm_ty (prx_msg item)); try done. injection Hy as <-. apply fs_monitor_value. Qed.

Lemma fm_on_inp_step ck item m ph :
  fm_rel m ph ->
  match fm_on_inp ck item m with
  | (m', Some y) => fm_step (fm_chan m) ph m' (Ready (Some (Ok y)))
  | (m', None) => fm_chan m' = fm_chan m /\ fm_rel m' ph
  end.
Proof.
  intros Hm. pose proof Hm as Hq. unfold fm_on_inp, fm_rel in Hq |- *. destruct (fm_state m) as [|dir|to dir|to dir|dir|to dir|dir| |] eqn:Es; try (by rewrite Es).
  - destruct (fm_silence_rel ck m) as [H1 H2]. destruct (fm_silence ck m) as [m2 d]. cbn [fst snd] in *.
    destruct (fm_handle_received_item ck item m) as [y|] eqn:Ey; [|by split]. split; [done|]. exists ph.
    split; [by eapply fm_received_step|]. split; [done|by left].
  - destruct (fm_handle_received_item ck item m) as [y|] eqn:Ey; [|by rewrite Es]. split; [done|]. exists ph.
    split; [by eapply fm_received_step|]. split; [done|by left].
  - destruct (fm_handle_received_item ck item m) as [y|] eqn:Ey; [|by rewrite Es]. split; [done|]. exists ph.
    split; [by eapply fm_received_step|]. split; [done|by left].
  - destruct (cm_ty (prx_msg item)); rewrite ?Es; done.
  - cbn. by rewrite Es.
Qed.

Lemma fm_turn_step ck m ph :
  fm_rel m ph ->
  match fm_turn ck m with
  | (m', inl r) => fm_step (fm_chan m) ph m' r
  | (m', inr _) => fm_chan m' = fm_chan m /\ fm_rel m' ph
  end.
Proof.
  intros Hm. unfold fm_turn. destruct (fm_inp_buf m) as [|item inp].
  - pose proof (fm_poll_state_step ck m ph Hm) as Hs. by destruct (fm_poll_state ck m) as [m1 [r|[pr pe]]].
  - set (m1 := fm_set_inp inp (fm_inp_done m) m). pose proof (fm_on_inp_step ck item m1 ph Hm) as Ho.
    destruct (fm_on_inp ck item m1) as [m2 [y|]]; [done|]. destruct Ho as [Hc Hr].
    pose proof (fm_poll_state_step ck m2 ph Hr) as Hs. change (fm_chan m1) with (fm_chan m) in Hc. rewrite Hc in Hs.
    by destruct (fm_poll_state ck m2) as [m3 [r|[pr pe]]].
Qed.

Lemma fm_poll_loop_step fuel ck m ph :
  fm_rel m ph -> let '(m', r) := fm_poll_loop fuel ck m in fm_step (fm_chan m) ph m' r.
Proof.
  revert m. induction fuel as [|fuel IH]; intros m Hm; cbn [fm_poll_loop]; [done|].
  destruct (LocalLog_pop (fm_llog m)) as [l [x|]].
  { split; [done|]. exists ph. split; [constructor|]. split; [exact Hm|by left]. }
  pose proof (fm_turn_step ck m ph Hm) as Ht. destruct (fm_turn ck m) as [m1 [r|[[] pe]]]; [done| |by destruct pe].
  destruct Ht as [Hc Ht]. specialize (IH m1 Ht). by rewrite Hc in IH.
Qed.
(** ** Both of them, and the running handler *)

Definition fx_rel (c : FetchChan) (ph : FetchPhase) (x : Fetchmpx) : Prop :=
  fp_chan (fx_polling x) = c /\ fm_chan (fx_monitoring x) = c /\ fp_rel (fx_polling x) ph /\ fm_rel (fx_monitoring x) ph.

Definition fx_step (c : FetchChan) (ph : FetchPhase) (x' : Fetchmpx) (r : outcome fx_error FetchmpxItem) : Prop :=
  match r with
  | Ok FxInputDone | Err _ | Panic => fx_rel c ph x'
  | Ok y => exists ph', fetch_step c ph y ph' /\ fx_rel c ph' x'
  end.

Lemma fx_of_fetch_step c ph x' y ph' : fetch_step c ph y ph' -> fx_rel c ph' x' -> fx_step c ph x' (Ok y).
Proof. intros Hs Hr. destruct Hs; cbn [fx_step]; eexists; (split; [|done]); by constructor. Qed.

Lemma fp_push_rel item p ph : fp_chan (fp_inp_push_try item p).1 = fp_chan p /\ (fp_rel p ph -> fp_rel (fp_inp_push_try item p).1 ph).
Proof. unfold fp_inp_push_try. rewrite inp_buf_push_spec. by destruct (_ <? _)%nat. Qed.

Lemma fm_push_rel item m ph : fm_chan (fm_inp_push_try item m).1 = fm_chan m /\ (fm_rel m ph -> fm_rel (fm_inp_push_try item m).1 ph).
Proof. unfold fm_inp_push_try. rewrite inp_buf_push_spec. by destruct (_ <? _)%nat. Qed.

Lemma fm_redirect_rel ck name dir m ph : fm_chan (fm_redirect ck name dir m) = fm_chan m /\ (fm_rel m ph -> fm_rel (fm_redirect ck name dir m) ph).
Proof.
  unfold fm_redirect. set (m1 := fm_log _ _ _). change (fm_rel m ph) with (fm_rel m1 ph). unfold fm_rel.
  destruct (fm_state m1) eqn:Es; cbn [fm_set_state fm_state fm_chan]; rewrite ?Es; done.
Qed.

Lemma fp_closing_rel ck p ph : fp_chan (fp_trigger_closing ck p) = fp_chan p /\ fp_rel (fp_trigger_closing ck p) ph.
Proof. unfold fp_trigger_closing, fp_transition_to_closing, fp_rel. by destruct (fp_state p) eqn:Es; cbn; rewrite ?Es. Qed.

Lemma fx_closing_rel ck c ph x : fx_rel c ph x -> fx_rel c ph (fx_trigger_closing ck x).
Proof.
  intros (H1 & H2 & H3 & H4). unfold fx_trigger_closing. destruct (fx_state x); try done.
  destruct (fp_closing_rel ck (fx_polling x) ph) as [Hp1 Hp2].
  destruct (fm_redirect_rel ck "transition_to_closing" MdClosing (fx_monitoring x) ph) as [Hm1 Hm2].
  unfold fx_rel, fx_set. cbn [fx_polling fx_monitoring]. rewrite Hp1. unfold fm_trigger_closing, fm_transition_to_closing.
  rewrite Hm1. split_and!; auto.
Qed.

Lemma fx_dispatch_rel ck inp c ph x : fx_rel c ph x -> fx_rel c ph (fx_dispatch_loop ck inp x).1.
Proof.
  revert x. induction inp as [|item inp IH]; intros x Hx; cbn [fx_dispatch_loop].
  { destruct (fx_inp_done x); [by apply fx_closing_rel|done]. }
  pose proof Hx as (H1 & H2 & H3 & H4).
  pose proof (fp_push_rel item (fx_polling x) ph) as [Hp1 Hp2]. pose proof (fm_push_rel item (fx_monitoring x) ph) as [Hm1 Hm2].
  destruct (fp_inp_push_try item (fx_polling x)) as [p rp], (fm_inp_push_try item (fx_monitoring x)) as [m rm]. cbn [fst] in *.
  destruct (cm_ty (prx_msg item)); try done;
    [destruct rm|destruct rm|destruct rm|destruct rp]; try apply IH; split_and!; cbn [fx_set fx_polling fx_monitoring fst]; auto; congruence.
Qed.

Lemma fx_poll_monitoring_step ck progress pending c ph x :
  fx_rel c ph x ->
  match fx_poll_monitoring ck progress pending x with
  | (x', inl r) => fx_step c ph x' r
  | (x', inr _) => fx_rel c ph x'
  end.
Proof.
  intros (H1 & H2 & H3 & H4). unfold fx_poll_monitoring, fm_poll_next.
  pose proof (fm_poll_loop_step (length (fm_inp_buf (fx_monitoring x)) + 3) ck _ _ H4) as Hs.
  destruct (fm_poll_loop _ ck _) as [m r]. destruct Hs as [Hc Hs].
  destruct r as [[[y|e|]|]|]; try (split_and!; cbn [fx_set fx_set_state fx_polling fx_monitoring]; congruence || done).
  destruct Hs as (ph' & Hs & Hr & Hph). rewrite H2 in Hs. eapply fx_of_fetch_step; [done|].
  split_and!; cbn [fx_set fx_polling fx_monitoring]; try congruence. destruct Hph as [->|[? _]]; [done|by eapply fp_rel_other].
Qed.

Lemma fx_poll_both_step ck progress pending c ph x :
  fx_rel c ph x ->
  match fx_poll_both ck progress pending x with
  | (x', inl r) => fx_step c ph x' r
  | (x', inr _) => fx_rel c ph x'
  end.
Proof.
  intros (H1 & H2 & H3 & H4). unfold fx_poll_both. pose proof (fp_poll_next_step ck _ _ H3) as Hs.
  destruct (fp_poll_next ck (fx_polling x)) as [p r]. destruct Hs as [Hc Hs].
  assert (Hrel : fp_rel p ph -> fx_rel c ph (fx_set (fx_state x) p (fx_monitoring x) (fx_inp_buf x) x)).
  { intros ?. split_and!; cbn [fx_set fx_polling fx_monitoring]; congruence || done. }
  destruct r as [[[y|e|]|]|]; try (by apply fx_poll_monitoring_step, Hrel); try (by apply Hrel).
  destruct (fx_of_polling y) as [z|]; [|by apply fx_poll_monitoring_step, Hrel].
  destruct Hs as (ph' & Hs & Hr & Hph). rewrite H1 in Hs. eapply fx_of_fetch_step; [done|].
  split_and!; cbn [fx_set fx_polling fx_monitoring]; try congruence. destruct Hph as [->|[? _]]; [done|by eapply fm_rel_other].
Qed.

Lemma fx_poll_loop_step fuel ck c ph x :
  fx_rel c ph x ->
  match fx_poll_loop fuel ck x with
  | (x', Ready (Some r)) => fx_step c ph x' r
  | (x', _) => fx_rel c ph x'
  end.
Proof.
  revert x. induction fuel as [|fuel IH]; intros x Hx; cbn [fx_poll_loop]; [done|].
  destruct (LocalLog_pop (fx_llog x)) as [l [y|]].
  { exists ph. split; [constructor|exact Hx]. }
  assert (Hturn : forall closing,
    match fx_turn ck closing x with (x', inl r) => fx_step c ph x' r | (x', inr _) => fx_rel c ph x' end).
  { intros closing. unfold fx_turn, fx_poll_inp_dispatch. destruct (fx_state x); try (by apply fx_poll_both_step);
      pose proof (fx_dispatch_left ck (fx_inp_buf x) x eq_refl) as Hr;
      pose proof (fx_dispatch_rel ck (fx_inp_buf x) c ph x Hx) as Hd; destruct (fx_dispatch_loop _ _ _) as [x1 r1]; cbn [fst] in Hd;
      destruct r1 as [[[r|e|]|]|]; try (by apply fx_poll_both_step); try done; destruct Hr as [_ ->]; exact Hd. }
  assert (Hgo : forall closing : bool,
    match
      (match fx_turn ck closing x with
       | (self, inl x) => (self, Ready (Some x))
       | (self, inr (true, _)) => fx_poll_loop fuel ck self
       | (self, inr (false, pending)) => (if closing && negb pending then fx_set_state FxDone self else self, hpp_end pending)
       end)
    with
    | (x', Ready (Some r)) => fx_step c ph x' r
    | (x', _) => fx_rel c ph x'
    end).
  { intros closing. specialize (Hturn closing). destruct (fx_turn ck closing x) as [x1 [r|[[] pe]]]; [done|by apply IH|].
    destruct pe, closing; exact Hturn. }
  destruct (fx_state x); [apply (Hgo false)|apply (Hgo true)|exact Hx|exact Hx].
Qed.

Definition rn_rel (c : FetchChan) (ph : FetchPhase) (s : Running) : Prop :=
  rn_sid s = fc_sid c /\ match rn_state s with RsNormal x => fx_rel c ph x | RsDone => True end.

Definition rn_step (c : FetchChan) (ph : FetchPhase) (s' : Running) (r : Poll (option (outcome running_error RunningItem))) : Prop :=
  match r with
  | Ready (Some (Ok y)) => exists x ph', fetch_step c ph x ph' /\ rn_of_fx x = Some y /\ rn_rel c ph' s'
  | _ => rn_rel c ph s'
  end.

Lemma fx_push_rel item c ph x : fx_rel c ph x -> fx_rel c ph (fx_inp_push_try item x).1.
Proof. unfold fx_inp_push_try. rewrite inp_buf_push_spec. by destruct (_ <? _)%nat. Qed.

Lemma rn_dispatch_rel inp fx c ph s : fx_rel c ph fx -> rn_rel c ph s -> rn_rel c ph (rn_dispatch_loop inp fx s).1.
Proof.
  revert fx s. induction inp as [|item inp IH]; intros fx s Hfx [Hs1 Hs2]; cbn [rn_dispatch_loop]; [done|].
  destruct (rn_to_mpx _).
  - pose proof (fx_push_rel item c ph fx Hfx) as Hp. destruct (fx_inp_push_try item fx) as [fx' [y|]]; [done|]. by apply IH.
  - destruct (cm_ty (prx_msg item)); try done. by apply IH.
Qed.

Lemma rn_turn_step ck c ph s :
  rn_rel c ph s ->
  match rn_turn ck s with
  | (s', inl r) => rn_step c ph s' r
  | (s', inr _) => rn_rel c ph s'
  end.
Proof.
  intros Hs. unfold rn_turn. pose proof Hs as [Hsid Hst]. destruct (rn_state s) as [fx|] eqn:Es; [|done].
  unfold rn_poll_inp_dispatch. rewrite Es. pose proof (rn_dispatch_rel (rn_inp_buf s) fx c ph s Hst Hs) as Hd.
  destruct (rn_dispatch_loop _ _ _) as [s1 r1]. cbn [fst] in Hd. destruct Hd as [Hd1 Hd2].
  assert (Hgo : forall progress : bool,
    match
      (match rn_state s1 with
      | RsDone => (s1, inr tt)
      | RsNormal fx =>
          let '(fx, r) := fx_poll_next ck fx in
          let self := rn_set_state (RsNormal fx) s1 in
          match r with
          | Ready (Some (Ok x)) =>
              match rn_of_fx x with
              | Some x => (self, inl (Ready (Some (Ok x))))
              | None => (self, inr tt)
              end
          | Ready (Some Panic) => (self, inl (Ready (Some Panic)))
          | Ready _ => (rn_set_state RsDone self, inr tt)
          | Pending => (self, if progress : bool then inr tt else inl Pending)
          end
      end)
    with
    | (s', inl r) => rn_step c ph s' r
    | (s', inr _) => rn_rel c ph s'
    end).
  { intros progress. destruct (rn_state s1) as [fx1|] eqn:Es1; [|split; [done|by rewrite Es1]].
    pose proof (fx_poll_loop_step (length (fx_inp_buf fx1) + length (fp_inp_buf (fx_polling fx1)) + 5) ck c ph fx1 Hd2) as Hf.
    unfold fx_poll_next. destruct (fx_poll_loop _ ck fx1) as [fx2 r2].
    destruct r2 as [[[x|e|]|]|]; try done; [|by destruct progress].
    destruct x; cbn [rn_of_fx]; try (destruct Hf as (ph' & Hf & Hr); eexists _, ph'; split; [exact Hf|]; split; [done|]; by split).
    done. }
  destruct r1 as [[[[]|e|]|]|]; [apply (Hgo true)|done..|apply (Hgo false)].
Qed.

Lemma rn_poll_loop_step fuel ck c ph s : rn_rel c ph s -> let '(s', r) := rn_poll_loop fuel ck s in rn_step c ph s' r.
Proof.
  revert s. induction fuel as [|fuel IH]; intros s Hs; cbn [rn_poll_loop]; [done|].
  pose proof (rn_turn_step ck c ph s Hs) as Ht. destruct (rn_turn ck s) as [s1 [r|[]]]; [done|by apply IH].
Qed.
End Fetch.
