(* ===== verification/HandlerRun.v ===== *)
(** * Runs of the handler of a channel

    A run is a sequence of what happens to a handler: polls, at any times,
    messages of the server and their end, commands, and the answer of the
    registry. *)
From Stdlib Require Import ZArith Lia String.
From stdpp Require Import base numbers option strings list.
From S2P Require Import Prelude TimeTypes NetpodTypes Retention Items Utf8 Floats CaProto CaHeap HandlerFetch HandlerFetchProofs Handler HandlerProofs HandlerSafety HandlerSession.

#[local] Open Scope Z_scope.
#[local] Open Scope rust_scope.

Section Run.
Context `{RngOps}.

Inductive HandlerEvent : Type :=
  | EvPoll (ck : Clock)
  | EvMessage (item : ProtoRxItem)
  | EvInputDone
  | EvCommand (c : HandlerCmd)
  | EvInfo (x : option (outcome unit ChannelInfoResult)).

(** The answer of the registry reaches the channel that waits for it. *)
Definition hd_info_arrives (x : option (outcome unit ChannelInfoResult)) (self : ChannelHandler) : ChannelHandler :=
  match hd_state self with HsCreating st => hd_set_state (HsCreating (cr_info_arrives x st)) self | _ => self end.

(** The handler after the event, unless it panics, and what it puts out. *)
Definition hd_event (ev : HandlerEvent) (h : ChannelHandler) : option ChannelHandler * list HandlerItem :=
  match ev with
  | EvPoll ck =>
      match hd_poll_next ck h with
      | (h, Ready (Some (Ok x))) => (Some h, [x])
      | (_, Ready (Some Panic)) => (None, [])
      | (h, _) => (Some h, [])
      end
  | EvMessage item => (Some (hd_inp_push_try item h).1, [])
  | EvInputDone => (hd_inp_done_set h, [])
  | EvCommand c => (Some (default h (hd_cmd_try_send c h)), [])
  | EvInfo x => (Some (hd_info_arrives x h), [])
  end.

Fixpoint hd_run (evs : list HandlerEvent) (h : ChannelHandler) : option ChannelHandler * list HandlerItem :=
  match evs with
  | [] => (Some h, [])
  | ev :: evs =>
      match hd_event ev h with
      | (Some h, l) => let '(r, l') := hd_run evs h in (r, l ++ l')
      | (None, l) => (None, l)
      end
  end.

(** ** Every run is a session *)

Section Rel.
Variables (cid : Z) (name backend : string) (is_polled : bool).
Let sess := session cid name backend is_polled.

Definition cr_rel (l : list HandlerItem) (st : Creating) : Prop :=
  cr_name st = name /\ cr_backend st = backend /\
  match cr_state st with
  | CsCreateChanSend [m] _ =>
      sess l SpNew /\ exists ts, m = CaMsg_from_ty_ts (CaCreateChan (mkCreateChan cid (bytes_of_string name))) ts
  | CsCreateChanSend [] _ | CsCreateChanRecv _ => sess l SpCreated
  | CsCreateChanSend _ _ => False
  | CsSeriesIdRecv _ sid t shape dbr _ => sess l (SpAsked sid t shape dbr)
  | CsDone => exists sp, sess l sp
  end.

Definition hd_rel (l : list HandlerItem) (h : ChannelHandler) : Prop :=
  (hd_cid h = cid /\ hd_name h = name /\ hd_backend h = backend /\ hd_is_polled h = is_polled /\ hd_outbuf h = []) /\
  match hd_state h with
  | HsInit => sess l SpNew
  | HsCreating st => cr_rel l st
  | HsRunning st => exists c ph, fc_cid c = cid /\ sess l (SpRunning c ph) /\ rn_rel c ph st
  | _ => exists sp, sess l sp
  end.

Lemma cr_rel_session l st : cr_rel l st -> exists sp, sess l sp.
Proof. intros (_ & _ & Hc). destruct (cr_state st) as [[|m [|? ?]] to|to|rx sid t sh dbr to|]; try done; eauto. destruct Hc; eauto. Qed.

Lemma hd_rel_session l h : hd_rel l h -> exists sp, sess l sp.
Proof.
  intros [_ Hh]. destruct (hd_state h) as [|st|st|ack fut to| | |]; eauto; [by eapply cr_rel_session|].
  destruct Hh as (c & ph & _ & Hh & _). eauto.
Qed.

Lemma cr_poll_loop_rel fuel ck l st :
  cr_rel l st ->
  match cr_poll_loop fuel ck st with
  | (st', Ready (Some (Ok (CiCaMsgOut m)))) => cr_rel (l ++ [ItProtoOut m]) st'
  | (st', Ready (Some (Ok (CiChannelInfoQuery q)))) => cr_rel (l ++ [ItChannelInfoQuery (HdChannelInfoQuery q)]) st'
  | (st', Ready (Some (Ok (CiDone sid t sh dbr _)))) => sess l (SpAsked sid t sh dbr)
  | (st', _) => cr_rel l st'
  end.
Proof.
  revert st. induction fuel as [|fuel IH]; intros st Hst; cbn [cr_poll_loop]; [done|].
  pose proof (cr_rel_session _ _ Hst) as Hsess. pose proof Hst as (Hn & Hb & Hs).
  assert (Hfail : forall inp, cr_rel l (cr_set CsDone inp st)) by done.
  destruct (cr_state st) as [msgs to|to|rx sid t sh dbr to|] eqn:Es; [| | |done].
  - destruct (timer_ready ck to); [done|]. destruct msgs as [|m [|]]; [by apply IH| |done]. destruct Hs as [Hs [ts ->]]. split_and!; [done..|].
    by apply ss_create.
  - destruct (timer_ready ck to); [done|]. destruct (cr_inp_buf st) as [|item inp]; [by destruct (cr_inp_done st); [apply IH|]|].
    set (s1 := cr_set _ _ _). assert (cr_rel l s1) as Hs1 by done.
    destruct (cm_ty (prx_msg item)); cbn [cr_on_msg]; try done; [|by apply IH]. destruct (6 <? _); [done|].
    destruct (ScalarType_from_ca_id _) as [t| |] eqn:Et; [|done..]. destruct (Shape_from_ca_count _) as [sh| |] eqn:Eh; [|done..].
    split_and!; [done..|]. cbn [s1 cr_set cr_state]. cbn [s1 cr_set cr_backend cr_name]. rewrite Hn, Hb. by eapply ss_ask.
  - destruct (timer_ready ck to); [done|]. by destruct rx as [[[x| |]|]|].
Qed.

(** *** The parts of a poll *)

Lemma hd_creating_rx_rel inp done idp l st : cr_rel l st -> cr_rel l (hd_poll_proto_rx_creating inp done idp st).1.2.
Proof.
  revert idp st. induction inp as [|item inp IH]; intros idp st Hst; cbn [hd_poll_proto_rx_creating]; [done|].
  unfold cr_poll_inp_push. rewrite inp_buf_push_spec. destruct (_ <? _)%nat; [|done]. by apply IH.
Qed.

Lemma rn_new_rel ck sid t sh dbr chi :
  rn_rel (mkFetchChan (cir_series chi) cid sid t sh dbr) (if is_polled then FhReady else FhIdle) (rn_new ck cid sid t sh dbr chi is_polled).
Proof.
  split; [done|]. cbn [rn_new rn_state]. unfold fx_new. destruct is_polled; [|done].
  destruct (fp_to_idle_rel ck (fp_log ck "transition_to_enable  State::DoNothing  enable immediately" (fp_new ck (mkFetchChan (cir_series chi) cid sid t sh dbr)))).
  by split_and!.
Qed.

Lemma hd_push_running_rel inp progress c ph st : rn_rel c ph st -> rn_rel c ph (hd_push_running inp progress st).1.1.2.
Proof.
  revert progress st. induction inp as [|item inp IH]; intros progress st Hst; cbn [hd_push_running]; [done|].
  unfold rn_inp_push_try. rewrite inp_buf_push_spec. destruct (_ <? _)%nat; [|done]. by apply IH.
Qed.

Definition hd_post_rel {A} (l : list HandlerItem) (r : ChannelHandler * (outcome handler_error HandlerItem + A)) : Prop :=
  match r with
  | (h, inl (Ok x)) => hd_rel (l ++ [x]) h
  | (h, _) => hd_rel l h
  end.

Lemma hd_turn_rel ck progress l h : hd_rel l h -> hd_post_rel l (hd_turn ck progress h).
Proof.
  intros Hh. pose proof (hd_rel_session _ _ Hh) as Hsess. pose proof Hh as [(Hc & Hn & Hb & Hp & Ho) Hs]. unfold hd_turn.
  destruct (hd_state h) as [|st|st|ack fut to| | |] eqn:Es.
  - split; [done|]. cbn [hd_set_state hd_set hd_state]. split_and!; [done..|]. cbn [cr_new cr_state]. rewrite Hc, Hn. eauto.
  - unfold hd_turn_creating. pose proof (hd_creating_rx_rel (hd_inp_buf h) (hd_inp_done h) 0 l st Hs) as Hst1.
    destruct (hd_poll_proto_rx_creating _ _ _ _) as [[inp st1] r]. cbn [fst snd] in Hst1.
    assert (Hgo : forall b : bool, hd_post_rel l
      (let '(st, r) := cr_poll_next ck st1 in
       let self := hd_set (HsCreating st) inp h in
       match r with
       | Ready (Some (Ok (CiCaMsgOut m))) => (self, inl (Ok (ItProtoOut m)))
       | Ready (Some (Ok (CiChannelInfoQuery q))) => (self, inl (Ok (ItChannelInfoQuery (HdChannelInfoQuery q))))
       | Ready (Some (Ok (CiDone sid scalar_type shape ca_dbr_ty chi))) =>
           (hd_set_state (HsRunning (rn_new ck (hd_cid self) sid scalar_type shape ca_dbr_ty chi (hd_is_polled self))) self, inr true)
       | Ready (Some _) => (self, inl Panic)
       | Ready None | Pending => (self, inr b)
       end)).
    { intros b. unfold cr_poll_next. pose proof (cr_poll_loop_rel (length (cr_inp_buf st1) + 4) ck l st1 Hst1) as Hl.
      destruct (cr_poll_loop _ ck st1) as [st2 [[[x| |]|]|]]; try done. destruct x as [m|q|sid t sh dbr chi]; [done..|].
      split; [done|]. cbn [hd_set_state hd_set hd_state hd_cid hd_is_polled]. rewrite Hc, Hp. eexists _, _.
      split; [|split; [|apply rn_new_rel]]; [done|]. by apply ss_registered. }
    destruct r as [[[|e|]|]|]; [by apply Hgo|done|by apply Hgo..].
  - destruct Hs as (c & ph & Hcc & Hs & Hrn). unfold hd_turn_running. pose proof (hd_push_running_rel (hd_inp_buf h) progress c ph st Hrn) as Hst1.
    destruct (hd_push_running _ _ _) as [[[inp st1] b] ?]. cbn [fst snd] in Hst1. unfold rn_poll_next.
    pose proof (rn_poll_loop_step 4 ck c ph st1 Hst1) as Hl. destruct (rn_poll_loop 4 ck st1) as [st2 [[[y| |]|]|]]; unfold rn_step in Hl;
      try (split; [done|]; cbn [hd_set_state hd_set hd_state]; eauto; fail).
    + destruct Hl as (x & ph' & Hx & Hy & Hl). split; [done|]. exists c, ph'. split; [done|]. split; [by eapply ss_fetch|done].
    + split; [done|]. destruct Hl as [-> _]. cbn [hd_set_state hd_set hd_state hd_cid]. rewrite Hc. eexists. by apply (ss_close _ _ _ _ _ _ ph).
  - unfold hd_turn_closing1. destruct (hd_inp_buf h); destruct (_ || timer_ready ck to); done.
  - done.
  - done.
  - done.
Qed.

Lemma rn_trigger_remove_rel ck c ph st : rn_rel c ph st -> rn_rel c ph (rn_trigger_remove ck st).
Proof. intros [H1 H2]. split; [done|]. cbn [rn_trigger_remove rn_state]. destruct (rn_state st); [|done]. by apply fx_closing_rel. Qed.

Lemma hd_handle_cmd_rel ck cmd l h h' : hd_rel l h -> hd_handle_cmd ck cmd h = Some h' -> hd_rel l h'.
Proof.
  intros Hh. pose proof (hd_rel_session _ _ Hh) as Hsess. unfold hd_handle_cmd. destruct cmd; [|by intros [= <-]].
  destruct (hd_removing h); [by intros [= <-]|]. pose proof Hh as [Hk Hs].
  unfold hd_handle_cmd_remove. cbn [hd_set_removing hd_state]. destruct (hd_state h) eqn:Es; intros [= <-]; (split; [done|]);
    cbn [hd_set_state hd_set hd_set_removing hd_state]; rewrite ?Es; try done.
  destruct Hs as (c & ph & ? & ? & ?). exists c, ph. by split_and!; [..|apply rn_trigger_remove_rel].
Qed.

Lemma hd_poll_loop_rel fuel ck l h :
  hd_rel l h ->
  match hd_poll_loop fuel ck h with
  | (h', Ready (Some (Ok x))) => hd_rel (l ++ [x]) h'
  | (_, Ready (Some Panic)) => True
  | (h', _) => hd_rel l h'
  end.
Proof.
  revert h. induction fuel as [|fuel IH]; intros h Hh; cbn [hd_poll_loop]; [done|].
  pose proof Hh as [(_ & _ & _ & _ & ->) _].
  assert (Hgo : forall h1 progress, hd_rel l h1 ->
    match
      (match hd_turn ck progress h1 with
       | (self, inl x) => (self, Ready (Some x))
       | (self, inr true) => hd_poll_loop fuel ck self
       | (self, inr false) => (self, Pending)
       end)
    with
    | (h', Ready (Some (Ok x))) => hd_rel (l ++ [x]) h'
    | (_, Ready (Some Panic)) => True
    | (h', _) => hd_rel l h'
    end).
  { intros h1 progress Hh1. pose proof (hd_turn_rel ck progress l h1 Hh1) as Ht. destruct (hd_turn ck progress h1) as [h2 [[x| |]|[]]]; try done.
    by apply IH. }
  destruct (hd_cmds h) as [|cmd cmds]; [by apply Hgo|]. assert (hd_rel l (hd_set_cmds cmds h)) as Hc by exact Hh.
  change (hd_state (hd_set_cmds cmds h)) with (hd_state h).
  destruct (hd_state h) eqn:Es; try (destruct (hd_handle_cmd ck cmd (hd_set_cmds cmds h)) as [h1|] eqn:Eh; [|done];
    cbn [fmap option_fmap option_map]; apply Hgo; by eapply hd_handle_cmd_rel). by apply Hgo.
Qed.

(** *** The events *)

Lemma hd_event_rel ev l h :
  hd_rel l h -> match hd_event ev h with (Some h', l') => hd_rel (l ++ l') h' | (None, l') => l' = [] end.
Proof.
  intros Hh. destruct ev as [ck|item| |cmd|x]; cbn [hd_event].
  - unfold hd_poll_next. pose proof (hd_poll_loop_rel (length (hd_cmds h) + length (hd_inp_buf h) + 10) ck l h Hh) as Hl.
    destruct (hd_poll_loop _ ck h) as [h' [[[x| |]|]|]]; rewrite ?app_nil_r; done.
  - rewrite app_nil_r. unfold hd_inp_push_try. destruct (inp_buf_push _ _ _). exact Hh.
  - pose proof (hd_rel_session _ _ Hh) as Hsess. unfold hd_inp_done_set. destruct Hh as [Hk Hs].
    destruct (hd_state h) as [|st|st|ack fut to| | |] eqn:Es; try done; rewrite app_nil_r; (split; [done|]); try done.
    destruct Hs as (c & ph & Hc & Hs & [Hr1 Hr2]). exists c, ph. split; [done|]. split; [done|]. split; [done|].
    cbn [rn_set_inp_done rn_state]. by destruct (rn_state st).
  - rewrite app_nil_r. unfold hd_cmd_try_send. destruct (_ <? _)%nat; exact Hh.
  - rewrite app_nil_r. unfold hd_info_arrives. destruct Hh as [Hk Hs].
    destruct (hd_state h) as [|st|st|ack fut to| | |] eqn:Es; (split; [done|]); cbn [hd_set_state hd_set hd_state]; rewrite ?Es; try done.
    destruct Hs as (Hn & Hb & Hs). unfold cr_info_arrives.
    destruct (cr_state st) as [msgs to|to|[a|] sid t sh dbr to|] eqn:Ec; (split; [done|]); (split; [done|]); cbn [cr_set cr_state]; rewrite ?Ec; done.
Qed.

Lemma hd_run_rel evs l h : hd_rel l h -> exists sp, session cid name backend is_polled (l ++ (hd_run evs h).2) sp.
Proof.
  revert l h. induction evs as [|ev evs IH]; intros l h Hh; cbn [hd_run].
  { rewrite app_nil_r. by eapply hd_rel_session. }
  pose proof (hd_event_rel ev l h Hh) as He. destruct (hd_event ev h) as [[h1|] l1].
  - destruct (IH _ _ He) as [sp Hsp]. exists sp. destruct (hd_run evs h1) as [r l2]. cbn [snd] in *. by rewrite app_assoc.
  - subst l1. cbn [snd]. rewrite app_nil_r. by eapply hd_rel_session.
Qed.
End Rel.

(** C25. Whatever happens around the handler of a channel, at whatever times - polls,
    messages of the server in any order, the end of them, commands, any answer of
    the registry -, what it puts out until it is done or panics is a session: the
    channel is created and the registry asked once, at most one read is on its
    way, the values of a monitor come between its begin and its end, all messages
    carry the ids of this channel, and nothing follows the close. *)
Theorem hd_run_session evs cid name backend is_polled :
  exists sp, session cid name backend is_polled (hd_run evs (hd_new cid backend name is_polled)).2 sp.
Proof. apply (hd_run_rel cid name backend is_polled evs [] (hd_new cid backend name is_polled)). split; [done|]. apply ss_new. Qed.

(** C32. A handler does not keep its connection busy: while the clock stands still and
    nothing comes in, it puts out at most [hd_left] items, however often it is
    polled; a new one 16. *)
Theorem hd_settles n ck h : (length (hd_run (replicate n (EvPoll ck)) h).2 <= hd_left ck h)%nat.
Proof.
  revert h. induction n as [|n IH]; intros h; cbn [replicate hd_run hd_event]; [cbn; lia|].
  pose proof (hd_poll_loop_left (length (hd_cmds h) + length (hd_inp_buf h) + 10) ck h) as Hl. unfold hd_poll_next.
  destruct (hd_poll_loop _ ck h) as [h' [[[x|e|]|]|]]; cbn [snd length]; try lia; specialize (IH h');
    destruct (hd_run (replicate n (EvPoll ck)) h') as [r l]; cbn [snd length app] in *; lia.
Qed.
End Run.

(** ** A session, for the examples *)

Definition rng_example : RngOps := {| Rng := unit; rng_from_os := tt; rng_next_u32 _ := (7, tt) |}.

#[local] Existing Instance rng_example.

Definition example_clock (s : Z) : Clock := mkClock (millis (1000 * s)) (millis (1000 * s)).
Definition example_item (ty : CaMsgTy) : ProtoRxItem := mkProtoRxItem (CaMsg_from_ty_ts ty 0) 0 0 0.
Definition example_polls (n : nat) (s : Z) : list HandlerEvent := replicate n (EvPoll (example_clock s)).

(** The channel is created: a double, for the series 42. *)
Definition example_start : list HandlerEvent :=
  [EvPoll (example_clock 0); EvMessage (example_item (CaCreateChanRes (mkCreateChanRes 6 1 3 5))); EvPoll (example_clock 0);
   EvInfo (Some (Ok (mkChannelInfoResult "scylla" "X:Y" 42))); EvPoll (example_clock 0)].

(** The kinds of what a polled channel puts out, the log aside. *)
Definition item_kind (x : HandlerItem) : list string :=
  match x with
  | ItProtoOut m | ItProtoOutIoid m _ _ | ItProtoOutSubid m _ =>
      match cm_ty m with
      | CaCreateChan _ => ["CreateChan"]
      | CaReadNotify _ => ["ReadNotify"]
      | CaEventAdd _ => ["EventAdd"]
      | CaEventCancel _ => ["EventCancel"]
      | CaChannelClose _ => ["ChannelClose"]
      | _ => ["other"]
      end
  | ItSubidRemove _ => ["SubidRemove"]
  | ItChannelInfoQuery _ => ["ChannelInfoQuery"]
  | ItTestValue _ => ["TestValue"]
  | ItLocalLog _ => []
  | ItChannelStatus _ => ["ChannelStatus"]
  | ItChannelEventValue _ => ["Value"]
  end.

Example polled_session_run :
  let read := EvMessage (example_item (CaReadNotifyRes (mkReadNotifyRes 20 1 5 1 8 (mkCaEventValue (CaScalarVal (ScF64 0)) (MvTime (mkCaMetaTime 0 0 0 0)))))) in
  (hd_run (example_start ++ example_polls 4 0 ++ example_polls 4 10 ++ [read] ++ example_polls 4 11 ++ example_polls 4 20)
     (hd_new 3 "scylla" "X:Y" true)).2 ≫= item_kind = ["CreateChan"; "ChannelInfoQuery"; "ReadNotify"; "Value"; "ReadNotify"].
Proof. vm_compute. reflexivity. Qed.

Definition example_update (bits : Z) : HandlerEvent :=
  EvMessage (example_item (CaEventAddRes (mkEventAddRes 20 1 1 5 8 (mkCaEventValue (CaScalarVal (ScF64 bits)) (MvTime (mkCaMetaTime 0 0 0 0)))))).

Example monitored_session_run :
  let empty := EvMessage (example_item (CaEventAddResEmpty (mkEventAddResEmpty 20 5 1))) in
  let close := EvMessage (example_item (CaChannelCloseRes (mkChannelCloseRes 5 3))) in
  let '(h, l) :=
    hd_run (example_start ++ example_polls 5 0 ++ [example_update 0; example_update 0] ++ example_polls 5 1 ++
              [EvCommand CmdRemove] ++ example_polls 9 2 ++ [empty] ++ example_polls 9 3 ++ [close] ++ example_polls 2 3)
      (hd_new 3 "scylla" "X:Y" false) in
  l ≫= item_kind = ["CreateChan"; "ChannelInfoQuery"; "EventAdd"; "Value"; "Value"; "EventCancel"; "SubidRemove"; "ChannelClose"] /\
  hd_answers <$> h = Some 1%nat.
Proof. vm_compute. split; reflexivity. Qed.
