(* ===== verification/HandlerCalm.v ===== *)
(** * The handler of a running channel does not panic, and settles

    The loops of [Running] and of the handler have fuel enough; what can panic is
    a command to remove in a state that does not expect it, and the end of the
    input while the channel closes. *)
From Stdlib Require Import ZArith Lia String.
From stdpp Require Import base numbers option strings list.
From S2P Require Import Prelude TimeTypes NetpodTypes Retention Items Utf8 Floats CaProto CaHeap HandlerFetch HandlerFetchProofs Handler HandlerProofs HandlerSafety HandlerSession HandlerRun.

#[local] Open Scope Z_scope.
#[local] Open Scope rust_scope.

Section Calm.
Context `{RngOps}.

(** ** [Running] *)

Definition rn_ok (s : Running) : Prop :=
  match rn_state s with
  | RsNormal x => fx_ok x /\ fx_inp_done x = rn_inp_done s /\ (length (rn_inp_buf s) <= RUNNING_INP_CAP)%nat
  | RsDone => True
  end.

(** The turns that a poll needs. *)
Definition rn_need (s : Running) : nat :=
  match rn_state s with
  | RsNormal x => match rn_inp_done s, fx_inp_buf x with true, [] => 2 | _, _ => 3 end
  | RsDone => 1
  end%nat.

Lemma fx_push_ok item x :
  fx_ok x ->
  match fx_inp_push_try item x with
  | (x', r) => fx_ok x' /\ fx_inp_done x' = fx_inp_done x /\
      match r with
      | None => length (fx_inp_buf x') = S (length (fx_inp_buf x))
      | Some y => y = item /\ (FX_INP_CAP <= length (fx_inp_buf x))%nat
      end
  end.
Proof.
  intros []. unfold fx_inp_push_try. rewrite inp_buf_push_spec. destruct (Nat.ltb_spec (length (fx_inp_buf x)) FX_INP_CAP) as [Hl|Hl].
  - split; [by split|]. split; [done|]. cbn [fx_set fx_inp_buf]. rewrite length_app. cbn. lia.
  - split; [by split|]. done.
Qed.

Lemma rn_dispatch_safe inp fx s :
  rn_state s = RsNormal fx -> rn_inp_buf s = inp -> fx_ok fx -> fx_inp_done fx = rn_inp_done s -> (length inp <= RUNNING_INP_CAP)%nat ->
  match rn_dispatch_loop inp fx s with
  | (s', r) => (rn_ok s' /\ rn_inp_done s' = rn_inp_done s) /\ rn_state s' <> RsDone /\
      match r with
      | Ready (Some (Ok _)) | Ready (Some Panic) => False
      | Pending => rn_inp_done s = true -> (FX_INP_CAP < length inp + length (fx_inp_buf fx))%nat
      | _ => True
      end
  end.
Proof.
  revert fx s. induction inp as [|item inp IH]; intros fx s Hs Hi Hok Hd Hl; cbn [rn_dispatch_loop].
  { unfold rn_ok. rewrite Hs, Hi. split; [done|]. split; [done|]. by destruct (rn_inp_done s). }
  cbn [length] in Hl |- *. destruct (rn_to_mpx _).
  - pose proof (fx_push_ok item fx Hok) as Hp. destruct (fx_inp_push_try item fx) as [fx' [y|]].
    + destruct Hp as (Hp1 & Hp2 & -> & Hp3). split; [|split; [done|cbn; lia]]. split; [|done]. split; [done|]. split; [by rewrite Hp2|done].
    + destruct Hp as (Hp1 & Hp2 & Hp3). specialize (IH fx' (rn_set (RsNormal fx') (rn_chan_close_ack s) inp s) eq_refl eq_refl Hp1 ltac:(cbn [rn_set rn_inp_done]; congruence) ltac:(lia)).
      destruct (rn_dispatch_loop _ _ _) as [s' [[[]|]|]]; cbn [rn_set rn_inp_done] in IH; destruct_and?; split_and!; try done;
        intros Hdn; match goal with H : _ = true -> _ |- _ => specialize (H Hdn) end; lia.
  - assert (rn_ok (rn_set (RsNormal fx) (rn_chan_close_ack s) inp s)) as Herr by (split; [done|split; [done|cbn; lia]]).
    destruct (cm_ty (prx_msg item)); try done.
    specialize (IH fx (rn_set (RsNormal fx) (rn_removing s || rn_chan_close_ack s) inp s) eq_refl eq_refl Hok Hd ltac:(lia)).
    destruct (rn_dispatch_loop _ _ _) as [s' [[[]|]|]]; cbn [rn_set rn_inp_done] in IH; destruct_and?; split_and!; try done;
        intros Hdn; match goal with H : _ = true -> _ |- _ => specialize (H Hdn) end; lia.
Qed.

Lemma rn_turn_safe ck s :
  rn_ok s ->
  match rn_turn ck s with
  | (s', inl r) => rn_ok s' /\ match r with Ready (Some (Ok _)) | Ready None | Pending => True | Ready (Some _) => False end
  | (s', inr _) => rn_ok s' /\ (rn_need s' < rn_need s)%nat
  end.
Proof.
  intros Hs. pose proof Hs as Hok. unfold rn_turn, rn_ok, rn_need in *. destruct (rn_state s) as [fx|] eqn:Es; [|by rewrite Es].
  destruct Hok as (Hf & Hd & Hl). unfold rn_poll_inp_dispatch. rewrite Es.
  assert (forall b l, 1 < match b : bool, l : list ProtoRxItem with true, [] => 2 | _, _ => 3 end)%nat as Hn by (intros [] []; lia).
  pose proof (rn_dispatch_safe (rn_inp_buf s) fx s Es eq_refl Hf Hd Hl) as Hds.
  destruct (rn_dispatch_loop _ _ _) as [s1 [[[[]|e|]|]|]]; destruct Hds as ((Hs1 & Hsame) & Hne & Hr); try done; try (split; [done|apply Hn]).
  unfold rn_ok in Hs1. destruct (rn_state s1) as [fx1|] eqn:Es1; [|done]. destruct Hs1 as (Hf1 & Hd1 & Hl1).
  pose proof (fx_poll_next_safe ck fx1 Hf1) as Hp. destruct (fx_poll_next ck fx1) as [fx2 [[r|]|]].
  - destruct Hp as ((Hf2 & _ & Hd2 & _) & Hp & Hdone).
    assert (rn_ok (rn_set_state (RsNormal fx2) s1)) as Hok by (split; [done|split; [by rewrite Hd2|done]]).
    destruct r as [y|e|]; [|split; [done|apply Hn]|done]. destruct (rn_of_fx y) as [z|] eqn:Ey; [done|]. split; [exact Hok|].
    destruct y; try done. destruct (Hdone eq_refl) as [Hdx Hb]. cbn [rn_set_state rn_set rn_state rn_inp_done rn_inp_buf].
    rewrite <- Hd1, Hdx, Hb.
    destruct (rn_inp_done s) eqn:Edn; [|lia].
    destruct (fx_inp_buf fx) eqn:Eb; [|lia]. specialize (Hr eq_refl). cbn in Hr, Hl. unfold FX_INP_CAP, RUNNING_INP_CAP in *. lia.
  - split; [done|apply Hn].
  - destruct Hp as (Hf2 & _ & Hd2 & _). split; [|done]. split; [done|]. split; [by rewrite Hd2|done].
Qed.

Lemma rn_poll_loop_safe fuel ck s :
  rn_ok s ->
  match rn_poll_loop fuel ck s with
  | (s', r) => rn_ok s' /\
      match r with Ready (Some (Ok _)) | Ready None | Pending => True | Ready (Some _) => (fuel < rn_need s)%nat end
  end.
Proof.
  revert s. induction fuel as [|fuel IH]; intros s Hs; cbn [rn_poll_loop].
  { split; [done|]. unfold rn_need. destruct (rn_state s); [|lia]. destruct (rn_inp_done s), (fx_inp_buf fx); lia. }
  pose proof (rn_turn_safe ck s Hs) as Ht. destruct (rn_turn ck s) as [s1 [r|[]]].
  - destruct Ht as [Ht Hr]. split; [done|]. by destruct r as [[[]|]|].
  - destruct Ht as [Ht Hn]. specialize (IH s1 Ht). destruct (rn_poll_loop fuel ck s1) as [s2 [[[]|]|]]; destruct_and?; split; done || lia.
Qed.

Lemma rn_poll_next_safe ck s :
  rn_ok s ->
  match rn_poll_next ck s with
  | (s', r) => rn_ok s' /\ match r with Ready (Some (Ok _)) | Ready None | Pending => True | Ready (Some _) => False end
  end.
Proof.
  intros Hs. unfold rn_poll_next. pose proof (rn_poll_loop_safe 4 ck s Hs) as Hl.
  assert (rn_need s <= 3)%nat by (unfold rn_need; destruct (rn_state s); [destruct (rn_inp_done s), (fx_inp_buf fx)|]; lia).
  destruct (rn_poll_loop 4 ck s) as [s' [[[]|]|]]; destruct_and?; split; done || lia.
Qed.

(** ** What the states of the handler keep *)

Definition cr_ok (st : Creating) : Prop :=
  match cr_state st with CsSeriesIdRecv _ _ _ shape _ _ => is_ok (Shape_to_ca_count shape) | _ => True end.

Definition hd_inv (h : ChannelHandler) : Prop :=
  match hd_state h with HsCreating st => cr_ok st | HsRunning st => rn_ok st | _ => True end.

Lemma cr_poll_loop_ok fuel ck st :
  cr_ok st ->
  match cr_poll_loop fuel ck st with
  | (_, Ready (Some (Ok (CiDone _ _ sh _ _)))) => is_ok (Shape_to_ca_count sh)
  | (st', _) => cr_ok st'
  end.
Proof.
  revert st. induction fuel as [|fuel IH]; intros st Hst; cbn [cr_poll_loop]; [done|].
  pose proof Hst as Hs. unfold cr_ok in Hs. destruct (cr_state st) as [msgs to|to|rx sid t sh dbr to|] eqn:Es; [| | |done];
    (destruct (timer_ready ck to); [done|]).
  - destruct msgs; [by apply IH|done].
  - destruct (cr_inp_buf st) as [|item inp]; [by destruct (cr_inp_done st); [apply IH|]|].
    set (s1 := cr_set _ _ _). assert (cr_ok s1) as Hs1 by done.
    destruct (cm_ty (prx_msg item)); cbn [cr_on_msg]; try done; [|by apply IH]. destruct (6 <? _); [done|].
    destruct (ScalarType_from_ca_id _); [|done..]. destruct (Shape_from_ca_count _) as [sh| |] eqn:Eh; [|done..].
    by apply Shape_from_ca_count_ok in Eh.
  - by destruct rx as [[[x| |]|]|].
Qed.

Lemma hd_creating_rx_ok inp done idp st : cr_ok st -> cr_ok (hd_poll_proto_rx_creating inp done idp st).1.2.
Proof.
  revert idp st. induction inp as [|item inp IH]; intros idp st Hst; cbn [hd_poll_proto_rx_creating]; [done|].
  unfold cr_poll_inp_push. rewrite inp_buf_push_spec. destruct (_ <? _)%nat; [|done]. by apply IH.
Qed.

Lemma rn_new_ok ck cid sid t sh dbr chi polled : is_ok (Shape_to_ca_count sh) -> rn_ok (rn_new ck cid sid t sh dbr chi polled).
Proof.
  intros Hsh. unfold rn_ok, rn_new. cbn [rn_state rn_inp_done rn_inp_buf]. unfold fx_new.
  destruct polled; (split; [|split; [done|cbn; lia]]); (split; [|exact Hsh|done]); [|exact Hsh].
  cbn [fx_polling]. unfold fp_transition_to_enable. cbn [fp_new fp_state].
  by destruct (fp_to_idle_rel ck (fp_log ck "transition_to_enable  State::DoNothing  enable immediately" (fp_new ck (mkFetchChan (cir_series chi) cid sid t sh dbr)))) as [-> _].
Qed.

Lemma hd_push_running_ok inp progress st :
  rn_ok st ->
  match hd_push_running inp progress st with
  | (inp', st', progress', _) => rn_ok st' /\ (length inp' <= length inp)%nat /\
      (progress' = true -> progress = true \/ (length inp' < length inp)%nat)
  end.
Proof.
  revert progress st. induction inp as [|item inp IH]; intros progress st Hst; cbn [hd_push_running].
  { split_and!; [done..|by left]. }
  assert (match rn_inp_push_try item st with (st', _) => rn_ok st' end) as Hp.
  { unfold rn_inp_push_try. rewrite inp_buf_push_spec. destruct (Nat.ltb_spec (length (rn_inp_buf st)) RUNNING_INP_CAP).
    - revert Hst. unfold rn_ok. cbn [rn_set rn_state rn_inp_done rn_inp_buf]. destruct (rn_state st); [|done]. rewrite length_app. cbn. intuition lia.
    - revert Hst. unfold rn_ok. cbn [rn_set rn_state rn_inp_done rn_inp_buf]. by destruct (rn_state st). }
  destruct (rn_inp_push_try item st) as [st1 [y|]]; [split_and!; [done..|by left]|].
  specialize (IH true st1 Hp). destruct (hd_push_running inp true st1) as [[[inp' st'] pr] ?]. cbn [length]. destruct_and?.
  split_and!; [done|lia|]. intros _. right. lia.
Qed.

Lemma hd_turn_inv ck progress h : hd_inv h -> hd_inv (hd_turn ck progress h).1.
Proof.
  unfold hd_turn, hd_inv at 1. destruct (hd_state h) as [|st|st|ack fut to| | |] eqn:Es; intros Hs; try done; [| | |by cbn [fst]; unfold hd_inv; rewrite Es].
  - unfold hd_turn_creating. pose proof (hd_creating_rx_ok (hd_inp_buf h) (hd_inp_done h) 0 st Hs) as Hst1.
    destruct (hd_poll_proto_rx_creating _ _ _ _) as [[inp st1] r]. cbn [fst snd] in Hst1. unfold cr_poll_next.
    pose proof (cr_poll_loop_ok (length (cr_inp_buf st1) + 4) ck st1 Hst1) as Hl.
    destruct r as [[[|e|]|]|]; [|done|..]; (destruct (cr_poll_loop _ ck st1) as [st2 [[[[]| |]|]|]]; try exact Hl; by apply rn_new_ok).
  - unfold hd_turn_running. pose proof (hd_push_running_ok (hd_inp_buf h) progress st Hs) as Hp.
    destruct (hd_push_running _ _ _) as [[[inp st1] b] ?]. destruct Hp as [Hp _]. pose proof (rn_poll_next_safe ck st1 Hp) as Hr.
    destruct (rn_poll_next ck st1) as [st2 [[[y| |]|]|]]; destruct Hr as [Hr ?]; try done.
  - unfold hd_turn_closing1. destruct (hd_inp_buf h); by destruct (_ || timer_ready ck to).
Qed.

Lemma rn_trigger_remove_ok ck st : rn_ok st -> rn_ok (rn_trigger_remove ck st).
Proof.
  unfold rn_ok, rn_trigger_remove. cbn [rn_state rn_inp_done rn_inp_buf]. destruct (rn_state st) as [x|]; [|done]. intros (Hx & Hd & Hl).
  destruct (fx_trigger_closing_next ck x Hx) as [(H1 & _ & H3 & _) _]. split; [done|]. split; [|done]. unfold fx_trigger_remove. congruence.
Qed.

Lemma hd_handle_cmd_inv ck c h h' : hd_inv h -> hd_handle_cmd ck c h = Some h' -> hd_inv h'.
Proof.
  unfold hd_handle_cmd. intros Hh. destruct c; [|by intros [= <-]]. destruct (hd_removing h); [by intros [= <-]|].
  unfold hd_handle_cmd_remove. cbn [hd_set_removing hd_state]. unfold hd_inv in Hh.
  destruct (hd_state h) eqn:Es; intros [= <-]; unfold hd_inv; cbn [hd_set_state hd_set hd_set_removing hd_state]; rewrite ?Es; try done.
  by apply rn_trigger_remove_ok.
Qed.

Lemma hd_poll_loop_inv fuel ck h : hd_inv h -> hd_inv (hd_poll_loop fuel ck h).1.
Proof.
  revert h. induction fuel as [|fuel IH]; intros h Hh; cbn [hd_poll_loop]; [done|].
  destruct (hd_outbuf h); [|done].
  assert (Hgo : forall h1 progress, hd_inv h1 -> hd_inv
    (match hd_turn ck progress h1 with
     | (self, inl x) => (self, Ready (Some x))
     | (self, inr true) => hd_poll_loop fuel ck self
     | (self, inr false) => (self, Pending)
     end).1).
  { intros h1 progress Hh1. pose proof (hd_turn_inv ck progress h1 Hh1) as Ht. destruct (hd_turn ck progress h1) as [h2 [x|[]]]; try done. by apply IH. }
  destruct (hd_cmds h) as [|c cmds]; [by apply Hgo|]. assert (hd_inv (hd_set_cmds cmds h)) as Hc by exact Hh.
  change (hd_state (hd_set_cmds cmds h)) with (hd_state h).
  destruct (hd_state h) eqn:Es; try (destruct (hd_handle_cmd ck c (hd_set_cmds cmds h)) as [h1|] eqn:Eh; [|done];
    cbn [fmap option_fmap option_map]; apply Hgo; by eapply hd_handle_cmd_inv). by apply Hgo.
Qed.

Lemma rn_set_inp_done_ok st : rn_ok st -> rn_ok (rn_set_inp_done st).
Proof.
  unfold rn_ok, rn_set_inp_done. cbn [rn_state rn_inp_done rn_inp_buf]. destruct (rn_state st) as [x|]; [|done].
  intros ([] & Hd & Hl). split; [by split|done].
Qed.

Lemma hd_event_inv ev h : hd_inv h -> match (hd_event ev h).1 with Some h' => hd_inv h' | None => True end.
Proof.
  intros Hh. destruct ev as [ck|item| |cmd|x]; cbn [hd_event].
  - unfold hd_poll_next. pose proof (hd_poll_loop_inv (length (hd_cmds h) + length (hd_inp_buf h) + 10) ck h Hh) as Hl.
    by destruct (hd_poll_loop _ ck h) as [h' [[[x| |]|]|]].
  - unfold hd_inp_push_try. destruct (inp_buf_push _ _ _). exact Hh.
  - unfold hd_inp_done_set. cbn [fst]. unfold hd_inv in Hh. destruct (hd_state h) as [|st|st|ack fut to| | |] eqn:Es; try done. by apply rn_set_inp_done_ok.
  - unfold hd_cmd_try_send. destruct (_ <? _)%nat; exact Hh.
  - unfold hd_info_arrives, hd_inv in *. cbn [fst]. destruct (hd_state h) as [|st|st|ack fut to| | |] eqn:Es; cbn [hd_set_state hd_set hd_state]; rewrite ?Es; try done.
    unfold cr_info_arrives, cr_ok in *. destruct (cr_state st) as [msgs to|to|[a|] sid t sh dbr to|] eqn:Ec; cbn [cr_set cr_state]; rewrite ?Ec; done.
Qed.

Lemma hd_run_inv evs h : hd_inv h -> match (hd_run evs h).1 with Some h' => hd_inv h' | None => True end.
Proof.
  revert h. induction evs as [|ev evs IH]; intros h Hh; cbn [hd_run]; [done|].
  pose proof (hd_event_inv ev h Hh) as He. destruct (hd_event ev h) as [[h1|] l1]; [|done]. specialize (IH h1 He).
  by destruct (hd_run evs h1) as [r l2].
Qed.

(** ** No panic *)

Definition is_remove (c : HandlerCmd) : bool := match c with CmdRemove => true | CmdChannelHandlerStatus => false end.
Definition hd_no_remove (h : ChannelHandler) : bool := hd_removing h || forallb (fun c => negb (is_remove c)) (hd_cmds h).

(** What a handler can take: a poll, once the channel is created, unless a command
    to remove comes when it closes of itself; the end of the input, unless it
    closes. *)
Definition hd_allows (ev : HandlerEvent) (h : ChannelHandler) : bool :=
  match ev, hd_state h with
  | EvPoll _, (HsInit | HsCreating _) => false
  | EvPoll _, HsRunning _ => true
  | EvPoll _, _ => hd_no_remove h
  | EvInputDone, (HsClosing1 _ _ _ | HsClosing2) => false
  | _, _ => true
  end.

Definition hd_calm (h : ChannelHandler) : Prop :=
  match hd_state h with HsInit | HsCreating _ => False | HsRunning st => rn_ok st | _ => hd_no_remove h = true end.

Definition hd_rank (st : HandlerState) : nat :=
  match st with
  | HsInit | HsCreating _ => 0
  | HsRunning _ | HsDone => 1
  | HsDone1 => 2
  | HsClosing2 => 3
  | HsClosing1 _ fut _ => if fut then 5 else 4
  end%nat.

(** The turns that a poll needs. *)
Definition hd_need (h : ChannelHandler) : nat := (length (hd_cmds h) + length (hd_inp_buf h) + hd_rank (hd_state h))%nat.

Lemma hd_turn_calm ck progress h :
  hd_calm h ->
  match hd_turn ck progress h with
  | (h', inl r) => match r with Ok _ => True | _ => False end
  | (h', inr b) => hd_calm h' /\ (hd_need h' <= hd_need h)%nat /\ (b = true -> progress = true \/ (hd_need h' < hd_need h)%nat)
  end.
Proof.
  intros Hc. pose proof Hc as Hs. unfold hd_calm, hd_no_remove in Hs. unfold hd_turn, hd_need. destruct (hd_state h) as [|st|st|ack fut to| | |] eqn:Es; try done.
  - unfold hd_turn_running. pose proof (hd_push_running_ok (hd_inp_buf h) progress st Hs) as Hp.
    destruct (hd_push_running _ _ _) as [[[inp st1] b] ?]. destruct Hp as (Hp & Hle & Hb). pose proof (rn_poll_next_safe ck st1 Hp) as Hr.
    destruct (rn_poll_next ck st1) as [st2 [[[y| |]|]|]]; destruct Hr as [Hr ?]; try done. split; [done|]. cbn [hd_set hd_cmds hd_inp_buf hd_state hd_rank].
    split; [lia|]. intros ->. destruct (Hb eq_refl); [by left|right; lia].
  - unfold hd_turn_closing1. destruct (hd_inp_buf h) as [|item inp]; destruct (_ || timer_ready ck to); (split; [exact Hs|]);
      cbn [hd_set hd_cmds hd_inp_buf hd_state hd_rank length]; (split; [destruct fut; lia|]); intros Hb; destruct fut, progress; cbn in Hb; auto; right; lia.
  - split; [exact Hs|]. cbn. split; [lia|]. right. lia.
  - split; [exact Hs|]. cbn. split; [lia|]. right. lia.
  - split; [exact Hc|]. rewrite Es. split; [done|]. by left.
Qed.

Lemma hd_handle_cmd_calm ck c h :
  hd_calm h -> (is_remove c = true -> hd_removing h = true \/ exists st, hd_state h = HsRunning st) ->
  exists h', hd_handle_cmd ck c h = Some h' /\ hd_calm h' /\ hd_need h' = hd_need h /\ hd_cmds h' = hd_cmds h.
Proof.
  intros Hc Hr. unfold hd_handle_cmd. destruct c; [|eauto]. destruct (hd_removing h) eqn:Er; [eauto|].
  destruct (Hr eq_refl) as [|[st Hst]]; [done|]. unfold hd_handle_cmd_remove. cbn [hd_set_removing hd_state]. rewrite Hst.
  eexists. split; [done|]. unfold hd_calm in *. cbn [hd_set_state hd_set hd_state]. rewrite Hst in Hc. split; [by apply rn_trigger_remove_ok|].
  unfold hd_need. by rewrite Hst.
Qed.

Lemma hd_calm_cmd c cmds h : hd_cmds h = c :: cmds -> hd_calm h ->
  hd_calm (hd_set_cmds cmds h) /\ (is_remove c = true -> hd_removing h = true \/ exists st, hd_state h = HsRunning st).
Proof.
  intros Hc. unfold hd_calm, hd_no_remove. cbn [hd_set_cmds hd_state hd_removing hd_cmds]. rewrite Hc. cbn [forallb].
  destruct (hd_state h), (hd_removing h), (is_remove c); cbn; eauto; done.
Qed.

Lemma hd_poll_loop_calm fuel ck h :
  hd_calm h -> (hd_need h <= fuel)%nat ->
  match (hd_poll_loop fuel ck h).2 with Ready (Some (Ok _)) | Pending => True | _ => False end.
Proof.
  revert h. induction fuel as [|fuel IH]; intros h Hh Hf; cbn [hd_poll_loop].
  { unfold hd_need, hd_calm in *. destruct (hd_state h); cbn in *; try done; try lia. destruct hc_fut; lia. }
  destruct (hd_outbuf h); [|done].
  assert (Hgo : forall h1 progress, hd_calm h1 -> (hd_need h1 <= S fuel)%nat -> (progress = true -> hd_need h1 <= fuel)%nat ->
    match
      (match hd_turn ck progress h1 with
       | (self, inl x) => (self, Ready (Some x))
       | (self, inr true) => hd_poll_loop fuel ck self
       | (self, inr false) => (self, Pending)
       end).2
    with Ready (Some (Ok _)) | Pending => True | _ => False end).
  { intros h1 progress Hh1 Hn1 Hn2. pose proof (hd_turn_calm ck progress h1 Hh1) as Ht. destruct (hd_turn ck progress h1) as [h2 [[]|[]]]; try done.
    destruct Ht as (Ht & Hle & Hb). apply IH; [done|]. destruct (Hb eq_refl) as [Hp|]; [specialize (Hn2 Hp)|]; lia. }
  destruct (hd_cmds h) as [|c cmds] eqn:Ec; [by apply Hgo|]. destruct (hd_calm_cmd c cmds h Ec Hh) as [Hc Hrem].
  assert (S (hd_need (hd_set_cmds cmds h)) = hd_need h) as Hn by (unfold hd_need; cbn [hd_set_cmds hd_cmds hd_inp_buf hd_state]; rewrite Ec; cbn; lia).
  change (hd_state (hd_set_cmds cmds h)) with (hd_state h).
  destruct (hd_handle_cmd_calm ck c (hd_set_cmds cmds h) Hc Hrem) as (h1 & Hh1 & Hc1 & Hn1 & _).
  destruct (hd_state h); try (rewrite Hh1; cbn [fmap option_fmap option_map]; apply Hgo; [done|lia|lia]). apply Hgo; [done|lia|lia].
Qed.

(** C27. Once its channel runs, the handler neither panics nor fails: from any state
    that a run from the start reaches, every poll puts out an item or waits, and
    every other event is taken - but for the end of the input while the channel
    closes, and polls with a command to remove while it closes of itself. The
    loops have fuel enough. *)
Theorem hd_run_calm evs ev cid backend name is_polled h l :
  hd_run evs (hd_new cid backend name is_polled) = (Some h, l) -> hd_allows ev h = true ->
  is_Some (hd_event ev h).1 /\
  forall ck, ev = EvPoll ck -> match (hd_poll_next ck h).2 with Ready (Some (Ok _)) | Pending => True | _ => False end.
Proof.
  intros Hrun Ha. assert (hd_inv h) as Hi by (pose proof (hd_run_inv evs (hd_new cid backend name is_polled) I) as Hi; by rewrite Hrun in Hi).
  assert (Hpoll : forall ck, ev = EvPoll ck -> match (hd_poll_next ck h).2 with Ready (Some (Ok _)) | Pending => True | _ => False end).
  { intros ck ->. apply hd_poll_loop_calm; [|unfold hd_need; destruct (hd_state h) as [| | |? []| | |]; cbn; lia].
    unfold hd_calm. unfold hd_inv in Hi. cbn [hd_allows] in Ha. by destruct (hd_state h). }
  split; [|done]. destruct ev as [ck|item| |c|x]; cbn [hd_event fst]; [|eauto..].
  - specialize (Hpoll ck eq_refl). by destruct (hd_poll_next ck h) as [h' [[[]|]|]].
  - cbn [hd_allows] in Ha. unfold hd_inp_done_set. destruct (hd_state h); eauto; done.
Qed.
End Calm.

#[local] Existing Instance rng_example.

(** A monitored channel with a command to remove in the queue, and one that waits
    for the close after it was removed. *)
Lemma hd_run_calm_witness :
  let h := hd_new 3 "scylla" "X:Y" false in
  match hd_run (example_start ++ [EvCommand CmdRemove]) h with
  | (Some h, l) => is_Some (hd_event (EvPoll (example_clock 0)) h).1 /\
      forall ck, EvPoll (example_clock 0) = EvPoll ck -> match (hd_poll_next ck h).2 with Ready (Some (Ok _)) | Pending => True | _ => False end
  | _ => False
  end.
Proof.
  intros h. destruct (hd_run (example_start ++ [EvCommand CmdRemove]) h) as [[h'|] l] eqn:E; [|vm_compute in E; discriminate E].
  apply (hd_run_calm (example_start ++ [EvCommand CmdRemove]) (EvPoll (example_clock 0)) 3 "scylla" "X:Y" false h' l E).
  vm_compute in E. injection E as <- _. vm_compute. reflexivity.
Defined.
