(* ===== verification/HandlerHang.v ===== *)
(** * What a polled channel waits for

    A polled channel leaves its running state only when the input ends or a
    message comes that it did not ask for, and it asks again only after an answer:
    until then removing it does not end, and a lost answer ends the polling. *)
From Stdlib Require Import ZArith Lia String.
From stdpp Require Import base numbers option strings list.
From S2P Require Import Prelude TimeTypes NetpodTypes Retention Items Utf8 Floats CaProto CaHeap HandlerFetch HandlerFetchProofs Handler HandlerProofs HandlerSafety HandlerSession HandlerRun HandlerCalm.

#[local] Open Scope Z_scope.
#[local] Open Scope rust_scope.

(** Messages for a running channel; with [lost], not the value of a read. *)
Definition expected (lost : bool) (ty : CaMsgTy) : bool :=
  match ty with
  | CaReadNotifyRes _ => negb lost
  | CaEventAddRes _ | CaEventAddResEmpty _ | CaChannelCloseRes _ => true
  | _ => false
  end.
Definition msgs_ok (P : CaMsgTy -> bool) (l : list ProtoRxItem) : Prop := Forall (fun item => P (cm_ty (prx_msg item)) = true) l.
Definition not_read (ty : CaMsgTy) : bool := match ty with CaReadNotifyRes _ => false | _ => true end.

(** Nothing is put into the buffer for the output. *)
Lemma hd_turn_outbuf `{RngOps} ck progress h : hd_outbuf (hd_turn ck progress h).1 = hd_outbuf h.
Proof.
  unfold hd_turn, hd_turn_creating, hd_turn_running, hd_turn_closing1.
  destruct (hd_state h) as [|st|st|ack fut to| | |]; try done.
  - destruct (hd_poll_proto_rx_creating _ _ _ _) as [[inp st1] r]. destruct (cr_poll_next ck st1) as [st2 r2].
    destruct r as [[[]|]|], r2 as [[[[]| |]|]|]; done.
  - destruct (hd_push_running _ _ _) as [[[inp st1] b] ?]. destruct (rn_poll_next ck st1) as [st2 [[[]|]|]]; done.
  - destruct (hd_inp_buf h); by destruct (_ || timer_ready ck to).
Qed.

Lemma hd_handle_cmd_outbuf `{RngOps} ck c h h' : hd_handle_cmd ck c h = Some h' -> hd_outbuf h' = hd_outbuf h.
Proof.
  unfold hd_handle_cmd, hd_handle_cmd_remove. destruct c; [|by intros [= <-]]. destruct (hd_removing h); [by intros [= <-]|].
  cbn [hd_set_removing hd_state]. destruct (hd_state h); by intros [= <-].
Qed.

Section Hang.
Context `{RngOps}.
Variable lost : bool.

Definition to_mpx (ty : CaMsgTy) : bool := rn_to_mpx ty && expected lost ty.

(** No request is to be sent. *)
Definition fp_quiet (p : FetchPolling) : Prop :=
  match fp_state p with PsIdle _ | PsSendReq _ => False | PsWaitRes _ _ | PsDoNothing | PsClosing1 | PsDone => True end /\
  msgs_ok not_read (fp_inp_buf p).

(** The monitor of a polled channel. *)
Definition fm_off (m : FetchMonitoring) : Prop := fm_state m = MsDoNothing /\ fm_inp_done m = false.

Lemma fm_off_poll fuel ck m :
  fm_off m ->
  match fm_poll_loop fuel ck m with
  | (m', Ready (Some (Ok (MiLocalLog _)))) | (m', Pending) | (m', Ready (Some Panic)) => fm_off m'
  | _ => False
  end.
Proof.
  revert m. induction fuel as [|fuel IH]; intros m [Hs Hd]; cbn [fm_poll_loop]; [done|].
  destruct (LocalLog_pop (fm_llog m)) as [l [x|]]; [done|]. unfold fm_turn, fm_poll_state, fm_on_inp. cbn [fm_set_inp fm_state].
  destruct (fm_inp_buf m) as [|item inp]; rewrite Hs; [by rewrite Hd|]. cbn [fm_set_inp fm_state]. rewrite Hs. by apply IH.
Qed.

Lemma fp_poll_next_noerr ck p : match (fp_poll_next ck p).2 with Ready (Some (Err _)) => False | _ => True end.
Proof.
  assert (Hret : forall p' b c, match ((p', if b : bool then Ready (Some (Ok FpNone)) else hpp_end c)
      : FetchPolling * Poll (option (outcome fetch_error FpItem))).2 with Ready (Some (Err _)) => False | _ => True end) by (by intros p' [] []).
  assert (Hst : forall b c p, match (fp_poll_state ck b c p).2 with Ready (Some (Err _)) => False | _ => True end).
  { intros b c p1. unfold fp_poll_state. destruct (fp_state p1) as [|d|dir|to dir| |]; try apply Hret; [| | |apply (Hret _ true c)].
    - destruct (timer_ready ck d); [apply (Hret _ true c)|apply Hret].
    - by destruct (Shape_to_ca_count _).
    - destruct (lazy_poll ck to) as [to' []]; [destruct dir; apply (Hret _ true c)|apply Hret]. }
  unfold fp_poll_next. destruct (LocalLog_pop (fp_llog p)) as [l [x|]]; [done|]. destruct (fp_inp_buf p) as [|item inp]; [apply Hst|].
  cbn [fp_set_inp fp_state]. destruct (fp_state p); try apply Hst. destruct (cm_ty (prx_msg item)); try apply Hst. by destruct (fp_on_value _ _ _ _).
Qed.

Lemma fp_quiet_poll ck p :
  fp_quiet p ->
  match fp_poll_next ck p with
  | (p', Ready (Some (Ok x))) => fp_quiet p' /\ match x with FpNone | FpLocalLog _ => True | _ => False end
  | (p', _) => fp_quiet p'
  end.
Proof.
  intros [Hs Hm]. unfold fp_poll_next. destruct (LocalLog_pop (fp_llog p)) as [l [x|]]; [done|].
  assert (Hret : forall p' b c, fp_quiet p' ->
    match (if b : bool then Ready (Some (Ok FpNone)) else hpp_end c : Poll (option (outcome fetch_error FpItem))) with
    | Ready (Some (Ok x)) => fp_quiet p' /\ match x with FpNone | FpLocalLog _ => True | _ => False end
    | _ => fp_quiet p'
    end).
  { by intros p' [] []. }
  assert (Hgo : forall b c p1, fp_quiet p1 ->
    match fp_poll_state ck b c p1 with
    | (p', Ready (Some (Ok x))) => fp_quiet p' /\ match x with FpNone | FpLocalLog _ => True | _ => False end
    | (p', _) => fp_quiet p'
    end).
  { intros b c p1 Hp1. pose proof Hp1 as [Hs1 Hm1]. unfold fp_poll_state. destruct (fp_state p1) as [|d|dir|to dir| |] eqn:Es; try done;
      try (by apply (Hret p1 b c)); try (by apply (Hret _ true c)).
    destruct (lazy_poll ck to) as [to' []]; [destruct dir; by apply (Hret _ true c)|by apply (Hret _ b true)]. }
  destruct (fp_inp_buf p) as [|item inp] eqn:Ei; [apply Hgo; split; [done|by rewrite Ei]|].
  inversion Hm as [|? ? Hi Hr]; subst. assert (fp_quiet (fp_set_inp inp (fp_inp_done p) p)) as Hq by done.
  specialize (Hgo true false _ Hq). cbn [fp_set_inp fp_state] in *. destruct (fp_state p); try exact Hgo. by destruct (cm_ty (prx_msg item)).
Qed.

(** ** What [Fetchmpx] keeps *)

Record fx_hold (x : Fetchmpx) : Prop := {
  fh_state : fx_state x = FxNormal \/ fx_state x = FxClosing1;
  fh_open : fx_inp_done x = false;
  fh_monitoring : fm_off (fx_monitoring x);
  fh_llog : log_len (fx_llog x) = 0%nat;
  fh_msgs : msgs_ok to_mpx (fx_inp_buf x);
  fh_quiet : lost = true -> fp_quiet (fx_polling x)
}.

Definition fx_item_ok (y : FetchmpxItem) : Prop := y <> FxInputDone /\ (lost = true -> exists e, y = FxLocalLog e).

Lemma fx_hold_dispatch ck inp x :
  fx_hold x -> fx_inp_buf x = inp -> match fx_dispatch_loop ck inp x with (x', r) => fx_hold x' /\ r = Pending end.
Proof.
  revert x. induction inp as [|item inp IH]; intros x Hx Hi; cbn [fx_dispatch_loop]; destruct Hx as [H1 H2 H3 H4 H5 H6].
  { rewrite H2. by split. }
  rewrite Hi in H5. inversion H5 as [|? ? Hty Hr]; subst. unfold to_mpx in Hty.
  unfold fm_inp_push_try, fp_inp_push_try. rewrite !inp_buf_push_spec.
  destruct (cm_ty (prx_msg item)) eqn:Et; try done; (destruct (_ <? _)%nat;
    [apply IH; [split; cbn [fx_set fx_state fx_inp_done fx_monitoring fx_llog fx_inp_buf fx_polling]; try done|done]
    |split; [split; done || (cbn [fx_set fx_inp_buf]; by rewrite <- Hi)|done]]).
  intros Hl. rewrite Hl in Hty. done.
Qed.

Lemma fx_hold_both ck progress pending x :
  fx_hold x ->
  match fx_poll_both ck progress pending x with
  | (x', inl (Ok y)) => fx_hold x' /\ fx_item_ok y
  | (x', inr (_, pending')) => fx_hold x' /\ pending' = true
  | (_, inl (Err _)) => False
  | (_, inl Panic) => True
  end.
Proof.
  intros [H1 H2 H3 H4 H5 H6]. unfold fx_poll_both.
  assert (Hmon : forall b c p, (lost = true -> fp_quiet p) ->
    match fx_poll_monitoring ck b c (fx_set (fx_state x) p (fx_monitoring x) (fx_inp_buf x) x) with
    | (x', inl (Ok y)) => fx_hold x' /\ fx_item_ok y
    | (x', inr (_, pending')) => fx_hold x' /\ pending' = true
    | (_, inl (Err _)) => False
    | (_, inl Panic) => True
    end).
  { intros b c p Hp. unfold fx_poll_monitoring, fm_poll_next. cbn [fx_set fx_monitoring].
    pose proof (fm_off_poll (length (fm_inp_buf (fx_monitoring x)) + 3) ck _ H3) as Hm.
    destruct (fm_poll_loop _ ck _) as [m [[[[]|e|]|]|]]; try done. split; [by split|]. split; [done|eauto]. }
  pose proof (fun Hl => fp_quiet_poll ck _ (H6 Hl)) as Hq. pose proof (fp_poll_next_noerr ck (fx_polling x)) as Hne.
  destruct (fp_poll_next ck (fx_polling x)) as [p [[[y|e|]|]|]]; try done; try (by apply Hmon).
  assert (lost = true -> fp_quiet p) as Hp by (intros Hl; by destruct (Hq Hl)).
  destruct (fx_of_polling y) as [z|] eqn:Ez; [|by apply Hmon]. split; [by split|].
  split; [by intros ->; destruct y|]. intros Hl. destruct (Hq Hl) as [_ Hy]. destruct y; try done. injection Ez as <-. eauto.
Qed.

Lemma fx_hold_loop fuel ck x :
  fx_hold x ->
  match fx_poll_loop fuel ck x with
  | (x', Ready (Some (Ok y))) => fx_hold x' /\ fx_item_ok y
  | (x', Pending) => fx_hold x'
  | (_, Ready (Some Panic)) => True
  | _ => False
  end.
Proof.
  revert x. induction fuel as [|fuel IH]; intros x Hx; cbn [fx_poll_loop]; [done|].
  pose proof (LocalLog_pop_spec (fx_llog x)) as Hl. rewrite (fh_llog _ Hx) in Hl. destruct (LocalLog_pop (fx_llog x)) as [l [y|]]; [lia|].
  assert (Hgo : forall closing : bool, fx_poll_inp_dispatch ck x = fx_dispatch_loop ck (fx_inp_buf x) x ->
    match
      (match fx_turn ck closing x with
       | (self, inl x) => (self, Ready (Some x))
       | (self, inr (true, _)) => fx_poll_loop fuel ck self
       | (self, inr (false, pending)) => (if closing && negb pending then fx_set_state FxDone self else self, hpp_end pending)
       end)
    with
    | (x', Ready (Some (Ok y))) => fx_hold x' /\ fx_item_ok y
    | (x', Pending) => fx_hold x'
    | (_, Ready (Some Panic)) => True
    | _ => False
    end).
  { intros closing Hdi. unfold fx_turn. rewrite Hdi. pose proof (fx_hold_dispatch ck (fx_inp_buf x) x Hx eq_refl) as Hd.
    destruct (fx_dispatch_loop _ _ _) as [x1 r]. destruct Hd as [Hx1 ->].
    pose proof (fx_hold_both ck false (negb closing) x1 Hx1) as Hb.
    destruct (fx_poll_both _ _ _ _) as [x2 [[y|e|]|[[] pe]]]; try done; [by apply IH; destruct Hb|]. destruct Hb as [Hb ->]. by rewrite andb_false_r. }
  destruct (fh_state _ Hx) as [Hst|Hst]; rewrite Hst;
    [apply (Hgo false)|apply (Hgo true)]; unfold fx_poll_inp_dispatch; by rewrite Hst.
Qed.

Lemma fx_hold_closing ck x : fx_hold x -> fx_hold (fx_trigger_closing ck x).
Proof.
  intros Hx. pose proof Hx as [H1 H2 [H3 H3'] H4 H5 H6]. unfold fx_trigger_closing. destruct (fx_state x); try done.
  split; cbn [fx_set fx_state fx_inp_done fx_monitoring fx_llog fx_inp_buf fx_polling]; auto.
  - unfold fm_trigger_closing, fm_transition_to_closing, fm_redirect. set (m := fm_log _ _ _). change (fm_state m) with (fm_state (fx_monitoring x)).
    rewrite H3. split; [exact H3|exact H3'].
  - intros Hl. destruct (H6 Hl) as [Hq Hm]. unfold fp_trigger_closing, fp_transition_to_closing.
    destruct (fp_state (fx_polling x)) eqn:Es; (split; [cbn; rewrite ?Es; done|exact Hm]).
Qed.

(** ** What [Running] and the handler keep *)

Definition rn_hold (s : Running) : Prop :=
  match rn_state s with
  | RsNormal x => fx_hold x /\ rn_inp_done s = false /\ msgs_ok (expected lost) (rn_inp_buf s)
  | RsDone => False
  end.

Lemma rn_hold_dispatch inp fx s :
  rn_state s = RsNormal fx -> rn_inp_buf s = inp -> rn_hold s ->
  match rn_dispatch_loop inp fx s with (s', r) => rn_hold s' /\ r = Pending end.
Proof.
  revert fx s. induction inp as [|item inp IH]; intros fx s Hs Hi Hh; cbn [rn_dispatch_loop]; pose proof Hh as Hh'; unfold rn_hold in Hh'; rewrite Hs in Hh'.
  { destruct Hh' as (_ & -> & _). by split. }
  destruct Hh' as (Hx & Hd & Hm). rewrite Hi in Hm. inversion Hm as [|? ? Hty Hr]; subst. destruct (rn_to_mpx (cm_ty (prx_msg item))) eqn:Et.
  - unfold fx_inp_push_try. rewrite inp_buf_push_spec. destruct (_ <? _)%nat.
    + apply IH; [done..|]. split; [|by split]. destruct Hx as [H1 H2 H3 H4 H5 H6]. split; try done. cbn [fx_set fx_inp_buf]. apply Forall_app. split; [done|].
      apply Forall_singleton. unfold to_mpx. by rewrite Et, Hty.
    + split; [|done]. split; [|by split]. by destruct Hx.
  - destruct (cm_ty (prx_msg item)); try done. apply IH; [done..|]. by split.
Qed.

Definition rn_item_ok (y : RunningItem) : Prop := lost = true -> exists e, y = RiLocalLog e.

Lemma rn_hold_poll fuel ck s :
  rn_hold s ->
  match rn_poll_loop fuel ck s with
  | (s', Ready (Some (Ok y))) => rn_hold s' /\ rn_item_ok y
  | (s', Pending) => rn_hold s'
  | (_, Ready (Some Panic)) => True
  | _ => False
  end.
Proof.
  intros Hs. destruct fuel as [|fuel]; cbn [rn_poll_loop]; [done|]. unfold rn_turn. destruct (rn_state s) as [fx|] eqn:Es; [|unfold rn_hold in Hs; by rewrite Es in Hs].
  unfold rn_poll_inp_dispatch. rewrite Es. pose proof (rn_hold_dispatch (rn_inp_buf s) fx s Es eq_refl Hs) as Hd.
  destruct (rn_dispatch_loop _ _ _) as [s1 r]. destruct Hd as [Hs1 ->]. unfold rn_hold in Hs1.
  destruct (rn_state s1) as [fx1|] eqn:Es1; [|done]. destruct Hs1 as (Hx1 & Hd1 & Hm1). unfold fx_poll_next.
  pose proof (fx_hold_loop (length (fx_inp_buf fx1) + length (fp_inp_buf (fx_polling fx1)) + 5) ck fx1 Hx1) as Hp.
  destruct (fx_poll_loop _ ck fx1) as [fx2 [[[y|e|]|]|]]; try done. destruct Hp as (Hx2 & Hne & Hy).
  destruct (rn_of_fx y) as [z|] eqn:Ez; [|by destruct y]. split; [done|]. intros Hl. destruct (Hy Hl) as [e ->]. injection Ez as <-. eauto.
Qed.

(** A channel that is polled - its monitor is off -, whose input is open, and with
    only expected messages in its buffers; with [lost], it waits for a reply, or
    for nothing. *)
Definition hd_hold (h : ChannelHandler) : Prop :=
  match hd_state h with
  | HsRunning st => rn_hold st /\ rn_ok st /\ msgs_ok (expected lost) (hd_inp_buf h)
  | _ => False
  end.

Definition hd_item_ok (y : HandlerItem) : Prop := lost = true -> exists e, y = ItLocalLog (HdLocalLog e).

Lemma hd_hold_push inp progress st :
  rn_hold st -> rn_ok st -> msgs_ok (expected lost) inp ->
  match hd_push_running inp progress st with
  | (inp', st', _, _) => rn_hold st' /\ rn_ok st' /\ msgs_ok (expected lost) inp'
  end.
Proof.
  revert progress st. induction inp as [|item inp IH]; intros progress st Hst Hok Hm; [done|].
  pose proof (hd_push_running_ok (item :: inp) progress st Hok) as Hp. revert Hp. cbn [hd_push_running].
  inversion Hm as [|? ? Hty Hr]; subst. unfold rn_inp_push_try at 1 2. rewrite inp_buf_push_spec.
  destruct (length (rn_inp_buf st) <? RUNNING_INP_CAP)%nat eqn:Ec.
  - intros _. apply IH; [| |done].
    + unfold rn_hold in *. cbn [rn_set rn_state rn_inp_done rn_inp_buf]. destruct (rn_state st); [|done]. destruct Hst as (? & ? & ?).
      split_and!; [done..|]. apply Forall_app. split; [done|]. by apply Forall_singleton.
    + revert Hok. apply Nat.ltb_lt in Ec. unfold rn_ok. cbn [rn_set rn_state rn_inp_done rn_inp_buf]. destruct (rn_state st); [|done].
      rewrite length_app. cbn. intuition lia.
  - intros (Hp & _). split; [|by split]. unfold rn_hold in *. cbn [rn_set rn_state rn_inp_done rn_inp_buf]. by destruct (rn_state st).
Qed.

Lemma hd_hold_turn ck progress h :
  hd_hold h ->
  match hd_turn ck progress h with
  | (h', inl (Ok y)) => hd_hold h' /\ hd_item_ok y /\ hd_answers h' = hd_answers h
  | (h', inr _) => hd_hold h' /\ hd_answers h' = hd_answers h
  | (_, inl Panic) => True
  | (_, inl (Err _)) => False
  end.
Proof.
  unfold hd_hold at 1, hd_turn. destruct (hd_state h) as [|st|st|ack fut to| | |] eqn:Es; try done. intros (Hst & Hok & Hm).
  unfold hd_turn_running. pose proof (hd_hold_push (hd_inp_buf h) progress st Hst Hok Hm) as Hp.
  destruct (hd_push_running _ _ _) as [[[inp st1] b] ?]. destruct Hp as (Hst1 & Hok1 & Hm1).
  pose proof (rn_hold_poll 4 ck st1 Hst1) as Hr. pose proof (rn_poll_next_safe ck st1 Hok1) as Hs. unfold rn_poll_next in *.
  destruct (rn_poll_loop 4 ck st1) as [st2 [[[y| |]|]|]]; try done; destruct Hs as [Hs _]; [|by split].
  destruct Hr as [Hr Hy]. split; [by split_and!|]. split; [|done]. intros Hl. destruct (Hy Hl) as [e ->]. by exists e.
Qed.

Lemma hd_hold_cmd ck c h h' : hd_hold h -> hd_handle_cmd ck c h = Some h' -> hd_hold h' /\ hd_answers h' = hd_answers h.
Proof.
  intros Hh. unfold hd_handle_cmd. destruct c; [|by intros [= <-]]. destruct (hd_removing h); [by intros [= <-]|].
  unfold hd_handle_cmd_remove. cbn [hd_set_removing hd_state]. pose proof Hh as Hs. unfold hd_hold in Hs.
  destruct (hd_state h) as [|st|st|ack fut to| | |] eqn:Es; try done. intros [= <-]. destruct Hs as (Hst & Hok & Hm). split; [|done].
  split; [|split; [by apply rn_trigger_remove_ok|exact Hm]]. unfold rn_hold in *. cbn [rn_trigger_remove rn_state rn_inp_done rn_inp_buf].
  destruct (rn_state st); [|done]. destruct Hst as (Hx & ? & ?). split; [by apply fx_hold_closing|done].
Qed.

Lemma hd_hold_poll fuel ck h :
  hd_hold h ->
  match hd_poll_loop fuel ck h with
  | (h', Ready (Some (Ok y))) => hd_outbuf h = [] -> hd_hold h' /\ hd_item_ok y /\ hd_answers h' = hd_answers h
  | (h', Pending) => hd_hold h' /\ hd_answers h' = hd_answers h
  | (_, Ready (Some Panic)) => True
  | _ => False
  end.
Proof.
  revert h. induction fuel as [|fuel IH]; intros h Hh; cbn [hd_poll_loop]; [done|].
  destruct (hd_outbuf h) eqn:Eo; [|done].
  assert (Hgo : forall h1 progress, hd_hold h1 -> hd_answers h1 = hd_answers h -> hd_outbuf h1 = [] ->
    match
      (match hd_turn ck progress h1 with
       | (self, inl x) => (self, Ready (Some x))
       | (self, inr true) => hd_poll_loop fuel ck self
       | (self, inr false) => (self, Pending)
       end)
    with
    | (h', Ready (Some (Ok y))) => [] = [] :> list HandlerItem -> hd_hold h' /\ hd_item_ok y /\ hd_answers h' = hd_answers h
    | (h', Pending) => hd_hold h' /\ hd_answers h' = hd_answers h
    | (_, Ready (Some Panic)) => True
    | _ => False
    end).
  { intros h1 progress Hh1 Ha1 Ho1. pose proof (hd_hold_turn ck progress h1 Hh1) as Ht. pose proof (hd_turn_outbuf ck progress h1) as Ho2.
    destruct (hd_turn ck progress h1) as [h2 [[y|e|]|[]]]; try done; cbn [fst] in Ho2; rewrite <- Ha1; [intros _; exact Ht| |exact Ht].
    destruct Ht as [Ht <-]. specialize (IH h2 Ht). rewrite Ho2, Ho1 in IH. exact IH. }
  destruct (hd_cmds h) as [|c cmds]; [by apply Hgo|]. assert (hd_hold (hd_set_cmds cmds h)) as Hc by exact Hh.
  change (hd_state (hd_set_cmds cmds h)) with (hd_state h).
  assert (Hcmd : match (fun s => (s, true)) <$> hd_handle_cmd ck c (hd_set_cmds cmds h) with
    | Some (h1, b) => hd_hold h1 /\ hd_answers h1 = hd_answers h /\ hd_outbuf h1 = []
    | None => True end).
  { pose proof (hd_hold_cmd ck c (hd_set_cmds cmds h)) as H1. pose proof (hd_handle_cmd_outbuf ck c (hd_set_cmds cmds h)) as H2.
    destruct (hd_handle_cmd ck c _) as [h1|]; [|done]. destruct (H1 h1 Hc eq_refl). cbn. rewrite (H2 h1 eq_refl). done. }
  unfold hd_hold in Hh. destruct (hd_state h); try done. destruct ((fun s => (s, true)) <$> _) as [[h1 b]|]; [|done]. destruct Hcmd as (? & ? & ?). by apply Hgo.
Qed.

Lemma hd_poll_outbuf fuel ck h : hd_outbuf h = [] -> hd_outbuf (hd_poll_loop fuel ck h).1 = [].
Proof.
  revert h. induction fuel as [|fuel IH]; intros h Ho; cbn [hd_poll_loop]; [done|]. rewrite Ho.
  assert (Hgo : forall h1 progress, hd_outbuf h1 = [] -> hd_outbuf
    (match hd_turn ck progress h1 with
     | (self, inl x) => (self, Ready (Some x))
     | (self, inr true) => hd_poll_loop fuel ck self
     | (self, inr false) => (self, Pending)
     end).1 = []).
  { intros h1 progress Ho1. pose proof (hd_turn_outbuf ck progress h1) as Ht. destruct (hd_turn ck progress h1) as [h2 [x|[]]]; cbn [fst] in *;
      try congruence. apply IH. congruence. }
  destruct (hd_cmds h) as [|c cmds]; [by apply Hgo|]. pose proof (hd_handle_cmd_outbuf ck c (hd_set_cmds cmds h)) as Hc.
  destruct (hd_state (hd_set_cmds cmds h)); try (destruct (hd_handle_cmd ck c _) as [h1|]; [|done]; cbn [fmap option_fmap option_map];
    apply Hgo; rewrite (Hc h1 eq_refl); exact Ho). by apply Hgo.
Qed.

(** ** Runs *)

Definition polled_running (h : ChannelHandler) : Prop := hd_hold h /\ hd_outbuf h = [].

(** The input stays open, and only expected messages come. *)
Definition ev_expected (ev : HandlerEvent) : bool :=
  match ev with EvMessage item => expected lost (cm_ty (prx_msg item)) | EvInputDone => false | _ => true end.

Lemma polled_event ev h :
  polled_running h -> ev_expected ev = true ->
  exists h' l, hd_event ev h = (Some h', l) /\ polled_running h' /\ hd_answers h' = hd_answers h /\ Forall hd_item_ok l.
Proof.
  intros [Hh Ho] Hev. destruct ev as [ck|item| |c|x]; cbn [hd_event ev_expected] in *; [| |done|..].
  - assert (hd_calm h) as Hc by (unfold hd_hold, hd_calm in *; destruct (hd_state h); try done; by destruct Hh as (_ & ? & _)).
    unfold hd_poll_next. set (fuel := (length (hd_cmds h) + length (hd_inp_buf h) + 10)%nat).
    pose proof (hd_poll_loop_calm fuel ck h Hc ltac:(unfold hd_need, fuel; destruct (hd_state h) as [| | |? []| | |]; cbn; lia)) as Hcalm.
    pose proof (hd_hold_poll fuel ck h Hh) as Hp. pose proof (hd_poll_outbuf fuel ck h Ho) as Ho'.
    destruct (hd_poll_loop fuel ck h) as [h' [[[y| |]|]|]]; cbn [fst snd] in *; try done.
    + destruct (Hp Ho) as (Hp1 & Hp2 & Hp3). eexists _, _. split; [done|]. split; [done|]. split; [done|]. by apply Forall_singleton.
    + destruct Hp as [Hp1 Hp2]. eexists _, _. split; [done|]. split; [done|]. split; [done|]. by apply Forall_nil.
  - eexists _, _. split; [done|]. unfold hd_inp_push_try. rewrite inp_buf_push_spec. unfold polled_running, hd_hold in *.
    destruct (_ <? _)%nat; cbn [fst hd_set hd_state hd_outbuf hd_answers hd_inp_buf]; (split; [|split; [done|by apply Forall_nil]]); (split; [|done]);
      destruct (hd_state h); try done. destruct Hh as (? & ? & ?). split_and!; [done..|]. apply Forall_app. split; [done|]. by apply Forall_singleton.
  - eexists _, _. split; [done|]. unfold hd_cmd_try_send. destruct (_ <? _)%nat; (split; [done|split; [done|by apply Forall_nil]]).
  - eexists _, _. split; [done|]. unfold hd_info_arrives. unfold polled_running, hd_hold in *. destruct (hd_state h) eqn:Es; try done. rewrite Es.
    split; [done|split; [done|by apply Forall_nil]].
Qed.

Lemma polled_run evs h :
  polled_running h -> forallb ev_expected evs = true ->
  exists h' l, hd_run evs h = (Some h', l) /\ polled_running h' /\ hd_answers h' = hd_answers h /\ Forall hd_item_ok l.
Proof.
  revert h. induction evs as [|ev evs IH]; intros h Hh; cbn [forallb hd_run].
  { intros _. eexists _, _. split; [done|]. split; [done|]. split; [done|]. by apply Forall_nil. }
  intros [Hev Hevs]%andb_prop. destruct (polled_event ev h Hh Hev) as (h1 & l1 & -> & Hh1 & Ha1 & Hl1).
  destruct (IH h1 Hh1 Hevs) as (h2 & l2 & -> & Hh2 & Ha2 & Hl2). eexists _, _. split; [done|]. split; [done|]. split; [congruence|].
  apply Forall_app. by split.
Qed.
End Hang.

Section Theorems.
Context `{RngOps}.

(** C28. A polled channel cannot be removed as long as the connection lasts and the
    server sends it nothing but what a running channel asks for: values of reads
    and of monitors, empty answers of a monitor, and acknowledgements of a close.
    From the command on, whichever of these come, whatever other commands come and
    whenever the handler is polled, it stays in its running state and does not
    tell the one who waits for the removal, because the monitor, which is off,
    counts as something to wait for. A message of another kind ends it, as an
    error of the running state ([polled_remove_rights]). *)
Theorem polled_remove_hangs h evs :
  polled_running false h -> forallb (ev_expected false) evs = true ->
  exists h' l, hd_run (EvCommand CmdRemove :: evs) h = (Some h', l) /\ polled_running false h' /\ hd_answers h' = hd_answers h.
Proof.
  intros Hh Hevs. destruct (polled_run false (EvCommand CmdRemove :: evs) h Hh Hevs) as (h' & l & Hr & Hh' & Ha & _). eauto 6.
Qed.

(** C29. A lost answer ends the polling: a channel that waits for the value of a read,
    and does not get it (nor a message that it did not ask for), sends no other
    request however much time passes; from then on it puts out nothing but its log. *)
Theorem lost_answer_ends_polling h evs :
  polled_running true h -> forallb (ev_expected true) evs = true ->
  exists h' l, hd_run evs h = (Some h', l) /\ polled_running true h' /\ Forall (fun y => exists e, y = ItLocalLog (HdLocalLog e)) l.
Proof.
  intros Hh Hevs. destruct (polled_run true evs h Hh Hevs) as (h' & l & Hr & Hh' & _ & Hl). eexists _, _. split; [done|]. split; [done|].
  eapply Forall_impl; [exact Hl|]. intros y Hy. by apply Hy.
Qed.
End Theorems.

#[local] Existing Instance rng_example.

(** A polled channel whose request is on its way. *)
Definition example_waiting : option ChannelHandler :=
  (hd_run (example_start ++ example_polls 4 0 ++ example_polls 4 10) (hd_new 3 "scylla" "X:Y" true)).1.

Lemma example_waiting_polled lost : exists h, example_waiting = Some h /\ polled_running lost h.
Proof.
  destruct example_waiting as [h|] eqn:E; [|vm_compute in E; discriminate E]. exists h. split; [done|]. vm_compute in E. injection E as <-.
  split; [|done]. split; [|split; [|by apply Forall_nil]].
  - split; [|split; [done|by apply Forall_nil]]. split; try done; [by left|by apply Forall_nil|]. intros _. split; [done|by apply Forall_nil].
  - split; [split; try done; by eexists|]. split; [done|cbn; lia].
Defined.

Lemma polled_remove_hangs_witness :
  exists h, example_waiting = Some h /\
  exists h' l, hd_run (EvCommand CmdRemove :: example_polls 20 20) h = (Some h', l) /\ polled_running false h' /\ hd_answers h' = hd_answers h.
Proof.
  destruct (example_waiting_polled false) as (h & E & Hh). exists h. split; [exact E|].
  apply (polled_remove_hangs h (example_polls 20 20) Hh). vm_compute. reflexivity.
Defined.

(** The access rights, which a server sends of its own accord, close the channel. *)
Example polled_remove_rights :
  let rights := EvMessage (example_item (CaAccessRightsRes (mkAccessRightsRes 3 3))) in
  let answers evs := (h ← example_waiting; hd_answers <$> (hd_run (EvCommand CmdRemove :: evs) h).1) in
  answers (example_polls 40 20) = Some 0%nat /\ answers (example_polls 20 20 ++ [rights] ++ example_polls 20 20) = Some 0%nat /\
  answers (example_polls 20 20 ++ [rights] ++ example_polls 20 20 ++ example_polls 20 60) = Some 1%nat.
Proof. vm_compute. repeat split. Qed.

Lemma lost_answer_ends_polling_witness :
  exists h, example_waiting = Some h /\
  exists h' l, hd_run (example_polls 5 20 ++ example_polls 5 60 ++ example_polls 5 86400) h = (Some h', l) /\ polled_running true h' /\
    Forall (fun y => exists e, y = ItLocalLog (HdLocalLog e)) l.
Proof.
  destruct (example_waiting_polled true) as (h & E & Hh). exists h. split; [exact E|].
  apply (lost_answer_ends_polling h _ Hh). vm_compute. reflexivity.
Defined.
