(* ===== verification/HandlerFifo.v ===== *)
(** * The values of a monitored channel

    While a channel is monitored, the values come out as they went in: none is
    lost, doubled or overtaken, on the way through the four queues between the
    handler and the monitor. *)
From Stdlib Require Import ZArith Lia String.
From stdpp Require Import base numbers option strings list.
From S2P Require Import Prelude TimeTypes NetpodTypes Retention Items Utf8 Floats CaProto CaHeap HandlerFetch HandlerFetchProofs Handler HandlerProofs HandlerSafety HandlerSession HandlerRun HandlerCalm HandlerHang.

#[local] Open Scope Z_scope.
#[local] Open Scope rust_scope.

(** The values that the messages bring, and those put out. *)
Definition msg_value (item : ProtoRxItem) : option f32 :=
  match cm_ty (prx_msg item) with CaEventAddRes v => Some (CaEventValue_f32_for_binning (evres_value v)) | _ => None end.
Definition msg_values (l : list ProtoRxItem) : list f32 := omap msg_value l.

Definition is_update (ty : CaMsgTy) : bool := match ty with CaEventAddRes _ => true | _ => false end.

Lemma is_update_value item : is_update (cm_ty (prx_msg item)) = true -> exists v, msg_value item = Some v.
Proof. unfold msg_value. destruct (cm_ty (prx_msg item)); try done. eauto. Qed.

Definition out_value {D} (val : D -> option f32) (x : D) : list f32 := option_list (val x).
Definition mi_value (x : MonitoringItem) : option f32 := match x with MiChannelEventValue v => Some (cev_val v) | _ => None end.
Definition fx_value (x : FetchmpxItem) : option f32 := match x with FxChannelEventValue v => Some (cev_val v) | _ => None end.
Definition ri_value (x : RunningItem) : option f32 := match x with RiChannelEventValue v => Some (cev_val v) | _ => None end.
Definition hd_value (x : HandlerItem) : option f32 := match x with ItChannelEventValue (HdChannelEventValue v) => Some (cev_val v) | _ => None end.

(** The commands are taken by the poll only. *)
Lemma hd_turn_cmds `{RngOps} ck progress h : hd_cmds (hd_turn ck progress h).1 = hd_cmds h.
Proof.
  unfold hd_turn, hd_turn_creating, hd_turn_running, hd_turn_closing1.
  destruct (hd_state h) as [|st|st|ack fut to| | |]; try done.
  - destruct (hd_poll_proto_rx_creating _ _ _ _) as [[inp st1] r]. destruct (cr_poll_next ck st1) as [st2 r2].
    destruct r as [[[]|]|], r2 as [[[[]| |]|]|]; done.
  - destruct (hd_push_running _ _ _) as [[[inp st1] b] ?]. destruct (rn_poll_next ck st1) as [st2 [[[]|]|]]; done.
  - destruct (hd_inp_buf h); by destruct (_ || timer_ready ck to).
Qed.

Section Fifo.
Context `{RngOps}.

(** ** The monitor *)

Record fm_on (m : FetchMonitoring) : Prop := {
  fon_state : exists to, fm_state m = MsMonitoring to MdEnable;
  fon_open : fm_inp_done m = false;
  fon_msgs : msgs_ok is_update (fm_inp_buf m)
}.

Lemma fm_on_poll fuel ck m :
  fm_on m ->
  match fm_poll_loop fuel ck m with
  | (m', Ready (Some (Ok y))) => fm_on m' /\ out_value mi_value y ++ msg_values (fm_inp_buf m') = msg_values (fm_inp_buf m)
  | (m', Pending) => fm_on m' /\ msg_values (fm_inp_buf m') = msg_values (fm_inp_buf m)
  | (_, Ready (Some Panic)) => True
  | _ => False
  end.
Proof.
  revert m. induction fuel as [|fuel IH]; intros m Hm; cbn [fm_poll_loop]; [done|]. pose proof Hm as [[to Hs] Hd Hi].
  destruct (LocalLog_pop (fm_llog m)) as [l [x|]]; [split; [split; [by exists to|done..]|done]|].
  unfold fm_turn. destruct (fm_inp_buf m) as [|item inp] eqn:Eb.
  - unfold fm_poll_state. rewrite Hs. destruct (timer_ready ck to); [|rewrite Hd; cbn [negb orb hpp_end]; split; [done|by rewrite Eb]].
    set (m1 := fm_log _ _ _). unfold fm_silence. destruct (jitter _ _) as [d rng].
    match goal with |- context [fm_poll_loop fuel ck ?x] => specialize (IH x) end. cbn [fm_transition fm_set_state fm_log fm_set_llog fm_inp_buf] in IH.
    unfold m1 in *. cbn [fm_log fm_set_llog fm_inp_buf fm_inp_done] in IH. rewrite Eb in IH. cbn [fm_log fm_set_llog fm_inp_buf] in *. rewrite ?Eb in *.
    apply IH. split; [eexists; done|done|]. by apply Forall_nil.
  - inversion Hi as [|? ? Hty Hr]; subst. unfold fm_on_inp. cbn [fm_set_inp fm_state]. rewrite Hs. unfold fm_handle_received_item.
    destruct (cm_ty (prx_msg item)) eqn:Et; try done. split; [split; [by exists to|done..]|].
    cbn [fm_set_inp fm_inp_buf out_value mi_value option_list cev_val]. unfold msg_values, out_value. cbn. unfold msg_value at 2. by rewrite Et.
Qed.

(** ** Through [Fetchmpx] *)

Record fx_on (x : Fetchmpx) : Prop := {
  xon_state : fx_state x = FxNormal;
  xon_open : fx_inp_done x = false;
  xon_llog : log_len (fx_llog x) = 0%nat;
  xon_msgs : msgs_ok is_update (fx_inp_buf x);
  xon_mon : fm_on (fx_monitoring x);
  xon_poll : fp_state (fx_polling x) = PsDoNothing /\ fp_inp_buf (fx_polling x) = [] /\ fp_inp_done (fx_polling x) = false
}.

Definition fx_vals (x : Fetchmpx) : list f32 := msg_values (fm_inp_buf (fx_monitoring x)) ++ msg_values (fx_inp_buf x).

Lemma msg_values_app l l' : msg_values (l ++ l') = msg_values l ++ msg_values l'.
Proof. apply omap_app. Qed.

Lemma fx_on_dispatch ck inp x :
  fx_on x -> fx_inp_buf x = inp ->
  match fx_dispatch_loop ck inp x with (x', r) => fx_on x' /\ r = Pending /\ fx_vals x' = fx_vals x end.
Proof.
  revert x. induction inp as [|item inp IH]; intros x Hx Hi; cbn [fx_dispatch_loop].
  { rewrite (xon_open _ Hx). by split. }
  destruct Hx as [H1 H2 H3 H4 [H5 H6 H7] H8]. rewrite Hi in H4. inversion H4 as [|? ? Hty Hr]; subst.
  unfold fm_inp_push_try. rewrite inp_buf_push_spec. destruct (cm_ty (prx_msg item)) eqn:Et; try done. destruct (_ <? _)%nat.
  - match goal with |- context [fx_dispatch_loop ck inp ?y] => assert (fx_on y) as Hy end.
    { split; try done. split; try done. cbn [fx_set fx_monitoring fm_set_inp fm_inp_buf]. apply Forall_app. split; [done|].
      apply Forall_singleton. by rewrite Et. }
    specialize (IH _ Hy eq_refl). destruct (fx_dispatch_loop ck inp _) as [x' r]. destruct IH as (IH1 & IH2 & ->). split; [done|]. split; [done|].
    unfold fx_vals. cbn [fx_set fx_monitoring fx_inp_buf fm_set_inp fm_inp_buf]. rewrite Hi, msg_values_app, <- app_assoc. f_equal.
    unfold msg_values. cbn. by destruct (msg_value item).
  - split; [split; try done; cbn [fx_set fx_inp_buf]; by constructor; [rewrite Et|]|]. split; [done|]. unfold fx_vals. cbn [fx_set fx_monitoring fx_inp_buf fm_set_inp fm_inp_buf]. by rewrite Hi.
Qed.

Lemma fx_on_both ck progress pending x :
  fx_on x ->
  match fx_poll_both ck progress pending x with
  | (x', inl (Ok y)) => fx_on x' /\ out_value fx_value y ++ fx_vals x' = fx_vals x /\ y <> FxInputDone
  | (x', inr (progress', pending')) => fx_on x' /\ fx_vals x' = fx_vals x /\ progress' = progress /\ pending' = true
  | (_, inl (Err _)) => False
  | (_, inl Panic) => True
  end.
Proof.
  intros [H1 H2 H3 H4 H5 (H6 & H7 & H8)]. unfold fx_poll_both, fp_poll_next. destruct (LocalLog_pop (fp_llog (fx_polling x))) as [l [e|]].
  { split; [by split|]. by split. }
  rewrite H7, H8. unfold fp_poll_state. rewrite H6. cbn [negb]. cbn [hpp_end]. unfold fx_poll_monitoring, fm_poll_next. cbn [fx_set fx_monitoring].
  pose proof (fm_on_poll (length (fm_inp_buf (fx_monitoring x)) + 3) ck _ H5) as Hm.
  destruct (fm_poll_loop _ ck _) as [m [[[y|e|]|]|]]; try done; destruct Hm as [Hm Hv].
  - split; [by split|]. unfold fx_vals at 1. cbn [fx_set fx_monitoring fx_inp_buf]. split; [|by destruct y].
    unfold fx_vals. rewrite <- Hv, <- app_assoc. f_equal. by destruct y.
  - split; [by split|]. split; [|done]. unfold fx_vals. cbn [fx_set fx_monitoring fx_inp_buf]. by rewrite Hv.
Qed.

Lemma fx_on_poll fuel ck x :
  fx_on x ->
  match fx_poll_loop fuel ck x with
  | (x', Ready (Some (Ok y))) => fx_on x' /\ out_value fx_value y ++ fx_vals x' = fx_vals x /\ y <> FxInputDone
  | (x', Pending) => fx_on x' /\ fx_vals x' = fx_vals x
  | (_, Ready (Some Panic)) => True
  | _ => False
  end.
Proof.
  intros Hx. destruct fuel as [|fuel]; cbn [fx_poll_loop]; [done|].
  pose proof (LocalLog_pop_spec (fx_llog x)) as Hl. rewrite (xon_llog _ Hx) in Hl. destruct (LocalLog_pop (fx_llog x)) as [l [y|]]; [lia|].
  rewrite (xon_state _ Hx). unfold fx_turn, fx_poll_inp_dispatch. rewrite (xon_state _ Hx).
  pose proof (fx_on_dispatch ck (fx_inp_buf x) x Hx eq_refl) as Hd. destruct (fx_dispatch_loop _ _ _) as [x1 r]. destruct Hd as (Hx1 & -> & <-).
  pose proof (fx_on_both ck false true x1 Hx1) as Hb. cbn [negb]. destruct (fx_poll_both _ _ _ _) as [x2 [[y|e|]|[pr pe]]]; try done.
  destruct Hb as (? & ? & -> & ->). by split.
Qed.

(** ** Through [Running] *)

Definition rn_on (s : Running) : Prop :=
  match rn_state s with
  | RsNormal x => fx_on x /\ rn_inp_done s = false /\ msgs_ok is_update (rn_inp_buf s)
  | RsDone => False
  end.

Definition rn_vals (s : Running) : list f32 :=
  match rn_state s with RsNormal x => fx_vals x ++ msg_values (rn_inp_buf s) | RsDone => [] end.

Lemma fx_push_on item x :
  fx_on x -> is_update (cm_ty (prx_msg item)) = true ->
  match fx_inp_push_try item x with
  | (x', None) => fx_on x' /\ fx_vals x' = fx_vals x ++ msg_values [item]
  | (x', Some y) => fx_on x' /\ fx_vals x' = fx_vals x /\ y = item
  end.
Proof.
  intros [H1 H2 H3 H4 H5 H6] Hty. unfold fx_inp_push_try. rewrite inp_buf_push_spec. destruct (_ <? _)%nat; [|by split; [split|]].
  split; [split; try done|].
  - cbn [fx_set fx_inp_buf]. apply Forall_app. split; [done|]. by apply Forall_singleton.
  - unfold fx_vals. cbn [fx_set fx_monitoring fx_inp_buf]. by rewrite msg_values_app, app_assoc.
Qed.

Lemma rn_on_dispatch inp fx s :
  rn_state s = RsNormal fx -> rn_inp_buf s = inp -> rn_on s ->
  match rn_dispatch_loop inp fx s with (s', r) => rn_on s' /\ r = Pending /\ rn_vals s' = rn_vals s end.
Proof.
  revert fx s. induction inp as [|item inp IH]; intros fx s Hs Hi Hh; cbn [rn_dispatch_loop]; pose proof Hh as Hh'; unfold rn_on in Hh'; rewrite Hs in Hh'.
  { destruct Hh' as (_ & -> & _). by split. }
  destruct Hh' as (Hx & Hd & Hm). rewrite Hi in Hm. inversion Hm as [|? ? Hty Hr]; subst.
  assert (rn_to_mpx (cm_ty (prx_msg item)) = true) as -> by (destruct (cm_ty (prx_msg item)); done).
  assert (Hv : rn_vals s = fx_vals fx ++ msg_values (item :: inp)) by (unfold rn_vals; by rewrite Hs, Hi).
  pose proof (fx_push_on item fx Hx Hty) as Hp. destruct (fx_inp_push_try item fx) as [fx' [y|]].
  - destruct Hp as (Hp & Hpv & ->). split; [by split|]. split; [done|]. rewrite Hv, <- Hpv. done.
  - destruct Hp as (Hp & Hpv). specialize (IH fx' (rn_set (RsNormal fx') (rn_chan_close_ack s) inp s) eq_refl eq_refl ltac:(by split)).
    destruct (rn_dispatch_loop inp fx' _) as [s' r]. destruct IH as (IH1 & IH2 & ->). split; [done|]. split; [done|].
    unfold rn_vals at 1. cbn [rn_set rn_state rn_inp_buf]. rewrite Hpv, Hv, <- app_assoc, <- msg_values_app. done.
Qed.

Lemma rn_on_poll fuel ck s :
  rn_on s ->
  match rn_poll_loop fuel ck s with
  | (s', Ready (Some (Ok y))) => rn_on s' /\ out_value ri_value y ++ rn_vals s' = rn_vals s
  | (s', Pending) => rn_on s' /\ rn_vals s' = rn_vals s
  | (_, Ready (Some Panic)) => True
  | _ => False
  end.
Proof.
  intros Hs. destruct fuel as [|fuel]; cbn [rn_poll_loop]; [done|]. unfold rn_turn. destruct (rn_state s) as [fx|] eqn:Es; [|unfold rn_on in Hs; by rewrite Es in Hs].
  unfold rn_poll_inp_dispatch. rewrite Es. pose proof (rn_on_dispatch (rn_inp_buf s) fx s Es eq_refl Hs) as Hd.
  destruct (rn_dispatch_loop _ _ _) as [s1 r]. destruct Hd as (Hs1 & -> & <-). unfold rn_on in Hs1.
  assert (rn_vals s1 = match rn_state s1 with RsNormal x => fx_vals x ++ msg_values (rn_inp_buf s1) | RsDone => [] end) as Hv by done.
  destruct (rn_state s1) as [fx1|] eqn:Es1; [|done]. destruct Hs1 as (Hx1 & Hd1 & Hm1). unfold fx_poll_next. rewrite Hv.
  pose proof (fx_on_poll (length (fx_inp_buf fx1) + length (fp_inp_buf (fx_polling fx1)) + 5) ck fx1 Hx1) as Hp.
  destruct (fx_poll_loop _ ck fx1) as [fx2 [[[y|e|]|]|]]; try done.
  - destruct Hp as (Hx2 & Hv2 & Hne). destruct (rn_of_fx y) as [z|] eqn:Ez; [|by destruct y]. split; [by split|].
    unfold rn_vals. cbn [rn_set_state rn_set rn_state rn_inp_buf]. rewrite <- Hv2, <- app_assoc. f_equal. destruct y; try done; by injection Ez as <-.
  - destruct Hp as [Hx2 Hv2]. split; [by split|]. unfold rn_vals. cbn [rn_set_state rn_set rn_state rn_inp_buf]. by rewrite Hv2.
Qed.

(** ** Through the handler *)

(** A channel that is monitored, whose input is open, and with only updates in its
    buffers. *)
Definition hd_on (h : ChannelHandler) : Prop :=
  hd_outbuf h = [] /\
  match hd_state h with
  | HsRunning st => rn_on st /\ rn_ok st /\ msgs_ok is_update (hd_inp_buf h)
  | _ => False
  end.

(** The values on their way. *)
Definition hd_vals (h : ChannelHandler) : list f32 :=
  match hd_state h with HsRunning st => rn_vals st ++ msg_values (hd_inp_buf h) | _ => [] end.

Lemma hd_on_push inp progress st :
  rn_on st -> rn_ok st -> msgs_ok is_update inp ->
  match hd_push_running inp progress st with
  | (inp', st', _, _) => (rn_on st' /\ rn_ok st' /\ msgs_ok is_update inp') /\ rn_vals st' ++ msg_values inp' = rn_vals st ++ msg_values inp
  end.
Proof.
  revert progress st. induction inp as [|item inp IH]; intros progress st Hst Hok Hm; [done|].
  cbn [hd_push_running]. inversion Hm as [|? ? Hty Hr]; subst. unfold rn_inp_push_try. rewrite inp_buf_push_spec.
  destruct (Nat.ltb_spec (length (rn_inp_buf st)) RUNNING_INP_CAP) as [Ec|Ec].
  - match goal with |- context [hd_push_running inp true ?x] => assert (rn_on x /\ rn_ok x /\ rn_vals x = rn_vals st ++ msg_values [item]) as (H1 & H2 & H3) end.
    { unfold rn_on, rn_ok, rn_vals in *. cbn [rn_set rn_state rn_inp_done rn_inp_buf]. destruct (rn_state st); [|done]. destruct Hst as (? & ? & ?), Hok as (? & ? & ?).
      split_and!; try done; [apply Forall_app; split; [done|]; by apply Forall_singleton|rewrite length_app; cbn; lia|by rewrite msg_values_app, app_assoc]. }
    specialize (IH true _ H1 H2 Hr). destruct (hd_push_running inp true _) as [[[inp' st'] ?] ?]. destruct IH as [IH1 IH2]. split; [done|].
    rewrite IH2, H3, <- app_assoc, <- msg_values_app. done.
  - assert (rn_set (rn_state st) (rn_chan_close_ack st) (rn_inp_buf st) st = st) as -> by (by destruct st). done.
Qed.

Lemma hd_on_turn ck progress h :
  hd_on h ->
  match hd_turn ck progress h with
  | (h', inl (Ok y)) => hd_on h' /\ out_value hd_value y ++ hd_vals h' = hd_vals h
  | (h', inr _) => hd_on h' /\ hd_vals h' = hd_vals h
  | (_, inl Panic) => True
  | (_, inl (Err _)) => False
  end.
Proof.
  intros [Ho Hh]. unfold hd_turn, hd_vals. destruct (hd_state h) as [|st|st|ack fut to| | |] eqn:Es; try done. destruct Hh as (Hst & Hok & Hm).
  unfold hd_turn_running. pose proof (hd_on_push (hd_inp_buf h) progress st Hst Hok Hm) as Hp.
  destruct (hd_push_running _ _ _) as [[[inp st1] b] ?]. destruct Hp as ((Hst1 & Hok1 & Hm1) & <-).
  pose proof (rn_on_poll 4 ck st1 Hst1) as Hr. pose proof (rn_poll_next_safe ck st1 Hok1) as Hs. unfold rn_poll_next in *.
  destruct (rn_poll_loop 4 ck st1) as [st2 [[[y| |]|]|]]; try done; destruct Hs as [Hs _]; destruct Hr as [Hr Hv].
  - split; [by split_and!|]. cbn [hd_set hd_state hd_inp_buf]. rewrite <- Hv, <- app_assoc. f_equal. by destruct y.
  - split; [by split_and!|]. cbn [hd_set hd_state hd_inp_buf]. by rewrite Hv.
Qed.

Lemma hd_on_poll fuel ck h :
  hd_on h -> Forall (fun c => is_remove c = false) (hd_cmds h) ->
  match hd_poll_loop fuel ck h with
  | (h', Ready (Some (Ok y))) => hd_on h' /\ out_value hd_value y ++ hd_vals h' = hd_vals h
  | (h', Pending) => hd_on h' /\ hd_vals h' = hd_vals h
  | (_, Ready (Some Panic)) => True
  | _ => False
  end /\ Forall (fun c => is_remove c = false) (hd_cmds (hd_poll_loop fuel ck h).1).
Proof.
  revert h. induction fuel as [|fuel IH]; intros h Hh Hcmds; cbn [hd_poll_loop]; [done|]. rewrite (proj1 Hh).
  assert (Hgo : forall h1 progress, hd_on h1 -> hd_vals h1 = hd_vals h -> Forall (fun c => is_remove c = false) (hd_cmds h1) ->
    let r :=
      match hd_turn ck progress h1 with
       | (self, inl x) => (self, Ready (Some x))
       | (self, inr true) => hd_poll_loop fuel ck self
       | (self, inr false) => (self, Pending)
       end in
    match r with
    | (h', Ready (Some (Ok y))) => hd_on h' /\ out_value hd_value y ++ hd_vals h' = hd_vals h
    | (h', Pending) => hd_on h' /\ hd_vals h' = hd_vals h
    | (_, Ready (Some Panic)) => True
    | _ => False
    end /\ Forall (fun c => is_remove c = false) (hd_cmds r.1)).
  { intros h1 progress Hh1 <- Hc1. pose proof (hd_on_turn ck progress h1 Hh1) as Ht. pose proof (hd_turn_cmds ck progress h1) as Hc.
    destruct (hd_turn ck progress h1) as [h2 [[y|e|]|[]]]; try done; cbn [fst] in Hc |- *; rewrite ?Hc; try done.
    destruct Ht as [Ht <-]. apply IH; [done|]. by rewrite Hc. }
  destruct (hd_cmds h) as [|c cmds] eqn:Ec; [apply Hgo; [done|done|by rewrite Ec]|]. inversion Hcmds as [|? ? Hc Hr]; subst.
  destruct c; [done|]. cbn [hd_handle_cmd fmap option_fmap option_map].
  destruct (hd_state (hd_set_cmds cmds h)) eqn:Es; apply Hgo; try done.
Qed.

(** ** Runs *)

(** The values of the messages that the handler takes into its queue; one that
    finds it full stays with the sender. *)
Definition ev_accepts (ev : HandlerEvent) (h : ChannelHandler) : list f32 :=
  match ev with
  | EvMessage item => if (length (hd_inp_buf h) <? HANDLER_INP_CAP)%nat then msg_values [item] else []
  | _ => []
  end.

Fixpoint run_accepts (evs : list HandlerEvent) (h : ChannelHandler) : list f32 :=
  match evs with
  | [] => []
  | ev :: evs => ev_accepts ev h ++ match (hd_event ev h).1 with Some h => run_accepts evs h | None => [] end
  end.

(** Updates only; the input stays open and no one removes the channel. *)
Definition ev_update (ev : HandlerEvent) : bool :=
  match ev with
  | EvMessage item => is_update (cm_ty (prx_msg item))
  | EvInputDone => false
  | EvCommand c => negb (is_remove c)
  | EvPoll _ | EvInfo _ => true
  end.

Definition monitored (h : ChannelHandler) : Prop := hd_on h /\ Forall (fun c => is_remove c = false) (hd_cmds h).

Definition out_values (l : list HandlerItem) : list f32 := omap hd_value l.

Lemma out_values_app l l' : out_values (l ++ l') = out_values l ++ out_values l'.
Proof. apply omap_app. Qed.

Lemma monitored_event ev h :
  monitored h -> ev_update ev = true ->
  exists h' l, hd_event ev h = (Some h', l) /\ monitored h' /\ out_values l ++ hd_vals h' = hd_vals h ++ ev_accepts ev h.
Proof.
  intros [Hh Hc] Hev. destruct ev as [ck|item| |c|x]; cbn [hd_event ev_update ev_accepts] in *; [| |done|..]; rewrite ?app_nil_r.
  - assert (hd_calm h) as Hcalm by (destruct Hh as [_ Hh]; unfold hd_calm; destruct (hd_state h); try done; by destruct Hh as (_ & ? & _)).
    unfold hd_poll_next. set (fuel := (length (hd_cmds h) + length (hd_inp_buf h) + 10)%nat).
    pose proof (hd_poll_loop_calm fuel ck h Hcalm ltac:(unfold hd_need, fuel; destruct (hd_state h) as [| | |? []| | |]; cbn; lia)) as Hcl.
    destruct (hd_on_poll fuel ck h Hh Hc) as [Hp Hc']. destruct (hd_poll_loop fuel ck h) as [h' [[[y| |]|]|]]; cbn [fst snd] in *; try done.
    + destruct Hp as [Hp Hv]. eexists _, _. split; [done|]. split; [done|]. rewrite <- Hv. unfold out_values, out_value. cbn. by destruct (hd_value y).
    + destruct Hp as [Hp Hv]. eexists _, _. split; [done|]. split; [done|]. done.
  - eexists _, _. split; [done|]. unfold hd_inp_push_try. rewrite inp_buf_push_spec. unfold monitored, hd_on, hd_vals in *. destruct Hh as [Ho Hh].
    destruct (_ <? _)%nat; cbn [fst hd_set hd_state hd_outbuf hd_cmds hd_inp_buf]; rewrite ?app_nil_r; [|done].
    destruct (hd_state h); try done. destruct Hh as (? & ? & ?).
    split; [|change (out_values []) with (@nil f32); by rewrite msg_values_app, <- app_assoc]. split_and!; try done. apply Forall_app. split; [done|]. by apply Forall_singleton.
  - eexists _, _. split; [done|]. unfold hd_cmd_try_send. destruct (_ <? _)%nat; [|done]. split; [|done]. split; [exact Hh|].
    cbn. apply Forall_app. split; [done|]. apply Forall_singleton. by destruct c.
  - eexists _, _. split; [done|]. unfold hd_info_arrives. destruct Hh as [Ho Hh]. destruct (hd_state h) eqn:Es; try done.
    split; [|done]. split; [|done]. split; [done|]. by rewrite Es.
Qed.

(** C26. The values of a monitored channel come out as they went in: over any sequence
    of updates, polls at any times and commands but the removal, the values put
    out, followed by those still on their way, are the values that were on their
    way at first, followed by those of the messages that were accepted - in this
    order, each once; and the handler goes on monitoring. *)
Theorem monitored_values_in_order evs h :
  monitored h -> forallb ev_update evs = true ->
  exists h' l, hd_run evs h = (Some h', l) /\ monitored h' /\ out_values l ++ hd_vals h' = hd_vals h ++ run_accepts evs h.
Proof.
  revert h. induction evs as [|ev evs IH]; intros h Hh; cbn [forallb hd_run run_accepts].
  { intros _. eexists _, _. split; [done|]. split; [done|]. by rewrite app_nil_r. }
  intros [Hev Hevs]%andb_prop. destruct (monitored_event ev h Hh Hev) as (h1 & l1 & -> & Hh1 & Hv1). cbn [fst].
  destruct (IH h1 Hh1 Hevs) as (h2 & l2 & -> & Hh2 & Hv2). eexists _, _. split; [done|]. split; [done|].
  rewrite out_values_app, <- app_assoc, Hv2, !app_assoc. by f_equal.
Qed.
End Fifo.

#[local] Existing Instance rng_example.

(** A channel that is monitored, after its first value. *)
Definition example_monitored : option ChannelHandler :=
  (hd_run (example_start ++ example_polls 5 0 ++ [example_update 0] ++ example_polls 5 1) (hd_new 3 "scylla" "X:Y" false)).1.

Lemma example_monitored_on : exists h, example_monitored = Some h /\ monitored h.
Proof.
  destruct example_monitored as [h|] eqn:E; [|vm_compute in E; discriminate E]. exists h. split; [done|]. vm_compute in E. injection E as <-.
  split; [|by apply Forall_nil]. split; [done|]. split; [|split; [|by apply Forall_nil]].
  - split; [|split; [done|by apply Forall_nil]]. split; try done; [by apply Forall_nil|]. split; [by eexists|done|by apply Forall_nil].
  - split; [split; try done; by eexists|]. split; [done|cbn; lia].
Defined.

Lemma monitored_values_in_order_witness :
  exists h, example_monitored = Some h /\
  exists h' l, hd_run ([example_update 0; example_update 4607182418800017408] ++ example_polls 1 2) h = (Some h', l) /\ monitored h' /\
    out_values l ++ hd_vals h' = hd_vals h ++ run_accepts ([example_update 0; example_update 4607182418800017408] ++ example_polls 1 2) h.
Proof.
  destruct example_monitored_on as (h & E & Hh). exists h. split; [exact E|].
  apply (monitored_values_in_order ([example_update 0; example_update 4607182418800017408] ++ example_polls 1 2) h Hh). vm_compute. reflexivity.
Defined.
