(* ===== verification/EvStore.v ===== *)
(** * Stored events and the requests for them

    The addresses of events of [events3/msplsp.rs], the ranges of [range.rs] and
    the requests of [events3/mspfwd.rs], [events3/lspfwd.rs] and
    [events3/lsplst.rs] of [daqbuf-scyllaconn/src]; [ReadMspFwdStream] and
    [msp_bck], which read the partitions of a series, and [LspFwdMspSingleStream]
    of [events3/ks/lsp_fwd_msp_single.rs], which reads the events of one. The
    database is an interface ([EventsDb]): what it answers to a statement, and when.
    [DbLaws] is what the statements of [events2/prepare.rs] say on a store of rows.

    A time is the number of polls so far; a future is the time at which it is
    ready, with what it is ready with. *)
From Stdlib Require Import ZArith Lia.
From stdpp Require Import base numbers option strings list sorting.
From S2P Require Import Prelude Items TimeTypes NetpodTypes Retention Ranges Events StreamRun.

#[local] Open Scope Z_scope.
#[local] Open Scope rust_scope.

(** ** Addresses and ranges *)

Abbreviation MspEv := Z (only parsing).
Abbreviation LspEv := Z (only parsing).

Definition MspEv_to_i64 (m : MspEv) : Z := to_signed 64 m.
Definition MspEv_to_ms (m : MspEv) : TsMs := m.
Definition MspEv_lsp (m : MspEv) (ts : TsNano) : option LspEv :=
  let ns1 := TsNano_ns ts in
  let ns2 := u64_mul m MS in
  if ns2 <=? ns1 then Some (u64_sub ns1 ns2) else None.
Definition MspEv_to_ts (m : MspEv) (lsp : LspEv) : TsNano := TsNano_from_ns (u64_add (u64_mul m MS) lsp).
Definition MspEv_from_TsMs (value : TsMs) : MspEv := value.

Definition LspEv_from_i64 (x : Z) : LspEv := wrap 64 x.
Definition LspEv_max : LspEv := 2 ^ 63 - 1.
Definition LspEv_to_i64 (l : LspEv) : Z := to_signed 64 l.

Inductive RangeExcl : Type := RexclNone | RexclBeg.

Definition RangeExcl_excl_beg (r : RangeExcl) : bool := match r with RexclNone => false | RexclBeg => true end.

Record ScyllaSeriesRange : Type := mkSsr { ssr_beg : Z; ssr_end : Z }.

Definition ScyllaSeriesRange_new (beg en : TsNano) : ScyllaSeriesRange := mkSsr (TsNano_ns beg) (TsNano_ns en).

Record SeriesInfo : Type := mkSeriesInfo { si_series : Z; si_scalar_type : ScalarType; si_shape : Shape }.

Record KeyspaceId : Type := mkKeyspaceId { ks_name : string; ks_rt : RetentionTime }.

(** Sums of [i64]. *)
Definition i64_add (a b : Z) : Z := to_signed 64 (wrap 64 (a + b)).

(** ** Requests

    [V] are the values of the series, [DE] the errors of a request: those of the
    database and those of the channels to the worker that asks it. *)
Section Requests.
  Context {V DE : Type}.

(** The statements for the events of one keyspace, each with the time at which it
    is asked and its parameters, and what it answers: the time it takes and an
    error or the rows. The tables of events are one for each shape and name of a
    scalar type. *)
Record EventsDb : Type := mkEventsDb {
  db_ts_msp_fwd3 : nat -> Z * Z * Z * Z -> nat * (DE + list Z);
  db_lsp_fwd_val : bool * string -> nat -> Z * Z * Z * Z * Z -> nat * (DE + list (Z * V));
  db_lsp_fwd_ts : bool * string -> nat -> Z * Z * Z * Z * Z -> nat * (DE + list Z);
  db_lsp_lst : Shape * string -> nat -> Z * Z * Z -> nat * (DE + list Z)
}.

(** The errors of [Read03LspFwd] that the code makes; others come from [DE]. *)
Inductive lspfwd_error : Type :=
  | LspFwdDb (e : DE)
  | LspFwdNotSupported (st : ScalarType) (sh : Shape)
  | LspFwdImage.

Context (db : EventsDb).

(** [Read03MspFwd::exec_inner]. *)
Definition msp_fwd_exec (now : nat) (series : Z) (range : ScyllaSeriesRange) (begexcl : RangeExcl) (limit : Z) : nat * (DE + list TsMs) :=
  let beg := DtMs_to_i64 (TsNano_to_dt_ms (ssr_beg range)) in
  let en := DtMs_to_i64 (TsNano_to_dt_ms (ssr_end range)) in
  let beg := if RangeExcl_excl_beg begexcl then i64_add 1 beg else beg in
  match db_ts_msp_fwd3 db now (to_signed 64 series, beg, en, to_signed 32 limit) with
  | (d, inl e) => (d, inl e)
  | (d, inr rows) => (d, inr (map (fun v => TsMs_from_ms_u64 (wrap 64 v)) rows))
  end.

(** The parameters [lsp_beg] and [lsp_end] of [Read03LspFwd::exec_inner]. *)
Definition lsp_fwd_beg (msp : MspEv) (range : ScyllaSeriesRange) (begexcl : RangeExcl) : Z :=
  let lsp_beg := match MspEv_lsp msp (ssr_beg range) with Some x => LspEv_to_i64 x | None => 0 end in
  match begexcl with RexclBeg => i64_add lsp_beg 1 | RexclNone => lsp_beg end.
Definition lsp_fwd_end (msp : MspEv) (range : ScyllaSeriesRange) : Z :=
  match MspEv_lsp msp (ssr_end range) with Some x => LspEv_to_i64 x | None => 0 end.

(** Whether the shape and the scalar type have a branch that reads rows. *)
Definition lsp_fwd_supported (si : SeriesInfo) : option lspfwd_error :=
  match si_shape si with
  | Scalar => None
  | Wave _ => match si_scalar_type si with Enum | STRING => Some (LspFwdNotSupported (si_scalar_type si) (si_shape si)) | _ => None end
  | Image _ _ => Some LspFwdImage
  end.

(** The branches of [Read03LspFwd::exec_inner], which differ in the type of the
    values only; the casts of the values are left out. *)
Definition lsp_fwd_rows `{EventValueType V} (msp : MspEv) (rows : list (Z * V)) : ContainerEvents V :=
  foldl (fun evs '(lsp, val) => ce_push_back evs (MspEv_to_ts msp (LspEv_from_i64 lsp)) val) ce_new rows.

Definition shape_is_array (sh : Shape) : bool := match sh with Scalar => false | Wave _ => true | Image _ _ => true end.

Definition lsp_fwd_exec `{EventValueType V} (now : nat) (si : SeriesInfo) (msp : MspEv) (range : ScyllaSeriesRange)
    (begexcl : RangeExcl) (limit : Z) : nat * (lspfwd_error + ContainerEvents V) :=
  let params := (to_signed 64 (si_series si), MspEv_to_i64 msp, lsp_fwd_beg msp range begexcl, lsp_fwd_end msp range, to_signed 32 limit) in
  let '(d, res) := db_lsp_fwd_val db (shape_is_array (si_shape si), ScalarType_to_scylla_table_name_id (si_scalar_type si)) now params in
  match lsp_fwd_supported si with
  | Some e => (O, inl e)
  | None => (d, match res with inl e => inl (LspFwdDb e) | inr rows => inr (lsp_fwd_rows msp rows) end)
  end.

(** [Read03LspLst::exec_inner]: the first row only. *)
Definition lsp_lst_exec (now : nat) (si : SeriesInfo) (msp : MspEv) (en : option LspEv) : nat * (DE + option LspEv) :=
  let lsp_max := match en with Some x => LspEv_to_i64 x | None => 2 ^ 63 - 1 end in
  let '(d, res) := db_lsp_lst db (si_shape si, ScalarType_to_scylla_table_name_id (si_scalar_type si)) now
    (to_signed 64 (si_series si), MspEv_to_i64 msp, lsp_max) in
  (d, match res with
      | inl e => inl e
      | inr [] => inr None
      | inr (v :: _) => inr (Some (LspEv_from_i64 v))
      end).

(** [Read03LspOnly::exec_inner]. *)
Definition lsp_only_exec (now : nat) (si : SeriesInfo) (msp : MspEv) : nat * (DE + list LspEv) :=
  let '(d, res) := db_lsp_fwd_ts db (shape_is_array (si_shape si), ScalarType_to_scylla_table_name_id (si_scalar_type si)) now
    (to_signed 64 (si_series si), MspEv_to_i64 msp, 0, 2 ^ 63 - 1, 812412) in
  (d, match res with inl e => inl e | inr rows => inr (map LspEv_from_i64 rows) end).

(** ** [ReadMspFwdStream] *)

Record ReadMspFwdStream : Type := mkMspFwd {
  mf_range : ScyllaSeriesRange;
  mf_begexcl : RangeExcl;
  mf_limit : Z;
  mf_fut : option (nat * (DE + list TsMs))
}.

Definition mf_new (range : ScyllaSeriesRange) (begexcl : RangeExcl) (limit : Z) : ReadMspFwdStream :=
  mkMspFwd range begexcl (Z.min (Z.max limit 1) 40) None.

Definition mf_trigger_done (s : ReadMspFwdStream) : ReadMspFwdStream :=
  mkMspFwd (ScyllaSeriesRange_new (ssr_end (mf_range s)) (ssr_end (mf_range s))) (mf_begexcl s) (mf_limit s) (mf_fut s).

(** The branch of [poll_next] with a request on its way. *)
Definition mf_poll_fut (now : nat) (s : ReadMspFwdStream) (fut : nat * (DE + list TsMs)) : ReadMspFwdStream * loop_flow (DE + list TsMs) :=
  if (fut.1 <=? now)%nat then
    let s := mkMspFwd (mf_range s) (mf_begexcl s) (mf_limit s) None in
    match fut.2 with
    | inr v =>
        if Z.of_nat (length v) <? mf_limit s then (mf_trigger_done s, LoopBreak (Ready (Some (inr v))))
        else
          match last v with
          | Some m => (mkMspFwd (ScyllaSeriesRange_new (TsMs_ns m) (ssr_end (mf_range s))) RexclBeg (mf_limit s) None, LoopBreak (Ready (Some (inr v))))
          | None => (s, LoopPanic)
          end
    | inl e => (mf_trigger_done s, LoopBreak (Ready (Some (inl e))))
    end
  else (mkMspFwd (mf_range s) (mf_begexcl s) (mf_limit s) (Some fut), LoopBreak Pending).

(** [poll_next]: its loop turns once more after a request is made. *)
Definition mf_poll_next (series : Z) (now : nat) (s : ReadMspFwdStream) : ReadMspFwdStream * loop_flow (DE + list TsMs) :=
  match mf_fut s with
  | Some fut => mf_poll_fut now s fut
  | None =>
      if ssr_beg (mf_range s) <? ssr_end (mf_range s) then
        let '(d, res) := msp_fwd_exec now series (mf_range s) (mf_begexcl s) (mf_limit s) in
        mf_poll_fut now s ((now + d)%nat, res)
      else (s, LoopBreak (Ready None))
  end.

(** ** [msp_bck] *)

(** The loop over the stream: awaiting it is polling it as time goes on. *)
Fixpoint msp_bck_loop (fuel : nat) (series : Z) (now : nat) (s : ReadMspFwdStream) (msps : list TsMs) : option (outcome DE (list TsMs)) :=
  match fuel with
  | O => None
  | S fuel =>
      match mf_poll_next series now s with
      | (s, LoopBreak (Ready (Some (inr v)))) => msp_bck_loop fuel series (S now) s (msps ++ v)
      | (s, LoopBreak (Ready (Some (inl e)))) => Some (Err e)
      | (s, LoopBreak (Ready None)) => Some (Ok msps)
      | (s, LoopBreak Pending) => msp_bck_loop fuel series (S now) s msps
      | (s, LoopPanic) => Some Panic
      | (s, LoopContinue) | (s, LoopFuel) => None
      end
  end.

Definition msp_max : nat := 10.

Definition msp_bck (fuel : nat) (now : nat) (rt : RetentionTime) (si : SeriesInfo) (beg : TsNano) : option (outcome DE (list TsMs)) :=
  let win := DtNano_from_sec (rt_msp_rollover_ivl_on_read rt / SEC) in
  let range := ScyllaSeriesRange_new (TsNano_sub beg win) beg in
  r ← msp_bck_loop fuel (si_series si) now (mf_new range RexclNone 20) [];
  Some (let? msps := r in
        Ok (if (length msps <=? msp_max)%nat then msps else drop (length msps - msp_max) msps)).

End Requests.

(** ** The events of one partition

    [LspFwdMspSingleStream]: the events of a partition in a range, read in pieces and
    kept in a buffer. A loop that turns once more after a request is made, or after
    the end, is written out. *)

(** The texts of the log items. *)
Inductive ReadLog : Type :=
  | RlContLen (n : nat)
  | RlOpenNextMsp (msp : MspEv)
  | RlUseNextMsp (msp : TsMs)
  | RlLenHisto (histo : list Z) (name : string).

Section LspSingle.
  Context {V DE St : Type} `{EventValueType V}.
  Context (db : EventsDb (V := V) (DE := DE)) (si : SeriesInfo).

Local Abbreviation Err := (lspfwd_error (DE := DE)).
Local Abbreviation SgItem := (Sitemty ReadLog St Err (ContainerEvents V)).

Definition sitem2_data {L S E T : Type} (x : T) : Sitemty L S E T := SOk (DataItem (Data x)).
Definition sitem2_log {L S E T : Type} (x : L) : Sitemty L S E T := SOk (Log x).

Record LspFwdMspSingleStream : Type := mkSingle {
  sg_msp : MspEv;
  sg_range : ScyllaSeriesRange;
  sg_done : bool;
  sg_begexcl : RangeExcl;
  sg_limit : Z;
  sg_buf_max : nat;
  sg_fut : option (nat * (Err + ContainerEvents V));
  sg_outbuf : list SgItem
}.

Definition sg_new (msp : MspEv) (range : ScyllaSeriesRange) (limit : Z) (buf_max : nat) : LspFwdMspSingleStream :=
  mkSingle msp range false RexclNone (Z.min (Z.max limit 1) 70312) buf_max None [].

Definition sg_trigger_done (s : LspFwdMspSingleStream) : LspFwdMspSingleStream :=
  mkSingle (sg_msp s) (ScyllaSeriesRange_new (ssr_end (sg_range s)) (ssr_end (sg_range s))) true (sg_begexcl s) (sg_limit s)
    (sg_buf_max s) (sg_fut s) (sg_outbuf s).
Definition sg_set_fut (s : LspFwdMspSingleStream) (fut : option (nat * (Err + ContainerEvents V))) : LspFwdMspSingleStream :=
  mkSingle (sg_msp s) (sg_range s) (sg_done s) (sg_begexcl s) (sg_limit s) (sg_buf_max s) fut (sg_outbuf s).
Definition sg_set_outbuf (s : LspFwdMspSingleStream) (outbuf : list SgItem) : LspFwdMspSingleStream :=
  mkSingle (sg_msp s) (sg_range s) (sg_done s) (sg_begexcl s) (sg_limit s) (sg_buf_max s) (sg_fut s) outbuf.

(** The branch of [poll_to_buffer] with a request on its way. *)
Definition sg_poll_run (now : nat) (s : LspFwdMspSingleStream) (fut : nat * (Err + ContainerEvents V))
    : LspFwdMspSingleStream * loop_flow (Err + unit) :=
  if (length (sg_outbuf s) <? sg_buf_max s)%nat then
    if (fut.1 <=? now)%nat then
      let s := sg_set_fut s None in
      match fut.2 with
      | inr v =>
          match mt_ts_max v with
          | Some tsmax =>
              (mkSingle (sg_msp s) (ScyllaSeriesRange_new tsmax (ssr_end (sg_range s))) (sg_done s) RexclBeg (sg_limit s) (sg_buf_max s)
                 None (sg_outbuf s ++ [sitem2_log (RlContLen (mt_len v)); sitem2_data v]), LoopBreak (Ready (Some (inr tt))))
          | None => (sg_trigger_done s, LoopBreak (Ready None))
          end
      | inl e => (sg_trigger_done s, LoopBreak (Ready (Some (inl e))))
      end
    else (sg_set_fut s (Some fut), LoopBreak Pending)
  else (sg_set_fut s (Some fut), LoopBreak (Ready None)).

Definition sg_poll_to_buffer (now : nat) (s : LspFwdMspSingleStream) : LspFwdMspSingleStream * loop_flow (Err + unit) :=
  match sg_fut s with
  | Some fut => sg_poll_run now s fut
  | None =>
      if negb (sg_done s) && (ssr_beg (sg_range s) <? ssr_end (sg_range s)) then
        let '(d, res) := lsp_fwd_exec db now si (sg_msp s) (sg_range s) (sg_begexcl s) (sg_limit s) in
        sg_poll_run now s ((now + d)%nat, res)
      else (s, LoopBreak (Ready None))
  end.

(** [poll_next]; when [poll_to_buffer] is done with something, or ends, the loop
    turns and takes from the buffer. *)
Definition sg_poll_next (now : nat) (s : LspFwdMspSingleStream) : LspFwdMspSingleStream * loop_flow SgItem :=
  match sg_outbuf s with
  | x :: outbuf => (sg_set_outbuf s outbuf, LoopBreak (Ready (Some x)))
  | [] =>
      match sg_poll_to_buffer now s with
      | (s, LoopBreak (Ready (Some (inl e)))) => (s, LoopBreak (Ready (Some (SErr e))))
      | (s, LoopBreak (Ready (Some (inr _)))) =>
          match sg_outbuf s with
          | x :: outbuf => (sg_set_outbuf s outbuf, LoopBreak (Ready (Some x)))
          | [] => (s, LoopFuel)
          end
      | (s, LoopBreak (Ready None)) =>
          match sg_outbuf s with
          | x :: outbuf => (sg_set_outbuf s outbuf, LoopBreak (Ready (Some x)))
          | [] => (s, LoopBreak (Ready None))
          end
      | (s, LoopBreak Pending) => (s, LoopBreak Pending)
      | (s, LoopContinue) => (s, LoopContinue)
      | (s, LoopPanic) => (s, LoopPanic)
      | (s, LoopFuel) => (s, LoopFuel)
      end
  end.

Definition sg_inp_done (s : LspFwdMspSingleStream) : bool := sg_done s.
Definition sg_buflen (s : LspFwdMspSingleStream) : nat := length (sg_outbuf s).

End LspSingle.
