(* ===== verification/EvStoreProofs.v ===== *)
(** * Reading the partitions of a series

    A store of events ([EvStore]), what its database answers ([DbLaws]), and that
    [ReadMspFwdStream] and [msp_bck] give the partitions they are asked for. *)
From Stdlib Require Import ZArith Lia.
From stdpp Require Import base numbers option strings list sorting.
From S2P Require Import Prelude Items TimeTypes NetpodTypes Retention Ranges Events StreamRun EvStore.

#[local] Open Scope Z_scope.
#[local] Open Scope rust_scope.

Lemma elem_take {A} (x : A) n l : x ∈ take n l -> x ∈ l.
Proof. intros Hx. rewrite <- (take_drop n l). apply elem_of_app. by left. Qed.
Lemma elem_drop {A} (x : A) n l : x ∈ drop n l -> x ∈ l.
Proof. intros Hx. rewrite <- (take_drop n l). apply elem_of_app. by right. Qed.

(** ** The rows of a sorted table between two keys *)

Definition window {A : Type} (k : A -> Z) (b e : Z) (l : list A) : list A := filter (fun x => b <= k x < e) l.

Section Window.
  Context {A : Type} (k : A -> Z).

Lemma elem_of_window b e l x : x ∈ window k b e l <-> x ∈ l /\ b <= k x < e.
Proof. unfold window. rewrite list_elem_of_filter. tauto. Qed.

Lemma window_empty b e l : e <= b -> window k b e l = [].
Proof. intros He. unfold window. apply filter_false, Forall_forall. intros x _ ?. lia. Qed.

Lemma window_all b e l : Forall (fun x => b <= k x < e) l -> window k b e l = l.
Proof. apply filter_true. Qed.

Lemma window_window b e b' e' l : window k b' e' (window k b e l) = window k (Z.max b b') (Z.min e e') l.
Proof. unfold window. rewrite list_filter_filter. apply list_filter_iff. intros x. lia. Qed.

Lemma window_app b e l1 l2 : window k b e (l1 ++ l2) = window k b e l1 ++ window k b e l2.
Proof. apply filter_app. Qed.

Lemma window_sorted b e l : StronglySorted Z.lt (map k l) -> StronglySorted Z.lt (map k (window k b e l)).
Proof.
  induction l as [|x l IH]; intros Hs; [constructor|]. cbn [map] in Hs. apply StronglySorted_inv in Hs as [Hs Hf].
  unfold window. cbn. destruct (decide (b <= k x < e)); [|by apply IH]. cbn [map]. constructor; [by apply IH|].
  apply Forall_forall. intros y (z & -> & Hz)%list_elem_of_fmap. apply list_elem_of_filter in Hz as [_ Hz].
  rewrite Forall_forall in Hf. apply Hf. by apply list_elem_of_fmap_2.
Qed.

(** On from a row that was read. *)
Lemma window_next b e l n x :
  StronglySorted Z.lt (map k l) -> last (take n (window k b e l)) = Some x ->
  window k (k x + 1) e l = drop n (window k b e l).
Proof.
  intros Hs Hx. set (w := window k b e l) in *. assert (Hw : StronglySorted Z.lt (map k w)) by by apply window_sorted.
  assert (Hin : x ∈ w). { apply (elem_take x n). apply last_Some in Hx as [t ->]. apply elem_of_app. right. by left. }
  apply elem_of_window in Hin as [_ Hb]. transitivity (window k (k x + 1) e w).
  { subst w. rewrite window_window. f_equal; lia. }
  apply last_Some in Hx as [t Ht]. rewrite <- (take_drop n w) in Hw |- * at 1. rewrite Ht in *. rewrite window_app, map_app in *.
  assert (Hd : forall y, y ∈ drop n w -> k x + 1 <= k y < e).
  { intros y Hy. split.
    - rewrite map_app, <- app_assoc in Hw. clear Ht. induction t as [|z t IH]; cbn in Hw; apply StronglySorted_inv in Hw as [Hw Hf].
      + rewrite Forall_forall in Hf. specialize (Hf (k y)). apply Z.le_succ_l, Hf. by apply list_elem_of_fmap_2.
      + by apply IH.
    - assert (Hyw : y ∈ w) by (by apply (elem_drop y n)). apply elem_of_window in Hyw as [_ ?]. lia. }
  rewrite (window_all _ _ (drop n w)) by (by apply Forall_forall).
  replace (window k (k x + 1) e (t ++ [x])) with (@nil A); [done|]. symmetry. apply filter_false, Forall_forall. intros y Hy ?.
  assert (k y <= k x); [|lia]. clear Hd. apply elem_of_app in Hy as [Hy|Hy%list_elem_of_singleton]; [|by subst].
  clear Ht. induction t as [|z t IH]; [by apply not_elem_of_nil in Hy|]. cbn in Hw. apply StronglySorted_inv in Hw as [Hw Hf].
  apply elem_of_cons in Hy as [->|Hy]; [|by apply IH]. rewrite Forall_forall in Hf. apply Z.lt_le_incl, Hf.
  rewrite map_app. apply elem_of_app. left. apply elem_of_app. right. by left.
Qed.

End Window.

(** ** A store and its database *)
Section Store.
  Context {V DE : Type}.

(** The partitions of a series in milliseconds, and the rows of each: the time
    since the partition, and the value. *)
Record EvStore : Type := mkEvStore { es_msps : list Z; es_rows : Z -> list (Z * V) }.

Record store_ok (st : EvStore) : Prop := {
  so_msps : StronglySorted Z.lt (es_msps st);
  so_msp_range : Forall (fun m => 0 <= m /\ m * 1000000 < 2 ^ 63) (es_msps st);
  so_rows : forall m, StronglySorted Z.lt (es_rows st m).*1;
  so_row_range : forall m r, r ∈ es_rows st m -> 0 <= r.1 /\ m * 1000000 + r.1 < 2 ^ 63
}.

(** What the statements say, each answered after at most [D] polls. *)
Record DbLaws (db : EventsDb (V := V) (DE := DE)) (si : SeriesInfo) (st : EvStore) (D : nat) : Prop := {
  dl_series : 0 <= si_series si < 2 ^ 63;
  dl_supported : lsp_fwd_supported (DE := DE) si = None;
  dl_msp : forall now b e l, exists d, (d <= D)%nat /\
    db_ts_msp_fwd3 db now (si_series si, b, e, l) = (d, inr (take (Z.to_nat l) (window id b e (es_msps st))));
  dl_lsp : forall now m b e l, exists d, (d <= D)%nat /\
    db_lsp_fwd_val db (shape_is_array (si_shape si), ScalarType_to_scylla_table_name_id (si_scalar_type si)) now (si_series si, m, b, e, l) =
      (d, inr (take (Z.to_nat l) (window fst b e (es_rows st m))));
  dl_lsp_ts : forall now m b e l, exists d, (d <= D)%nat /\
    db_lsp_fwd_ts db (shape_is_array (si_shape si), ScalarType_to_scylla_table_name_id (si_scalar_type si)) now (si_series si, m, b, e, l) =
      (d, inr (take (Z.to_nat l) (window fst b e (es_rows st m)).*1));
  dl_lst : forall now m mx, exists d, (d <= D)%nat /\
    db_lsp_lst db (si_shape si, ScalarType_to_scylla_table_name_id (si_scalar_type si)) now (si_series si, m, mx) =
      (d, inr (take 1 (rev (filter (fun x => x < mx) (es_rows st m).*1))))
}.

End Store.
Arguments EvStore : clear implicits.

(** A database that answers from a store, each request after a delay. *)
Definition store_db {V DE : Type} (st : EvStore V) (dm de : nat) : EventsDb (V := V) (DE := DE) := {|
  db_ts_msp_fwd3 _ '(_, b, e, l) := (dm, inr (take (Z.to_nat l) (window id b e (es_msps st))));
  db_lsp_fwd_val _ _ '(_, m, b, e, l) := (de, inr (take (Z.to_nat l) (window fst b e (es_rows st m))));
  db_lsp_fwd_ts _ _ '(_, m, b, e, l) := (de, inr (take (Z.to_nat l) (window fst b e (es_rows st m)).*1));
  db_lsp_lst _ _ '(_, m, mx) := (de, inr (take 1 (rev (filter (fun x => x < mx) (es_rows st m).*1))))
|}.

Lemma store_db_laws {V DE : Type} (st : EvStore V) (dm de : nat) si : 0 <= si_series si < 2 ^ 63 -> lsp_fwd_supported (DE := DE) si = None ->
  DbLaws (DE := DE) (store_db st dm de) si st (dm + de).
Proof. intros Hs Hsup. split; [done|done|..]; intros; eexists; (split; [|done]); lia. Qed.

Lemma to_signed_small z : 0 <= z < 2 ^ 63 -> to_signed 64 z = z.
Proof. intros Hz. rewrite <- (wrap_small 64 z) at 1 by (unfold in_u; lia). apply to_signed_of_wrap; unfold in_i; lia. Qed.

Lemma to_signed_small32 z : 0 <= z < 2 ^ 31 -> to_signed 32 z = z.
Proof. intros Hz. rewrite <- (wrap_small 32 z) at 1 by (unfold in_u; lia). apply to_signed_of_wrap; unfold in_i; lia. Qed.

Lemma i64_add_small a b : 0 <= a -> 0 <= b -> a + b < 2 ^ 63 -> i64_add a b = a + b.
Proof. intros. unfold i64_add. rewrite wrap_small by (unfold in_u; lia). apply to_signed_small. lia. Qed.

Lemma ms_small z : 0 <= z < 2 ^ 63 -> 0 <= z / 1000000 <= 9223372036854.
Proof. intros Hz. split; [apply Z.div_pos; lia|]. change 9223372036854 with (2 ^ 63 / 1000000). apply Z.div_le_mono; lia. Qed.

Section MspFwd.
  Context {V DE : Type} (db : EventsDb (V := V) (DE := DE)) (si : SeriesInfo) (st : EvStore V) (D : nat).
  Context (Hst : store_ok st) (Hdb : DbLaws db si st D).
Implicit Types (s : ReadMspFwdStream (DE := DE)).

(** The partitions that are still to come. *)
Definition mf_lo (s : ReadMspFwdStream (DE := DE)) : Z :=
  ssr_beg (mf_range s) / 1000000 + (if RangeExcl_excl_beg (mf_begexcl s) then 1 else 0).
Definition mf_rest (s : ReadMspFwdStream (DE := DE)) : list Z :=
  if ssr_beg (mf_range s) <? ssr_end (mf_range s) then window id (mf_lo s) (ssr_end (mf_range s) / 1000000) (es_msps st) else [].

Definition range_ok (r : ScyllaSeriesRange) : Prop := 0 <= ssr_beg r < 2 ^ 63 - 1 /\ 0 <= ssr_end r < 2 ^ 63 - 1.

Record mf_ok (now : nat) (s : ReadMspFwdStream (DE := DE)) : Prop := {
  mo_range : range_ok (mf_range s);
  mo_limit : 1 <= mf_limit s <= 40;
  mo_fut : forall f, mf_fut s = Some f -> (f.1 <= now + D)%nat /\ f.2 = inr (take (Z.to_nat (mf_limit s)) (mf_rest s)) /\
    ssr_beg (mf_range s) < ssr_end (mf_range s)
}.

Definition mf_ended (s : ReadMspFwdStream (DE := DE)) : bool := negb (ssr_beg (mf_range s) <? ssr_end (mf_range s)).

(** What is left to do, and to wait for. *)
Definition mf_work (s : ReadMspFwdStream (DE := DE)) : nat :=
  2 * (length (mf_rest s) + (if mf_ended s then 0 else 1)) + (if bool_decide (mf_fut s = None) then 1 else 0).
Definition mf_wait (now : nat) (s : ReadMspFwdStream (DE := DE)) : nat := match mf_fut s with Some f => f.1 - now | None => 0 end.

Lemma msps_range m : m ∈ es_msps st -> 0 <= m /\ m * 1000000 < 2 ^ 63.
Proof. pose proof (so_msp_range _ Hst) as H. rewrite Forall_forall in H. apply H. Qed.

Lemma msp_fwd_exec_spec now s : range_ok (mf_range s) -> 1 <= mf_limit s <= 40 -> ssr_beg (mf_range s) < ssr_end (mf_range s) ->
  exists d, (d <= D)%nat /\ msp_fwd_exec db now (si_series si) (mf_range s) (mf_begexcl s) (mf_limit s) =
    (d, inr (take (Z.to_nat (mf_limit s)) (mf_rest s))).
Proof.
  intros [Hb He] Hl Hlt. unfold msp_fwd_exec. set (b := if RangeExcl_excl_beg _ then _ else _).
  assert (Hbeq : b = mf_lo s).
  { unfold b, mf_lo, DtMs_to_i64, TsNano_to_dt_ms, DtMs_from_ms_u64, TsNano_ms.
    pose proof (ms_small (ssr_beg (mf_range s)) ltac:(lia)).
    rewrite to_signed_small by lia. destruct (mf_begexcl s); cbn [RangeExcl_excl_beg]; [lia|rewrite i64_add_small; lia]. }
  rewrite Hbeq. unfold DtMs_to_i64, TsNano_to_dt_ms, DtMs_from_ms_u64, TsNano_ms.
  pose proof (ms_small (ssr_end (mf_range s)) ltac:(lia)).
  rewrite (to_signed_small (ssr_end _ / _)), (to_signed_small (si_series si)), to_signed_small32 by (apply (dl_series _ _ _ _ Hdb) || lia).
  destruct (dl_msp _ _ _ _ Hdb now (mf_lo s) (ssr_end (mf_range s) / 1000000) (mf_limit s)) as (d & Hd & ->).
  exists d. split; [done|]. f_equal. f_equal. unfold mf_rest. rewrite (proj2 (Z.ltb_lt _ _) Hlt).
  rewrite <- (list_fmap_id (take _ _)) at 2. apply list_fmap_ext. intros i m Hm. unfold TsMs_from_ms_u64. apply wrap_small.
  apply list_elem_of_lookup_2, elem_take, elem_of_window in Hm as [Hm _]. apply msps_range in Hm. unfold in_u, id. lia.
Qed.

Lemma mf_poll_fut_spec now s f : mf_ok now (mkMspFwd (mf_range s) (mf_begexcl s) (mf_limit s) (Some f)) ->
  let sf := mkMspFwd (mf_range s) (mf_begexcl s) (mf_limit s) (Some f) in
  match mf_poll_fut now s f with
  | (s', LoopBreak Pending) => s' = sf /\ (now < f.1)%nat
  | (s', LoopBreak (Ready (Some (inr v)))) =>
      mf_ok now s' /\ mf_rest s = v ++ mf_rest s' /\ mf_fut s' = None /\ (v = [] -> mf_ended s' = true) /\ (mf_work s' < mf_work sf)%nat
  | _ => False
  end.
Proof.
  intros Hok. destruct (mo_fut _ _ Hok f eq_refl) as (Hat & Hres & Hlt). cbn [mf_range] in Hlt.
  pose proof (mo_range _ _ Hok) as [Hb He]. pose proof (mo_limit _ _ Hok) as Hl. cbn [mf_range mf_limit mf_begexcl] in Hb, He, Hl, Hres.
  change (mf_rest (mkMspFwd _ _ _ _)) with (mf_rest s) in Hres.
  unfold mf_poll_fut. destruct (Nat.leb_spec f.1 now) as [Hle|Hgt]; [|done]. rewrite Hres. cbn [mf_limit mf_range].
  set (v := take (Z.to_nat (mf_limit s)) (mf_rest s)).
  assert (Hwork : mf_work (mkMspFwd (mf_range s) (mf_begexcl s) (mf_limit s) (Some f)) = (2 * (length (mf_rest s) + 1))%nat).
  { unfold mf_work, mf_ended. cbn [mf_fut mf_range]. rewrite (proj2 (Z.ltb_lt _ _) Hlt).
    change (mf_rest (mkMspFwd _ _ _ _)) with (mf_rest s). cbn. lia. }
  destruct (Z.ltb_spec (Z.of_nat (length v)) (mf_limit s)) as [Hsh|Hfull].
  - assert (Hv : v = mf_rest s). { unfold v in *. rewrite length_take in Hsh. apply take_ge. lia. }
    set (s' := mf_trigger_done _). assert (He' : mf_ended s' = true) by (unfold mf_ended; cbn; by rewrite Z.ltb_irrefl).
    assert (Hr' : mf_rest s' = []) by (unfold mf_rest; unfold mf_ended in He'; by apply negb_true_iff in He' as ->).
    split; [split; cbn; [by split|done|done]|]. rewrite Hr', app_nil_r. split; [done|]. split; [done|]. split; [done|].
    rewrite Hwork. unfold mf_work. rewrite Hr', He'. cbn. lia.
  - assert (Hlen : length v = Z.to_nat (mf_limit s)) by (unfold v in *; rewrite length_take in *; lia).
    assert (Hm : exists m, last v = Some m) by (apply last_is_Some; intros Hn; rewrite Hn in Hlen; cbn in Hlen; lia).
    destruct Hm as (m & Hm). rewrite Hm.
    assert (Hmw : m ∈ v) by (apply last_Some in Hm as [t ->]; apply elem_of_app; right; by left).
    assert (Hrest : mf_rest s = window id (mf_lo s) (ssr_end (mf_range s) / 1000000) (es_msps st)) by (unfold mf_rest; by rewrite (proj2 (Z.ltb_lt _ _) Hlt)).
    assert (Hmm : m ∈ es_msps st /\ mf_lo s <= m < ssr_end (mf_range s) / 1000000).
    { unfold v in Hmw. apply elem_take in Hmw. rewrite Hrest in Hmw. by apply elem_of_window in Hmw. }
    destruct Hmm as [Hms Hmw']. pose proof (msps_range m Hms) as Hmr.
    assert (Hns : TsMs_ns m = m * 1000000) by (unfold TsMs_ns, TsNano_from_ms; rewrite u64_mul_small; lia).
    set (s' := mkMspFwd _ RexclBeg _ None).
    assert (Hr' : mf_rest s' = drop (Z.to_nat (mf_limit s)) (mf_rest s)).
    { unfold mf_rest at 1. unfold s', ScyllaSeriesRange_new, TsNano_ns. cbn [mf_range ssr_beg ssr_end]. rewrite Hns.
      assert (m * 1000000 < ssr_end (mf_range s)) as ->%Z.ltb_lt by (pose proof (Z.mul_div_le (ssr_end (mf_range s)) 1000000); lia).
      unfold mf_lo. cbn [mf_range mf_begexcl ssr_beg RangeExcl_excl_beg]. rewrite Z.div_mul by lia. rewrite Hrest.
      apply (window_next id); [rewrite map_id; apply (so_msps _ Hst)|]. unfold v in Hm. by rewrite Hrest in Hm. }
    assert (Hwb : (mf_work s' < 2 * (length (mf_rest s) + 1))%nat).
    { unfold mf_work. rewrite Hr', length_drop. unfold v in Hlen. rewrite length_take in Hlen. cbn [mf_fut s']. destruct (mf_ended s'), (bool_decide _); lia. }
    split; [split; cbn [mf_range mf_limit mf_fut s']; [split; cbn [ssr_beg ssr_end ScyllaSeriesRange_new]; unfold TsNano_ns; rewrite ?Hns; lia|done|done]|].
    rewrite Hr', Hwork. split; [symmetry; apply take_drop|]. split; [done|]. split; [|done].
    intros Hv. rewrite Hv in Hlen. cbn in Hlen. lia.
Qed.

(** A poll: the next partitions, or nothing yet, or the end. *)
Lemma mf_poll_spec now s : mf_ok now s ->
  match mf_poll_next db (si_series si) now s with
  | (s', LoopBreak Pending) =>
      mf_ok now s' /\ mf_rest s' = mf_rest s /\ (0 < mf_wait now s')%nat /\ mf_poll_next db (si_series si) now s' = (s', LoopBreak Pending) /\
      (s' = s \/ mf_work s' < mf_work s)%nat
  | (s', LoopBreak (Ready (Some (inr v)))) =>
      mf_ok now s' /\ mf_rest s = v ++ mf_rest s' /\ (v = [] -> mf_ended s' = true) /\ mf_fut s' = None /\ mf_ended s = false /\ (mf_work s' < mf_work s)%nat
  | (s', LoopBreak (Ready None)) => s' = s /\ mf_rest s = [] /\ mf_fut s = None
  | _ => False
  end.
Proof.
  intros Hok. unfold mf_poll_next at 1. destruct s as [rg ex lim fut]. destruct fut as [f|]; cbn [mf_fut].
  - pose proof (mf_poll_fut_spec now (mkMspFwd rg ex lim (Some f)) f Hok) as Hs. cbn [mf_range mf_begexcl mf_limit] in Hs.
    destruct (mo_fut _ _ Hok f eq_refl) as (_ & _ & Hlt).
    destruct (mf_poll_fut now _ f) as [s' [|[[[e|v]|]|]| |]] eqn:Hp; try done.
    + destruct Hs as (? & ? & ? & ? & ?). split; [done|]. split; [done|]. split; [done|]. split; [done|]. split; [|done].
      unfold mf_ended. by rewrite (proj2 (Z.ltb_lt _ _) Hlt).
    + destruct Hs as [-> Hw]. split; [done|]. split; [done|]. split; [unfold mf_wait; cbn; lia|]. split; [|by left]. unfold mf_poll_next. cbn [mf_fut]. done.
  - destruct (Z.ltb_spec (ssr_beg rg) (ssr_end rg)) as [Hlt|Hge]; cbn [mf_range].
    2: { cbn [mf_range] in *. rewrite (proj2 (Z.ltb_ge _ _)) by lia. split; [done|]. split; [|done].
         unfold mf_rest. cbn [mf_range]. by rewrite (proj2 (Z.ltb_ge _ _)). }
    cbn [mf_range]. rewrite (proj2 (Z.ltb_lt _ _) Hlt).
    destruct (msp_fwd_exec_spec now (mkMspFwd rg ex lim None) (mo_range _ _ Hok) (mo_limit _ _ Hok) Hlt) as (d & Hd & Hex).
    cbn [mf_range mf_begexcl mf_limit] in Hex |- *. rewrite Hex. set (f := ((now + d)%nat, _)).
    assert (Hokf : mf_ok now (mkMspFwd rg ex lim (Some f))).
    { split; [apply (mo_range _ _ Hok)|apply (mo_limit _ _ Hok)|]. intros f' [= <-]. split; [cbn; lia|]. split; [|done]. done. }
    pose proof (mf_poll_fut_spec now (mkMspFwd rg ex lim None) f Hokf) as Hs. cbn [mf_range mf_begexcl mf_limit] in Hs.
    assert (Hw : (mf_work (mkMspFwd rg ex lim (Some f)) < mf_work (mkMspFwd rg ex lim None))%nat).
    { unfold mf_work, mf_ended. cbn [mf_fut mf_range]. change (mf_rest (mkMspFwd rg ex lim (Some f))) with (mf_rest (mkMspFwd rg ex lim None)). cbn; lia. }
    destruct (mf_poll_fut now _ f) as [s' [|[[[e|v]|]|]| |]] eqn:Hp; try done.
    + destruct Hs as (? & ? & ? & ? & ?). split; [done|]. split; [done|]. split; [done|]. split; [done|]. split; [|lia].
      unfold mf_ended. cbn [mf_range]. by rewrite (proj2 (Z.ltb_lt _ _) Hlt).
    + destruct Hs as [-> Hf]. split; [done|]. split; [done|]. split; [unfold mf_wait; cbn [mf_fut]; lia|]. split; [|by right].
      unfold mf_poll_next. cbn [mf_fut]. unfold mf_poll_fut. by rewrite (proj2 (Nat.leb_gt _ _)) by done.
Qed.

Lemma mf_ok_later now s : mf_ok now s -> mf_ok (S now) s.
Proof. intros [Hr Hl Hf]. split; [done|done|]. intros f Hs. destruct (Hf f Hs) as (? & ? & ?). split; [lia|done]. Qed.

Lemma mf_new_ok now range begexcl limit : range_ok range -> mf_ok now (mf_new (DE := DE) range begexcl limit).
Proof. intros Hr. split; cbn; [done|lia|done]. Qed.

Lemma mf_wait_le now s : mf_ok now s -> (mf_wait now s <= D)%nat.
Proof. intros Hok. unfold mf_wait. destruct (mf_fut s) as [f|] eqn:Hf; [|lia]. destruct (mo_fut _ _ Hok f Hf) as (? & _). lia. Qed.

(** ** [msp_bck] *)

Lemma msp_bck_loop_gives n s now msps : mf_ok now s -> ((D + 2) * mf_work s + mf_wait now s < n)%nat ->
  msp_bck_loop db n (si_series si) now s msps = Some (Ok (msps ++ mf_rest s)).
Proof.
  revert s now msps. induction n as [|n IH]; intros s now msps Hok Hn; [lia|]. cbn [msp_bck_loop].
  pose proof (mf_poll_spec now s Hok) as Hs. pose proof (mf_wait_le now s Hok) as Hw.
  destruct (mf_poll_next db (si_series si) now s) as [s' [|[[[e|v]|]|]| |]] eqn:Hp; try done.
  - destruct Hs as (Hok' & Hr & _ & Hf & _ & Hwk). rewrite (IH s' (S now)).
    + by rewrite Hr, app_assoc.
    + by apply mf_ok_later.
    + unfold mf_wait. rewrite Hf. nia.
  - destruct Hs as (-> & -> & _). by rewrite app_nil_r.
  - destruct Hs as (Hok' & Hr & Hwt & _ & Hs). rewrite (IH s' (S now)); [by rewrite Hr|by apply mf_ok_later|].
    assert (mf_wait (S now) s' < mf_wait now s')%nat. { unfold mf_wait in *. destruct (mf_fut s'); lia. }
    pose proof (mf_wait_le now s' Hok'). destruct Hs as [->|Hlt]; [lia|nia].
Qed.

(** The partitions that [msp_bck] finds: of those in the time before [beg] that
    it looks at the last ten. *)
Definition bck_lo (rt : RetentionTime) (beg : TsNano) : TsNano := beg - rt_msp_rollover_ivl_on_read rt / SEC * SEC.
Definition bck_msps (rt : RetentionTime) (beg : TsNano) : list Z :=
  let w := window id (bck_lo rt beg / 1000000) (beg / 1000000) (es_msps st) in drop (length w - msp_max) w.

Lemma msp_bck_gives now rt beg : 0 <= bck_lo rt beg -> beg < 2 ^ 63 - 1 ->
  exists n, forall fuel, (n <= fuel)%nat -> msp_bck db fuel now rt si beg = Some (Ok (bck_msps rt beg)).
Proof.
  intros Hb0 Hb1. assert (Hwin : 0 < rt_msp_rollover_ivl_on_read rt / SEC < 2 ^ 63 / SEC) by (destruct rt; by vm_compute).
  assert (HS : SEC = 1000000000) by done. unfold bck_lo in Hb0.
  assert (Hmul : DtNano_from_sec (rt_msp_rollover_ivl_on_read rt / SEC) = rt_msp_rollover_ivl_on_read rt / SEC * SEC).
  { unfold DtNano_from_sec. rewrite u64_mul_small; [lia|]. split; [lia|]. rewrite HS in *. change (2 ^ 63 / 1000000000) with 9223372036 in Hwin. lia. }
  set (r := ScyllaSeriesRange_new (TsNano_sub beg (DtNano_from_sec (rt_msp_rollover_ivl_on_read rt / SEC))) beg).
  assert (Hbeg : ssr_beg r = bck_lo rt beg).
  { unfold r, TsNano_sub. cbn [ssr_beg ScyllaSeriesRange_new TsNano_ns]. rewrite Hmul, u64_sub_small by lia. done. }
  assert (Hr : range_ok r). { split; [rewrite Hbeg; unfold bck_lo; lia|]. cbn. unfold TsNano_ns. lia. }
  set (s := mf_new (DE := DE) r RexclNone 20). pose proof (mf_new_ok now r RexclNone 20 Hr) as Hok.
  exists ((D + 2) * mf_work s + mf_wait now s + 1)%nat. intros fuel Hf. unfold msp_bck. cbv zeta. fold r. fold s.
  rewrite (msp_bck_loop_gives fuel s now [] Hok) by lia. cbn [mbind option_bind and_then app]. f_equal. f_equal.
  assert (Hrest : mf_rest s = window id (bck_lo rt beg / 1000000) (beg / 1000000) (es_msps st)).
  { unfold mf_rest, mf_lo. cbn [mf_range s mf_new mf_begexcl RangeExcl_excl_beg]. rewrite Hbeg, Z.add_0_r. change (ssr_end r) with beg.
    assert (bck_lo rt beg < beg) as ->%Z.ltb_lt by (unfold bck_lo; lia). done. }
  rewrite Hrest. unfold bck_msps. destruct (Nat.leb_spec (length (window id (bck_lo rt beg / 1000000) (beg / 1000000) (es_msps st))) msp_max) as [Hle|Hgt]; [|done].
  by replace (_ - msp_max)%nat with 0%nat by lia.
Qed.

End MspFwd.
