(* ===== verification/LspSingleProofs.v ===== *)
(** * What a stream of one partition gives

    The events that are left ([sg_events]) are those in the buffer and those of the
    store that were not read yet; a poll takes from their front ([sg_poll_spec]). *)
From Stdlib Require Import ZArith Lia.
From stdpp Require Import base numbers option strings list sorting.
From S2P Require Import Prelude Items TimeTypes NetpodTypes Ranges Events StreamRun EvStore EvStoreProofs.

#[local] Open Scope Z_scope.
#[local] Open Scope rust_scope.

Lemma window_map {A B} (k : A -> Z) (k' : B -> Z) (f : A -> B) b e b' e' l :
  (forall x, x ∈ l -> b <= k x < e <-> b' <= k' (f x) < e') -> window k' b' e' (map f l) = map f (window k b e l).
Proof.
  induction l as [|x l IH]; intros Hx; [done|]. unfold window in *. cbn. specialize (IH (fun y Hy => Hx y (list_elem_of_further _ _ _ Hy))).
  destruct (Hx x (list_elem_of_here _ _)) as [H1 H2].
  destruct (decide (b <= k x < e)), (decide (b' <= k' (f x) < e')); [cbn; by f_equal|tauto|tauto|done].
Qed.

Section LspSingleProofs.
  Context {V DE St : Type} `{EventValueType V}.
  Context (db : EventsDb (V := V) (DE := DE)) (si : SeriesInfo) (st : EvStore V) (D : nat).
  Context (Hst : store_ok st) (Hdb : DbLaws db si st D).

Abbreviation Single := (LspFwdMspSingleStream (V := V) (DE := DE) (St := St)).
Abbreviation Item := (Sitemty ReadLog St (lspfwd_error (DE := DE)) (ContainerEvents V)).
Implicit Types (s : Single).

(** The events of a partition. *)
Definition msp_events (m : Z) : list (Z * V) := map (fun r => (m * 1000000 + r.1, r.2)) (es_rows st m).

Definition excl (x : RangeExcl) : Z := if RangeExcl_excl_beg x then 1 else 0.

Definition range_events (m : Z) (r : ScyllaSeriesRange) (x : RangeExcl) : list (Z * V) :=
  window fst (ssr_beg r + excl x) (ssr_end r) (msp_events m).

Definition msp_fits (m : Z) : Prop := 0 <= m /\ m * 1000000 < 2 ^ 63.

Lemma msp_events_lower m e : e ∈ msp_events m -> m * 1000000 <= e.1 < 2 ^ 63.
Proof. intros (r & -> & Hr)%list_elem_of_fmap. destruct (so_row_range _ Hst m r Hr). cbn. lia. Qed.

Lemma msp_events_sorted m : StronglySorted Z.lt (msp_events m).*1.
Proof.
  pose proof (so_rows _ Hst m) as Hs. unfold msp_events. change (map ?f ?l) with (f <$> l). rewrite <- list_fmap_compose.
  induction (es_rows st m) as [|r l IH]; [constructor|]. cbn in Hs |- *. apply StronglySorted_inv in Hs as [Hs Hf]. constructor; [by apply IH|].
  apply Forall_forall. intros y (x & -> & Hx)%list_elem_of_fmap. rewrite Forall_forall in Hf.
  specialize (Hf x.1 (list_elem_of_fmap_2 _ _ _ Hx)). cbn. lia.
Qed.

Lemma range_events_sorted m r x : StronglySorted Z.lt (range_events m r x).*1.
Proof. apply (window_sorted fst), msp_events_sorted. Qed.

Lemma ce_push_zip (c : ContainerEvents V) ts v : ce_wf c -> ce_wf (ce_push_back c ts v) /\ ce_iter_zip (ce_push_back c ts v) = ce_iter_zip c ++ [(ts, v)].
Proof.
  unfold ce_wf, ce_iter_zip, ce_push_back. cbn. intros Hc. rewrite !length_app, Hc. split; [done|]. by rewrite zip_with_app by lia.
Qed.

Lemma lsp_fwd_rows_zip m (rows : list (Z * V)) :
  ce_wf (lsp_fwd_rows m rows) /\ ce_iter_zip (lsp_fwd_rows m rows) = map (fun '(l, v) => (MspEv_to_ts m (LspEv_from_i64 l), v)) rows.
Proof.
  unfold lsp_fwd_rows. induction rows as [|[l v] rows IH] using rev_ind; [done|]. rewrite foldl_snoc. destruct IH as [IHw IHz].
  destruct (ce_push_zip _ (MspEv_to_ts m (LspEv_from_i64 l)) v IHw) as [Hw Hz]. split; [done|]. rewrite Hz, IHz, map_app. done.
Qed.

Lemma lsp_fwd_bounds m r x : msp_fits m -> range_ok r -> (x = RexclBeg -> m * 1000000 <= ssr_beg r) ->
  forall l, 0 <= l -> m * 1000000 + l < 2 ^ 63 ->
  lsp_fwd_beg m r x <= l < lsp_fwd_end m r <-> ssr_beg r + excl x <= m * 1000000 + l < ssr_end r.
Proof.
  intros [Hm0 Hm1] [Hb He] Hx l Hl Hl2. unfold lsp_fwd_beg, lsp_fwd_end, MspEv_lsp, TsNano_ns. change MS with 1000000.
  rewrite u64_mul_small by lia. unfold LspEv_to_i64.
  assert (Hend : forall l', match (if m * 1000000 <=? ssr_end r then Some (u64_sub (ssr_end r) (m * 1000000)) else None) with Some y => to_signed 64 y | None => 0 end = l' ->
    l < l' <-> m * 1000000 + l < ssr_end r).
  { intros l' <-. destruct (Z.leb_spec (m * 1000000) (ssr_end r)); [|lia]. rewrite u64_sub_small, to_signed_small by lia. lia. }
  specialize (Hend _ eq_refl). rewrite Hend. clear Hend. destruct (Z.leb_spec (m * 1000000) (ssr_beg r)).
  - rewrite u64_sub_small, to_signed_small by lia. destruct x; cbn [excl RangeExcl_excl_beg]; unfold excl; cbn [RangeExcl_excl_beg]; [lia|].
    rewrite i64_add_small by lia. lia.
  - destruct x; unfold excl; cbn [RangeExcl_excl_beg]; [lia|]. specialize (Hx eq_refl). lia.
Qed.

Lemma lsp_fwd_exec_spec now m r x limit : msp_fits m -> range_ok r -> (x = RexclBeg -> m * 1000000 <= ssr_beg r) -> 1 <= limit <= 70312 ->
  exists d c, (d <= D)%nat /\ lsp_fwd_exec db now si m r x limit = (d, inr c) /\ ce_wf c /\
    ce_iter_zip c = take (Z.to_nat limit) (range_events m r x).
Proof.
  intros Hm Hr Hx Hl. unfold lsp_fwd_exec. rewrite (dl_supported _ _ _ _ Hdb). rewrite to_signed_small by apply (dl_series _ _ _ _ Hdb).
  rewrite to_signed_small32 by lia. unfold MspEv_to_i64. rewrite (to_signed_small m) by (destruct Hm; lia).
  destruct (dl_lsp _ _ _ _ Hdb now m (lsp_fwd_beg m r x) (lsp_fwd_end m r) limit) as (d & Hd & ->).
  eexists d, _. split; [done|]. split; [done|]. destruct (lsp_fwd_rows_zip m (take (Z.to_nat limit) (window fst (lsp_fwd_beg m r x) (lsp_fwd_end m r) (es_rows st m)))) as [Hw Hz].
  split; [done|]. rewrite Hz. unfold range_events, msp_events.
  rewrite (window_map fst fst _ (lsp_fwd_beg m r x) (lsp_fwd_end m r)).
  - rewrite firstn_map. change (map ?f ?l) with (f <$> l). apply list_fmap_ext. intros i [l v] Hi.
    apply list_elem_of_lookup_2, elem_take, elem_of_window in Hi as [Hi _]. destruct (so_row_range _ Hst m _ Hi) as [Hl0 Hl1]. cbn in Hl0, Hl1 |- *.
    f_equal. unfold MspEv_to_ts, LspEv_from_i64, TsNano_from_ns. destruct Hm. rewrite wrap_small by (unfold in_u; lia). change MS with 1000000.
    rewrite u64_mul_small, u64_add_small by lia. done.
  - intros [l v] Hi. destruct (so_row_range _ Hst m _ Hi) as [Hl0 Hl1]. by apply lsp_fwd_bounds.
Qed.

(** ** The state *)

(** A piece is limited by the limit of a request. *)
Definition buf_ok (c : ContainerEvents V) : Prop := ce_wf c /\ Z.of_nat (length (ce_iter_zip c)) <= 70312.
Definition data_ok (c : ContainerEvents V) : Prop := buf_ok c /\ ce_iter_zip c <> [].
Definition item_ok (i : Item) : Prop := match i with SOk (DataItem (Data c)) => data_ok c | SOk (Log _) => True | _ => False end.
Definition item_events (i : Item) : list (Z * V) := match i with SOk (DataItem (Data c)) => ce_iter_zip c | _ => [] end.

Definition sg_rest (s : Single) : list (Z * V) := range_events (sg_msp s) (sg_range s) (sg_begexcl s).
Definition sg_events (s : Single) : list (Z * V) := concat (map item_events (sg_outbuf s)) ++ sg_rest s.

Record sg_ok (now : nat) (s : Single) : Prop := {
  sk_msp : msp_fits (sg_msp s);
  sk_range : range_ok (sg_range s);
  sk_limit : 1 <= sg_limit s <= 70312;
  sk_buf : (1 <= sg_buf_max s)%nat;
  sk_excl : sg_begexcl s = RexclBeg -> sg_done s = false -> sg_msp s * 1000000 <= ssr_beg (sg_range s);
  sk_done : sg_done s = true -> ssr_end (sg_range s) <= ssr_beg (sg_range s);
  sk_out : Forall item_ok (sg_outbuf s);
  sk_fut : forall f, sg_fut s = Some f -> (f.1 <= now + D)%nat /\ sg_done s = false /\
    exists c, f.2 = inr c /\ ce_wf c /\ ce_iter_zip c = take (Z.to_nat (sg_limit s)) (sg_rest s);
  sk_sorted : StronglySorted Z.lt (sg_events s).*1;
  sk_lower : Forall (fun e => sg_msp s * 1000000 <= e.1) (sg_events s)
}.

Definition sg_work (s : Single) : nat :=
  4 * (length (sg_rest s) + (if sg_done s then 0 else 1)) + (if bool_decide (sg_fut s = None) then 1 else 0) + length (sg_outbuf s).
Definition sg_wait (now : nat) (s : Single) : nat := match sg_fut s with Some f => f.1 - now | None => 0 end.

Lemma sg_rest_ended s : ssr_end (sg_range s) <= ssr_beg (sg_range s) -> sg_rest s = [].
Proof. intros He. apply window_empty. unfold excl. destruct (RangeExcl_excl_beg _); lia. Qed.

(** An invariant kept by any change that keeps the events, or takes some of the
    first ones. *)
Lemma sorted_suffix (l1 l2 : list (Z * V)) : StronglySorted Z.lt (l1 ++ l2).*1 -> StronglySorted Z.lt l2.*1.
Proof.
  rewrite fmap_app. induction l1 as [|x l1 IH]; [done|]. intros [Hs _]%StronglySorted_inv. by apply IH.
Qed.

Definition buffered (s s' : Single) : Prop :=
  exists c, data_ok c /\ sg_outbuf s' = sg_outbuf s ++ [sitem2_log (RlContLen (mt_len c)); sitem2_data c].

Lemma sg_poll_run_spec now s f : sg_ok now (sg_set_fut s (Some f)) ->
  match sg_poll_run now s f with
  | (s', LoopBreak Pending) => s' = sg_set_fut s (Some f) /\ (now < f.1)%nat /\ (length (sg_outbuf s) < sg_buf_max s)%nat
  | (s', LoopBreak (Ready (Some (inr _)))) => sg_ok now s' /\ sg_msp s' = sg_msp s /\ sg_events s' = sg_events s /\ buffered s s' /\ sg_fut s' = None /\
      (length (sg_outbuf s) < sg_buf_max s)%nat /\ sg_buf_max s' = sg_buf_max s /\ (sg_work s' < sg_work (sg_set_fut s (Some f)))%nat
  | (s', LoopBreak (Ready None)) =>
      (s' = sg_set_fut s (Some f) /\ (sg_buf_max s <= length (sg_outbuf s))%nat) \/
      (sg_ok now s' /\ sg_msp s' = sg_msp s /\ sg_events s' = sg_events s /\ sg_outbuf s' = sg_outbuf s /\ sg_fut s' = None /\ sg_done s' = true /\
       sg_rest s' = [] /\ sg_buf_max s' = sg_buf_max s /\ (sg_work s' < sg_work (sg_set_fut s (Some f)))%nat)
  | _ => False
  end.
Proof.
  intros Hok. unfold sg_poll_run. destruct (Nat.ltb_spec (length (sg_outbuf s)) (sg_buf_max s)) as [Hfree|Hfull]; [|by left].
  destruct (Nat.leb_spec f.1 now) as [Hle|Hgt]; [|done]. destruct (sk_fut _ _ Hok f eq_refl) as (_ & Hnd & c & -> & Hwf & Hc).
  change (sg_rest (sg_set_fut s (Some f))) with (sg_rest s) in Hc. cbn [sg_limit sg_set_fut sg_done] in Hc, Hnd.
  assert (Hmax : mt_ts_max c = last (ce_iter_zip c).*1) by (cbn; unfold ce_ts_max; by rewrite ce_zip_fst).
  rewrite Hmax. pose proof (sk_range _ _ Hok) as [Hb He]. pose proof (sk_msp _ _ Hok) as [Hm0 Hm1]. pose proof (sk_limit _ _ Hok) as Hl. cbn [sg_range sg_limit sg_msp sg_set_fut] in Hb, He, Hl, Hm0, Hm1.
  destruct (last (ce_iter_zip c).*1) as [tsmax|] eqn:Hlast.
  - rewrite fmap_last in Hlast. apply fmap_Some in Hlast as ([ts v] & Hlast & ->). cbn [fst].
    assert (Hin : (ts, v) ∈ sg_rest s). { apply (elem_take _ (Z.to_nat (sg_limit s))). rewrite <- Hc. apply last_Some in Hlast as [t ->]. apply elem_of_app. right. by left. }
    assert (Hin2 := Hin). apply elem_of_window in Hin2 as [Hin2 Hw]. pose proof (msp_events_lower _ _ Hin2) as Hlow. cbn [fst] in Hw, Hlow.
    set (s' := mkSingle _ _ _ _ _ _ _ _).
    assert (Hrest : sg_rest s' = drop (Z.to_nat (sg_limit s)) (sg_rest s)).
    { unfold sg_rest at 1, range_events. cbn [s' sg_msp sg_range sg_begexcl sg_set_fut ssr_beg ssr_end ScyllaSeriesRange_new].
      apply (window_next fst _ _ _ _ (ts, v)); [apply msp_events_sorted|].
      change (last (take (Z.to_nat (sg_limit s)) (sg_rest s)) = Some (ts, v)). by rewrite <- Hc. }
    assert (Hev : sg_events s' = sg_events s).
    { unfold sg_events. rewrite Hrest. cbn [s' sg_outbuf sg_set_fut]. rewrite map_app, concat_app. cbn. rewrite app_nil_r, <- app_assoc, Hc. by rewrite take_drop. }
    assert (Hne : ce_iter_zip c <> []) by (intros Hn; by rewrite Hn in Hlast).
    assert (Hcl : (1 <= length (ce_iter_zip c))%nat) by (destruct (ce_iter_zip c); [done|cbn; lia]).
    assert (Hcd : data_ok c) by (split; [split; [done|]|done]; rewrite Hc, length_take; lia).
    split; [|split; [done|]; split; [done|]; split; [by exists c|]; split; [done|]; split; [done|]; split; [done|]].
    + split; cbn [s' sg_msp sg_range sg_limit sg_buf_max sg_begexcl sg_done sg_outbuf sg_fut sg_set_fut].
      * apply (sk_msp _ _ Hok).
      * split; cbn [ssr_beg ssr_end ScyllaSeriesRange_new]; unfold TsNano_ns; lia.
      * done.
      * apply (sk_buf _ _ Hok).
      * intros _ _. cbn. unfold TsNano_ns. lia.
      * congruence.
      * apply Forall_app. split; [apply (sk_out _ _ Hok)|]. apply Forall_cons. split; [done|]. by apply Forall_singleton.
      * done.
      * rewrite Hev. apply (sk_sorted _ _ Hok).
      * rewrite Hev. apply (sk_lower _ _ Hok).
    + unfold sg_work. rewrite Hrest, length_drop. cbn [s' sg_done sg_fut sg_outbuf sg_set_fut]. change (sg_rest (sg_set_fut s (Some f))) with (sg_rest s).
      rewrite Hnd, length_app. rewrite Hc, length_take in Hcl. cbn. lia.
  - apply last_None, fmap_nil_inv in Hlast. rewrite Hlast in Hc. right.
    assert (Hr : sg_rest s = []). { destruct (sg_rest s); [done|]. destruct (Z.to_nat (sg_limit s)) eqn:Hn; [lia|done]. }
    set (s' := sg_trigger_done _). assert (Hr' : sg_rest s' = []) by (apply sg_rest_ended; cbn; lia).
    assert (Hev : sg_events s' = sg_events s) by (unfold sg_events; by rewrite Hr', Hr).
    split; [|split; [done|]; split; [done|]; split; [done|]; split; [done|]; split; [done|]; split; [done|]; split; [done|]].
    + split; cbn [s' sg_trigger_done sg_msp sg_range sg_limit sg_buf_max sg_begexcl sg_done sg_outbuf sg_fut sg_set_fut].
      * apply (sk_msp _ _ Hok).
      * split; cbn; unfold TsNano_ns; lia.
      * done.
      * apply (sk_buf _ _ Hok).
      * done.
      * cbn. lia.
      * apply (sk_out _ _ Hok).
      * done.
      * rewrite Hev. apply (sk_sorted _ _ Hok).
      * rewrite Hev. apply (sk_lower _ _ Hok).
    + unfold sg_work. rewrite Hr'. change (sg_rest (sg_set_fut s (Some f))) with (sg_rest s). rewrite Hr. cbn. rewrite Hnd. lia.
Qed.

Implicit Types f : nat * (lspfwd_error (DE := DE) + ContainerEvents V).

Lemma sg_set_fut_id s : sg_set_fut s (sg_fut s) = s.
Proof. by destruct s. Qed.

Lemma sg_waits now s f : sg_fut s = Some f -> (now < f.1)%nat -> (0 < sg_wait now s)%nat.
Proof. intros Hf Hn. unfold sg_wait. rewrite Hf. lia. Qed.

(** A request is made. *)
Lemma sg_request now s : sg_ok now s -> sg_fut s = None -> sg_done s = false ->
  exists d res, lsp_fwd_exec db now si (sg_msp s) (sg_range s) (sg_begexcl s) (sg_limit s) = (d, res) /\
    let f := ((now + d)%nat, res) in sg_ok now (sg_set_fut s (Some f)) /\ (sg_work (sg_set_fut s (Some f)) < sg_work s)%nat.
Proof.
  intros Hok Hf Hd. destruct (lsp_fwd_exec_spec now (sg_msp s) (sg_range s) (sg_begexcl s) (sg_limit s)) as (d & c & Hdl & -> & Hwf & Hc).
  - apply (sk_msp _ _ Hok).
  - apply (sk_range _ _ Hok).
  - intros Hx. by apply (sk_excl _ _ Hok).
  - apply (sk_limit _ _ Hok).
  - exists d, (inr c). split; [done|]. split.
    + destruct Hok. split; try done. intros f [= <-]. cbn. split; [lia|]. split; [done|]. by exists c.
    + unfold sg_work. change (sg_rest (sg_set_fut _ _)) with (sg_rest s). rewrite Hf. cbn. lia.
Qed.

Lemma sg_poll_run_same now s f : sg_poll_run now (sg_set_fut s (Some f)) f = sg_poll_run now s f.
Proof. by destruct s. Qed.

(** A poll into the buffer. *)
Lemma sg_buffer_spec now s : sg_ok now s ->
  match sg_poll_to_buffer db si now s with
  | (s', LoopBreak Pending) => sg_ok now s' /\ sg_msp s' = sg_msp s /\ sg_events s' = sg_events s /\ sg_outbuf s' = sg_outbuf s /\ sg_buf_max s' = sg_buf_max s /\
      (0 < sg_wait now s')%nat /\ sg_poll_to_buffer db si now s' = (s', LoopBreak Pending) /\ (s' = s \/ sg_work s' < sg_work s)%nat
  | (s', LoopBreak (Ready (Some (inr _)))) => sg_ok now s' /\ sg_msp s' = sg_msp s /\ sg_events s' = sg_events s /\ buffered s s' /\ sg_fut s' = None /\
      (length (sg_outbuf s) < sg_buf_max s)%nat /\ sg_buf_max s' = sg_buf_max s /\ (sg_work s' < sg_work s)%nat
  | (s', LoopBreak (Ready None)) => sg_ok now s' /\ sg_msp s' = sg_msp s /\ sg_events s' = sg_events s /\ sg_outbuf s' = sg_outbuf s /\ sg_buf_max s' = sg_buf_max s /\
      ((sg_buf_max s <= length (sg_outbuf s))%nat \/ sg_rest s' = []) /\
      sg_poll_to_buffer db si now s' = (s', LoopBreak (Ready None)) /\ (s' = s \/ sg_work s' < sg_work s)%nat
  | _ => False
  end.
Proof.
  intros Hok. unfold sg_poll_to_buffer at 1.
  assert (Hrun : forall s0 f, sg_ok now (sg_set_fut s0 (Some f)) -> sg_msp s0 = sg_msp s -> sg_events s0 = sg_events s -> sg_outbuf s0 = sg_outbuf s ->
    sg_buf_max s0 = sg_buf_max s -> sg_set_fut s0 (Some f) = s \/ (sg_work (sg_set_fut s0 (Some f)) < sg_work s)%nat ->
    match sg_poll_run now s0 f with
    | (s', LoopBreak Pending) => sg_ok now s' /\ sg_msp s' = sg_msp s /\ sg_events s' = sg_events s /\ sg_outbuf s' = sg_outbuf s /\ sg_buf_max s' = sg_buf_max s /\
      (0 < sg_wait now s')%nat /\ sg_poll_to_buffer db si now s' = (s', LoopBreak Pending) /\ (s' = s \/ sg_work s' < sg_work s)%nat
    | (s', LoopBreak (Ready (Some (inr _)))) => sg_ok now s' /\ sg_msp s' = sg_msp s /\ sg_events s' = sg_events s /\ buffered s s' /\ sg_fut s' = None /\
      (length (sg_outbuf s) < sg_buf_max s)%nat /\ sg_buf_max s' = sg_buf_max s /\ (sg_work s' < sg_work s)%nat
    | (s', LoopBreak (Ready None)) => sg_ok now s' /\ sg_msp s' = sg_msp s /\ sg_events s' = sg_events s /\ sg_outbuf s' = sg_outbuf s /\ sg_buf_max s' = sg_buf_max s /\
      ((sg_buf_max s <= length (sg_outbuf s))%nat \/ sg_rest s' = []) /\
      sg_poll_to_buffer db si now s' = (s', LoopBreak (Ready None)) /\ (s' = s \/ sg_work s' < sg_work s)%nat
    | _ => False
    end).
  { intros s0 f Hok0 Hm He Ho Hb Hw. pose proof (sg_poll_run_spec now s0 f Hok0) as Hs. destruct (sg_poll_run now s0 f) as [s' [|[[[e|u]|]|]| |]] eqn:Hp; try done.
    - destruct Hs as (? & ? & ? & Hbf & ? & ? & ? & ?). unfold buffered in *. rewrite Ho in *.
      split; [done|]. split; [congruence|]. split; [congruence|]. split; [done|]. split; [done|]. split; [by rewrite <- Hb|]. split; [congruence|].
      destruct Hw as [<-|Hw]; [done|lia].
    - destruct Hs as [[-> Hfull]|(? & ? & ? & ? & Hf & Hd & Hr & ? & ?)].
      + split; [done|]. split; [done|]. split; [done|]. split; [done|]. split; [done|]. split; [left; rewrite <- Hb, <- Ho; done|].
        split; [|destruct Hw as [<-|Hw]; [by left|by right]]. unfold sg_poll_to_buffer. cbn [sg_set_fut sg_fut].
        change (mkSingle _ _ _ _ _ _ (Some f) _) with (sg_set_fut s0 (Some f)). by rewrite sg_poll_run_same.
      + split; [done|]. split; [congruence|]. split; [congruence|]. split; [congruence|]. split; [congruence|]. split; [by right|].
        split; [|right; destruct Hw as [<-|Hw]; [done|lia]]. unfold sg_poll_to_buffer. by rewrite Hf, Hd.
    - destruct Hs as (-> & Hat & _). split; [done|]. split; [done|]. split; [done|]. split; [done|]. split; [done|]. split; [by eapply sg_waits|].
      split; [|destruct Hw as [<-|Hw]; [by left|by right]]. unfold sg_poll_to_buffer. cbn [sg_set_fut sg_fut].
      change (mkSingle _ _ _ _ _ _ (Some f) _) with (sg_set_fut s0 (Some f)). by rewrite sg_poll_run_same. }
  destruct (sg_fut s) as [f|] eqn:Hf.
  - apply Hrun; try done; [|left]; by rewrite <- Hf, sg_set_fut_id.
  - destruct (negb (sg_done s) && (ssr_beg (sg_range s) <? ssr_end (sg_range s))) eqn:Hgo.
    + apply andb_true_iff in Hgo as [Hd%negb_true_iff _]. destruct (sg_request now s Hok Hf Hd) as (d & res & -> & Hokf & Hw).
      apply Hrun; try done. by right.
    + split; [done|]. split; [done|]. split; [done|]. split; [done|]. split; [done|]. split.
      * right. apply sg_rest_ended. apply andb_false_iff in Hgo as [Hd%negb_false_iff|Hb%Z.ltb_ge]; [by apply (sk_done _ _ Hok)|done].
      * split; [|by left]. unfold sg_poll_to_buffer. by rewrite Hf, Hgo.
Qed.

Lemma sg_pop_ok now s x outbuf : sg_ok now s -> sg_outbuf s = x :: outbuf ->
  let s' := sg_set_outbuf s outbuf in
  sg_ok now s' /\ item_ok x /\ sg_events s = item_events x ++ sg_events s' /\ (sg_work s' < sg_work s)%nat.
Proof.
  intros Hok Ho s'. pose proof (sk_out _ _ Hok) as Hall. rewrite Ho in Hall. apply Forall_cons_1 in Hall as [Hx Hall].
  assert (Hev : sg_events s = item_events x ++ sg_events s') by (unfold sg_events; rewrite Ho; cbn; by rewrite <- app_assoc).
  split; [|split; [done|]; split; [done|]].
  - destruct Hok. split; try done.
    + rewrite Hev in sk_sorted0. by eapply sorted_suffix.
    + rewrite Hev in sk_lower0. by apply Forall_app in sk_lower0 as [_ ?].
  - unfold sg_work. rewrite Ho. change (sg_rest s') with (sg_rest s). cbn. lia.
Qed.

(** A poll: the next piece of the events. *)
Lemma sg_poll_spec now s : sg_ok now s ->
  match sg_poll_next db si now s with
  | (s', LoopBreak Pending) => sg_ok now s' /\ sg_msp s' = sg_msp s /\ sg_events s' = sg_events s /\
      (0 < sg_wait now s')%nat /\ sg_poll_next db si now s' = (s', LoopBreak Pending) /\ (s' = s \/ sg_work s' < sg_work s)%nat
  | (s', LoopBreak (Ready (Some x))) => sg_ok now s' /\ sg_msp s' = sg_msp s /\ item_ok x /\ sg_events s = item_events x ++ sg_events s' /\ (sg_work s' < sg_work s)%nat
  | (s', LoopBreak (Ready None)) => sg_events s = []
  | _ => False
  end.
Proof.
  intros Hok. unfold sg_poll_next at 1. destruct (sg_outbuf s) as [|x outbuf] eqn:Ho.
  2: { destruct (sg_pop_ok now s x outbuf Hok Ho) as (? & ? & ? & ?). done. }
  pose proof (sg_buffer_spec now s Hok) as Hs. destruct (sg_poll_to_buffer db si now s) as [s' [|[[[e|u]|]|]| |]] eqn:Hp; try done.
  - destruct Hs as (Hok' & Hm & He & (c & Hc & Hb) & ? & ? & ? & Hw). rewrite Ho in Hb. cbn [app] in Hb. rewrite Hb.
    destruct (sg_pop_ok now s' _ _ Hok' Hb) as (? & ? & Hev & ?). split; [done|]. split; [done|]. split; [done|]. split; [by rewrite <- He|lia].
  - destruct Hs as (Hok' & Hm & He & Ho' & Hbm & [Hfull|Hr] & _ & _); [rewrite Ho in Hfull; cbn in Hfull; pose proof (sk_buf _ _ Hok); lia|].
    rewrite Ho', Ho. rewrite <- He. unfold sg_events. by rewrite Hr, Ho', Ho.
  - destruct Hs as (? & ? & ? & Ho' & ? & ? & Hsame & ?). repeat (split; [done|]). split; [|done].
    unfold sg_poll_next. rewrite Ho', Ho. by rewrite Hsame.
Qed.

Lemma sg_ok_later now s : sg_ok now s -> sg_ok (S now) s.
Proof. intros []. split; try done. intros f Hf. destruct (sk_fut0 f Hf) as (? & ? & ?). split; [lia|done]. Qed.

Lemma sg_wait_le now s : sg_ok now s -> (sg_wait now s <= D)%nat.
Proof. intros Hok. unfold sg_wait. destruct (sg_fut s) as [f|] eqn:Hf; [|lia]. destruct (sk_fut _ _ Hok f Hf) as (? & _). lia. Qed.

Lemma sg_new_ok now m range limit buf_max : msp_fits m -> range_ok range -> (1 <= buf_max)%nat ->
  sg_ok now (sg_new m range limit buf_max) /\ sg_events (sg_new m range limit buf_max) = range_events m range RexclNone.
Proof.
  intros Hm Hr Hb. split; [|done]. split; cbn; try done; [lia|apply range_events_sorted|].
  apply Forall_forall. intros e [He _]%elem_of_window. by apply msp_events_lower in He as [? _].
Qed.

End LspSingleProofs.
