(* ===== verification/LspMulti.v ===== *)
(** * The events of all partitions of a range

    [LspFwdMspMulti] of [events3/ks/lsp_fwd_msp_multi.rs] of
    [daqbuf-scyllaconn/src]: the streams of single partitions, opened ahead, are
    merged by time; a partition joins the merge when its events can be next. The
    limits on the turns of the loops are those of the code. *)
From Stdlib Require Import ZArith Lia.
From stdpp Require Import base numbers option strings list sorting.
From S2P Require Import Prelude Items TimeTypes NetpodTypes Ranges Events StreamRun EvStore.

#[local] Open Scope Z_scope.
#[local] Open Scope rust_scope.

(** ** The two inputs with the earliest events

    [find_next_ts], which [events3/ks/lspmerge.rs] has a second time: its loop over
    what is buffered of the inputs, of which the first timestamps matter. *)

Inductive NextTs : Type :=
  | NextNone
  | NextOne (ts : TsNano) (ix : nat)
  | NextTwo (ts1 : TsNano) (ix1 : nat) (ts2 : TsNano) (ix2 : nat).

Inductive next_ts_error : Type := FindNextTsWithoutBuf | FindNextTsOnEmptyBuf.

(** A buffer, if there is one, with its first timestamp, if it has one. *)
Fixpoint next_ts_loop (bufs : list (option (option TsNano))) (ix : nat) (best second : option (TsNano * nat)) : next_ts_error + NextTs :=
  match bufs with
  | [] =>
      inr match best, second with
          | None, _ => NextNone
          | Some (ts1, ix1), None => NextOne ts1 ix1
          | Some (ts1, ix1), Some (ts2, ix2) => NextTwo ts1 ix1 ts2 ix2
          end
  | Some (Some ts) :: bufs =>
      match best with
      | Some (ts_1st, _) =>
          if ts <? ts_1st then next_ts_loop bufs (S ix) (Some (ts, ix)) best
          else
            match second with
            | None => next_ts_loop bufs (S ix) best (Some (ts, ix))
            | Some (ts_2nd, _) => if ts <? ts_2nd then next_ts_loop bufs (S ix) best (Some (ts, ix)) else next_ts_loop bufs (S ix) best second
            end
      | None => next_ts_loop bufs (S ix) (Some (ts, ix)) second
      end
  | Some None :: _ => inl FindNextTsOnEmptyBuf
  | None :: _ => inl FindNextTsWithoutBuf
  end.

(** The two earliest of the timestamps seen so far. *)
Definition lows (l : list TsNano) (best second : option (TsNano * nat)) : Prop :=
  match best, second with
  | None, None => l = []
  | Some (t1, i1), None => l = [t1] /\ i1 = 0%nat
  | Some (t1, i1), Some (t2, i2) =>
      l !! i1 = Some t1 /\ l !! i2 = Some t2 /\ i1 <> i2 /\ t1 <= t2 /\ forall j t, l !! j = Some t -> j <> i1 -> t2 <= t
  | None, Some _ => False
  end.

Lemma lookup_snoc_inv {A} (l : list A) x j y : (l ++ [x]) !! j = Some y -> l !! j = Some y \/ (j = length l /\ y = x).
Proof. intros Hj. apply lookup_app_Some in Hj as [?|[Hge Hy]]; [by left|]. right. apply list_lookup_singleton_Some in Hy as [Hj ->]. split; [lia|done]. Qed.

Lemma next_ts_loop_spec rest seen best second : lows seen best second ->
  exists r, next_ts_loop (map (fun t => Some (Some t)) rest) (length seen) best second = inr r /\
    match r with
    | NextNone => seen ++ rest = []
    | NextOne t i => lows (seen ++ rest) (Some (t, i)) None
    | NextTwo t1 i1 t2 i2 => lows (seen ++ rest) (Some (t1, i1)) (Some (t2, i2))
    end.
Proof.
  revert seen best second. induction rest as [|t rest IH]; intros seen best second Hl.
  { cbn. rewrite app_nil_r. eexists. split; [done|]. by destruct best as [[t1 i1]|], second as [[t2 i2]|]. }
  assert (Hlen : length (seen ++ [t]) = S (length seen)) by (rewrite length_app; cbn; lia).
  assert (Happ : seen ++ t :: rest = (seen ++ [t]) ++ rest) by (by rewrite <- app_assoc). rewrite Happ.
  assert (Hnew : (seen ++ [t]) !! length seen = Some t) by (rewrite lookup_app_r, Nat.sub_diag; done).
  assert (Hold : forall j y, seen !! j = Some y -> (seen ++ [t]) !! j = Some y /\ j <> length seen).
  { intros j y Hj. split; [by apply lookup_app_l_Some|]. apply lookup_lt_Some in Hj. lia. }
  cbn [map next_ts_loop]. destruct best as [[t1 i1]|].
  - destruct second as [[t2 i2]|]; cbn [lows] in Hl.
    + destruct Hl as (H1 & H2 & Hne & Hle & Hall). apply Hold in H1 as [H1 N1]. apply Hold in H2 as [H2 N2].
      destruct (Z.ltb_spec t t1); [|destruct (Z.ltb_spec t t2)]; rewrite <- Hlen; apply IH; cbn [lows]; (split; [done|]; split; [done|]; split; [lia|]; split; [lia|]).
      * intros j y [Hj|[-> ->]]%lookup_snoc_inv Hn; [|done]. destruct (decide (j = i1)) as [->|]; [apply Hold in Hj as [Hj _]; rewrite H1 in Hj; injection Hj as ->; lia|]. specialize (Hall j y Hj). lia.
      * intros j y [Hj|[-> ->]]%lookup_snoc_inv Hn; [|lia]. specialize (Hall j y Hj Hn). lia.
      * intros j y [Hj|[-> ->]]%lookup_snoc_inv Hn; [|lia]. by apply (Hall j).
    + destruct Hl as [-> ->]. cbn [app length] in *.
      destruct (Z.ltb_spec t t1); (apply (IH [t1; t]); cbn [lows]; split; [done|]; split; [done|]; split; [lia|]; split; [lia|];
        intros [|[|j]] y Hy Hn; [..|done]; cbn in Hy; injection Hy as <-; done || lia).
  - destruct second; [done|]. cbn [lows] in Hl. subst seen. cbn [app length] in *. by apply (IH [t]).
Qed.

(** With all buffers filled: the input with the earliest timestamp, and with the
    next one. *)
Lemma next_ts_spec (tss : list TsNano) :
  match next_ts_loop (map (fun t => Some (Some t)) tss) 0 None None with
  | inr NextNone => tss = []
  | inr (NextOne t i) => tss = [t] /\ i = 0%nat
  | inr (NextTwo t1 i1 t2 i2) =>
      tss !! i1 = Some t1 /\ tss !! i2 = Some t2 /\ i1 <> i2 /\ t1 <= t2 /\ forall j t, tss !! j = Some t -> j <> i1 -> t2 <= t
  | inl _ => False
  end.
Proof. destruct (next_ts_loop_spec tss [] None None) as (r & Hr & Hl); [done|]. cbn [length] in Hr. rewrite Hr. by destruct r. Qed.

(** ** The merge *)

(** The options of [LspFwdMspMulti]. *)
Record MultiOpts : Type := mkMultiOpts {
  mo_msp_limit : Z;
  mo_lsp_limit : Z;
  mo_msp_reserve_min : nat;
  mo_msp_preopen_min : nat;
  mo_lsp_single_buf_max : nat
}.

Section LspMulti.
  Context {V DE St : Type} `{EventValueType V}.
  Context (db : EventsDb (V := V) (DE := DE)) (si : SeriesInfo).

Inductive multi_error : Type :=
  | MuMspFwd (e : DE)
  | MuNextTs (e : next_ts_error)
  | MuLoopTooMany
  | MuMspBck (e : DE)
  | MuLspFwdSingle (e : lspfwd_error (DE := DE))
  | MuLogic
  | MuItemInconsistent.

Definition DO_CHECK_CONSISTENT : bool := false.

Local Abbreviation Single := (LspFwdMspSingleStream (V := V) (DE := DE) (St := St)).
Local Abbreviation Item := (ContainerEvents V).
Local Abbreviation Sitem T := (Sitemty ReadLog St multi_error T).

Record MultiInp : Type := mkInp { in_evs : option Single; in_buf : option Item }.

Inductive CheckInputItem : Type :=
  | OpenNextMsp
  | CheckItem (x : Item).

Record Merging : Type := mkMerging {
  lm_msps : option (ReadMspFwdStream (DE := DE));
  lm_mspbuf_re : list TsMs;
  lm_mspbuf_po : list (TsMs * Single);
  lm_inps : list MultiInp;
  lm_lsp_limit : Z;
  lm_msp_reserve_min : nat;
  lm_msp_preopen_min : nat;
  lm_lsp_single_buf_max : nat
}.

Definition lm_set_msps (m : Merging) (msps : option (ReadMspFwdStream (DE := DE))) (re : list TsMs) : Merging :=
  mkMerging msps re (lm_mspbuf_po m) (lm_inps m) (lm_lsp_limit m) (lm_msp_reserve_min m) (lm_msp_preopen_min m) (lm_lsp_single_buf_max m).
Definition lm_set_re_po (m : Merging) (re : list TsMs) (po : list (TsMs * Single)) : Merging :=
  mkMerging (lm_msps m) re po (lm_inps m) (lm_lsp_limit m) (lm_msp_reserve_min m) (lm_msp_preopen_min m) (lm_lsp_single_buf_max m).
Definition lm_set_inps (m : Merging) (inps : list MultiInp) : Merging :=
  mkMerging (lm_msps m) (lm_mspbuf_re m) (lm_mspbuf_po m) inps (lm_lsp_limit m) (lm_msp_reserve_min m) (lm_msp_preopen_min m) (lm_lsp_single_buf_max m).

(** [find_next_ts]. *)
Definition lm_find_next_ts (inps : list MultiInp) : next_ts_error + NextTs :=
  next_ts_loop (map (fun inp => match in_buf inp with Some buf => Some (mt_ts_min buf) | None => None end) inps) 0 None None.

(** [HaveProgressPending]: progress, pending. *)
Definition Hpp : Type := bool * bool.
Definition hpp_new : Hpp := (false, false).
Definition hpp_progress : Hpp := (true, false).
Definition hpp_pending : Hpp := (false, true).
Definition hpp_merge (a b : Hpp) : Hpp := (a.1 || b.1, a.2 || b.2).

(** *** [poll_all_inp] *)

(** The loop over the inputs: the inputs, what was marked, and where it breaks the
    outer loop. *)
Fixpoint lm_poll_inps (now : nat) (inps : list MultiInp) : list MultiInp * Hpp * option (loop_flow (Sitem unit)) :=
  match inps with
  | [] => ([], hpp_new, None)
  | inp :: inps =>
      let break inp (x : Sitem unit) := (inp :: inps, hpp_progress, Some (LoopBreak (Ready (Some x)))) in
      let next inp h :=
        let '(inps, h', r) := lm_poll_inps now inps in (inp :: inps, hpp_merge h h', r) in
      match in_buf inp with
      | Some buf => if (mt_len buf =? 0)%nat then next (mkInp (in_evs inp) None) hpp_progress else next inp hpp_new
      | None =>
          match in_evs inp with
          | Some evs =>
              match sg_poll_next db si now evs with
              | (evs, LoopBreak (Ready (Some (SOk (DataItem (Data x)))))) =>
                  if (mt_len x =? 0)%nat then next (mkInp (Some evs) None) hpp_progress
                  else if DO_CHECK_CONSISTENT && negb (mt_is_consistent x) then break (mkInp (Some evs) None) (SErr MuItemInconsistent)
                  else next (mkInp (Some evs) (Some x)) hpp_progress
              | (evs, LoopBreak (Ready (Some (SOk (DataItem RangeComplete))))) => break (mkInp (Some evs) None) (SOk (DataItem RangeComplete))
              | (evs, LoopBreak (Ready (Some (SOk (Log x))))) => break (mkInp (Some evs) None) (SOk (Log x))
              | (evs, LoopBreak (Ready (Some (SOk (Stats x))))) => break (mkInp (Some evs) None) (SOk (Stats x))
              | (evs, LoopBreak (Ready (Some (SErr e)))) => break (mkInp (Some evs) None) (SErr (MuLspFwdSingle e))
              | (evs, LoopBreak (Ready None)) => next (mkInp None None) hpp_progress
              | (evs, LoopBreak Pending) => next (mkInp (Some evs) None) hpp_pending
              | (evs, LoopContinue) => (mkInp (Some evs) None :: inps, hpp_new, Some LoopFuel)
              | (evs, LoopPanic) => (mkInp (Some evs) None :: inps, hpp_new, Some LoopPanic)
              | (evs, LoopFuel) => (mkInp (Some evs) None :: inps, hpp_new, Some LoopFuel)
              end
          | None => next inp hpp_new
          end
      end
  end.

Definition in_alive (inp : MultiInp) : bool :=
  match in_buf inp, in_evs inp with None, None => false | _, _ => true end.
Definition in_buf_none (inp : MultiInp) : bool := match in_buf inp with None => true | Some _ => false end.

Fixpoint lm_poll_all_loop (n : nat) (now : nat) (inps : list MultiInp) : list MultiInp * loop_flow (Sitem unit) :=
  match n with
  | O => (inps, LoopBreak (Ready (Some (SErr MuLoopTooMany))))
  | S n =>
      match lm_poll_inps now inps with
      | (inps, _, Some r) => (inps, r)
      | (inps, h, None) =>
          let kept := List.filter in_alive inps in
          let h := if (length inps =? length kept)%nat then h else hpp_merge h hpp_progress in
          if h.1 then lm_poll_all_loop n now kept
          else if h.2 then (kept, LoopBreak Pending)
          else if (length (List.filter in_buf_none kept) =? 0)%nat then (kept, LoopBreak (Ready (Some (sitem2_data tt))))
          else (kept, LoopBreak (Ready None))
      end
  end.

Definition lm_poll_all_inp (now : nat) (inps : list MultiInp) : list MultiInp * loop_flow (Sitem unit) := lm_poll_all_loop 200 now inps.

(** *** [check_inputs] *)

(** The branches on the next timestamps; [None]: the loop turns again. *)
Definition lm_check_next (msp_next : option TsMs) (inps : list MultiInp) (nt : NextTs)
    : list MultiInp * option (loop_flow (Sitem CheckInputItem)) :=
  let ret inps x := (inps, Some (LoopBreak (Ready (Some (sitem2_data x))))) in
  let before ts := match msp_next with Some x => TsMs_ns x <=? ts | None => false end in
  match nt with
  | NextNone => if (length inps =? 0)%nat then ret inps OpenNextMsp else ([], None)
  | NextOne _ ix1 =>
      match inps !! ix1 with
      | Some (mkInp evs (Some b2)) =>
          match mt_ts_max b2 with
          | Some ts_max => if before ts_max then ret inps OpenNextMsp else ret (<[ix1 := mkInp evs None]> inps) (CheckItem b2)
          | None => (inps, Some LoopPanic)
          end
      | _ => (inps, Some LoopPanic)
      end
  | NextTwo _ ix1 ts2 _ =>
      match inps !! ix1 with
      | Some (mkInp evs (Some b2)) =>
          if before ts2 then ret inps OpenNextMsp
          else
            let na1 := mt_len b2 in
            match mt_drain_into_new (E := multi_error) b2 0 (mt_find_pp_le b2 ts2) with
            | Ok (b2, NewNotCompatible) => (<[ix1 := mkInp evs None]> inps, None)
            | Ok (b2, NewDone c) | Ok (b2, NewPartial c) =>
                let inps := <[ix1 := mkInp evs (Some b2)]> inps in
                if (mt_len b2 =? na1)%nat then (inps, Some (LoopBreak (Ready (Some (SErr MuLogic))))) else ret inps (CheckItem c)
            | Err e => (inps, Some (LoopBreak (Ready (Some (SErr e)))))
            | Panic => (inps, Some LoopPanic)
            end
      | _ => (inps, Some LoopPanic)
      end
  end.

Fixpoint lm_check_loop (n : nat) (now : nat) (msp_next : option TsMs) (inps : list MultiInp) : list MultiInp * loop_flow (Sitem CheckInputItem) :=
  match n with
  | O => (inps, LoopBreak (Ready (Some (SErr MuLoopTooMany))))
  | S n =>
      match lm_poll_all_inp now inps with
      | (inps, LoopBreak (Ready (Some (SOk (DataItem (Data _)))))) =>
          match lm_find_next_ts inps with
          | inl e => (inps, LoopBreak (Ready (Some (SErr (MuNextTs e)))))
          | inr nt =>
              match lm_check_next msp_next inps nt with
              | (inps, Some r) => (inps, r)
              | (inps, None) => lm_check_loop n now msp_next inps
              end
          end
      | (inps, LoopBreak (Ready (Some (SOk (DataItem RangeComplete))))) => (inps, LoopBreak (Ready (Some (SOk (DataItem RangeComplete)))))
      | (inps, LoopBreak (Ready (Some (SOk (Log x))))) => (inps, LoopBreak (Ready (Some (SOk (Log x)))))
      | (inps, LoopBreak (Ready (Some (SOk (Stats x))))) => (inps, LoopBreak (Ready (Some (SOk (Stats x)))))
      | (inps, LoopBreak (Ready (Some (SErr e)))) => (inps, LoopBreak (Ready (Some (SErr e))))
      | (inps, LoopBreak (Ready None)) => (inps, LoopBreak (Ready None))
      | (inps, LoopBreak Pending) => (inps, LoopBreak Pending)
      | (inps, LoopContinue) | (inps, LoopFuel) => (inps, LoopFuel)
      | (inps, LoopPanic) => (inps, LoopPanic)
      end
  end.

Definition lm_check_inputs (now : nat) (msp_next : option TsMs) (inps : list MultiInp) := lm_check_loop 200 now msp_next inps.

(** *** [poll_state_2] *)

(** The msp that the inputs are checked against, if it is known. *)
Definition lm_msp_next (m : Merging) : option (option TsMs) :=
  match lm_mspbuf_po m with
  | x :: _ => Some (Some x.1)
  | [] =>
      match lm_msps m with
      | Some _ => None
      | None => if (length (lm_mspbuf_re m) =? 0)%nat then Some None else None
      end
  end.

(** Nothing that the body marks as progress stays in the loop, which so never
    turns twice. *)
Definition lm_poll_state_2 (now : nat) (m : Merging) : Merging * loop_flow (Sitem Item) :=
  match lm_msp_next m with
  | Some msp_next =>
      let '(inps, r) := lm_check_inputs now msp_next (lm_inps m) in
      let m := lm_set_inps m inps in
      match r with
      | LoopBreak (Ready (Some (SOk (DataItem (Data OpenNextMsp))))) =>
          match lm_mspbuf_po m with
          | (msp, inp) :: po =>
              (lm_set_inps (lm_set_re_po m (lm_mspbuf_re m) po) (inps ++ [mkInp (Some inp) None]), LoopBreak (Ready (Some (sitem2_log (RlUseNextMsp msp)))))
          | [] => (m, LoopBreak (Ready None))
          end
      | LoopBreak (Ready (Some (SOk (DataItem (Data (CheckItem x)))))) => (m, LoopBreak (Ready (Some (sitem2_data x))))
      | LoopBreak (Ready (Some (SOk (DataItem RangeComplete)))) => (m, LoopBreak (Ready (Some (SOk (DataItem RangeComplete)))))
      | LoopBreak (Ready (Some (SOk (Log x)))) => (m, LoopBreak (Ready (Some (SOk (Log x)))))
      | LoopBreak (Ready (Some (SOk (Stats x)))) => (m, LoopBreak (Ready (Some (SOk (Stats x)))))
      | LoopBreak (Ready (Some (SErr e))) => (m, LoopBreak (Ready (Some (SErr e))))
      | LoopBreak (Ready None) => (m, LoopBreak (Ready None))
      | LoopBreak Pending => (m, LoopBreak Pending)
      | LoopContinue | LoopFuel => (m, LoopFuel)
      | LoopPanic => (m, LoopPanic)
      end
  | None => (m, LoopBreak (Ready None))
  end.

(** *** [poll_state] *)

(** The poll of the stream of partitions; an error breaks. *)
Definition lm_poll_msps (now : nat) (m : Merging) : Merging * (Hpp + loop_flow (Sitem Item)) :=
  if (length (lm_mspbuf_re m) <? lm_msp_reserve_min m)%nat then
    match lm_msps m with
    | Some inp =>
        match mf_poll_next db (si_series si) now inp with
        | (inp, LoopBreak (Ready (Some (inr x)))) => (lm_set_msps m (Some inp) (lm_mspbuf_re m ++ x), inl hpp_progress)
        | (inp, LoopBreak (Ready (Some (inl e)))) => (lm_set_msps m (Some inp) (lm_mspbuf_re m), inr (LoopBreak (Ready (Some (SErr (MuMspFwd e))))))
        | (inp, LoopBreak (Ready None)) => (lm_set_msps m None (lm_mspbuf_re m), inl hpp_progress)
        | (inp, LoopBreak Pending) => (lm_set_msps m (Some inp) (lm_mspbuf_re m), inl hpp_pending)
        | (inp, LoopContinue) | (inp, LoopFuel) => (lm_set_msps m (Some inp) (lm_mspbuf_re m), inr LoopFuel)
        | (inp, LoopPanic) => (lm_set_msps m (Some inp) (lm_mspbuf_re m), inr LoopPanic)
        end
    | None => (m, inl hpp_new)
    end
  else (m, inl hpp_new).

(** The loop that opens partitions ahead: its first turn leaves [poll_state]. *)
Definition lm_preopen (range : ScyllaSeriesRange) (m : Merging) : option (Merging * Sitem Item) :=
  if (length (lm_mspbuf_po m) <? lm_msp_preopen_min m)%nat then
    match lm_mspbuf_re m with
    | mspts :: re =>
        let msp := MspEv_from_TsMs mspts in
        let inp := sg_new msp range (lm_lsp_limit m) (lm_lsp_single_buf_max m) in
        Some (lm_set_re_po m re (lm_mspbuf_po m ++ [(mspts, inp)]), sitem2_log (RlOpenNextMsp msp))
    | [] => None
    end
  else None.

(** The streams are polled into their buffers; an error breaks. *)
Fixpoint lm_buffer_po (now : nat) (po : list (TsMs * Single)) : list (TsMs * Single) * (Hpp + loop_flow (Sitem Item)) :=
  match po with
  | [] => ([], inl hpp_new)
  | (mspts, inp) :: po =>
      let next inp h :=
        match lm_buffer_po now po with
        | (po, inl h') => ((mspts, inp) :: po, inl (hpp_merge h h'))
        | (po, inr r) => ((mspts, inp) :: po, inr r)
        end in
      match sg_poll_to_buffer db si now inp with
      | (inp, LoopBreak (Ready (Some (inr _)))) => next inp hpp_progress
      | (inp, LoopBreak (Ready (Some (inl e)))) => ((mspts, inp) :: po, inr (LoopBreak (Ready (Some (SErr (MuLspFwdSingle e))))))
      | (inp, LoopBreak (Ready None)) => next inp hpp_new
      | (inp, LoopBreak Pending) => next inp hpp_pending
      | (inp, LoopContinue) | (inp, LoopFuel) => ((mspts, inp) :: po, inr LoopFuel)
      | (inp, LoopPanic) => ((mspts, inp) :: po, inr LoopPanic)
      end
  end.

(** The same for the inputs; here nothing marks the progress. *)
Fixpoint lm_buffer_inps (now : nat) (inps : list MultiInp) : list MultiInp * (Hpp + loop_flow (Sitem Item)) :=
  match inps with
  | [] => ([], inl hpp_new)
  | inp :: inps =>
      let next inp h :=
        match lm_buffer_inps now inps with
        | (inps, inl h') => (inp :: inps, inl (hpp_merge h h'))
        | (inps, inr r) => (inp :: inps, inr r)
        end in
      match in_evs inp with
      | Some evs =>
          match sg_poll_to_buffer db si now evs with
          | (evs, LoopBreak (Ready (Some (inr _)))) => next (mkInp (Some evs) (in_buf inp)) hpp_new
          | (evs, LoopBreak (Ready (Some (inl e)))) => (mkInp (Some evs) (in_buf inp) :: inps, inr (LoopBreak (Ready (Some (SErr (MuLspFwdSingle e))))))
          | (evs, LoopBreak (Ready None)) => next (mkInp (Some evs) (in_buf inp)) hpp_new
          | (evs, LoopBreak Pending) => next (mkInp (Some evs) (in_buf inp)) hpp_pending
          | (evs, LoopContinue) | (evs, LoopFuel) => (mkInp (Some evs) (in_buf inp) :: inps, inr LoopFuel)
          | (evs, LoopPanic) => (mkInp (Some evs) (in_buf inp) :: inps, inr LoopPanic)
          end
      | None => next inp hpp_new
      end
  end.

(** A turn of the loop in [poll_state]: [inl]: it turns again, with the item to
    return in [retitem]. *)
Definition lm_state_turn (range : ScyllaSeriesRange) (now : nat) (retitem : option (Sitem Item)) (m : Merging)
    : Merging * (option (Sitem Item) + loop_flow (Sitem Item)) :=
  match lm_poll_msps now m with
  | (m, inr r) => (m, inr r)
  | (m, inl h1) =>
      match lm_preopen range m with
      | Some (m, item) => (m, inr (LoopBreak (Ready (Some item))))
      | None =>
          let '(po, b2) := lm_buffer_po now (lm_mspbuf_po m) in
          let m := lm_set_re_po m (lm_mspbuf_re m) po in
          match b2 with
          | inr r => (m, inr r)
          | inl h2 =>
              let '(inps, b3) := lm_buffer_inps now (lm_inps m) in
              let m := lm_set_inps m inps in
              match b3 with
              | inr r => (m, inr r)
              | inl h3 =>
                  let h := hpp_merge h1 (hpp_merge h2 h3) in
                  let finish m h retitem :=
                    if h.1 : bool then (m, inl retitem)
                    else
                      match retitem with
                      | Some x => (m, inr (LoopBreak (Ready (Some x))))
                      | None => if h.2 : bool then (m, inr (LoopBreak Pending)) else (m, inr (LoopBreak (Ready None)))
                      end in
                  match retitem with
                  | Some x => finish m h retitem
                  | None =>
                      match lm_poll_state_2 now m with
                      | (m, LoopBreak (Ready (Some (SOk x)))) => finish m (hpp_merge h hpp_progress) (Some (SOk x))
                      | (m, LoopBreak (Ready (Some (SErr e)))) => (m, inr (LoopBreak (Ready (Some (SErr e)))))
                      | (m, LoopBreak (Ready None)) => finish m h None
                      | (m, LoopBreak Pending) => finish m (hpp_merge h hpp_pending) None
                      | (m, LoopContinue) | (m, LoopFuel) => (m, inr LoopFuel)
                      | (m, LoopPanic) => (m, inr LoopPanic)
                      end
                  end
              end
          end
      end
  end.

(** [ck] is the clock: the time of each turn. *)
Fixpoint lm_state_loop (range : ScyllaSeriesRange) (n : nat) (ck : nat -> nat) (retitem : option (Sitem Item)) (m : Merging)
    : Merging * loop_flow (Sitem Item) :=
  match n with
  | O => (m, LoopBreak (Ready (Some (SErr MuLoopTooMany))))
  | S n =>
      match lm_state_turn range (ck O) retitem m with
      | (m, inl retitem) => lm_state_loop range n (fun i => ck (S i)) retitem m
      | (m, inr r) => (m, r)
      end
  end.

Definition lm_poll_state (range : ScyllaSeriesRange) (ck : nat -> nat) (m : Merging) := lm_state_loop range 2000 ck None m.

(** ** [LspFwdMspMulti] *)

Inductive MultiState : Type :=
  | MuMerging (m : Merging)
  | MuDone.

Record LspFwdMspMulti : Type := mkMulti { mu_range : ScyllaSeriesRange; mu_state : MultiState }.

Definition lm_new (range : ScyllaSeriesRange) (opts : MultiOpts) (msps : list MspEv) : LspFwdMspMulti :=
  let '(msp_stream_range, msp_begexcl) :=
    match last msps with
    | Some msp => (ScyllaSeriesRange_new (TsMs_ns (MspEv_to_ms msp)) (ssr_end range), RexclBeg)
    | None => (range, RexclNone)
    end in
  mkMulti range (MuMerging (mkMerging (Some (mf_new msp_stream_range msp_begexcl (mo_msp_limit opts))) (map MspEv_to_ms msps) [] []
    (mo_lsp_limit opts) (mo_msp_reserve_min opts) (mo_msp_preopen_min opts) (mo_lsp_single_buf_max opts))).

(** [poll_next]; its loop turns once more when the merge is at its end. *)
Definition lm_poll_next (ck : nat -> nat) (s : LspFwdMspMulti) : LspFwdMspMulti * loop_flow (Sitem Item) :=
  match mu_state s with
  | MuMerging m =>
      match lm_poll_state (mu_range s) ck m with
      | (m, LoopBreak (Ready (Some (SErr e)))) => (mkMulti (mu_range s) MuDone, LoopBreak (Ready (Some (SErr e))))
      | (m, LoopBreak (Ready None)) => (mkMulti (mu_range s) MuDone, LoopBreak (Ready None))
      | (m, r) => (mkMulti (mu_range s) (MuMerging m), r)
      end
  | MuDone => (s, LoopBreak (Ready None))
  end.

(** A consumer polls again and again; [ck] gives the clock of each poll. *)
Definition lm_turn (ck : nat -> nat -> nat) (s : nat * LspFwdMspMulti) : nat * LspFwdMspMulti * loop_flow (Sitem Item) :=
  let '(k, s) := s in
  let '(s, r) := lm_poll_next (ck k) s in ((S k, s), r).

Definition lm_run (ck : nat -> nat -> nat) (fuel : nat) (s : LspFwdMspMulti) : option (PollStream (Sitem Item)) :=
  stream_run (lm_turn ck) (fun _ => false) fuel (O, s).

End LspMulti.
