(* ===== verification/LspMultiProofs.v ===== *)
(** * The inputs of the merge of partitions

    What [poll_all_inp] and [check_inputs] of [lsp_fwd_msp_multi.rs] make of the
    inputs: no event is lost, the limits of their loops are not met, and what is
    put out is a sorted piece that comes before all that is left. *)
From Stdlib Require Import ZArith Lia.
From stdpp Require Import base numbers option strings list sorting.
From S2P Require Import Prelude Items TimeTypes NetpodTypes Ranges Events StreamRun EvStore EvStoreProofs LspSingleProofs LspMulti.

#[local] Open Scope Z_scope.
#[local] Open Scope rust_scope.

(** Pieces of sorted lists of events. *)
Definition le_all {V : Type} (l1 l2 : list (Z * V)) : Prop := forall a b, a ∈ l1 -> b ∈ l2 -> a.1 <= b.1.

Lemma sorted_app_lt {V : Type} (l1 l2 : list (Z * V)) : StronglySorted Z.lt (l1 ++ l2).*1 ->
  StronglySorted Z.lt l1.*1 /\ StronglySorted Z.lt l2.*1 /\ forall a b, a ∈ l1 -> b ∈ l2 -> a.1 < b.1.
Proof.
  rewrite fmap_app. induction l1 as [|x l1 IH]; cbn; intros Hs.
  { split; [constructor|]. split; [done|]. by intros a b Ha%not_elem_of_nil. }
  apply StronglySorted_inv in Hs as [Hs Hf]. destruct (IH Hs) as (H1 & H2 & H3). rewrite Forall_app, !Forall_fmap, !Forall_forall in Hf.
  destruct Hf as [Hf1 Hf2]. split; [constructor; [done|]; by rewrite Forall_fmap, Forall_forall|]. split; [done|].
  intros a b [->|Ha]%elem_of_cons Hb; [by apply Hf2|by apply H3].
Qed.

Lemma sum_list_with_fmap_le {A B} (f : A -> nat) (g : B -> nat) l k : Forall2 (fun x y => g y <= f x)%nat l k -> (sum_list_with g k <= sum_list_with f l)%nat.
Proof. induction 1; cbn; lia. Qed.

Lemma concat_elem {A B} (f : A -> list B) x l : x ∈ concat (map f l) <-> exists i a, l !! i = Some a /\ x ∈ f a.
Proof.
  split.
  - induction l as [|a l IH]; cbn; [by intros ?%not_elem_of_nil|]. intros [Hx|Hx]%elem_of_app; [by exists O, a|].
    destruct (IH Hx) as (i & b & ? & ?). by exists (S i), b.
  - intros (i & a & Hi & Hx). rewrite <- (take_drop_middle l i a Hi). rewrite map_app, concat_app. apply elem_of_app. right. cbn. apply elem_of_app. by left.
Qed.

Lemma concat_insert {A B} (f : A -> list B) l i a b z : l !! i = Some a -> f a = z ++ f b ->
  concat (map f l) ≡ₚ z ++ concat (map f (<[i := b]> l)).
Proof.
  intros Hi Hf. assert (Hlt := lookup_lt_Some _ _ _ Hi). rewrite (insert_take_drop l i b Hlt). rewrite <- (take_drop_middle l i a Hi) at 1.
  rewrite !map_app, !concat_app. cbn. rewrite Hf. solve_Permutation.
Qed.

Section LspMultiInputs.
  Context {V DE St : Type} `{EventValueType V}.
  Context (db : EventsDb (V := V) (DE := DE)) (si : SeriesInfo) (st : EvStore V) (D : nat).
  Context (Hst : store_ok st) (Hdb : DbLaws db si st D).

Local Abbreviation Single := (LspFwdMspSingleStream (V := V) (DE := DE) (St := St)).
Local Abbreviation Inp := (MultiInp (V := V) (DE := DE) (St := St)).
Implicit Types (s : Single) (inp : Inp).

(** ** Measures *)

Definition sg_meas (now : nat) (s : Single) : nat := (D + 3) * sg_work st s + sg_wait now s.

Lemma sg_meas_lt now s s' : sg_ok st D now s' -> (sg_work st s' < sg_work st s)%nat -> (sg_meas now s' + 3 <= sg_meas now s)%nat.
Proof. intros Hok Hw. pose proof (sg_wait_le st D now s' Hok). unfold sg_meas. nia. Qed.

Lemma sg_meas_le now s s' : sg_ok st D now s' -> s' = s \/ (sg_work st s' < sg_work st s)%nat -> (sg_meas now s' <= sg_meas now s)%nat.
Proof. intros Hok [->|Hw]; [done|]. pose proof (sg_meas_lt now s s' Hok Hw). lia. Qed.

Lemma sg_meas_later now s : (sg_meas (S now) s <= sg_meas now s)%nat /\ ((0 < sg_wait now s)%nat -> (sg_meas (S now) s < sg_meas now s)%nat).
Proof. unfold sg_meas, sg_wait. destruct (sg_fut s); lia. Qed.

Definition in_meas (now : nat) (inp : Inp) : nat :=
  (match in_evs inp with Some s => S (sg_meas now s) | None => 0 end) + (match in_buf inp with Some _ => 1 | None => 0 end).

(** ** The invariant of an input *)

Definition buf_events (b : option (ContainerEvents V)) : list (Z * V) := match b with Some b => ce_iter_zip b | None => [] end.
Definition evs_events (s : option Single) : list (Z * V) := match s with Some s => sg_events st s | None => [] end.
Definition in_events (inp : Inp) : list (Z * V) := buf_events (in_buf inp) ++ evs_events (in_evs inp).

Record in_ok (now : nat) (inp : Inp) : Prop := {
  ik_evs : forall s, in_evs inp = Some s -> sg_ok st D now s;
  ik_buf : forall b, in_buf inp = Some b -> buf_ok b;
  ik_sorted : StronglySorted Z.lt (in_events inp).*1
}.

Definition ins_events (inps : list Inp) : list (Z * V) := concat (map in_events inps).
Definition ins_meas (now : nat) (inps : list Inp) : nat := sum_list_with (in_meas now) inps.

(** An input that has something, or that waits. *)
Definition in_filled (inp : Inp) : Prop := exists b, in_buf inp = Some b /\ mt_len b <> 0%nat.
Definition in_waits (now : nat) (inp : Inp) : Prop :=
  in_buf inp = None /\ exists s, in_evs inp = Some s /\ sg_poll_next db si now s = (s, LoopBreak Pending) /\ (0 < sg_wait now s)%nat.
Definition in_idle (now : nat) (inp : Inp) : Prop := in_filled inp \/ in_waits now inp.

(** What a turn makes of an input, and marks. *)
Definition in_turned (now : nat) (h : Hpp) (inp inp' : Inp) : Prop :=
  in_filled inp' \/ (in_waits now inp' /\ h.2 = true) \/ in_alive inp' = false \/
  (in_buf inp' = None /\ h.1 = true /\ exists b, in_buf inp = Some b /\ mt_len b = 0%nat).
Definition in_none_waits (now : nat) (h : Hpp) (inps : list Inp) : Prop := h.2 = true -> exists inp, inp ∈ inps /\ in_waits now inp.

Lemma in_turned_merge now h h' inp inp' : in_turned now h inp inp' \/ in_turned now h' inp inp' -> in_turned now (hpp_merge h h') inp inp'.
Proof.
  intros [[?|[[? Hh]|[?|(? & Hh & ?)]]]|[?|[[? Hh]|[?|(? & Hh & ?)]]]]; unfold in_turned, hpp_merge; cbn; rewrite ?Hh, ?orb_true_r; tauto.
Qed.

Lemma lm_poll_inps_idle now inps : Forall (in_idle now) inps ->
  exists w, lm_poll_inps db si now inps = (inps, (false, w), None) /\
    if w then exists inp, inp ∈ inps /\ in_waits now inp else Forall in_filled inps.
Proof.
  induction 1 as [|inp inps Hi _ IH]; [by exists false|]. destruct IH as (w & Hw & Hf). cbn [lm_poll_inps]. rewrite Hw. destruct Hi as [Hi|Hi].
  - assert (Hi' := Hi). destruct Hi' as (b & -> & ->%Nat.eqb_neq). exists w. split; [done|]. destruct w; [|by constructor].
    destruct Hf as (x & ? & ?). exists x. split; [by right|done].
  - exists true. split; [|by exists inp; split; [left|]]. destruct inp as [evs buf], Hi as (Hb & s & Hs & Hp & _). cbn in Hb, Hs. subst. cbn [in_buf in_evs]. by rewrite Hp.
Qed.

Lemma lm_poll_inps_spec now inps : Forall (in_ok now) inps ->
  match lm_poll_inps db si now inps with
  | (inps', h, r) => Forall (in_ok now) inps' /\ ins_events inps' = ins_events inps /\ (ins_meas now inps' <= ins_meas now inps)%nat /\
      match r with
      | None => Forall2 (in_turned now h) inps inps' /\ in_none_waits now h inps'
      | Some (LoopBreak (Ready (Some (SOk (Log _))))) => (ins_meas now inps' < ins_meas now inps)%nat
      | _ => False
      end
  end.
Proof.
  induction 1 as [|inp inps Hi Hinps IH]; [by repeat constructor|]. cbn [lm_poll_inps].
  assert (Hnext : forall inp' h, in_ok now inp' -> in_events inp' = in_events inp -> (in_meas now inp' <= in_meas now inp)%nat -> in_turned now h inp inp' -> (h.2 = true -> in_waits now inp') ->
    match (let '(inps, h', r) := lm_poll_inps db si now inps in (inp' :: inps, hpp_merge h h', r)) with
    | (inps', h, r) => Forall (in_ok now) inps' /\ ins_events inps' = ins_events (inp :: inps) /\ (ins_meas now inps' <= ins_meas now (inp :: inps))%nat /\
      match r with
      | None => Forall2 (in_turned now h) (inp :: inps) inps' /\ in_none_waits now h inps'
      | Some (LoopBreak (Ready (Some (SOk (Log _))))) => (ins_meas now inps' < ins_meas now (inp :: inps))%nat
      | _ => False
      end
    end).
  { intros inp' h Hok He Hm Ht Hw. destruct (lm_poll_inps db si now inps) as [[inps' h'] r]. destruct IH as (Ho & Hev & Hme & Hr).
    split; [by constructor|]. unfold ins_events, ins_meas in *. cbn. split; [by rewrite He, Hev|]. split; [lia|].
    destruct r as [[|[[[[]|]|]|]| |]|]; try done; [lia|]. destruct Hr as [Hr Hw']. split.
    - constructor; [apply in_turned_merge; by left|]. eapply Forall2_impl; [exact Hr|]. intros. apply in_turned_merge. by right.
    - unfold in_none_waits, hpp_merge in *. cbn. intros [Hh|Hh]%orb_true_iff; [by exists inp'; split; [left|apply Hw]|].
      destruct (Hw' Hh) as (x & ? & ?). exists x. split; [by right|done]. }
  unfold in_turned, in_filled in Hnext. destruct inp as [evs buf]. destruct buf as [buf|]; cbn [in_buf in_evs] in *.
  { destruct (Nat.eqb_spec (mt_len buf) 0) as [Hz|Hnz]; apply Hnext; try done; [..|by left; exists buf].
    - destruct Hi as [H1 H2 H3]. split; [done|done|]. unfold in_events in *. cbn in *. by apply sorted_app_lt in H3 as (_ & H3 & _).
    - unfold in_events. cbn. assert (Hwf := proj1 (ik_buf _ _ Hi buf eq_refl)). pose proof (ce_zip_length buf Hwf) as Hl. cbn in Hz. unfold ce_len in Hz. rewrite Hz in Hl.
      by destruct (ce_iter_zip buf).
    - unfold in_meas. cbn. lia.
    - right. right. right. split; [done|]. split; [done|]. by exists buf. }
  destruct evs as [s|].
  2: { apply Hnext; try done. by right; right; left. }
  pose proof (sg_poll_spec db si st D Hst Hdb now s (ik_evs _ _ Hi s eq_refl)) as Hs.
  assert (Hok' : forall s', sg_ok st D now s' -> in_ok now (mkInp (Some s') None)).
  { intros s' Hok'. split; cbn; [by intros ? [= <-]|done|]. apply (sk_sorted _ _ _ _ Hok'). }
  destruct (sg_poll_next db si now s) as [s' [|[[x|]|]| |]] eqn:Hp; try done.
  - destruct Hs as (Hok & _ & Hx & Hev & Hw). apply (sg_meas_lt now) in Hw; [|done].
    destruct x as [[[|c]|l|?]|?]; try done; cbn in Hx.
    + destruct Hx as [Hwf Hne]. assert (Hlen : mt_len c <> 0%nat).
      { cbn. unfold ce_len. rewrite <- ce_zip_length by apply Hwf. by destruct (ce_iter_zip c). }
      rewrite (proj2 (Nat.eqb_neq _ _) Hlen). cbn [DO_CHECK_CONSISTENT andb]. apply Hnext.
      * split; cbn; [by intros ? [= <-]|by intros ? [= <-]|]. unfold in_events. cbn. cbn in Hev. rewrite <- Hev. apply (ik_sorted _ _ Hi).
      * unfold in_events. cbn. by rewrite Hev.
      * unfold in_meas. cbn. lia.
      * left. by exists c.
      * done.
    + cbn in Hev. split; [constructor; [by apply Hok'|done]|]. unfold ins_events, ins_meas, in_events, in_meas. cbn. rewrite Hev. split; [done|]. lia.
  - apply Hnext.
    + split; cbn; [done|done|constructor].
    + unfold in_events. cbn. by rewrite Hs.
    + unfold in_meas. cbn. lia.
    + by right; right; left.
    + by cbn.
  - destruct Hs as (Hok & _ & Hev & Hwt & Hsame & Hw). apply Hnext.
    + by apply Hok'.
    + unfold in_events. cbn. by rewrite Hev.
    + unfold in_meas. cbn. apply (sg_meas_le now) in Hw; [|done]. lia.
    + right. left. split; [|done]. split; [done|]. by exists s'.
    + intros _. split; [done|]. by exists s'.
Qed.

Lemma filter_all_length {A} (f : A -> bool) l : length (List.filter f l) = length l -> List.filter f l = l.
Proof.
  induction l as [|x l IH]; [done|]. cbn. destruct (f x); cbn; [intros [= Hl]; by rewrite IH|].
  intros Hl. pose proof (List.filter_length_le f l). lia.
Qed.

Lemma lm_keep_alive now inps : Forall (in_ok now) inps ->
  Forall (in_ok now) (List.filter in_alive inps) /\ ins_events (List.filter in_alive inps) = ins_events inps /\
  ins_meas now (List.filter in_alive inps) = ins_meas now inps /\ (length (List.filter in_alive inps) <= length inps)%nat.
Proof.
  induction 1 as [|inp inps Hi _ (IH1 & IH2 & IH3 & IH4)]; [done|]. unfold ins_events, ins_meas in *. cbn. destruct (in_alive inp) eqn:Ha; cbn.
  - split; [by constructor|]. rewrite IH2, IH3. repeat split; lia.
  - assert (in_events inp = [] /\ in_meas now inp = 0%nat) as [-> ->] by (unfold in_events, in_meas, in_alive in *; by destruct (in_buf inp), (in_evs inp)).
    split; [done|]. split; [done|]. split; [done|]. lia.
Qed.

Lemma in_idle_alive now inp : in_idle now inp -> in_alive inp = true.
Proof. unfold in_alive. intros [(b & -> & _)|(-> & s & -> & _)]; done. Qed.

(** How many turns of [poll_all_inp] are left. *)
Definition ins_level (now : nat) (n : nat) (inps : list Inp) : Prop :=
  match n with
  | O => Forall (in_idle now) inps
  | 1%nat => Forall (fun inp => in_idle now inp \/ in_buf inp = None) inps
  | _ => True
  end.

Lemma lm_poll_all_spec k now inps n : ins_level now k inps -> (k < n)%nat -> Forall (in_ok now) inps ->
  match lm_poll_all_loop db si n now inps with
  | (inps', r) => Forall (in_ok now) inps' /\ ins_events inps' = ins_events inps /\ (ins_meas now inps' <= ins_meas now inps)%nat /\
      match r with
      | LoopBreak (Ready (Some (SOk (DataItem (Data tt))))) => Forall in_filled inps'
      | LoopBreak (Ready (Some (SOk (Log _)))) => (ins_meas now inps' < ins_meas now inps)%nat
      | LoopBreak Pending => exists inp, inp ∈ inps' /\ in_waits now inp
      | _ => False
      end
  end.
Proof.
  revert inps n. induction k as [|k IH]; intros inps [|n] Hk Hn Hok; try lia; cbn [lm_poll_all_loop].
  - destruct (lm_poll_inps_idle now inps Hk) as (w & -> & Hw).
    assert (Hal : List.filter in_alive inps = inps).
    { clear - Hk. induction Hk as [|inp inps Hi _ IH]; [done|]. cbn. by rewrite (in_idle_alive now inp Hi), IH. }
    rewrite Hal, Nat.eqb_refl. cbn [fst snd]. destruct w; [done|].
    assert (List.filter in_buf_none inps = []) as ->.
    { clear - Hw. induction Hw as [|inp inps (b & Hb & _) _ IH]; [done|]. cbn. unfold in_buf_none at 1. by rewrite Hb. }
    cbn. done.
  - pose proof (lm_poll_inps_spec now inps Hok) as Hs. destruct (lm_poll_inps db si now inps) as [[inps' h] r].
    destruct Hs as (Hok' & He & Hm & Hr). destruct r as [r|]; [by destruct r as [|[[[[]|]|]|]| |]|]. destruct Hr as [Hr Hwt].
    destruct (lm_keep_alive now inps' Hok') as (Hok2 & He2 & Hm2 & _). set (kept := List.filter in_alive inps') in *.
    set (h' := if (_ =? _)%nat then h else _).
    assert (Hlv : ins_level now k kept).
    { assert (Hall : Forall (fun inp => in_idle now inp \/ (in_buf inp = None /\ (ins_level now 1 inps -> False))) kept).
      { apply Forall_forall. intros inp Hin%list_elem_of_In%filter_In. destruct Hin as [Hin Ha]. apply list_elem_of_In, list_elem_of_lookup in Hin as [i Hi].
        destruct (Forall2_lookup_r _ _ _ _ _ Hr Hi) as (inp0 & Hi0 & [Hid|[[Hid _]|[Hd|(Hn' & _ & b & Hb & Hz)]]]); [by left; left|by left; right|congruence|]. right. split; [done|].
        intros Hl. cbn in Hl. rewrite Forall_forall in Hl. destruct (Hl inp0 (list_elem_of_lookup_2 _ _ _ Hi0)) as [[(b' & Hb' & Hz')|[Hb' _]]|Hb']; congruence. }
      destruct k as [|[|k]]; [..|done]; cbn; (eapply Forall_impl; [exact Hall|]); cbn; tauto. }
    destruct h' as [[] w] eqn:Hh; cbn [fst snd].
    { specialize (IH kept n Hlv ltac:(lia) Hok2). destruct (lm_poll_all_loop db si n now kept) as [inps'' r]. destruct IH as (? & ? & ? & Hx).
      split; [done|]. split; [congruence|]. split; [lia|]. repeat case_match; try done; lia. }
    unfold h' in Hh. destruct (Nat.eqb_spec (length inps') (length kept)) as [Hlen|_]; [|by destruct h as [[] ?]]. subst h. clear h'.
    assert (kept = inps') as Hkept by (symmetry in Hlen; by apply filter_all_length). rewrite Hkept.
    destruct w; [do 3 (split; [done|]); by apply Hwt|].
    assert (Hf : Forall in_filled inps').
    { apply Forall_forall. intros inp [i Hi]%list_elem_of_lookup. destruct (Forall2_lookup_r _ _ _ _ _ Hr Hi) as (inp0 & _ & [?|[[_ ?]|[Hd|(_ & ? & _)]]]); try done.
      assert (Hin : inp ∈ kept) by (rewrite Hkept; by eapply list_elem_of_lookup_2). apply list_elem_of_In, filter_In in Hin as [_ Hin]. congruence. }
    assert (List.filter in_buf_none inps' = []) as ->; [|by cbn].
    clear - Hf. induction Hf as [|inp inps (b & Hb & _) _ IH]; [done|]. cbn. unfold in_buf_none at 1. by rewrite Hb.
Qed.
(** ** What is put out *)

(** A piece [c] leaves the inputs: it comes before what is left, and before [msp]. *)
Record lm_gives (now : nat) (msp_next : option TsMs) (inps : list Inp) (c : ContainerEvents V) (inps' : list Inp) : Prop := {
  lg_ok : Forall (in_ok now) inps';
  lg_data : data_ok c;
  lg_events : ins_events inps ≡ₚ ce_iter_zip c ++ ins_events inps';
  lg_sorted : StronglySorted Z.lt (ce_iter_zip c).*1;
  lg_first : le_all (ce_iter_zip c) (ins_events inps');
  lg_next : forall m e, msp_next = Some m -> e ∈ ce_iter_zip c -> e.1 <= TsMs_ns m;
  lg_meas : (ins_meas now inps' <= ins_meas now inps)%nat
}.

Lemma sum_list_with_insert_le {A} (f : A -> nat) l i a b : l !! i = Some a -> (f b <= f a)%nat ->
  (sum_list_with f (<[i := b]> l) <= sum_list_with f l)%nat.
Proof. revert i. induction l as [|x l IH]; intros [|i] Hi Hf; try done; [injection Hi as ->; cbn; lia|]. specialize (IH i Hi Hf). change (f x + sum_list_with f (<[i := b]> l) <= f x + sum_list_with f l)%nat. lia. Qed.

Lemma lm_gives_piece now msp_next inps i inp inp' c t : Forall (in_ok now) inps -> inps !! i = Some inp -> in_ok now inp' ->
  in_events inp = ce_iter_zip c ++ in_events inp' -> data_ok c -> (in_meas now inp' <= in_meas now inp)%nat ->
  (forall e, e ∈ ce_iter_zip c -> e.1 <= t) ->
  (forall j x e, j <> i -> inps !! j = Some x -> e ∈ in_events x -> t <= e.1) ->
  (forall m, msp_next = Some m -> t <= TsMs_ns m) ->
  lm_gives now msp_next inps c (<[i := inp']> inps).
Proof.
  intros Hok Hi Hok' He Hc Hm Hle Hoth Hn. assert (Hin : in_ok now inp) by (rewrite Forall_forall in Hok; apply Hok; by eapply list_elem_of_lookup_2).
  pose proof (ik_sorted _ _ Hin) as Hs. rewrite He in Hs. apply sorted_app_lt in Hs as (Hs1 & _ & Hs2). split.
  - by apply Forall_insert.
  - done.
  - by eapply concat_insert.
  - done.
  - intros a b Ha (j & x & Hj & Hb)%concat_elem. destruct (decide (i = j)) as [<-|Hne].
    + rewrite list_lookup_insert_eq in Hj by (by eapply lookup_lt_Some). injection Hj as <-. specialize (Hs2 a b Ha Hb). lia.
    + rewrite list_lookup_insert_ne in Hj by done. etransitivity; [by apply Hle|]. by eapply Hoth.
  - intros m e Hmsp Hec. etransitivity; [by apply Hle|]. by apply Hn.
  - by eapply sum_list_with_insert_le.
Qed.

Lemma sorted_first {A} (e : Z * A) l : StronglySorted Z.lt (e :: l).*1 -> forall x, x ∈ e :: l -> e.1 <= x.1.
Proof. cbn. intros [_ Hf]%StronglySorted_inv x [->|Hx]%elem_of_cons; [lia|]. rewrite Forall_fmap, Forall_forall in Hf. specialize (Hf x Hx). cbn in Hf. lia. Qed.

Lemma in_filled_first now inp : in_ok now inp -> in_filled inp ->
  exists b t, in_buf inp = Some b /\ mt_ts_min b = Some t /\ forall e, e ∈ in_events inp -> t <= e.1.
Proof.
  intros Hok (b & Hb & Hl). pose proof (proj1 (ik_buf _ _ Hok b Hb)) as Hwf. pose proof (ik_sorted _ _ Hok) as Hs. unfold in_events in *. rewrite Hb in *. cbn [buf_events] in *.
  pose proof (ce_zip_fst b Hwf) as Hz. pose proof (ce_zip_length b Hwf) as Hzl. cbn in Hl |- *. unfold ce_len, ce_ts_min in *. rewrite <- Hzl in Hl.
  destruct (ce_iter_zip b) as [|e zs]; [done|]. exists b, e.1. split; [done|]. split; [by rewrite <- Hz|]. by apply sorted_first.
Qed.

Lemma lm_firsts now inps : Forall (in_ok now) inps -> Forall in_filled inps ->
  exists tss, map (fun inp => match in_buf inp with Some buf => Some (mt_ts_min buf) | None => None end) inps = map (fun t => Some (Some t)) tss /\
    Forall2 (fun inp t => forall e, e ∈ in_events inp -> t <= e.1) inps tss.
Proof.
  induction 1 as [|inp inps Hi _ IH]; intros Hf; [by exists []|]. apply Forall_cons_1 in Hf as [Hf Hfs]. destruct (IH Hfs) as (tss & Hm & H2).
  destruct (in_filled_first now inp Hi Hf) as (b & t & Hb & Ht & Hall). exists (t :: tss). split; [|by constructor].
  cbn [map]. rewrite Hb, Hm. cbn in Ht |- *. by rewrite Ht.
Qed.

Lemma lm_split_buf now evs b2 ts2 t1 : in_ok now (mkInp evs (Some b2)) -> mt_ts_min b2 = Some t1 -> t1 <= ts2 ->
  exists b2' c, mt_drain_into_new (E := multi_error (DE := DE)) b2 0 (mt_find_pp_le b2 ts2) = Ok (b2', NewDone c) /\ mt_len b2' <> mt_len b2 /\
    in_ok now (mkInp evs (Some b2')) /\ data_ok c /\ in_events (mkInp evs (Some b2)) = ce_iter_zip c ++ in_events (mkInp evs (Some b2')) /\
    (forall e, e ∈ ce_iter_zip c -> e.1 <= ts2).
Proof.
  intros Hok Hmin Hle. pose proof (proj1 (ik_buf _ _ Hok b2 eq_refl)) as Hwf. pose proof (proj2 (ik_buf _ _ Hok b2 eq_refl)) as Hsz. pose proof (ce_zip_fst b2 Hwf) as Hz. pose proof (ce_zip_length b2 Hwf) as Hzl.
  set (n := mt_find_pp_le b2 ts2). assert (Hn : (1 <= n <= length (ce_iter_zip b2))%nat).
  { unfold n. cbn in Hmin |- *. unfold ce_ts_min, ce_find_pp_le in *. rewrite Hzl. pose proof (partition_point_le (fun x => x <=? ts2) (ce_tss b2)).
    split; [|done]. destruct (ce_tss b2) as [|x l]; [done|]. injection Hmin as ->. cbn. rewrite (proj2 (Z.leb_le _ _) Hle). lia. }
  assert (Hneq : n = partition_point (fun x => x <=? ts2) (ce_tss b2)) by done. clearbody n.
  pose proof (mt_drain_into_new_eq (T := ContainerEvents V) (V := V) (multi_error (DE := DE)) b2 n) as Hd.
  destruct (Hd Hwf (proj2 Hn)) as (b2' & c & Hdr & Hwf' & Hwfc & Hb' & Hc). cbn [mt_events mt_wf MergeableLaws_ContainerEvents] in *.
  exists b2', c. split; [done|].
  assert (Hev : in_events (mkInp evs (Some b2)) = ce_iter_zip c ++ in_events (mkInp evs (Some b2'))).
  { unfold in_events. cbn. by rewrite Hb', Hc, app_assoc, take_drop. }
  split.
  { cbn. unfold ce_len. rewrite <- Hzl, <- (ce_zip_length b2' Hwf'), Hb', length_drop. lia. }
  split; [|split; [|split; [done|]]].
  - split; cbn; [apply (ik_evs _ _ Hok)|intros ? [= <-]; split; [done|rewrite Hb', length_drop; lia]|]. pose proof (ik_sorted _ _ Hok) as Hs. rewrite Hev in Hs. by apply sorted_app_lt in Hs as (_ & ? & _).
  - split; [split; [done|rewrite Hc, length_take; lia]|]. intros Hn0. pose proof (f_equal length Hc) as Hlen. rewrite Hn0, length_take in Hlen. cbn in Hlen. lia.
  - intros e He. rewrite Hc in He. pose proof (partition_point_take (fun x => x <=? ts2) (ce_tss b2)) as Hall.
    rewrite <- Hneq, <- Hz, <- fmap_take, Forall_fmap, Forall_forall in Hall. specialize (Hall e He). cbn in Hall. lia.
Qed.

Definition ts_before (msp_next : option TsMs) (ts : Z) : bool := match msp_next with Some x => TsMs_ns x <=? ts | None => false end.

Lemma ts_before_false msp_next t m : ts_before msp_next t = false -> msp_next = Some m -> t <= TsMs_ns m.
Proof. intros Ht ->. cbn in Ht. apply Z.leb_gt in Ht. lia. Qed.

Lemma lm_check_next_spec now msp_next inps : Forall (in_ok now) inps -> Forall in_filled inps ->
  exists nt, lm_find_next_ts inps = inr nt /\
    match lm_check_next msp_next inps nt with
    | (inps', Some (LoopBreak (Ready (Some (SOk (DataItem (Data OpenNextMsp))))))) => inps' = inps /\ (msp_next = None -> inps = [])
    | (inps', Some (LoopBreak (Ready (Some (SOk (DataItem (Data (CheckItem c)))))))) => lm_gives now msp_next inps c inps'
    | _ => False
    end.
Proof.
  intros Hok Hf. destruct (lm_firsts now inps Hok Hf) as (tss & Hm & H2). pose proof (next_ts_spec tss) as Hn. rewrite <- Hm in Hn.
  change (next_ts_loop _ 0 None None) with (lm_find_next_ts inps) in Hn. destruct (lm_find_next_ts inps) as [|nt]; [done|]. exists nt. split; [done|].
  assert (Hget : forall i t, tss !! i = Some t -> exists evs b, inps !! i = Some (mkInp evs (Some b)) /\ in_ok now (mkInp evs (Some b)) /\ ce_iter_zip b <> [] /\ mt_ts_min b = Some t).
  { intros i t Hi. destruct (Forall2_lookup_r _ _ _ _ _ H2 Hi) as ([evs buf] & Hl & _). pose proof (list_elem_of_lookup_2 _ _ _ Hl) as Hin.
    rewrite Forall_forall in Hok, Hf. destruct (Hf _ Hin) as (b & Hb & Hlen). cbn in Hb. subst buf. exists evs, b. split; [done|]. split; [by apply Hok|].
    pose proof (proj1 (ik_buf _ _ (Hok _ Hin) b eq_refl)) as Hwf. pose proof (ce_zip_length b Hwf) as Hzl. cbn in Hlen. unfold ce_len in Hlen.
    split; [intros Hn0; rewrite Hn0 in Hzl; cbn in Hzl; lia|]. apply (f_equal (fun l => l !! i)) in Hm.
    rewrite !list_lookup_fmap, Hl, Hi in Hm. cbn in Hm |- *. by injection Hm. }
  destruct nt as [|t1 i1|t1 i1 t2 i2]; cbn [lm_check_next].
  - subst tss. apply Forall2_nil_inv_r in H2 as ->. by cbn.
  - destruct Hn as [-> ->]. destruct (Hget O t1 eq_refl) as (evs & b & Hi & Hib & Hne & _). rewrite Hi. cbv zeta.
    pose proof (proj1 (ik_buf _ _ Hib b eq_refl)) as Hwf. pose proof (ce_zip_fst b Hwf) as Hz.
    assert (exists tm, mt_ts_max b = Some tm) as (tm & Htm).
    { cbn. unfold ce_ts_max. apply last_is_Some. rewrite <- Hz. by intros ?%fmap_nil_inv. }
    rewrite Htm. fold (ts_before msp_next tm). destruct (ts_before msp_next tm) eqn:Hb; [by cbn; split; [|intros ->]|]. cbn [sitem2_data].
    apply (lm_gives_piece now msp_next inps 0 (mkInp evs (Some b)) (mkInp evs None) b tm); try done.
    + split; cbn; [apply (ik_evs _ _ Hib)|done|]. pose proof (ik_sorted _ _ Hib) as Hs. unfold in_events in Hs. cbn in Hs. by apply sorted_app_lt in Hs as (_ & ? & _).
    + split; [by apply (ik_buf _ _ Hib)|done].
    + unfold in_meas. cbn. lia.
    + pose proof (ik_sorted _ _ Hib) as Hs. unfold in_events in Hs. cbn in Hs. apply sorted_app_lt in Hs as (Hs & _ & _). cbn in Htm. unfold ce_ts_max in Htm. rewrite <- Hz, fmap_last in Htm.
      apply fmap_Some in Htm as (x & Hx & ->). apply last_Some in Hx as [l Hl]. rewrite Hl in Hs |- *. apply sorted_app_lt in Hs as (_ & _ & Hs).
      intros e [He|He%list_elem_of_singleton]%elem_of_app; [|subst; lia]. apply Z.lt_le_incl, Hs; [done|by left].
    + intros j x e Hj Hx. apply lookup_lt_Some in Hx. apply Forall2_length in H2. cbn in H2. lia.
    + intros m. by apply ts_before_false.
  - destruct Hn as (H1 & H1' & Hne & Hle & Hall). destruct (Hget i1 t1 H1) as (evs & b & Hi & Hib & _ & Hmin). rewrite Hi. cbv zeta.
    fold (ts_before msp_next t2). destruct (ts_before msp_next t2) eqn:Hb; [by cbn; split; [|intros ->]|].
    destruct (lm_split_buf now evs b t2 t1 Hib Hmin Hle) as (b' & c & -> & Hlen & Hib' & Hc & Hev & Hct).
    rewrite (proj2 (Nat.eqb_neq _ _) Hlen). cbn [sitem2_data].
    apply (lm_gives_piece now msp_next inps i1 (mkInp evs (Some b)) (mkInp evs (Some b')) c t2); try done.
    + intros j x e Hj Hx He. destruct (Forall2_lookup_l _ _ _ _ _ H2 Hx) as (t & Ht & Hte). specialize (Hte e He). specialize (Hall j t Ht Hj). lia.
    + intros m. by apply ts_before_false.
Qed.

(** [check_inputs]. *)
Lemma lm_check_spec now msp_next inps : Forall (in_ok now) inps ->
  match lm_check_inputs db si now msp_next inps with
  | (inps', LoopBreak (Ready (Some (SOk (DataItem (Data (CheckItem c))))))) => lm_gives now msp_next inps c inps'
  | (inps', r) => Forall (in_ok now) inps' /\ ins_events inps' = ins_events inps /\ (ins_meas now inps' <= ins_meas now inps)%nat /\
      match r with
      | LoopBreak (Ready (Some (SOk (DataItem (Data OpenNextMsp))))) => msp_next = None -> inps' = []
      | LoopBreak (Ready (Some (SOk (Log _)))) => (ins_meas now inps' < ins_meas now inps)%nat
      | LoopBreak Pending => exists inp, inp ∈ inps' /\ in_waits now inp
      | _ => False
      end
  end.
Proof.
  intros Hok. unfold lm_check_inputs. cbn [lm_check_loop]. pose proof (lm_poll_all_spec 2 now inps 200 I ltac:(lia) Hok) as Hs.
  unfold lm_poll_all_inp. destruct (lm_poll_all_loop db si 200 now inps) as [inps1 r]. destruct Hs as (Hok1 & He & Hm & Hr).
  destruct r as [|[[[[[|[]]|l|]|]|]|]| |]; try done.
  destruct (lm_check_next_spec now msp_next inps1 Hok1 Hr) as (nt & -> & Hn).
  destruct (lm_check_next msp_next inps1 nt) as [inps2 r]. destruct r as [r|]; [|done]. destruct r as [|[[[[[|[|c]]|l|]|]|]|]| |]; try done.
  - destruct Hn as [-> Hn]. by repeat split.
  - destruct Hn. split; try done; [by rewrite <- He|lia].
Qed.

End LspMultiInputs.
