(* ===== verification/LspMultiRun.v ===== *)
(** * A poll of the merge of partitions

    [poll_state] of [lsp_fwd_msp_multi.rs]: its stages keep the events that are
    left, its loop ends within its limit, and a run of [LspFwdMspMulti] gives the
    events of its partitions in order of time. The time stands still during a poll. *)
From Stdlib Require Import ZArith Lia.
From stdpp Require Import base numbers option strings list sorting.
From S2P Require Import Prelude Items TimeTypes NetpodTypes Ranges Events StreamRun EvStore EvStoreProofs LspSingleProofs LspMulti LspMultiProofs.

#[local] Open Scope Z_scope.
#[local] Open Scope rust_scope.

Section LspMultiRun.
  Context {V DE St : Type} `{EventValueType V}.
  Context (db : EventsDb (V := V) (DE := DE)) (si : SeriesInfo) (st : EvStore V) (D : nat).
  Context (Hst : store_ok st) (Hdb : DbLaws db si st D).
  Context (range : ScyllaSeriesRange) (Hrange : range_ok range).

Local Abbreviation Single := (LspFwdMspSingleStream (V := V) (DE := DE) (St := St)).
Local Abbreviation Inp := (MultiInp (V := V) (DE := DE) (St := St)).
Local Abbreviation Merg := (Merging (V := V) (DE := DE) (St := St)).
Local Abbreviation Item := (Sitemty ReadLog St (multi_error (DE := DE)) (ContainerEvents V)).
Implicit Types (inp : Inp) (m : Merg).

(** ** The state *)

Definition msps_rest (o : option (ReadMspFwdStream (DE := DE))) : list Z := match o with Some s => mf_rest st s | None => [] end.
Definition all_events (msps : list Z) : list (Z * V) := concat (map (fun p => range_events st p range RexclNone) msps).
Definition po_events (po : list (Z * Single)) : list (Z * V) := concat (map (fun x => sg_events st x.2) po).

(** The events that are left. *)
Definition lm_events (m : Merg) : list (Z * V) :=
  ins_events st (lm_inps m) ++ po_events (lm_mspbuf_po m) ++ all_events (lm_mspbuf_re m ++ msps_rest (lm_msps m)).

Definition po_ok (now : nat) (buf_max : nat) (x : Z * Single) : Prop := sg_ok st D now x.2 /\ sg_msp x.2 = x.1 /\ sg_buf_max x.2 = buf_max.

(** The options with which the loops stay within their limits. *)
Definition lm_opts_ok (m : Merg) : Prop :=
  (1 <= lm_msp_reserve_min m /\ 1 <= lm_msp_preopen_min m /\ 1 <= lm_lsp_single_buf_max m /\
   3 + lm_msp_reserve_min m + lm_msp_preopen_min m * lm_lsp_single_buf_max m < 2000)%nat.

Record lm_ok (now : nat) (m : Merg) : Prop := {
  lk_opts : lm_opts_ok m;
  lk_po_len : (length (lm_mspbuf_po m) <= lm_msp_preopen_min m)%nat;
  lk_msps : forall s, lm_msps m = Some s -> mf_ok st D now s;
  lk_re : Forall msp_fits (lm_mspbuf_re m);
  lk_po : Forall (po_ok now (lm_lsp_single_buf_max m)) (lm_mspbuf_po m);
  lk_inps : Forall (in_ok st D now) (lm_inps m);
  lk_sorted : StronglySorted Z.le ((lm_mspbuf_po m).*1 ++ lm_mspbuf_re m ++ msps_rest (lm_msps m))
}.

(** ** What is left to do *)

Definition msp_meas (p : Z) : nat := (D + 3) * (4 * (length (range_events st p range RexclNone) + 1) + 1) + 4.
Definition msps_meas (now : nat) (o : option (ReadMspFwdStream (DE := DE))) : nat :=
  match o with Some s => S ((D + 3) * mf_work st s + mf_wait now s) | None => O end.
Definition po_meas (now : nat) (po : list (Z * Single)) : nat := sum_list_with (fun x => sg_meas st D now x.2 + 3)%nat po.

Definition lm_meas (now : nat) (m : Merg) : nat :=
  length (lm_events m) + msps_meas now (lm_msps m) + sum_list_with msp_meas (lm_mspbuf_re m ++ msps_rest (lm_msps m)) +
  po_meas now (lm_mspbuf_po m) + ins_meas st D now (lm_inps m).

Definition po_room (B : nat) (po : list (Z * Single)) : nat := sum_list_with (fun x => B - length (sg_outbuf x.2))%nat po.

(** A bound for the turns that are left in a poll. *)
Definition lm_phi (m : Merg) : nat :=
  (match lm_msps m with Some s => 1 + (if mf_ended s then 0 else 1) + (lm_msp_reserve_min m - length (lm_mspbuf_re m)) | None => 0 end) +
  po_room (lm_lsp_single_buf_max m) (lm_mspbuf_po m).

(** A stage that gives nothing away. *)
Definition lm_step (now : nat) (m m' : Merg) : Prop :=
  lm_ok now m' /\ lm_events m' = lm_events m /\ (lm_meas now m' <= lm_meas now m)%nat.

Lemma sum_list_with_later {A} (f g : A -> nat) l : (forall x, (g x <= f x)%nat) -> (sum_list_with g l <= sum_list_with f l)%nat.
Proof. intros Hf. induction l as [|x l IH]; cbn; [done|]. specialize (Hf x). lia. Qed.

Lemma msps_meas_later now o : (msps_meas (S now) o <= msps_meas now o)%nat.
Proof. unfold msps_meas, mf_wait. destruct o as [s|]; [|done]. destruct (mf_fut s); lia. Qed.
Lemma po_meas_later now po : (po_meas (S now) po <= po_meas now po)%nat.
Proof. apply sum_list_with_later. intros x. destruct (sg_meas_later st D now x.2). lia. Qed.
Lemma in_meas_later now inp : (in_meas st D (S now) inp <= in_meas st D now inp)%nat.
Proof. unfold in_meas. destruct (in_evs inp) as [s|]; [|done]. destruct (sg_meas_later st D now s). lia. Qed.
Lemma ins_meas_later now (inps : list Inp) : (ins_meas st D (S now) inps <= ins_meas st D now inps)%nat.
Proof. apply sum_list_with_later, in_meas_later. Qed.

Lemma lm_meas_mono now m : (lm_meas (S now) m <= lm_meas now m)%nat.
Proof.
  pose proof (msps_meas_later now (lm_msps m)). pose proof (po_meas_later now (lm_mspbuf_po m)). pose proof (ins_meas_later now (lm_inps m)).
  unfold lm_meas. lia.
Qed.

Lemma lm_meas_later now m :
  (msps_meas (S now) (lm_msps m) < msps_meas now (lm_msps m))%nat \/ (po_meas (S now) (lm_mspbuf_po m) < po_meas now (lm_mspbuf_po m))%nat \/
  (ins_meas st D (S now) (lm_inps m) < ins_meas st D now (lm_inps m))%nat -> (lm_meas (S now) m < lm_meas now m)%nat.
Proof.
  pose proof (msps_meas_later now (lm_msps m)). pose proof (po_meas_later now (lm_mspbuf_po m)). pose proof (ins_meas_later now (lm_inps m)).
  unfold lm_meas. lia.
Qed.

Lemma in_waits_later now (inps : list Inp) inp : inp ∈ inps -> in_waits db si now inp -> (ins_meas st D (S now) inps < ins_meas st D now inps)%nat.
Proof.
  intros (l1 & l2 & ->)%list_elem_of_split (Hb & s & Hs & _ & Hw). unfold ins_meas. rewrite !sum_list_with_app. cbn.
  pose proof (ins_meas_later now l1) as H1. pose proof (ins_meas_later now l2) as H2. unfold ins_meas in *. unfold in_meas at 2 5. rewrite Hs.
  destruct (sg_meas_later st D now s) as [_ Hlt]. specialize (Hlt Hw). lia.
Qed.

Lemma in_ok_later now inp : in_ok st D now inp -> in_ok st D (S now) inp.
Proof. intros []. split; try done. intros s Hs. by apply sg_ok_later, ik_evs. Qed.

Lemma lm_ok_later now m : lm_ok now m -> lm_ok (S now) m.
Proof.
  intros []. split; try done.
  - intros s Hs. by apply mf_ok_later, lk_msps0.
  - eapply Forall_impl; [exact lk_po0|]. intros x (? & ? & ?). split; [by apply sg_ok_later|done].
  - eapply Forall_impl; [exact lk_inps0|]. apply in_ok_later.
Qed.

(** ** The stream of partitions *)

(** What a poll leaves of the stream when there is no partition in reserve. *)
Definition msps_polled (now : nat) (o : option (ReadMspFwdStream (DE := DE))) : Prop :=
  match o with
  | None => True
  | Some s => mf_poll_next db (si_series si) now s = (s, LoopBreak Pending) \/ (mf_ended s = true /\ mf_fut s = None)
  end.

Lemma mf_pending_ended now s s' : mf_poll_next db (si_series si) now s = (s', LoopBreak Pending) -> mf_ended s' = mf_ended s.
Proof.
  assert (Hf : forall s0 f, mf_poll_fut now s0 f = (s', LoopBreak Pending) -> mf_ended s' = mf_ended s0).
  { intros s0 f. unfold mf_poll_fut. destruct (_ <=? _)%nat; [|by intros [= <-]]. destruct (f.2); [done|]. destruct (_ <? _); [done|]. by destruct (last _). }
  unfold mf_poll_next. destruct (mf_fut s); [apply Hf|]. destruct (_ <? _); [|done]. destruct (msp_fwd_exec _ _ _ _ _ _). apply Hf.
Qed.

Lemma lm_poll_msps_spec now m : lm_ok now m ->
  match lm_poll_msps db si now m with
  | (m', inl h) => lm_step now m m' /\ lm_mspbuf_po m' = lm_mspbuf_po m /\ lm_inps m' = lm_inps m /\ lm_msp_preopen_min m' = lm_msp_preopen_min m /\
      (lm_phi m' <= lm_phi m)%nat /\ (h.1 = true -> (lm_phi m' < lm_phi m)%nat) /\
      (h.2 = true -> (msps_meas (S now) (lm_msps m') < msps_meas now (lm_msps m'))%nat) /\
      (lm_mspbuf_re m' = [] -> msps_polled now (lm_msps m') /\ (lm_msps m' <> None -> h <> hpp_new))
  | _ => False
  end.
Proof.
  intros Hok. unfold lm_poll_msps. destruct (Nat.ltb_spec (length (lm_mspbuf_re m)) (lm_msp_reserve_min m)) as [Hlt|Hge].
  2: { split; [by split|]. do 6 (split; [done|]). intros Hre. rewrite Hre in Hge. cbn in Hge. destruct (lk_opts _ _ Hok). lia. }
  destruct (lm_msps m) as [s|] eqn:Hs.
  2: { split; [by split|]. rewrite Hs. do 6 (split; [done|]). by intros _. }
  assert (Hmf := lk_msps _ _ Hok s Hs). pose proof (mf_poll_spec db si st D Hst Hdb now s Hmf) as Hp.
  assert (Hstep : forall o v re, (forall s', o = Some s' -> mf_ok st D now s') -> mf_rest st s = v ++ msps_rest o ->
    re = lm_mspbuf_re m ++ v -> (msps_meas now o <= msps_meas now (Some s))%nat -> lm_step now m (lm_set_msps m o re)).
  { intros o v re Ho Hr -> Hm. assert (Hcat : (lm_mspbuf_re m ++ v) ++ msps_rest o = lm_mspbuf_re m ++ msps_rest (lm_msps m)).
    { rewrite Hs. cbn [msps_rest]. by rewrite Hr, app_assoc. }
    assert (Hev : lm_events (lm_set_msps m o (lm_mspbuf_re m ++ v)) = lm_events m) by (unfold lm_events; cbn; by rewrite Hcat).
    split; [|split; [done|]].
    - destruct Hok. split; try done.
      + cbn. apply Forall_app. split; [done|]. apply Forall_forall. intros y Hy.
        assert (Hy' : y ∈ mf_rest st s) by (rewrite Hr; apply elem_of_app; by left). unfold mf_rest in Hy'. destruct (_ <? _); [|by apply not_elem_of_nil in Hy'].
        apply elem_of_window in Hy' as [Hy' _]. by apply (msps_range st Hst).
      + cbn [lm_set_msps lm_mspbuf_po lm_mspbuf_re lm_msps]. by rewrite Hcat.
    - unfold lm_meas. rewrite Hev. cbn [lm_set_msps lm_mspbuf_po lm_mspbuf_re lm_msps lm_inps]. rewrite Hcat, Hs. lia. }
  assert (Hme : forall s', mf_ok st D now s' -> (mf_work st s' < mf_work st s)%nat -> (msps_meas now (Some s') <= msps_meas now (Some s))%nat).
  { intros s' Hs' Hw. pose proof (mf_wait_le st D now s' Hs'). unfold msps_meas. nia. }
  destruct (mf_poll_next db (si_series si) now s) as [s' [|[[[e|v]|]|]| |]] eqn:Hpoll; try done.
  - destruct Hp as (Hok' & Hr & Hv & Hf & He & Hw). split; [eapply Hstep; [by intros ? [= <-]|done|done|by apply Hme]|].
    assert (Hphi : (lm_phi (lm_set_msps m (Some s') (lm_mspbuf_re m ++ v)) < lm_phi m)%nat).
    { unfold lm_phi. cbn [lm_set_msps lm_mspbuf_po lm_mspbuf_re lm_msps lm_msp_reserve_min lm_lsp_single_buf_max]. rewrite Hs, He, length_app.
      destruct v as [|y v]; [rewrite (Hv eq_refl)|destruct (mf_ended s')]; cbn [length]; lia. }
    do 3 (split; [done|]). split; [lia|]. split; [done|]. split; [done|]. cbn [lm_set_msps lm_mspbuf_re lm_msps msps_polled].
    intros [_ ->]%app_nil. split; [by right; split; [apply Hv|]|done].
  - destruct Hp as (-> & Hr & Hf). split; [apply (Hstep None []); [done|by rewrite Hr|by rewrite app_nil_r|cbn; lia]|].
    assert (Hphi : (lm_phi (lm_set_msps m None (lm_mspbuf_re m)) < lm_phi m)%nat) by (unfold lm_phi; rewrite Hs; cbn [lm_set_msps lm_msps lm_mspbuf_po lm_lsp_single_buf_max]; lia).
    do 3 (split; [done|]). split; [lia|]. split; [done|]. split; [done|]. by intros _.
  - destruct Hp as (Hok' & Hr & Hwt & Hsame & Hw). split.
    { apply (Hstep (Some s') []); [by intros ? [= <-]|done|by rewrite app_nil_r|]. destruct Hw as [->|Hw]; [done|by apply Hme]. }
    do 3 (split; [done|]). split.
    { unfold lm_phi. cbn. rewrite Hs. assert (mf_ended s' = mf_ended s) as ->; [|done]. eapply mf_pending_ended; done. }
    split; [done|]. split; [|intros _; split; [by left|done]]. intros _. cbn. unfold mf_wait in *. destruct (mf_fut s'); lia.
Qed.

(** ** Opening partitions ahead *)

Lemma lm_preopen_spec now m : lm_ok now m ->
  match lm_preopen range m with
  | Some (m', item) => lm_step now m m' /\ (lm_meas now m' < lm_meas now m)%nat /\ exists l, item = SOk (Log l)
  | None => (lm_msp_preopen_min m <= length (lm_mspbuf_po m))%nat \/ lm_mspbuf_re m = []
  end.
Proof.
  intros Hok. unfold lm_preopen. destruct (Nat.ltb_spec (length (lm_mspbuf_po m)) (lm_msp_preopen_min m)) as [Hlt|Hge]; [|by left].
  destruct (lm_mspbuf_re m) as [|p re] eqn:Hre; [by right|]. cbv zeta. unfold MspEv_from_TsMs.
  pose proof (lk_re _ _ Hok) as Hfits. rewrite Hre in Hfits. apply Forall_cons_1 in Hfits as [Hp Hfits].
  destruct (sg_new_ok (DE := DE) (St := St) st D Hst now p range (lm_lsp_limit m) (lm_lsp_single_buf_max m) Hp Hrange) as [Hsg Hev]; [apply (lk_opts _ _ Hok)|].
  set (s := sg_new p range _ _) in *. set (m' := lm_set_re_po m re _).
  assert (He : lm_events m' = lm_events m).
  { unfold lm_events, po_events, all_events. rewrite Hre. cbn [m' lm_set_re_po lm_inps lm_mspbuf_po lm_mspbuf_re lm_msps].
    rewrite map_app, concat_app. cbn [map concat app snd fst]. by rewrite Hev, app_nil_r, <- !app_assoc. }
  assert (Hm : (lm_meas now m' < lm_meas now m)%nat).
  { unfold lm_meas. rewrite He, Hre. cbn [m' lm_set_re_po lm_inps lm_mspbuf_po lm_mspbuf_re lm_msps]. unfold po_meas. rewrite !sum_list_with_app.
    assert (sg_meas st D now s + 3 < msp_meas p)%nat; [|cbn [app sum_list_with snd]; lia].
    unfold sg_meas, msp_meas, sg_work. change (sg_rest st s) with (range_events st p range RexclNone). change (sg_wait now s) with O. cbn [s sg_new sg_done sg_fut sg_outbuf length].
    rewrite bool_decide_true by done. lia. }
  split; [|split; [done|by eexists]]. split; [|split; [done|lia]].
  destruct Hok. split; try done; cbn [m' lm_set_re_po lm_inps lm_mspbuf_po lm_mspbuf_re lm_msps lm_msp_preopen_min lm_lsp_single_buf_max].
  - rewrite length_app. cbn. lia.
  - apply Forall_app. split; [done|]. apply Forall_singleton. by split.
  - rewrite Hre in lk_sorted0. rewrite fmap_app, <- app_assoc. cbn. exact lk_sorted0.
Qed.

(** ** Polls into the buffers *)

Lemma po_events_cons x po : po_events (x :: po) = sg_events st x.2 ++ po_events po.
Proof. done. Qed.

Lemma lm_buffer_po_spec now B po : Forall (po_ok now B) po ->
  match lm_buffer_po db si now po with
  | (po', inl h) => Forall (po_ok now B) po' /\ po'.*1 = po.*1 /\ po_events po' = po_events po /\ (po_meas now po' <= po_meas now po)%nat /\
      (po_room B po' <= po_room B po)%nat /\ (h.1 = true -> (po_room B po' < po_room B po)%nat) /\
      (h.2 = true -> (po_meas (S now) po' < po_meas now po')%nat)
  | _ => False
  end.
Proof.
  induction 1 as [|[p s] po (Hok & Hmsp & HB) Hpo IH]; [by repeat constructor|]. cbn [fst snd] in *.
  pose proof (sg_buffer_spec db si st D Hst Hdb now s Hok) as Hs. cbn [lm_buffer_po].
  assert (Hnext : forall s' (h : Hpp), sg_ok st D now s' -> sg_msp s' = sg_msp s -> sg_events st s' = sg_events st s -> sg_buf_max s' = sg_buf_max s ->
    (sg_meas st D now s' <= sg_meas st D now s)%nat -> (B - length (sg_outbuf s') <= B - length (sg_outbuf s))%nat ->
    (h.1 = true -> B - length (sg_outbuf s') < B - length (sg_outbuf s))%nat -> (h.2 = true -> 0 < sg_wait now s')%nat ->
    match (match lm_buffer_po db si now po with (po, inl h') => ((p, s') :: po, inl (hpp_merge h h')) | (po, inr r) => ((p, s') :: po, inr r) end
      : list (Z * Single) * (Hpp + loop_flow Item)) with
    | (po', inl h) => Forall (po_ok now B) po' /\ po'.*1 = ((p, s) :: po).*1 /\ po_events po' = po_events ((p, s) :: po) /\ (po_meas now po' <= po_meas now ((p, s) :: po))%nat /\
      (po_room B po' <= po_room B ((p, s) :: po))%nat /\ (h.1 = true -> (po_room B po' < po_room B ((p, s) :: po))%nat) /\
      (h.2 = true -> (po_meas (S now) po' < po_meas now po')%nat)
    | _ => False
    end).
  { intros s' h Hok' Hm He Hb Hme Hr Hr1 Hw. destruct (lm_buffer_po db si now po) as [po' [h'|r]]; [|done]. destruct IH as (H1 & H2 & H3 & H4 & H5 & H6 & H7).
    split; [constructor; [|done]; unfold po_ok; cbn; by rewrite Hm, Hb|]. split; [cbn; by rewrite H2|]. rewrite !po_events_cons. cbn [snd]. split; [by rewrite He, H3|].
    pose proof (po_meas_later now po') as Hl. destruct (sg_meas_later st D now s') as [Hl1 Hl2].
    unfold po_meas, po_room in *. cbn [sum_list_with snd]. unfold hpp_merge. cbn [fst snd]. split; [lia|]. split; [lia|].
    split; intros [Hh|Hh]%orb_true_iff; [specialize (Hr1 Hh)|specialize (H6 Hh)|specialize (Hl2 (Hw Hh))|specialize (H7 Hh)]; lia. }
  destruct (sg_poll_to_buffer db si now s) as [s' [|[[[e|u]|]|]| |]] eqn:Hp; try done.
  - destruct Hs as (? & ? & ? & (c & _ & Ho) & ? & ? & ? & Hw). apply (Hnext s' hpp_progress); try done.
    + apply (sg_meas_lt st D now) in Hw; [lia|done].
    + rewrite Ho, length_app. lia.
    + intros _. rewrite Ho, length_app. cbn. lia.
  - destruct Hs as (? & ? & ? & Ho & ? & _ & _ & Hw). apply (Hnext s' hpp_new); try done; [by apply sg_meas_le|by rewrite Ho].
  - destruct Hs as (? & ? & ? & Ho & ? & ? & _ & Hw). apply (Hnext s' hpp_pending); try done; [by apply sg_meas_le|by rewrite Ho].
Qed.

Lemma lm_buffer_inps_spec now (inps : list Inp) : Forall (in_ok st D now) inps ->
  match lm_buffer_inps db si now inps with
  | (inps', inl h) => Forall (in_ok st D now) inps' /\ ins_events st inps' = ins_events st inps /\ (ins_meas st D now inps' <= ins_meas st D now inps)%nat /\
      h.1 = false /\ (h.2 = true -> (ins_meas st D (S now) inps' < ins_meas st D now inps')%nat)
  | _ => False
  end.
Proof.
  induction 1 as [|inp inps Hi Hinps IH]; [by repeat constructor|]. cbn [lm_buffer_inps].
  assert (Hnext : forall inp' (h : Hpp), in_ok st D now inp' -> in_events st inp' = in_events st inp -> (in_meas st D now inp' <= in_meas st D now inp)%nat -> h.1 = false ->
    (h.2 = true -> in_meas st D (S now) inp' < in_meas st D now inp')%nat ->
    match (match lm_buffer_inps db si now inps with (inps, inl h') => (inp' :: inps, inl (hpp_merge h h')) | (inps, inr r) => (inp' :: inps, inr r) end
      : list Inp * (Hpp + loop_flow Item)) with
    | (inps', inl h) => Forall (in_ok st D now) inps' /\ ins_events st inps' = ins_events st (inp :: inps) /\ (ins_meas st D now inps' <= ins_meas st D now (inp :: inps))%nat /\
      h.1 = false /\ (h.2 = true -> (ins_meas st D (S now) inps' < ins_meas st D now inps')%nat)
    | _ => False
    end).
  { intros inp' h Hok He Hm H1 Hw. destruct (lm_buffer_inps db si now inps) as [inps' [h'|r]]; [|done]. destruct IH as (G1 & G2 & G3 & G4 & G5).
    pose proof (ins_meas_later now inps') as Hl. pose proof (in_meas_later now inp') as Hl1.
    split; [by constructor|]. unfold ins_events, ins_meas in *. cbn [map concat sum_list_with]. split; [by rewrite He, G2|]. unfold hpp_merge. cbn [fst snd].
    split; [lia|]. split; [by rewrite H1, G4|]. intros [Hh|Hh]%orb_true_iff; [specialize (Hw Hh)|specialize (G5 Hh)]; lia. }
  destruct inp as [evs buf]. cbn [in_evs in_buf]. destruct evs as [s|].
  2: { by apply (Hnext _ hpp_new). }
  pose proof (sg_buffer_spec db si st D Hst Hdb now s (ik_evs _ _ _ _ Hi s eq_refl)) as Hs.
  assert (Hok' : forall s' : Single, sg_ok st D now s' -> sg_events st s' = sg_events st s ->
    in_ok st D now (mkInp (Some s') buf) /\ in_events st (mkInp (Some s') buf) = in_events st (mkInp (Some s) buf)).
  { intros s' Hok' He. apply and_comm. assert (Heq : in_events st (mkInp (Some s') buf) = in_events st (mkInp (Some s) buf)) by (unfold in_events; cbn [in_evs in_buf evs_events]; by rewrite He).
    split; [done|]. split; [by intros ? [= <-]|apply (ik_buf _ _ _ _ Hi)|rewrite Heq; apply (ik_sorted _ _ _ _ Hi)]. }
  destruct (sg_poll_to_buffer db si now s) as [s' [|[[[e|u]|]|]| |]] eqn:Hp; try done.
  - destruct Hs as (Hok & _ & He & _ & _ & _ & _ & Hw). destruct (Hok' s' Hok He). apply (Hnext _ hpp_new); try done.
    unfold in_meas. cbn [in_evs in_buf]. apply (sg_meas_lt st D now) in Hw; [lia|done].
  - destruct Hs as (Hok & _ & He & _ & _ & _ & _ & Hw). destruct (Hok' s' Hok He). apply (Hnext _ hpp_new); try done.
    unfold in_meas. cbn [in_evs in_buf]. apply (sg_meas_le st D now) in Hw; [lia|done].
  - destruct Hs as (Hok & _ & He & _ & _ & Hwt & _ & Hw). destruct (Hok' s' Hok He). apply (Hnext _ hpp_pending); try done.
    + unfold in_meas. cbn [in_evs in_buf]. apply (sg_meas_le st D now) in Hw; [lia|done].
    + intros _. unfold in_meas. cbn [in_evs in_buf]. destruct (sg_meas_later st D now s') as [_ Hl]. specialize (Hl Hwt). lia.
Qed.

(** ** The merge *)

(** A piece [c] is put out. *)
Record lm_out (now : nat) (m : Merg) (c : ContainerEvents V) (m' : Merg) : Prop := {
  lo_ok : lm_ok now m';
  lo_data : data_ok c;
  lo_events : lm_events m ≡ₚ ce_iter_zip c ++ lm_events m';
  lo_sorted : StronglySorted Z.lt (ce_iter_zip c).*1;
  lo_first : le_all (ce_iter_zip c) (lm_events m');
  lo_meas : (lm_meas now m' < lm_meas now m)%nat
}.

Lemma lm_set_inps_ok now m inps : lm_ok now m -> Forall (in_ok st D now) inps -> lm_ok now (lm_set_inps m inps).
Proof. by intros [] ?; split. Qed.

Lemma lm_set_inps_step now m inps : lm_ok now m -> Forall (in_ok st D now) inps -> ins_events st inps = ins_events st (lm_inps m) ->
  (ins_meas st D now inps <= ins_meas st D now (lm_inps m))%nat -> lm_step now m (lm_set_inps m inps).
Proof.
  intros Hok Hi He Hm. assert (Hev : lm_events (lm_set_inps m inps) = lm_events m) by (unfold lm_events; cbn [lm_set_inps lm_inps lm_mspbuf_po lm_mspbuf_re lm_msps]; by rewrite He).
  split; [by apply lm_set_inps_ok|]. split; [done|]. unfold lm_meas. rewrite Hev. cbn [lm_set_inps lm_inps lm_mspbuf_po lm_mspbuf_re lm_msps]. lia.
Qed.

Lemma msp_ns p : msp_fits p -> TsMs_ns p = p * 1000000.
Proof. intros [Hp0 Hp1]. unfold TsMs_ns, TsNano_from_ms. rewrite u64_mul_small; lia. Qed.

(** What is not in the inputs yet comes after the msp that they are checked against. *)
Lemma lm_unopened now m mn : lm_ok now m -> lm_msp_next m = Some mn ->
  match mn with
  | Some p => forall e, e ∈ po_events (lm_mspbuf_po m) ++ all_events (lm_mspbuf_re m ++ msps_rest (lm_msps m)) -> TsMs_ns p <= e.1
  | None => lm_msps m = None /\ lm_mspbuf_po m = [] /\ lm_mspbuf_re m = []
  end.
Proof.
  intros Hok. unfold lm_msp_next. destruct (lm_mspbuf_po m) as [|[p s] po] eqn:Hpo.
  { destruct (lm_msps m); [done|]. destruct (Nat.eqb_spec (length (lm_mspbuf_re m)) 0) as [Hl|]; [|done]. intros [= <-]. apply length_zero_iff_nil in Hl. done. }
  intros [= <-] e He. pose proof (lk_sorted _ _ Hok) as Hs. pose proof (lk_po _ _ Hok) as Hp. rewrite Hpo in Hs, Hp. cbn [fst] in *.
  assert (Hpf : msp_fits p). { apply Forall_cons_1 in Hp as [(Hsg & Hm & _) _]. cbn in Hsg, Hm. rewrite <- Hm. apply (sk_msp _ _ _ _ Hsg). }
  rewrite (msp_ns p Hpf). apply StronglySorted_inv in Hs as [_ Hs]. rewrite Forall_forall in Hs. rewrite Forall_forall in Hp.
  apply elem_of_app in He as [He|He]; apply concat_elem in He as (i & x & Hx & He); apply list_elem_of_lookup_2 in Hx.
  - destruct (Hp x Hx) as (Hsg & Hm & _). pose proof (sk_lower _ _ _ _ Hsg) as Hl. rewrite Forall_forall in Hl. specialize (Hl e He). cbn in Hl. rewrite Hm in Hl.
    apply elem_of_cons in Hx as [->|Hx]; [done|]. assert (p <= x.1); [|lia]. apply Hs. apply elem_of_app. left. by apply list_elem_of_fmap_2.
  - apply elem_of_window in He as [He _]. apply (msp_events_lower st Hst) in He. assert (p <= x); [|lia]. apply Hs. apply elem_of_app. by right.
Qed.

Lemma lm_gives_out now m mn c inps : lm_ok now m -> lm_msp_next m = Some mn -> lm_gives st D now mn (lm_inps m) c inps -> lm_out now m c (lm_set_inps m inps).
Proof.
  intros Hok Hmn [Hi Hd He Hs Hf Hn Hm]. pose proof (lm_unopened now m mn Hok Hmn) as Hun.
  assert (Hev : lm_events m ≡ₚ ce_iter_zip c ++ lm_events (lm_set_inps m inps)).
  { unfold lm_events. cbn [lm_set_inps lm_inps lm_mspbuf_po lm_mspbuf_re lm_msps]. by rewrite He, <- app_assoc. }
  assert (Hlen : (0 < length (ce_iter_zip c))%nat) by (destruct Hd as [_ Hd]; by destruct (ce_iter_zip c); [|cbn; lia]).
  split; [by apply lm_set_inps_ok|done|done|done| |].
  - intros a b Ha. unfold lm_events. cbn [lm_set_inps lm_inps lm_mspbuf_po lm_mspbuf_re lm_msps].
    intros [Hb|Hb]%elem_of_app; [by apply Hf|]. destruct mn as [p|].
    + specialize (Hun b Hb). specialize (Hn p a eq_refl Ha). lia.
    + destruct Hun as (H1 & H2 & H3). rewrite H1, H2, H3 in Hb. by apply not_elem_of_nil in Hb.
  - apply Permutation_length in Hev. rewrite length_app in Hev. unfold lm_meas. cbn [lm_set_inps lm_inps lm_mspbuf_po lm_mspbuf_re lm_msps] in *. lia.
Qed.

Lemma lm_poll_state_2_spec now m : lm_ok now m ->
  match lm_poll_state_2 db si now m with
  | (m', LoopBreak (Ready (Some (SOk (DataItem (Data c)))))) => (exists inps, m' = lm_set_inps m inps) /\ lm_out now m c m'
  | (m', LoopBreak (Ready (Some (SOk (Log _))))) => lm_step now m m' /\ (lm_meas now m' < lm_meas now m)%nat /\ (lm_phi m' <= lm_phi m)%nat
  | (m', LoopBreak Pending) => lm_step now m m' /\ (lm_meas (S now) m' < lm_meas now m')%nat /\ lm_phi m' = lm_phi m
  | (m', LoopBreak (Ready None)) =>
      (m' = m /\ lm_msp_next m = None) \/
      (lm_step now m m' /\ lm_events m' = [] /\ lm_meas (S now) m' = 0%nat /\ lm_phi m' = lm_phi m)
  | _ => False
  end.
Proof.
  intros Hok. unfold lm_poll_state_2. destruct (lm_msp_next m) as [mn|] eqn:Hmn; [|by left].
  pose proof (lm_check_spec db si st D Hst Hdb now mn (lm_inps m) (lk_inps _ _ Hok)) as Hs.
  destruct (lm_check_inputs db si now mn (lm_inps m)) as [inps r].
  assert (Hset : Forall (in_ok st D now) inps -> ins_events st inps = ins_events st (lm_inps m) ->
    (ins_meas st D now inps <= ins_meas st D now (lm_inps m))%nat -> lm_step now m (lm_set_inps m inps)) by (intros; by apply lm_set_inps_step).
  destruct r as [|[[[[[|[|c]]|l|]|]|]|]| |]; try (by destruct Hs as (_ & _ & _ & [])).
  - destruct Hs as (Hi & He & Hm & Hn). specialize (Hset Hi He Hm). cbn [lm_set_inps lm_mspbuf_po lm_mspbuf_re].
    destruct (lm_mspbuf_po m) as [|[p s] po] eqn:Hpo.
    + pose proof (lm_unopened now m mn Hok Hmn) as Hun. unfold lm_msp_next in Hmn. rewrite Hpo in Hmn. destruct (lm_msps m) eqn:Hms; [done|].
      destruct (Nat.eqb_spec (length (lm_mspbuf_re m)) 0) as [Hl|]; [|done]. injection Hmn as <-. destruct Hun as (_ & _ & Hre).
      right. rewrite (Hn eq_refl). rewrite (Hn eq_refl) in Hset. split; [done|].
      assert (Hev : lm_events (lm_set_inps m []) = []) by (unfold lm_events; cbn [lm_set_inps lm_inps lm_mspbuf_po lm_mspbuf_re lm_msps]; by rewrite Hpo, Hre, Hms).
      split; [done|]. split; [|done]. unfold lm_meas. rewrite Hev. cbn [lm_set_inps lm_inps lm_mspbuf_po lm_mspbuf_re lm_msps]. by rewrite Hpo, Hre, Hms.
    + destruct Hset as (Hok2 & Hev & Hme). pose proof (lk_po _ _ Hok) as Hpok. rewrite Hpo in Hpok. apply Forall_cons_1 in Hpok as [(Hsg & Hsm & HB) Hpok]. cbn [fst snd] in *.
      set (inp := mkInp (Some s) None). set (m' := lm_set_inps (lm_set_re_po _ _ _) _).
      assert (Hev' : lm_events m' = lm_events (lm_set_inps m inps)).
      { unfold lm_events, ins_events. cbn [m' lm_set_inps lm_set_re_po lm_inps lm_mspbuf_po lm_mspbuf_re lm_msps]. rewrite map_app, concat_app, Hpo, po_events_cons.
        cbn [map concat snd]. rewrite app_nil_r, <- !app_assoc. done. }
      assert (Hme' : (lm_meas now m' < lm_meas now (lm_set_inps m inps))%nat).
      { unfold lm_meas. rewrite Hev'. cbn [m' lm_set_inps lm_set_re_po lm_inps lm_mspbuf_po lm_mspbuf_re lm_msps]. rewrite Hpo. unfold po_meas, ins_meas.
        assert (in_meas st D now inp = S (sg_meas st D now s)) by (unfold in_meas; cbn [inp in_evs in_buf]; lia).
        rewrite !sum_list_with_app. cbn [sum_list_with snd]. lia. }
      split; [|split; [lia|]].
      * split; [|split; [congruence|lia]]. destruct Hok2. split; try done; cbn [m' lm_set_inps lm_set_re_po lm_inps lm_mspbuf_po lm_mspbuf_re lm_msps lm_msp_preopen_min lm_lsp_single_buf_max] in *.
        -- rewrite Hpo in lk_po_len0. cbn in lk_po_len0. lia.
        -- apply Forall_app. split; [done|]. apply Forall_singleton. split; cbn; [by intros ? [= <-]|done|apply (sk_sorted _ _ _ _ Hsg)].
        -- rewrite Hpo in lk_sorted0. cbn in lk_sorted0. by apply StronglySorted_inv in lk_sorted0 as [? _].
      * unfold lm_phi. cbn [m' lm_set_inps lm_set_re_po lm_inps lm_mspbuf_po lm_mspbuf_re lm_msps lm_msp_reserve_min lm_lsp_single_buf_max]. rewrite Hpo. unfold po_room. cbn [sum_list_with]. lia.
  - cbn [sitem2_data]. split; [by eexists|]. by eapply lm_gives_out.
  - destruct Hs as (Hi & He & Hm & Hlt). specialize (Hset Hi He Hm). split; [done|]. split; [|done]. destruct Hset as (_ & Hev & _).
    unfold lm_meas. rewrite Hev. cbn [lm_set_inps lm_inps lm_mspbuf_po lm_mspbuf_re lm_msps]. lia.
  - destruct Hs as (Hi & He & Hm & inp & Hin & Hw). specialize (Hset Hi He Hm). split; [done|]. split; [|done]. apply lm_meas_later. right. right. by eapply in_waits_later.
Qed.

End LspMultiRun.
