(* ===== verification/LspMultiReads.v ===== *)
(** * The events that the merge of partitions gives

    The loop of [poll_state] of [lsp_fwd_msp_multi.rs], and a run of
    [LspFwdMspMulti]: all events of the partitions in the range, in order of time.
    This needs a clock that stands still during a poll ([lm_reads]): with one that
    goes on, an item that was taken from the merge is lost when the request for
    partitions is answered in between ([lm_loses]). *)
From Stdlib Require Import ZArith Lia.
From stdpp Require Import base numbers option strings list sorting.
From S2P Require Import Prelude Items TimeTypes NetpodTypes Ranges Events StreamRun EvStore EvStoreProofs LspSingleProofs LspMulti LspMultiProofs LspMultiRun.

#[local] Open Scope Z_scope.
#[local] Open Scope rust_scope.

Section LspMultiReads.
  Context {V DE St : Type} `{EventValueType V}.
  Context (db : EventsDb (V := V) (DE := DE)) (si : SeriesInfo) (st : EvStore V) (D : nat).
  Context (Hst : store_ok st) (Hdb : DbLaws db si st D).
  Context (range : ScyllaSeriesRange) (Hrange : range_ok range).

Local Abbreviation Merg := (Merging (V := V) (DE := DE) (St := St)).
Local Abbreviation Item := (Sitemty ReadLog St (multi_error (DE := DE)) (ContainerEvents V)).
Local Abbreviation lm_ok := (lm_ok st D).
Local Abbreviation lm_step := (lm_step st D range).
Local Abbreviation lm_events := (lm_events st range).
Local Abbreviation lm_meas := (lm_meas st D range).
Local Abbreviation lm_out := (lm_out st D range).
Implicit Types (m : Merg) (ret : option Item) (h : Hpp).

(** ** A turn *)

(** The part of a turn after the polls into the buffers. *)
Definition lm_finish (m : Merg) (h : Hpp) (ret : option Item) : Merg * (option Item + loop_flow Item) :=
  if h.1 : bool then (m, inl ret)
  else
    match ret with
    | Some x => (m, inr (LoopBreak (Ready (Some x))))
    | None => if h.2 : bool then (m, inr (LoopBreak Pending)) else (m, inr (LoopBreak (Ready None)))
    end.

Definition lm_back (now : nat) (ret : option Item) (m : Merg) (h : Hpp) : Merg * (option Item + loop_flow Item) :=
  match ret with
  | Some x => lm_finish m h ret
  | None =>
      match lm_poll_state_2 db si now m with
      | (m, LoopBreak (Ready (Some (SOk x)))) => lm_finish m (hpp_merge h hpp_progress) (Some (SOk x))
      | (m, LoopBreak (Ready (Some (SErr e)))) => (m, inr (LoopBreak (Ready (Some (SErr e)))))
      | (m, LoopBreak (Ready None)) => lm_finish m h None
      | (m, LoopBreak Pending) => lm_finish m (hpp_merge h hpp_pending) None
      | (m, LoopContinue) | (m, LoopFuel) => (m, inr LoopFuel)
      | (m, LoopPanic) => (m, inr LoopPanic)
      end
  end.

(** No partition will be opened ahead, now and in the next turns. *)
Definition lm_full (m : Merg) : Prop := (lm_msp_preopen_min m <= length (lm_mspbuf_po m))%nat \/ lm_mspbuf_re m = [].
Definition lm_settled (now : nat) (m : Merg) : Prop :=
  (lm_msp_preopen_min m <= length (lm_mspbuf_po m))%nat \/ (lm_mspbuf_re m = [] /\ msps_polled db si now (lm_msps m)).

Record lm_front (now : nat) (m : Merg) (h : Hpp) (m' : Merg) : Prop := {
  fr_step : lm_step now m m';
  fr_phi : (lm_phi m' <= lm_phi m)%nat;
  fr_phi_lt : h.1 = true -> (lm_phi m' < lm_phi m)%nat;
  fr_later : h.2 = true -> (lm_meas (S now) m' < lm_meas now m')%nat;
  fr_settled : lm_settled now m';
  fr_next : lm_msp_next m' = None -> h.1 = true \/ h.2 = true
}.

Lemma lm_step_trans now m1 m2 m3 : lm_step now m1 m2 -> lm_step now m2 m3 -> lm_step now m1 m3.
Proof. intros (_ & E1 & M1) (Hok & E2 & M2). split; [done|]. split; [by rewrite E2|lia]. Qed.

Lemma lm_settled_full now m m' h : lm_ok now m -> lm_settled now m -> lm_poll_msps db si now m = (m', inl h) -> lm_full m'.
Proof.
  intros Hok Hs Hp. pose proof (lm_poll_msps_spec db si st D Hst Hdb range now m Hok) as Hsp. rewrite Hp in Hsp. destruct Hsp as (_ & Hpo & _ & Hpre & _).
  destruct Hs as [Hs|[Hre Hs]]; [left; by rewrite Hpo, Hpre|right]. unfold lm_poll_msps in Hp. rewrite Hre in Hp.
  destruct (_ <? _)%nat; [|by injection Hp as <-]. unfold msps_polled in Hs. destruct (lm_msps m) as [s|]; [|by injection Hp as <-].
  destruct Hs as [Hs|[He Hf]]; [rewrite Hs in Hp; by injection Hp as <-|].
  unfold mf_poll_next in Hp. unfold mf_ended in He. rewrite Hf in Hp. apply negb_true_iff in He. rewrite He in Hp. by injection Hp as <-.
Qed.

(** A turn opens a partition ahead, or it comes to the merge. *)
Lemma lm_turn_front now ret m : lm_ok now m ->
  (exists m' l, lm_state_turn db si range now ret m = (m', inr (LoopBreak (Ready (Some (SOk (Log l)))))) /\
     lm_step now m m' /\ (lm_meas now m' < lm_meas now m)%nat /\ ~ lm_settled now m) \/
  (exists m' h, lm_state_turn db si range now ret m = lm_back now ret m' h /\ lm_front now m h m').
Proof.
  intros Hok. unfold lm_state_turn. pose proof (lm_poll_msps_spec db si st D Hst Hdb range now m Hok) as Hs.
  pose proof (lm_settled_full now m) as Hset.
  destruct (lm_poll_msps db si now m) as [m1 [h1|r]]; [|done]. destruct Hs as (Hst1 & Hpo1 & _ & Hpre1 & Hphi1 & Hlt1 & Hw1 & Hre1).
  assert (Hok1 : lm_ok now m1) by apply Hst1. pose proof (lm_preopen_spec st D Hst range Hrange now m1 Hok1) as Hp. destruct (lm_preopen range m1) as [[m2 item]|] eqn:Hpre.
  { left. destruct Hp as (Hst2 & Hme & l & ->). exists m2, l. split; [done|]. split; [by eapply lm_step_trans|]. split; [destruct Hst1 as (_ & _ & ?); lia|].
    intros Hse. destruct (Hset _ _ Hok Hse eq_refl) as [Hf|Hf]; unfold lm_preopen in Hpre; [rewrite (proj2 (Nat.ltb_ge _ _) Hf) in Hpre; done|].
    rewrite Hf in Hpre. by destruct (_ <? _)%nat. }
  right. change (lm_full m1) in Hp.
  pose proof (lm_buffer_po_spec db si st D Hst Hdb now (lm_lsp_single_buf_max m1) (lm_mspbuf_po m1) (lk_po _ _ _ _ Hok1)) as Hb.
  destruct (lm_buffer_po db si now (lm_mspbuf_po m1)) as [po [h2|r]]; [|done]. destruct Hb as (Hpok & Hpm & Hpe & Hpme & Hproom & Hproom1 & Hpw).
  pose proof (lm_buffer_inps_spec db si st D Hst Hdb now (lm_inps m1) (lk_inps _ _ _ _ Hok1)) as Hb. cbn [lm_set_re_po lm_inps].
  destruct (lm_buffer_inps db si now (lm_inps m1)) as [inps [h3|r]]; [|done]. destruct Hb as (Hiok & Hie & Hime & Hi1 & Hiw).
  set (m3 := lm_set_inps (lm_set_re_po m1 (lm_mspbuf_re m1) po) inps). exists m3, (hpp_merge h1 (hpp_merge h2 h3)). split; [done|].
  assert (Hev : lm_events m3 = lm_events m1).
  { unfold LspMultiRun.lm_events. cbn [m3 lm_set_inps lm_set_re_po lm_inps lm_mspbuf_po lm_mspbuf_re lm_msps]. by rewrite Hie, Hpe. }
  assert (Hphi : (lm_phi m3 <= lm_phi m1)%nat /\ (h2.1 = true -> lm_phi m3 < lm_phi m1)%nat).
  { unfold lm_phi. cbn [m3 lm_set_inps lm_set_re_po lm_inps lm_mspbuf_po lm_mspbuf_re lm_msps lm_msp_reserve_min lm_lsp_single_buf_max].
    split; [lia|]. intros Hh. specialize (Hproom1 Hh). lia. }
  assert (Hlen : length po = length (lm_mspbuf_po m1)) by (apply (f_equal length) in Hpm; by rewrite !length_fmap in Hpm).
  assert (Hset3 : lm_settled now m3).
  { unfold lm_settled. cbn [m3 lm_set_inps lm_set_re_po lm_mspbuf_po lm_mspbuf_re lm_msps lm_msp_preopen_min]. rewrite Hlen.
    destruct Hp as [Hp|Hp]; [by left|right; split; [done|by apply Hre1]]. }
  split.
  - apply (lm_step_trans _ _ m1); [done|]. split; [|split; [done|]].
    + destruct Hok1. split; try done; cbn [m3 lm_set_inps lm_set_re_po lm_inps lm_mspbuf_po lm_mspbuf_re lm_msps lm_msp_preopen_min]; [by rewrite Hlen|by rewrite Hpm].
    + unfold LspMultiRun.lm_meas. rewrite Hev. cbn [m3 lm_set_inps lm_set_re_po lm_inps lm_mspbuf_po lm_mspbuf_re lm_msps]. lia.
  - lia.
  - unfold hpp_merge. cbn [fst]. rewrite Hi1, orb_false_r. destruct Hphi as [Hphi Hphi']. intros [Hh|Hh]%orb_true_iff; [specialize (Hlt1 Hh); lia|specialize (Hphi' Hh); lia].
  - unfold hpp_merge. cbn [snd]. intros Hh. apply lm_meas_later. cbn [m3 lm_set_inps lm_set_re_po lm_inps lm_mspbuf_po lm_msps].
    apply orb_true_iff in Hh as [Hh|[Hh|Hh]%orb_true_iff]; auto.
  - done.
  - intros Hn. assert (Hh : h1.1 = true \/ h1.2 = true); [|unfold hpp_merge; cbn [fst snd]; destruct Hh as [->| ->]; auto].
    unfold lm_msp_next in Hn. cbn [m3 lm_set_inps lm_set_re_po lm_mspbuf_po lm_mspbuf_re lm_msps] in Hn. destruct po as [|x po]; [|done].
    assert (Hre : lm_mspbuf_re m1 = []).
    { destruct Hp as [Hp|Hp]; [|done]. rewrite <- Hlen in Hp. cbn in Hp. destruct (lk_opts _ _ _ _ Hok1). lia. }
    destruct (Hre1 Hre) as [_ Hnew]. rewrite Hre in Hn. destruct (lm_msps m1); [|done].
    destruct h1 as [[] []]; cbn; auto. by destruct (Hnew ltac:(done)).
Qed.

(** ** The loop *)

(** What was taken from [m0] so far, with the item that will be returned. *)
Definition lm_taken (now : nat) (m0 : Merg) (ret : option Item) (m : Merg) : Prop :=
  match ret with
  | None => lm_step now m0 m
  | Some (SOk (Log _)) => lm_step now m0 m /\ (lm_meas now m < lm_meas now m0)%nat
  | Some (SOk (DataItem (Data c))) => lm_out now m0 c m
  | _ => False
  end.

Definition is_data (ret : option Item) : Prop := match ret with Some (SOk (DataItem _)) => True | _ => False end.
Definition ret_open (ret : option Item) : nat := match ret with None => 1 | Some _ => 0 end.

Lemma lm_taken_ok now m0 ret m : lm_taken now m0 ret m -> lm_ok now m.
Proof. destruct ret as [[[[|c]|l|]|]|]; cbn; try done; [apply lo_ok|by intros [[? _] _]|by intros [? _]]. Qed.

Lemma lm_taken_step now m0 ret m m' : lm_taken now m0 ret m -> lm_step now m m' -> lm_taken now m0 ret m'.
Proof.
  intros Ht Hs. assert (Hs' := Hs). destruct Hs' as (Hok & He & Hm). destruct ret as [[[[|c]|l|]|]|]; cbn in *; try done.
  - destruct Ht as [_ H1 H2 H3 H4 H5]. split; try done; [by rewrite He|by rewrite He|lia].
  - destruct Ht as [Ht Hlt]. split; [by eapply lm_step_trans|lia].
  - by eapply lm_step_trans.
Qed.

Lemma lm_out_after now m0 m c m' : lm_step now m0 m -> lm_out now m c m' -> lm_out now m0 c m'.
Proof. intros (_ & He & Hm) [H0 H1 H2 H3 H4 H5]. split; try done; [by rewrite <- He|lia]. Qed.

Definition lm_turned (now : nat) (m0 m : Merg) (ret : option Item) (r : Merg * (option Item + loop_flow Item)) : Prop :=
  match r with
  | (m', inl ret') => lm_taken now m0 ret' m' /\ (is_data ret' -> lm_settled now m') /\ (lm_phi m' + ret_open ret' < lm_phi m + ret_open ret)%nat
  | (m', inr (LoopBreak (Ready (Some x)))) => lm_taken now m0 (Some x) m'
  | (m', inr (LoopBreak Pending)) => lm_step now m0 m' /\ (lm_meas (S now) m' < lm_meas now m0)%nat
  | (m', inr (LoopBreak (Ready None))) => lm_events m0 = []
  | _ => False
  end.

Lemma lm_back_spec now m0 ret m m' h : lm_taken now m0 ret m -> lm_front now m h m' -> lm_turned now m0 m ret (lm_back now ret m' h).
Proof.
  intros Ht [Hst' Hphi Hlt Hlater Hset Hnext]. assert (Ht' := lm_taken_step _ _ _ _ _ Ht Hst').
  destruct ret as [x|]; cbn [lm_back].
  { unfold lm_finish. destruct h as [[] w]; cbn [fst snd] in *; [|done]. split; [done|]. split; [done|]. cbn [ret_open]. specialize (Hlt eq_refl). lia. }
  cbn in Ht'. pose proof (lm_poll_state_2_spec db si st D Hst Hdb range now m' (proj1 Ht')) as Hs. unfold lm_finish.
  destruct (lm_poll_state_2 db si now m') as [m2 r]. destruct r as [|[[[[[|c]|l|]|]|]|]| |]; try done.
  - destruct Hs as [[inps ->] Hout]. unfold hpp_merge. cbn [hpp_progress fst snd]. rewrite orb_true_r. split; [by eapply lm_out_after|].
    split; [intros _; exact Hset|]. change (lm_phi (lm_set_inps m' inps)) with (lm_phi m'). cbn [ret_open]. lia.
  - destruct Hs as (Hst2 & Hme & Hphi2). unfold hpp_merge. cbn [hpp_progress fst snd]. rewrite orb_true_r. destruct Ht' as (_ & He & Hm).
    split; [split; [|lia]; split; [apply Hst2|]; destruct Hst2 as (_ & He2 & _); split; [by rewrite He2|lia]|]. split; [done|]. cbn [ret_open]. lia.
  - assert (Hnone : lm_step now m' m2 /\ lm_phi m2 = lm_phi m' /\ (h.2 = true -> lm_meas (S now) m2 < lm_meas now m')%nat /\ (h = hpp_new -> lm_events m' = [])).
    { destruct Hs as [[-> Hn]|(Hst2 & He & Hz & Hp2)].
      - split; [by split; [apply Ht'|]|]. split; [done|]. split; [exact Hlater|]. intros ->. by destruct (Hnext Hn).
      - split; [done|]. split; [done|]. split; [intros Hh; specialize (Hlater Hh); lia|]. intros _. destruct Hst2 as (_ & <- & _). done. }
    clear Hs. destruct Hnone as (Hst2 & Hp2 & Hw & Hz). assert (Hst0 := lm_step_trans _ _ _ _ Ht' Hst2). destruct Ht' as (_ & He & Hm).
    destruct h as [[] []]; cbn [fst snd] in *.
    + split; [done|]. split; [done|]. cbn [ret_open]. specialize (Hlt eq_refl). lia.
    + split; [done|]. split; [done|]. cbn [ret_open]. specialize (Hlt eq_refl). lia.
    + split; [done|]. specialize (Hw eq_refl). lia.
    + cbn. rewrite <- He. by apply Hz.
  - destruct Hs as (Hst2 & Hw & Hp2). assert (Hst0 := lm_step_trans _ _ _ _ Ht' Hst2). unfold hpp_merge. cbn [hpp_pending fst snd]. rewrite orb_true_r, orb_false_r.
    destruct Hst2 as (_ & _ & Hm2), Ht' as (_ & _ & Hm). destruct (h.1); cbn [fst snd] in *; (split; [done|]).
    + split; [done|]. cbn [ret_open]. specialize (Hlt eq_refl). lia.
    + lia.
Qed.

Lemma lm_turn_spec now m0 ret m : lm_taken now m0 ret m -> (is_data ret -> lm_settled now m) -> lm_turned now m0 m ret (lm_state_turn db si range now ret m).
Proof.
  intros Ht Hd. destruct (lm_turn_front now ret m (lm_taken_ok _ _ _ _ Ht)) as [(m' & l & -> & Hst2 & Hm & Hn)|(m' & h & -> & Hf)].
  - cbn. destruct ret as [[[[|c]|l'|]|]|]; try done; [by destruct Hn; apply Hd| |]; cbn in Ht.
    + split; [by eapply lm_step_trans; [apply Ht|]|]. destruct Ht as [_ ?]. lia.
    + split; [by eapply lm_step_trans|]. destruct Ht as (_ & _ & ?). lia.
  - by apply lm_back_spec.
Qed.

(** Within its limit the loop comes to an end. *)
Lemma lm_state_loop_spec now n m0 ret m : lm_taken now m0 ret m -> (is_data ret -> lm_settled now m) -> (lm_phi m + ret_open ret < n)%nat ->
  match lm_state_loop db si range n (fun _ => now) ret m with
  | (m', LoopBreak (Ready (Some x))) => lm_taken now m0 (Some x) m'
  | (m', LoopBreak Pending) => lm_step now m0 m' /\ (lm_meas (S now) m' < lm_meas now m0)%nat
  | (m', LoopBreak (Ready None)) => lm_events m0 = []
  | _ => False
  end.
Proof.
  revert ret m. induction n as [|n IH]; intros ret m Ht Hd Hn; [lia|]. cbn [lm_state_loop]. pose proof (lm_turn_spec now m0 ret m Ht Hd) as Hs.
  destruct (lm_state_turn db si range now ret m) as [m' [ret'|r]]; [|exact Hs]. destruct Hs as (Ht' & Hd' & Hphi). apply IH; [done|done|lia].
Qed.

Lemma lm_phi_bound now m : lm_ok now m -> (lm_phi m + 1 < 2000)%nat.
Proof.
  intros Hok. destruct (lk_opts _ _ _ _ Hok) as (_ & _ & _ & Hb). pose proof (lk_po_len _ _ _ _ Hok) as Hl.
  assert (Hr : (po_room (lm_lsp_single_buf_max m) (lm_mspbuf_po m) <= length (lm_mspbuf_po m) * lm_lsp_single_buf_max m)%nat).
  { clear. induction (lm_mspbuf_po m) as [|x po IH]; unfold po_room in *; cbn [sum_list_with length]; lia. }
  assert (length (lm_mspbuf_po m) * lm_lsp_single_buf_max m <= lm_msp_preopen_min m * lm_lsp_single_buf_max m)%nat by (by apply Nat.mul_le_mono_r).
  unfold lm_phi. destruct (lm_msps m) as [s|]; [destruct (mf_ended s)|]; lia.
Qed.

(** A poll: a piece of the events, or a message, or nothing yet, or the end. *)
Lemma lm_poll_state_spec now m : lm_ok now m ->
  match lm_poll_state db si range (fun _ => now) m with
  | (m', LoopBreak (Ready (Some (SOk (DataItem (Data c)))))) => lm_out now m c m'
  | (m', LoopBreak (Ready (Some (SOk (Log _))))) => lm_step now m m' /\ (lm_meas now m' < lm_meas now m)%nat
  | (m', LoopBreak Pending) => lm_step now m m' /\ (lm_meas (S now) m' < lm_meas now m)%nat
  | (m', LoopBreak (Ready None)) => lm_events m = []
  | _ => False
  end.
Proof.
  intros Hok. assert (Ht : lm_taken now m None m) by done. pose proof (lm_phi_bound now m Hok) as Hb.
  pose proof (lm_state_loop_spec now 2000 m None m Ht ltac:(done) Hb) as Hs. change (lm_poll_state db si range (fun _ => now) m) with (lm_state_loop db si range 2000 (fun _ => now) None m).
  destruct (lm_state_loop db si range 2000 (fun _ => now) None m) as [m' r]. destruct r as [|[[[[[|c]|l|]|]|]|]| |]; done.
Qed.

(** ** The run *)

(** What a poll may give. *)
Definition read_ok (p : Poll Item) : Prop :=
  match p with Ready (SOk (DataItem (Data c))) => data_ok c | Ready (SOk (Log _)) => True | Pending => True | _ => False end.

Lemma sorted_le_app (l1 l2 : list (Z * V)) : StronglySorted Z.lt l1.*1 -> StronglySorted Z.le l2.*1 -> le_all l1 l2 -> StronglySorted Z.le (l1 ++ l2).*1.
Proof.
  intros Hs1 Hs2 Hle. rewrite fmap_app. induction l1 as [|x l1 IH]; [done|]. cbn in *. apply StronglySorted_inv in Hs1 as [Hs1 Hf].
  constructor; [apply IH; [done|]; intros a b Ha; apply Hle; by right|]. apply Forall_app. split; [eapply Forall_impl; [exact Hf|]; intros; lia|].
  rewrite Forall_fmap, Forall_forall. intros b Hb. apply (Hle x b); [by left|done].
Qed.

Lemma lm_run_gives n k m : lm_ok k m -> (lm_meas k m < n)%nat ->
  exists r, (forall fuel, (n <= fuel)%nat -> stream_run (lm_turn db si (fun now _ => now)) (fun _ => false) fuel (k, mkMulti range (MuMerging m)) = Some r) /\
    ps_panics r = false /\ Forall read_ok (ps_polls r) /\ StronglySorted Z.le (polls_events (ps_polls r)).*1 /\ polls_events (ps_polls r) ≡ₚ lm_events m.
Proof.
  revert k m. induction n as [|n IH]; intros k m Hok Hn; [lia|]. pose proof (lm_poll_state_spec k m Hok) as Hs.
  assert (Hgo : forall p m', lm_ok k m' -> (lm_meas (S k) m' < n)%nat ->
    (forall fuel r', stream_run (lm_turn db si (fun now _ => now)) (fun _ => false) fuel (S k, mkMulti range (MuMerging m')) = Some r' ->
       stream_run (lm_turn db si (fun now _ => now)) (fun _ => false) (S fuel) (k, mkMulti range (MuMerging m)) = Some (ps_cons p r')) ->
    read_ok p -> StronglySorted Z.lt (poll_events p).*1 -> lm_events m ≡ₚ poll_events p ++ lm_events m' -> le_all (poll_events p) (lm_events m') ->
    exists r, (forall fuel, (S n <= fuel)%nat -> stream_run (lm_turn db si (fun now _ => now)) (fun _ => false) fuel (k, mkMulti range (MuMerging m)) = Some r) /\
    ps_panics r = false /\ Forall read_ok (ps_polls r) /\ StronglySorted Z.le (polls_events (ps_polls r)).*1 /\ polls_events (ps_polls r) ≡ₚ lm_events m).
  { intros p m' Hok' Hm Hrun Hp Hsp He Hle. destruct (IH (S k) m' (lm_ok_later st D _ _ Hok') Hm) as (r & Hr & Hpa & Hall & Hso & Hpe).
    exists (ps_cons p r). split; [intros [|fuel] Hf; [lia|apply Hrun, Hr; lia]|]. split; [done|]. cbn [ps_cons ps_polls]. split; [by constructor|].
    unfold polls_events in *. cbn [map concat]. split; [|by rewrite He, Hpe]. apply sorted_le_app; [done|done|]. intros a b Ha Hb. rewrite Hpe in Hb. by apply Hle. }
  pose proof (fun m' => lm_meas_mono st D range k (m' : Merg)) as Hlt.
  assert (Hturn : lm_turn db si (fun now _ => now) (k, mkMulti range (MuMerging m)) =
    match lm_poll_state db si range (fun _ => k) m with
    | (m', LoopBreak (Ready (Some (SErr e)))) => ((S k, mkMulti range MuDone), LoopBreak (Ready (Some (SErr e))))
    | (m', LoopBreak (Ready None)) => ((S k, mkMulti range MuDone), LoopBreak (Ready None))
    | (m', r) => ((S k, mkMulti range (MuMerging m')), r)
    end).
  { unfold lm_turn, lm_poll_next. cbn [mu_state mu_range]. destruct (lm_poll_state db si range (fun _ => k) m) as [m' [|[[[|]|]|]| |]]; done. }
  destruct (lm_poll_state db si range (fun _ => k) m) as [m' r]. destruct r as [|[[[[[|c]|l|]|]|]|]| |]; try done.
  - destruct Hs as [H0 H1 H2 H3 H4 H5]. apply (Hgo (Ready (SOk (DataItem (Data c)))) m'); try done; [pose proof (Hlt m'); lia|].
    intros fuel r' Hr'. cbn [stream_run]. rewrite Hturn. by rewrite Hr'.
  - destruct Hs as [(H0 & H1 & H2) H3]. apply (Hgo (Ready (SOk (Log l))) m'); try done.
    + pose proof (Hlt m'); lia.
    + intros fuel r' Hr'. cbn [stream_run]. rewrite Hturn. by rewrite Hr'.
    + cbn. constructor.
    + by rewrite H1.
    + by intros a b ?%not_elem_of_nil.
  - exists ps_empty. rewrite Hs. split; [|by repeat constructor]. intros [|fuel] Hf; [lia|]. cbn [stream_run]. by rewrite Hturn.
  - destruct Hs as [(H0 & H1 & H2) H3]. apply (Hgo Pending m'); try done.
    + lia.
    + intros fuel r' Hr'. cbn [stream_run]. rewrite Hturn. by rewrite Hr'.
    + cbn. constructor.
    + by rewrite H1.
    + by intros a b ?%not_elem_of_nil.
Qed.

(** The partitions that are read: those given, and those of the store after the
    last of them, or from the begin of the range. *)
Definition read_msps (msps : list Z) : list Z :=
  msps ++ window id (match last msps with Some p => p + 1 | None => ssr_beg range / 1000000 end) (ssr_end range / 1000000) (es_msps st).

Lemma window_ended (s : ReadMspFwdStream (DE := DE)) : mf_rest st s = window id (mf_lo s) (ssr_end (mf_range s) / 1000000) (es_msps st).
Proof.
  unfold mf_rest. destruct (Z.ltb_spec (ssr_beg (mf_range s)) (ssr_end (mf_range s))) as [|Hge]; [done|]. symmetry. apply window_empty.
  unfold mf_lo. pose proof (Z.div_le_mono _ _ 1000000 ltac:(lia) Hge). destruct (RangeExcl_excl_beg _); lia.
Qed.

Lemma lm_new_ok opts (msps : list Z) k :
  (1 <= mo_msp_reserve_min opts /\ 1 <= mo_msp_preopen_min opts /\ 1 <= mo_lsp_single_buf_max opts /\
   3 + mo_msp_reserve_min opts + mo_msp_preopen_min opts * mo_lsp_single_buf_max opts < 2000)%nat ->
  Forall msp_fits msps -> StronglySorted Z.lt msps ->
  exists m : Merg, lm_new range opts msps = mkMulti range (MuMerging m) /\ lm_ok k m /\ lm_events m = all_events st range (read_msps msps).
Proof.
  intros Hopts Hfit Hsort. unfold lm_new. set (p := match last msps with Some _ => _ | None => _ end). destruct p as [rg ex] eqn:Hp. subst p.
  eexists. split; [done|]. set (s := mf_new rg ex (mo_msp_limit opts)).
  assert (Hs : range_ok rg /\ mf_rest st s = window id (match last msps with Some p => p + 1 | None => ssr_beg range / 1000000 end) (ssr_end range / 1000000) (es_msps st)).
  { rewrite window_ended. unfold mf_lo. cbn [s mf_new mf_range mf_begexcl]. destruct (last msps) as [p|] eqn:Hl; injection Hp as <- <-; cbn [RangeExcl_excl_beg]; [|by rewrite Z.add_0_r].
    apply last_Some in Hl as [l ->]. apply Forall_app in Hfit as [_ Hfit]. apply Forall_cons_1 in Hfit as [Hfit _]. unfold MspEv_to_ms. cbn [ScyllaSeriesRange_new ssr_beg ssr_end TsNano_ns].
    rewrite (msp_ns p Hfit). split; [destruct Hrange as [_ He], Hfit; split; cbn [ssr_beg ssr_end ScyllaSeriesRange_new]; unfold TsNano_ns; lia|]. unfold TsNano_ns. by rewrite Z.div_mul. }
  destruct Hs as [Hrg Hrest]. unfold MspEv_to_ms. change (map (fun p => p) msps) with (id <$> msps). rewrite list_fmap_id.
  split; [|unfold LspMultiRun.lm_events, read_msps; cbn [lm_inps lm_mspbuf_po lm_mspbuf_re lm_msps msps_rest]; by rewrite Hrest].
  split; cbn [lm_inps lm_mspbuf_po lm_mspbuf_re lm_msps msps_rest lm_msp_preopen_min lm_lsp_single_buf_max]; try done; [cbn; lia|by intros ? [= <-]; apply mf_new_ok|].
  fold s. rewrite Hrest. cbn [fmap list_fmap app].
  pose proof (window_sorted id (match last msps with Some p => p + 1 | None => ssr_beg range / 1000000 end) (ssr_end range / 1000000) (es_msps st)) as Hw.
  rewrite map_id in Hw. specialize (Hw (so_msps _ Hst)). rewrite map_id in Hw. set (w := window _ _ _ _) in *.
  assert (Hlow : forall a b, a ∈ msps -> b ∈ w -> a <= b).
  { intros a b Ha [_ Hb]%elem_of_window. destruct (last msps) as [p|] eqn:Hl; [|apply last_None in Hl; subst; by apply not_elem_of_nil in Ha].
    assert (a <= p); [|unfold id in Hb; lia]. apply last_Some in Hl as [l ->]. clear - Ha Hsort.
    induction l as [|x l IH]; cbn in *; [apply list_elem_of_singleton in Ha; lia|]. apply StronglySorted_inv in Hsort as [Hsort Hf].
    apply elem_of_cons in Ha as [->|Ha]; [|by apply IH]. rewrite Forall_forall in Hf. apply Z.lt_le_incl, Hf. apply elem_of_app. right. by left. }
  clear - Hsort Hw Hlow. clearbody w. induction msps as [|x msps IH]; cbn.
  - clear Hlow. induction w as [|x w IH]; [constructor|]. apply StronglySorted_inv in Hw as [Hw Hf]. constructor; [by apply IH|]. eapply Forall_impl; [exact Hf|]. cbn. lia.
  - apply StronglySorted_inv in Hsort as [Hsort Hf]. constructor; [apply IH; [done|]; intros a b Ha; apply Hlow; by right|].
    apply Forall_app. split; [eapply Forall_impl; [exact Hf|]; cbn; lia|]. apply Forall_forall. intros b. apply Hlow. by left.
Qed.

(** C8. When the time stands still in each poll, and goes on only between them,
    [LspFwdMspMulti] gives all events in the range of the partitions that it is
    given, and of those that the store has after them, in order of time, in pieces
    that are not empty; it ends, with no error, and no limit of its loops is met.
    ([lm_loses] says what happens when the time goes on within a poll.) *)
Theorem lm_reads opts (msps : list Z) :
  (1 <= mo_msp_reserve_min opts /\ 1 <= mo_msp_preopen_min opts /\ 1 <= mo_lsp_single_buf_max opts /\
   3 + mo_msp_reserve_min opts + mo_msp_preopen_min opts * mo_lsp_single_buf_max opts < 2000)%nat ->
  Forall msp_fits msps -> StronglySorted Z.lt msps ->
  exists n r, (forall fuel, (n <= fuel)%nat -> lm_run db si (fun now _ => now) fuel (lm_new (St := St) range opts msps) = Some r) /\
    ps_panics r = false /\ Forall read_ok (ps_polls r) /\ StronglySorted Z.le (polls_events (ps_polls r)).*1 /\
    polls_events (ps_polls r) ≡ₚ all_events st range (read_msps msps).
Proof.
  intros Hopts Hfit Hsort. destruct (lm_new_ok opts msps O Hopts Hfit Hsort) as (m & -> & Hok & He).
  destruct (lm_run_gives (S (lm_meas O m)) O m Hok ltac:(lia)) as (r & Hr & H1 & H2 & H3 & H4). rewrite He in H4. by exists (S (lm_meas O m)), r.
Qed.

(** ** Time that goes on within a poll *)

(** Of a poll only the times at which its turns look at the clock matter. *)
Lemma lm_state_loop_ext n (ck ck' : nat -> nat) ret m : (forall i, ck i = ck' i) ->
  lm_state_loop db si range n ck ret m = lm_state_loop db si range n ck' ret m.
Proof.
  revert ck ck' ret m. induction n as [|n IH]; intros ck ck' ret m He; cbn [lm_state_loop]; [done|]. rewrite He.
  destruct (lm_state_turn db si range (ck' O) ret m) as [m' [ret'|r]]; [|done]. by apply IH.
Qed.

Lemma lm_turn_ext (ck ck' : nat -> nat -> nat) k k' (m : Merg) : (forall i, ck k i = ck' k' i) ->
  (lm_turn db si ck (k, mkMulti range (MuMerging m))).1.2 = (lm_turn db si ck' (k', mkMulti range (MuMerging m))).1.2 /\
  (lm_turn db si ck (k, mkMulti range (MuMerging m))).2 = (lm_turn db si ck' (k', mkMulti range (MuMerging m))).2.
Proof.
  intros He. unfold lm_turn, lm_poll_next, lm_poll_state. cbn [mu_state mu_range]. rewrite (lm_state_loop_ext 2000 (ck k) (ck' k')) by done.
  by destruct (lm_state_loop db si range 2000 (ck' k') None m) as [m' [|[[[|]|]|]| |]].
Qed.

(** A frozen clock that is ahead of the number of the poll. *)
Lemma lm_run_shift (ck : nat -> nat -> nat) d fuel k (s : LspFwdMspMulti (V := V) (DE := DE) (St := St)) : mu_range s = range ->
  (forall k' i, (k <= k')%nat -> ck k' i = (k' + d)%nat) ->
  stream_run (lm_turn db si ck) (fun _ => false) fuel (k, s) = stream_run (lm_turn db si (fun now _ => now)) (fun _ => false) fuel ((k + d)%nat, s).
Proof.
  revert k s. induction fuel as [|fuel IH]; intros k s Hr Hck; cbn [stream_run]; [done|].
  assert (Ht : exists s' p, mu_range s' = range /\ lm_turn db si ck (k, s) = ((S k, s'), p) /\
    lm_turn db si (fun now _ => now) ((k + d)%nat, s) = ((S (k + d), s'), p)).
  { unfold lm_turn, lm_poll_next, lm_poll_state. rewrite Hr. destruct (mu_state s) as [m|]; [|eexists _, _; split_and!; [exact Hr|reflexivity..]].
    rewrite (lm_state_loop_ext 2000 (ck k) (fun _ => (k + d)%nat)) by (intros i; by apply Hck).
    destruct (lm_state_loop db si range 2000 _ None m) as [m' [|[[[|]|]|]| |]]; eexists _, _; (split_and!; [|reflexivity..]; reflexivity). }
  destruct Ht as (s' & p & Hs' & -> & ->).
  assert (IH' : stream_run (lm_turn db si ck) (fun _ => false) fuel (S k, s') =
    stream_run (lm_turn db si (fun now _ => now)) (fun _ => false) fuel ((S (k + d))%nat, s')).
  { rewrite IH; [done|done|]. intros k' i Hk. apply Hck. lia. }
  destruct p as [|[[x|]|]| |]; by rewrite ?IH'.
Qed.

(** Polls of a frozen clock: what they give, and what is left. *)
Lemma lm_turns_events n k m l k' m' : lm_ok k m ->
  stream_turns (lm_turn db si (fun now _ => now)) (fun _ => false) n (k, mkMulti range (MuMerging m)) = (l, Some (k', mkMulti range (MuMerging m'))) ->
  k' = (k + n)%nat /\ lm_ok k' m' /\ Forall read_ok l /\ lm_events m ≡ₚ polls_events l ++ lm_events m'.
Proof.
  revert k m l. induction n as [|n IH]; intros k m l Hok; cbn [stream_turns].
  { intros [= <- <- <-]. split_and!; [lia|done|done|done]. }
  pose proof (lm_poll_state_spec k m Hok) as Hs. unfold lm_turn at 1, lm_poll_next. cbn [mu_state mu_range].
  destruct (lm_poll_state db si range (fun _ => k) m) as [m1 r].
  assert (Hgo : forall p l' o, lm_ok k m1 -> read_ok p -> lm_events m ≡ₚ poll_events p ++ lm_events m1 ->
    stream_turns (lm_turn db si (fun now _ => now)) (fun _ => false) n (S k, mkMulti range (MuMerging m1)) = (l', o) ->
    (p :: l', o) = (l, Some (k', mkMulti range (MuMerging m'))) ->
    k' = (k + S n)%nat /\ lm_ok k' m' /\ Forall read_ok l /\ lm_events m ≡ₚ polls_events l ++ lm_events m').
  { intros p l' o Hok1 Hp He Ht [= <- ->]. destruct (IH (S k) m1 l' (lm_ok_later st D _ _ Hok1) Ht) as (-> & Hok' & Hl & He').
    split_and!; [lia|done|by constructor|]. unfold polls_events in *. cbn [map concat]. by rewrite He, He', app_assoc. }
  destruct r as [|[[[[[|c]|lg|]|]|]|]| |]; try done.
  - destruct Hs as [H0 H1 H2 _ _ _]. destruct (stream_turns _ _ n _) as [l' o] eqn:Et. intros E. by apply (Hgo (Ready (SOk (DataItem (Data c)))) l' o).
  - destruct Hs as [(H0 & H1 & _) _]. destruct (stream_turns _ _ n _) as [l' o] eqn:Et. intros E. apply (Hgo (Ready (SOk (Log lg))) l' o); try done. cbn. by rewrite H1.
  - destruct Hs as [(H0 & H1 & _) _]. destruct (stream_turns _ _ n _) as [l' o] eqn:Et. intros E. apply (Hgo Pending l' o); try done. cbn. by rewrite H1.
Qed.

(** The clock stands still in each poll but poll [k], whose turns after the first
    one see a later time; it goes on from there. *)
Definition late_clock (k t : nat) (k' i : nat) : nat :=
  if (k' <? k)%nat then k' else if (k' =? k)%nat then (if (i =? 0)%nat then k else t) else (t + (k' - k))%nat.

Lemma lm_ok_upto k t m : (k <= t)%nat -> lm_ok k m -> lm_ok t m.
Proof. induction 1; [done|]. intros Hok. by apply lm_ok_later, IHle. Qed.

Lemma lm_loop_two n (ck : nat -> nat) ret m m1 ret1 m2 x :
  lm_state_turn db si range (ck 0%nat) ret m = (m1, inl ret1) -> lm_state_turn db si range (ck 1%nat) ret1 m1 = (m2, inr x) ->
  lm_state_loop db si range (S (S n)) ck ret m = (m2, x).
Proof. intros H1 H2. cbn [lm_state_loop]. by rewrite H1, H2. Qed.

(** The first polls of a run are those of the frozen clock. *)
Lemma lm_run_split (ck : nat -> nat -> nat) n k l k' m' fuel (s : LspFwdMspMulti (V := V) (DE := DE) (St := St)) : mu_range s = range ->
  (forall j i, (k <= j < k + n)%nat -> ck j i = j) ->
  stream_turns (lm_turn db si (fun now _ => now)) (fun _ => false) n (k, s) = (l, Some (k', mkMulti range (MuMerging m'))) ->
  stream_run (lm_turn db si ck) (fun _ => false) (n + fuel) (k, s) =
    ps_app l <$> stream_run (lm_turn db si ck) (fun _ => false) fuel (k', mkMulti range (MuMerging m')).
Proof.
  revert k l s. induction n as [|n IH]; intros k l s Hr Hck; cbn [stream_turns stream_run Nat.add].
  { intros [= <- <- ->]. by destruct (stream_run _ _ fuel _) as [[]|]. }
  assert (Ht : lm_turn db si ck (k, s) = lm_turn db si (fun now _ => now) (k, s)).
  { unfold lm_turn, lm_poll_next, lm_poll_state. destruct (mu_state s) as [m|]; [|done].
    rewrite Hr, (lm_state_loop_ext 2000 (ck k) (fun _ => k)); [done|]. intros i. apply Hck. lia. }
  rewrite Ht. destruct (lm_turn db si (fun now _ => now) (k, s)) as [[k1 s1] p] eqn:E.
  assert (Hk1 : k1 = S k /\ mu_range s1 = range).
  { revert E. unfold lm_turn. destruct (lm_poll_next db si (fun _ => k) s) as [s2 r2] eqn:E2. intros [= <- <- _]. split; [done|].
    revert E2. unfold lm_poll_next. rewrite <- Hr. destruct (mu_state s); [|by intros [= <- _]].
    destruct (lm_poll_state _ _ _ _ _) as [m2 [|[[[|]|]|]| |]]; by intros [= <- _]. }
  destruct Hk1 as [-> Hr1]. assert (Hck' : forall j i, (S k <= j < S k + n)%nat -> ck j i = j) by (intros; apply Hck; lia).
  pose proof (fun l' => IH (S k) l' s1 Hr1 Hck') as IH'.
  destruct p as [|[[x|]|]| |]; try done; [by apply IH'|..];
    (destruct (stream_turns _ _ n _) as [l' o]; intros [= <- ->]; rewrite (IH' l' eq_refl);
     by destruct (stream_run _ _ fuel _) as [[]|]).
Qed.

(** C10. When the time goes on within one poll of [LspFwdMspMulti] an item is lost.
    The time has stood still in each of the first [k] polls. In the next one the
    merge puts out a piece [c] of the events in the first turn of its loop, and
    before the next turn the request for partitions, which the stream was waiting
    for with less than enough partitions open, is answered with partitions: then
    the loop that opens one of them leaves the poll with its message, and [c] is
    gone. However the rest of the run goes on, it ends without an error, and of the
    events that the read is to give exactly those of [c] are missing. *)
Theorem lm_loses opts (msps : list Z) k t l m m1 c s s' v :
  (1 <= mo_msp_reserve_min opts /\ 1 <= mo_msp_preopen_min opts /\ 1 <= mo_lsp_single_buf_max opts /\
   3 + mo_msp_reserve_min opts + mo_msp_preopen_min opts * mo_lsp_single_buf_max opts < 2000)%nat ->
  Forall msp_fits msps -> StronglySorted Z.lt msps ->
  stream_turns (lm_turn db si (fun now _ => now)) (fun _ => false) k (O, lm_new (St := St) range opts msps) = (l, Some (k, mkMulti range (MuMerging m))) ->
  lm_state_turn db si range k None m = (m1, inl (Some (SOk (DataItem (Data c))))) ->
  (length (lm_mspbuf_po m1) < lm_msp_preopen_min m1)%nat -> lm_msps m1 = Some s -> (k <= t)%nat ->
  mf_poll_next db (si_series si) t s = (s', LoopBreak (Ready (Some (inr v)))) -> v <> [] ->
  exists n r, (forall fuel, (n <= fuel)%nat -> lm_run db si (late_clock k t) fuel (lm_new (St := St) range opts msps) = Some r) /\
    ps_panics r = false /\ Forall read_ok (ps_polls r) /\ ce_iter_zip c <> [] /\
    ce_iter_zip c ++ polls_events (ps_polls r) ≡ₚ all_events st range (read_msps msps).
Proof.
  intros Hopts Hfit Hsort Hpre Hturn Hshort Hms Hkt Hpoll Hv.
  destruct (lm_new_ok opts msps O Hopts Hfit Hsort) as (m0 & Hnew & Hok0 & He0). rewrite Hnew in *.
  destruct (lm_turns_events k O m0 l k m Hok0 Hpre) as (_ & Hok & Hl & Hev).
  (* the first turn takes [c] *)
  pose proof (lm_turn_spec k m None m ltac:(split; [done|by split]) ltac:(done)) as Ht. rewrite Hturn in Ht.
  destruct Ht as ([Hok1 Hd Hev1 _ _ _] & Hset & _). specialize (Hset I).
  assert (Hre : lm_mspbuf_re m1 = []) by (destruct Hset as [?|[? _]]; [lia|done]).
  (* the second one opens a partition *)
  destruct v as [|p v]; [done|].
  assert (Hturn2 : exists m2 lg, lm_state_turn db si range t (Some (SOk (DataItem (Data c)))) m1 = (m2, inr (LoopBreak (Ready (Some (SOk (Log lg)))))) /\
    lm_ok t m2 /\ lm_events m2 = lm_events m1).
  { assert (Hok1t : lm_ok t m1) by (by apply (lm_ok_upto k)).
    pose proof (lm_poll_msps_spec db si st D Hst Hdb range t m1 Hok1t) as Hp.
    assert (E : lm_poll_msps db si t m1 = (lm_set_msps m1 (Some s') ([] ++ p :: v), inl hpp_progress)).
    { unfold lm_poll_msps. rewrite Hre, Hms, Hpoll. rewrite (proj2 (Nat.ltb_lt _ _)); [done|]. destruct (lk_opts _ _ _ _ Hok1). cbn. lia. }
    rewrite E in Hp. destruct Hp as ((Hok2 & Hev2 & _) & _).
    pose proof (lm_preopen_spec st D Hst range Hrange t _ Hok2) as Hq.
    destruct (lm_preopen range (lm_set_msps m1 (Some s') ([] ++ p :: v))) as [[m2 item]|] eqn:Eq.
    2: { destruct Hq as [Hq|Hq]; [cbn in Hq; lia|done]. }
    destruct Hq as ((Hok3 & Hev3 & _) & _ & lg & ->). exists m2, lg. split_and!; [|done|congruence].
    unfold lm_state_turn. by rewrite E, Eq. }
  destruct Hturn2 as (m2 & lg & Hturn2 & Hok2 & Hev2).
  assert (Hpollk : lm_turn db si (late_clock k t) (k, mkMulti range (MuMerging m)) = ((S k, mkMulti range (MuMerging m2)), LoopBreak (Ready (Some (SOk (Log lg)))))).
  { assert (Hc0 : late_clock k t k 0 = k) by (unfold late_clock; by rewrite Nat.ltb_irrefl, Nat.eqb_refl).
    assert (Hc1 : late_clock k t k 1 = t) by (unfold late_clock; by rewrite Nat.ltb_irrefl, Nat.eqb_refl).
    rewrite <- Hc0 in Hturn. rewrite <- Hc1 in Hturn2. unfold lm_turn, lm_poll_next, lm_poll_state. cbn [mu_state mu_range].
    by rewrite (lm_loop_two 1998 _ _ _ _ _ _ _ Hturn Hturn2). }
  destruct (lm_run_gives (S (lm_meas (S t) m2)) (S t) m2 (lm_ok_later st D _ _ Hok2) ltac:(lia)) as (r & Hr & Hpa & Hall & _ & Hpe).
  exists (k + S (S (lm_meas (S t) m2)))%nat, (ps_app l (ps_cons (Ready (SOk (Log lg))) r)). split; [|split; [done|split; [|split]]].
  - intros fuel Hf. unfold lm_run. replace fuel with (k + S (fuel - k - 1))%nat by lia.
    rewrite (lm_run_split _ k O l k m _ (mkMulti range (MuMerging m0))); [|done| |done].
    + cbn [stream_run]. rewrite Hpollk. rewrite (lm_run_shift _ (t - k)); [|done|].
      * replace (S k + (t - k))%nat with (S t) by lia. by rewrite Hr by lia.
      * intros k' i Hk. unfold late_clock. rewrite (proj2 (Nat.ltb_ge _ _)), (proj2 (Nat.eqb_neq _ _)) by lia. lia.
    + intros j i Hj. unfold late_clock. by rewrite (proj2 (Nat.ltb_lt _ _)) by lia.
  - cbn. apply Forall_app. split; [done|]. by constructor.
  - by destruct Hd.
  - rewrite <- He0, Hev, Hev1, <- Hev2, <- Hpe. unfold polls_events. cbn. rewrite map_app, concat_app. cbn.
    rewrite !app_assoc. apply Permutation_app_tail. apply Permutation_app_comm.
Qed.

End LspMultiReads.

(** ** Examples *)
Module LspMultiExample.
#[local] Existing Instance EventValueType_Z.

Definition rows (m : Z) : list (Z * Z) := if (0 <=? m) && (m <=? 4000) then [(0, m); (500000, m + 1)] else [].
Definition store : EvStore Z := mkEvStore [1000; 2000; 3000; 4000] rows.
Definition si : SeriesInfo := mkSeriesInfo 7 F64 Scalar.
Definition range : ScyllaSeriesRange := mkSsr 1000000000 5000000000.
Definition opts : MultiOpts := mkMultiOpts 10 800 20 6 5.
Definition db : EventsDb (V := Z) (DE := unit) := store_db store 3 2.

Lemma store_is_ok : store_ok store.
Proof.
  split; cbn.
  - repeat constructor.
  - repeat constructor; lia.
  - intros m. unfold rows. destruct (_ && _); repeat constructor.
  - intros m r. unfold rows. destruct (_ && _) eqn:Hm; [|by intros ?%not_elem_of_nil]. apply andb_true_iff in Hm as [?%Z.leb_le ?%Z.leb_le].
    intros [->|[->|Hr%not_elem_of_nil]%elem_of_cons]%elem_of_cons; cbn; done || lia.
Qed.

(** The partitions answer late, between two turns of the sixth poll. *)
Definition late_db : EventsDb (V := Z) (DE := unit) := store_db store 100 2.

End LspMultiExample.

Section LspMultiExamples.
Import LspMultiExample.
#[local] Existing Instance EventValueType_Z.

Lemma lm_reads_witness :
  exists n r, (forall fuel, (n <= fuel)%nat -> lm_run db si (fun now _ => now) fuel (lm_new (St := unit) range opts [1000; 2000]) = Some r) /\
    ps_panics r = false /\ Forall read_ok (ps_polls r) /\ StronglySorted Z.le (polls_events (ps_polls r)).*1 /\
    polls_events (ps_polls r) ≡ₚ all_events store range (read_msps store range [1000; 2000]).
Proof.
  apply (lm_reads db si store (3 + 2) store_is_ok (store_db_laws store 3 2 si ltac:(cbn; lia) eq_refl) range ltac:(unfold range_ok; cbn; lia) opts [1000; 2000]).
  - cbn. lia.
  - repeat constructor; cbn; lia.
  - repeat constructor.
Defined.

(** All events of the first partition are missing. *)
Lemma lm_loses_witness :
  exists n r, (forall fuel, (n <= fuel)%nat -> lm_run late_db si (late_clock 5 105) fuel (lm_new (St := unit) range opts [1000; 2000]) = Some r) /\
    ps_panics r = false /\ Forall read_ok (ps_polls r) /\ [(1000000000, 1000); (1000500000, 1001)] <> [] /\
    [(1000000000, 1000); (1000500000, 1001)] ++ polls_events (ps_polls r) ≡ₚ all_events store range (read_msps store range [1000; 2000]).
Proof.
  edestruct (lm_loses late_db si store (100 + 2) store_is_ok (store_db_laws store 100 2 si ltac:(cbn; lia) eq_refl) range
    ltac:(unfold range_ok; cbn; lia) (St := unit) opts [1000; 2000] 5 105) as (n & r & Hr & H1 & H2 & H3 & H4).
  - cbn. lia.
  - repeat constructor; cbn; lia.
  - repeat constructor.
  - vm_compute. reflexivity.
  - vm_compute. reflexivity.
  - vm_compute. lia.
  - vm_compute. reflexivity.
  - lia.
  - vm_compute. reflexivity.
  - discriminate.
  - exists n, r. exact (conj Hr (conj H1 (conj H2 (conj H3 H4)))).
Defined.

End LspMultiExamples.
