(* ===== verification/LspMerge.v ===== *)
(** * Merging the streams of keyspaces

    [LspMerge] of [events3/ks/lspmerge.rs] of [daqbuf-scyllaconn/src]: known many
    streams of events are merged by time into pieces of a limited size. The inputs
    are what a consumer sees of them ([StreamRun]). The limits on the turns of the
    loops are those of the code. *)
From Stdlib Require Import ZArith Lia.
From stdpp Require Import base numbers option strings list sorting.
From S2P Require Import Prelude Items TimeTypes Events StreamRun LspMulti.

#[local] Open Scope Z_scope.
#[local] Open Scope rust_scope.

Section LspMerge.
  Context {T L S E : Type} `{MergeableTy T}.

Inductive lspmerge_error : Type :=
  | LpmNextTs (e : next_ts_error)
  | LpmLoopTooMany
  | LpmLogic
  | LpmBadDrain (a b : nat)
  | LpmItemInconsistent
  | LpmNotCompatible
  | LpmInputBoxed (e : E)
  | LpmInconsistentA
  | LpmInconsistentB
  | LpmInconsistentC
  | LpmInconsistentD.

Definition LPM_DO_CHECK_CONSISTENT : bool := false.

Local Abbreviation InItem := (Sitemty L S E T).
Local Abbreviation Sitem A := (Sitemty L S lspmerge_error A).

Record LpmInp : Type := mkLpmInp { pi_evs : option (list (Poll InItem)); pi_buf : option T }.

Record LpmMerging : Type := mkLpm {
  lpm_inps : list LpmInp;
  lpm_evbuf : option T;
  lpm_lsp_limit : Z;
  lpm_lsp_minfill : Z
}.

Definition lpm_set (m : LpmMerging) (inps : list LpmInp) (evbuf : option T) : LpmMerging :=
  mkLpm inps evbuf (lpm_lsp_limit m) (lpm_lsp_minfill m).

Definition lpm_data (x : T) : option (loop_flow (Sitem T)) := Some (LoopBreak (Ready (Some (SOk (DataItem (Data x)))))).
Definition lpm_err {A : Type} (e : lspmerge_error) : loop_flow (Sitem A) := LoopBreak (Ready (Some (SErr e))).

(** [find_next_ts]. *)
Definition lpm_find_next_ts (inps : list LpmInp) : next_ts_error + NextTs :=
  next_ts_loop (map (fun inp => match pi_buf inp with Some buf => Some (mt_ts_min buf) | None => None end) inps) 0 None None.

(** *** [poll_all_inp] *)

(** The loop over the inputs: the inputs, whether there was progress and whether
    an input waits, and where it breaks the outer loop. *)
Fixpoint lpm_poll_inps (inps : list LpmInp) : list LpmInp * (bool * bool) * option (loop_flow (Sitem unit)) :=
  match inps with
  | [] => ([], (false, false), None)
  | inp :: inps =>
      let next inp (p w : bool) := let '(inps, h, r) := lpm_poll_inps inps in (inp :: inps, (p || h.1, w || h.2), r) in
      let break evs x := (mkLpmInp (Some evs) None :: inps, (true, false), Some (LoopBreak (Ready (Some x)))) in
      match pi_buf inp with
      | Some buf => if (mt_len buf =? 0)%nat then next (mkLpmInp (pi_evs inp) None) true false else next inp false false
      | None =>
          match pi_evs inp with
          | Some (Ready (SOk (DataItem (Data x))) :: evs) =>
              if (mt_len x =? 0)%nat then next (mkLpmInp (Some evs) None) true false
              else if LPM_DO_CHECK_CONSISTENT && negb (mt_is_consistent x) then break evs (SErr LpmItemInconsistent)
              else next (mkLpmInp (Some evs) (Some x)) true false
          | Some (Ready (SOk (DataItem RangeComplete)) :: evs) => break evs (SOk (DataItem RangeComplete))
          | Some (Ready (SOk (Log x)) :: evs) => break evs (SOk (Log x))
          | Some (Ready (SOk (Stats x)) :: evs) => break evs (SOk (Stats x))
          | Some (Ready (SErr e) :: evs) => break evs (SErr (LpmInputBoxed e))
          | Some (Pending :: evs) => next (mkLpmInp (Some evs) None) false true
          | Some [] => next (mkLpmInp None None) true false
          | None => next inp false false
          end
      end
  end.

Definition pi_alive (inp : LpmInp) : bool := match pi_buf inp, pi_evs inp with None, None => false | _, _ => true end.
Definition pi_buf_none (inp : LpmInp) : bool := match pi_buf inp with None => true | Some _ => false end.

Fixpoint lpm_poll_all_loop (n : nat) (inps : list LpmInp) : list LpmInp * loop_flow (Sitem unit) :=
  match n with
  | O => (inps, lpm_err LpmLoopTooMany)
  | Datatypes.S n =>
      match lpm_poll_inps inps with
      | (inps, _, Some r) => (inps, r)
      | (inps, (progress, pending), None) =>
          let kept := List.filter pi_alive inps in
          if progress || negb (length inps =? length kept)%nat then lpm_poll_all_loop n kept
          else if pending : bool then (kept, LoopBreak Pending)
          else if (length (List.filter pi_buf_none kept) =? 0)%nat then (kept, LoopBreak (Ready (Some (SOk (DataItem (Data tt))))))
          else (kept, LoopBreak (Ready None))
      end
  end.

Definition lpm_poll_all_inp (inps : list LpmInp) : list LpmInp * loop_flow (Sitem unit) := lpm_poll_all_loop 200 inps.

(** *** [check_inputs] *)

(** With a buffer begun: it is filled up. [None]: the loop turns again. *)
Definition lpm_drain_buf (m : LpmMerging) (ix1 i3 : nat) (evs : option (list (Poll InItem))) (b2 evbuf : T) : LpmMerging * option (loop_flow (Sitem T)) :=
  if lpm_lsp_limit m <=? Z.of_nat (mt_len evbuf) then (lpm_set m (lpm_inps m) None, lpm_data evbuf)
  else
    let space := (Z.to_nat (lpm_lsp_limit m) - mt_len evbuf)%nat in
    let ndr := Nat.min i3 space in
    let b2len0 := mt_len b2 in
    match mt_drain_into (E := lspmerge_error) b2 evbuf 0 ndr with
    | Ok (b2, evbuf, DstNotCompatible) =>
        (lpm_set m (<[ix1 := mkLpmInp evs (if (mt_len b2 =? 0)%nat then None else Some b2)]> (lpm_inps m)) None, lpm_data evbuf)
    | Ok (b2, evbuf, _) =>
        let b2len2 := mt_len b2 in
        let m := lpm_set m (<[ix1 := mkLpmInp evs (if (b2len2 =? 0)%nat then None else Some b2)]> (lpm_inps m)) (Some evbuf) in
        if LPM_DO_CHECK_CONSISTENT && negb (mt_is_consistent b2) then (m, Some (lpm_err LpmInconsistentC))
        else if LPM_DO_CHECK_CONSISTENT && negb (mt_is_consistent evbuf) then (m, Some (lpm_err LpmInconsistentD))
        else if (b2len0 <=? b2len2)%nat then (m, Some (lpm_err (LpmBadDrain b2len0 b2len2)))
        else if lpm_lsp_limit m <? Z.of_nat (mt_len evbuf) then (m, Some (lpm_err (LpmBadDrain b2len0 b2len2)))
        else if lpm_lsp_limit m <=? Z.of_nat (mt_len evbuf) then (lpm_set m (lpm_inps m) None, lpm_data evbuf)
        else (m, None)
    | Err e => (m, Some (lpm_err e))
    | Panic => (m, Some LoopPanic)
    end.

(** With none: what is enough is put out, else a buffer is begun. *)
Definition lpm_drain_new (m : LpmMerging) (ix1 i3 : nat) (evs : option (list (Poll InItem))) (b2 : T) : LpmMerging * option (loop_flow (Sitem T)) :=
  let b2len0 := mt_len b2 in
  if (b2len0 <=? i3)%nat && (Z.of_nat b2len0 <=? lpm_lsp_limit m) then (lpm_set m (<[ix1 := mkLpmInp evs None]> (lpm_inps m)) None, lpm_data b2)
  else
    let ndr := Nat.min i3 (Z.to_nat (lpm_lsp_limit m)) in
    match mt_drain_into_new (E := lspmerge_error) b2 0 ndr with
    | Ok (b2, NewNotCompatible) => (lpm_set m (<[ix1 := mkLpmInp evs None]> (lpm_inps m)) None, Some (lpm_err LpmNotCompatible))
    | Ok (b2, NewDone c) | Ok (b2, NewPartial c) =>
        let b2len2 := mt_len b2 in
        let m := lpm_set m (<[ix1 := mkLpmInp evs (if (b2len2 =? 0)%nat then None else Some b2)]> (lpm_inps m)) None in
        if LPM_DO_CHECK_CONSISTENT && negb (mt_is_consistent c) then (m, Some (lpm_err LpmInconsistentA))
        else if (b2len0 <=? b2len2)%nat then (m, Some (lpm_err (LpmBadDrain b2len0 b2len2)))
        else if lpm_lsp_limit m <? Z.of_nat (mt_len c) then (m, Some (lpm_err (LpmBadDrain b2len0 b2len2)))
        else if lpm_lsp_minfill m <=? Z.of_nat (mt_len c) then (m, lpm_data c)
        else (lpm_set m (lpm_inps m) (Some c), None)
    | Err e => (m, Some (lpm_err e))
    | Panic => (m, Some LoopPanic)
    end.

Definition lpm_drain (m : LpmMerging) (ix1 : nat) (pos : T -> nat) : LpmMerging * option (loop_flow (Sitem T)) :=
  match lpm_inps m !! ix1 with
  | Some (mkLpmInp evs (Some b2)) =>
      if LPM_DO_CHECK_CONSISTENT && negb (mt_is_consistent b2) then (m, Some (lpm_err LpmInconsistentB))
      else
        match lpm_evbuf m with
        | Some evbuf => lpm_drain_buf m ix1 (pos b2) evs b2 evbuf
        | None => lpm_drain_new m ix1 (pos b2) evs b2
        end
  | _ => (m, Some LoopPanic)
  end.

(** The branches on the next timestamps. *)
Definition lpm_check_next (m : LpmMerging) (nt : NextTs) : LpmMerging * option (loop_flow (Sitem T)) :=
  match nt with
  | NextNone =>
      if (length (lpm_inps m) =? 0)%nat then
        match lpm_evbuf m with
        | Some evbuf => (lpm_set m (lpm_inps m) None, lpm_data evbuf)
        | None => (m, Some (LoopBreak (Ready None)))
        end
      else (lpm_set m [] (lpm_evbuf m), None)
  | NextOne _ ix1 => lpm_drain m ix1 mt_len
  | NextTwo _ ix1 ts2 _ => lpm_drain m ix1 (fun b2 => mt_find_pp_le b2 ts2)
  end.

Fixpoint lpm_check_loop (n : nat) (m : LpmMerging) : LpmMerging * loop_flow (Sitem T) :=
  match n with
  | O => (m, lpm_err LpmLoopTooMany)
  | Datatypes.S n =>
      let '(inps, r) := lpm_poll_all_inp (lpm_inps m) in
      let m := lpm_set m inps (lpm_evbuf m) in
      match r with
      | LoopBreak (Ready (Some (SOk (DataItem (Data _))))) =>
          match lpm_find_next_ts inps with
          | inl e => (m, lpm_err (LpmNextTs e))
          | inr nt =>
              match lpm_check_next m nt with
              | (m, Some r) => (m, r)
              | (m, None) => lpm_check_loop n m
              end
          end
      | LoopBreak (Ready (Some (SOk (DataItem RangeComplete)))) => (m, LoopBreak (Ready (Some (SOk (DataItem RangeComplete)))))
      | LoopBreak (Ready (Some (SOk (Log x)))) => (m, LoopBreak (Ready (Some (SOk (Log x)))))
      | LoopBreak (Ready (Some (SOk (Stats x)))) => (m, LoopBreak (Ready (Some (SOk (Stats x)))))
      | LoopBreak (Ready (Some (SErr e))) => (m, lpm_err e)
      | LoopBreak (Ready None) => (m, LoopBreak (Ready None))
      | LoopBreak Pending => (m, LoopBreak Pending)
      | LoopContinue | LoopFuel => (m, LoopFuel)
      | LoopPanic => (m, LoopPanic)
      end
  end.

Definition lpm_check_inputs (m : LpmMerging) : LpmMerging * loop_flow (Sitem T) := lpm_check_loop (Z.to_nat 140000) m.

(** ** [LspMerge] *)

Inductive LspMergeState : Type := LpmMergingSt (m : LpmMerging) | LpmDone.

Definition lpm_new (inps : list (list (Poll InItem))) (lsp_limit : Z) : LspMergeState :=
  LpmMergingSt (mkLpm (map (fun x => mkLpmInp (Some x) None) inps) None lsp_limit (lsp_limit / 3)).

(** [poll_next]; its loop turns once more at the end. *)
Definition lpm_poll_next (s : LspMergeState) : LspMergeState * loop_flow (Sitem T) :=
  match s with
  | LpmMergingSt m =>
      match lpm_check_inputs m with
      | (m, LoopBreak (Ready (Some (SErr e)))) => (LpmDone, LoopBreak (Ready (Some (SErr e))))
      | (m, LoopBreak (Ready None)) => (LpmDone, LoopBreak (Ready None))
      | (m, r) => (LpmMergingSt m, r)
      end
  | LpmDone => (s, LoopBreak (Ready None))
  end.

Definition lpm_run (fuel : nat) (s : LspMergeState) : option (PollStream (Sitem T)) := stream_run lpm_poll_next (fun _ => false) fuel s.

End LspMerge.
