(* ===== verification/LspMergeProofs.v ===== *)
(** * The events of merged streams

    [LspMerge] of [events3/ks/lspmerge.rs] gives the events of all its inputs, in
    order of time, in pieces that are not empty and not above the limit; it ends,
    and the limits on the turns of its loops are not met. *)
From Stdlib Require Import ZArith Lia.
From stdpp Require Import base numbers option strings list sorting.
From S2P Require Import Prelude Items TimeTypes Events StreamRun LspMultiProofs LspMerge LspMulti.

#[local] Open Scope Z_scope.
#[local] Open Scope rust_scope.

Lemma sorted_app_le {V : Type} (l1 l2 : list (Z * V)) :
  StronglySorted Z.le (l1 ++ l2).*1 <-> StronglySorted Z.le l1.*1 /\ StronglySorted Z.le l2.*1 /\ le_all l1 l2.
Proof.
  rewrite fmap_app. induction l1 as [|x l1 IH]; cbn.
  { split; [intros Hs; split; [constructor|]; split; [done|]; by intros a b ?%not_elem_of_nil|tauto]. }
  split.
  - intros [Hs Hf]%StronglySorted_inv. apply IH in Hs as (H1 & H2 & H3). rewrite Forall_app, !Forall_fmap, !Forall_forall in Hf. destruct Hf as [Hf1 Hf2].
    split; [constructor; [done|]; by rewrite Forall_fmap, Forall_forall|]. split; [done|]. intros a b [->|Ha]%elem_of_cons Hb; [by apply Hf2|by apply H3].
  - intros ([Hs Hf]%StronglySorted_inv & H2 & H3). constructor; [apply IH; split; [done|]; split; [done|]; intros a b Ha; apply H3; by right|].
    apply Forall_app. split; [done|]. rewrite Forall_fmap, Forall_forall. intros b Hb. apply H3; [by left|done].
Qed.

(** What the merge relies on besides [MergeableLaws]: the number of the first
    events that are not after a time. *)
Class MergeablePpLaws (T V : Type) `{MergeableLaws T V} : Prop :=
  mt_find_pp_le_eq : forall t ts, mt_wf t -> mt_find_pp_le t ts = partition_point (fun x => x <=? ts) (mt_events t).*1.

#[export] Instance MergeablePpLaws_ContainerEvents {V} `{EventValueType V} : MergeablePpLaws (ContainerEvents V) V.
Proof. intros t ts Hw. cbn in *. unfold ce_find_pp_le. by rewrite ce_zip_fst. Qed.

Section LspMergeProofs.
  Context {T V L S E : Type} `{MergeablePpLaws T V}.

Local Abbreviation InItem := (Sitemty L S E T).
Local Abbreviation Inp := (LpmInp (T := T) (L := L) (S := S) (E := E)).
Local Abbreviation Merg := (LpmMerging (T := T) (L := L) (S := S) (E := E)).
Local Abbreviation OutItem := (Sitemty L S (lspmerge_error (E := E)) T).
Implicit Types (inp : Inp) (m : Merg).

Definition piece_ok (c : T) : Prop := mt_wf c /\ mt_events c <> [].

(** What an input may give: no error, and no empty piece. *)
Definition in_poll_ok (p : Poll InItem) : Prop :=
  match p with Ready (SOk (DataItem (Data c))) => piece_ok c | Ready (SErr _) => False | _ => True end.

Definition pbuf_events (b : option T) : list (Z * V) := match b with Some b => mt_events b | None => [] end.
Definition pi_events (inp : Inp) : list (Z * V) :=
  pbuf_events (pi_buf inp) ++ match pi_evs inp with Some evs => polls_events evs | None => [] end.

Record pi_ok (inp : Inp) : Prop := {
  qk_evs : forall evs, pi_evs inp = Some evs -> Forall in_poll_ok evs;
  qk_buf : forall b, pi_buf inp = Some b -> piece_ok b;
  qk_sorted : StronglySorted Z.le (pi_events inp).*1
}.

Definition pis_events (inps : list Inp) : list (Z * V) := concat (map pi_events inps).
Definition pis_polls (inps : list Inp) : nat := sum_list_with (fun inp => match pi_evs inp with Some evs => length evs | None => 0 end)%nat inps.
Definition pis_open (inps : list Inp) : nat := length (List.filter pi_buf_none inps).
Definition pi_filled (inp : Inp) : Prop := pi_buf_none inp = false.

Lemma piece_len c : piece_ok c -> mt_len c <> 0%nat.
Proof. intros [Hw Hn]. rewrite mt_len_eq by done. by destruct (mt_events c). Qed.

Lemma pis_open_cons inp inps : pis_open (inp :: inps) = ((if pi_buf_none inp then 1 else 0) + pis_open inps)%nat.
Proof. unfold pis_open. cbn. by destruct (pi_buf_none inp). Qed.

(** ** [poll_all_inp] *)

Lemma lpm_poll_inps_spec inps : Forall pi_ok inps ->
  match lpm_poll_inps inps with
  | (inps', (p, w), r) => Forall pi_ok inps' /\ pis_events inps' = pis_events inps /\ (pis_polls inps' <= pis_polls inps)%nat /\ length inps' = length inps /\
      match r with
      | Some (LoopBreak (Ready (Some (SOk (DataItem (Data _)))))) => False
      | Some (LoopBreak (Ready (Some (SOk _)))) => (pis_polls inps' < pis_polls inps)%nat
      | None =>
          let kept := List.filter pi_alive inps' in
          (pis_open kept + (length inps' - length kept) <= pis_open inps)%nat /\ (p = true -> pis_open kept < pis_open inps)%nat /\
          (w = true -> pis_polls inps' < pis_polls inps)%nat /\ (p = false -> w = false -> Forall (fun inp => pi_filled inp \/ pi_alive inp = false) inps')
      | _ => False
      end
  end.
Proof.
  induction 1 as [|inp inps Hi Hinps IH]; [by repeat constructor|]. cbn [lpm_poll_inps].
  assert (Hnext : forall inp' (p w : bool), pi_ok inp' -> pi_events inp' = pi_events inp ->
    (forall n, pis_polls (inp' :: n) + (if w then 1 else 0) <= pis_polls (inp :: n))%nat ->
    ((if pi_buf_none inp' then 1 else 0) + (if p && pi_alive inp' then 1 else 0) <= (if pi_buf_none inp then 1 else 0))%nat ->
    (p = true -> pi_buf_none inp = true) -> (p = false -> w = false -> pi_filled inp' \/ pi_alive inp' = false) ->
    match (let '(inps, h, r) := lpm_poll_inps inps in (inp' :: inps, (p || h.1, w || h.2), r)) with
    | (inps', (p, w), r) => Forall pi_ok inps' /\ pis_events inps' = pis_events (inp :: inps) /\ (pis_polls inps' <= pis_polls (inp :: inps))%nat /\ length inps' = length (inp :: inps) /\
      match r with
      | Some (LoopBreak (Ready (Some (SOk (DataItem (Data _)))))) => False
      | Some (LoopBreak (Ready (Some (SOk _)))) => (pis_polls inps' < pis_polls (inp :: inps))%nat
      | None =>
          let kept := List.filter pi_alive inps' in
          (pis_open kept + (length inps' - length kept) <= pis_open (inp :: inps))%nat /\ (p = true -> pis_open kept < pis_open (inp :: inps))%nat /\
          (w = true -> pis_polls inps' < pis_polls (inp :: inps))%nat /\ (p = false -> w = false -> Forall (fun inp => pi_filled inp \/ pi_alive inp = false) inps')
      | _ => False
      end
    end).
  { intros inp' p w Hok He Hp Ho Hpo Hd. destruct (lpm_poll_inps inps) as [[inps' [p' w']] r]. destruct IH as (Hoks & Hes & Hps & Hls & Hr).
    cbn [fst snd]. split; [by constructor|]. unfold pis_events in *. cbn [map concat]. split; [by rewrite He, Hes|]. pose proof (Hp inps) as Hp1. unfold pis_polls in *. cbn [sum_list_with length] in *.
    split; [lia|]. split; [lia|]. destruct r as [[|[[[[[|]| |]|]|]|]| |]|]; try done; try lia. cbv zeta in *. destruct Hr as (Hr1 & Hr2 & Hr3 & Hr4).
    rewrite pis_open_cons. pose proof (List.filter_length_le pi_alive inps') as Hfl. cbn [List.filter].
    assert (Hdead : pi_alive inp' = false -> pi_buf_none inp' = true) by (unfold pi_alive, pi_buf_none; by destruct (pi_buf inp'), (pi_evs inp')).
    destruct (pi_alive inp') eqn:Ha; cbn [length]; rewrite ?pis_open_cons, ?andb_true_r, ?andb_false_r in *.
    - split; [lia|]. split; [|split].
      + intros [->|Hp']%orb_true_iff; [lia|specialize (Hr2 Hp'); lia].
      + intros [->|Hw']%orb_true_iff; [lia|specialize (Hr3 Hw'); lia].
      + intros [-> ->]%orb_false_iff [-> ->]%orb_false_iff. constructor; [|by apply Hr4]. destruct (Hd eq_refl eq_refl); [by left|right; congruence].
    - rewrite (Hdead eq_refl) in Ho. split; [lia|]. split; [|split].
      + intros [->|Hp']%orb_true_iff; [|specialize (Hr2 Hp'); lia]. lia.
      + intros [->|Hw']%orb_true_iff; [lia|specialize (Hr3 Hw'); lia].
      + intros [-> ->]%orb_false_iff [-> ->]%orb_false_iff. constructor; [|by apply Hr4]. destruct (Hd eq_refl eq_refl); [by left|right; congruence]. }
  unfold pi_filled, pis_polls in Hnext. destruct inp as [evs buf]. cbn [pi_evs pi_buf]. destruct buf as [buf|].
  { assert (Hl := piece_len buf (qk_buf _ Hi buf eq_refl)). rewrite (proj2 (Nat.eqb_neq _ _) Hl). apply Hnext; try done; try (intros n; cbn; lia); try (cbn; lia); by left. }
  destruct evs as [evs|]; [|apply Hnext; try done; try (intros n; cbn; lia); try (cbn; lia); by right].
  destruct evs as [|p evs].
  { apply Hnext; try done; try (intros n; cbn; lia); try (cbn; lia). split; [done|done|apply (qk_sorted _ Hi)]. }
  assert (Hp := qk_evs _ Hi _ eq_refl). apply Forall_cons_1 in Hp as [Hp Hevs]. pose proof (qk_sorted _ Hi) as Hs.
  assert (Hbrk : poll_events p = [] -> pi_ok (mkLpmInp (Some evs) None) /\ pi_events (mkLpmInp (Some evs) None) = pi_events (mkLpmInp (Some (p :: evs)) None)).
  { intros Hn. assert (Heq : pi_events (mkLpmInp (Some evs) None) = pi_events (mkLpmInp (Some (p :: evs)) None)).
    { unfold pi_events, polls_events. cbn [pi_buf pi_evs pbuf_events map concat app]. by rewrite Hn. }
    split; [|done]. split; [by intros ? [= <-]|done|by rewrite Heq]. }
  assert (Hbr : forall x, poll_events p = [] -> (match x with SOk (DataItem (Data _)) => False | SOk _ => True | _ => False end) ->
    match (mkLpmInp (Some evs) None :: inps, (true, false), Some (LoopBreak (Ready (Some x))) : option (loop_flow (Sitemty L S (lspmerge_error (E := E)) unit))) with
    | (inps', (p0, w), r) => Forall pi_ok inps' /\ pis_events inps' = pis_events (mkLpmInp (Some (p :: evs)) None :: inps) /\
      (pis_polls inps' <= pis_polls (mkLpmInp (Some (p :: evs)) None :: inps))%nat /\ length inps' = length (mkLpmInp (Some (p :: evs)) None :: inps) /\
      match r with
      | Some (LoopBreak (Ready (Some (SOk (DataItem (Data _)))))) => False
      | Some (LoopBreak (Ready (Some (SOk _)))) => (pis_polls inps' < pis_polls (mkLpmInp (Some (p :: evs)) None :: inps))%nat
      | None => True
      | _ => False
      end
    end).
  { intros x Hn Hx. destruct (Hbrk Hn) as [Hok He]. split; [by constructor|]. unfold pis_events, pis_polls. cbn [map concat sum_list_with pi_evs length]. rewrite He.
    split; [done|]. split; [lia|]. split; [done|]. destruct x as [[[|]| |]|]; try done; lia. }
  destruct p as [[[[|c]|l|t]|e]|]; try done.
  - by apply (Hbr (SOk (DataItem RangeComplete)) eq_refl).
  - rewrite (proj2 (Nat.eqb_neq _ _) (piece_len c Hp)). cbn [LPM_DO_CHECK_CONSISTENT andb]. apply Hnext; try done; try (intros n; cbn; lia); try (cbn; lia).
    split; [by intros ? [= <-]|by intros ? [= <-]|exact Hs].
  - by apply (Hbr (SOk (Log l)) eq_refl).
  - by apply (Hbr (SOk (Stats t)) eq_refl).
  - destruct (Hbrk eq_refl) as [Hok He]. apply Hnext; try done; try (intros n; cbn; lia); cbn; lia.
Qed.

Lemma lpm_keep_alive inps : Forall pi_ok inps ->
  Forall pi_ok (List.filter pi_alive inps) /\ pis_events (List.filter pi_alive inps) = pis_events inps /\ pis_polls (List.filter pi_alive inps) = pis_polls inps /\
  (length (List.filter pi_alive inps) <= length inps)%nat.
Proof.
  induction 1 as [|inp inps Hi _ (IH1 & IH2 & IH3 & IH4)]; [done|]. unfold pis_events, pis_polls in *. cbn. destruct (pi_alive inp) eqn:Ha; cbn.
  - split; [by constructor|]. rewrite IH2, IH3. repeat split; lia.
  - assert (pi_events inp = [] /\ pi_evs inp = None) as [-> ->] by (unfold pi_events, pi_alive in *; by destruct (pi_buf inp), (pi_evs inp)).
    split; [done|]. split; [done|]. split; [done|]. lia.
Qed.

Lemma lpm_poll_all_spec n inps : Forall pi_ok inps -> (pis_open inps < n)%nat ->
  match lpm_poll_all_loop n inps with
  | (inps', r) => Forall pi_ok inps' /\ pis_events inps' = pis_events inps /\ (pis_polls inps' <= pis_polls inps)%nat /\ (length inps' <= length inps)%nat /\
      match r with
      | LoopBreak (Ready (Some (SOk (DataItem (Data tt))))) => Forall pi_filled inps'
      | LoopBreak (Ready (Some (SOk _))) => (pis_polls inps' < pis_polls inps)%nat
      | LoopBreak Pending => (pis_polls inps' < pis_polls inps)%nat
      | _ => False
      end
  end.
Proof.
  revert inps. induction n as [|n IH]; intros inps Hok Hn; [lia|]. cbn [lpm_poll_all_loop]. pose proof (lpm_poll_inps_spec inps Hok) as Hs.
  destruct (lpm_poll_inps inps) as [[inps' [p w]] r]. destruct Hs as (Hok' & He & Hp & Hl & Hr). destruct r as [r|].
  { split; [done|]. split; [done|]. split; [done|]. split; [lia|]. by destruct r as [|[[[[[|[]]| |]|]|]|]| |]. }
  cbv zeta in Hr. destruct Hr as (Hr1 & Hr2 & Hr3 & Hr4). destruct (lpm_keep_alive inps' Hok') as (Kok & Ke & Kp & Kl).
  set (kept := List.filter pi_alive inps') in *. destruct (p || negb (length inps' =? length kept)%nat) eqn:Hgo.
  - assert (Hlt : (pis_open kept < pis_open inps)%nat). { apply orb_true_iff in Hgo as [Hgo|Hgo%negb_true_iff%Nat.eqb_neq]; [by apply Hr2|lia]. }
    specialize (IH kept Kok ltac:(lia)). destruct (lpm_poll_all_loop n kept) as [inps'' r]. destruct IH as (I1 & I2 & I3 & I4 & I5).
    split; [done|]. split; [congruence|]. split; [lia|]. split; [lia|]. destruct r as [|[[[[[|[]]| |]|]|]|]| |]; try done; lia.
  - apply orb_false_iff in Hgo as [-> Hlen%negb_false_iff%Nat.eqb_eq]. assert (Hkept : kept = inps') by (symmetry in Hlen; by apply filter_all_length). rewrite Hkept in *.
    destruct w; [specialize (Hr3 eq_refl); split; [done|]; split; [done|]; split; [lia|]; split; [lia|]; lia|].
    assert (Hf : Forall pi_filled inps').
    { specialize (Hr4 eq_refl eq_refl). rewrite Forall_forall in Hr4 |- *. intros inp Hin. destruct (Hr4 inp Hin) as [?|Hd]; [done|].
      assert (Hin' : inp ∈ kept) by (by rewrite Hkept). apply list_elem_of_In, filter_In in Hin' as [_ Hin']. congruence. }
    assert (List.filter pi_buf_none inps' = []) as ->; [|cbn; split; [done|]; split; [done|]; split; [done|]; split; [lia|done]].
    clear - Hf. induction Hf as [|inp inps Hi _ IH]; [done|]. cbn. unfold pi_filled in Hi. by rewrite Hi.
Qed.

(** ** Taking from the inputs *)

Definition lpm_events (m : Merg) : list (Z * V) := pbuf_events (lpm_evbuf m) ++ pis_events (lpm_inps m).

Record lpm_ok (m : Merg) : Prop := {
  pk_inps : Forall pi_ok (lpm_inps m);
  pk_len : (length (lpm_inps m) < 200)%nat;
  pk_limit : 1 <= lpm_lsp_limit m <= 139990;
  pk_minfill : lpm_lsp_minfill m <= lpm_lsp_limit m;
  pk_evbuf : forall b, lpm_evbuf m = Some b -> piece_ok b /\ (length (mt_events b) < Z.to_nat (lpm_lsp_limit m))%nat /\
    StronglySorted Z.le (mt_events b).*1 /\ le_all (mt_events b) (pis_events (lpm_inps m))
}.

(** A piece [c] is put out. *)
Record lpm_out (m : Merg) (c : T) (m' : Merg) : Prop := {
  po_ok : lpm_ok m';
  po_data : piece_ok c;
  po_len : Z.of_nat (length (mt_events c)) <= lpm_lsp_limit m;
  po_limit : lpm_lsp_limit m' = lpm_lsp_limit m;
  po_events : lpm_events m ≡ₚ mt_events c ++ lpm_events m';
  po_sorted : StronglySorted Z.le (mt_events c).*1;
  po_first : le_all (mt_events c) (lpm_events m');
  po_polls : (pis_polls (lpm_inps m') <= pis_polls (lpm_inps m))%nat
}.

Definition lpm_fill (m : Merg) : nat := match lpm_evbuf m with Some b => length (mt_events b) | None => 0 end.

(** What comes first of the input with the earliest events may be taken. *)
Record lpm_pick (inps : list Inp) (i : nat) (evs : option (list (Poll InItem))) (b : T) (n : nat) : Prop := {
  pp_at : inps !! i = Some (mkLpmInp evs (Some b));
  pp_in : pi_ok (mkLpmInp evs (Some b));
  pp_n : (1 <= n <= length (mt_events b))%nat;
  pp_first : forall k e, (k <= n)%nat -> e ∈ take k (mt_events b) -> forall j inp e', j <> i -> inps !! j = Some inp -> e' ∈ pi_events inp -> e.1 <= e'.1
}.

Lemma lpm_pick_spec inps i evs b n k inp' : Forall pi_ok inps -> lpm_pick inps i evs b n -> (k <= n)%nat ->
  pi_events inp' = drop k (mt_events b) ++ match evs with Some evs => polls_events evs | None => [] end -> pi_evs inp' = evs ->
  (forall b, pi_buf inp' = Some b -> piece_ok b) ->
  Forall pi_ok (<[i := inp']> inps) /\ pis_events inps ≡ₚ take k (mt_events b) ++ pis_events (<[i := inp']> inps) /\
  StronglySorted Z.le (take k (mt_events b)).*1 /\ le_all (take k (mt_events b)) (pis_events (<[i := inp']> inps)) /\
  (pis_polls (<[i := inp']> inps) <= pis_polls inps)%nat.
Proof.
  intros Hok [Hat Hin Hn Hfirst] Hk He Hevs Hbuf. pose proof (qk_sorted _ Hin) as Hs.
  assert (Hev : pi_events (mkLpmInp evs (Some b)) = take k (mt_events b) ++ pi_events inp').
  { unfold pi_events at 1. cbn [pi_buf pi_evs pbuf_events]. by rewrite He, app_assoc, take_drop. }
  rewrite Hev in Hs. apply sorted_app_le in Hs as (Hs1 & Hs2 & Hs3).
  split; [|split; [|split; [done|split]]].
  - apply Forall_insert; [done|]. split; [|done|done]. intros evs' He'. apply (qk_evs _ Hin). cbn. congruence.
  - by eapply concat_insert.
  - intros x y Hx (j & inp & Hj & Hy)%concat_elem. destruct (decide (i = j)) as [<-|Hne].
    + rewrite list_lookup_insert_eq in Hj by (by eapply lookup_lt_Some). injection Hj as <-. by apply Hs3.
    + rewrite list_lookup_insert_ne in Hj by done. by eapply (Hfirst k x Hk Hx j inp y).
  - eapply sum_list_with_insert_le; [done|]. cbn. by rewrite Hevs.
Qed.

Lemma lpm_firsts inps : Forall pi_ok inps -> Forall pi_filled inps ->
  exists tss, map (fun inp => match pi_buf inp with Some buf => Some (mt_ts_min buf) | None => None end) inps = map (fun t => Some (Some t)) tss /\
    Forall2 (fun inp t => (exists evs b, inp = mkLpmInp evs (Some b) /\ head (mt_events b).*1 = Some t) /\ forall e, e ∈ pi_events inp -> t <= e.1) inps tss.
Proof.
  induction 1 as [|inp inps Hi _ IH]; intros Hf; [by exists []|]. apply Forall_cons_1 in Hf as [Hf Hfs]. destruct (IH Hfs) as (tss & Hm & H2').
  destruct inp as [evs [b|]]; [|done]. destruct (qk_buf _ Hi b eq_refl) as [Hw Hne]. pose proof (qk_sorted _ Hi) as Hs. unfold pi_events in Hs. cbn [pi_buf pi_evs pbuf_events] in Hs.
  destruct (mt_events b) as [|e zs] eqn:Hz; [done|]. exists (e.1 :: tss). split.
  - cbn [map pi_buf]. by rewrite Hm, mt_ts_min_eq, Hz by done.
  - constructor; [|done]. split; [exists evs, b; by rewrite Hz|]. unfold pi_events. cbn [pi_buf pi_evs pbuf_events]. rewrite Hz.
    change ((e :: zs) ++ ?l) with (e :: (zs ++ l)) in Hs |- *. cbn in Hs. apply StronglySorted_inv in Hs as [_ Hs]. rewrite Forall_fmap, Forall_forall in Hs.
    intros x [->|Hx]%elem_of_cons; [lia|]. by apply Hs.
Qed.

Lemma lpm_next_pick inps : Forall pi_ok inps -> Forall pi_filled inps ->
  exists nt, lpm_find_next_ts inps = inr nt /\
    match nt with
    | NextNone => inps = []
    | NextOne _ i => exists evs b, lpm_pick inps i evs b (mt_len b)
    | NextTwo _ i t2 _ => exists evs b, lpm_pick inps i evs b (mt_find_pp_le b t2)
    end.
Proof.
  intros Hok Hf. destruct (lpm_firsts inps Hok Hf) as (tss & Hm & Hf2). pose proof (next_ts_spec tss) as Hn. rewrite <- Hm in Hn.
  change (next_ts_loop _ 0 None None) with (lpm_find_next_ts inps) in Hn. destruct (lpm_find_next_ts inps) as [|nt]; [done|]. exists nt. split; [done|].
  assert (Hget : forall i t, tss !! i = Some t -> exists evs b, inps !! i = Some (mkLpmInp evs (Some b)) /\ pi_ok (mkLpmInp evs (Some b)) /\ piece_ok b /\ head (mt_events b).*1 = Some t).
  { intros i t Hi. destruct (Forall2_lookup_r _ _ _ _ _ Hf2 Hi) as (inp & Hl & (evs & b & -> & Hh) & _). exists evs, b. split; [done|].
    rewrite Forall_forall in Hok. assert (Hin := Hok _ (list_elem_of_lookup_2 _ _ _ Hl)). split; [done|]. split; [by apply (qk_buf _ Hin)|done]. }
  destruct nt as [|t1 i1|t1 i1 t2 i2].
  - subst tss. by apply Forall2_nil_inv_r in Hf2.
  - destruct Hn as [-> ->]. destruct (Hget O t1 eq_refl) as (evs & b & Hl & Hin & [Hw Hne] & _). exists evs, b. split; [done|done| |].
    + rewrite mt_len_eq by done. destruct (mt_events b); [done|cbn; lia].
    + intros k e _ _ j inp e' Hj Hlj. apply Forall2_length in Hf2. apply lookup_lt_Some in Hlj. cbn in Hf2. lia.
  - destruct Hn as (H1' & _ & Hne & Hle & Hall). destruct (Hget i1 t1 H1') as (evs & b & Hl & Hin & [Hw Hnb] & Hh). exists evs, b.
    rewrite mt_find_pp_le_eq by done. pose proof (partition_point_le (fun x => x <=? t2) (mt_events b).*1) as Hp. rewrite length_fmap in Hp. split; [done|done| |].
    + split; [|done]. destruct (mt_events b) as [|e zs]; [done|]. cbn in Hh |- *. injection Hh as ->. rewrite (proj2 (Z.leb_le _ _) Hle). lia.
    + intros k e Hk He j inp e' Hj Hlj He'. destruct (Forall2_lookup_l _ _ _ _ _ Hf2 Hlj) as (t & Ht & _ & Hte). specialize (Hte e' He'). specialize (Hall j t Ht Hj).
      pose proof (partition_point_take (fun x => x <=? t2) (mt_events b).*1) as Hpt. rewrite <- fmap_take, Forall_fmap, Forall_forall in Hpt.
      assert (He2 : e ∈ take (partition_point (fun x => x <=? t2) (mt_events b).*1) (mt_events b)).
      { apply list_elem_of_lookup in He as [q Hq]. apply list_elem_of_lookup. exists q. apply lookup_take_Some in Hq as [Hq Hlt]. rewrite lookup_take_lt by lia. done. }
      specialize (Hpt e He2). cbn in Hpt. lia.
Qed.

(** Or a buffer is begun or filled. *)
Record lpm_cont (m m' : Merg) : Prop := {
  pc_ok : lpm_ok m';
  pc_limit : lpm_lsp_limit m' = lpm_lsp_limit m;
  pc_events : lpm_events m ≡ₚ lpm_events m';
  pc_polls : (pis_polls (lpm_inps m') <= pis_polls (lpm_inps m))%nat;
  pc_fill : (lpm_fill m < lpm_fill m')%nat
}.

Definition lpm_drained (m : Merg) (r : Merg * option (loop_flow OutItem)) : Prop :=
  match r with
  | (m', Some (LoopBreak (Ready (Some (SOk (DataItem (Data c))))))) => lpm_out m c m'
  | (m', None) => lpm_cont m m'
  | _ => False
  end.

(** What is left of a buffer. *)
Lemma lpm_left evs b : mt_wf b ->
  let inp := mkLpmInp evs (if (mt_len b =? 0)%nat then None else Some b) : Inp in
  pi_events inp = mt_events b ++ match evs with Some evs => polls_events evs | None => [] end /\ (forall b, pi_buf inp = Some b -> piece_ok b).
Proof.
  intros Hw inp. unfold inp, pi_events. cbn [pi_buf pi_evs]. rewrite mt_len_eq by done. destruct (mt_events b) as [|e zs] eqn:Hz; cbn [length Nat.eqb pbuf_events].
  - by split.
  - rewrite Hz. split; [done|]. intros ? [= <-]. split; [done|by rewrite Hz].
Qed.

Lemma le_all_app_l (l1 l2 k : list (Z * V)) : le_all l1 k -> le_all l2 k -> le_all (l1 ++ l2) k.
Proof. intros H1' H2' a b [Ha|Ha]%elem_of_app Hb; [by apply H1'|by apply H2']. Qed.

Lemma lpm_drain_buf_spec m i evs b n eb : lpm_ok m -> lpm_evbuf m = Some eb -> lpm_pick (lpm_inps m) i evs b n -> lpm_drained m (lpm_drain_buf m i n evs b eb).
Proof.
  intros Hok Heb Hp. destruct (pk_evbuf _ Hok eb Heb) as ([Hwe Hne] & Hle & Hse & Hfe). destruct (pk_limit _ Hok) as [Hl0 Hl1]. pose proof (pp_n _ _ _ _ _ Hp) as Hn.
  assert (Hwb : mt_wf b) by apply (qk_buf _ (pp_in _ _ _ _ _ Hp) b eq_refl). unfold lpm_drain_buf. rewrite !mt_len_eq by done.
  rewrite (proj2 (Z.leb_gt _ _)) by lia. cbv zeta. set (k := Nat.min n _).
  assert (Hk : (1 <= k <= n)%nat /\ (length (mt_events eb) + k <= Z.to_nat (lpm_lsp_limit m))%nat) by lia. clearbody k.
  destruct (mt_drain_into_eq (lspmerge_error (E := E)) b eb k Hwb Hwe ltac:(lia)) as (b' & eb' & -> & Hwb' & Hweb' & Hb' & Heb').
  rewrite !mt_len_eq by done. cbn [LPM_DO_CHECK_CONSISTENT andb]. rewrite (proj2 (Nat.leb_gt _ _)) by (rewrite Hb', length_drop; lia).
  assert (Hlen : length (mt_events eb') = (length (mt_events eb) + k)%nat) by (rewrite Heb', length_app, length_take; lia).
  rewrite (proj2 (Z.ltb_ge _ _)) by (cbn; lia). rewrite <- (mt_len_eq b') by done.
  destruct (lpm_left evs b' Hwb') as [He Hbuf]. set (inp' := mkLpmInp evs _) in *. rewrite Hb' in He.
  destruct (lpm_pick_spec (lpm_inps m) i evs b n k inp' (pk_inps _ Hok) Hp ltac:(lia) He eq_refl Hbuf) as (Hok' & Hperm & Hsz & Hfz & Hpolls).
  assert (Hsub : le_all (mt_events eb) (take k (mt_events b)) /\ le_all (mt_events eb) (pis_events (<[i := inp']> (lpm_inps m)))).
  { split; intros x y Hx Hy; apply (Hfe x y Hx); rewrite Hperm; apply elem_of_app; auto. }
  destruct Hsub as [Hsub1 Hsub2]. assert (Hs' : StronglySorted Z.le (mt_events eb').*1) by (rewrite Heb'; by apply sorted_app_le).
  assert (Hf' : le_all (mt_events eb') (pis_events (<[i := inp']> (lpm_inps m)))) by (rewrite Heb'; by apply le_all_app_l).
  assert (Hev : lpm_events m ≡ₚ mt_events eb' ++ pis_events (<[i := inp']> (lpm_inps m))).
  { unfold lpm_events. rewrite Heb. cbn [pbuf_events]. by rewrite Hperm, Heb', <- app_assoc. }
  assert (Hpeb : piece_ok eb') by (split; [done|]; intros Hz; rewrite Hz in Hlen; cbn in Hlen; lia).
  cbn [lpm_set lpm_lsp_limit lpm_inps]. destruct (Z.leb_spec (lpm_lsp_limit m) (Z.of_nat (length (mt_events eb')))).
  - split; try done; cbn [lpm_set lpm_lsp_limit lpm_inps]; [|lia]. split; cbn; try done; [by rewrite length_insert; apply (pk_len _ Hok)|apply (pk_minfill _ Hok)].
  - split; try done; [|unfold lpm_fill; cbn; rewrite Heb; lia]. split; cbn; try done; [by rewrite length_insert; apply (pk_len _ Hok)|apply (pk_minfill _ Hok)|].
    intros ? [= <-]. split; [done|]. split; [lia|]. by split.
Qed.

Lemma lpm_drain_new_spec m i evs b n : lpm_ok m -> lpm_evbuf m = None -> lpm_pick (lpm_inps m) i evs b n -> lpm_drained m (lpm_drain_new m i n evs b).
Proof.
  intros Hok Heb Hp. destruct (pk_limit _ Hok) as [Hl0 Hl1]. pose proof (pp_n _ _ _ _ _ Hp) as Hn.
  assert (Hpb : piece_ok b) by apply (qk_buf _ (pp_in _ _ _ _ _ Hp) b eq_refl). destruct Hpb as [Hwb Hneb]. unfold lpm_drain_new. rewrite !mt_len_eq by done. cbv zeta.
  assert (Hev0 : lpm_events m = pis_events (lpm_inps m)) by (unfold lpm_events; by rewrite Heb).
  destruct ((length (mt_events b) <=? n)%nat && (Z.of_nat (length (mt_events b)) <=? lpm_lsp_limit m)) eqn:Hall.
  { apply andb_true_iff in Hall as [Hall%Nat.leb_le Hlim%Z.leb_le]. set (inp' := mkLpmInp evs None : Inp).
    destruct (lpm_pick_spec (lpm_inps m) i evs b n (length (mt_events b)) inp' (pk_inps _ Hok) Hp Hall) as (Hok' & Hperm & Hsz & Hfz & Hpolls); [unfold pi_events; cbn; by rewrite drop_all|done|done|].
    rewrite take_ge in Hperm, Hsz, Hfz by done. split; try done; [|by rewrite Hev0].
    split; cbn; try done; [by rewrite length_insert; apply (pk_len _ Hok)|apply (pk_minfill _ Hok)]. }
  set (k := Nat.min n _). assert (Hk : (1 <= k <= n)%nat /\ (k <= Z.to_nat (lpm_lsp_limit m))%nat) by lia. clearbody k.
  destruct (mt_drain_into_new_eq (lspmerge_error (E := E)) b k Hwb ltac:(lia)) as (b' & c & -> & Hwb' & Hwc & Hb' & Hc).
  cbn [LPM_DO_CHECK_CONSISTENT andb]. rewrite (mt_len_eq c) by done. assert (Hlc : length (mt_events c) = k) by (rewrite Hc, length_take; lia).
  rewrite (proj2 (Nat.leb_gt _ _)) by (rewrite mt_len_eq by done; rewrite Hb', length_drop; lia). cbn [lpm_set lpm_lsp_limit lpm_inps lpm_lsp_minfill].
  rewrite (proj2 (Z.ltb_ge _ _)) by lia.
  destruct (lpm_left evs b' Hwb') as [He Hbuf]. set (inp' := mkLpmInp evs _) in *. rewrite Hb' in He.
  destruct (lpm_pick_spec (lpm_inps m) i evs b n k inp' (pk_inps _ Hok) Hp ltac:(lia) He eq_refl Hbuf) as (Hok' & Hperm & Hsz & Hfz & Hpolls). rewrite <- Hc in *.
  assert (Hpc : piece_ok c) by (split; [done|]; intros Hz; rewrite Hz in Hlc; cbn in Hlc; lia).
  destruct (Z.leb_spec (lpm_lsp_minfill m) (Z.of_nat (length (mt_events c)))).
  - split; try done; [|lia|by rewrite Hev0]. split; cbn; try done; [by rewrite length_insert; apply (pk_len _ Hok)|apply (pk_minfill _ Hok)].
  - pose proof (pk_minfill _ Hok). split; try done; [|by rewrite Hev0|unfold lpm_fill; cbn; rewrite Heb; lia]. split; cbn; try done; [by rewrite length_insert; apply (pk_len _ Hok)|].
    intros ? [= <-]. split; [done|]. split; [lia|]. by split.
Qed.

(** ** The loop of [check_inputs] *)

(** A stage that gives nothing away. *)
Record lpm_same (m m' : Merg) : Prop := {
  sm_ok : lpm_ok m';
  sm_limit : lpm_lsp_limit m' = lpm_lsp_limit m;
  sm_events : lpm_events m ≡ₚ lpm_events m';
  sm_polls : (pis_polls (lpm_inps m') <= pis_polls (lpm_inps m))%nat
}.

Lemma lpm_same_out m m' c m'' : lpm_same m m' -> lpm_out m' c m'' -> lpm_out m c m''.
Proof. intros [] []. split; try done; [congruence|congruence|by rewrite sm_events0|lia]. Qed.

Lemma lpm_cont_same m m' : lpm_cont m m' -> lpm_same m m'.
Proof. intros []. by split. Qed.

Lemma lpm_same_trans m1 m2 m3 : lpm_same m1 m2 -> lpm_same m2 m3 -> lpm_same m1 m3.
Proof. intros [] []. split; try done; [congruence|by rewrite sm_events0|lia]. Qed.

Lemma lpm_set_inps_same m inps : lpm_ok m -> Forall pi_ok inps -> pis_events inps = pis_events (lpm_inps m) -> (pis_polls inps <= pis_polls (lpm_inps m))%nat ->
  (length inps <= length (lpm_inps m))%nat -> lpm_same m (lpm_set m inps (lpm_evbuf m)).
Proof.
  intros Hok Hi He Hp Hl. split; cbn [lpm_set lpm_inps lpm_lsp_limit]; try done; [|unfold lpm_events; cbn [lpm_set lpm_evbuf lpm_inps]; by rewrite He].
  destruct Hok. split; cbn [lpm_set lpm_evbuf lpm_inps lpm_lsp_limit lpm_lsp_minfill]; try done; [lia|]. intros b Hb. rewrite He. by apply pk_evbuf0.
Qed.

Lemma lpm_drain_spec m i (pos : T -> nat) : lpm_ok m -> (exists evs b, lpm_pick (lpm_inps m) i evs b (pos b)) -> lpm_drained m (lpm_drain m i pos).
Proof.
  intros Hok (evs & b & Hp). unfold lpm_drain. rewrite (pp_at _ _ _ _ _ Hp). cbn [LPM_DO_CHECK_CONSISTENT andb].
  destruct (lpm_evbuf m) as [eb|] eqn:Heb; [by apply lpm_drain_buf_spec|by apply lpm_drain_new_spec].
Qed.

Definition lpm_polled (m : Merg) (r : Merg * loop_flow OutItem) : Prop :=
  match r with
  | (m', LoopBreak (Ready (Some (SOk (DataItem (Data c)))))) => lpm_out m c m'
  | (m', LoopBreak (Ready (Some (SOk _)))) | (m', LoopBreak Pending) => lpm_same m m' /\ (pis_polls (lpm_inps m') < pis_polls (lpm_inps m))%nat
  | (m', LoopBreak (Ready None)) => lpm_events m = []
  | _ => False
  end.

Lemma lpm_polled_same m m' r : lpm_same m m' -> lpm_polled m' r -> lpm_polled m r.
Proof.
  intros Hs. assert (Hs' := Hs). destruct Hs' as [_ _ He Hp]. destruct r as [m'' [|[[[[[|c]|l|t]|e]|]|]| |]]; cbn; try done.
  - intros [Hss Hlt]. split; [by eapply lpm_same_trans|lia].
  - by apply lpm_same_out.
  - intros [Hss Hlt]. split; [by eapply lpm_same_trans|lia].
  - intros [Hss Hlt]. split; [by eapply lpm_same_trans|lia].
  - intros Hn. rewrite Hn in He. by apply Permutation_nil_r in He.
  - intros [Hss Hlt]. split; [by eapply lpm_same_trans|lia].
Qed.

Lemma lpm_fill_lt m : lpm_ok m -> (lpm_fill m < Z.to_nat (lpm_lsp_limit m))%nat.
Proof. intros Hok. unfold lpm_fill. destruct (lpm_evbuf m) as [b|] eqn:Hb; [by apply (pk_evbuf _ Hok)|]. destruct (pk_limit _ Hok). lia. Qed.

Lemma lpm_check_loop_spec n m : lpm_ok m -> (Z.to_nat (lpm_lsp_limit m) < n + lpm_fill m)%nat -> lpm_polled m (lpm_check_loop n m).
Proof.
  revert m. induction n as [|n IH]; intros m Hok Hn; [pose proof (lpm_fill_lt m Hok); lia|]. cbn [lpm_check_loop].
  assert (Hopen : (pis_open (lpm_inps m) < 200)%nat).
  { pose proof (pk_len _ Hok). pose proof (List.filter_length_le pi_buf_none (lpm_inps m)). unfold pis_open. lia. }
  pose proof (lpm_poll_all_spec 200 (lpm_inps m) (pk_inps _ Hok) Hopen) as Hs. unfold lpm_poll_all_inp.
  destruct (lpm_poll_all_loop 200 (lpm_inps m)) as [inps r]. destruct Hs as (Hi & He & Hp & Hl & Hr).
  pose proof (lpm_set_inps_same m inps Hok Hi He Hp Hl) as Hsame. set (m1 := lpm_set m inps (lpm_evbuf m)) in *.
  destruct r as [|[[[[[|[]]|l|t]|e]|]|]| |]; try done.
  destruct (lpm_next_pick inps Hi Hr) as (nt & -> & Hnt). apply (lpm_polled_same m m1); [done|]. assert (Hok1 := sm_ok _ _ Hsame).
  assert (Hgo : forall r, lpm_drained m1 r -> lpm_polled m1 (match r with (m, Some r) => (m, r) | (m, None) => lpm_check_loop n m end)).
  { intros [m2 [r|]]; [by destruct r as [|[[[[[|]| |]|]|]|]| |]|]. cbn. intros Hc. apply (lpm_polled_same m1 m2); [by apply lpm_cont_same|].
    apply IH; [apply (pc_ok _ _ Hc)|]. rewrite (pc_limit _ _ Hc). pose proof (pc_fill _ _ Hc). change (lpm_lsp_limit m1) with (lpm_lsp_limit m). change (lpm_fill m1) with (lpm_fill m) in *. lia. }
  destruct nt as [|t1 i1|t1 i1 t2 i2]; cbn [lpm_check_next].
  - subst inps. cbn [m1 lpm_set lpm_inps lpm_evbuf length Nat.eqb]. destruct (lpm_evbuf m) as [eb|] eqn:Heb; [|unfold lpm_polled, lpm_events; cbn; rewrite ?Heb; done].
    destruct (pk_evbuf _ Hok eb Heb) as (Hpe & Hle & Hse & _). cbn. destruct (pk_limit _ Hok). split; cbn; try done; try lia; [|by intros a b _ ?%not_elem_of_nil].
    destruct Hok1. by split; cbn.
  - by apply Hgo, lpm_drain_spec.
  - apply Hgo. by apply (lpm_drain_spec m1 i1 (fun b2 => mt_find_pp_le b2 t2)).
Qed.

(** ** The run *)

Definition out_ok (limit : Z) (p : Poll OutItem) : Prop :=
  match p with
  | Ready (SOk (DataItem (Data c))) => piece_ok c /\ Z.of_nat (length (mt_events c)) <= limit
  | Ready (SErr _) => False
  | _ => True
  end.

Lemma lpm_run_gives n m : lpm_ok m -> (length (lpm_events m) + pis_polls (lpm_inps m) < n)%nat ->
  exists r, (forall fuel, (n <= fuel)%nat -> lpm_run fuel (LpmMergingSt m) = Some r) /\
    ps_panics r = false /\ Forall (out_ok (lpm_lsp_limit m)) (ps_polls r) /\ StronglySorted Z.le (polls_events (ps_polls r)).*1 /\ polls_events (ps_polls r) ≡ₚ lpm_events m.
Proof.
  revert m. induction n as [|n IH]; intros m Hok Hn; [lia|].
  assert (Hs : lpm_polled m (lpm_check_inputs m)).
  { apply lpm_check_loop_spec; [done|]. destruct (pk_limit _ Hok). lia. }
  assert (Hgo : forall p m', lpm_ok m' -> (length (lpm_events m') + pis_polls (lpm_inps m') < n)%nat -> lpm_lsp_limit m' = lpm_lsp_limit m ->
    (forall fuel r', lpm_run fuel (LpmMergingSt m') = Some r' -> lpm_run (Datatypes.S fuel) (LpmMergingSt m) = Some (ps_cons p r')) ->
    out_ok (lpm_lsp_limit m) p -> StronglySorted Z.le (poll_events p).*1 -> lpm_events m ≡ₚ poll_events p ++ lpm_events m' -> le_all (poll_events p) (lpm_events m') ->
    exists r, (forall fuel, (Datatypes.S n <= fuel)%nat -> lpm_run fuel (LpmMergingSt m) = Some r) /\
    ps_panics r = false /\ Forall (out_ok (lpm_lsp_limit m)) (ps_polls r) /\ StronglySorted Z.le (polls_events (ps_polls r)).*1 /\ polls_events (ps_polls r) ≡ₚ lpm_events m).
  { intros p m' Hok' Hm Hlim Hrun Hp Hsp He Hle. destruct (IH m' Hok' Hm) as (r & Hr & Hpa & Hall & Hso & Hpe). rewrite Hlim in Hall.
    exists (ps_cons p r). split; [intros [|fuel] Hf; [lia|apply Hrun, Hr; lia]|]. split; [done|]. cbn [ps_cons ps_polls]. split; [by constructor|].
    unfold polls_events in *. cbn [map concat]. split; [|by rewrite He, Hpe]. apply sorted_app_le. split; [done|]. split; [done|]. intros a b Ha Hb. rewrite Hpe in Hb. by apply Hle. }
  assert (Hturn : forall m' r, lpm_check_inputs m = (m', r) -> match r with LoopBreak (Ready (Some (SOk _))) | LoopBreak Pending => True | _ => False end ->
    lpm_poll_next (LpmMergingSt m) = (LpmMergingSt m', r)).
  { intros m' r Hr Hk. unfold lpm_poll_next. rewrite Hr. by destruct r as [|[[[|]|]|]| |]. }
  assert (Hother : forall m', lpm_same m m' /\ (pis_polls (lpm_inps m') < pis_polls (lpm_inps m))%nat -> (length (lpm_events m') + pis_polls (lpm_inps m') < n)%nat).
  { intros m' [[_ _ He _] Hlt]. apply Permutation_length in He. lia. }
  destruct (lpm_check_inputs m) as [m' r] eqn:Hc. specialize (Hturn m' r eq_refl). destruct r as [|[[[[[|c]|l|t]|e]|]|]| |]; try done; cbn in Hs.
  2: { destruct Hs as [H1' H2' H3' H4' H5' H6' H7' H8']. apply (Hgo (Ready (SOk (DataItem (Data c)))) m'); try done.
       - apply Permutation_length in H5'. rewrite length_app in H5'. assert (length (mt_events c) <> 0)%nat by (destruct H2' as [_ Hne]; by destruct (mt_events c)). lia.
       - intros fuel r' Hr'. unfold lpm_run in *. cbn [stream_run]. rewrite (Hturn I). by rewrite Hr'. }
  4: { exists ps_empty. rewrite Hs. split; [|by repeat constructor]. intros [|fuel] Hf; [lia|]. unfold lpm_run. cbn [stream_run lpm_poll_next]. by rewrite Hc. }
  all: pose proof (Hother m' Hs) as Hm; destruct Hs as [[G1 G2 G3 G4] G5].
  - apply (Hgo (Ready (SOk (DataItem RangeComplete))) m'); try done; [|constructor|by intros a b ?%not_elem_of_nil]. intros fuel r' Hr'. unfold lpm_run in *. cbn [stream_run]. rewrite (Hturn I). by rewrite Hr'.
  - apply (Hgo (Ready (SOk (Log l))) m'); try done; [|constructor|by intros a b ?%not_elem_of_nil]. intros fuel r' Hr'. unfold lpm_run in *. cbn [stream_run]. rewrite (Hturn I). by rewrite Hr'.
  - apply (Hgo (Ready (SOk (Stats t))) m'); try done; [|constructor|by intros a b ?%not_elem_of_nil]. intros fuel r' Hr'. unfold lpm_run in *. cbn [stream_run]. rewrite (Hturn I). by rewrite Hr'.
  - apply (Hgo Pending m'); try done; [|constructor|by intros a b ?%not_elem_of_nil]. intros fuel r' Hr'. unfold lpm_run in *. cbn [stream_run]. rewrite (Hturn I). by rewrite Hr'.
Qed.

Lemma lpm_new_ok (inps : list (list (Poll InItem))) (limit : Z) :
  Forall (fun evs => Forall in_poll_ok evs /\ StronglySorted Z.le (polls_events evs).*1) inps -> (length inps < 200)%nat -> 1 <= limit <= 139990 ->
  exists m : Merg, lpm_new inps limit = LpmMergingSt m /\ lpm_ok m /\ lpm_lsp_limit m = limit /\ lpm_events m = concat (map polls_events inps).
Proof.
  intros Hi Hl Hlim. eexists. split; [done|]. split; [|split; [done|unfold lpm_events, pis_events; cbn; by rewrite map_map]].
  split; cbn; [|by rewrite length_map|done|apply Z.div_le_upper_bound; lia|done]. apply Forall_fmap. eapply Forall_impl; [exact Hi|]. intros evs [He Hs].
  split; [by intros ? [= <-]|done|exact Hs].
Qed.

(** C9. [LspMerge] puts out exactly the events of its inputs, each of which is in
    order of time, in order of time, in pieces that are not empty and not longer
    than the limit; it ends without an error, and the limits on the turns of its
    loops are not met, for up to 199 inputs with any pauses. *)
Theorem lspmerge_merges (inps : list (list (Poll InItem))) (limit : Z) :
  Forall (fun evs => Forall in_poll_ok evs /\ StronglySorted Z.le (polls_events evs).*1) inps -> (length inps < 200)%nat -> 1 <= limit <= 139990 ->
  exists n r, (forall fuel, (n <= fuel)%nat -> lpm_run fuel (lpm_new inps limit) = Some r) /\
    ps_panics r = false /\ Forall (out_ok limit) (ps_polls r) /\ StronglySorted Z.le (polls_events (ps_polls r)).*1 /\
    polls_events (ps_polls r) ≡ₚ concat (map polls_events inps).
Proof.
  intros Hi Hl Hlim. destruct (lpm_new_ok inps limit Hi Hl Hlim) as (m & -> & Hok & <- & <-).
  destruct (lpm_run_gives _ m Hok (Nat.lt_succ_diag_r _)) as (r & Hr & Hall). eexists _, r. split; [exact Hr|]. done.
Qed.

End LspMergeProofs.

(** ** Example *)
Section LspMergeExample.
#[local] Existing Instance EventValueType_Z.

Definition piece_poll (tss vals : list Z) : Poll (Sitemty unit unit unit (ContainerEvents Z)) := Ready (SOk (DataItem (Data (ce_from_constituents tss vals)))).
Definition lspmerge_inputs : list (list (Poll (Sitemty unit unit unit (ContainerEvents Z)))) :=
  [[piece_poll [1; 4] [10; 40]; Pending; piece_poll [6; 6] [60; 61]]; []; [Ready (SOk (Log tt)); piece_poll [2; 6; 9] [20; 62; 90]]].

Lemma lspmerge_merges_witness :
  exists n r, (forall fuel, (n <= fuel)%nat -> lpm_run fuel (lpm_new lspmerge_inputs 3) = Some r) /\
    ps_panics r = false /\ Forall (out_ok 3) (ps_polls r) /\ StronglySorted Z.le (polls_events (ps_polls r)).*1 /\
    polls_events (ps_polls r) ≡ₚ concat (map (polls_events (V := Z)) lspmerge_inputs).
Proof.
  apply (lspmerge_merges (V := Z) lspmerge_inputs 3).
  - repeat (constructor; [split; [repeat constructor; by vm_compute|apply (bool_decide_unpack _); vm_compute; exact I]|]). constructor.
  - apply (bool_decide_unpack _); vm_compute; exact I.
  - apply (bool_decide_unpack _); vm_compute; exact I.
Defined.

End LspMergeExample.
