(* ===== verification/ReadAdapters.v ===== *)
(** * Adapters of a stream of events

    [WithLenHisto] of [withlenhisto.rs] and [Dedup] of [dedup.rs] of
    [daqbuf-streams/src]: a stream with a message about the lengths of its pieces at
    the end, and one without the events whose time is not above those before. Their
    inputs are what a consumer sees of them ([StreamRun]). *)
From Stdlib Require Import ZArith Lia.
From stdpp Require Import base numbers option strings list sorting.
From S2P Require Import Prelude Items TimeTypes Events StreamRun EvStore LspMultiProofs LspMergeProofs.

#[local] Open Scope Z_scope.
#[local] Open Scope rust_scope.

(** ** [WithLenHisto] *)

Section WithLenHisto.
  Context {T St E : Type} `{MergeableTy T}.

Local Abbreviation Item := (Sitemty ReadLog St E T).

Record WithLenHisto : Type := mkWlh { wlh_inp : option (list (Poll Item)); wlh_histo : list Z; wlh_name : string }.

Definition wlh_new (inp : list (Poll Item)) (name : string) : WithLenHisto := mkWlh (Some inp) (repeat 0 32) name.

Definition u32_leading_zeros (x : Z) : Z := if x =? 0 then 32 else 31 - Z.log2 x.

Definition wlh_poll_next (s : WithLenHisto) : WithLenHisto * loop_flow Item :=
  match wlh_inp s with
  | Some (Ready (SOk (DataItem (Data x))) :: inp) =>
      let n := 32 - u32_leading_zeros (wrap 32 (Z.of_nat (mt_len x))) in
      match wlh_histo s !! Z.to_nat n with
      | Some c =>
          (mkWlh (Some inp) (<[Z.to_nat n := u32_add c 1]> (wlh_histo s)) (wlh_name s), LoopBreak (Ready (Some (SOk (DataItem (Data x))))))
      | None => (mkWlh (Some inp) (wlh_histo s) (wlh_name s), LoopPanic)
      end
  | Some (Ready x :: inp) => (mkWlh (Some inp) (wlh_histo s) (wlh_name s), LoopBreak (Ready (Some x)))
  | Some (Pending :: inp) => (mkWlh (Some inp) (wlh_histo s) (wlh_name s), LoopBreak Pending)
  | Some [] => (mkWlh None (wlh_histo s) (wlh_name s), LoopBreak (Ready (Some (SOk (Log (RlLenHisto (wlh_histo s) (wlh_name s)))))))
  | None => (s, LoopBreak (Ready None))
  end.

Definition wlh_run (fuel : nat) (s : WithLenHisto) : option (PollStream Item) := stream_run wlh_poll_next (fun _ => false) fuel s.

(** Pieces that a [u32] counts below its highest bit. *)
Definition len_ok (p : Poll Item) : Prop := match p with Ready (SOk (DataItem (Data c))) => Z.of_nat (mt_len c) < 2 ^ 31 | _ => True end.

Lemma wlh_index n : 0 <= n < 2 ^ 31 -> 0 <= 32 - u32_leading_zeros (wrap 32 n) < 32.
Proof.
  intros Hn. rewrite wrap_small by (unfold in_u; lia). unfold u32_leading_zeros. destruct (Z.eqb_spec n 0); [lia|].
  assert (Z.log2 n < 31) by (apply Z.log2_lt_pow2; lia). pose proof (Z.log2_nonneg n). lia.
Qed.

Lemma wlh_run_gives inp histo name : Forall len_ok inp -> length histo = 32%nat ->
  exists histo', forall fuel, (length inp + 2 <= fuel)%nat ->
    wlh_run fuel (mkWlh (Some inp) histo name) = Some (mkPollStream (inp ++ [Ready (SOk (Log (RlLenHisto histo' name)))]) false).
Proof.
  revert histo. induction inp as [|p inp IH]; intros histo Hl Hh.
  { exists histo. intros [|[|fuel]] Hf; cbn in Hf; try lia. done. }
  apply Forall_cons_1 in Hl as [Hp Hl].
  assert (Hgo : forall histo1, length histo1 = 32%nat -> (forall fuel r, wlh_run fuel (mkWlh (Some inp) histo1 name) = Some r ->
      wlh_run (S fuel) (mkWlh (Some (p :: inp)) histo name) = Some (ps_cons p r)) ->
    exists histo', forall fuel, (length (p :: inp) + 2 <= fuel)%nat ->
      wlh_run fuel (mkWlh (Some (p :: inp)) histo name) = Some (mkPollStream ((p :: inp) ++ [Ready (SOk (Log (RlLenHisto histo' name)))]) false)).
  { intros histo1 Hh1 Hr. destruct (IH histo1 Hl Hh1) as (histo' & Hrun). exists histo'. intros [|fuel] Hf; cbn in Hf; [lia|].
    rewrite (Hr fuel _ (Hrun fuel ltac:(lia))). done. }
  destruct p as [[[[|c]|l|t]|e]|]; try (apply (Hgo histo Hh); unfold wlh_run; cbn [stream_run wlh_poll_next wlh_inp wlh_histo wlh_name]; by intros fuel r ->).
  unfold len_ok in Hp. assert (Hb : 0 <= Z.of_nat (mt_len c) < 2 ^ 31) by lia. pose proof (wlh_index _ Hb) as Hi. set (n := Z.to_nat (32 - u32_leading_zeros (wrap 32 (Z.of_nat (mt_len c))))).
  assert (exists x, histo !! n = Some x) as (x & Hx) by (apply lookup_lt_is_Some; unfold n; lia).
  apply (Hgo (<[n := u32_add x 1]> histo)); [by rewrite length_insert|]. intros fuel r Hr. unfold wlh_run in *. cbn [stream_run wlh_poll_next wlh_inp wlh_histo wlh_name].
  fold n. rewrite Hx, Hr. done.
Qed.

End WithLenHisto.

(** ** [Dedup] *)

Section Dedup.
  Context {T L St E : Type} `{MergeableTy T}.

Local Abbreviation Item := (Sitemty L St E T).

Record Dedup : Type := mkDedup { dd_inp : list (Poll Item); dd_tsmin : TsNano }.

Definition dd_new (inp : list (Poll Item)) : Dedup := mkDedup inp (TsNano_from_ns 0).

Definition dd_clean_item (tsmin : TsNano) (item : T) : TsNano * T :=
  let item := mt_retain_unique_ts item tsmin in
  (match mt_ts_max item with Some tsmax => tsmax | None => tsmin end, item).

Definition dd_poll_next (s : Dedup) : Dedup * loop_flow Item :=
  match dd_inp s with
  | Ready (SOk (DataItem (Data x))) :: inp =>
      let '(tsmin, item) := dd_clean_item (dd_tsmin s) x in (mkDedup inp tsmin, LoopBreak (Ready (Some (SOk (DataItem (Data item))))))
  | Ready x :: inp => (mkDedup inp (dd_tsmin s), LoopBreak (Ready (Some x)))
  | Pending :: inp => (mkDedup inp (dd_tsmin s), LoopBreak Pending)
  | [] => (s, LoopBreak (Ready None))
  end.

Definition dd_run (fuel : nat) (s : Dedup) : option (PollStream Item) := stream_run dd_poll_next (fun _ => false) fuel s.

End Dedup.

Section DedupProofs.
  Context {V L St E : Type} `{EventValueType V}.

Local Abbreviation Item := (Sitemty L St E (ContainerEvents V)).
Implicit Types (l : list (Poll Item)).

(** No error, and only pieces that are well formed. *)
Definition piece_poll_ok (p : Poll Item) : Prop := match p with Ready (SOk (DataItem (Data c))) => ce_wf c | Ready (SErr _) => False | _ => True end.

Lemma dd_clean_spec tsmin (c : ContainerEvents V) : ce_wf c -> StronglySorted Z.le (ce_iter_zip c).*1 ->
  exists c', dd_clean_item tsmin c = (match last (ce_iter_zip c').*1 with Some t => t | None => tsmin end, c') /\
    ce_wf c' /\ StronglySorted Z.lt (ce_iter_zip c').*1 /\ (forall e, e ∈ ce_iter_zip c' -> tsmin < e.1 /\ e ∈ ce_iter_zip c) /\
    (forall x, x ∈ (ce_iter_zip c).*1 -> tsmin < x -> x ∈ (ce_iter_zip c').*1).
Proof.
  intros Hw Hs. destruct (ce_retain_unique_spec c tsmin Hw) as (Hw' & Hs' & Hf & Hsub & Hall). exists (ce_retain_unique_ts c tsmin).
  rewrite (ce_zip_fst c Hw) in Hs |- *. rewrite (ce_zip_fst _ Hw'). split; [done|]. split; [done|]. split; [done|]. split.
  - intros e He. split; [|by apply Hsub]. rewrite Forall_forall in Hf. apply Hf. rewrite <- (ce_zip_fst _ Hw'). by apply list_elem_of_fmap_2.
  - intros x Hx Hlt. by apply (Hall Hs).
Qed.

Lemma sorted_lt_app (l1 l2 : list (Z * V)) : StronglySorted Z.lt l1.*1 -> StronglySorted Z.lt l2.*1 ->
  (forall a b, a ∈ l1 -> b ∈ l2 -> a.1 < b.1) -> StronglySorted Z.lt (l1 ++ l2).*1.
Proof.
  intros Hs1 Hs2 Hlt. induction l1 as [|x l1 IH]; [done|]. cbn in *. apply StronglySorted_inv in Hs1 as [Hs1 Hf].
  constructor; [apply IH; [done|intros a b Ha; apply Hlt; by right]|]. change (fst <$> l1 ++ l2) with ((l1 ++ l2).*1). rewrite fmap_app. apply Forall_app. split; [done|].
  rewrite Forall_fmap, Forall_forall. intros b Hb. apply Hlt; [by left|done].
Qed.

Lemma last_sorted_max (l : list Z) t x : StronglySorted Z.lt l -> last l = Some t -> x ∈ l -> x <= t.
Proof.
  intros Hs Ht Hx. apply last_Some in Ht as [k ->]. induction k as [|y k IH]; cbn in *; [apply list_elem_of_singleton in Hx; lia|].
  apply StronglySorted_inv in Hs as [Hs Hf]. apply elem_of_cons in Hx as [->|Hx]; [|by apply IH]. rewrite Forall_forall in Hf. apply Z.lt_le_incl, Hf. apply elem_of_app. right. by left.
Qed.

Lemma dd_run_gives l tsmin : Forall piece_poll_ok l -> StronglySorted Z.le (polls_events l).*1 ->
  exists l', (forall fuel, (length l < fuel)%nat -> dd_run fuel (mkDedup l tsmin) = Some (mkPollStream l' false)) /\ Forall piece_poll_ok l' /\
    StronglySorted Z.lt (polls_events l').*1 /\ (forall e, e ∈ polls_events l' -> tsmin < e.1 /\ e ∈ polls_events l) /\
    (forall x, x ∈ (polls_events l).*1 -> tsmin < x -> x ∈ (polls_events l').*1).
Proof.
  revert tsmin. induction l as [|p l IH]; intros tsmin Hok Hs.
  { exists []. split; [intros [|fuel] Hf; [lia|done]|]. split; [done|]. split; [constructor|]. split; [by intros e ?%not_elem_of_nil|by intros x ?%not_elem_of_nil]. }
  apply Forall_cons_1 in Hok as [Hp Hok]. change (polls_events (p :: l)) with (poll_events p ++ polls_events l) in *. apply sorted_app_le in Hs as (Hs1 & Hs2 & Hle).
  assert (Hother : poll_events p = [] -> (forall fuel r, dd_run fuel (mkDedup l tsmin) = Some r -> dd_run (S fuel) (mkDedup (p :: l) tsmin) = Some (ps_cons p r)) ->
    exists l', (forall fuel, (length (p :: l) < fuel)%nat -> dd_run fuel (mkDedup (p :: l) tsmin) = Some (mkPollStream l' false)) /\ Forall piece_poll_ok l' /\
    StronglySorted Z.lt (polls_events l').*1 /\ (forall e, e ∈ polls_events l' -> tsmin < e.1 /\ e ∈ poll_events p ++ polls_events l) /\
    (forall x, x ∈ (poll_events p ++ polls_events l).*1 -> tsmin < x -> x ∈ (polls_events l').*1)).
  { intros Hn Hr. destruct (IH tsmin Hok Hs2) as (l' & Hrun & H1 & H2 & H3 & H4). exists (p :: l'). rewrite Hn. cbn [app].
    change (polls_events (p :: l')) with (poll_events p ++ polls_events l'). rewrite Hn. cbn [app].
    split; [intros [|fuel] Hf; cbn in Hf; [lia|]; by rewrite (Hr fuel _ (Hrun fuel ltac:(lia)))|]. split; [by constructor|]. done. }
  destruct p as [[[[|c]|x|t]|e]|]; try done; try (apply Hother; [done|]; unfold dd_run; cbn [stream_run dd_poll_next dd_inp dd_tsmin]; by intros fuel r ->).
  cbn [poll_events sitem_events mt_events MergeableLaws_ContainerEvents] in *. cbn in Hp.
  destruct (dd_clean_spec tsmin c Hp Hs1) as (c' & Hclean & Hw' & Hs' & Hin & Hall). set (tsmin' := match last (ce_iter_zip c').*1 with Some t => t | None => tsmin end) in *.
  assert (Hmin : tsmin <= tsmin' /\ (forall e, e ∈ ce_iter_zip c' -> e.1 <= tsmin') /\ (tsmin' = tsmin \/ tsmin' ∈ (ce_iter_zip c).*1)).
  { unfold tsmin'. destruct (last (ce_iter_zip c').*1) as [t|] eqn:Ht.
    - assert (Htin : t ∈ (ce_iter_zip c').*1) by (apply last_Some in Ht as [k ->]; apply elem_of_app; right; by left).
      apply list_elem_of_fmap in Htin as (e & -> & He). destruct (Hin e He) as [Hlt Hec]. split; [lia|]. split; [|right; by apply list_elem_of_fmap_2].
      intros e' He'. apply (last_sorted_max _ _ _ Hs' Ht). by apply list_elem_of_fmap_2.
    - apply last_None, fmap_nil_inv in Ht. rewrite Ht. split; [lia|]. split; [by intros e ?%not_elem_of_nil|by left]. }
  destruct Hmin as (Hmin1 & Hmin2 & Hmin3).
  destruct (IH tsmin' Hok Hs2) as (l' & Hrun & H1 & H2 & H3 & H4). exists (Ready (SOk (DataItem (Data c'))) :: l').
  change (polls_events (Ready (SOk (DataItem (Data c'))) :: l')) with (ce_iter_zip c' ++ polls_events l').
  split; [|split; [by constructor|split; [|split]]].
  - intros [|fuel] Hf; cbn in Hf; [lia|]. unfold dd_run in *. cbn [stream_run dd_poll_next dd_inp dd_tsmin]. rewrite Hclean. by rewrite (Hrun fuel ltac:(lia)).
  - apply sorted_lt_app; [done|done|]. intros a b Ha Hb. destruct (H3 b Hb) as [Hlt _]. specialize (Hmin2 a Ha). lia.
  - intros e [He|He]%elem_of_app; [destruct (Hin e He); split; [done|apply elem_of_app; by left]|]. destruct (H3 e He). split; [lia|]. apply elem_of_app. by right.
  - intros x Hx Hlt. rewrite fmap_app in Hx |- *. apply elem_of_app. apply elem_of_app in Hx as [Hx|Hx]; [left; by apply Hall|].
    destruct (Z.lt_ge_cases tsmin' x) as [Hgt|Hge]; [right; by apply H4|]. left.
    assert (x = tsmin') as ->.
    { destruct Hmin3 as [?|Hm]; [lia|]. apply list_elem_of_fmap in Hm as (a & Ha & Hac). apply list_elem_of_fmap in Hx as (b & -> & Hb). specialize (Hle a b Hac Hb). lia. }
    destruct Hmin3 as [?|Hm]; [lia|]. by apply Hall.
Qed.

End DedupProofs.
