(* ===== verification/ClKsMerged.v ===== *)
(** * Reading the stored events of a channel

    [cl_ks_merged] of [events3/ks/clksmerge.rs] of [daqbuf-scyllaconn/src], with
    [BckLspLst] of [events3/ks/eventsks/bck_events_lst.rs] and the options of
    [worker.rs], and [ScyllaEventReadProvider::read] of [daqbuf-nodenet/src/scylla.rs]:
    the events of a series in a range out of all keyspaces of all clusters. The
    futures and streams have each its own time, which begins with it. *)
From Stdlib Require Import ZArith Lia.
From stdpp Require Import base numbers option strings list sorting.
From S2P Require Import Prelude Items TimeTypes NetpodTypes Retention Ranges Events Bins Floats Timeweight Merger ChannelEvents RangeFilter StreamRun EvStore LspMulti LspMerge ReadAdapters.

#[local] Open Scope Z_scope.
#[local] Open Scope rust_scope.

(** ** Options *)

Inductive CacheBypass : Type := CbCache | CbBypass.

Definition CacheBypass_to_bool (c : CacheBypass) : bool := match c with CbCache => false | CbBypass => true end.
Definition CacheBypass_from_bool (v : bool) : CacheBypass := if v then CbBypass else CbCache.

Record ScyllaOptsDefault : Type := mkOptsDefault {
  od_msp_cache_bypass : CacheBypass;
  od_lsp_asc_cache_bypass : CacheBypass;
  od_lsp_desc_cache_bypass : CacheBypass;
  od_bins_fwd_cache_bypass : CacheBypass;
  od_avoid_order_desc : bool;
  od_lsp_lst_concurrent : Z
}.

(** The fields of [ScyllaConfig] and [ScyllaConfigMultiKeyspace] that are used. *)
Record ScyllaConfOpts : Type := mkConfOpts { sc_cache_bypass_asc : bool; sc_cache_bypass_desc : bool; sc_avoid_order_desc : bool }.

Definition opts_from_config_v0 (conf : ScyllaConfOpts) : ScyllaOptsDefault :=
  mkOptsDefault (CacheBypass_from_bool (sc_cache_bypass_asc conf)) (CacheBypass_from_bool (sc_cache_bypass_asc conf))
    (CacheBypass_from_bool (sc_cache_bypass_desc conf)) (CacheBypass_from_bool (sc_cache_bypass_asc conf)) (sc_avoid_order_desc conf) 10.
Definition opts_from_config_v1 (conf : ScyllaConfOpts) : ScyllaOptsDefault :=
  mkOptsDefault (CacheBypass_from_bool (sc_cache_bypass_asc conf)) (CacheBypass_from_bool (sc_cache_bypass_asc conf))
    (CacheBypass_from_bool (sc_cache_bypass_desc conf)) (CacheBypass_from_bool (sc_cache_bypass_asc conf)) (sc_avoid_order_desc conf) 10.

Record ScyllaOptsSubmit : Type := mkOptsSubmit {
  os_msp_cache_bypass : option CacheBypass;
  os_lsp_asc_cache_bypass : option CacheBypass;
  os_lsp_desc_cache_bypass : option CacheBypass;
  os_bins_fwd_cache_bypass : option CacheBypass;
  os_avoid_order_desc : option bool;
  os_lsp_lst_concurrent : option Z
}.

Definition opts_no_choice : ScyllaOptsSubmit := mkOptsSubmit None None None None None None.

Record ScyllaOptsJob : Type := mkOptsJob {
  oj_msp_cache_bypass : CacheBypass;
  oj_lsp_asc_cache_bypass : CacheBypass;
  oj_lsp_desc_cache_bypass : CacheBypass;
  oj_bins_fwd_cache_bypass : CacheBypass;
  oj_avoid_order_desc : bool;
  oj_lsp_lst_concurrent : Z
}.

Definition opts_resolve (s : ScyllaOptsSubmit) (oth : ScyllaOptsDefault) : ScyllaOptsJob :=
  mkOptsJob (default (od_msp_cache_bypass oth) (os_msp_cache_bypass s)) (default (od_lsp_asc_cache_bypass oth) (os_lsp_asc_cache_bypass s))
    (default (od_lsp_desc_cache_bypass oth) (os_lsp_desc_cache_bypass s)) (default (od_bins_fwd_cache_bypass oth) (os_bins_fwd_cache_bypass s))
    (default (od_avoid_order_desc oth) (os_avoid_order_desc s)) (default (od_lsp_lst_concurrent oth) (os_lsp_lst_concurrent s)).

(** The first error of results in order, or all of them. *)
Fixpoint outcome_all {E A : Type} (l : list (outcome E A)) : outcome E (list A) :=
  match l with
  | [] => Ok []
  | x :: l => let? x := x in let? l := outcome_all l in Ok (x :: l)
  end.

(** ** [BckLspLst] *)

Inductive bck_lsp_error {DE : Type} : Type :=
  | BckLspLstDb (e : DE)
  | BckLspImpossible.
Arguments bck_lsp_error : clear implicits.

Section BckLspLst.
  Context {V DE : Type} (db : EventsDb (V := V) (DE := DE)) (si : SeriesInfo).

(** [buffer_unordered] gives the results of so many futures at a time in the order in
    which they are ready. *)
  Context (unordered : Z -> list (outcome (bck_lsp_error DE) (MspEv * option LspEv)) -> list (outcome (bck_lsp_error DE) (MspEv * option LspEv))).

(** For one partition. The index before the first one wraps around, and there is
    no element at it. *)
Definition bck_lsp_one (avoid_order_desc : bool) (now : nat) (en : option TsNano) (msp : MspEv) : outcome (bck_lsp_error DE) (MspEv * option LspEv) :=
  let? en :=
    match en with
    | Some en => match MspEv_lsp msp en with Some x => Ok (Some x) | None => Err BckLspImpossible end
    | None => Ok None
    end in
  if avoid_order_desc : bool then
    match (lsp_only_exec db now si msp).2 with
    | inl e => Err (BckLspLstDb e)
    | inr lsps =>
        let i := match en with Some en => partition_point (fun x => x <? en) lsps | None => length lsps end in
        Ok (msp, match i with O => None | S i => lsps !! i end)
    end
  else
    match (lsp_lst_exec db now si msp en).2 with
    | inl e => Err (BckLspLstDb e)
    | inr lsp => Ok (msp, lsp)
    end.

Definition bck_lsp_fetch (opts : ScyllaOptsJob) (now : nat) (msps : list MspEv) (en : option TsNano) : outcome (bck_lsp_error DE) (list (MspEv * option LspEv)) :=
  let futs := map (bck_lsp_one (oj_avoid_order_desc opts) now en) msps in
  if negb (oj_lsp_lst_concurrent opts =? 0) then outcome_all (unordered (oj_lsp_lst_concurrent opts) futs) else outcome_all futs.

End BckLspLst.

(** ** [cl_ks_merged] *)

Definition MSP_LIMIT_DEF : Z := 10.
Definition LSP_LIMIT_DEF : Z := 800.
Definition MSP_RESERVE_MIN : nat := 20.
Definition MSP_PREOPEN_MIN : nat := 6.
Definition LSP_SINGLE_BUF_MAX : nat := 5.

Inductive ckm_error {DE : Type} : Type :=
  | CkExpectTimeRange
  | CkReadMspBck (e : DE)
  | CkBckLspLst (e : bck_lsp_error DE).
Arguments ckm_error : clear implicits.

(** The greatest of some times. *)
Fixpoint ts_max_of (l : list TsNano) : option TsNano :=
  match l with
  | [] => None
  | x :: l => match ts_max_of l with Some y => Some (Z.max x y) | None => Some x end
  end.

Definition ckm_beg_before (beg : TsNano) (lsps : list (MspEv * option LspEv)) : TsNano :=
  default beg (ts_max_of (filter (fun ts => ts < beg) (omap (fun '(msp, lsp) => lsp ← lsp; Some (MspEv_to_ts msp lsp)) lsps))).

Section ClKsMerged.
  Context {K : Type} `{EqDecision K} {val : K -> Type} {Hval : forall i, EventValueType (val i)} {DE St E : Type}.
  Context (i : K) (si : SeriesInfo).
  Context (unordered : Z -> list (outcome (bck_lsp_error DE) (MspEv * option LspEv)) -> list (outcome (bck_lsp_error DE) (MspEv * option LspEv))).

(** The text of an error of the merged stream. *)
  Context (from_string : lspmerge_error (E := multi_error (DE := DE)) -> E).

(** The clock of the polls of a stream. *)
  Context (ck : nat -> nat -> nat).

Local Abbreviation Item := (Sitemty ReadLog St (multi_error (DE := DE)) (ContainerEvents (val i))).

(** A cluster; what its worker answers for a keyspace stands for the channel to it. *)
Record ScyllaQueueCluster : Type := mkCluster {
  sqc_tag : string;
  sqc_keyspaces : list KeyspaceId;
  sqc_scyopts : ScyllaOptsDefault;
  sqc_db : KeyspaceId -> EventsDb (V := val i) (DE := DE)
}.

Definition ckm_opts : MultiOpts := mkMultiOpts MSP_LIMIT_DEF LSP_LIMIT_DEF MSP_RESERVE_MIN MSP_PREOPEN_MIN LSP_SINGLE_BUF_MAX.

Definition ckm_scan_range (cl : ScyllaQueueCluster) (ks : KeyspaceId) (opts : ScyllaOptsSubmit) (one_before : bool) (range : ScyllaSeriesRange) (msps : list MspEv)
    : outcome (ckm_error DE) ScyllaSeriesRange :=
  if one_before then
    match bck_lsp_fetch (sqc_db cl ks) si unordered (opts_resolve opts (sqc_scyopts cl)) O msps (Some (ssr_beg range)) with
    | Ok lsps => Ok (ScyllaSeriesRange_new (ckm_beg_before (ssr_beg range) lsps) (ssr_end range))
    | Err e => Err (CkBckLspLst e)
    | Panic => Panic
    end
  else Ok range.

(** The stream of a keyspace. *)
Definition ckm_input (fuel : nat) (opts : ScyllaOptsSubmit) (one_before : bool) (range : ScyllaSeriesRange) (cl : ScyllaQueueCluster) (ks : KeyspaceId)
    : option (outcome (ckm_error DE) (PollStream Item)) :=
  msps ← msp_bck (sqc_db cl ks) fuel O (ks_rt ks) si (ssr_beg range);
  match msps with
  | Ok msps =>
      let msps := map MspEv_from_TsMs msps in
      match ckm_scan_range cl ks opts one_before range msps with
      | Ok scan_range =>
          stream ← lm_run (sqc_db cl ks) si ck fuel (lm_new scan_range ckm_opts msps);
          let name := ("after-LspFwdMspMulti-" ++ sqc_tag cl ++ "-" ++ ks_name ks ++ "-" ++ rt_debug_tag (ks_rt ks))%string in
          histo ← wlh_run fuel (wlh_new (ps_polls stream) name);
          Some (Ok (mkPollStream (ps_polls histo) (ps_panics stream || ps_panics histo)))
      | Err e => Some (Err e)
      | Panic => Some Panic
      end
  | Err e => Some (Err (CkReadMspBck e))
  | Panic => Some Panic
  end.

(** The loop over the clusters and their keyspaces. *)
Fixpoint ckm_inputs (fuel : nat) (opts : ScyllaOptsSubmit) (one_before : bool) (range : ScyllaSeriesRange) (l : list (ScyllaQueueCluster * KeyspaceId))
    : option (outcome (ckm_error DE) (list (PollStream Item))) :=
  match l with
  | [] => Some (Ok [])
  | (cl, ks) :: l =>
      x ← ckm_input fuel opts one_before range cl ks;
      match x with
      | Ok x => xs ← ckm_inputs fuel opts one_before range l; Some (let? xs := xs in Ok (x :: xs))
      | Err e => Some (Err e)
      | Panic => Some Panic
      end
  end.

Definition ckm_keyspaces (clusters : list ScyllaQueueCluster) (filter_rts : option (list RetentionTime)) : list (ScyllaQueueCluster * KeyspaceId) :=
  concat (map (fun cl => map (pair cl) (List.filter (fun ks => match filter_rts with Some fs => bool_decide (ks_rt ks ∈ fs) | None => true end) (sqc_keyspaces cl))) clusters).

(** The closure of the last [map]. *)
Definition ckm_item (x : Sitemty ReadLog St (lspmerge_error (E := multi_error (DE := DE))) (ContainerEvents (val i))) : Sitemty ReadLog St E (ChannelEvents (val := val)) :=
  match x with
  | SOk (DataItem (Data x)) => SOk (DataItem (Data (ch_events i x)))
  | SOk (DataItem RangeComplete) => SOk (DataItem RangeComplete)
  | SOk (Log x) => SOk (Log x)
  | SOk (Stats x) => SOk (Stats x)
  | SErr e => SErr (from_string e)
  end.

(** A panic in a stream is one of the stream that polls it. *)
Definition cl_ks_merged (fuel : nat) (range : SeriesRange) (one_before : bool) (filter_rts : option (list RetentionTime)) (clusters : list ScyllaQueueCluster)
    (opts : ScyllaOptsSubmit) : option (outcome (ckm_error DE) (PollStream (Sitemty ReadLog St E (ChannelEvents (val := val))))) :=
  match SeriesRange_to_time range with
  | None => Some (Err CkExpectTimeRange)
  | Some range =>
      let range := ScyllaSeriesRange_new (NanoRange_beg_ts range) (NanoRange_end_ts range) in
      inps ← ckm_inputs fuel opts one_before range (ckm_keyspaces clusters filter_rts);
      match inps with
      | Ok inps =>
          stream ← lpm_run fuel (lpm_new (map ps_polls inps) LSP_LIMIT_DEF);
          dedup ← dd_run fuel (dd_new (ps_polls stream));
          Some (Ok (ps_map ckm_item (mkPollStream (ps_polls dedup) (existsb ps_panics inps || ps_panics stream || ps_panics dedup))))
      | Err e => Some (Err e)
      | Panic => Some Panic
      end
  end.

End ClKsMerged.

(** ** [ScyllaEventReadProvider] *)
Section ScyllaRead.
  Context {K : Type} `{EqDecision K} {val : K -> Type} {Hval : forall i, EventValueType (val i)} {DE R Dk E : Type}.
  Context (i : K) (si : SeriesInfo).
  Context (unordered : Z -> list (outcome (bck_lsp_error DE) (MspEv * option LspEv)) -> list (outcome (bck_lsp_error DE) (MspEv * option LspEv))).
  Context (from_string : lspmerge_error (E := multi_error (DE := DE)) -> E) (from_error : ckm_error DE -> E).
  Context (ck : nat -> nat -> nat).

Local Abbreviation Out := (RfOut (T := ChannelEvents (val := val)) (L := ReadLog) (R := R) (D := Dk) (E := E)).

(** [read] for a channel of the Scylla backend: what a consumer gets that polls so
    often. *)
Definition scylla_read (polls fuel : nat) (range : SeriesRange) (one_before : bool) (use_rt : option RetentionTime)
    (scyqu : list (ScyllaQueueCluster (DE := DE) i)) (scyopts : ScyllaOptsSubmit) : option (outcome unit (list Out)) :=
  match NanoRange_try_from range with
  | Ok range_ty2 =>
      let filter_rts := (fun x => [x]) <$> use_rt in
      stream ← cl_ks_merged (St := StatsItem R Dk) i si unordered from_string ck fuel range one_before filter_rts scyqu scyopts;
      match stream with
      | Ok stream =>
          if ps_panics stream : bool then Some Panic
          else outs ← rf_drain polls fuel (rf_new (ps_polls stream) range_ty2 one_before); Some (Ok outs)
      | Err e => Some (Ok [RfOutItem (SErr (from_error e))])
      | Panic => Some Panic
      end
  | _ => Some Panic
  end.

End ScyllaRead.
