(* ===== verification/ClKsMergedProofs.v ===== *)
(** * The events that are read of a channel

    [cl_ks_merged] on clusters whose keyspaces answer from stores: all events in the
    range, and those from the last one before it, of all keyspaces, once for each
    time and in order of time. First what [BckLspLst] finds in the partitions before
    a time, in both of its ways and in whatever order the futures are ready. The
    time stands still in each poll. *)
From Stdlib Require Import ZArith Lia.
From stdpp Require Import base numbers option strings list sorting.
From S2P Require Import Prelude Items TimeTypes NetpodTypes Retention Ranges Events Bins Floats Timeweight Merger ChannelEvents RangeFilter StreamRun EvStore EvStoreProofs LspSingleProofs LspMulti LspMultiProofs LspMultiRun LspMultiReads LspMerge LspMergeProofs ReadAdapters ClKsMerged.

#[local] Open Scope Z_scope.
#[local] Open Scope rust_scope.

(** ** The greatest of some times *)

Lemma ts_max_of_None l : ts_max_of l = None <-> l = [].
Proof. destruct l as [|x l]; [done|]. cbn. by destruct (ts_max_of l). Qed.

Lemma ts_max_of_Some l y : ts_max_of l = Some y <-> y ∈ l /\ forall x, x ∈ l -> x <= y.
Proof.
  revert y. induction l as [|x l IH]; intros y; cbn; [split; [done|by intros [?%not_elem_of_nil _]]|]. destruct (ts_max_of l) as [z|] eqn:Hz.
  - destruct (proj1 (IH z) eq_refl) as [Hin Hle]. split.
    + intros [= <-]. split; [apply elem_of_cons; destruct (Z.max_spec x z) as [[_ ->]|[_ ->]]; auto|]. intros w [->|Hw]%elem_of_cons; [lia|]. specialize (Hle w Hw). lia.
    + intros [Hy Hall]. f_equal. apply Z.le_antisymm; [apply Z.max_lub; apply Hall; [by left|by right]|]. apply elem_of_cons in Hy as [->|Hy]; [lia|]. specialize (Hle y Hy). lia.
  - apply ts_max_of_None in Hz as ->. split; [intros [= <-]; split; [by left|]; intros w Hw%list_elem_of_singleton; lia|]. intros [Hy _]. apply list_elem_of_singleton in Hy. congruence.
Qed.

Lemma ts_max_of_ext l1 l2 : (forall x, x ∈ l1 <-> x ∈ l2) -> ts_max_of l1 = ts_max_of l2.
Proof.
  intros Hl. destruct (ts_max_of l2) as [y|] eqn:Hy.
  - apply ts_max_of_Some in Hy as [Hin Hle]. apply ts_max_of_Some. split; [by apply Hl|]. intros x Hx. by apply Hle, Hl.
  - apply ts_max_of_None in Hy as ->. apply ts_max_of_None. destruct l1 as [|x l1]; [done|]. destruct (not_elem_of_nil x). apply Hl. by left.
Qed.

(** Of parts, the greatest of their greatest. *)
Lemma ts_max_of_parts (ls : list (list Z)) : ts_max_of (omap ts_max_of ls) = ts_max_of (concat ls).
Proof.
  destruct (ts_max_of (concat ls)) as [y|] eqn:Hy.
  - apply ts_max_of_Some in Hy as [Hin Hle]. apply ts_max_of_Some. setoid_rewrite list_elem_of_omap. split.
    + apply list_elem_of_In, in_concat in Hin as (l & Hl%list_elem_of_In & Hyl%list_elem_of_In). exists l. split; [done|]. apply ts_max_of_Some. split; [done|].
      intros x Hx. apply Hle. apply list_elem_of_In, in_concat. exists l. by rewrite <- !list_elem_of_In.
    + intros x (l & Hl & [Hx _]%ts_max_of_Some). apply Hle. apply list_elem_of_In, in_concat. exists l. by rewrite <- !list_elem_of_In.
  - apply ts_max_of_None in Hy. apply ts_max_of_None. induction ls as [|l ls IH]; [done|]. cbn in *. apply app_eq_nil in Hy as [-> Hy]. cbn. by apply IH.
Qed.

Lemma ts_max_of_last l : StronglySorted Z.lt l -> ts_max_of l = last l.
Proof.
  intros Hs. destruct (last l) as [y|] eqn:Hl; [|by apply last_None in Hl as ->]. apply ts_max_of_Some.
  apply last_Some in Hl as [k ->]. split; [apply elem_of_app; right; by left|]. intros x [Hx|Hx%list_elem_of_singleton]%elem_of_app; [|lia].
  induction k as [|z k IH]; [by apply not_elem_of_nil in Hx|]. cbn in Hs. apply StronglySorted_inv in Hs as [Hs Hf]. apply elem_of_cons in Hx as [->|Hx]; [|by apply IH].
  rewrite Forall_forall in Hf. apply Z.lt_le_incl, Hf. apply elem_of_app. right. by left.
Qed.

Lemma sorted_filter_lt (l : list Z) x : StronglySorted Z.lt l -> filter (fun y => y < x) l = take (partition_point (fun y => y <? x) l) l.
Proof.
  induction l as [|y l IH]; [done|]. intros [Hs Hf]%StronglySorted_inv. rewrite filter_cons. cbn [partition_point]. destruct (Z.ltb_spec y x) as [Hlt|Hge], (decide (y < x)); try lia.
  - cbn [take]. f_equal. by apply IH.
  - apply filter_false. eapply Forall_impl; [exact Hf|]. cbn. lia.
Qed.

Lemma sorted_filter (P : Z -> Prop) `{forall x, Decision (P x)} l : StronglySorted Z.lt l -> StronglySorted Z.lt (filter P l).
Proof.
  induction l as [|x l IH]; [done|]. intros [Hs Hf]%StronglySorted_inv. rewrite filter_cons. destruct (decide (P x)); [|by apply IH].
  constructor; [by apply IH|]. apply Forall_forall. intros y [_ Hy]%list_elem_of_filter. rewrite Forall_forall in Hf. by apply Hf.
Qed.

Lemma filter_elem_ext {A} (P Q : A -> Prop) `{forall x, Decision (P x)} `{forall x, Decision (Q x)} (l : list A) : (forall x, x ∈ l -> P x <-> Q x) -> filter P l = filter Q l.
Proof.
  induction l as [|x l IH]; intros Hl; [done|]. rewrite !filter_cons, IH by (intros y Hy; apply Hl; by right).
  destruct (Hl x ltac:(by left)) as [H1 H2]. destruct (decide (P x)), (decide (Q x)); tauto.
Qed.

Lemma last_take {A} n (l : list A) : (n <= length l)%nat -> last (take n l) = match n with O => None | S i => l !! i end.
Proof. intros Hn. rewrite last_lookup, length_take, Nat.min_l by done. destruct n as [|n]; [done|]. cbn [pred]. apply lookup_take_lt. lia. Qed.

(** The good results of a list in any order. *)
Lemma outcome_all_ok {E A} (l : list A) : outcome_all (E := E) (map Ok l) = Ok l.
Proof. induction l as [|x l IH]; [done|]. cbn. by rewrite IH. Qed.

Lemma outcome_all_perm {E A} (l : list A) (k : list (outcome E A)) : k ≡ₚ map Ok l -> exists l', outcome_all k = Ok l' /\ l' ≡ₚ l.
Proof. intros (l' & -> & Hp)%Permutation_map_inv. exists l'. split; [apply outcome_all_ok|by symmetry]. Qed.

Section BckStore.
  Context {V DE : Type} (db : EventsDb (V := V) (DE := DE)) (si : SeriesInfo) (st : EvStore V) (D : nat).
  Context (Hst : store_ok st) (Hdb : DbLaws db si st D).
  Context (unordered : Z -> list (outcome (bck_lsp_error DE) (MspEv * option LspEv)) -> list (outcome (bck_lsp_error DE) (MspEv * option LspEv))).
  Context (Hun : forall n l, unordered n l ≡ₚ l).

(** The row before a time of a partition. *)
Definition row_before (en : TsNano) (m : Z) : option Z := last (filter (fun l => l < en - m * 1000000) (es_rows st m).*1).

Lemma row_range m l : l ∈ (es_rows st m).*1 -> 0 <= l /\ m * 1000000 + l < 2 ^ 63.
Proof. intros (r & -> & Hr)%list_elem_of_fmap. apply (so_row_range _ Hst m r Hr). Qed.

Lemma rows_window b e m : (window fst b e (es_rows st m)).*1 = filter (fun l => b <= l < e) (es_rows st m).*1.
Proof.
  unfold window. induction (es_rows st m) as [|r l IH]; [done|]. rewrite fmap_cons, !filter_cons. by destruct (decide (b <= r.1 < e)); cbn; rewrite IH.
Qed.

(** The statement for one row and that for all rows find the same. *)
Lemma bck_lsp_one_spec avoid now en m : msp_fits m -> m * 1000000 <= en < 2 ^ 63 - 1 -> (avoid = true -> Z.of_nat (length (es_rows st m)) <= 812412) ->
  bck_lsp_one db si avoid now (Some en) m = Ok (m, row_before en m).
Proof.
  intros [Hm0 Hm1] [Hen Hen1] Hlen. unfold bck_lsp_one, MspEv_lsp, TsNano_ns. change MS with 1000000. rewrite u64_mul_small by lia.
  rewrite (proj2 (Z.leb_le _ _) Hen), u64_sub_small by lia. cbn [and_then]. unfold row_before. set (x := en - m * 1000000).
  assert (Hwrap : forall l, l ∈ (es_rows st m).*1 -> LspEv_from_i64 l = l).
  { intros l Hl%row_range. unfold LspEv_from_i64. apply wrap_small. unfold in_u. lia. }
  destruct avoid.
  - unfold lsp_only_exec, MspEv_to_i64. rewrite !to_signed_small by (apply (dl_series _ _ _ _ Hdb) || lia).
    destruct (dl_lsp_ts _ _ _ _ Hdb now m 0 (2 ^ 63 - 1) 812412) as (d & _ & ->). cbn [snd].
    rewrite take_ge, rows_window by (rewrite length_fmap; unfold window; pose proof (length_filter (fun r => 0 <= r.1 < 2 ^ 63 - 1) (es_rows st m)); specialize (Hlen eq_refl); lia).
    set (ls := filter _ (es_rows st m).*1). replace (map LspEv_from_i64 ls) with ls.
    2: { symmetry. rewrite <- (list_fmap_id ls) at 2. apply list_fmap_ext. intros i l Hl. apply list_elem_of_lookup_2, list_elem_of_filter in Hl as [_ Hl]. by apply Hwrap. }
    assert (Hs : StronglySorted Z.lt ls) by (apply sorted_filter, so_rows; done).
    rewrite <- (last_take _ ls) by apply partition_point_le. rewrite <- sorted_filter_lt by done. unfold ls. rewrite list_filter_filter. do 3 f_equal.
    apply filter_elem_ext. intros l Hl%row_range. unfold x. lia.
  - unfold lsp_lst_exec, MspEv_to_i64, LspEv_to_i64. rewrite !to_signed_small by (apply (dl_series _ _ _ _ Hdb) || (unfold x; lia)).
    destruct (dl_lst _ _ _ _ Hdb now m x) as (d & _ & ->). cbn [snd]. set (ls := filter _ (es_rows st m).*1). destruct (last ls) as [y|] eqn:Hl.
    + assert (Hy : y ∈ ls) by (apply last_Some in Hl as [k ->]; apply elem_of_app; right; by left). apply list_elem_of_filter in Hy as [_ Hy].
      apply last_Some in Hl as [k ->]. rewrite rev_app_distr. cbn [rev app take]. by rewrite Hwrap.
    + by apply last_None in Hl as ->.
Qed.

(** The time of the last event before a time in some partitions, or that time. *)
Definition last_before (msps : list Z) (beg : TsNano) : TsNano := default beg (ts_max_of (filter (fun t => t < beg) (concat (map (fun m => (msp_events st m).*1) msps)))).

Lemma msp_events_tss m : (msp_events st m).*1 = map (fun l => m * 1000000 + l) (es_rows st m).*1.
Proof. unfold msp_events. induction (es_rows st m) as [|r l IH]; [done|]. cbn in *. by rewrite IH. Qed.

Lemma row_before_max beg m : (fun l => m * 1000000 + l) <$> row_before beg m = ts_max_of (filter (fun t => t < beg) (msp_events st m).*1).
Proof.
  rewrite ts_max_of_last by (apply sorted_filter, msp_events_sorted; done). unfold row_before. rewrite msp_events_tss, <- fmap_last. f_equal.
  generalize (es_rows st m).*1 as l. induction l as [|x l IH]; [done|]. cbn [map]. rewrite !filter_cons. destruct (decide (x < beg - m * 1000000)), (decide (m * 1000000 + x < beg)); try lia; [|done].
  rewrite fmap_cons. by f_equal.
Qed.

Lemma ckm_beg_before_spec beg msps lsps : Forall msp_fits msps -> lsps ≡ₚ map (fun m => (m, row_before beg m)) msps -> ckm_beg_before beg lsps = last_before msps beg.
Proof.
  intros Hm Hp. unfold ckm_beg_before, last_before. f_equal.
  assert (Hparts : omap (fun '(msp, lsp) => lsp ← lsp; Some (MspEv_to_ts msp lsp)) (map (fun m => (m, row_before beg m)) msps) =
    omap ts_max_of (map (fun m => filter (fun t => t < beg) (msp_events st m).*1) msps)).
  { clear Hp. induction msps as [|m msps IH]; [done|]. apply Forall_cons_1 in Hm as [Hm Hms]. cbn [map omap list_omap]. rewrite <- row_before_max, IH by done.
    destruct (row_before beg m) as [l|] eqn:Hl; [|done]. cbn. f_equal. unfold row_before in Hl. apply last_Some in Hl as [k Hk].
    assert (Hin : l ∈ filter (fun l => l < beg - m * 1000000) (es_rows st m).*1) by (rewrite Hk; apply elem_of_app; right; by left).
    apply list_elem_of_filter in Hin as [_ Hin%row_range]. destruct Hm. unfold MspEv_to_ts, TsNano_from_ns. change MS with 1000000. rewrite u64_mul_small, u64_add_small by lia. done. }
  etransitivity; [|etransitivity; [apply (ts_max_of_parts (map (fun m => filter (fun t => t < beg) (msp_events st m).*1) msps))|]].
  - apply ts_max_of_ext. intros x. rewrite <- Hparts, list_elem_of_filter, Hp. split; [tauto|]. intros Hx. split; [|done].
    rewrite Hparts in Hx. apply list_elem_of_omap in Hx as (k & (m & -> & _)%list_elem_of_fmap & [Hx _]%ts_max_of_Some). by apply list_elem_of_filter in Hx as [? _].
  - f_equal. clear. induction msps as [|m msps IH]; [done|]. cbn [map concat]. by rewrite filter_app, IH.
Qed.

(** The limit of the statement that reads all times of a partition. *)
Definition lsp_only_fits (opts : ScyllaOptsJob) : Prop := oj_avoid_order_desc opts = true -> forall m, Z.of_nat (length (es_rows st m)) <= 812412.

Lemma bck_lsp_fetch_spec opts now msps beg : lsp_only_fits opts -> Forall msp_fits msps -> Forall (fun m => m * 1000000 <= beg) msps -> beg < 2 ^ 63 - 1 ->
  exists lsps, bck_lsp_fetch db si unordered opts now msps (Some beg) = Ok lsps /\ lsps ≡ₚ map (fun m => (m, row_before beg m)) msps.
Proof.
  intros Hlen Hm Hb Hbeg. unfold bck_lsp_fetch.
  assert (Hmap : map (bck_lsp_one db si (oj_avoid_order_desc opts) now (Some beg)) msps = map Ok (map (fun m => (m, row_before beg m)) msps)).
  { rewrite map_map. apply map_ext_in. intros m Hin%list_elem_of_In. rewrite Forall_forall in Hm, Hb. apply bck_lsp_one_spec; [by apply Hm|split; [by apply Hb|done]|]. intros Ha. by apply Hlen. }
  rewrite Hmap. destruct (negb _); [apply outcome_all_perm, Hun|]. eexists. by rewrite outcome_all_ok.
Qed.

End BckStore.

(** ** The stream of a keyspace *)

(** The options keep the loops within their limits. *)
Lemma ckm_opts_ok : (1 <= mo_msp_reserve_min ckm_opts /\ 1 <= mo_msp_preopen_min ckm_opts /\ 1 <= mo_lsp_single_buf_max ckm_opts /\
  3 + mo_msp_reserve_min ckm_opts + mo_msp_preopen_min ckm_opts * mo_lsp_single_buf_max ckm_opts < 2000)%nat.
Proof. cbn [ckm_opts mo_msp_reserve_min mo_msp_preopen_min mo_lsp_single_buf_max]. unfold MSP_RESERVE_MIN, MSP_PREOPEN_MIN, LSP_SINGLE_BUF_MAX. lia. Qed.

Section Bck.
  Context {V : Type} (st : EvStore V) (Hst : store_ok st).

Lemma bck_msps_ok rt beg : Forall msp_fits (bck_msps st rt beg) /\ StronglySorted Z.lt (bck_msps st rt beg) /\ Forall (fun m => m * 1000000 <= beg) (bck_msps st rt beg).
Proof.
  unfold bck_msps. set (w := window id _ _ _). assert (Hin : forall m, m ∈ w -> msp_fits m /\ m * 1000000 <= beg).
  { intros m [Hm [_ Hlt]]%elem_of_window. split; [by apply (msps_range st Hst)|]. unfold id in Hlt. pose proof (Z.mul_div_le beg 1000000 ltac:(lia)). lia. }
  assert (Hs : StronglySorted Z.lt w).
  { pose proof (window_sorted id (bck_lo rt beg / 1000000) (beg / 1000000) (es_msps st)) as Hw. rewrite !map_id in Hw. apply Hw, so_msps, Hst. }
  split; [|split].
  - apply Forall_forall. intros m Hm%elem_drop. by apply Hin.
  - generalize (length w - msp_max)%nat as n. clear Hin. induction Hs as [|m w Hs IH]; intros [|n]; try constructor; try done. apply IH.
  - apply Forall_forall. intros m Hm%elem_drop. by apply Hin.
Qed.

Lemma last_before_range msps beg : Forall msp_fits msps -> 0 <= beg -> 0 <= last_before st msps beg <= beg.
Proof.
  intros Hm Hb. unfold last_before. destruct (ts_max_of _) as [t|] eqn:Ht; cbn; [|lia]. apply ts_max_of_Some in Ht as [[Hlt Hin]%list_elem_of_filter _].
  apply list_elem_of_In, in_concat in Hin as (l & (m & <- & Hmi%list_elem_of_In)%in_map_iff & Hin%list_elem_of_In).
  apply list_elem_of_fmap in Hin as (e & -> & He%(msp_events_lower st Hst)). rewrite Forall_forall in Hm. destruct (Hm m Hmi). lia.
Qed.

End Bck.

Section Input.
  Context {K : Type} `{EqDecision K} {val : K -> Type} {Hval : forall i, EventValueType (val i)} {DE St E : Type}.
  Context (i : K) (si : SeriesInfo).
  Context (unordered : Z -> list (outcome (bck_lsp_error DE) (MspEv * option LspEv)) -> list (outcome (bck_lsp_error DE) (MspEv * option LspEv))).
  Context (Hun : forall n l, unordered n l ≡ₚ l).
  Context (opts : ScyllaOptsSubmit) (one_before : bool) (range : ScyllaSeriesRange) (Hrange : range_ok range).

Local Abbreviation Item := (Sitemty ReadLog St (multi_error (DE := DE)) (ContainerEvents (val i))).
Local Abbreviation Cluster := (ScyllaQueueCluster (val := val) (DE := DE) i).

(** A keyspace that answers from a store. *)
Record ks_laws (D : nat) (cl : Cluster) (ks : KeyspaceId) (st : EvStore (val i)) : Prop := {
  kl_store : store_ok st;
  kl_db : DbLaws (sqc_db i cl ks) si st D;
  kl_lo : 0 <= bck_lo (ks_rt ks) (ssr_beg range);
  kl_only : lsp_only_fits st (opts_resolve opts (sqc_scyopts i cl))
}.

(** What is read of a store. *)
Definition scan_beg (rt : RetentionTime) (st : EvStore (val i)) : TsNano :=
  if one_before then last_before st (bck_msps st rt (ssr_beg range)) (ssr_beg range) else ssr_beg range.
Definition scan_range (rt : RetentionTime) (st : EvStore (val i)) : ScyllaSeriesRange := mkSsr (scan_beg rt st) (ssr_end range).
Definition scan_msps (rt : RetentionTime) (st : EvStore (val i)) : list Z := read_msps st (scan_range rt st) (bck_msps st rt (ssr_beg range)).
Definition scan_events (rt : RetentionTime) (st : EvStore (val i)) : list (Z * val i) := all_events st (scan_range rt st) (scan_msps rt st).

Lemma scan_range_ok rt st : store_ok st -> range_ok (scan_range rt st).
Proof.
  intros Hst. destruct Hrange as [Hb He]. split; [|done]. cbn. unfold scan_beg. destruct one_before; [|done].
  pose proof (last_before_range st Hst (bck_msps st rt (ssr_beg range)) (ssr_beg range) (proj1 (bck_msps_ok st Hst rt (ssr_beg range)))). lia.
Qed.

Lemma ckm_scan_range_spec D cl ks st : ks_laws D cl ks st ->
  ckm_scan_range i si unordered cl ks opts one_before range (bck_msps st (ks_rt ks) (ssr_beg range)) = Ok (scan_range (ks_rt ks) st).
Proof.
  intros [Hst Hdb Hlo Hon]. unfold ckm_scan_range, scan_range, scan_beg. destruct one_before; [|by destruct range]. destruct Hrange as [Hb _].
  destruct (bck_msps_ok st Hst (ks_rt ks) (ssr_beg range)) as (Hfit & _ & Hle).
  destruct (bck_lsp_fetch_spec (sqc_db i cl ks) si st D Hst Hdb unordered Hun (opts_resolve opts (sqc_scyopts i cl)) O _ (ssr_beg range) Hon Hfit Hle ltac:(lia)) as (lsps & -> & Hp).
  by rewrite (ckm_beg_before_spec st Hst _ _ _ Hfit Hp).
Qed.

Lemma read_ok_input (p : Poll Item) : read_ok p -> in_poll_ok p /\ len_ok p.
Proof.
  destruct p as [[[[|c]|l|t]|e]|]; try done. cbn. intros [[Hw Hl] Hn]. split; [done|].
  change (Z.of_nat (mt_len c) < 2 ^ 31). pose proof (mt_len_eq (MergeableLaws := MergeableLaws_ContainerEvents) c Hw) as ->. cbn in *. lia.
Qed.

Lemma polls_events_snoc_log (l : list (Poll Item)) x : polls_events (l ++ [Ready (SOk (Log x))]) = polls_events l.
Proof. unfold polls_events. rewrite map_app, concat_app. cbn. by rewrite !app_nil_r. Qed.

Definition input_ok (evs : list (Z * val i)) (inp : PollStream Item) : Prop :=
  ps_panics inp = false /\ Forall in_poll_ok (ps_polls inp) /\ StronglySorted Z.le (polls_events (ps_polls inp)).*1 /\ polls_events (ps_polls inp) ≡ₚ evs.

Lemma ckm_input_spec D cl ks st : ks_laws D cl ks st ->
  exists n inp, (forall fuel, (n <= fuel)%nat -> ckm_input (St := St) i si unordered (fun k _ => k) fuel opts one_before range cl ks = Some (Ok inp)) /\
    input_ok (scan_events (ks_rt ks) st) inp.
Proof.
  intros Hks. pose proof (ckm_scan_range_spec D cl ks st Hks) as Hscan. destruct Hks as [Hst Hdb Hlo Hon]. destruct (bck_msps_ok st Hst (ks_rt ks) (ssr_beg range)) as (Hfit & Hsort & _).
  destruct (msp_bck_gives (sqc_db i cl ks) si st D Hst Hdb O (ks_rt ks) (ssr_beg range) Hlo (proj2 (proj1 Hrange))) as (n1 & Hbck).
  pose proof (scan_range_ok (ks_rt ks) st Hst) as Hsr.
  destruct (lm_new_ok (DE := DE) (St := St) st D Hst (scan_range (ks_rt ks) st) Hsr ckm_opts (bck_msps st (ks_rt ks) (ssr_beg range)) O ckm_opts_ok Hfit Hsort) as (m & Hnew & Hok & He).
  destruct (lm_run_gives (sqc_db i cl ks) si st D Hst Hdb (scan_range (ks_rt ks) st) Hsr _ O m Hok (Nat.lt_succ_diag_r _)) as (r & Hr & Hpa & Hall & Hs & Hp).
  set (name := ("after-LspFwdMspMulti-" ++ sqc_tag i cl ++ "-" ++ ks_name ks ++ "-" ++ rt_debug_tag (ks_rt ks))%string).
  assert (Hl : Forall len_ok (ps_polls r)) by (eapply Forall_impl; [exact Hall|]; apply read_ok_input).
  destruct (wlh_run_gives (ps_polls r) (repeat 0 32) name Hl eq_refl) as (histo & Hw).
  set (n := (n1 + S (lm_meas st D (scan_range (ks_rt ks) st) 0 m) + (length (ps_polls r) + 2))%nat).
  exists n, (mkPollStream (ps_polls r ++ [Ready (SOk (Log (RlLenHisto histo name)))]) false). split.
  - intros fuel Hf. unfold ckm_input. rewrite Hbck by (unfold n in Hf; lia). cbn [mbind option_bind].
    change (map MspEv_from_TsMs ?l) with (id <$> l). rewrite list_fmap_id, Hscan, Hnew. unfold lm_run. rewrite Hr by (unfold n in Hf; lia).
    cbn [mbind option_bind]. fold name. unfold wlh_new. rewrite Hw by (unfold n in Hf; lia). by rewrite Hpa.
  - split; [done|]. cbn [ps_polls]. rewrite polls_events_snoc_log. split; [|split; [done|]].
    + apply Forall_app. split; [eapply Forall_impl; [exact Hall|]; apply read_ok_input|by repeat constructor].
    + rewrite Hp. unfold scan_events, scan_msps. by rewrite He.
Qed.

(** The partitions that are looked at: of those before the range the last ones, and
    those that begin in it, up to the last full millisecond. *)
Lemma scan_msps_spec rt st m : store_ok st ->
  m ∈ scan_msps rt st <-> m ∈ bck_msps st rt (ssr_beg range) \/ (m ∈ es_msps st /\ ssr_beg range / 1000000 <= m < ssr_end range / 1000000).
Proof.
  intros Hst. unfold scan_msps, read_msps. rewrite elem_of_app, elem_of_window. unfold id. change (ssr_end (scan_range rt st)) with (ssr_end range).
  destruct (bck_msps_ok st Hst rt (ssr_beg range)) as (_ & Hs & _). destruct (last (bck_msps st rt (ssr_beg range))) as [p|] eqn:Hl.
  2: { apply last_None in Hl. unfold scan_range, scan_beg. rewrite Hl. cbn [ssr_beg]. by destruct one_before. }
  assert (Hp : p ∈ bck_msps st rt (ssr_beg range)) by (apply last_Some in Hl as [k ->]; apply elem_of_app; right; by left).
  assert (Hpw := Hp). unfold bck_msps in Hpw. apply elem_drop, elem_of_window in Hpw as [_ Hpw]. unfold id in Hpw.
  split; intros [Hm|[Hm Hb]]; auto; [|right; split; [done|lia]]. destruct (Z.le_gt_cases (ssr_beg range / 1000000) m); [right; split; [done|lia]|left].
  exfalso. set (w := window id (bck_lo rt (ssr_beg range) / 1000000) (ssr_beg range / 1000000) (es_msps st)).
  assert (Hmw : m ∈ w) by (apply elem_of_window; unfold id; split; [done|lia]).
  assert (Hws : StronglySorted Z.lt w).
  { pose proof (window_sorted id (bck_lo rt (ssr_beg range) / 1000000) (ssr_beg range / 1000000) (es_msps st)) as Hw. rewrite !map_id in Hw. apply Hw, so_msps, Hst. }
  assert (Hlw : last w = Some p). { unfold bck_msps in Hl. fold w in Hl. by rewrite <- (take_drop (length w - msp_max) w), last_app, Hl. }
  pose proof (last_sorted_max w p m Hws Hlw Hmw). lia.
Qed.

(** The events of a store that are asked for. *)
Definition asked (rt : RetentionTime) (st : EvStore (val i)) (e : Z * val i) : Prop :=
  (exists m, (m ∈ bck_msps st rt (ssr_beg range) \/ (m ∈ es_msps st /\ ssr_beg range / 1000000 <= m < ssr_end range / 1000000)) /\ e ∈ msp_events st m) /\
  scan_beg rt st <= e.1 < ssr_end range.

Lemma scan_events_spec rt st e : store_ok st -> e ∈ scan_events rt st <-> asked rt st e.
Proof.
  intros Hst. unfold scan_events, all_events, asked. setoid_rewrite <- (scan_msps_spec rt st _ Hst). rewrite list_elem_of_In, in_concat. split.
  - intros (l & (m & <- & Hm%list_elem_of_In)%in_map_iff & He%list_elem_of_In). apply elem_of_window in He as [He Hb]. unfold excl in Hb. cbn in Hb.
    split; [by exists m|lia].
  - intros [(m & Hm & He) Hb]. exists (range_events st m (scan_range rt st) RexclNone). rewrite in_map_iff, <- list_elem_of_In. split.
    + exists m. by rewrite <- list_elem_of_In.
    + apply elem_of_window. unfold excl. cbn. split; [done|lia].
Qed.

End Input.

(** ** All keyspaces *)
Section Merged.
  Context {K : Type} `{EqDecision K} {val : K -> Type} {Hval : forall i, EventValueType (val i)} {DE St E : Type}.
  Context (i : K) (si : SeriesInfo).
  Context (unordered : Z -> list (outcome (bck_lsp_error DE) (MspEv * option LspEv)) -> list (outcome (bck_lsp_error DE) (MspEv * option LspEv))).
  Context (Hun : forall n l, unordered n l ≡ₚ l).
  Context (from_string : lspmerge_error (E := multi_error (DE := DE)) -> E).
  Context (opts : ScyllaOptsSubmit) (one_before : bool) (range : ScyllaSeriesRange) (Hrange : range_ok range) (D : nat).

Local Abbreviation Cluster := (ScyllaQueueCluster (val := val) (DE := DE) i).
  Context (store : Cluster -> KeyspaceId -> EvStore (val i)).

#[local] Instance ks_che_laws : MergeableLaws (ChannelEvents (val := val)) (val i) := MergeableLaws_ChannelEvents i.

Definition kss_laws (l : list (Cluster * KeyspaceId)) : Prop := Forall (fun x => ks_laws i si opts range D x.1 x.2 (store x.1 x.2)) l.
Definition ks_scan (x : Cluster * KeyspaceId) : list (Z * val i) := scan_events i one_before range (ks_rt x.2) (store x.1 x.2).

Lemma ckm_inputs_spec l : kss_laws l ->
  exists n inps, (forall fuel, (n <= fuel)%nat -> ckm_inputs (St := St) i si unordered (fun k _ => k) fuel opts one_before range l = Some (Ok inps)) /\
    Forall2 (fun x inp => input_ok i (ks_scan x) inp) l inps.
Proof.
  induction l as [|[cl ks] l IH]; intros Hl; [by exists O, []|]. apply Forall_cons_1 in Hl as [Hx Hl]. destruct (IH Hl) as (n & inps & Hr & Hall).
  destruct (ckm_input_spec (St := St) i si unordered Hun opts one_before range Hrange D cl ks _ Hx) as (k & inp & Hi & Hok).
  exists (k + n)%nat, (inp :: inps). split; [|by constructor]. intros fuel Hf. cbn [ckm_inputs]. rewrite Hi by lia. cbn [mbind option_bind]. by rewrite Hr by lia.
Qed.

Local Abbreviation Item := (Sitemty ReadLog St E (ChannelEvents (val := val))).

(** Only pieces of events and messages, no range marker among them. *)
Definition merged_poll_ok (p : Poll Item) : Prop :=
  match p with Ready (SOk (DataItem (Data c))) => exists k, c = ch_events i k /\ ce_wf k | Ready (SErr _) => False | _ => True end.

Definition map_poll {A B} (f : A -> B) (p : Poll A) : Poll B := match p with Ready x => Ready (f x) | Pending => Pending end.

Lemma ckm_item_poll (p : Poll (Sitemty ReadLog St (lspmerge_error (E := multi_error (DE := DE))) (ContainerEvents (val i)))) : piece_poll_ok p ->
  merged_poll_ok (map_poll (ckm_item i from_string) p) /\ poll_events (H := MergeableTy_ChannelEvents) (map_poll (ckm_item i from_string) p) = poll_events p.
Proof.
  destruct p as [[[[|c]|l|t]|e]|]; try done. cbn. intros Hw. split; [by exists c|]. apply che_list_events.
Qed.

Lemma ckm_items_polls (l : list (Poll (Sitemty ReadLog St (lspmerge_error (E := multi_error (DE := DE))) (ContainerEvents (val i))))) : Forall piece_poll_ok l ->
  Forall merged_poll_ok (map (map_poll (ckm_item i from_string)) l) /\ polls_events (map (map_poll (ckm_item i from_string)) l) = polls_events l.
Proof.
  induction l as [|p l IH]; intros Hl; [done|]. apply Forall_cons_1 in Hl as [[Hp He]%ckm_item_poll Hl]. destruct (IH Hl) as [IHw IHe].
  split; [by constructor|]. unfold polls_events in *. cbn [map concat]. by rewrite He, IHe.
Qed.

Lemma merged_inputs l inps : Forall2 (fun x inp => input_ok (DE := DE) (St := St) i (ks_scan x) inp) l inps ->
  existsb ps_panics inps = false /\ length (map ps_polls inps) = length l /\
  Forall (fun evs => Forall in_poll_ok evs /\ StronglySorted Z.le (polls_events evs).*1) (map ps_polls inps) /\ concat (map polls_events (map ps_polls inps)) ≡ₚ concat (map ks_scan l).
Proof.
  induction 1 as [|x inp l inps (Hpa & Hok & Hs & Hp) _ (IH1 & IH2 & IH3 & IH4)]; [by repeat split|]. cbn. rewrite Hpa, IH2. split; [done|]. split; [done|].
  split; [by constructor|]. by rewrite Hp, IH4.
Qed.

(** What a reader of the merged keyspaces sees. *)
Record reads_all (evs : list (Z * val i)) (s : PollStream Item) : Prop := {
  ra_panics : ps_panics s = false;
  ra_polls : Forall merged_poll_ok (ps_polls s);
  ra_sorted : StronglySorted Z.lt (polls_events (ps_polls s)).*1;
  ra_only : forall e, e ∈ polls_events (ps_polls s) -> 0 < e.1 /\ e ∈ evs;
  ra_all : forall x, x ∈ evs.*1 -> 0 < x -> x ∈ (polls_events (ps_polls s)).*1
}.

Lemma merged_gives l inps : Forall2 (fun x inp => input_ok (DE := DE) (St := St) i (ks_scan x) inp) l inps -> (length l < 200)%nat ->
  exists n stream dedup, (forall fuel, (n <= fuel)%nat -> lpm_run fuel (lpm_new (map ps_polls inps) LSP_LIMIT_DEF) = Some stream /\
      dd_run fuel (dd_new (ps_polls stream)) = Some dedup) /\
    reads_all (concat (map ks_scan l)) (ps_map (ckm_item i from_string) (mkPollStream (ps_polls dedup) (existsb ps_panics inps || ps_panics stream || ps_panics dedup))).
Proof.
  intros Hall Hlen. destruct (merged_inputs l inps Hall) as (Hpa & Hl & Hi & Hev). rewrite <- Hl in Hlen.
  destruct (lpm_new_ok (map ps_polls inps) LSP_LIMIT_DEF Hi Hlen ltac:(unfold LSP_LIMIT_DEF; lia)) as (m & Hnew & Hok & _ & He).
  destruct (lpm_run_gives _ m Hok (Nat.lt_succ_diag_r _)) as (r & Hr & Hrp & Hro & Hrs & Hre).
  assert (Hrok : Forall piece_poll_ok (ps_polls r)). { eapply Forall_impl; [exact Hro|]. intros [[[[|c]|x|t]|e]|]; try done. by intros [[Hw _] _]. }
  destruct (dd_run_gives (ps_polls r) (TsNano_from_ns 0) Hrok Hrs) as (l' & Hd & Hdo & Hds & Hdi & Hda).
  exists (S (length (lpm_events m) + pis_polls (lpm_inps m)) + S (length (ps_polls r)))%nat, r, (mkPollStream l' false). split.
  { intros fuel Hf. rewrite Hnew, Hr by lia. split; [done|]. unfold dd_new. by rewrite Hd by lia. }
  destruct (ckm_items_polls l' Hdo) as [Hmo Hme]. rewrite He, Hev in Hre.
  split; unfold ps_map; cbn [ps_polls ps_panics]; change (map (fun p => match p with Ready x => Ready (ckm_item i from_string x) | Pending => Pending end) l') with (map (map_poll (ckm_item i from_string)) l').
  - by rewrite Hpa, Hrp.
  - done.
  - by rewrite Hme.
  - rewrite Hme. intros e Hin. destruct (Hdi e Hin) as [Hlt Hin']. split; [done|]. by rewrite <- Hre.
  - rewrite Hme. intros x Hx Hlt. apply Hda; [|done]. apply list_elem_of_fmap in Hx as (e & -> & Hin). apply list_elem_of_fmap_2. by rewrite Hre.
Qed.

End Merged.

Lemma sorted_lt_le l : StronglySorted Z.lt l -> StronglySorted Z.le l.
Proof. induction 1 as [|x l _ IH Hf]; constructor; [done|]. eapply Forall_impl; [exact Hf|]. cbn. lia. Qed.

(** ** The read of a channel *)
Section Read.
  Context {K : Type} `{EqDecision K} {val : K -> Type} {Hval : forall i, EventValueType (val i)} {DE R Dk E : Type}.
  Context (i : K) (si : SeriesInfo).
  Context (unordered : Z -> list (outcome (bck_lsp_error DE) (MspEv * option LspEv)) -> list (outcome (bck_lsp_error DE) (MspEv * option LspEv))).
  Context (Hun : forall n l, unordered n l ≡ₚ l).
  Context (from_string : lspmerge_error (E := multi_error (DE := DE)) -> E) (from_error : ckm_error DE -> E).
  Context (opts : ScyllaOptsSubmit) (one_before : bool) (nr : NanoRange) (D : nat).

Local Abbreviation Cluster := (ScyllaQueueCluster (val := val) (DE := DE) i).
Local Abbreviation range := (mkSsr (nr_beg nr) (nr_end nr)).
  Context (Hrange : range_ok range) (store : Cluster -> KeyspaceId -> EvStore (val i)).

#[local] Instance read_che_laws : MergeableLaws (ChannelEvents (val := val)) (val i) := MergeableLaws_ChannelEvents i.

(** The events that are asked for of some keyspaces. *)
Definition channel_asked (l : list (Cluster * KeyspaceId)) (e : Z * val i) : Prop :=
  exists cl ks, (cl, ks) ∈ l /\ asked i one_before range (ks_rt ks) (store cl ks) e.

(** In order of time, each time once, only events that are asked for and for each
    time of them one. An event at the time zero is missing. *)
Definition events_of (l : list (Cluster * KeyspaceId)) (evs : list (Z * val i)) : Prop :=
  StronglySorted Z.lt evs.*1 /\ (forall e, e ∈ evs -> 0 < e.1 /\ channel_asked l e) /\ (forall e, channel_asked l e -> 0 < e.1 -> e.1 ∈ evs.*1).

Lemma channel_scan l e : kss_laws i si opts range D store l -> e ∈ concat (map (ks_scan i one_before range store) l) <-> channel_asked l e.
Proof.
  intros Hl. unfold kss_laws in Hl. rewrite Forall_forall in Hl. rewrite list_elem_of_In, in_concat. split.
  - intros (evs & ([cl ks] & <- & Hx%list_elem_of_In)%in_map_iff & He%list_elem_of_In). exists cl, ks. split; [done|]. apply scan_events_spec; [apply (kl_store _ _ _ _ _ _ _ _ (Hl _ Hx))|done].
  - intros (cl & ks & Hx & He). exists (ks_scan i one_before range store (cl, ks)). rewrite in_map_iff, <- list_elem_of_In. split; [exists (cl, ks); by rewrite <- list_elem_of_In|].
    apply scan_events_spec; [apply (kl_store _ _ _ _ _ _ _ _ (Hl _ Hx))|done].
Qed.

(** The stream of [cl_ks_merged] over keyspaces that answer from stores comes to its
    end without an error, a panic or a limit of a loop, with the events asked for. *)
Lemma cl_ks_merged_gives {St} clusters filter_rts : let l := ckm_keyspaces i clusters filter_rts in
  kss_laws i si opts range D store l -> (length l < 200)%nat ->
  exists n s, (forall fuel, (n <= fuel)%nat -> cl_ks_merged (St := St) i si unordered from_string (fun k _ => k) fuel (TimeRange nr) one_before filter_rts clusters opts = Some (Ok s)) /\
    ps_panics s = false /\ Forall (merged_poll_ok i) (ps_polls s) /\ events_of l (polls_events (ps_polls s)).
Proof.
  intros l Hl Hlen. destruct (ckm_inputs_spec (St := St) i si unordered Hun opts one_before range Hrange D store l Hl) as (n1 & inps & Hin & Hall).
  destruct (merged_gives i from_string one_before range store l inps Hall Hlen) as (n2 & stream & dedup & Hrun & [H1 H2 H3 H4 H5]).
  eexists (n1 + n2)%nat, _. split; [|split; [exact H1|split; [exact H2|split; [exact H3|split]]]].
  - intros fuel Hf. unfold cl_ks_merged. cbn [SeriesRange_to_time]. change (ScyllaSeriesRange_new _ _) with range. fold l. rewrite Hin by lia. cbn [mbind option_bind].
    destruct (Hrun fuel ltac:(lia)) as [-> Hd]. cbn [mbind option_bind]. by rewrite Hd.
  - intros e He. destruct (H4 e He) as [Hlt He']. split; [done|]. by apply channel_scan.
  - intros e He%channel_scan Hlt; [|done]. apply H5; [by apply list_elem_of_fmap_2|done].
Qed.

Definition no_error (o : RfOut (T := ChannelEvents (val := val)) (L := ReadLog) (R := R) (D := Dk) (E := E)) : Prop := match o with RfOutItem (SErr _) => False | _ => RangeFilter.out_ok o end.

Lemma outs_no_error (inp : list (Poll (RfItem (T := ChannelEvents (val := val)) (L := ReadLog) (R := R) (D := Dk) (E := E)))) outs st : Forall (merged_poll_ok i) inp -> Forall RangeFilter.out_ok outs ->
  concat (map out_rest outs) = map RfOutItem (polls_passed inp) ++ out_end (existsb poll_marks inp) st -> Forall no_error outs.
Proof.
  intros Hi Ho Hr. apply Forall_forall. intros o Hin. rewrite Forall_forall in Ho. specialize (Ho o Hin). destruct o as [[[[|c]|x|t]|e]|e|]; try done. exfalso.
  assert (He : RfOutItem (SErr e) ∈ concat (map (out_rest (T := ChannelEvents (val := val)) (L := ReadLog) (R := R) (D := Dk) (E := E)) outs)).
  { apply list_elem_of_In, in_concat. exists [RfOutItem (SErr e)]. split; [|by left]. apply in_map_iff. exists (RfOutItem (SErr e)). by rewrite <- list_elem_of_In. }
  rewrite Hr in He. apply elem_of_app in He as [He|He].
  - apply list_elem_of_fmap in He as (it & [= <-] & He). apply list_elem_of_In, in_concat in He as (l & (p & <- & Hp%list_elem_of_In)%in_map_iff & He%list_elem_of_In).
    rewrite Forall_forall in Hi. specialize (Hi p Hp). destruct p as [[[[|c]|x|t]|e']|]; cbn in He; try done; by (apply not_elem_of_nil in He || apply list_elem_of_singleton in He).
  - unfold out_end in He. apply elem_of_app in He as [He|He%list_elem_of_singleton]; [|done].
    destruct (existsb poll_marks inp); [by apply list_elem_of_singleton in He|by apply not_elem_of_nil in He].
Qed.

(** C7. A read of a channel from the stores of its clusters, in which the time stands
    still in each poll and goes on only between the polls, gives, of the events
    asked for, exactly those in the range, and before them the last one before it
    when that is asked for; no error is among what it gives, the merged stream is
    one on which the range filter does not fail. (With a time that goes on within
    a poll events can be missing, see [LspMultiReads.lm_loses].) *)
Theorem scylla_read_selects use_rt scyqu : let l := ckm_keyspaces i scyqu ((fun x => [x]) <$> use_rt) in
  kss_laws i si opts range D store l -> (length l < 200)%nat ->
  exists n evs, events_of l evs /\ forall polls fuel, (n <= polls)%nat -> (n <= fuel)%nat ->
    exists outs, scylla_read i si unordered from_string from_error (fun k _ => k) polls fuel (TimeRange nr) one_before use_rt scyqu opts = Some (Ok outs) /\
      Forall no_error outs /\ concat (map out_events outs) = selected nr one_before [] evs.
Proof.
  intros l Hl Hlen. destruct (cl_ks_merged_gives (St := StatsItem R Dk) scyqu ((fun x => [x]) <$> use_rt) Hl Hlen) as (n & s & Hrun & Hp & Hok & Hev).
  destruct s as [inp pa]. cbn [ps_panics ps_polls] in *. subst pa. assert (Hs := Hev). destruct Hs as (Hs & Hin & _).
  assert (Hinv : rf_inv (rf_new inp nr one_before)).
  { split; [done|]. intros _. split; [done|]. split; [done|]. split; [eapply Forall_impl; [exact Hok|]; by intros [[[[|c]|x|t]|e]|]|].
    split; cbn; try done.
    - by apply sorted_lt_le.
    - apply Forall_forall. intros e He. destruct (Hin e He). lia.
    - intros _ _. right. apply Forall_forall. intros e He. destruct (Hin e He) as [_ (cl & ks & _ & _ & Hb)]. cbn in Hb. lia. }
  exists (n + rf_weight (rf_new inp nr one_before) + 1 + length inp + 3)%nat, (polls_events inp). split; [done|]. intros polls fuel Hpo Hfu.
  destruct (rf_drain_spec (S (rf_weight (rf_new inp nr one_before))) (rf_new inp nr one_before) polls fuel Hinv) as (outs & st & Hd & Ho & He & Hr); [lia|lia|change (length inp + 3 <= fuel)%nat; lia|].
  exists outs. split; [|split; [exact (outs_no_error inp outs st Hok Ho Hr)|exact He]]. unfold scylla_read. cbn [NanoRange_try_from]. cbv zeta. rewrite Hrun by lia.
  change ((outs ← rf_drain polls fuel (rf_new inp nr one_before); Some (Ok outs)) = Some (Ok (E := unit) outs)). by rewrite Hd.
Qed.

End Read.

(** ** Examples *)
Module ScyllaReadExample.
#[local] Existing Instance EventValueType_Z.

Definition T0 : Z := 1700000000000.
Definition si : SeriesInfo := mkSeriesInfo 7 NetpodTypes.F64 NetpodTypes.Scalar.
Definition rows1 (m : Z) : list (Z * Z) := if m =? T0 then [(0, 10); (500000, 11)] else if m =? T0 + 10 then [(0, 12)] else [].
Definition rows2 (m : Z) : list (Z * Z) := if m =? T0 - 100 then [(5, 20)] else if m =? T0 + 10 then [(0, 21); (7, 22)] else [].
Definition store1 : EvStore Z := mkEvStore [T0; T0 + 10] rows1.
Definition store2 : EvStore Z := mkEvStore [T0 - 100; T0 + 10] rows2.
Definition ks1 : KeyspaceId := mkKeyspaceId "short" Short.
Definition ks2 : KeyspaceId := mkKeyspaceId "long" Long.
Definition store_of (ks : KeyspaceId) : EvStore Z := match ks_rt ks with Short => store1 | _ => store2 end.

Definition cluster : ScyllaQueueCluster (K := unit) (val := fun _ => Z) (DE := unit) tt :=
  mkCluster tt "a" [ks1; ks2] (opts_from_config_v0 (mkConfOpts false false true)) (fun ks => store_db (store_of ks) 2 1).
Definition nr : NanoRange := mkNanoRange ((T0 + 1) * 1000000) ((T0 + 11) * 1000000).
Definition unordered (_ : Z) (l : list (outcome (bck_lsp_error unit) (MspEv * option LspEv))) := rev l.

Definition opts : ScyllaOptsSubmit := opts_no_choice.
Definition no_text (_ : lspmerge_error (E := multi_error (DE := unit))) : unit := tt.

Lemma rows_ok (store : EvStore Z) : es_msps store = [T0; T0 + 10] \/ es_msps store = [T0 - 100; T0 + 10] ->
  (forall m, exists k l, es_rows store m = l /\ T0 - 100 <= k <= T0 + 10 /\ (l = [] \/ m = k) /\ StronglySorted Z.lt l.*1 /\ Forall (fun r => 0 <= r.1 <= 500000) l) -> store_ok store.
Proof.
  intros Hm Hr. assert (HT : T0 = 1700000000000) by done. split.
  - destruct Hm as [-> | ->]; repeat constructor; lia.
  - destruct Hm as [-> | ->]; repeat constructor; lia.
  - intros m. destruct (Hr m) as (k & l & -> & _ & _ & Hs & _). done.
  - intros m r Hin. destruct (Hr m) as (k & l & Hl & Hk & [Hk'|Hk'] & _ & Hf); rewrite Hl in Hin; [subst; rewrite Hk' in Hin; by apply not_elem_of_nil in Hin|].
    rewrite Forall_forall in Hf. specialize (Hf r Hin). lia.
Qed.

Lemma store_of_ok ks : store_ok (store_of ks).
Proof.
  assert (HT : T0 = 1700000000000) by done.
  assert (H1 : store_ok store1).
  { apply rows_ok; [by left|]. intros m. cbn [es_rows store1]. unfold rows1.
    destruct (Z.eqb_spec m T0); [exists T0; eexists|destruct (Z.eqb_spec m (T0 + 10)); exists (T0 + 10); eexists];
      (split; [done|]; split; [lia|]; split; [auto|]; split; [repeat constructor|repeat constructor; cbn; lia]). }
  assert (H2 : store_ok store2).
  { apply rows_ok; [by right|]. intros m. cbn [es_rows store2]. unfold rows2.
    destruct (Z.eqb_spec m (T0 - 100)); [exists (T0 - 100); eexists|destruct (Z.eqb_spec m (T0 + 10)); exists (T0 + 10); eexists];
      (split; [done|]; split; [lia|]; split; [auto|]; split; [repeat constructor|repeat constructor; cbn; lia]). }
  unfold store_of. by destruct (ks_rt ks).
Qed.

Lemma rows_few ks m : Z.of_nat (length (es_rows (store_of ks) m)) <= 812412.
Proof. unfold store_of. destruct (ks_rt ks); cbn [es_rows store1 store2]; unfold rows1, rows2; repeat case_match; cbn; lia. Qed.

Lemma cluster_laws l : Forall (fun x => x.1 = cluster) l -> kss_laws tt si opts (mkSsr (nr_beg nr) (nr_end nr)) 3 (fun _ ks => store_of ks) l.
Proof.
  intros Hl. eapply Forall_impl; [exact Hl|]. intros [cl ks] Hcl. cbn [fst snd] in *. subst cl. split; cbn [fst snd].
  - apply store_of_ok.
  - by apply (store_db_laws (store_of ks) 2 1).
  - apply (bool_decide_unpack _). unfold ks_rt. by destruct ks as [? []]; vm_compute.
  - intros _. apply rows_few.
Qed.

End ScyllaReadExample.

Section ScyllaReadExamples.
Import ScyllaReadExample.
#[local] Existing Instance EventValueType_Z.

Lemma scylla_read_selects_witness :
  exists n evs, events_of (DE := unit) tt true nr (fun _ ks => store_of ks) [(cluster, ks1); (cluster, ks2)] evs /\
    forall polls fuel, (n <= polls)%nat -> (n <= fuel)%nat ->
    exists outs, scylla_read (R := unit) (Dk := unit) (E := unit) tt si unordered no_text (fun _ => tt) (fun k _ => k) polls fuel (TimeRange nr) true None [cluster] opts = Some (Ok outs) /\
      Forall (no_error tt) outs /\ concat (map (out_events (H0 := MergeableLaws_ChannelEvents tt)) outs) = selected nr true [] evs.
Proof.
  apply (scylla_read_selects tt si unordered (fun _ l => Permutation_sym (Permutation_rev l)) no_text (fun _ => tt) opts true nr 3 ltac:(unfold range_ok; cbn; unfold T0; lia) (fun _ ks => store_of ks) None [cluster]).
  - by apply cluster_laws; repeat constructor.
  - cbn. lia.
Defined.

(** The read of the example. *)
Example scylla_read_run :
  option_map (fun o => match o with Ok outs => concat (map (out_events (H0 := MergeableLaws_ChannelEvents tt)) outs) | _ => [] end)
    (scylla_read (R := unit) (Dk := unit) (E := unit) tt si unordered no_text (fun _ => tt) (fun k _ => k) 400 400 (TimeRange nr) true None [cluster] opts) =
  Some [((T0 * 1000000 + 500000), 11); ((T0 + 10) * 1000000, 12); ((T0 + 10) * 1000000 + 7, 22)].
Proof. vm_compute. reflexivity. Qed.

End ScyllaReadExamples.
